(* ===== verification/_CoqProject ===== *)
-Q . S2P
Prelude.v
Core.v
EncodingConfig.v
Redstuff.v
Mapping.v
Merkle.v
Metadata.v
Symbols.v
ReedSolomon.v
ProductCode.v
RecoverySymbols.v
Slivers.v
SliverProps.v
Loops.v
BlobEncoder.v
SymbolVectors.v
BlobEncoderProps.v
LegacyEncoder.v
BlobDecoder.v
BlobDecoderProps.v
BlobReads.v
XorCode.v
EncodingProps.v
EncodingExamples.v
PermBlobInfo.v
BlobInfoV1.v
BlobInfoV2.v
BlobInfoTable.v
Batches.v
BlobInfoRepr.v
BlobInfoRefinement.v
BlobInfoSafety.v
BlobInfoEvents.v
BlobInfoProps.v
BlobInfoRecovery.v
BlobInfoStatus.v
EventCursor.v
NodeStorage.v
NodeStorageProps.v
ShardSync.v
ShardSyncProps.v
ShardTransfer.v
NodeStorageExamples.v
QuiltIndex.v
Quilt.v
QuiltLayout.v
QuiltReaders.v
QuiltDecoders.v
QuiltSymbolSize.v
QuiltEncoder.v
QuiltProps.v
QuiltSlivers.v
QuiltExamples.v
MoveStd.v
ApportionmentQueue.v
Apportionment.v
Committee.v
Staking.v
StakingProps.v
StakingEpochs.v
StakingPool.v
StakingContract.v
StakingPoolProps.v
StakingContractProps.v
StakingSteady.v
StakingExamples.v
StorageAccounting.v
Certificates.v
SystemObjects.v
SystemState.v
SystemContract.v
SystemAccounting.v
SystemEpochs.v
SystemProps.v
SystemInvariant.v
EventBlobCertification.v
ChainEvents.v
NodeEvents.v
ChainNode.v
SystemExamples.v
