(* ===== verification/Prelude.v ===== *)
(** * Walrus: verified models of the core library, the storage node and the contracts

    Walrus stores blobs on a committee of storage nodes that is organised by
    contracts on Sui.  A client encodes a blob into pairs of slivers, one pair
    per shard, commits to them with Merkle trees and registers the blob on
    chain; nodes keep slivers and metadata as long as some object on chain
    refers to the blob.  This library models the parts of the program that
    decide whether data is encoded, assigned, kept and deleted correctly, and
    proves what the rest of the program relies on.

    ** Conventions

    Machine integers are [Z] with their width written at each operation:
    [arith w v] is the result of an arithmetic operation on [w]-bit unsigned
    integers, which panics, or wraps around, as the class [Build] says the
    program was compiled (overflow checks and debug assertions).  A fallible
    computation is an [outcome E A]: [Ok], [Err] with the source's error, or
    [Panic]; [total A] is an outcome without errors.  Loops that are not
    structural take fuel and panic without it; each is proved to return with
    the fuel its caller passes.  Code of other packages is a parameter: the
    hash function of the Merkle trees is the class [HashFunction], and the
    erasure code of the crate reed_solomon_simd is the class [ReedSolomonSimd]
    of its operations, with its documented behaviour in [ReedSolomonSpec] (which
    parameters it supports, that recovery shards are a function of the original
    shards, that any [k] shards restore the others, errors and reuse) and
    [ReedSolomonLinear] (the code is linear over bytewise exclusive or).

    ** Files

    - [Prelude] (this file): outcomes and their notation, machine arithmetic,
      generic lemmas, the hint database and tactics.
    - [Core]: crates/walrus-core/src/bft.rs, by_axis.rs and the types of lib.rs,
      with the order in which column families are iterated.
    - [EncodingConfig]: encoding/config.rs and encoding/utils.rs; how many
      source symbols a committee uses and every size computed from them.
    - [Redstuff]: the contract's copy of the size computation
      (contracts/walrus/sources/system/redstuff.move and encoding.move) and its
      agreement with walrus-core.
    - [Mapping]: encoding/mapping.rs, which shard stores which sliver pair.
    - [Merkle]: merkle.rs, trees and proofs over an abstract hash function.
    - [Metadata]: metadata.rs and the blob ID of lib.rs; what a verified blob ID
      says about metadata.
    - [Symbols], [RecoverySymbols]: encoding/symbols.rs, buffers of symbols, and
      symbols that are proved against the metadata to lie on a sliver.
    - [ReedSolomon]: encoding/basic_encoding.rs, the one-dimensional encoder and
      decoder around reed_solomon_simd, and what they compute.
    - [ProductCode]: the code matrix of a blob; encoding rows and columns
      commutes because the code is linear.
    - [Slivers]: encoding/slivers.rs and inconsistency.rs, slivers, their
      verification and recovery, and inconsistency proofs; [SliverProps]: these
      operations on the slivers of a code matrix.
    - [BlobEncoder]: the encoders of encoding/blob_encoding.rs.  [Loops],
      [SymbolVectors], [BlobEncoderProps] and [LegacyEncoder] compute what their
      loops write, and that it is the code matrix.
    - [BlobDecoder]: the decoder of encoding/blob_encoding.rs and the reads of
      encoding/config.rs with their consistency checks.  [BlobDecoderProps]
      follows its workspace; [BlobReads] shows which blobs a
      checked read can return for arbitrary metadata.
    - [XorCode]: a small code that satisfies the laws asked of
      reed_solomon_simd.
    - [EncodingProps]: the promises of encoding, reading and recovery, and
      [EncodingExamples]: them at concrete inputs, with two inputs on which
      checks of the code accept too much.
    - [PermBlobInfo], [BlobInfoV1], [BlobInfoV2]: the records of
      crates/walrus-service/src/node/storage/blob_info/ and the merges that
      update them.
    - [BlobInfoTable]: storage/blob_info.rs, the tables of a storage node with
      every operation that changes them (events, recovery, storage pools,
      garbage collection, removal of entries).
    - [Batches]: the batch loop of common/utils.rs over a table.
    - [BlobInfoRepr], [BlobInfoRefinement], [BlobInfoSafety],
      [BlobInfoEvents]: the simulation.  An aggregate entry is a summary of the
      objects of one blob; [object_step] and [pooled_step] are the abstract
      steps of one object, and each merge computes the summary after the step.
      [table_inv] extends this to the whole table and every operation keeps it.
    - [BlobInfoProps]: the step relation [table_step], reachable states and the
      promises of the table.
    - [BlobInfoRecovery]: recovery with incomplete history against the chain.
    - [BlobInfoStatus]: the status reported to clients (api.rs of
      crates/walrus-storage-node-client).
    - [EventCursor]: storage/event_sequencer.rs and event_cursor_table.rs.
    - [NodeStorage]: node/storage.rs, the tables of storage/shard.rs and the
      phases of node/garbage_collector.rs.  [NodeStorageProps] interleaves their
      operations in the step relation [storage_step], with the reads and commits
      of the transactions that delete data as separate steps.
    - [ShardSync]: the synchronization of a shard that moves to the node
      (storage/shard.rs, both sides of the transfer, SST buffers).
      [ShardSyncProps]: the step relation [sync_step] of a node that
      synchronizes, for arbitrary answers; [ShardTransfer]: the transfer from an
      owner that runs the same code; [NodeStorageExamples]: runs of the storage and
      of the synchronization.
    - [QuiltIndex], [Quilt]: encoding/quilt_encoding.rs and the
      quilt types of metadata.rs; the index, the encoder, the symbol size and the
      two readers of a quilt, for the abstract serialization [Bcs].
      [QuiltLayout], [QuiltReaders], [QuiltDecoders], [QuiltSymbolSize] and
      [QuiltEncoder] follow them on the columns of the quilt as one sequence of
      bytes; [QuiltProps] and [QuiltSlivers] are the promises, the latter on
      slivers of the encoded quilt; [QuiltExamples] runs them.
    - [MoveStd]: what the contracts use of the library of Move and Sui.
    - [ApportionmentQueue], [Apportionment], [Committee]: the heap of
      contracts/walrus/sources/staking/apportionment_queue.move, the method of
      D'Hondt of staking_inner.move, and committee.move with utils/sort.move.
    - [Staking]: active_set.move and the selection of committees and the epochs of
      staking_inner.move.  [StakingProps]: the active set and the selection;
      [StakingEpochs]: the step relation [staking_step] with its invariant
      [staking_inv], in which the stake of the nodes changes at will.
    - [StakingPool]: staking_pool.move with pending_values.move, exchange_rate.move,
      staked_wal.move and auth.move, the stake, shares and rewards of one node.
      [StakingContract]: the operations of staking_inner.move on the pools of all
      nodes, slashing.move, and every call of staking.move ([staking_execute]).
      [StakingPoolProps]: pending values, conversions and epoch changes in closed
      form, and the invariant [pool_inv]: the shares of the pool cover its stakes.
      [StakingContractProps]: the step relation [contract_step], that it refines
      [staking_step], where WAL goes, what the votes at the end of an epoch decide,
      and the votes on slashing in the log of a run ([contract_log]).
      [StakingSteady]: nodes that stay in the committee keep [pool_inv] and have
      WAL ([backed]), and pools that are [blocked].  [StakingExamples]: runs of all
      of this.
    - [StorageAccounting], [Certificates], [SystemObjects], [SystemState],
      [SystemContract]: the system contract
      (contracts/walrus/sources/system.move and system/): storage resources with
      the ring buffer of future epochs, certificates and their messages, blobs,
      storage pools and event blobs, the state with its operations, and every
      call as a transaction on the objects of the chain.
    - [SystemAccounting], [SystemEpochs], [SystemProps]: what each operation does
      to the accounts; [SystemInvariant]: the step relation [chain_step] with its
      invariant; [EventBlobCertification]: the attestations of a round;
      [SystemExamples]: a run of the contract, and of a node that follows it.
    - [ChainEvents]: what the events of the contract announce.  [NodeEvents]: their
      conversion and handling in the node (events.rs of walrus-sui and
      [process_event_impl] of node.rs).  [ChainNode]: the step relation
      [world_step] of the contract and a node that follows it, which joins the
      theorems on the contract with those on the blob info table.

    ** Results

    - Encoding parameters: every committee gets Byzantine fault tolerant
      parameters without a panic; symbol, sliver and blob sizes are exact at
      their limits; the contract and the Rust code agree on the encoded length.
    - Shard assignment: the pair and shard mappings are inverse bijections and
      [rotate_pairs] realises them.
    - Merkle trees: the in-place construction computes the recursive root,
      every leaf has a proof that verifies, and a proof that verifies proves
      its leaf unless it exhibits a hash collision.
    - Encoding: the three encoders agree, and what they return verifies; any
      enough slivers decode to the blob; any [n - f] pairs suffice; two checked
      reads of the same metadata agree even if the blob was encoded wrongly.
    - Recovery: verified symbols recover exactly the lost sliver, whoever sends
      them, enough holders can always recover it, and no inconsistency proof
      against a correctly encoded blob is accepted.
    - Blob info: for every history of events, redelivered events, epoch
      changes, garbage collection and removals, no operation panics, data of a
      live blob is never deletable, certified blobs are reported certified, the
      consistency checks of the code hold, garbage collection removes exactly
      the expired objects and leaves precise entries, redelivery changes
      nothing, and recovery without the events of regular blobs that have ended
      agrees with the chain.
    - Status: what clients are told agrees with the entries and the objects.
    - Node storage: whatever is interleaved, slivers and metadata of a live blob
      are never deleted; a garbage collection pass deletes the data of exactly
      the blobs that nothing refers to any more, and nothing else.
    - Event cursor: the stored cursor is the end of the contiguous prefix of
      finished events, and a crash loses no finished prefix.
    - Shard synchronization: a shard becomes active only with a sliver of both
      types for every blob that was certified, across errors and restarts; an
      owner that answers hands over all it has within as many requests as there
      are certified blobs.  With SST ingestion this fails, by a concrete run.
    - Quilts: a quilt returns exactly the blobs it was built of, from the whole
      quilt and from the slivers of their columns; building fails or panics only
      on the listed inputs; decoding arbitrary bytes never panics; slivers never
      give another result than the whole quilt; the symbol size is the least that
      fits.  A quilt whose last blob is empty can panic, by a concrete run.
    - Staking: the heap pops a maximum; the distribution of shards is the only one
      that follows the method of D'Hondt; transitions move no more shards than
      they have to; in every reachable state the committees assign each shard to
      one node; an epoch change needs the confirmation of more than two thirds of
      the shards.
    - Staking pools: the contract with its pools refines these steps, so all of this
      holds for it; no WAL is lost or created; voting ends with the right committee
      and the largest capacity that a quorum offers; the commission of a node is burnt
      exactly if a quorum of the current committee has voted for it.  The pool of a node that is never out of the
      committee for a whole epoch after it was in one never holds up an epoch change,
      and its stakes never lose value.  For a node that leaves and returns both can
      fail: a concrete run ends in a state from which the epoch never changes again.
    - System contract: a certificate is accepted exactly if enough weight of the
      committee signed; in every reachable state the contract accounts for all
      storage that users hold, in every epoch, all payments are accounted for, and
      storage pools have room for their blobs; an event blob is certified only
      with the attestations of different nodes that are a quorum; a change of
      epochs distributes the rewards of the old epoch and does not abort.
    - Contract and node: for every interleaving of calls, events and maintenance,
      the node handles the events of the contract, and once it has caught up keeps
      every blob that lives on chain.

    ** Assumptions and bounds

    The chain's guarantees are the conditions [event_ok] on events: object IDs
    are fresh, later events of an object repeat what is known of it, only
    certified live blobs are extended, events are about the current epoch or
    an earlier one.  Counters are 32 bits wide, so the theorems assume fewer
    than 2^32 - 1 objects per blob ([room]).  Merkle soundness assumes that the
    hashes computed for one verification do not collide and are not the
    all-zero digest ([collision_free]); the theorems on blob IDs, recovery,
    inconsistency proofs and reads make the same assumption about the strings
    they hash, which their statements list.  Encoding assumes that
    reed_solomon_simd supports the numbers of symbols and the symbol size
    ([supported]).  The batch loop gets one more unit of
    fuel than the table has entries, which is enough because every batch but
    the last moves the cursor; the loop of requests of a shard transfer gets the
    number of certified blobs, since every answer moves the iterator.  A commit
    of a transaction is assumed to succeed only if the entry it read for update
    is unchanged, which is what optimistic transactions of RocksDB promise;
    whether a buffered SST file is accepted is an argument.  Deny-list events are
    excluded: the code has a [todo!()] for them.  The laws of [Bcs] that quilts
    rely on are [BcsSpec] and [BcsIndexSpec]: values round trip, and take the
    bytes they say.  The loops of quilts get the number of bytes to read or to
    write, the search for a symbol size its upper bound, the loops of the heap
    the number of its entries, and the distribution of shards their number; each
    iteration uses up one.  Aborts of Move's arithmetic and vectors are panics,
    aborts of [assert!] are errors.  The search for an
    exchange rate gets the number of epochs since the activation of the pool, and
    the votes on prices one unit more than there are votes.

    The curve of Sui is the class [Bls12381] with the laws of its group in
    [BlsSpec].  The committees that the system contract gets from the staking
    contract are those that [call_committee] describes, new objects get fresh IDs
    ([call_fresh]), and arguments of calls are unsigned integers of their types.
    The staking contract gets rewards for the members of its committee, and there are
    epochs left ([staking_allowed]); that the amounts of an epoch change fit in 64
    bits is the condition [amounts_fit] where it matters.  The proof of possession of a key
    is an argument of the registration.
    For the node that follows the contract, [event_ok] is proved of the events of
    the contract rather than assumed.  The two kinds of events that the node
    answers with a panic, updates of the protocol version and deletions of
    deny-listed blobs, are named where a theorem excludes them.

    ** Not modelled

    Databases, networking, asynchronous scheduling, logging, metrics and
    configuration files are not modelled; write batches are applied in order
    and merge operands when they are written.  Serialization (BCS, JSON) and
    signatures are third-party code.  The pending caches, the backoff and the
    committee service of a node, the client's orchestration of requests, the
    aggregator, publisher, proxy and the command line are mostly asynchronous
    code around such calls.  The files of event blobs are written and read through
    the file system and checkpoints of Sui.  Of the contracts, the
    descriptions and keys of nodes, shared blobs, the attributes that users attach to
    blobs, subsidies, exchanges and upgrades are left out. *)

From Stdlib Require Export Strings.Byte.
From stdpp Require Export prelude list gmap strings.

#[global] Open Scope Z_scope.

(** ** Outcomes of Rust code

    A Rust function returns a value, returns an error value ([Err]), or
    panics.  [outcome E A] has one constructor for each; functions without an
    error type are polymorphic in [E]. *)
Inductive outcome (E A : Type) : Type :=
| Ok (a : A)
| Err (e : E)
| Panic.
Arguments Ok {E A} a.
Arguments Err {E A} e.
Arguments Panic {E A}.

#[export] Instance outcome_ret {E} : MRet (outcome E) := fun A a => Ok a.
#[export] Instance outcome_bind {E} : MBind (outcome E) := fun A B f m =>
  match m with
  | Ok a => f a
  | Err e => Err e
  | Panic => Panic
  end.
#[export] Instance outcome_fmap {E} : FMap (outcome E) := fun A B f m =>
  match m with
  | Ok a => Ok (f a)
  | Err e => Err e
  | Panic => Panic
  end.

#[export] Instance outcome_eq_dec {E A} `{EqDecision E, EqDecision A} :
  EqDecision (outcome E A).
Proof. solve_decision. Defined.

(** [Result::map_err], and the conversion the [?] operator applies. *)
Definition map_err {E F A} (f : E -> F) (m : outcome E A) : outcome F A :=
  match m with
  | Ok a => Ok a
  | Err e => Err (f e)
  | Panic => Panic
  end.

(** [Result::ok]: the error is dropped, a panic stays a panic. *)
Definition ok {E F A} (m : outcome E A) : outcome F (option A) :=
  match m with
  | Ok a => Ok (Some a)
  | Err _ => Ok None
  | Panic => Panic
  end.

(** [Option::ok_or] and [Option::expect]. *)
Definition ok_or {E A} (o : option A) (e : E) : outcome E A :=
  match o with Some a => Ok a | None => Err e end.
Definition expect {E A} (o : option A) : outcome E A :=
  match o with Some a => Ok a | None => Panic end.

(** [Result::expect]: an error becomes a panic. *)
Definition expect_ok {E F A} (m : outcome E A) : outcome F A :=
  match m with Ok a => Ok a | _ => Panic end.

(** The [ensure!] macro, [assert!], and [debug_assert!] (below). *)
Definition ensure {E} (c : bool) (e : E) : outcome E unit :=
  if c then Ok tt else Err e.
Definition assert {E} (c : bool) : outcome E unit :=
  if c then Ok tt else Panic.

Definition is_ok {E A} (m : outcome E A) : bool :=
  match m with Ok _ => true | _ => false end.

Lemma bind_Ok {E A B} (m : outcome E A) (f : A -> outcome E B) (b : B) :
  m ≫= f = Ok b <-> exists a, m = Ok a /\ f a = Ok b.
Proof. destruct m; cbn; naive_solver. Qed.

Lemma ensure_Ok {E} (c : bool) (e : E) u : ensure c e = Ok u <-> c = true.
Proof. destruct c, u; cbn; naive_solver. Qed.

Lemma ensure_Err {E} (c : bool) (e e' : E) :
  ensure c e = Err e' <-> c = false /\ e = e'.
Proof. destruct c; cbn; naive_solver. Qed.

Lemma map_err_Ok {E F A} (f : E -> F) (m : outcome E A) a :
  map_err f m = Ok a <-> m = Ok a.
Proof. destruct m; cbn; naive_solver. Qed.

Lemma ok_or_Ok {E A} (o : option A) (e : E) a : ok_or o e = Ok a <-> o = Some a.
Proof. destruct o; cbn; naive_solver. Qed.

Lemma expect_Ok {E A} (o : option A) a : expect (E:=E) o = Ok a <-> o = Some a.
Proof. destruct o; cbn; naive_solver. Qed.

Lemma expect_ok_Ok {E F A} (m : outcome E A) a :
  expect_ok (F:=F) m = Ok a <-> m = Ok a.
Proof. destruct m; cbn; naive_solver. Qed.

(** ** Machine integers

    An unsigned integer of [w] bits is a [Z] in [0, 2^w).  Arithmetic that
    leaves the range panics in builds with overflow checks and wraps around
    otherwise; [debug_assert!] is active only in builds with debug assertions.
    The workspace's release profile enables neither. *)
Class Build := {
  overflow_checks : bool;
  debug_assertions : bool;
}.

Definition dev_build : Build :=
  {| overflow_checks := true; debug_assertions := true |}.
Definition release_build : Build :=
  {| overflow_checks := false; debug_assertions := false |}.

Definition in_uint (w v : Z) : bool := (0 <=? v) && (v <? 2 ^ w).

(** The result [v] of an exact operation, stored back at width [w]. *)
Definition arith `{Build} {E} (w v : Z) : outcome E Z :=
  if in_uint w v then Ok v
  else if overflow_checks then Panic else Ok (v mod 2 ^ w).

Definition debug_assert `{Build} {E} (c : bool) : outcome E unit :=
  if debug_assertions then assert c else Ok tt.

(** [TryFrom] between integer types. *)
Definition try_from (w v : Z) : option Z := if in_uint w v then Some v else None.

(** [NonZero::new]. *)
Definition non_zero (v : Z) : option Z := if v =? 0 then None else Some v.

Definition u16_MAX : Z := 2 ^ 16 - 1.
Definition u32_MAX : Z := 2 ^ 32 - 1.
Definition u64_MAX : Z := 2 ^ 64 - 1.

(** [u64::div_ceil] (the divisor is never zero where it is used). *)
Definition div_ceil (a b : Z) : Z := a / b + (if a mod b =? 0 then 0 else 1).

(** The exact value of [next_multiple_of]. *)
Definition next_multiple (a m : Z) : Z :=
  if a mod m =? 0 then a else a + (m - a mod m).

(** [u64::next_multiple_of]: overflows like an addition, panics for [m = 0]. *)
Definition next_multiple_of `{Build} {E} (w a m : Z) : outcome E Z :=
  if m =? 0 then Panic else arith w (next_multiple a m).

Definition is_multiple_of (a m : Z) : bool :=
  if m =? 0 then a =? 0 else a mod m =? 0.

Definition saturating_add (w a b : Z) : Z := Z.min (a + b) (2 ^ w - 1).
Definition saturating_sub (a b : Z) : Z := Z.max 0 (a - b).
Definition checked_sub (a b : Z) : option Z := if b <=? a then Some (a - b) else None.
Definition checked_mul (w a b : Z) : option Z := try_from w (a * b).

Lemma in_uint_spec w v : in_uint w v = true <-> 0 <= v < 2 ^ w.
Proof. unfold in_uint. lia. Qed.

Lemma arith_in_range `{Build} {E} w v :
  0 <= v < 2 ^ w -> arith (E:=E) w v = Ok v.
Proof. intros Hv. unfold arith. by rewrite (proj2 (in_uint_spec w v) Hv). Qed.

(** [arith] never produces an error value, and its result is in range. *)
Lemma arith_Ok_range `{Build} {E} w v r :
  0 <= w -> arith (E:=E) w v = Ok r -> 0 <= r < 2 ^ w.
Proof.
  intros Hw. unfold arith. destruct (in_uint w v) eqn:Hin.
  - intros [= <-]. by apply in_uint_spec.
  - destruct overflow_checks; [done|]. intros [= <-].
    apply Z.mod_pos_bound. by apply Z.pow_pos_nonneg.
Qed.

Lemma try_from_Some w v r : try_from w v = Some r <-> r = v /\ 0 <= v < 2 ^ w.
Proof.
  unfold try_from. rewrite <- in_uint_spec.
  destruct (in_uint w v); naive_solver.
Qed.

Lemma try_from_None w v : try_from w v = None <-> ~ (0 <= v < 2 ^ w).
Proof.
  unfold try_from. rewrite <- in_uint_spec.
  destruct (in_uint w v); naive_solver.
Qed.

Lemma div_ceil_spec a b : 0 < b ->
  b * (div_ceil a b - 1) < a <= b * div_ceil a b.
Proof.
  intros Hb. unfold div_ceil.
  pose proof (Z.div_mod a b ltac:(lia)) as Hdm.
  pose proof (Z.mod_pos_bound a b Hb).
  destruct (Z.eqb_spec (a mod b) 0); nia.
Qed.

(** [div_ceil] is the least factor that covers [a]. *)
Lemma div_ceil_le_iff a b q : 0 < b -> div_ceil a b <= q <-> a <= b * q.
Proof. intros Hb. pose proof (div_ceil_spec a b Hb). nia. Qed.

Lemma next_multiple_spec a m : 0 < m ->
  a <= next_multiple a m < a + m /\ next_multiple a m mod m = 0.
Proof.
  intros Hm. unfold next_multiple.
  pose proof (Z.mod_pos_bound a m Hm).
  destruct (Z.eqb_spec (a mod m) 0); [lia|]. split; [lia|].
  replace (a + (m - a mod m)) with ((a - a mod m) + 1 * m) by lia.
  rewrite Z.mod_add, Zminus_mod_idemp_r, Z.sub_diag by lia.
  by apply Z.mod_0_l; lia.
Qed.

(** [next_multiple a m] is the least multiple of [m] that is at least [a]. *)
Lemma next_multiple_le_iff a m k : 0 < m -> next_multiple a m <= m * k <-> a <= m * k.
Proof.
  intros Hm. destruct (next_multiple_spec a m Hm) as [Hb Hmod].
  apply Z.mod_divide in Hmod as [c Hc]; [|lia]. split; [lia|]. intros Hk.
  assert (m * (c - 1) < m * k) as Hlt by lia.
  apply Z.mul_lt_mono_pos_l in Hlt; [|done].
  rewrite Hc, (Z.mul_comm c m). apply Z.mul_le_mono_nonneg_l; lia.
Qed.

(** ** Lists as slices and vectors *)

(** The length of a slice as a [usize]. *)
Abbreviation len l := (Z.of_nat (length l)).

(** [slice.rotate_right(k)] for [k <= len]; panics beyond. *)
Definition rotate_right {E A} (k : nat) (l : list A) : outcome E (list A) :=
  if (k <=? length l)%nat
  then Ok (drop (length l - k) l ++ take (length l - k) l)
  else Panic.

(** [slice.chunks(k)]: consecutive pieces of [k] elements, the last one
    possibly shorter.  The fuel is the length of the list. *)
Fixpoint chunks_fuel {A} (fuel k : nat) (l : list A) : list (list A) :=
  match fuel, l with
  | _, [] => []
  | O, _ => []
  | S fuel, _ => take k l :: chunks_fuel fuel k (drop k l)
  end.
Definition chunks {A} (k : nat) (l : list A) : list (list A) :=
  chunks_fuel (length l) k l.

(** [v[a..b]] with Rust's bounds check. *)
Definition slice {E A} (a b : nat) (l : list A) : outcome E (list A) :=
  if ((a <=? b) && (b <=? length l))%nat then Ok (take (b - a) (drop a l)) else Panic.

(** [v[i]]. *)
Definition index {E A} (l : list A) (i : nat) : outcome E A := expect (l !! i).

(** *** Finite sets of nodes or shards *)

Lemma size_union_inter (A B : gset nat) :
  (size (A ∪ B) + size (A ∩ B) = size A + size B)%nat.
Proof.
  rewrite size_union_alt.
  assert (B = (B ∖ A) ∪ (A ∩ B)) as Heq.
  { apply set_eq. intros x. destruct (decide (x ∈ A)); set_solver. }
  assert (size B = size (B ∖ A) + size (A ∩ B))%nat; [|lia].
  rewrite <- size_union by set_solver. by rewrite <- Heq.
Qed.

Lemma quorum_minus (A F : gset nat) : (size A <= size (A ∖ F) + size F)%nat.
Proof.
  assert (A ⊆ (A ∖ F) ∪ F) as Hsub.
  { intros x Hx. destruct (decide (x ∈ F)); set_solver. }
  apply subseteq_size in Hsub. pose proof (size_union_inter (A ∖ F) F). lia.
Qed.

(** Iterating over a list with a loop body that can fail. *)
Fixpoint foldM {E A S} (f : S -> A -> outcome E S) (s : S) (l : list A) : outcome E S :=
  match l with
  | [] => Ok s
  | x :: l => s' ← f s x; foldM f s' l
  end.

Fixpoint mapM_outcome {E A B} (f : A -> outcome E B) (l : list A) : outcome E (list B) :=
  match l with
  | [] => Ok []
  | x :: l => y ← f x; ys ← mapM_outcome f l; Ok (y :: ys)
  end.

Lemma mapM_outcome_ok {E A B} (f : A -> outcome E B) (g : A -> B) l :
  (forall x, x ∈ l -> f x = Ok (g x)) -> mapM_outcome f l = Ok (g <$> l).
Proof.
  induction l as [|x l IH]; intros Hf; cbn [mapM_outcome]; [done|].
  rewrite Hf by set_solver. cbn [mbind outcome_bind]. rewrite IH by set_solver. done.
Qed.

Lemma foldM_app {E A S} (f : S -> A -> outcome E S) s l1 l2 :
  foldM f s (l1 ++ l2) = foldM f s l1 ≫= (fun s' => foldM f s' l2).
Proof.
  revert s. induction l1 as [|x l1 IH]; intros s; cbn; [done|].
  destruct (f s x); cbn; [apply IH|done|done].
Qed.

(** A loop invariant carried through [foldM]. *)
Lemma foldM_invariant {E A S} (I : S -> Prop) (f : S -> A -> outcome E S) s l :
  I s ->
  (forall s x, x ∈ l -> I s -> exists s', f s x = Ok s' /\ I s') ->
  exists s', foldM f s l = Ok s' /\ I s'.
Proof.
  revert s. induction l as [|x l IH]; intros s Hs Hf; cbn; [eauto|].
  destruct (Hf s x) as (s1 & -> & Hs1); [set_solver|done|]. cbn.
  apply IH; [done|]. intros. apply Hf; [set_solver|done].
Qed.

#[export] Instance byte_eq_dec : EqDecision byte := Byte.byte_eq_dec.

(** The value of a byte, and the byte of a value (taken modulo 256). *)
Definition byte_val (b : byte) : Z := Z.of_N (Byte.to_N b).
Definition byte_of (v : Z) : byte := default x00 (Byte.of_N (Z.to_N (v mod 256))).

Lemma byte_val_range b : 0 <= byte_val b < 256.
Proof.
  unfold byte_val. pose proof (Byte.to_N_bounded b). lia.
Qed.

Lemma byte_val_of v : byte_val (byte_of v) = v mod 256.
Proof.
  unfold byte_val, byte_of.
  pose proof (Z.mod_pos_bound v 256 ltac:(lia)) as Hb.
  destruct (Byte.of_N (Z.to_N (v mod 256))) as [b|] eqn:Hof; cbn.
  - apply Byte.to_of_N in Hof. rewrite Hof. lia.
  - apply Byte.of_N_None_iff in Hof. lia.
Qed.

Lemma byte_of_val b : byte_of (byte_val b) = b.
Proof.
  unfold byte_of. rewrite Z.mod_small by apply byte_val_range.
  unfold byte_val. by rewrite N2Z.id, Byte.of_to_N.
Qed.

(** Little-endian encoding on [n] bytes ([to_le_bytes]) and its inverse. *)
Fixpoint le_bytes (n : nat) (v : Z) : list byte :=
  match n with
  | O => []
  | S n => byte_of v :: le_bytes n (v / 256)
  end.

Fixpoint le_value (l : list byte) : Z :=
  match l with
  | [] => 0
  | b :: l => byte_val b + 256 * le_value l
  end.

Lemma length_le_bytes n v : length (le_bytes n v) = n.
Proof. revert v. induction n as [|n IH]; intros v; cbn; [done|]. by rewrite IH. Qed.

Lemma le_value_le_bytes n v : 0 <= v < 256 ^ Z.of_nat n -> le_value (le_bytes n v) = v.
Proof.
  revert v. induction n as [|n IH]; intros v Hv; cbn [le_bytes le_value].
  { change (256 ^ Z.of_nat 0) with 1 in Hv. lia. }
  rewrite byte_val_of. rewrite Nat2Z.inj_succ, Z.pow_succ_r in Hv by lia.
  rewrite IH; [pose proof (Z.div_mod v 256 ltac:(lia)); lia|].
  split; [apply Z.div_pos; lia|apply Z.div_lt_upper_bound; lia].
Qed.

(** ** Automation *)

(** Case analysis on the first [match] or [if] of a hypothesis or the goal. *)
Ltac case_in H :=
  match type of H with
  | context [match ?x with _ => _ end] => destruct x eqn:?
  end.

(** Reads off a successful run: every [Ok] of a bind is split into its parts. *)
Ltac outcome_inv :=
  repeat match goal with
  | H : (_ ≫= _) = Ok _ |- _ => apply bind_Ok in H as (? & ? & H)
  | H : ensure _ _ = Ok _ |- _ => apply ensure_Ok in H
  | H : map_err _ _ = Ok _ |- _ => apply map_err_Ok in H
  | H : ok_or _ _ = Ok _ |- _ => apply ok_or_Ok in H
  | H : expect _ = Ok _ |- _ => apply expect_Ok in H
  | H : expect_ok _ = Ok _ |- _ => apply expect_ok_Ok in H
  | H : Ok _ = Ok _ |- _ => injection H as H
  | H : mret _ = Ok _ |- _ => injection H as H
  end; subst.

(** Arithmetic at machine width: unfolds the constants and powers. *)
Ltac uint_lia :=
  unfold u16_MAX, u32_MAX, u64_MAX in *;
  change (2 ^ 8) with 256 in *; change (2 ^ 16) with 65536 in *;
  change (2 ^ 32) with 4294967296 in *;
  change (2 ^ 64) with 18446744073709551616 in *; lia.

(** Runs the leading machine operation of the goal's left-hand side, its range
    proved by [tac]. *)
Ltac arith_step tac :=
  match goal with
  | |- mbind _ (arith ?w ?v) = _ =>
    rewrite (arith_in_range w v) by tac; cbn [mbind outcome_bind]
  end.

Create HintDb walrus discriminated.
Create Rewrite HintDb walrus_len.
#[export] Hint Rewrite @length_app @length_take @length_drop @length_replicate
  @length_fmap @length_insert : walrus_len.

(** Closes goals about lengths of spliced lists. *)
Ltac len_solve := autorewrite with walrus_len in *; try lia.
