(* ===== verification/Core.v ===== *)
(** * Core vocabulary of [walrus-core]

    [Axis] and the complementary axis (by_axis.rs, encoding/common.rs), the
    encoding types and their limits (lib.rs), the Byzantine fault tolerance
    numbers (bft.rs) and the index types with the conversion between sliver
    indices and sliver-pair indices (lib.rs).  [NonZeroU16] values are [Z]s in
    [1, 2^16).  Blob IDs are here because every component names them,
    with the order in which the database iterates over its keys. *)

From stdpp Require Import sorting.
From S2P Require Import Prelude.

(** A [NonZeroU16] / [NonZeroU32]. *)
Definition is_nzu (w n : Z) : Prop := 1 <= n < 2 ^ w.
Abbreviation is_nzu16 := (is_nzu 16).

(** [BlobId]: 32 bytes. *)
Record BlobId := mk_blob_id { blob_id_bytes : list byte }.

#[export] Instance BlobId_eq_dec : EqDecision BlobId.
Proof. solve_decision. Defined.

#[export] Instance byte_countable : Countable byte :=
  inj_countable Byte.to_N Byte.of_N Byte.of_to_N.

#[export] Instance BlobId_countable : Countable BlobId :=
  inj_countable' blob_id_bytes mk_blob_id (fun '(mk_blob_id _) => eq_refl).

(** ** Axes *)

(** The marker types [Primary] and [Secondary] of the [EncodingAxis] trait and
    the runtime enum [Axis] ([SliverType]) carry the same information; one type
    models both. *)
Inductive Axis := Primary | Secondary.

#[export] Instance Axis_eq_dec : EqDecision Axis.
Proof. solve_decision. Defined.

Definition is_primary (a : Axis) : bool :=
  match a with Primary => true | Secondary => false end.

Definition orthogonal (a : Axis) : Axis :=
  match a with Primary => Secondary | Secondary => Primary end.

Lemma orthogonal_involutive a : orthogonal (orthogonal a) = a.
Proof. by destruct a. Qed.

(** ** Encoding types *)

Inductive EncodingType := RS2.

#[export] Instance EncodingType_eq_dec : EqDecision EncodingType.
Proof. solve_decision. Defined.

Definition required_alignment (t : EncodingType) : Z :=
  match t with RS2 => 2 end.

Definition max_symbol_size (t : EncodingType) : Z :=
  match t with RS2 => u16_MAX - 1 end.

Definition encoding_type_to_u8 (t : EncodingType) : Z :=
  match t with RS2 => 1 end.

Inductive InvalidEncodingType := InvalidEncodingTypeError.

Definition encoding_type_try_from_u8 (v : Z) : outcome InvalidEncodingType EncodingType :=
  if v =? 1 then Ok RS2 else Err InvalidEncodingTypeError.

(** ** Byzantine fault tolerance *)

Definition max_n_faulty (n : Z) : Z := (n - 1) / 3.

(** [min_n_correct] with its conversion back to a non-zero integer; the
    [expect] is the [Panic] branch. *)
Definition min_n_correct {E} (n : Z) : outcome E Z :=
  expect (non_zero (n - max_n_faulty n)).

Lemma max_n_faulty_bounds n : 1 <= n -> 0 <= max_n_faulty n /\ 3 * max_n_faulty n < n.
Proof.
  intros Hn. unfold max_n_faulty.
  pose proof (Z.div_mod (n - 1) 3 ltac:(lia)).
  pose proof (Z.mod_pos_bound (n - 1) 3 ltac:(lia)). lia.
Qed.

Lemma min_n_correct_eq {E} n : 1 <= n ->
  min_n_correct (E:=E) n = Ok (n - max_n_faulty n).
Proof.
  intros Hn. destruct (max_n_faulty_bounds n Hn). unfold min_n_correct, non_zero.
  by destruct (Z.eqb_spec (n - max_n_faulty n) 0); [lia|].
Qed.

(** ** Indices

    [SliverIndex], [SliverPairIndex] and [ShardIndex] are [u16] newtypes. *)
Record SliverIndex := mk_sliver_index { sliver_index_get : Z }.
Record SliverPairIndex := mk_pair_index { pair_index_get : Z }.
Record ShardIndex := mk_shard_index { shard_index_get : Z }.

#[export] Instance SliverIndex_eq_dec : EqDecision SliverIndex.
Proof. solve_decision. Defined.
#[export] Instance SliverPairIndex_eq_dec : EqDecision SliverPairIndex.
Proof. solve_decision. Defined.
#[export] Instance ShardIndex_eq_dec : EqDecision ShardIndex.
Proof. solve_decision. Defined.

Section indices.
Context `{Build}.

(** [SliverPairIndex::to_sliver_index]: [n_shards.get() - self.0 - 1] in [u16]. *)
Definition to_sliver_index {E} (a : Axis) (i : SliverPairIndex) (n_shards : Z) :
    outcome E SliverIndex :=
  if is_primary a then Ok (mk_sliver_index (pair_index_get i))
  else
    d ← arith 16 (n_shards - pair_index_get i);
    r ← arith 16 (d - 1);
    Ok (mk_sliver_index r).

(** [SliverIndex::to_pair_index]. *)
Definition to_pair_index_of_sliver {E} (a : Axis) (i : SliverIndex) (n_shards : Z) :
    outcome E SliverPairIndex :=
  if is_primary a then Ok (mk_pair_index (sliver_index_get i))
  else
    d ← arith 16 (n_shards - sliver_index_get i);
    r ← arith 16 (d - 1);
    Ok (mk_pair_index r).

Lemma to_sliver_index_eq {E} a i n : n < 2 ^ 16 -> 0 <= pair_index_get i < n ->
  to_sliver_index (E:=E) a i n =
    Ok (mk_sliver_index (if is_primary a then pair_index_get i
                         else n - 1 - pair_index_get i)).
Proof.
  intros Hn Hi. unfold to_sliver_index. destruct (is_primary a); [done|].
  rewrite arith_in_range by lia. cbn. rewrite arith_in_range by lia. cbn.
  do 2 f_equal. lia.
Qed.

Lemma to_pair_index_of_sliver_eq {E} a i n : n < 2 ^ 16 -> 0 <= sliver_index_get i < n ->
  to_pair_index_of_sliver (E:=E) a i n =
    Ok (mk_pair_index (if is_primary a then sliver_index_get i
                       else n - 1 - sliver_index_get i)).
Proof.
  intros Hn Hi. unfold to_pair_index_of_sliver. destruct (is_primary a); [done|].
  rewrite arith_in_range by lia. cbn. rewrite arith_in_range by lia. cbn.
  do 2 f_equal. lia.
Qed.

End indices.

(** ** Keys of column families

    The database iterates over a column family in the order of the serialized
    keys.  [KeyOrder] is a strict total order on keys; object IDs are ordered as
    numbers and blob IDs byte by byte. *)

Class KeyOrder (K : Type) := {
  key_ltb : K -> K -> bool;
  key_ltb_irrefl k : key_ltb k k = false;
  key_ltb_trans i j k : key_ltb i j = true -> key_ltb j k = true -> key_ltb i k = true;
  key_ltb_total i j : key_ltb i j = false -> key_ltb j i = false -> i = j;
}.

Section order.
Context `{KeyOrder K}.
Implicit Types i j k : K.

Lemma key_ltb_asym i j : key_ltb i j = true -> key_ltb j i = false.
Proof.
  intros Hij. destruct (key_ltb j i) eqn:Hji; [|done].
  pose proof (key_ltb_trans i j i Hij Hji) as Hii. by rewrite key_ltb_irrefl in Hii.
Qed.

Lemma key_ltb_ne i j : key_ltb i j = true -> i <> j.
Proof. intros Hij ->. by rewrite key_ltb_irrefl in Hij. Qed.

Lemma key_geb_trans i j k : key_ltb j i = false -> key_ltb k j = false -> key_ltb k i = false.
Proof.
  intros Hji Hkj. destruct (key_ltb k i) eqn:Hki; [|done]. destruct (key_ltb i j) eqn:Hij.
  - by rewrite (key_ltb_trans k i j Hki Hij) in Hkj.
  - pose proof (key_ltb_total i j Hij Hji) as ->. congruence.
Qed.

End order.

#[export] Instance Z_key_order : KeyOrder Z.
Proof.
  refine {| key_ltb := Z.ltb |}.
  - apply Z.ltb_irrefl.
  - intros i j k. rewrite !Z.ltb_lt. lia.
  - intros i j. rewrite !Z.ltb_ge. lia.
Defined.

Fixpoint bytes_ltb (l l' : list byte) : bool :=
  match l, l' with
  | _, [] => false
  | [], _ :: _ => true
  | x :: l, y :: l' => (byte_val x <? byte_val y) || ((byte_val x =? byte_val y) && bytes_ltb l l')
  end.

Lemma byte_val_inj x y : byte_val x = byte_val y -> x = y.
Proof. intros Heq. by rewrite <- (byte_of_val x), Heq, byte_of_val. Qed.

Lemma bytes_ltb_irrefl l : bytes_ltb l l = false.
Proof. induction l as [|x l IH]; [done|]. cbn. by rewrite Z.ltb_irrefl, IH, andb_false_r. Qed.

Lemma bytes_ltb_trans l1 l2 l3 : bytes_ltb l1 l2 = true -> bytes_ltb l2 l3 = true -> bytes_ltb l1 l3 = true.
Proof.
  revert l2 l3. induction l1 as [|x l1 IH]; intros [|y l2] [|z l3]; cbn; try done.
  rewrite !orb_true_iff, !andb_true_iff, !Z.ltb_lt, !Z.eqb_eq. intros [|[]] [|[]]; [left; lia..|].
  right. split; [lia|by eapply IH].
Qed.

Lemma bytes_ltb_total l1 l2 : bytes_ltb l1 l2 = false -> bytes_ltb l2 l1 = false -> l1 = l2.
Proof.
  revert l2. induction l1 as [|x l1 IH]; intros [|y l2]; cbn; try done.
  rewrite !orb_false_iff, !andb_false_iff, !Z.ltb_ge, !Z.eqb_neq. intros [? Ha] [? Hb].
  assert (byte_val x = byte_val y) as Hxy by lia. f_equal; [by apply byte_val_inj|].
  apply IH; [by destruct Ha|destruct Hb as [Hb|]; [by destruct Hb|done]].
Qed.

#[export] Instance BlobId_key_order : KeyOrder BlobId.
Proof.
  refine {| key_ltb i j := bytes_ltb (blob_id_bytes i) (blob_id_bytes j) |}.
  - intros k. apply bytes_ltb_irrefl.
  - intros i j k. apply bytes_ltb_trans.
  - intros [i] [j] Hij Hji. f_equal. by apply bytes_ltb_total.
Defined.

(** Entries of a column family by key. *)
Definition key_le `{KeyOrder K} {T} (x y : K * T) : Prop := key_ltb y.1 x.1 = false.

Section key_le.
Context `{KeyOrder K} {T : Type}.

#[export] Instance key_le_dec : RelDecision (key_le (K:=K) (T:=T)).
Proof. intros x y. unfold key_le. apply _. Defined.

#[export] Instance key_le_trans : Transitive (key_le (K:=K) (T:=T)).
Proof. intros x y z. unfold key_le. apply key_geb_trans. Qed.

#[export] Instance key_le_total : Total (key_le (K:=K) (T:=T)).
Proof.
  intros x y. unfold key_le. destruct (key_ltb y.1 x.1) eqn:Hyx; [|by left].
  right. by apply key_ltb_asym.
Qed.

End key_le.

(** The entries of a column family after a key, in key order. *)
Definition entries_after `{Countable K} `{KeyOrder K} {T} (last_processed : option K) (m : gmap K T) :
    list (K * T) :=
  List.filter (fun '(k, _) => match last_processed with None => true | Some l => key_ltb l k end)
    (merge_sort key_le (map_to_list m)).
