(* ===== verification/EncodingConfig.v ===== *)
(** * Encoding parameters

    Models encoding/utils.rs and the parameter side of encoding/config.rs: the
    symbol size of a blob, the two-dimensional Reed-Solomon configuration
    derived from the number of shards, and every length computed from it.  The
    trait [EncodingFactory] is a class; its provided methods are functions over
    the class, shared by the two implementors. *)

From S2P Require Import Prelude Core.

(** [DataTooLargeError]. *)
Inductive DataTooLargeError := DataTooLarge.

#[export] Instance DataTooLargeError_eq_dec : EqDecision DataTooLargeError.
Proof. solve_decision. Defined.

(** [BlobId::LENGTH] and [merkle::DIGEST_LEN]. *)
Definition BlobId_LENGTH : Z := 32.
Definition DIGEST_LEN : Z := 32.
Definition MAX_SOURCE_SYMBOLS : Z := u16_MAX.

Section config.
Context `{Build}.

(** ** Symbol sizes *)

Definition compute_symbol_size (data_length n_symbols required_alignment : Z) :
    outcome DataTooLargeError Z :=
  let data_length := Z.max data_length 1 in
  symbol_size ← next_multiple_of 64 (div_ceil data_length n_symbols) required_alignment;
  v ← ok_or (try_from 16 symbol_size) DataTooLarge;
  expect (non_zero v).

(** [usize] is 64 bits wide. *)
Definition compute_symbol_size_from_usize (data_length n_symbols required_alignment : Z) :
    outcome DataTooLargeError Z :=
  data_length ← ok_or (try_from 64 data_length) DataTooLarge;
  compute_symbol_size data_length n_symbols required_alignment.

Definition source_symbols_per_blob_of {E} (source_symbols_primary source_symbols_secondary : Z) :
    outcome E Z :=
  expect (checked_mul 32 source_symbols_primary source_symbols_secondary).

(** ** The configuration *)

Record ReedSolomonEncodingConfig := {
  source_symbols_primary : Z;
  source_symbols_secondary : Z;
  rs_n_shards : Z;
}.

Inductive EncodingConfigEnum := ReedSolomon (c : ReedSolomonEncodingConfig).

Record EncodingConfig := {
  ec_n_shards : Z;
  reed_solomon : ReedSolomonEncodingConfig;
}.

Definition source_symbols_for_n_shards {E} (n_shards : Z) : outcome E (Z * Z) :=
  min_n_correct ← min_n_correct n_shards;
  d ← arith 16 (min_n_correct - max_n_faulty n_shards);
  primary ← expect (non_zero d);
  Ok (primary, min_n_correct).

Definition new_from_nonzero_parameters {E} (primary secondary n_shards : Z) :
    outcome E ReedSolomonEncodingConfig :=
  let f := max_n_faulty n_shards in
  assert ((primary <? MAX_SOURCE_SYMBOLS) && (secondary <? MAX_SOURCE_SYMBOLS));;
  d ← arith 16 (n_shards - f);
  assert (secondary <=? d);;
  f2 ← arith 16 (2 * f);
  d2 ← arith 16 (n_shards - f2);
  assert (primary <=? d2);;
  Ok {| source_symbols_primary := primary;
        source_symbols_secondary := secondary;
        rs_n_shards := n_shards |}.

(** [ReedSolomonEncodingConfig::new]. *)
Definition rs_config_new {E} (n_shards : Z) : outcome E ReedSolomonEncodingConfig :=
  '(primary, secondary) ← source_symbols_for_n_shards n_shards;
  new_from_nonzero_parameters primary secondary n_shards.

(** [EncodingConfig::new]. *)
Definition encoding_config_new {E} (n_shards : Z) : outcome E EncodingConfig :=
  c ← rs_config_new n_shards;
  Ok {| ec_n_shards := n_shards; reed_solomon := c |}.

Definition get_for_type (c : EncodingConfig) (t : EncodingType) : EncodingConfigEnum :=
  match t with RS2 => ReedSolomon (reed_solomon c) end.

(** ** Lengths that depend only on the number of shards *)

(** [usize] products, then a conversion to [u64]. *)
Definition metadata_length_for_n_shards {E} (n_shards : Z) : outcome E Z :=
  a ← arith 64 (n_shards * DIGEST_LEN);
  b ← arith 64 (a * 2);
  c ← arith 64 (b + BlobId_LENGTH);
  expect (try_from 64 c).

Definition max_sliver_size_for_n_secondary {E} (n_secondary : Z) (t : EncodingType) :
    outcome E Z :=
  arith 64 (n_secondary * max_symbol_size t).

Definition max_sliver_size_for_n_shards {E} (n_shards : Z) : outcome E Z :=
  '(_, secondary) ← source_symbols_for_n_shards n_shards;
  max_sliver_size_for_n_secondary secondary RS2.

Definition source_symbols_per_blob_for_n_shards {E} (n_shards : Z) : outcome E Z :=
  '(primary, secondary) ← source_symbols_for_n_shards n_shards;
  expect (checked_mul 32 primary secondary).

Definition max_blob_size_for_n_shards {E} (n_shards : Z) (t : EncodingType) : outcome E Z :=
  s ← source_symbols_per_blob_for_n_shards n_shards;
  arith 64 (s * max_symbol_size t).

Definition encoded_slivers_length_for_n_shards {E}
    (n_shards unencoded_length : Z) (t : EncodingType) : outcome E (option Z) :=
  '(primary, secondary) ← source_symbols_for_n_shards n_shards;
  sum ← arith 64 (primary + secondary);
  n_symbols ← source_symbols_per_blob_for_n_shards n_shards;
  symbol_size ← ok (compute_symbol_size unencoded_length n_symbols (required_alignment t));
  match symbol_size with
  | None => Ok None
  | Some symbol_size =>
    single_shard_slivers_size ← arith 64 (sum * symbol_size);
    total ← arith 64 (n_shards * single_shard_slivers_size);
    Ok (Some total)
  end.

Definition encoded_blob_length_for_n_shards {E}
    (n_shards unencoded_length : Z) (t : EncodingType) : outcome E (option Z) :=
  slivers_size ← encoded_slivers_length_for_n_shards n_shards unencoded_length t;
  match slivers_size with
  | None => Ok None
  | Some slivers_size =>
    metadata_length ← metadata_length_for_n_shards n_shards;
    m ← arith 64 (n_shards * metadata_length);
    total ← arith 64 (m + slivers_size);
    Ok (Some total)
  end.

End config.

(** ** The trait [EncodingFactory] *)

Class EncodingFactory (C : Type) := {
  encoding_type : C -> EncodingType;
  n_primary_source_symbols : C -> Z;
  n_secondary_source_symbols : C -> Z;
  n_shards : C -> Z;
}.

#[export] Instance rs_encoding_factory : EncodingFactory ReedSolomonEncodingConfig := {
  encoding_type _ := RS2;
  n_primary_source_symbols := source_symbols_primary;
  n_secondary_source_symbols := source_symbols_secondary;
  n_shards := rs_n_shards;
}.

(** [#[enum_dispatch(EncodingFactory)]]. *)
#[export] Instance enum_encoding_factory : EncodingFactory EncodingConfigEnum := {
  encoding_type '(ReedSolomon c) := encoding_type c;
  n_primary_source_symbols '(ReedSolomon c) := n_primary_source_symbols c;
  n_secondary_source_symbols '(ReedSolomon c) := n_secondary_source_symbols c;
  n_shards '(ReedSolomon c) := n_shards c;
}.

Inductive RequiredCount := Exact (n : Z).

Section factory.
Context `{Build} `{EncodingFactory C}.

Definition n_source_symbols (a : Axis) (c : C) : Z :=
  if is_primary a then n_primary_source_symbols c else n_secondary_source_symbols c.

Definition n_systematic_slivers (a : Axis) (c : C) : Z := n_source_symbols a c.

Definition n_slivers_for_reconstruction (a : Axis) (c : C) : RequiredCount :=
  Exact (n_source_symbols a c).

Definition n_symbols_for_recovery (a : Axis) (c : C) : RequiredCount :=
  n_slivers_for_reconstruction (orthogonal a) c.

Definition max_data_size {E} (a : Axis) (c : C) : outcome E Z :=
  arith 32 (n_source_symbols a c * max_symbol_size (encoding_type c)).

Definition max_blob_size {E} (c : C) : outcome E Z :=
  max_blob_size_for_n_shards (n_shards c) (encoding_type c).

Definition source_symbols_per_blob {E} (c : C) : outcome E Z :=
  source_symbols_per_blob_of (n_primary_source_symbols c) (n_secondary_source_symbols c).

Definition symbol_size_for_blob (c : C) (blob_size : Z) : outcome DataTooLargeError Z :=
  n ← source_symbols_per_blob c;
  compute_symbol_size blob_size n (required_alignment (encoding_type c)).

Definition symbol_size_for_blob_from_usize (c : C) (blob_size : Z) :
    outcome DataTooLargeError Z :=
  n ← source_symbols_per_blob c;
  compute_symbol_size_from_usize blob_size n (required_alignment (encoding_type c)).

Definition sliver_size_for_blob (a : Axis) (c : C) (blob_size : Z) :
    outcome DataTooLargeError Z :=
  symbol_size ← symbol_size_for_blob c blob_size;
  ok_or (checked_mul 32 (n_source_symbols (orthogonal a) c) symbol_size) DataTooLarge.

Definition encoded_blob_length {E} (c : C) (unencoded_length : Z) : outcome E (option Z) :=
  encoded_blob_length_for_n_shards (n_shards c) unencoded_length (encoding_type c).

Definition encoded_blob_length_from_usize {E} (c : C) (unencoded_length : Z) :
    outcome E (option Z) :=
  match try_from 64 unencoded_length with
  | None => Ok None
  | Some l => encoded_blob_length c l
  end.

Definition metadata_length {E} (c : C) : outcome E Z :=
  metadata_length_for_n_shards (n_shards c).

Definition max_sliver_size {E} (c : C) : outcome E Z :=
  max_sliver_size_for_n_secondary (n_secondary_source_symbols c) (encoding_type c).

End factory.

(** ** Lemmas *)

Section config_lemmas.
Context `{Build}.

(** The symbol size before the narrowing to [u16], in exact arithmetic. *)
Definition exact_symbol_size (data_length n_symbols m : Z) : Z :=
  next_multiple (div_ceil (Z.max data_length 1) n_symbols) m.

(** [s] is the least positive multiple of [m] for which [n] symbols hold [l]
    bytes (one byte at least). *)
Definition least_symbol_size (l n m s : Z) : Prop :=
  1 <= s /\ s mod m = 0 /\ Z.max l 1 <= n * s /\
  forall s', s' mod m = 0 -> Z.max l 1 <= n * s' -> s <= s'.

Lemma exact_symbol_size_le_iff l n m k : 0 < n -> 0 < m ->
  exact_symbol_size l n m <= m * k <-> Z.max l 1 <= n * (m * k).
Proof.
  intros Hn Hm. unfold exact_symbol_size.
  by rewrite next_multiple_le_iff, div_ceil_le_iff.
Qed.

Lemma exact_symbol_size_least l n m : 0 < n -> 0 < m ->
  least_symbol_size l n m (exact_symbol_size l n m).
Proof.
  intros Hn Hm. unfold least_symbol_size.
  pose proof (next_multiple_spec (div_ceil (Z.max l 1) n) m Hm) as [Hb Hmod].
  pose proof (div_ceil_spec (Z.max l 1) n Hn) as Hd.
  fold (exact_symbol_size l n m) in Hb, Hmod.
  assert (1 <= div_ceil (Z.max l 1) n) by nia.
  repeat split; [lia|done|nia|].
  intros s' Hs0 Hs'. apply Z.mod_divide in Hs0 as [k ->]; [|lia].
  rewrite (Z.mul_comm k m) in *. by apply exact_symbol_size_le_iff.
Qed.

Lemma exact_symbol_size_bounds l n m : 0 < n -> 0 < m ->
  1 <= exact_symbol_size l n m < Z.max l 1 + m.
Proof.
  intros Hn Hm.
  destruct (next_multiple_spec (div_ceil (Z.max l 1) n) m Hm) as [Hb _].
  fold (exact_symbol_size l n m) in Hb.
  pose proof (div_ceil_spec (Z.max l 1) n Hn) as Hd.
  assert (1 <= div_ceil (Z.max l 1) n <= Z.max l 1); nia.
Qed.

(** One equation for every input on which the rounding does not overflow. *)
Lemma compute_symbol_size_eq l n m :
  0 < n -> 0 < m -> exact_symbol_size l n m < 2 ^ 64 ->
  compute_symbol_size l n m =
    if exact_symbol_size l n m <=? u16_MAX then Ok (exact_symbol_size l n m)
    else Err DataTooLarge.
Proof.
  intros Hn Hm Hov. pose proof (exact_symbol_size_bounds l n m Hn Hm) as Hb.
  unfold compute_symbol_size, next_multiple_of.
  destruct (Z.eqb_spec m 0); [lia|]. fold (exact_symbol_size l n m).
  rewrite arith_in_range by lia. cbn. unfold try_from.
  destruct (Z.leb_spec (exact_symbol_size l n m) u16_MAX).
  - rewrite (proj2 (in_uint_spec 16 _)) by uint_lia. cbn. unfold non_zero.
    by destruct (Z.eqb_spec (exact_symbol_size l n m) 0); [lia|].
  - destruct (in_uint 16 _) eqn:Hin; [|done]. apply in_uint_spec in Hin. uint_lia.
Qed.

(** With two-byte alignment a size that fits [u16] is at most [max_symbol_size]. *)
Lemma compute_symbol_size_RS2 l n :
  0 < n -> exact_symbol_size l n 2 < 2 ^ 64 ->
  compute_symbol_size l n 2 =
    if Z.max l 1 <=? n * max_symbol_size RS2 then Ok (exact_symbol_size l n 2)
    else Err DataTooLarge.
Proof.
  intros Hn Hov. rewrite compute_symbol_size_eq by (done || lia).
  pose proof (exact_symbol_size_le_iff l n 2 32767 Hn ltac:(lia)) as Hiff.
  destruct (exact_symbol_size_least l n 2 Hn ltac:(lia)) as (_ & Heven & _).
  apply Z.mod_divide in Heven as [k Hk]; [|lia].
  change (max_symbol_size RS2) with (2 * 32767).
  destruct (Z.leb_spec (Z.max l 1) (n * (2 * 32767))),
    (Z.leb_spec (exact_symbol_size l n 2) u16_MAX); try done; uint_lia.
Qed.

(** The rounding overflows only for a single symbol and the largest length. *)
Lemma exact_symbol_size_no_overflow l n :
  1 <= n -> 0 <= l < 2 ^ 64 -> ~ (n = 1 /\ l = u64_MAX) ->
  exact_symbol_size l n 2 < 2 ^ 64.
Proof.
  intros Hn Hl Hc.
  assert (exact_symbol_size l n 2 <= 2 * (2 ^ 63 - 1)); [|lia].
  apply exact_symbol_size_le_iff; [lia..|].
  destruct (Z.eq_dec n 1); uint_lia || nia.
Qed.

(** *** The configuration *)

Definition n_primary_of (n : Z) : Z := n - 2 * max_n_faulty n.
Definition n_secondary_of (n : Z) : Z := n - max_n_faulty n.

Lemma n_source_bounds n : is_nzu16 n ->
  1 <= n_primary_of n <= n_secondary_of n /\ n_secondary_of n <= n /\
  max_n_faulty n < n_primary_of n /\ n_secondary_of n < MAX_SOURCE_SYMBOLS /\
  n < 65536.
Proof.
  intros Hn. unfold is_nzu in Hn.
  destruct (max_n_faulty_bounds n ltac:(lia)) as [? ?].
  unfold n_primary_of, n_secondary_of, MAX_SOURCE_SYMBOLS.
  assert (n < 3 * max_n_faulty n + 4) by
    (unfold max_n_faulty; pose proof (Z.div_mod (n - 1) 3 ltac:(lia));
     pose proof (Z.mod_pos_bound (n - 1) 3 ltac:(lia)); lia).
  uint_lia.
Qed.

Lemma source_symbols_for_n_shards_eq {E} n : is_nzu16 n ->
  source_symbols_for_n_shards (E:=E) n = Ok (n_primary_of n, n_secondary_of n).
Proof.
  intros Hn. pose proof (n_source_bounds n Hn) as Hb.
  unfold source_symbols_for_n_shards, n_primary_of, n_secondary_of in *.
  rewrite min_n_correct_eq by (unfold is_nzu in Hn; lia). cbn.
  rewrite arith_in_range by lia. cbn. unfold non_zero.
  replace (n - max_n_faulty n - max_n_faulty n) with (n - 2 * max_n_faulty n) by lia.
  by destruct (Z.eqb_spec (n - 2 * max_n_faulty n) 0); [lia|].
Qed.

Definition rs_config_of (n : Z) : ReedSolomonEncodingConfig :=
  {| source_symbols_primary := n_primary_of n;
     source_symbols_secondary := n_secondary_of n;
     rs_n_shards := n |}.

Lemma rs_config_new_eq {E} n : is_nzu16 n ->
  rs_config_new (E:=E) n = Ok (rs_config_of n).
Proof.
  intros Hn. pose proof (n_source_bounds n Hn) as Hb.
  unfold rs_config_new. rewrite source_symbols_for_n_shards_eq by done.
  cbn. unfold new_from_nonzero_parameters. cbv zeta.
  rewrite (proj2 (Z.ltb_lt (n_primary_of n) _)) by lia.
  rewrite (proj2 (Z.ltb_lt (n_secondary_of n) _)) by lia.
  cbn [andb assert mbind outcome_bind].
  pose proof (max_n_faulty_bounds n ltac:(lia)).
  arith_step ltac:(unfold n_primary_of, n_secondary_of in *; uint_lia).
  unfold n_secondary_of at 1. rewrite Z.leb_refl.
  cbn [assert mbind outcome_bind].
  do 2 arith_step ltac:(unfold n_primary_of, n_secondary_of in *; uint_lia).
  unfold n_primary_of at 1. by rewrite Z.leb_refl.
Qed.

Definition symbols_per_blob (n : Z) : Z := n_primary_of n * n_secondary_of n.

Lemma symbols_per_blob_bounds n : is_nzu16 n -> 1 <= symbols_per_blob n < 2 ^ 32.
Proof. intros Hn%n_source_bounds. unfold symbols_per_blob, MAX_SOURCE_SYMBOLS in *. uint_lia || nia. Qed.

Lemma source_symbols_per_blob_of_eq {E} n : is_nzu16 n ->
  source_symbols_per_blob_of (E:=E) (n_primary_of n) (n_secondary_of n)
  = Ok (symbols_per_blob n).
Proof.
  intros Hn. pose proof (symbols_per_blob_bounds n Hn) as Hb.
  unfold source_symbols_per_blob_of, checked_mul, try_from.
  fold (symbols_per_blob n). rewrite (proj2 (in_uint_spec 32 _)); [done|lia].
Qed.

Lemma source_symbols_per_blob_for_n_shards_eq {E} n : is_nzu16 n ->
  source_symbols_per_blob_for_n_shards (E:=E) n = Ok (symbols_per_blob n).
Proof.
  intros Hn. unfold source_symbols_per_blob_for_n_shards.
  rewrite source_symbols_for_n_shards_eq by done. cbn.
  by apply (source_symbols_per_blob_of_eq (E:=E)).
Qed.

Lemma max_blob_size_for_n_shards_eq {E} n : is_nzu16 n ->
  max_blob_size_for_n_shards (E:=E) n RS2 = Ok (symbols_per_blob n * max_symbol_size RS2).
Proof.
  intros Hn. pose proof (symbols_per_blob_bounds n Hn) as Hb.
  unfold max_blob_size_for_n_shards.
  rewrite source_symbols_per_blob_for_n_shards_eq by done. cbn [mbind outcome_bind].
  apply arith_in_range. change (max_symbol_size RS2) with 65534. uint_lia.
Qed.

Lemma metadata_length_for_n_shards_eq {E} n : is_nzu16 n ->
  metadata_length_for_n_shards (E:=E) n = Ok (64 * n + 32).
Proof.
  intros Hn. unfold is_nzu in Hn.
  unfold metadata_length_for_n_shards, DIGEST_LEN, BlobId_LENGTH.
  do 3 arith_step uint_lia. unfold try_from.
  rewrite (proj2 (in_uint_spec 64 _)) by uint_lia. cbn. f_equal. lia.
Qed.

(** The symbol size of a blob under the configuration of [n] shards. *)
Lemma symbol_size_for_blob_eq n l :
  is_nzu16 n -> 0 <= l < 2 ^ 64 -> ~ (n = 1 /\ l = u64_MAX) ->
  symbol_size_for_blob (rs_config_of n) l =
    if Z.max l 1 <=? symbols_per_blob n * max_symbol_size RS2
    then Ok (exact_symbol_size l (symbols_per_blob n) 2) else Err DataTooLarge.
Proof.
  intros Hn Hl Hc. unfold symbol_size_for_blob, source_symbols_per_blob.
  cbn [rs_encoding_factory n_primary_source_symbols n_secondary_source_symbols
    rs_config_of source_symbols_primary source_symbols_secondary].
  rewrite source_symbols_per_blob_of_eq by done. cbn [mbind outcome_bind].
  pose proof (symbols_per_blob_bounds n Hn). pose proof (n_source_bounds n Hn).
  apply compute_symbol_size_RS2; [lia|].
  apply exact_symbol_size_no_overflow; [lia..|].
  intros [Hone ->]. apply Hc. split; [|done].
  assert (n_secondary_of n = 1) by (unfold symbols_per_blob in Hone; nia).
  unfold n_secondary_of in *. assert (n_primary_of n = 1) by lia.
  unfold n_primary_of in *. lia.
Qed.

(** All the sizes of the encoding of a blob that fits. *)
Lemma symbol_size_range n l :
  is_nzu16 n -> Z.max l 1 <= symbols_per_blob n * max_symbol_size RS2 ->
  2 <= exact_symbol_size l (symbols_per_blob n) 2 <= 65534.
Proof.
  intros Hn Hl. pose proof (symbols_per_blob_bounds n Hn).
  destruct (exact_symbol_size_least l (symbols_per_blob n) 2 ltac:(lia) ltac:(lia))
    as (Hpos & Heven & _). apply Z.mod_divide in Heven as [k Hk]; [|lia].
  split; [lia|]. change 65534 with (2 * 32767).
  apply exact_symbol_size_le_iff; [lia..|done].
Qed.

End config_lemmas.

(** ** Properties *)

Section properties.
Context `{Build}.

(** For every number of shards that fits [NonZeroU16], the configuration is
    created without a panic, and its parameters are the Byzantine ones: with
    [f] the largest number of faults below a third, the primary encoding has
    [n - 2f] source symbols and the secondary [n - f].  Hence for every set [F]
    of at most [f] faulty shards, any two sets of [n - f] responding shards
    share a correct shard, and each holds enough correct shards for a
    reconstruction from primary slivers. *)
Theorem rs_config_new_bft n : is_nzu16 n ->
  exists c, rs_config_new (E:=False) n = Ok c /\ rs_n_shards c = n /\
  let f := max_n_faulty n in
  (3 * f < n /\ forall g, 3 * g < n -> g <= f) /\
  1 <= source_symbols_primary c <= source_symbols_secondary c /\
  forall (F A B : gset nat) , Z.of_nat (size F) <= f ->
    A ⊆ set_seq 0 (Z.to_nat n) -> B ⊆ set_seq 0 (Z.to_nat n) ->
    source_symbols_secondary c <= Z.of_nat (size A) ->
    source_symbols_secondary c <= Z.of_nat (size B) ->
    source_symbols_primary c <= Z.of_nat (size (A ∖ F)) /\
    1 <= Z.of_nat (size ((A ∩ B) ∖ F)).
Proof.
  intros Hn. pose proof (n_source_bounds n Hn) as Hb.
  exists (rs_config_of n). split; [by apply rs_config_new_eq|].
  cbn [rs_config_of rs_n_shards source_symbols_primary source_symbols_secondary].
  unfold n_primary_of, n_secondary_of in *. pose proof (max_n_faulty_bounds n ltac:(lia)).
  split_and!; [done|lia| |lia..|].
  { intros g Hg. unfold max_n_faulty. apply Z.div_le_lower_bound; lia. }
  intros F A B HF HA HB HsA HsB.
  pose proof (quorum_minus A F) as HAF. pose proof (quorum_minus (A ∩ B) F) as HABF.
  pose proof (size_union_inter A B) as HU.
  assert (size (A ∪ B) <= Z.to_nat n)%nat.
  { rewrite <- (size_set_seq (C:=gset nat) 0 (Z.to_nat n)). apply subseteq_size. set_solver. }
  lia.
Qed.

(** [compute_symbol_size] returns the least even number of bytes with which
    [n] symbols hold the data (at least one byte), never more than
    [max_symbol_size], and [DataTooLargeError] exactly when no such size
    exists; the only excluded input is a single symbol with [u64::MAX] bytes. *)
Theorem compute_symbol_size_correct l n :
  1 <= n < 2 ^ 32 -> 0 <= l < 2 ^ 64 -> ~ (n = 1 /\ l = u64_MAX) ->
  if Z.max l 1 <=? n * max_symbol_size RS2
  then exists s, compute_symbol_size l n (required_alignment RS2) = Ok s /\
    2 <= s <= max_symbol_size RS2 /\ least_symbol_size l n (required_alignment RS2) s
  else compute_symbol_size l n (required_alignment RS2) = Err DataTooLarge /\
    forall s, s <= max_symbol_size RS2 -> n * s < Z.max l 1.
Proof.
  intros Hn Hl Hc. cbn [required_alignment].
  rewrite compute_symbol_size_RS2 by (lia || by apply exact_symbol_size_no_overflow; lia).
  destruct (Z.leb_spec (Z.max l 1) (n * max_symbol_size RS2)) as [Hle|Hgt].
  - pose proof (exact_symbol_size_least l n 2 ltac:(lia) ltac:(lia)) as Hs.
    exists (exact_symbol_size l n 2). split_and!; [done| | |done].
    + destruct Hs as (Hpos & [k Hk]%Z.mod_divide & _); lia.
    + destruct Hs as (_ & _ & _ & Hmin). by apply Hmin.
  - split; [done|]. intros s Hs. nia.
Qed.

(** On the excluded input the rounding to the alignment overflows, and
    [compute_symbol_size] panics instead of returning [DataTooLargeError]:
    through the overflow check, or, when the sum wraps around to zero, through
    the conversion to a non-zero integer. *)
Theorem compute_symbol_size_overflow_panics (b : Build) :
  compute_symbol_size u64_MAX 1 (required_alignment RS2) = Panic /\
  encoded_blob_length_for_n_shards (E:=False) 1 u64_MAX RS2 = Panic.
Proof.
  destruct b as [[] ?]; by split.
Qed.

(** [max_blob_size] is exactly the largest blob the configuration accepts:
    up to it the symbol size and both sliver sizes are computed, the slivers of
    either axis hold the whole blob, and none is larger than
    [max_sliver_size]; beyond it every size function returns
    [DataTooLargeError]. *)
Theorem max_blob_size_exact n l c :
  is_nzu16 n -> 0 <= l < 2 ^ 64 -> ~ (n = 1 /\ l = u64_MAX) ->
  rs_config_new (E:=False) n = Ok c ->
  exists m M, max_blob_size (E:=False) c = Ok m /\ max_sliver_size (E:=False) c = Ok M /\
  if l <=? m
  then exists s, symbol_size_for_blob c l = Ok s /\
    forall a, exists z, sliver_size_for_blob a c l = Ok z /\
      z = n_source_symbols (orthogonal a) c * s /\
      l <= n_systematic_slivers a c * z /\ z <= M
  else symbol_size_for_blob c l = Err DataTooLarge /\
    forall a, sliver_size_for_blob a c l = Err DataTooLarge.
Proof.
  intros Hn Hl Hc Hnew. rewrite rs_config_new_eq in Hnew by done. injection Hnew as <-.
  pose proof (symbols_per_blob_bounds n Hn). pose proof (n_source_bounds n Hn) as Hb.
  exists (symbols_per_blob n * max_symbol_size RS2), (n_secondary_of n * max_symbol_size RS2).
  split; [by apply max_blob_size_for_n_shards_eq|].
  split. { apply arith_in_range. cbn. unfold MAX_SOURCE_SYMBOLS in *. uint_lia. }
  unfold sliver_size_for_blob. rewrite symbol_size_for_blob_eq by done.
  assert (0 < symbols_per_blob n * max_symbol_size RS2) by (cbn; uint_lia).
  destruct (Z.leb_spec l (symbols_per_blob n * max_symbol_size RS2));
    destruct (Z.leb_spec (Z.max l 1) (symbols_per_blob n * max_symbol_size RS2)); try lia.
  - eexists. split; [done|]. intros a.
    pose proof (symbol_size_range n l Hn ltac:(done)) as Hs.
    destruct (exact_symbol_size_least l (symbols_per_blob n) 2 ltac:(lia) ltac:(lia))
      as (_ & _ & Hcov & _). set (s := exact_symbol_size _ _ _) in *.
    exists (n_source_symbols (orthogonal a) (rs_config_of n) * s).
    cbn [mbind outcome_bind]. split_and!; [|done| |].
    + unfold checked_mul, try_from. rewrite (proj2 (in_uint_spec 32 _)); [done|].
      unfold MAX_SOURCE_SYMBOLS in *. destruct a; cbn; uint_lia || nia.
    + unfold symbols_per_blob in Hcov. destruct a; cbn; nia.
    + change (max_symbol_size RS2) with 65534. destruct a; cbn; nia.
  - by split.
Qed.

End properties.

(** ** Witnesses *)

Section witnesses.
#[local] Existing Instance release_build.

Lemma rs_config_new_bft_witness :
  exists c, rs_config_new (E:=False) 1000 = Ok c /\ rs_n_shards c = 1000.
Proof.
  destruct (rs_config_new_bft 1000 ltac:(split; lia)) as (c & Hc & Hn & _). by exists c.
Defined.

Lemma compute_symbol_size_correct_witness :
  exists s, compute_symbol_size 2801 28 (required_alignment RS2) = Ok s /\
    2 <= s <= max_symbol_size RS2 /\ least_symbol_size 2801 28 (required_alignment RS2) s.
Proof. exact (compute_symbol_size_correct 2801 28 ltac:(lia) ltac:(lia) ltac:(lia)). Defined.

Lemma max_blob_size_exact_witness :
  exists m M, max_blob_size (E:=False) (rs_config_of 10) = Ok m /\
    max_sliver_size (E:=False) (rs_config_of 10) = Ok M /\
    exists s, symbol_size_for_blob (rs_config_of 10) 100 = Ok s.
Proof.
  destruct (max_blob_size_exact 10 100 (rs_config_of 10)
    ltac:(split; lia) ltac:(lia) ltac:(lia)
    ltac:(apply rs_config_new_eq; split; lia)) as (m & M & Hm & HM & Hs).
  exists m, M. split; [done|]. split; [done|].
  assert (m = 28 * 65534) as ->.
  { revert Hm. unfold max_blob_size; cbn [rs_encoding_factory n_shards encoding_type rs_config_of rs_n_shards].
    rewrite (max_blob_size_for_n_shards_eq (E:=False) 10 ltac:(split; lia)).
    by intros [= <-]. }
  destruct Hs as (s & Hs & _). by exists s.
Defined.

End witnesses.
