(* ===== verification/Redstuff.v ===== *)
(** * The encoded length on chain and off chain

    Models contracts/walrus/sources/system/redstuff.move and encoding.move, the
    on-chain computation of the storage size of an encoded blob, and proves it
    in sync with [encoded_blob_length_for_n_shards] of walrus-core.  Move
    arithmetic aborts on overflow and on a narrowing cast that loses bits; an
    abort is the [Panic] outcome of the transaction. *)

From S2P Require Import Prelude Core EncodingConfig.

(** Move arithmetic and casts at width [w]. *)
Definition move_arith {E} (w v : Z) : outcome E Z := if in_uint w v then Ok v else Panic.

Definition max_byzantine {E} (n_shards : Z) : outcome E Z :=
  d ← move_arith 16 (n_shards - 1);
  Ok (d / 3).

Definition move_source_symbols_primary {E} (n_shards : Z) : outcome E Z :=
  f ← max_byzantine n_shards;
  f2 ← move_arith 16 (2 * f);
  move_arith 16 (n_shards - f2).

Definition move_source_symbols_secondary {E} (n_shards : Z) : outcome E Z :=
  f ← max_byzantine n_shards;
  move_arith 16 (n_shards - f).

Definition move_n_source_symbols {E} (n_shards : Z) : outcome E Z :=
  p ← move_source_symbols_primary n_shards;
  s ← move_source_symbols_secondary n_shards;
  move_arith 64 (p * s).

Definition move_symbol_size {E} (unencoded_length n_shards : Z) : outcome E Z :=
  let unencoded_length := if unencoded_length =? 0 then 1 else unencoded_length in
  n_symbols ← move_n_source_symbols n_shards;
  l ← move_arith 64 (unencoded_length - 1);
  q ← (if n_symbols =? 0 then Panic else Ok (l / n_symbols));
  q1 ← move_arith 64 (q + 1);
  symbol_size ← move_arith 16 q1;
  if symbol_size mod 2 =? 1 then move_arith 16 (symbol_size + 1) else Ok symbol_size.

Definition move_metadata_size {E} (n_shards : Z) : outcome E Z :=
  a ← move_arith 64 (n_shards * DIGEST_LEN);
  b ← move_arith 64 (a * 2);
  move_arith 64 (b + BlobId_LENGTH).

Definition redstuff_encoded_blob_length {E} (unencoded_length n_shards : Z) : outcome E Z :=
  p ← move_source_symbols_primary n_shards;
  s ← move_source_symbols_secondary n_shards;
  sum ← move_arith 64 (p + s);
  symbol_size ← move_symbol_size unencoded_length n_shards;
  slivers_size ← move_arith 64 (sum * symbol_size);
  metadata_size ← move_metadata_size n_shards;
  total ← move_arith 64 (slivers_size + metadata_size);
  move_arith 64 (n_shards * total).

(** [encoding::encoded_blob_length], aborting with [EInvalidEncodingType] for
    an unknown encoding type. *)
Definition move_encoded_blob_length {E} (unencoded_length encoding_type n_shards : Z) :
    outcome E Z :=
  assert (encoding_type =? 1);;
  redstuff_encoded_blob_length unencoded_length n_shards.

(** ** Lemmas *)

Lemma move_arith_in_range {E} w v : 0 <= v < 2 ^ w -> move_arith (E:=E) w v = Ok v.
Proof. intros Hv. unfold move_arith. by rewrite (proj2 (in_uint_spec w v) Hv). Qed.

Lemma move_arith_overflow {E} w v : ~ (0 <= v < 2 ^ w) -> move_arith (E:=E) w v = Panic.
Proof.
  intros Hv. unfold move_arith. destruct (in_uint w v) eqn:Hin; [|done].
  by apply in_uint_spec in Hin.
Qed.

(** Runs the leading Move operation, its range proved by [tac]. *)
Ltac move_step tac :=
  match goal with
  | |- mbind _ (move_arith ?w ?v) = _ =>
    rewrite (move_arith_in_range w v) by tac; cbn [mbind outcome_bind]
  | |- move_arith ?w ?v = _ => rewrite (move_arith_in_range w v) by tac
  end.

Lemma max_byzantine_eq {E} n : is_nzu16 n ->
  max_byzantine (E:=E) n = Ok (max_n_faulty n).
Proof. unfold is_nzu, max_byzantine. intros Hn. by move_step uint_lia. Qed.

Lemma move_source_symbols_eq {E} n : is_nzu16 n ->
  move_source_symbols_primary (E:=E) n = Ok (n_primary_of n) /\
  move_source_symbols_secondary (E:=E) n = Ok (n_secondary_of n).
Proof.
  intros Hn. pose proof (n_source_bounds n Hn) as Hb.
  pose proof (max_n_faulty_bounds n ltac:(lia)).
  unfold move_source_symbols_primary, move_source_symbols_secondary.
  rewrite max_byzantine_eq by done. cbn [mbind outcome_bind].
  unfold n_primary_of, n_secondary_of in *.
  split; [|by move_step uint_lia].
  rewrite move_arith_in_range by uint_lia. cbn [mbind outcome_bind].
  by move_step uint_lia.
Qed.

Lemma move_n_source_symbols_eq {E} n : is_nzu16 n ->
  move_n_source_symbols (E:=E) n = Ok (symbols_per_blob n).
Proof.
  intros Hn. destruct (move_source_symbols_eq (E:=E) n Hn) as [Hp Hs].
  unfold move_n_source_symbols. rewrite Hp. cbn [mbind outcome_bind]. rewrite Hs.
  pose proof (symbols_per_blob_bounds n Hn). unfold symbols_per_blob in *.
  cbn [mbind outcome_bind]. by move_step uint_lia.
Qed.

(** The round-up division written with a decrement. *)
Lemma div_ceil_decr l n : 0 < n -> 1 <= l -> (l - 1) / n + 1 = div_ceil l n.
Proof.
  intros Hn Hl. pose proof (div_ceil_spec l n Hn).
  pose proof (Z.div_mod (l - 1) n ltac:(lia)). pose proof (Z.mod_pos_bound (l - 1) n Hn). nia.
Qed.

Lemma next_multiple_2 q : next_multiple q 2 = if q mod 2 =? 1 then q + 1 else q.
Proof.
  unfold next_multiple. pose proof (Z.mod_pos_bound q 2 ltac:(lia)).
  destruct (Z.eqb_spec (q mod 2) 0), (Z.eqb_spec (q mod 2) 1); lia.
Qed.

(** The on-chain symbol size is the least even one, or the call aborts. *)
Lemma move_symbol_size_eq {E} n l : is_nzu16 n -> 0 <= l < 2 ^ 64 ->
  move_symbol_size (E:=E) l n =
    if Z.max l 1 <=? symbols_per_blob n * max_symbol_size RS2
    then Ok (exact_symbol_size l (symbols_per_blob n) 2) else Panic.
Proof.
  intros Hn Hl. pose proof (symbols_per_blob_bounds n Hn) as Hb.
  unfold move_symbol_size. rewrite move_n_source_symbols_eq by done.
  cbn [mbind outcome_bind]. set (S := symbols_per_blob n) in *.
  assert ((if l =? 0 then 1 else l) = Z.max l 1) as -> by (destruct (Z.eqb_spec l 0); lia).
  move_step uint_lia. destruct (Z.eqb_spec S 0); [lia|]. cbn [mbind outcome_bind].
  rewrite div_ceil_decr by lia.
  pose proof (div_ceil_spec (Z.max l 1) S ltac:(lia)) as Hd.
  assert (1 <= div_ceil (Z.max l 1) S <= Z.max l 1) by nia.
  rewrite move_arith_in_range by lia. cbn [mbind outcome_bind].
  pose proof (exact_symbol_size_le_iff l S 2 32767 ltac:(lia) ltac:(lia)) as Hiff.
  unfold exact_symbol_size in *. set (q := div_ceil (Z.max l 1) S) in *.
  change (max_symbol_size RS2) with (2 * 32767).
  pose proof (next_multiple_spec q 2 ltac:(lia)) as [Hq _].
  rewrite next_multiple_2 in *. pose proof (Z.div_mod q 2 ltac:(lia)).
  pose proof (Z.mod_pos_bound q 2 ltac:(lia)).
  destruct (Z.leb_spec (Z.max l 1) (S * (2 * 32767))) as [Hle|Hgt].
  - apply Hiff in Hle. destruct (Z.eqb_spec (q mod 2) 1);
      rewrite move_arith_in_range by uint_lia; cbn [mbind outcome_bind].
    + rewrite (proj2 (Z.eqb_eq _ _)) by done. by move_step uint_lia.
    + by rewrite (proj2 (Z.eqb_neq _ _)) by done.
  - assert (2 * 32767 < (if q mod 2 =? 1 then q + 1 else q)) by lia.
    destruct (decide (q < 2 ^ 16)).
    + rewrite move_arith_in_range by lia. cbn [mbind outcome_bind].
      destruct (Z.eqb_spec (q mod 2) 1); [|uint_lia].
      apply move_arith_overflow. uint_lia.
    + by rewrite move_arith_overflow by lia.
Qed.

Lemma move_metadata_size_eq {E} n : is_nzu16 n ->
  move_metadata_size (E:=E) n = Ok (64 * n + 32).
Proof.
  unfold is_nzu, move_metadata_size, DIGEST_LEN, BlobId_LENGTH. intros Hn.
  do 3 move_step uint_lia. f_equal. lia.
Qed.

(** The total, in exact arithmetic: every shard stores one sliver of each axis
    and the metadata. *)
Definition exact_encoded_length (n s : Z) : Z :=
  n * ((n_primary_of n + n_secondary_of n) * s + (64 * n + 32)).

Lemma exact_encoded_length_bounds n s : is_nzu16 n -> 0 <= s <= 65534 ->
  0 <= (n_primary_of n + n_secondary_of n) * s < 2 ^ 34 /\
  0 <= n * ((n_primary_of n + n_secondary_of n) * s) < 2 ^ 50 /\
  0 <= n * (64 * n + 32) < 2 ^ 50 /\
  0 <= exact_encoded_length n s < 2 ^ 51.
Proof.
  intros Hn Hs. pose proof (n_source_bounds n Hn) as Hb.
  unfold exact_encoded_length, MAX_SOURCE_SYMBOLS in *.
  set (k := n_primary_of n + n_secondary_of n).
  assert (0 <= k < 131070) by (subst k; uint_lia).
  assert (0 <= k * s < 2 ^ 34) by nia. nia.
Qed.

Lemma redstuff_encoded_blob_length_eq {E} n l : is_nzu16 n -> 0 <= l < 2 ^ 64 ->
  redstuff_encoded_blob_length (E:=E) l n =
    if Z.max l 1 <=? symbols_per_blob n * max_symbol_size RS2
    then Ok (exact_encoded_length n (exact_symbol_size l (symbols_per_blob n) 2))
    else Panic.
Proof.
  intros Hn Hl. destruct (move_source_symbols_eq (E:=E) n Hn) as [Hp Hs].
  pose proof (n_source_bounds n Hn) as Hb. unfold MAX_SOURCE_SYMBOLS in *.
  unfold redstuff_encoded_blob_length. rewrite Hp. cbn [mbind outcome_bind].
  rewrite Hs. cbn [mbind outcome_bind]. move_step uint_lia.
  rewrite move_symbol_size_eq by done.
  destruct (Z.leb_spec (Z.max l 1) (symbols_per_blob n * max_symbol_size RS2)) as [Hle|];
    [|done]. cbn [mbind outcome_bind].
  pose proof (symbol_size_range n l Hn Hle) as Hr.
  pose proof (exact_encoded_length_bounds n _ Hn (conj (Z.le_trans 0 2 _ ltac:(lia) (proj1 Hr)) (proj2 Hr)))
    as (Ha & Hm & Hmm & Ht). unfold exact_encoded_length in *.
  move_step lia. rewrite move_metadata_size_eq by done. cbn [mbind outcome_bind].
  rewrite move_arith_in_range by lia. cbn [mbind outcome_bind].
  by rewrite move_arith_in_range by lia.
Qed.

Lemma encoded_blob_length_for_n_shards_eq `{Build} {E} n l :
  is_nzu16 n -> 0 <= l < 2 ^ 64 -> ~ (n = 1 /\ l = u64_MAX) ->
  encoded_blob_length_for_n_shards (E:=E) n l RS2 =
    Ok (if Z.max l 1 <=? symbols_per_blob n * max_symbol_size RS2
        then Some (exact_encoded_length n (exact_symbol_size l (symbols_per_blob n) 2))
        else None).
Proof.
  intros Hn Hl Hc.
  unfold encoded_blob_length_for_n_shards, encoded_slivers_length_for_n_shards.
  pose proof (n_source_bounds n Hn) as Hb. unfold MAX_SOURCE_SYMBOLS in *.
  pose proof (symbol_size_for_blob_eq n l Hn Hl Hc) as Hsym.
  unfold symbol_size_for_blob, source_symbols_per_blob in Hsym.
  cbn [rs_encoding_factory n_primary_source_symbols n_secondary_source_symbols encoding_type
    rs_config_of source_symbols_primary source_symbols_secondary] in Hsym.
  rewrite source_symbols_per_blob_of_eq in Hsym by done. cbn [mbind outcome_bind] in Hsym.
  rewrite source_symbols_for_n_shards_eq by done. cbn [mbind outcome_bind].
  rewrite arith_in_range by uint_lia. cbn [mbind outcome_bind].
  rewrite source_symbols_per_blob_for_n_shards_eq by done. cbn [mbind outcome_bind].
  rewrite Hsym.
  destruct (Z.leb_spec (Z.max l 1) (symbols_per_blob n * max_symbol_size RS2)) as [Hle|];
    [|done]. cbn [ok mbind outcome_bind].
  pose proof (symbol_size_range n l Hn Hle) as Hr.
  pose proof (exact_encoded_length_bounds n _ Hn (conj (Z.le_trans 0 2 _ ltac:(lia) (proj1 Hr)) (proj2 Hr)))
    as (Ha & Hm & Hmm & Ht). unfold exact_encoded_length in *.
  do 2 (rewrite arith_in_range by lia; cbn [mbind outcome_bind]).
  rewrite metadata_length_for_n_shards_eq by done. cbn [mbind outcome_bind].
  do 2 (rewrite arith_in_range by lia; cbn [mbind outcome_bind]).
  do 2 f_equal. lia.
Qed.

(** ** Properties *)

(** C39: the on-chain and the off-chain length agree for every number of shards
    and every blob size: where walrus-core returns [Some total] the contract
    returns [total], and where walrus-core returns [None] the contract aborts
    (the one input on which walrus-core panics is excluded).  Neither
    computation overflows. *)
Theorem encoded_blob_length_in_sync `{Build} n l :
  is_nzu16 n -> 0 <= l < 2 ^ 64 -> ~ (n = 1 /\ l = u64_MAX) ->
  exists r, encoded_blob_length_for_n_shards (E:=False) n l RS2 = Ok r /\
    move_encoded_blob_length (E:=False) l (encoding_type_to_u8 RS2) n = expect r.
Proof.
  intros Hn Hl Hc. rewrite encoded_blob_length_for_n_shards_eq by done.
  eexists. split; [done|]. unfold move_encoded_blob_length.
  cbn [encoding_type_to_u8 Z.eqb Pos.eqb assert mbind outcome_bind].
  rewrite redstuff_encoded_blob_length_eq by done. by case_match.
Qed.

(** The encoded length is what the shards store: for a blob that fits, it
    is [n_shards] times the metadata and one sliver of each axis, each at the
    size [sliver_size_for_blob] gives; it stays below 2^51 bytes, so no
    intermediate [u64] or [u32] product can overflow. *)
Theorem encoded_blob_length_stored `{Build} n l c m :
  is_nzu16 n -> 0 <= l < 2 ^ 64 -> ~ (n = 1 /\ l = u64_MAX) ->
  rs_config_new (E:=False) n = Ok c -> max_blob_size (E:=False) c = Ok m -> l <= m ->
  exists total md p s, encoded_blob_length (E:=False) c l = Ok (Some total) /\
    metadata_length (E:=False) c = Ok md /\
    sliver_size_for_blob Primary c l = Ok p /\ sliver_size_for_blob Secondary c l = Ok s /\
    total = n * (md + p + s) /\ total < 2 ^ 51.
Proof.
  intros Hn Hl Hc Hnew Hmax Hle. rewrite rs_config_new_eq in Hnew by done.
  injection Hnew as <-. unfold max_blob_size in Hmax.
  cbn [rs_encoding_factory n_shards encoding_type rs_config_of rs_n_shards] in Hmax.
  rewrite max_blob_size_for_n_shards_eq in Hmax by done. injection Hmax as <-.
  pose proof (symbols_per_blob_bounds n Hn). pose proof (n_source_bounds n Hn) as Hb.
  assert (Z.max l 1 <= symbols_per_blob n * max_symbol_size RS2) as Hle' by (cbn in *; uint_lia).
  pose proof (symbol_size_range n l Hn Hle') as Hr. unfold MAX_SOURCE_SYMBOLS in *.
  set (s := exact_symbol_size l (symbols_per_blob n) 2) in *.
  exists (exact_encoded_length n s), (64 * n + 32), (n_secondary_of n * s), (n_primary_of n * s).
  unfold encoded_blob_length, metadata_length, sliver_size_for_blob.
  rewrite symbol_size_for_blob_eq by done.
  cbn [rs_encoding_factory n_shards encoding_type rs_config_of rs_n_shards].
  rewrite encoded_blob_length_for_n_shards_eq, metadata_length_for_n_shards_eq by done.
  rewrite (proj2 (Z.leb_le (Z.max l 1) _) Hle'). cbn [mbind outcome_bind]. fold s.
  unfold checked_mul, try_from; cbn.
  split_and!; [done|done| | | |apply exact_encoded_length_bounds; [done|lia]].
  - by rewrite (proj2 (in_uint_spec 32 _)) by uint_lia || nia.
  - by rewrite (proj2 (in_uint_spec 32 _)) by uint_lia || nia.
  - unfold exact_encoded_length. lia.
Qed.

(** ** Witnesses *)

Section witnesses.
#[local] Existing Instance release_build.

Lemma encoded_blob_length_in_sync_witness :
  exists r, encoded_blob_length_for_n_shards (E:=False) 1000 (334 * 667 * 100) RS2 = Ok r /\
    move_encoded_blob_length (E:=False) (334 * 667 * 100) (encoding_type_to_u8 RS2) 1000
    = expect r.
Proof.
  exact (encoded_blob_length_in_sync 1000 (334 * 667 * 100)
    ltac:(split; lia) ltac:(lia) ltac:(lia)).
Defined.

Lemma encoded_blob_length_stored_witness :
  exists total md p s, encoded_blob_length (E:=False) (rs_config_of 10) 2801 = Ok (Some total) /\
    metadata_length (E:=False) (rs_config_of 10) = Ok md /\
    sliver_size_for_blob Primary (rs_config_of 10) 2801 = Ok p /\
    sliver_size_for_blob Secondary (rs_config_of 10) 2801 = Ok s /\
    total = 10 * (md + p + s) /\ total < 2 ^ 51.
Proof.
  exact (encoded_blob_length_stored 10 2801 (rs_config_of 10) (28 * 65534)
    ltac:(split; lia) ltac:(lia) ltac:(lia) eq_refl eq_refl ltac:(lia)).
Defined.

End witnesses.
