(* ===== verification/Mapping.v ===== *)
(** * The mapping between sliver pairs and shards

    Models encoding/mapping.rs: the rotation of the sliver pairs by the blob ID
    and the two index conversions.  The functions on slices of sliver pairs use
    a pair only through its index, so they are stated over any type with an
    index function; the in-place rotation returns the new contents of the
    slice. *)

From S2P Require Import Prelude Core.

Inductive SliverAssignmentError := InconsistentRotation | InvalidInputOrder.

#[export] Instance SliverAssignmentError_eq_dec : EqDecision SliverAssignmentError.
Proof. solve_decision. Defined.

Section mapping.
Context `{Build}.

(** The [fold] of [bytes_mod], in [usize]; [%] panics for a zero modulus. *)
Definition bytes_mod {E} (bytes : list byte) (modulus : Z) : outcome E Z :=
  foldM (fun acc b =>
    m ← arith 64 (acc * 256);
    s ← arith 64 (m + byte_val b);
    if modulus =? 0 then Panic else Ok (s mod modulus)) 0 bytes.

Definition rotation_offset {E} (n_shards : Z) (blob_id : BlobId) : outcome E Z :=
  bytes_mod (blob_id_bytes blob_id) n_shards.

Definition to_shard_index {E} (i : SliverPairIndex) (n_shards : Z) (blob_id : BlobId) :
    outcome E ShardIndex :=
  offset ← rotation_offset n_shards blob_id;
  sum ← arith 64 (pair_index_get i + offset);
  r ← expect (try_from 16 (sum mod n_shards));
  Ok (mk_shard_index r).

Definition to_pair_index {E} (i : ShardIndex) (n_shards : Z) (blob_id : BlobId) :
    outcome E SliverPairIndex :=
  sum ← arith 64 (n_shards + shard_index_get i);
  offset ← rotation_offset n_shards blob_id;
  d ← arith 64 (sum - offset);
  r ← expect (try_from 16 (d mod n_shards));
  Ok (mk_pair_index r).

Definition rotate_by_bytes {E T} (l : list T) (rotation : list byte) : outcome E (list T) :=
  k ← bytes_mod rotation (len l);
  rotate_right (Z.to_nat k) l.

Section pairs.
Context {SliverPair : Type} (pair_index : SliverPair -> SliverPairIndex).

Definition is_rotation (pairs : list SliverPair) : bool :=
  match pairs with
  | [] => true
  | p0 :: _ =>
    forallb id (imap (fun i p =>
      pair_index_get (pair_index p) =?
        (Z.of_nat i + pair_index_get (pair_index p0)) mod len pairs) pairs)
  end.

(** The slice after the call. *)
Definition rotate_pairs (pairs : list SliverPair) (blob_id : BlobId) :
    outcome SliverAssignmentError (list SliverPair) :=
  n ← expect (try_from 16 (len pairs));
  match non_zero n, pairs with
  | Some n_pairs, p0 :: _ =>
    if is_rotation pairs then
      if decide (pair_index p0 = mk_pair_index 0)
      then rotate_by_bytes pairs (blob_id_bytes blob_id)
      else
        first ← to_pair_index (mk_shard_index 0) n_pairs blob_id;
        if decide (pair_index p0 = first) then Ok pairs else Err InconsistentRotation
    else Err InvalidInputOrder
  | _, _ => Ok pairs
  end.

Definition rotate_pairs_unchecked {E} (pairs : list SliverPair) (blob_id : BlobId) :
    outcome E (list SliverPair) :=
  match pairs with
  | [] => Ok pairs
  | _ => rotate_by_bytes pairs (blob_id_bytes blob_id)
  end.

End pairs.

(** ** The blob ID as a number *)

(** The big-endian value of a byte string. *)
Definition be_value (bytes : list byte) : Z :=
  foldl (fun acc b => acc * 256 + byte_val b) 0 bytes.

Lemma bytes_mod_acc {E} bytes m acc a : 0 < m <= 2 ^ 56 -> acc mod m = a -> 0 <= a < m ->
  foldM (E:=E) (fun acc b =>
    p ← arith 64 (acc * 256);
    s ← arith 64 (p + byte_val b);
    if m =? 0 then Panic else Ok (s mod m)) a bytes
  = Ok (foldl (fun acc b => acc * 256 + byte_val b) acc bytes mod m).
Proof.
  intros Hm. revert acc a. induction bytes as [|b bytes IH]; intros acc a Ha Hr; cbn.
  { by rewrite Ha. }
  pose proof (byte_val_range b). assert (a + 1 <= 2 ^ 56) by lia.
  rewrite arith_in_range by lia. cbn [mbind outcome_bind].
  rewrite arith_in_range by lia. cbn [mbind outcome_bind].
  destruct (Z.eqb_spec m 0); [lia|]. cbn [mbind outcome_bind].
  apply IH; [|apply Z.mod_pos_bound; lia].
  by rewrite <- Ha, <- Z.add_mod_idemp_l, <- Z.mul_mod_idemp_l, Z.add_mod_idemp_l by lia.
Qed.

Lemma bytes_mod_eq {E} bytes m : 0 < m <= 2 ^ 56 ->
  bytes_mod (E:=E) bytes m = Ok (be_value bytes mod m).
Proof. intros Hm. apply bytes_mod_acc; [done|by apply Z.mod_0_l; lia|lia]. Qed.

Lemma be_value_app b1 b2 :
  be_value (b1 ++ b2) = be_value b1 * 256 ^ len b2 + be_value b2.
Proof.
  unfold be_value. rewrite foldl_app. generalize (foldl (fun acc b => acc * 256 + byte_val b) 0 b1).
  induction b2 as [|b b2 IH] using rev_ind; intros a; cbn; [lia|].
  rewrite !foldl_app, length_app. cbn. rewrite IH.
  replace (Z.of_nat (length b2 + 1)) with (len b2 + 1) by lia.
  rewrite Z.pow_add_r by lia. lia.
Qed.

Section mapping_lemmas.
Context (n : Z) (Hn : is_nzu16 n) (blob_id : BlobId).

Definition offset_of : Z := be_value (blob_id_bytes blob_id) mod n.

Lemma offset_of_range : 0 <= offset_of < n.
Proof. unfold is_nzu in Hn. apply Z.mod_pos_bound. lia. Qed.

Lemma rotation_offset_eq {E} : rotation_offset (E:=E) n blob_id = Ok offset_of.
Proof. unfold is_nzu in Hn. apply bytes_mod_eq. uint_lia. Qed.

Lemma to_shard_index_eq {E} i : 0 <= pair_index_get i < 2 ^ 16 ->
  to_shard_index (E:=E) i n blob_id =
    Ok (mk_shard_index ((pair_index_get i + offset_of) mod n)).
Proof.
  intros Hi. pose proof offset_of_range. unfold is_nzu in Hn.
  unfold to_shard_index. rewrite rotation_offset_eq. cbn [mbind outcome_bind].
  arith_step uint_lia. pose proof (Z.mod_pos_bound (pair_index_get i + offset_of) n ltac:(lia)).
  unfold try_from. by rewrite (proj2 (in_uint_spec 16 _)) by lia.
Qed.

Lemma to_pair_index_eq {E} i : 0 <= shard_index_get i < 2 ^ 16 ->
  to_pair_index (E:=E) i n blob_id =
    Ok (mk_pair_index ((shard_index_get i - offset_of) mod n)).
Proof.
  intros Hi. pose proof offset_of_range. unfold is_nzu in Hn.
  unfold to_pair_index. arith_step uint_lia. rewrite rotation_offset_eq.
  cbn [mbind outcome_bind]. arith_step uint_lia.
  replace (n + shard_index_get i - offset_of) with (shard_index_get i - offset_of + 1 * n) by lia.
  rewrite Z.mod_add by lia.
  pose proof (Z.mod_pos_bound (shard_index_get i - offset_of) n ltac:(lia)).
  unfold try_from. by rewrite (proj2 (in_uint_spec 16 _)) by lia.
Qed.

End mapping_lemmas.

(** ** Rotations of slices *)

Section rotation_lemmas.
Context {SliverPair : Type} (pair_index : SliverPair -> SliverPairIndex).
Implicit Types (pairs : list SliverPair).

(** The pairs sit at the positions given by their indices. *)
Definition in_order pairs : Prop :=
  forall i p, pairs !! i = Some p -> pair_index_get (pair_index p) = Z.of_nat i.

(** The pairs sit at the positions of the shards that store them. *)
Definition placed (blob_id : BlobId) pairs : Prop :=
  forall s p, pairs !! s = Some p ->
    to_shard_index (E:=SliverAssignmentError) (pair_index p) (len pairs) blob_id
    = Ok (mk_shard_index (Z.of_nat s)).

(** The pairs are a rotation that starts with the pair of index [k]. *)
Definition rotation_from (k : Z) pairs : Prop :=
  forall i p, pairs !! i = Some p ->
    pair_index_get (pair_index p) = (Z.of_nat i + k) mod len pairs.

Lemma is_rotation_spec p0 pairs :
  is_rotation pair_index (p0 :: pairs) = true <->
  rotation_from (pair_index_get (pair_index p0)) (p0 :: pairs).
Proof.
  unfold is_rotation, rotation_from. rewrite forallb_forall. split.
  - intros Hall i p Hp. apply Z.eqb_eq, Hall, list_elem_of_In.
    apply list_elem_of_lookup. exists i. rewrite list_lookup_imap, Hp. done.
  - intros Hr b Hb. apply list_elem_of_In, list_elem_of_lookup in Hb as [i Hi].
    rewrite list_lookup_imap in Hi. destruct ((p0 :: pairs) !! i) as [p|] eqn:Hp; [|done].
    cbn in Hi. injection Hi as <-. apply Z.eqb_eq. by apply Hr.
Qed.

Lemma rotation_from_in_order pairs : rotation_from 0 pairs <-> in_order pairs.
Proof.
  split; intros Hr i p Hp; pose proof (lookup_lt_Some _ _ _ Hp) as Hlt;
    specialize (Hr i p Hp); rewrite Hr.
  - rewrite Z.mod_small; lia.
  - rewrite Z.mod_small; lia.
Qed.

Lemma rotate_right_spec {E A} k (l r : list A) : rotate_right (E:=E) k l = Ok r ->
  r ≡ₚ l /\ length r = length l /\
  forall i, (i < length l)%nat -> r !! i = l !! Z.to_nat ((Z.of_nat i - Z.of_nat k) mod len l).
Proof.
  unfold rotate_right. destruct (Nat.leb_spec k (length l)) as [Hk|]; [|done].
  intros [= <-]. split_and!.
  - rewrite Permutation_app_comm. by rewrite take_drop.
  - len_solve.
  - intros i Hi. destruct (decide (i < k)%nat).
    + rewrite lookup_app_l by (len_solve). rewrite lookup_drop. f_equal.
      replace (Z.of_nat i - Z.of_nat k) with (len l - Z.of_nat k + Z.of_nat i + (-1) * len l) by lia.
      rewrite Z.mod_add, Z.mod_small by lia. lia.
    + rewrite lookup_app_r by (len_solve). rewrite length_drop.
      rewrite Z.mod_small by lia. rewrite lookup_take_lt by lia. f_equal. lia.
Qed.

Lemma rotation_of_rotation_from j k pairs r :
  (0 < length pairs)%nat -> length r = length pairs ->
  (forall i, (i < length pairs)%nat ->
    r !! i = pairs !! Z.to_nat ((Z.of_nat i - j) mod len pairs)) ->
  rotation_from k pairs -> rotation_from (k - j) r.
Proof.
  intros Hpos Hlen Hr Hk i p Hp. pose proof (lookup_lt_Some _ _ _ Hp) as Hlt.
  rewrite Hlen in *. rewrite Hr in Hp by done. apply Hk in Hp. rewrite Hp.
  pose proof (Z.mod_pos_bound (Z.of_nat i - j) (len pairs) ltac:(lia)).
  rewrite Z2Nat.id by lia. rewrite Z.add_mod_idemp_l by lia. f_equal. lia.
Qed.

Lemma rotation_from_mod k k' pairs : (0 < length pairs)%nat ->
  k mod len pairs = k' mod len pairs -> rotation_from k pairs -> rotation_from k' pairs.
Proof.
  intros Hpos Heq Hr i p Hp. rewrite (Hr i p Hp).
  rewrite <- Z.add_mod_idemp_r, Heq, Z.add_mod_idemp_r by lia. done.
Qed.

Lemma rotation_from_head k p0 pairs : rotation_from k (p0 :: pairs) ->
  pair_index_get (pair_index p0) = k mod len (p0 :: pairs).
Proof. intros Hr. by rewrite (Hr 0%nat p0 eq_refl). Qed.

Lemma rotation_from_placed blob_id k pairs : is_nzu16 (len pairs) ->
  rotation_from k pairs ->
  (k + offset_of (len pairs) blob_id) mod len pairs = 0 <-> placed blob_id pairs.
Proof.
  intros Hn Hr. set (o := offset_of (len pairs) blob_id). pose proof Hn as [Hpos Hmax].
  assert (forall s p, pairs !! s = Some p ->
    to_shard_index (E:=SliverAssignmentError) (pair_index p) (len pairs) blob_id
    = Ok (mk_shard_index ((Z.of_nat s + (k + o)) mod len pairs))) as Hidx.
  { intros s p Hp. apply Hr in Hp.
    pose proof (Z.mod_pos_bound (Z.of_nat s + k) (len pairs) ltac:(lia)).
    rewrite to_shard_index_eq by (done || lia). rewrite Hp. fold o.
    rewrite Z.add_mod_idemp_l by lia. do 3 f_equal. lia. }
  split.
  - intros Hz s p Hp. rewrite (Hidx s p Hp). pose proof (lookup_lt_Some _ _ _ Hp).
    rewrite <- Z.add_mod_idemp_r, Hz by lia. rewrite Z.add_0_r, Z.mod_small by lia. done.
  - intros Hpl. destruct (lookup_lt_is_Some_2 pairs 0 ltac:(lia)) as [p Hp].
    specialize (Hpl 0%nat p Hp). rewrite (Hidx 0%nat p Hp) in Hpl. by injection Hpl.
Qed.

Lemma rotate_by_bytes_spec {E} blob_id pairs : is_nzu16 (len pairs) ->
  exists r, rotate_by_bytes (E:=E) pairs (blob_id_bytes blob_id) = Ok r /\
    r ≡ₚ pairs /\ length r = length pairs /\
    (forall i, (i < length pairs)%nat ->
      r !! i = pairs !! Z.to_nat ((Z.of_nat i - offset_of (len pairs) blob_id) mod len pairs)).
Proof.
  intros Hn. pose proof (offset_of_range _ Hn blob_id) as Ho. unfold rotate_by_bytes.
  rewrite bytes_mod_eq by (unfold is_nzu in Hn; uint_lia).
  fold (offset_of (len pairs) blob_id). cbn [mbind outcome_bind].
  destruct (rotate_right (E:=E) (Z.to_nat (offset_of (len pairs) blob_id)) pairs) as [r| |] eqn:Hr;
    try (unfold rotate_right in Hr; case_match eqn:Hle; [done|]; apply Nat.leb_gt in Hle; lia).
  exists r. split; [done|]. apply rotate_right_spec in Hr. by rewrite Z2Nat.id in Hr by lia.
Qed.

Lemma rotate_pairs_cons blob_id p0 pairs : is_nzu16 (len (p0 :: pairs)) ->
  rotate_pairs pair_index (p0 :: pairs) blob_id =
    if is_rotation pair_index (p0 :: pairs) then
      if decide (pair_index p0 = mk_pair_index 0)
      then rotate_by_bytes (p0 :: pairs) (blob_id_bytes blob_id)
      else if decide (pair_index p0 =
          mk_pair_index ((0 - offset_of (len (p0 :: pairs)) blob_id) mod len (p0 :: pairs)))
        then Ok (p0 :: pairs) else Err InconsistentRotation
    else Err InvalidInputOrder.
Proof.
  intros Hn. unfold rotate_pairs, try_from.
  rewrite (proj2 (in_uint_spec 16 _)) by (unfold is_nzu in Hn; lia).
  cbn [expect mbind outcome_bind]. unfold non_zero.
  destruct (Z.eqb_spec (len (p0 :: pairs)) 0); [done|].
  destruct (is_rotation _ _); [|done]. case_decide; [done|].
  by rewrite to_pair_index_eq by first [done | cbn; lia].
Qed.

(** A rotation that starts at the first shard's pair is left alone. *)
Lemma rotate_pairs_placed blob_id k pairs : is_nzu16 (len pairs) ->
  rotation_from k pairs -> placed blob_id pairs -> rotate_pairs pair_index pairs blob_id = Ok pairs.
Proof.
  intros Hn Hr Hpl. apply (rotation_from_placed blob_id k pairs Hn Hr) in Hpl.
  pose proof (offset_of_range _ Hn blob_id) as Ho.
  destruct pairs as [|p0 pairs]; [done|]. rewrite rotate_pairs_cons by done.
  pose proof (rotation_from_head k p0 pairs Hr) as H0. set (o := offset_of _ blob_id) in *.
  rewrite (proj2 (is_rotation_spec p0 pairs)); cycle 1.
  { eapply rotation_from_mod, Hr; [cbn; lia|]. by rewrite H0, Z.mod_mod by lia. }
  assert (pair_index_get (pair_index p0) = (0 - o) mod len (p0 :: pairs)) as Hk.
  { rewrite H0. replace k with (k + o + (0 - o)) by lia.
    rewrite <- Z.add_mod_idemp_l, Hpl by lia. f_equal. }
  case_decide as Hz.
  - destruct (rotate_by_bytes_spec (E:=SliverAssignmentError) blob_id (p0 :: pairs) Hn)
      as (r & -> & _ & Hlen & Hl). fold o in Hl. f_equal. apply list_eq_same_length with (length r); [done|lia|].
    rewrite Hz in Hk. cbn [pair_index_get] in Hk.
    assert (o = 0) as Ho0. { destruct (Z.eq_dec o 0); [done|].
      replace (0 - o) with (len (p0 :: pairs) - o + (-1) * len (p0 :: pairs)) in Hk by lia.
      rewrite Z.mod_add, Z.mod_small in Hk; lia. }
    intros i x y Hi Hx Hy. rewrite Hl in Hx by lia.
    rewrite Ho0, Z.sub_0_r, Z.mod_small, Nat2Z.id in Hx by lia. congruence.
  - rewrite <- Hk. case_decide as Hd; [done|]. by destruct Hd, (pair_index p0).
Qed.

End rotation_lemmas.

(** ** Properties *)

(** [bytes_mod] is the big-endian value of the bytes modulo the modulus,
    with no overflow for any modulus up to 2^56 (a [u16] number of shards in
    particular). *)
Theorem bytes_mod_big_endian bytes m : 0 < m <= 2 ^ 56 ->
  bytes_mod (E:=False) bytes m = Ok (be_value bytes mod m).
Proof. apply bytes_mod_eq. Qed.

(** For every number of shards and every blob ID, [to_shard_index] and
    [to_pair_index] never panic, stay below [n_shards] and are inverse to each
    other: every shard stores exactly one sliver pair of the blob. *)
Theorem shard_pair_bijection n blob_id k : is_nzu16 n -> 0 <= k < n ->
  (exists s, to_shard_index (E:=False) (mk_pair_index k) n blob_id = Ok s /\
    0 <= shard_index_get s < n /\
    to_pair_index (E:=False) s n blob_id = Ok (mk_pair_index k)) /\
  (exists p, to_pair_index (E:=False) (mk_shard_index k) n blob_id = Ok p /\
    0 <= pair_index_get p < n /\
    to_shard_index (E:=False) p n blob_id = Ok (mk_shard_index k)).
Proof.
  intros Hn Hk. pose proof Hn as [? ?]. pose proof (offset_of_range n Hn blob_id).
  pose proof (Z.mod_pos_bound (k + offset_of n blob_id) n ltac:(lia)).
  pose proof (Z.mod_pos_bound (k - offset_of n blob_id) n ltac:(lia)).
  split; eexists; (split; [first [apply to_shard_index_eq|apply to_pair_index_eq]; cbn; (done || lia)|]);
    (split; [done|]); [rewrite to_pair_index_eq by first [done | cbn; lia]
                      |rewrite to_shard_index_eq by first [done | cbn; lia]]; cbn.
  - rewrite Zminus_mod_idemp_l. do 2 f_equal. rewrite Z.mod_small; lia.
  - rewrite Z.add_mod_idemp_l by lia. do 2 f_equal. rewrite Z.mod_small; lia.
Qed.

(** The complete behaviour of [rotate_pairs] on a non-empty slice of at
    most [u16::MAX] pairs.  On success the slice is a permutation of the input
    in which every pair sits at the index of its shard; pairs that were already
    placed are untouched, and a second call changes nothing.  A rotation that
    is neither in order nor placed is rejected with [InconsistentRotation], any
    other order with [InvalidInputOrder], and the call never panics. *)
Theorem rotate_pairs_correct {SliverPair} (pair_index : SliverPair -> SliverPairIndex)
    (pairs : list SliverPair) blob_id :
  is_nzu16 (len pairs) ->
  match rotate_pairs pair_index pairs blob_id with
  | Ok r => r ≡ₚ pairs /\ placed pair_index blob_id r /\
      rotate_pairs pair_index r blob_id = Ok r /\ (in_order pair_index pairs \/ r = pairs)
  | Err InconsistentRotation => (exists k, rotation_from pair_index k pairs) /\
      ~ in_order pair_index pairs /\ ~ placed pair_index blob_id pairs
  | Err InvalidInputOrder => forall k, ~ rotation_from pair_index k pairs
  | Panic => False
  end.
Proof.
  intros Hn. pose proof (offset_of_range _ Hn blob_id) as Ho. pose proof Hn as [? ?].
  destruct pairs as [|p0 pairs]; [cbn in *; lia|]. set (l := p0 :: pairs) in *.
  unfold l at 1. rewrite rotate_pairs_cons by done. fold l.
  destruct (is_rotation pair_index l) eqn:Hrot; cycle 1.
  { intros k Hk. pose proof (rotation_from_head _ _ _ _ Hk) as Hh0.
    apply not_true_iff_false in Hrot. apply Hrot, is_rotation_spec.
    eapply rotation_from_mod, Hk; [cbn; lia|]. by rewrite Hh0, Z.mod_mod by (cbn; lia). }
  apply is_rotation_spec in Hrot. fold l in Hrot. case_decide as Hz.
  - destruct (rotate_by_bytes_spec (E:=SliverAssignmentError) blob_id l Hn)
      as (r & -> & Hperm & Hlen & Hl).
    rewrite Hz in Hrot. cbn [pair_index_get] in Hrot.
    assert (rotation_from pair_index (0 - offset_of (len l) blob_id) r) as Hr.
    { eapply rotation_of_rotation_from; [|done|exact Hl|done]. cbn; lia. }
    assert (placed pair_index blob_id r) as Hpl.
    { eapply rotation_from_placed; rewrite ?Hlen; [done|exact Hr|].
      by replace (0 - _ + _) with 0 by lia; rewrite Z.mod_0_l by lia. }
    split_and!; [done|done| |left; by apply rotation_from_in_order].
    eapply rotate_pairs_placed; [by rewrite Hlen|exact Hr|done].
  - set (k := pair_index_get (pair_index p0)) in *.
    pose proof (rotation_from_placed pair_index blob_id k l Hn Hrot) as Hiff.
    pose proof (rotation_from_head _ _ _ _ Hrot) as Hk. fold k l in Hk.
    pose proof (Z.mod_pos_bound k (len l) ltac:(lia)).
    case_decide as Hfirst.
    + assert (placed pair_index blob_id l) as Hpl.
      { apply Hiff. unfold k at 1. rewrite Hfirst. cbn [pair_index_get].
        rewrite Z.add_mod_idemp_l by lia.
        by replace (0 - _ + _) with 0 by lia; rewrite Z.mod_0_l by lia. }
      split_and!; [done|done|by eapply rotate_pairs_placed|by right].
    + split_and!; [by exists k| |].
      * intros Hio%rotation_from_in_order. apply Hz.
        pose proof (rotation_from_head _ _ _ _ Hio) as Hh. rewrite Z.mod_0_l in Hh by (cbn; lia).
        destruct (pair_index p0); cbn in *; by subst.
      * intros Hpl%Hiff. apply Hfirst.
        assert (pair_index p0 = mk_pair_index k) as -> by by destruct (pair_index p0).
        f_equal. rewrite Hk. replace k with (k + offset_of (len l) blob_id
          + (0 - offset_of (len l) blob_id)) at 1 by lia.
        by rewrite <- Z.add_mod_idemp_l, Hpl, Z.add_0_l by lia.
Qed.

End mapping.

(** ** Witnesses *)

Section witnesses.
#[local] Existing Instance release_build.

Definition witness_id : BlobId := mk_blob_id (replicate 31 x00 ++ [x0a]).

Lemma bytes_mod_big_endian_witness :
  bytes_mod (E:=False) [x01; x02] 1000 = Ok (be_value [x01; x02] mod 1000).
Proof. exact (bytes_mod_big_endian [x01; x02] 1000 ltac:(lia)). Defined.

Lemma shard_pair_bijection_witness :
  exists s, to_shard_index (E:=False) (mk_pair_index 5) 7 witness_id = Ok s /\
    0 <= shard_index_get s < 7 /\
    to_pair_index (E:=False) s 7 witness_id = Ok (mk_pair_index 5).
Proof. exact (proj1 (shard_pair_bijection 7 witness_id 5 ltac:(split; lia) ltac:(lia))). Defined.

(** Four pairs, represented by their indices, rotated by [10 mod 4]. *)
Lemma rotate_pairs_correct_witness :
  let pairs := [mk_pair_index 0; mk_pair_index 1; mk_pair_index 2; mk_pair_index 3] in
  let r := [mk_pair_index 2; mk_pair_index 3; mk_pair_index 0; mk_pair_index 1] in
  rotate_pairs id pairs witness_id = Ok r /\ placed id witness_id r.
Proof.
  intros pairs r. split; [reflexivity|].
  exact (proj1 (proj2 (rotate_pairs_correct id pairs witness_id ltac:(split; cbn; lia)))).
Defined.

End witnesses.
