(* ===== verification/Merkle.v ===== *)
(** * Merkle trees

    Models merkle.rs: the vector-based construction of the tree, extraction and
    verification of inclusion proofs.  The hash function is the trait
    [HashFunction] of the fastcrypto crate: a class whose one law is that a
    digest has 32 bytes.  The tree is compared with the recursive definition
    the documentation gives (subtrees without leaves hash to zeros), and proof
    verification is shown complete and, for a hash without collisions on the
    strings actually hashed, sound. *)

From S2P Require Import Prelude.

#[local] Arguments Nat.modulo : simpl never.
#[local] Arguments Nat.div : simpl never.

(** [fastcrypto::hash::HashFunction<32>]: the digest of everything passed to
    [update], in order. *)
Class HashFunction := {
  digest : list byte -> list byte;
  digest_length : forall input, length (digest input) = 32%nat;
}.

Definition LEAF_PREFIX : list byte := [x00].
Definition INNER_PREFIX : list byte := [x01].
Definition EMPTY_NODE : list byte := replicate 32 x00.

Inductive MerkleProofError :=
| PathLengthTooLarge
| LeafIndexOutOfBounds (i : nat)
| RootMismatch.

#[export] Instance MerkleProofError_eq_dec : EqDecision MerkleProofError.
Proof. solve_decision. Defined.

Inductive Node := Empty | Digest (d : list byte).

#[export] Instance Node_eq_dec : EqDecision Node.
Proof. solve_decision. Defined.

Definition node_bytes (n : Node) : list byte :=
  match n with Empty => EMPTY_NODE | Digest d => d end.

Record MerkleProof := mk_proof { path : list Node }.

Record MerkleTree := { nodes : list Node; n_leaves : nat }.

(** [path_length]: the base-2 logarithm of [n_leaves - 1], rounded down, plus one. *)
Definition path_length (n_leaves : nat) : nat :=
  if (n_leaves <=? 1)%nat then 0 else Nat.log2 (n_leaves - 1) + 1.

(** The loop of [n_nodes]; the fuel is [n_leaves], which the level size never
    exceeds and which strictly decreases while it is above one. *)
Fixpoint n_nodes_loop (fuel lvl_nodes tot_nodes : nat) : nat :=
  match fuel with
  | O => tot_nodes + lvl_nodes
  | S fuel =>
    if (1 <? lvl_nodes)%nat then
      let lvl_nodes := (lvl_nodes + lvl_nodes mod 2)%nat in
      n_nodes_loop fuel (lvl_nodes / 2) (tot_nodes + lvl_nodes)
    else (tot_nodes + lvl_nodes)%nat
  end.

Definition n_nodes (n_leaves : nat) : nat := n_nodes_loop n_leaves n_leaves 0.

(** [usize >> usize]: a shift by 64 or more is an overflow. *)
Definition shr64 `{Build} {E} (i k : nat) : outcome E nat :=
  if (k <? 64)%nat then Ok (Nat.shiftr i k)
  else if overflow_checks then Panic else Ok (Nat.shiftr i (k mod 64)).

Section merkle.
Context `{HashFunction}.

Definition leaf_hash (input : list byte) : Node := Digest (digest (LEAF_PREFIX ++ input)).

Definition inner_hash (left right : Node) : Node :=
  Digest (digest (INNER_PREFIX ++ node_bytes left ++ node_bytes right)).

(** *** Building *)

(** [(a..b).step_by(2)]. *)
Definition step_by_2 (a b : nat) : list nat :=
  (fun i => (a + 2 * i)%nat) <$> seq 0 ((b - a + 1) / 2).

Definition push_parent {E} (nodes : list Node) (i : nat) : outcome E (list Node) :=
  left ← index nodes i;
  right ← index nodes (i + 1);
  Ok (nodes ++ [inner_hash left right]).

(** The [while] loop of [build_from_leaf_hashes]; fuel as for [n_nodes]. *)
Fixpoint build_loop {E} (fuel : nat) (nodes : list Node) (level_nodes prev_level_index : nat) :
    outcome E (list Node) :=
  if (1 <? level_nodes)%nat then
    match fuel with
    | O => Panic
    | S fuel =>
      let '(nodes, level_nodes) :=
        if (level_nodes mod 2 =? 1)%nat then (nodes ++ [Empty], (level_nodes + 1)%nat)
        else (nodes, level_nodes) in
      let new_level_index := (prev_level_index + level_nodes)%nat in
      nodes ← foldM push_parent nodes (step_by_2 prev_level_index new_level_index);
      build_loop fuel nodes (level_nodes / 2) new_level_index
    end
  else Ok nodes.

Definition build_from_leaf_hashes {E} (leaves : list Node) : outcome E MerkleTree :=
  nodes ← build_loop (length leaves) leaves (length leaves) 0;
  Ok {| nodes := nodes; n_leaves := length leaves |}.

Definition build {E} (leaves : list (list byte)) : outcome E MerkleTree :=
  build_from_leaf_hashes (leaf_hash <$> leaves).

Definition root (t : MerkleTree) : Node := default Empty (last (nodes t)).

Definition verify_root (t : MerkleTree) (r : Node) : bool := bool_decide (root t = r).

(** *** Proofs *)

Fixpoint get_proof_loop {E} (fuel : nat) (nodes : list Node)
    (level_index n_level level_base_index : nat) (path : list Node) : outcome E (list Node) :=
  if (1 <? n_level)%nat then
    match fuel with
    | O => Panic
    | S fuel =>
      let n_level := (n_level + n_level mod 2)%nat in
      let sibling_index :=
        if (level_index mod 2 =? 0)%nat then (level_base_index + level_index + 1)%nat
        else (level_base_index + level_index - 1)%nat in
      sibling ← index nodes sibling_index;
      get_proof_loop fuel nodes (level_index / 2) (n_level / 2)
        (level_base_index + n_level) (path ++ [sibling])
    end
  else Ok path.

Definition get_proof (t : MerkleTree) (leaf_index : nat) : outcome MerkleProofError MerkleProof :=
  if (n_leaves t <=? leaf_index)%nat then Err (LeafIndexOutOfBounds leaf_index)
  else
    p ← get_proof_loop (n_leaves t) (nodes t) leaf_index (n_leaves t) 0 [];
    Ok (mk_proof p).

(** One iteration of the loop of [compute_root]. *)
Definition root_step (s : Node * nat) (sibling : Node) : Node * nat :=
  let '(current_hash, level_index) := s in
  (if (level_index mod 2 =? 0)%nat then inner_hash current_hash sibling
   else inner_hash sibling current_hash,
   (level_index / 2)%nat).

Definition compute_root `{Build} (p : MerkleProof) (leaf : list byte) (leaf_index : nat) :
    outcome MerkleProofError Node :=
  k ← shr64 leaf_index (length (path p));
  if (k =? 0)%nat
  then Ok (fst (foldl root_step (leaf_hash leaf, leaf_index) (path p)))
  else Err (LeafIndexOutOfBounds leaf_index).

Definition check_path_length (p : MerkleProof) (max_path_length : nat) :
    outcome MerkleProofError unit :=
  if (max_path_length <? length (path p))%nat then Err PathLengthTooLarge else Ok tt.

Definition verify_proof `{Build} (p : MerkleProof) (r : Node) (leaf_count : nat)
    (leaf : list byte) (leaf_index : nat) : outcome MerkleProofError unit :=
  check_path_length p (path_length leaf_count);;
  computed ← compute_root p leaf leaf_index;
  ensure (bool_decide (computed = r)) RootMismatch.

(** ** The recursive definition of the tree *)

(** The hash of the subtree of height [k] over at most [2^k] leaf hashes;
    a subtree without leaves is [Empty]. *)
Fixpoint subtree (k : nat) (leaves : list Node) : Node :=
  match leaves, k with
  | [], _ => Empty
  | x :: _, O => x
  | _, S k => inner_hash (subtree k (take (2 ^ k) leaves)) (subtree k (drop (2 ^ k) leaves))
  end.

(** *** Levels

    One level of the tree from the one below, and the [k]-th level. *)
Fixpoint level_up (l : list Node) : list Node :=
  match l with
  | x :: y :: l => inner_hash x y :: level_up l
  | [x] => [inner_hash x Empty]
  | [] => []
  end.

Fixpoint level (k : nat) (l : list Node) : list Node :=
  match k with O => l | S k => level k (level_up l) end.

Definition node_at (l : list Node) (i : nat) : Node := default Empty (l !! i).

(** The level completed to an even number of nodes. *)
Definition pad (l : list Node) : list Node :=
  if (length l mod 2 =? 1)%nat then l ++ [Empty] else l.

(** The node vector, by levels. *)
Fixpoint all_nodes (d : nat) (l : list Node) : list Node :=
  match d with
  | O => l
  | S d => pad l ++ all_nodes d (level_up l)
  end.

(** Sibling hashes on the way from leaf [i] to the root. *)
Fixpoint siblings (d : nat) (l : list Node) (i : nat) : list Node :=
  match d with
  | O => []
  | S d => node_at l (if (i mod 2 =? 0)%nat then i + 1 else i - 1)%nat
           :: siblings d (level_up l) (i / 2)
  end.

(** Induction on a list by twos. *)
Lemma list_ind2 {A} (P : list A -> Prop) :
  P [] -> (forall x, P [x]) -> (forall x y l, P l -> P (x :: y :: l)) -> forall l, P l.
Proof.
  intros H0 H1 H2. fix IH 1. intros [|x [|y l]]; [done|apply H1|]. apply H2, IH.
Qed.

Lemma length_level_up l : length (level_up l) = ((length l + 1) / 2)%nat.
Proof.
  induction l as [|x|x y l IH] using list_ind2; [done..|]. cbn [level_up length].
  rewrite IH. replace (S (S (length l)) + 1)%nat with (length l + 1 + 1 * 2)%nat by lia.
  rewrite Nat.div_add by lia. lia.
Qed.

Lemma path_length_step n : (1 < n)%nat -> path_length n = S (path_length ((n + 1) / 2)).
Proof.
  intros Hn. unfold path_length. destruct (Nat.leb_spec n 1); [lia|].
  replace ((n + 1) / 2)%nat with (S ((n - 1) / 2)); cycle 1.
  { replace (n + 1)%nat with (n - 1 + 1 * 2)%nat by lia. rewrite Nat.div_add by lia. lia. }
  destruct (decide (n = 2%nat)) as [->|]; [done|].
  assert (1 <= (n - 1) / 2)%nat by (apply Nat.div_le_lower_bound; lia).
  destruct (Nat.leb_spec (S ((n - 1) / 2)) 1); [lia|].
  replace (S ((n - 1) / 2) - 1)%nat with ((n - 1) / 2)%nat by lia.
  pose proof (Nat.log2_shiftr (n - 1) 1) as Hs. rewrite Nat.shiftr_div_pow2 in Hs.
  change (2 ^ 1)%nat with 2%nat in Hs. rewrite Hs.
  pose proof (Nat.log2_pos (n - 1) ltac:(lia)). lia.
Qed.

Lemma path_length_small n : (n <= 1)%nat -> path_length n = 0%nat.
Proof. intros Hn. unfold path_length. by destruct (Nat.leb_spec n 1); [|lia]. Qed.

Lemma length_level_up_lt l : (1 < length l)%nat -> (length (level_up l) < length l)%nat.
Proof. intros Hl. rewrite length_level_up. apply Nat.div_lt_upper_bound; lia. Qed.

(** Induction over the levels of a tree. *)
Lemma levels_ind (P : list Node -> Prop) :
  (forall l, (length l <= 1)%nat -> P l) ->
  (forall l, (1 < length l)%nat -> P (level_up l) -> P l) -> forall l, P l.
Proof.
  intros Hbase Hstep l. induction l as [l IH] using (Wf_nat.induction_ltof1 _ length).
  destruct (decide (length l <= 1)%nat); [by apply Hbase|].
  apply Hstep; [lia|]. apply IH. unfold Wf_nat.ltof. apply length_level_up_lt. lia.
Qed.

(** The size and contents of the padded level. *)
Lemma length_pad l : length (pad l) = (length l + length l mod 2)%nat.
Proof.
  unfold pad. pose proof (Nat.mod_upper_bound (length l) 2 ltac:(lia)).
  destruct (Nat.eqb_spec (length l mod 2) 1); rewrite ?length_app; cbn [length]; lia.
Qed.

Lemma length_pad_half l : (length (pad l) / 2 = (length l + 1) / 2)%nat.
Proof.
  rewrite length_pad. pose proof (Nat.div_mod (length l) 2 ltac:(lia)) as Hd.
  pose proof (Nat.mod_upper_bound (length l) 2 ltac:(lia)).
  set (q := (length l / 2)%nat) in *. set (r := (length l mod 2)%nat) in *.
  assert (r = 0 \/ r = 1)%nat as [->| ->] by lia; rewrite Hd.
  - rewrite !Nat.add_0_r, (Nat.mul_comm 2 q), Nat.div_mul by lia.
    rewrite Nat.div_add_l by lia. change (1 / 2)%nat with 0%nat. lia.
  - done.
Qed.

Lemma lookup_pad l i : (i < length (pad l))%nat -> pad l !! i = Some (node_at l i).
Proof.
  rewrite length_pad. unfold pad, node_at. intros Hi.
  destruct (decide (i < length l)%nat) as [Hlt|Hge].
  - destruct (lookup_lt_is_Some_2 l i Hlt) as [x Hx].
    destruct (_ =? _)%nat; rewrite ?lookup_app_l by done; by rewrite Hx.
  - pose proof (Nat.mod_upper_bound (length l) 2 ltac:(lia)).
    assert (i = length l) as -> by lia. rewrite (lookup_ge_None_2 l (length l)) by lia.
    destruct (Nat.eqb_spec (length l mod 2) 1); [|lia].
    by rewrite lookup_app_r, Nat.sub_diag by lia.
Qed.

(** A node of the next level is the hash of its two children. *)
Lemma lookup_level_up l i : (i < length (level_up l))%nat ->
  level_up l !! i = Some (inner_hash (node_at l (2 * i)) (node_at l (2 * i + 1))).
Proof.
  revert i. induction l as [|x|x y l IH] using list_ind2; intros i Hi; cbn in Hi; [lia| |].
  - by assert (i = 0)%nat as -> by lia.
  - destruct i as [|i]; [done|]. cbn [level_up]. rewrite lookup_cons_ne_0 by done. cbn [pred].
    rewrite IH by lia. unfold node_at.
    replace (2 * S i)%nat with (S (S (2 * i))) by lia.
    replace (S (S (2 * i)) + 1)%nat with (S (S (2 * i + 1))) by lia. done.
Qed.

Lemma node_at_level_up l i :
  node_at (level_up l) i = if (i <? length (level_up l))%nat
    then inner_hash (node_at l (2 * i)) (node_at l (2 * i + 1)) else Empty.
Proof.
  unfold node_at at 1. destruct (Nat.ltb_spec i (length (level_up l))).
  - by rewrite lookup_level_up.
  - by rewrite lookup_ge_None_2.
Qed.

(** *** The construction builds the levels *)

Lemma level_up_pad l : level_up (pad l) = level_up l.
Proof.
  induction l as [|x|x y l IH] using list_ind2; [done..|].
  unfold pad in *. cbn [length]. replace (S (S (length l))) with (length l + 1 * 2)%nat by lia.
  rewrite Nat.Div0.mod_add. destruct (_ =? _)%nat; cbn [app level_up]; [|done].
  by rewrite IH.
Qed.

Lemma step_by_2_cons a m : step_by_2 a (a + S (S m)) = a :: step_by_2 (a + 2) (a + 2 + m).
Proof.
  unfold step_by_2. replace (a + S (S m) - a + 1)%nat with (m + 1 + 1 * 2)%nat by lia.
  rewrite Nat.div_add by lia. replace (a + 2 + m - (a + 2) + 1)%nat with (m + 1)%nat by lia.
  rewrite Nat.add_comm. cbn [seq Nat.add fmap list_fmap]. f_equal; [lia|].
  rewrite <- fmap_S_seq, <- list_fmap_compose. apply list_fmap_ext. intros ? i _. cbn. lia.
Qed.

Lemma push_parents {E} pre l acc : (length l mod 2 = 0)%nat ->
  foldM (E:=E) push_parent (pre ++ l ++ acc) (step_by_2 (length pre) (length pre + length l))
  = Ok (pre ++ l ++ acc ++ level_up l).
Proof.
  revert pre acc. induction l as [|x|x y l IH] using list_ind2; intros pre acc Heven.
  - unfold step_by_2. replace (_ - _ + 1)%nat with 1%nat by (cbn; lia).
    cbn. by rewrite app_nil_r.
  - done.
  - cbn [length]. rewrite step_by_2_cons. cbn [foldM].
    assert (push_parent (E:=E) (pre ++ (x :: y :: l) ++ acc) (length pre)
      = Ok ((pre ++ [x; y]) ++ l ++ acc ++ [inner_hash x y])) as ->.
    { unfold push_parent, index.
      rewrite (lookup_app_r pre _ (length pre)), Nat.sub_diag by lia.
      rewrite (lookup_app_r pre _ (length pre + 1)) by lia.
      replace (length pre + 1 - length pre)%nat with 1%nat by lia. cbn.
      rewrite <- !app_assoc. cbn. by rewrite <- !app_assoc. }
    cbn [mbind outcome_bind].
    replace (length pre + 2)%nat with (length (pre ++ [x; y])) by (rewrite length_app; cbn; lia).
    rewrite IH.
    + cbn [level_up]. by rewrite <- !app_assoc.
    + cbn [length] in Heven. by replace (S (S (length l))) with (length l + 1 * 2)%nat in Heven
        by lia; rewrite Nat.Div0.mod_add in Heven.
Qed.

Lemma length_pad_even l : (length (pad l) mod 2 = 0)%nat.
Proof.
  rewrite length_pad, Nat.Div0.add_mod_idemp_r.
  by replace (length l + length l)%nat with (0 + length l * 2)%nat by lia;
    rewrite Nat.Div0.mod_add.
Qed.

Lemma build_loop_eq {E} l : forall pre fuel, (length l <= fuel)%nat ->
  build_loop (E:=E) fuel (pre ++ l) (length l) (length pre)
  = Ok (pre ++ all_nodes (path_length (length l)) l).
Proof.
  induction l as [l Hl|l Hl IH] using levels_ind; intros pre fuel Hfuel.
  { rewrite path_length_small by done. destruct fuel; cbn [build_loop];
      by destruct (Nat.ltb_spec 1 (length l)); [lia|]. }
  destruct fuel as [|fuel]; [lia|]. cbn [build_loop].
  destruct (Nat.ltb_spec 1 (length l)); [|lia].
  rewrite path_length_step by done. cbn [all_nodes].
  assert ((if (length l mod 2 =? 1)%nat then ((pre ++ l) ++ [Empty], (length l + 1)%nat)
           else (pre ++ l, length l)) = (pre ++ pad l, length (pad l))) as ->.
  { unfold pad. destruct (_ =? _)%nat; rewrite ?length_app; [|done]. by rewrite <- app_assoc. }
  pose proof (push_parents (E:=E) pre (pad l) [] (length_pad_even l)) as Hp.
  rewrite app_nil_r in Hp. cbn [app] in Hp. rewrite Hp. cbn [mbind outcome_bind].
  rewrite level_up_pad, length_pad_half, <- length_level_up, app_assoc, <- length_app.
  pose proof (length_level_up_lt l Hl). by rewrite IH, <- app_assoc by lia.
Qed.

Lemma build_from_leaf_hashes_eq {E} l :
  build_from_leaf_hashes (E:=E) l =
    Ok {| nodes := all_nodes (path_length (length l)) l; n_leaves := length l |}.
Proof.
  unfold build_from_leaf_hashes. pose proof (build_loop_eq (E:=E) l [] (length l) ltac:(lia)) as Hb.
  cbn [app length] in Hb. by rewrite Hb.
Qed.

Lemma n_nodes_loop_eq l : forall fuel tot, (length l <= fuel)%nat ->
  n_nodes_loop fuel (length l) tot = (tot + length (all_nodes (path_length (length l)) l))%nat.
Proof.
  induction l as [l Hl|l Hl IH] using levels_ind; intros fuel tot Hfuel.
  { rewrite path_length_small by done. destruct fuel; cbn [n_nodes_loop all_nodes]; [done|].
    by destruct (Nat.ltb_spec 1 (length l)); [lia|]. }
  destruct fuel as [|fuel]; [lia|]. cbn [n_nodes_loop].
  destruct (Nat.ltb_spec 1 (length l)); [|lia].
  rewrite path_length_step by done. cbn [all_nodes].
  pose proof (length_level_up_lt l Hl).
  rewrite <- length_pad, length_pad_half, <- length_level_up, IH, length_app; lia.
Qed.

(** *** The root is the recursive hash *)

Lemma level_up_take m l : level_up (take (2 * m) l) = take m (level_up l).
Proof.
  revert m. induction l as [|x|x y l IH] using list_ind2; intros m.
  - by destruct m.
  - destruct m as [|m]; [done|]. replace (2 * S m)%nat with (S (S (2 * m))) by lia.
    by destruct m.
  - destruct m as [|m]; [done|]. replace (2 * S m)%nat with (S (S (2 * m))) by lia.
    cbn [take level_up]. by rewrite IH.
Qed.

Lemma level_up_drop m l : level_up (drop (2 * m) l) = drop m (level_up l).
Proof.
  revert m. induction l as [|x|x y l IH] using list_ind2; intros m.
  - by destruct m.
  - destruct m as [|m]; [done|]. replace (2 * S m)%nat with (S (S (2 * m))) by lia.
    by destruct m.
  - destruct m as [|m]; [done|]. replace (2 * S m)%nat with (S (S (2 * m))) by lia.
    cbn [drop level_up]. by rewrite IH.
Qed.

Lemma subtree_level_up k l : subtree (S k) l = subtree k (level_up l).
Proof.
  revert l. induction k as [|k IH]; intros l.
  - by destruct l as [|x [|y l]].
  - destruct (decide (l = [])) as [->|Hne]; [done|].
    assert (level_up l <> []) as Hne' by by destruct l as [|x [|y l]].
    transitivity (inner_hash (subtree (S k) (take (2 ^ S k) l)) (subtree (S k) (drop (2 ^ S k) l))).
    { by destruct l. }
    rewrite (IH (take _ _)), (IH (drop _ _)), Nat.pow_succ_r', level_up_take, level_up_drop.
    revert Hne'. by destruct (level_up l).
Qed.

Lemma root_eq l :
  default Empty (last (all_nodes (path_length (length l)) l)) = subtree (path_length (length l)) l.
Proof.
  induction l as [l Hl|l Hl IH] using levels_ind.
  - rewrite path_length_small by done. destruct l as [|x [|y l]]; [done..|cbn in Hl; lia].
  - rewrite path_length_step, <- length_level_up by done. cbn [all_nodes].
    rewrite subtree_level_up, <- IH, last_app.
    destruct (last (all_nodes _ (level_up l))) as [x|] eqn:Hlast; [done|].
    apply last_None in Hlast. exfalso.
    assert (level_up l <> []) as Hne by (destruct l as [|? [|??]]; cbn in Hl; [lia..|done]).
    destruct (path_length (length (level_up l))); cbn in Hlast; [done|].
    apply app_eq_nil in Hlast as [Hp _]. unfold pad in Hp. case_match; [|done].
    by apply app_eq_nil in Hp as [? _].
Qed.

(** *** Proofs lead to the root *)

Definition sibling (i : nat) : nat := if (i mod 2 =? 0)%nat then (i + 1)%nat else (i - 1)%nat.

Lemma halves i : i = (2 * (i / 2) + i mod 2)%nat /\ (i mod 2 < 2)%nat.
Proof. split; [apply Nat.div_mod_eq|apply Nat.mod_upper_bound; lia]. Qed.

Lemma half_lt i n : (i < n)%nat -> (i / 2 < (n + 1) / 2)%nat.
Proof. pose proof (halves i). pose proof (halves (n + 1)). lia. Qed.

Lemma sibling_lt l i : (i < length l)%nat -> (sibling i < length (pad l))%nat.
Proof.
  intros Hi. rewrite length_pad. unfold sibling. pose proof (halves i).
  pose proof (halves (length l)). destruct (Nat.eqb_spec (i mod 2) 0); lia.
Qed.

Lemma get_proof_loop_eq {E} l : forall pre i fuel acc,
  (length l <= fuel)%nat -> (i < length l)%nat ->
  get_proof_loop (E:=E) fuel (pre ++ all_nodes (path_length (length l)) l) i (length l)
    (length pre) acc
  = Ok (acc ++ siblings (path_length (length l)) l i).
Proof.
  induction l as [l Hl|l Hl IH] using levels_ind; intros pre i fuel acc Hfuel Hi.
  { rewrite path_length_small by done. cbn [siblings]. rewrite app_nil_r.
    destruct fuel; cbn [get_proof_loop]; by destruct (Nat.ltb_spec 1 (length l)); [lia|]. }
  destruct fuel as [|fuel]; [lia|]. cbn [get_proof_loop].
  destruct (Nat.ltb_spec 1 (length l)); [|lia].
  rewrite path_length_step by done. cbn [all_nodes siblings].
  assert ((if (i mod 2 =? 0)%nat then length pre + i + 1 else length pre + i - 1)%nat
    = (length pre + sibling i)%nat) as ->.
  { unfold sibling. pose proof (halves i). destruct (Nat.eqb_spec (i mod 2) 0); lia. }
  pose proof (sibling_lt l i Hi) as Hs.
  unfold index. rewrite lookup_app_r by lia.
  replace (length pre + sibling i - length pre)%nat with (sibling i) by lia.
  rewrite lookup_app_l, lookup_pad by done. cbn [expect mbind outcome_bind].
  rewrite <- length_pad, length_pad_half, <- length_level_up, app_assoc, <- length_app.
  pose proof (length_level_up_lt l Hl).
  rewrite IH by (lia || rewrite length_level_up; by apply half_lt).
  by rewrite <- app_assoc.
Qed.

(** A step of [compute_root] from a node and its sibling gives the parent. *)
Lemma root_step_eq l i : (i < length l)%nat ->
  root_step (node_at l i, i) (node_at l (sibling i)) = (node_at (level_up l) (i / 2), (i / 2)%nat).
Proof.
  intros Hi. unfold root_step, sibling. rewrite node_at_level_up.
  destruct (Nat.ltb_spec (i / 2) (length (level_up l))) as [_|Hge]; cycle 1.
  { rewrite length_level_up in Hge. pose proof (half_lt i _ Hi). lia. }
  destruct (halves i) as [Hd Hm]. destruct (Nat.eqb_spec (i mod 2) 0) as [Hz|Hz].
  - by replace (2 * (i / 2))%nat with i by lia.
  - assert (i mod 2 = 1)%nat as Hone by lia.
    replace (2 * (i / 2))%nat with (i - 1)%nat by lia.
    by replace (i - 1 + 1)%nat with i by lia.
Qed.

Lemma compute_siblings l : forall i, (i < length l)%nat ->
  fst (foldl root_step (node_at l i, i) (siblings (path_length (length l)) l i))
  = subtree (path_length (length l)) l.
Proof.
  induction l as [l Hl|l Hl IH] using levels_ind; intros i Hi.
  - rewrite path_length_small by done. assert (i = 0)%nat as -> by lia.
    destruct l as [|x [|y l]]; cbn in *; [lia|done|lia].
  - rewrite path_length_step by done. cbn [siblings foldl].
    fold (sibling i).
    rewrite root_step_eq, <- length_level_up, subtree_level_up by done.
    apply IH. rewrite length_level_up. by apply half_lt.
Qed.

Lemma length_siblings d l i : length (siblings d l i) = d.
Proof. revert l i. induction d as [|d IH]; intros l i; cbn [siblings length]; [done|]. by rewrite IH. Qed.

Lemma le_pow_path_length n : (n <= 2 ^ path_length n)%nat.
Proof.
  unfold path_length. destruct (Nat.leb_spec n 1); [cbn; lia|].
  pose proof (Nat.log2_spec (n - 1) ltac:(lia)) as [_ Hlt].
  rewrite Nat.add_1_r. lia.
Qed.

(** A vector holds at most [isize::MAX] bytes, so the path of a proof stays
    below the width of [usize]. *)
Lemma path_length_lt_64 n : Z.of_nat n <= 2 ^ 63 -> (path_length n < 64)%nat.
Proof.
  intros Hn. unfold path_length. destruct (Nat.leb_spec n 1); [lia|].
  assert (Nat.log2 (n - 1) < 63)%nat; [|lia].
  apply Nat.log2_lt_pow2; [lia|]. apply Nat2Z.inj_lt.
  rewrite Nat2Z.inj_pow. change (Z.of_nat 2) with 2. change (Z.of_nat 63) with 63. lia.
Qed.

Lemma shr64_eq `{Build} {E} i k : (k < 64)%nat ->
  shr64 (E:=E) i k = Ok (i / 2 ^ k)%nat.
Proof.
  intros Hk. unfold shr64. destruct (Nat.ltb_spec k 64); [|lia].
  by rewrite Nat.shiftr_div_pow2.
Qed.

(** *** The strings that are hashed *)

Definition leaf_query (input : list byte) : list byte := LEAF_PREFIX ++ input.
Definition inner_query (left right : Node) : list byte :=
  INNER_PREFIX ++ node_bytes left ++ node_bytes right.

Fixpoint level_queries (l : list Node) : list (list byte) :=
  match l with
  | x :: y :: l => inner_query x y :: level_queries l
  | [x] => [inner_query x Empty]
  | [] => []
  end.

(** Hashed by [build_from_leaf_hashes], and by the loop of [compute_root]. *)
Fixpoint tree_queries (d : nat) (l : list Node) : list (list byte) :=
  match d with
  | O => []
  | S d => level_queries l ++ tree_queries d (level_up l)
  end.

Fixpoint path_queries (s : Node * nat) (ps : list Node) : list (list byte) :=
  match ps with
  | [] => []
  | x :: ps =>
    (if (s.2 mod 2 =? 0)%nat then inner_query s.1 x else inner_query x s.1)
    :: path_queries (root_step s x) ps
  end.

(** Everything hashed to build the tree of [leaves] and to check one proof. *)
Definition hash_queries (leaves : list (list byte)) (p : MerkleProof) (leaf : list byte)
    (leaf_index : nat) : list (list byte) :=
  (leaf_query <$> leaves) ++ tree_queries (path_length (length leaves)) (leaf_hash <$> leaves)
  ++ leaf_query leaf :: path_queries (leaf_hash leaf, leaf_index) (path p).

(** The hash has no collision among [q], and no digest of them is all zeros. *)
Definition collision_free (q : list (list byte)) : Prop :=
  (forall x y, x ∈ q -> y ∈ q -> digest x = digest y -> x = y) /\
  (forall x, x ∈ q -> digest x <> EMPTY_NODE).

(** The [Digest] of a node is an array of 32 bytes. *)
Definition node_wf (n : Node) : Prop := length (node_bytes n) = 32%nat.

Lemma node_wf_Empty : node_wf Empty.
Proof. done. Qed.

Lemma node_wf_inner x y : node_wf (inner_hash x y).
Proof. apply digest_length. Qed.

Lemma node_at_wf l i : Forall node_wf l -> node_wf (node_at l i).
Proof.
  intros Hl. unfold node_at. destruct (l !! i) as [x|] eqn:Hx; [|done].
  by eapply Forall_lookup_1.
Qed.

Lemma level_up_wf l : Forall node_wf (level_up l).
Proof.
  induction l as [|x|x y l IH] using list_ind2; cbn [level_up]; repeat constructor;
    auto using node_wf_inner.
Qed.

Lemma inner_query_inj a b a' b' : node_wf a -> node_wf a' ->
  inner_query a b = inner_query a' b' ->
  node_bytes a = node_bytes a' /\ node_bytes b = node_bytes b'.
Proof.
  unfold node_wf, inner_query. intros Ha Ha' [= Heq]. apply app_inj_1 in Heq; [done|congruence].
Qed.

Lemma level_queries_elem l i : (i < length (level_up l))%nat ->
  inner_query (node_at l (2 * i)) (node_at l (2 * i + 1)) ∈ level_queries l.
Proof.
  revert i. induction l as [|x|x y l IH] using list_ind2; intros i Hi; cbn in Hi; [lia| |].
  - assert (i = 0)%nat as -> by lia. by left.
  - destruct i as [|i]; [by left|]. right.
    replace (2 * S i)%nat with (S (S (2 * i))) by lia.
    replace (S (S (2 * i)) + 1)%nat with (S (S (2 * i + 1))) by lia.
    apply (IH i). lia.
Qed.

Lemma tree_queries_level m d l :
  tree_queries d (level m l) ⊆ tree_queries (m + d) l.
Proof.
  revert l. induction m as [|m IH]; intros l; [done|].
  cbn [level Nat.add tree_queries]. specialize (IH (level_up l)). set_solver.
Qed.

Lemma subtree_level m d l : subtree (m + d) l = subtree d (level m l).
Proof.
  revert l. induction m as [|m IH]; intros l; [done|].
  cbn [level]. by rewrite <- IH, <- subtree_level_up.
Qed.

Lemma level_S m l : level (S m) l = level_up (level m l).
Proof. revert l. induction m as [|m IH]; intros l; [done|]. cbn [level] in *. by rewrite <- IH. Qed.

(** Going back from the root along a checked path: the node the path starts
    from is the node of the tree at that position. *)
Lemma path_start q l ps : forall c i,
  collision_free q -> Forall node_wf l -> Forall node_wf ps -> node_wf c ->
  tree_queries (length ps) l ⊆ q -> path_queries (c, i) ps ⊆ q ->
  (i < 2 ^ length ps)%nat ->
  fst (foldl root_step (c, i) ps) = subtree (length ps) l ->
  node_bytes c = node_bytes (node_at l i).
Proof.
  revert l. induction ps as [|x ps IH]; intros l c i [Hinj Hz] Hl Hps Hc Ht Hp Hi Hroot.
  { cbn in Hi. assert (i = 0)%nat as -> by lia. cbn in Hroot. subst c. by destruct l. }
  cbn [length foldl tree_queries path_queries] in *. rewrite subtree_level_up in Hroot.
  apply Forall_cons in Hps as [Hx Hps]. destruct (halves i) as [Hd Hm].
  assert (node_bytes (root_step (c, i) x).1 = node_bytes (node_at (level_up l) (i / 2))) as Hpar.
  { replace (root_step (c, i) x) with ((root_step (c, i) x).1, (i / 2)%nat) in * by done.
    apply IH; [done|apply level_up_wf|done| |set_solver|set_solver| |done].
    - cbn. destruct (i mod 2 =? 0)%nat; apply node_wf_inner.
    - cbn [Nat.pow] in Hi. lia. }
  rewrite node_at_level_up in Hpar.
  destruct (Nat.ltb_spec (i / 2) (length (level_up l))) as [Hlt|Hge]; cycle 1.
  { exfalso. cbn in Hpar, Hp. destruct (i mod 2 =? 0)%nat; eapply Hz, Hpar; set_solver. }
  pose proof (level_queries_elem l (i / 2) Hlt) as Hin. cbn in Hpar, Hp.
  pose proof (node_at_wf l (2 * (i / 2)) Hl).
  destruct (Nat.eqb_spec (i mod 2) 0) as [Hev|Hodd].
  - apply Hinj in Hpar; [|set_solver..]. apply inner_query_inj in Hpar as [Heq _]; [|done..].
    rewrite Heq. do 2 f_equal. lia.
  - apply Hinj in Hpar; [|set_solver..]. apply inner_query_inj in Hpar as [_ Heq]; [|done..].
    rewrite Heq. do 2 f_equal. lia.
Qed.

(** A leaf hash that stands at a position of some level of the tree stands at
    the lowest level, over the leaf itself. *)
Lemma leaf_position q leaves leaf m d i :
  collision_free q -> leaf_query leaf ∈ q -> (leaf_query <$> leaves) ⊆ q ->
  tree_queries (m + d) (leaf_hash <$> leaves) ⊆ q ->
  node_bytes (leaf_hash leaf) = node_bytes (node_at (level m (leaf_hash <$> leaves)) i) ->
  leaves !! i = Some leaf.
Proof.
  intros [Hinj Hz] Hleaf Hls Ht Heq. destruct m as [|m].
  - cbn [level] in Heq. unfold node_at in Heq. rewrite list_lookup_fmap in Heq.
    destruct (leaves !! i) as [x|] eqn:Hx; cbn in Heq.
    + apply Hinj in Heq; [|set_solver|apply Hls; apply list_elem_of_fmap; exists x;
        split; [done|by eapply list_elem_of_lookup_2]]. by injection Heq as ->.
    + by apply Hz in Heq.
  - exfalso. rewrite level_S, node_at_level_up in Heq.
    destruct (Nat.ltb_spec i (length (level_up (level m (leaf_hash <$> leaves))))) as [Hlt|Hge];
      [|by apply Hz in Heq].
    pose proof (level_queries_elem _ _ Hlt) as Hin.
    pose proof (tree_queries_level m (S d) (leaf_hash <$> leaves)) as Hsub.
    cbn [tree_queries] in Hsub. replace (m + S d)%nat with (S m + d)%nat in Hsub by lia.
    apply Hinj in Heq; [done|done|]. apply Ht, Hsub. set_solver.
Qed.

Lemma hash_queries_incl leaves p leaf i :
  let q := hash_queries leaves p leaf i in
  (leaf_query <$> leaves) ⊆ q /\
  tree_queries (path_length (length leaves)) (leaf_hash <$> leaves) ⊆ q /\
  leaf_query leaf ∈ q /\ path_queries (leaf_hash leaf, i) (path p) ⊆ q.
Proof.
  unfold hash_queries. cbv zeta. split_and!; [intros x Hx|intros x Hx| |intros x Hx];
    rewrite !elem_of_app, elem_of_cons; auto.
Qed.

(** *** Roots *)

(** [build_from_leaf_hashes(..).root()] and [build(..).root()]. *)
Definition build_root {E} (leaves : list Node) : outcome E Node :=
  t ← build_from_leaf_hashes leaves; Ok (root t).

(** Its value. *)
Definition merkle_root (leaves : list Node) : Node := subtree (path_length (length leaves)) leaves.

Lemma build_root_eq {E} leaves : build_root (E:=E) leaves = Ok (merkle_root leaves).
Proof. unfold build_root. rewrite build_from_leaf_hashes_eq. cbn. f_equal. apply root_eq. Qed.

Lemma subtree_wf d l : Forall node_wf l -> node_wf (subtree d l).
Proof.
  revert l. induction d as [|d IH]; intros l Hl; [destruct l; [done|by apply Forall_cons in Hl as [? _]]|].
  rewrite subtree_level_up. apply IH, level_up_wf.
Qed.

Lemma level_up_binding q l l' : collision_free q ->
  Forall node_wf l -> Forall node_wf l' -> length l = length l' ->
  level_queries l ⊆ q -> level_queries l' ⊆ q ->
  node_bytes <$> level_up l = node_bytes <$> level_up l' -> node_bytes <$> l = node_bytes <$> l'.
Proof.
  intros [Hinj _]. revert l'. induction l as [|x|x y l IH] using list_ind2;
    intros [|x' [|y' l']] Hl Hl' Hlen Hq Hq' Heq; cbn [length] in Hlen; try lia; [done|..];
    cbn [level_queries level_up] in Hq, Hq'; rewrite !Forall_cons in Hl, Hl'.
  - injection Heq as Heq. apply Hinj in Heq; [|set_solver..].
    apply (inner_query_inj x Empty x' Empty) in Heq as [Hx _]; [|apply Hl|apply Hl'].
    cbn. by rewrite Hx.
  - destruct Hl as (? & ? & ?), Hl' as (? & ? & ?). injection Heq as Heq Hrest.
    apply Hinj in Heq; [|set_solver..].
    apply (inner_query_inj x y x' y') in Heq as [Hx Hy]; [|done..].
    rewrite !fmap_cons, Hx, Hy, (IH l'); [done|done|done|lia|set_solver|set_solver|done].
Qed.

(** Without collisions the root determines the leaves. *)
Lemma subtree_binding q d : forall l l', collision_free q ->
  Forall node_wf l -> Forall node_wf l' -> length l = length l' -> (length l <= 2 ^ d)%nat ->
  tree_queries d l ⊆ q -> tree_queries d l' ⊆ q ->
  node_bytes (subtree d l) = node_bytes (subtree d l') -> node_bytes <$> l = node_bytes <$> l'.
Proof.
  induction d as [|d IH]; intros l l' Hq Hl Hl' Hlen Hd Ht Ht' Heq.
  - cbn [Nat.pow] in Hd. destruct l as [|x [|]], l' as [|x' [|]]; cbn [length] in *; try lia; [done|].
    cbn in *. congruence.
  - rewrite !subtree_level_up in Heq. cbn [tree_queries] in Ht, Ht'.
    apply (level_up_binding q); [done|done|done|done|set_solver|set_solver|].
    apply IH; [done|apply level_up_wf|apply level_up_wf|..].
    + by rewrite !length_level_up, Hlen.
    + rewrite length_level_up. cbn [Nat.pow] in Hd. apply Nat.lt_succ_r, Nat.Div0.div_lt_upper_bound. lia.
    + set_solver.
    + set_solver.
    + done.
Qed.

(** *** Proofs of leaves *)

Lemma get_proof_ok `{Build} {E} leaves i leaf :
  Z.of_nat (length leaves) <= 2 ^ 63 -> leaves !! i = Some leaf ->
  exists t p, build (E:=E) leaves = Ok t /\ root t = merkle_root (leaf_hash <$> leaves) /\
    get_proof t i = Ok p /\ length (path p) = path_length (length leaves) /\
    verify_proof p (root t) (length leaves) leaf i = Ok tt.
Proof.
  intros Hsize Hi. unfold build. rewrite build_from_leaf_hashes_eq.
  set (l := leaf_hash <$> leaves). assert (length l = length leaves) as Hl by apply length_fmap.
  eexists _, (mk_proof (siblings (path_length (length l)) l i)). split; [done|].
  split; [apply root_eq|]. unfold get_proof. cbn [nodes n_leaves]. rewrite Hl.
  pose proof (lookup_lt_Some _ _ _ Hi) as Hlt.
  destruct (Nat.leb_spec (length leaves) i); [lia|].
  pose proof (get_proof_loop_eq (E:=MerkleProofError) l [] i (length l) [] ltac:(lia) ltac:(lia)) as Hp.
  cbn [app length] in Hp. rewrite Hl in Hp. rewrite Hp. cbn [mbind outcome_bind path].
  split; [done|]. split; [apply length_siblings|].
  unfold verify_proof, check_path_length, compute_root. cbn [path].
  rewrite length_siblings. destruct (Nat.ltb_spec (path_length (length leaves))
    (path_length (length leaves))); [lia|]. cbn [mbind outcome_bind].
  rewrite shr64_eq by by apply path_length_lt_64. cbn [mbind outcome_bind].
  rewrite Nat.div_small by (pose proof (le_pow_path_length (length leaves)); lia).
  cbn [Nat.eqb mbind outcome_bind]. apply ensure_Ok, bool_decide_eq_true.
  assert (node_at l i = leaf_hash leaf) as <-.
  { unfold node_at, l. by rewrite list_lookup_fmap, Hi. }
  unfold root. cbn [nodes]. rewrite <- Hl, root_eq. apply compute_siblings. lia.
Qed.

Lemma verify_proof_sound `{Build} leaves p leaf i :
  Z.of_nat (length leaves) <= 2 ^ 63 ->
  Forall node_wf (path p) -> collision_free (hash_queries leaves p leaf i) ->
  verify_proof p (merkle_root (leaf_hash <$> leaves)) (length leaves) leaf i = Ok tt ->
  leaves !! i = Some leaf.
Proof.
  intros Hsize Hwf Hcf Hv. set (l := leaf_hash <$> leaves) in *.
  assert (length l = length leaves) as Hl by apply length_fmap.
  unfold verify_proof, check_path_length, compute_root in Hv.
  destruct (Nat.ltb_spec (path_length (length leaves)) (length (path p))) as [|Hlen]; [done|].
  cbn [mbind outcome_bind] in Hv. pose proof (path_length_lt_64 _ Hsize).
  rewrite shr64_eq in Hv by lia. cbn [mbind outcome_bind] in Hv.
  destruct (Nat.eqb_spec (i / 2 ^ length (path p)) 0) as [Hi|]; [|done].
  apply Nat.div_small_iff in Hi; [|by apply Nat.pow_nonzero].
  cbn [mbind outcome_bind] in Hv. apply ensure_Ok, bool_decide_eq_true in Hv.
  unfold merkle_root in Hv. rewrite Hl in Hv.
  destruct (Nat.le_exists_sub _ _ Hlen) as (m & Hm & _).
  destruct (hash_queries_incl leaves p leaf i) as (Hq1 & Hq2 & Hq3 & Hq4).
  set (q := hash_queries leaves p leaf i) in *. fold l in Hq2.
  rewrite Hm, subtree_level in Hv. rewrite Hm in Hq2.
  pose proof (tree_queries_level m (length (path p)) l) as Hsub.
  assert (Forall node_wf (level m l)) as Hlwf.
  { destruct m as [|m']; [|rewrite level_S; apply level_up_wf]. cbn.
    apply Forall_fmap, Forall_true. intros x. apply digest_length. }
  eapply (leaf_position q leaves leaf m (length (path p)) i Hcf); [done..|].
  eapply (path_start q (level m l) (path p)); [done..|apply digest_length|intros y Hy; by apply Hq2, Hsub|done|done|exact Hv].
Qed.

(** ** Properties *)

(** Building a tree never panics (so the fuel of the level loop is
    enough), the vector has exactly the capacity reserved for it, and its root
    is the recursive Merkle hash of the leaves in which a subtree without
    leaves counts as zeros. *)
Theorem merkle_build_correct (leaves : list (list byte)) :
  exists t, build (E:=False) leaves = Ok t /\
    n_leaves t = length leaves /\ length (nodes t) = n_nodes (length leaves) /\
    root t = subtree (path_length (length leaves)) (leaf_hash <$> leaves).
Proof.
  unfold build. rewrite build_from_leaf_hashes_eq. eexists. split; [done|].
  cbn [nodes n_leaves]. rewrite <- (length_fmap leaf_hash leaves). split_and!; [done| |].
  - unfold n_nodes. by rewrite n_nodes_loop_eq.
  - apply root_eq.
Qed.

Section verification.
Context `{Build}.

(** Completeness: for every leaf index of a tree of at most 2^63 leaves,
    [get_proof] returns a proof of the length [path_length] allows, and
    [verify_proof] accepts it for the leaf against the root; for an index out
    of bounds [get_proof] returns [LeafIndexOutOfBounds]. *)
Theorem merkle_proof_complete (leaves : list (list byte)) t i :
  Z.of_nat (length leaves) <= 2 ^ 63 -> build (E:=False) leaves = Ok t ->
  match leaves !! i with
  | Some leaf => exists p, get_proof t i = Ok p /\
      length (path p) = path_length (length leaves) /\
      verify_proof p (root t) (length leaves) leaf i = Ok tt
  | None => get_proof t i = Err (LeafIndexOutOfBounds i)
  end.
Proof.
  intros Hsize Hb. destruct (leaves !! i) as [leaf|] eqn:Hi.
  - destruct (get_proof_ok (E:=False) leaves i leaf Hsize Hi) as (t' & p & Hb' & _ & Hp).
    rewrite Hb in Hb'. injection Hb' as <-. by exists p.
  - unfold build in Hb. rewrite build_from_leaf_hashes_eq in Hb. injection Hb as <-.
    unfold get_proof. cbn [n_leaves]. rewrite length_fmap. apply lookup_ge_None in Hi.
    by destruct (Nat.leb_spec (length leaves) i); [|lia].
Qed.

(** C37: soundness: if the hash has no collision and no all-zero digest among
    the strings hashed to build the tree and to check the proof, a proof that
    [verify_proof] accepts against the root of the tree proves that the leaf is
    the data at that index.  Proofs with a shorter path than the tree's are
    covered: the prefixes of leaf and inner hashes keep an inner node from
    being passed off as a leaf. *)
Theorem merkle_proof_sound (leaves : list (list byte)) t p leaf i :
  Z.of_nat (length leaves) <= 2 ^ 63 -> build (E:=False) leaves = Ok t ->
  Forall node_wf (path p) -> collision_free (hash_queries leaves p leaf i) ->
  verify_proof p (root t) (length leaves) leaf i = Ok tt ->
  leaves !! i = Some leaf.
Proof.
  intros Hsize Hb Hwf Hcf Hv. apply (verify_proof_sound leaves p leaf i); [done..|].
  unfold build in Hb. rewrite build_from_leaf_hashes_eq in Hb. injection Hb as <-.
  unfold root in Hv. cbn [nodes] in Hv. by rewrite root_eq in Hv.
Qed.

End verification.
End merkle.

(** ** Witnesses *)

Section witnesses.
#[local] Existing Instance release_build.

(** A polynomial hash of 32 bytes. *)
Definition poly_digest (input : list byte) : list byte :=
  le_bytes 32 (foldl (fun a b => (a * 257 + byte_val b + 1) mod 1000003) 1 input).

#[local] Instance poly_hash : HashFunction :=
  {| digest := poly_digest; digest_length input := length_le_bytes 32 _ |}.

Definition three_leaves : list (list byte) := [[x01; x02]; [x03]; [x04; x05; x06]].

(** Leaf 2 of three leaves, whose sibling is the empty node. *)
Lemma merkle_proof_complete_witness :
  exists t p, build (E:=False) three_leaves = Ok t /\
    get_proof t 2 = Ok p /\ verify_proof p (root t) 3 [x04; x05; x06] 2 = Ok tt.
Proof.
  destruct (build (E:=False) three_leaves) as [t| |] eqn:Ht; [|vm_compute in Ht; discriminate..].
  pose proof (merkle_proof_complete three_leaves t 2 ltac:(cbn; lia) Ht) as Hc.
  cbn [lookup] in Hc. destruct Hc as (p & Hp & _ & Hv). by exists t, p.
Defined.

(** No collision and no zero digest on a list of strings, decided by evaluation. *)
Definition collision_free_b (q : list (list byte)) : bool :=
  forallb (fun x => negb (bool_decide (digest x = EMPTY_NODE)) &&
    forallb (fun y => negb (bool_decide (digest x = digest y)) || bool_decide (x = y)) q) q.

Lemma collision_free_b_sound q : collision_free_b q = true -> collision_free q.
Proof.
  unfold collision_free_b. rewrite forallb_forall. intros Hq. split.
  - intros x y Hx%list_elem_of_In Hy%list_elem_of_In Heq. specialize (Hq x Hx).
    apply andb_prop in Hq as [_ Hq]. rewrite forallb_forall in Hq. specialize (Hq y Hy).
    rewrite (bool_decide_eq_true_2 _ Heq) in Hq. by apply bool_decide_eq_true in Hq.
  - intros x Hx%list_elem_of_In Heq. specialize (Hq x Hx). apply andb_prop in Hq as [Hq _].
    by rewrite (bool_decide_eq_true_2 _ Heq) in Hq.
Qed.

Lemma merkle_proof_sound_witness :
  exists t p, build (E:=False) three_leaves = Ok t /\
    verify_proof p (root t) 3 [x04; x05; x06] 2 = Ok tt /\
    three_leaves !! 2%nat = Some [x04; x05; x06].
Proof.
  pose (t := {| nodes := all_nodes 2 (leaf_hash <$> three_leaves); n_leaves := 3 |}).
  pose (p := mk_proof (siblings 2 (leaf_hash <$> three_leaves) 2)).
  assert (build (E:=False) three_leaves = Ok t) as Hb by (vm_compute; reflexivity).
  assert (verify_proof p (root t) 3 [x04; x05; x06] 2 = Ok tt) as Hv by (vm_compute; reflexivity).
  exists t, p. split; [exact Hb|]. split; [exact Hv|].
  apply (merkle_proof_sound three_leaves t p [x04; x05; x06] 2); [cbn; lia|exact Hb| | |exact Hv].
  - repeat constructor.
  - apply collision_free_b_sound. vm_compute. reflexivity.
Defined.

End witnesses.
