(* ===== verification/Metadata.v ===== *)
(** * Blob metadata and blob IDs

    Models the metadata types of metadata.rs (without the quilt types) and the
    computation of blob IDs in lib.rs.  The theorems: what
    [UnverifiedBlobMetadataWithId::verify] accepts, and that a blob ID binds
    the encoding type, the length of the blob and every sliver hash, under the
    assumption that the hash has no collision among the strings that are
    hashed. *)

From S2P Require Import Prelude Core EncodingConfig Redstuff Merkle.

Record SliverPairMetadata := { primary_hash : Node; secondary_hash : Node }.

#[export] Instance SliverPairMetadata_eq_dec : EqDecision SliverPairMetadata.
Proof. solve_decision. Defined.

(** [BlobMetadata], an enum with the single variant [V1(BlobMetadataV1)]. *)
Record BlobMetadata := {
  md_encoding_type : EncodingType;
  unencoded_length : Z;
  hashes : list SliverPairMetadata;
}.

#[export] Instance BlobMetadata_eq_dec : EqDecision BlobMetadata.
Proof. solve_decision. Defined.

(** [BlobMetadataWithId<V>]; the flag [V] is only a type-level mark. *)
Record BlobMetadataWithId := { blob_id : BlobId; metadata : BlobMetadata }.

#[export] Instance BlobMetadataWithId_eq_dec : EqDecision BlobMetadataWithId.
Proof. solve_decision. Defined.

Inductive VerificationError :=
| InvalidHashCount (actual expected : Z)
| BlobIdMismatch
| UnencodedLengthTooLarge.

(** [SliverPairMetadata::pair_leaf_input]. *)
Definition pair_leaf_input (h : SliverPairMetadata) : list byte :=
  node_bytes (primary_hash h) ++ node_bytes (secondary_hash h).

(** [SliverPairMetadata::hash]. *)
Definition pair_hash (a : Axis) (h : SliverPairMetadata) : Node :=
  if is_primary a then primary_hash h else secondary_hash h.

Definition get_sliver_hash (m : BlobMetadata) (sliver_pair_index : SliverPairIndex)
    (sliver_type : Axis) : option Node :=
  (fun h => match sliver_type with
            | Primary => primary_hash h
            | Secondary => secondary_hash h
            end) <$> hashes m !! Z.to_nat (pair_index_get sliver_pair_index).

Section metadata.
Context `{Build} `{HashFunction}.

(** [BlobMetadataV1::compute_root_hash]. *)
Definition compute_root_hash {E} (m : BlobMetadata) : outcome E Node :=
  t ← build (pair_leaf_input <$> hashes m);
  Ok (root t).

(** What [BlobId::new_with_hash_function] passes to the hasher: one byte, the
    length in little-endian order, the root. *)
Definition blob_id_query (merkle_root : Node) (encoding : EncodingType) (unencoded_length : Z) :
    list byte :=
  [byte_of (encoding_type_to_u8 encoding)] ++ le_bytes 8 unencoded_length ++ node_bytes merkle_root.

(** [BlobId::from_metadata]. *)
Definition from_metadata (merkle_root : Node) (encoding : EncodingType) (unencoded_length : Z) :
    BlobId :=
  mk_blob_id (digest (blob_id_query merkle_root encoding unencoded_length)).

Definition from_sliver_pair_metadata {E} (m : BlobMetadata) : outcome E BlobId :=
  merkle_root ← compute_root_hash m;
  Ok (from_metadata merkle_root (md_encoding_type m) (unencoded_length m)).

Definition new_verified_from_metadata {E} (sliver_pair_meta : list SliverPairMetadata)
    (encoding : EncodingType) (unencoded_length : Z) : outcome E BlobMetadataWithId :=
  let blob_metadata := {| md_encoding_type := encoding; unencoded_length := unencoded_length;
                          hashes := sliver_pair_meta |} in
  id ← from_sliver_pair_metadata blob_metadata;
  Ok {| blob_id := id; metadata := blob_metadata |}.

(** [UnverifiedBlobMetadataWithId::verify]. *)
Definition verify_metadata (self : BlobMetadataWithId) (config : EncodingConfig) :
    outcome VerificationError BlobMetadataWithId :=
  let n_hashes := len (hashes (metadata self)) in
  let n_shards := ec_n_shards config in
  ensure (n_hashes =? n_shards) (InvalidHashCount n_hashes n_shards);;
  max ← max_blob_size (get_for_type config (md_encoding_type (metadata self)));
  ensure (unencoded_length (metadata self) <=? max) UnencodedLengthTooLarge;;
  computed_blob_id ← from_sliver_pair_metadata (metadata self);
  ensure (bool_decide (computed_blob_id = blob_id self)) BlobIdMismatch;;
  Ok {| blob_id := blob_id self; metadata := metadata self |}.

(** [VerifiedBlobMetadataWithId::n_shards]. *)
Definition md_n_shards {E} (self : BlobMetadataWithId) : outcome E Z :=
  let n_hashes := len (hashes (metadata self)) in
  expect (v ← try_from 16 n_hashes; non_zero v).

Definition is_encoding_config_applicable {E} (self : BlobMetadataWithId)
    (config : EncodingConfig) : outcome E bool :=
  let encoding_type := md_encoding_type (metadata self) in
  n ← md_n_shards self;
  '(n_primary, n_secondary) ← source_symbols_for_n_shards n;
  let config := get_for_type config encoding_type in
  Ok ((n =? n_shards config) && (n_primary =? n_primary_source_symbols config)
      && (n_secondary =? n_secondary_source_symbols config)).

(** [BlobMetadataV1::symbol_size]. *)
Definition md_symbol_size (m : BlobMetadata) (encoding_config : EncodingConfig) :
    outcome DataTooLargeError Z :=
  symbol_size_for_blob (get_for_type encoding_config (md_encoding_type m)) (unencoded_length m).

Definition encoded_size {E} (m : BlobMetadata) : outcome E (option Z) :=
  match (v ← try_from 16 (len (hashes m)); non_zero v) with
  | None => Ok None
  | Some n => encoded_blob_length_for_n_shards n (unencoded_length m) (md_encoding_type m)
  end.

(** ** Lemmas *)

Lemma compute_root_hash_eq {E} m :
  compute_root_hash (E:=E) m = Ok (merkle_root (leaf_hash <$> (pair_leaf_input <$> hashes m))).
Proof. apply build_root_eq. Qed.

(** The blob ID of well-formed metadata, as a value. *)
Definition id_of (m : BlobMetadata) : BlobId :=
  from_metadata (merkle_root (leaf_hash <$> (pair_leaf_input <$> hashes m)))
    (md_encoding_type m) (unencoded_length m).

Lemma from_sliver_pair_metadata_eq {E} m : from_sliver_pair_metadata (E:=E) m = Ok (id_of m).
Proof. unfold from_sliver_pair_metadata. by rewrite compute_root_hash_eq. Qed.

Lemma new_verified_from_metadata_eq {E} hs t l :
  new_verified_from_metadata (E:=E) hs t l =
    let m := {| md_encoding_type := t; unencoded_length := l; hashes := hs |} in
    Ok {| blob_id := id_of m; metadata := m |}.
Proof. unfold new_verified_from_metadata. by rewrite from_sliver_pair_metadata_eq. Qed.

(** ** Binding *)

(** The [Digest] nodes of the hashes are arrays of 32 bytes. *)
Definition pair_wf (h : SliverPairMetadata) : Prop :=
  node_wf (primary_hash h) /\ node_wf (secondary_hash h).

Record metadata_wf (m : BlobMetadata) : Prop := {
  metadata_wf_length : 0 <= unencoded_length m < 2 ^ 64;
  metadata_wf_hashes : Forall pair_wf (hashes m);
}.

(** Everything hashed to compute a blob ID. *)
Definition metadata_queries (m : BlobMetadata) : list (list byte) :=
  let inputs := pair_leaf_input <$> hashes m in
  blob_id_query (merkle_root (leaf_hash <$> inputs)) (md_encoding_type m) (unencoded_length m)
  :: (leaf_query <$> inputs)
  ++ tree_queries (path_length (length (leaf_hash <$> inputs))) (leaf_hash <$> inputs).

(** The bytes of a hash; [Empty] and the digest of zeros are written alike. *)
Definition pair_bytes (h : SliverPairMetadata) : list byte * list byte :=
  (node_bytes (primary_hash h), node_bytes (secondary_hash h)).

Lemma le_bytes_inj n v v' : 0 <= v < 256 ^ Z.of_nat n -> 0 <= v' < 256 ^ Z.of_nat n ->
  le_bytes n v = le_bytes n v' -> v = v'.
Proof.
  intros Hv Hv' Heq. rewrite <- (le_value_le_bytes n v Hv), <- (le_value_le_bytes n v' Hv').
  by rewrite Heq.
Qed.

Lemma blob_id_query_inj r r' t t' l l' : 0 <= l < 2 ^ 64 -> 0 <= l' < 2 ^ 64 ->
  blob_id_query r t l = blob_id_query r' t' l' -> t = t' /\ l = l' /\ node_bytes r = node_bytes r'.
Proof.
  intros Hl Hl' Heq. unfold blob_id_query in Heq. apply app_inj_1 in Heq as [_ Heq]; [|done].
  apply app_inj_1 in Heq as [Hlen Hr]; [|by rewrite !length_le_bytes].
  apply le_bytes_inj in Hlen; [|done..]. by destruct t, t'.
Qed.

Lemma leaf_hashes_wf inputs : Forall node_wf (leaf_hash <$> inputs).
Proof. apply Forall_fmap, Forall_true. intros x. apply digest_length. Qed.

Lemma leaf_hashes_binding q inputs inputs' : collision_free q ->
  (leaf_query <$> inputs) ⊆ q -> (leaf_query <$> inputs') ⊆ q ->
  node_bytes <$> (leaf_hash <$> inputs) = node_bytes <$> (leaf_hash <$> inputs') ->
  inputs = inputs'.
Proof.
  intros [Hinj _]. revert inputs'. induction inputs as [|x l IH]; intros [|x' l'] Hq Hq' Heq; try done.
  rewrite fmap_cons in Hq, Hq'. rewrite !fmap_cons in Heq. apply cons_eq_inj in Heq as [Hh Ht].
  apply Hinj in Hh; [|set_solver..]. apply app_inv_head in Hh as <-. f_equal.
  apply IH; [set_solver|set_solver|done].
Qed.

Lemma pair_leaf_inputs_inj hs hs' : Forall pair_wf hs -> Forall pair_wf hs' ->
  pair_leaf_input <$> hs = pair_leaf_input <$> hs' -> pair_bytes <$> hs = pair_bytes <$> hs'.
Proof.
  intros Hhs. revert hs'. induction Hhs as [|h hs [Hp Hs] _ IH]; intros [|h' hs'] Hhs' Heq; try done.
  apply Forall_cons in Hhs' as [[Hp' Hs'] Hhs']. rewrite !fmap_cons in Heq. rewrite !fmap_cons.
  apply cons_eq_inj in Heq as [Hh Ht]. apply app_inj_1 in Hh as [H1 H2].
  - rewrite (IH hs') by done. unfold pair_bytes. by rewrite H1, H2.
  - unfold node_wf in *. congruence.
Qed.

Lemma id_of_binding m m' : metadata_wf m -> metadata_wf m' ->
  length (hashes m) = length (hashes m') ->
  collision_free (metadata_queries m ++ metadata_queries m') -> id_of m = id_of m' ->
  md_encoding_type m = md_encoding_type m' /\ unencoded_length m = unencoded_length m' /\
  pair_bytes <$> hashes m = pair_bytes <$> hashes m'.
Proof.
  intros [Hl Hh] [Hl' Hh'] Hlen Hq [= Heq]. pose proof Hq as [Hinj _].
  set (q := metadata_queries m ++ metadata_queries m') in *.
  assert (metadata_queries m ⊆ q) as Hm by set_solver.
  assert (metadata_queries m' ⊆ q) as Hm' by set_solver.
  apply Hinj in Heq; [|apply Hm; by left|apply Hm'; by left].
  apply blob_id_query_inj in Heq as (Ht & Hul & Hroot); [|done..]. split_and!; [done..|].
  apply pair_leaf_inputs_inj; [done..|]. unfold metadata_queries in Hm, Hm'.
  apply (leaf_hashes_binding q); [done|set_solver|set_solver|].
  apply (subtree_binding q (path_length (length (leaf_hash <$> (pair_leaf_input <$> hashes m)))));
    [done|apply leaf_hashes_wf..|by rewrite !length_fmap|apply le_pow_path_length|set_solver| |].
  - rewrite !length_fmap in *. rewrite Hlen. set_solver.
  - unfold merkle_root in Hroot. rewrite !length_fmap in *. by rewrite <- Hlen in Hroot.
Qed.

End metadata.

(** ** Properties *)

Section properties.
Context `{Build} `{HashFunction}.

Lemma encoding_config_new_eq {E} n : is_nzu16 n ->
  encoding_config_new (E:=E) n = Ok {| ec_n_shards := n; reed_solomon := rs_config_of n |}.
Proof. intros Hn. unfold encoding_config_new. by rewrite rs_config_new_eq. Qed.

(** One equation for every input. *)
Lemma verify_metadata_eq n self :
  is_nzu16 n -> let cfg := {| ec_n_shards := n; reed_solomon := rs_config_of n |} in
  verify_metadata self cfg =
    if negb (len (hashes (metadata self)) =? n)
    then Err (InvalidHashCount (len (hashes (metadata self))) n)
    else if negb (unencoded_length (metadata self) <=? symbols_per_blob n * max_symbol_size RS2)
    then Err UnencodedLengthTooLarge
    else if negb (bool_decide (id_of (metadata self) = blob_id self)) then Err BlobIdMismatch
    else Ok self.
Proof.
  intros Hn cfg. unfold verify_metadata. subst cfg. cbn [ec_n_shards].
  destruct (len (hashes (metadata self)) =? n); [|done]. cbn [ensure negb mbind outcome_bind].
  destruct self as [id [[] l hs]]. unfold max_blob_size.
  cbn [metadata md_encoding_type get_for_type reed_solomon enum_encoding_factory n_shards
    encoding_type rs_encoding_factory rs_config_of rs_n_shards blob_id unencoded_length].
  rewrite max_blob_size_for_n_shards_eq by done. cbn [mbind outcome_bind].
  destruct (l <=? symbols_per_blob n * max_symbol_size RS2); [|done].
  cbn [ensure negb mbind outcome_bind].
  rewrite from_sliver_pair_metadata_eq. cbn [mbind outcome_bind].
  by destruct (bool_decide _).
Qed.

(** Verification of metadata never panics, and metadata it accepts can be
    used without a further check: it is the input, its number of hashes is the
    number of shards of the configuration, the configuration applies to it, its
    symbol size and its encoded size are defined, and both hashes of every
    sliver pair are present. *)
Theorem verified_metadata_usable n cfg self :
  is_nzu16 n -> metadata_wf (metadata self) -> encoding_config_new (E:=False) n = Ok cfg ->
  verify_metadata self cfg <> Panic /\
  forall v, verify_metadata self cfg = Ok v ->
    v = self /\ md_n_shards (E:=False) v = Ok n /\
    is_encoding_config_applicable (E:=False) v cfg = Ok true /\
    (exists s, md_symbol_size (metadata v) cfg = Ok s /\
       least_symbol_size (unencoded_length (metadata v)) (symbols_per_blob n) 2 s) /\
    (exists total, encoded_size (E:=False) (metadata v) = Ok (Some total)) /\
    (forall i a, 0 <= i < n -> is_Some (get_sliver_hash (metadata v) (mk_pair_index i) a)).
Proof.
  intros Hn [Hl Hwf] Hcfg. rewrite encoding_config_new_eq in Hcfg by done. injection Hcfg as <-.
  rewrite verify_metadata_eq by done. split; [by repeat case_match|]. intros v Hv.
  destruct (Z.eqb_spec (len (hashes (metadata self))) n) as [Hlen|]; [|done]. cbn [negb] in Hv.
  destruct (Z.leb_spec (unencoded_length (metadata self))
    (symbols_per_blob n * max_symbol_size RS2)) as [Hmax|]; [|done]. cbn [negb] in Hv.
  destruct (bool_decide _) in Hv; [|done]. injection Hv as <-.
  pose proof (symbols_per_blob_bounds n Hn). pose proof (n_source_bounds n Hn) as Hb.
  set (l := unencoded_length (metadata self)) in *.
  assert (Z.max l 1 <= symbols_per_blob n * max_symbol_size RS2) as Hle by (cbn in *; uint_lia).
  assert (~ (n = 1 /\ l = u64_MAX)) as Hc.
  { intros [Hn1 Hu]. rewrite Hu, Hn1 in Hmax. vm_compute in Hmax. by apply Hmax. }
  assert ((v ← try_from 16 (len (hashes (metadata self))); non_zero v) = Some n) as Hns.
  { rewrite Hlen. unfold is_nzu in Hn. rewrite (proj2 (try_from_Some 16 n n)) by lia. cbn.
    unfold non_zero. by destruct (Z.eqb_spec n 0); [lia|]. }
  assert (md_n_shards (E:=False) self = Ok n) as Hsh by (unfold md_n_shards; by rewrite Hns).
  split_and!; [done|done|..].
  - unfold is_encoding_config_applicable. rewrite Hsh. cbn [mbind outcome_bind].
    rewrite source_symbols_for_n_shards_eq by done. cbn [mbind outcome_bind].
    destruct (md_encoding_type (metadata self)). cbn. by rewrite !Z.eqb_refl.
  - exists (exact_symbol_size l (symbols_per_blob n) 2). split; [|by apply exact_symbol_size_least; lia].
    pose proof (symbol_size_for_blob_eq n l Hn Hl Hc) as Hs.
    rewrite (proj2 (Z.leb_le _ _) Hle) in Hs. unfold md_symbol_size.
    destruct (md_encoding_type (metadata self)). exact Hs.
  - unfold encoded_size. rewrite Hns. destruct (md_encoding_type (metadata self)).
    fold l. rewrite encoded_blob_length_for_n_shards_eq by done.
    rewrite (proj2 (Z.leb_le _ _) Hle). eauto.
  - intros i a Hi. unfold get_sliver_hash. apply fmap_is_Some, lookup_lt_is_Some. cbn. lia.
Qed.

(** C38: a blob ID binds the metadata: two metadata that pass verification under
    the same configuration with the same blob ID have the same encoding type,
    the same unencoded length and the same bytes of every sliver hash, unless
    the hash function collides on the strings hashed. *)
Theorem blob_id_binding n cfg m m' id :
  is_nzu16 n -> encoding_config_new (E:=False) n = Ok cfg ->
  metadata_wf m -> metadata_wf m' ->
  collision_free (metadata_queries m ++ metadata_queries m') ->
  is_ok (verify_metadata {| blob_id := id; metadata := m |} cfg) = true ->
  is_ok (verify_metadata {| blob_id := id; metadata := m' |} cfg) = true ->
  md_encoding_type m = md_encoding_type m' /\ unencoded_length m = unencoded_length m' /\
  pair_bytes <$> hashes m = pair_bytes <$> hashes m'.
Proof.
  intros Hn Hcfg Hm Hm' Hq Hv Hv'. rewrite encoding_config_new_eq in Hcfg by done.
  injection Hcfg as <-. rewrite verify_metadata_eq in Hv, Hv' by done.
  cbn [metadata blob_id] in *.
  destruct (Z.eqb_spec (len (hashes m)) n) as [Hl|]; [|done].
  destruct (Z.eqb_spec (len (hashes m')) n) as [Hl'|]; [|done]. cbn [negb] in *.
  destruct (unencoded_length m <=? _); [|done].
  destruct (unencoded_length m' <=? _); [|done]. cbn [negb] in *.
  destruct (bool_decide_reflect (id_of m = id)) as [Hid|]; [|done].
  destruct (bool_decide_reflect (id_of m' = id)) as [Hid'|]; [|done]. apply id_of_binding; [done|done|lia|done|congruence].
Qed.

End properties.

(** ** Witnesses *)

Section witnesses.
#[local] Existing Instance release_build.
#[local] Existing Instance poly_hash.

Definition four_hashes (first : Node) : list SliverPairMetadata :=
  [ {| primary_hash := first; secondary_hash := Digest (replicate 32 x01) |};
    {| primary_hash := Digest (replicate 32 x02); secondary_hash := Digest (replicate 32 x03) |};
    {| primary_hash := Digest (replicate 32 x04); secondary_hash := Digest (replicate 32 x05) |};
    {| primary_hash := Digest (replicate 32 x06); secondary_hash := Digest (replicate 32 x07) |} ].

Definition four_metadata (first : Node) : BlobMetadata :=
  {| md_encoding_type := RS2; unencoded_length := 100; hashes := four_hashes first |}.

Definition four_with_id : BlobMetadataWithId :=
  {| blob_id := id_of (four_metadata Empty); metadata := four_metadata Empty |}.

Lemma four_metadata_wf first : node_wf first -> metadata_wf (four_metadata first).
Proof. intros Hf. constructor; [cbn; lia|]. by repeat constructor. Qed.

Lemma verified_metadata_usable_witness :
  is_ok (verify_metadata four_with_id {| ec_n_shards := 4; reed_solomon := rs_config_of 4 |}) = true /\
  exists s, md_symbol_size (metadata four_with_id)
    {| ec_n_shards := 4; reed_solomon := rs_config_of 4 |} = Ok s.
Proof.
  destruct (verified_metadata_usable 4 {| ec_n_shards := 4; reed_solomon := rs_config_of 4 |}
    four_with_id ltac:(split; lia) (four_metadata_wf Empty eq_refl) eq_refl) as [_ Hv].
  assert (verify_metadata four_with_id {| ec_n_shards := 4; reed_solomon := rs_config_of 4 |}
    = Ok four_with_id) as Hok by (vm_compute; reflexivity).
  rewrite Hok. split; [reflexivity|].
  destruct (Hv _ Hok) as (_ & _ & _ & (s & Hs & _) & _). by exists s.
Defined.

(** The empty node and the digest of zeros: different values, the same bytes. *)
Lemma blob_id_binding_witness :
  four_metadata Empty <> four_metadata (Digest EMPTY_NODE) /\
  pair_bytes <$> hashes (four_metadata Empty) =
    pair_bytes <$> hashes (four_metadata (Digest EMPTY_NODE)).
Proof.
  split; [discriminate|].
  apply (blob_id_binding 4 {| ec_n_shards := 4; reed_solomon := rs_config_of 4 |}
    (four_metadata Empty) (four_metadata (Digest EMPTY_NODE)) (id_of (four_metadata Empty)));
    [split; lia|reflexivity|by apply four_metadata_wf..| | | ].
  - apply collision_free_b_sound. vm_compute. reflexivity.
  - vm_compute. reflexivity.
  - vm_compute. reflexivity.
Defined.

End witnesses.
