(* ===== verification/Symbols.v ===== *)
(** * Symbol buffers

    Models the type [Symbols] of encoding/symbols.rs: a flat byte vector cut
    into symbols of a fixed size.  Capacities are not observable and not
    modelled.  Lengths and positions are [nat]: the largest buffer, an expanded
    matrix, stays far below 2^64 bytes ([Redstuff.encoded_blob_length_stored]).
    The lemmas relate the flat operations to the list of symbols. *)

From S2P Require Import Prelude Core.

(** ** Pieces of a byte vector *)

(** [dest[a..b].copy_from_slice(src)]: panics when the range is out of bounds or
    the lengths differ. *)
Definition write_range {E A} (a b : nat) (src dest : list A) : outcome E (list A) :=
  if ((a <=? b) && (b <=? length dest) && (length src =? b - a))%nat
  then Ok (take a dest ++ src ++ drop b dest) else Panic.

(** [slice.chunks_exact(k)]: the remainder is dropped. *)
Definition chunks_exact {A} (k : nat) (l : list A) : list (list A) :=
  chunks k (take (k * (length l / k)) l).

Inductive WrongSymbolSizeError := WrongSymbolSize.

Record Symbols := mk_symbols { sym_data : list byte; symbol_size : Z }.

#[export] Instance Symbols_eq_dec : EqDecision Symbols.
Proof. solve_decision. Defined.

Definition symbol_usize (s : Symbols) : nat := Z.to_nat (symbol_size s).

(** [Symbols::new]. *)
Definition symbols_new {E} (data : list byte) (symbol_size : Z) : outcome E Symbols :=
  assert (is_multiple_of (len data) symbol_size);;
  Ok (mk_symbols data symbol_size).

Definition symbols_truncate (n : nat) (s : Symbols) : Symbols :=
  mk_symbols (take (n * symbol_usize s) (sym_data s)) (symbol_size s).

Definition symbols_zeros (n_symbols : nat) (symbol_size : Z) : Symbols :=
  mk_symbols (replicate (n_symbols * Z.to_nat symbol_size) x00) symbol_size.

Definition symbols_with_capacity (n_symbols : nat) (symbol_size : Z) : Symbols :=
  mk_symbols [] symbol_size.

Definition symbols_len (s : Symbols) : nat := (length (sym_data s) / symbol_usize s)%nat.

Definition symbols_is_empty (s : Symbols) : bool :=
  match sym_data s with [] => true | _ => false end.

(** [Symbols::symbol_range] and [Index]. *)
Definition symbol_range (s : Symbols) (a b : nat) : nat * nat :=
  ((symbol_usize s * a)%nat, (symbol_usize s * b)%nat).

Definition symbols_index_range {E} (s : Symbols) (a b : nat) : outcome E (list byte) :=
  let '(x, y) := symbol_range s a b in slice x y (sym_data s).

Definition symbols_index {E} (s : Symbols) (i : nat) : outcome E (list byte) :=
  symbols_index_range s i (i + 1).

(** [IndexMut] followed by [copy_from_slice]. *)
Definition symbols_write {E} (s : Symbols) (i : nat) (symbol : list byte) : outcome E Symbols :=
  let '(x, y) := symbol_range s i (i + 1) in
  d ← write_range x y symbol (sym_data s);
  Ok (mk_symbols d (symbol_size s)).

Definition symbols_get {E} (s : Symbols) (i : nat) : outcome E (option (list byte)) :=
  if (symbols_len s <=? i)%nat then Ok None
  else d ← symbols_index s i; Ok (Some d).

Definition to_symbols (s : Symbols) : list (list byte) := chunks (symbol_usize s) (sym_data s).

Definition symbols_extend (s : Symbols) (symbols : list byte) :
    outcome WrongSymbolSizeError Symbols :=
  if negb (is_multiple_of (len symbols) (symbol_size s)) then Err WrongSymbolSize
  else Ok (mk_symbols (sym_data s ++ symbols) (symbol_size s)).

(** ** Decoding symbols *)

(** [DecodingSymbol<T>]; the axis is a type parameter in the code. *)
Record DecodingSymbol := mk_decoding_symbol { ds_index : Z; ds_data : list byte }.

(** [Symbols::decoding_symbol_at]. *)
Definition decoding_symbol_at {E} (s : Symbols) (data_index : nat) (symbol_index : Z) :
    outcome E (option DecodingSymbol) :=
  d ← symbols_index s data_index;
  Ok (Some (mk_decoding_symbol symbol_index d)).

(** [Symbols::to_decoding_symbols], consumed to the end. *)
Definition to_decoding_symbols {E} (s : Symbols) : outcome E (option (list DecodingSymbol)) :=
  match try_from 32 (Z.of_nat (symbols_len s)) with
  | None => Ok None
  | Some _ =>
    l ← mapM_outcome (fun '(i, d) =>
          i ← expect (try_from 16 (Z.of_nat i)); Ok (mk_decoding_symbol i d))
        (imap (fun i d => (i, d)) (to_symbols s));
    Ok (Some l)
  end.

(** ** Chunks *)

Section chunks.
Context {A : Type}.
Implicit Types (l : list A) (L : list (list A)).

Lemma chunks_fuel_enough fuel k l : (length l <= fuel)%nat -> (0 < k)%nat ->
  chunks_fuel fuel k l = chunks k l.
Proof.
  intros Hf Hk. unfold chunks. revert l Hf.
  induction (lt_wf fuel) as [fuel _ IH]. intros l Hf.
  destruct l as [|x l]; [by destruct fuel|]. destruct fuel as [|fuel]; [cbn in Hf; lia|].
  cbn [length chunks_fuel]. f_equal.
  assert (length (drop k (x :: l)) <= length l)%nat by (rewrite length_drop; cbn; lia).
  cbn in Hf. rewrite IH by lia. symmetry. apply IH; [lia|lia].
Qed.

Lemma chunks_nil k : chunks k (@nil A) = [].
Proof. done. Qed.

Lemma chunks_cons k l : (0 < k)%nat -> l <> [] ->
  chunks k l = take k l :: chunks k (drop k l).
Proof.
  intros Hk Hl. destruct l as [|x l]; [done|]. unfold chunks at 1. cbn [length chunks_fuel].
  f_equal. apply chunks_fuel_enough; [|done]. rewrite length_drop. cbn. lia.
Qed.

Lemma chunks_app_exact k l l' : (0 < k)%nat -> length l = k -> chunks k (l ++ l') = l :: chunks k l'.
Proof.
  intros Hk Hl. rewrite chunks_cons; [|done|by intros [-> _]%app_eq_nil; cbn in Hl; lia].
  by rewrite take_app_length', drop_app_length' by done.
Qed.

(** Cutting a concatenation of pieces of equal length gives the pieces. *)
Lemma chunks_concat k L : (0 < k)%nat -> Forall (fun l => length l = k) L ->
  chunks k (concat L) = L.
Proof.
  intros Hk. induction 1 as [|l L Hl HL IH]; [done|]. cbn [concat].
  by rewrite chunks_app_exact, IH.
Qed.

Lemma concat_chunks k l : (0 < k)%nat -> concat (chunks k l) = l.
Proof.
  intros Hk. remember (length l) as n eqn:Hn. revert l Hn.
  induction (lt_wf n) as [n _ IH]. intros l ->. destruct l as [|x l]; [done|].
  rewrite chunks_cons by done. cbn [concat].
  rewrite (IH (length (drop k (x :: l)))) by (rewrite ?length_drop; cbn; lia || done).
  apply take_drop.
Qed.

Lemma length_concat_const k L : Forall (fun l => length l = k) L ->
  length (concat L) = (length L * k)%nat.
Proof. induction 1 as [|l L Hl HL IH]; cbn; [done|]. rewrite length_app. lia. Qed.

(** A vector whose length is a multiple of the piece length. *)
Lemma chunks_exact_length k n l : (0 < k)%nat -> length l = (n * k)%nat ->
  length (chunks k l) = n /\ Forall (fun c => length c = k) (chunks k l).
Proof.
  intros Hk. revert l. induction n as [|n IH]; intros l Hl.
  - cbn in Hl. by destruct l.
  - rewrite <- (take_drop k l). assert (length (take k l) = k) as Ht by (rewrite length_take; lia).
    rewrite chunks_app_exact by done.
    destruct (IH (drop k l)) as [Hn Hf]; [rewrite length_drop; lia|].
    split; [cbn; lia|by constructor].
Qed.

(** The [i]-th piece. *)
Lemma chunks_lookup k l i : (0 < k)%nat -> (i * k < length l)%nat ->
  chunks k l !! i = Some (take k (drop (i * k) l)).
Proof.
  intros Hk. revert l. induction i as [|i IH]; intros l Hi;
    (assert (l <> []) by (intros ->; cbn in Hi; lia)); rewrite chunks_cons by done.
  - by rewrite drop_0.
  - change (chunks k (drop k l) !! i = Some (take k (drop (S i * k) l))).
    rewrite IH by (rewrite length_drop; lia). rewrite drop_drop. done.
Qed.

Lemma chunks_lookup_None k l i : (0 < k)%nat -> (length l <= i * k)%nat -> chunks k l !! i = None.
Proof.
  intros Hk. revert l. induction i as [|i IH]; intros l Hi.
  - destruct l; [done|cbn in Hi; lia].
  - destruct l as [|x l]; [done|]. rewrite chunks_cons by done.
    change (chunks k (drop k (x :: l)) !! i = None). apply IH. rewrite length_drop. lia.
Qed.

Lemma concat_take_const k L i : Forall (fun l => length l = k) L ->
  take (i * k) (concat L) = concat (take i L).
Proof.
  intros HL. revert i. induction HL as [|l L Hl HL IH]; intros i; [by rewrite take_nil; cbn; rewrite take_nil|].
  destruct i as [|i]; [done|]. cbn [concat take]. rewrite take_app.
  rewrite (take_ge l) by lia. replace (S i * k - length l)%nat with (i * k)%nat by lia.
  by rewrite IH.
Qed.

Lemma concat_drop_const k L i : Forall (fun l => length l = k) L ->
  drop (i * k) (concat L) = concat (drop i L).
Proof.
  intros HL. revert i. induction HL as [|l L Hl HL IH]; intros i; [by rewrite drop_nil; cbn; rewrite drop_nil|].
  destruct i as [|i]; [done|]. cbn [concat drop]. rewrite drop_app.
  rewrite (drop_ge l) by lia. replace (S i * k - length l)%nat with (i * k)%nat by lia.
  by rewrite IH.
Qed.

End chunks.

(** ** Buffers as lists of symbols

    [of_symbols k L] is the buffer that holds the symbols [L], all of [k]
    bytes; the operations on buffers act on [L]. *)

Definition of_symbols (k : Z) (L : list (list byte)) : Symbols := mk_symbols (concat L) k.

Definition sized (k : Z) (L : list (list byte)) : Prop :=
  Forall (fun l => length l = Z.to_nat k) L.

Section buffers.
Context (k : Z) (Hk : 0 < k).
Implicit Types (L : list (list byte)) (x : list byte).

Lemma length_of_symbols L : sized k L -> length (sym_data (of_symbols k L)) = (length L * Z.to_nat k)%nat.
Proof. apply length_concat_const. Qed.

Lemma is_multiple_of_sized L : sized k L -> is_multiple_of (len (concat L)) k = true.
Proof.
  intros HL. rewrite (length_concat_const _ _ HL). unfold is_multiple_of.
  destruct (Z.eqb_spec k 0); [lia|]. apply Z.eqb_eq.
  rewrite Nat2Z.inj_mul, Z2Nat.id by lia. by apply Z.mod_mul.
Qed.

Lemma to_symbols_of L : sized k L -> to_symbols (of_symbols k L) = L.
Proof. intros HL. unfold to_symbols, symbol_usize. cbn. apply chunks_concat; [lia|done]. Qed.

Lemma symbols_len_of L : sized k L -> symbols_len (of_symbols k L) = length L.
Proof.
  intros HL. unfold symbols_len. rewrite length_of_symbols by done. unfold symbol_usize. cbn.
  apply Nat.div_mul. lia.
Qed.

Lemma symbols_new_of {E} L : sized k L -> symbols_new (E:=E) (concat L) k = Ok (of_symbols k L).
Proof. intros HL. unfold symbols_new. by rewrite is_multiple_of_sized. Qed.

Lemma symbols_index_range_of {E} L a b : sized k L -> (a <= b)%nat -> (b <= length L)%nat ->
  symbols_index_range (E:=E) (of_symbols k L) a b = Ok (concat (take (b - a) (drop a L))).
Proof.
  intros HL Hab Hb. unfold symbols_index_range, symbol_range, slice, symbol_usize.
  cbn [sym_data symbol_size of_symbols]. rewrite (length_concat_const _ _ HL).
  rewrite (proj2 (Nat.leb_le _ _)) by nia. rewrite (proj2 (Nat.leb_le _ _)) by nia. cbn [andb].
  rewrite (Nat.mul_comm _ a), (concat_drop_const _ _ _ HL).
  replace (Z.to_nat k * b - a * Z.to_nat k)%nat with ((b - a) * Z.to_nat k)%nat by nia.
  by rewrite (concat_take_const (Z.to_nat k)) by by apply Forall_drop.
Qed.

Lemma symbols_index_of {E} L i x : sized k L -> L !! i = Some x ->
  symbols_index (E:=E) (of_symbols k L) i = Ok x.
Proof.
  intros HL Hi. unfold symbols_index. pose proof (lookup_lt_Some _ _ _ Hi).
  rewrite symbols_index_range_of by (done || lia). replace (i + 1 - i)%nat with 1%nat by lia.
  rewrite (drop_S _ _ _ Hi). cbn. by rewrite app_nil_r.
Qed.

Lemma symbols_index_out {E} L i : sized k L -> (length L <= i)%nat ->
  symbols_index (E:=E) (of_symbols k L) i = Panic.
Proof.
  intros HL Hi. unfold symbols_index, symbols_index_range, symbol_range, slice, symbol_usize.
  cbn [sym_data symbol_size of_symbols]. rewrite (length_concat_const _ _ HL).
  rewrite (proj2 (Nat.leb_gt (Z.to_nat k * (i + 1)) _)) by nia. by rewrite andb_false_r.
Qed.

Lemma concat_insert L i x y : L !! i = Some y ->
  concat (<[i := x]> L) = concat (take i L) ++ x ++ concat (drop (S i) L).
Proof.
  intros Hi. rewrite insert_take_drop by by apply lookup_lt_Some in Hi.
  by rewrite concat_app.
Qed.

Lemma symbols_write_of {E} L i x : sized k L -> (i < length L)%nat -> length x = Z.to_nat k ->
  symbols_write (E:=E) (of_symbols k L) i x = Ok (of_symbols k (<[i := x]> L)).
Proof.
  intros HL Hi Hx. unfold symbols_write, symbol_range, write_range, symbol_usize.
  cbn [sym_data symbol_size of_symbols]. rewrite (length_concat_const _ _ HL), Hx.
  rewrite (proj2 (Nat.leb_le _ _)) by nia. rewrite (proj2 (Nat.leb_le _ _)) by nia.
  rewrite (proj2 (Nat.eqb_eq _ _)) by nia. cbn. unfold of_symbols. do 2 f_equal.
  destruct (lookup_lt_is_Some_2 L i Hi) as [y Hy]. rewrite (concat_insert _ _ _ _ Hy).
  rewrite (Nat.mul_comm _ i), (Nat.mul_comm _ (i + 1)).
  rewrite (concat_take_const _ _ _ HL), (concat_drop_const _ _ _ HL).
  by replace (i + 1)%nat with (S i) by lia.
Qed.

Lemma symbols_extend_of L L' : sized k L' ->
  symbols_extend (of_symbols k L) (concat L') = Ok (of_symbols k (L ++ L')).
Proof.
  intros HL'. unfold symbols_extend. cbn [symbol_size of_symbols sym_data].
  rewrite is_multiple_of_sized by done. cbn. unfold of_symbols. by rewrite concat_app.
Qed.

Lemma symbols_truncate_of L n : sized k L ->
  symbols_truncate n (of_symbols k L) = of_symbols k (take n L).
Proof.
  intros HL. unfold symbols_truncate, of_symbols, symbol_usize. cbn. f_equal.
  by apply concat_take_const.
Qed.

Definition zero_symbol : list byte := replicate (Z.to_nat k) x00.

Lemma sized_zeros n : sized k (replicate n zero_symbol).
Proof. apply Forall_replicate. apply length_replicate. Qed.

Lemma concat_replicate {A} n m (y : A) : concat (replicate n (replicate m y)) = replicate (n * m) y.
Proof.
  induction n as [|n IH]; [done|]. cbn [replicate concat Nat.mul]. by rewrite replicate_add, <- IH.
Qed.

Lemma symbols_zeros_of n : symbols_zeros n k = of_symbols k (replicate n zero_symbol).
Proof. unfold symbols_zeros, of_symbols, zero_symbol. by rewrite concat_replicate. Qed.

(** Every buffer of complete symbols is one of these. *)
Lemma of_symbols_chunks data n : length data = (n * Z.to_nat k)%nat ->
  mk_symbols data k = of_symbols k (chunks (Z.to_nat k) data) /\
  sized k (chunks (Z.to_nat k) data) /\ length (chunks (Z.to_nat k) data) = n.
Proof.
  intros Hl. destruct (chunks_exact_length (Z.to_nat k) n data) as [Hn Hf]; [lia|done|].
  split_and!; [|done|done]. unfold of_symbols. by rewrite concat_chunks by lia.
Qed.

End buffers.

#[export] Hint Resolve sized_zeros : walrus.

(** ** The buffer type *)

(** The buffers that the public operations build and update. *)
Inductive buffer : Symbols -> Prop :=
| buffer_new data k s : 0 < k < 2 ^ 16 -> symbols_new (E:=False) data k = Ok s -> buffer s
| buffer_zeros m k : 0 < k < 2 ^ 16 -> buffer (symbols_zeros m k)
| buffer_with_capacity m k : 0 < k < 2 ^ 16 -> buffer (symbols_with_capacity m k)
| buffer_truncate m s : buffer s -> buffer (symbols_truncate m s)
| buffer_write s i x s' : buffer s -> symbols_write (E:=False) s i x = Ok s' -> buffer s'
| buffer_data_mut s data : buffer s -> length data = length (sym_data s) ->
    buffer (mk_symbols data (symbol_size s))
| buffer_extend s x s' : buffer s -> symbols_extend s x = Ok s' -> buffer s'.

Definition holds_symbols (s : Symbols) (L : list (list byte)) : Prop :=
  0 < symbol_size s /\ sized (symbol_size s) L /\ s = of_symbols (symbol_size s) L.

Lemma multiple_holds data k : 0 < k -> is_multiple_of (len data) k = true ->
  holds_symbols (mk_symbols data k) (chunks (Z.to_nat k) data).
Proof.
  intros Hk Hm. unfold is_multiple_of in Hm. destruct (Z.eqb_spec k 0); [lia|]. apply Z.eqb_eq in Hm.
  destruct (of_symbols_chunks k Hk data (Z.to_nat (len data / k))) as (Heq & Hs & _).
  { apply Z_div_exact_full_2 in Hm; [|lia].
    apply Nat2Z.inj. rewrite Nat2Z.inj_mul, !Z2Nat.id by (try apply Z.div_pos; lia). lia. }
  split_and!; [done|done|exact Heq].
Qed.

Lemma holds_multiple s L : holds_symbols s L -> is_multiple_of (len (sym_data s)) (symbol_size s) = true.
Proof. intros (Hk & HL & Hs). rewrite Hs. by apply is_multiple_of_sized. Qed.

Lemma write_range_holds {E} s L i x s' : holds_symbols s L -> symbols_write (E:=E) s i x = Ok s' ->
  holds_symbols s' (<[i := x]> L).
Proof.
  intros (Hk & HL & ->) Hw. cbn [symbol_size of_symbols] in *. set (k := symbol_size s) in *.
  assert ((i < length L)%nat /\ length x = Z.to_nat k) as [Hi Hx].
  { unfold symbols_write, symbol_range, write_range, symbol_usize in Hw.
    cbn [sym_data symbol_size of_symbols] in Hw. rewrite (length_concat_const _ _ HL) in Hw.
    destruct (_ <=? _)%nat eqn:H1; [|done]. destruct (_ <=? length L * _)%nat eqn:H2; [|done].
    destruct (length x =? _)%nat eqn:H3; [|done]. apply Nat.leb_le in H1, H2. apply Nat.eqb_eq in H3. nia. }
  rewrite symbols_write_of in Hw by done. injection Hw as <-. split_and!; [done| |done].
  by apply Forall_insert.
Qed.

Lemma buffer_holds s : buffer s -> exists L, holds_symbols s L.
Proof.
  induction 1 as [data k s Hk Hs|m k Hk|m k Hk|m s _ (L & Hk & HL & ->)|s i x s' _ [L HL] Hw
    |s data _ [L HL] Hd|s x s' _ [L HL] Hx].
  - unfold symbols_new in Hs. destruct (is_multiple_of _ _) eqn:Hm; [|done]. injection Hs as <-.
    eexists. apply multiple_holds; [lia|done].
  - eexists. rewrite symbols_zeros_of. split_and!; [cbn; lia| |done]. apply sized_zeros.
  - exists []. split_and!; [cbn; lia|constructor|done].
  - exists (take m L). rewrite symbols_truncate_of by done. split_and!; [done| |done]. by apply Forall_take.
  - eexists. by eapply write_range_holds.
  - eexists. apply multiple_holds; [apply HL|]. rewrite Hd. by eapply holds_multiple.
  - destruct HL as (Hk & HL & Heq). unfold symbols_extend in Hx.
    destruct (is_multiple_of (len x) (symbol_size s)) eqn:Hm; [|done]. injection Hx as <-.
    destruct (multiple_holds x _ Hk Hm) as (_ & Hs & Hxs). cbn [symbol_size] in Hs, Hxs. injection Hxs as Hxs.
    exists (L ++ chunks (Z.to_nat (symbol_size s)) x). split_and!; [done|by apply Forall_app|].
    unfold of_symbols. cbn [symbol_size]. by rewrite concat_app, <- Hxs, Heq.
Qed.

(** The type invariant of symbol buffers: a buffer made by [new], [zeros] or
    [with_capacity] and changed by [truncate], by writing a symbol, by writing
    its bytes in place through [data_mut] or by [extend], in any order, holds a whole number of symbols of its symbol size;
    its length, its iterator and [get] see exactly these symbols, [get] is
    [None] beyond them and never panics, and indexing panics exactly there. *)
Theorem symbols_buffer s : buffer s ->
  exists L, Forall (fun x => length x = symbol_usize s) L /\ sym_data s = concat L /\
    symbols_len s = length L /\ to_symbols s = L /\
    forall i, symbols_get (E:=False) s i = Ok (L !! i) /\
      symbols_index (E:=False) s i = match L !! i with Some x => Ok x | None => Panic end.
Proof.
  intros Hb. destruct (buffer_holds s Hb) as (L & Hk & HL & Hs). exists L.
  split_and!; [done|by rewrite Hs|rewrite Hs; by apply symbols_len_of|rewrite Hs; by apply to_symbols_of|].
  intros i. rewrite Hs. unfold symbols_get. rewrite symbols_len_of by done.
  destruct (L !! i) as [x|] eqn:Hi.
  - pose proof (lookup_lt_Some _ _ _ Hi). rewrite (proj2 (Nat.leb_gt _ _)) by lia.
    by rewrite (symbols_index_of _ Hk _ _ _ HL Hi).
  - apply lookup_ge_None in Hi. rewrite (proj2 (Nat.leb_le _ _)) by lia.
    by rewrite (symbols_index_out _ Hk _ _ HL Hi).
Qed.

(** Two symbols, one overwritten, after an extension by a third. *)
Lemma symbols_buffer_witness : exists s, buffer s /\ symbols_len s = 3%nat /\
  symbols_get (E:=False) s 1 = Ok (Some [x07; x08]) /\ symbols_get (E:=False) s 3 = Ok None.
Proof.
  pose (s := mk_symbols [x00; x00; x07; x08; x05; x06] 2).
  assert (buffer s) as Hb.
  { apply (buffer_write (mk_symbols [x00; x00; x00; x00; x05; x06] 2) 1 [x07; x08]); [|reflexivity].
    apply (buffer_extend (symbols_zeros 2 2) [x05; x06]); [|reflexivity]. by apply buffer_zeros. }
  exists s. destruct (symbols_buffer s Hb) as (L & _ & _ & Hlen & <- & Hget). split; [done|].
  split; [reflexivity|]. split; apply Hget.
Defined.
