(* ===== verification/ReedSolomon.v ===== *)
(** * One-dimensional Reed-Solomon encoding

    Models encoding/basic_encoding.rs and the one-dimensional operations of
    [ReedSolomonEncodingConfig] in encoding/config.rs.  The crate
    [reed_solomon_simd] is a parameter: the class [ReedSolomonSimd] has the
    operations the code calls, and the classes [ReedSolomonSpec] and
    [ReedSolomonLinear] state what the documentation of the crate promises of
    them.  The lemmas give the result of every operation of the wrappers; the
    theorems are the round trip of encoding and decoding and what decoding
    makes of too few symbols. *)

From S2P Require Import Prelude Core EncodingConfig Symbols.

(** ** The crate [reed_solomon_simd] *)

Abbreviation shard := (list byte).

(** Counts and sizes are [original_count], [recovery_count], [shard_bytes].  An
    [EncoderResult] is the list of its recovery shards and a [DecoderResult]
    the list of [restored_original_iter]. *)
Class ReedSolomonSimd := {
  rs_error : Type;
  rs_error_to_string : rs_error -> string;
  simd_encoder : Type;
  simd_encoder_new : nat -> nat -> nat -> outcome rs_error simd_encoder;
  simd_encoder_reset : nat -> nat -> nat -> simd_encoder -> outcome rs_error simd_encoder;
  simd_encoder_add_original_shard : shard -> simd_encoder -> outcome rs_error simd_encoder;
  simd_encoder_encode : simd_encoder -> outcome rs_error (list shard * simd_encoder);
  simd_decoder : Type;
  simd_decoder_new : nat -> nat -> nat -> outcome rs_error simd_decoder;
  simd_decoder_reset : nat -> nat -> nat -> simd_decoder -> outcome rs_error simd_decoder;
  (** The results of these two are ignored by the code. *)
  simd_decoder_add_original_shard : nat -> shard -> simd_decoder -> simd_decoder;
  simd_decoder_add_recovery_shard : nat -> shard -> simd_decoder -> simd_decoder;
  simd_decoder_decode : simd_decoder -> (rs_error + list (nat * shard)) * simd_decoder;
}.

(** Shards that were received, by index, agree with the list [D]. *)
Definition agrees (m : gmap nat shard) (D : list shard) : Prop :=
  forall i x, m !! i = Some x -> D !! i = Some x.

(** The original shards that were not received, in index order. *)
Definition missing (k : nat) (O : gmap nat shard) : list nat :=
  base.filter (fun i => O !! i = None) (seq 0 k).

(** What the crate documents.  [simd_code k r D] are the [r] recovery shards of
    the [k] original shards [D]; [encoder_holds] and [decoder_holds] say which
    parameters an object was created for and which shards it has accepted. *)
Class ReedSolomonSpec `(R : ReedSolomonSimd) := {
  simd_supports : nat -> nat -> nat -> bool;
  simd_code : nat -> nat -> list shard -> list shard;
  encoder_holds : simd_encoder -> nat -> nat -> nat -> list shard -> Prop;
  decoder_holds : simd_decoder -> nat -> nat -> nat -> gmap nat shard -> gmap nat shard -> Prop;
  simd_code_length k r b D :
    simd_supports k r b = true -> length D = k -> Forall (fun x => length x = b) D ->
    length (simd_code k r D) = r /\ Forall (fun x => length x = b) (simd_code k r D);
  simd_encoder_new_spec k r b :
    if simd_supports k r b
    then exists e, simd_encoder_new k r b = Ok e /\ encoder_holds e k r b []
    else exists err, simd_encoder_new k r b = Err err;
  simd_encoder_reset_spec e k r b : simd_supports k r b = true ->
    exists e', simd_encoder_reset k r b e = Ok e' /\ encoder_holds e' k r b [];
  simd_encoder_add_spec e k r b D x :
    encoder_holds e k r b D -> (length D < k)%nat -> length x = b ->
    exists e', simd_encoder_add_original_shard x e = Ok e' /\ encoder_holds e' k r b (D ++ [x]);
  simd_encoder_encode_spec e k r b D :
    encoder_holds e k r b D -> length D = k ->
    exists e', simd_encoder_encode e = Ok (simd_code k r D, e');
  simd_decoder_new_spec k r b :
    if simd_supports k r b
    then exists d, simd_decoder_new k r b = Ok d /\ decoder_holds d k r b ∅ ∅
    else exists err, simd_decoder_new k r b = Err err;
  simd_decoder_reset_spec d k r b : simd_supports k r b = true ->
    exists d', simd_decoder_reset k r b d = Ok d' /\ decoder_holds d' k r b ∅ ∅;
  (** A duplicate, an index out of range or a shard of another size is refused. *)
  simd_decoder_add_original_spec d k r b O P i x :
    decoder_holds d k r b O P -> length x = b ->
    decoder_holds (simd_decoder_add_original_shard i x d) k r b
      (if bool_decide (i < k /\ O !! i = None)%nat then <[i := x]> O else O) P;
  simd_decoder_add_recovery_spec d k r b O P i x :
    decoder_holds d k r b O P -> length x = b ->
    decoder_holds (simd_decoder_add_recovery_shard i x d) k r b O
      (if bool_decide (i < r /\ P !! i = None)%nat then <[i := x]> P else P);
  simd_decoder_too_few d k r b O P :
    decoder_holds d k r b O P -> (size O + size P < k)%nat ->
    exists err d', simd_decoder_decode d = (inl err, d') /\ decoder_holds d' k r b O P;
  (** Any [original_count] shards restore the missing original ones. *)
  simd_decoder_restores d k r b O P :
    decoder_holds d k r b O P -> (k <= size O + size P)%nat ->
    exists l d', simd_decoder_decode d = (inr l, d') /\ l.*1 = missing k O /\
      Forall (fun x => length x = b) l.*2 /\
      forall D, length D = k -> Forall (fun x => length x = b) D ->
        agrees O D -> agrees P (simd_code k r D) ->
        Forall (fun p => D !! p.1 = Some p.2) l;
}.

(** ** Errors (encoding/errors.rs) *)

Inductive InvalidDataSizeError := InvalidDataTooLarge | EmptyData.

(** [From<DataTooLargeError> for InvalidDataSizeError]. *)
Definition invalid_size_from (e : DataTooLargeError) : InvalidDataSizeError :=
  InvalidDataTooLarge.

Inductive EncodeError :=
| InvalidDataSize (e : InvalidDataSizeError)
| IncorrectDataLength (expected : Z)
| IncompatibleParameters (reason : string).

Inductive DecodeError `{ReedSolomonSimd} :=
| DecodeDataTooLarge
| DecodeIncompatibleParameters (e : rs_error)
| DecoderError (e : rs_error)
| DecodingUnsuccessful
| DecodeVerificationError.

Section wrappers.
Context `{Build} `{ReedSolomonSimd}.

(** ** [ReedSolomonEncoder] *)

Record ReedSolomonEncoder := {
  encoder : simd_encoder;
  enc_n_source_symbols : Z;
  enc_n_shards : Z;
  enc_symbol_size : Z;
  encoded_symbols : option Symbols;
}.

Definition set_encoder (s : ReedSolomonEncoder) (e : simd_encoder) : ReedSolomonEncoder :=
  {| encoder := e; enc_n_source_symbols := enc_n_source_symbols s;
     enc_n_shards := enc_n_shards s; enc_symbol_size := enc_symbol_size s;
     encoded_symbols := encoded_symbols s |}.

Definition set_encoded_symbols (s : ReedSolomonEncoder) (o : option Symbols) :
    ReedSolomonEncoder :=
  {| encoder := encoder s; enc_n_source_symbols := enc_n_source_symbols s;
     enc_n_shards := enc_n_shards s; enc_symbol_size := enc_symbol_size s;
     encoded_symbols := o |}.

(** The constant [ASSOCIATED_ENCODING_TYPE]. *)
Definition ASSOCIATED_ENCODING_TYPE : EncodingType := RS2.

(** [reed_solomon_recovery_count], a subtraction in [u16]. *)
Definition reed_solomon_recovery_count {E} (n_source_symbols n_shards : Z) : outcome E nat :=
  d ← arith 16 (n_shards - n_source_symbols); Ok (Z.to_nat d).

(** [ReedSolomonEncoder::new]. *)
Definition rs_encoder_new (symbol_size n_source_symbols n_shards : Z) :
    outcome EncodeError ReedSolomonEncoder :=
  ensure (n_source_symbols <=? n_shards)
    (IncompatibleParameters "n_shards must be at least n_source_symbols");;
  ensure (is_multiple_of symbol_size (required_alignment ASSOCIATED_ENCODING_TYPE))
    (IncompatibleParameters "symbol_size must be a multiple of the required alignment");;
  recovery_count ← reed_solomon_recovery_count n_source_symbols n_shards;
  encoder ← map_err (fun e => IncompatibleParameters (rs_error_to_string e))
    (simd_encoder_new (Z.to_nat n_source_symbols) recovery_count (Z.to_nat symbol_size));
  Ok {| encoder := encoder; enc_n_source_symbols := n_source_symbols;
        enc_n_shards := n_shards; enc_symbol_size := symbol_size; encoded_symbols := None |}.

(** The product of two [u16] values fits into a [usize]. *)
Definition check_parameters_and_compute_symbol_size (data_length n_source_symbols : Z) :
    outcome EncodeError Z :=
  if data_length =? 0 then Err (InvalidDataSize EmptyData) else
  symbol_size ← map_err (fun e => InvalidDataSize (invalid_size_from e))
    (compute_symbol_size_from_usize data_length n_source_symbols
       (required_alignment ASSOCIATED_ENCODING_TYPE));
  let expected_length := n_source_symbols * symbol_size in
  if negb (data_length =? expected_length) then Err (IncorrectDataLength expected_length)
  else Ok symbol_size.

Definition check_data_length (s : ReedSolomonEncoder) (data : list byte) :
    outcome EncodeError unit :=
  let expected_length := enc_n_source_symbols s * enc_symbol_size s in
  ensure (len data =? expected_length) (IncorrectDataLength expected_length).

(** [ReedSolomonEncoder::reset]. *)
Definition encoder_reset {E} (s : ReedSolomonEncoder) : outcome E ReedSolomonEncoder :=
  recovery_count ← reed_solomon_recovery_count (enc_n_source_symbols s) (enc_n_shards s);
  e ← expect_ok (simd_encoder_reset (Z.to_nat (enc_n_source_symbols s)) recovery_count
                   (Z.to_nat (enc_symbol_size s)) (encoder s));
  Ok (set_encoder s e).

(** [ReedSolomonEncoder::encode]; the [EncoderResult] is the list of recovery
    shards. *)
Definition encode (s : ReedSolomonEncoder) (data : list byte) :
    outcome EncodeError (list shard * ReedSolomonEncoder) :=
  check_data_length s data;;
  s ← encoder_reset s;
  e ← foldM (fun e symbol => expect_ok (simd_encoder_add_original_shard symbol e))
        (encoder s) (chunks_exact (Z.to_nat (enc_symbol_size s)) data);
  '(recovery, e) ← expect_ok (simd_encoder_encode e);
  Ok (recovery, set_encoder s e).

(** The capacity of the buffer is not observable. *)
Definition take_or_create_encoded_symbols (s : ReedSolomonEncoder) (required_capacity : nat) :
    Symbols * ReedSolomonEncoder :=
  match encoded_symbols s with
  | Some symbols => (symbols_truncate 0 symbols, set_encoded_symbols s None)
  | None => (symbols_with_capacity required_capacity (enc_symbol_size s), s)
  end.

Definition encode_all_repair_symbols_inner (s : ReedSolomonEncoder) (result_buffer : Symbols)
    (data : list byte) : outcome EncodeError (Symbols * ReedSolomonEncoder) :=
  check_data_length s data;;
  assert (symbol_size result_buffer =? enc_symbol_size s);;
  '(recovery, s) ← encode s data;
  result_buffer ← foldM (fun buffer symbol => expect_ok (symbols_extend buffer symbol))
                    result_buffer recovery;
  Ok (result_buffer, s).

Definition encode_all (s : ReedSolomonEncoder) (data : list byte) :
    outcome EncodeError (Symbols * ReedSolomonEncoder) :=
  let '(result, s) := take_or_create_encoded_symbols s (Z.to_nat (enc_n_shards s)) in
  check_data_length s data;;
  assert (symbol_size result =? enc_symbol_size s);;
  result ← expect_ok (symbols_extend result data);
  encode_all_repair_symbols_inner s result data.

(** [encode_all_ref], with [set_and_return_encoded_symbols]. *)
Definition encode_all_ref (s : ReedSolomonEncoder) (data : list byte) :
    outcome EncodeError (Symbols * ReedSolomonEncoder) :=
  '(result, s) ← encode_all s data;
  Ok (result, set_encoded_symbols s (Some result)).

(** [ReedSolomonEncoder::encode_all_repair_symbols]. *)
Definition encoder_repair_symbols (s : ReedSolomonEncoder) (data : list byte) :
    outcome EncodeError (Symbols * ReedSolomonEncoder) :=
  capacity ← arith 16 (enc_n_shards s - enc_n_source_symbols s);
  let '(result, s) := take_or_create_encoded_symbols s (Z.to_nat capacity) in
  encode_all_repair_symbols_inner s result data.

Definition get_symbol (s : ReedSolomonEncoder) (data : list byte) (index : Z) :
    outcome EncodeError (list byte * ReedSolomonEncoder) :=
  check_data_length s data;;
  assert (index <? enc_n_shards s);;
  let n_source_symbols := enc_n_source_symbols s in
  let symbol_size := Z.to_nat (enc_symbol_size s) in
  if index <? n_source_symbols then
    d ← slice (Z.to_nat index * symbol_size) ((Z.to_nat index + 1) * symbol_size) data;
    Ok (d, s)
  else
    '(recovery, s) ← encode s data;
    i ← arith 16 (index - n_source_symbols);
    d ← expect (recovery !! Z.to_nat i);
    Ok (d, s).

(** ** [ReedSolomonDecoder] *)

Record ReedSolomonDecoder := {
  decoder : simd_decoder;
  dec_n_source_symbols : Z;
  dec_n_shards : Z;
  source_symbols : Symbols;
}.

(** [ReedSolomonDecoder::new]. *)
Definition rs_decoder_new (n_source_symbols n_shards symbol_size : Z) :
    outcome DecodeError ReedSolomonDecoder :=
  let source_symbols := symbols_zeros (Z.to_nat n_source_symbols) symbol_size in
  recovery_count ← arith 16 (n_shards - n_source_symbols);
  decoder ← map_err DecodeIncompatibleParameters
    (simd_decoder_new (Z.to_nat n_source_symbols) (Z.to_nat recovery_count)
       (Z.to_nat symbol_size));
  Ok {| decoder := decoder; dec_n_source_symbols := n_source_symbols;
        dec_n_shards := n_shards; source_symbols := source_symbols |}.

(** The body of the first loop of [decode]. *)
Definition add_symbol {E} (s : ReedSolomonDecoder) (symbol : DecodingSymbol) :
    outcome E ReedSolomonDecoder :=
  let symbol_size := symbol_size (source_symbols s) in
  if negb (len (ds_data symbol) =? symbol_size) then Ok s
  else if ds_index symbol <? dec_n_source_symbols s then
    w ← symbols_write (source_symbols s) (Z.to_nat (ds_index symbol)) (ds_data symbol);
    Ok {| decoder := simd_decoder_add_original_shard (Z.to_nat (ds_index symbol))
                       (ds_data symbol) (decoder s);
          dec_n_source_symbols := dec_n_source_symbols s; dec_n_shards := dec_n_shards s;
          source_symbols := w |}
  else
    i ← arith 16 (ds_index symbol - dec_n_source_symbols s);
    Ok {| decoder := simd_decoder_add_recovery_shard (Z.to_nat i) (ds_data symbol) (decoder s);
          dec_n_source_symbols := dec_n_source_symbols s; dec_n_shards := dec_n_shards s;
          source_symbols := source_symbols s |}.

(** [ReedSolomonDecoder::decode]: the result, and the decoder after the call,
    which the caller can use again. *)
Definition decode {E} (s : ReedSolomonDecoder) (symbols : list DecodingSymbol) :
    outcome E ((DecodeError + list byte) * ReedSolomonDecoder) :=
  s ← foldM add_symbol s symbols;
  let '(r, d) := simd_decoder_decode (decoder s) in
  match r with
  | inl e =>
    Ok (inl (DecoderError e),
        {| decoder := d; dec_n_source_symbols := dec_n_source_symbols s;
           dec_n_shards := dec_n_shards s; source_symbols := source_symbols s |})
  | inr restored =>
    w ← foldM (fun w '(index, symbol) => symbols_write w index symbol)
          (source_symbols s) restored;
    recovery_count ← arith 16 (dec_n_shards s - dec_n_source_symbols s);
    d ← expect_ok (simd_decoder_reset (Z.to_nat (dec_n_source_symbols s))
                     (Z.to_nat recovery_count) (Z.to_nat (symbol_size (source_symbols s))) d);
    Ok (inr (sym_data w),
        {| decoder := d; dec_n_source_symbols := dec_n_source_symbols s;
           dec_n_shards := dec_n_shards s;
           source_symbols := symbols_zeros (Z.to_nat (dec_n_source_symbols s))
                               (symbol_size (source_symbols s)) |})
  end.

(** ** One-dimensional operations of [ReedSolomonEncodingConfig] *)

Section config.
Context `{EncodingFactory C}.
Implicit Types (c : C) (a : Axis).

Definition get_encoder a c (data_length : Z) : outcome EncodeError ReedSolomonEncoder :=
  symbol_size ← check_parameters_and_compute_symbol_size data_length (n_source_symbols a c);
  rs_encoder_new symbol_size (n_source_symbols a c) (n_shards c).

Definition get_decoder a c (symbol_size : Z) : outcome DecodeError ReedSolomonDecoder :=
  rs_decoder_new (n_source_symbols a c) (n_shards c) symbol_size.

Definition encode_all_symbols a c (data : list byte) : outcome EncodeError Symbols :=
  e ← get_encoder a c (len data);
  '(symbols, _) ← encode_all e data;
  Ok symbols.

Definition encode_all_repair_symbols a c (data : list byte) : outcome EncodeError Symbols :=
  e ← get_encoder a c (len data);
  '(symbols, _) ← encoder_repair_symbols e data;
  Ok symbols.

Definition encode_symbol a c (data : list byte) (index : Z) : outcome EncodeError (list byte) :=
  symbol_size ← check_parameters_and_compute_symbol_size (len data) (n_source_symbols a c);
  let symbol_size := Z.to_nat symbol_size in
  if index <? n_source_symbols a c then
    let symbol_start := (Z.to_nat index * symbol_size)%nat in
    slice symbol_start (symbol_start + symbol_size) data
  else
    e ← get_encoder a c (len data);
    '(symbol, _) ← get_symbol e data index;
    Ok symbol.

(** Symbols of axis [a] are decoded along the orthogonal axis. *)
Definition decode_from_decoding_symbols a c (symbol_size : Z)
    (symbols : list DecodingSymbol) : outcome DecodeError (list byte) :=
  d ← get_decoder (orthogonal a) c symbol_size;
  '(r, _) ← decode d symbols;
  match r with inl e => Err e | inr data => Ok data end.

End config.
End wrappers.

(** ** What the encoder computes *)

Section encoder.
Context `{Build} `{Spec : ReedSolomonSpec}.

(** Parameters the crate and the wrappers accept: [k] source symbols, [n]
    shards, symbols of [b] bytes. *)
Record params (k n b : Z) : Prop := {
  params_source : 1 <= k <= n;
  params_shards : n < 2 ^ 16;
  params_size : 1 <= b < 2 ^ 16;
  params_even : b mod 2 = 0;
  params_supported : simd_supports (Z.to_nat k) (Z.to_nat (n - k)) (Z.to_nat b) = true;
}.

(** The source data [D] cut into symbols. *)
Record source (k b : Z) (D : list shard) : Prop := {
  source_length : len D = k;
  source_sized : sized b D;
}.

(** All [n] symbols of the data: the source symbols and the repair symbols. *)
Definition repair (k n : Z) (D : list shard) : list shard :=
  simd_code (Z.to_nat k) (Z.to_nat (n - k)) D.
Definition codeword (k n : Z) (D : list shard) : list shard := D ++ repair k n D.

(** A [ReedSolomonEncoder] for the parameters, with any leftover buffer. *)
Record encoder_for (k n b : Z) (s : ReedSolomonEncoder) : Prop := {
  encoder_for_source : enc_n_source_symbols s = k;
  encoder_for_shards : enc_n_shards s = n;
  encoder_for_size : enc_symbol_size s = b;
  encoder_for_buffer : forall x, encoded_symbols s = Some x -> symbol_size x = b;
}.

Context (k n b : Z) (Hp : params k n b).
Implicit Types (D : list shard) (s : ReedSolomonEncoder).

Lemma params_positive : 0 < k /\ 0 < b.
Proof. destruct Hp. lia. Qed.

Lemma repair_spec D : source k b D -> len (repair k n D) = n - k /\ sized b (repair k n D).
Proof.
  intros [Hl HD]. destruct Hp.
  destruct (simd_code_length (Z.to_nat k) (Z.to_nat (n - k)) (Z.to_nat b) D)
    as [Hr Hs]; [done|lia|done|]. unfold repair, sized. split; [lia|done].
Qed.

Lemma codeword_spec D : source k b D -> len (codeword k n D) = n /\ sized b (codeword k n D).
Proof.
  intros HD. destruct (repair_spec D HD), HD. unfold codeword, sized.
  rewrite length_app. split; [lia|by apply Forall_app].
Qed.

Lemma source_bytes D : source k b D -> len (concat D) = k * b.
Proof.
  intros [Hl HD]. rewrite (length_concat_const _ _ HD). destruct Hp. nia.
Qed.

Lemma source_chunks D : source k b D -> chunks_exact (Z.to_nat b) (concat D) = D.
Proof.
  intros HD. pose proof params_positive. unfold chunks_exact.
  destruct HD as [Hl HD]. rewrite (length_concat_const _ _ HD), Nat.div_mul by lia.
  rewrite take_ge by (rewrite (length_concat_const _ _ HD); lia).
  apply chunks_concat; [lia|done].
Qed.

Lemma recovery_count_eq {E} :
  reed_solomon_recovery_count (E:=E) k n = Ok (Z.to_nat (n - k)).
Proof. unfold reed_solomon_recovery_count. destruct Hp. arith_step uint_lia. done. Qed.

Lemma rs_encoder_new_ok : exists s, rs_encoder_new b k n = Ok s /\ encoder_for k n b s.
Proof.
  unfold rs_encoder_new. destruct Hp.
  rewrite (proj2 (Z.leb_le k n)) by lia. cbn [ensure mbind outcome_bind].
  unfold is_multiple_of. cbn [ASSOCIATED_ENCODING_TYPE required_alignment Z.eqb].
  rewrite (proj2 (Z.eqb_eq _ _)) by done. cbn [ensure mbind outcome_bind].
  rewrite recovery_count_eq. cbn [mbind outcome_bind].
  pose proof (simd_encoder_new_spec (Z.to_nat k) (Z.to_nat (n - k)) (Z.to_nat b)) as Hnew.
  rewrite params_supported0 in Hnew. destruct Hnew as (e & -> & _). cbn.
  eexists. split; [done|]. by constructor.
Qed.

Lemma encoder_reset_ok {E} s : encoder_for k n b s ->
  exists s', encoder_reset (E:=E) s = Ok s' /\ encoder_for k n b s' /\
    encoded_symbols s' = encoded_symbols s /\
    encoder_holds (encoder s') (Z.to_nat k) (Z.to_nat (n - k)) (Z.to_nat b) [].
Proof.
  intros [Hk Hn Hb Hbuf]. unfold encoder_reset. rewrite Hk, Hn, recovery_count_eq, Hb.
  cbn [mbind outcome_bind].
  destruct (simd_encoder_reset_spec (encoder s) (Z.to_nat k) (Z.to_nat (n - k)) (Z.to_nat b))
    as (e & -> & He); [apply Hp|]. cbn. eexists. split_and!; [done| |done|done]. by constructor.
Qed.

Lemma add_originals_ok {E} e r bb D D0 :
  encoder_holds e (length D0 + length D) r bb D0 -> Forall (fun x => length x = bb) D ->
  exists e', foldM (E:=E) (fun e x => expect_ok (simd_encoder_add_original_shard x e)) e D = Ok e' /\
    encoder_holds e' (length D0 + length D) r bb (D0 ++ D).
Proof.
  intros He HD. revert e D0 He. induction HD as [|x D Hx HD IH]; intros e D0 He.
  - exists e. by rewrite app_nil_r.
  - cbn [length] in *. destruct (simd_encoder_add_spec _ _ _ _ _ x He) as (e' & Hadd & He');
      [lia|done|].
    cbn [foldM]. rewrite Hadd. cbn [expect_ok mbind outcome_bind].
    replace (length D0 + S (length D))%nat with (length (D0 ++ [x]) + length D)%nat in *
      by (rewrite length_app; cbn; lia).
    destruct (IH e' (D0 ++ [x]) He') as (e'' & -> & He''). exists e''.
    by rewrite <- app_assoc in He''.
Qed.

Lemma check_data_length_ok s D : encoder_for k n b s -> source k b D ->
  check_data_length s (concat D) = Ok tt.
Proof.
  intros [Hk Hn Hb _] HD. unfold check_data_length. rewrite Hk, Hb, source_bytes by done.
  by rewrite Z.eqb_refl.
Qed.

Lemma encode_ok s D : encoder_for k n b s -> source k b D ->
  exists s', encode s (concat D) = Ok (repair k n D, s') /\ encoder_for k n b s' /\
    encoded_symbols s' = encoded_symbols s.
Proof.
  intros Hs HD. unfold encode. rewrite check_data_length_ok by done. cbn [mbind outcome_bind].
  destruct (encoder_reset_ok (E:=EncodeError) s Hs) as (s1 & -> & Hs1 & Hbuf & He).
  cbn [mbind outcome_bind]. rewrite (encoder_for_size _ _ _ _ Hs1), source_chunks by done.
  destruct HD as [Hl HD].
  replace (Z.to_nat k) with (length (@nil shard) + length D)%nat in He by (cbn; lia).
  destruct (add_originals_ok (E:=EncodeError) _ _ _ D [] He HD) as (e & -> & He').
  cbn [mbind outcome_bind app] in *.
  destruct (simd_encoder_encode_spec _ _ _ _ _ He' eq_refl) as (e' & ->). cbn.
  unfold repair. replace (Z.to_nat k) with (length D) by lia.
  eexists. split_and!; [done|destruct Hs1; by constructor|done].
Qed.

Lemma encode_wrong_length s data : encoder_for k n b s -> len data <> k * b ->
  encode s data = Err (IncorrectDataLength (k * b)).
Proof.
  intros [Hk Hn Hb _] Hl. unfold encode, check_data_length. rewrite Hk, Hb.
  by rewrite (proj2 (Z.eqb_neq _ _)).
Qed.

Lemma extend_all_ok {E} L P : sized b P ->
  foldM (E:=E) (fun buffer x => expect_ok (symbols_extend buffer x)) (of_symbols b L) P =
    Ok (of_symbols b (L ++ P)).
Proof.
  pose proof params_positive as [_ Hb]. intros HP. revert L.
  induction HP as [|x P Hx HP IH]; intros L; cbn [foldM]; [by rewrite app_nil_r|].
  pose proof (symbols_extend_of b Hb L [x] ltac:(by repeat constructor)) as Hx1.
  cbn [concat] in Hx1. rewrite app_nil_r in Hx1. rewrite Hx1.
  cbn [expect_ok mbind outcome_bind]. by rewrite IH, <- app_assoc.
Qed.

(** The buffer of [take_or_create_encoded_symbols] is empty. *)
Lemma take_or_create_ok s m : encoder_for k n b s ->
  exists s', take_or_create_encoded_symbols s m = (of_symbols b [], s') /\ encoder_for k n b s'.
Proof.
  intros Hs. unfold take_or_create_encoded_symbols.
  destruct (encoded_symbols s) as [x|] eqn:Hx.
  - exists (set_encoded_symbols s None). unfold symbols_truncate. cbn [take Nat.mul].
    rewrite (encoder_for_buffer _ _ _ _ Hs x Hx). split; [done|]. destruct Hs. by constructor.
  - exists s. unfold symbols_with_capacity. by rewrite (encoder_for_size _ _ _ _ Hs).
Qed.

Lemma repair_inner_ok s L D : encoder_for k n b s -> source k b D ->
  exists s', encode_all_repair_symbols_inner s (of_symbols b L) (concat D) =
    Ok (of_symbols b (L ++ repair k n D), s') /\ encoder_for k n b s'.
Proof.
  intros Hs HD. unfold encode_all_repair_symbols_inner.
  rewrite check_data_length_ok by done. cbn [mbind outcome_bind].
  rewrite (encoder_for_size _ _ _ _ Hs). cbn [symbol_size of_symbols].
  rewrite Z.eqb_refl. cbn [assert mbind outcome_bind].
  destruct (encode_ok s D Hs HD) as (s' & -> & Hs' & _). cbn [mbind outcome_bind].
  rewrite extend_all_ok by by apply repair_spec. eauto.
Qed.

Lemma encode_all_ok s D : encoder_for k n b s -> source k b D ->
  exists s', encode_all s (concat D) = Ok (of_symbols b (codeword k n D), s') /\
    encoder_for k n b s'.
Proof.
  intros Hs HD. unfold encode_all. pose proof params_positive as [_ Hb].
  destruct (take_or_create_ok s (Z.to_nat (enc_n_shards s)) Hs) as (s1 & -> & Hs1).
  rewrite check_data_length_ok by done. cbn [mbind outcome_bind].
  rewrite (encoder_for_size _ _ _ _ Hs1). cbn [symbol_size of_symbols].
  rewrite Z.eqb_refl. cbn [assert mbind outcome_bind].
  rewrite symbols_extend_of by (done || apply HD).
  by apply repair_inner_ok.
Qed.

Lemma encode_all_ref_ok s D : encoder_for k n b s -> source k b D ->
  exists s', encode_all_ref s (concat D) = Ok (of_symbols b (codeword k n D), s') /\
    encoder_for k n b s'.
Proof.
  intros Hs HD. unfold encode_all_ref. destruct (encode_all_ok s D Hs HD) as (s' & -> & Hs').
  cbn [mbind outcome_bind]. eexists. split; [done|]. destruct Hs'. constructor; [done..|].
  by intros x [= <-].
Qed.

Lemma encoder_repair_symbols_ok s D : encoder_for k n b s -> source k b D ->
  exists s', encoder_repair_symbols s (concat D) = Ok (of_symbols b (repair k n D), s') /\
    encoder_for k n b s'.
Proof.
  intros Hs HD. unfold encoder_repair_symbols.
  rewrite (encoder_for_shards _ _ _ _ Hs), (encoder_for_source _ _ _ _ Hs).
  rewrite arith_in_range by (destruct Hp; uint_lia). cbn [mbind outcome_bind].
  destruct (take_or_create_ok s (Z.to_nat (n - k)) Hs) as (s1 & -> & Hs1).
  by apply (repair_inner_ok s1 []).
Qed.

Lemma get_symbol_ok s D i x : encoder_for k n b s -> source k b D ->
  codeword k n D !! Z.to_nat i = Some x -> 0 <= i ->
  exists s', get_symbol s (concat D) i = Ok (x, s') /\ encoder_for k n b s'.
Proof.
  intros Hs HD Hx Hi. unfold get_symbol. rewrite check_data_length_ok by done.
  rewrite (encoder_for_shards _ _ _ _ Hs), (encoder_for_source _ _ _ _ Hs),
    (encoder_for_size _ _ _ _ Hs). cbn [mbind outcome_bind].
  pose proof (lookup_lt_Some _ _ _ Hx). destruct (codeword_spec D HD) as [Hn _].
  rewrite (proj2 (Z.ltb_lt i n)) by lia. cbn [assert mbind outcome_bind].
  unfold codeword in Hx. pose proof (source_length _ _ _ HD) as Hl.
  destruct (Z.ltb_spec i k) as [Hlt|Hge].
  - rewrite lookup_app_l in Hx by lia. exists s. split; [|done].
    pose proof (symbols_index_of (E:=EncodeError) b (proj2 params_positive) D (Z.to_nat i) x
                  (source_sized _ _ _ HD) Hx) as Hidx.
    unfold symbols_index, symbols_index_range, symbol_range, symbol_usize in Hidx.
    cbn [symbol_size sym_data of_symbols] in Hidx.
    rewrite !(Nat.mul_comm _ (Z.to_nat b)). by rewrite Hidx.
  - rewrite lookup_app_r in Hx by lia.
    destruct (encode_ok s D Hs HD) as (s' & -> & Hs' & _). cbn [mbind outcome_bind].
    rewrite arith_in_range by (destruct Hp; uint_lia). cbn [mbind outcome_bind].
    replace (Z.to_nat (i - k)) with (Z.to_nat i - length D)%nat by lia. rewrite Hx. eauto.
Qed.

End encoder.

(** ** Shards received by index *)

(** [M] holds a shard for exactly the positions [off + i] of [U]. *)
Definition marks (off m : nat) (M : gmap nat shard) (U : gset nat) : Prop :=
  forall i, (i < m)%nat -> M !! i = None <-> (off + i)%nat ∉ U.

Definition receive (m i : nat) (x : shard) (M : gmap nat shard) : gmap nat shard :=
  if bool_decide (i < m /\ M !! i = None)%nat then <[i := x]> M else M.

Lemma agrees_insert M (L : list shard) i x :
  agrees M L -> L !! i = Some x -> agrees (<[i := x]> M) L.
Proof.
  intros HM Hi j y. destruct (decide (i = j)) as [->|Hne].
  - by rewrite lookup_insert_eq; intros [= <-].
  - rewrite lookup_insert_ne by done. apply HM.
Qed.

Lemma agrees_receive M (L : list shard) m i x :
  agrees M L -> L !! i = Some x -> agrees (receive m i x M) L.
Proof. intros. unfold receive. case_bool_decide; [by apply agrees_insert|done]. Qed.

Lemma agrees_overwrite M (L L' : list shard) i x :
  agrees M L -> agrees M L' -> L !! i = Some x -> (i < length L')%nat ->
  agrees M (<[i := x]> L').
Proof.
  intros HL HL' Hi Hlt j z Hj. destruct (decide (i = j)) as [->|Hne].
  - rewrite list_lookup_insert_eq by done. apply HL in Hj. congruence.
  - rewrite list_lookup_insert_ne by done. by apply HL'.
Qed.

Lemma marks_receive off m M U i x : marks off m M U -> (i < m)%nat ->
  marks off m (receive m i x M) ({[(off + i)%nat]} ∪ U) /\
  (size (receive m i x M) + size U = size M + size ({[(off + i)%nat]} ∪ U))%nat.
Proof.
  intros HM Hi. unfold receive. destruct (decide (M !! i = None)) as [Hnew|Hold].
  - rewrite bool_decide_true by done. assert ((off + i)%nat ∉ U) by by apply HM. split.
    + intros j Hj. rewrite not_elem_of_union, not_elem_of_singleton.
      destruct (decide (i = j)) as [->|Hne]; [rewrite lookup_insert_eq; naive_solver|].
      rewrite lookup_insert_ne, (HM j) by done. assert ((off + j <> off + i)%nat) by lia. tauto.
    + rewrite map_size_insert_None by done. rewrite size_union by set_solver.
      rewrite size_singleton. lia.
  - rewrite bool_decide_false by tauto. assert ((off + i)%nat ∈ U) as Hin.
    { apply dec_stable. intros Hn. by apply Hold, HM. }
    replace ({[(off + i)%nat]} ∪ U) with U by (apply set_eq; intros; set_solver). done.
Qed.

Lemma marks_other off m M U i : marks off m M U ->
  (i < off \/ off + m <= i)%nat -> marks off m M ({[i]} ∪ U).
Proof.
  intros HM Hi j Hj. rewrite not_elem_of_union, not_elem_of_singleton, (HM j) by done.
  assert (off + j <> i)%nat by lia. tauto.
Qed.

(** ** What the decoder computes *)

Lemma size_list_to_set_le (l : list nat) : (size (list_to_set l : gset nat) <= length l)%nat.
Proof.
  induction l as [|x l IH]; [done|]. rewrite list_to_set_cons. cbn [length].
  pose proof (size_union_inter {[x]} (list_to_set l)). rewrite size_singleton in *. lia.
Qed.

Section decoder.
Context `{Build} `{Spec : ReedSolomonSpec}.
Context (k n b : Z) (Hp : params k n b) (D : list shard) (HD : source k b D).
Implicit Types (s : ReedSolomonDecoder) (U : gset nat) (y : DecodingSymbol).

(** A symbol the decoder does not drop, and the positions of such symbols. *)
Definition usable y : bool :=
  bool_decide (length (ds_data y) = Z.to_nat b /\ ds_index y < n).
Definition positions (ys : list DecodingSymbol) : gset nat :=
  list_to_set ((fun y => Z.to_nat (ds_index y)) <$> base.filter (fun y => usable y = true) ys).

Lemma size_positions ys : (size (positions ys) <= length ys)%nat.
Proof.
  unfold positions. etransitivity; [apply size_list_to_set_le|].
  rewrite length_fmap. apply length_filter.
Qed.

Lemma size_positions_distinct ys : Forall (fun y => usable y = true) ys ->
  NoDup ((fun y => Z.to_nat (ds_index y)) <$> ys) -> size (positions ys) = length ys.
Proof.
  intros Hu Hnd. unfold positions.
  assert (base.filter (fun y => usable y = true) ys = ys) as ->.
  { clear Hnd. induction Hu as [|y ys Hy _ IH]; [done|]. rewrite filter_cons_True by done. by f_equal. }
  rewrite size_list_to_set by done. apply length_fmap.
Qed.

(** A symbol is dropped, or it is the symbol of [D] at its position. *)
Definition genuine y : Prop :=
  0 <= ds_index y < 2 ^ 16 /\
  (usable y = true -> codeword k n D !! Z.to_nat (ds_index y) = Some (ds_data y)).

(** A decoder that has accepted the symbols of [D] at the positions [U]. *)
Record holding U s : Prop := {
  holding_source : dec_n_source_symbols s = k;
  holding_shards : dec_n_shards s = n;
  holding_state : exists O P W,
    source_symbols s = of_symbols b W /\ source k b W /\
    decoder_holds (decoder s) (Z.to_nat k) (Z.to_nat (n - k)) (Z.to_nat b) O P /\
    agrees O D /\ agrees O W /\ agrees P (repair k n D) /\
    marks 0 (Z.to_nat k) O U /\ marks (Z.to_nat k) (Z.to_nat (n - k)) P U /\
    (size O + size P = size U)%nat;
}.

(** An original symbol: the workspace is overwritten with the value it holds. *)
Lemma add_original_ok {E} U s y : holding U s -> genuine y ->
  usable y = true -> ds_index y < k ->
  exists s', add_symbol (E:=E) s y = Ok s' /\ holding ({[Z.to_nat (ds_index y)]} ∪ U) s'.
Proof.
  intros [Hk Hn (O & P & W & HW & [HWl HWs] & Hd & HOD & HOW & HPD & HO & HP & Hsz)] [Hy Hc] Hu Hlt.
  pose proof (Hc Hu) as Hx. unfold codeword in Hx.
  pose proof (source_length _ _ _ HD) as HDl. rewrite lookup_app_l in Hx by lia.
  apply bool_decide_eq_true in Hu as [Hlen _]. pose proof (params_positive _ _ _ Hp) as [Hkp Hb].
  unfold add_symbol. rewrite HW, Hk. cbn [symbol_size of_symbols].
  rewrite (proj2 (Z.eqb_eq _ _)) by lia. cbn [negb]. rewrite (proj2 (Z.ltb_lt _ _)) by done.
  set (i := Z.to_nat (ds_index y)) in *. change (mk_symbols (concat W) b) with (of_symbols b W).
  rewrite symbols_write_of by (done || lia). cbn [mbind outcome_bind].
  eexists. split; [done|]. constructor; [done..|].
  pose proof (simd_decoder_add_original_spec _ _ _ _ _ _ i (ds_data y) Hd Hlen) as Hd'.
  fold (receive (Z.to_nat k) i (ds_data y) O) in Hd'.
  destruct (marks_receive 0 (Z.to_nat k) O U i (ds_data y) HO) as [HO' Hsz']; [lia|].
  exists (receive (Z.to_nat k) i (ds_data y) O), P, (<[i := ds_data y]> W).
  split_and!; [done| |done| |  |done|done| |cbn [Nat.add] in *; lia].
  - constructor; [by rewrite length_insert|]. by apply Forall_insert.
  - by apply agrees_receive.
  - apply agrees_receive; [apply (agrees_overwrite O D); (done || lia)|].
    apply list_lookup_insert_eq. lia.
  - apply marks_other; [done|lia].
Qed.

Lemma add_recovery_ok {E} U s y : holding U s -> genuine y ->
  usable y = true -> k <= ds_index y ->
  exists s', add_symbol (E:=E) s y = Ok s' /\ holding ({[Z.to_nat (ds_index y)]} ∪ U) s'.
Proof.
  intros [Hk Hn (O & P & W & HW & HWs & Hd & HOD & HOW & HPD & HO & HP & Hsz)] [Hy Hc] Hu Hge.
  pose proof (Hc Hu) as Hx. unfold codeword in Hx.
  pose proof (source_length _ _ _ HD) as HDl. rewrite lookup_app_r in Hx by lia.
  apply bool_decide_eq_true in Hu as [Hlen Hlt]. pose proof (params_positive _ _ _ Hp) as [Hkp Hb].
  unfold add_symbol. rewrite HW, Hk. cbn [symbol_size of_symbols].
  rewrite (proj2 (Z.eqb_eq _ _)) by lia. cbn [negb]. rewrite (proj2 (Z.ltb_ge _ _)) by done.
  rewrite arith_in_range by uint_lia. cbn [mbind outcome_bind].
  eexists. split; [done|]. constructor; [done..|].
  set (i := Z.to_nat (ds_index y - k)).
  pose proof (simd_decoder_add_recovery_spec _ _ _ _ _ _ i (ds_data y) Hd Hlen) as Hd'.
  fold (receive (Z.to_nat (n - k)) i (ds_data y) P) in Hd'.
  destruct (marks_receive (Z.to_nat k) (Z.to_nat (n - k)) P U i (ds_data y) HP) as [HP' Hsz'];
    [lia|].
  replace (Z.to_nat k + i)%nat with (Z.to_nat (ds_index y)) in * by lia.
  exists O, (receive (Z.to_nat (n - k)) i (ds_data y) P), W.
  split_and!; [done|done|done|done|done| | |done|lia].
  - apply agrees_receive; [done|]. by replace i with (Z.to_nat (ds_index y) - length D)%nat by lia.
  - apply marks_other; [done|lia].
Qed.

Definition accept U y : gset nat :=
  if usable y then {[Z.to_nat (ds_index y)]} ∪ U else U.

Lemma add_symbol_ok {E} U s y : holding U s -> genuine y ->
  exists s', add_symbol (E:=E) s y = Ok s' /\ holding (accept U y) s'.
Proof.
  intros Hs Hy. unfold accept. destruct (usable y) eqn:Hu.
  { destruct (Z.lt_ge_cases (ds_index y) k); [by apply add_original_ok|by apply add_recovery_ok]. }
  apply bool_decide_eq_false in Hu. pose proof (params_positive _ _ _ Hp) as [Hkp Hb].
  destruct Hs as [Hk Hn (O & P & W & HW & HWs & Hd & Hrest)].
  unfold add_symbol. rewrite HW, Hk. cbn [symbol_size of_symbols].
  destruct (Z.eqb_spec (len (ds_data y)) b) as [Hlen|Hlen]; cbn [negb].
  2: { exists s. split; [done|]. constructor; [done..|]. by exists O, P, W. }
  assert (n <= ds_index y) by lia. destruct Hy as [Hy _]. destruct Hp as [? ? ? ? ?].
  rewrite (proj2 (Z.ltb_ge _ _)) by lia. rewrite arith_in_range by uint_lia.
  cbn [mbind outcome_bind]. eexists. split; [done|]. constructor; [done..|].
  exists O, P, W. split; [done|]. split; [done|]. split; [|done].
  pose proof (simd_decoder_add_recovery_spec _ _ _ _ _ _
    (Z.to_nat (ds_index y - k)) (ds_data y) Hd ltac:(lia)) as Hd'.
  rewrite bool_decide_false in Hd' by lia. done.
Qed.

Lemma add_symbols_ok {E} U s ys : holding U s -> Forall genuine ys ->
  exists s', foldM (E:=E) add_symbol s ys = Ok s' /\ holding (positions ys ∪ U) s'.
Proof.
  intros Hs Hys. revert U s Hs. induction Hys as [|y ys Hy Hys IH]; intros U s Hs.
  { exists s. split; [done|]. by replace (positions [] ∪ U) with U by set_solver. }
  destruct (add_symbol_ok (E:=E) U s y Hs Hy) as (s1 & Hs1 & Hh).
  destruct (IH _ _ Hh) as (s2 & Hs2 & Hh2). exists s2. cbn [foldM]. rewrite Hs1. split; [done|].
  replace (positions (y :: ys) ∪ U) with (positions ys ∪ accept U y); [done|].
  unfold positions, accept. rewrite filter_cons. destruct (usable y) eqn:Hu; cbn; set_solver.
Qed.

(** Writing the restored symbols completes the source data. *)
Lemma restore_ok {E} W l : source k b W -> Forall (fun p => D !! p.1 = Some p.2) l ->
  (forall i, i ∉ l.*1 -> W !! i = D !! i) ->
  foldM (E:=E) (fun w '(i, x) => symbols_write w i x) (of_symbols b W) l = Ok (of_symbols b D).
Proof.
  pose proof (params_positive _ _ _ Hp) as [_ Hb]. pose proof HD as [HDl HDs].
  intros HW Hl. revert W HW. induction Hl as [|[i x] l Hx Hl IH]; intros W [HWl HWs] Hrest.
  - cbn [foldM]. do 2 f_equal. apply list_eq. intros i. apply Hrest. set_solver.
  - cbn [foldM fst snd] in *. pose proof (lookup_lt_Some _ _ _ Hx).
    assert (length x = Z.to_nat b) by (by apply (Forall_lookup_1 _ _ _ _ HDs Hx)).
    rewrite symbols_write_of by (done || lia). cbn [mbind outcome_bind]. apply IH.
    + constructor; [by rewrite length_insert|by apply Forall_insert].
    + intros j Hj. destruct (decide (i = j)) as [->|Hne].
      * by rewrite list_lookup_insert_eq, Hx by lia.
      * rewrite list_lookup_insert_ne by done. apply Hrest. cbn. set_solver.
Qed.

Lemma elem_of_missing m O i : i ∈ missing m O <-> O !! i = None /\ (i < m)%nat.
Proof. unfold missing. rewrite list_elem_of_filter, elem_of_seq. naive_solver lia. Qed.

(** A decoder that holds no symbols, as created. *)
Record fresh s : Prop := {
  fresh_source : dec_n_source_symbols s = k;
  fresh_shards : dec_n_shards s = n;
  fresh_symbols : source_symbols s = symbols_zeros (Z.to_nat k) b;
  fresh_holds : decoder_holds (decoder s) (Z.to_nat k) (Z.to_nat (n - k)) (Z.to_nat b) ∅ ∅;
}.

Lemma fresh_holding s : fresh s -> holding ∅ s.
Proof.
  intros [Hk Hn Hw Hd]. pose proof (params_positive _ _ _ Hp) as [Hkp Hb].
  constructor; [done..|]. exists ∅, ∅, (replicate (Z.to_nat k) (zero_symbol b)).
  rewrite Hw, symbols_zeros_of. split_and!; try done.
  - constructor; [rewrite length_replicate; lia|apply sized_zeros].
Qed.

Lemma decode_enough {E} U s ys : holding U s -> Forall genuine ys ->
  (Z.to_nat k <= size (positions ys ∪ U))%nat ->
  exists s', decode (E:=E) s ys = Ok (inr (concat D), s') /\ fresh s'.
Proof.
  intros Hs Hys Hsize. unfold decode.
  destruct (add_symbols_ok (E:=E) U s ys Hs Hys) as (s1 & -> & Hs1). cbn [mbind outcome_bind].
  destruct Hs1 as [Hk Hn (O & P & W & HW & HWs & Hd & HOD & HOW & HPD & _ & _ & Hsz)].
  destruct (simd_decoder_restores _ _ _ _ _ _ Hd) as (l & d' & -> & Hl & _ & HlD); [lia|].
  rewrite HW. destruct HD as [HDl HDs]. rewrite restore_ok; [|done|..].
  2: { apply HlD; [lia|done|done|done]. }
  2: { intros i Hi. rewrite Hl, elem_of_missing in Hi. destruct (O !! i) as [x|] eqn:HOi.
    - by rewrite (HOW i x), (HOD i x).
    - destruct HWs. assert (Z.to_nat k <= i)%nat by (apply Nat.nlt_ge; tauto).
      by rewrite !lookup_ge_None_2 by lia. }
  cbn [mbind outcome_bind]. rewrite Hk, Hn. destruct Hp.
  rewrite arith_in_range by uint_lia. cbn [mbind outcome_bind symbol_size of_symbols].
  destruct (simd_decoder_reset_spec d' _ _ _ params_supported0) as (d2 & -> & Hd2). cbn.
  eexists. split; [done|]. by constructor.
Qed.

Lemma decode_too_few {E} U s ys : holding U s -> Forall genuine ys ->
  (size (positions ys ∪ U) < Z.to_nat k)%nat ->
  exists e s', decode (E:=E) s ys = Ok (inl (DecoderError e), s') /\
    holding (positions ys ∪ U) s'.
Proof.
  intros Hs Hys Hsize. unfold decode.
  destruct (add_symbols_ok (E:=E) U s ys Hs Hys) as (s1 & -> & Hs1). cbn [mbind outcome_bind].
  destruct Hs1 as [Hk Hn (O & P & W & HW & HWs & Hd & HOD & HOW & HPD & HO & HP & Hsz)].
  destruct (simd_decoder_too_few _ _ _ _ _ _ Hd) as (e & d' & -> & Hd'); [lia|].
  eexists e, _. split; [done|]. constructor; [done..|]. by exists O, P, W.
Qed.

End decoder.

(** ** Symbols that need not belong to any codeword

    The decoder returns data whatever it is given, and the data contains the
    source symbols it was given. *)

Section decoder_any.
Context `{Build} `{Spec : ReedSolomonSpec}.
Context (k n b : Z) (Hp : params k n b).
Implicit Types (s : ReedSolomonDecoder) (y : DecodingSymbol).

(** Symbols at distinct positions, none of which is dropped. *)
Record clean (ys : list DecodingSymbol) : Prop := {
  clean_distinct : NoDup ((fun y => Z.to_nat (ds_index y)) <$> ys);
  clean_usable : Forall (fun y => 0 <= ds_index y /\ usable n b y = true) ys;
}.

(** The decoder holds exactly the symbols [ys]. *)
Record storing (ys : list DecodingSymbol) s : Prop := {
  storing_source : dec_n_source_symbols s = k;
  storing_shards : dec_n_shards s = n;
  storing_state : exists O P W,
    source_symbols s = of_symbols b W /\ source k b W /\
    decoder_holds (decoder s) (Z.to_nat k) (Z.to_nat (n - k)) (Z.to_nat b) O P /\
    agrees O W /\
    Forall (fun y => ds_index y < k -> O !! Z.to_nat (ds_index y) = Some (ds_data y)) ys /\
    marks 0 (Z.to_nat k) O (list_to_set ((fun y => Z.to_nat (ds_index y)) <$> ys)) /\
    marks (Z.to_nat k) (Z.to_nat (n - k)) P (list_to_set ((fun y => Z.to_nat (ds_index y)) <$> ys)) /\
    (size O + size P = length ys)%nat;
}.

Lemma fresh_storing s : fresh k n b s -> storing [] s.
Proof.
  intros [Hk Hn Hw Hd]. pose proof (params_positive _ _ _ Hp) as [Hkp Hb].
  constructor; [done..|]. exists ∅, ∅, (replicate (Z.to_nat k) (zero_symbol b)).
  rewrite Hw, symbols_zeros_of. split_and!; try done.
  constructor; [rewrite length_replicate; lia|apply sized_zeros].
Qed.

Lemma store_symbol {E} ys s y : storing ys s -> 0 <= ds_index y -> usable n b y = true ->
  Z.to_nat (ds_index y) ∉ ((fun y => Z.to_nat (ds_index y)) <$> ys) ->
  exists s', add_symbol (E:=E) s y = Ok s' /\ storing (y :: ys) s'.
Proof.
  intros [Hk Hn (O & P & W & HW & [HWl HWs] & Hd & HOW & Hys & HO & HP & Hsz)] Hy Hu Hnew.
  apply bool_decide_eq_true in Hu as [Hlen Hlt]. pose proof (params_positive _ _ _ Hp) as [Hkp Hb].
  destruct Hp as [? ? ? ? ?]. unfold add_symbol. rewrite HW, Hk. cbn [symbol_size of_symbols].
  rewrite (proj2 (Z.eqb_eq _ _)) by lia. cbn [negb]. set (i := Z.to_nat (ds_index y)) in *.
  assert (i ∉ (list_to_set ((fun y => Z.to_nat (ds_index y)) <$> ys) : gset nat)) as Hi
    by by rewrite elem_of_list_to_set.
  destruct (Z.ltb_spec (ds_index y) k) as [Hlt'|Hge].
  - change (mk_symbols (concat W) b) with (of_symbols b W).
    rewrite symbols_write_of by (done || lia). cbn [mbind outcome_bind].
    eexists. split; [done|]. constructor; [done..|].
    pose proof (simd_decoder_add_original_spec _ _ _ _ _ _ i (ds_data y) Hd Hlen) as Hd'.
    fold (receive (Z.to_nat k) i (ds_data y) O) in Hd'.
    destruct (marks_receive 0 (Z.to_nat k) O _ i (ds_data y) HO) as [HO' _]; [lia|].
    assert (O !! i = None) as HOi by (apply HO; [lia|done]).
    unfold receive in *. rewrite bool_decide_true in Hd', HO' by (split; [lia|done]).
    exists (<[i := ds_data y]> O), P, (<[i := ds_data y]> W).
    rewrite fmap_cons, list_to_set_cons. split_and!; [done| |done| | |done| |].
    + constructor; [by rewrite length_insert|by apply Forall_insert].
    + apply agrees_insert; [|apply list_lookup_insert_eq; lia].
      intros j z Hj. rewrite list_lookup_insert_ne by congruence. by apply HOW.
    + constructor; [intros _; by rewrite lookup_insert_eq|].
      eapply Forall_impl; [exact Hys|]. intros z Hz Hzk. specialize (Hz Hzk).
      rewrite lookup_insert_ne by congruence. done.
    + apply marks_other; [done|lia].
    + rewrite map_size_insert_None by done. cbn [length]. lia.
  - rewrite arith_in_range by uint_lia. cbn [mbind outcome_bind].
    eexists. split; [done|]. constructor; [done..|].
    set (j := Z.to_nat (ds_index y - k)).
    pose proof (simd_decoder_add_recovery_spec _ _ _ _ _ _ j (ds_data y) Hd Hlen) as Hd'.
    fold (receive (Z.to_nat (n - k)) j (ds_data y) P) in Hd'.
    destruct (marks_receive (Z.to_nat k) (Z.to_nat (n - k)) P _ j (ds_data y) HP) as [HP' _]; [lia|].
    replace (Z.to_nat k + j)%nat with i in HP' by lia.
    assert (P !! j = None) as HPj. { apply HP; [lia|]. by replace (Z.to_nat k + j)%nat with i by lia. }
    unfold receive in *. rewrite bool_decide_true in Hd', HP' by (split; [lia|done]).
    exists O, (<[j := ds_data y]> P), W. rewrite fmap_cons, list_to_set_cons.
    split_and!; [done|done|done|done| | |done|].
    + constructor; [lia|done].
    + apply marks_other; [done|lia].
    + rewrite map_size_insert_None by done. cbn [length]. lia.
Qed.

Lemma store_symbols {E} ys s : fresh k n b s -> clean ys ->
  exists s', foldM (E:=E) add_symbol s ys = Ok s' /\ storing (rev ys) s'.
Proof.
  intros Hs%fresh_storing [Hnd Hu]. change (@nil DecodingSymbol) with (rev (@nil DecodingSymbol)) in Hs.
  assert (forall zs ys s, NoDup ((fun y => Z.to_nat (ds_index y)) <$> zs ++ ys) ->
    Forall (fun y => 0 <= ds_index y /\ usable n b y = true) ys -> storing (rev zs) s ->
    exists s', foldM (E:=E) add_symbol s ys = Ok s' /\ storing (rev (zs ++ ys)) s') as Haux;
    [|by apply (Haux [] ys)].
  clear ys s Hs Hnd Hu. intros zs ys. revert zs. induction ys as [|y ys IH]; intros zs s Hnd Hu Hs.
  { exists s. by rewrite app_nil_r. }
  inversion_clear Hu as [|? ? [Hy Huy] Hu'].
  destruct (store_symbol (E:=E) (rev zs) s y Hs Hy Huy) as (s1 & Hs1 & Hh1).
  - rewrite fmap_app, fmap_cons in Hnd. apply NoDup_app in Hnd as (_ & Hnd & _).
    intros Hin. apply list_elem_of_fmap in Hin as (z & Hz & Hin).
    apply list_elem_of_In, in_rev, list_elem_of_In in Hin.
    apply (Hnd (Z.to_nat (ds_index y))); [apply list_elem_of_fmap; by exists z|constructor].
  - destruct (IH (zs ++ [y]) s1) as (s2 & Hs2 & Hh2).
    + by rewrite <- app_assoc.
    + done.
    + by rewrite rev_app_distr.
    + exists s2. rewrite <- app_assoc in Hh2. cbn [foldM]. rewrite Hs1. done.
Qed.

Lemma restore_any {E} W l : source k b W -> Forall (fun p => p.1 < Z.to_nat k)%nat l ->
  Forall (fun x => length x = Z.to_nat b) l.*2 ->
  exists W', foldM (E:=E) (fun w '(i, x) => symbols_write w i x) (of_symbols b W) l =
    Ok (of_symbols b W') /\ source k b W' /\ forall i, i ∉ l.*1 -> W' !! i = W !! i.
Proof.
  pose proof (params_positive _ _ _ Hp) as [_ Hb].
  intros HW Hl Hx. revert W HW. induction l as [|[i x] l IH]; intros W HW; [by exists W|].
  inversion_clear Hl as [|? ? Hi Hl']. rewrite fmap_cons in Hx. inversion_clear Hx as [|? ? Hxb Hx'].
  cbn [fst snd] in *. destruct HW as [HWl HWs]. cbn [foldM].
  rewrite symbols_write_of by (done || lia). cbn [mbind outcome_bind].
  destruct (IH Hl' Hx' (<[i := x]> W)) as (W' & Hf & HW' & Hrest).
  { constructor; [by rewrite length_insert|by apply Forall_insert]. }
  exists W'. split_and!; [done|done|]. intros j Hj. rewrite fmap_cons in Hj. cbn in Hj.
  rewrite Hrest by set_solver. apply list_lookup_insert_ne. set_solver.
Qed.

Lemma decode_any {E} s ys : fresh k n b s -> clean ys -> length ys = Z.to_nat k ->
  exists W s', decode (E:=E) s ys = Ok (inr (concat W), s') /\ fresh k n b s' /\ source k b W /\
    Forall (fun y => ds_index y < k -> W !! Z.to_nat (ds_index y) = Some (ds_data y)) ys.
Proof.
  intros Hs Hys Hl. unfold decode.
  destruct (store_symbols (E:=E) ys s Hs Hys) as (s1 & -> & Hs1). cbn [mbind outcome_bind].
  destruct Hs1 as [Hk Hn (O & P & W & HW & HWs & Hd & HOW & Hin & _ & _ & Hsz)].
  rewrite length_rev in Hsz.
  destruct (simd_decoder_restores _ _ _ _ _ _ Hd) as (l & d' & -> & Hl1 & Hl2 & _); [lia|].
  rewrite HW. destruct (restore_any (E:=E) W l HWs) as (W' & -> & HW' & Hrest).
  { apply Forall_forall. intros p Hpl.
    assert (p.1 ∈ missing (Z.to_nat k) O) as Hm by (rewrite <- Hl1; by apply list_elem_of_fmap_2).
    by apply elem_of_missing in Hm as [_ ?]. }
  { done. }
  cbn [mbind outcome_bind]. rewrite Hk, Hn. destruct Hp.
  rewrite arith_in_range by uint_lia. cbn [mbind outcome_bind symbol_size of_symbols].
  destruct (simd_decoder_reset_spec d' _ _ _ params_supported0) as (d2 & -> & Hd2). cbn.
  eexists _, _. split_and!; [done|by constructor|done|].
  apply List.Forall_rev in Hin. rewrite rev_involutive in Hin. eapply Forall_impl; [exact Hin|].
  intros y Hy Hyk. specialize (Hy Hyk). rewrite Hrest; [by apply HOW|].
  rewrite Hl1, elem_of_missing. rewrite Hy. naive_solver.
Qed.

End decoder_any.

Section decoder_new.
Context `{Build} `{Spec : ReedSolomonSpec}.

Lemma rs_decoder_new_ok k n b : params k n b ->
  exists s, rs_decoder_new k n b = Ok s /\ fresh k n b s.
Proof.
  intros Hp. unfold rs_decoder_new. destruct Hp as [? ? ? ? Hsup].
  rewrite arith_in_range by uint_lia. cbn [mbind outcome_bind].
  pose proof (simd_decoder_new_spec (Z.to_nat k) (Z.to_nat (n - k)) (Z.to_nat b)) as Hnew.
  rewrite Hsup in Hnew. destruct Hnew as (d & -> & Hd). cbn.
  eexists. split; [done|]. by constructor.
Qed.

End decoder_new.

(** ** Operations of a configuration *)

Section config_lemmas.
Context `{Build} `{Spec : ReedSolomonSpec} `{EncodingFactory C}.

(** Axis [a] of the configuration encodes with parameters [params]. *)
Definition axis_params (a : Axis) (c : C) (b : Z) : Prop :=
  params (n_source_symbols a c) (n_shards c) b.

Context (a : Axis) (c : C) (b : Z) (Hp : axis_params a c b).
Let k := n_source_symbols a c.
Let n := n_shards c.
Implicit Types D : list shard.

Lemma symbol_size_of_multiple : compute_symbol_size_from_usize (k * b) k 2 = Ok b.
Proof.
  destruct Hp as [Hk Hn Hb He _]. fold k n in Hk. fold n in Hn. unfold compute_symbol_size_from_usize.
  assert (try_from 64 (k * b) = Some (k * b)) as -> by (apply try_from_Some; uint_lia || nia).
  cbn [ok_or mbind outcome_bind].
  assert (exact_symbol_size (k * b) k 2 = b) as Hex.
  { apply Z.mod_divide in He as [q Hq]; [|lia].
    pose proof (exact_symbol_size_le_iff (k * b) k 2 q ltac:(lia) ltac:(lia)).
    destruct (exact_symbol_size_least (k * b) k 2 ltac:(lia) ltac:(lia)) as (? & ? & ? & _). nia. }
  rewrite compute_symbol_size_eq; rewrite ?Hex; [|lia|lia|uint_lia].
  by rewrite (proj2 (Z.leb_le _ _)) by uint_lia.
Qed.

Lemma check_parameters_ok D : source k b D ->
  check_parameters_and_compute_symbol_size (len (concat D)) k = Ok b.
Proof.
  intros HD. rewrite (source_bytes k n b Hp D HD). unfold check_parameters_and_compute_symbol_size.
  pose proof (params_positive _ _ _ Hp) as Hpos. fold k in Hpos.
  rewrite (proj2 (Z.eqb_neq _ _)) by nia.
  cbn [ASSOCIATED_ENCODING_TYPE required_alignment]. rewrite symbol_size_of_multiple. cbn.
  by rewrite Z.eqb_refl.
Qed.

Lemma get_encoder_ok D : source k b D ->
  exists e, get_encoder a c (len (concat D)) = Ok e /\ encoder_for k n b e.
Proof.
  intros HD. unfold get_encoder. fold k n. rewrite check_parameters_ok by done.
  apply (rs_encoder_new_ok k n b Hp).
Qed.

Lemma encode_all_symbols_ok D : source k b D ->
  encode_all_symbols a c (concat D) = Ok (of_symbols b (codeword k n D)).
Proof.
  intros HD. unfold encode_all_symbols. destruct (get_encoder_ok D HD) as (e & -> & He).
  cbn [mbind outcome_bind]. by destruct (encode_all_ok k n b Hp e D He HD) as (e' & -> & _).
Qed.

Lemma encode_all_repair_symbols_ok D : source k b D ->
  encode_all_repair_symbols a c (concat D) = Ok (of_symbols b (repair k n D)).
Proof.
  intros HD. unfold encode_all_repair_symbols. destruct (get_encoder_ok D HD) as (e & -> & He).
  cbn [mbind outcome_bind].
  by destruct (encoder_repair_symbols_ok k n b Hp e D He HD) as (e' & -> & _).
Qed.

Lemma encode_symbol_ok D i x : source k b D -> 0 <= i ->
  codeword k n D !! Z.to_nat i = Some x -> encode_symbol a c (concat D) i = Ok x.
Proof.
  intros HD Hi Hx. unfold encode_symbol. fold k. rewrite check_parameters_ok by done.
  cbn [mbind outcome_bind]. pose proof (source_length _ _ _ HD).
  destruct (Z.ltb_spec i k) as [Hlt|Hge].
  - unfold codeword in Hx. rewrite lookup_app_l in Hx by lia.
    pose proof (symbols_index_of (E:=EncodeError) b (proj2 (params_positive _ _ _ Hp)) D
                  (Z.to_nat i) x (source_sized _ _ _ HD) Hx) as Hidx.
    unfold symbols_index, symbols_index_range, symbol_range, symbol_usize in Hidx.
    cbn [symbol_size sym_data of_symbols] in Hidx. rewrite <- Hidx. f_equal; lia.
  - destruct (get_encoder_ok D HD) as (e & -> & He). cbn [mbind outcome_bind].
    by destruct (get_symbol_ok k n b Hp e D i x He HD Hx Hi) as (e' & -> & _).
Qed.

End config_lemmas.

Section decoding_config.
Context `{Build} `{Spec : ReedSolomonSpec} `{EncodingFactory C}.

Lemma decode_from_decoding_symbols_ok a (c : C) b D ys :
  axis_params (orthogonal a) c b ->
  let k := n_source_symbols (orthogonal a) c in let n := n_shards c in
  source k b D -> Forall (genuine k n b D) ys ->
  if (Z.to_nat k <=? size (positions n b ys))%nat
  then decode_from_decoding_symbols a c b ys = Ok (concat D)
  else exists e, decode_from_decoding_symbols a c b ys = Err (DecoderError e).
Proof.
  intros Hp k n HD Hys. unfold decode_from_decoding_symbols, get_decoder. fold k n.
  destruct (rs_decoder_new_ok k n b Hp) as (s & -> & Hs). cbn [mbind outcome_bind].
  apply (fresh_holding k n b Hp D) in Hs.
  pose proof (decode_enough (E:=DecodeError) k n b Hp D HD ∅ s ys Hs Hys) as Hen.
  pose proof (decode_too_few (E:=DecodeError) k n b Hp D HD ∅ s ys Hs Hys) as Hfew.
  rewrite (union_empty_r_L (positions n b ys)) in Hen, Hfew.
  destruct (Nat.leb_spec (Z.to_nat k) (size (positions n b ys))) as [Hle|Hlt].
  - by destruct (Hen Hle) as (s' & -> & _).
  - destruct (Hfew Hlt) as (e & s' & -> & _). by exists e.
Qed.

End decoding_config.
