(* ===== verification/ProductCode.v ===== *)
(** * The two-dimensional code

    The reference for blob_encoding.rs: the message matrix of a blob, the
    expanded matrix obtained by encoding its rows and then every column, and
    the slivers cut from it.  The class [ReedSolomonLinear] states that the
    code of [reed_solomon_simd] is linear; from it follows that encoding rows
    and encoding columns commute, so that every row of the expanded matrix, the
    repair rows included, is itself a codeword. *)

From S2P Require Import Prelude Core EncodingConfig Symbols ReedSolomon.

(** ** Sums of shards *)

Definition byte_xor (x y : byte) : byte :=
  let '(a0, (a1, (a2, (a3, (a4, (a5, (a6, a7))))))) := Byte.to_bits x in
  let '(b0, (b1, (b2, (b3, (b4, (b5, (b6, b7))))))) := Byte.to_bits y in
  Byte.of_bits (xorb a0 b0, (xorb a1 b1, (xorb a2 b2, (xorb a3 b3,
    (xorb a4 b4, (xorb a5 b5, (xorb a6 b6, xorb a7 b7))))))).

Definition shard_xor (x y : shard) : shard := zip_with byte_xor x y.

Definition shard_zero (b : nat) : shard := replicate b x00.

(** The sum of shards of [b] bytes. *)
Definition shard_sum (b : nat) (l : list shard) : shard := foldr shard_xor (shard_zero b) l.

Lemma to_bits_inj x y : Byte.to_bits x = Byte.to_bits y -> x = y.
Proof.
  intros Heq. rewrite <- (Byte.of_bits_to_bits x), <- (Byte.of_bits_to_bits y). by rewrite Heq.
Qed.

Ltac byte_bits :=
  apply to_bits_inj; unfold byte_xor;
  repeat match goal with
  | |- context [Byte.to_bits (?x : byte)] => is_var x;
    destruct (Byte.to_bits x) as [? [? [? [? [? [? [? ?]]]]]]] eqn:?
  | |- context [Byte.to_bits (Byte.of_bits ?t)] => rewrite (Byte.to_bits_of_bits t)
  end.

#[export] Instance byte_xor_assoc : Assoc (=) byte_xor.
Proof. intros x y z. byte_bits. by rewrite !xorb_assoc. Qed.

#[export] Instance byte_xor_comm : Comm (=) byte_xor.
Proof. intros x y. byte_bits. rewrite !pair_eq. split_and!; apply xorb_comm. Qed.

Lemma byte_xor_zero_r x : byte_xor x x00 = x.
Proof. by destruct x. Qed.

Lemma byte_xor_self x : byte_xor x x = x00.
Proof. by destruct x. Qed.

#[export] Instance shard_xor_assoc : Assoc (=) shard_xor.
Proof.
  intros x. unfold shard_xor. induction x as [|a x IH]; intros [|b y] [|c z]; cbn; try done.
  by rewrite IH, (assoc byte_xor).
Qed.

#[export] Instance shard_xor_comm : Comm (=) shard_xor.
Proof.
  intros x. unfold shard_xor. induction x as [|a x IH]; intros [|b y]; cbn; try done.
  by rewrite IH, (comm byte_xor).
Qed.

Lemma shard_xor_zero_r x : shard_xor x (shard_zero (length x)) = x.
Proof.
  unfold shard_xor, shard_zero. induction x as [|a x IH]; cbn; [done|].
  by rewrite IH, byte_xor_zero_r.
Qed.

Lemma shard_xor_self x : shard_xor x x = shard_zero (length x).
Proof.
  unfold shard_xor, shard_zero. induction x as [|a x IH]; cbn; [done|].
  by rewrite IH, byte_xor_self.
Qed.

Lemma length_shard_xor x y : length x = length y -> length (shard_xor x y) = length x.
Proof. intros Hl. unfold shard_xor. rewrite length_zip_with. lia. Qed.

Lemma shard_sum_cons b x l : shard_sum b (x :: l) = shard_xor x (shard_sum b l).
Proof. done. Qed.

Lemma length_shard_sum b l : Forall (fun x => length x = b) l -> length (shard_sum b l) = b.
Proof.
  induction 1 as [|x l Hx Hl IH]; [apply length_replicate|].
  rewrite shard_sum_cons, length_shard_xor; congruence.
Qed.

Lemma shard_zero_xor b : shard_xor (shard_zero b) (shard_zero b) = shard_zero b.
Proof. rewrite shard_xor_self. unfold shard_zero. by rewrite length_replicate. Qed.

(** Two sums added position by position. *)
Lemma shard_sum_xor {A} b (f g : A -> shard) l :
  shard_sum b ((fun i => shard_xor (f i) (g i)) <$> l) =
    shard_xor (shard_sum b (f <$> l)) (shard_sum b (g <$> l)).
Proof.
  induction l as [|i l IH]; [symmetry; apply shard_zero_xor|].
  rewrite !fmap_cons, !shard_sum_cons, IH.
  rewrite <- !(assoc shard_xor). f_equal. rewrite !(assoc shard_xor). f_equal.
  apply (comm shard_xor).
Qed.

(** The order of summation does not matter. *)
Lemma shard_sum_swap {A B} b (f : A -> B -> shard) (l : list A) (l' : list B) :
  shard_sum b ((fun i => shard_sum b (f i <$> l')) <$> l) =
    shard_sum b ((fun j => shard_sum b ((fun i => f i j) <$> l)) <$> l').
Proof.
  induction l as [|i l IH]; [|symmetry; rewrite fmap_cons, shard_sum_cons, IH; apply shard_sum_xor].
  induction l' as [|j l' IH']; [done|].
  rewrite fmap_cons, shard_sum_cons, <- IH'. symmetry. apply shard_zero_xor.
Qed.

(** ** Linearity *)

(** The code acts on whole shards: a recovery shard is a sum of multiples of the
    original shards, with coefficients from a field whose multiplication is
    commutative. *)
Class ReedSolomonLinear `(Spec : ReedSolomonSpec) := {
  coefficient : Type;
  simd_matrix : nat -> nat -> nat -> nat -> coefficient;
  scale : coefficient -> shard -> shard;
  length_scale a x : length (scale a x) = length x;
  scale_xor a x y : length x = length y ->
    scale a (shard_xor x y) = shard_xor (scale a x) (scale a y);
  scale_comm a a' x : scale a (scale a' x) = scale a' (scale a x);
  simd_code_linear k r b D j :
    simd_supports k r b = true -> length D = k -> Forall (fun x => length x = b) D ->
    (j < r)%nat ->
    simd_code k r D !!! j =
      shard_sum b ((fun i => scale (simd_matrix k r j i) (D !!! i)) <$> seq 0 k);
}.

Section linear.
Context `{Build} `{Spec : ReedSolomonSpec} `{!ReedSolomonLinear Spec}.

Lemma scale_zero a b : scale a (shard_zero b) = shard_zero b.
Proof.
  rewrite <- (shard_zero_xor b) at 1. rewrite scale_xor by done. rewrite shard_xor_self.
  unfold shard_zero. by rewrite length_scale, length_replicate.
Qed.

Lemma scale_sum a b l : Forall (fun x => length x = b) l ->
  scale a (shard_sum b l) = shard_sum b (scale a <$> l).
Proof.
  induction 1 as [|x l Hx Hl IH]; [apply scale_zero|].
  rewrite fmap_cons, !shard_sum_cons, scale_xor, IH; [done|].
  by rewrite length_shard_sum.
Qed.

Lemma lookup_total_fmap_seq {A} `{Inhabited A} (f : nat -> A) m i : (i < m)%nat ->
  (f <$> seq 0 m) !!! i = f i.
Proof.
  intros Hi. apply list_lookup_total_correct. by rewrite list_lookup_fmap, lookup_seq_lt.
Qed.

Lemma source_fmap_seq k b (f : nat -> shard) : 0 <= k -> 0 <= b ->
  (forall i, (i < Z.to_nat k)%nat -> length (f i) = Z.to_nat b) -> source k b (f <$> seq 0 (Z.to_nat k)).
Proof.
  intros Hk Hb Hf. constructor; [rewrite length_fmap, length_seq; lia|].
  apply Forall_fmap, Forall_forall. intros i Hi%elem_of_seq. apply Hf. lia.
Qed.

(** The repair symbol [j] of the [k] symbols [f]. *)
Definition repair_at (k n : Z) (f : nat -> shard) (j : nat) : shard :=
  repair k n (f <$> seq 0 (Z.to_nat k)) !!! j.

Lemma repair_at_length k n b f j : params k n b ->
  (forall i, (i < Z.to_nat k)%nat -> length (f i) = Z.to_nat b) -> (j < Z.to_nat (n - k))%nat ->
  length (repair_at k n f j) = Z.to_nat b.
Proof.
  intros Hp Hf Hj. pose proof Hp as []. unfold repair_at.
  destruct (repair_spec k n b Hp (f <$> seq 0 (Z.to_nat k))) as [Hl Hs].
  { apply source_fmap_seq; [lia|lia|done]. }
  apply (Forall_lookup_total_1 _ _ _ Hs). lia.
Qed.

Lemma repair_at_linear k n b f j : params k n b ->
  (forall i, (i < Z.to_nat k)%nat -> length (f i) = Z.to_nat b) -> (j < Z.to_nat (n - k))%nat ->
  repair_at k n f j = shard_sum (Z.to_nat b)
    ((fun i => scale (simd_matrix (Z.to_nat k) (Z.to_nat (n - k)) j i) (f i)) <$> seq 0 (Z.to_nat k)).
Proof.
  intros Hp Hf Hj. pose proof Hp as []. unfold repair_at, repair.
  rewrite (simd_code_linear _ _ (Z.to_nat b));
    [|done|by rewrite length_fmap, length_seq|by apply (source_fmap_seq k); [lia|lia|]|done].
  f_equal. apply list_fmap_ext. intros i x Hi. apply lookup_seq in Hi as [-> Hi].
  by rewrite lookup_total_fmap_seq.
Qed.

(** Repairing the rows of a matrix and then a column, or its columns and then a
    row, gives the same symbol. *)
Lemma repair_commutes k1 k2 n b (M : nat -> nat -> shard) i j :
  params k1 n b -> params k2 n b ->
  (forall u v, (u < Z.to_nat k1)%nat -> (v < Z.to_nat k2)%nat -> length (M u v) = Z.to_nat b) ->
  (i < Z.to_nat (n - k1))%nat -> (j < Z.to_nat (n - k2))%nat ->
  repair_at k1 n (fun u => repair_at k2 n (M u) j) i =
  repair_at k2 n (fun v => repair_at k1 n (fun u => M u v) i) j.
Proof.
  intros H1 H2 HM Hi Hj.
  rewrite (repair_at_linear k1 n b) by (try done; intros; apply repair_at_length; auto).
  rewrite (repair_at_linear k2 n b) by (try done; intros; apply repair_at_length; auto).
  transitivity (shard_sum (Z.to_nat b) ((fun u => shard_sum (Z.to_nat b) ((fun v =>
      scale (simd_matrix (Z.to_nat k1) (Z.to_nat (n - k1)) i u)
        (scale (simd_matrix (Z.to_nat k2) (Z.to_nat (n - k2)) j v) (M u v)))
      <$> seq 0 (Z.to_nat k2))) <$> seq 0 (Z.to_nat k1))).
  - f_equal. apply list_fmap_ext. intros u x Hu. apply lookup_seq in Hu as [-> Hu].
    rewrite (repair_at_linear k2 n b) by auto. rewrite scale_sum, <- list_fmap_compose; [done|].
    apply Forall_fmap, Forall_forall. intros v Hv%elem_of_seq. cbn. rewrite length_scale.
    apply HM; lia.
  - rewrite shard_sum_swap. f_equal. apply list_fmap_ext. intros v x Hv.
    apply lookup_seq in Hv as [-> Hv]. rewrite (repair_at_linear k1 n b) by auto.
    rewrite scale_sum, <- list_fmap_compose.
    + f_equal. apply list_fmap_ext. intros u x Hu. cbn. apply scale_comm.
    + apply Forall_fmap, Forall_forall. intros u Hu%elem_of_seq. cbn. rewrite length_scale.
      apply HM; lia.
Qed.

End linear.

(** ** The expanded matrix *)

(** The symbol of the blob at a row and a column of the message matrix, filled
    up with zeros. *)
Definition pad_symbol (b : nat) (x : shard) : shard := x ++ replicate (b - length x) x00.
Definition message (b n_columns : nat) (blob : list byte) (u v : nat) : shard :=
  pad_symbol b (take b (drop (b * (n_columns * u + v)) blob)).

Lemma length_pad_symbol b x : (length x <= b)%nat -> length (pad_symbol b x) = b.
Proof. intros Hx. unfold pad_symbol. rewrite length_app, length_replicate. lia. Qed.

Lemma length_message b n_columns blob u v : length (message b n_columns blob u v) = b.
Proof. apply length_pad_symbol. rewrite length_take. lia. Qed.

Section expanded.
Context `{Build} `{Spec : ReedSolomonSpec} `{!ReedSolomonLinear Spec}.

(** [codeword] on functions: symbol [j] of the code of the [k] symbols [f]. *)
Definition code_at (k n : Z) (f : nat -> shard) (j : nat) : shard :=
  if (j <? Z.to_nat k)%nat then f j else repair_at k n f (j - Z.to_nat k).

(** Row [i], column [j]: the rows of the message matrix are encoded with the
    secondary encoding, then the columns with the primary one. *)
Definition expanded (kp ks n : Z) (M : nat -> nat -> shard) (i j : nat) : shard :=
  code_at kp n (fun u => code_at ks n (M u) j) i.

Lemma repair_at_ext k n f g j :
  (forall i, (i < Z.to_nat k)%nat -> f i = g i) -> repair_at k n f j = repair_at k n g j.
Proof.
  intros Hfg. unfold repair_at. do 2 f_equal. apply list_fmap_ext.
  intros i x Hi. apply lookup_seq in Hi as [-> Hi]. by apply Hfg.
Qed.

Lemma code_at_lt k n f j : (j < Z.to_nat k)%nat -> code_at k n f j = f j.
Proof. intros Hj. unfold code_at. by rewrite (proj2 (Nat.ltb_lt _ _)). Qed.

Lemma code_at_ge k n f j : (Z.to_nat k <= j)%nat ->
  code_at k n f j = repair_at k n f (j - Z.to_nat k).
Proof. intros Hj. unfold code_at. by rewrite (proj2 (Nat.ltb_ge _ _)). Qed.

Lemma code_at_length k n b f j : params k n b ->
  (forall i, (i < Z.to_nat k)%nat -> length (f i) = Z.to_nat b) -> (j < Z.to_nat n)%nat ->
  length (code_at k n f j) = Z.to_nat b.
Proof.
  intros Hp Hf Hj. unfold code_at. destruct (Nat.ltb_spec j (Z.to_nat k)); [by apply Hf|].
  apply repair_at_length; [done|done|]. destruct Hp. lia.
Qed.

Lemma codeword_fmap k n b f : params k n b ->
  (forall i, (i < Z.to_nat k)%nat -> length (f i) = Z.to_nat b) ->
  codeword k n (f <$> seq 0 (Z.to_nat k)) = code_at k n f <$> seq 0 (Z.to_nat n).
Proof.
  intros Hp Hf. pose proof Hp as []. unfold codeword.
  assert (source k b (f <$> seq 0 (Z.to_nat k))) as HD by (apply source_fmap_seq; lia || done).
  destruct (repair_spec k n b Hp _ HD) as [Hl _].
  replace (Z.to_nat n) with (Z.to_nat k + Z.to_nat (n - k))%nat by lia.
  rewrite seq_app, fmap_app. f_equal.
  - apply list_fmap_ext. intros i x Hi. apply lookup_seq in Hi as [-> Hi]. unfold code_at.
    by rewrite (proj2 (Nat.ltb_lt _ _)).
  - apply list_eq_same_length with (n := Z.to_nat (n - k)); [by rewrite length_fmap, length_seq|lia|].
    intros j x y Hj Hx Hy. apply list_lookup_total_correct in Hx as <-.
    rewrite list_lookup_fmap, lookup_seq_lt in Hy by done. injection Hy as <-. unfold code_at.
    rewrite (proj2 (Nat.ltb_ge _ _)) by lia. unfold repair_at. f_equal. lia.
Qed.

Context (kp ks n b : Z) (Hkp : params kp n b) (Hks : params ks n b).
Context (M : nat -> nat -> shard).
Hypothesis HM : forall u v, (u < Z.to_nat kp)%nat -> (v < Z.to_nat ks)%nat ->
  length (M u v) = Z.to_nat b.
Let X := expanded kp ks n M.

Lemma expanded_length i j : (i < Z.to_nat n)%nat -> (j < Z.to_nat n)%nat ->
  length (X i j) = Z.to_nat b.
Proof.
  intros Hi Hj. apply code_at_length; [done| |done]. intros u Hu.
  apply code_at_length; [done| |done]. intros v Hv. by apply HM.
Qed.

(** The message matrix is the upper left part. *)
Lemma expanded_systematic i j : (i < Z.to_nat kp)%nat -> (j < Z.to_nat ks)%nat -> X i j = M i j.
Proof.
  intros Hi Hj. unfold X, expanded, code_at. by rewrite !(proj2 (Nat.ltb_lt _ _)).
Qed.

(** Every column is a codeword of the primary encoding. *)
Lemma expanded_column j : (j < Z.to_nat n)%nat ->
  codeword kp n ((fun i => X i j) <$> seq 0 (Z.to_nat kp)) =
    (fun i => X i j) <$> seq 0 (Z.to_nat n).
Proof.
  intros Hj. rewrite (codeword_fmap kp n b) by
    (done || (intros i Hi; apply expanded_length; destruct Hkp; lia)).
  apply list_fmap_ext. intros i x Hi. apply lookup_seq in Hi as [-> Hi].
  cbn [Nat.add]. unfold X, expanded. destruct (Nat.lt_ge_cases i (Z.to_nat kp)).
  - by rewrite !(code_at_lt kp).
  - rewrite !(code_at_ge kp) by done. apply repair_at_ext. intros u Hu. by rewrite (code_at_lt kp).
Qed.

(** Every row, also of repair symbols, is a codeword of the secondary one. *)
Lemma expanded_row i : (i < Z.to_nat n)%nat ->
  codeword ks n ((fun j => X i j) <$> seq 0 (Z.to_nat ks)) =
    (fun j => X i j) <$> seq 0 (Z.to_nat n).
Proof.
  intros Hi. rewrite (codeword_fmap ks n b) by
    (done || (intros j Hj; apply expanded_length; destruct Hks; lia)).
  apply list_fmap_ext. intros j x Hj. apply lookup_seq in Hj as [-> Hj].
  cbn [Nat.add]. unfold X, expanded. destruct (Nat.lt_ge_cases j (Z.to_nat ks)) as [|Hge];
    [by rewrite (code_at_lt ks)|].
  rewrite (code_at_ge ks) by done. destruct (Nat.lt_ge_cases i (Z.to_nat kp)) as [Hlt|Hge'].
  - rewrite (code_at_lt kp), (code_at_ge ks) by done. apply repair_at_ext. intros v Hv.
    by rewrite (code_at_lt kp), (code_at_lt ks).
  - rewrite (code_at_ge kp) by done.
    transitivity (repair_at ks n (fun v => repair_at kp n (fun u => M u v) (i - Z.to_nat kp))
                    (j - Z.to_nat ks)).
    + apply repair_at_ext. intros v Hv. rewrite (code_at_ge kp) by done.
      apply repair_at_ext. intros u Hu. by rewrite code_at_lt.
    + rewrite <- (repair_commutes kp ks n b) by (try done; destruct Hkp, Hks; lia).
      apply repair_at_ext. intros u Hu. by rewrite code_at_ge.
Qed.

End expanded.

(** ** Slivers of a code matrix *)

(** Symbol [j] of the expanded sliver [i] on axis [a]: a row or a column. *)
Definition line (a : Axis) (X : nat -> nat -> shard) (i j : nat) : shard :=
  match a with Primary => X i j | Secondary => X j i end.

Lemma line_orthogonal a X i j : line (orthogonal a) X i j = line a X j i.
Proof. by destruct a. Qed.

Section code_matrix.
Context `{Build} `{Spec : ReedSolomonSpec} `{EncodingFactory C}.

(** The number of symbols of a sliver of axis [a]. *)
Definition sliver_symbols_count (a : Axis) (c : C) : nat :=
  Z.to_nat (n_source_symbols (orthogonal a) c).

(** A matrix of [n_shards] rows and columns in which every row and every column
    is a codeword. *)
Record code_matrix (c : C) (b : Z) (X : nat -> nat -> shard) : Prop := {
  code_matrix_length i j : (i < Z.to_nat (n_shards c))%nat -> (j < Z.to_nat (n_shards c))%nat ->
    length (X i j) = Z.to_nat b;
  code_matrix_line a i : (i < Z.to_nat (n_shards c))%nat ->
    codeword (n_source_symbols (orthogonal a) c) (n_shards c)
      (line a X i <$> seq 0 (sliver_symbols_count a c)) =
    line a X i <$> seq 0 (Z.to_nat (n_shards c));
}.

Lemma expanded_code_matrix `{!ReedSolomonLinear Spec} (c : C) b M :
  (forall a, axis_params a c b) ->
  (forall u v, length (M u v) = Z.to_nat b) ->
  code_matrix c b (expanded (n_source_symbols Primary c) (n_source_symbols Secondary c)
                     (n_shards c) M).
Proof.
  intros Hp HM. pose proof (Hp Primary) as Hp1. pose proof (Hp Secondary) as Hp2.
  constructor.
  - intros i j Hi Hj. by eapply expanded_length.
  - intros [] i Hi; cbn [orthogonal line]; unfold sliver_symbols_count; cbn [orthogonal].
    + by eapply expanded_row.
    + by eapply expanded_column.
Qed.

End code_matrix.
