(* ===== verification/RecoverySymbols.v ===== *)
(** * Recovery symbols

    Models the recovery symbols of encoding/symbols.rs and the symbol
    identifier of lib.rs: a decoding symbol with the Merkle proof that it was
    computed from a committed sliver, its verification against the metadata,
    and the general symbol that serves both slivers it lies on.  A type
    parameter [T: EncodingAxis] of the code is an argument of type [Axis]; it is
    the axis of the sliver that can be recovered. *)

From S2P Require Import Prelude Core EncodingConfig Symbols Merkle Metadata.

(** [SymbolId]: the primary and the secondary sliver a symbol lies on. *)
Record SymbolId := { primary_sliver_index : SliverIndex; secondary_sliver_index : SliverIndex }.

Definition symbol_id_sliver_index (i : SymbolId) (sliver_type : Axis) : SliverIndex :=
  match sliver_type with
  | Primary => primary_sliver_index i
  | Secondary => secondary_sliver_index i
  end.

Inductive SymbolVerificationError :=
| SymbolIndexTooLarge
| SymbolVerifySizeMismatch
| InvalidProof (e : MerkleProofError)
| InvalidMetadata
| SymbolNotUsable.

(** [RecoverySymbol<T, MerkleProof>]. *)
Record RecoverySymbol := { rsym_symbol : DecodingSymbol; rsym_proof : MerkleProof }.

Definition with_proof (s : DecodingSymbol) (p : MerkleProof) : RecoverySymbol :=
  {| rsym_symbol := s; rsym_proof := p |}.

(** [EitherDecodingSymbol], a [ByAxis]: the axis of the sliver to recover, and
    the symbol. *)
Inductive EitherDecodingSymbol :=
| PrimarySymbol (s : DecodingSymbol)
| SecondarySymbol (s : DecodingSymbol).

Definition either_symbol (e : EitherDecodingSymbol) : DecodingSymbol :=
  match e with PrimarySymbol s | SecondarySymbol s => s end.

(** [EitherDecodingSymbol::source_type]. *)
Definition source_type (e : EitherDecodingSymbol) : Axis :=
  match e with PrimarySymbol _ => Secondary | SecondarySymbol _ => Primary end.

Definition source_index (e : EitherDecodingSymbol) : SliverIndex :=
  mk_sliver_index (ds_index (either_symbol e)).

(** [From<DecodingSymbol<T>> for EitherDecodingSymbol]. *)
Definition into_either (a : Axis) (s : DecodingSymbol) : EitherDecodingSymbol :=
  match a with Primary => PrimarySymbol s | Secondary => SecondarySymbol s end.

Record GeneralRecoverySymbol := {
  gs_symbol : EitherDecodingSymbol;
  gs_target_index : SliverIndex;
  gs_proof : MerkleProof;
}.

(** [GeneralRecoverySymbol::id]. *)
Definition general_symbol_id (g : GeneralRecoverySymbol) : SymbolId :=
  match gs_symbol g with
  | PrimarySymbol s =>
    {| primary_sliver_index := gs_target_index g;
       secondary_sliver_index := mk_sliver_index (ds_index s) |}
  | SecondarySymbol s =>
    {| primary_sliver_index := mk_sliver_index (ds_index s);
       secondary_sliver_index := gs_target_index g |}
  end.

Definition proof_axis (g : GeneralRecoverySymbol) : Axis :=
  match gs_symbol g with PrimarySymbol _ => Secondary | SecondarySymbol _ => Primary end.

Definition from_recovery_symbol (a : Axis) (s : RecoverySymbol) (target_index : SliverIndex) :
    GeneralRecoverySymbol :=
  {| gs_symbol := into_either a (rsym_symbol s); gs_target_index := target_index;
     gs_proof := rsym_proof s |}.

(** [From<GeneralRecoverySymbol> for DecodingSymbol<Primary>]. *)
Definition general_to_primary (g : GeneralRecoverySymbol) : DecodingSymbol :=
  match gs_symbol g with
  | PrimarySymbol s => s
  | SecondarySymbol s =>
    mk_decoding_symbol (sliver_index_get (gs_target_index g)) (ds_data s)
  end.

(** [From<GeneralRecoverySymbol> for DecodingSymbol<Secondary>]. *)
Definition general_to_secondary (g : GeneralRecoverySymbol) : DecodingSymbol :=
  match gs_symbol g with
  | SecondarySymbol s => s
  | PrimarySymbol s =>
    mk_decoding_symbol (sliver_index_get (gs_target_index g)) (ds_data s)
  end.

Section verification.
Context `{Build} `{HashFunction}.

(** [RecoverySymbol::verify_proof]. *)
Definition symbol_verify_proof (s : RecoverySymbol) (root : Node) (total_leaf_count target_index : nat) :
    outcome MerkleProofError unit :=
  verify_proof (rsym_proof s) root total_leaf_count (ds_data (rsym_symbol s)) target_index.

(** [RecoverySymbol::verify]. *)
Definition symbol_verify (a : Axis) (s : RecoverySymbol) (n_shards : Z)
    (expected_symbol_size : nat) (m : BlobMetadata) (target_index : SliverIndex) :
    outcome SymbolVerificationError unit :=
  if n_shards <=? ds_index (rsym_symbol s) then Err SymbolIndexTooLarge else
  if negb (length (ds_data (rsym_symbol s)) =? expected_symbol_size)%nat
  then Err SymbolVerifySizeMismatch else
  pair ← to_pair_index_of_sliver (orthogonal a)
           (mk_sliver_index (ds_index (rsym_symbol s))) n_shards;
  root ← ok_or (get_sliver_hash m pair (orthogonal a)) InvalidMetadata;
  map_err InvalidProof
    (symbol_verify_proof s root (Z.to_nat n_shards) (Z.to_nat (sliver_index_get target_index))).

(** [GeneralRecoverySymbol::get_expected_root]. *)
Definition get_expected_root {E} (g : GeneralRecoverySymbol) (m : BlobMetadata) (n_shards : Z) :
    outcome E (option Node) :=
  let source_sliver_type := source_type (gs_symbol g) in
  pair ← to_pair_index_of_sliver source_sliver_type (source_index (gs_symbol g)) n_shards;
  Ok (get_sliver_hash m pair source_sliver_type).

(** [GeneralRecoverySymbol::verify]. *)
Definition general_symbol_verify (g : GeneralRecoverySymbol) (m : BlobMetadata)
    (encoding_config : EncodingConfig) (target_index : SliverIndex) (target_type : Axis) :
    outcome SymbolVerificationError unit :=
  let n_shards := ec_n_shards encoding_config in
  let symbol := either_symbol (gs_symbol g) in
  ensure (ds_index symbol <? n_shards) SymbolIndexTooLarge;;
  ensure (sliver_index_get (gs_target_index g) <? n_shards) SymbolIndexTooLarge;;
  size ← ok (md_symbol_size m encoding_config);
  ensure (match size with Some s => len (ds_data symbol) =? s | None => false end)
    SymbolVerifySizeMismatch;;
  ensure ((negb (bool_decide (source_type (gs_symbol g) = target_type))
           && bool_decide (gs_target_index g = target_index))
          || bool_decide (source_index (gs_symbol g) = target_index)) SymbolNotUsable;;
  r ← get_expected_root g m n_shards;
  expected_root ← ok_or r InvalidMetadata;
  map_err InvalidProof
    (verify_proof (gs_proof g) expected_root (Z.to_nat n_shards) (ds_data symbol)
       (Z.to_nat (sliver_index_get (gs_target_index g)))).

End verification.
