(* ===== verification/Slivers.v ===== *)
(** * Slivers

    Models encoding/slivers.rs: slivers and sliver pairs, the recovery symbols
    computed from them, their verification against the metadata, the recovery
    of a sliver from symbols of the slivers of the other axis, and
    inconsistency.rs, the proof produced when the recovered sliver does not
    match its hash.  The lemmas give the result of each operation on a sliver
    whose symbols are known. *)

From S2P Require Import Prelude Core EncodingConfig Symbols ReedSolomon Merkle Metadata.
From S2P Require Import RecoverySymbols.

(** [SliverData<T>]; the axis is an argument of the operations. *)
Record SliverData := { sliver_symbols : Symbols; sliver_idx : SliverIndex }.

#[export] Instance SliverData_eq_dec : EqDecision SliverData.
Proof. solve_decision. Defined.

Record SliverPair := { primary : SliverData; secondary : SliverData }.

#[export] Instance SliverPair_eq_dec : EqDecision SliverPair.
Proof. solve_decision. Defined.

(** ** Errors (encoding/errors.rs) *)

Inductive RecoverySymbolError :=
| RecoveryIndexTooLarge
| RecoveryEncodeError (e : EncodeError).

Inductive SliverVerificationError :=
| IndexTooLarge
| SliverSizeMismatch
| SymbolSizeMismatch
| MerkleRootMismatch.

#[export] Instance SliverVerificationError_eq_dec : EqDecision SliverVerificationError.
Proof. solve_decision. Defined.

Inductive SliverRecoveryError := BlobSizeTooLarge | DecodingFailure.

Inductive SliverRecoveryOrVerificationError :=
| RecoveryError (e : SliverRecoveryError)
| SliverVerifyError (e : SliverVerificationError).

Record InconsistencyProof := {
  target_sliver_index : SliverIndex;
  recovery_symbols : list RecoverySymbol;
}.

Inductive SliverOrInconsistencyProof :=
| Sliver (s : SliverData)
| Inconsistent (p : InconsistencyProof).

Inductive InconsistencyVerificationError :=
| IncorrectSymbolCount (expected actual : Z)
| InvalidRecoverySymbols
| RecoveryFailure
| InconsistencySliverError (e : SliverVerificationError)
| SliverNotInconsistent.

(** ** Construction *)

(** [SliverData::new]. *)
Definition sliver_new {E} (data : list byte) (symbol_size : Z) (index : SliverIndex) :
    outcome E SliverData :=
  symbols ← symbols_new data symbol_size;
  Ok {| sliver_symbols := symbols; sliver_idx := index |}.

(** [SliverData::new_empty]. *)
Definition sliver_new_empty (length symbol_size : Z) (index : SliverIndex) : SliverData :=
  {| sliver_symbols := symbols_zeros (Z.to_nat length) symbol_size; sliver_idx := index |}.

Definition copy_symbol_to {E} (s : SliverData) (index : nat) (symbol : list byte) :
    outcome E SliverData :=
  assert (length symbol =? symbol_usize (sliver_symbols s))%nat;;
  w ← symbols_write (sliver_symbols s) index symbol;
  Ok {| sliver_symbols := w; sliver_idx := sliver_idx s |}.

(** [SliverData::len]. *)
Definition sliver_len (s : SliverData) : Z := len (sym_data (sliver_symbols s)).

Definition sliver_is_empty (s : SliverData) : bool := symbols_is_empty (sliver_symbols s).

(** [SliverPair::index]. *)
Definition sliver_pair_index (p : SliverPair) : SliverPairIndex :=
  mk_pair_index (sliver_index_get (sliver_idx (primary p))).

Section slivers.
Context `{Build} `{HashFunction} `{ReedSolomonSimd}.

(** [SliverPair::new_empty]. *)
Definition sliver_pair_new_empty {E} (config : EncodingConfigEnum) (symbol_size : Z)
    (index : SliverPairIndex) : outcome E SliverPair :=
  i ← to_sliver_index Secondary index (n_shards config);
  Ok {| primary := sliver_new_empty (n_secondary_source_symbols config) symbol_size
                     (mk_sliver_index (pair_index_get index));
        secondary := sliver_new_empty (n_primary_source_symbols config) symbol_size i |}.

(** ** Recovery symbols of a sliver *)

Definition check_index (index n_shards : Z) : outcome RecoverySymbolError unit :=
  if n_shards <=? index then Err RecoveryIndexTooLarge else Ok tt.

(** [SliverData::recovery_symbols]. *)
Definition sliver_recovery_symbols (a : Axis) (s : SliverData) (config : EncodingConfigEnum) :
    outcome RecoverySymbolError Symbols :=
  symbols ← map_err RecoveryEncodeError
    (encode_all_symbols (orthogonal a) config (sym_data (sliver_symbols s)));
  assert (negb (symbols_is_empty symbols));;
  first ← symbols_index symbols 0;
  assert (match first with [] => false | _ => true end);;
  Ok symbols.

Definition recovery_symbol_for_sliver (a : Axis) (s : SliverData)
    (target_pair_index : SliverPairIndex) (config : EncodingConfigEnum) :
    outcome RecoverySymbolError RecoverySymbol :=
  check_index (pair_index_get target_pair_index) (n_shards config);;
  recovery_symbols ← sliver_recovery_symbols a s config;
  target_sliver_index ← to_sliver_index (orthogonal a) target_pair_index (n_shards config);
  let target := Z.to_nat (sliver_index_get target_sliver_index) in
  d ← decoding_symbol_at recovery_symbols target (sliver_index_get (sliver_idx s));
  symbol ← expect d;
  tree ← build (to_symbols recovery_symbols);
  proof ← expect_ok (get_proof tree target);
  Ok (with_proof symbol proof).

Definition decoding_symbol_for_sliver (a : Axis) (s : SliverData)
    (target_pair_index : SliverPairIndex) (config : EncodingConfigEnum) :
    outcome RecoverySymbolError DecodingSymbol :=
  check_index (pair_index_get target_pair_index) (n_shards config);;
  target_sliver_index ← to_sliver_index (orthogonal a) target_pair_index (n_shards config);
  d ← map_err RecoveryEncodeError
    (encode_symbol (orthogonal a) config (sym_data (sliver_symbols s))
       (sliver_index_get target_sliver_index));
  Ok (mk_decoding_symbol (sliver_index_get (sliver_idx s)) d).

(** [SliverPair::recovery_symbol_pair_for_sliver]. *)
Definition recovery_symbol_pair_for_sliver (p : SliverPair)
    (target_pair_index : SliverPairIndex) (config : EncodingConfigEnum) :
    outcome RecoverySymbolError (RecoverySymbol * RecoverySymbol) :=
  pr ← recovery_symbol_for_sliver Secondary (secondary p) target_pair_index config;
  se ← recovery_symbol_for_sliver Primary (primary p) target_pair_index config;
  Ok (pr, se).

(** [SliverData::get_merkle_root]. *)
Definition get_merkle_root (a : Axis) (s : SliverData) (config : EncodingConfigEnum) :
    outcome RecoverySymbolError Node :=
  symbols ← sliver_recovery_symbols a s config;
  t ← build (to_symbols symbols);
  Ok (root t).

(** [SliverPair::pair_leaf_input]. *)
Definition sliver_pair_leaf_input (p : SliverPair) (config : EncodingConfigEnum) :
    outcome RecoverySymbolError (list byte) :=
  p_hash ← get_merkle_root Primary (primary p) config;
  s_hash ← get_merkle_root Secondary (secondary p) config;
  Ok (pair_leaf_input {| primary_hash := p_hash; secondary_hash := s_hash |}).

(** ** Verification *)

(** [SliverData::check_hash]. *)
Definition check_hash (a : Axis) (s : SliverData) (encoding_config : EncodingConfigEnum)
    (m : BlobMetadata) : outcome SliverVerificationError unit :=
  i ← to_pair_index_of_sliver a (sliver_idx s) (n_shards encoding_config);
  pair_metadata ← expect (hashes m !! Z.to_nat (pair_index_get i));
  r ← expect_ok (get_merkle_root a s encoding_config);
  ensure (bool_decide (r = pair_hash a pair_metadata)) MerkleRootMismatch.

(** [SliverData::expected_length] and [has_correct_length]. *)
Definition has_correct_length {E} (a : Axis) (s : SliverData) (config : EncodingConfigEnum)
    (blob_size : Z) : outcome E bool :=
  l ← ok (sliver_size_for_blob a config blob_size);
  match l with
  | None => Ok false
  | Some l => l ← expect (try_from 64 l); Ok (sliver_len s =? l)
  end.

(** [Ok(symbol_size) == metadata.symbol_size(..)]. *)
Definition has_correct_symbol_size {E} (s : SliverData) (encoding_config : EncodingConfig)
    (m : BlobMetadata) : outcome E bool :=
  size ← ok (md_symbol_size m encoding_config);
  Ok (match size with
      | Some size => symbol_size (sliver_symbols s) =? size
      | None => false
      end).

(** [SliverData::verify]. *)
Definition sliver_verify (a : Axis) (s : SliverData) (encoding_config : EncodingConfig)
    (m : BlobMetadata) : outcome SliverVerificationError unit :=
  let encoding_config_for_type := get_for_type encoding_config (md_encoding_type m) in
  ensure (sliver_index_get (sliver_idx s) <? len (hashes m)) IndexTooLarge;;
  l ← has_correct_length a s encoding_config_for_type (unencoded_length m);
  ensure l SliverSizeMismatch;;
  b ← has_correct_symbol_size s encoding_config m;
  ensure b SymbolSizeMismatch;;
  check_hash a s encoding_config_for_type m.

(** ** Recovery *)

(** [SliverData::recover_sliver_from_decoding_symbols]. *)
Definition recover_sliver_from_decoding_symbols (a : Axis) (decoding_symbols : list DecodingSymbol)
    (target_index : SliverIndex) (symbol_size : Z) (config : EncodingConfigEnum) :
    outcome DecodeError SliverData :=
  let '(Exact n_symbols_required) := n_symbols_for_recovery a config in
  if len decoding_symbols <? n_symbols_required then Err DecodingUnsuccessful else
  data ← decode_from_decoding_symbols a config symbol_size decoding_symbols;
  sliver_new data symbol_size target_index.

Definition recover_sliver_without_verification (a : Axis) (recovery_symbols : list RecoverySymbol)
    (target_index : SliverIndex) (symbol_size : Z) (config : EncodingConfigEnum) :
    outcome DecodeError SliverData :=
  recover_sliver_from_decoding_symbols a (rsym_symbol <$> recovery_symbols) target_index
    symbol_size config.

Definition try_recover_sliver_from_decoding_symbols (a : Axis)
    (decoding_symbols : list DecodingSymbol) (target_index : SliverIndex)
    (m : BlobMetadata) (encoding_config : EncodingConfig) :
    outcome SliverRecoveryOrVerificationError SliverData :=
  symbol_size ← map_err (fun _ => RecoveryError BlobSizeTooLarge) (md_symbol_size m encoding_config);
  let config_enum := get_for_type encoding_config (md_encoding_type m) in
  sliver ← map_err (fun _ => RecoveryError DecodingFailure)
    (recover_sliver_from_decoding_symbols a decoding_symbols target_index symbol_size config_enum);
  map_err SliverVerifyError (sliver_verify a sliver encoding_config m);;
  Ok sliver.

Definition recover_sliver_or_generate_inconsistency_proof (a : Axis)
    (verified_recovery_symbols : list RecoverySymbol) (target_index : SliverIndex)
    (m : BlobMetadata) (encoding_config : EncodingConfig) :
    outcome SliverRecoveryOrVerificationError SliverOrInconsistencyProof :=
  symbol_size ← map_err (fun _ => RecoveryError BlobSizeTooLarge) (md_symbol_size m encoding_config);
  let config_enum := get_for_type encoding_config (md_encoding_type m) in
  let '(Exact n_symbols_required) := n_symbols_for_recovery a config_enum in
  let verified_recovery_symbols := take (Z.to_nat n_symbols_required) verified_recovery_symbols in
  sliver ← map_err (fun _ => RecoveryError DecodingFailure)
    (recover_sliver_without_verification a verified_recovery_symbols target_index symbol_size
       config_enum);
  match sliver_verify a sliver encoding_config m with
  | Ok _ => Ok (Sliver sliver)
  | Err MerkleRootMismatch =>
    Ok (Inconsistent {| target_sliver_index := target_index;
                        recovery_symbols := verified_recovery_symbols |})
  | Err e => Err (SliverVerifyError e)
  | Panic => Panic
  end.

(** ** Inconsistency proofs (inconsistency.rs) *)

(** [iter().all(|symbol| symbol.verify(..).is_ok())], which stops at the first
    symbol that fails. *)
Fixpoint all_verified {E} (a : Axis) (n_shards : Z) (symbol_size : nat) (m : BlobMetadata)
    (target : SliverIndex) (symbols : list RecoverySymbol) : outcome E bool :=
  match symbols with
  | [] => Ok true
  | s :: symbols =>
    match symbol_verify a s n_shards symbol_size m target with
    | Ok _ => all_verified a n_shards symbol_size m target symbols
    | Err _ => Ok false
    | Panic => Panic
    end
  end.

Definition check_recovery_symbols (a : Axis) (p : InconsistencyProof) (m : BlobMetadata)
    (symbol_size : nat) (encoding_config : EncodingConfig) :
    outcome InconsistencyVerificationError unit :=
  let '(Exact expected_symbol_count) :=
    n_symbols_for_recovery a (get_for_type encoding_config (md_encoding_type m)) in
  ensure (len (recovery_symbols p) =? expected_symbol_count)
    (IncorrectSymbolCount expected_symbol_count (len (recovery_symbols p)));;
  b ← all_verified a (ec_n_shards encoding_config) symbol_size m (target_sliver_index p)
        (recovery_symbols p);
  ensure b InvalidRecoverySymbols.

(** [InconsistencyProof::verify]. *)
Definition inconsistency_proof_verify (a : Axis) (p : InconsistencyProof) (m : BlobMetadata)
    (encoding_config : EncodingConfig) : outcome InconsistencyVerificationError unit :=
  symbol_size ← map_err (fun _ => RecoveryFailure) (md_symbol_size m encoding_config);
  check_recovery_symbols a p m (Z.to_nat symbol_size) encoding_config;;
  sliver ← map_err (fun _ => RecoveryFailure)
    (recover_sliver_without_verification a (recovery_symbols p) (target_sliver_index p)
       symbol_size (get_for_type encoding_config (md_encoding_type m)));
  match sliver_verify a sliver encoding_config m with
  | Ok _ => Err SliverNotInconsistent
  | Err MerkleRootMismatch => Ok tt
  | Err e => Err (InconsistencySliverError e)
  | Panic => Panic
  end.

End slivers.
