(* ===== verification/SliverProps.v ===== *)
(** * Slivers of a consistent blob

    A blob is committed when its metadata holds the Merkle roots of the rows and
    columns of a code matrix ([committed]); [BlobEncoder] shows that this is
    what encoding produces.  For a committed blob: every sliver passes
    verification, the recovery symbols computed from a sliver verify for their
    target, enough verified symbols recover exactly the target sliver, and no
    inconsistency proof is accepted.  The last two rest on Merkle proofs being
    binding, that is, on the absence of hash collisions among the strings
    hashed. *)

From S2P Require Import Prelude Core EncodingConfig Symbols ReedSolomon ProductCode Merkle.
From S2P Require Import Metadata RecoverySymbols Slivers.

(** The configuration of [n] shards, in its two forms. *)
Definition enum_of (n : Z) : EncodingConfigEnum := ReedSolomon (rs_config_of n).
Definition config_of (n : Z) : EncodingConfig :=
  {| ec_n_shards := n; reed_solomon := rs_config_of n |}.

Section committed.
Context `{Build} `{HashFunction} `{Spec : ReedSolomonSpec}.
Context (n b : Z) (Hn : is_nzu16 n).
Let c := enum_of n.
Context (Hp : forall a, axis_params a c b).
Implicit Types (X : nat -> nat -> shard) (a : Axis).

(** The sliver [i] of axis [a], its expanded symbols and its hash. *)
Definition sliver_of X a (i : Z) : SliverData :=
  {| sliver_symbols := of_symbols b (line a X (Z.to_nat i) <$> seq 0 (sliver_symbols_count a c));
     sliver_idx := mk_sliver_index i |}.

Definition expanded_sliver X a (i : Z) : list shard :=
  line a X (Z.to_nat i) <$> seq 0 (Z.to_nat n).

Definition hash_of X a (i : Z) : Node := merkle_root (leaf_hash <$> expanded_sliver X a i).

Definition hashes_of X : list SliverPairMetadata :=
  (fun i => {| primary_hash := hash_of X Primary (Z.of_nat i);
               secondary_hash := hash_of X Secondary (n - 1 - Z.of_nat i) |})
  <$> seq 0 (Z.to_nat n).

(** The metadata commits to the matrix. *)
Record committed (m : BlobMetadata) X : Prop := {
  committed_matrix : code_matrix c b X;
  committed_hashes : hashes m = hashes_of X;
  committed_size : symbol_size_for_blob c (unencoded_length m) = Ok b;
}.

Lemma symbols_count_pos a : (0 < sliver_symbols_count a c)%nat /\
  (sliver_symbols_count a c <= Z.to_nat n)%nat.
Proof.
  destruct (Hp (orthogonal a)) as [Hk _ _ _ _]. unfold sliver_symbols_count.
  change (n_shards c) with n in Hk. lia.
Qed.

Lemma length_expanded_sliver X a i : length (expanded_sliver X a i) = Z.to_nat n.
Proof. unfold expanded_sliver. by rewrite length_fmap, length_seq. Qed.

Lemma expanded_sliver_lookup X a i j : (j < Z.to_nat n)%nat ->
  expanded_sliver X a i !! j = Some (line a X (Z.to_nat i) j).
Proof. intros Hj. unfold expanded_sliver. by rewrite list_lookup_fmap, lookup_seq_lt. Qed.

(** Any sliver of complete symbols is encoded. *)
Lemma sliver_encode_ok a s D : sliver_symbols s = of_symbols b D ->
  source (n_source_symbols (orthogonal a) c) b D ->
  sliver_recovery_symbols a s c =
    Ok (of_symbols b (codeword (n_source_symbols (orthogonal a) c) n D)).
Proof.
  intros Hs HD. unfold sliver_recovery_symbols. rewrite Hs. cbn [of_symbols sym_data].
  rewrite (encode_all_symbols_ok (orthogonal a) c b (Hp _)) by done.
  cbn [map_err mbind outcome_bind]. change (n_shards c) with n.
  destruct (params_positive _ _ _ (Hp (orthogonal a))) as [Hk Hb].
  destruct (codeword_spec _ _ _ (Hp (orthogonal a)) D HD) as [Hl Hsz].
  change (n_shards c) with n in Hl, Hsz. destruct (Hp (orthogonal a)) as [Hkn _ _ _ _].
  change (n_shards c) with n in Hkn.
  destruct (codeword (n_source_symbols (orthogonal a) c) n D) as [|x l]; [cbn in Hl; lia|].
  rewrite (symbols_index_of b Hb _ 0 x) by done. apply Forall_cons in Hsz as [Hx _].
  unfold symbols_is_empty. cbn [sym_data of_symbols concat].
  destruct x; [cbn in Hx; lia|done].
Qed.

Lemma sliver_root_ok a s D : sliver_symbols s = of_symbols b D ->
  source (n_source_symbols (orthogonal a) c) b D ->
  get_merkle_root a s c =
    Ok (merkle_root (leaf_hash <$> codeword (n_source_symbols (orthogonal a) c) n D)).
Proof.
  intros Hs HD. unfold get_merkle_root. rewrite (sliver_encode_ok a s D Hs HD).
  cbn [mbind outcome_bind]. destruct (params_positive _ _ _ (Hp (orthogonal a))) as [_ Hb].
  destruct (codeword_spec _ _ _ (Hp (orthogonal a)) D HD) as [_ Hsz].
  rewrite to_symbols_of by done. apply build_root_eq.
Qed.

Section matrix.
Context (X : nat -> nat -> shard) (HX : code_matrix c b X).

Lemma line_length a i j : (i < Z.to_nat n)%nat -> (j < Z.to_nat n)%nat ->
  length (line a X i j) = Z.to_nat b.
Proof. intros Hi Hj. destruct a; by apply (code_matrix_length _ _ _ HX). Qed.

Lemma sliver_source a i : 0 <= i < n ->
  source (n_source_symbols (orthogonal a) c) b
    (line a X (Z.to_nat i) <$> seq 0 (sliver_symbols_count a c)).
Proof.
  intros Hi. destruct (Hp (orthogonal a)) as [Hk _ Hb _ _].
  change (n_shards c) with n in Hk. apply source_fmap_seq; [lia|lia|]. intros j Hj.
  apply line_length; lia.
Qed.

Lemma expanded_sliver_sized a i : 0 <= i < n -> sized b (expanded_sliver X a i).
Proof.
  intros Hi. apply Forall_fmap, Forall_forall. intros j Hj%elem_of_seq. cbn.
  apply line_length; lia.
Qed.

Lemma sliver_codeword a i : 0 <= i < n ->
  codeword (n_source_symbols (orthogonal a) c) n
    (line a X (Z.to_nat i) <$> seq 0 (sliver_symbols_count a c)) = expanded_sliver X a i.
Proof. intros Hi. apply (code_matrix_line _ _ _ HX a). change (n_shards c) with n. lia. Qed.

(** Encoding a sliver yields its expanded symbols. *)
Lemma sliver_recovery_symbols_ok a i : 0 <= i < n ->
  sliver_recovery_symbols a (sliver_of X a i) c = Ok (of_symbols b (expanded_sliver X a i)).
Proof.
  intros Hi. rewrite (sliver_encode_ok a (sliver_of X a i) _ eq_refl) by by apply sliver_source.
  by rewrite sliver_codeword.
Qed.

Lemma get_merkle_root_ok a i : 0 <= i < n ->
  get_merkle_root a (sliver_of X a i) c = Ok (hash_of X a i).
Proof.
  intros Hi. rewrite (sliver_root_ok a (sliver_of X a i) _ eq_refl) by by apply sliver_source.
  by rewrite sliver_codeword.
Qed.

End matrix.

(** ** Verification of slivers *)

Section metadata.
Context (m : BlobMetadata) (X : nat -> nat -> shard) (HC : committed m X).
Let HX : code_matrix c b X := committed_matrix _ _ HC.

Lemma length_hashes : len (hashes m) = n.
Proof.
  rewrite (committed_hashes _ _ HC). unfold hashes_of. rewrite length_fmap, length_seq.
  unfold is_nzu in Hn. lia.
Qed.

Lemma pair_index_lookup {E} a i : 0 <= i < n ->
  exists j h, to_pair_index_of_sliver (E:=E) a (mk_sliver_index i) n = Ok (mk_pair_index j) /\
    0 <= j < n /\ hashes m !! Z.to_nat j = Some h /\ pair_hash a h = hash_of X a i.
Proof.
  intros Hi. unfold is_nzu in Hn.
  rewrite to_pair_index_of_sliver_eq by (cbn [sliver_index_get]; lia).
  cbn [sliver_index_get]. rewrite (committed_hashes _ _ HC). unfold hashes_of.
  destruct a; cbn [is_primary]; eexists _, _; (split; [done|]).
  - rewrite list_lookup_fmap, lookup_seq_lt by lia. split; [lia|]. split; [done|].
    cbn. by rewrite Z2Nat.id by lia.
  - rewrite list_lookup_fmap, lookup_seq_lt by lia. split; [lia|]. split; [done|].
    cbn. rewrite Z2Nat.id by lia. by replace (n - 1 - (n - 1 - i)) with i by lia.
Qed.

Lemma get_sliver_hash_pair j a h : hashes m !! Z.to_nat j = Some h ->
  get_sliver_hash m (mk_pair_index j) a = Some (pair_hash a h).
Proof. intros Hj. unfold get_sliver_hash. cbn. rewrite Hj. by destruct a. Qed.

(** The hash of a sliver with the index [i] against the committed one. *)
Lemma check_hash_eq a s r : 0 <= sliver_index_get (sliver_idx s) < n ->
  get_merkle_root a s c = Ok r ->
  check_hash a s c m =
    ensure (bool_decide (r = hash_of X a (sliver_index_get (sliver_idx s)))) MerkleRootMismatch.
Proof.
  intros Hi Hr. unfold check_hash. destruct s as [symbols [i]]. cbn [sliver_idx sliver_index_get] in *.
  change (n_shards c) with n.
  destruct (pair_index_lookup (E:=SliverVerificationError) a i Hi) as (j & h & -> & Hj & Hh & Heq).
  cbn [mbind outcome_bind pair_index_get]. rewrite Hh, Hr. cbn. by rewrite Heq.
Qed.

Lemma get_for_type_eq : get_for_type (config_of n) (md_encoding_type m) = c.
Proof. by destruct (md_encoding_type m). Qed.

Lemma md_symbol_size_eq : md_symbol_size m (config_of n) = Ok b.
Proof. unfold md_symbol_size. rewrite get_for_type_eq. apply HC. Qed.

(** What [verify] checks of a sliver with the right symbol size. *)
Lemma has_correct_length_eq {E} a s :
  has_correct_length (E:=E) a s c (unencoded_length m) =
    Ok (sliver_len s =? n_source_symbols (orthogonal a) c * b).
Proof.
  unfold has_correct_length, sliver_size_for_blob. rewrite (committed_size _ _ HC).
  cbn [mbind outcome_bind]. destruct (Hp (orthogonal a)) as [Hk Hs Hb _ _].
  change (n_shards c) with n in *. unfold checked_mul.
  assert (0 <= n_source_symbols (orthogonal a) c * b < 2 ^ 32) as Hr by nia.
  rewrite (proj2 (try_from_Some 32 _ _) (conj eq_refl Hr)). cbn [ok_or ok mbind outcome_bind].
  assert (0 <= n_source_symbols (orthogonal a) c * b < 2 ^ 64) as Hr2 by lia.
  by rewrite (proj2 (try_from_Some 64 _ _) (conj eq_refl Hr2)).
Qed.

Lemma sliver_of_len a i : 0 <= i < n ->
  sliver_len (sliver_of X a i) = n_source_symbols (orthogonal a) c * b.
Proof.
  intros Hi. unfold sliver_len. cbn [sliver_of sliver_symbols of_symbols sym_data].
  apply (source_bytes _ n b (Hp (orthogonal a))). by apply sliver_source.
Qed.

Lemma sliver_verify_ok a i : 0 <= i < n ->
  sliver_verify a (sliver_of X a i) (config_of n) m = Ok tt.
Proof.
  intros Hi. unfold sliver_verify. rewrite get_for_type_eq, length_hashes.
  cbn [sliver_of sliver_idx sliver_index_get]. rewrite (proj2 (Z.ltb_lt i n)) by lia.
  cbn [ensure mbind outcome_bind]. fold (sliver_of X a i).
  rewrite has_correct_length_eq, sliver_of_len, Z.eqb_refl by done.
  cbn [ensure mbind outcome_bind]. unfold has_correct_symbol_size. rewrite md_symbol_size_eq.
  cbn [ok mbind outcome_bind sliver_of sliver_symbols of_symbols symbol_size].
  rewrite Z.eqb_refl. cbn [ensure mbind outcome_bind]. fold (of_symbols b).
  rewrite (check_hash_eq a _ (hash_of X a i)); [|done|by apply get_merkle_root_ok].
  cbn [sliver_of sliver_idx sliver_index_get]. by rewrite bool_decide_true.
Qed.

(** ** Recovery symbols *)

(** The symbol that sliver [j] of the other axis contributes to sliver [t] of
    axis [a]. *)
Definition crossing a (t j : Z) : DecodingSymbol :=
  mk_decoding_symbol j (line a X (Z.to_nat t) (Z.to_nat j)).

Lemma target_index_eq {E} a t : 0 <= t < n ->
  to_sliver_index (E:=E) a (mk_pair_index t) n =
    Ok (mk_sliver_index (if is_primary a then t else n - 1 - t)).
Proof. intros Ht. unfold is_nzu in Hn. by rewrite to_sliver_index_eq by (cbn; lia). Qed.

Lemma symbol_verify_eq a s (t : Z) : 0 <= ds_index (rsym_symbol s) < n ->
  length (ds_data (rsym_symbol s)) = Z.to_nat b ->
  symbol_verify a s n (Z.to_nat b) m (mk_sliver_index t) =
    map_err InvalidProof (verify_proof (rsym_proof s)
      (hash_of X (orthogonal a) (ds_index (rsym_symbol s))) (Z.to_nat n)
      (ds_data (rsym_symbol s)) (Z.to_nat t)).
Proof.
  intros Hj Hl. unfold symbol_verify. rewrite (proj2 (Z.leb_gt _ _)) by lia.
  rewrite (proj2 (Nat.eqb_eq _ _) Hl). cbn [negb].
  destruct (pair_index_lookup (E:=SymbolVerificationError) (orthogonal a) _ Hj)
    as (j & h & -> & _ & Hh & Heq).
  cbn [mbind outcome_bind]. rewrite (get_sliver_hash_pair _ _ _ Hh), Heq. done.
Qed.

Lemma recovery_symbol_ok a i t : 0 <= i < n -> 0 <= t < n ->
  let target := if is_primary (orthogonal a) then t else n - 1 - t in
  exists s, recovery_symbol_for_sliver a (sliver_of X a i) (mk_pair_index t) c = Ok s /\
    rsym_symbol s = crossing (orthogonal a) target i /\
    symbol_verify (orthogonal a) s n (Z.to_nat b) m (mk_sliver_index target) = Ok tt.
Proof.
  intros Hi Ht target. unfold recovery_symbol_for_sliver, check_index.
  change (n_shards c) with n. cbn [pair_index_get].
  rewrite (proj2 (Z.leb_gt _ _)) by lia. cbn [mbind outcome_bind].
  rewrite sliver_recovery_symbols_ok by done. cbn [mbind outcome_bind].
  rewrite target_index_eq by done. cbn [mbind outcome_bind sliver_index_get]. fold target.
  assert (0 <= target < n) as Hr by (subst target; destruct (is_primary _); lia).
  destruct (params_positive _ _ _ (Hp a)) as [_ Hb].
  pose proof (expanded_sliver_sized X HX a i Hi) as Hs.
  pose proof (expanded_sliver_lookup X a i (Z.to_nat target) ltac:(lia)) as Hlk.
  unfold decoding_symbol_at. rewrite (symbols_index_of b Hb _ _ _ Hs Hlk).
  cbn [expect mbind outcome_bind]. rewrite to_symbols_of by done.
  assert (len (expanded_sliver X a i) <= 2 ^ 63) as Hlen
    by (rewrite length_expanded_sliver; unfold is_nzu in Hn; lia).
  destruct (get_proof_ok (E:=RecoverySymbolError) _ _ _ Hlen Hlk)
    as (tr & p & -> & Hroot & Hpr & _ & Hv).
  cbn [mbind outcome_bind]. rewrite Hpr. cbn [expect_ok mbind outcome_bind].
  eexists. split; [done|]. cbn [with_proof rsym_symbol sliver_of sliver_idx sliver_index_get].
  unfold crossing. rewrite line_orthogonal. split; [done|].
  rewrite symbol_verify_eq; cbn [with_proof rsym_symbol rsym_proof ds_index ds_data].
  - rewrite orthogonal_involutive. unfold hash_of. rewrite <- Hroot.
    rewrite length_expanded_sliver in Hv. by rewrite Hv.
  - done.
  - apply line_length; [done|lia|lia].
Qed.

Lemma decoding_symbol_ok a i t : 0 <= i < n -> 0 <= t < n ->
  decoding_symbol_for_sliver a (sliver_of X a i) (mk_pair_index t) c =
    Ok (crossing (orthogonal a) (if is_primary (orthogonal a) then t else n - 1 - t) i).
Proof.
  intros Hi Ht. unfold decoding_symbol_for_sliver, check_index.
  change (n_shards c) with n. cbn [pair_index_get].
  rewrite (proj2 (Z.leb_gt _ _)) by lia. cbn [mbind outcome_bind].
  rewrite target_index_eq by done. cbn [mbind outcome_bind sliver_index_get].
  set (target := if is_primary (orthogonal a) then t else n - 1 - t).
  assert (0 <= target < n) as Hr by (subst target; destruct (is_primary _); lia).
  cbn [sliver_of sliver_symbols of_symbols sym_data sliver_idx sliver_index_get].
  rewrite (encode_symbol_ok (orthogonal a) c b (Hp _) _ target
             (line a X (Z.to_nat i) (Z.to_nat target))).
  - cbn. unfold crossing. by rewrite line_orthogonal.
  - by apply sliver_source.
  - lia.
  - change (n_shards c) with n. rewrite sliver_codeword by done. apply expanded_sliver_lookup. lia.
Qed.

(** A symbol that verifies is the symbol at the crossing. *)
Lemma symbol_verify_sound a s (t : Z) :
  0 <= ds_index (rsym_symbol s) -> 0 <= t -> Forall node_wf (path (rsym_proof s)) ->
  collision_free (hash_queries (expanded_sliver X (orthogonal a) (ds_index (rsym_symbol s)))
    (rsym_proof s) (ds_data (rsym_symbol s)) (Z.to_nat t)) ->
  symbol_verify a s n (Z.to_nat b) m (mk_sliver_index t) = Ok tt ->
  t < n /\ ds_index (rsym_symbol s) < n /\ rsym_symbol s = crossing a t (ds_index (rsym_symbol s)).
Proof.
  intros Hj Ht Hwf Hcf Hv.
  assert (ds_index (rsym_symbol s) < n) as Hjn.
  { unfold symbol_verify in Hv. destruct (Z.leb_spec n (ds_index (rsym_symbol s))); [done|lia]. }
  assert (length (ds_data (rsym_symbol s)) = Z.to_nat b) as Hl.
  { unfold symbol_verify in Hv. rewrite (proj2 (Z.leb_gt _ _)) in Hv by lia.
    by destruct (Nat.eqb_spec (length (ds_data (rsym_symbol s))) (Z.to_nat b)). }
  rewrite symbol_verify_eq in Hv by done. apply map_err_Ok in Hv.
  unfold hash_of in Hv. rewrite <- (length_expanded_sliver X (orthogonal a) (ds_index (rsym_symbol s))) in Hv.
  apply verify_proof_sound in Hv; [|rewrite length_expanded_sliver; unfold is_nzu in Hn; lia|done|done].
  pose proof (lookup_lt_Some _ _ _ Hv) as Hlt. rewrite length_expanded_sliver in Hlt.
  rewrite expanded_sliver_lookup in Hv by done. split_and!; [lia|done|].
  unfold crossing. rewrite <- line_orthogonal. injection Hv as Hd. rewrite Hd. by destruct (rsym_symbol s).
Qed.

(** ** Recovery of a sliver *)

Section recovery.
Context (a : Axis) (t : Z) (Ht : 0 <= t < n).
Let k := n_source_symbols (orthogonal a) c.
Let D := line a X (Z.to_nat t) <$> seq 0 (sliver_symbols_count a c).

Lemma crossing_genuine j : 0 <= j < n -> genuine k n b D (crossing a t j).
Proof.
  intros Hj. unfold is_nzu in Hn. split; [cbn; lia|]. intros _. cbn [crossing ds_index ds_data].
  unfold k, D. rewrite sliver_codeword by done. apply expanded_sliver_lookup. lia.
Qed.

Lemma crossing_usable j : 0 <= j < n -> usable n b (crossing a t j) = true.
Proof.
  intros Hj. apply bool_decide_eq_true. cbn [crossing ds_index ds_data].
  split; [apply line_length; [done|lia|lia]|lia].
Qed.

Lemma sliver_new_ok {E} : sliver_new (E:=E) (concat D) b (mk_sliver_index t) = Ok (sliver_of X a t).
Proof.
  unfold sliver_new. destruct (params_positive _ _ _ (Hp a)) as [_ Hb].
  rewrite symbols_new_of; [done|done|]. apply (sliver_source X HX a t Ht).
Qed.

(** Decoding symbols that are genuine recover the sliver, or are too few. *)
Lemma recover_sliver_cases ys : Forall (genuine k n b D) ys ->
  recover_sliver_from_decoding_symbols a ys (mk_sliver_index t) b c = Ok (sliver_of X a t) \/
  (size (positions n b ys) < Z.to_nat k)%nat /\
  exists e, recover_sliver_from_decoding_symbols a ys (mk_sliver_index t) b c = Err e.
Proof.
  intros Hys. unfold recover_sliver_from_decoding_symbols.
  cbn [n_symbols_for_recovery n_slivers_for_reconstruction]. fold k.
  destruct (Z.ltb_spec (len ys) k) as [Hlt|Hge].
  { right. split; [|eauto]. pose proof (size_positions n b ys). lia. }
  pose proof (decode_from_decoding_symbols_ok a c b D ys (Hp _) (sliver_source X HX a t Ht) Hys) as Hd.
  change (n_shards c) with n in Hd. fold k in Hd.
  destruct (Nat.leb_spec (Z.to_nat k) (size (positions n b ys))) as [Hle|Hlt].
  - left. rewrite Hd. apply sliver_new_ok.
  - right. destruct Hd as [e ->]. split; [done|]. by eexists.
Qed.

Lemma recover_sliver_ok ys : Forall (genuine k n b D) ys ->
  (Z.to_nat k <= size (positions n b ys))%nat ->
  recover_sliver_from_decoding_symbols a ys (mk_sliver_index t) b c = Ok (sliver_of X a t).
Proof. intros Hys Hsize. destruct (recover_sliver_cases ys Hys) as [|[? _]]; [done|lia]. Qed.

End recovery.

(** ** Inconsistency proofs *)

Lemma verify_proof_no_panic p r leaf (t : Z) :
  verify_proof p r (Z.to_nat n) leaf (Z.to_nat t) <> Panic.
Proof.
  unfold verify_proof, check_path_length, compute_root.
  destruct (Nat.ltb_spec (path_length (Z.to_nat n)) (length (path p))); [done|].
  cbn [mbind outcome_bind]. unfold is_nzu in Hn.
  pose proof (path_length_lt_64 (Z.to_nat n) ltac:(lia)).
  rewrite shr64_eq by lia. cbn [mbind outcome_bind].
  destruct (_ =? _)%nat; [|done]. cbn [mbind outcome_bind]. by destruct (bool_decide _).
Qed.

Lemma symbol_verify_no_panic a s (t : Z) : 0 <= ds_index (rsym_symbol s) ->
  symbol_verify a s n (Z.to_nat b) m (mk_sliver_index t) <> Panic.
Proof.
  intros Hj. destruct (Z.lt_ge_cases (ds_index (rsym_symbol s)) n) as [Hlt|Hge].
  - destruct (Nat.eq_dec (length (ds_data (rsym_symbol s))) (Z.to_nat b)) as [Hl|Hl].
    + rewrite symbol_verify_eq by done.
      pose proof (verify_proof_no_panic (rsym_proof s)
        (hash_of X (orthogonal a) (ds_index (rsym_symbol s))) (ds_data (rsym_symbol s)) t).
      by destruct (verify_proof _ _ _ _ _).
    + unfold symbol_verify. rewrite (proj2 (Z.leb_gt _ _)) by lia.
      by rewrite (proj2 (Nat.eqb_neq _ _)).
  - unfold symbol_verify. by rewrite (proj2 (Z.leb_le _ _)).
Qed.

(** A symbol as received: indices are unsigned, nodes have 32 bytes, and the
    hashes computed to check it do not collide with those of its source. *)
Record received (a : Axis) (t : Z) (s : RecoverySymbol) : Prop := {
  received_index : 0 <= ds_index (rsym_symbol s);
  received_nodes : Forall node_wf (path (rsym_proof s));
  received_hashes : collision_free
    (hash_queries (expanded_sliver X (orthogonal a) (ds_index (rsym_symbol s)))
       (rsym_proof s) (ds_data (rsym_symbol s)) (Z.to_nat t));
}.

Lemma all_verified_sound {E} a t symbols : 0 <= t -> Forall (received a t) symbols ->
  exists r, all_verified (E:=E) a n (Z.to_nat b) m (mk_sliver_index t) symbols = Ok r /\
    (r = true -> Forall (fun s => t < n /\ exists j, 0 <= j < n /\ rsym_symbol s = crossing a t j) symbols).
Proof.
  intros Ht. induction 1 as [|s symbols [Hj Hw Hc] _ IH]; [by exists true|]. cbn [all_verified].
  pose proof (symbol_verify_no_panic a s t Hj) as Hnp.
  destruct (symbol_verify a s n (Z.to_nat b) m (mk_sliver_index t)) as [[]| |] eqn:Hv;
    [|by exists false|done].
  destruct IH as (r & -> & Hr). exists r. split; [done|]. intros Htrue. constructor; [|auto].
  apply symbol_verify_sound in Hv as (Htn & Hjn & Heq); [|done..]. split; [done|].
  exists (ds_index (rsym_symbol s)). done.
Qed.

Lemma crossings_genuine a t symbols : 0 <= t ->
  Forall (fun s => t < n /\ exists j, 0 <= j < n /\ rsym_symbol s = crossing a t j) symbols ->
  Forall (genuine (n_source_symbols (orthogonal a) c) n b
    (line a X (Z.to_nat t) <$> seq 0 (sliver_symbols_count a c))) (rsym_symbol <$> symbols).
Proof.
  intros Ht Hs. apply Forall_fmap. eapply Forall_impl; [exact Hs|].
  intros s (Htn & j & Hj & Heq). cbn. rewrite Heq. by apply crossing_genuine.
Qed.

Lemma inconsistency_rejected a p : let t := sliver_index_get (target_sliver_index p) in
  0 <= t -> Forall (received a t) (recovery_symbols p) ->
  exists e, inconsistency_proof_verify a p m (config_of n) = Err e.
Proof.
  intros t Ht Hrec. unfold inconsistency_proof_verify. rewrite md_symbol_size_eq.
  cbn [map_err mbind outcome_bind]. unfold check_recovery_symbols. rewrite get_for_type_eq.
  cbn [n_symbols_for_recovery n_slivers_for_reconstruction].
  destruct (Z.eqb_spec (len (recovery_symbols p)) (n_source_symbols (orthogonal a) c)) as [Hl|];
    [|by eexists]. cbn [ensure mbind outcome_bind config_of ec_n_shards].
  replace (target_sliver_index p) with (mk_sliver_index t) by by destruct p as [[]].
  destruct (all_verified_sound (E:=InconsistencyVerificationError) a t _ Ht Hrec) as (r & -> & Hr).
  cbn [mbind outcome_bind]. destruct r; [|by eexists]. cbn [ensure mbind outcome_bind].
  specialize (Hr eq_refl).
  assert (t < n) as Htn.
  { destruct (Hp (orthogonal a)) as [Hk _ _ _ _]. destruct (recovery_symbols p); [cbn in Hl; lia|].
    apply Forall_cons in Hr as [[? _] _]. done. }
  unfold recover_sliver_without_verification.
  destruct (recover_sliver_cases a t ltac:(done) _ (crossings_genuine a t _ Ht Hr)) as [->|(_ & e & ->)];
    [|by eexists].
  cbn [map_err mbind outcome_bind]. rewrite sliver_verify_ok by done. by eexists.
Qed.

End metadata.
End committed.
