(* ===== verification/Loops.v ===== *)
(** * Loops over vectors

    The iterator patterns of the encoder that update vectors in place: writing
    at an index, [enumerate], and updating the elements of one sequence with
    those of another ([iter_mut().zip(..)]).  A vector whose elements are given
    by a function of the index is [f <$> seq 0 n]; a matrix stored row by row
    is [flat n f].  The lemmas describe each loop by such a function. *)

From S2P Require Import Prelude.

(** [v[i] = x]. *)
Definition set_index {E A} (l : list A) (i : nat) (x : A) : outcome E (list A) :=
  if (i <? length l)%nat then Ok (<[i := x]> l) else Panic.

(** [iter().enumerate()]. *)
Definition enumerate {A} (l : list A) : list (nat * A) := imap pair l.

(** [for (x, y) in l.iter_mut().zip(l')]: the elements of [l] without a partner
    stay as they are. *)
Fixpoint zip_update {E A B} (f : A -> B -> outcome E A) (l : list A) (l' : list B) :
    outcome E (list A) :=
  match l, l' with
  | x :: l, y :: l' => x ← f x y; l ← zip_update f l l'; Ok (x :: l)
  | _, _ => Ok l
  end.

(** [for (x, y) in l.iter_mut().skip(k).zip(l')]. *)
Definition zip_update_skip {E A B} (k : nat) (f : A -> B -> outcome E A) (l : list A)
    (l' : list B) : outcome E (list A) :=
  r ← zip_update f (drop k l) l'; Ok (take k l ++ r).

(** ** Loops with an invariant *)

Lemma foldM_imap_invariant {E A T} (I : nat -> T -> Prop) (f : T -> nat * A -> outcome E T) k s l :
  I k s ->
  (forall i x s, l !! i = Some x -> I (k + i)%nat s ->
    exists s', f s ((k + i)%nat, x) = Ok s' /\ I (S (k + i)) s') ->
  exists s', foldM f s (imap (fun i x => ((k + i)%nat, x)) l) = Ok s' /\ I (k + length l)%nat s'.
Proof.
  revert k s. induction l as [|x l IH]; intros k s Hs Hf; cbn [imap foldM length].
  { exists s. by rewrite Nat.add_0_r. }
  destruct (Hf 0%nat x s eq_refl) as (s1 & Hf1 & Hs1); [by rewrite Nat.add_0_r|].
  rewrite Hf1. cbn [mbind outcome_bind]. rewrite Nat.add_0_r in Hs1.
  destruct (IH (S k) s1 Hs1) as (s2 & Hs2 & HI).
  { intros i y s' Hi HI. replace (S k + i)%nat with (k + S i)%nat in * by lia. by apply Hf. }
  exists s2. split; [|by replace (k + S (length l))%nat with (S k + length l)%nat by lia].
  rewrite <- Hs2. f_equal. apply imap_ext. intros i y _. cbn. f_equal. lia.
Qed.

(** The invariant of a loop over [iter().enumerate()]. *)
Lemma foldM_enumerate {E A T} (I : nat -> T -> Prop) (f : T -> nat * A -> outcome E T) s l :
  I 0%nat s ->
  (forall i x s, l !! i = Some x -> I i s -> exists s', f s (i, x) = Ok s' /\ I (S i) s') ->
  exists s', foldM f s (enumerate l) = Ok s' /\ I (length l) s'.
Proof. intros Hs Hf. exact (foldM_imap_invariant I f 0 s l Hs Hf). Qed.

(** The invariant of a loop over a range. *)
Lemma foldM_seq {E T} (I : nat -> T -> Prop) (f : T -> nat -> outcome E T) s k m :
  I k s ->
  (forall i s, (k <= i < k + m)%nat -> I i s -> exists s', f s i = Ok s' /\ I (S i) s') ->
  exists s', foldM f s (seq k m) = Ok s' /\ I (k + m)%nat s'.
Proof.
  revert k s. induction m as [|m IH]; intros k s Hs Hf; cbn [seq foldM].
  { exists s. by rewrite Nat.add_0_r. }
  destruct (Hf k s ltac:(lia) Hs) as (s1 & -> & Hs1). cbn [mbind outcome_bind].
  destruct (IH (S k) s1 Hs1) as (s2 & Hs2 & HI).
  - intros i s' Hi. apply Hf. lia.
  - exists s2. split; [done|]. by replace (k + S m)%nat with (S k + m)%nat by lia.
Qed.

Lemma foldM_enumerate_seq {E T A} (I : nat -> T -> Prop) (f : T -> nat * A -> outcome E T) s
    (g : nat -> A) m :
  I 0%nat s ->
  (forall i s, (i < m)%nat -> I i s -> exists s', f s (i, g i) = Ok s' /\ I (S i) s') ->
  exists s', foldM f s (enumerate (g <$> seq 0 m)) = Ok s' /\ I m s'.
Proof.
  intros Hs Hf. destruct (foldM_enumerate I f s (g <$> seq 0 m) Hs) as (s' & Hfold & HI).
  - intros i x t Hi Ht. rewrite list_lookup_fmap in Hi.
    destruct (seq 0 m !! i) as [p|] eqn:Hp; [|done]. apply lookup_seq in Hp as [-> Hi'].
    injection Hi as <-. by apply Hf.
  - rewrite length_fmap, length_seq in HI. eauto.
Qed.

Lemma foldM_fmap_seq {E T A} (f : T -> A -> outcome E T) (g : nat -> A) (h : nat -> T) m :
  (forall i, (i < m)%nat -> f (h i) (g i) = Ok (h (S i))) ->
  foldM f (h 0%nat) (g <$> seq 0 m) = Ok (h m).
Proof.
  intros Hf. destruct (foldM_seq (fun i s => s = h i) (fun s i => f s (g i)) (h 0%nat) 0 m)
    as (s & Hs & ->); [done| |].
  - intros i s Hi ->. rewrite Hf by lia. eauto.
  - revert Hs. generalize (h 0%nat), (seq 0 m). intros t l. revert t.
    induction l as [|i l IH]; intros t; cbn [fmap list_fmap foldM]; [done|].
    destruct (f t (g i)); cbn [mbind outcome_bind]; [apply IH|done..].
Qed.

Lemma zip_update_ok {E A B} (f : A -> B -> outcome E A) l l' l'' :
  length l'' = length l ->
  (forall i x z, l !! i = Some x -> l'' !! i = Some z ->
    match l' !! i with Some y => f x y = Ok z | None => z = x end) ->
  zip_update f l l' = Ok l''.
Proof.
  revert l' l''. induction l as [|x l IH]; intros l' [|z l''] Hl Hf; cbn in Hl; try lia; [done|].
  destruct l' as [|y l']; cbn [zip_update].
  - f_equal. apply list_eq_same_length with (n := S (length l)); [done|cbn; lia|].
    intros i u v _ Hu Hv. symmetry. by apply (Hf i u v).
  - pose proof (Hf 0%nat x z eq_refl eq_refl) as Hx. cbn in Hx. rewrite Hx.
    cbn [mbind outcome_bind]. rewrite (IH l' l''); [done|lia|]. intros i u v Hu Hv.
    apply (Hf (S i) u v Hu Hv).
Qed.

(** The same, for vectors given by functions. *)
Lemma zip_update_seq {E A B} (f : A -> B -> outcome E A) (g h : nat -> A) k m l' :
  (forall i, (i < m)%nat -> match l' !! i with
    | Some y => f (g (k + i)%nat) y = Ok (h (k + i)%nat)
    | None => h (k + i)%nat = g (k + i)%nat end) ->
  zip_update f (g <$> seq k m) l' = Ok (h <$> seq k m).
Proof.
  intros Hf. apply zip_update_ok; [by rewrite !length_fmap|]. intros i x z Hx Hz.
  rewrite list_lookup_fmap in Hx, Hz. destruct (seq k m !! i) as [p|] eqn:Hp; [|done].
  apply lookup_seq in Hp as [-> Hi]. injection Hx as <-. injection Hz as <-. by apply Hf.
Qed.

Lemma zip_update_skip_seq {E A B} (f : A -> B -> outcome E A) (g h : nat -> A) k m l' :
  (forall i, (i < Nat.min k m)%nat -> h i = g i) ->
  (forall i, (k <= i < m)%nat -> match l' !! (i - k)%nat with
    | Some y => f (g i) y = Ok (h i) | None => h i = g i end) ->
  zip_update_skip k f (g <$> seq 0 m) l' = Ok (h <$> seq 0 m).
Proof.
  intros Hlt Hge. unfold zip_update_skip. rewrite <- fmap_drop, <- fmap_take, drop_seq, take_seq.
  rewrite (zip_update_seq f g h).
  - cbn [mbind outcome_bind]. f_equal. rewrite (list_fmap_ext g h (seq 0 (k `min` m))).
    + rewrite <- fmap_app. f_equal. destruct (Nat.le_ge_cases k m).
      * rewrite Nat.min_l by done. by rewrite <- seq_app, Nat.add_comm, Nat.sub_add.
      * rewrite Nat.min_r by done. replace (m - k)%nat with 0%nat by lia. by rewrite app_nil_r.
    + intros i x Hi. apply lookup_seq in Hi as [-> Hi]. symmetry. by apply Hlt.
  - intros i Hi. specialize (Hge (k + i)%nat ltac:(lia)). cbn [Nat.add].
    by replace (k + i - k)%nat with i in Hge by lia.
Qed.

(** ** Matrices stored row by row *)

Definition flat {A} (n : nat) (f : nat -> nat -> A) : list A :=
  (fun p => f (p / n)%nat (p mod n)%nat) <$> seq 0 (n * n).

Section flat.
Context {A : Type} (n : nat).
Implicit Types f g : nat -> nat -> A.

Lemma length_flat f : length (flat n f) = (n * n)%nat.
Proof. unfold flat. by rewrite length_fmap, length_seq. Qed.

Lemma flat_lookup f i j : (i < n)%nat -> (j < n)%nat -> flat n f !! (n * i + j)%nat = Some (f i j).
Proof.
  intros Hi Hj. unfold flat. rewrite list_lookup_fmap, lookup_seq_lt by nia. cbn.
  rewrite (Nat.mul_comm n i), Nat.div_add_l, Nat.div_small, Nat.add_0_r by lia.
  by rewrite Nat.add_comm, Nat.Div0.mod_add, Nat.mod_small by lia.
Qed.

Lemma flat_ext f g : (forall i j, (i < n)%nat -> (j < n)%nat -> f i j = g i j) -> flat n f = flat n g.
Proof.
  intros Hfg. apply list_fmap_ext. intros p x Hp. apply lookup_seq in Hp as [-> Hp].
  apply Hfg; [apply Nat.Div0.div_lt_upper_bound; lia|apply Nat.mod_upper_bound; lia].
Qed.

Lemma flat_set {E} f i j x : (i < n)%nat -> (j < n)%nat ->
  set_index (E:=E) (flat n f) (n * i + j) x =
    Ok (flat n (fun u v => if bool_decide (u = i /\ v = j) then x else f u v)).
Proof.
  intros Hi Hj. unfold set_index. rewrite length_flat.
  rewrite (proj2 (Nat.ltb_lt _ _)) by nia. f_equal. apply list_eq. intros p.
  destruct (decide (p < n * n)%nat) as [Hp|Hp]; cycle 1.
  { rewrite !lookup_ge_None_2; [done|rewrite length_flat; lia|rewrite length_insert, length_flat; lia]. }
  assert (p = n * (p / n) + p mod n)%nat as -> by apply Nat.div_mod_eq.
  set (u := (p / n)%nat). set (v := (p mod n)%nat).
  assert (u < n)%nat by (apply Nat.Div0.div_lt_upper_bound; lia).
  assert (v < n)%nat by (apply Nat.mod_upper_bound; lia).
  rewrite flat_lookup by done. destruct (decide (u = i /\ v = j)) as [[-> ->]|Hne].
  - rewrite list_lookup_insert_eq by (rewrite length_flat; nia). by rewrite bool_decide_true.
  - rewrite list_lookup_insert_ne; cycle 1.
    { intros Heq. apply Hne. destruct (Nat.lt_total u i) as [Hlt|[->|Hlt]]; [nia|lia|nia]. }
    by rewrite flat_lookup, bool_decide_false.
Qed.

(** A row as a slice. *)
Lemma flat_slice {E} f i : (i < n)%nat ->
  slice (E:=E) (n * i) (n * (i + 1)) (flat n f) = Ok (f i <$> seq 0 n).
Proof.
  intros Hi. unfold slice. rewrite length_flat.
  rewrite (proj2 (Nat.leb_le _ _)) by lia. rewrite (proj2 (Nat.leb_le _ _)) by nia. cbn [andb].
  f_equal. apply list_eq. intros j. destruct (decide (j < n)%nat) as [Hj|Hj].
  - rewrite lookup_take_lt by lia. rewrite lookup_drop, flat_lookup by done.
    by rewrite list_lookup_fmap, lookup_seq_lt.
  - rewrite !lookup_ge_None_2; [done|rewrite length_fmap, length_seq; lia|].
    rewrite length_take. lia.
Qed.

(** Row by row. *)
Lemma fmap_div_mod_rows f m :
  (fun p => f (p / n)%nat (p mod n)%nat) <$> seq 0 (m * n) =
    concat ((fun i => f i <$> seq 0 n) <$> seq 0 m).
Proof.
  induction m as [|m IH]; [done|].
  cbn [Nat.mul]. rewrite Nat.add_comm, seq_app, fmap_app, IH.
  rewrite seq_S, fmap_app, concat_app. cbn [fmap list_fmap concat Nat.add]. rewrite app_nil_r. f_equal.
  apply list_eq. intros j. rewrite !list_lookup_fmap. destruct (decide (j < n)%nat) as [Hj|Hj].
  - rewrite !lookup_seq_lt by done. cbn. rewrite Nat.div_add_l, Nat.div_small, Nat.add_0_r by lia.
    by rewrite Nat.add_comm, Nat.Div0.mod_add, Nat.mod_small by lia.
  - by rewrite !lookup_seq_ge by lia.
Qed.

Lemma fmap_list_prod f (l l' : list nat) :
  (fun '(i, j) => f i j) <$> list_prod l l' = concat ((fun i => f i <$> l') <$> l).
Proof.
  induction l as [|i l IH]; [done|]. cbn [list_prod]. rewrite fmap_app, IH. cbn. f_equal.
  change (map ?g ?l) with (g <$> l). by rewrite <- list_fmap_compose.
Qed.

Lemma flat_list_prod f : (fun '(i, j) => f i j) <$> list_prod (seq 0 n) (seq 0 n) = flat n f.
Proof. rewrite fmap_list_prod. symmetry. apply fmap_div_mod_rows. Qed.

End flat.
