(* ===== verification/BlobEncoder.v ===== *)
(** * Encoding of blobs

    Models [BlobEncoder], [BlobEncoderData] and [ExpandedMessageMatrix] of
    encoding/blob_encoding.rs: the encoder that works sliver by sliver, the
    older one that fills the whole expanded matrix, the computation of the
    metadata alone, and the consistency check of a decoded blob.  Vectors that
    the code mutates in place are passed along the loops. *)

From S2P Require Import Prelude Core EncodingConfig Symbols ReedSolomon Merkle Metadata.
From S2P Require Import RecoverySymbols Slivers Loops.

(** [BlobEncoder] with its [BlobEncoderData]; borrowed and owned blobs are the
    same bytes, and the tracing span is not modelled. *)
Record BlobEncoder := {
  be_blob : list byte;
  be_symbol_size : Z;
  be_n_rows : Z;
  be_n_columns : Z;
  be_config : EncodingConfigEnum;
}.

(** [ExpandedMessageMatrix]. *)
Record ExpandedMessageMatrix := {
  em_matrix : list Symbols;
  em_blob : list byte;
  em_config : EncodingConfigEnum;
  em_n_rows : nat;
  em_n_columns : nat;
  em_symbol_size : Z;
}.

Definition set_matrix (s : ExpandedMessageMatrix) (m : list Symbols) : ExpandedMessageMatrix :=
  {| em_matrix := m; em_blob := em_blob s; em_config := em_config s; em_n_rows := em_n_rows s;
     em_n_columns := em_n_columns s; em_symbol_size := em_symbol_size s |}.

(** [dest[..src.len()].copy_from_slice(src)]. *)
Definition write_prefix {E} (dest src : list byte) : outcome E (list byte) :=
  write_range 0 (length src) src dest.

(** [symbols.data_mut()[..src.len()].copy_from_slice(src)]. *)
Definition write_prefix_data {E} (s : Symbols) (src : list byte) : outcome E Symbols :=
  d ← write_prefix (sym_data s) src; Ok (mk_symbols d (symbol_size s)).

(** [symbols.to_symbols_mut().zip(column).for_each(..)] with such a copy. *)
Definition write_prefixes {E} (s : Symbols) (column : list (list byte)) : outcome E Symbols :=
  l ← zip_update write_prefix (to_symbols s) column;
  Ok (mk_symbols (concat l) (symbol_size s)).

Definition map_symbols {E} (f : Symbols -> outcome E Symbols) (s : SliverData) :
    outcome E SliverData :=
  w ← f (sliver_symbols s); Ok {| sliver_symbols := w; sliver_idx := sliver_idx s |}.

Section encoder.
Context `{Build} `{HashFunction} `{ReedSolomonSimd}.
Implicit Types (self : BlobEncoder) (a : Axis).

(** [BlobEncoder::new]. *)
Definition blob_encoder_new (config : EncodingConfigEnum) (blob : list byte) :
    outcome DataTooLargeError BlobEncoder :=
  n ← source_symbols_per_blob config;
  symbol_size ← compute_symbol_size_from_usize (len blob) n
                  (required_alignment (encoding_type config));
  Ok {| be_blob := blob; be_symbol_size := symbol_size;
        be_n_rows := n_source_symbols Primary config;
        be_n_columns := n_source_symbols Secondary config; be_config := config |}.

(** *** [BlobEncoderData] *)

Definition be_symbol_usize self : nat := Z.to_nat (be_symbol_size self).
Definition n_rows_usize self : nat := Z.to_nat (be_n_rows self).
Definition n_columns_usize self : nat := Z.to_nat (be_n_columns self).
Definition n_shards_usize self : nat := Z.to_nat (n_shards (be_config self)).

(** [sliver_length::<E>]. *)
Definition sliver_length a self : Z :=
  n_source_symbols (orthogonal a) (be_config self) * be_symbol_size self.

(** [BlobEncoderData::get_encoder::<E>]. *)
Definition be_get_encoder {E} a self : outcome E ReedSolomonEncoder :=
  expect_ok (get_encoder a (be_config self) (sliver_length (orthogonal a) self)).

Definition empty_sliver a self (index : Z) : SliverData :=
  sliver_new_empty (n_source_symbols (orthogonal a) (be_config self)) (be_symbol_size self)
    (mk_sliver_index index).

(** [empty_slivers_range::<E>(from..to)]. *)
Definition empty_slivers_range a self (from to : Z) : list SliverData :=
  (fun i => empty_sliver a self (Z.of_nat i)) <$> seq (Z.to_nat from) (Z.to_nat (to - from)).

Definition empty_slivers a self : list SliverData :=
  empty_slivers_range a self 0 (n_shards (be_config self)).

Definition empty_sliver_pairs {E} self : outcome E (list SliverPair) :=
  mapM_outcome (fun i => sliver_pair_new_empty (be_config self) (be_symbol_size self)
                           (mk_pair_index (Z.of_nat i)))
    (seq 0 (n_shards_usize self)).

(** One pass of the loop of [compute_metadata_from_symbol_hashes]. *)
Definition pair_metadata_from_hashes {E} (n_shards : nat) (symbol_hashes : list Node)
    (sliver_index : nat) : outcome E SliverPairMetadata :=
  row ← slice (n_shards * sliver_index) (n_shards * (sliver_index + 1)) symbol_hashes;
  p ← build_root row;
  column ← mapM_outcome (fun symbol_index =>
             index symbol_hashes (n_shards * symbol_index + n_shards - 1 - sliver_index))
             (seq 0 n_shards);
  s ← build_root column;
  Ok {| primary_hash := p; secondary_hash := s |}.

Definition compute_metadata_from_symbol_hashes {E} (config : EncodingConfigEnum)
    (symbol_hashes : list Node) (unencoded_length : Z) : outcome E BlobMetadataWithId :=
  let n := Z.to_nat (n_shards config) in
  assert (length symbol_hashes =? n * n)%nat;;
  metadata ← mapM_outcome (pair_metadata_from_hashes n symbol_hashes) (seq 0 n);
  new_verified_from_metadata metadata (encoding_type config) unencoded_length.

(** *** Access to the blob *)

Definition symbol_at {E} self (row_index col_index : nat) : outcome E (list byte) :=
  let start_index := Nat.min (be_symbol_usize self * (n_columns_usize self * row_index + col_index))
                       (length (be_blob self)) in
  let end_index := Nat.min (start_index + be_symbol_usize self) (length (be_blob self)) in
  slice start_index end_index (be_blob self).

(** One column of [column_symbols]; the code produces them lazily. *)
Definition column_at {E} self (col_index : nat) : outcome E (list (list byte)) :=
  mapM_outcome (fun row_index => symbol_at self row_index col_index) (seq 0 (n_rows_usize self)).

Definition column_symbols {E} self : outcome E (list (list (list byte))) :=
  mapM_outcome (column_at self) (seq 0 (n_columns_usize self)).

Definition rows self : list (list byte) :=
  chunks (n_columns_usize self * be_symbol_usize self) (be_blob self).

Definition rows_all {E} self : outcome E (list (list byte)) :=
  mapM_outcome (fun row_index =>
    let start_index := Nat.min (be_symbol_usize self * (n_columns_usize self * row_index))
                         (length (be_blob self)) in
    let end_index := Nat.min (start_index + be_symbol_usize self * n_columns_usize self)
                       (length (be_blob self)) in
    slice start_index end_index (be_blob self)) (seq 0 (n_rows_usize self)).

(** *** Parts of [encode_with_metadata] *)

(** A row is encoded and its repair symbols go to the slivers after the first
    [skip] ones, at position [r]. *)
Definition encode_row {E} (skip : nat) (s : ReedSolomonEncoder * list SliverData)
    (row : nat * list byte) : outcome E (ReedSolomonEncoder * list SliverData) :=
  let '(encoder, slivers) := s in
  let '(r, data) := row in
  '(recovery, encoder) ← expect_ok (encode encoder data);
  slivers ← zip_update_skip skip (fun sliver symbol => copy_symbol_to sliver r symbol)
              slivers recovery;
  Ok (encoder, slivers).

(** The hashes of the symbols of one expanded column. *)
Definition hash_column {E} (n_shards col_index : nat) (symbol_hashes : list Node)
    (symbols : Symbols) : outcome E (list Node) :=
  foldM (fun hashes '(row_index, symbol) =>
           set_index hashes (n_shards * row_index + col_index) (leaf_hash symbol))
    symbol_hashes (enumerate (to_symbols symbols)).

(** The second loop of [encode_with_metadata], for one column. *)
Definition encode_column {E} self
    (s : ReedSolomonEncoder * list SliverData * list Node) (column : nat * SliverData) :
    outcome E (ReedSolomonEncoder * list SliverData * list Node) :=
  let '(encoder, primary_slivers, symbol_hashes) := s in
  let '(col_index, sliver) := column in
  '(symbols, encoder) ← expect_ok (encode_all_ref encoder (sym_data (sliver_symbols sliver)));
  symbol_hashes ← hash_column (n_shards_usize self) col_index symbol_hashes symbols;
  primary_slivers ←
    (if (col_index <? n_columns_usize self)%nat
     then zip_update_skip (n_rows_usize self) (fun sliver symbol => copy_symbol_to sliver col_index symbol)
            primary_slivers (drop (n_rows_usize self) (to_symbols symbols))
     else Ok primary_slivers);
  Ok (encoder, primary_slivers, symbol_hashes).

(** [BlobEncoder::encode_with_metadata]. *)
Definition encode_with_metadata {E} self : outcome E (list SliverPair * BlobMetadataWithId) :=
  unencoded_length ← expect (try_from 64 (len (be_blob self)));
  let primary_slivers := empty_slivers_range Primary self 0 (be_n_rows self) in
  let secondary_slivers := empty_slivers Secondary self in
  primary_slivers ← zip_update (fun sliver row => map_symbols (fun s => write_prefix_data s row) sliver)
                      primary_slivers (rows self);
  columns ← column_symbols self;
  secondary_slivers ← zip_update (fun sliver column => map_symbols (fun s => write_prefixes s column) sliver)
                        secondary_slivers columns;
  secondary_encoder ← be_get_encoder Secondary self;
  '(_, secondary_slivers) ← foldM (encode_row (n_columns_usize self))
    (secondary_encoder, secondary_slivers)
    (enumerate ((fun s => sym_data (sliver_symbols s)) <$> take (n_rows_usize self) primary_slivers));
  let n := n_shards_usize self in
  let symbol_hashes := replicate (n * n) Empty in
  let primary_slivers := primary_slivers ++
    empty_slivers_range Primary self (be_n_rows self) (n_shards (be_config self)) in
  primary_encoder ← be_get_encoder Primary self;
  '(_, primary_slivers, symbol_hashes) ← foldM (encode_column self)
    (primary_encoder, primary_slivers, symbol_hashes) (enumerate secondary_slivers);
  let sliver_pairs := zip_with (fun p s => {| primary := p; secondary := s |})
                        primary_slivers (rev secondary_slivers) in
  metadata ← compute_metadata_from_symbol_hashes (be_config self) symbol_hashes unencoded_length;
  Ok (sliver_pairs, metadata).

(** *** [compute_metadata] *)

(** One row: a short row is copied to the buffer, the rest of which is cleared. *)
Definition metadata_row {E} (row_length_bytes : nat)
    (s : ReedSolomonEncoder * Symbols * list SliverData) (row : nat * list byte) :
    outcome E (ReedSolomonEncoder * Symbols * list SliverData) :=
  let '(encoder, buffer, slivers) := s in
  let '(r, data) := row in
  let current_row_len := length data in
  '(buffer, data) ←
    (if (current_row_len <? row_length_bytes)%nat then
       d ← write_range current_row_len row_length_bytes
             (replicate (row_length_bytes - current_row_len) x00) (sym_data buffer);
       d ← write_range 0 current_row_len data d;
       Ok (mk_symbols d (symbol_size buffer), d)
     else Ok (buffer, data));
  '(encoder, slivers) ← encode_row 0 (encoder, slivers) (r, data);
  Ok (encoder, buffer, slivers).

(** One systematic column. *)
Definition metadata_column {E} (n_shards : nat)
    (s : ReedSolomonEncoder * Symbols * list Node) (column : nat * list (list byte)) :
    outcome E (ReedSolomonEncoder * Symbols * list Node) :=
  let '(encoder, buffer, symbol_hashes) := s in
  let '(col_index, column_symbols) := column in
  let buffer := mk_symbols (replicate (length (sym_data buffer)) x00) (symbol_size buffer) in
  buffer ← write_prefixes buffer column_symbols;
  '(symbols, encoder) ← expect_ok (encode_all_ref encoder (sym_data buffer));
  symbol_hashes ← hash_column n_shards col_index symbol_hashes symbols;
  Ok (encoder, buffer, symbol_hashes).

(** One non-systematic column. *)
Definition metadata_repair_column {E} (n_shards n_columns : nat)
    (s : ReedSolomonEncoder * list Node) (column : nat * SliverData) :
    outcome E (ReedSolomonEncoder * list Node) :=
  let '(encoder, symbol_hashes) := s in
  let '(col_index, sliver) := column in
  let col_index := (col_index + n_columns)%nat in
  '(symbols, encoder) ← expect_ok (encode_all_ref encoder (sym_data (sliver_symbols sliver)));
  symbol_hashes ← hash_column n_shards col_index symbol_hashes symbols;
  Ok (encoder, symbol_hashes).

(** [BlobEncoder::compute_metadata]. *)
Definition compute_metadata {E} self : outcome E BlobMetadataWithId :=
  unencoded_length ← expect (try_from 64 (len (be_blob self)));
  let n := n_shards_usize self in
  n_non_systematic ← arith 64 (Z.of_nat n - Z.of_nat (n_columns_usize self));
  let slivers := replicate (Z.to_nat n_non_systematic) (empty_sliver Secondary self 0) in
  secondary_encoder ← be_get_encoder Secondary self;
  let buffer := symbols_zeros (n_columns_usize self) (be_symbol_size self) in
  let row_length_bytes := (be_symbol_usize self * n_columns_usize self)%nat in
  data ← rows_all self;
  '(_, _, slivers) ← foldM (metadata_row row_length_bytes) (secondary_encoder, buffer, slivers)
                       (enumerate data);
  let symbol_hashes := replicate (n * n) Empty in
  primary_encoder ← be_get_encoder Primary self;
  let buffer := symbols_zeros (n_rows_usize self) (be_symbol_size self) in
  columns ← column_symbols self;
  '(primary_encoder, _, symbol_hashes) ←
    foldM (metadata_column n) (primary_encoder, buffer, symbol_hashes) (enumerate columns);
  '(_, symbol_hashes) ← foldM (metadata_repair_column n (n_columns_usize self))
                          (primary_encoder, symbol_hashes) (enumerate slivers);
  compute_metadata_from_symbol_hashes (be_config self) symbol_hashes unencoded_length.

(** ** [ExpandedMessageMatrix] *)

Definition fill_systematic_with_rows {E} (s : ExpandedMessageMatrix) :
    outcome E ExpandedMessageMatrix :=
  m ← zip_update (fun destination_row row => write_prefix_data destination_row row) (em_matrix s)
        (chunks (em_n_columns s * Z.to_nat (em_symbol_size s)) (em_blob s));
  Ok (set_matrix s m).

(** The symbols are written one after the other from position [from] on. *)
Definition write_symbols {E} (from : nat) (row : Symbols) (symbols : list (list byte)) :
    outcome E Symbols :=
  foldM (fun row '(i, symbol) => symbols_write row (from + i) symbol) row (enumerate symbols).

(** One row of [expand_rows_for_secondary]. *)
Definition expand_row {E} (config : EncodingConfigEnum) (n_columns : nat) (row : Symbols) :
    outcome E Symbols :=
  data ← symbols_index_range row 0 n_columns;
  repair ← expect_ok (encode_all_repair_symbols Secondary config data);
  write_symbols n_columns row (to_symbols repair).

Definition expand_rows_for_secondary {E} (s : ExpandedMessageMatrix) :
    outcome E ExpandedMessageMatrix :=
  l ← mapM_outcome (expand_row (em_config s) (em_n_columns s)) (take (em_n_rows s) (em_matrix s));
  Ok (set_matrix s (l ++ drop (em_n_rows s) (em_matrix s))).

(** One column of [expand_all_columns]; the result of [extend] is ignored. *)
Definition expand_column {E} (s : ExpandedMessageMatrix) (col_index : nat) :
    outcome E ExpandedMessageMatrix :=
  column ← foldM (fun column row =>
      symbol ← symbols_index row col_index;
      Ok (match symbols_extend column symbol with Ok c => c | _ => column end))
    (symbols_with_capacity (em_n_rows s) (em_symbol_size s)) (take (em_n_rows s) (em_matrix s));
  repair ← expect_ok (encode_all_repair_symbols Primary (em_config s) (sym_data column));
  m ← foldM (fun m '(row_index, symbol) =>
        row ← index m (em_n_rows s + row_index);
        row ← symbols_write row col_index symbol;
        set_index m (em_n_rows s + row_index) row)
      (em_matrix s) (enumerate (to_symbols repair));
  Ok (set_matrix s m).

Definition expand_all_columns {E} (s : ExpandedMessageMatrix) : outcome E ExpandedMessageMatrix :=
  foldM expand_column s (seq 0 (Z.to_nat (n_shards (em_config s)))).

(** [ExpandedMessageMatrix::new]. *)
Definition expanded_matrix_new {E} (config : EncodingConfigEnum) (symbol_size : Z)
    (blob : list byte) : outcome E ExpandedMessageMatrix :=
  let n := Z.to_nat (n_shards config) in
  let s := {| em_matrix := replicate n (symbols_zeros n symbol_size); em_blob := blob;
              em_config := config; em_n_rows := Z.to_nat (n_source_symbols Primary config);
              em_n_columns := Z.to_nat (n_source_symbols Secondary config);
              em_symbol_size := symbol_size |} in
  s ← fill_systematic_with_rows s;
  s ← expand_rows_for_secondary s;
  expand_all_columns s.

(** One column of [expanded_column_symbols], in reverse order.  The iterators
    are lazy: a symbol is read when it is consumed, so a column is a list of
    reads. *)
Definition expanded_column_at {E} (s : ExpandedMessageMatrix) (col_index : nat) :
    list (outcome E (list byte)) :=
  (fun row =>
     p ← expect (try_from 16 (Z.of_nat col_index));
     i ← to_sliver_index Secondary (mk_pair_index p) (n_shards (em_config s));
     symbols_index row (Z.to_nat (sliver_index_get i))) <$> em_matrix s.

Definition expanded_column_symbols {E} (s : ExpandedMessageMatrix) :
    list (list (outcome E (list byte))) :=
  expanded_column_at s <$> seq 0 (length (em_matrix s)).

Definition get_metadata {E} (s : ExpandedMessageMatrix) : outcome E BlobMetadataWithId :=
  let n := Z.to_nat (n_shards (em_config s)) in
  symbol_hashes ← mapM_outcome (fun '(row, col) =>
      r ← index (em_matrix s) row;
      symbol ← symbols_index r col;
      Ok (leaf_hash symbol))
    (list_prod (seq 0 n) (seq 0 n));
  unencoded_length ← expect (try_from 64 (len (em_blob s)));
  compute_metadata_from_symbol_hashes (em_config s) symbol_hashes unencoded_length.

(** [target_slice.copy_from_slice(symbol)] for every symbol of a sliver. *)
Definition copy_symbols {E} (s : Symbols) (symbols : list (outcome E (list byte))) :
    outcome E Symbols :=
  l ← zip_update (fun target symbol =>
        symbol ← symbol; write_range 0 (length target) symbol target)
        (to_symbols s) symbols;
  Ok (mk_symbols (concat l) (symbol_size s)).

Definition write_secondary_slivers {E} (s : ExpandedMessageMatrix) (sliver_pairs : list SliverPair) :
    outcome E (list SliverPair) :=
  zip_update (fun pair symbols =>
      sliver ← map_symbols (fun w => copy_symbols w symbols) (secondary pair);
      Ok {| primary := primary pair; secondary := sliver |})
    sliver_pairs (expanded_column_symbols s).

Definition drop_recovery_symbols (s : ExpandedMessageMatrix) : ExpandedMessageMatrix :=
  set_matrix s (take (em_n_rows s) (em_matrix s) ++
    (symbols_truncate (em_n_columns s) <$> drop (em_n_rows s) (em_matrix s))).

Definition write_primary_slivers {E} (s : ExpandedMessageMatrix) (sliver_pairs : list SliverPair) :
    outcome E (list SliverPair) :=
  zip_update (fun pair row =>
      let row := symbols_truncate (Z.to_nat (n_source_symbols Secondary (em_config s))) row in
      Ok {| primary := {| sliver_symbols := row; sliver_idx := sliver_idx (primary pair) |};
            secondary := secondary pair |})
    sliver_pairs (em_matrix s).

(** [BlobEncoder::get_expanded_matrix]. *)
Definition get_expanded_matrix {E} self : outcome E ExpandedMessageMatrix :=
  expanded_matrix_new (be_config self) (be_symbol_size self) (be_blob self).

(** [BlobEncoder::encode_with_metadata_legacy]. *)
Definition encode_with_metadata_legacy {E} self : outcome E (list SliverPair * BlobMetadataWithId) :=
  expanded_matrix ← get_expanded_matrix self;
  metadata ← get_metadata expanded_matrix;
  let expanded_matrix := drop_recovery_symbols expanded_matrix in
  sliver_pairs ← empty_sliver_pairs self;
  sliver_pairs ← write_secondary_slivers expanded_matrix sliver_pairs;
  sliver_pairs ← write_primary_slivers expanded_matrix sliver_pairs;
  Ok (sliver_pairs, metadata).

(** ** Consistency check *)

Definition systematic_primary_sliver {E} self (index : Z) : outcome E SliverData :=
  let sliver := empty_sliver Primary self index in
  match rows self !! Z.to_nat index with
  | Some row => map_symbols (fun s => write_prefix_data s row) sliver
  | None => Ok sliver
  end.

Definition default_consistency_check self (metadata : BlobMetadataWithId)
    (already_verified_slivers : option (list bool)) : outcome DecodeError unit :=
  let n_systematic_primary_slivers := n_systematic_slivers Primary (be_config self) in
  match already_verified_slivers with
  | Some l => assert (len l =? n_systematic_primary_slivers)
  | None => Ok tt
  end;;
  foldM (fun _ i =>
      verified ← (match already_verified_slivers with
                  | Some l => index l i
                  | None => Ok false
                  end);
      if (verified : bool) then Ok tt else
      sliver ← systematic_primary_sliver self (Z.of_nat i);
      map_err (fun _ => DecodeVerificationError)
        (check_hash Primary sliver (be_config self) (Metadata.metadata metadata)))
    tt (seq 0 (Z.to_nat n_systematic_primary_slivers)).

End encoder.
