(* ===== verification/SymbolVectors.v ===== *)
(** * Symbol buffers given by functions

    [vec b m f] is the buffer of the [m] symbols [f 0], .., [f (m - 1)] of [b]
    bytes each.  The lemmas express every operation the encoder and the decoder
    apply to a buffer as an operation on the function, so that loops over
    buffers are described by what they make of it.
    [grid b r c G] is the buffer of the symbols [G i j], row by row, as the workspace
    of the blob decoder is laid out. *)

From S2P Require Import Prelude Core Symbols Loops ReedSolomon ProductCode Merkle Metadata.
From S2P Require Import RecoverySymbols Slivers BlobEncoder.

(** ** Vectors of symbols *)

Definition vec (b : Z) (m : nat) (f : nat -> shard) : Symbols := of_symbols b (f <$> seq 0 m).

(** The function with one value changed. *)
Definition fupd {A} (f : nat -> A) (i : nat) (x : A) : nat -> A :=
  fun j => if decide (j = i) then x else f j.

Lemma fmap_seq_ext {A} (f g : nat -> A) k m :
  (forall i, (k <= i < k + m)%nat -> f i = g i) -> f <$> seq k m = g <$> seq k m.
Proof.
  intros Hfg. apply list_fmap_ext. intros i x Hi. apply lookup_seq in Hi as [-> Hi].
  apply Hfg. lia.
Qed.

Lemma fmap_seq_const {A} (x : A) k m : (fun _ => x) <$> seq k m = replicate m x.
Proof. revert k. induction m as [|m IH]; intros k; cbn; [done|]. f_equal. apply IH. Qed.

Lemma fmap_seq_shift {A} (f : nat -> A) k m : f <$> seq k m = (fun i => f (k + i)%nat) <$> seq 0 m.
Proof.
  apply list_eq. intros i. rewrite !list_lookup_fmap. destruct (decide (i < m)%nat).
  - by rewrite !lookup_seq_lt.
  - by rewrite !lookup_seq_ge by lia.
Qed.

Lemma insert_fmap_seq {A} (f : nat -> A) m i x : (i < m)%nat ->
  <[i := x]> (f <$> seq 0 m) = fupd f i x <$> seq 0 m.
Proof.
  intros Hi. apply list_eq. intros j. rewrite list_lookup_fmap.
  destruct (decide (i = j)) as [->|Hne].
  - rewrite list_lookup_insert_eq by (by rewrite length_fmap, length_seq).
    rewrite lookup_seq_lt by done. cbn. unfold fupd. by rewrite decide_True.
  - rewrite list_lookup_insert_ne, list_lookup_fmap by done.
    destruct (seq 0 m !! j) as [p|] eqn:Hp; [|done]. apply lookup_seq in Hp as [-> _]. cbn.
    unfold fupd. by rewrite decide_False.
Qed.

Lemma take_fmap_seq {A} (f : nat -> A) k m : (k <= m)%nat -> take k (f <$> seq 0 m) = f <$> seq 0 k.
Proof. intros Hk. rewrite <- fmap_take, take_seq. by rewrite Nat.min_l. Qed.

Lemma drop_fmap_seq {A} (f : nat -> A) k m : drop k (f <$> seq 0 m) = f <$> seq k (m - k).
Proof. by rewrite <- fmap_drop, drop_seq. Qed.

Section vec.
Context (b : Z) (Hb : 0 < b).
Implicit Types f g : nat -> shard.

(** All symbols have [b] bytes. *)
Definition bytes_sized (m : nat) f : Prop := forall i, (i < m)%nat -> length (f i) = Z.to_nat b.

Lemma sized_seq k m f : (forall i, (k <= i < k + m)%nat -> length (f i) = Z.to_nat b) ->
  sized b (f <$> seq k m).
Proof. intros Hf. apply Forall_fmap, Forall_forall. intros i Hi%elem_of_seq. by apply Hf. Qed.

Lemma bytes_sized_seq m f : bytes_sized m f -> sized b (f <$> seq 0 m).
Proof. intros Hf. apply sized_seq. intros i Hi. apply Hf. lia. Qed.

Lemma bytes_sized_fupd m f i x : bytes_sized m f -> length x = Z.to_nat b -> bytes_sized m (fupd f i x).
Proof. intros Hf Hx j Hj. unfold fupd. case_decide; [done|]. by apply Hf. Qed.

Lemma vec_ext m f g : (forall i, (i < m)%nat -> f i = g i) -> vec b m f = vec b m g.
Proof. intros Hfg. unfold vec. f_equal. apply fmap_seq_ext. intros i Hi. apply Hfg. lia. Qed.

Lemma vec_zeros m : symbols_zeros m b = vec b m (fun _ => zero_symbol b).
Proof. unfold vec. by rewrite symbols_zeros_of, fmap_seq_const. Qed.

Lemma vec_symbols m f : bytes_sized m f -> to_symbols (vec b m f) = f <$> seq 0 m.
Proof. intros Hf. apply to_symbols_of; [done|by apply bytes_sized_seq]. Qed.

Lemma vec_index {E} m f i : bytes_sized m f -> (i < m)%nat ->
  symbols_index (E:=E) (vec b m f) i = Ok (f i).
Proof.
  intros Hf Hi. apply symbols_index_of; [done|by apply bytes_sized_seq|].
  by rewrite list_lookup_fmap, lookup_seq_lt.
Qed.

Lemma vec_index_range {E} m f i j : bytes_sized m f -> (i <= j)%nat -> (j <= m)%nat ->
  symbols_index_range (E:=E) (vec b m f) i j = Ok (concat (f <$> seq i (j - i))).
Proof.
  intros Hf Hi Hj. unfold vec.
  rewrite symbols_index_range_of;
    [|done|by apply bytes_sized_seq|done|by rewrite length_fmap, length_seq].
  rewrite drop_fmap_seq. do 2 f_equal. rewrite <- fmap_take, take_seq. f_equal. f_equal. lia.
Qed.

Lemma vec_write {E} m f i x : bytes_sized m f -> (i < m)%nat -> length x = Z.to_nat b ->
  symbols_write (E:=E) (vec b m f) i x = Ok (vec b m (fupd f i x)).
Proof.
  intros Hf Hi Hx. unfold vec. rewrite symbols_write_of;
    [|done|by apply bytes_sized_seq|by rewrite length_fmap, length_seq|done].
  by rewrite insert_fmap_seq.
Qed.

Lemma vec_truncate m f k : bytes_sized m f -> (k <= m)%nat ->
  symbols_truncate k (vec b m f) = vec b k f.
Proof.
  intros Hf Hk. unfold vec. rewrite symbols_truncate_of by by apply bytes_sized_seq.
  by rewrite take_fmap_seq.
Qed.

Lemma vec_len m f : bytes_sized m f -> symbols_len (vec b m f) = m.
Proof.
  intros Hf. unfold vec. rewrite symbols_len_of; [|done|by apply bytes_sized_seq].
  by rewrite length_fmap, length_seq.
Qed.

Lemma vec_data_length m f : bytes_sized m f -> length (sym_data (vec b m f)) = (m * Z.to_nat b)%nat.
Proof.
  intros Hf. unfold vec. rewrite length_of_symbols by by apply bytes_sized_seq.
  by rewrite length_fmap, length_seq.
Qed.

Lemma vec_copy_symbol {E} m f idx i x : bytes_sized m f -> (i < m)%nat -> length x = Z.to_nat b ->
  copy_symbol_to (E:=E) {| sliver_symbols := vec b m f; sliver_idx := idx |} i x =
    Ok {| sliver_symbols := vec b m (fupd f i x); sliver_idx := idx |}.
Proof.
  intros Hf Hi Hx. unfold copy_symbol_to. cbn [sliver_symbols sliver_idx].
  unfold symbol_usize. change (symbol_size (vec b m f)) with b.
  rewrite (proj2 (Nat.eqb_eq _ _) Hx). cbn [assert mbind outcome_bind].
  by rewrite vec_write.
Qed.

(** ** Padding *)

Lemma write_prefix_zeros {E} (k : nat) (x : list byte) : (length x <= k)%nat ->
  write_prefix (E:=E) (replicate k x00) x = Ok (pad_symbol k x).
Proof.
  intros Hx. unfold write_prefix, write_range. rewrite length_replicate.
  rewrite (proj2 (Nat.leb_le _ _) Hx), Nat.sub_0_r, Nat.eqb_refl. cbn [Nat.leb andb take app].
  unfold pad_symbol. by rewrite drop_replicate.
Qed.

(** A short row in the buffer, whatever the buffer held. *)
Lemma buffer_row {E} (x buf : list byte) k : length buf = k -> (length x <= k)%nat ->
  (d ← write_range (E:=E) (length x) k (replicate (k - length x) x00) buf;
   write_range 0 (length x) x d) = Ok (pad_symbol k x).
Proof.
  intros Hbuf Hx.
  assert (write_range (E:=E) (length x) k (replicate (k - length x) x00) buf =
    Ok (take (length x) buf ++ replicate (k - length x) x00)) as ->.
  { unfold write_range. rewrite Hbuf, length_replicate, Nat.eqb_refl.
    rewrite (proj2 (Nat.leb_le _ _) Hx), Nat.leb_refl. cbn [andb].
    by rewrite (drop_ge buf k), app_nil_r by lia. }
  cbn [mbind outcome_bind]. unfold write_range. cbn [Nat.leb andb].
  rewrite length_app, length_take, length_replicate, Nat.sub_0_r, Nat.eqb_refl.
  rewrite (proj2 (Nat.leb_le _ _)) by lia. cbn [andb take app]. unfold pad_symbol.
  rewrite take_0. cbn [app]. by rewrite drop_app_length' by (rewrite length_take; lia).
Qed.

(** A padded byte string, cut into padded symbols. *)
Lemma pad_concat (k m : nat) (l : list byte) : (length l <= m * k)%nat ->
  pad_symbol (m * k) l = concat ((fun v => pad_symbol k (take k (drop (k * v) l))) <$> seq 0 m).
Proof.
  revert l. induction m as [|m IH]; intros l Hl.
  { cbn in Hl. destruct l; [done|cbn in Hl; lia]. }
  rewrite <- cons_seq, fmap_cons. cbn [concat]. rewrite Nat.mul_0_r, drop_0.
  rewrite <- fmap_S_seq, <- list_fmap_compose.
  rewrite (fmap_seq_ext _ (fun v => pad_symbol k (take k (drop (k * v) (drop k l))))); cycle 1.
  { intros v _. cbn. rewrite drop_drop. do 3 f_equal. lia. }
  rewrite <- IH by (rewrite length_drop; lia). unfold pad_symbol.
  rewrite length_take, length_drop.
  destruct (Nat.le_ge_cases k (length l)) as [Hk|Hk].
  - rewrite Nat.min_l by lia. replace (k - k)%nat with 0%nat by lia. cbn [replicate].
    rewrite app_nil_r, app_assoc, take_drop. do 2 f_equal. lia.
  - rewrite Nat.min_r by lia. rewrite take_ge, drop_ge by lia. cbn [app].
    rewrite <- app_assoc, <- replicate_add. do 2 f_equal. lia.
Qed.

Lemma vec_write_prefixes {E} m (raw : nat -> list byte) :
  (forall i, (i < m)%nat -> (length (raw i) <= Z.to_nat b)%nat) ->
  write_prefixes (E:=E) (vec b m (fun _ => zero_symbol b)) (raw <$> seq 0 m) =
    Ok (vec b m (fun i => pad_symbol (Z.to_nat b) (raw i))).
Proof.
  intros Hraw. unfold write_prefixes. rewrite vec_symbols by (intros i Hi; apply length_replicate).
  rewrite (zip_update_seq write_prefix _ (fun i => pad_symbol (Z.to_nat b) (raw i))); [done|].
  intros i Hi. rewrite list_lookup_fmap, lookup_seq_lt by done. cbn.
  apply write_prefix_zeros. by apply Hraw.
Qed.

Lemma vec_write_row {E} m (row : list byte) : (length row <= m * Z.to_nat b)%nat ->
  write_prefix_data (E:=E) (vec b m (fun _ => zero_symbol b)) row =
    Ok (vec b m (fun v => pad_symbol (Z.to_nat b) (take (Z.to_nat b) (drop (Z.to_nat b * v) row)))).
Proof.
  intros Hr. unfold write_prefix_data. cbn [vec of_symbols sym_data symbol_size].
  unfold zero_symbol. rewrite fmap_seq_const, concat_replicate, write_prefix_zeros by done.
  cbn [mbind outcome_bind]. by rewrite pad_concat.
Qed.

End vec.

(** ** Buffers that hold a matrix *)

Definition grid (b : Z) (r c : nat) (G : nat -> nat -> shard) : Symbols :=
  vec b (r * c) (fun p => G (p / c)%nat (p mod c)%nat).

(** All symbols have [b] bytes. *)
Definition grid_sized (b : Z) (r c : nat) (G : nat -> nat -> shard) : Prop :=
  forall i j, (i < r)%nat -> (j < c)%nat -> length (G i j) = Z.to_nat b.

Definition grid_upd (G : nat -> nat -> shard) (i j : nat) (x : shard) : nat -> nat -> shard :=
  fun u v => if decide (u = i /\ v = j) then x else G u v.

Section grid.
Context (b : Z) (Hb : 0 < b) (r c : nat) (Hc : (0 < c)%nat).
Implicit Types G : nat -> nat -> shard.

Lemma position_lt i j : (i < r)%nat -> (j < c)%nat -> (i * c + j < r * c)%nat.
Proof. nia. Qed.

Lemma position_div i j : (j < c)%nat -> ((i * c + j) / c = i /\ (i * c + j) mod c = j)%nat.
Proof.
  intros Hj. split.
  - rewrite Nat.div_add_l, Nat.div_small by lia. lia.
  - rewrite Nat.add_comm, Nat.Div0.mod_add. by apply Nat.mod_small.
Qed.

Lemma position_bounds p : (p < r * c)%nat -> (p / c < r)%nat /\ (p mod c < c)%nat.
Proof.
  intros Hp. split; [apply Nat.Div0.div_lt_upper_bound; lia|apply Nat.mod_upper_bound; lia].
Qed.

Lemma grid_bytes G : grid_sized b r c G -> bytes_sized b (r * c) (fun p => G (p / c)%nat (p mod c)%nat).
Proof. intros HG p Hp. destruct (position_bounds p Hp). by apply HG. Qed.

Lemma grid_ext G G' : (forall i j, (i < r)%nat -> (j < c)%nat -> G i j = G' i j) ->
  grid b r c G = grid b r c G'.
Proof. intros HG. apply vec_ext. intros p Hp. destruct (position_bounds p Hp). by apply HG. Qed.

Lemma grid_upd_sized G i j x : grid_sized b r c G -> length x = Z.to_nat b ->
  grid_sized b r c (grid_upd G i j x).
Proof. intros HG Hx u v Hu Hv. unfold grid_upd. case_decide; [done|by apply HG]. Qed.

Lemma grid_index {E} G i j : grid_sized b r c G -> (i < r)%nat -> (j < c)%nat ->
  symbols_index (E:=E) (grid b r c G) (i * c + j) = Ok (G i j).
Proof.
  intros HG Hi Hj. unfold grid. rewrite vec_index; [|done|by apply grid_bytes|by apply position_lt].
  by destruct (position_div i j Hj) as [-> ->].
Qed.

Lemma grid_write {E} G i j x : grid_sized b r c G -> (i < r)%nat -> (j < c)%nat ->
  length x = Z.to_nat b ->
  symbols_write (E:=E) (grid b r c G) (i * c + j) x = Ok (grid b r c (grid_upd G i j x)).
Proof.
  intros HG Hi Hj Hx. unfold grid. rewrite vec_write; [|done|by apply grid_bytes|by apply position_lt|done].
  f_equal. apply vec_ext. intros p Hp. unfold fupd, grid_upd. pose proof (Nat.div_mod_eq p c) as Hdm.
  destruct (decide (p = i * c + j)%nat) as [->|Hne].
  - destruct (position_div i j Hj) as [-> ->]. by rewrite decide_True.
  - rewrite decide_False; [done|]. intros [Hpi Hpj]. apply Hne. rewrite Hdm, Hpi, Hpj. lia.
Qed.

Lemma grid_data_length G : grid_sized b r c G ->
  length (sym_data (grid b r c G)) = (r * c * Z.to_nat b)%nat.
Proof. intros HG. unfold grid. by apply vec_data_length, grid_bytes. Qed.

(** The bytes, row by row. *)
Lemma grid_rows G : sym_data (grid b r c G) = concat ((fun i => concat (G i <$> seq 0 c)) <$> seq 0 r).
Proof.
  unfold grid, vec. cbn [of_symbols sym_data].
  rewrite fmap_div_mod_rows. induction (seq 0 r) as [|i l IH]; [done|].
  rewrite !fmap_cons. cbn [concat]. by rewrite concat_app, IH.
Qed.

(** A whole row is overwritten. *)
Lemma grid_write_row {E} G i (F : nat -> shard) : grid_sized b r c G -> (i < r)%nat ->
  bytes_sized b c F ->
  (let '(x, y) := symbol_range (grid b r c G) (c * i) (c * (i + 1)) in
   d ← write_range (E:=E) x y (concat (F <$> seq 0 c)) (sym_data (grid b r c G));
   Ok (mk_symbols d (symbol_size (grid b r c G)))) =
  Ok (grid b r c (fun u v => if decide (u = i) then F v else G u v)).
Proof.
  intros HG Hi HF. unfold symbol_range, symbol_usize. cbn [symbol_size grid vec of_symbols].
  set (bb := Z.to_nat b). unfold write_range.
  assert (length (concat (F <$> seq 0 c)) = c * bb)%nat as HFl.
  { rewrite (length_concat_const bb) by by apply bytes_sized_seq. by rewrite length_fmap, length_seq. }
  pose proof (grid_data_length G HG) as HGl. fold bb in HGl.
  rewrite HFl, HGl. rewrite !(proj2 (Nat.leb_le _ _)) by nia.
  rewrite (proj2 (Nat.eqb_eq _ _)) by nia. cbn [andb mbind outcome_bind]. f_equal.
  unfold grid at 3. unfold vec, of_symbols. f_equal.
  pose proof (bytes_sized_seq b _ _ (grid_bytes G HG)) as Hs.
  cbn [sym_data grid vec of_symbols]. rewrite (Nat.mul_comm bb), (Nat.mul_comm bb (c * (i + 1))).
  rewrite (concat_take_const _ _ _ Hs), (concat_drop_const _ _ _ Hs), <- !concat_app. f_equal.
  apply list_eq. intros p. rewrite list_lookup_fmap.
  destruct (decide (p < r * c)%nat) as [Hp|Hp]; cycle 1.
  { rewrite lookup_seq_ge by lia. apply lookup_ge_None_2.
    rewrite !length_app, length_take, length_drop, !length_fmap, !length_seq. nia. }
  rewrite lookup_seq_lt by done. cbn [fmap option_fmap option_map Nat.add].
  pose proof (Nat.div_mod_eq p c) as Hdm. destruct (position_bounds p Hp) as [Hpr Hpc].
  destruct (Nat.lt_ge_cases p (c * i)) as [Hlt|Hge].
  - rewrite lookup_app_l by (rewrite length_take, length_fmap, length_seq; nia).
    rewrite lookup_take_lt, list_lookup_fmap, lookup_seq_lt by lia.
    cbn. by rewrite decide_False by nia.
  - rewrite lookup_app_r by (rewrite length_take, length_fmap, length_seq; nia).
    rewrite length_take, length_fmap, length_seq, Nat.min_l by nia.
    destruct (Nat.lt_ge_cases p (c * (i + 1))) as [Hlt'|Hge'].
    + assert (p / c = i)%nat as Hpi by nia. rewrite lookup_app_l by (rewrite length_fmap, length_seq; nia).
      rewrite list_lookup_fmap, lookup_seq_lt by nia. cbn. rewrite Hpi, decide_True by done.
      do 2 f_equal. nia.
    + rewrite lookup_app_r by (rewrite length_fmap, length_seq; nia).
      rewrite length_fmap, length_seq, lookup_drop, list_lookup_fmap.
      replace (c * (i + 1) + (p - c * i - c))%nat with p by nia.
      rewrite lookup_seq_lt by done. cbn. by rewrite decide_False by nia.
Qed.

End grid.
