(* ===== verification/BlobEncoderProps.v ===== *)
(** * The encoder computes the expanded matrix

    For every blob that fits, [encode_with_metadata],
    [encode_with_metadata_legacy] and [compute_metadata] return without a
    panic, and what they return is the reference of [ProductCode]: the slivers
    of the expanded matrix of the blob, and metadata that commits to it. *)

From S2P Require Import Prelude Core EncodingConfig Symbols Loops ReedSolomon ProductCode.
From S2P Require Import Merkle Metadata RecoverySymbols Slivers SliverProps BlobEncoder.
From S2P Require Import SymbolVectors.

Lemma mapM_fmap_seq {E A B} (f : A -> outcome E B) (g : nat -> A) (h : nat -> B) m :
  (forall i, (i < m)%nat -> f (g i) = Ok (h i)) -> mapM_outcome f (g <$> seq 0 m) = Ok (h <$> seq 0 m).
Proof.
  intros Hf.
  assert (mapM_outcome f (g <$> seq 0 m) = mapM_outcome (fun i => f (g i)) (seq 0 m)) as ->.
  { generalize (seq 0 m). intros l. induction l as [|i l IH]; [done|]. cbn [fmap list_fmap mapM_outcome].
    by rewrite <- IH. }
  apply mapM_outcome_ok. intros i Hi%elem_of_seq. apply Hf. lia.
Qed.

(** Slivers given by a function: symbol [j] of sliver [i] is [F i j]. *)
Definition slivers_vec (b : Z) (m : nat) (F : nat -> nat -> shard) (k cnt : nat) : list SliverData :=
  (fun i => {| sliver_symbols := vec b m (F i); sliver_idx := mk_sliver_index (Z.of_nat i) |})
  <$> seq k cnt.

Lemma slivers_vec_ext b m F G k cnt :
  (forall i j, (k <= i < k + cnt)%nat -> (j < m)%nat -> F i j = G i j) ->
  slivers_vec b m F k cnt = slivers_vec b m G k cnt.
Proof.
  intros HFG. apply fmap_seq_ext. intros i Hi. f_equal. apply vec_ext. intros j Hj. by apply HFG.
Qed.

Lemma length_slivers_vec b m F k cnt : length (slivers_vec b m F k cnt) = cnt.
Proof. unfold slivers_vec. by rewrite length_fmap, length_seq. Qed.

Section new.
Context `{Build} `{Spec : ReedSolomonSpec}.
Context (n : Z) (Hn : is_nzu16 n) (blob : list byte).
Let c := enum_of n.

(** The crate supports the parameters of both encodings. *)
Definition supported (b : Z) : Prop := forall a,
  simd_supports (Z.to_nat (n_source_symbols a c)) (Z.to_nat (n - n_source_symbols a c))
    (Z.to_nat b) = true.

(** A new encoder. *)
Record encoder_of (self : BlobEncoder) (b : Z) : Prop := {
  encoder_of_self : self = {| be_blob := blob; be_symbol_size := b; be_n_rows := n_primary_of n;
                              be_n_columns := n_secondary_of n; be_config := c |};
  encoder_of_size : symbol_size_for_blob c (len blob) = Ok b;
  encoder_of_length : 0 <= len blob <= n_primary_of n * n_secondary_of n * b;
  encoder_of_params : forall a, axis_params a c b;
}.

(** Creation of an encoder depends on the symbol size alone. *)
Lemma blob_encoder_new_eq : len blob < 2 ^ 64 -> blob_encoder_new c blob =
  (b ← symbol_size_for_blob c (len blob);
   Ok {| be_blob := blob; be_symbol_size := b; be_n_rows := n_primary_of n;
         be_n_columns := n_secondary_of n; be_config := c |}).
Proof.
  intros Hl. unfold blob_encoder_new, symbol_size_for_blob, source_symbols_per_blob.
  change (n_primary_source_symbols c) with (n_primary_of n).
  change (n_secondary_source_symbols c) with (n_secondary_of n).
  rewrite source_symbols_per_blob_of_eq by done. cbn [mbind outcome_bind].
  unfold compute_symbol_size_from_usize. rewrite (proj2 (try_from_Some 64 _ _)) by (split; [done|lia]).
  done.
Qed.

(** The length of blobs with a symbol size. *)
Lemma symbol_size_for_blob_Ok l b : 0 <= l < 2 ^ 64 -> symbol_size_for_blob c l = Ok b ->
  l <= n_primary_of n * n_secondary_of n * b /\ 1 <= b < 2 ^ 16 /\ b mod 2 = 0.
Proof.
  intros Hl Hsize. pose proof (symbols_per_blob_bounds n Hn) as Hsb.
  assert (~ (n = 1 /\ l = u64_MAX)) as Hc.
  { intros [-> ->]. vm_compute in Hsize. by destruct H as [[] ?]. }
  pose proof (symbol_size_for_blob_eq n l Hn Hl Hc) as Heq.
  change (symbol_size_for_blob (rs_config_of n) l) with (symbol_size_for_blob c l) in Heq.
  rewrite Hsize in Heq.
  destruct (Z.leb_spec (Z.max l 1) (symbols_per_blob n * max_symbol_size RS2)) as [Hle|]; [|done].
  injection Heq as Hsz. pose proof (symbol_size_range n l Hn Hle) as Hr. rewrite <- Hsz in Hr.
  destruct (exact_symbol_size_least l (symbols_per_blob n) 2 ltac:(lia) ltac:(lia))
    as (_ & Heven & Hcov & _). rewrite <- Hsz in Heven, Hcov.
  unfold symbols_per_blob in Hcov. split_and!; [lia|lia|lia|done].
Qed.

Lemma supported_params b : supported b -> 1 <= b < 2 ^ 16 -> b mod 2 = 0 ->
  forall a, axis_params a c b.
Proof.
  intros Hsup Hb He a. specialize (Hsup a). pose proof (n_source_bounds n Hn) as Hk.
  unfold axis_params. change (n_shards c) with n. unfold is_nzu in Hn.
  constructor; [|lia|lia|done|done]. destruct a; cbn; lia.
Qed.

Lemma blob_encoder_new_ok b : len blob < 2 ^ 64 -> symbol_size_for_blob c (len blob) = Ok b ->
  supported b -> exists self, blob_encoder_new c blob = Ok self /\ encoder_of self b.
Proof.
  intros Hl Hsize Hsup. rewrite blob_encoder_new_eq, Hsize by done. eexists. split; [done|].
  destruct (symbol_size_for_blob_Ok (len blob) b ltac:(lia) Hsize) as (Hle & Hb & He).
  constructor; [done|done|lia|by apply supported_params].
Qed.

End new.

Section encoder.
Context `{Build} `{HashFunction} `{Spec : ReedSolomonSpec}.
Context (n : Z) (Hn : is_nzu16 n) (blob : list byte) (self : BlobEncoder).
Let c := enum_of n.

Section steps.
Context (b : Z) (He : encoder_of n blob self b).
Let kp := Z.to_nat (n_primary_of n).
Let ks := Z.to_nat (n_secondary_of n).
Let bb := Z.to_nat b.
Let nn := Z.to_nat n.
Let M := message bb ks blob.

Lemma sizes : 0 < b /\ (0 < kp)%nat /\ (kp <= nn)%nat /\ (0 < ks)%nat /\ (ks <= nn)%nat /\
  (0 < bb)%nat /\ (length blob <= kp * (ks * bb))%nat.
Proof.
  destruct He as [_ _ Hl Hp]. destruct (params_positive _ _ _ (Hp Primary)) as [_ Hb].
  pose proof (n_source_bounds n Hn). subst kp ks bb nn. split_and!; (lia || nia).
Qed.

Lemma M_length u v : length (M u v) = bb.
Proof. apply length_message. Qed.

Lemma M_sized u m : bytes_sized b m (M u).
Proof. intros i _. apply M_length. Qed.

(** The symbol of the blob before padding. *)
Definition raw (u v : nat) : list byte := take bb (drop (bb * (ks * u + v)) blob).

Lemma self_eq : be_symbol_usize self = bb /\ n_rows_usize self = kp /\ n_columns_usize self = ks /\
  n_shards_usize self = nn /\ be_config self = c /\ be_blob self = blob /\ be_symbol_size self = b.
Proof. by rewrite (encoder_of_self _ _ _ _ He). Qed.

(** Reading between two positions clipped to the length of the blob. *)
Lemma slice_clipped {E} (p k : nat) :
  slice (E:=E) (Nat.min p (length blob)) (Nat.min (Nat.min p (length blob) + k) (length blob)) blob =
    Ok (take k (drop p blob)).
Proof.
  unfold slice. rewrite (proj2 (Nat.leb_le _ _)) by lia. rewrite (proj2 (Nat.leb_le _ _)) by lia.
  cbn [andb]. f_equal. destruct (Nat.le_ge_cases p (length blob)) as [Hp|Hp].
  - rewrite (Nat.min_l p) by done. destruct (Nat.le_ge_cases (p + k) (length blob)).
    + rewrite Nat.min_l by done. f_equal. lia.
    + rewrite Nat.min_r by done. rewrite !take_ge by (rewrite length_drop; lia). done.
  - rewrite (Nat.min_r p) by done. rewrite !drop_ge by lia. by rewrite !take_nil.
Qed.

Lemma symbol_at_ok {E} u v : symbol_at (E:=E) self u v = Ok (raw u v).
Proof.
  unfold symbol_at. destruct self_eq as (-> & _ & -> & _ & _ & -> & _). apply slice_clipped.
Qed.

Lemma column_symbols_ok {E} :
  column_symbols (E:=E) self = Ok ((fun v => (fun u => raw u v) <$> seq 0 kp) <$> seq 0 ks).
Proof.
  unfold column_symbols, column_at. destruct self_eq as (_ & -> & -> & _).
  apply mapM_outcome_ok. intros v _. apply mapM_outcome_ok. intros u _. apply symbol_at_ok.
Qed.

Lemma empty_sliver_eq a i : empty_sliver a self i =
  {| sliver_symbols := vec b (sliver_symbols_count a c) (fun _ => zero_symbol b);
     sliver_idx := mk_sliver_index i |}.
Proof.
  unfold empty_sliver, sliver_new_empty. destruct self_eq as (_ & _ & _ & _ & -> & _ & ->).
  by rewrite vec_zeros.
Qed.

Lemma empty_slivers_range_eq a k cnt : 0 <= k -> empty_slivers_range a self k (k + Z.of_nat cnt) =
  slivers_vec b (sliver_symbols_count a c) (fun _ _ => zero_symbol b) (Z.to_nat k) cnt.
Proof.
  intros Hk. unfold empty_slivers_range, slivers_vec.
  replace (Z.to_nat (k + Z.of_nat cnt - k)) with cnt by lia.
  apply fmap_seq_ext. intros i _. apply empty_sliver_eq.
Qed.

(** Row [u] of the blob, padded, is row [u] of the message matrix. *)
Lemma row_message u : (u * (ks * bb) < length blob)%nat ->
  rows self !! u = Some (take (ks * bb) (drop (u * (ks * bb)) blob)).
Proof.
  intros Hu. unfold rows. destruct self_eq as (-> & _ & -> & _ & _ & -> & _).
  pose proof sizes. apply chunks_lookup; [nia|done].
Qed.

Lemma row_beyond u : (length blob <= u * (ks * bb))%nat -> rows self !! u = None.
Proof.
  intros Hu. unfold rows. destruct self_eq as (-> & _ & -> & _ & _ & -> & _). pose proof sizes.
  apply chunks_lookup_None; [nia|done].
Qed.

Lemma message_row u v : (v < ks)%nat ->
  pad_symbol bb (take bb (drop (bb * v) (take (ks * bb) (drop (u * (ks * bb)) blob)))) = M u v.
Proof.
  intros Hv. unfold M, message. f_equal. rewrite skipn_firstn_comm.
  rewrite drop_drop, take_take. replace (Nat.min _ _) with bb by nia. do 2 f_equal. lia.
Qed.

Lemma message_beyond u v : (length blob <= u * (ks * bb))%nat -> M u v = zero_symbol b.
Proof.
  intros Hu. unfold M, message. rewrite drop_ge by nia. rewrite take_nil.
  unfold pad_symbol, zero_symbol. cbn. by rewrite Nat.sub_0_r.
Qed.

Lemma fill_row {E} u : (u < kp)%nat ->
  match rows self !! u with
  | Some row => write_prefix_data (E:=E) (vec b ks (fun _ => zero_symbol b)) row = Ok (vec b ks (M u))
  | None => vec b ks (M u) = vec b ks (fun _ => zero_symbol b)
  end.
Proof.
  intros Hu. pose proof sizes as (Hb & _). destruct (Nat.lt_ge_cases (u * (ks * bb)) (length blob)).
  - rewrite row_message by done. rewrite vec_write_row by (rewrite length_take; fold bb; lia).
    f_equal. apply vec_ext. intros v Hv. by apply message_row.
  - rewrite row_beyond by done. apply vec_ext. intros v _. by apply message_beyond.
Qed.

Lemma primary_systematic {E} :
  zip_update (E:=E) (fun sliver row => map_symbols (fun s => write_prefix_data s row) sliver)
    (empty_slivers_range Primary self 0 (be_n_rows self)) (rows self) =
  Ok (slivers_vec b ks M 0 kp).
Proof.
  pose proof sizes. replace (be_n_rows self) with (0 + Z.of_nat kp);
    [|rewrite (encoder_of_self _ _ _ _ He); cbn [be_n_rows]; subst kp; lia].
  rewrite empty_slivers_range_eq by lia. apply zip_update_seq. intros u Hu. cbn [Nat.add].
  pose proof (fill_row (E:=E) u Hu) as Hrow. change (sliver_symbols_count Primary c) with ks.
  destruct (rows self !! u); [|by rewrite Hrow].
  unfold map_symbols. cbn [sliver_symbols sliver_idx]. by rewrite Hrow.
Qed.

(** The secondary slivers that are columns of the message matrix. *)
Lemma secondary_systematic {E} :
  zip_update (E:=E) (fun sliver column => map_symbols (fun s => write_prefixes s column) sliver)
    (empty_slivers Secondary self) ((fun v => (fun u => raw u v) <$> seq 0 kp) <$> seq 0 ks) =
  Ok (slivers_vec b kp (fun v u => if (v <? ks)%nat then M u v else zero_symbol b) 0 nn).
Proof.
  pose proof sizes as (Hb & _). unfold empty_slivers. destruct self_eq as (_ & _ & _ & _ & -> & _).
  replace (n_shards c) with (0 + Z.of_nat nn); [|subst nn; unfold is_nzu in Hn; cbn; lia].
  rewrite empty_slivers_range_eq by lia. apply zip_update_seq. intros v Hv. cbn [Nat.add].
  change (sliver_symbols_count Secondary c) with kp.
  destruct (Nat.ltb_spec v ks) as [Hlt|Hge].
  - rewrite list_lookup_fmap, lookup_seq_lt by done. cbn [fmap option_fmap option_map Nat.add].
    unfold map_symbols. cbn [sliver_symbols sliver_idx]. rewrite vec_write_prefixes; [done|done|].
    intros i _. unfold raw. rewrite length_take. lia.
  - by rewrite lookup_ge_None_2 by (rewrite length_fmap, length_seq; done).
Qed.

(** *** The expanded matrix *)

Context `{!ReedSolomonLinear Spec}.
Let X := expanded (n_primary_of n) (n_secondary_of n) n M.

Lemma primary_params : params (n_primary_of n) n b.
Proof. exact (encoder_of_params _ _ _ _ He Primary). Qed.

Lemma secondary_params : params (n_secondary_of n) n b.
Proof. exact (encoder_of_params _ _ _ _ He Secondary). Qed.

Lemma X_matrix : code_matrix c b X.
Proof. apply (expanded_code_matrix c b M (encoder_of_params _ _ _ _ He)). apply M_length. Qed.

Lemma X_sized j m : (m <= nn)%nat -> (j < nn)%nat -> bytes_sized b m (fun i => X i j).
Proof. intros Hm Hj i Hi. apply (code_matrix_length _ _ _ X_matrix); cbn; lia. Qed.

Lemma X_row_sized i m : (m <= nn)%nat -> (i < nn)%nat -> bytes_sized b m (X i).
Proof. intros Hm Hi j Hj. apply (code_matrix_length _ _ _ X_matrix); cbn; lia. Qed.

Lemma X_systematic_row u v : (u < kp)%nat -> X u v = code_at (n_secondary_of n) n (M u) v.
Proof. intros Hu. unfold X, expanded. by rewrite code_at_lt. Qed.

Lemma be_get_encoder_ok {E} a : exists e, be_get_encoder (E:=E) a self = Ok e /\
  encoder_for (n_source_symbols a c) n b e.
Proof.
  unfold be_get_encoder, sliver_length. destruct self_eq as (_ & _ & _ & _ & -> & _ & ->).
  rewrite orthogonal_involutive.
  assert (axis_params a c b) as Hp by exact (encoder_of_params _ _ _ _ He a).
  pose proof sizes as (Hb & _).
  assert (source (n_source_symbols a c) b ((fun _ => zero_symbol b) <$> seq 0 (Z.to_nat (n_source_symbols a c)))) as HD.
  { destruct Hp as [? _ ? _ _]. apply source_fmap_seq; [lia|lia|]. intros i _. apply length_replicate. }
  destruct (get_encoder_ok a c b Hp _ HD) as (e & Hge & Hfor).
  rewrite (source_bytes _ _ _ Hp _ HD) in Hge. rewrite Hge. by exists e.
Qed.

(** The primary sliver of a row of the blob, as the consistency check rebuilds
    it. *)
Lemma systematic_primary_sliver_ok {E} u : (u < kp)%nat ->
  systematic_primary_sliver (E:=E) self (Z.of_nat u) =
    Ok {| sliver_symbols := vec b ks (M u); sliver_idx := mk_sliver_index (Z.of_nat u) |}.
Proof.
  intros Hu. unfold systematic_primary_sliver. rewrite empty_sliver_eq, Nat2Z.id.
  change (sliver_symbols_count Primary c) with ks. pose proof (fill_row (E:=E) u Hu) as Hrow.
  destruct (rows self !! u); [|by rewrite Hrow].
  unfold map_symbols. cbn [sliver_symbols sliver_idx]. by rewrite Hrow.
Qed.

(** *** Rows to the non-systematic secondary slivers *)

Let secondary_after (r : nat) : list SliverData :=
  slivers_vec b kp (fun v u => if (v <? ks)%nat || (u <? r)%nat
                               then code_at (n_secondary_of n) n (M u) v else zero_symbol b) 0 nn.

Lemma source_row u : source (n_secondary_of n) b (M u <$> seq 0 ks).
Proof. pose proof sizes. apply source_fmap_seq; [lia|lia|]. intros v _. apply M_length. Qed.

Lemma repair_lookup k f j : params k n b ->
  (forall i, (i < Z.to_nat k)%nat -> length (f i) = bb) -> (j < Z.to_nat (n - k))%nat ->
  repair k n (f <$> seq 0 (Z.to_nat k)) !! j = Some (code_at k n f (Z.to_nat k + j)).
Proof.
  intros Hp Hf Hj. pose proof Hp as [Hk _ Hb _ _].
  rewrite code_at_ge by lia. replace (Z.to_nat k + j - Z.to_nat k)%nat with j by lia.
  unfold repair_at. apply list_lookup_lookup_total_lt.
  destruct (repair_spec k n b Hp (f <$> seq 0 (Z.to_nat k))) as [Hl _];
    [apply source_fmap_seq; lia || done|lia].
Qed.

Lemma code_row_sized u v : (v < nn)%nat -> length (code_at (n_secondary_of n) n (M u) v) = bb.
Proof. intros Hv. apply (code_at_length _ _ b); [apply secondary_params| |done]. intros i _. apply M_length. Qed.

Lemma encode_row_ok {E} e r : (r < kp)%nat -> encoder_for (n_secondary_of n) n b e ->
  exists e', encode_row (E:=E) ks (e, secondary_after r) (r, concat (M r <$> seq 0 ks)) =
    Ok (e', secondary_after (S r)) /\ encoder_for (n_secondary_of n) n b e'.
Proof.
  intros Hr Hfor. pose proof sizes as (Hb & Hsz). unfold encode_row.
  destruct (encode_ok _ _ _ secondary_params e _ Hfor (source_row r)) as (e' & -> & Hfor' & _).
  cbn [expect_ok mbind outcome_bind]. exists e'. split; [|done].
  unfold secondary_after, slivers_vec. rewrite zip_update_skip_seq with (h := fun v => {| sliver_symbols := vec b kp (fun u =>
    if (v <? ks)%nat || (u <? S r)%nat then code_at (n_secondary_of n) n (M u) v else zero_symbol b);
    sliver_idx := mk_sliver_index (Z.of_nat v) |}); [done|..].
  - intros v Hv. f_equal. apply vec_ext. intros u _.
    by rewrite (proj2 (Nat.ltb_lt v ks)) by lia.
  - intros v Hv.
    replace (repair _ _ _ !! _) with (Some (code_at (n_secondary_of n) n (M r) v)); cycle 1.
    { symmetry. rewrite repair_lookup; [f_equal; f_equal; fold ks; lia|apply secondary_params|intros; apply M_length|subst nn ks; lia]. }
    rewrite vec_copy_symbol; [|done| |done|apply code_row_sized; lia].
    + do 2 f_equal. apply vec_ext. intros u Hu. unfold fupd.
      rewrite (proj2 (Nat.ltb_ge v ks)) by lia. cbn [orb]. case_decide as Heq.
      * subst u. by rewrite (proj2 (Nat.ltb_lt r (S r))) by lia.
      * destruct (Nat.ltb_spec u r), (Nat.ltb_spec u (S r)); (done || lia).
    + intros u Hu. destruct (_ || _); [apply code_row_sized; lia|apply length_replicate].
Qed.

Lemma encode_rows_ok {E} e : encoder_for (n_secondary_of n) n b e ->
  exists e', foldM (E:=E) (encode_row ks) (e, secondary_after 0)
    (enumerate ((fun u => concat (M u <$> seq 0 ks)) <$> seq 0 kp)) = Ok (e', secondary_after kp).
Proof.
  intros Hfor. destruct (foldM_enumerate_seq (E:=E)
    (fun r s => exists e', s = (e', secondary_after r) /\ encoder_for (n_secondary_of n) n b e')
    (encode_row ks) (e, secondary_after 0) (fun u => concat (M u <$> seq 0 ks)) kp)
    as (s & Hs & e' & -> & _).
  - by exists e.
  - intros r s Hr' (e1 & -> & Hfor1).
    destruct (encode_row_ok (E:=E) e1 r Hr' Hfor1) as (e2 & -> & Hfor2). eauto.
  - eauto.
Qed.

(** *** Columns: the hashes and the non-systematic primary slivers *)

(** The hashes once the columns before [j] and the first [r] rows of column [j]
    are done. *)
Let hashes_after (j r : nat) : list Node :=
  flat nn (fun i v => if (v <? j)%nat || ((v =? j)%nat && (i <? r)%nat)
                      then leaf_hash (X i v) else Empty).

Lemma hashes_start : replicate (nn * nn) Empty = hashes_after 0 0.
Proof.
  unfold hashes_after, flat. rewrite <- (fmap_seq_const Empty 0). apply fmap_seq_ext.
  intros p _. cbn. by rewrite andb_false_r.
Qed.

Lemma hashes_next j : hashes_after j nn = hashes_after (S j) 0.
Proof.
  apply flat_ext. intros i v Hi Hv.
  destruct (Nat.ltb_spec v j), (Nat.ltb_spec v (S j)), (Nat.eqb_spec v j), (Nat.ltb_spec i nn),
    (Nat.eqb_spec v (S j)); cbn; try done; lia.
Qed.

Lemma hashes_done : hashes_after nn 0 = flat nn (fun i v => leaf_hash (X i v)).
Proof. apply flat_ext. intros i v _ Hv. by rewrite (proj2 (Nat.ltb_lt v nn)). Qed.

Lemma hash_column_ok {E} j : (j < nn)%nat ->
  hash_column (E:=E) nn j (hashes_after j 0) (vec b nn (fun i => X i j)) = Ok (hashes_after (S j) 0).
Proof.
  intros Hj. pose proof sizes as (Hb & _). unfold hash_column.
  rewrite vec_symbols; [|done|by apply X_sized].
  destruct (foldM_enumerate_seq (E:=E) (fun r h => h = hashes_after j r)
    (fun hashes '(row_index, symbol) => set_index hashes (nn * row_index + j) (leaf_hash symbol))
    (hashes_after j 0) (fun i => X i j) nn) as (s & -> & ->); [done| |].
  - intros r s Hr' ->. unfold hashes_after. rewrite flat_set by done.
    eexists. split; [done|]. apply flat_ext. intros i v Hi Hv.
    destruct (decide (i = r /\ v = j)) as [[-> ->]|Hne].
    + rewrite bool_decide_true by done. rewrite Nat.eqb_refl.
      rewrite (proj2 (Nat.ltb_lt r (S r))) by lia. cbn. by rewrite orb_true_r.
    + rewrite bool_decide_false by done.
      destruct (Nat.ltb_spec v j), (Nat.eqb_spec v j), (Nat.ltb_spec i r), (Nat.ltb_spec i (S r));
        cbn; try done; lia.
  - by rewrite hashes_next.
Qed.

Let primary_after (j : nat) : list SliverData :=
  slivers_vec b ks (fun i v => if (i <? kp)%nat || (v <? j)%nat then X i v else zero_symbol b) 0 nn.

Lemma primary_start :
  slivers_vec b ks M 0 kp ++ slivers_vec b ks (fun _ _ => zero_symbol b) kp (nn - kp) = primary_after 0.
Proof.
  pose proof sizes. unfold primary_after, slivers_vec.
  replace nn with (kp + (nn - kp))%nat at 2 by lia. rewrite seq_app, fmap_app. f_equal.
  - apply fmap_seq_ext. intros i Hi. f_equal. apply vec_ext. intros v Hv.
    rewrite (proj2 (Nat.ltb_lt i kp)) by lia. cbn [orb].
    symmetry. by apply expanded_systematic; [lia|].
  - apply fmap_seq_ext. intros i Hi. f_equal. apply vec_ext. intros v Hv.
    rewrite (proj2 (Nat.ltb_ge i kp)) by lia. done.
Qed.

Lemma primary_done j : (ks <= j)%nat -> primary_after j = slivers_vec b ks X 0 nn.
Proof.
  intros Hj. apply slivers_vec_ext. intros i v _ Hv.
  by rewrite (proj2 (Nat.ltb_lt v j)), orb_true_r by lia.
Qed.

Lemma column_source j : (j < nn)%nat -> source (n_primary_of n) b ((fun i => X i j) <$> seq 0 kp).
Proof.
  intros Hj. pose proof sizes. apply source_fmap_seq; [lia|lia|]. intros i Hi.
  apply (X_sized j kp); lia.
Qed.

Lemma encode_all_column e j : (j < nn)%nat -> encoder_for (n_primary_of n) n b e ->
  exists e', encode_all_ref e (sym_data (vec b kp (fun i => X i j))) =
    Ok (vec b nn (fun i => X i j), e') /\ encoder_for (n_primary_of n) n b e'.
Proof.
  intros Hj Hfor.
  destruct (encode_all_ref_ok _ _ _ primary_params e _ Hfor (column_source j Hj)) as (e' & He' & Hfor').
  exists e'. split; [|done]. cbn [vec of_symbols sym_data]. rewrite He'. do 2 f_equal.
  unfold vec. f_equal. apply (expanded_column (n_primary_of n) (n_secondary_of n) n b primary_params secondary_params);
    [intros; apply M_length|done].
Qed.

(** The step of one column on the primary slivers. *)
Lemma primary_column_ok {E} j : (j < ks)%nat ->
  zip_update_skip (E:=E) kp (fun sliver symbol => copy_symbol_to sliver j symbol) (primary_after j)
    (drop kp ((fun i => X i j) <$> seq 0 nn)) = Ok (primary_after (S j)).
Proof.
  intros Hj. pose proof sizes as (Hb & Hsz). unfold primary_after, slivers_vec.
  rewrite zip_update_skip_seq with (h := fun i => {| sliver_symbols := vec b ks (fun v =>
    if (i <? kp)%nat || (v <? S j)%nat then X i v else zero_symbol b);
    sliver_idx := mk_sliver_index (Z.of_nat i) |}); [done|..].
  - intros i Hi. f_equal. apply vec_ext. intros v _. by rewrite (proj2 (Nat.ltb_lt i kp)) by lia.
  - intros i Hi. rewrite lookup_drop, list_lookup_fmap.
    replace (kp + (i - kp))%nat with i by lia. rewrite lookup_seq_lt by lia.
    cbn [fmap option_fmap option_map Nat.add].
    rewrite vec_copy_symbol; [|done| |done|apply (X_sized j nn); lia].
    + do 2 f_equal. apply vec_ext. intros v Hv. unfold fupd.
      rewrite (proj2 (Nat.ltb_ge i kp)) by lia. cbn [orb]. case_decide as Heq.
      * subst v. by rewrite (proj2 (Nat.ltb_lt j (S j))) by lia.
      * destruct (Nat.ltb_spec v j), (Nat.ltb_spec v (S j)); (done || lia).
    + intros v Hv. destruct (_ || _); [apply (X_sized v nn); lia|apply length_replicate].
Qed.

Lemma encode_column_ok {E} e j : (j < nn)%nat -> encoder_for (n_primary_of n) n b e ->
  exists e', encode_column (E:=E) self (e, primary_after (Nat.min j ks), hashes_after j 0)
      (j, {| sliver_symbols := vec b kp (fun i => X i j); sliver_idx := mk_sliver_index (Z.of_nat j) |}) =
    Ok (e', primary_after (Nat.min (S j) ks), hashes_after (S j) 0) /\
    encoder_for (n_primary_of n) n b e'.
Proof.
  intros Hj Hfor. pose proof sizes as (Hb & _). unfold encode_column. cbn [sliver_symbols].
  destruct (encode_all_column e j Hj Hfor) as (e' & -> & Hfor'). cbn [expect_ok mbind outcome_bind].
  destruct self_eq as (_ & -> & -> & -> & _). rewrite hash_column_ok by done.
  cbn [mbind outcome_bind]. exists e'. split; [|done].
  destruct (Nat.ltb_spec j ks) as [Hlt|Hge].
  - rewrite vec_symbols; [|done|by apply X_sized]. rewrite Nat.min_l by lia.
    rewrite primary_column_ok by done. cbn [mbind outcome_bind]. by rewrite Nat.min_l by lia.
  - cbn [mbind outcome_bind]. by rewrite !Nat.min_r by lia.
Qed.

Lemma secondary_done : secondary_after kp = slivers_vec b kp (fun v u => X u v) 0 nn.
Proof.
  apply slivers_vec_ext. intros v u _ Hu. rewrite (proj2 (Nat.ltb_lt u kp)) by done.
  rewrite orb_true_r. symmetry. by apply X_systematic_row.
Qed.

Lemma encode_columns_ok {E} e : encoder_for (n_primary_of n) n b e ->
  exists e', foldM (E:=E) (encode_column self) (e, primary_after 0, hashes_after 0 0)
    (enumerate (slivers_vec b kp (fun v u => X u v) 0 nn)) =
    Ok (e', slivers_vec b ks X 0 nn, flat nn (fun i v => leaf_hash (X i v))).
Proof.
  intros Hfor. pose proof sizes. destruct (foldM_enumerate_seq (E:=E)
    (fun j s => exists e', s = (e', primary_after (Nat.min j ks), hashes_after j 0) /\
       encoder_for (n_primary_of n) n b e')
    (encode_column self) (e, primary_after 0, hashes_after 0 0)
    (fun v => {| sliver_symbols := vec b kp (fun u => X u v);
                 sliver_idx := mk_sliver_index (Z.of_nat v) |}) nn) as (s & Hs & e' & -> & _).
  - by exists e.
  - intros j s Hj' (e1 & -> & Hfor1).
    destruct (encode_column_ok (E:=E) e1 j Hj' Hfor1) as (e2 & -> & Hfor2). eauto.
  - exists e'. unfold slivers_vec at 1. rewrite Hs, primary_done by lia. by rewrite hashes_done.
Qed.

(** *** Metadata and sliver pairs *)

Definition metadata_of (Y : nat -> nat -> shard) (l : Z) : BlobMetadataWithId :=
  let m := {| md_encoding_type := RS2; unencoded_length := l; hashes := hashes_of n Y |} in
  {| blob_id := id_of m; metadata := m |}.

Definition pairs_of (Y : nat -> nat -> shard) : list SliverPair :=
  (fun i => {| primary := sliver_of n b Y Primary (Z.of_nat i);
               secondary := sliver_of n b Y Secondary (n - 1 - Z.of_nat i) |}) <$> seq 0 nn.

Lemma pair_metadata_ok {E} i : (i < nn)%nat ->
  pair_metadata_from_hashes (E:=E) nn (flat nn (fun i v => leaf_hash (X i v))) i =
    Ok {| primary_hash := hash_of n X Primary (Z.of_nat i);
          secondary_hash := hash_of n X Secondary (n - 1 - Z.of_nat i) |}.
Proof.
  intros Hi. unfold pair_metadata_from_hashes. rewrite flat_slice by done.
  cbn [mbind outcome_bind]. rewrite build_root_eq. cbn [mbind outcome_bind].
  rewrite mapM_outcome_ok with (g := fun s => leaf_hash (X s (nn - 1 - i))); cycle 1.
  { intros s Hs%elem_of_seq. unfold index.
    replace (nn * s + nn - 1 - i)%nat with (nn * s + (nn - 1 - i))%nat by lia.
    by rewrite flat_lookup by lia. }
  cbn [mbind outcome_bind]. rewrite build_root_eq. cbn [mbind outcome_bind].
  unfold hash_of, expanded_sliver. rewrite <- !list_fmap_compose. cbn [line]. do 2 f_equal.
  - f_equal. fold nn. apply fmap_seq_ext. intros v _. cbn. by rewrite Nat2Z.id.
  - f_equal. fold nn. apply fmap_seq_ext. intros v _. cbn.
    replace (Z.to_nat (n - 1 - Z.of_nat i)) with (nn - 1 - i)%nat by lia. done.
Qed.

Lemma metadata_from_hashes_ok {E} l :
  compute_metadata_from_symbol_hashes (E:=E) c (flat nn (fun i v => leaf_hash (X i v))) l =
    Ok (metadata_of X l).
Proof.
  unfold compute_metadata_from_symbol_hashes. change (Z.to_nat (n_shards c)) with nn.
  rewrite length_flat, Nat.eqb_refl. cbn [assert mbind outcome_bind].
  rewrite mapM_outcome_ok with (g := fun i =>
    {| primary_hash := hash_of n X Primary (Z.of_nat i);
       secondary_hash := hash_of n X Secondary (n - 1 - Z.of_nat i) |}); cycle 1.
  { intros i Hi%elem_of_seq. apply pair_metadata_ok. lia. }
  cbn [mbind outcome_bind]. by rewrite new_verified_from_metadata_eq.
Qed.

Lemma blob_length_u64 : try_from 64 (len blob) = Some (len blob).
Proof.
  apply try_from_Some. split; [done|]. destruct (encoder_of_length _ _ _ _ He) as [_ Hl].
  pose proof (symbols_per_blob_bounds n Hn) as Hsb. unfold symbols_per_blob in Hsb.
  destruct primary_params as [_ _ Hb _ _]. nia.
Qed.

Lemma pairs_zip :
  zip_with (fun p s => {| primary := p; secondary := s |}) (slivers_vec b ks X 0 nn)
    (rev (slivers_vec b kp (fun v u => X u v) 0 nn)) = pairs_of X.
Proof.
  apply list_eq. intros i. unfold pairs_of. rewrite lookup_zip_with, list_lookup_fmap.
  destruct (decide (i < nn)%nat) as [Hi|Hi]; cycle 1.
  { rewrite !lookup_seq_ge by lia.
    by rewrite (lookup_ge_None_2 (slivers_vec b ks X 0 nn)) by (rewrite length_slivers_vec; lia). }
  rewrite rev_alt. change (rev_append ?l []) with (reverse l).
  rewrite reverse_lookup by (rewrite length_slivers_vec; lia).
  rewrite length_slivers_vec. unfold slivers_vec. rewrite !list_lookup_fmap, !lookup_seq_lt by lia.
  cbn. unfold sliver_of, vec. cbn [line]. rewrite Nat2Z.id.
  replace (Z.to_nat (n - 1 - Z.of_nat i)) with (nn - S i)%nat by lia.
  by replace (Z.of_nat (nn - S i)) with (n - 1 - Z.of_nat i) by lia.
Qed.

Lemma primary_repair_empty : empty_slivers_range Primary self (be_n_rows self) (n_shards (be_config self)) =
  slivers_vec b ks (fun _ _ => zero_symbol b) kp (nn - kp).
Proof.
  pose proof sizes. replace (n_shards (be_config self)) with (be_n_rows self + Z.of_nat (nn - kp)).
  - rewrite empty_slivers_range_eq by (rewrite (encoder_of_self _ _ _ _ He); cbn [be_n_rows]; lia).
    by rewrite (encoder_of_self _ _ _ _ He).
  - rewrite (encoder_of_self _ _ _ _ He). cbn [be_n_rows be_config]. change (n_shards c) with n.
    subst nn kp. unfold is_nzu in Hn. cbn. lia.
Qed.

Lemma row_data :
  (fun s => sym_data (sliver_symbols s)) <$> take kp (slivers_vec b ks M 0 kp) =
  (fun u => concat (M u <$> seq 0 ks)) <$> seq 0 kp.
Proof.
  rewrite take_ge by (by rewrite length_slivers_vec). unfold slivers_vec.
  rewrite <- list_fmap_compose. done.
Qed.

Lemma encode_with_metadata_ok {E} :
  encode_with_metadata (E:=E) self = Ok (pairs_of X, metadata_of X (len blob)).
Proof.
  unfold encode_with_metadata. destruct self_eq as (_ & Hr & Hc & Hs & Hcfg & Hblob & Hbs).
  rewrite Hblob, blob_length_u64. cbn [expect mbind outcome_bind].
  rewrite primary_systematic. cbn [mbind outcome_bind]. rewrite column_symbols_ok.
  cbn [mbind outcome_bind]. rewrite secondary_systematic. cbn [mbind outcome_bind].
  destruct (be_get_encoder_ok (E:=E) Secondary) as (e1 & -> & Hfor1). cbn [mbind outcome_bind].
  rewrite Hr, Hc, row_data.
  replace (slivers_vec b kp _ 0 nn) with (secondary_after 0); cycle 1.
  { apply slivers_vec_ext. intros v u _ _. rewrite orb_false_r.
    destruct (Nat.ltb_spec v ks); [by apply code_at_lt|done]. }
  destruct (encode_rows_ok (E:=E) e1 Hfor1) as (e2 & ->). cbn [mbind outcome_bind].
  destruct (be_get_encoder_ok (E:=E) Primary) as (e3 & -> & Hfor3). cbn [mbind outcome_bind].
  rewrite Hs, primary_repair_empty, primary_start, secondary_done, hashes_start.
  destruct (encode_columns_ok (E:=E) e3 Hfor3) as (e4 & ->). cbn [mbind outcome_bind].
  rewrite Hcfg, metadata_from_hashes_ok. cbn [mbind outcome_bind]. by rewrite pairs_zip.
Qed.

(** *** [compute_metadata] *)

Let row_bytes (u : nat) : list byte := take (bb * ks) (drop (bb * (ks * u)) blob).

Lemma rows_all_ok {E} : rows_all (E:=E) self = Ok (row_bytes <$> seq 0 kp).
Proof.
  unfold rows_all. destruct self_eq as (-> & -> & -> & _ & _ & -> & _).
  apply mapM_outcome_ok. intros u _. apply slice_clipped.
Qed.

Lemma row_bytes_pad u : pad_symbol (ks * bb) (row_bytes u) = concat (M u <$> seq 0 ks).
Proof.
  unfold row_bytes. rewrite pad_concat by (rewrite length_take; lia). f_equal.
  apply fmap_seq_ext. intros v Hv. rewrite <- (message_row u v) by lia.
  by replace (bb * ks)%nat with (ks * bb)%nat by lia;
     replace (bb * (ks * u))%nat with (u * (ks * bb))%nat by lia.
Qed.

Let repair_slivers_after (r : nat) : list SliverData :=
  (fun v => {| sliver_symbols := vec b kp (fun u =>
      if (u <? r)%nat then code_at (n_secondary_of n) n (M u) (ks + v) else zero_symbol b);
    sliver_idx := mk_sliver_index 0 |}) <$> seq 0 (nn - ks).

Lemma encode_row_repair {E} e r : (r < kp)%nat -> encoder_for (n_secondary_of n) n b e ->
  exists e', encode_row (E:=E) 0 (e, repair_slivers_after r) (r, concat (M r <$> seq 0 ks)) =
    Ok (e', repair_slivers_after (S r)) /\ encoder_for (n_secondary_of n) n b e'.
Proof.
  intros Hr Hfor. pose proof sizes as (Hb & Hsz). unfold encode_row.
  destruct (encode_ok _ _ _ secondary_params e _ Hfor (source_row r)) as (e' & -> & Hfor' & _).
  cbn [expect_ok mbind outcome_bind]. exists e'. split; [|done].
  unfold repair_slivers_after. rewrite zip_update_skip_seq with (h := fun v =>
    {| sliver_symbols := vec b kp (fun u =>
         if (u <? S r)%nat then code_at (n_secondary_of n) n (M u) (ks + v) else zero_symbol b);
       sliver_idx := mk_sliver_index 0 |}); [done|intros; lia|].
  intros v Hv. rewrite repair_lookup; [|apply secondary_params|intros; apply M_length|subst nn ks; lia].
  rewrite Nat.sub_0_r. fold ks. rewrite vec_copy_symbol; [|done| |done|apply code_row_sized; lia].
  - do 2 f_equal. apply vec_ext. intros u Hu. unfold fupd. case_decide as Heq.
    + subst u. by rewrite (proj2 (Nat.ltb_lt r (S r))) by lia.
    + destruct (Nat.ltb_spec u r), (Nat.ltb_spec u (S r)); (done || lia).
  - intros u Hu. destruct (_ <? _)%nat; [apply code_row_sized; lia|apply length_replicate].
Qed.

Lemma metadata_row_ok {E} e buffer r : (r < kp)%nat -> encoder_for (n_secondary_of n) n b e ->
  length (sym_data buffer) = (ks * bb)%nat ->
  exists e' buffer', metadata_row (E:=E) (bb * ks) (e, buffer, repair_slivers_after r) (r, row_bytes r) =
    Ok (e', buffer', repair_slivers_after (S r)) /\ encoder_for (n_secondary_of n) n b e' /\
    length (sym_data buffer') = (ks * bb)%nat.
Proof.
  intros Hr Hfor Hbuf. unfold metadata_row. rewrite (Nat.mul_comm bb ks).
  destruct (encode_row_repair (E:=E) e r Hr Hfor) as (e' & Hrow & Hfor').
  pose proof (row_bytes_pad r) as Hpad.
  assert (length (row_bytes r) <= ks * bb)%nat as Hlen by (unfold row_bytes; rewrite length_take; lia).
  destruct (Nat.ltb_spec (length (row_bytes r)) (ks * bb)) as [Hlt|Hge].
  - pose proof (buffer_row (E:=E) (row_bytes r) (sym_data buffer) (ks * bb) Hbuf Hlen) as Hw.
    apply bind_Ok in Hw as (d & -> & Hw). cbn [mbind outcome_bind]. rewrite Hw.
    cbn [mbind outcome_bind]. rewrite Hpad, Hrow. cbn [mbind outcome_bind].
    eexists _, _. split_and!; [done|done|]. cbn [sym_data]. rewrite <- Hpad. by apply length_pad_symbol.
  - cbn [mbind outcome_bind]. unfold pad_symbol in Hpad.
    replace (ks * bb - length (row_bytes r))%nat with 0%nat in Hpad by lia.
    rewrite app_nil_r in Hpad. rewrite Hpad, Hrow. cbn [mbind outcome_bind]. by eexists _, _.
Qed.

Lemma metadata_rows_ok {E} e : encoder_for (n_secondary_of n) n b e ->
  exists e' buffer', foldM (E:=E) (metadata_row (bb * ks))
    (e, symbols_zeros ks b, repair_slivers_after 0) (enumerate (row_bytes <$> seq 0 kp)) =
    Ok (e', buffer', repair_slivers_after kp).
Proof.
  intros Hfor. destruct (foldM_enumerate_seq (E:=E)
    (fun r s => exists e' buffer', s = (e', buffer', repair_slivers_after r) /\
       encoder_for (n_secondary_of n) n b e' /\ length (sym_data buffer') = (ks * bb)%nat)
    (metadata_row (bb * ks)) (e, symbols_zeros ks b, repair_slivers_after 0) row_bytes kp)
    as (s & Hs & e' & buffer' & -> & _).
  - eexists _, _. split_and!; [done|done|]. apply length_replicate.
  - intros r s Hr' (e1 & b1 & -> & Hfor1 & Hb1).
    destruct (metadata_row_ok (E:=E) e1 b1 r Hr' Hfor1 Hb1) as (e2 & b2 & -> & ?).
    eexists. split; [done|]. by exists e2, b2.
  - eauto.
Qed.

Lemma metadata_column_ok {E} e buffer j : (j < ks)%nat -> encoder_for (n_primary_of n) n b e ->
  length (sym_data buffer) = (kp * bb)%nat -> symbol_size buffer = b ->
  exists e' buffer', metadata_column (E:=E) nn (e, buffer, hashes_after j 0)
      (j, (fun u => raw u j) <$> seq 0 kp) = Ok (e', buffer', hashes_after (S j) 0) /\
    encoder_for (n_primary_of n) n b e' /\
    length (sym_data buffer') = (kp * bb)%nat /\ symbol_size buffer' = b.
Proof.
  intros Hj Hfor Hbuf Hbs. pose proof sizes as (Hb & Hsz). unfold metadata_column. rewrite Hbuf, Hbs.
  change (mk_symbols (replicate (kp * bb) x00) b) with (symbols_zeros kp b). rewrite vec_zeros.
  rewrite vec_write_prefixes; [|done|intros i _; unfold raw; rewrite length_take; lia].
  cbn [mbind outcome_bind].
  rewrite (vec_ext b kp _ (fun i => X i j)); cycle 1.
  { intros i Hi. symmetry. by apply (expanded_systematic (n_primary_of n) (n_secondary_of n)). }
  destruct (encode_all_column e j ltac:(lia) Hfor) as (e' & -> & Hfor').
  cbn [expect_ok mbind outcome_bind]. rewrite hash_column_ok by lia. cbn [mbind outcome_bind].
  eexists _, _. split_and!; [done|done| |done]. apply vec_data_length. apply X_sized; lia.
Qed.

Lemma metadata_columns_ok {E} e : encoder_for (n_primary_of n) n b e ->
  exists e' buffer', foldM (E:=E) (metadata_column nn) (e, symbols_zeros kp b, hashes_after 0 0)
    (enumerate ((fun v => (fun u => raw u v) <$> seq 0 kp) <$> seq 0 ks)) =
    Ok (e', buffer', hashes_after ks 0) /\ encoder_for (n_primary_of n) n b e'.
Proof.
  intros Hfor. destruct (foldM_enumerate_seq (E:=E)
    (fun j s => exists e' buffer', s = (e', buffer', hashes_after j 0) /\
       encoder_for (n_primary_of n) n b e' /\ length (sym_data buffer') = (kp * bb)%nat /\
       symbol_size buffer' = b)
    (metadata_column nn) (e, symbols_zeros kp b, hashes_after 0 0)
    (fun v => (fun u => raw u v) <$> seq 0 kp) ks)
    as (s & Hs & e' & buffer' & -> & Hfor' & _).
  - eexists _, _. split_and!; [done|done| |done]. apply length_replicate.
  - intros j s Hj' (e1 & b1 & -> & Hfor1 & Hb1 & Hs1).
    destruct (metadata_column_ok (E:=E) e1 b1 j Hj' Hfor1 Hb1 Hs1) as (e2 & b2 & -> & ?).
    eexists. split; [done|]. by exists e2, b2.
  - eauto.
Qed.

Lemma metadata_repair_columns_ok {E} e : encoder_for (n_primary_of n) n b e ->
  exists e', foldM (E:=E) (metadata_repair_column nn ks) (e, hashes_after ks 0)
    (enumerate (repair_slivers_after kp)) = Ok (e', flat nn (fun i v => leaf_hash (X i v))).
Proof.
  intros Hfor. pose proof sizes as (Hb & Hsz). destruct (foldM_enumerate_seq (E:=E)
    (fun j s => exists e', s = (e', hashes_after (ks + j) 0) /\ encoder_for (n_primary_of n) n b e')
    (metadata_repair_column nn ks) (e, hashes_after ks 0)
    (fun v => {| sliver_symbols := vec b kp (fun u =>
      if (u <? kp)%nat then code_at (n_secondary_of n) n (M u) (ks + v) else zero_symbol b);
      sliver_idx := mk_sliver_index 0 |}) (nn - ks))
    as (s & Hs & e' & -> & _).
  - exists e. by rewrite Nat.add_0_r.
  - intros j s Hj' (e1 & -> & Hfor1). unfold metadata_repair_column. cbn [sliver_symbols].
    rewrite (vec_ext b kp _ (fun i => X i (ks + j))); cycle 1.
    { intros i Hi. rewrite (proj2 (Nat.ltb_lt i kp)) by done. symmetry. by apply X_systematic_row. }
    destruct (encode_all_column e1 (ks + j) ltac:(lia) Hfor1) as (e2 & -> & Hfor2).
    cbn [expect_ok mbind outcome_bind]. replace (j + ks)%nat with (ks + j)%nat by lia.
    rewrite hash_column_ok by lia. cbn [mbind outcome_bind].
    exists (e2, hashes_after (S (ks + j)) 0). split; [done|]. exists e2.
    by replace (ks + S j)%nat with (S (ks + j)) by lia.
  - exists e'. unfold repair_slivers_after. rewrite Hs. replace (ks + (nn - ks))%nat with nn by lia. by rewrite hashes_done.
Qed.

Lemma compute_metadata_ok {E} : compute_metadata (E:=E) self = Ok (metadata_of X (len blob)).
Proof.
  pose proof sizes as (Hb & Hsz). unfold compute_metadata.
  destruct self_eq as (Hbb & Hr & Hc & Hs & Hcfg & Hblob & Hbs).
  rewrite Hblob, blob_length_u64. cbn [expect mbind outcome_bind]. rewrite Hs, Hc, Hbb, Hr, Hbs.
  unfold is_nzu in Hn. rewrite arith_in_range by (subst nn; uint_lia). cbn [mbind outcome_bind].
  destruct (be_get_encoder_ok (E:=E) Secondary) as (e1 & -> & Hfor1). cbn [mbind outcome_bind].
  rewrite rows_all_ok. cbn [mbind outcome_bind].
  replace (replicate _ _) with (repair_slivers_after 0); cycle 1.
  { unfold repair_slivers_after. rewrite empty_sliver_eq.
    replace (Z.to_nat (Z.of_nat nn - Z.of_nat ks)) with (nn - ks)%nat by lia.
    rewrite <- (fmap_seq_const _ 0). by apply fmap_seq_ext. }
  destruct (metadata_rows_ok (E:=E) e1 Hfor1) as (e2 & b2 & ->). cbn [mbind outcome_bind].
  destruct (be_get_encoder_ok (E:=E) Primary) as (e3 & -> & Hfor3). cbn [mbind outcome_bind].
  rewrite column_symbols_ok. cbn [mbind outcome_bind]. rewrite hashes_start.
  destruct (metadata_columns_ok (E:=E) e3 Hfor3) as (e4 & b4 & -> & Hfor4). cbn [mbind outcome_bind].
  destruct (metadata_repair_columns_ok (E:=E) e4 Hfor4) as (e5 & ->). cbn [mbind outcome_bind].
  rewrite Hcfg. apply metadata_from_hashes_ok.
Qed.

End steps.
End encoder.
