(* ===== verification/LegacyEncoder.v ===== *)
(** * The encoder on the whole matrix

    [ExpandedMessageMatrix] fills a matrix of [n_shards] rows and columns in
    three passes, from which [encode_with_metadata_legacy] reads the hashes and
    cuts the slivers.  Each pass is described by the function that gives the
    matrix after it; the result is the one of [encode_with_metadata]. *)

From S2P Require Import Prelude Core EncodingConfig Symbols Loops ReedSolomon ProductCode.
From S2P Require Import Merkle Metadata RecoverySymbols Slivers SliverProps BlobEncoder.
From S2P Require Import SymbolVectors BlobEncoderProps.

(** A matrix given by a function. *)
Definition matrix_vec (b : Z) (m : nat) (F : nat -> nat -> shard) (cnt : nat) : list Symbols :=
  (fun i => vec b m (F i)) <$> seq 0 cnt.

Lemma matrix_vec_ext b m F G cnt :
  (forall i j, (i < cnt)%nat -> (j < m)%nat -> F i j = G i j) -> matrix_vec b m F cnt = matrix_vec b m G cnt.
Proof. intros HFG. apply fmap_seq_ext. intros i Hi. apply vec_ext. intros j Hj. apply HFG; lia. Qed.

Lemma split_fmap_seq {A} (f : nat -> A) k m : (k <= m)%nat ->
  f <$> seq 0 m = (f <$> seq 0 k) ++ (f <$> seq k (m - k)).
Proof. intros Hk. rewrite <- (take_drop k (f <$> seq 0 m)). by rewrite take_fmap_seq, drop_fmap_seq. Qed.

Lemma write_symbols_ok {E} b m F from k G : 0 < b -> bytes_sized b m F -> bytes_sized b k G ->
  (from + k <= m)%nat ->
  write_symbols (E:=E) from (vec b m F) (G <$> seq 0 k) =
    Ok (vec b m (fun v => if (from <=? v)%nat && (v <? from + k)%nat then G (v - from)%nat else F v)).
Proof.
  intros Hb HF HG Hm. unfold write_symbols.
  destruct (foldM_enumerate_seq (E:=E)
    (fun r s => s = vec b m (fun v => if (from <=? v)%nat && (v <? from + r)%nat then G (v - from)%nat else F v))
    (fun row '(i, symbol) => symbols_write row (from + i) symbol) (vec b m F) G k)
    as (s & -> & ->).
  - apply vec_ext. intros v Hv. destruct (Nat.leb_spec from v), (Nat.ltb_spec v (from + 0)); (done || lia).
  - intros r s Hr' ->. rewrite vec_write; [|done| |lia|by apply HG].
    + eexists. split; [done|]. apply vec_ext. intros v Hv. unfold fupd. case_decide as Heq.
      * subst v. rewrite (proj2 (Nat.leb_le _ _)) by lia. rewrite (proj2 (Nat.ltb_lt _ _)) by lia.
        cbn. f_equal. lia.
      * destruct (Nat.leb_spec from v), (Nat.ltb_spec v (from + r)), (Nat.ltb_spec v (from + S r));
          cbn; (done || lia).
    + intros v Hv. destruct (Nat.leb_spec from v), (Nat.ltb_spec v (from + r)); cbn;
        [apply HG; lia|by apply HF..].
  - done.
Qed.

Lemma repair_of_codeword `{Spec : ReedSolomonSpec} k n (f g : nat -> shard) :
  codeword k n (f <$> seq 0 (Z.to_nat k)) = g <$> seq 0 (Z.to_nat n) ->
  repair k n (f <$> seq 0 (Z.to_nat k)) =
    (fun i => g (Z.to_nat k + i)%nat) <$> seq 0 (Z.to_nat n - Z.to_nat k).
Proof.
  intros Hc. apply (f_equal (drop (Z.to_nat k))) in Hc. unfold codeword in Hc.
  rewrite drop_app_length' in Hc by (by rewrite length_fmap, length_seq).
  by rewrite Hc, drop_fmap_seq, fmap_seq_shift.
Qed.

Section legacy.
Context `{Build} `{HashFunction} `{Spec : ReedSolomonSpec} `{!ReedSolomonLinear Spec}.
Context (n : Z) (Hn : is_nzu16 n) (blob : list byte) (self : BlobEncoder) (b : Z).
Context (He : encoder_of n blob self b).
Let c := enum_of n.
Let kp := Z.to_nat (n_primary_of n).
Let ks := Z.to_nat (n_secondary_of n).
Let bb := Z.to_nat b.
Let nn := Z.to_nat n.
Let M := message bb ks blob.
Let X := expanded (n_primary_of n) (n_secondary_of n) n M.

Let state (F : nat -> nat -> shard) : ExpandedMessageMatrix :=
  {| em_matrix := matrix_vec b nn F nn; em_blob := blob; em_config := c; em_n_rows := kp;
     em_n_columns := ks; em_symbol_size := b |}.

Lemma legacy_sizes : 0 < b /\ (0 < kp)%nat /\ (kp <= nn)%nat /\ (0 < ks)%nat /\ (ks <= nn)%nat /\
  (0 < bb)%nat /\ (length blob <= kp * (ks * bb))%nat.
Proof. exact (sizes n Hn blob self b He). Qed.

(** *** The message matrix *)

Let filled (u v : nat) : shard :=
  if (u <? kp)%nat && (v <? ks)%nat then M u v else zero_symbol b.

Lemma fill_systematic_ok {E} :
  fill_systematic_with_rows (E:=E) (state (fun _ _ => zero_symbol b)) = Ok (state filled).
Proof.
  destruct legacy_sizes as (Hb & Hsz). unfold fill_systematic_with_rows.
  cbn [em_matrix em_n_columns em_symbol_size em_blob state]. fold bb.
  replace (chunks (ks * bb) blob) with (rows self); cycle 1.
  { unfold rows. by destruct (self_eq n blob self b He) as (-> & _ & -> & _ & _ & -> & _). }
  unfold matrix_vec. rewrite (zip_update_seq _ _ (fun i => vec b nn (filled i))); [done|].
  intros u Hu. cbn [Nat.add].
  destruct (Nat.lt_ge_cases (u * (ks * bb)) (length blob)) as [Hlt|Hge].
  - rewrite (row_message n Hn blob self b He) by done. fold ks bb.
    rewrite vec_write_row by (rewrite length_take; fold bb; nia). f_equal. apply vec_ext.
    intros v Hv. unfold filled. assert (u < kp)%nat by nia.
    rewrite (proj2 (Nat.ltb_lt u kp)) by done. cbn [andb]. fold bb.
    destruct (Nat.ltb_spec v ks) as [Hvk|Hvk]; [by apply message_row|].
    rewrite (drop_ge (take _ _)) by (rewrite length_take; nia). rewrite take_nil.
    unfold pad_symbol, zero_symbol. cbn. by rewrite Nat.sub_0_r.
  - rewrite (row_beyond n Hn blob self b He) by done. apply vec_ext. intros v Hv. unfold filled.
    destruct (_ && _); [by apply message_beyond|done].
Qed.

(** *** Rows *)

Let rows_expanded (u v : nat) : shard :=
  if (u <? kp)%nat then code_at (n_secondary_of n) n (M u) v else zero_symbol b.

Lemma filled_sized u m : bytes_sized b m (filled u).
Proof. intros v _. unfold filled. destruct (_ && _); [apply M_length|apply length_replicate]. Qed.

Lemma repair_vec u : repair (n_secondary_of n) n (M u <$> seq 0 ks) =
  (fun i => code_at (n_secondary_of n) n (M u) (ks + i)) <$> seq 0 (nn - ks).
Proof.
  apply repair_of_codeword. apply (codeword_fmap _ _ b); [exact (secondary_params n blob self b He)|].
  intros; apply M_length.
Qed.

Lemma expand_row_ok {E} u : (u < kp)%nat ->
  expand_row (E:=E) c ks (vec b nn (filled u)) = Ok (vec b nn (rows_expanded u)).
Proof.
  intros Hu. destruct legacy_sizes as (Hb & Hsz). unfold expand_row.
  rewrite vec_index_range; [|done|apply filled_sized|lia|lia]. cbn [mbind outcome_bind].
  rewrite Nat.sub_0_r. rewrite (fmap_seq_ext _ (M u)); cycle 1.
  { intros v Hv. unfold filled. by rewrite (proj2 (Nat.ltb_lt u kp)), (proj2 (Nat.ltb_lt v ks)) by lia. }
  rewrite (encode_all_repair_symbols_ok Secondary c b (encoder_of_params _ _ _ _ He Secondary))
    by apply (source_row n Hn blob self b He u).
  cbn [expect_ok mbind outcome_bind]. change (n_source_symbols Secondary c) with (n_secondary_of n).
  change (n_shards c) with n. rewrite repair_vec. fold (vec b (nn - ks) (fun i => code_at (n_secondary_of n) n (M u) (ks + i))).
  assert (bytes_sized b (nn - ks) (fun i => code_at (n_secondary_of n) n (M u) (ks + i))) as HG.
  { intros i Hi. apply (code_row_sized n blob self b He). lia. }
  rewrite vec_symbols by done. rewrite write_symbols_ok; [|done|apply filled_sized|done|lia].
  f_equal. apply vec_ext. intros v Hv. unfold rows_expanded, filled.
  rewrite (proj2 (Nat.ltb_lt u kp)) by done. cbn [andb].
  destruct (Nat.ltb_spec v ks) as [Hlt|Hge].
  - rewrite (proj2 (Nat.leb_gt ks v)) by lia. cbn [andb]. by rewrite code_at_lt.
  - rewrite (proj2 (Nat.leb_le ks v)), (proj2 (Nat.ltb_lt v _)) by lia. cbn [andb]. f_equal. lia.
Qed.

Lemma expand_rows_ok {E} : expand_rows_for_secondary (E:=E) (state filled) = Ok (state rows_expanded).
Proof.
  destruct legacy_sizes as (Hb & Hsz). unfold expand_rows_for_secondary.
  cbn [em_config em_n_columns em_n_rows em_matrix state]. unfold matrix_vec.
  rewrite take_fmap_seq by lia.
  rewrite (mapM_fmap_seq _ _ (fun i => vec b nn (rows_expanded i))) by (intros; by apply expand_row_ok).
  cbn [mbind outcome_bind]. f_equal. unfold set_matrix, state. f_equal. unfold matrix_vec.
  rewrite drop_fmap_seq, (split_fmap_seq _ kp nn) by lia. f_equal. apply fmap_seq_ext. intros i Hi. apply vec_ext.
  intros v Hv. unfold filled, rows_expanded. by rewrite (proj2 (Nat.ltb_ge i kp)) by lia.
Qed.

(** *** Columns *)

Let columns_expanded (j u v : nat) : shard :=
  if (u <? kp)%nat || (v <? j)%nat then X u v else zero_symbol b.

Lemma rows_columns : matrix_vec b nn rows_expanded nn = matrix_vec b nn (columns_expanded 0) nn.
Proof.
  apply matrix_vec_ext. intros u v _ _. unfold rows_expanded, columns_expanded. rewrite orb_false_r.
  destruct (Nat.ltb_spec u kp); [|done]. symmetry. by apply X_systematic_row.
Qed.

Lemma columns_sized j u : (u < nn)%nat -> bytes_sized b nn (columns_expanded j u).
Proof.
  intros Hu v Hv. unfold columns_expanded.
  destruct (_ || _); [by apply (X_row_sized n blob self b He u nn)|apply length_replicate].
Qed.

(** The column read off the first rows. *)
Lemma gather_column {E} j : (j < nn)%nat ->
  foldM (E:=E) (fun column row =>
      symbol ← symbols_index row j;
      Ok (match symbols_extend column symbol with Ok c => c | _ => column end))
    (symbols_with_capacity kp b) ((fun u => vec b nn (columns_expanded j u)) <$> seq 0 kp) =
  Ok (vec b kp (fun u => X u j)).
Proof.
  intros Hj. pose proof legacy_sizes as (Hb & Hsz).
  apply (foldM_fmap_seq _ _ (fun m => vec b m (fun u => X u j))).
  intros u Hu. rewrite vec_index; [|done|apply columns_sized; lia|done]. cbn [mbind outcome_bind].
  unfold columns_expanded. rewrite (proj2 (Nat.ltb_lt u kp)) by done. cbn [orb].
  assert (length (X u j) = Z.to_nat b) as Hx by (apply (X_row_sized n blob self b He u nn); lia).
  unfold vec. rewrite <- (app_nil_r (X u j)). change (X u j ++ []) with (concat [X u j]).
  rewrite symbols_extend_of; [|done|by constructor]. by rewrite seq_S, fmap_app.
Qed.

Lemma repair_column j : (j < nn)%nat -> repair (n_primary_of n) n ((fun i => X i j) <$> seq 0 kp) =
  (fun i => X (kp + i) j) <$> seq 0 (nn - kp).
Proof.
  intros Hj. apply (repair_of_codeword _ _ _ (fun i => X i j)).
  apply (expanded_column (n_primary_of n) (n_secondary_of n) n b
    (primary_params n blob self b He) (secondary_params n blob self b He)); [|done].
  intros; apply M_length.
Qed.

(** The rows below the message matrix once the first [r] repair symbols of
    column [j] are written. *)
Let column_written (j r u v : nat) : shard :=
  if (u <? kp)%nat || (v <? j)%nat || ((v =? j)%nat && (u <? kp + r)%nat) then X u v
  else zero_symbol b.

Lemma column_written_sized j r u : (u < nn)%nat -> bytes_sized b nn (column_written j r u).
Proof.
  intros Hu v Hv. unfold column_written.
  destruct (_ || _ || _); [by apply (X_row_sized n blob self b He u nn)|apply length_replicate].
Qed.

Lemma write_column_symbol {E} j r : (j < nn)%nat -> (kp + r < nn)%nat ->
  (row ← index (E:=E) (matrix_vec b nn (column_written j r) nn) (kp + r);
   row ← symbols_write row j (X (kp + r) j);
   set_index (matrix_vec b nn (column_written j r) nn) (kp + r) row) =
  Ok (matrix_vec b nn (column_written j (S r)) nn).
Proof.
  intros Hj Hr. pose proof legacy_sizes as (Hb & Hsz). unfold index, matrix_vec.
  rewrite list_lookup_fmap, lookup_seq_lt by done. cbn [fmap option_fmap option_map expect mbind outcome_bind Nat.add].
  rewrite vec_write; [|done|by apply column_written_sized|done|by apply (X_row_sized n blob self b He _ nn)].
  cbn [mbind outcome_bind]. unfold set_index.
  rewrite length_fmap, length_seq, (proj2 (Nat.ltb_lt _ _)) by done.
  rewrite insert_fmap_seq by done. f_equal. apply fmap_seq_ext. intros u Hu. unfold fupd at 1.
  case_decide as Heq; [subst u|]; apply vec_ext; intros v Hv; unfold fupd, column_written.
  - rewrite (proj2 (Nat.ltb_ge (kp + r) kp)), (proj2 (Nat.ltb_lt (kp + r) (kp + S r))) by lia.
    rewrite (proj2 (Nat.ltb_ge (kp + r) (kp + r))), andb_false_r, andb_true_r, orb_false_r by lia.
    case_decide as Hv'; [subst v; by rewrite Nat.eqb_refl, orb_true_r|].
    by rewrite (proj2 (Nat.eqb_neq _ _) Hv'), orb_false_r.
  - destruct (Nat.ltb_spec u (kp + r)), (Nat.ltb_spec u (kp + S r)); (done || lia).
Qed.

Lemma columns_written j : matrix_vec b nn (columns_expanded j) nn = matrix_vec b nn (column_written j 0) nn /\
  matrix_vec b nn (column_written j (nn - kp)) nn = matrix_vec b nn (columns_expanded (S j)) nn.
Proof.
  pose proof legacy_sizes as (Hb & Hsz).
  split; apply matrix_vec_ext; intros u v Hu Hv; unfold columns_expanded, column_written.
  - destruct (Nat.ltb_spec u kp), (Nat.ltb_spec v j), (Nat.eqb_spec v j), (Nat.ltb_spec u (kp + 0));
      cbn; (done || lia).
  - destruct (Nat.ltb_spec u kp), (Nat.ltb_spec v j), (Nat.eqb_spec v j),
      (Nat.ltb_spec u (kp + (nn - kp))), (Nat.ltb_spec v (S j)); cbn; (done || lia).
Qed.

Lemma expand_column_ok {E} j : (j < nn)%nat ->
  expand_column (E:=E) (state (columns_expanded j)) j = Ok (state (columns_expanded (S j))).
Proof.
  intros Hj. pose proof legacy_sizes as (Hb & Hsz). unfold expand_column.
  cbn [em_n_rows em_symbol_size em_matrix em_config state].
  assert (take kp (matrix_vec b nn (columns_expanded j) nn) =
    (fun u => vec b nn (columns_expanded j u)) <$> seq 0 kp) as -> by (apply take_fmap_seq; lia).
  rewrite gather_column by done. cbn [mbind outcome_bind vec of_symbols sym_data].
  rewrite (encode_all_repair_symbols_ok Primary c b (encoder_of_params _ _ _ _ He Primary))
    by by apply (column_source n Hn blob self b He).
  cbn [expect_ok mbind outcome_bind]. change (n_source_symbols Primary c) with (n_primary_of n).
  change (n_shards c) with n. rewrite repair_column by done.
  rewrite to_symbols_of; [|done|]; cycle 1.
  { apply sized_seq. intros i Hi. apply (X_row_sized n blob self b He _ nn); lia. }
  rewrite (proj1 (columns_written j)).
  destruct (foldM_enumerate_seq (E:=E) (fun r m => m = matrix_vec b nn (column_written j r) nn)
    (fun m '(row_index, symbol) =>
        row ← index m (kp + row_index); row ← symbols_write row j symbol;
        set_index m (kp + row_index) row)
    (matrix_vec b nn (column_written j 0) nn) (fun i => X (kp + i) j) (nn - kp)) as (m & -> & ->).
  - done.
  - intros r m Hr ->. eexists. split; [apply write_column_symbol; lia|done].
  - cbn [mbind outcome_bind]. by rewrite (proj2 (columns_written j)).
Qed.

Lemma expand_all_columns_ok {E} :
  expand_all_columns (E:=E) (state rows_expanded) = Ok (state X).
Proof.
  unfold expand_all_columns. cbn [em_config state]. change (Z.to_nat (n_shards c)) with nn.
  unfold state at 1. rewrite rows_columns. fold (state (columns_expanded 0)).
  destruct (foldM_seq (E:=E) (fun j s => s = state (columns_expanded j)) expand_column
    (state (columns_expanded 0)) 0 nn) as (s & -> & ->); [done| |].
  - intros j s Hj ->. eexists. split; [apply expand_column_ok; lia|done].
  - cbn [Nat.add]. unfold state. do 2 f_equal. apply matrix_vec_ext. intros u v _ Hv.
    unfold columns_expanded. by rewrite (proj2 (Nat.ltb_lt v nn)), orb_true_r.
Qed.

Lemma get_expanded_matrix_ok {E} : get_expanded_matrix (E:=E) self = Ok (state X).
Proof.
  unfold get_expanded_matrix, expanded_matrix_new.
  destruct (self_eq n blob self b He) as (_ & _ & _ & _ & -> & -> & ->).
  assert (forall s, s = state (fun _ _ => zero_symbol b) ->
    (s ← fill_systematic_with_rows (E:=E) s; s ← expand_rows_for_secondary s; expand_all_columns s) =
    Ok (state X)) as Hnew; [|apply Hnew].
  - intros s ->. rewrite fill_systematic_ok. cbn [mbind outcome_bind]. rewrite expand_rows_ok.
    cbn [mbind outcome_bind]. apply expand_all_columns_ok.
  - unfold state. f_equal. change (Z.to_nat (n_shards c)) with nn. unfold matrix_vec.
    rewrite fmap_seq_const. by rewrite vec_zeros.
Qed.

(** *** Metadata and slivers *)

Lemma get_metadata_ok {E} : get_metadata (E:=E) (state X) = Ok (metadata_of n X (len blob)).
Proof.
  pose proof legacy_sizes as (Hb & Hsz). unfold get_metadata. cbn [em_config em_matrix em_blob state].
  change (Z.to_nat (n_shards c)) with nn.
  rewrite mapM_outcome_ok with (g := fun '(i, j) => leaf_hash (X i j)); cycle 1.
  { intros [i j] Hij%list_elem_of_In. apply in_prod_iff in Hij as [Hi%in_seq Hj%in_seq].
    unfold index, matrix_vec. rewrite list_lookup_fmap, lookup_seq_lt by lia.
    cbn [fmap option_fmap option_map expect mbind outcome_bind Nat.add].
    rewrite vec_index; [done|done|apply (X_row_sized n blob self b He); lia|lia]. }
  cbn [mbind outcome_bind]. rewrite (blob_length_u64 n Hn blob self b He). cbn [expect mbind outcome_bind].
  rewrite (flat_list_prod nn (fun i j => leaf_hash (X i j))). apply metadata_from_hashes_ok.
Qed.

Let dropped (u : nat) : Symbols := vec b (if (u <? kp)%nat then nn else ks) (X u).

Lemma drop_recovery_symbols_eq :
  em_matrix (drop_recovery_symbols (state X)) = dropped <$> seq 0 nn.
Proof.
  pose proof legacy_sizes as (Hb & Hsz). unfold drop_recovery_symbols.
  cbn [set_matrix em_matrix em_n_rows em_n_columns state]. unfold matrix_vec.
  rewrite take_fmap_seq, drop_fmap_seq, <- list_fmap_compose by lia.
  rewrite (split_fmap_seq dropped kp nn) by lia. unfold dropped.
  f_equal; apply fmap_seq_ext; intros u Hu.
  - by rewrite (proj2 (Nat.ltb_lt u kp)) by lia.
  - rewrite (proj2 (Nat.ltb_ge u kp)) by lia. cbn.
    apply vec_truncate; [apply (X_row_sized n blob self b He)|]; lia.
Qed.

Let pairs_at (primary_symbols secondary_symbols : nat -> nat -> shard) : list SliverPair :=
  (fun i => {| primary := {| sliver_symbols := vec b ks (primary_symbols i);
                             sliver_idx := mk_sliver_index (Z.of_nat i) |};
               secondary := {| sliver_symbols := vec b kp (secondary_symbols i);
                               sliver_idx := mk_sliver_index (n - 1 - Z.of_nat i) |} |}) <$> seq 0 nn.

Lemma empty_sliver_pairs_ok {E} :
  empty_sliver_pairs (E:=E) self = Ok (pairs_at (fun _ _ => zero_symbol b) (fun _ _ => zero_symbol b)).
Proof.
  unfold empty_sliver_pairs. destruct (self_eq n blob self b He) as (_ & _ & _ & -> & -> & _ & ->).
  apply mapM_outcome_ok. intros i Hi%elem_of_seq. unfold sliver_pair_new_empty, is_nzu in *.
  rewrite to_sliver_index_eq by (cbn; lia). cbn [is_primary mbind outcome_bind pair_index_get].
  unfold sliver_new_empty. by rewrite !vec_zeros.
Qed.

(** A column as the reads of its symbols; those beyond the message matrix are
    not consumed. *)
Lemma copy_symbols_ok {E} (f : nat -> shard) (reads : list (outcome E (list byte))) :
  bytes_sized b kp f -> (forall u, (u < kp)%nat -> reads !! u = Some (Ok (f u))) ->
  copy_symbols (vec b kp (fun _ => zero_symbol b)) reads = Ok (vec b kp f).
Proof.
  intros Hf Hreads. pose proof legacy_sizes as (Hb & Hsz). unfold copy_symbols.
  rewrite vec_symbols; [|done|intros i _; apply length_replicate].
  rewrite (zip_update_seq _ _ f); [done|]. intros u Hu. cbn [Nat.add]. rewrite Hreads by done.
  cbn [mbind outcome_bind]. unfold zero_symbol, write_range. rewrite length_replicate, Hf by done.
  rewrite Nat.leb_refl, Nat.sub_0_r, Nat.eqb_refl. cbn [Nat.leb andb].
  rewrite drop_ge by (rewrite length_replicate; lia). by rewrite take_0, app_nil_r.
Qed.

Lemma expanded_column_at_lookup {E} (s : ExpandedMessageMatrix) j u : em_config s = c ->
  em_matrix s = dropped <$> seq 0 nn -> (j < nn)%nat -> (u < kp)%nat ->
  expanded_column_at (E:=E) s j !! u = Some (Ok (X u (nn - 1 - j))).
Proof.
  intros Hc Hm Hj Hu. pose proof legacy_sizes as (Hb & Hsz). unfold expanded_column_at, is_nzu in *.
  rewrite Hc, Hm, !list_lookup_fmap, lookup_seq_lt by lia. cbn [fmap option_fmap option_map Nat.add].
  f_equal. rewrite (proj2 (try_from_Some 16 _ _)) by (split; [done|lia]).
  cbn [expect mbind outcome_bind]. rewrite to_sliver_index_eq by (cbn; lia).
  cbn [is_primary mbind outcome_bind sliver_index_get pair_index_get]. unfold dropped.
  rewrite (proj2 (Nat.ltb_lt u kp)) by done. change (n_shards c) with n.
  rewrite vec_index; [|done|apply (X_row_sized n blob self b He); lia|lia]. do 2 f_equal. lia.
Qed.

Lemma legacy_slivers_ok {E} s : em_config s = c -> em_matrix s = dropped <$> seq 0 nn ->
  (p ← write_secondary_slivers (E:=E) s (pairs_at (fun _ _ => zero_symbol b) (fun _ _ => zero_symbol b));
   write_primary_slivers s p) = Ok (pairs_at X (fun i u => X u (nn - 1 - i)%nat)).
Proof.
  intros Hc Hm. pose proof legacy_sizes as (Hb & Hsz). unfold write_secondary_slivers, write_primary_slivers, pairs_at.
  rewrite (zip_update_seq _ _ (fun i =>
    {| primary := {| sliver_symbols := vec b ks (fun _ => zero_symbol b); sliver_idx := mk_sliver_index (Z.of_nat i) |};
       secondary := {| sliver_symbols := vec b kp (fun u => X u (nn - 1 - i)%nat);
                       sliver_idx := mk_sliver_index (n - 1 - Z.of_nat i) |} |})).
  - cbn [mbind outcome_bind]. apply zip_update_seq. intros i Hi. cbn [Nat.add].
    rewrite Hm, list_lookup_fmap, lookup_seq_lt by done. cbn [fmap option_fmap option_map Nat.add].
    rewrite Hc. change (Z.to_nat (n_source_symbols Secondary c)) with ks. unfold dropped.
    rewrite vec_truncate; [done| |destruct (_ <? _)%nat; lia].
    apply (X_row_sized n blob self b He); [|done]. destruct (_ <? _)%nat; lia.
  - intros i Hi. cbn [Nat.add]. unfold expanded_column_symbols.
    rewrite list_lookup_fmap, Hm, length_fmap, length_seq, lookup_seq_lt by done.
    cbn [fmap option_fmap option_map Nat.add]. unfold map_symbols. cbn [secondary sliver_symbols sliver_idx].
    rewrite (copy_symbols_ok (fun u => X u (nn - 1 - i))); [done| |].
    + apply (X_sized n blob self b He); lia.
    + intros u Hu. by apply expanded_column_at_lookup.
Qed.

Lemma pairs_at_of : pairs_at X (fun i u => X u (nn - 1 - i)%nat) = pairs_of n b X.
Proof.
  apply fmap_seq_ext. intros i Hi. unfold sliver_of, vec. cbn [line]. rewrite Nat2Z.id.
  by replace (Z.to_nat (n - 1 - Z.of_nat i)) with (nn - 1 - i)%nat by lia.
Qed.

Lemma encode_with_metadata_legacy_ok {E} :
  encode_with_metadata_legacy (E:=E) self = Ok (pairs_of n b X, metadata_of n X (len blob)).
Proof.
  unfold encode_with_metadata_legacy. rewrite get_expanded_matrix_ok. cbn [mbind outcome_bind].
  rewrite get_metadata_ok. cbn [mbind outcome_bind]. rewrite empty_sliver_pairs_ok.
  cbn [mbind outcome_bind].
  pose proof (legacy_slivers_ok (E:=E) (drop_recovery_symbols (state X)) eq_refl drop_recovery_symbols_eq)
    as Hw. apply bind_Ok in Hw as (p & -> & Hw). cbn [mbind outcome_bind]. rewrite Hw.
  cbn [mbind outcome_bind]. by rewrite pairs_at_of.
Qed.

End legacy.
