(* ===== verification/BlobDecoder.v ===== *)
(** * Blob decoding and consistency checks

    [BlobDecoder] of crates/walrus-core/src/encoding/blob_encoding.rs, and the
    methods of [ReedSolomonEncodingConfig] (encoding/config.rs) that encode,
    decode and check whole blobs. *)

From S2P Require Import Prelude Core EncodingConfig Symbols Loops ReedSolomon Merkle Metadata.
From S2P Require Import RecoverySymbols Slivers BlobEncoder.

Section decoder.
Context `{Build} `{HashFunction} `{ReedSolomonSimd}.

Record BlobDecoder := {
  bd_decoder : ReedSolomonDecoder;
  bd_blob_size : nat;
  bd_symbol_size : Z;
  bd_sliver_count : nat;
  bd_sliver_length : nat;
  bd_n_columns : nat;
  bd_workspace : Symbols;
  bd_sliver_indices : list SliverIndex;
}.

Definition set_workspace (s : BlobDecoder) (w : Symbols) : BlobDecoder :=
  {| bd_decoder := bd_decoder s; bd_blob_size := bd_blob_size s;
     bd_symbol_size := bd_symbol_size s; bd_sliver_count := bd_sliver_count s;
     bd_sliver_length := bd_sliver_length s; bd_n_columns := bd_n_columns s;
     bd_workspace := w; bd_sliver_indices := bd_sliver_indices s |}.

Definition push_sliver_index (s : BlobDecoder) (i : SliverIndex) : BlobDecoder :=
  {| bd_decoder := bd_decoder s; bd_blob_size := bd_blob_size s;
     bd_symbol_size := bd_symbol_size s; bd_sliver_count := bd_sliver_count s;
     bd_sliver_length := bd_sliver_length s; bd_n_columns := bd_n_columns s;
     bd_workspace := bd_workspace s; bd_sliver_indices := bd_sliver_indices s ++ [i] |}.

Definition set_decoder (s : BlobDecoder) (d : ReedSolomonDecoder) : BlobDecoder :=
  {| bd_decoder := d; bd_blob_size := bd_blob_size s;
     bd_symbol_size := bd_symbol_size s; bd_sliver_count := bd_sliver_count s;
     bd_sliver_length := bd_sliver_length s; bd_n_columns := bd_n_columns s;
     bd_workspace := bd_workspace s; bd_sliver_indices := bd_sliver_indices s |}.

(** [From<DataTooLargeError> for DecodeError]. *)
Definition decode_error_from (e : DataTooLargeError) : DecodeError := DecodeDataTooLarge.

(** [BlobDecoder::new]; a [usize] has 64 bits. *)
Definition blob_decoder_new (a : Axis) (config : EncodingConfigEnum) (blob_size : Z) :
    outcome DecodeError BlobDecoder :=
  symbol_size ← map_err decode_error_from (symbol_size_for_blob config blob_size);
  blob_size ← ok_or (try_from 64 blob_size) DecodeDataTooLarge;
  let n_source := n_source_symbols a config in
  decoder ← rs_decoder_new n_source (n_shards config) symbol_size;
  let sliver_length := Z.to_nat (n_source_symbols (orthogonal a) config) in
  let sliver_count := Z.to_nat n_source in
  let n_symbols_in_workspace := (sliver_length * sliver_count)%nat in
  let '(n_columns, workspace) :=
    if is_primary a
    then (sliver_length, symbols_with_capacity n_symbols_in_workspace symbol_size)
    else (sliver_count, symbols_zeros n_symbols_in_workspace symbol_size) in
  Ok {| bd_decoder := decoder; bd_blob_size := Z.to_nat blob_size;
        bd_symbol_size := symbol_size; bd_sliver_count := sliver_count;
        bd_sliver_length := sliver_length; bd_n_columns := n_columns;
        bd_workspace := workspace; bd_sliver_indices := [] |}.

Implicit Types s : BlobDecoder.

(** The primary sliver becomes a new row. *)
Definition write_primary_sliver_to_workspace {E} s (sliver : Symbols) : outcome E BlobDecoder :=
  w ← expect_ok (symbols_extend (bd_workspace s) (sym_data sliver));
  Ok (set_workspace s w).

(** The secondary sliver becomes a column. *)
Definition write_secondary_sliver_to_workspace {E} s (sliver : Symbols) (column : nat) :
    outcome E BlobDecoder :=
  w ← foldM (fun w '(row, symbol) => symbols_write w (row * bd_n_columns s + column) symbol)
        (bd_workspace s) (enumerate (to_symbols sliver));
  Ok (set_workspace s w).

(** The loop of [check_and_write_slivers_to_workspace].  The slivers come from
    an iterator whose items may have an effect when they are taken; [inspect]
    is that effect, on a state [T] of the caller. *)
Fixpoint write_slivers {E T} (a : Axis) (inspect : SliverData -> T -> T) (slivers : list SliverData)
    (s : BlobDecoder) (sliver_indices_set : gset Z) (slivers_count : nat) (t : T) :
    outcome E (BlobDecoder * nat * T) :=
  match slivers with
  | [] => Ok (s, slivers_count, t)
  | sliver :: slivers =>
    let t := inspect sliver t in
    if (slivers_count =? bd_sliver_count s)%nat then Ok (s, slivers_count, t)
    else if bool_decide (sliver_index_get (sliver_idx sliver) ∈ sliver_indices_set)
    then write_slivers a inspect slivers s sliver_indices_set slivers_count t
    else if negb (symbols_len (sliver_symbols sliver) =? bd_sliver_length s)%nat ||
            negb (symbol_size (sliver_symbols sliver) =? bd_symbol_size s)
    then write_slivers a inspect slivers s sliver_indices_set slivers_count t
    else
      s ← (if is_primary a then write_primary_sliver_to_workspace s (sliver_symbols sliver)
           else write_secondary_sliver_to_workspace s (sliver_symbols sliver) slivers_count);
      write_slivers a inspect slivers (push_sliver_index s (sliver_idx sliver))
        ({[sliver_index_get (sliver_idx sliver)]} ∪ sliver_indices_set) (S slivers_count) t
  end.

Definition check_and_write_slivers_to_workspace {T} a (inspect : SliverData -> T -> T) s
    (slivers : list SliverData) (t : T) : outcome DecodeError (BlobDecoder * T) :=
  '(s, slivers_count, t) ← write_slivers a inspect slivers s ∅ 0 t;
  ensure (slivers_count =? bd_sliver_count s)%nat DecodingUnsuccessful;;
  Ok (s, t).

(** The symbols of one call of the decoder. *)
Definition workspace_symbols {E} a s (decoder_index : nat) : outcome E (list DecodingSymbol) :=
  mapM_outcome (fun '(sliver_index_in_workspace, sliver_index) =>
      let index := if is_primary a
                   then (sliver_index_in_workspace * bd_n_columns s + decoder_index)%nat
                   else (decoder_index * bd_n_columns s + sliver_index_in_workspace)%nat in
      data ← symbols_index (bd_workspace s) index;
      Ok (mk_decoding_symbol (sliver_index_get sliver_index) data))
    (enumerate (bd_sliver_indices s)).

(** The decoded data overwrites a column or a row of the workspace. *)
Definition write_decoded {E} a s (decoder_index : nat) (decoded_data : list byte) :
    outcome E Symbols :=
  if is_primary a then
    foldM (fun w '(row_index, symbol) =>
        symbols_write w (bd_n_columns s * row_index + decoder_index) symbol)
      (bd_workspace s) (enumerate (chunks (Z.to_nat (bd_symbol_size s)) decoded_data))
  else
    let '(i, j) := symbol_range (bd_workspace s) (bd_n_columns s * decoder_index)
                     (bd_n_columns s * (decoder_index + 1)) in
    d ← write_range i j decoded_data (sym_data (bd_workspace s));
    Ok (mk_symbols d (symbol_size (bd_workspace s))).

(** One pass of the loop of [perform_decoding]. *)
Definition decode_step a s (decoder_index : nat) : outcome DecodeError BlobDecoder :=
  symbols ← workspace_symbols a s decoder_index;
  '(r, d) ← decode (bd_decoder s) symbols;
  match r with
  | inl e => Err e
  | inr decoded_data =>
    w ← write_decoded a s decoder_index decoded_data;
    Ok (set_workspace (set_decoder s d) w)
  end.

Definition perform_decoding a s : outcome DecodeError BlobDecoder :=
  foldM (decode_step a) s (seq 0 (bd_sliver_length s)).

(** [BlobDecoder::decode]. *)
Definition blob_decode {T} a s (inspect : SliverData -> T -> T) (slivers : list SliverData)
    (t : T) : outcome DecodeError (list byte * T) :=
  '(s, t) ← check_and_write_slivers_to_workspace a inspect s slivers t;
  s ← perform_decoding a s;
  Ok (take (bd_blob_size s) (sym_data (bd_workspace s)), t).

(** ** Whole blobs, as methods of the configuration *)

(** [ReedSolomonEncodingConfig::encode_with_metadata]. *)
Definition config_encode_with_metadata (config : EncodingConfigEnum) (blob : list byte) :
    outcome DataTooLargeError (list SliverPair * BlobMetadataWithId) :=
  e ← blob_encoder_new config blob;
  encode_with_metadata e.

(** [ReedSolomonEncodingConfig::compute_metadata]. *)
Definition config_compute_metadata (config : EncodingConfigEnum) (blob : list byte) :
    outcome DataTooLargeError BlobMetadataWithId :=
  e ← blob_encoder_new config blob;
  compute_metadata e.

(** [EncodingFactory::compute_blob_id]. *)
Definition compute_blob_id (config : EncodingConfigEnum) (blob : list byte) :
    outcome DataTooLargeError BlobId :=
  m ← config_compute_metadata config blob;
  Ok (blob_id m).

(** [ReedSolomonEncodingConfig::decode]. *)
Definition decode_inspected {T} a (config : EncodingConfigEnum) (blob_size : Z)
    (inspect : SliverData -> T -> T) (slivers : list SliverData) (t : T) :
    outcome DecodeError (list byte * T) :=
  d ← blob_decoder_new a config blob_size;
  blob_decode a d inspect slivers t.

Definition decode_blob a (config : EncodingConfigEnum) (blob_size : Z)
    (slivers : list SliverData) : outcome DecodeError (list byte) :=
  '(blob, _) ← decode_inspected a config blob_size (fun _ t => t) slivers tt;
  Ok blob.

Inductive ConsistencyCheckType := SkipCheck | DefaultCheck | StrictCheck.

#[export] Instance ConsistencyCheckType_eq_dec : EqDecision ConsistencyCheckType.
Proof. solve_decision. Defined.

Definition strict_consistency_check (config : EncodingConfigEnum) (id : BlobId)
    (blob : list byte) : outcome DecodeError unit :=
  m ← map_err decode_error_from (config_compute_metadata config blob);
  ensure (bool_decide (blob_id m = id)) DecodeVerificationError.

(** The closure that marks the slivers taken from the iterator. *)
Definition mark_verified (n_systematic_slivers : nat) (sliver : SliverData) (l : list bool) :
    list bool :=
  let index := Z.to_nat (sliver_index_get (sliver_idx sliver)) in
  if (index <? n_systematic_slivers)%nat then <[index := true]> l else l.

(** [ReedSolomonEncodingConfig::decode_and_verify]. *)
Definition decode_and_verify a (config : EncodingConfigEnum) (metadata : BlobMetadataWithId)
    (slivers : list SliverData) (consistency_check : ConsistencyCheckType) :
    outcome DecodeError (list byte) :=
  let blob_size := unencoded_length (Metadata.metadata metadata) in
  '(decoded_blob, already_verified_slivers) ←
    (if is_primary a && bool_decide (consistency_check = DefaultCheck) then
       let n_systematic_slivers := Z.to_nat (n_systematic_slivers a config) in
       '(blob, l) ← decode_inspected a config blob_size (mark_verified n_systematic_slivers)
                      slivers (replicate n_systematic_slivers false);
       Ok (blob, Some l)
     else
       blob ← decode_blob a config blob_size slivers;
       Ok (blob, None));
  match consistency_check with
  | SkipCheck => Ok tt
  | DefaultCheck =>
    e ← map_err decode_error_from (blob_encoder_new config decoded_blob);
    default_consistency_check e metadata already_verified_slivers
  | StrictCheck => strict_consistency_check config (blob_id metadata) decoded_blob
  end;;
  Ok decoded_blob.

End decoder.
