(* ===== verification/BlobDecoderProps.v ===== *)
(** * What the blob decoder computes

    The decoder keeps the first slivers that fit, one per index, and decodes
    them position by position.  [select] says which slivers it keeps; the data
    it returns is described by the results of the one-dimensional decoder, for
    slivers of a code matrix as well as for arbitrary ones. *)

From S2P Require Import Prelude Core EncodingConfig Symbols Loops ReedSolomon ProductCode.
From S2P Require Import Merkle Metadata RecoverySymbols Slivers SliverProps BlobEncoder.
From S2P Require Import SymbolVectors BlobEncoderProps BlobDecoder.

#[export] Instance SliverData_inhabited : Inhabited SliverData :=
  populate {| sliver_symbols := mk_symbols [] 0; sliver_idx := mk_sliver_index 0 |}.

Definition index_of (x : SliverData) : Z := sliver_index_get (sliver_idx x).

(** The slivers the decoder keeps when it needs [want] more and has seen the
    indices [seen], and the ones it takes from the iterator. *)
Fixpoint select (fits : SliverData -> bool) (want : nat) (seen : gset Z) (l : list SliverData) :
    list SliverData :=
  match l with
  | [] => []
  | x :: l =>
    match want with
    | O => []
    | S want' =>
      if bool_decide (index_of x ∈ seen) || negb (fits x) then select fits want seen l
      else x :: select fits want' ({[index_of x]} ∪ seen) l
    end
  end.

Fixpoint taken (fits : SliverData -> bool) (want : nat) (seen : gset Z) (l : list SliverData) :
    list SliverData :=
  match l with
  | [] => []
  | x :: l =>
    match want with
    | O => [x]
    | S want' =>
      x :: (if bool_decide (index_of x ∈ seen) || negb (fits x) then taken fits want seen l
            else taken fits want' ({[index_of x]} ∪ seen) l)
    end
  end.

(** The indices that are available in a list. *)
Definition available (fits : SliverData -> bool) (l : list SliverData) : gset Z :=
  list_to_set (index_of <$> base.filter (fun x => fits x = true) l).

Section select.
Context (fits : SliverData -> bool).

Lemma select_spec want seen l :
  NoDup (index_of <$> select fits want seen l) /\
  Forall (fun x => index_of x ∉ seen /\ fits x = true /\ x ∈ l) (select fits want seen l) /\
  length (select fits want seen l) = Nat.min want (size (available fits l ∖ seen)).
Proof.
  revert want seen. induction l as [|x l IH]; intros want seen.
  { cbn [select]. split_and!; [constructor|constructor|]. unfold available. cbn.
    rewrite (difference_disjoint_L ∅ seen), size_empty by set_solver. cbn. lia. }
  cbn [select]. destruct want as [|want]; [split_and!; constructor|].
  assert (available fits (x :: l) = (if fits x then {[index_of x]} else ∅) ∪ available fits l) as Hav.
  { unfold available. rewrite filter_cons. destruct (fits x); cbn; set_solver. }
  rewrite Hav. destruct (decide (index_of x ∈ seen)) as [Hin|Hin].
  { rewrite bool_decide_true by done. cbn [orb]. destruct (IH (S want) seen) as (Hnd & Hall & Hlen).
    split_and!; [done| |].
    - eapply Forall_impl; [exact Hall|]. intros y (? & ? & ?). split_and!; [done|done|by constructor].
    - rewrite Hlen. f_equal. f_equal. destruct (fits x); set_solver. }
  rewrite bool_decide_false by done. cbn [orb]. destruct (fits x) eqn:Hfx; cbn [negb].
  - destruct (IH want ({[index_of x]} ∪ seen)) as (Hnd & Hall & Hlen). split_and!.
    + rewrite fmap_cons. constructor; [|done]. intros (y & Hy & Hyl)%list_elem_of_fmap.
      eapply Forall_forall in Hall; [|exact Hyl]. set_solver.
    + constructor; [split_and!; [done|done|by constructor]|]. eapply Forall_impl; [exact Hall|].
      intros y (? & ? & ?). split_and!; [set_solver|done|by constructor].
    + cbn [length]. rewrite Hlen.
      replace (({[index_of x]} ∪ available fits l) ∖ seen)
        with ({[index_of x]} ∪ (available fits l ∖ ({[index_of x]} ∪ seen))) by
        (apply set_eq; intros z; destruct (decide (z = index_of x)); set_solver).
      rewrite (size_union {[index_of x]}) by set_solver. rewrite size_singleton. lia.
  - destruct (IH (S want) seen) as (Hnd & Hall & Hlen). split_and!; [done| |].
    + eapply Forall_impl; [exact Hall|]. intros y (? & ? & ?). split_and!; [done|done|by constructor].
    + rewrite Hlen. f_equal. f_equal. set_solver.
Qed.

Lemma elem_of_taken want seen l x : x ∈ taken fits want seen l -> x ∈ l.
Proof.
  revert want seen. induction l as [|y l IH]; intros want seen Hx; [done|]. cbn [taken] in Hx.
  destruct want; [apply list_elem_of_singleton in Hx as ->; by left|].
  apply elem_of_cons in Hx as [->|Hx]; [by left|]. right.
  destruct (bool_decide _ || _); by eapply IH.
Qed.

(** A sliver that is taken is kept, or is dropped although its index is
    available, or does not fit, unless it is surplus. *)
Lemma taken_select want seen l x : (length l <= want)%nat -> fits x = true -> index_of x ∉ seen ->
  x ∈ taken fits want seen l -> exists y, y ∈ select fits want seen l /\ index_of y = index_of x.
Proof.
  revert want seen. induction l as [|y l IH]; intros want seen Hl Hfx Hseen Hx; [by apply not_elem_of_nil in Hx|].
  cbn [length] in Hl. destruct want as [|want]; [lia|]. cbn [taken select] in *.
  apply elem_of_cons in Hx as [<-|Hx].
  { rewrite bool_decide_false by done. rewrite Hfx. cbn. exists x. split; [constructor|done]. }
  destruct (bool_decide (index_of y ∈ seen) || negb (fits y)) eqn:Hy.
  { apply IH; (done || lia). }
  destruct (decide (index_of x = index_of y)) as [Heq|Hne].
  { exists y. split; [constructor|done]. }
  destruct (IH want ({[index_of y]} ∪ seen)) as (z & Hz & Hzx); [lia|done|set_solver|done|].
  exists z. split; [by constructor|done].
Qed.

End select.

Section decoder.
Context `{Build} `{HashFunction} `{Spec : ReedSolomonSpec}.
Context (n b : Z) (Hn : is_nzu16 n).
Let c := enum_of n.
Context (Hp : forall a, axis_params a c b) (a : Axis).
Let cnt := Z.to_nat (n_source_symbols a c).
Let m := sliver_symbols_count a c.
Let bb := Z.to_nat b.

(** A sliver of the right number of symbols of the right size. *)
Definition fits (x : SliverData) : bool :=
  (symbols_len (sliver_symbols x) =? m)%nat && (symbol_size (sliver_symbols x) =? b).

(** It has no bytes beyond its last symbol. *)
Definition whole (x : SliverData) : Prop :=
  fits x = true -> length (sym_data (sliver_symbols x)) = (m * bb)%nat.

(** Symbol [j] of a sliver. *)
Definition symbol_of (x : SliverData) (j : nat) : shard :=
  chunks bb (sym_data (sliver_symbols x)) !!! j.

Lemma decoder_sizes : 0 < b /\ (0 < cnt)%nat /\ (0 < m)%nat.
Proof.
  destruct (params_positive _ _ _ (Hp a)) as [Hk Hb]. destruct (symbols_count_pos n b Hp a) as [Hm _].
  subst cnt m c. split_and!; [done|lia|done].
Qed.

Lemma symbols_of x : whole x -> fits x = true ->
  sliver_symbols x = vec b m (symbol_of x) /\ bytes_sized b m (symbol_of x).
Proof.
  intros Hw Hf. specialize (Hw Hf). pose proof decoder_sizes as (Hb & _).
  apply andb_true_iff in Hf as [_ Hs%Z.eqb_eq].
  destruct (of_symbols_chunks b Hb (sym_data (sliver_symbols x)) m Hw) as (Heq & Hsz & Hl).
  assert (chunks bb (sym_data (sliver_symbols x)) = symbol_of x <$> seq 0 m) as Hch.
  { apply list_eq. intros j. destruct (decide (j < m)%nat) as [Hj|Hj].
    - rewrite list_lookup_fmap, lookup_seq_lt by done. cbn. unfold symbol_of.
      apply list_lookup_lookup_total_lt. fold bb in Hl. lia.
    - rewrite !lookup_ge_None_2; [done|rewrite length_fmap, length_seq; lia|fold bb in Hl; lia]. }
  split.
  - unfold vec. rewrite <- Hch. fold bb in Heq. rewrite <- Heq, <- Hs. by destruct (sliver_symbols x).
  - intros j Hj. fold bb in Hsz. rewrite Hch in Hsz. unfold sized in Hsz. rewrite Forall_fmap in Hsz.
    eapply Forall_lookup_1 in Hsz; [|by apply lookup_seq_lt]. exact Hsz.
Qed.

(** *** Filling the workspace *)

Let column_grid (xs : list SliverData) (i j : nat) : shard :=
  match xs !! j with Some x => symbol_of x i | None => zero_symbol b end.

(** The workspace that holds the slivers [xs]. *)
Definition workspace_of (xs : list SliverData) : Symbols :=
  if is_primary a
  then of_symbols b (concat ((fun x => symbol_of x <$> seq 0 m) <$> xs))
  else grid b m cnt (column_grid xs).

Definition decoder_state (d : ReedSolomonDecoder) (l : nat) (w : Symbols) (indices : list SliverIndex) :
    BlobDecoder :=
  {| bd_decoder := d; bd_blob_size := l; bd_symbol_size := b; bd_sliver_count := cnt;
     bd_sliver_length := m; bd_n_columns := if is_primary a then m else cnt;
     bd_workspace := w; bd_sliver_indices := indices |}.

Let state d l xs := decoder_state d l (workspace_of xs) (sliver_idx <$> xs).

Lemma column_grid_sized xs : Forall whole xs -> Forall (fun x => fits x = true) xs ->
  grid_sized b m cnt (column_grid xs).
Proof.
  intros Hw Hf i j Hi Hj. unfold column_grid. destruct (xs !! j) as [x|] eqn:Hx; [|apply length_replicate].
  apply (proj2 (symbols_of x (Forall_lookup_1 _ _ _ _ Hw Hx) (Forall_lookup_1 _ _ _ _ Hf Hx)) i Hi).
Qed.

(** One more sliver in the workspace. *)
Lemma write_sliver_ok {E} d l xs x : Forall whole (xs ++ [x]) ->
  Forall (fun x => fits x = true) (xs ++ [x]) -> (length xs < cnt)%nat ->
  (if is_primary a then write_primary_sliver_to_workspace (E:=E) (state d l xs) (sliver_symbols x)
   else write_secondary_sliver_to_workspace (state d l xs) (sliver_symbols x) (length xs)) =
  Ok (decoder_state d l (workspace_of (xs ++ [x])) (sliver_idx <$> xs)).
Proof.
  intros [Hw Hwx]%Forall_app [Hf Hfx]%Forall_app Hlt. pose proof decoder_sizes as (Hb & Hc & Hm).
  inversion_clear Hwx as [|? ? Hx _]. inversion_clear Hfx as [|? ? Hxf _].
  destruct (symbols_of x Hx Hxf) as [Hsx Hsz]. rewrite Hsx.
  unfold write_primary_sliver_to_workspace, write_secondary_sliver_to_workspace, state, workspace_of.
  destruct (is_primary a) eqn:Ha; unfold decoder_state; rewrite Ha; cbn [bd_workspace bd_n_columns].
  - cbn [vec of_symbols sym_data]. rewrite symbols_extend_of; [|done|by apply bytes_sized_seq].
    cbn [expect_ok mbind outcome_bind]. rewrite fmap_app, concat_app. cbn [fmap list_fmap concat].
    by rewrite app_nil_r.
  - rewrite vec_symbols by done.
    pose proof (column_grid_sized xs Hw Hf) as HG.
    destruct (foldM_enumerate_seq (E:=E) (fun r w => w = grid b m cnt (fun i j =>
        if decide (j = length xs /\ (i < r)%nat) then symbol_of x i else column_grid xs i j))
      (fun w '(row, symbol) => symbols_write w (row * cnt + length xs) symbol)
      (grid b m cnt (column_grid xs)) (symbol_of x) m) as (w & -> & ->).
    + apply grid_ext; [lia|]. intros i j _ _. by rewrite decide_False by lia.
    + intros r w Hr ->. eexists. split.
      { apply grid_write; [done|lia| |done|done|by apply Hsz]. intros i j Hi Hj.
        case_decide; [by apply Hsz|by apply HG]. }
      apply grid_ext; [lia|]. intros i j _ _. unfold grid_upd.
      destruct (decide (i = r /\ j = length xs)) as [[-> ->]|Hne].
      * by rewrite decide_True by lia.
      * destruct (decide (j = length xs /\ (i < r)%nat)); destruct (decide (j = length xs /\ (i < S r)%nat));
          (done || lia).
    + cbn [mbind outcome_bind]. unfold set_workspace. cbn. do 2 f_equal.
      apply grid_ext; [lia|]. intros i j Hi Hj. unfold column_grid at 2.
      destruct (decide (j = length xs)) as [->|Hne].
      * rewrite decide_True by done. by rewrite list_lookup_middle.
      * rewrite decide_False by lia. unfold column_grid.
        destruct (Nat.lt_ge_cases j (length xs)); [by rewrite lookup_app_l|].
        rewrite !lookup_ge_None_2; [done|rewrite length_app; cbn; lia|lia].
Qed.

Lemma write_slivers_ok {E T} (inspect : SliverData -> T -> T) d l slivers xs t :
  Forall whole slivers -> Forall whole xs -> Forall (fun x => fits x = true) xs ->
  (length xs <= cnt)%nat ->
  let seen := list_to_set (index_of <$> xs) in
  let ys := xs ++ select fits (cnt - length xs) seen slivers in
  write_slivers (E:=E) a inspect slivers (state d l xs) seen (length xs) t =
    Ok (state d l ys, length ys, foldl (fun t x => inspect x t) t (taken fits (cnt - length xs) seen slivers)).
Proof.
  intros Hs. revert xs t. induction Hs as [|x slivers Hx Hs IH]; intros xs t Hw Hf Hl seen ys.
  { subst ys. cbn. by rewrite app_nil_r. }
  subst ys. cbn [write_slivers bd_sliver_count state decoder_state].
  destruct (Nat.eqb_spec (length xs) cnt) as [Heq|Hne].
  { replace (cnt - length xs)%nat with 0%nat by lia. cbn. by rewrite app_nil_r. }
  destruct (cnt - length xs)%nat as [|want] eqn:Hwant; [lia|]. cbn [select taken foldl].
  change (sliver_index_get (sliver_idx x)) with (index_of x).
  change (bd_sliver_length (state d l xs)) with m. change (bd_symbol_size (state d l xs)) with b.
  replace (negb (symbols_len (sliver_symbols x) =? m)%nat || negb (symbol_size (sliver_symbols x) =? b))
    with (negb (fits x)) by (unfold fits; by rewrite negb_andb).
  pose proof (IH xs (inspect x t) Hw Hf Hl) as IHskip. cbn zeta in IHskip. rewrite Hwant in IHskip.
  destruct (bool_decide (index_of x ∈ seen)) eqn:Hin; cbn [orb]; [exact IHskip|].
  destruct (fits x) eqn:Hfx; cbn [negb]; [|exact IHskip].
  rewrite write_sliver_ok.
  2: { apply Forall_app. split; [done|by constructor]. }
  2: { apply Forall_app. split; [done|by constructor]. }
  2: { lia. }
  cbn [mbind outcome_bind].
  pose proof (IH (xs ++ [x]) (inspect x t)) as IHnext. cbn zeta in IHnext.
  rewrite length_app in IHnext. cbn [length] in IHnext.
  replace (cnt - (length xs + 1))%nat with want in IHnext by lia.
  replace (length xs + 1)%nat with (S (length xs)) in IHnext by lia.
  assert (list_to_set (index_of <$> xs ++ [x]) = ({[index_of x]} ∪ seen : gset Z)) as Hset
    by (subst seen; rewrite fmap_app, list_to_set_app_L; cbn; set_solver).
  rewrite Hset in IHnext. rewrite <- app_assoc in IHnext. cbn [app] in IHnext.
  rewrite <- IHnext; [|apply Forall_app; split; [done|by constructor]..|lia].
  unfold push_sliver_index, state, decoder_state. cbn. by rewrite fmap_app.
Qed.

(** *** Decoding in the workspace *)

(** The workspace with the symbol [F p d] at position [d] of slot [p]. *)
Definition lay (F : nat -> nat -> shard) : Symbols :=
  if is_primary a then grid b cnt m F else grid b m cnt (fun i j => F j i).

Lemma lay_ext F G : (forall p d, (p < cnt)%nat -> (d < m)%nat -> F p d = G p d) -> lay F = lay G.
Proof.
  intros HFG. pose proof decoder_sizes as (Hb & Hc & Hm). unfold lay.
  destruct (is_primary a); apply grid_ext; [done|done|done|]. intros i j Hi Hj. by apply HFG.
Qed.

Lemma workspace_full xs : length xs = cnt -> workspace_of xs = lay (fun p d => symbol_of (xs !!! p) d).
Proof.
  intros Hl. pose proof decoder_sizes as (Hb & Hc & Hm). unfold workspace_of, lay.
  destruct (is_primary a).
  - unfold grid, vec. f_equal. rewrite (fmap_div_mod_rows m (fun p d => symbol_of (xs !!! p) d)).
    f_equal. apply list_eq. intros p. rewrite !list_lookup_fmap.
    destruct (decide (p < cnt)%nat) as [Hlt|Hge].
    + rewrite lookup_seq_lt by done. by rewrite list_lookup_lookup_total_lt by lia.
    + rewrite lookup_seq_ge by lia. by rewrite lookup_ge_None_2 by lia.
  - apply grid_ext; [done|]. intros i j _ Hj. unfold column_grid.
    by rewrite list_lookup_lookup_total_lt by lia.
Qed.

Lemma lay_index {E} F p d : grid_sized b cnt m F -> (p < cnt)%nat -> (d < m)%nat ->
  symbols_index (E:=E) (lay F) (if is_primary a then (p * m + d)%nat else (d * cnt + p)%nat) = Ok (F p d).
Proof.
  intros HF Hp' Hd. pose proof decoder_sizes as (Hb & Hc & Hm). unfold lay. destruct (is_primary a).
  - by apply grid_index.
  - rewrite grid_index; [done|done|done| |done|done]. intros i j Hi Hj. by apply HF.
Qed.

(** The result of one call of the decoder replaces the symbols it was given. *)
Lemma write_decoded_ok {E} d0 l F indices W d : grid_sized b cnt m F -> (d < m)%nat ->
  source (n_source_symbols a c) b W ->
  write_decoded (E:=E) a (decoder_state d0 l (lay F) indices) d (concat W) =
    Ok (lay (fun p d' => if decide (d' = d) then W !!! p else F p d')).
Proof.
  intros HF Hd [HWl HWs]. pose proof decoder_sizes as (Hb & Hc & Hm).
  assert (length W = cnt) as HWc by (unfold cnt; lia).
  assert (W = (fun p => W !!! p) <$> seq 0 cnt) as HW.
  { apply list_eq. intros p. rewrite list_lookup_fmap. destruct (decide (p < cnt)%nat).
    - rewrite lookup_seq_lt by done. cbn. apply list_lookup_lookup_total_lt. lia.
    - rewrite lookup_seq_ge by lia. by rewrite lookup_ge_None_2 by lia. }
  assert (bytes_sized b cnt (fun p => W !!! p)) as HWb.
  { intros p Hp'. apply (Forall_lookup_1 _ _ p _ HWs). apply list_lookup_lookup_total_lt. lia. }
  unfold write_decoded, decoder_state, lay.
  destruct (is_primary a) eqn:Ha; cbn [bd_workspace bd_n_columns bd_symbol_size].
  - rewrite chunks_concat by (fold bb; lia || done). rewrite HW.
    destruct (foldM_enumerate_seq (E:=E) (fun r w => w = grid b cnt m (fun p d' =>
        if decide (d' = d /\ (p < r)%nat) then W !!! p else F p d'))
      (fun w '(row_index, symbol) => symbols_write w (m * row_index + d) symbol)
      (grid b cnt m F) (fun p => W !!! p) cnt) as (w & -> & ->).
    + apply grid_ext; [done|]. intros i j _ _. by rewrite decide_False by lia.
    + intros r w Hr ->. rewrite Nat.mul_comm. eexists. split.
      { apply grid_write; [done|done| |done|done|by apply HWb]. intros i j Hi Hj.
        case_decide; [by apply HWb|by apply HF]. }
      apply grid_ext; [done|]. intros i j _ _. unfold grid_upd.
      destruct (decide (i = r /\ j = d)) as [[-> ->]|Hne].
      * by rewrite decide_True by lia.
      * destruct (decide (j = d /\ (i < r)%nat)); destruct (decide (j = d /\ (i < S r)%nat)); (done || lia).
    + f_equal. apply grid_ext; [done|]. intros i j Hi Hj. rewrite <- HW.
      destruct (decide (j = d)); [by rewrite decide_True|by rewrite decide_False by tauto].
  - pose proof (grid_write_row (E:=E) b Hb m cnt Hc (fun i j => F j i) d (fun p => W !!! p)) as Hrow.
    rewrite <- HW in Hrow. apply Hrow; [|done|done]. intros i j Hi Hj. by apply HF.
Qed.

(** The symbols of one call. *)
Definition step_symbols (xs : list SliverData) (d : nat) : list DecodingSymbol :=
  (fun x => mk_decoding_symbol (index_of x) (symbol_of x d)) <$> xs.

Lemma workspace_symbols_ok {E} d0 l F xs d : length xs = cnt -> grid_sized b cnt m F -> (d < m)%nat ->
  (forall p, (p < cnt)%nat -> F p d = symbol_of (xs !!! p) d) ->
  workspace_symbols (E:=E) a (decoder_state d0 l (lay F) (sliver_idx <$> xs)) d = Ok (step_symbols xs d).
Proof.
  intros Hl HF Hd HFx. unfold workspace_symbols, step_symbols.
  cbn [bd_sliver_indices bd_n_columns bd_workspace decoder_state].
  assert (enumerate (sliver_idx <$> xs) = (fun p => (p, sliver_idx (xs !!! p))) <$> seq 0 cnt) as ->.
  { unfold enumerate. apply list_eq. intros p. rewrite list_lookup_imap, !list_lookup_fmap.
    destruct (decide (p < cnt)%nat).
    - rewrite lookup_seq_lt by done. by rewrite (list_lookup_lookup_total_lt xs) by lia.
    - rewrite lookup_seq_ge by lia. by rewrite lookup_ge_None_2 by lia. }
  rewrite (mapM_fmap_seq _ _ (fun p => mk_decoding_symbol (index_of (xs !!! p)) (symbol_of (xs !!! p) d))).
  - f_equal. apply list_eq. intros p. rewrite !list_lookup_fmap. destruct (decide (p < cnt)%nat).
    + rewrite lookup_seq_lt by done. by rewrite (list_lookup_lookup_total_lt xs) by lia.
    + rewrite lookup_seq_ge by lia. by rewrite lookup_ge_None_2 by lia.
  - intros p Hp'. cbn beta iota zeta.
    replace (if is_primary a then _ else _) with (if is_primary a then p * m + d else d * cnt + p)%nat
      by (by destruct (is_primary a)).
    rewrite lay_index by done. cbn [mbind outcome_bind]. by rewrite HFx.
Qed.

(** What the one-dimensional decoder returns for every position, for a relation
    [Q] that its results are known to satisfy. *)
Section perform.
Context (xs : list SliverData) (Hxs : length xs = cnt) (Hw : Forall whole xs)
  (Hf : Forall (fun x => fits x = true) xs) (Q : nat -> list shard -> Prop).
Context (Hdec : forall d s, (d < m)%nat -> fresh (n_source_symbols a c) n b s ->
  exists W s', decode (E:=DecodeError) s (step_symbols xs d) = Ok (inr (concat W), s') /\
    fresh (n_source_symbols a c) n b s' /\ source (n_source_symbols a c) b W /\ Q d W).

Lemma symbol_of_sized p d : (p < cnt)%nat -> (d < m)%nat -> length (symbol_of (xs !!! p) d) = bb.
Proof.
  intros Hp' Hd. assert (xs !! p = Some (xs !!! p)) as Hx by (apply list_lookup_lookup_total_lt; lia).
  apply (symbols_of (xs !!! p)); [by apply (Forall_lookup_1 _ _ p _ Hw)|by apply (Forall_lookup_1 _ _ p _ Hf)|done].
Qed.

Let decoded_before (Ws : nat -> list shard) (r p d : nat) : shard :=
  if (d <? r)%nat then Ws d !!! p else symbol_of (xs !!! p) d.

Lemma decoded_before_sized Ws r : (forall d, (d < r)%nat -> source (n_source_symbols a c) b (Ws d)) ->
  grid_sized b cnt m (decoded_before Ws r).
Proof.
  intros HWs p d Hp' Hd. unfold decoded_before. destruct (Nat.ltb_spec d r) as [Hlt|Hge].
  - destruct (HWs d Hlt) as [Hl Hs]. apply (Forall_lookup_1 _ _ p _ Hs).
    apply list_lookup_lookup_total_lt. unfold cnt in Hp'. lia.
  - by apply symbol_of_sized.
Qed.

Lemma decode_step_ok l s Ws r : (r < m)%nat -> fresh (n_source_symbols a c) n b s ->
  (forall d, (d < r)%nat -> source (n_source_symbols a c) b (Ws d)) ->
  exists W s', decode_step a (decoder_state s l (lay (decoded_before Ws r)) (sliver_idx <$> xs)) r =
    Ok (decoder_state s' l (lay (decoded_before (fun d => if decide (d = r) then W else Ws d) (S r)))
          (sliver_idx <$> xs)) /\
    fresh (n_source_symbols a c) n b s' /\ source (n_source_symbols a c) b W /\ Q r W.
Proof.
  intros Hr Hs HWs. pose proof (decoded_before_sized Ws r HWs) as HF. unfold decode_step.
  rewrite (workspace_symbols_ok s l _ xs r Hxs HF Hr); cycle 1.
  { intros p _. unfold decoded_before. by rewrite Nat.ltb_irrefl. }
  cbn [mbind outcome_bind]. change (bd_decoder (decoder_state s l _ _)) with s.
  destruct (Hdec r s Hr Hs) as (W & s' & -> & Hs' & HW & HQ). cbn [mbind outcome_bind].
  rewrite write_decoded_ok by done. cbn [mbind outcome_bind]. exists W, s'. split_and!; [|done..].
  f_equal. unfold set_workspace, set_decoder, decoder_state. cbn. f_equal. apply lay_ext.
  intros p d _ _. unfold decoded_before. destruct (decide (d = r)) as [->|Hne].
  - by rewrite (proj2 (Nat.ltb_lt r (S r))) by lia.
  - destruct (Nat.ltb_spec d r), (Nat.ltb_spec d (S r)); (done || lia).
Qed.

Lemma perform_decoding_ok l s : fresh (n_source_symbols a c) n b s ->
  exists Ws s', perform_decoding a (state s l xs) =
    Ok (decoder_state s' l (lay (fun p d => Ws d !!! p)) (sliver_idx <$> xs)) /\
    forall d, (d < m)%nat -> source (n_source_symbols a c) b (Ws d) /\ Q d (Ws d).
Proof.
  intros Hs. unfold perform_decoding. change (bd_sliver_length (state s l xs)) with m.
  destruct (foldM_seq (fun r t => exists Ws s',
      t = decoder_state s' l (lay (decoded_before Ws r)) (sliver_idx <$> xs) /\
      fresh (n_source_symbols a c) n b s' /\
      forall d, (d < r)%nat -> source (n_source_symbols a c) b (Ws d) /\ Q d (Ws d))
    (decode_step a) (state s l xs) 0 m) as (t & -> & Ws & s' & -> & _ & HWs).
  - exists (fun _ => []), s. split_and!; [|done|lia]. unfold state. by rewrite workspace_full.
  - intros r t Hr (Ws & s1 & -> & Hs1 & HWs).
    destruct (decode_step_ok l s1 Ws r) as (W & s2 & -> & Hs2 & HW & HQ);
      [lia|done|intros d Hd; by apply HWs|].
    eexists. split; [done|]. eexists _, _. split_and!; [done|done|]. intros d Hd. cbn.
    destruct (decide (d = r)) as [->|Hne]; [done|]. apply HWs. lia.
  - exists Ws, s'. split; [|done]. do 2 f_equal. apply lay_ext. intros p d _ Hd.
    unfold decoded_before. cbn [Nat.add]. by rewrite (proj2 (Nat.ltb_lt d m)).
Qed.

End perform.

(** *** The decoder as a whole *)

Context (l : Z) (Hl : 0 <= l < 2 ^ 64) (Hsize : symbol_size_for_blob c l = Ok b).

Lemma blob_decoder_new_ok : exists s, fresh (n_source_symbols a c) n b s /\
  blob_decoder_new a c l = Ok (state s (Z.to_nat l) []).
Proof.
  unfold blob_decoder_new. rewrite Hsize. cbn [map_err mbind outcome_bind].
  rewrite (proj2 (try_from_Some 64 _ _)) by done. cbn [ok_or mbind outcome_bind].
  destruct (rs_decoder_new_ok (n_source_symbols a c) n b (Hp a)) as (s & Hnew & Hs).
  change (n_shards c) with n. rewrite Hnew. cbn [mbind outcome_bind]. exists s. split; [done|].
  pose proof decoder_sizes as (Hb & Hc & Hm). unfold state, decoder_state, workspace_of.
  change (Z.to_nat (n_source_symbols (orthogonal a) c)) with m. fold cnt.
  destruct (is_primary a); [done|]. do 2 f_equal. rewrite vec_zeros. by apply vec_ext.
Qed.

(** Too few slivers that fit. *)
Lemma decode_inspected_few {T} (inspect : SliverData -> T -> T) slivers t : Forall whole slivers ->
  (size (available fits slivers) < cnt)%nat ->
  decode_inspected a c l inspect slivers t = Err DecodingUnsuccessful.
Proof.
  intros Hs Hfew. unfold decode_inspected.
  destruct blob_decoder_new_ok as (s & _ & ->). cbn [mbind outcome_bind].
  unfold blob_decode, check_and_write_slivers_to_workspace.
  pose proof (write_slivers_ok (E:=DecodeError) inspect s (Z.to_nat l) slivers [] t Hs) as Hw.
  cbn zeta in Hw. cbn [fmap list_fmap length list_to_set app] in Hw. rewrite Nat.sub_0_r in Hw.
  rewrite Hw by (constructor || lia). cbn [mbind outcome_bind].
  destruct (select_spec fits cnt ∅ slivers) as (_ & _ & Hlen).
  rewrite difference_empty_L in Hlen. rewrite Hlen, Nat.min_r by lia.
  change (bd_sliver_count (state s _ _)) with cnt. by rewrite (proj2 (Nat.eqb_neq _ _)) by lia.
Qed.

Lemma decode_inspected_ok {T} (inspect : SliverData -> T -> T) slivers t (Q : nat -> list shard -> Prop) :
  let xs := select fits cnt ∅ slivers in
  Forall whole slivers -> (cnt <= size (available fits slivers))%nat ->
  (forall d s, (d < m)%nat -> fresh (n_source_symbols a c) n b s ->
    exists W s', decode (E:=DecodeError) s (step_symbols xs d) = Ok (inr (concat W), s') /\
      fresh (n_source_symbols a c) n b s' /\ source (n_source_symbols a c) b W /\ Q d W) ->
  exists Ws, decode_inspected a c l inspect slivers t =
      Ok (take (Z.to_nat l) (sym_data (lay (fun p d => Ws d !!! p))),
          foldl (fun t x => inspect x t) t (taken fits cnt ∅ slivers)) /\
    forall d, (d < m)%nat -> source (n_source_symbols a c) b (Ws d) /\ Q d (Ws d).
Proof.
  intros xs Hs Hen Hdec. unfold decode_inspected.
  destruct blob_decoder_new_ok as (s & Hfr & ->). cbn [mbind outcome_bind].
  unfold blob_decode, check_and_write_slivers_to_workspace.
  pose proof (write_slivers_ok (E:=DecodeError) inspect s (Z.to_nat l) slivers [] t Hs) as Hw.
  cbn zeta in Hw. cbn [fmap list_fmap length list_to_set app] in Hw. rewrite Nat.sub_0_r in Hw.
  rewrite Hw by (constructor || lia). cbn [mbind outcome_bind]. fold xs.
  destruct (select_spec fits cnt ∅ slivers) as (_ & Hall & Hlen). fold xs in Hall, Hlen.
  rewrite difference_empty_L in Hlen. rewrite Nat.min_l in Hlen by lia.
  change (bd_sliver_count (state s _ _)) with cnt.
  rewrite (proj2 (Nat.eqb_eq _ _)) by lia. cbn [ensure mbind outcome_bind].
  destruct (perform_decoding_ok xs Hlen) with (Q := Q) (l := Z.to_nat l) (s := s)
    as (Ws & s' & -> & HWs); [..|done|done|].
  - rewrite Forall_forall in Hs, Hall. apply Forall_forall. intros x Hx.
    apply Hs. by apply Hall.
  - eapply Forall_impl; [exact Hall|]. intros x Hx. by apply Hx.
  - exists Ws. by split.
Qed.

End decoder.

(** ** Slivers of a code matrix *)

Section matrix.
Context `{Build} `{HashFunction} `{Spec : ReedSolomonSpec}.
Context (n b : Z) (Hn : is_nzu16 n).
Let c := enum_of n.
Context (Hp : forall a, axis_params a c b) (md : BlobMetadata) (X : nat -> nat -> shard)
  (HC : committed n b md X) (a : Axis).
Let cnt := Z.to_nat (n_source_symbols a c).
Let m := sliver_symbols_count a c.
Let kp := Z.to_nat (n_primary_of n).
Let ks := Z.to_nat (n_secondary_of n).

(** A sliver of the matrix, unless the decoder drops it. *)
Definition sliver_or_dropped (x : SliverData) : Prop :=
  fits n b a x = true -> exists i, 0 <= i < n /\ x = sliver_of n b X a i.

Lemma matrix_sizes : 0 < b /\ (0 < cnt <= Z.to_nat n)%nat /\ (0 < m <= Z.to_nat n)%nat.
Proof.
  destruct (params_positive _ _ _ (Hp a)) as [Hk Hb]. destruct (symbols_count_pos n b Hp a) as [Hm Hm'].
  destruct (Hp a) as [Hkn _ _ _ _]. change (n_shards c) with n in Hkn.
  unfold cnt, m. split_and!; [done|lia|lia|done|done].
Qed.

Lemma line_bytes i : 0 <= i < n -> bytes_sized b m (line a X (Z.to_nat i)).
Proof.
  intros Hi j Hj. pose proof matrix_sizes. apply (line_length n b X (committed_matrix _ _ _ _ HC)); lia.
Qed.

Lemma symbol_of_line i d : 0 <= i < n -> (d < m)%nat ->
  symbol_of b (sliver_of n b X a i) d = line a X (Z.to_nat i) d.
Proof.
  intros Hi Hd. pose proof matrix_sizes as (Hb & _). unfold symbol_of. cbn [sliver_of sliver_symbols].
  assert (chunks (Z.to_nat b) (sym_data (of_symbols b (line a X (Z.to_nat i) <$> seq 0 m))) =
    line a X (Z.to_nat i) <$> seq 0 m) as Hch.
  { exact (to_symbols_of b Hb _ (bytes_sized_seq b m _ (line_bytes i Hi))). }
  fold c m. rewrite Hch. apply list_lookup_total_correct.
  by rewrite list_lookup_fmap, lookup_seq_lt.
Qed.

Lemma sliver_or_dropped_whole x : sliver_or_dropped x -> whole n b a x.
Proof.
  intros Hx Hfits. destruct (Hx Hfits) as (i & Hi & ->). pose proof matrix_sizes as (Hb & _).
  cbn [sliver_of sliver_symbols]. fold c m. exact (vec_data_length b m _ (line_bytes i Hi)).
Qed.

Lemma decode_genuine xs d s : Forall (fun x => exists i, 0 <= i < n /\ x = sliver_of n b X a i) xs ->
  NoDup (index_of <$> xs) -> length xs = cnt -> (d < m)%nat ->
  fresh (n_source_symbols a c) n b s ->
  exists W s', decode (E:=DecodeError) s (step_symbols b xs d) = Ok (inr (concat W), s') /\
    fresh (n_source_symbols a c) n b s' /\ source (n_source_symbols a c) b W /\
    W = line (orthogonal a) X d <$> seq 0 cnt.
Proof.
  intros Hxs Hnd Hlen Hd Hs. pose proof matrix_sizes as (Hb & Hcnt & Hm). unfold is_nzu in Hn.
  set (D := line (orthogonal a) X d <$> seq 0 cnt).
  assert (source (n_source_symbols a c) b D) as HD.
  { pose proof (sliver_source n b Hp X (committed_matrix _ _ _ _ HC) (orthogonal a) (Z.of_nat d) ltac:(lia)) as HD.
    rewrite Nat2Z.id in HD. rewrite orthogonal_involutive in HD.
    unfold sliver_symbols_count in HD. rewrite orthogonal_involutive in HD. exact HD. }
  assert (step_symbols b xs d = (fun x => crossing X (orthogonal a) (Z.of_nat d) (index_of x)) <$> xs) as ->.
  { unfold step_symbols. apply list_fmap_ext. intros p x Hx.
    destruct (Forall_lookup_1 _ _ _ _ Hxs Hx) as (i & Hi & ->). unfold crossing.
    rewrite symbol_of_line, line_orthogonal, Nat2Z.id by done. done. }
  assert (Forall (fun x => 0 <= index_of x < n) xs) as Hrange.
  { eapply Forall_impl; [exact Hxs|]. intros x (i & Hi & ->). exact Hi. }
  destruct (decode_enough (E:=DecodeError) (n_source_symbols a c) n b (Hp a) D HD ∅ s
    ((fun x => crossing X (orthogonal a) (Z.of_nat d) (index_of x)) <$> xs)) as (s' & -> & Hs').
  - by apply (fresh_holding _ _ _ (Hp a)).
  - apply Forall_fmap. eapply Forall_impl; [exact Hrange|]. intros x Hx. cbn.
    pose proof (crossing_genuine n b Hn md X HC (orthogonal a) (Z.of_nat d) ltac:(lia) (index_of x) Hx) as Hg.
    rewrite orthogonal_involutive, Nat2Z.id in Hg. unfold sliver_symbols_count in Hg.
    rewrite orthogonal_involutive in Hg. exact Hg.
  - rewrite union_empty_r_L, size_positions_distinct.
    + rewrite length_fmap. unfold cnt in Hlen. lia.
    + apply Forall_fmap. eapply Forall_impl; [exact Hrange|]. intros x Hx. cbn.
      apply (crossing_usable n b md X HC); [lia|done].
    + rewrite <- list_fmap_compose. cbn.
      apply (NoDup_fmap_2_strong Z.to_nat) in Hnd; [by rewrite <- list_fmap_compose in Hnd|].
      intros i j Hi Hj Heq. apply list_elem_of_fmap in Hi as (x & -> & Hx), Hj as (y & -> & Hy).
      rewrite Forall_forall in Hrange. pose proof (Hrange x Hx). pose proof (Hrange y Hy). lia.
  - by exists D, s'.
Qed.
Lemma lay_matrix (Ws : nat -> list shard) :
  (forall d, (d < m)%nat -> Ws d = line (orthogonal a) X d <$> seq 0 cnt) ->
  lay n b a (fun p d => Ws d !!! p) = grid b kp ks X.
Proof.
  intros HWs. pose proof matrix_sizes as (Hb & Hcnt & Hm).
  rewrite (lay_ext n b Hp a _ (fun p d => line a X p d)).
  - unfold lay. by destruct a.
  - intros p d Hp' Hd. rewrite HWs by done. apply list_lookup_total_correct.
    rewrite list_lookup_fmap, lookup_seq_lt by done. cbn. by rewrite line_orthogonal.
Qed.

Lemma decode_matrix {T} (inspect : SliverData -> T -> T) slivers t :
  0 <= unencoded_length md < 2 ^ 64 -> Forall sliver_or_dropped slivers ->
  decode_inspected a c (unencoded_length md) inspect slivers t =
    if (cnt <=? size (available (fits n b a) slivers))%nat
    then Ok (take (Z.to_nat (unencoded_length md)) (sym_data (grid b kp ks X)),
             foldl (fun t x => inspect x t) t (taken (fits n b a) cnt ∅ slivers))
    else Err DecodingUnsuccessful.
Proof.
  intros Hl Hs. pose proof (committed_size _ _ _ _ HC) as Hsize.
  assert (Forall (whole n b a) slivers) as Hw
    by (eapply Forall_impl; [exact Hs|apply sliver_or_dropped_whole]).
  destruct (Nat.leb_spec cnt (size (available (fits n b a) slivers))) as [Hle|Hlt].
  - destruct (select_spec (fits n b a) cnt ∅ slivers) as (Hnd & Hall & Hlen).
    rewrite difference_empty_L, Nat.min_l in Hlen by done.
    destruct (decode_inspected_ok n b Hn Hp a _ Hl Hsize inspect slivers t
      (fun d W => W = line (orthogonal a) X d <$> seq 0 cnt) Hw Hle) as (Ws & Hdec & HWs).
    + intros d s Hd Hfr. apply decode_genuine; [|done|done|done|done].
      rewrite Forall_forall in Hs, Hall. apply Forall_forall. intros x Hx.
      destruct (Hall x Hx) as (_ & Hfx & Hin). by apply Hs.
    + etransitivity; [exact Hdec|]. do 2 f_equal. do 2 f_equal. apply lay_matrix. intros d Hd. by apply HWs.
  - by apply (decode_inspected_few n b Hn Hp a _ Hl Hsize).
Qed.

End matrix.

(** ** Blobs *)

Lemma message_bytes (b kp ks : nat) (blob : list byte) : (0 < ks)%nat ->
  (length blob <= kp * (ks * b))%nat ->
  take (length blob) (sym_data (grid (Z.of_nat b) kp ks (message b ks blob))) = blob.
Proof.
  intros Hks Hl. unfold grid, vec. cbn [of_symbols sym_data].
  rewrite (fmap_seq_ext _ (fun p => pad_symbol b (take b (drop (b * p) blob)))); cycle 1.
  { intros p _. unfold message. do 3 f_equal. rewrite (Nat.div_mod_eq p ks) at 3. lia. }
  rewrite <- pad_concat by lia. unfold pad_symbol. by rewrite take_app_length.
Qed.

Section roundtrip.
Context `{Build} `{HashFunction} `{Spec : ReedSolomonSpec} `{!ReedSolomonLinear Spec}.
Context (n : Z) (Hn : is_nzu16 n) (blob : list byte) (self : BlobEncoder) (b : Z).
Context (He : encoder_of n blob self b).
Let kp := Z.to_nat (n_primary_of n).
Let ks := Z.to_nat (n_secondary_of n).
Let X := expanded (n_primary_of n) (n_secondary_of n) n (message (Z.to_nat b) ks blob).

(** What encoding returns is a commitment to the matrix. *)
Lemma encoded_committed : committed n b (metadata (metadata_of n X (len blob))) X.
Proof.
  constructor; [apply (X_matrix n blob self b He)|done|apply (encoder_of_size _ _ _ _ He)].
Qed.

Lemma encoded_length : 0 <= len blob < 2 ^ 64.
Proof. exact (proj2 (proj1 (try_from_Some 64 _ _) (blob_length_u64 n Hn blob self b He))). Qed.

Lemma matrix_bytes : take (length blob) (sym_data (grid b kp ks X)) = blob.
Proof.
  destruct (sizes n Hn blob self b He) as (Hb & Hkp & _ & Hks & _ & Hbb & Hl).
  rewrite (grid_ext b kp ks Hks _ (message (Z.to_nat b) ks blob)).
  - replace b with (Z.of_nat (Z.to_nat b)) at 1 by lia. by apply message_bytes.
  - intros i j Hi Hj. by apply (expanded_systematic (n_primary_of n) (n_secondary_of n)).
Qed.

Lemma decode_encoded {T} a (inspect : SliverData -> T -> T) slivers t :
  Forall (sliver_or_dropped n b X a) slivers ->
  decode_inspected a (enum_of n) (len blob) inspect slivers t =
    let cnt := Z.to_nat (n_source_symbols a (enum_of n)) in
    if (cnt <=? size (available (fits n b a) slivers))%nat
    then Ok (blob, foldl (fun t x => inspect x t) t (taken (fits n b a) cnt ∅ slivers))
    else Err DecodingUnsuccessful.
Proof.
  intros Hs. pose proof (decode_matrix n b Hn (encoder_of_params _ _ _ _ He) _ X encoded_committed
    a inspect slivers t encoded_length Hs) as Hdec.
  cbn [metadata metadata_of unencoded_length] in Hdec. rewrite Hdec. rewrite Nat2Z.id.
  pose proof matrix_bytes as Hm. unfold kp, ks in Hm. by rewrite Hm.
Qed.

End roundtrip.
