(* ===== verification/BlobReads.v ===== *)
(** * Consistency of reads

    A client that decodes a blob checks the result against the metadata, with
    the default check on the systematic primary slivers or with the strict one
    on the blob ID.  A read is justified when the blob is made of rows whose
    Merkle roots are the committed ones; two justified reads under the same
    metadata return the same bytes unless hashes collide. *)

From S2P Require Import Prelude Core EncodingConfig Symbols Loops ReedSolomon ProductCode.
From S2P Require Import Merkle Metadata RecoverySymbols Slivers SliverProps BlobEncoder.
From S2P Require Import SymbolVectors BlobEncoderProps BlobDecoder BlobDecoderProps.

(** A loop that only checks. *)
Lemma foldM_unit_Ok {E A} (f : A -> outcome E unit) l :
  foldM (fun _ x => f x) tt l = Ok tt -> Forall (fun x => f x = Ok tt) l.
Proof.
  induction l as [|x l IH]; cbn [foldM]; intros Hl; [constructor|].
  apply bind_Ok in Hl as ([] & Hx & Hl). constructor; [done|by apply IH].
Qed.

Lemma foldM_unit_all {E A} (f : A -> outcome E unit) l :
  Forall (fun x => f x = Ok tt) l -> foldM (fun _ x => f x) tt l = Ok tt.
Proof. induction 1 as [|x l Hx _ IH]; [done|]. cbn [foldM]. by rewrite Hx. Qed.

Lemma subset_concat_fmap {A B} (f : B -> list A) l y : y ∈ l -> f y ⊆ concat (f <$> l).
Proof.
  intros Hy x Hx. apply list_elem_of_In, in_concat. exists (f y). split; apply list_elem_of_In; [|done].
  apply list_elem_of_fmap. by exists y.
Qed.

(** Rows taken from one of two matrices with the same leading bytes. *)
Lemma take_concat_mix {A} (L1 L2 L3 : list (list A)) (r l : nat) :
  Forall (fun x => length x = r) L1 -> Forall (fun x => length x = r) L2 ->
  Forall2 (fun z xy => z = xy.1 \/ z = xy.2) L3 (zip L1 L2) -> length L1 = length L2 ->
  take l (concat L1) = take l (concat L2) -> take l (concat L3) = take l (concat L1).
Proof.
  intros H1. revert L2 L3 l. induction H1 as [|x L1 Hx H1 IH]; intros [|y L2] L3 l H2 H3 Hl Heq;
    cbn [length] in Hl; try lia; [by inversion H3|].
  apply Forall_cons in H2 as [Hy H2]. cbn [zip zip_with] in H3. inversion H3 as [|z ? L3' ? Hz H3']; subst.
  cbn [concat] in *. rewrite !take_app in Heq.
  apply app_inj_1 in Heq as [Hh Ht]; [|rewrite !length_take; lia].
  rewrite !take_app. rewrite Hy in Ht. f_equal.
  - destruct Hz as [->| ->]; [done|by symmetry].
  - replace (length z) with (length x) by (destruct Hz as [->| ->]; cbn; lia).
    apply (IH L2); [done|done|lia|exact Ht].
Qed.

Section reads.
Context `{Build} `{HashFunction} `{Spec : ReedSolomonSpec}.
Context (n b : Z) (Hn : is_nzu16 n).
Let c := enum_of n.
Context (Hp : forall a, axis_params a c b) (md : BlobMetadata).
Context (Hlen : len (hashes md) = n) (Hl : 0 <= unencoded_length md < 2 ^ 64).
Context (Hsize : symbol_size_for_blob c (unencoded_length md) = Ok b).
Let k := n_secondary_of n.
Let kp := Z.to_nat (n_primary_of n).
Let ks := Z.to_nat (n_secondary_of n).
Let l := Z.to_nat (unencoded_length md).

(** Everything hashed for the root of a primary sliver. *)
Definition row_queries (row : list shard) : list (list byte) :=
  (leaf_query <$> codeword k n row) ++
  tree_queries (path_length (Z.to_nat n)) (leaf_hash <$> codeword k n row).

(** The row [u] has the committed hash. *)
Record committed_row (q : list (list byte)) (u : nat) (row : list shard) : Prop := {
  committed_row_source : source k b row;
  committed_row_queries : row_queries row ⊆ q;
  committed_row_hash : exists h, hashes md !! u = Some h /\
    node_bytes (merkle_root (leaf_hash <$> codeword k n row)) = node_bytes (primary_hash h);
}.

Definition justified (q : list (list byte)) (blob : list byte) : Prop :=
  exists row : nat -> list shard, (forall u, (u < kp)%nat -> committed_row q u (row u)) /\
    blob = take l (concat ((fun u => concat (row u)) <$> seq 0 kp)).

Lemma committed_row_unique q u row row' : collision_free q ->
  committed_row q u row -> committed_row q u row' -> row = row'.
Proof.
  intros Hq [Hs Hqs (h & Hh & Hr)] [Hs' Hqs' (h' & Hh' & Hr')]. rewrite Hh in Hh'. injection Hh' as <-.
  destruct (codeword_spec _ _ _ (Hp Secondary) row Hs) as [Hcl _].
  destruct (codeword_spec _ _ _ (Hp Secondary) row' Hs') as [Hcl' _].
  change (n_source_symbols Secondary c) with k in Hcl, Hcl'. change (n_shards c) with n in Hcl, Hcl'.
  assert (length (codeword k n row) = Z.to_nat n) as Hn1 by lia.
  assert (length (codeword k n row') = Z.to_nat n) as Hn2 by lia.
  unfold row_queries in Hqs, Hqs'. unfold merkle_root in Hr, Hr'. rewrite !length_fmap in Hr, Hr'.
  rewrite Hn1 in Hr. rewrite Hn2 in Hr'.
  assert (codeword k n row = codeword k n row') as Hc.
  { apply (leaf_hashes_binding q); [done|set_solver|set_solver|].
    apply (subtree_binding q (path_length (Z.to_nat n)));
      [done|apply leaf_hashes_wf..|by rewrite !length_fmap, Hn1, Hn2| |set_solver|set_solver|congruence].
    rewrite length_fmap, Hn1. apply le_pow_path_length. }
  unfold codeword in Hc. apply app_inj_1 in Hc as [Hc _]; [done|].
  destruct Hs as [? _], Hs' as [? _]. lia.
Qed.

Lemma justified_unique q blob blob' : collision_free q ->
  justified q blob -> justified q blob' -> blob = blob'.
Proof.
  intros Hq (rows1 & HR & ->) (rows2 & HR' & ->). do 2 f_equal. apply fmap_seq_ext. intros u Hu. f_equal.
  apply (committed_row_unique q u); [done|apply HR; lia|apply HR'; lia].
Qed.

(** *** Slivers a client has verified *)

Lemma verified_sliver a x : 0 <= index_of x -> sliver_verify a x (config_of n) md = Ok tt ->
  index_of x < n /\ fits n b a x = true /\ whole n b a x /\ check_hash a x c md = Ok tt.
Proof.
  intros Hi Hv. unfold sliver_verify in Hv.
  replace (get_for_type (config_of n) (md_encoding_type md)) with c in Hv by (by destruct (md_encoding_type md)).
  rewrite Hlen in Hv. change (sliver_index_get (sliver_idx x)) with (index_of x) in Hv.
  destruct (Z.ltb_spec (index_of x) n) as [Hlt|]; [|done]. cbn [ensure mbind outcome_bind] in Hv.
  unfold has_correct_length, sliver_size_for_blob in Hv. rewrite Hsize in Hv. cbn [mbind outcome_bind] in Hv.
  destruct (Hp (orthogonal a)) as [Hk Hs Hb _ _]. change (n_shards c) with n in *. unfold checked_mul in Hv.
  assert (0 <= n_source_symbols (orthogonal a) c * b < 2 ^ 32) as Hr by nia.
  rewrite (proj2 (try_from_Some 32 _ _) (conj eq_refl Hr)) in Hv. cbn [ok_or ok mbind outcome_bind] in Hv.
  rewrite (proj2 (try_from_Some 64 _ _)) in Hv by (split; [done|lia]). cbn [expect mbind outcome_bind] in Hv.
  destruct (Z.eqb_spec (sliver_len x) (n_source_symbols (orthogonal a) c * b)) as [Hsl|]; [|done].
  cbn [ensure mbind outcome_bind] in Hv. unfold has_correct_symbol_size, md_symbol_size in Hv.
  replace (get_for_type (config_of n) (md_encoding_type md)) with c in Hv by (by destruct (md_encoding_type md)).
  rewrite Hsize in Hv. cbn [ok mbind outcome_bind] in Hv.
  destruct (Z.eqb_spec (symbol_size (sliver_symbols x)) b) as [Hb'|]; [|done].
  cbn [ensure mbind outcome_bind] in Hv. unfold sliver_len in Hsl.
  assert (length (sym_data (sliver_symbols x)) = (sliver_symbols_count a c * Z.to_nat b)%nat) as Hd.
  { unfold sliver_symbols_count. nia. }
  split_and!; [done| |intros _; exact Hd|done]. unfold fits, symbols_len, symbol_usize.
  rewrite Hb', Hd, Nat.div_mul, Nat.eqb_refl, Z.eqb_refl by lia. done.
Qed.

(** The hash check of a primary sliver commits its symbols. *)
Lemma check_hash_row q x row : 0 <= index_of x < n -> sliver_symbols x = of_symbols b row ->
  source k b row -> row_queries row ⊆ q -> check_hash Primary x c md = Ok tt ->
  committed_row q (Z.to_nat (index_of x)) row.
Proof.
  intros Hi Hx Hrow Hq Hc. unfold check_hash in Hc. change (n_shards c) with n in Hc. unfold is_nzu in Hn.
  rewrite to_pair_index_of_sliver_eq in Hc by (cbn; unfold index_of in Hi; lia).
  cbn [is_primary mbind outcome_bind pair_index_get] in Hc.
  change (sliver_index_get (sliver_idx x)) with (index_of x) in Hc.
  destruct (hashes md !! Z.to_nat (index_of x)) as [h|] eqn:Hh; [|done].
  cbn [expect mbind outcome_bind] in Hc.
  rewrite (sliver_root_ok n b Hp Primary x row Hx Hrow) in Hc. cbn [expect_ok mbind outcome_bind] in Hc.
  case_bool_decide as Heq; [|done]. constructor; [done|done|]. exists h. split; [done|].
  change (n_source_symbols (orthogonal Primary) (enum_of n)) with k in Heq. by rewrite Heq.
Qed.

(** *** What a client decodes *)

(** Slivers that passed verification. *)
Definition verified (a : Axis) (slivers : list SliverData) : Prop :=
  Forall (fun x => 0 <= index_of x /\ sliver_verify a x (config_of n) md = Ok tt) slivers.

Lemma verified_facts a slivers : verified a slivers ->
  Forall (fun x => 0 <= index_of x < n /\ fits n b a x = true /\ whole n b a x /\
                   check_hash a x c md = Ok tt) slivers.
Proof.
  intros Hs. eapply Forall_impl; [exact Hs|]. intros x [Hi Hv].
  destruct (verified_sliver a x Hi Hv) as (? & ? & ? & ?). split_and!; done.
Qed.

Lemma clean_symbols a xs d : (d < sliver_symbols_count a c)%nat -> NoDup (index_of <$> xs) ->
  Forall (fun x => 0 <= index_of x < n /\ fits n b a x = true /\ whole n b a x) xs ->
  clean n b (step_symbols b xs d).
Proof.
  intros Hd Hnd Hxs. constructor.
  - unfold step_symbols. rewrite <- list_fmap_compose. cbn.
    apply (NoDup_fmap_2_strong Z.to_nat) in Hnd; [by rewrite <- list_fmap_compose in Hnd|].
    intros i j (x & -> & Hx)%list_elem_of_fmap (y & -> & Hy)%list_elem_of_fmap Heq.
    rewrite Forall_forall in Hxs. pose proof (Hxs x Hx). pose proof (Hxs y Hy). lia.
  - apply Forall_fmap. eapply Forall_impl; [exact Hxs|]. intros x ([Hi Hi'] & Hf & Hw). cbn.
    split; [done|]. apply bool_decide_eq_true. cbn. split; [|done].
    by apply (symbols_of n b Hp a x Hw Hf).
Qed.

Lemma decode_verified {T} a (inspect : SliverData -> T -> T) slivers t blob t' :
  verified a slivers ->
  decode_inspected a c (unencoded_length md) inspect slivers t = Ok (blob, t') ->
  let cnt := Z.to_nat (n_source_symbols a c) in let m := sliver_symbols_count a c in
  exists Ws, (forall d, (d < m)%nat -> source (n_source_symbols a c) b (Ws d)) /\
    blob = take l (sym_data (lay n b a (fun p d => Ws d !!! p))) /\
    t' = foldl (fun t x => inspect x t) t (taken (fits n b a) cnt ∅ slivers) /\
    forall x d, x ∈ select (fits n b a) cnt ∅ slivers -> (d < m)%nat ->
      index_of x < n_source_symbols a c -> Ws d !!! Z.to_nat (index_of x) = symbol_of b x d.
Proof.
  intros Hs%verified_facts Hdec cnt m.
  assert (Forall (whole n b a) slivers) as Hw by (eapply Forall_impl; [exact Hs|]; by intros x (_ & _ & ? & _)).
  destruct (Nat.lt_ge_cases (size (available (fits n b a) slivers)) cnt) as [Hlt|Hge].
  { rewrite (decode_inspected_few n b Hn Hp a _ Hl Hsize) in Hdec; done. }
  destruct (select_spec (fits n b a) cnt ∅ slivers) as (Hnd & Hall & Hsel).
  rewrite difference_empty_L, Nat.min_l in Hsel by done. set (xs := select (fits n b a) cnt ∅ slivers) in *.
  destruct (decode_inspected_ok n b Hn Hp a _ Hl Hsize inspect slivers t
    (fun d W => Forall (fun y => ds_index y < n_source_symbols a c ->
                  W !! Z.to_nat (ds_index y) = Some (ds_data y)) (step_symbols b xs d)) Hw Hge)
    as (Ws & Hdec' & HWs).
  - intros d s Hd Hfr. fold xs. apply (decode_any (n_source_symbols a c) n b (Hp a)); [done| |].
    + apply (clean_symbols a); [done|done|]. apply Forall_forall. intros x Hx.
      rewrite Forall_forall in Hs, Hall. destruct (Hall x Hx) as (_ & _ & Hin).
      destruct (Hs x Hin) as (? & ? & ? & _). done.
    + unfold step_symbols. by rewrite length_fmap.
  - fold c cnt in Hdec'. rewrite Hdec' in Hdec. injection Hdec as <- <-. exists Ws.
    split_and!; [intros d Hd; by apply HWs|done|done|]. intros x d Hx Hd Hi.
    destruct (HWs d Hd) as [_ Hin]. unfold step_symbols in Hin. rewrite Forall_fmap, Forall_forall in Hin.
    apply list_lookup_total_correct. by apply (Hin x Hx).
Qed.

Lemma lay_length a F : grid_sized b (Z.to_nat (n_source_symbols a c)) (sliver_symbols_count a c) F ->
  length (sym_data (lay n b a F)) = (kp * ks * Z.to_nat b)%nat.
Proof.
  intros HF. pose proof (n_source_bounds n Hn). unfold lay. destruct a; cbn [is_primary].
  - apply grid_data_length; [cbn; lia|exact HF].
  - apply grid_data_length; [cbn; lia|]. intros i j Hi Hj. by apply HF.
Qed.

Lemma decoded_length a Ws : (forall d, (d < sliver_symbols_count a c)%nat ->
    source (n_source_symbols a c) b (Ws d)) ->
  length (take l (sym_data (lay n b a (fun p d => Ws d !!! p)))) = l.
Proof.
  intros HWs. rewrite length_take, lay_length.
  - destruct (symbol_size_for_blob_Ok n Hn _ _ Hl Hsize) as (Hle & Hb & _).
    pose proof (n_source_bounds n Hn). unfold l, kp, ks. nia.
  - intros p d Hp' Hd. destruct (HWs d Hd) as [Hlw Hsw]. apply (Forall_lookup_1 _ _ p _ Hsw).
    apply list_lookup_lookup_total_lt. lia.
Qed.

(** *** The default check *)

(** The rows of a blob. *)
Definition blob_row (blob : list byte) (u : nat) : list shard :=
  message (Z.to_nat b) ks blob u <$> seq 0 ks.

Lemma blob_row_source blob u : source k b (blob_row blob u).
Proof.
  destruct (Hp Secondary) as [Hk _ Hb _ _]. change (n_source_symbols Secondary c) with k in Hk.
  apply source_fmap_seq; [lia|lia|]. intros v _. apply length_message.
Qed.

Lemma blob_rows_bytes blob : length blob = l ->
  take l (concat ((fun u => concat (blob_row blob u)) <$> seq 0 kp)) = blob.
Proof.
  intros Hbl. pose proof (n_source_bounds n Hn) as Hk.
  destruct (symbol_size_for_blob_Ok n Hn _ _ Hl Hsize) as (Hle & Hb & _).
  assert (0 < ks)%nat as Hks by (unfold ks; lia).
  assert (length blob <= kp * (ks * Z.to_nat b))%nat as Hfit by (rewrite Hbl; unfold l, kp, ks; nia).
  pose proof (message_bytes (Z.to_nat b) kp ks blob Hks Hfit) as Hm. rewrite Hbl in Hm.
  rewrite Z2Nat.id in Hm by lia. etransitivity; [|exact Hm]. by rewrite grid_rows.
Qed.

Lemma default_check_rows q blob e mdw av : metadata mdw = md ->
  encoder_of n blob e b ->
  (forall u, (u < kp)%nat -> row_queries (blob_row blob u) ⊆ q) ->
  default_consistency_check e mdw av = Ok tt ->
  forall u, (u < kp)%nat ->
    (exists L, av = Some L /\ L !! u = Some true) \/ committed_row q u (blob_row blob u).
Proof.
  intros Hmd He Hq Hc u Hu. unfold default_consistency_check in Hc.
  rewrite (encoder_of_self _ _ _ _ He) in Hc. cbn [be_config] in Hc.
  change (n_systematic_slivers Primary (enum_of n)) with (n_primary_of n) in Hc. fold kp in Hc.
  apply bind_Ok in Hc as ([] & _ & Hc). apply foldM_unit_Ok in Hc. rewrite Forall_forall in Hc.
  specialize (Hc u ltac:(apply elem_of_seq; lia)). apply bind_Ok in Hc as (v & Hv & Hc).
  destruct v.
  { left. destruct av as [L|]; [|done]. exists L. split; [done|]. unfold index in Hv.
    destruct (L !! u); [|done]. by injection Hv as ->. }
  right. rewrite <- (encoder_of_self _ _ _ _ He) in Hc.
  rewrite (systematic_primary_sliver_ok n Hn blob e b He u Hu) in Hc. cbn [mbind outcome_bind] in Hc.
  rewrite Hmd in Hc.
  destruct (check_hash Primary _ _ md) as [[]| |] eqn:Hch; [|done|done].
  apply (check_hash_row q _ (blob_row blob u)) in Hch.
  - cbn in Hch. by rewrite Nat2Z.id in Hch.
  - cbn. pose proof (n_source_bounds n Hn). unfold kp in Hu. lia.
  - done.
  - apply blob_row_source.
  - by apply Hq.
Qed.

(** *** The marks of the slivers that were taken *)

Lemma marked_taken (cnt : nat) xs L u : Forall (fun x => 0 <= index_of x) xs ->
  foldl (fun t x => mark_verified cnt x t) L xs !! u = Some true ->
  L !! u = Some true \/ exists x, x ∈ xs /\ index_of x = Z.of_nat u.
Proof.
  intros Hxs. revert L. induction Hxs as [|x xs Hx _ IH]; intros L Hu; [by left|]. cbn [foldl] in Hu.
  destruct (IH _ Hu) as [Hl'|(y & Hy & Hyu)]; [|right; exists y; split; [by right|done]].
  unfold mark_verified in Hl'. change (sliver_index_get (sliver_idx x)) with (index_of x) in Hl'.
  destruct (_ <? _)%nat; [|by left].
  destruct (decide (Z.to_nat (index_of x) = u)) as [Heq|Hne].
  - right. exists x. split; [by left|lia].
  - left. by rewrite list_lookup_insert_ne in Hl'.
Qed.

(** *** Reads with the default check *)

(** The symbols of a primary sliver, and what is hashed to check a read. *)
Definition sliver_row (x : SliverData) : list shard := chunks (Z.to_nat b) (sym_data (sliver_symbols x)).

Definition read_queries (a : Axis) (slivers : list SliverData) (blob : list byte) : list (list byte) :=
  (if is_primary a then concat ((fun x => row_queries (sliver_row x)) <$> slivers) else []) ++
  concat ((fun u => row_queries (blob_row blob u)) <$> seq 0 kp).

Lemma blob_row_queries a slivers blob u : (u < kp)%nat ->
  row_queries (blob_row blob u) ⊆ read_queries a slivers blob.
Proof.
  intros Hu x Hx. apply elem_of_app. right.
  apply (subset_concat_fmap (fun u => row_queries (blob_row blob u)) (seq 0 kp) u); [|done].
  apply elem_of_seq. lia.
Qed.

Lemma sliver_row_queries slivers blob x : x ∈ slivers ->
  row_queries (sliver_row x) ⊆ read_queries Primary slivers blob.
Proof.
  intros Hx y Hy. apply elem_of_app. left. cbn [is_primary].
  by apply (subset_concat_fmap (fun x => row_queries (sliver_row x)) slivers x).
Qed.

Lemma decoded_encoder blob e : length blob = l -> blob_encoder_new c blob = Ok e -> encoder_of n blob e b.
Proof.
  intros Hbl He. assert (len blob = unencoded_length md) as Hz by (unfold l in Hbl; lia).
  rewrite (blob_encoder_new_eq n Hn blob) in He by lia. rewrite Hz in He. fold c in He.
  rewrite Hsize in He. injection He as <-.
  destruct (symbol_size_for_blob_Ok n Hn _ _ Hl Hsize) as (Hle & _).
  constructor; [done|by rewrite Hz|lia|done].
Qed.

(** The rows of the blob all have committed hashes. *)
Lemma checked_rows_justified q blob : length blob = l ->
  (forall u, (u < kp)%nat -> committed_row q u (blob_row blob u)) -> justified q blob.
Proof. intros Hbl Hrows. exists (blob_row blob). split; [done|]. symmetry. by apply blob_rows_bytes. Qed.

Lemma default_secondary_justified slivers mdw blob : metadata mdw = md -> verified Secondary slivers ->
  decode_and_verify Secondary c mdw slivers DefaultCheck = Ok blob ->
  justified (read_queries Secondary slivers blob) blob.
Proof.
  intros Hmd Hs Hread. unfold decode_and_verify, decode_blob in Hread. rewrite Hmd in Hread.
  cbn [is_primary andb] in Hread. apply bind_Ok in Hread as ([d av] & Hdec & Hread).
  apply bind_Ok in Hdec as (d' & Hdec & [= -> <-]). apply bind_Ok in Hdec as ([d' []] & Hdec & [= ->]).
  apply bind_Ok in Hread as ([] & Hcheck & [= ->]). apply bind_Ok in Hcheck as (e & He & Hcheck).
  destruct (decode_verified Secondary _ slivers tt blob tt Hs Hdec) as (Ws & HWs & Hblob & _ & _).
  assert (length blob = l) as Hbl by (rewrite Hblob; by apply decoded_length).
  destruct (blob_encoder_new c blob) as [e'| |] eqn:Henc; [|done|done]. injection He as ->.
  pose proof (decoded_encoder blob e Hbl Henc) as Hof. apply checked_rows_justified; [done|].
  intros u Hu. destruct (default_check_rows _ blob e mdw None Hmd Hof
    (blob_row_queries Secondary slivers blob) Hcheck u Hu) as [(? & ? & _)|]; done.
Qed.

(** A row of the decoded data that was a verified sliver. *)
Lemma kept_row slivers blob (Ws : nat -> list shard) u x : verified Primary slivers -> (u < kp)%nat ->
  (forall x d, x ∈ select (fits n b Primary) kp ∅ slivers -> (d < ks)%nat ->
     index_of x < n_primary_of n -> Ws d !!! Z.to_nat (index_of x) = symbol_of b x d) ->
  x ∈ select (fits n b Primary) kp ∅ slivers -> index_of x = Z.of_nat u ->
  committed_row (read_queries Primary slivers blob) u ((fun d => Ws d !!! u) <$> seq 0 ks).
Proof.
  intros Hs%verified_facts Hu HWs Hx Hi.
  destruct (select_spec (fits n b Primary) kp ∅ slivers) as (_ & Hall & _).
  rewrite Forall_forall in Hs, Hall. destruct (Hall x Hx) as (_ & _ & Hin).
  destruct (Hs x Hin) as (Hidx & Hf & Hw & Hc). unfold kp in Hu.
  destruct (symbols_of n b Hp Primary x Hw Hf) as [Hsx Hsz].
  destruct (Hp Secondary) as [Hk _ Hb _ _]. change (n_source_symbols Secondary c) with k in Hk.
  assert (sliver_row x = symbol_of b x <$> seq 0 ks) as Hrow.
  { unfold sliver_row. rewrite Hsx. apply (to_symbols_of b ltac:(lia)). by apply bytes_sized_seq. }
  assert ((fun d => Ws d !!! u) <$> seq 0 ks = sliver_row x) as ->.
  { rewrite Hrow. apply fmap_seq_ext. intros d Hd. rewrite <- (HWs x d) by (done || lia).
    by rewrite Hi, Nat2Z.id. }
  replace u with (Z.to_nat (index_of x)) by lia.
  apply check_hash_row; [done| | |by apply sliver_row_queries|done].
  - by rewrite Hrow.
  - rewrite Hrow. apply source_fmap_seq; [lia|lia|]. intros d Hd. by apply Hsz.
Qed.

(** Rows chosen from the decoded ones and the ones of the blob. *)
Lemma mixed_rows_justified q blob (Wrow : nat -> list shard) (kept : nat -> bool) :
  length blob = l -> blob = take l (concat ((fun u => concat (Wrow u)) <$> seq 0 kp)) ->
  (forall u, (u < kp)%nat -> source k b (Wrow u)) ->
  (forall u, (u < kp)%nat -> committed_row q u (if kept u then Wrow u else blob_row blob u)) ->
  justified q blob.
Proof.
  intros Hbl Hblob HW Hrows. exists (fun u => if kept u then Wrow u else blob_row blob u).
  split; [done|]. rewrite Hblob at 1. symmetry.
  assert (forall row, source k b row -> length (concat row) = (ks * Z.to_nat b)%nat) as Hrl.
  { intros row [Hr Hs]. rewrite (length_concat_const _ _ Hs). unfold ks. f_equal. unfold k in Hr. lia. }
  apply take_concat_mix with (L2 := (fun u => concat (blob_row blob u)) <$> seq 0 kp)
    (r := (ks * Z.to_nat b)%nat).
  - apply Forall_fmap, Forall_forall. intros u Hu%elem_of_seq. apply Hrl, HW. lia.
  - apply Forall_fmap, Forall_forall. intros u Hu%elem_of_seq. apply Hrl, blob_row_source.
  - clear. induction (seq 0 kp) as [|u us IH]; [constructor|]. rewrite !fmap_cons. cbn [zip zip_with].
    constructor; [cbn; destruct (kept u); [by left|by right]|exact IH].
  - by rewrite !length_fmap.
  - rewrite <- Hblob. symmetry. by apply blob_rows_bytes.
Qed.

Lemma default_primary_justified slivers mdw blob : metadata mdw = md -> verified Primary slivers ->
  (length slivers <= kp)%nat ->
  decode_and_verify Primary c mdw slivers DefaultCheck = Ok blob ->
  justified (read_queries Primary slivers blob) blob.
Proof.
  intros Hmd Hs Hfew Hread. unfold decode_and_verify in Hread. rewrite Hmd in Hread.
  cbn [is_primary andb] in Hread. rewrite bool_decide_true in Hread by done.
  apply bind_Ok in Hread as ([d av] & Hdec & Hread).
  apply bind_Ok in Hdec as ([d' L] & Hdec & [= -> <-]).
  apply bind_Ok in Hread as ([] & Hcheck & [= ->]). apply bind_Ok in Hcheck as (e & He & Hcheck).
  destruct (decode_verified Primary _ slivers _ blob L Hs Hdec) as (Ws & HWs & Hblob & HL & Hkept).
  assert (length blob = l) as Hbl by (rewrite Hblob; by apply decoded_length).
  destruct (blob_encoder_new c blob) as [e'| |] eqn:Henc; [|done|done]. injection He as ->.
  pose proof (decoded_encoder blob e Hbl Henc) as Hof.
  apply (mixed_rows_justified _ blob (fun u => (fun d => Ws d !!! u) <$> seq 0 ks)
    (fun u => bool_decide (L !! u = Some true))); [done| | |].
  - rewrite Hblob at 1. unfold lay. cbn [is_primary]. by rewrite grid_rows.
  - intros u Hu. destruct (Hp Secondary) as [Hk _ Hb _ _]. change (n_source_symbols Secondary c) with k in Hk.
    apply source_fmap_seq; [lia|lia|]. intros d Hd. destruct (HWs d Hd) as [Hlw Hsw].
    apply (Forall_lookup_1 _ _ u _ Hsw). apply list_lookup_lookup_total_lt. unfold kp in Hu. cbn in Hlw. lia.
  - intros u Hu. case_bool_decide as Hmark; cycle 1.
    { destruct (default_check_rows _ blob e mdw (Some L) Hmd Hof
        (blob_row_queries Primary slivers blob) Hcheck u Hu) as [(? & [= <-] & Hm)|]; done. }
    rewrite HL in Hmark. pose proof Hs as Hs'%verified_facts. rewrite Forall_forall in Hs'.
    apply marked_taken in Hmark as [Hf|(x & Hx & Hxu)].
    + by apply lookup_replicate in Hf as [Hf _].
    + pose proof (elem_of_taken _ _ _ _ _ Hx) as Hin. destruct (Hs' x Hin) as (_ & Hfx & _).
      apply taken_select in Hx as (y & Hy & Hyx); [|done|done|set_solver].
      apply (kept_row slivers blob Ws u y); [done|done|exact Hkept|exact Hy|lia].
    + apply Forall_forall. intros x Hx%elem_of_taken. by apply Hs'.
Qed.

End reads.

Lemma collision_free_mono `{HashFunction} q q' : q' ⊆ q -> collision_free q -> collision_free q'.
Proof. intros Hq [Hinj Hz]. split; [intros x y Hx Hy; apply Hinj|intros x Hx; apply Hz]; by apply Hq. Qed.

Lemma committed_row_mono `{HashFunction} `{Spec : ReedSolomonSpec} n b md q q' u row :
  q ⊆ q' -> committed_row n b md q u row -> committed_row n b md q' u row.
Proof. intros Hq [Hs Hr Hh]. constructor; [done|set_solver|done]. Qed.

Lemma justified_mono `{HashFunction} `{Spec : ReedSolomonSpec} n b md q q' blob :
  q ⊆ q' -> justified n b md q blob -> justified n b md q' blob.
Proof.
  intros Hq (rows & Hrows & Hblob). exists rows. split; [|done]. intros u Hu.
  by eapply committed_row_mono, Hrows.
Qed.

(** ** Reads with the strict check *)

Section strict.
Context `{Build} `{HashFunction} `{Spec : ReedSolomonSpec} `{!ReedSolomonLinear Spec}.
Context (n b : Z) (Hn : is_nzu16 n).
Let c := enum_of n.
Context (Hp : forall a, axis_params a c b) (md : BlobMetadata) (Hwf : metadata_wf md).
Context (Hlen : len (hashes md) = n).
Context (Hsize : symbol_size_for_blob c (unencoded_length md) = Ok b).
Let kp := Z.to_nat (n_primary_of n).
Let ks := Z.to_nat (n_secondary_of n).

(** The metadata that encoding the blob yields. *)
Definition blob_matrix (blob : list byte) : nat -> nat -> shard :=
  expanded (n_primary_of n) (n_secondary_of n) n (message (Z.to_nat b) ks blob).
Definition blob_metadata (blob : list byte) : BlobMetadata :=
  metadata (metadata_of n (blob_matrix blob) (len blob)).

Lemma blob_metadata_wf blob : len blob < 2 ^ 64 -> metadata_wf (blob_metadata blob).
Proof.
  intros Hl. constructor; [cbn; lia|]. cbn. apply Forall_fmap, Forall_true. intros i. cbn.
  split; apply subtree_wf, leaf_hashes_wf.
Qed.

Lemma blob_row_hash blob e u : encoder_of n blob e b -> (u < kp)%nat ->
  hash_of n (blob_matrix blob) Primary (Z.of_nat u) =
    merkle_root (leaf_hash <$> codeword (n_secondary_of n) n (blob_row n b blob u)).
Proof.
  intros He Hu. unfold hash_of. do 2 f_equal. pose proof (n_source_bounds n Hn).
  assert (code_matrix c b (blob_matrix blob)) as HX by exact (X_matrix n blob e b He).
  rewrite <- (sliver_codeword n b _ HX Primary (Z.of_nat u)) by (unfold kp in Hu; lia).
  f_equal. rewrite Nat2Z.id. apply fmap_seq_ext. intros v Hv. cbn [line].
  apply (expanded_systematic (n_primary_of n) (n_secondary_of n)); [exact Hu|exact (proj2 Hv)].
Qed.

Lemma same_id_rows q blob e : encoder_of n blob e b -> id_of (blob_metadata blob) = id_of md ->
  collision_free (metadata_queries (blob_metadata blob) ++ metadata_queries md) ->
  (forall u, (u < kp)%nat -> row_queries n (blob_row n b blob u) ⊆ q) ->
  forall u, (u < kp)%nat -> committed_row n b md q u (blob_row n b blob u).
Proof.
  intros He Hid Hcf Hq u Hu. pose proof (n_source_bounds n Hn) as Hk.
  pose proof (encoded_length n Hn blob e b He) as Hl.
  assert (length (hashes (blob_metadata blob)) = Z.to_nat n) as Hlen'.
  { cbn. unfold hashes_of. by rewrite length_fmap, length_seq. }
  apply id_of_binding in Hid as (_ & _ & Hpairs);
    [|apply blob_metadata_wf; lia|done|rewrite Hlen'; lia|done].
  constructor; [by apply (blob_row_source n b Hp)|by apply Hq|].
  apply (f_equal (fun L => L !! u)) in Hpairs. rewrite !list_lookup_fmap in Hpairs.
  cbn [blob_metadata metadata metadata_of hashes] in Hpairs. unfold hashes_of in Hpairs.
  rewrite list_lookup_fmap, lookup_seq_lt in Hpairs by (unfold kp in Hu; lia).
  destruct (hashes md !! u) as [h|]; [|done]. exists h. split; [done|].
  cbn in Hpairs. injection Hpairs as Hpb _. rewrite <- Hpb. f_equal. symmetry.
  by apply (blob_row_hash blob e).
Qed.

Lemma strict_justified a slivers mdw blob : metadata mdw = md -> blob_id mdw = id_of md ->
  verified n md a slivers ->
  collision_free (metadata_queries (blob_metadata blob) ++ metadata_queries md) ->
  decode_and_verify a c mdw slivers StrictCheck = Ok blob ->
  justified n b md (read_queries n b a slivers blob) blob.
Proof.
  intros Hmd Hid Hs Hcf Hread. destruct Hwf as [Hl _].
  unfold decode_and_verify, decode_blob in Hread. rewrite Hmd in Hread.
  rewrite bool_decide_false, andb_false_r in Hread by done.
  apply bind_Ok in Hread as ([d av] & Hdec & Hread).
  apply bind_Ok in Hdec as (d' & Hdec & [= -> <-]). apply bind_Ok in Hdec as ([d' []] & Hdec & [= ->]).
  apply bind_Ok in Hread as ([] & Hcheck & [= ->]).
  destruct (decode_verified n b Hn Hp md Hlen Hl Hsize a _ slivers tt blob tt Hs Hdec)
    as (Ws & HWs & Hblob & _ & _).
  assert (length blob = Z.to_nat (unencoded_length md)) as Hbl
    by (rewrite Hblob; by apply (decoded_length n b Hn md Hl Hsize a)).
  unfold strict_consistency_check, config_compute_metadata in Hcheck.
  destruct (blob_encoder_new c blob) as [e| |] eqn:Henc; [|done|done].
  pose proof (decoded_encoder n b Hn Hp md Hl Hsize blob e Hbl Henc) as He.
  cbn [mbind outcome_bind] in Hcheck. rewrite (compute_metadata_ok n Hn blob e b He) in Hcheck.
  cbn [map_err mbind outcome_bind] in Hcheck. case_bool_decide as Heq; [|done].
  apply (checked_rows_justified n b Hn md Hl Hsize); [done|].
  apply (same_id_rows _ blob e He); [|done|by apply blob_row_queries].
  rewrite Hid in Heq. exact Heq.
Qed.

End strict.
