(* ===== verification/XorCode.v ===== *)
(** * A small code

    An instance of the classes [ReedSolomonSimd], [ReedSolomonSpec] and
    [ReedSolomonLinear] for a committee of four shards: three original shards
    and their sum, and two original shards with two combinations over the field
    of four elements, on pairs of bytes.  It shows that the documented behaviour
    of [reed_solomon_simd] that the development relies on is consistent, and
    lets encoders and decoders be evaluated. *)

From S2P Require Import Prelude Core EncodingConfig Symbols ReedSolomon ProductCode.

(** Multiplication by a generator of the field. *)
Fixpoint alpha (x : shard) : shard :=
  match x with
  | u :: v :: x => v :: byte_xor u v :: alpha x
  | x => x
  end.

Lemma byte_xor_cancel u v : byte_xor u (byte_xor u v) = v.
Proof. rewrite (assoc byte_xor), byte_xor_self, (comm byte_xor). apply byte_xor_zero_r. Qed.

Lemma shard_xor_cancel x y : length x = length y -> shard_xor x (shard_xor x y) = y.
Proof.
  intros Hl. rewrite (assoc shard_xor), shard_xor_self, Hl, (comm shard_xor). apply shard_xor_zero_r.
Qed.

Lemma list_ind_pairs {A} (P : list A -> Prop) :
  P [] -> (forall x, P [x]) -> (forall x y l, P l -> P (x :: y :: l)) -> forall l, P l.
Proof.
  intros H0 H1 H2. fix IH 1. intros [|x [|y l]]; [exact H0|apply H1|apply H2, IH].
Qed.

Lemma length_alpha x : length (alpha x) = length x.
Proof. induction x as [|u|u v x IH] using list_ind_pairs; cbn; congruence. Qed.

Lemma alpha_xor x y : length x = length y -> alpha (shard_xor x y) = shard_xor (alpha x) (alpha y).
Proof.
  revert y. induction x as [|u|u v x IH] using list_ind_pairs; intros [|u' [|v' y]] Hl;
    cbn in Hl; try lia; [done|done|].
  cbn. change (zip_with byte_xor x y) with (shard_xor x y). rewrite IH by lia. f_equal. f_equal.
  rewrite <- !(assoc byte_xor). f_equal. rewrite !(assoc byte_xor). f_equal. apply (comm byte_xor).
Qed.

(** The sum of an element and its multiple is the second multiple. *)
Lemma alpha_alpha x : Nat.even (length x) = true -> alpha (alpha x) = shard_xor x (alpha x).
Proof.
  induction x as [|u|u v x IH] using list_ind_pairs; intros He; [done|done|].
  cbn in *. by rewrite IH.
Qed.

Lemma alpha_cube x : Nat.even (length x) = true -> alpha (alpha (alpha x)) = x.
Proof.
  intros He. rewrite (alpha_alpha x He), alpha_xor by by rewrite length_alpha.
  rewrite (alpha_alpha x He), (comm shard_xor). rewrite <- (assoc shard_xor), shard_xor_self.
  rewrite length_alpha. apply shard_xor_zero_r.
Qed.

(** ** The code *)

Definition xor_supports (k r b : nat) : bool :=
  ((k =? 2)%nat && (r =? 2)%nat || (k =? 3)%nat && (r =? 1)%nat) && Nat.even b && (0 <? b)%nat.

Definition xor_code (D : list shard) : list shard :=
  match D with
  | [x; y] => [shard_xor x y; shard_xor x (alpha y)]
  | [x; y; z] => [shard_xor x (shard_xor y z)]
  | _ => []
  end.

(** Parameters and the shards received so far. *)
Record xor_encoder := mk_xor_encoder {
  xe_k : nat; xe_r : nat; xe_b : nat; xe_shards : list shard }.
Record xor_decoder := mk_xor_decoder {
  xd_k : nat; xd_r : nat; xd_b : nat; xd_original : gmap nat shard; xd_recovery : gmap nat shard }.

Definition xor_encoder_new (k r b : nat) : outcome unit xor_encoder :=
  if xor_supports k r b then Ok (mk_xor_encoder k r b []) else Err tt.

Definition xor_encoder_add (x : shard) (e : xor_encoder) : outcome unit xor_encoder :=
  if (length (xe_shards e) <? xe_k e)%nat && (length x =? xe_b e)%nat
  then Ok (mk_xor_encoder (xe_k e) (xe_r e) (xe_b e) (xe_shards e ++ [x])) else Err tt.

Definition xor_encoder_encode (e : xor_encoder) : outcome unit (list shard * xor_encoder) :=
  if (length (xe_shards e) =? xe_k e)%nat then Ok (xor_code (xe_shards e), e) else Err tt.

Definition xor_decoder_new (k r b : nat) : outcome unit xor_decoder :=
  if xor_supports k r b then Ok (mk_xor_decoder k r b ∅ ∅) else Err tt.

Definition xor_receive (m b i : nat) (x : shard) (M : gmap nat shard) : gmap nat shard :=
  if (length x =? b)%nat then receive m i x M else M.

Definition xor_add_original (i : nat) (x : shard) (d : xor_decoder) : xor_decoder :=
  mk_xor_decoder (xd_k d) (xd_r d) (xd_b d) (xor_receive (xd_k d) (xd_b d) i x (xd_original d))
    (xd_recovery d).

Definition xor_add_recovery (i : nat) (x : shard) (d : xor_decoder) : xor_decoder :=
  mk_xor_decoder (xd_k d) (xd_r d) (xd_b d) (xd_original d)
    (xor_receive (xd_r d) (xd_b d) i x (xd_recovery d)).

(** The missing original shard [i]. *)
Definition restore_two (O P : gmap nat shard) (i : nat) : shard :=
  match O !! (1 - i)%nat, P !! 0%nat, P !! 1%nat with
  | Some o, Some p, _ => shard_xor o p
  | Some o, None, Some p => if (i =? 0)%nat then shard_xor p (alpha o) else alpha (alpha (shard_xor o p))
  | None, Some p0, Some p1 =>
    let o := alpha (shard_xor p0 p1) in if (i =? 1)%nat then o else shard_xor p0 o
  | _, _, _ => []
  end.

Definition restore_three (O P : gmap nat shard) (i : nat) : shard :=
  foldr (fun j p => default [] (shard_xor p <$> O !! j)) (P !!! 0%nat)
    (List.filter (fun j => negb (j =? i)%nat) (seq 0 3)).

Definition xor_decode (d : xor_decoder) : (unit + list (nat * shard)) * xor_decoder :=
  if (size (xd_original d) + size (xd_recovery d) <? xd_k d)%nat then (inl tt, d)
  else
    let restore := if (xd_k d =? 2)%nat then restore_two else restore_three in
    (inr ((fun i => (i, restore (xd_original d) (xd_recovery d) i)) <$> missing (xd_k d) (xd_original d)), d).

#[export] Instance xor_simd : ReedSolomonSimd := {|
  rs_error := unit;
  rs_error_to_string _ := "unsupported"%string;
  simd_encoder_new := xor_encoder_new;
  simd_encoder_reset k r b _ := xor_encoder_new k r b;
  simd_encoder_add_original_shard := xor_encoder_add;
  simd_encoder_encode := xor_encoder_encode;
  simd_decoder_new := xor_decoder_new;
  simd_decoder_reset k r b _ := xor_decoder_new k r b;
  simd_decoder_add_original_shard := xor_add_original;
  simd_decoder_add_recovery_shard := xor_add_recovery;
  simd_decoder_decode := xor_decode;
|}.

(** ** Decoding *)

Lemma xor_supports_cases k r b : xor_supports k r b = true ->
  (k = 2 /\ r = 2 \/ k = 3 /\ r = 1)%nat /\ Nat.even b = true.
Proof.
  unfold xor_supports. intros [[Hk He]%andb_prop _]%andb_prop. split; [|done].
  apply orb_prop in Hk as [[?%Nat.eqb_eq ?%Nat.eqb_eq]%andb_prop|[?%Nat.eqb_eq ?%Nat.eqb_eq]%andb_prop]; lia.
Qed.

(** Shards received for the positions below [m]. *)
Definition received_below (m b : nat) (M : gmap nat shard) : Prop :=
  forall i x, M !! i = Some x -> (i < m)%nat /\ length x = b.

Lemma received_size m b M : received_below m b M -> (size M + length (missing m M) = m)%nat.
Proof.
  intros HM. rewrite <- size_dom, <- (size_list_to_set (C:=gset nat) (missing m M)).
  2: { apply NoDup_filter, NoDup_seq. }
  rewrite <- size_union.
  - replace (dom M ∪ list_to_set (missing m M)) with (list_to_set (seq 0 m) : gset nat).
    + rewrite size_list_to_set by apply NoDup_seq. apply length_seq.
    + apply set_eq. intros i. rewrite elem_of_union, !elem_of_list_to_set, elem_of_missing, elem_of_seq, elem_of_dom.
      split; [intros Hi|intros [[x Hx]|[_ Hi]]; [apply HM in Hx; lia|lia]].
      destruct (M !! i) eqn:Hx; [left; eauto|right; split; [done|lia]].
  - intros i Hi Hm. apply elem_of_dom in Hi as [x Hx]. apply elem_of_list_to_set, elem_of_missing in Hm.
    destruct Hm. congruence.
Qed.

Lemma received_receive m b M i x : received_below m b M -> length x = b ->
  received_below m b (receive m i x M).
Proof.
  intros HM Hx j y. unfold receive. case_bool_decide as Hi; [|apply HM].
  destruct (decide (i = j)) as [->|Hne]; [rewrite lookup_insert_eq; intros [= <-]; tauto|].
  rewrite lookup_insert_ne by done. apply HM.
Qed.

Lemma xor_lengths b x y : length x = b -> length y = b -> length (shard_xor x y) = b.
Proof. intros <- Hy. by apply length_shard_xor. Qed.

Lemma shard_xor_cancel_r x y : length x = length y -> shard_xor y (shard_xor x y) = x.
Proof. intros Hl. rewrite (comm shard_xor x y). by apply shard_xor_cancel. Qed.

Lemma xor_sum_cancel x y z : length x = length y -> length z = length y ->
  shard_xor (shard_xor (shard_xor x (shard_xor y z)) z) y = x.
Proof.
  intros Hx Hz. rewrite <- !(assoc shard_xor), shard_xor_cancel, shard_xor_self, <- Hx by done.
  apply shard_xor_zero_r.
Qed.

(** Which shards are there when two of four were received and [i] is missing. *)
Lemma two_received b O P i : received_below 2 b O -> received_below 2 b P ->
  (2 <= size O + size P)%nat -> i ∈ missing 2 O ->
  (i < 2)%nat /\ O !! i = None /\
  ((exists o p, O !! (1 - i)%nat = Some o /\ P !! 0%nat = Some p) \/
   (exists o p, O !! (1 - i)%nat = Some o /\ P !! 0%nat = None /\ P !! 1%nat = Some p) \/
   (exists p q, O !! (1 - i)%nat = None /\ P !! 0%nat = Some p /\ P !! 1%nat = Some q)).
Proof.
  intros HO HP Hsize [HOi Hi]%elem_of_missing. split; [done|]. split; [done|].
  pose proof (received_size 2 b O HO) as HsO. pose proof (received_size 2 b P HP) as HsP.
  assert (missing 2 P = (if decide (P !! 0%nat = None) then [0%nat] else []) ++
    (if decide (P !! 1%nat = None) then [1%nat] else [])) as HmP.
  { unfold missing. cbn [seq]. rewrite !filter_cons, filter_nil. by repeat case_decide. }
  assert (length (missing 2 O) = if decide (O !! (1 - i)%nat = None) then 2 else 1)%nat as HmO.
  { unfold missing. cbn [seq]. rewrite !filter_cons, filter_nil.
    destruct i as [|[|i]]; [| |lia]; cbn [Nat.sub] in *; repeat case_decide; (done || congruence). }
  rewrite HmP in HsP. rewrite HmO in HsO.
  destruct (O !! (1 - i)%nat) as [o|] eqn:Ho, (P !! 0%nat) as [p|] eqn:Hp0, (P !! 1%nat) as [q|] eqn:Hp1;
    repeat case_decide; cbn in HsO, HsP; try (lia || congruence); eauto 8.
Qed.

Lemma restore_two_ok b O P i : received_below 2 b O -> received_below 2 b P ->
  Nat.even b = true -> (2 <= size O + size P)%nat -> i ∈ missing 2 O ->
  length (restore_two O P i) = b /\
  forall D, length D = 2%nat -> Forall (fun x => length x = b) D -> agrees O D ->
    agrees P (xor_code D) -> D !! i = Some (restore_two O P i).
Proof.
  intros HO HP He Hsize Hi. destruct (two_received b O P i HO HP Hsize Hi) as (Hlt & _ & Hcases).
  split.
  - unfold restore_two. destruct Hcases as [(o & p & Ho & Hp)|[(o & p & Ho & Hp & Hp')|(p & q & Ho & Hp & Hp')]].
    + rewrite Ho, Hp. apply HO in Ho as [_ Ho]. apply HP in Hp as [_ Hp]. by apply xor_lengths.
    + rewrite Ho, Hp, Hp'. apply HO in Ho as [_ Ho]. apply HP in Hp' as [_ Hp'].
      destruct (i =? 0)%nat; rewrite ?length_alpha; apply xor_lengths; by rewrite ?length_alpha.
    + rewrite Ho, Hp, Hp'. apply HP in Hp as [_ Hp]. apply HP in Hp' as [_ Hp'].
      destruct (i =? 1)%nat; [rewrite length_alpha; by apply xor_lengths|].
      apply xor_lengths; [done|]. rewrite length_alpha. by apply xor_lengths.
  - intros [|x [|y []]] HD Hs HOD HPD; cbn in HD; try lia. rewrite !Forall_cons in Hs.
    destruct Hs as (Hx & Hy & _). cbn [xor_code] in HPD.
    assert (length x = length y) as Hxy by congruence. unfold restore_two.
    destruct Hcases as [(o & p & Ho & Hp)|[(o & p & Ho & Hp & Hp')|(p & q & Ho & Hp & Hp')]].
    + rewrite Ho, Hp. apply HOD in Ho. apply HPD in Hp. cbn in Hp. injection Hp as <-.
      destruct i as [|[|i]]; [| |lia]; cbn in Ho; injection Ho as <-; cbn; f_equal; symmetry.
      * by apply shard_xor_cancel_r.
      * by apply shard_xor_cancel.
    + rewrite Ho, Hp, Hp'. apply HOD in Ho. apply HPD in Hp'. cbn in Hp'. injection Hp' as <-.
      destruct i as [|[|i]]; [| |lia]; cbn in Ho; injection Ho as <-; cbn; f_equal; symmetry.
      * rewrite (comm shard_xor). apply shard_xor_cancel_r. by rewrite length_alpha.
      * rewrite shard_xor_cancel by by rewrite length_alpha. apply alpha_cube. by rewrite Hy.
    + rewrite Ho, Hp, Hp'. apply HPD in Hp. apply HPD in Hp'. cbn in Hp, Hp'. injection Hp as <-.
      injection Hp' as <-.
      assert (alpha (shard_xor (shard_xor x y) (shard_xor x (alpha y))) = y) as Hy'.
      { rewrite (comm shard_xor x y), <- (assoc shard_xor), shard_xor_cancel by by rewrite length_alpha.
        rewrite <- alpha_alpha by by rewrite Hy. apply alpha_cube. by rewrite Hy. }
      destruct i as [|[|i]]; [| |lia]; cbn; f_equal; symmetry; [|done].
      rewrite Hy'. rewrite (comm shard_xor). by apply shard_xor_cancel_r.
Qed.

Lemma three_received b O P i : received_below 3 b O -> received_below 1 b P ->
  (3 <= size O + size P)%nat -> i ∈ missing 3 O ->
  (i < 3)%nat /\ (exists p, P !! 0%nat = Some p) /\
  forall j, (j < 3)%nat -> j <> i -> exists o, O !! j = Some o.
Proof.
  intros HO HP Hsize Hi. pose proof (received_size 3 b O HO) as HsO.
  pose proof (received_size 1 b P HP) as HsP.
  assert (NoDup (missing 3 O)) as Hnd by apply NoDup_filter, NoDup_seq.
  assert (0 < length (missing 3 O))%nat as Hpos by (destruct (missing 3 O); [by apply not_elem_of_nil in Hi|cbn; lia]).
  split; [by apply elem_of_missing in Hi as [_ ?]|]. split.
  - destruct (P !! 0%nat) as [p|] eqn:Hp; [eauto|].
    assert (0%nat ∈ missing 1 P) as Hm by (apply elem_of_missing; split; [done|lia]).
    destruct (missing 1 P); [by apply not_elem_of_nil in Hm|cbn in HsP; lia].
  - intros j Hj Hne. destruct (O !! j) as [o|] eqn:Ho; [eauto|].
    assert (j ∈ missing 3 O) as Hm by by apply elem_of_missing.
    destruct (missing 3 O) as [|u [|v l]]; [by apply not_elem_of_nil in Hm| |cbn in HsO; lia].
    apply list_elem_of_singleton in Hi as ->. by apply list_elem_of_singleton in Hm as ->.
Qed.

Lemma restore_three_ok b O P i : received_below 3 b O -> received_below 1 b P ->
  (3 <= size O + size P)%nat -> i ∈ missing 3 O ->
  length (restore_three O P i) = b /\
  forall D, length D = 3%nat -> Forall (fun x => length x = b) D -> agrees O D ->
    agrees P (xor_code D) -> D !! i = Some (restore_three O P i).
Proof.
  intros HO HP Hsize Hi. destruct (three_received b O P i HO HP Hsize Hi) as (Hlt & (p & Hp) & Hoth).
  assert (exists j1 j2 o1 o2, O !! j1 = Some o1 /\ O !! j2 = Some o2 /\
    (i, j1, j2) ∈ [(0, 1, 2); (1, 0, 2); (2, 0, 1)]%nat /\
    restore_three O P i = shard_xor (shard_xor p o2) o1) as (j1 & j2 & o1 & o2 & Ho1 & Ho2 & Hin & ->).
  { unfold restore_three. rewrite (lookup_total_alt P), Hp.
    destruct i as [|[|[|i]]]; [..|lia].
    - destruct (Hoth 1%nat) as [u Hu], (Hoth 2%nat) as [v Hv]; [lia..|].
      exists 1%nat, 2%nat, u, v. cbn. rewrite Hv. cbn. rewrite Hu. split_and!; [done|done|repeat constructor|done].
    - destruct (Hoth 0%nat) as [u Hu], (Hoth 2%nat) as [v Hv]; [lia..|].
      exists 0%nat, 2%nat, u, v. cbn. rewrite Hv. cbn. rewrite Hu. split_and!; [done|done|repeat constructor|done].
    - destruct (Hoth 0%nat) as [u Hu], (Hoth 1%nat) as [v Hv]; [lia..|].
      exists 0%nat, 1%nat, u, v. cbn. rewrite Hv. cbn. rewrite Hu. split_and!; [done|done|repeat constructor|done]. }
  destruct (HO _ _ Ho1) as [_ Hl1], (HO _ _ Ho2) as [_ Hl2], (HP _ _ Hp) as [_ Hlp].
  split; [by repeat apply xor_lengths|].
  intros [|x [|y [|z []]]] HD Hs HOD HPD; cbn in HD; try lia.
  rewrite !Forall_cons in Hs. destruct Hs as (Hx & Hy & Hz & _). cbn [xor_code] in HPD.
  apply HOD in Ho1. apply HOD in Ho2. apply HPD in Hp. cbn in Hp. injection Hp as <-.
  rewrite !elem_of_cons in Hin. destruct Hin as [[= -> -> ->]|[[= -> -> ->]|[[= -> -> ->]|[]%not_elem_of_nil]]];
    cbn in Ho1, Ho2; injection Ho1 as <-; injection Ho2 as <-; cbn; f_equal; symmetry.
  - apply xor_sum_cancel; congruence.
  - replace (shard_xor x (shard_xor y z)) with (shard_xor y (shard_xor x z))
      by (rewrite !(assoc shard_xor); f_equal; apply (comm shard_xor)).
    apply xor_sum_cancel; congruence.
  - rewrite (assoc shard_xor x y z), (comm shard_xor _ z). apply xor_sum_cancel; congruence.
Qed.

(** ** The instances *)

Lemma xor_code_length k r b D : xor_supports k r b = true -> length D = k ->
  Forall (fun x => length x = b) D ->
  length (xor_code D) = r /\ Forall (fun x => length x = b) (xor_code D).
Proof.
  intros [Hk _]%xor_supports_cases HD Hs. destruct Hk as [[-> ->]|[-> ->]].
  - destruct D as [|x [|y []]]; cbn in HD; try lia. rewrite !Forall_cons in Hs. destruct Hs as (Hx & Hy & _).
    cbn [xor_code]. split; [done|]. repeat constructor; apply xor_lengths; rewrite ?length_alpha; done.
  - destruct D as [|x [|y [|z []]]]; cbn in HD; try lia. rewrite !Forall_cons in Hs.
    destruct Hs as (Hx & Hy & Hz & _). cbn [xor_code]. split; [done|].
    repeat constructor. by repeat apply xor_lengths.
Qed.

Lemma xor_decode_restores k r b O P : xor_supports k r b = true ->
  received_below k b O -> received_below r b P -> (k <= size O + size P)%nat ->
  exists l, xor_decode (mk_xor_decoder k r b O P) = (inr l, mk_xor_decoder k r b O P) /\
    l.*1 = missing k O /\ Forall (fun x => length x = b) l.*2 /\
    forall D, length D = k -> Forall (fun x => length x = b) D ->
      agrees O D -> agrees P (xor_code D) -> Forall (fun p => D !! p.1 = Some p.2) l.
Proof.
  intros [Hk He]%xor_supports_cases HO HP Hsize. unfold xor_decode.
  cbn [xd_original xd_recovery xd_k]. rewrite (proj2 (Nat.ltb_ge _ _) Hsize).
  set (restore := if (k =? 2)%nat then restore_two else restore_three).
  assert (forall i, i ∈ missing k O -> length (restore O P i) = b /\
    forall D, length D = k -> Forall (fun x => length x = b) D -> agrees O D ->
      agrees P (xor_code D) -> D !! i = Some (restore O P i)) as Hrestore.
  { intros i Hi. destruct Hk as [[-> ->]|[-> ->]]; [by apply restore_two_ok|by apply restore_three_ok]. }
  eexists. split; [done|]. split_and!.
  - rewrite <- list_fmap_compose. apply list_fmap_id.
  - rewrite <- list_fmap_compose. apply Forall_fmap, Forall_forall. intros i Hi. by apply Hrestore.
  - intros D HD Hs HOD HPD. apply Forall_fmap, Forall_forall. intros i Hi. by apply Hrestore.
Qed.

#[export] Instance xor_spec : ReedSolomonSpec xor_simd.
Proof.
  refine {| simd_supports := xor_supports;
            simd_code _ _ := xor_code;
            encoder_holds e k r b D := xor_supports k r b = true /\ e = mk_xor_encoder k r b D;
            decoder_holds d k r b O P := xor_supports k r b = true /\ d = mk_xor_decoder k r b O P /\
              received_below k b O /\ received_below r b P |}.
  - apply xor_code_length.
  - intros k r b. cbn. unfold xor_encoder_new. destruct (xor_supports k r b) eqn:?; by eexists.
  - intros e k r b Hs. cbn. unfold xor_encoder_new. rewrite Hs. by eexists.
  - intros e k r b D x [Hs ->] Hl Hx. cbn. unfold xor_encoder_add. cbn [xe_shards xe_k xe_b xe_r].
    rewrite (proj2 (Nat.ltb_lt _ _) Hl), (proj2 (Nat.eqb_eq _ _) Hx). by eexists.
  - intros e k r b D [Hs ->] Hl. cbn. unfold xor_encoder_encode. cbn [xe_shards xe_k].
    rewrite (proj2 (Nat.eqb_eq _ _) Hl). by eexists.
  - intros k r b. cbn. unfold xor_decoder_new. destruct (xor_supports k r b) eqn:?; by eexists.
  - intros d k r b Hs. cbn. unfold xor_decoder_new. rewrite Hs. by eexists.
  - intros d k r b O P i x (Hs & -> & HO & HP) Hx. split_and!; [done| |by apply received_receive|done].
    cbn. unfold xor_add_original, xor_receive. cbn. by rewrite (proj2 (Nat.eqb_eq _ _) Hx).
  - intros d k r b O P i x (Hs & -> & HO & HP) Hx. split_and!; [done| |done|by apply received_receive].
    cbn. unfold xor_add_recovery, xor_receive. cbn. by rewrite (proj2 (Nat.eqb_eq _ _) Hx).
  - intros d k r b O P (Hs & -> & HO & HP) Hfew. eexists _, _. split; [|done].
    cbn. unfold xor_decode. cbn [xd_original xd_recovery xd_k]. by rewrite (proj2 (Nat.ltb_lt _ _) Hfew).
  - intros d k r b O P (Hs & -> & HO & HP) Hen.
    destruct (xor_decode_restores k r b O P Hs HO HP Hen) as (l & Hd & Hl). by eexists l, _.
Defined.

#[export] Instance xor_linear : ReedSolomonLinear xor_spec.
Proof.
  refine {| coefficient := bool;
            simd_matrix k r j i := (k =? 2)%nat && (j =? 1)%nat && (i =? 1)%nat;
            scale (a : bool) x := if a then alpha x else x |}.
  - intros [] x; [apply length_alpha|done].
  - intros [] x y Hl; [by apply alpha_xor|done].
  - by intros [] [] x.
  - intros k r b D j [Hk _]%xor_supports_cases HD Hs Hj. unfold shard_sum.
    destruct Hk as [[-> ->]|[-> ->]].
    + destruct D as [|x [|y []]]; cbn in HD; try lia. rewrite !Forall_cons in Hs. destruct Hs as (Hx & Hy & _).
      destruct j as [|[|j]]; [| |lia]; cbn; f_equal; symmetry.
      * rewrite <- Hy. apply shard_xor_zero_r.
      * rewrite <- Hy, <- (length_alpha y). apply shard_xor_zero_r.
    + destruct D as [|x [|y [|z []]]]; cbn in HD; try lia. rewrite !Forall_cons in Hs.
      destruct Hs as (Hx & Hy & Hz & _). destruct j as [|j]; [|lia]. cbn. do 2 f_equal. symmetry.
      rewrite <- Hz. apply shard_xor_zero_r.
Defined.
