(* ===== verification/EncodingProps.v ===== *)
(** * Properties of encoding, decoding and recovery

    What clients and storage nodes rely on: a blob comes back from any enough
    slivers, encoded slivers pass verification, slivers are recovered from
    symbols of other nodes, correctly encoded blobs cannot be reported as
    inconsistent, and checked reads agree.  The behaviour of the crate
    [reed_solomon_simd] enters through the classes [ReedSolomonSpec] and
    [ReedSolomonLinear] and the condition [supported], that it accepts the
    parameters of the committee and the symbol size.  [EncodingExamples]
    instantiates them with [XorCode] and a committee of four shards. *)

From S2P Require Import Prelude Core EncodingConfig Symbols Loops ReedSolomon ProductCode.
From S2P Require Import Merkle Metadata RecoverySymbols Slivers SliverProps BlobEncoder.
From S2P Require Import SymbolVectors BlobEncoderProps LegacyEncoder BlobDecoder.
From S2P Require Import BlobDecoderProps BlobReads XorCode.

Lemma filter_Forall_id {A} (P : A -> Prop) `{forall x, Decision (P x)} l : Forall P l -> base.filter P l = l.
Proof. induction 1 as [|x l Hx _ IH]; [done|]. by rewrite filter_cons_True, IH. Qed.

Lemma mapM_outcome_exists {E A B} (f : A -> outcome E B) (Q : A -> B -> Prop) l :
  (forall x, x ∈ l -> exists y, f x = Ok y /\ Q x y) -> exists ys, mapM_outcome f l = Ok ys /\ Forall2 Q l ys.
Proof.
  induction l as [|x l IH]; intros Hf; [by exists []|].
  destruct (Hf x ltac:(set_solver)) as (y & Hy & HQ), IH as (ys & Hys & H2); [set_solver|].
  exists (y :: ys). cbn. rewrite Hy. cbn [mbind outcome_bind]. rewrite Hys. cbn. auto.
Qed.

(** The sliver of a pair on one axis. *)
Definition pair_sliver (a : Axis) (p : SliverPair) : SliverData :=
  if is_primary a then primary p else secondary p.
Definition axis_slivers (a : Axis) (pairs : list SliverPair) : list SliverData := pair_sliver a <$> pairs.

Section encoding.
Context `{Build} `{HashFunction} `{Spec : ReedSolomonSpec} `{!ReedSolomonLinear Spec}.

(** A blob that fits, and what encoding returns for it. *)
Record encoded (n b : Z) (blob : list byte) (pairs : list SliverPair) (md : BlobMetadataWithId) :
    Prop := {
  encoded_shards : is_nzu16 n;
  encoded_fits : len blob < 2 ^ 64;
  encoded_symbol_size : symbol_size_for_blob (enum_of n) (len blob) = Ok b;
  encoded_supported : supported n b;
  encoded_result : config_encode_with_metadata (enum_of n) blob = Ok (pairs, md);
}.

Section facts.
Context (n b : Z) (blob : list byte) (pairs : list SliverPair) (md : BlobMetadataWithId).
Context (He : encoded n b blob pairs md).
Let X := blob_matrix n b blob.

Lemma encoded_encoder : exists e, blob_encoder_new (enum_of n) blob = Ok e /\ encoder_of n blob e b /\
  pairs = pairs_of n b X /\ md = metadata_of n X (len blob).
Proof.
  destruct He as [Hn Hl Hs Hsup Hr].
  destruct (blob_encoder_new_ok n Hn blob b Hl Hs Hsup) as (e & Hnew & Hof). exists e.
  unfold config_encode_with_metadata in Hr. rewrite Hnew in Hr. cbn [mbind outcome_bind] in Hr.
  rewrite (encode_with_metadata_ok n Hn blob e b Hof) in Hr. injection Hr as <- <-. done.
Qed.

Lemma encoded_commits : committed n b (metadata md) X.
Proof. destruct encoded_encoder as (e & _ & Hof & _ & ->). by apply (encoded_committed n blob e b). Qed.

Lemma encoded_params : forall a, axis_params a (enum_of n) b.
Proof. destruct encoded_encoder as (e & _ & Hof & _). apply (encoder_of_params _ _ _ _ Hof). Qed.

Lemma encoded_id : blob_id md = id_of (metadata md).
Proof. by destruct encoded_encoder as (e & _ & _ & _ & ->). Qed.

Lemma encoded_unencoded : unencoded_length (metadata md) = len blob.
Proof. by destruct encoded_encoder as (e & _ & _ & _ & ->). Qed.

(** The pair at every index. *)
Lemma encoded_pair i : 0 <= i < n -> pairs !! Z.to_nat i = Some
  {| primary := sliver_of n b X Primary i; secondary := sliver_of n b X Secondary (n - 1 - i) |}.
Proof.
  intros Hi. destruct encoded_encoder as (e & _ & _ & -> & _). unfold pairs_of.
  rewrite list_lookup_fmap, lookup_seq_lt by lia. cbn. by rewrite Z2Nat.id by lia.
Qed.

Lemma encoded_slivers a x : x ∈ axis_slivers a pairs <-> exists i, 0 <= i < n /\ x = sliver_of n b X a i.
Proof.
  destruct encoded_encoder as (e & _ & _ & -> & _). unfold axis_slivers, pairs_of.
  rewrite <- list_fmap_compose, list_elem_of_fmap. split.
  - intros (i & -> & Hi%elem_of_seq). destruct a; cbn; [exists (Z.of_nat i)|exists (n - 1 - Z.of_nat i)];
      (split; [lia|done]).
  - intros (i & Hi & ->). destruct a.
    + exists (Z.to_nat i). cbn. rewrite Z2Nat.id by lia. split; [done|]. apply elem_of_seq. lia.
    + exists (Z.to_nat (n - 1 - i)). cbn. rewrite Z2Nat.id by lia.
      replace (n - 1 - (n - 1 - i)) with i by lia. split; [done|]. apply elem_of_seq. lia.
Qed.

Lemma length_encoded_pairs : len pairs = n.
Proof.
  destruct encoded_encoder as (e & _ & _ & -> & _). unfold pairs_of. rewrite length_fmap, length_seq.
  pose proof (encoded_shards _ _ _ _ _ He) as Hn. unfold is_nzu in Hn. lia.
Qed.

(** The index of the sliver on axis [a] in the pair [i]. *)
Definition axis_index (a : Axis) (i : Z) : Z := if is_primary a then i else n - 1 - i.

Lemma encoded_pair_sliver a (i : nat) p : pairs !! i = Some p ->
  0 <= axis_index a (Z.of_nat i) < n /\ pair_sliver a p = sliver_of n b X a (axis_index a (Z.of_nat i)).
Proof.
  intros Hp. pose proof (lookup_lt_Some _ _ _ Hp) as Hi. pose proof length_encoded_pairs.
  pose proof (encoded_pair (Z.of_nat i) ltac:(lia)) as Hpi. rewrite Nat2Z.id, Hp in Hpi. injection Hpi as ->.
  destruct a; cbn; (split; [lia|done]).
Qed.

Lemma axis_index_inj a i j : axis_index a i = axis_index a j -> i = j.
Proof. destruct a; cbn; lia. Qed.

(** *** Recovery *)

(** Symbols on the target sliver from distinct sources recover it. *)
Lemma recover_crossings a t symbols : 0 <= t < n ->
  Forall (fun s => exists j, 0 <= j < n /\ rsym_symbol s = crossing X a t j) symbols ->
  NoDup ((fun s => ds_index (rsym_symbol s)) <$> symbols) ->
  n_source_symbols (orthogonal a) (enum_of n) <= len symbols ->
  recover_sliver_or_generate_inconsistency_proof a symbols (mk_sliver_index t) (metadata md) (config_of n) =
    Ok (Sliver (sliver_of n b X a t)).
Proof.
  intros Ht Hs Hnd Hk. pose proof (encoded_shards _ _ _ _ _ He) as Hn. pose proof encoded_commits as HC.
  unfold recover_sliver_or_generate_inconsistency_proof.
  rewrite (md_symbol_size_eq n b _ X HC). cbn [map_err mbind outcome_bind].
  destruct (md_encoding_type (metadata md)). cbn [get_for_type config_of reed_solomon].
  change (ReedSolomon (rs_config_of n)) with (enum_of n). cbn [n_symbols_for_recovery n_slivers_for_reconstruction].
  set (k := Z.to_nat (n_source_symbols (orthogonal a) (enum_of n))).
  assert (Forall (fun s => t < n /\ exists j, 0 <= j < n /\ rsym_symbol s = crossing X a t j) (take k symbols)) as Hs'.
  { apply Forall_take. eapply Forall_impl; [exact Hs|]. tauto. }
  assert (length (take k symbols) = k) as Hlen by (rewrite length_take; lia).
  unfold recover_sliver_without_verification.
  rewrite (recover_sliver_ok n b encoded_params _ X HC a t Ht).
  - cbn [map_err mbind outcome_bind]. by rewrite (sliver_verify_ok n b Hn encoded_params _ X HC).
  - apply (crossings_genuine n b Hn _ X HC); [lia|done].
  - rewrite size_positions_distinct; [by rewrite length_fmap, Hlen|..].
    + apply Forall_fmap. eapply Forall_impl; [exact Hs'|]. intros s (_ & j & Hj & Heq). cbn. rewrite Heq.
      by apply (crossing_usable n b _ X HC).
    + rewrite <- list_fmap_compose. apply NoDup_fmap_2_strong.
      * intros s s' Hin Hin' Heq. cbn in Heq. rewrite Forall_forall in Hs'.
        destruct (Hs' s Hin) as (_ & j & Hj & Es), (Hs' s' Hin') as (_ & j' & Hj' & Es').
        rewrite Es, Es' in Heq. cbn in Heq. assert (j = j') as -> by lia.
        assert (ds_index (rsym_symbol s) = ds_index (rsym_symbol s')) as Hd by by rewrite Es, Es'.
        apply list_elem_of_lookup in Hin as [u Hu], Hin' as [v Hv].
        apply lookup_take_Some in Hu as [Hu _], Hv as [Hv _].
        assert (u = v) as <-; [|congruence].
        eapply (NoDup_lookup _ _ _ _ Hnd); [by rewrite list_lookup_fmap, Hu|].
        by rewrite list_lookup_fmap, Hv, Hd.
      * eapply sublist_NoDup; [|apply sublist_take]. by apply NoDup_fmap_1 in Hnd.
Qed.

(** *** Checks of a decoded blob *)

Lemma default_check_passes e av : encoder_of n blob e b ->
  match av with Some L => length L = Z.to_nat (n_primary_of n) | None => True end ->
  default_consistency_check e md av = Ok tt.
Proof.
  intros Hof Hav. unfold default_consistency_check. rewrite (encoder_of_self _ _ _ _ Hof).
  cbn [be_config]. change (n_systematic_slivers Primary (enum_of n)) with (n_primary_of n).
  pose proof (encoded_shards _ _ _ _ _ He) as Hn. pose proof (n_source_bounds n Hn) as Hk.
  assert (match av with Some l => assert (E:=DecodeError) (len l =? n_primary_of n) | None => Ok tt end = Ok tt) as ->.
  { destruct av; [|done]. by rewrite (proj2 (Z.eqb_eq _ _)) by lia. }
  cbn [mbind outcome_bind]. rewrite <- (encoder_of_self _ _ _ _ Hof). apply foldM_unit_all, Forall_forall.
  intros u Hu%elem_of_seq.
  assert (exists v, match av with Some l => index (E:=DecodeError) l u | None => Ok false end = Ok v) as [v ->].
  { destruct av as [L|]; [|by exists false]. unfold index.
    destruct (lookup_lt_is_Some_2 L u ltac:(lia)) as [v ->]. by exists v. }
  cbn [mbind outcome_bind]. destruct v; [done|].
  rewrite (systematic_primary_sliver_ok n Hn blob e b Hof u) by lia. cbn [mbind outcome_bind].
  replace {| sliver_symbols := vec _ _ _; sliver_idx := _ |} with (sliver_of n b X Primary (Z.of_nat u)).
  - rewrite (check_hash_eq n b Hn (metadata md) X encoded_commits Primary _
      (hash_of n X Primary (Z.of_nat u))).
    + by rewrite bool_decide_true.
    + cbn. lia.
    + apply (get_merkle_root_ok n b encoded_params X (committed_matrix _ _ _ _ encoded_commits)). lia.
  - unfold sliver_of, vec. do 2 f_equal. apply fmap_seq_ext. intros v Hv. cbn [line]. rewrite Nat2Z.id.
    apply (expanded_systematic (n_primary_of n) (n_secondary_of n)); [lia|exact (proj2 Hv)].
Qed.

Lemma strict_check_passes : strict_consistency_check (enum_of n) (blob_id md) blob = Ok tt.
Proof.
  destruct encoded_encoder as (e & Hnew & Hof & _ & Hmd). unfold strict_consistency_check, config_compute_metadata.
  rewrite Hnew. cbn [mbind outcome_bind]. pose proof (encoded_shards _ _ _ _ _ He) as Hn.
  rewrite (compute_metadata_ok n Hn blob e b Hof). cbn [map_err mbind outcome_bind].
  rewrite bool_decide_true; [done|]. by rewrite Hmd.
Qed.

Lemma length_marks cnt xs L : length (foldl (fun t x => mark_verified cnt x t) L xs) = length L.
Proof.
  revert L. induction xs as [|x xs IH]; intros L; [done|]. cbn [foldl]. rewrite IH. unfold mark_verified.
  destruct (_ <? _)%nat; [apply length_insert|done].
Qed.

Lemma read_back a slivers check : Forall (fun x => x ∈ axis_slivers a pairs \/ fits n b a x = false) slivers ->
  decode_and_verify a (enum_of n) md slivers check =
    if (Z.to_nat (n_source_symbols a (enum_of n)) <=? size (available (fits n b a) slivers))%nat
    then Ok blob else Err DecodingUnsuccessful.
Proof.
  intros Hs. destruct encoded_encoder as (e & Hnew & Hof & _ & Hmd).
  pose proof (encoded_shards _ _ _ _ _ He) as Hn.
  assert (Forall (sliver_or_dropped n b X a) slivers) as Hs'.
  { eapply Forall_impl; [exact Hs|]. intros x [Hx|Hx] Hf; [by apply encoded_slivers|congruence]. }
  unfold decode_and_verify, decode_blob. rewrite encoded_unencoded.
  set (enough := (Z.to_nat (n_source_symbols a (enum_of n)) <=? size (available (fits n b a) slivers))%nat).
  assert (forall T (inspect : SliverData -> T -> T) t, decode_inspected a (enum_of n) (len blob) inspect slivers t =
    if enough then Ok (blob, foldl (fun t x => inspect x t) t
        (taken (fits n b a) (Z.to_nat (n_source_symbols a (enum_of n))) ∅ slivers))
    else Err DecodingUnsuccessful) as Hdec.
  { intros T inspect t. by apply (decode_encoded n Hn blob e b Hof). }
  rewrite !Hdec. destruct enough; [|by destruct (is_primary a && _)].
  destruct (is_primary a && bool_decide (check = DefaultCheck)) eqn:Ha; cbn [mbind outcome_bind].
  - apply andb_prop in Ha as [Ha Hc%bool_decide_eq_true]. subst check. rewrite Hnew. cbn [map_err mbind outcome_bind].
    rewrite default_check_passes; [done|done|]. rewrite length_marks, length_replicate. by destruct a.
  - destruct check; [done| |].
    + rewrite Hnew. cbn [map_err mbind outcome_bind]. by rewrite default_check_passes.
    + by rewrite strict_check_passes.
Qed.

(** *** Pairs held by a part of the committee *)

Lemma sliver_fits a i : 0 <= i < n -> fits n b a (sliver_of n b X a i) = true.
Proof.
  intros Hi. unfold fits. cbn [sliver_of sliver_symbols of_symbols symbol_size]. rewrite Z.eqb_refl, andb_true_r.
  pose proof (sliver_source n b encoded_params X (committed_matrix _ _ _ _ encoded_commits) a i Hi) as [_ Hs].
  destruct (params_positive _ _ _ (encoded_params a)) as [_ Hb].
  fold (of_symbols b (line a X (Z.to_nat i) <$> seq 0 (sliver_symbols_count a (enum_of n)))).
  rewrite symbols_len_of by done. rewrite length_fmap, length_seq. apply Nat.eqb_refl.
Qed.

Lemma axis_indices a : index_of <$> axis_slivers a pairs = axis_index a ∘ Z.of_nat <$> seq 0 (Z.to_nat n).
Proof.
  destruct encoded_encoder as (e & _ & _ & -> & _). unfold axis_slivers, pairs_of.
  rewrite <- !list_fmap_compose. apply fmap_seq_ext. intros i _. by destruct a.
Qed.

Lemma held_indices a held : held ⊆+ pairs -> NoDup (index_of <$> axis_slivers a held).
Proof.
  intros [rest Hp]%submseteq_Permutation. assert (NoDup (index_of <$> axis_slivers a pairs)) as Hnd.
  { rewrite axis_indices. apply NoDup_fmap_2_strong; [|apply NoDup_seq].
    intros i j _ _ Hij%axis_index_inj. lia. }
  unfold axis_slivers in *. rewrite Hp, !fmap_app in Hnd. by apply NoDup_app in Hnd as [? _].
Qed.

Lemma held_sliver a held x : held ⊆+ pairs -> x ∈ axis_slivers a held ->
  exists i, 0 <= i < n /\ x = sliver_of n b X a i.
Proof.
  intros Hh Hx. apply encoded_slivers. eapply elem_of_submseteq; [exact Hx|]. by apply fmap_submseteq.
Qed.

Lemma held_available a held : held ⊆+ pairs ->
  size (available (fits n b a) (axis_slivers a held)) = length held.
Proof.
  intros Hh. unfold available.
  assert (base.filter (fun x => fits n b a x = true) (axis_slivers a held) = axis_slivers a held) as ->.
  { apply filter_Forall_id, Forall_forall. intros x Hx.
    destruct (held_sliver a held x Hh Hx) as (i & Hi & ->). by apply sliver_fits. }
  rewrite size_list_to_set by by apply held_indices. unfold axis_slivers. by rewrite !length_fmap.
Qed.

End facts.

(** A read whose result is checked: not skipped, and on primary slivers the
    default check is given no more slivers than it needs. *)
Definition checked (n : Z) (a : Axis) (check : ConsistencyCheckType) (slivers : list SliverData) : Prop :=
  check <> SkipCheck /\
  (a = Primary -> check = DefaultCheck -> (length slivers <= Z.to_nat (n_primary_of n))%nat).

Lemma checked_justified n b md a check slivers blob :
  is_nzu16 n -> supported n b -> symbol_size_for_blob (enum_of n) (unencoded_length (metadata md)) = Ok b ->
  metadata_wf (metadata md) -> verify_metadata md (config_of n) = Ok md ->
  verified n (metadata md) a slivers -> checked n a check slivers ->
  collision_free (metadata_queries (blob_metadata n b blob) ++ metadata_queries (metadata md)) ->
  decode_and_verify a (enum_of n) md slivers check = Ok blob ->
  justified n b (metadata md) (read_queries n b a slivers blob) blob /\
  len (hashes (metadata md)) = n /\ forall a, axis_params a (enum_of n) b.
Proof.
  intros Hn Hsup Hs Hwf Hv Hsl [Hns Hfew] Hcf Hread.
  unfold config_of in Hv. rewrite verify_metadata_eq in Hv by done.
  destruct (Z.eqb_spec (len (hashes (metadata md))) n) as [Hl|]; [|done].
  destruct (unencoded_length (metadata md) <=? _); [|done]. cbn [negb] in Hv.
  destruct (bool_decide_reflect (id_of (metadata md) = blob_id md)) as [Hid|]; [|done].
  pose proof Hwf as [Hu _]. destruct (symbol_size_for_blob_Ok n Hn _ _ Hu Hs) as (_ & Hb & He).
  pose proof (supported_params n Hn b Hsup Hb He) as Hp. split; [|done]. destruct check; [done| |].
  - destruct a; [eapply default_primary_justified|eapply default_secondary_justified]; eauto.
  - eapply strict_justified; eauto.
Qed.

(** ** Encoding *)

(** C2: the encoder is total on blobs that fit, and its three implementations
    agree: the optimised encoder, the straightforward one and the one that only
    computes metadata return the same sliver pairs and metadata, and none of
    them panics. *)
Theorem encoders_agree n b blob :
  is_nzu16 n -> len blob < 2 ^ 64 -> symbol_size_for_blob (enum_of n) (len blob) = Ok b ->
  supported n b ->
  exists e pairs md, blob_encoder_new (enum_of n) blob = Ok e /\
    encode_with_metadata (E:=False) e = Ok (pairs, md) /\
    encode_with_metadata_legacy (E:=False) e = Ok (pairs, md) /\
    compute_metadata (E:=False) e = Ok md /\
    config_encode_with_metadata (enum_of n) blob = Ok (pairs, md) /\
    compute_blob_id (enum_of n) blob = Ok (blob_id md).
Proof.
  intros Hn Hl Hs Hsup. destruct (blob_encoder_new_ok n Hn blob b Hl Hs Hsup) as (e & Hnew & Hof).
  exists e. do 2 eexists. unfold compute_blob_id, config_compute_metadata, config_encode_with_metadata.
  rewrite Hnew. cbn [mbind outcome_bind]. rewrite !(compute_metadata_ok n Hn blob e b Hof).
  rewrite (encode_with_metadata_legacy_ok n Hn blob e b Hof).
  rewrite !(encode_with_metadata_ok n Hn blob e b Hof). done.
Qed.

(** What the encoder returns passes every check of the receivers: the
    metadata verifies against its blob ID, there is one pair for each shard,
    and both slivers of each pair carry the indices of that pair and verify
    against the metadata. *)
Theorem encoded_slivers_verify n b blob pairs md : encoded n b blob pairs md ->
  verify_metadata md (config_of n) = Ok md /\ len pairs = n /\
  forall (i : nat) p a, pairs !! i = Some p ->
    to_pair_index_of_sliver (E:=False) a (sliver_idx (pair_sliver a p)) n = Ok (mk_pair_index (Z.of_nat i)) /\
    sliver_verify a (pair_sliver a p) (config_of n) (metadata md) = Ok tt.
Proof.
  intros He. pose proof (encoded_shards _ _ _ _ _ He) as Hn. pose proof (length_encoded_pairs _ _ _ _ _ He) as Hlen.
  split_and!; [|done|].
  - unfold config_of. rewrite verify_metadata_eq by done.
    rewrite (length_hashes n b Hn _ _ (encoded_commits _ _ _ _ _ He)), Z.eqb_refl. cbn [negb].
    rewrite (encoded_unencoded _ _ _ _ _ He), (encoded_id _ _ _ _ _ He), bool_decide_true by done.
    pose proof (encoded_fits _ _ _ _ _ He) as Hl.
    destruct (symbol_size_for_blob_Ok n Hn (len blob) _ ltac:(lia) (encoded_symbol_size _ _ _ _ _ He)) as (Hle & Hb & Hev).
    rewrite (proj2 (Z.leb_le _ _)); [done|]. etransitivity; [exact Hle|]. unfold symbols_per_blob.
    apply Z.mul_le_mono_nonneg_l; [pose proof (n_source_bounds n Hn); nia|].
    change (max_symbol_size RS2) with 65534. destruct (Z.eq_dec b 65535) as [->|]; [done|lia].
  - intros i p a Hp. destruct (encoded_pair_sliver _ _ _ _ _ He a i p Hp) as [Hi ->]. split.
    + cbn [sliver_of sliver_idx]. unfold is_nzu in Hn. rewrite to_pair_index_of_sliver_eq by (cbn; lia).
      do 2 f_equal. destruct a; cbn; lia.
    + by apply (sliver_verify_ok n b Hn (encoded_params _ _ _ _ _ He) _ _ (encoded_commits _ _ _ _ _ He)).
Qed.

(** ** Reading *)

(** C1: encoding and decoding round trip: slivers of one axis of the encoded
    blob, in any order, with any repetitions and mixed with slivers of a wrong
    size, decode to the blob under every consistency check exactly when enough
    different ones are present, and otherwise decoding reports
    [DecodingUnsuccessful]. *)
Theorem encode_decode_roundtrip n b blob pairs md a slivers check : encoded n b blob pairs md ->
  Forall (fun x => x ∈ axis_slivers a pairs \/ fits n b a x = false) slivers ->
  decode_and_verify a (enum_of n) md slivers check =
    if (Z.to_nat (n_source_symbols a (enum_of n)) <=? size (available (fits n b a) slivers))%nat
    then Ok blob else Err DecodingUnsuccessful.
Proof. intros He. by apply (read_back n b blob pairs). Qed.

(** C6: a blob stays readable while a third of the shards is lost: the slivers
    of any [n - f] pairs, on either axis, decode to the blob under every
    consistency check. *)
Theorem quorum_reads n b blob pairs md held a check : encoded n b blob pairs md ->
  held ⊆+ pairs -> n - max_n_faulty n <= len held ->
  decode_and_verify a (enum_of n) md (axis_slivers a held) check = Ok blob.
Proof.
  intros He Hh Hq. rewrite (read_back n b blob pairs md He).
  - rewrite (held_available _ _ _ _ _ He) by done. pose proof (encoded_shards _ _ _ _ _ He) as Hn.
    unfold is_nzu in Hn. pose proof (max_n_faulty_bounds n ltac:(lia)).
    rewrite (proj2 (Nat.leb_le _ _)); [done|].
    destruct a; cbn [n_source_symbols]; change (n_source_symbols _ _) with (n_primary_of n) ||
      change (n_source_symbols _ _) with (n_secondary_of n); unfold n_primary_of, n_secondary_of; lia.
  - apply Forall_forall. intros x Hx. left. eapply elem_of_submseteq; [exact Hx|]. by apply fmap_submseteq.
Qed.

(** C3: readers agree, however the blob was encoded: two reads of metadata that
    verifies, from slivers that verify, each on either axis and with the default
    or the strict check, return the same blob when both succeed, unless the hash
    function collides on the strings hashed.  The default check on primary
    slivers is assumed to get no more slivers than it needs. *)
Theorem reads_agree n b md a a' slivers slivers' check check' blob blob' :
  is_nzu16 n -> supported n b -> symbol_size_for_blob (enum_of n) (unencoded_length (metadata md)) = Ok b ->
  metadata_wf (metadata md) -> verify_metadata md (config_of n) = Ok md ->
  verified n (metadata md) a slivers -> checked n a check slivers ->
  verified n (metadata md) a' slivers' -> checked n a' check' slivers' ->
  collision_free (metadata_queries (blob_metadata n b blob) ++ metadata_queries (metadata md)) ->
  collision_free (metadata_queries (blob_metadata n b blob') ++ metadata_queries (metadata md)) ->
  collision_free (read_queries n b a slivers blob ++ read_queries n b a' slivers' blob') ->
  decode_and_verify a (enum_of n) md slivers check = Ok blob ->
  decode_and_verify a' (enum_of n) md slivers' check' = Ok blob' -> blob = blob'.
Proof.
  intros Hn Hsup Hs Hwf Hv Hsl Hc Hsl' Hc' Hq Hq' Hcf Hr Hr'.
  destruct (checked_justified n b md a check slivers blob) as (Hj & Hl & Hp); [done..|].
  destruct (checked_justified n b md a' check' slivers' blob') as (Hj' & _); [done..|].
  pose proof Hwf as [Hu _].
  eapply (justified_unique n b Hn Hp (metadata md) Hl Hu Hs _ _ _ Hcf);
    (eapply justified_mono; [|eassumption]); set_solver.
Qed.

(** ** Recovery *)

(** C4: recovery is sound against malicious nodes: symbols that pass
    verification for a sliver of an encoded blob and come from enough different
    source slivers recover exactly that sliver, never an inconsistency proof,
    unless the hash function collides on the strings hashed. *)
Theorem recovery_from_verified_symbols n b blob pairs md (i : nat) p a symbols :
  encoded n b blob pairs md -> pairs !! i = Some p ->
  let x := pair_sliver a p in
  Forall (received n (blob_matrix n b blob) a (index_of x)) symbols ->
  Forall (fun s => symbol_verify a s n (Z.to_nat b) (metadata md) (sliver_idx x) = Ok tt) symbols ->
  NoDup ((fun s => ds_index (rsym_symbol s)) <$> symbols) ->
  n_source_symbols (orthogonal a) (enum_of n) <= len symbols ->
  recover_sliver_or_generate_inconsistency_proof a symbols (sliver_idx x) (metadata md) (config_of n) =
    Ok (Sliver x).
Proof.
  intros He Hp x. subst x. destruct (encoded_pair_sliver _ _ _ _ _ He a i p Hp) as [Hi ->].
  cbn [sliver_of sliver_idx index_of sliver_index_get]. intros Hrec Hv Hnd Hk.
  apply (recover_crossings n b blob pairs md He); [done| |done|done].
  apply Forall_forall. intros s Hs. rewrite Forall_forall in Hrec, Hv. destruct (Hrec s Hs) as [Hj Hw Hc].
  specialize (Hv s Hs).
  apply (symbol_verify_sound n b (encoded_shards _ _ _ _ _ He) _ _ (encoded_commits _ _ _ _ _ He)) in Hv
    as (_ & Hlt & Heq); [by exists (ds_index (rsym_symbol s))|done|lia|done|done].
Qed.

(** C7: recovery is complete.  The symbols that the holders of enough pairs
    compute for a lost sliver are produced without error, verify for that
    sliver, and recover it. *)
Theorem recovery_from_pairs n b blob pairs md (i : nat) p a held :
  encoded n b blob pairs md -> pairs !! i = Some p ->
  held ⊆+ pairs -> n_source_symbols (orthogonal a) (enum_of n) <= len held ->
  let x := pair_sliver a p in
  exists symbols,
    mapM_outcome (fun y => recovery_symbol_for_sliver (orthogonal a) y (mk_pair_index (Z.of_nat i)) (enum_of n))
      (axis_slivers (orthogonal a) held) = Ok symbols /\
    Forall (fun s => symbol_verify a s n (Z.to_nat b) (metadata md) (sliver_idx x) = Ok tt) symbols /\
    recover_sliver_or_generate_inconsistency_proof a symbols (sliver_idx x) (metadata md) (config_of n) =
      Ok (Sliver x).
Proof.
  intros He Hp Hh Hk x. subst x. destruct (encoded_pair_sliver _ _ _ _ _ He a i p Hp) as [Hi ->].
  pose proof (lookup_lt_Some _ _ _ Hp) as Hlt. pose proof (length_encoded_pairs _ _ _ _ _ He) as Hlen.
  assert (exists symbols, mapM_outcome (fun y => recovery_symbol_for_sliver (orthogonal a) y
      (mk_pair_index (Z.of_nat i)) (enum_of n)) (axis_slivers (orthogonal a) held) = Ok symbols /\
    Forall2 (fun y s => rsym_symbol s = crossing (blob_matrix n b blob) a (axis_index n a (Z.of_nat i)) (index_of y) /\
      symbol_verify a s n (Z.to_nat b) (metadata md) (mk_sliver_index (axis_index n a (Z.of_nat i))) = Ok tt)
      (axis_slivers (orthogonal a) held) symbols) as (symbols & Hm & H2).
  { apply mapM_outcome_exists. intros y Hy.
    destruct (held_sliver _ _ _ _ _ He _ _ _ Hh Hy) as (j & Hj & ->).
    pose proof (recovery_symbol_ok n b (encoded_shards _ _ _ _ _ He) (encoded_params _ _ _ _ _ He) _ _
      (encoded_commits _ _ _ _ _ He) (orthogonal a) j (Z.of_nat i) Hj ltac:(lia)) as Hr.
    rewrite orthogonal_involutive in Hr. exact Hr. }
  exists symbols. split; [done|]. split.
  - apply Forall_forall. intros s (u & Hu)%list_elem_of_lookup.
    destruct (Forall2_lookup_r _ _ _ _ _ H2 Hu) as (y & _ & _ & Hv). exact Hv.
  - apply (recover_crossings n b blob pairs md He); [done|..].
    + apply Forall_forall. intros s (u & Hu)%list_elem_of_lookup.
      destruct (Forall2_lookup_r _ _ _ _ _ H2 Hu) as (y & Hy%list_elem_of_lookup_2 & Hs & _).
      destruct (held_sliver _ _ _ _ _ He _ _ _ Hh Hy) as (j & Hj & ->). by exists j.
    + replace ((fun s => ds_index (rsym_symbol s)) <$> symbols)
        with (index_of <$> axis_slivers (orthogonal a) held); [by apply (held_indices _ _ _ _ _ He)|].
      clear Hm Hk. induction H2 as [|y s ys ss [Hs _] _ IH]; [done|]. cbn [fmap list_fmap]. by rewrite Hs, <- IH.
    + rewrite <- (Forall2_length _ _ _ H2). unfold axis_slivers. by rewrite length_fmap.
Qed.

(** C5: a correctly encoded blob cannot be reported as inconsistent: every
    inconsistency proof for it is rejected with an error, whatever symbols and
    Merkle proofs it contains, unless the hash function collides on the strings
    hashed. *)
Theorem no_inconsistency_proof n b blob pairs md a p : encoded n b blob pairs md ->
  let t := sliver_index_get (target_sliver_index p) in
  0 <= t -> Forall (received n (blob_matrix n b blob) a t) (recovery_symbols p) ->
  exists e, inconsistency_proof_verify a p (metadata md) (config_of n) = Err e.
Proof.
  intros He t Ht Hrec. by apply (inconsistency_rejected n b (encoded_shards _ _ _ _ _ He)
    (encoded_params _ _ _ _ _ He) _ _ (encoded_commits _ _ _ _ _ He)).
Qed.

(** ** One-dimensional coding *)

(** A decoder that is given batches of symbols until it succeeds. *)
Fixpoint decode_batches {E} (d : ReedSolomonDecoder) (batches : list (list DecodingSymbol)) :
    outcome E (option (list byte)) :=
  match batches with
  | [] => Ok None
  | symbols :: batches =>
    '(r, d) ← decode d symbols;
    match r with inr data => Ok (Some data) | inl _ => decode_batches d batches end
  end.

Lemma positions_app n b ys zs : positions n b (ys ++ zs) = positions n b ys ∪ positions n b zs.
Proof. unfold positions. rewrite filter_app, fmap_app. by rewrite list_to_set_app_L. Qed.

Lemma size_map_of_nat (U : gset nat) : size (set_map (D:=gset Z) Z.of_nat U) = size U.
Proof.
  induction U as [|i U Hi IH] using set_ind_L; [by rewrite set_map_empty|].
  rewrite set_map_union_L, set_map_singleton_L, !size_union, !size_singleton, IH; [done|set_solver|set_solver].
Qed.

Lemma size_positions_indices n b ys : Forall (fun y => 0 <= ds_index y /\ usable n b y = true) ys ->
  size (positions n b ys) = size (list_to_set (ds_index <$> ys) : gset Z).
Proof.
  intros Hys. replace (list_to_set (ds_index <$> ys) : gset Z)
    with (set_map (D:=gset Z) Z.of_nat (positions n b ys)).
  { symmetry. apply size_map_of_nat. }
  apply set_eq. intros z. unfold positions. rewrite elem_of_map, elem_of_list_to_set, list_elem_of_fmap.
  rewrite Forall_forall in Hys. split.
  - intros (i & -> & Hi). apply elem_of_list_to_set, list_elem_of_fmap in Hi as (y & -> & Hy).
    apply list_elem_of_filter in Hy as [_ Hy]. exists y. destruct (Hys y Hy). split; [lia|done].
  - intros (y & -> & Hy). destruct (Hys y Hy). exists (Z.to_nat (ds_index y)). split; [lia|].
    apply elem_of_list_to_set, list_elem_of_fmap. exists y. split; [done|]. by apply list_elem_of_filter.
Qed.

Lemma decode_batches_ok {E} k n b D batches U d : params k n b -> source k b D -> holding k n b D U d ->
  Forall (Forall (genuine k n b D)) batches -> (size U < Z.to_nat k)%nat ->
  decode_batches (E:=E) d batches =
    Ok (if (Z.to_nat k <=? size (positions n b (concat batches) ∪ U))%nat then Some (concat D) else None).
Proof.
  intros Hp HD Hd Hb. revert U d Hd. induction Hb as [|ys batches Hys Hb IH]; intros U d Hd HU; cbn [decode_batches concat].
  - replace (positions n b [] ∪ U) with U by set_solver. by rewrite (proj2 (Nat.leb_gt _ _)).
  - rewrite positions_app. destruct (Nat.le_gt_cases (Z.to_nat k) (size (positions n b ys ∪ U))) as [Hle|Hlt].
    + destruct (decode_enough (E:=E) k n b Hp D HD U d ys Hd Hys Hle) as (d' & -> & _). cbn [mbind outcome_bind].
      rewrite (proj2 (Nat.leb_le _ _)); [done|]. etransitivity; [exact Hle|]. apply subseteq_size. set_solver.
    + destruct (decode_too_few (E:=E) k n b Hp D HD U d ys Hd Hys Hlt) as (e & d' & -> & Hd'). cbn [mbind outcome_bind].
      rewrite (IH _ _ Hd' Hlt). by rewrite (assoc_L (∪)), (comm_L (∪) (positions n b (concat batches))).
Qed.

Lemma to_decoding_symbols_ok {E} b L : 0 < b -> sized b L -> len L < 2 ^ 16 ->
  exists all, to_decoding_symbols (E:=E) (of_symbols b L) = Ok (Some all) /\ length all = length L /\
    forall y, y ∈ all -> 0 <= ds_index y < 2 ^ 16 /\ L !! Z.to_nat (ds_index y) = Some (ds_data y).
Proof.
  intros Hb HL Hlen. unfold to_decoding_symbols. rewrite symbols_len_of, to_symbols_of by done.
  rewrite (proj2 (try_from_Some 32 _ (Z.of_nat (length L)))) by lia.
  destruct (mapM_outcome_exists (E:=E) (fun '(i, d) => i ← expect (try_from 16 (Z.of_nat i)); Ok (mk_decoding_symbol i d))
    (fun p y => y = mk_decoding_symbol (Z.of_nat p.1) p.2) (imap (fun i d => (i, d)) L)) as (all & -> & H2).
  - intros [i d] Hi. apply elem_of_lookup_imap in Hi as (j & x & [= -> ->] & Hj%lookup_lt_Some).
    eexists. rewrite (proj2 (try_from_Some 16 _ (Z.of_nat j))) by lia. done.
  - exists all. split; [done|]. split; [by rewrite <- (Forall2_length _ _ _ H2), length_imap|].
    intros y (u & Hu)%list_elem_of_lookup. destruct (Forall2_lookup_r _ _ _ _ _ H2 Hu) as ([i d] & Hi & ->).
    rewrite list_lookup_imap in Hi. destruct (L !! u) as [x|] eqn:Hx; [|done]. injection Hi as <- <-.
    pose proof (lookup_lt_Some _ _ _ Hx). cbn. rewrite Nat2Z.id. split; [lia|done].
Qed.

(** One-dimensional encoding and decoding round trip: data of a whole number
    of symbols is encoded into one symbol for each shard, and a decoder that is
    given batches of these symbols, in any order and with repetitions, returns
    the data with the batch that completes the [k] different symbols needed and
    not before: failed calls keep what they received. *)
Theorem decoder_resumes n a b data : axis_params a (enum_of n) b ->
  len data = n_source_symbols a (enum_of n) * b ->
  exists s all d, encode_all_symbols a (enum_of n) data = Ok s /\
    to_decoding_symbols (E:=False) s = Ok (Some all) /\ len all = n /\
    get_decoder a (enum_of n) b = Ok d /\
    forall batches, concat batches ⊆ all ->
      decode_batches (E:=False) d batches =
        Ok (if n_source_symbols a (enum_of n) <=? Z.of_nat (size (list_to_set (ds_index <$> concat batches) : gset Z))
            then Some data else None).
Proof.
  intros Hp Hl. set (k := n_source_symbols a (enum_of n)) in *.
  assert (exists D, source k b D /\ data = concat D) as (D & HD & ->).
  { destruct (params_positive _ _ _ Hp) as [Hk Hb]. destruct (of_symbols_chunks b Hb data (Z.to_nat k)) as (Hd & Hs & Hn).
    - rewrite <- Z2Nat.inj_mul by (fold k in Hk; lia). lia.
    - exists (chunks (Z.to_nat b) data). injection Hd as Hd. split; [|done]. split; [fold k in Hk; lia|done]. }
  destruct (params_positive _ _ _ Hp) as [_ Hb]. destruct (codeword_spec _ _ _ Hp D HD) as [Hcl Hcs].
  change (n_shards (enum_of n)) with n in Hcl, Hcs. fold k in Hcl, Hcs.
  destruct (rs_decoder_new_ok _ _ _ Hp) as (d & Hd & Hfresh). pose proof (params_shards _ _ _ Hp) as Hn.
  change (n_shards (enum_of n)) with n in Hn.
  destruct (to_decoding_symbols_ok (E:=False) b (codeword k n D) Hb Hcs ltac:(lia)) as (all & Hall & Hlen & Hsym).
  exists (of_symbols b (codeword k n D)), all, d. split_and!; [by apply (encode_all_symbols_ok a (enum_of n) b Hp)|
    done|lia|done|]. intros batches Hsub.
  assert (forall y, y ∈ concat batches -> 0 <= ds_index y < 2 ^ 16 /\ usable n b y = true /\
    codeword k n D !! Z.to_nat (ds_index y) = Some (ds_data y)) as Hy.
  { intros y Hy. destruct (Hsym y (Hsub y Hy)) as [Hi Hd']. split_and!; [lia|lia| |done].
    apply bool_decide_eq_true. pose proof (lookup_lt_Some _ _ _ Hd'). split; [|lia].
    by apply (Forall_lookup_1 _ _ _ _ Hcs Hd'). }
  rewrite (decode_batches_ok k n b D batches ∅ d Hp HD (fresh_holding k n b Hp D d Hfresh)).
  - rewrite (union_empty_r_L (positions n b (concat batches))), size_positions_indices.
    + f_equal. by destruct (Nat.leb_spec (Z.to_nat k) (size (list_to_set (ds_index <$> concat batches) : gset Z))),
        (Z.leb_spec k (Z.of_nat (size (list_to_set (ds_index <$> concat batches) : gset Z)))); try lia.
    + apply Forall_forall. intros y Hin. destruct (Hy y Hin) as (? & ? & _). split; [lia|done].
  - apply Forall_forall. intros ys Hys. apply Forall_forall. intros y Hin.
    destruct (Hy y) as (Hi & _ & Hc); [apply list_elem_of_In, in_concat; exists ys; by rewrite <- !list_elem_of_In|]. by split.
  - rewrite size_empty. pose proof (params_source _ _ _ Hp) as Hk. fold k in Hk. lia.
Qed.

End encoding.
