(* ===== verification/EncodingExamples.v ===== *)
(** * Encoded blobs, evaluated

    The theorems of [EncodingProps] at concrete inputs: a blob of eleven bytes,
    a committee of four shards, the code of [XorCode] and a polynomial hash;
    and two inputs on which the checks of the code accept what they should
    not. *)

From S2P Require Import Prelude Core EncodingConfig Symbols Loops ReedSolomon ProductCode.
From S2P Require Import Merkle Metadata RecoverySymbols Slivers SliverProps BlobEncoder.
From S2P Require Import SymbolVectors BlobEncoderProps LegacyEncoder BlobDecoder.
From S2P Require Import BlobDecoderProps BlobReads XorCode EncodingProps.

Lemma again_elem_of a pairs k :
  Forall (fun x => x ∈ axis_slivers a pairs) (axis_slivers a (reverse (drop k pairs) ++ drop k pairs)).
Proof.
  apply Forall_forall. intros x (p & -> & Hp)%list_elem_of_fmap. apply list_elem_of_fmap. exists p. split; [done|].
  rewrite <- (take_drop k pairs). apply elem_of_app. right. apply elem_of_app in Hp as [Hp|Hp]; [by rewrite elem_of_reverse in Hp|done].
Qed.

Lemma taken_elem_of {A} (all : list A) i j : take 1 (drop i all) ++ [] ++ take 1 (drop j all) ++ [] ⊆ all.
Proof.
  intros y Hy. assert (forall k, y ∈ take 1 (drop k all) -> y ∈ all) as Hin.
  { intros k (u & Hu & _)%elem_of_take. rewrite lookup_drop in Hu. by apply list_elem_of_lookup_2 in Hu. }
  rewrite !elem_of_app in Hy. destruct Hy as [Hy|[Hy|[Hy|Hy]]];
    [by eapply Hin|by apply not_elem_of_nil in Hy|by eapply Hin|by apply not_elem_of_nil in Hy].
Qed.

(** ** Witnesses *)

Section witnesses.
#[local] Existing Instance release_build.
#[local] Existing Instance poly_hash.

(** Eleven bytes for a committee of four shards: two rows of three symbols. *)
Definition eleven : list byte := [x01; x02; x03; x04; x05; x06; x07; x08; x09; x0a; x0b].
Definition eleven_encoded : list SliverPair * option BlobMetadataWithId :=
  match config_encode_with_metadata (enum_of 4) eleven with
  | Ok (pairs, md) => (pairs, Some md)
  | _ => ([], None)
  end.
Definition eleven_pairs : list SliverPair := eleven_encoded.1.
Definition eleven_metadata : BlobMetadataWithId :=
  default {| blob_id := mk_blob_id []; metadata := {| md_encoding_type := RS2; unencoded_length := 0; hashes := [] |} |}
    eleven_encoded.2.

Lemma eleven_is_encoded : encoded 4 2 eleven eleven_pairs eleven_metadata.
Proof.
  constructor; [split; lia|vm_compute; reflexivity|vm_compute; reflexivity| |].
  - intros []; vm_compute; reflexivity.
  - unfold eleven_pairs, eleven_metadata. vm_compute. reflexivity.
Qed.

Lemma encoders_agree_witness : exists e pairs md, blob_encoder_new (enum_of 4) eleven = Ok e /\
  encode_with_metadata_legacy (E:=False) e = Ok (pairs, md) /\
  compute_blob_id (enum_of 4) eleven = Ok (blob_id md).
Proof.
  destruct eleven_is_encoded as [Hn Hl Hs Hsup _].
  destruct (encoders_agree 4 2 eleven Hn Hl Hs Hsup) as (e & pairs & md & He & _ & Hleg & _ & _ & Hid).
  exists e, pairs, md. exact (conj He (conj Hleg Hid)).
Defined.

Lemma encoded_slivers_verify_witness : verify_metadata eleven_metadata (config_of 4) = Ok eleven_metadata /\
  exists p, eleven_pairs !! 3%nat = Some p /\
    sliver_verify Secondary (secondary p) (config_of 4) (metadata eleven_metadata) = Ok tt.
Proof.
  destruct (encoded_slivers_verify 4 2 eleven eleven_pairs eleven_metadata eleven_is_encoded) as (Hv & Hl & Hp).
  split; [exact Hv|]. destruct (eleven_pairs !! 3%nat) as [p|] eqn:H3.
  - exists p. split; [reflexivity|]. exact (proj2 (Hp 3%nat p Secondary H3)).
  - apply lookup_ge_None in H3. lia.
Defined.

(** The repair slivers, in reverse order, with a repetition and a sliver of
    wrong size. *)
Definition noisy_slivers : list SliverData :=
  {| sliver_symbols := mk_symbols [x01] 2; sliver_idx := mk_sliver_index 0 |} ::
  axis_slivers Primary (reverse (drop 2 eleven_pairs) ++ drop 2 eleven_pairs).

Lemma encode_decode_roundtrip_witness :
  decode_and_verify Primary (enum_of 4) eleven_metadata noisy_slivers DefaultCheck = Ok eleven.
Proof.
  rewrite (encode_decode_roundtrip 4 2 eleven eleven_pairs eleven_metadata Primary noisy_slivers DefaultCheck
    eleven_is_encoded).
  - vm_compute. reflexivity.
  - constructor; [right; reflexivity|]. eapply Forall_impl; [apply (again_elem_of Primary eleven_pairs 2)|]. intros x Hx. left. exact Hx.
Defined.

(** Any three of the four pairs. *)
Lemma quorum_reads_witness :
  decode_and_verify Secondary (enum_of 4) eleven_metadata (axis_slivers Secondary (drop 1 eleven_pairs)) StrictCheck
    = Ok eleven.
Proof.
  apply (quorum_reads 4 2 eleven eleven_pairs eleven_metadata (drop 1 eleven_pairs) Secondary StrictCheck
    eleven_is_encoded).
  - apply sublist_submseteq, sublist_drop.
  - vm_compute. discriminate.
Defined.

(** A lost primary sliver and the symbols of the other holders for it. *)
Definition lost_pair : SliverPair := default {| primary := inhabitant; secondary := inhabitant |} (eleven_pairs !! 1%nat).
Definition lost_symbols : list RecoverySymbol :=
  match mapM_outcome (fun y => recovery_symbol_for_sliver Secondary y (mk_pair_index 1) (enum_of 4))
          (axis_slivers Secondary (drop 1 eleven_pairs)) with
  | Ok symbols => symbols
  | _ => []
  end.

Lemma recovery_from_pairs_witness : exists symbols,
  recover_sliver_or_generate_inconsistency_proof Primary symbols (mk_sliver_index 1)
    (metadata eleven_metadata) (config_of 4) = Ok (Sliver (primary lost_pair)).
Proof.
  destruct (recovery_from_pairs 4 2 eleven eleven_pairs eleven_metadata 1 lost_pair Primary (drop 1 eleven_pairs)
    eleven_is_encoded) as (symbols & _ & _ & Hr).
  - vm_compute. reflexivity.
  - apply sublist_submseteq, sublist_drop.
  - vm_compute. discriminate.
  - exists symbols. exact Hr.
Defined.

Lemma lost_symbols_received :
  Forall (received 4 (blob_matrix 4 2 eleven) Primary 1) lost_symbols.
Proof.
  apply Forall_forall. intros s Hs.
  assert (forallb (fun s => (0 <=? ds_index (rsym_symbol s)) && forallb (fun x => length (node_bytes x) =? 32)%nat (path (rsym_proof s))
    && collision_free_b (hash_queries (expanded_sliver 4 (blob_matrix 4 2 eleven) Secondary (ds_index (rsym_symbol s)))
         (rsym_proof s) (ds_data (rsym_symbol s)) 1)) lost_symbols = true) as Hall by (vm_compute; reflexivity).
  rewrite forallb_forall in Hall. specialize (Hall s (proj1 (list_elem_of_In _ _) Hs)).
  apply andb_prop in Hall as [[Hi Hw]%andb_prop Hc]. constructor.
  - lia.
  - apply Forall_forall. intros x Hx%list_elem_of_In. rewrite forallb_forall in Hw. exact (proj1 (Nat.eqb_eq _ _) (Hw x Hx)).
  - by apply collision_free_b_sound.
Qed.

Lemma recovery_from_verified_symbols_witness :
  recover_sliver_or_generate_inconsistency_proof Primary lost_symbols (mk_sliver_index 1)
    (metadata eleven_metadata) (config_of 4) = Ok (Sliver (primary lost_pair)).
Proof.
  apply (recovery_from_verified_symbols 4 2 eleven eleven_pairs eleven_metadata 1 lost_pair Primary lost_symbols
    eleven_is_encoded).
  - vm_compute. reflexivity.
  - exact lost_symbols_received.
  - apply Forall_forall. intros s Hs.
    assert (forallb (fun s => is_ok (symbol_verify Primary s 4 2 (metadata eleven_metadata) (mk_sliver_index 1)))
      lost_symbols = true) as Hall by (vm_compute; reflexivity).
    rewrite forallb_forall in Hall. specialize (Hall s (proj1 (list_elem_of_In _ _) Hs)).
    destruct (symbol_verify _ _ _ _ _ _) as [[]| |]; [reflexivity|discriminate..].
  - apply (bool_decide_unpack _). vm_compute. exact I.
  - vm_compute. discriminate.
Defined.

(** Genuine symbols presented as a proof of inconsistency. *)
Lemma no_inconsistency_proof_witness : exists e,
  inconsistency_proof_verify Primary {| target_sliver_index := mk_sliver_index 1; recovery_symbols := lost_symbols |}
    (metadata eleven_metadata) (config_of 4) = Err e.
Proof.
  apply (no_inconsistency_proof 4 2 eleven eleven_pairs eleven_metadata Primary
    {| target_sliver_index := mk_sliver_index 1; recovery_symbols := lost_symbols |} eleven_is_encoded).
  - cbn. lia.
  - exact lost_symbols_received.
Defined.

Lemma decoder_resumes_witness : exists s all d,
  encode_all_symbols Primary (enum_of 4) [x01; x02; x03; x04] = Ok s /\
  to_decoding_symbols (E:=False) s = Ok (Some all) /\ get_decoder Primary (enum_of 4) 2 = Ok d /\
  decode_batches (E:=False) d [take 1 (drop 2 all); []; take 1 (drop 3 all)] = Ok (Some [x01; x02; x03; x04]).
Proof.
  destruct (decoder_resumes 4 Primary 2 [x01; x02; x03; x04]) as (s & all & d & Hs & Hall & _ & Hd & Hb).
  - exact (encoded_params _ _ _ _ _ eleven_is_encoded Primary).
  - vm_compute. reflexivity.
  - exists s, all, d. refine (conj Hs (conj Hall (conj Hd _))). rewrite Hb.
    + vm_compute in Hs. injection Hs as <-. vm_compute in Hall. injection Hall as <-. vm_compute. reflexivity.
    + apply (taken_elem_of all 2 3).
Defined.

Lemma eleven_metadata_wf : metadata_wf (metadata eleven_metadata).
Proof.
  destruct (encoded_encoder _ _ _ _ _ eleven_is_encoded) as (e & _ & _ & _ & ->).
  exact (blob_metadata_wf 4 2 (metadata eleven_metadata) eleven eq_refl).
Qed.

Lemma verified_held a held : held ⊆+ eleven_pairs -> verified 4 (metadata eleven_metadata) a (axis_slivers a held).
Proof.
  intros Hh. apply Forall_forall. intros x Hx.
  destruct (held_sliver _ _ _ _ _ eleven_is_encoded a held x Hh Hx) as (i & Hi & ->). split; [cbn; lia|].
  apply (sliver_verify_ok 4 2 (encoded_shards _ _ _ _ _ eleven_is_encoded) (encoded_params _ _ _ _ _ eleven_is_encoded)
    _ _ (encoded_commits _ _ _ _ _ eleven_is_encoded)). exact Hi.
Qed.

(** A read of two primary slivers with the default check and a read of three
    secondary slivers with the strict check. *)
Definition primary_read : list SliverData := axis_slivers Primary (drop 2 eleven_pairs).
Definition secondary_read : list SliverData := axis_slivers Secondary (drop 1 eleven_pairs).
Definition read_result (r : outcome DecodeError (list byte)) : list byte := match r with Ok blob => blob | _ => [] end.

Lemma reads_agree_witness :
  read_result (decode_and_verify Primary (enum_of 4) eleven_metadata primary_read DefaultCheck) =
  read_result (decode_and_verify Secondary (enum_of 4) eleven_metadata secondary_read StrictCheck).
Proof.
  destruct eleven_is_encoded as [Hn _ Hs Hsup _].
  apply (reads_agree 4 2 eleven_metadata Primary Secondary primary_read secondary_read DefaultCheck StrictCheck _ _
    Hn Hsup).
  - vm_compute. reflexivity.
  - exact eleven_metadata_wf.
  - vm_compute. reflexivity.
  - apply verified_held, sublist_submseteq, sublist_drop.
  - split; [discriminate|]. intros _ _. vm_compute. repeat constructor.
  - apply verified_held, sublist_submseteq, sublist_drop.
  - split; [discriminate|]. intros; discriminate.
  - apply collision_free_b_sound. vm_compute. reflexivity.
  - apply collision_free_b_sound. vm_compute. reflexivity.
  - apply collision_free_b_sound. vm_compute. reflexivity.
  - vm_compute. reflexivity.
  - vm_compute. reflexivity.
Defined.

(** ** Where the checks accept too much *)

(** Another blob of the same length, and metadata that commits to its first row
    and to the other rows of [eleven]. *)
Definition altered : list byte := [x21; x22; x23; x24; x25; x26; x07; x08; x09; x0a; x0b].
Definition altered_pairs : list SliverPair :=
  match config_encode_with_metadata (enum_of 4) altered with Ok (pairs, _) => pairs | _ => [] end.
Definition altered_metadata : BlobMetadata :=
  match config_encode_with_metadata (enum_of 4) altered with
  | Ok (_, md) => metadata md
  | _ => metadata eleven_metadata
  end.

Definition mixed_metadata : BlobMetadataWithId :=
  let m := {| md_encoding_type := RS2; unencoded_length := 11;
              hashes := take 1 (hashes altered_metadata) ++ drop 1 (hashes (metadata eleven_metadata)) |} in
  {| blob_id := id_of m; metadata := m |}.

Definition mixed_pairs : list SliverPair := take 1 altered_pairs ++ drop 1 eleven_pairs.

(** With more primary slivers than needed, the default consistency check
    marks the surplus sliver it takes and drops as verified, and does not
    compare the decoded blob with it: for metadata of an inconsistently encoded
    blob two readers, given slivers that all verify, obtain different blobs,
    although one of the reads is inconsistent with the metadata and is rejected
    when the surplus sliver is absent. *)
Theorem default_check_surplus :
  verify_metadata mixed_metadata (config_of 4) = Ok mixed_metadata /\
  forallb (fun x => is_ok (sliver_verify Primary x (config_of 4) (metadata mixed_metadata)))
    (axis_slivers Primary mixed_pairs) = true /\
  decode_and_verify Primary (enum_of 4) mixed_metadata
    (axis_slivers Primary (drop 2 mixed_pairs ++ take 1 mixed_pairs)) DefaultCheck = Ok eleven /\
  decode_and_verify Primary (enum_of 4) mixed_metadata
    (axis_slivers Primary (take 2 mixed_pairs)) DefaultCheck = Ok altered /\
  is_ok (decode_and_verify Primary (enum_of 4) mixed_metadata
    (axis_slivers Primary (drop 2 mixed_pairs)) DefaultCheck) = false.
Proof. split_and!; vm_compute; reflexivity. Qed.

(** The symbol of the secondary sliver 2 on the primary sliver 1, in general
    form. *)
Definition crossing_symbol : outcome RecoverySymbolError GeneralRecoverySymbol :=
  s ← recovery_symbol_for_sliver Secondary (secondary lost_pair) (mk_pair_index 1) (enum_of 4);
  Ok (from_recovery_symbol Primary s (mk_sliver_index 1)).

(** Verification of a general recovery symbol accepts a symbol that does not
    lie on the target sliver: the symbol where the secondary sliver 2 crosses
    the primary sliver 1 verifies as a symbol for the primary sliver 2. *)
Theorem general_symbol_misplaced :
  exists g, crossing_symbol = Ok g /\
    symbol_id_sliver_index (general_symbol_id g) Primary = mk_sliver_index 1 /\
    general_symbol_verify g (metadata eleven_metadata) (config_of 4) (mk_sliver_index 1) Primary = Ok tt /\
    general_symbol_verify g (metadata eleven_metadata) (config_of 4) (mk_sliver_index 2) Primary = Ok tt /\
    general_symbol_verify g (metadata eleven_metadata) (config_of 4) (mk_sliver_index 3) Primary =
      Err SymbolNotUsable.
Proof.
  destruct crossing_symbol as [g| |] eqn:Hg; vm_compute in Hg; [|discriminate..]. injection Hg as <-.
  eexists. split; [reflexivity|]. split_and!; vm_compute; reflexivity.
Qed.

End witnesses.
