(* ===== verification/PermBlobInfo.v ===== *)
(** * Status changes, permanent blob info and per-object blob info

    The merge operands shared by all aggregate blob-info types (blob_info.rs)
    and the summary of the permanent blobs of a blob ID
    (blob_info/perm_blob_info.rs).  Methods on [&mut] values return the new
    value; log messages have no counterpart.
    The records per [Blob] object, per pooled blob object and per storage pool
    (per_object_blob_info of blob_info.rs, blob_info/per_object_pooled_blob_info.rs,
    blob_info/storage_pool_info.rs) follow, each updated through merge operands whose
    assertions are panics. *)

From S2P Require Import Prelude Core.

(** [Epoch] is a [u32].  Object and event identifiers of the chain are used
    only as keys and for equality; an object ID is identified with its
    big-endian value, which is also its order as a database key. *)
Abbreviation Epoch := Z.
Abbreviation ObjectID := Z.
Abbreviation EventID := Z.

(** A computation that can only return or panic. *)
Abbreviation total A := (outcome False A).

Inductive BlobStatusChangeType :=
| Register
| Certify
| Extend
| Delete (was_certified : bool).

Record BlobStatusChangeInfo := mk_change {
  ci_blob_id : BlobId;
  deletable : bool;
  epoch : Epoch;
  end_epoch : Epoch;
  status_event : EventID;
}.

(** [PooledBlobChangeInfo]. *)
Record PooledBlobChangeInfo := mk_pooled_change {
  pc_blob_id : BlobId;
  pc_epoch : Epoch;
  pc_storage_pool_id : ObjectID;
  pc_status_event : EventID;
}.

Inductive BlobInfoMergeOperand :=
| MarkMetadataStored (stored : bool)
| MarkInvalid (epoch : Epoch) (status_event : EventID)
| ChangeStatus (change_type : BlobStatusChangeType) (change_info : BlobStatusChangeInfo)
| DeletableExpired (was_certified : bool)
| PermanentExpired (was_certified : bool)
| PooledBlobChangeStatus (change_type : BlobStatusChangeType) (change_info : PooledBlobChangeInfo)
| PoolExpired (storage_pool_id : ObjectID) (was_certified : bool).

(** The trait [Mergeable]. *)
Class Mergeable (T Op : Type) := {
  merge_with : T -> Op -> total T;
  merge_new : Op -> total (option T);
}.

(** [Mergeable::merge], the provided method. *)
Definition merge `{Mergeable T Op} (existing_val : option T) (operand : Op) :
    total (option T) :=
  match existing_val with
  | Some v => v' ← merge_with v operand; Ok (Some v')
  | None => merge_new operand
  end.

(** [BlobStatus] and [DeletableCounts] of the storage-node API. *)
Record DeletableCounts := mk_counts {
  count_total : Z;
  count_certified : Z;
}.

#[export] Instance DeletableCounts_eq_dec : EqDecision DeletableCounts.
Proof. solve_decision. Defined.

Inductive BlobStatus :=
| Nonexistent
| InvalidStatus (event : EventID)
| PermanentStatus (end_epoch : Epoch) (is_certified : bool) (status_event : EventID)
    (deletable_counts : DeletableCounts) (initial_certified_epoch : option Epoch)
| DeletableStatus (initial_certified_epoch : option Epoch) (deletable_counts : DeletableCounts).

(** [Option::is_some_and], [Option::is_none_or]. *)
Definition is_some_and {A} (o : option A) (f : A -> bool) : bool :=
  match o with Some a => f a | None => false end.
Definition is_none_or {A} (o : option A) (f : A -> bool) : bool :=
  match o with Some a => f a | None => true end.
Definition is_some {A} (o : option A) : bool := match o with Some _ => true | None => false end.
Definition is_none {A} (o : option A) : bool := match o with Some _ => false | None => true end.

(** ** [PermanentBlobInfo] *)

Record PermanentBlobInfo := mk_perm {
  p_count : Z;
  p_end_epoch : Epoch;
  p_event : EventID;
}.

#[export] Instance PermanentBlobInfo_eq_dec : EqDecision PermanentBlobInfo.
Proof. solve_decision. Defined.

Definition new_first (end_epoch : Epoch) (event : EventID) : PermanentBlobInfo :=
  mk_perm 1 end_epoch event.

(** [PermanentBlobInfo::update]; the count is a [NonZeroU32]. *)
Definition perm_update (p : PermanentBlobInfo) (change_info : BlobStatusChangeInfo)
    (increase_count : bool) : total PermanentBlobInfo :=
  assert (negb (deletable change_info));;
  let count := if increase_count then saturating_add 32 (p_count p) 1 else p_count p in
  if p_end_epoch p <? end_epoch change_info
  then Ok (mk_perm count (end_epoch change_info) (status_event change_info))
  else Ok (mk_perm count (p_end_epoch p) (p_event p)).

Definition update_optional (existing_info : option PermanentBlobInfo)
    (change_info : BlobStatusChangeInfo) : total (option PermanentBlobInfo) :=
  assert (negb (deletable change_info));;
  match existing_info with
  | None => Ok (Some (new_first (end_epoch change_info) (status_event change_info)))
  | Some p => p' ← perm_update p change_info true; Ok (Some p')
  end.

(** [PermanentBlobInfo::register]. *)
Definition perm_register (permanent_total : option PermanentBlobInfo)
    (change_info : BlobStatusChangeInfo) : total (option PermanentBlobInfo) :=
  update_optional permanent_total change_info.

(** [PermanentBlobInfo::certify]: the new certified summary and whether the
    update was made. *)
Definition perm_certify (permanent_total permanent_certified : option PermanentBlobInfo)
    (change_info : BlobStatusChangeInfo) : total (option PermanentBlobInfo * bool) :=
  match permanent_total with
  | None => Ok (permanent_certified, false)
  | Some t =>
    if p_end_epoch t <? end_epoch change_info then Ok (permanent_certified, false)
    else if p_count t <=? from_option p_count 0 permanent_certified
    then Ok (permanent_certified, false)
    else p ← update_optional permanent_certified change_info; Ok (p, true)
  end.

(** [PermanentBlobInfo::extend]. *)
Definition perm_extend (permanent_info : option PermanentBlobInfo)
    (change_info : BlobStatusChangeInfo) : total (option PermanentBlobInfo) :=
  match permanent_info with
  | None => Ok None
  | Some p => p' ← perm_update p change_info false; Ok (Some p')
  end.

(** [PermanentBlobInfo::decrement]. *)
Definition perm_decrement (info : option PermanentBlobInfo) : total (option PermanentBlobInfo) :=
  match info with
  | None => Ok None
  | Some p =>
    if p_count p =? 1 then Ok None
    else c ← expect (non_zero (p_count p - 1)); Ok (Some (mk_perm c (p_end_epoch p) (p_event p)))
  end.

(** ** Lemmas *)

Lemma perm_update_eq p ci inc : deletable ci = false ->
  exists ev, perm_update p ci inc =
    Ok (mk_perm (if inc then saturating_add 32 (p_count p) 1 else p_count p)
                (Z.max (p_end_epoch p) (end_epoch ci)) ev).
Proof.
  intros Hd. unfold perm_update. rewrite Hd. cbn.
  destruct (Z.ltb_spec (p_end_epoch p) (end_epoch ci)); eexists; do 2 f_equal; lia.
Qed.

(** ** Regular blob objects *)

(** [PerObjectBlobInfo::V1(PerObjectBlobInfoV1)], the only version. *)
Record PerObjectBlobInfo := mk_object {
  o_blob_id : BlobId;
  o_registered_epoch : Epoch;
  o_certified_epoch : option Epoch;
  o_end_epoch : Epoch;
  o_deletable : bool;
  o_event : EventID;
  o_deleted : bool;
}.

Record PerObjectBlobInfoMergeOperand := mk_object_operand {
  po_change_type : BlobStatusChangeType;
  po_change_info : BlobStatusChangeInfo;
}.

Definition from_blob_info_merge_operand (operand : BlobInfoMergeOperand) :
    option PerObjectBlobInfoMergeOperand :=
  match operand with
  | ChangeStatus change_type change_info => Some (mk_object_operand change_type change_info)
  | _ => None
  end.

(** [PerObjectBlobInfoApi]. *)
Definition object_is_registered (o : PerObjectBlobInfo) (current_epoch : Epoch) : bool :=
  (current_epoch <? o_end_epoch o) && negb (o_deleted o).

Definition object_is_certified (o : PerObjectBlobInfo) (current_epoch : Epoch) : bool :=
  object_is_registered o current_epoch &&
  is_some_and (o_certified_epoch o) (fun e => e <=? current_epoch).

Definition object_merge_with (o : PerObjectBlobInfo) (operand : PerObjectBlobInfoMergeOperand) :
    total PerObjectBlobInfo :=
  let change_info := po_change_info operand in
  assert (bool_decide (o_blob_id o = ci_blob_id change_info));;
  assert (Bool.eqb (o_deletable o) (deletable change_info));;
  assert (negb (o_deleted o));;
  let event := status_event change_info in
  match po_change_type operand with
  | Register => Panic
  | Certify =>
    assert (is_none (o_certified_epoch o));;
    Ok (mk_object (o_blob_id o) (o_registered_epoch o) (Some (epoch change_info))
      (o_end_epoch o) (o_deletable o) event (o_deleted o))
  | Extend =>
    assert (is_some (o_certified_epoch o));;
    Ok (mk_object (o_blob_id o) (o_registered_epoch o) (o_certified_epoch o)
      (end_epoch change_info) (o_deletable o) event (o_deleted o))
  | Delete was_certified =>
    assert (Bool.eqb (is_some (o_certified_epoch o)) was_certified);;
    Ok (mk_object (o_blob_id o) (o_registered_epoch o) (o_certified_epoch o)
      (o_end_epoch o) (o_deletable o) event true)
  end.

(** ** Pooled blob objects *)

Record PerObjectPooledBlobInfo := mk_pooled {
  po_blob_id : BlobId;
  po_registered_epoch : Epoch;
  po_certified_epoch : option Epoch;
  po_storage_pool_id : ObjectID;
  po_event : EventID;
}.

Record PerObjectPooledBlobInfoMergeOperand := mk_pooled_operand {
  pp_change_type : BlobStatusChangeType;
  pp_change_info : PooledBlobChangeInfo;
}.

Definition pooled_merge_with (o : PerObjectPooledBlobInfo)
    (operand : PerObjectPooledBlobInfoMergeOperand) : total PerObjectPooledBlobInfo :=
  let change_info := pp_change_info operand in
  assert (bool_decide (po_blob_id o = pc_blob_id change_info));;
  match pp_change_type operand with
  | Certify =>
    assert (is_none (po_certified_epoch o));;
    Ok (mk_pooled (po_blob_id o) (po_registered_epoch o) (Some (pc_epoch change_info))
      (po_storage_pool_id o) (pc_status_event change_info))
  | Register | Extend | Delete _ => Panic
  end.

(** ** Storage pools *)

(** [StoragePoolInfo::V1(StoragePoolInfoV1)]. *)
Record StoragePoolInfo := mk_pool { pool_start_epoch : Epoch; pool_end_epoch : Epoch }.

Inductive StoragePoolInfoMergeOperand :=
| CreatePool (start_epoch end_epoch : Epoch)
| ExtendPool (end_epoch : Epoch).

Definition pool_merge_with (p : StoragePoolInfo) (operand : StoragePoolInfoMergeOperand) :
    total StoragePoolInfo :=
  match operand with
  | ExtendPool end_epoch =>
    Ok (mk_pool (pool_start_epoch p) (Z.max (pool_end_epoch p) end_epoch))
  | CreatePool _ _ => Panic
  end.

Definition pool_merge_new (operand : StoragePoolInfoMergeOperand) :
    total (option StoragePoolInfo) :=
  match operand with
  | CreatePool start_epoch end_epoch => Ok (Some (mk_pool start_epoch end_epoch))
  | ExtendPool _ => Panic
  end.

Section merge_new.
Context `{Build}.

Definition object_merge_new (operand : PerObjectBlobInfoMergeOperand) :
    total (option PerObjectBlobInfo) :=
  match po_change_type operand with
  | Register =>
    let ci := po_change_info operand in
    Ok (Some (mk_object (ci_blob_id ci) (epoch ci) None (end_epoch ci) (deletable ci)
      (status_event ci) false))
  | _ => debug_assert false;; Ok None
  end.

Definition pooled_merge_new (operand : PerObjectPooledBlobInfoMergeOperand) :
    total (option PerObjectPooledBlobInfo) :=
  match pp_change_type operand with
  | Register =>
    let ci := pp_change_info operand in
    Ok (Some (mk_pooled (pc_blob_id ci) (pc_epoch ci) None (pc_storage_pool_id ci)
      (pc_status_event ci)))
  | _ => debug_assert false;; Ok None
  end.

End merge_new.

#[export] Instance object_mergeable `{Build} :
    Mergeable PerObjectBlobInfo PerObjectBlobInfoMergeOperand :=
  {| merge_with := object_merge_with; merge_new := object_merge_new |}.

#[export] Instance pooled_mergeable `{Build} :
    Mergeable PerObjectPooledBlobInfo PerObjectPooledBlobInfoMergeOperand :=
  {| merge_with := pooled_merge_with; merge_new := pooled_merge_new |}.

#[export] Instance pool_mergeable : Mergeable StoragePoolInfo StoragePoolInfoMergeOperand :=
  {| merge_with := pool_merge_with; merge_new := pool_merge_new |}.
