(* ===== verification/BlobInfoV1.v ===== *)
(** * Aggregate blob info, version 1

    Models blob_info/blob_info_v1.rs: the summary, kept per blob ID, of all the
    [Blob] objects of that blob, and the update for every merge operand.  The
    refinement to the individual objects is in BlobInfoRefinement.v. *)

From S2P Require Import Prelude Core PermBlobInfo.

Module V1.

Record ValidBlobInfo := {
  is_metadata_stored : bool;
  count_deletable_total : Z;
  count_deletable_certified : Z;
  permanent_total : option PermanentBlobInfo;
  permanent_certified : option PermanentBlobInfo;
  initial_certified_epoch : option Epoch;
  latest_seen_deletable_registered_end_epoch : option Epoch;
  latest_seen_deletable_certified_end_epoch : option Epoch;
}.

(** [#[derive(Default)]]. *)
Definition default_info : ValidBlobInfo :=
  {| is_metadata_stored := false;
     count_deletable_total := 0;
     count_deletable_certified := 0;
     permanent_total := None;
     permanent_certified := None;
     initial_certified_epoch := None;
     latest_seen_deletable_registered_end_epoch := None;
     latest_seen_deletable_certified_end_epoch := None |}.

Inductive BlobInfo := Invalid (epoch : Epoch) (event : EventID) | Valid (v : ValidBlobInfo).

(** Assignments to single fields (and to the two pairs updated together). *)
Definition set_metadata_stored (b : bool) (s : ValidBlobInfo) : ValidBlobInfo :=
  {| is_metadata_stored := b;
     count_deletable_total := count_deletable_total s;
     count_deletable_certified := count_deletable_certified s;
     permanent_total := permanent_total s;
     permanent_certified := permanent_certified s;
     initial_certified_epoch := initial_certified_epoch s;
     latest_seen_deletable_registered_end_epoch := latest_seen_deletable_registered_end_epoch s;
     latest_seen_deletable_certified_end_epoch := latest_seen_deletable_certified_end_epoch s |}.

Definition set_registered (n : Z) (latest : option Epoch) (s : ValidBlobInfo) : ValidBlobInfo :=
  {| is_metadata_stored := is_metadata_stored s;
     count_deletable_total := n;
     count_deletable_certified := count_deletable_certified s;
     permanent_total := permanent_total s;
     permanent_certified := permanent_certified s;
     initial_certified_epoch := initial_certified_epoch s;
     latest_seen_deletable_registered_end_epoch := latest;
     latest_seen_deletable_certified_end_epoch := latest_seen_deletable_certified_end_epoch s |}.

Definition set_certified (n : Z) (latest : option Epoch) (s : ValidBlobInfo) : ValidBlobInfo :=
  {| is_metadata_stored := is_metadata_stored s;
     count_deletable_total := count_deletable_total s;
     count_deletable_certified := n;
     permanent_total := permanent_total s;
     permanent_certified := permanent_certified s;
     initial_certified_epoch := initial_certified_epoch s;
     latest_seen_deletable_registered_end_epoch := latest_seen_deletable_registered_end_epoch s;
     latest_seen_deletable_certified_end_epoch := latest |}.

Definition set_permanent (total certified : option PermanentBlobInfo) (s : ValidBlobInfo) :
    ValidBlobInfo :=
  {| is_metadata_stored := is_metadata_stored s;
     count_deletable_total := count_deletable_total s;
     count_deletable_certified := count_deletable_certified s;
     permanent_total := total;
     permanent_certified := certified;
     initial_certified_epoch := initial_certified_epoch s;
     latest_seen_deletable_registered_end_epoch := latest_seen_deletable_registered_end_epoch s;
     latest_seen_deletable_certified_end_epoch := latest_seen_deletable_certified_end_epoch s |}.

Definition set_initial (i : option Epoch) (s : ValidBlobInfo) : ValidBlobInfo :=
  {| is_metadata_stored := is_metadata_stored s;
     count_deletable_total := count_deletable_total s;
     count_deletable_certified := count_deletable_certified s;
     permanent_total := permanent_total s;
     permanent_certified := permanent_certified s;
     initial_certified_epoch := i;
     latest_seen_deletable_registered_end_epoch := latest_seen_deletable_registered_end_epoch s;
     latest_seen_deletable_certified_end_epoch := latest_seen_deletable_certified_end_epoch s |}.

(** ** Queries *)

Definition valid_is_certified (s : ValidBlobInfo) (current_epoch : Epoch) : bool :=
  let exists_certified_permanent_blob :=
    is_some_and (permanent_certified s) (fun p => current_epoch <? p_end_epoch p) in
  let probably_exists_certified_deletable_blob :=
    (0 <? count_deletable_certified s) &&
    is_some_and (latest_seen_deletable_certified_end_epoch s) (fun e => current_epoch <? e) in
  is_some_and (initial_certified_epoch s) (fun e => e <=? current_epoch) &&
  (exists_certified_permanent_blob || probably_exists_certified_deletable_blob).

Definition valid_to_blob_status (s : ValidBlobInfo) (current_epoch : Epoch) : BlobStatus :=
  let deletable_counts := mk_counts
    (if is_some_and (latest_seen_deletable_registered_end_epoch s) (fun e => current_epoch <? e)
     then count_deletable_total s else 0)
    (if is_some_and (latest_seen_deletable_certified_end_epoch s) (fun e => current_epoch <? e)
     then count_deletable_certified s else 0) in
  let initial := initial_certified_epoch s in
  let otherwise :=
    if decide (deletable_counts = mk_counts 0 0) then Nonexistent
    else DeletableStatus initial deletable_counts in
  let registered :=
    match permanent_total s with
    | Some p =>
      if current_epoch <? p_end_epoch p
      then PermanentStatus (p_end_epoch p) false (p_event p) deletable_counts initial
      else otherwise
    | None => otherwise
    end in
  match permanent_certified s with
  | Some p =>
    if current_epoch <? p_end_epoch p
    then PermanentStatus (p_end_epoch p) true (p_event p) deletable_counts initial
    else registered
  | None => registered
  end.

Definition has_no_objects (s : ValidBlobInfo) : bool :=
  (count_deletable_total s =? 0) && (count_deletable_certified s =? 0) &&
  is_none (permanent_total s) && is_none (permanent_certified s) &&
  is_none (initial_certified_epoch s) &&
  is_none (latest_seen_deletable_registered_end_epoch s) &&
  is_none (latest_seen_deletable_certified_end_epoch s).

Definition check_invariants (s : ValidBlobInfo) : bool :=
  (count_deletable_certified s <=? count_deletable_total s) &&
  match initial_certified_epoch s with
  | None => (count_deletable_certified s =? 0) && is_none (permanent_certified s)
  | Some _ => (0 <? count_deletable_certified s) || is_some (permanent_certified s)
  end &&
  match permanent_total s, permanent_certified s with
  | None, Some _ => false
  | Some t, Some c => (p_end_epoch c <=? p_end_epoch t) && (p_count c <=? p_count t)
  | _, _ => true
  end &&
  match latest_seen_deletable_registered_end_epoch s,
        latest_seen_deletable_certified_end_epoch s with
  | None, Some _ => false
  | Some r, Some c => c <=? r
  | _, _ => true
  end.

(** ** Updates *)

Definition update_initial_certified_epoch (s : ValidBlobInfo) (new_certified_epoch : Epoch)
    (force : bool) : ValidBlobInfo :=
  if force || is_none_or (initial_certified_epoch s) (fun e => new_certified_epoch <? e)
  then set_initial (Some new_certified_epoch) s else s.

Definition maybe_unset_initial_certified_epoch (s : ValidBlobInfo) : ValidBlobInfo :=
  if (count_deletable_certified s =? 0) && is_none (permanent_certified s)
  then set_initial None s else s.

Definition maybe_increase_latest_deletable_registered_epoch (s : ValidBlobInfo) (e : Epoch) :
    ValidBlobInfo :=
  set_registered (count_deletable_total s)
    (Some (Z.max e (default 0 (latest_seen_deletable_registered_end_epoch s)))) s.

Definition maybe_increase_latest_deletable_certified_epoch (s : ValidBlobInfo) (e : Epoch) :
    ValidBlobInfo :=
  set_certified (count_deletable_certified s)
    (Some (Z.max e (default 0 (latest_seen_deletable_certified_end_epoch s)))) s.

Section updates.
Context `{Build}.

Definition decrement_deletable_counter_and_maybe_unset_latest_end_epoch
    (counter : Z) (latest_seen_end_epoch : option Epoch) : total (Z * option Epoch) :=
  debug_assert (0 <? counter);;
  let counter := default 0 (checked_sub counter 1) in
  Ok (counter, if counter =? 0 then None else latest_seen_end_epoch).

Definition update_deletable_counters_and_end_epochs (s : ValidBlobInfo) (was_certified : bool) :
    total ValidBlobInfo :=
  '(n, l) ← decrement_deletable_counter_and_maybe_unset_latest_end_epoch
    (count_deletable_total s) (latest_seen_deletable_registered_end_epoch s);
  let s := set_registered n l s in
  if was_certified then
    '(n, l) ← decrement_deletable_counter_and_maybe_unset_latest_end_epoch
      (count_deletable_certified s) (latest_seen_deletable_certified_end_epoch s);
    Ok (set_certified n l s)
  else Ok s.

(** The part of [update_status] before the initial certified epoch is updated;
    the flag is false on an early return. *)
Definition update_status_objects (s : ValidBlobInfo) (change_type : BlobStatusChangeType)
    (change_info : BlobStatusChangeInfo) : total (ValidBlobInfo * bool) :=
  if deletable change_info then
    match change_type with
    | Register =>
      n ← arith 32 (count_deletable_total s + 1);
      let s := set_registered n (latest_seen_deletable_registered_end_epoch s) s in
      Ok (maybe_increase_latest_deletable_registered_epoch s (end_epoch change_info), true)
    | Certify =>
      if count_deletable_total s <=? count_deletable_certified s then Ok (s, false)
      else
        n ← arith 32 (count_deletable_certified s + 1);
        let s := set_certified n (latest_seen_deletable_certified_end_epoch s) s in
        Ok (maybe_increase_latest_deletable_certified_epoch s (end_epoch change_info), true)
    | Extend =>
      let s := maybe_increase_latest_deletable_registered_epoch s (end_epoch change_info) in
      Ok (maybe_increase_latest_deletable_certified_epoch s (end_epoch change_info), true)
    | Delete was_certified =>
      s ← update_deletable_counters_and_end_epochs s was_certified;
      Ok (s, true)
    end
  else
    match change_type with
    | Register =>
      p ← perm_register (permanent_total s) change_info;
      Ok (set_permanent p (permanent_certified s) s, true)
    | Certify =>
      '(p, updated) ← perm_certify (permanent_total s) (permanent_certified s) change_info;
      Ok (set_permanent (permanent_total s) p s, updated)
    | Extend =>
      t ← perm_extend (permanent_total s) change_info;
      c ← perm_extend (permanent_certified s) change_info;
      Ok (set_permanent t c s, true)
    | Delete _ => Ok (s, false)
    end.

Definition update_status (s : ValidBlobInfo) (change_type : BlobStatusChangeType)
    (change_info : BlobStatusChangeInfo) : total ValidBlobInfo :=
  let was_certified := valid_is_certified s (epoch change_info) in
  '(s, continues) ← update_status_objects s change_type change_info;
  if continues : bool then
    match change_type with
    | Certify => Ok (update_initial_certified_epoch s (epoch change_info) (negb was_certified))
    | Delete _ => Ok (maybe_unset_initial_certified_epoch s)
    | Register | Extend => Ok s
    end
  else Ok s.

Definition deletable_expired (s : ValidBlobInfo) (was_certified : bool) : total ValidBlobInfo :=
  s ← update_deletable_counters_and_end_epochs s was_certified;
  Ok (maybe_unset_initial_certified_epoch s).

Definition permanent_expired (s : ValidBlobInfo) (was_certified : bool) : total ValidBlobInfo :=
  t ← perm_decrement (permanent_total s);
  c ← (if was_certified then perm_decrement (permanent_certified s)
       else Ok (permanent_certified s));
  Ok (maybe_unset_initial_certified_epoch (set_permanent t c s)).

(** ** [Mergeable for BlobInfoV1] *)

Definition merge_with_v1 (b : BlobInfo) (operand : BlobInfoMergeOperand) : total BlobInfo :=
  match b, operand with
  | Invalid _ _, _ => Ok b
  | _, MarkInvalid epoch status_event => Ok (Invalid epoch status_event)
  | Valid v, MarkMetadataStored stored => Ok (Valid (set_metadata_stored stored v))
  | Valid v, ChangeStatus change_type change_info =>
    v ← update_status v change_type change_info; Ok (Valid v)
  | Valid v, DeletableExpired was_certified =>
    v ← deletable_expired v was_certified; Ok (Valid v)
  | Valid v, PermanentExpired was_certified =>
    v ← permanent_expired v was_certified; Ok (Valid v)
  | _, (PooledBlobChangeStatus _ _ | PoolExpired _ _) => Panic
  end.

Definition merge_new_v1 (operand : BlobInfoMergeOperand) : total (option BlobInfo) :=
  match operand with
  | ChangeStatus Register change_info =>
    Ok (Some (Valid (
      if deletable change_info
      then set_registered 1 (Some (end_epoch change_info)) default_info
      else set_permanent
        (Some (new_first (end_epoch change_info) (status_event change_info))) None
        default_info)))
  | MarkInvalid epoch status_event => Ok (Some (Invalid epoch status_event))
  | MarkMetadataStored stored => Ok (Some (Valid (set_metadata_stored stored default_info)))
  | ChangeStatus _ _ | DeletableExpired _ | PermanentExpired _ => debug_assert false;; Ok None
  | PooledBlobChangeStatus _ _ | PoolExpired _ _ => Panic
  end.

End updates.

(** ** [CertifiedBlobInfoApi] and [BlobInfoApi] for [BlobInfoV1] *)

Definition is_certified (b : BlobInfo) (current_epoch : Epoch) : bool :=
  match b with Valid v => valid_is_certified v current_epoch | Invalid _ _ => false end.

Definition get_initial_certified_epoch (b : BlobInfo) : option Epoch :=
  match b with Valid v => initial_certified_epoch v | Invalid _ _ => None end.

Definition get_is_metadata_stored (b : BlobInfo) : bool :=
  match b with Valid v => is_metadata_stored v | Invalid _ _ => false end.

Definition is_registered (b : BlobInfo) (current_epoch : Epoch) : bool :=
  match b with
  | Invalid _ _ => false
  | Valid v =>
    is_some_and (permanent_total v) (fun p => current_epoch <? p_end_epoch p) ||
    ((0 <? count_deletable_total v) &&
     is_some_and (latest_seen_deletable_registered_end_epoch v) (fun e => current_epoch <? e))
  end.

Definition can_blob_info_be_deleted (b : BlobInfo) (current_epoch : Epoch) : bool :=
  match b with
  | Invalid _ _ => false
  | Valid v =>
    (count_deletable_total v =? 0) && is_none (permanent_total v) &&
    negb (is_registered b current_epoch)
  end.

Definition invalidation_event (b : BlobInfo) : option EventID :=
  match b with Invalid _ event => Some event | Valid _ => None end.

Definition to_blob_status (b : BlobInfo) (current_epoch : Epoch) : BlobStatus :=
  match b with
  | Invalid _ event => InvalidStatus event
  | Valid v => valid_to_blob_status v current_epoch
  end.

End V1.
