(* ===== verification/BlobInfoV2.v ===== *)
(** * Aggregate blob info, version 2, and the versioned wrapper

    Models blob_info/blob_info_v2.rs (regular and storage-pool blobs of a blob
    ID) and the enum [BlobInfo] of blob_info.rs, which keeps version 1 until
    the first storage-pool operand. *)

From S2P Require Import Prelude Core PermBlobInfo BlobInfoV1.

Module V2.

Record ValidBlobInfo := {
  is_metadata_stored : bool;
  initial_certified_epoch : option Epoch;
  count_deletable_total : Z;
  count_deletable_certified : Z;
  permanent_total : option PermanentBlobInfo;
  permanent_certified : option PermanentBlobInfo;
  count_pooled_refs_total : Z;
  count_pooled_refs_certified : Z;
}.

Definition default_info : ValidBlobInfo :=
  {| is_metadata_stored := false;
     initial_certified_epoch := None;
     count_deletable_total := 0;
     count_deletable_certified := 0;
     permanent_total := None;
     permanent_certified := None;
     count_pooled_refs_total := 0;
     count_pooled_refs_certified := 0 |}.

Inductive BlobInfo := Invalid (epoch : Epoch) (event : EventID) | Valid (v : ValidBlobInfo).

(** [From<ValidBlobInfoV1>] and [From<BlobInfoV1>]. *)
Definition from_valid_v1 (v : V1.ValidBlobInfo) : ValidBlobInfo :=
  {| is_metadata_stored := V1.is_metadata_stored v;
     initial_certified_epoch := V1.initial_certified_epoch v;
     count_deletable_total := V1.count_deletable_total v;
     count_deletable_certified := V1.count_deletable_certified v;
     permanent_total := V1.permanent_total v;
     permanent_certified := V1.permanent_certified v;
     count_pooled_refs_total := 0;
     count_pooled_refs_certified := 0 |}.

Definition from_v1 (b : V1.BlobInfo) : BlobInfo :=
  match b with
  | V1.Invalid epoch event => Invalid epoch event
  | V1.Valid v => Valid (from_valid_v1 v)
  end.

(** Assignments to single fields (and to pairs updated together). *)
Definition set_metadata_stored (b : bool) (s : ValidBlobInfo) : ValidBlobInfo :=
  {| is_metadata_stored := b;
     initial_certified_epoch := initial_certified_epoch s;
     count_deletable_total := count_deletable_total s;
     count_deletable_certified := count_deletable_certified s;
     permanent_total := permanent_total s;
     permanent_certified := permanent_certified s;
     count_pooled_refs_total := count_pooled_refs_total s;
     count_pooled_refs_certified := count_pooled_refs_certified s |}.

Definition set_initial (i : option Epoch) (s : ValidBlobInfo) : ValidBlobInfo :=
  {| is_metadata_stored := is_metadata_stored s;
     initial_certified_epoch := i;
     count_deletable_total := count_deletable_total s;
     count_deletable_certified := count_deletable_certified s;
     permanent_total := permanent_total s;
     permanent_certified := permanent_certified s;
     count_pooled_refs_total := count_pooled_refs_total s;
     count_pooled_refs_certified := count_pooled_refs_certified s |}.

Definition set_deletable (total certified : Z) (s : ValidBlobInfo) : ValidBlobInfo :=
  {| is_metadata_stored := is_metadata_stored s;
     initial_certified_epoch := initial_certified_epoch s;
     count_deletable_total := total;
     count_deletable_certified := certified;
     permanent_total := permanent_total s;
     permanent_certified := permanent_certified s;
     count_pooled_refs_total := count_pooled_refs_total s;
     count_pooled_refs_certified := count_pooled_refs_certified s |}.

Definition set_permanent (total certified : option PermanentBlobInfo) (s : ValidBlobInfo) :
    ValidBlobInfo :=
  {| is_metadata_stored := is_metadata_stored s;
     initial_certified_epoch := initial_certified_epoch s;
     count_deletable_total := count_deletable_total s;
     count_deletable_certified := count_deletable_certified s;
     permanent_total := total;
     permanent_certified := certified;
     count_pooled_refs_total := count_pooled_refs_total s;
     count_pooled_refs_certified := count_pooled_refs_certified s |}.

Definition set_pooled (total certified : Z) (s : ValidBlobInfo) : ValidBlobInfo :=
  {| is_metadata_stored := is_metadata_stored s;
     initial_certified_epoch := initial_certified_epoch s;
     count_deletable_total := count_deletable_total s;
     count_deletable_certified := count_deletable_certified s;
     permanent_total := permanent_total s;
     permanent_certified := permanent_certified s;
     count_pooled_refs_total := total;
     count_pooled_refs_certified := certified |}.

(** ** Queries *)

Definition valid_is_certified (s : ValidBlobInfo) (current_epoch : Epoch) : bool :=
  let exists_certified_permanent_blob :=
    is_some_and (permanent_certified s) (fun p => current_epoch <? p_end_epoch p) in
  is_some_and (initial_certified_epoch s) (fun e => e <=? current_epoch) &&
  (exists_certified_permanent_blob || (0 <? count_deletable_certified s)
   || (0 <? count_pooled_refs_certified s)).

Definition valid_to_blob_status (s : ValidBlobInfo) (current_epoch : Epoch) : BlobStatus :=
  let initial := initial_certified_epoch s in
  let deletable_counts := mk_counts
    (saturating_add 32 (count_deletable_total s) (count_pooled_refs_total s))
    (saturating_add 32 (count_deletable_certified s) (count_pooled_refs_certified s)) in
  let otherwise :=
    if decide (deletable_counts = mk_counts 0 0) then Nonexistent
    else DeletableStatus initial deletable_counts in
  let registered :=
    match permanent_total s with
    | Some p =>
      if current_epoch <? p_end_epoch p
      then PermanentStatus (p_end_epoch p) false (p_event p) deletable_counts initial
      else otherwise
    | None => otherwise
    end in
  match permanent_certified s with
  | Some p =>
    if current_epoch <? p_end_epoch p
    then PermanentStatus (p_end_epoch p) true (p_event p) deletable_counts initial
    else registered
  | None => registered
  end.

Definition has_no_objects (s : ValidBlobInfo) : bool :=
  (count_deletable_total s =? 0) && (count_deletable_certified s =? 0) &&
  is_none (permanent_total s) && is_none (permanent_certified s) &&
  is_none (initial_certified_epoch s) && (count_pooled_refs_total s =? 0).

Definition check_invariants (s : ValidBlobInfo) : bool :=
  let has_regular_certified :=
    (0 <? count_deletable_certified s) || is_some (permanent_certified s) in
  let has_pool_certified := 0 <? count_pooled_refs_certified s in
  (count_deletable_certified s <=? count_deletable_total s) &&
  match initial_certified_epoch s with
  | None => negb has_regular_certified && negb has_pool_certified
  | Some _ => has_regular_certified || has_pool_certified
  end &&
  match permanent_total s, permanent_certified s with
  | None, Some _ => false
  | Some t, Some c => (p_end_epoch c <=? p_end_epoch t) && (p_count c <=? p_count t)
  | _, _ => true
  end &&
  (count_pooled_refs_certified s <=? count_pooled_refs_total s).

(** ** Updates *)

Definition update_initial_certified_epoch (s : ValidBlobInfo) (new_certified_epoch : Epoch)
    (force : bool) : ValidBlobInfo :=
  if force || is_none_or (initial_certified_epoch s) (fun e => new_certified_epoch <? e)
  then set_initial (Some new_certified_epoch) s else s.

Definition maybe_unset_initial_certified_epoch (s : ValidBlobInfo) : ValidBlobInfo :=
  if (count_pooled_refs_certified s =? 0) && (count_deletable_certified s =? 0)
     && is_none (permanent_certified s)
  then set_initial None s else s.

Definition update_deletable_counters (s : ValidBlobInfo) (was_certified : bool) : ValidBlobInfo :=
  set_deletable (saturating_sub (count_deletable_total s) 1)
    (if was_certified then saturating_sub (count_deletable_certified s) 1
     else count_deletable_certified s) s.

Definition deletable_expired (s : ValidBlobInfo) (was_certified : bool) : ValidBlobInfo :=
  maybe_unset_initial_certified_epoch (update_deletable_counters s was_certified).

Definition permanent_expired (s : ValidBlobInfo) (was_certified : bool) : total ValidBlobInfo :=
  t ← perm_decrement (permanent_total s);
  c ← (if was_certified then perm_decrement (permanent_certified s)
       else Ok (permanent_certified s));
  Ok (maybe_unset_initial_certified_epoch (set_permanent t c s)).

Definition pool_register (s : ValidBlobInfo) : ValidBlobInfo :=
  set_pooled (saturating_add 32 (count_pooled_refs_total s) 1) (count_pooled_refs_certified s) s.

Definition pool_certify (s : ValidBlobInfo) (epoch : Epoch) : ValidBlobInfo :=
  let was_certified := valid_is_certified s epoch in
  if count_pooled_refs_total s <=? count_pooled_refs_certified s then s
  else
    let s := set_pooled (count_pooled_refs_total s)
      (saturating_add 32 (count_pooled_refs_certified s) 1) s in
    update_initial_certified_epoch s epoch (negb was_certified).

Definition pool_delete (s : ValidBlobInfo) (was_certified : bool) : ValidBlobInfo :=
  if count_pooled_refs_total s =? 0 then s
  else
    maybe_unset_initial_certified_epoch
      (set_pooled (saturating_sub (count_pooled_refs_total s) 1)
        (if was_certified then saturating_sub (count_pooled_refs_certified s) 1
         else count_pooled_refs_certified s) s).

Section updates.
Context `{Build}.

Definition update_status_objects (s : ValidBlobInfo) (change_type : BlobStatusChangeType)
    (change_info : BlobStatusChangeInfo) : total (ValidBlobInfo * bool) :=
  if deletable change_info then
    match change_type with
    | Register =>
      n ← arith 32 (count_deletable_total s + 1);
      Ok (set_deletable n (count_deletable_certified s) s, true)
    | Certify =>
      if count_deletable_total s <=? count_deletable_certified s then Ok (s, false)
      else
        n ← arith 32 (count_deletable_certified s + 1);
        Ok (set_deletable (count_deletable_total s) n s, true)
    | Extend => Ok (s, true)
    | Delete was_certified => Ok (update_deletable_counters s was_certified, true)
    end
  else
    match change_type with
    | Register =>
      p ← perm_register (permanent_total s) change_info;
      Ok (set_permanent p (permanent_certified s) s, true)
    | Certify =>
      '(p, updated) ← perm_certify (permanent_total s) (permanent_certified s) change_info;
      Ok (set_permanent (permanent_total s) p s, updated)
    | Extend =>
      t ← perm_extend (permanent_total s) change_info;
      c ← perm_extend (permanent_certified s) change_info;
      Ok (set_permanent t c s, true)
    | Delete _ => Ok (s, false)
    end.

Definition update_status (s : ValidBlobInfo) (change_type : BlobStatusChangeType)
    (change_info : BlobStatusChangeInfo) : total ValidBlobInfo :=
  let was_certified := valid_is_certified s (epoch change_info) in
  '(s, continues) ← update_status_objects s change_type change_info;
  if continues : bool then
    match change_type with
    | Certify => Ok (update_initial_certified_epoch s (epoch change_info) (negb was_certified))
    | Delete _ => Ok (maybe_unset_initial_certified_epoch s)
    | Register | Extend => Ok s
    end
  else Ok s.

(** ** [Mergeable for BlobInfoV2] *)

Definition merge_with_v2 (b : BlobInfo) (operand : BlobInfoMergeOperand) : total BlobInfo :=
  match b, operand with
  | Invalid _ _, _ => Ok b
  | _, MarkInvalid epoch status_event => Ok (Invalid epoch status_event)
  | Valid v, MarkMetadataStored stored => Ok (Valid (set_metadata_stored stored v))
  | Valid v, ChangeStatus change_type change_info =>
    v ← update_status v change_type change_info; Ok (Valid v)
  | Valid v, DeletableExpired was_certified => Ok (Valid (deletable_expired v was_certified))
  | Valid v, PermanentExpired was_certified =>
    v ← permanent_expired v was_certified; Ok (Valid v)
  | Valid v, PooledBlobChangeStatus change_type change_info =>
    match change_type with
    | Register => Ok (Valid (pool_register v))
    | Certify => Ok (Valid (pool_certify v (pc_epoch change_info)))
    | Extend => Ok (Valid v)
    | Delete was_certified => Ok (Valid (pool_delete v was_certified))
    end
  | Valid v, PoolExpired _ was_certified => Ok (Valid (pool_delete v was_certified))
  end.

Definition merge_new_v2 (operand : BlobInfoMergeOperand) : total (option BlobInfo) :=
  match operand with
  | PooledBlobChangeStatus Register _ => Ok (Some (Valid (pool_register default_info)))
  | MarkInvalid epoch status_event => Ok (Some (Invalid epoch status_event))
  | MarkMetadataStored stored => Ok (Some (Valid (set_metadata_stored stored default_info)))
  | ChangeStatus Register change_info =>
    Ok (Some (Valid (
      if deletable change_info then set_deletable 1 0 default_info
      else set_permanent
        (Some (new_first (end_epoch change_info) (status_event change_info))) None
        default_info)))
  | _ => debug_assert false;; Ok None
  end.

End updates.

(** ** [CertifiedBlobInfoApi] and [BlobInfoApi] for [BlobInfoV2] *)

Definition is_certified (b : BlobInfo) (current_epoch : Epoch) : bool :=
  match b with Valid v => valid_is_certified v current_epoch | Invalid _ _ => false end.

Definition get_initial_certified_epoch (b : BlobInfo) : option Epoch :=
  match b with Valid v => initial_certified_epoch v | Invalid _ _ => None end.

Definition get_is_metadata_stored (b : BlobInfo) : bool :=
  match b with Valid v => is_metadata_stored v | Invalid _ _ => false end.

Definition is_registered (b : BlobInfo) (current_epoch : Epoch) : bool :=
  match b with
  | Invalid _ _ => false
  | Valid v =>
    is_some_and (permanent_total v) (fun p => current_epoch <? p_end_epoch p)
    || (0 <? count_deletable_total v) || (0 <? count_pooled_refs_total v)
  end.

Definition can_blob_info_be_deleted (b : BlobInfo) (current_epoch : Epoch) : bool :=
  match b with
  | Invalid _ _ => false
  | Valid v =>
    (count_deletable_total v =? 0) && is_none (permanent_total v) &&
    (count_pooled_refs_total v =? 0) && negb (is_registered b current_epoch)
  end.

Definition invalidation_event (b : BlobInfo) : option EventID :=
  match b with Invalid _ event => Some event | Valid _ => None end.

Definition to_blob_status (b : BlobInfo) (current_epoch : Epoch) : BlobStatus :=
  match b with
  | Invalid _ event => InvalidStatus event
  | Valid v => valid_to_blob_status v current_epoch
  end.

End V2.

(** ** The versioned [BlobInfo] *)

Inductive BlobInfo := InfoV1 (b : V1.BlobInfo) | InfoV2 (b : V2.BlobInfo).

(** [BlobInfo::merge_with] and [BlobInfo::merge_new]. *)
Definition blob_info_merge_with `{Build} (b : BlobInfo) (operand : BlobInfoMergeOperand) :
    total BlobInfo :=
  match b with
  | InfoV1 v1 =>
    match operand with
    | PooledBlobChangeStatus _ _ | PoolExpired _ _ =>
      v2 ← V2.merge_with_v2 (V2.from_v1 v1) operand; Ok (InfoV2 v2)
    | MarkMetadataStored _ | MarkInvalid _ _ | ChangeStatus _ _
    | DeletableExpired _ | PermanentExpired _ =>
      v1 ← V1.merge_with_v1 v1 operand; Ok (InfoV1 v1)
    end
  | InfoV2 v2 => v2 ← V2.merge_with_v2 v2 operand; Ok (InfoV2 v2)
  end.

Definition blob_info_merge_new `{Build} (operand : BlobInfoMergeOperand) :
    total (option BlobInfo) :=
  match operand with
  | PooledBlobChangeStatus _ _ => o ← V2.merge_new_v2 operand; Ok (option_map InfoV2 o)
  | PoolExpired _ _ => Ok None
  | MarkMetadataStored _ | MarkInvalid _ _ | ChangeStatus _ _
  | DeletableExpired _ | PermanentExpired _ =>
    o ← V1.merge_new_v1 operand; Ok (option_map InfoV1 o)
  end.

#[export] Instance blob_info_mergeable `{Build} : Mergeable BlobInfo BlobInfoMergeOperand :=
  {| merge_with := blob_info_merge_with; merge_new := blob_info_merge_new |}.

(** [#[enum_dispatch(CertifiedBlobInfoApi)]], [#[enum_dispatch(BlobInfoApi)]]. *)
Definition is_certified (b : BlobInfo) (current_epoch : Epoch) : bool :=
  match b with
  | InfoV1 v => V1.is_certified v current_epoch
  | InfoV2 v => V2.is_certified v current_epoch
  end.

Definition initial_certified_epoch (b : BlobInfo) : option Epoch :=
  match b with
  | InfoV1 v => V1.get_initial_certified_epoch v
  | InfoV2 v => V2.get_initial_certified_epoch v
  end.

Definition is_metadata_stored (b : BlobInfo) : bool :=
  match b with
  | InfoV1 v => V1.get_is_metadata_stored v
  | InfoV2 v => V2.get_is_metadata_stored v
  end.

Definition is_registered (b : BlobInfo) (current_epoch : Epoch) : bool :=
  match b with
  | InfoV1 v => V1.is_registered v current_epoch
  | InfoV2 v => V2.is_registered v current_epoch
  end.

(** [BlobInfoApi::can_data_be_deleted], the provided method. *)
Definition can_data_be_deleted (b : BlobInfo) (current_epoch : Epoch) : bool :=
  negb (is_registered b current_epoch).

Definition can_blob_info_be_deleted (b : BlobInfo) (current_epoch : Epoch) : bool :=
  match b with
  | InfoV1 v => V1.can_blob_info_be_deleted v current_epoch
  | InfoV2 v => V2.can_blob_info_be_deleted v current_epoch
  end.

Definition invalidation_event (b : BlobInfo) : option EventID :=
  match b with
  | InfoV1 v => V1.invalidation_event v
  | InfoV2 v => V2.invalidation_event v
  end.

Definition to_blob_status (b : BlobInfo) (current_epoch : Epoch) : BlobStatus :=
  match b with
  | InfoV1 v => V1.to_blob_status v current_epoch
  | InfoV2 v => V2.to_blob_status v current_epoch
  end.
