(* ===== verification/BlobInfoTable.v ===== *)
(** * The blob info table

    Models [BlobInfoTable] of blob_info.rs: the aggregate, per-object, pooled
    and storage-pool column families and the index of the latest handled
    event, with every operation that changes them.  The column families are
    finite maps; a write batch is applied in order, and a merge operand is
    applied when it is written (the database applies it when the key is next
    read or compacted).  Database errors are not modelled. *)

From S2P Require Import Prelude Core PermBlobInfo BlobInfoV1 BlobInfoV2.

(** ** Events (walrus-sui, types/events.rs) *)

Record BlobRegistered := {
  br_epoch : Epoch;
  br_blob_id : BlobId;
  br_size : Z;
  br_encoding_type : EncodingType;
  br_end_epoch : Epoch;
  br_deletable : bool;
  br_object_id : ObjectID;
  br_event_id : EventID;
}.

Record BlobCertified := {
  bc_epoch : Epoch;
  bc_blob_id : BlobId;
  bc_end_epoch : Epoch;
  bc_deletable : bool;
  bc_object_id : ObjectID;
  bc_is_extension : bool;
  bc_event_id : EventID;
}.

Record BlobDeleted := {
  bd_epoch : Epoch;
  bd_blob_id : BlobId;
  bd_end_epoch : Epoch;
  bd_object_id : ObjectID;
  bd_was_certified : bool;
  bd_event_id : EventID;
}.

Record InvalidBlobId := {
  ib_epoch : Epoch;
  ib_blob_id : BlobId;
  ib_event_id : EventID;
}.

Record DenyListBlobDeleted := {
  dl_epoch : Epoch;
  dl_blob_id : BlobId;
  dl_event_id : EventID;
}.

Record PooledBlobRegistered := {
  pr_epoch : Epoch;
  pr_blob_id : BlobId;
  pr_unencoded_size : Z;
  pr_encoding_type : EncodingType;
  pr_deletable : bool;
  pr_object_id : ObjectID;
  pr_storage_pool_id : ObjectID;
  pr_event_id : EventID;
}.

Record PooledBlobCertified := {
  pcf_epoch : Epoch;
  pcf_blob_id : BlobId;
  pcf_deletable : bool;
  pcf_object_id : ObjectID;
  pcf_storage_pool_id : ObjectID;
  pcf_event_id : EventID;
}.

Record PooledBlobDeleted := {
  pd_epoch : Epoch;
  pd_blob_id : BlobId;
  pd_object_id : ObjectID;
  pd_was_certified : bool;
  pd_storage_pool_id : ObjectID;
  pd_event_id : EventID;
}.

Inductive BlobEvent :=
| EvRegistered (e : BlobRegistered)
| EvCertified (e : BlobCertified)
| EvDeleted (e : BlobDeleted)
| EvInvalidBlobID (e : InvalidBlobId)
| EvDenyListBlobDeleted (e : DenyListBlobDeleted)
| EvPooledBlobRegistered (e : PooledBlobRegistered)
| EvPooledBlobCertified (e : PooledBlobCertified)
| EvPooledBlobDeleted (e : PooledBlobDeleted).

Definition event_blob_id (event : BlobEvent) : BlobId :=
  match event with
  | EvRegistered e => br_blob_id e
  | EvCertified e => bc_blob_id e
  | EvDeleted e => bd_blob_id e
  | EvInvalidBlobID e => ib_blob_id e
  | EvDenyListBlobDeleted e => dl_blob_id e
  | EvPooledBlobRegistered e => pr_blob_id e
  | EvPooledBlobCertified e => pcf_blob_id e
  | EvPooledBlobDeleted e => pd_blob_id e
  end.

Inductive StoragePoolEvent :=
| StoragePoolCreated (storage_pool_id : ObjectID) (start_epoch end_epoch : Epoch)
| StoragePoolExtended (storage_pool_id : ObjectID) (new_end_epoch : Epoch).

(** [ChangeTypeAndInfo] and [PooledChangeTypeAndInfo] for the event types. *)
Definition registered_change (e : BlobRegistered) : BlobStatusChangeType * BlobStatusChangeInfo :=
  (Register, mk_change (br_blob_id e) (br_deletable e) (br_epoch e) (br_end_epoch e)
    (br_event_id e)).

Definition certified_change (e : BlobCertified) : BlobStatusChangeType * BlobStatusChangeInfo :=
  (if bc_is_extension e then Extend else Certify,
   mk_change (bc_blob_id e) (bc_deletable e) (bc_epoch e) (bc_end_epoch e) (bc_event_id e)).

Definition deleted_change (e : BlobDeleted) : BlobStatusChangeType * BlobStatusChangeInfo :=
  (Delete (bd_was_certified e),
   mk_change (bd_blob_id e) true (bd_epoch e) (bd_end_epoch e) (bd_event_id e)).

Definition pooled_registered_change (e : PooledBlobRegistered) :
    BlobStatusChangeType * PooledBlobChangeInfo :=
  (Register, mk_pooled_change (pr_blob_id e) (pr_epoch e) (pr_storage_pool_id e) (pr_event_id e)).

Definition pooled_certified_change (e : PooledBlobCertified) :
    BlobStatusChangeType * PooledBlobChangeInfo :=
  (Certify,
   mk_pooled_change (pcf_blob_id e) (pcf_epoch e) (pcf_storage_pool_id e) (pcf_event_id e)).

Definition pooled_deleted_change (e : PooledBlobDeleted) :
    BlobStatusChangeType * PooledBlobChangeInfo :=
  (Delete (pd_was_certified e),
   mk_pooled_change (pd_blob_id e) (pd_epoch e) (pd_storage_pool_id e) (pd_event_id e)).

(** [From<&BlobEvent> for BlobInfoMergeOperand]; the deny-list event is a
    [todo!()]. *)
Definition event_operand (event : BlobEvent) : total BlobInfoMergeOperand :=
  match event with
  | EvRegistered e => Ok (uncurry ChangeStatus (registered_change e))
  | EvCertified e => Ok (uncurry ChangeStatus (certified_change e))
  | EvDeleted e => Ok (uncurry ChangeStatus (deleted_change e))
  | EvInvalidBlobID e => Ok (MarkInvalid (ib_epoch e) (ib_event_id e))
  | EvDenyListBlobDeleted _ => Panic
  | EvPooledBlobRegistered e => Ok (uncurry PooledBlobChangeStatus (pooled_registered_change e))
  | EvPooledBlobCertified e => Ok (uncurry PooledBlobChangeStatus (pooled_certified_change e))
  | EvPooledBlobDeleted e => Ok (uncurry PooledBlobChangeStatus (pooled_deleted_change e))
  end.

(** ** State *)

Record BlobInfoTable := {
  aggregate_blob_info : gmap BlobId BlobInfo;
  per_object_blob_info : gmap ObjectID PerObjectBlobInfo;
  per_object_pooled_blob_info : gmap ObjectID PerObjectPooledBlobInfo;
  storage_pool_info : gmap ObjectID StoragePoolInfo;
  latest_handled_event_index : option Z;
}.

Definition empty_table : BlobInfoTable :=
  {| aggregate_blob_info := ∅;
     per_object_blob_info := ∅;
     per_object_pooled_blob_info := ∅;
     storage_pool_info := ∅;
     latest_handled_event_index := None |}.

(** [BlobInfoTable::clear]. *)
Definition clear (t : BlobInfoTable) : BlobInfoTable := empty_table.

Definition set_aggregate (m : gmap BlobId BlobInfo) (t : BlobInfoTable) : BlobInfoTable :=
  {| aggregate_blob_info := m;
     per_object_blob_info := per_object_blob_info t;
     per_object_pooled_blob_info := per_object_pooled_blob_info t;
     storage_pool_info := storage_pool_info t;
     latest_handled_event_index := latest_handled_event_index t |}.

Definition set_per_object (m : gmap ObjectID PerObjectBlobInfo) (t : BlobInfoTable) :
    BlobInfoTable :=
  {| aggregate_blob_info := aggregate_blob_info t;
     per_object_blob_info := m;
     per_object_pooled_blob_info := per_object_pooled_blob_info t;
     storage_pool_info := storage_pool_info t;
     latest_handled_event_index := latest_handled_event_index t |}.

Definition set_pooled_objects (m : gmap ObjectID PerObjectPooledBlobInfo) (t : BlobInfoTable) :
    BlobInfoTable :=
  {| aggregate_blob_info := aggregate_blob_info t;
     per_object_blob_info := per_object_blob_info t;
     per_object_pooled_blob_info := m;
     storage_pool_info := storage_pool_info t;
     latest_handled_event_index := latest_handled_event_index t |}.

Definition set_pools (m : gmap ObjectID StoragePoolInfo) (t : BlobInfoTable) : BlobInfoTable :=
  {| aggregate_blob_info := aggregate_blob_info t;
     per_object_blob_info := per_object_blob_info t;
     per_object_pooled_blob_info := per_object_pooled_blob_info t;
     storage_pool_info := m;
     latest_handled_event_index := latest_handled_event_index t |}.

Definition set_event_index (i : Z) (t : BlobInfoTable) : BlobInfoTable :=
  {| aggregate_blob_info := aggregate_blob_info t;
     per_object_blob_info := per_object_blob_info t;
     per_object_pooled_blob_info := per_object_pooled_blob_info t;
     storage_pool_info := storage_pool_info t;
     latest_handled_event_index := Some i |}.

Definition has_event_been_handled (latest_handled_index : option Z) (event_index : Z) : bool :=
  is_some_and latest_handled_index (fun i => event_index <=? i).

Definition get_latest_handled_event_index (t : BlobInfoTable) : Z :=
  default 0 (latest_handled_event_index t).

(** One merge operand written for a key; a merge without result leaves the key
    without a value. *)
Definition merge_entry `{Countable K, Mergeable T Op} (m : gmap K T) (k : K) (operand : Op) :
    total (gmap K T) :=
  v ← merge (m !! k) operand;
  Ok (match v with Some v => <[k := v]> m | None => m end).

Section table.
Context `{Build}.

Definition merge_aggregate (t : BlobInfoTable) (blob_id : BlobId)
    (operand : BlobInfoMergeOperand) : total BlobInfoTable :=
  m ← merge_entry (aggregate_blob_info t) blob_id operand;
  Ok (set_aggregate m t).

Definition merge_object (t : BlobInfoTable) (object_id : ObjectID)
    (change : BlobStatusChangeType * BlobStatusChangeInfo) : total BlobInfoTable :=
  m ← merge_entry (per_object_blob_info t) object_id (uncurry mk_object_operand change);
  Ok (set_per_object m t).

Definition merge_pooled_object (t : BlobInfoTable) (object_id : ObjectID)
    (change : BlobStatusChangeType * PooledBlobChangeInfo) : total BlobInfoTable :=
  m ← merge_entry (per_object_pooled_blob_info t) object_id (uncurry mk_pooled_operand change);
  Ok (set_pooled_objects m t).

Definition update_per_object_blob_info (t : BlobInfoTable) (event : BlobEvent) :
    total BlobInfoTable :=
  match event with
  | EvRegistered e => merge_object t (br_object_id e) (registered_change e)
  | EvCertified e => merge_object t (bc_object_id e) (certified_change e)
  | EvDeleted e => Ok (set_per_object (delete (bd_object_id e) (per_object_blob_info t)) t)
  | EvPooledBlobRegistered e =>
    merge_pooled_object t (pr_object_id e) (pooled_registered_change e)
  | EvPooledBlobCertified e =>
    merge_pooled_object t (pcf_object_id e) (pooled_certified_change e)
  | EvPooledBlobDeleted e =>
    Ok (set_pooled_objects (delete (pd_object_id e) (per_object_pooled_blob_info t)) t)
  | EvInvalidBlobID _ | EvDenyListBlobDeleted _ => Ok t
  end.

(** [BlobInfoTable::update_blob_info]. *)
Definition update_blob_info (t : BlobInfoTable) (event_index : Z) (event : BlobEvent) :
    total BlobInfoTable :=
  if has_event_been_handled (latest_handled_event_index t) event_index then Ok t
  else
    operation ← event_operand event;
    t ← merge_aggregate t (event_blob_id event) operation;
    t ← update_per_object_blob_info t event;
    Ok (set_event_index event_index t).

(** The write batch for the extension of a blob the table does not know:
    a registration and a certification with the data of the extension. *)
Definition extension_change (e : BlobCertified) : BlobStatusChangeInfo :=
  mk_change (bc_blob_id e) (bc_deletable e) (bc_epoch e) (bc_end_epoch e) (bc_event_id e).

Definition record_extension (t : BlobInfoTable) (e : BlobCertified)
    (change_info : BlobStatusChangeInfo) : total BlobInfoTable :=
  t ← merge_aggregate t (bc_blob_id e) (ChangeStatus Register change_info);
  t ← merge_aggregate t (bc_blob_id e) (ChangeStatus Certify change_info);
  t ← merge_object t (bc_object_id e) (Register, change_info);
  merge_object t (bc_object_id e) (Certify, change_info).

(** [BlobInfoTable::update_blob_info_during_recovery_with_incomplete_history]. *)
Definition update_blob_info_during_recovery (t : BlobInfoTable) (event_index : Z)
    (event : BlobEvent) (epoch_at_start : Epoch) : total BlobInfoTable :=
  let expired :=
    match event with
    | EvRegistered e => br_end_epoch e <=? epoch_at_start
    | EvCertified e => bc_end_epoch e <=? epoch_at_start
    | EvDeleted e => bd_end_epoch e <=? epoch_at_start
    | _ => false
    end in
  if expired then Ok t
  else
    match event with
    | EvCertified e =>
      if bc_is_extension e then
        match per_object_blob_info t !! bc_object_id e with
        | Some o =>
          assert (object_is_registered o epoch_at_start);;
          update_blob_info t event_index event
        | None =>
          if has_event_been_handled (latest_handled_event_index t) event_index then Ok t
          else
            t ← record_extension t e (extension_change e);
            Ok (set_event_index event_index t)
        end
      else update_blob_info t event_index event
    | _ => update_blob_info t event_index event
    end.

Definition table_set_metadata_stored (t : BlobInfoTable) (blob_id : BlobId)
    (metadata_stored : bool) : total BlobInfoTable :=
  merge_aggregate t blob_id (MarkMetadataStored metadata_stored).

Definition delete_in_transaction (t : BlobInfoTable) (blob_id : BlobId) : BlobInfoTable :=
  set_aggregate (delete blob_id (aggregate_blob_info t)) t.

(** [BlobInfoTable::update_storage_pool_info]. *)
Definition update_storage_pool_info (t : BlobInfoTable) (event_index : Z)
    (event : StoragePoolEvent) : total BlobInfoTable :=
  if has_event_been_handled (latest_handled_event_index t) event_index then Ok t
  else
    let '(storage_pool_id, operand) :=
      match event with
      | StoragePoolCreated id start_epoch end_epoch => (id, CreatePool start_epoch end_epoch)
      | StoragePoolExtended id new_end_epoch => (id, ExtendPool new_end_epoch)
      end in
    m ← merge_entry (storage_pool_info t) storage_pool_id operand;
    Ok (set_event_index event_index (set_pools m t)).

(** ** Garbage collection *)

(** [process_maybe_expired_blob_object]; the flag is the returned boolean. *)
Definition process_maybe_expired_blob_object (t : BlobInfoTable) (object_id : ObjectID)
    (o : PerObjectBlobInfo) (current_epoch : Epoch) : total (BlobInfoTable * bool) :=
  if object_is_registered o current_epoch then Ok (t, false)
  else
    let was_certified := is_some (o_certified_epoch o) in
    let t := set_per_object (delete object_id (per_object_blob_info t)) t in
    if negb (o_deleted o) then
      t ← merge_aggregate t (o_blob_id o)
        (if o_deletable o then DeletableExpired was_certified
         else PermanentExpired was_certified);
      Ok (t, true)
    else Ok (t, true).

Definition pool_is_expired (t : BlobInfoTable) (current_epoch : Epoch) (pool_id : ObjectID) :
    bool :=
  match storage_pool_info t !! pool_id with
  | None => true
  | Some info => pool_end_epoch info <=? current_epoch
  end.

(** [process_maybe_expired_pooled_blob_object] with its cache of expired
    pools. *)
Definition process_maybe_expired_pooled_blob_object (s : BlobInfoTable * gmap ObjectID bool)
    (object_id : ObjectID) (o : PerObjectPooledBlobInfo) (current_epoch : Epoch) :
    total ((BlobInfoTable * gmap ObjectID bool) * bool) :=
  let '(t, pool_expired_cache) := s in
  let '(is_expired, cache) :=
    match pool_expired_cache !! po_storage_pool_id o with
    | Some cached => (cached, pool_expired_cache)
    | None =>
      let expired := pool_is_expired t current_epoch (po_storage_pool_id o) in
      (expired, <[po_storage_pool_id o := expired]> pool_expired_cache)
    end in
  if is_expired : bool then
    let t := set_pooled_objects (delete object_id (per_object_pooled_blob_info t)) t in
    t ← merge_aggregate t (po_blob_id o)
      (PoolExpired (po_storage_pool_id o) (is_some (po_certified_epoch o)));
    Ok ((t, cache), true)
  else Ok ((t, cache), false).

Definition process_maybe_expired_storage_pool (t : BlobInfoTable) (pool_id : ObjectID)
    (info : StoragePoolInfo) (current_epoch : Epoch) : total (BlobInfoTable * bool) :=
  if pool_end_epoch info <=? current_epoch
  then Ok (set_pools (delete pool_id (storage_pool_info t)) t, true)
  else Ok (t, false).

End table.

(** *** Batches

    The three batch functions iterate over at most [batch_size] entries after
    the last processed one; [process_items_in_batches] (common/utils.rs) calls
    them until a batch is empty.  Generic in the state, the entries of the
    iterated column family and the processing of one entry. *)
Section batches.
Context `{Countable K} `{!KeyOrder K} {S T : Type}.
Context (entries : S -> gmap K T).
Context (process : S -> K -> T -> total (S * bool)).

Record BatchProcessingResult := {
  total_count : nat;
  modified_count : nat;
  last_processed_item : option K;
}.

Definition process_one (acc : S * nat) (entry : K * T) : total (S * nat) :=
  '(s, modified) ← process acc.1 entry.1 entry.2;
  Ok (s, (if modified : bool then acc.2 + 1 else acc.2)%nat).

Definition process_batch (s : S) (last_processed : option K) (batch_size : nat) :
    total (S * BatchProcessingResult) :=
  let items := take batch_size (entries_after last_processed (entries s)) in
  '(s, modified) ← foldM process_one (s, 0%nat) items;
  Ok (s, {| total_count := length items;
            modified_count := modified;
            last_processed_item :=
              match last items with Some (k, _) => Some k | None => last_processed end |}).

Fixpoint process_items_in_batches (fuel : nat) (s : S) (last_processed : option K)
    (batch_size modified_total : nat) : total (S * nat) :=
  match fuel with
  | O => Panic
  | Datatypes.S fuel =>
    '(s, r) ← process_batch s last_processed batch_size;
    if (total_count r =? 0)%nat then Ok (s, modified_total)
    else process_items_in_batches fuel s (last_processed_item r) batch_size
      (modified_total + modified_count r)
  end.

(** One call more than there are entries is enough. *)
Definition process_all (s : S) (batch_size : nat) : total (S * nat) :=
  process_items_in_batches (Datatypes.S (size (entries s))) s None batch_size 0.

End batches.

Section gc.
Context `{Build}.

Definition process_expired_storage_pools (t : BlobInfoTable) (current_epoch : Epoch)
    (batch_size : nat) : total BlobInfoTable :=
  '(t, _) ← process_all storage_pool_info
    (fun t id info => process_maybe_expired_storage_pool t id info current_epoch) t batch_size;
  Ok t.

Definition process_expired_regular_blob_objects (t : BlobInfoTable) (current_epoch : Epoch)
    (batch_size : nat) : total BlobInfoTable :=
  '(t, _) ← process_all per_object_blob_info
    (fun t id o => process_maybe_expired_blob_object t id o current_epoch) t batch_size;
  Ok t.

Definition process_expired_pooled_blob_objects (t : BlobInfoTable) (current_epoch : Epoch)
    (batch_size : nat) : total BlobInfoTable :=
  '((t, _), _) ← process_all (fun s => per_object_pooled_blob_info s.1)
    (fun s id o => process_maybe_expired_pooled_blob_object s id o current_epoch)
    (t, ∅ : gmap ObjectID bool) batch_size;
  Ok t.

Definition process_expired_blob_objects (t : BlobInfoTable) (current_epoch : Epoch)
    (batch_size : nat) : total BlobInfoTable :=
  t ← process_expired_regular_blob_objects t current_epoch batch_size;
  process_expired_pooled_blob_objects t current_epoch batch_size.

End gc.
