(* ===== verification/Batches.v ===== *)
(** * Batched iteration over a column family

    [process_items_in_batches] (common/utils.rs) with the batch functions of
    blob_info.rs and storage.rs: for any positive batch size the loop ends and
    does what a single pass over the entries does, as long as processing an
    entry leaves the others alone; a pass that removes some of the entries
    removes exactly those. *)

From stdpp Require Import sorting.
From S2P Require Import Prelude Core PermBlobInfo BlobInfoTable.

(** ** Entries in key order *)

Section entries.
Context `{Countable K} `{!KeyOrder K} {T : Type}.
Implicit Types (m : gmap K T) (l : list (K * T)) (x y : K * T).

Definition key_lt x y : Prop := key_ltb x.1 y.1 = true.

(** A key is past the cursor of a batch. *)
Definition past (cursor : option K) (k : K) : Prop :=
  forall c, cursor = Some c -> key_ltb c k = true.

Lemma elem_of_entries_after cursor m k v :
  (k, v) ∈ entries_after cursor m <-> m !! k = Some v /\ past cursor k.
Proof.
  unfold entries_after. rewrite list_elem_of_In, filter_In, <- list_elem_of_In.
  rewrite merge_sort_Permutation, elem_of_map_to_list. unfold past. destruct cursor; naive_solver.
Qed.

Lemma length_entries_after cursor m : (length (entries_after cursor m) <= size m)%nat.
Proof.
  rewrite <- length_map_to_list. etransitivity; [apply List.filter_length_le|].
  by rewrite (Permutation_length (merge_sort_Permutation key_le (map_to_list m))).
Qed.

Lemma sorted_filter (R : relation (K * T)) f l :
  StronglySorted R l -> StronglySorted R (List.filter f l).
Proof.
  induction 1 as [|x l Hl IH Hx]; cbn; [constructor|]. destruct (f x); [|done].
  constructor; [done|]. apply Forall_forall. intros y. rewrite list_elem_of_In, filter_In.
  intros [Hy _]. rewrite Forall_forall in Hx. apply Hx. by rewrite list_elem_of_In.
Qed.

Lemma strictly_sorted l : StronglySorted key_le l -> NoDup l.*1 -> StronglySorted key_lt l.
Proof.
  induction 1 as [|x l Hl IH Hx]; [constructor|]. cbn. intros [Hnin Hnd]%NoDup_cons.
  constructor; [by apply IH|]. rewrite Forall_forall in *. intros y Hy.
  assert (x.1 <> y.1) by (intros Heq; apply Hnin, list_elem_of_fmap; by exists y).
  specialize (Hx y Hy). unfold key_le, key_lt in *. destruct (key_ltb x.1 y.1) eqn:Hxy; [done|].
  by pose proof (key_ltb_total _ _ Hxy Hx).
Qed.

Lemma entries_after_sorted cursor m : StronglySorted key_lt (entries_after cursor m).
Proof.
  unfold entries_after. apply sorted_filter, strictly_sorted.
  - apply (StronglySorted_merge_sort key_le).
  - rewrite merge_sort_Permutation. apply NoDup_fst_map_to_list.
Qed.

(** Strictly sorted lists are determined by their elements. *)
Lemma sorted_unique l1 l2 : StronglySorted key_lt l1 -> StronglySorted key_lt l2 ->
  (forall x, x ∈ l1 <-> x ∈ l2) -> l1 = l2.
Proof.
  intros H1. revert l2. induction H1 as [|x l1 H1 IH Hx]; intros l2 H2 Heq.
  - destruct l2 as [|y l2]; [done|]. by destruct (not_elem_of_nil y), (Heq y); set_solver.
  - destruct H2 as [|y l2 H2 Hy]; [by destruct (not_elem_of_nil x), (Heq x); set_solver|].
    rewrite Forall_forall in Hx, Hy. unfold key_lt in Hx, Hy.
    assert (x = y) as <-.
    { assert (x ∈ y :: l2) as [|Hxy]%elem_of_cons by (apply Heq; set_solver); [done|].
      assert (y ∈ x :: l1) as [|Hyx]%elem_of_cons by (apply Heq; set_solver); [done|].
      specialize (Hx y Hyx). specialize (Hy x Hxy). by rewrite (key_ltb_asym _ _ Hx) in Hy. }
    f_equal. apply IH; [done|]. intros z. specialize (Heq z). rewrite !elem_of_cons in Heq.
    split; intros Hz.
    + destruct (proj1 Heq (or_intror Hz)) as [->|]; [|done]. specialize (Hx x Hz). by apply key_ltb_ne in Hx.
    + destruct (proj2 Heq (or_intror Hz)) as [->|]; [|done]. specialize (Hy x Hz). by apply key_ltb_ne in Hy.
Qed.

Lemma sorted_app_lt l1 l2 x y : StronglySorted key_lt (l1 ++ l2) -> x ∈ l1 -> y ∈ l2 -> key_lt x y.
Proof. intros Hs Hx Hy. by eapply (StronglySorted_app_1_elem_of key_lt). Qed.

(** The entries after a batch are the rest of the entries before it. *)
Lemma entries_after_rest cursor m m' n c v :
  last (take n (entries_after cursor m)) = Some (c, v) ->
  (forall k, past (Some c) k -> m' !! k = m !! k) ->
  entries_after (Some c) m' = drop n (entries_after cursor m).
Proof.
  intros Hlast Hsame. pose proof (entries_after_sorted cursor m) as Hs.
  rewrite <- (take_drop n (entries_after cursor m)) in Hs.
  assert ((c, v) ∈ take n (entries_after cursor m)) as Hc by by apply last_Some_elem_of.
  apply sorted_unique; [apply entries_after_sorted|by eapply StronglySorted_app_1_r|].
  intros [k w]. rewrite elem_of_entries_after. split.
  - intros [Hk Hpast]. rewrite Hsame in Hk by done.
    assert ((k, w) ∈ entries_after cursor m) as Hin.
    { apply elem_of_entries_after. split; [done|]. intros c' ->.
      assert ((c, v) ∈ entries_after (Some c') m) as [_ Hc']%elem_of_entries_after
        by (rewrite <- (take_drop n); set_solver).
      exact (key_ltb_trans _ _ _ (Hc' c' eq_refl) (Hpast c eq_refl)). }
    rewrite <- (take_drop n) in Hin. apply elem_of_app in Hin as [Hin|]; [|done].
    apply last_Some in Hlast as [l' Hl']. rewrite Hl' in Hs, Hin. exfalso.
    specialize (Hpast c eq_refl). apply elem_of_app in Hin as [Hin|Hin].
    + rewrite <- app_assoc in Hs. pose proof (sorted_app_lt _ _ (k, w) (c, v) Hs Hin) as Hlt.
      specialize (Hlt ltac:(set_solver)). apply key_ltb_asym in Hlt. cbn in Hlt. congruence.
    + apply list_elem_of_singleton in Hin as [= -> ->]. by apply key_ltb_ne in Hpast.
  - intros Hin. assert (past (Some c) k) as Hpast.
    { intros ? [= <-]. by apply (sorted_app_lt _ _ (c, v) (k, w) Hs). }
    split; [|done]. rewrite Hsame by done.
    assert ((k, w) ∈ entries_after cursor m) as [? _]%elem_of_entries_after; [|done].
    rewrite <- (take_drop n). set_solver.
Qed.

End entries.

(** ** The loop *)

Section fold.
Context `{Countable K} `{!KeyOrder K} {S T : Type}.
Context (entries : S -> gmap K T) (process : S -> K -> T -> total (S * bool)) (I : S -> Prop).

(** Processing an entry succeeds and leaves the other entries alone. *)
Definition process_frame : Prop := forall s k x, I s -> entries s !! k = Some x ->
  exists s' modified, process s k x = Ok (s', modified) /\ I s' /\
    forall k', k' <> k -> entries s' !! k' = entries s !! k'.

Context (Hframe : process_frame).

Lemma sorted_keys_nodup (items : list (K * T)) : StronglySorted key_lt items -> NoDup items.*1.
Proof.
  induction 1 as [|x l Hl IH Hx]; cbn; [constructor|]. apply NoDup_cons. split; [|done].
  intros (y & Heq & Hy)%list_elem_of_fmap. rewrite Forall_forall in Hx.
  specialize (Hx y Hy). by apply key_ltb_ne in Hx.
Qed.

Lemma process_items_frame items s n : I s -> NoDup items.*1 ->
  (forall k x, (k, x) ∈ items -> entries s !! k = Some x) ->
  exists s' m, foldM (process_one process) (s, n) items = Ok (s', (n + m)%nat) /\ I s' /\
    (forall n', foldM (process_one process) (s, n') items = Ok (s', (n' + m)%nat)) /\
    forall k, k ∉ items.*1 -> entries s' !! k = entries s !! k.
Proof.
  revert s n. induction items as [|[k x] items IH]; intros s n HI Hnd Hin.
  - exists s, 0%nat. cbn. rewrite Nat.add_0_r. split_and!; [done|done| |done]. intros n'. by rewrite Nat.add_0_r.
  - cbn in Hnd. apply NoDup_cons in Hnd as [Hk Hnd].
    destruct (Hframe s k x HI) as (s1 & md & Hp & HI1 & Hrest); [apply Hin; by left|].
    destruct (IH s1 (if md then n + 1 else n)%nat HI1 Hnd) as (s2 & m & Hf & HI2 & Hfs & Hrest2).
    { intros k' x' Hk'. rewrite Hrest; [by apply Hin; right|]. intros ->. apply Hk, list_elem_of_fmap. by exists (k, x'). }
    assert (forall c, foldM (process_one process) (s, c) ((k, x) :: items) =
      Ok (s2, (c + ((if md then 1 else 0) + m))%nat)) as Hall.
    { intros c. cbn [foldM]. unfold process_one at 2. cbn [fst snd]. rewrite Hp. cbn [mbind outcome_bind].
      rewrite Hfs. do 2 f_equal. destruct md; lia. }
    exists s2, ((if md then 1 else 0) + m)%nat. split_and!; [apply Hall|done|apply Hall|].
    intros k' [Hne Hnin]%not_elem_of_cons. rewrite Hrest2 by done. by apply Hrest.
Qed.

Lemma process_batches_fold fuel s cursor batch_size n :
  I s -> (0 < batch_size)%nat -> (length (entries_after cursor (entries s)) < fuel)%nat ->
  process_items_in_batches entries process fuel s cursor batch_size n =
    foldM (process_one process) (s, n) (entries_after cursor (entries s)).
Proof.
  revert s cursor n. induction fuel as [|fuel IH]; intros s cursor n HI Hbs Hfuel; [lia|].
  set (L := entries_after cursor (entries s)) in *.
  pose proof (sorted_keys_nodup _ (entries_after_sorted cursor (entries s))) as Hnd. fold L in Hnd.
  assert (forall k x, (k, x) ∈ L -> entries s !! k = Some x) as HL.
  { intros k x Hk. by apply (elem_of_entries_after cursor (entries s)). }
  rewrite <- (take_drop batch_size L), fmap_app in Hnd. apply NoDup_app in Hnd as (Hndt & _ & _).
  destruct (process_items_frame (take batch_size L) s 0 HI Hndt) as (s1 & m & Hf & HI1 & Hfs & Hrest).
  { intros k x Hk. apply HL. rewrite <- (take_drop batch_size L). apply elem_of_app. by left. }
  cbn [process_items_in_batches]. unfold process_batch. fold L. rewrite Hf.
  cbn -[last take process_items_in_batches Nat.eqb]. rewrite length_take.
  destruct (last (take batch_size L)) as [[c v]|] eqn:Hlast.
  - assert (length (take batch_size L) <> 0)%nat as Hnz.
    { intros Hz%length_zero_iff_nil. by rewrite Hz in Hlast. }
    rewrite length_take in Hnz. rewrite (proj2 (Nat.eqb_neq _ _) Hnz).
    assert (entries_after (Some c) (entries s1) = drop batch_size L) as Hd.
    { eapply entries_after_rest; [exact Hlast|]. intros k Hk. apply Hrest.
      intros ([k' w] & -> & Hin)%list_elem_of_fmap. specialize (Hk c eq_refl). cbn in Hk.
      pose proof (entries_after_sorted cursor (entries s)) as Hs. fold L in Hs.
      rewrite <- (take_drop batch_size L) in Hs. apply StronglySorted_app_1_l in Hs.
      apply last_Some in Hlast as [l' Hl']. rewrite Hl' in Hs, Hin. apply elem_of_app in Hin as [Hin|Hin].
      - pose proof (sorted_app_lt _ _ (k', w) (c, v) Hs Hin ltac:(set_solver)) as Hlt%key_ltb_asym.
        cbn in Hlt. congruence.
      - apply list_elem_of_singleton in Hin as [= -> ->]. by apply key_ltb_ne in Hk. }
    rewrite IH; [|done|done|rewrite Hd, length_drop; lia]. rewrite Hd.
    rewrite <- (take_drop batch_size L) at 2. by rewrite foldM_app, Hfs.
  - apply last_None in Hlast. assert (length L = 0)%nat as HL0.
    { apply (f_equal length) in Hlast. rewrite length_take in Hlast. cbn in Hlast. lia. }
    apply length_zero_iff_nil in HL0. rewrite HL0 in *. rewrite take_nil in *. cbn in Hf. injection Hf as <- _. by rewrite Nat.min_0_r.
Qed.

(** A view of the state by key that processing an entry only changes at its
    key; after a pass it is what processing the key's entry made of it. *)
Lemma process_items_view {V : Type} (view : S -> K -> V) (updated : K -> V -> V) items s n :
  (forall s k x s' md, I s -> entries s !! k = Some x -> process s k x = Ok (s', md) ->
     view s' k = updated k (view s k) /\ forall k', k' <> k -> view s' k' = view s k') ->
  I s -> NoDup items.*1 -> (forall k x, (k, x) ∈ items -> entries s !! k = Some x) ->
  forall s' n', foldM (process_one process) (s, n) items = Ok (s', n') ->
  I s' /\ forall k, view s' k = if decide (k ∈ items.*1) then updated k (view s k) else view s k.
Proof.
  intros Hview. revert s n. induction items as [|[k x] items IH]; intros s n HI Hnd Hin s' n' Hf.
  { injection Hf as <- _. split; [done|]. intros k. by rewrite decide_False by set_solver. }
  cbn in Hnd. apply NoDup_cons in Hnd as [Hk Hnd].
  assert (entries s !! k = Some x) as Hx by (apply Hin; by left).
  destruct (Hframe s k x HI Hx) as (s1 & md & Hp & HI1 & Hrest).
  destruct (Hview s k x s1 md HI Hx Hp) as [Hv Hvo].
  cbn [foldM] in Hf. unfold process_one at 2 in Hf. cbn [fst snd] in Hf. rewrite Hp in Hf. cbn [mbind outcome_bind] in Hf.
  destruct (IH s1 (if md then n + 1 else n)%nat HI1 Hnd) with s' n' as [HI' Hvs]; [|exact Hf|].
  { intros k' x' Hk'. rewrite Hrest; [by apply Hin; right|]. intros ->. apply Hk, list_elem_of_fmap. by exists (k, x'). }
  split; [done|]. intros k'. rewrite Hvs. cbn [fmap list_fmap fst]. destruct (decide (k' = k)) as [->|Hne].
  - by rewrite decide_False, decide_True by set_solver.
  - rewrite Hvo by done. destruct (decide (k' ∈ items.*1)); [by rewrite decide_True by set_solver|].
    by rewrite decide_False by set_solver.
Qed.

(** The batched loop is a pass over the entries. *)
Lemma process_all_fold s batch_size : I s -> (0 < batch_size)%nat ->
  process_all entries process s batch_size =
    foldM (process_one process) (s, 0%nat) (entries_after None (entries s)).
Proof.
  intros HI Hbs. apply process_batches_fold; [done|done|]. apply Nat.lt_succ_r, length_entries_after.
Qed.

Lemma process_all_view {V : Type} (view : S -> K -> V) (updated : K -> V -> V) s batch_size :
  (forall s k x s' md, I s -> entries s !! k = Some x -> process s k x = Ok (s', md) ->
     view s' k = updated k (view s k) /\ forall k', k' <> k -> view s' k' = view s k') ->
  I s -> (0 < batch_size)%nat ->
  exists s' n, process_all entries process s batch_size = Ok (s', n) /\ I s' /\
    forall k, view s' k = if decide (is_Some (entries s !! k)) then updated k (view s k) else view s k.
Proof.
  intros Hview HI Hbs. rewrite process_all_fold by done.
  pose proof (sorted_keys_nodup _ (entries_after_sorted None (entries s))) as Hnd.
  assert (forall k x, (k, x) ∈ entries_after None (entries s) <-> entries s !! k = Some x) as Hel.
  { intros k x. rewrite elem_of_entries_after. unfold past. naive_solver. }
  destruct (process_items_frame (entries_after None (entries s)) s 0 HI Hnd) as (s' & m & Hf & _).
  { intros k x. apply Hel. }
  destruct (process_items_view view updated _ _ _ Hview HI Hnd (fun k x => proj1 (Hel k x)) _ _ Hf) as [HI' Hv].
  eexists s', _. split; [exact Hf|]. split; [done|]. intros k. rewrite Hv.
  assert (k ∈ (entries_after None (entries s)).*1 <-> is_Some (entries s !! k)) as Heq.
  { rewrite list_elem_of_fmap. split; [intros ([? x] & -> & Hk%Hel); by exists x|intros [x Hx]].
    exists (k, x). by rewrite Hel. }
  destruct (decide (k ∈ _)) as [Hk|Hk]; rewrite Heq in Hk; [by rewrite decide_True|by rewrite decide_False].
Qed.

End fold.

(** ** Removing expired entries *)

Section loop.
Context `{Countable K} `{!KeyOrder K} {S T : Type}.
Context (entries : S -> gmap K T).
Context (process : S -> K -> T -> total (S * bool)).

(** The states the processing keeps and the entries it removes. *)
Context (I : S -> Prop) (expired : T -> bool).

Definition process_spec : Prop := forall s k x, I s -> entries s !! k = Some x ->
  exists s', process s k x = Ok (s', expired x) /\ I s' /\
    entries s' = if expired x then delete k (entries s) else entries s.

Definition count_expired (l : list (K * T)) : nat :=
  length (List.filter (fun kx => expired kx.2) l).

(** Removing the expired ones of a list of entries. *)
Definition sweep (items : list (K * T)) (m : gmap K T) : gmap K T :=
  foldl (fun m kx => if expired kx.2 then delete kx.1 m else m) m items.

Lemma sweep_cons k x items m :
  sweep ((k, x) :: items) m = sweep items (if expired x then delete k m else m).
Proof. done. Qed.

Lemma lookup_sweep_ne items m k : k ∉ items.*1 -> sweep items m !! k = m !! k.
Proof.
  revert m. induction items as [|[k' x] items IH]; intros m Hk; [done|].
  rewrite sweep_cons. cbn in Hk. rewrite not_elem_of_cons in Hk. destruct Hk as [Hne Hk]. rewrite IH by done.
  destruct (expired x); [|done]. by rewrite lookup_delete_ne.
Qed.

Lemma lookup_sweep_elem items m k x : NoDup items.*1 -> (k, x) ∈ items ->
  sweep items m !! k = if expired x then None else m !! k.
Proof.
  revert m. induction items as [|[k' y] items IH]; intros m; [set_solver|].
  rewrite sweep_cons. intros [Hnin Hnd]%NoDup_cons [[= -> ->]|Hin]%elem_of_cons.
  - rewrite lookup_sweep_ne by done. destruct (expired y); [|done]. by rewrite lookup_delete_eq.
  - rewrite IH by done. destruct (expired x), (expired y); try done.
    rewrite lookup_delete_ne; [done|]. intros ->. apply Hnin, list_elem_of_fmap. by exists (k, x).
Qed.

(** Sweeping all entries keeps those that are not expired. *)
Lemma sweep_all m :
  sweep (entries_after None m) m = filter (fun kx => expired kx.2 = false) m.
Proof.
  pose proof (sorted_keys_nodup _ (entries_after_sorted None m)) as Hnd.
  apply map_eq. intros k. destruct (m !! k) as [x|] eqn:Hk.
  - rewrite (lookup_sweep_elem _ _ k x) by (done || by apply elem_of_entries_after).
    destruct (expired x) eqn:Hx; symmetry.
    + apply map_lookup_filter_None. right. intros y Hy. by simplify_eq/=; rewrite Hx.
    + rewrite Hk. by apply map_lookup_filter_Some.
  - rewrite lookup_sweep_ne, Hk.
    + symmetry. apply map_lookup_filter_None. by left.
    + intros ([k' y] & -> & Hy%elem_of_entries_after)%list_elem_of_fmap. cbn in *. naive_solver.
Qed.

Context (Hproc : process_spec).

Lemma process_items_ok items s n : I s -> StronglySorted key_lt items ->
  (forall k x, (k, x) ∈ items -> entries s !! k = Some x) ->
  exists s', foldM (process_one process) (s, n) items = Ok (s', (n + count_expired items)%nat) /\
    I s' /\ entries s' = sweep items (entries s).
Proof.
  intros HI Hs. revert s n HI. induction Hs as [|[k x] items Hs IH Hlt]; intros s n HI Hin.
  - exists s. cbn. by rewrite Nat.add_0_r.
  - destruct (Hproc s k x HI) as (s1 & Hp & HI1 & He1); [by apply Hin; left|].
    destruct (IH s1 (if expired x then n + 1 else n)%nat HI1) as (s2 & Hf & HI2 & He2).
    { intros k' x' Hk'. rewrite Forall_forall in Hlt. specialize (Hlt _ Hk'). apply key_ltb_ne in Hlt. cbn in Hlt.
      rewrite He1. destruct (expired x); [rewrite lookup_delete_ne by done|]; apply Hin; by right. }
    exists s2. cbn [foldM].
    replace (process_one process (s, n) (k, x)) with
      (Ok (s1, if expired x then n + 1 else n)%nat : total (S * nat))
      by (unfold process_one; cbn [fst snd]; by rewrite Hp).
    cbn [mbind outcome_bind]. rewrite Hf. split_and!; [|done|by rewrite He2, He1].
    do 2 f_equal. unfold count_expired. cbn. destruct (expired x); cbn; lia.
Qed.

Lemma process_all_ok s batch_size : I s -> (0 < batch_size)%nat ->
  exists s', process_all entries process s batch_size =
      Ok (s', count_expired (entries_after None (entries s))) /\
    I s' /\ entries s' = filter (fun kx => expired kx.2 = false) (entries s).
Proof.
  intros HI Hbs. rewrite (process_all_fold entries process I); [|intros s' k x HI' Hk|done|done].
  - rewrite <- sweep_all. apply process_items_ok; [done|apply entries_after_sorted|].
    intros k x Hk. by apply elem_of_entries_after in Hk as [? _].
  - destruct (Hproc s' k x HI' Hk) as (s2 & Hp & HI2 & He). exists s2, (expired x). split_and!; [done|done|].
    intros k' Hne. rewrite He. destruct (expired x); [by rewrite lookup_delete_ne|done].
Qed.

End loop.
