(* ===== verification/BlobInfoRepr.v ===== *)
(** * What a summary says about the objects

    The representation relations between the fields of the aggregate blob info
    and a map of blob objects: a permanent summary, the latest seen end epoch
    and the initial certified epoch each represent the objects that satisfy a
    predicate.  Every lemma describes one change of one object (the map with
    one key set or deleted) and the matching change of the field.  The counters are
    numbers of entries of a map that satisfy a boolean predicate. *)

From S2P Require Import Prelude Core PermBlobInfo.

(** ** Counting the entries of a map *)

(** The value of a boolean in a sum. *)
Definition b2z (b : bool) : Z := if b then 1 else 0.

Section counting.
Context `{Countable K} {T : Type}.
Implicit Types (m : gmap K T) (P Q : T -> bool) (k : K) (o : option T).

Definition cnt P m : Z := Z.of_nat (size (filter (fun kv => P kv.2 = true) m)).

(** Sets ([Some]) or deletes ([None]) the entry of a key. *)
Definition upd k o m : gmap K T := partial_alter (fun _ => o) k m.

Lemma lookup_upd k o m : upd k o m !! k = o.
Proof. unfold upd. by rewrite lookup_partial_alter_eq. Qed.

Lemma lookup_upd_ne k k' o m : k <> k' -> upd k o m !! k' = m !! k'.
Proof. intros Hne. unfold upd. by rewrite lookup_partial_alter_ne. Qed.

Lemma lookup_upd_Some k o m k' x : upd k o m !! k' = Some x ->
  (k' = k /\ o = Some x) \/ (k' <> k /\ m !! k' = Some x).
Proof.
  destruct (decide (k = k')) as [->|Hne]; [rewrite lookup_upd|rewrite lookup_upd_ne by done];
    naive_solver.
Qed.

Lemma upd_upd k o o' m : upd k o (upd k o' m) = upd k o m.
Proof.
  apply map_eq. intros k'. destruct (decide (k' = k)) as [->|Hne]; [by rewrite !lookup_upd|].
  by rewrite !lookup_upd_ne.
Qed.

Lemma cnt_empty P : cnt P ∅ = 0.
Proof. unfold cnt. by rewrite map_filter_empty, map_size_empty. Qed.

Lemma cnt_nonneg P m : 0 <= cnt P m.
Proof. unfold cnt. lia. Qed.

Lemma cnt_insert_fresh P k x m : m !! k = None -> cnt P (<[k := x]> m) = cnt P m + b2z (P x).
Proof.
  intros Hk. unfold cnt. destruct (P x) eqn:HP; cbn.
  - rewrite map_filter_insert_True by done.
    rewrite map_size_insert_None by by rewrite map_lookup_filter, Hk. lia.
  - rewrite map_filter_insert_False, delete_id by (done || (cbn; by rewrite HP)). lia.
Qed.

Lemma cnt_delete P k m : cnt P (delete k m) = cnt P m - b2z (is_some_and (m !! k) P).
Proof.
  destruct (m !! k) as [x|] eqn:Hk; cbn.
  - rewrite <- (insert_id m k x Hk) at 2. rewrite <- insert_delete_eq.
    rewrite cnt_insert_fresh by apply lookup_delete_eq. lia.
  - rewrite delete_id by done. lia.
Qed.

Lemma cnt_upd P k o m :
  cnt P (upd k o m) = cnt P m - b2z (is_some_and (m !! k) P) + b2z (is_some_and o P).
Proof.
  destruct o as [x|]; cbn.
  - change (upd k (Some x) m) with (<[k := x]> m). rewrite <- insert_delete_eq.
    rewrite cnt_insert_fresh by apply lookup_delete_eq. by rewrite cnt_delete.
  - change (upd k None m) with (delete k m). rewrite cnt_delete. lia.
Qed.

Lemma cnt_zero_iff P m : cnt P m = 0 <-> forall k x, m !! k = Some x -> P x = false.
Proof.
  unfold cnt. split.
  - intros Hz k x Hk. destruct (P x) eqn:HP; [|done]. exfalso.
    assert (filter (fun kv => P kv.2 = true) m !! k = Some x) as Hf
      by by apply map_lookup_filter_Some.
    assert (size (filter (fun kv => P kv.2 = true) m) = 0%nat) as Hs by lia.
    apply map_size_empty_inv in Hs. by rewrite Hs, lookup_empty in Hf.
  - intros Hall. assert (filter (fun kv => P kv.2 = true) m = ∅) as ->; [|done].
    apply map_empty. intros k. apply map_lookup_filter_None. right.
    intros x Hk. cbn. by rewrite (Hall k x Hk).
Qed.

Lemma cnt_pos_iff P m : 0 < cnt P m <-> exists k x, m !! k = Some x /\ P x = true.
Proof.
  split.
  - intros Hpos. destruct (map_choose (filter (fun kv => P kv.2 = true) m)) as (k & x & Hk).
    { intros Hf. unfold cnt in Hpos. by rewrite Hf, map_size_empty in Hpos. }
    apply map_lookup_filter_Some in Hk as [Hk HP]. by exists k, x.
  - intros (k & x & Hk & HP). pose proof (cnt_nonneg P m).
    destruct (Z.eq_dec (cnt P m) 0) as [Hz|]; [|lia].
    apply cnt_zero_iff with (k := k) (x := x) in Hz; [congruence|done].
Qed.

Lemma cnt_mono P Q m : (forall x, P x = true -> Q x = true) -> cnt P m <= cnt Q m.
Proof.
  intros HPQ. unfold cnt. apply inj_le, map_subseteq_size, map_subseteq_spec.
  intros k x. rewrite !map_lookup_filter_Some. naive_solver.
Qed.

End counting.

(** ** Summaries of objects *)

Abbreviation objects := (gmap ObjectID PerObjectBlobInfo).

(** Predicates on objects. *)
Definition of_blob (b : BlobId) (P : PerObjectBlobInfo -> bool) (o : PerObjectBlobInfo) : bool :=
  bool_decide (o_blob_id o = b) && P o.
Definition is_cert (o : PerObjectBlobInfo) : bool := is_some (o_certified_epoch o).
Definition is_del (o : PerObjectBlobInfo) : bool := o_deletable o.
Definition is_perm (o : PerObjectBlobInfo) : bool := negb (o_deletable o).
Definition is_del_cert (o : PerObjectBlobInfo) : bool := is_del o && is_cert o.
Definition is_perm_cert (o : PerObjectBlobInfo) : bool := is_perm o && is_cert o.

(** [p] counts the objects satisfying [P] and bounds their end epochs; beyond
    the current epoch [e] the bound is attained. *)
Definition perm_repr (e : Epoch) (p : option PermanentBlobInfo) (P : PerObjectBlobInfo -> bool)
    (m : objects) : Prop :=
  match p with
  | None => cnt P m = 0
  | Some p =>
    0 < cnt P m /\ p_count p = cnt P m /\
    (forall k o, m !! k = Some o -> P o = true -> o_end_epoch o <= p_end_epoch p) /\
    (p_end_epoch p <= e \/
     exists k o, m !! k = Some o /\ P o = true /\ o_end_epoch o = p_end_epoch p)
  end.

(** [l] bounds the end epochs of the objects satisfying [P]; it is set exactly
    when there is one. *)
Definition latest_repr (l : option Epoch) (P : PerObjectBlobInfo -> bool) (m : objects) : Prop :=
  match l with
  | None => cnt P m = 0
  | Some x => 0 < cnt P m /\ forall k o, m !! k = Some o -> P o = true -> o_end_epoch o <= x
  end.

(** [i] is set exactly when one of the [n] counted certified objects exists; it
    is not in the future and not after the certification of a live one. *)
Definition init_repr (e : Epoch) (i : option Epoch) (n : Z) (live : Epoch -> Prop) : Prop :=
  match i with
  | None => n = 0
  | Some x => 0 < n /\ x <= e /\ forall c, live c -> x <= c
  end.

(** The certified summary is below the total one. *)
Definition perm_le (c t : option PermanentBlobInfo) : Prop :=
  match t, c with
  | None, Some _ => False
  | Some t, Some c => p_end_epoch c <= p_end_epoch t
  | _, None => True
  end.

Definition latest_le (c t : option Epoch) : Prop :=
  match t, c with
  | None, Some _ => False
  | Some t, Some c => c <= t
  | _, None => True
  end.

(** The certification epochs of the certified objects of [b] that are not
    expired. *)
Definition live_cert (e : Epoch) (b : BlobId) (m : objects) (c : Epoch) : Prop :=
  exists k o, m !! k = Some o /\ o_blob_id o = b /\ e < o_end_epoch o /\
    o_certified_epoch o = Some c.

Lemma of_blob_eq b P o : o_blob_id o = b -> of_blob b P o = P o.
Proof. intros Hb. unfold of_blob. by rewrite bool_decide_eq_true_2. Qed.

Lemma of_blob_ne b P o : o_blob_id o <> b -> of_blob b P o = false.
Proof. intros Hb. unfold of_blob. by rewrite bool_decide_eq_false_2. Qed.

Lemma of_blob_true b P o : of_blob b P o = true <-> o_blob_id o = b /\ P o = true.
Proof. unfold of_blob. by rewrite andb_true_iff, bool_decide_eq_true. Qed.

(** Certified objects are certified deletable or certified permanent ones. *)
Lemma cnt_cert_split b (m : objects) :
  cnt (of_blob b is_cert) m = cnt (of_blob b is_del_cert) m + cnt (of_blob b is_perm_cert) m.
Proof.
  induction m as [|k o m Hk IH] using map_ind; [by rewrite !cnt_empty|].
  rewrite !cnt_insert_fresh, IH by done.
  unfold of_blob, is_del_cert, is_perm_cert, is_perm, is_del.
  destruct (bool_decide _), (is_cert o), (o_deletable o); cbn; lia.
Qed.

Lemma cnt_blob_split b (m : objects) :
  cnt (of_blob b (fun _ => true)) m = cnt (of_blob b is_del) m + cnt (of_blob b is_perm) m.
Proof.
  induction m as [|k o m Hk IH] using map_ind; [by rewrite !cnt_empty|].
  rewrite !cnt_insert_fresh, IH by done. unfold of_blob, is_perm, is_del.
  destruct (bool_decide _), (o_deletable o); cbn; lia.
Qed.

Section changes.
Context (P : PerObjectBlobInfo -> bool) (m : objects) (k : ObjectID).
Context (new : option PerObjectBlobInfo).

(** The object does not satisfy [P] before or after. *)
Lemma cnt_frame : is_some_and (m !! k) P = false -> is_some_and new P = false ->
  cnt P (upd k new m) = cnt P m.
Proof. intros Ho Hn. rewrite cnt_upd, Ho, Hn. cbn. lia. Qed.

Lemma forall_frame (Q : PerObjectBlobInfo -> Prop) : is_some_and new P = false ->
  (forall k' o, m !! k' = Some o -> P o = true -> Q o) ->
  forall k' o, upd k new m !! k' = Some o -> P o = true -> Q o.
Proof.
  intros Hn Hall k' o Ho HP. apply lookup_upd_Some in Ho as [[-> ->]|[_ Ho]]; [|by eauto].
  cbn in Hn. congruence.
Qed.

Lemma exists_frame (Q : PerObjectBlobInfo -> Prop) : is_some_and (m !! k) P = false ->
  (exists k' o, m !! k' = Some o /\ P o = true /\ Q o) ->
  exists k' o, upd k new m !! k' = Some o /\ P o = true /\ Q o.
Proof.
  intros Ho (k' & o & Hk' & HP & HQ). exists k', o. split; [|done].
  rewrite lookup_upd_ne; [done|]. intros ->. rewrite Hk' in Ho. cbn in Ho. congruence.
Qed.

Lemma perm_frame e p : is_some_and (m !! k) P = false -> is_some_and new P = false ->
  perm_repr e p P m -> perm_repr e p P (upd k new m).
Proof.
  intros Ho Hn. unfold perm_repr. rewrite cnt_frame by done.
  destruct p as [p|]; [|done]. intros (Hpos & Hc & Hall & Hex). split_and!; [done|done| |].
  - by apply forall_frame.
  - destruct Hex; [by left|right]. by apply exists_frame.
Qed.

Lemma latest_frame l : is_some_and (m !! k) P = false -> is_some_and new P = false ->
  latest_repr l P m -> latest_repr l P (upd k new m).
Proof.
  intros Ho Hn. unfold latest_repr. rewrite cnt_frame by done.
  destruct l as [x|]; [|done]. intros [Hpos Hall]. split; [done|]. by apply forall_frame.
Qed.

(** The object keeps its end epoch and its place among those satisfying [P]. *)
Lemma cnt_keep o o' : m !! k = Some o -> new = Some o' -> P o' = P o ->
  cnt P (upd k new m) = cnt P m.
Proof. intros Hk -> HP. rewrite cnt_upd, Hk. cbn. rewrite HP. lia. Qed.

Lemma forall_keep o o' x : m !! k = Some o -> new = Some o' -> P o' = P o ->
  o_end_epoch o' = o_end_epoch o ->
  (forall k' y, m !! k' = Some y -> P y = true -> o_end_epoch y <= x) ->
  forall k' y, upd k new m !! k' = Some y -> P y = true -> o_end_epoch y <= x.
Proof.
  intros Hk -> HP He Hall k' y Hy HPy. apply lookup_upd_Some in Hy as [[-> [= <-]]|[_ Hy]].
  - rewrite He. apply (Hall k o Hk). congruence.
  - by apply (Hall k' y).
Qed.

Lemma latest_keep l o o' : m !! k = Some o -> new = Some o' -> P o' = P o ->
  o_end_epoch o' = o_end_epoch o -> latest_repr l P m -> latest_repr l P (upd k new m).
Proof.
  intros Hk Hn HP He Hl. unfold latest_repr in *. rewrite (cnt_keep o o') by done.
  destruct l as [x|]; [|done]. destruct Hl as [? Hall]. split; [done|].
  by apply (forall_keep o o').
Qed.

Lemma perm_keep e p o o' : m !! k = Some o -> new = Some o' -> P o' = P o ->
  o_end_epoch o' = o_end_epoch o -> perm_repr e p P m -> perm_repr e p P (upd k new m).
Proof.
  intros Hk Hn HP He Hp. unfold perm_repr in *. rewrite (cnt_keep o o') by done.
  destruct p as [p|]; [|done]. destruct Hp as (? & ? & Hall & Hex). split_and!; [done|done| |].
  - by apply (forall_keep o o').
  - destruct Hex as [|(k' & y & Hk' & HPy & Hy)]; [by left|right].
    destruct (decide (k = k')) as [<-|Hne].
    + rewrite Hk in Hk'. injection Hk' as <-. exists k, o'. rewrite lookup_upd.
      split_and!; [done|congruence|congruence].
    + exists k', y. by rewrite lookup_upd_ne.
Qed.

(** The object satisfies [P] afterwards. *)
Lemma cnt_set_pos o : new = Some o -> P o = true -> 0 < cnt P (upd k new m).
Proof. intros -> HP. apply cnt_pos_iff. exists k, o. split; [apply lookup_upd|done]. Qed.

Lemma forall_set o x : new = Some o -> o_end_epoch o <= x ->
  (forall k' o', m !! k' = Some o' -> P o' = true -> o_end_epoch o' <= x) ->
  forall k' o', upd k new m !! k' = Some o' -> P o' = true -> o_end_epoch o' <= x.
Proof.
  intros -> Hx Hall k' o' Ho' HP. apply lookup_upd_Some in Ho' as [[-> [= ->]]|[_ Ho']];
    [done|by eauto].
Qed.

Lemma latest_set l o : new = Some o -> P o = true -> latest_repr l P m ->
  latest_repr (Some (Z.max (o_end_epoch o) (default 0 l))) P (upd k new m).
Proof.
  intros Hnew HP Hl. cbn. split; [by eapply cnt_set_pos|].
  eapply forall_set; [done|lia|]. intros k' o' Hk' HP'. destruct l as [x|]; cbn in Hl |- *.
  - destruct Hl as [_ Hall]. specialize (Hall k' o' Hk' HP'). lia.
  - apply (proj1 (cnt_zero_iff P m)) with (k := k') (x := o') in Hl; [congruence|done].
Qed.

Lemma latest_remove l o : m !! k = Some o -> P o = true -> is_some_and new P = false ->
  latest_repr l P m ->
  latest_repr (if cnt P m - 1 =? 0 then None else l) P (upd k new m).
Proof.
  intros Hk HP Hn Hl. pose proof (cnt_upd P k new m) as Hc. rewrite Hk, Hn in Hc. cbn in Hc.
  rewrite HP in Hc. cbn in Hc. pose proof (cnt_nonneg P (upd k new m)).
  destruct (Z.eqb_spec (cnt P m - 1) 0); cbn; [lia|].
  destruct l as [x|]; cbn in *; [|lia]. destruct Hl as [_ Hall]. split; [lia|].
  by apply forall_frame.
Qed.

(** [update_optional] counts a new object satisfying [P]. *)
Lemma perm_add e p o ci : is_some_and (m !! k) P = false -> new = Some o -> P o = true ->
  deletable ci = false -> end_epoch ci = o_end_epoch o -> cnt P m < u32_MAX ->
  perm_repr e p P m ->
  exists p', update_optional p ci = Ok (Some p') /\ perm_repr e (Some p') P (upd k new m) /\
    p_end_epoch p' = Z.max (o_end_epoch o) (from_option p_end_epoch (o_end_epoch o) p).
Proof.
  intros Ho Hnew HP Hd Hend Hmax Hp. pose proof (cnt_upd P k new m) as Hc.
  rewrite Ho, Hnew in Hc. cbn in Hc. rewrite HP in Hc. cbn in Hc. rewrite <- Hnew in Hc.
  pose proof (cnt_nonneg P m). unfold update_optional. rewrite Hd.
  cbn [negb assert mbind outcome_bind]. destruct p as [p|].
  - destruct Hp as (Hpos & Hcount & Hall & Hex).
    destruct (perm_update_eq p ci true Hd) as [ev ->]. cbn [mbind outcome_bind].
    eexists. split; [done|]. cbn. rewrite Hend. split; [|lia]. split_and!.
    + lia.
    + unfold saturating_add. uint_lia.
    + eapply forall_set; [done|lia|]. intros k' o' Hk' HP'. specialize (Hall k' o' Hk' HP'). lia.
    + destruct (Z.le_gt_cases (o_end_epoch o) (p_end_epoch p)).
      * rewrite Z.max_l by lia. destruct Hex; [by left|right]. by apply exists_frame.
      * right. exists k, o. split_and!; [by rewrite lookup_upd|done|lia].
  - eexists. split; [done|]. cbn in *. rewrite Hend. split; [|lia]. split_and!.
    + lia.
    + lia.
    + eapply forall_set; [done|lia|]. intros k' o' Hk' HP'.
      apply (proj1 (cnt_zero_iff P m)) with (k := k') (x := o') in Hp; [congruence|done].
    + right. exists k, o. split_and!; [by rewrite lookup_upd|done|lia].
Qed.

(** [extend] follows an object whose end epoch grows. *)
Lemma perm_extended e p o o' ci : m !! k = Some o -> P o = true -> new = Some o' ->
  P o' = true -> o_end_epoch o <= o_end_epoch o' ->
  deletable ci = false -> end_epoch ci = o_end_epoch o' -> perm_repr e p P m ->
  exists p0 p', p = Some p0 /\ perm_extend p ci = Ok (Some p') /\
    perm_repr e (Some p') P (upd k new m) /\
    p_end_epoch p' = Z.max (p_end_epoch p0) (o_end_epoch o').
Proof.
  intros Hk HP Hnew HP' Hle Hd Hend Hp. pose proof (cnt_upd P k new m) as Hc.
  rewrite Hk, Hnew in Hc. cbn in Hc. rewrite HP, HP' in Hc. cbn in Hc. rewrite <- Hnew in Hc.
  destruct p as [p|]; cycle 1.
  { cbn in Hp. apply (proj1 (cnt_zero_iff P m)) with (k := k) (x := o) in Hp; [congruence|done]. }
  destruct Hp as (Hpos & Hcount & Hall & Hex). cbn [perm_extend].
  destruct (perm_update_eq p ci false Hd) as [ev ->]. cbn [mbind outcome_bind].
  exists p. eexists. do 2 (split; [done|]). cbn. rewrite Hend. split; [|done]. split_and!; [lia|lia| |].
  - eapply forall_set; [done|lia|]. intros k' x Hk' HPx. specialize (Hall k' x Hk' HPx). lia.
  - destruct (Z.le_gt_cases (p_end_epoch p) (o_end_epoch o')).
    + right. exists k, o'. split_and!; [by rewrite lookup_upd|done|lia].
    + rewrite Z.max_l by lia. destruct Hex as [|(k' & x & Hk' & HPx & Hx)]; [by left|right].
      exists k', x. split_and!; [|done|done]. rewrite lookup_upd_ne; [done|].
      intros <-. rewrite Hk in Hk'. injection Hk' as <-. lia.
Qed.

(** [decrement] forgets an expired object. *)
Lemma perm_removed e p o : m !! k = Some o -> P o = true -> is_some_and new P = false ->
  o_end_epoch o <= e -> perm_repr e p P m ->
  exists p0 p', p = Some p0 /\ perm_decrement p = Ok p' /\ perm_repr e p' P (upd k new m) /\
    (forall q, p' = Some q -> p_end_epoch q = p_end_epoch p0).
Proof.
  intros Hk HP Hn He Hp. pose proof (cnt_upd P k new m) as Hc. rewrite Hk, Hn in Hc.
  cbn in Hc. rewrite HP in Hc. cbn in Hc.
  destruct p as [p|]; cycle 1.
  { cbn in Hp. apply (proj1 (cnt_zero_iff P m)) with (k := k) (x := o) in Hp; [congruence|done]. }
  destruct Hp as (Hpos & Hcount & Hall & Hex). exists p. unfold perm_decrement, non_zero.
  destruct (Z.eqb_spec (p_count p) 1).
  { exists None. split_and!; [done|done|cbn; lia|done]. }
  destruct (Z.eqb_spec (p_count p - 1) 0); [lia|]. cbn [expect mbind outcome_bind].
  eexists. split_and!; [done|done| |by intros q [= <-]]. cbn. split_and!; [lia|lia| |].
  - by apply forall_frame.
  - destruct Hex as [|(k' & x & Hk' & HPx & Hx)]; [by left|].
    destruct (decide (k' = k)) as [->|Hne].
    + rewrite Hk in Hk'. injection Hk' as <-. left. lia.
    + right. exists k', x. split_and!; [by rewrite lookup_upd_ne|done|done].
Qed.

End changes.

(** The epoch can advance. *)
Lemma perm_repr_mono e e' p P m : e <= e' -> perm_repr e p P m -> perm_repr e' p P m.
Proof.
  intros He. destruct p as [p|]; [|done]. intros (? & ? & ? & Hex). split_and!; try done.
  destruct Hex; [left; lia|by right].
Qed.

Lemma init_repr_mono e e' i n b m : e <= e' ->
  init_repr e i n (live_cert e b m) -> init_repr e' i n (live_cert e' b m).
Proof.
  intros He. destruct i as [x|]; [|done]. intros (? & ? & Hlive). split_and!; [done|lia|].
  intros c (k & o & Hk & Hb & Hlt & Hc). apply Hlive. exists k, o. split_and!; [done|done|lia|done].
Qed.

(** A permanent summary whose end epoch lies ahead has a live object, and the
    other way round. *)
Lemma perm_repr_live e p P m : perm_repr e p P m ->
  is_some_and p (fun p => e <? p_end_epoch p) = true <->
  exists k o, m !! k = Some o /\ P o = true /\ e < o_end_epoch o.
Proof.
  intros Hp. split.
  - destruct p as [p|]; [|done]. cbn. intros Hlt%Z.ltb_lt.
    destruct Hp as (_ & _ & _ & [|(k & o & Hk & HP & Ho)]); [lia|].
    exists k, o. split_and!; [done|done|lia].
  - intros (k & o & Hk & HP & Hlt). destruct p as [p|]; cbn.
    + destruct Hp as (_ & _ & Hall & _). specialize (Hall k o Hk HP). apply Z.ltb_lt. lia.
    + apply (proj1 (cnt_zero_iff P m)) with (k := k) (x := o) in Hp; [congruence|done].
Qed.

Lemma latest_repr_live e l P m k o : latest_repr l P m ->
  m !! k = Some o -> P o = true -> e < o_end_epoch o ->
  (0 <? cnt P m) && is_some_and l (fun x => e <? x) = true.
Proof.
  intros Hl Hk HP Hlt. assert (0 < cnt P m) by (apply cnt_pos_iff; eauto).
  destruct l as [x|]; cbn in *; [|lia]. destruct Hl as [_ Hall].
  specialize (Hall k o Hk HP). apply andb_true_iff. split; apply Z.ltb_lt; lia.
Qed.
