(* ===== verification/BlobInfoRefinement.v ===== *)
(** * The aggregate blob info refines the per-object tables

    [object_step] is the abstract meaning of a merge operand: what it does to
    the one object it is about, with the facts the chain guarantees when it
    emits the event.  [repr_v1] and [repr_v2] say that an aggregate blob info
    summarises a set of objects.  Each version's merge simulates the object
    step: from a summary of the objects it computes, without a panic, a summary
    of the changed objects. *)

From S2P Require Import Prelude Core PermBlobInfo BlobInfoRepr.
From S2P Require Import BlobInfoV1 BlobInfoV2.

(** ** The abstract steps *)

(** The object after a registration, a certification and an extension. *)
Definition registered_object (b : BlobId) (ci : BlobStatusChangeInfo) : PerObjectBlobInfo :=
  mk_object b (epoch ci) None (end_epoch ci) (deletable ci) (status_event ci) false.

Definition certified_object (o : PerObjectBlobInfo) (ci : BlobStatusChangeInfo) :
    PerObjectBlobInfo :=
  mk_object (o_blob_id o) (o_registered_epoch o) (Some (epoch ci)) (o_end_epoch o)
    (o_deletable o) (status_event ci) (o_deleted o).

Definition extended_object (o : PerObjectBlobInfo) (ci : BlobStatusChangeInfo) :
    PerObjectBlobInfo :=
  mk_object (o_blob_id o) (o_registered_epoch o) (o_certified_epoch o) (end_epoch ci)
    (o_deletable o) (status_event ci) (o_deleted o).

(** The step of one regular object of blob [b] in epoch [e]. *)
Inductive object_step (e : Epoch) (b : BlobId) :
    option PerObjectBlobInfo -> BlobInfoMergeOperand -> option PerObjectBlobInfo -> Prop :=
| step_register ci : ci_blob_id ci = b -> 0 <= end_epoch ci ->
    object_step e b None (ChangeStatus Register ci) (Some (registered_object b ci))
| step_certify ci o : o_blob_id o = b -> o_certified_epoch o = None ->
    o_deletable o = deletable ci -> end_epoch ci = o_end_epoch o -> 0 <= end_epoch ci ->
    epoch ci <= e ->
    object_step e b (Some o) (ChangeStatus Certify ci) (Some (certified_object o ci))
| step_extend ci o : o_blob_id o = b -> is_cert o = true ->
    o_deletable o = deletable ci -> o_end_epoch o <= end_epoch ci -> e < o_end_epoch o ->
    object_step e b (Some o) (ChangeStatus Extend ci) (Some (extended_object o ci))
| step_delete ci o : o_blob_id o = b -> o_deletable o = true -> deletable ci = true ->
    object_step e b (Some o) (ChangeStatus (Delete (is_cert o)) ci) None
| step_expire o : o_blob_id o = b -> o_end_epoch o <= e ->
    object_step e b (Some o)
      (if o_deletable o then DeletableExpired (is_cert o) else PermanentExpired (is_cert o)) None.

(** ** Version 1 *)

Record repr_v1 (e : Epoch) (b : BlobId) (m : objects) (v : V1.ValidBlobInfo) : Prop := {
  r1_del : V1.count_deletable_total v = cnt (of_blob b is_del) m;
  r1_del_cert : V1.count_deletable_certified v = cnt (of_blob b is_del_cert) m;
  r1_perm : perm_repr e (V1.permanent_total v) (of_blob b is_perm) m;
  r1_perm_cert : perm_repr e (V1.permanent_certified v) (of_blob b is_perm_cert) m;
  r1_perm_le : perm_le (V1.permanent_certified v) (V1.permanent_total v);
  r1_latest : latest_repr (V1.latest_seen_deletable_registered_end_epoch v) (of_blob b is_del) m;
  r1_latest_cert :
    latest_repr (V1.latest_seen_deletable_certified_end_epoch v) (of_blob b is_del_cert) m;
  r1_latest_le : latest_le (V1.latest_seen_deletable_certified_end_epoch v)
    (V1.latest_seen_deletable_registered_end_epoch v);
  r1_init : init_repr e (V1.initial_certified_epoch v) (cnt (of_blob b is_cert) m)
    (live_cert e b m);
}.

(** *** Live certifications under a change of one object *)

Lemma live_cert_upd e b k new m c : live_cert e b (upd k new m) c ->
  live_cert e b m c \/
  exists o, new = Some o /\ o_blob_id o = b /\ e < o_end_epoch o /\ o_certified_epoch o = Some c.
Proof.
  intros (k' & o & Hk & Hb & He & Hc). apply lookup_upd_Some in Hk as [[-> ->]|[_ Hk]].
  - right. by exists o.
  - left. by exists k', o.
Qed.

Lemma live_cert_count e b m c : live_cert e b m c -> 0 < cnt (of_blob b is_cert) m.
Proof.
  intros (k & o & Hk & Hb & He & Hc). apply cnt_pos_iff. exists k, o. split; [done|].
  rewrite of_blob_eq by done. unfold is_cert. by rewrite Hc.
Qed.

(** [update_initial_certified_epoch] on a certification in epoch [x]: where a
    live certification exists, the flag [was] is true unless the initial epoch
    is later than [x]. *)
Lemma init_certified e x i n n' (live live' : Epoch -> Prop) (was : bool) :
  x <= e -> init_repr e i n live ->
  (forall c y, live c -> i = Some y -> y <= x -> was = true) -> (forall c, live c -> 0 < n) ->
  (forall c, live' c -> c = x \/ live c) -> 0 < n' ->
  init_repr e (if negb was || is_none_or i (fun y => x <? y) then Some x else i) n' live'.
Proof.
  intros Hxe Hi Hwas Hlive Hlive' Hn'.
  assert (forall c, live c -> exists y, i = Some y /\ y <= c) as Hex.
  { intros c Hc. destruct i as [y|]; cbn in Hi; [|specialize (Hlive c Hc); lia].
    exists y. split; [done|]. by apply Hi. }
  destruct (negb was || is_none_or i (fun y => x <? y)) eqn:Hb; cbn.
  - split_and!; [done|done|]. intros c Hc. destruct (Hlive' c Hc) as [->|Hl]; [lia|].
    destruct (Hex c Hl) as (y & -> & Hy). cbn in Hb. destruct (Z.ltb_spec x y); [lia|].
    rewrite (Hwas c y Hl eq_refl) in Hb by done. done.
  - apply orb_false_iff in Hb as [_ Hb]. destruct i as [y|]; cbn in *; [|done].
    destruct Hi as (_ & Hye & Hall). apply Z.ltb_ge in Hb. split_and!; [done|done|].
    intros c Hc. destruct (Hlive' c Hc) as [->|Hl]; [lia|by apply Hall].
Qed.

(** [maybe_unset_initial_certified_epoch] on removal. *)
Lemma init_removed e i n n' (live live' : Epoch -> Prop) :
  init_repr e i n live -> (forall c, live' c -> live c) -> 0 <= n' <= n ->
  init_repr e (if n' =? 0 then None else i) n' live'.
Proof.
  intros Hi Hlive Hn. destruct (Z.eqb_spec n' 0); cbn; [done|].
  destruct i as [x|]; cbn in *; [|lia]. destruct Hi as (? & ? & Hall).
  split_and!; [lia|done|]. eauto.
Qed.

Lemma init_same e i n n' (live live' : Epoch -> Prop) :
  init_repr e i n live -> (forall c, live' c -> live c) -> n' = n -> init_repr e i n' live'.
Proof.
  intros Hi Hlive ->. destruct i as [x|]; [|done]. destruct Hi as (? & ? & Hall).
  split_and!; [done|done|]. eauto.
Qed.

(** *** Automation for the predicates on the changed object *)

(** Evaluates a predicate of the object before or after the change. *)
Ltac eval_pred :=
  cbn [is_some_and]; rewrite ?of_blob_eq by (cbn; done);
  unfold is_del_cert, is_perm_cert, is_cert, is_del, is_perm in *;
  cbn [registered_object certified_object extended_object o_deletable o_certified_epoch
       is_some andb negb] in *;
  repeat match goal with
  | H : o_deletable _ = _ |- _ => rewrite H in *
  | H : deletable _ = _ |- _ => rewrite H in *
  | H : o_certified_epoch _ = _ |- _ => rewrite H in *
  | H : is_some (o_certified_epoch _) = _ |- _ => rewrite H in *
  end; cbn [is_some andb negb]; try done.

(** Hides the counts of the goal, so that only the changed object is evaluated. *)
Ltac hide_counts :=
  repeat match goal with
  | |- context [cnt ?P ?m] => let c := fresh "c" in set (c := cnt P m) in *; clearbody c
  end.

(** The count of a predicate after the change of the object looked up in [Hk]. *)
Ltac eval_cnt Hk :=
  rewrite ?cnt_upd, ?Hk; cbn [is_some_and]; rewrite ?of_blob_eq by (cbn; done);
  hide_counts; eval_pred; cbn [b2z]; try lia.

(** The count of a summary is positive. *)
Definition perm_count (p : option PermanentBlobInfo) : Prop :=
  match p with Some p => 0 < p_count p | None => True end.

Lemma perm_repr_count e p P m : perm_repr e p P m ->
  perm_count p /\ from_option p_count 0 p = cnt P m.
Proof. destruct p as [p|]; cbn; [|done]. intros (? & ? & _). split; [lia|done]. Qed.

(** An uncertified object is missing from the certified ones. *)
Lemma certified_below b (m : objects) k o (ci : BlobStatusChangeInfo) : m !! k = Some o -> o_blob_id o = b ->
  o_certified_epoch o = None ->
  if o_deletable o then cnt (of_blob b is_del_cert) m < cnt (of_blob b is_del) m
  else cnt (of_blob b is_perm_cert) m < cnt (of_blob b is_perm) m.
Proof.
  intros Hk Hb Hc. set (m' := upd k (Some (certified_object o ci)) m).
  assert (cnt (of_blob b is_del_cert) m' <= cnt (of_blob b is_del) m') as H1.
  { apply cnt_mono. intros x. rewrite !of_blob_true. unfold is_del_cert. rewrite andb_true_iff. tauto. }
  assert (cnt (of_blob b is_perm_cert) m' <= cnt (of_blob b is_perm) m') as H2.
  { apply cnt_mono. intros x. rewrite !of_blob_true. unfold is_perm_cert. rewrite andb_true_iff. tauto. }
  revert H1 H2. unfold m'. rewrite !cnt_upd, !Hk. cbn [is_some_and].
  rewrite !of_blob_eq by done. hide_counts.
  unfold is_del_cert, is_perm_cert, is_cert, is_del, is_perm. cbn. rewrite Hc.
  destruct (o_deletable o); cbn; lia.
Qed.

Lemma cnt_del_cert_le b (m : objects) : cnt (of_blob b is_del_cert) m <= cnt (of_blob b is_del) m.
Proof.
  apply cnt_mono. intros o. rewrite !of_blob_true. unfold is_del_cert. rewrite andb_true_iff. tauto.
Qed.

Lemma cnt_perm_cert_le b (m : objects) :
  cnt (of_blob b is_perm_cert) m <= cnt (of_blob b is_perm) m.
Proof.
  apply cnt_mono. intros o. rewrite !of_blob_true. unfold is_perm_cert. rewrite andb_true_iff. tauto.
Qed.

(** The order between the certified and the total summaries needs to be checked
    only where both are set. *)
Lemma latest_le_repr b m c t :
  latest_repr c (of_blob b is_del_cert) m -> latest_repr t (of_blob b is_del) m ->
  (forall x y, c = Some x -> t = Some y -> x <= y) -> latest_le c t.
Proof.
  intros Hc Ht Hle. pose proof (cnt_del_cert_le b m).
  destruct c as [x|], t as [y|]; cbn in *; [by apply Hle|lia|done|done].
Qed.

Lemma perm_le_repr e b m c t :
  perm_repr e c (of_blob b is_perm_cert) m -> perm_repr e t (of_blob b is_perm) m ->
  (forall x y, c = Some x -> t = Some y -> p_end_epoch x <= p_end_epoch y) -> perm_le c t.
Proof.
  intros Hc Ht Hle. pose proof (cnt_perm_cert_le b m).
  destruct c as [x|], t as [y|]; cbn in *; [by apply Hle|lia|done|done].
Qed.

(** The frame conditions of a field that the change does not concern. *)
Ltac frame Hk :=
  first [apply perm_frame | apply latest_frame];
  [rewrite Hk; eval_pred | eval_pred | assumption].

(** The fields of a representation, one goal each. *)
Ltac fields := constructor; cbn -[perm_repr latest_repr init_repr perm_le latest_le].

(** A field that counts the object before and after, with the same end epoch. *)
Ltac keep Hk :=
  first [eapply perm_keep | eapply latest_keep];
  [exact Hk | reflexivity | rewrite !of_blob_eq by (cbn; done); done | done | assumption].

(** The certified summary after the expiry of a permanent object. *)
Lemma perm_cert_removed e b m k o p : m !! k = Some o -> o_blob_id o = b ->
  o_deletable o = false -> o_end_epoch o <= e -> perm_repr e p (of_blob b is_perm_cert) m ->
  exists p', (if is_cert o then perm_decrement p else Ok p) = Ok p' /\
    perm_repr e p' (of_blob b is_perm_cert) (upd k None m) /\
    forall x, p' = Some x -> exists c, p = Some c /\ p_end_epoch x = p_end_epoch c.
Proof.
  intros Hk Hb Hod He Hpc. destruct (is_cert o) eqn:Hco.
  - destruct (perm_removed (of_blob b is_perm_cert) m k None e _ o Hk
      ltac:(rewrite of_blob_eq by done; eval_pred) eq_refl He Hpc) as (c & c' & Hc & Hdc & Hrc & Hec).
    exists c'. split_and!; [done|done|]. intros x Hx. exists c. split; [done|by apply Hec].
  - eexists. split_and!; [done|frame Hk|]. intros x Hx. by exists x.
Qed.

Section v1.
Context `{Build} (e : Epoch) (b : BlobId) (m : objects) (k : ObjectID) (v : V1.ValidBlobInfo).
Context (Hr : repr_v1 e b m v).

(** A live certified object makes [is_certified] true in any epoch between the
    initial certification and now. *)
Lemma v1_live_certified x c y : x <= e -> live_cert e b m c ->
  V1.initial_certified_epoch v = Some y -> y <= x -> V1.valid_is_certified v x = true.
Proof.
  intros Hx (k' & o & Hk & Hb & He & Hco) Hy Hyx.
  destruct Hr as [_ Hdc _ Hpc _ _ Hlc _ _]. unfold V1.valid_is_certified.
  rewrite Hy. cbn [is_some_and]. rewrite (proj2 (Z.leb_le y x) Hyx). cbn [andb].
  apply orb_true_iff. destruct (o_deletable o) eqn:Hd.
  - right. rewrite Hdc. eapply latest_repr_live; [done|exact Hk| |lia].
    rewrite of_blob_eq by done. eval_pred.
  - left. destruct (V1.permanent_certified v) as [p|]; cbn in Hpc |- *.
    + destruct Hpc as (_ & _ & Hall & _). apply Z.ltb_lt.
      specialize (Hall k' o Hk ltac:(rewrite of_blob_eq by done; eval_pred)). lia.
    + apply (proj1 (cnt_zero_iff _ m)) with (k := k') (x := o) in Hpc; [|done].
      rewrite of_blob_eq in Hpc by done. revert Hpc. eval_pred.
Qed.

Context (Hmax : cnt (of_blob b (fun _ => true)) m < u32_MAX).

Lemma v1_counts : 0 <= cnt (of_blob b is_del) m < u32_MAX /\
  0 <= cnt (of_blob b is_perm) m < u32_MAX /\
  0 <= cnt (of_blob b is_del_cert) m <= cnt (of_blob b is_del) m /\
  0 <= cnt (of_blob b is_perm_cert) m <= cnt (of_blob b is_perm) m.
Proof.
  pose proof (cnt_blob_split b m). pose proof (cnt_nonneg (of_blob b is_del) m).
  pose proof (cnt_nonneg (of_blob b is_perm) m). pose proof (cnt_nonneg (of_blob b is_del_cert) m).
  pose proof (cnt_nonneg (of_blob b is_perm_cert) m).
  assert (cnt (of_blob b is_del_cert) m <= cnt (of_blob b is_del) m).
  { apply cnt_del_cert_le. }
  assert (cnt (of_blob b is_perm_cert) m <= cnt (of_blob b is_perm) m).
  { apply cnt_perm_cert_le. }
  lia.
Qed.

Lemma latest_le_max c t x : latest_le c t -> latest_le c (Some (Z.max x (default 0 t))).
Proof. destruct c, t; unfold latest_le, from_option, id; (done || lia). Qed.

Lemma latest_le_max_both c t x : latest_le (Some c) t ->
  latest_le (Some (Z.max x c)) (Some (Z.max x (default 0 t))).
Proof. destruct t; unfold latest_le, from_option, id; (done || lia). Qed.

Lemma v1_register ci : m !! k = None -> ci_blob_id ci = b ->
  exists v', V1.update_status v Register ci = Ok v' /\
    repr_v1 e b (upd k (Some (registered_object b ci)) m) v'.
Proof.
  intros Hk Hb. set (o := registered_object b ci). destruct v1_counts as (Hcd & Hcp & Hcdc & Hcpc).
  destruct Hr as [Hd Hdc Hp Hpc Hple Hl Hlc Hlle Hi].
  assert (init_repr e (V1.initial_certified_epoch v) (cnt (of_blob b is_cert) (upd k (Some o) m))
    (live_cert e b (upd k (Some o) m))) as Hi'.
  { eapply init_same; [exact Hi| |unfold o; eval_cnt Hk].
    intros c [|(o' & [= <-] & _ & _ & ?)]%live_cert_upd; done. }
  unfold V1.update_status, V1.update_status_objects. unfold o in *. clear o.
  destruct (deletable ci) eqn:Hdel.
  - rewrite Hd, arith_in_range by uint_lia. cbn [mbind outcome_bind].
    eexists. split; [done|]. fields; [eval_cnt Hk|rewrite Hdc; eval_cnt Hk
      |frame Hk|frame Hk|done| |frame Hk|by apply latest_le_max|done].
    apply (latest_set _ _ _ _ _ (registered_object b ci)); [done|eval_pred|done].
  - destruct (perm_add (of_blob b is_perm) m k (Some (registered_object b ci)) e
      (V1.permanent_total v) (registered_object b ci) ci)
      as (p' & Hup & Hp' & Hend); try done; [rewrite Hk; done|eval_pred|lia|].
    unfold perm_register. rewrite Hup. cbn [mbind outcome_bind].
    eexists. split; [done|]. fields; [rewrite Hd; eval_cnt Hk|rewrite Hdc; eval_cnt Hk
      |done|frame Hk| |frame Hk|frame Hk|done|done].
    destruct (V1.permanent_certified v) as [c|], (V1.permanent_total v); cbn in *; (done || lia).
Qed.

Lemma v1_update_initial s x force :
  V1.update_initial_certified_epoch s x force =
    V1.set_initial (if force || is_none_or (V1.initial_certified_epoch s) (fun y => x <? y)
                    then Some x else V1.initial_certified_epoch s) s.
Proof. unfold V1.update_initial_certified_epoch. destruct s. by case_match. Qed.

Lemma v1_maybe_unset s n : 0 <= V1.count_deletable_certified s ->
  perm_count (V1.permanent_certified s) ->
  n = V1.count_deletable_certified s + from_option p_count 0 (V1.permanent_certified s) ->
  V1.maybe_unset_initial_certified_epoch s =
    V1.set_initial (if n =? 0 then None else V1.initial_certified_epoch s) s.
Proof.
  intros Hc Hp ->. unfold V1.maybe_unset_initial_certified_epoch.
  destruct (V1.permanent_certified s) as [p|] eqn:Hs; cbn in *.
  - rewrite andb_false_r. destruct (Z.eqb_spec (V1.count_deletable_certified s + p_count p) 0); [lia|].
    by destruct s.
  - rewrite Z.add_0_r, andb_true_r. destruct (_ =? 0); by destruct s.
Qed.

Lemma v1_certify ci o : m !! k = Some o -> o_blob_id o = b -> o_certified_epoch o = None ->
  o_deletable o = deletable ci -> end_epoch ci = o_end_epoch o -> 0 <= end_epoch ci ->
  epoch ci <= e ->
  exists v', V1.update_status v Certify ci = Ok v' /\
    repr_v1 e b (upd k (Some (certified_object o ci)) m) v'.
Proof.
  intros Hk Hb Hcert Hdel Hend Hnn He. destruct v1_counts as (Hcd & Hcp & Hcdc & Hcpc).
  pose proof (certified_below b m k o ci Hk Hb Hcert) as Hlt.
  assert (forall c, live_cert e b (upd k (Some (certified_object o ci)) m) c ->
    c = epoch ci \/ live_cert e b m c) as Hlive'.
  { intros c [|(o' & [= <-] & _ & _ & [= <-])]%live_cert_upd; [by right|by left]. }
  assert (0 < cnt (of_blob b is_cert) (upd k (Some (certified_object o ci)) m)) as Hpos.
  { eapply cnt_set_pos; [done|]. by rewrite of_blob_eq. }
  pose proof (init_certified _ _ _ _ _ _ _ (V1.valid_is_certified v (epoch ci)) He (r1_init _ _ _ _ Hr)
    (fun c y => v1_live_certified (epoch ci) c y He) (live_cert_count e b m) Hlive' Hpos) as Hi'.
  destruct Hr as [Hd Hdc Hp Hpc Hple Hl Hlc Hlle Hi].
  unfold V1.update_status, V1.update_status_objects. rewrite <- Hdel.
  destruct (o_deletable o) eqn:Hod.
  - destruct (Z.leb_spec (V1.count_deletable_total v) (V1.count_deletable_certified v)); [lia|].
    rewrite arith_in_range by uint_lia. cbn [mbind outcome_bind].
    rewrite v1_update_initial. eexists. split; [done|].
    fields; [rewrite Hd; eval_cnt Hk|rewrite Hdc; eval_cnt Hk|frame Hk|frame Hk|done
      |keep Hk| | |done].
    + rewrite Hend. apply (latest_set _ _ _ _ _ (certified_object o ci)); [done|eval_pred|done].
    + destruct (V1.latest_seen_deletable_registered_end_epoch v) as [x|].
      * destruct Hl as [_ Hall]. specialize (Hall k o Hk ltac:(by rewrite of_blob_eq)).
        destruct (V1.latest_seen_deletable_certified_end_epoch v); unfold latest_le in *; cbn; lia.
      * unfold latest_repr in Hl. lia.
  - destruct (perm_repr_count _ _ _ _ Hp) as [_ Hpn]. destruct (perm_repr_count _ _ _ _ Hpc) as [_ Hcn].
    destruct (V1.permanent_total v) as [t|] eqn:Ht; [|cbn in Hpn; lia]. cbn in Hpn.
    pose proof Hp as (_ & _ & Hall & _). specialize (Hall k o Hk ltac:(rewrite of_blob_eq by done; eval_pred)).
    destruct (perm_add (of_blob b is_perm_cert) m k (Some (certified_object o ci)) e
      (V1.permanent_certified v) (certified_object o ci) ci) as (p' & Hup & Hp' & Hpend);
      try done; [rewrite Hk; eval_pred|eval_pred|lia|].
    unfold perm_certify. destruct (Z.ltb_spec (p_end_epoch t) (end_epoch ci)); [lia|].
    rewrite Hcn. destruct (Z.leb_spec (p_count t) (cnt (of_blob b is_perm_cert) m)); [lia|].
    rewrite Hup. cbn [mbind outcome_bind]. rewrite v1_update_initial. eexists. split; [done|].
    fields; [rewrite Hd; eval_cnt Hk|rewrite Hdc; eval_cnt Hk|keep Hk|done| |
      frame Hk|frame Hk|done|done].
    cbn. destruct (V1.permanent_certified v); cbn in *; lia.
Qed.

Lemma v1_extend ci o : m !! k = Some o -> o_blob_id o = b -> is_cert o = true ->
  o_deletable o = deletable ci -> o_end_epoch o <= end_epoch ci -> e < o_end_epoch o ->
  exists v', V1.update_status v Extend ci = Ok v' /\
    repr_v1 e b (upd k (Some (extended_object o ci)) m) v'.
Proof.
  intros Hk Hb Hcert Hdel Hend He. set (o' := extended_object o ci).
  destruct Hr as [Hd Hdc Hp Hpc Hple Hl Hlc Hlle Hi].
  assert (init_repr e (V1.initial_certified_epoch v) (cnt (of_blob b is_cert) (upd k (Some o') m))
    (live_cert e b (upd k (Some o') m))) as Hi'.
  { eapply init_same; [exact Hi| |unfold o'; eval_cnt Hk].
    intros c [|(x & [= <-] & _ & _ & Hc)]%live_cert_upd; [done|]. by exists k, o. }
  unfold V1.update_status, V1.update_status_objects. rewrite <- Hdel.
  unfold o' in *. clear o'. destruct (o_deletable o) eqn:Hod; cbn [mbind outcome_bind].
  - eexists. split; [done|]. fields; [rewrite Hd; eval_cnt Hk|rewrite Hdc; eval_cnt Hk|frame Hk
      |frame Hk|done| | | |done].
    + apply (latest_set _ _ _ _ _ (extended_object o ci)); [done|eval_pred|done].
    + apply (latest_set _ _ _ _ _ (extended_object o ci)); [done|eval_pred|done].
    + destruct (V1.latest_seen_deletable_certified_end_epoch v) as [c|].
      * by apply latest_le_max_both.
      * apply (proj1 (cnt_zero_iff _ m)) with (k := k) (x := o) in Hlc; [|done].
        rewrite of_blob_eq in Hlc by done. revert Hlc. eval_pred.
  - destruct (perm_extended (of_blob b is_perm) m k (Some (extended_object o ci)) e
      (V1.permanent_total v) o (extended_object o ci) ci) as (t & t' & Ht & Hxt & Hrt & Het);
      try done; [eval_pred|eval_pred|].
    destruct (perm_extended (of_blob b is_perm_cert) m k (Some (extended_object o ci)) e
      (V1.permanent_certified v) o (extended_object o ci) ci) as (c & c' & Hc & Hxc & Hrc & Hec);
      try done; [eval_pred|eval_pred|].
    rewrite Hxt, Hxc. cbn [mbind outcome_bind]. eexists. split; [done|].
    fields; [rewrite Hd; eval_cnt Hk|rewrite Hdc; eval_cnt Hk|done|done| |frame Hk|frame Hk|done|done].
    rewrite Ht, Hc in Hple. cbn in *. lia.
Qed.

(** The counters after the removal of a deletable object. *)
Lemma v1_decrement P o l : m !! k = Some o -> P o = true -> latest_repr l P m ->
  V1.decrement_deletable_counter_and_maybe_unset_latest_end_epoch (cnt P m) l
    = Ok (cnt P (upd k None m), if cnt P m - 1 =? 0 then None else l) /\
  latest_repr (if cnt P m - 1 =? 0 then None else l) P (upd k None m).
Proof.
  intros Hk HP Hl. assert (0 < cnt P m) as Hpos by (apply cnt_pos_iff; eauto).
  split; [|by eapply latest_remove].
  unfold V1.decrement_deletable_counter_and_maybe_unset_latest_end_epoch, debug_assert.
  rewrite (proj2 (Z.ltb_lt 0 _) Hpos). unfold checked_sub.
  rewrite (proj2 (Z.leb_le 1 (cnt P m))) by lia. rewrite cnt_upd, Hk. cbn. rewrite HP. cbn.
  destruct debug_assertions; cbn; do 2 f_equal; lia.
Qed.

Lemma live_cert_removed c : live_cert e b (upd k None m) c -> live_cert e b m c.
Proof. intros [|(? & ? & _)]%live_cert_upd; done. Qed.

Lemma v1_remove_deletable o : m !! k = Some o -> o_blob_id o = b -> o_deletable o = true ->
  exists v', V1.update_deletable_counters_and_end_epochs v (is_cert o) = Ok v' /\
    repr_v1 e b (upd k None m) (V1.maybe_unset_initial_certified_epoch v').
Proof.
  intros Hk Hb Hod. destruct v1_counts as (Hcd & Hcp & Hcdc & Hcpc).
  destruct Hr as [Hd Hdc Hp Hpc Hple Hl Hlc Hlle Hi].
  destruct (v1_decrement (of_blob b is_del) o _ Hk ltac:(by rewrite of_blob_eq) Hl) as [Hdec Hl'].
  unfold V1.update_deletable_counters_and_end_epochs. rewrite Hd, Hdec. cbn [mbind outcome_bind].
  pose proof (cnt_cert_split b (upd k None m)) as Hsplit. pose proof (cnt_cert_split b m) as Hsplit0.
  assert (cnt (of_blob b is_perm_cert) (upd k None m) = cnt (of_blob b is_perm_cert) m) as Hpc'.
  { eval_cnt Hk. }
  pose proof (cnt_nonneg (of_blob b is_del_cert) (upd k None m)).
  destruct (perm_repr_count _ _ _ _ Hpc) as [Hpcount Hpn].
  assert (cnt (of_blob b is_del_cert) (upd k None m) <= cnt (of_blob b is_del_cert) m) as Hdle.
  { eval_cnt Hk. destruct (is_some _); cbn; lia. }
  assert (forall i, init_repr e i (cnt (of_blob b is_cert) m) (live_cert e b m) ->
    init_repr e (if cnt (of_blob b is_cert) (upd k None m) =? 0 then None else i)
      (cnt (of_blob b is_cert) (upd k None m)) (live_cert e b (upd k None m))) as Hinit.
  { intros i Hi0. eapply init_removed; [exact Hi0|apply live_cert_removed|lia]. }
  destruct (is_cert o) eqn:Hco.
  - destruct (v1_decrement (of_blob b is_del_cert) o _ Hk
      ltac:(rewrite of_blob_eq by done; eval_pred) Hlc) as [Hdec' Hlc'].
    cbn [V1.set_registered V1.count_deletable_certified V1.latest_seen_deletable_certified_end_epoch].
    rewrite Hdc, Hdec'. cbn [mbind outcome_bind]. eexists. split; [done|].
    rewrite (v1_maybe_unset _ (cnt (of_blob b is_cert) (upd k None m))) by (cbn; done || lia).
    fields; [done|done|frame Hk|frame Hk|done|done|done| |by apply Hinit].
    apply (latest_le_repr b (upd k None m)); [done|done|]. intros x y. repeat case_match; try done;
    intros Hx Hy; by rewrite Hx, Hy in Hlle.
  - eexists. split; [done|].
    assert (cnt (of_blob b is_del_cert) (upd k None m) = cnt (of_blob b is_del_cert) m) as Hsame.
    { eval_cnt Hk. }
    rewrite (v1_maybe_unset _ (cnt (of_blob b is_cert) (upd k None m))) by (cbn; done || lia).
    fields; [done|by rewrite Hdc|frame Hk|frame Hk|done|done|frame Hk| |by apply Hinit].
    apply (latest_le_repr b (upd k None m)); [frame Hk|done|]. intros x y Hx Hy.
    destruct (_ =? 0); [done|]. by rewrite Hx, Hy in Hlle.
Qed.

Lemma v1_remove_permanent o : m !! k = Some o -> o_blob_id o = b -> o_deletable o = false ->
  o_end_epoch o <= e ->
  exists v', V1.permanent_expired v (is_cert o) = Ok v' /\ repr_v1 e b (upd k None m) v'.
Proof.
  intros Hk Hb Hod He. destruct v1_counts as (Hcd & Hcp & Hcdc & Hcpc).
  destruct Hr as [Hd Hdc Hp Hpc Hple Hl Hlc Hlle Hi].
  destruct (perm_removed (of_blob b is_perm) m k None e _ o Hk ltac:(rewrite of_blob_eq by done; eval_pred)
    eq_refl He Hp) as (t & t' & Ht & Hdt & Hrt & Het).
  unfold V1.permanent_expired. rewrite Hdt. cbn [mbind outcome_bind].
  pose proof (cnt_cert_split b (upd k None m)) as Hsplit. pose proof (cnt_cert_split b m) as Hsplit0.
  assert (cnt (of_blob b is_del_cert) (upd k None m) = cnt (of_blob b is_del_cert) m) as Hdc'.
  { eval_cnt Hk. }
  assert (cnt (of_blob b is_perm_cert) (upd k None m) <= cnt (of_blob b is_perm_cert) m) as Hple'.
  { eval_cnt Hk. destruct (is_some _); cbn; lia. }
  pose proof (cnt_nonneg (of_blob b is_perm_cert) (upd k None m)).
  destruct (perm_cert_removed e b m k o (V1.permanent_certified v) Hk Hb Hod He Hpc)
    as (c' & Hdc2 & Hrc & Hec).
  rewrite Hdc2. cbn [mbind outcome_bind]. destruct (perm_repr_count _ _ _ _ Hrc) as [Hpcount Hpn].
  eexists. split; [done|].
  rewrite (v1_maybe_unset _ (cnt (of_blob b is_cert) (upd k None m))) by (cbn; done || lia).
  fields; [rewrite Hd; eval_cnt Hk|by rewrite Hdc|done|done| |frame Hk|frame Hk|done|].
  - apply (perm_le_repr e b (upd k None m)); [done|done|]. intros x y Hx Hy. destruct (Hec x Hx) as (c & Hc & ->).
    rewrite (Het y Hy). rewrite Ht, Hc in Hple. done.
  - eapply init_removed; [exact Hi|apply live_cert_removed|lia].
Qed.

(** Version 1 simulates every object step. *)
Lemma v1_step op new : object_step e b (m !! k) op new ->
  exists v', V1.merge_with_v1 (V1.Valid v) op = Ok (V1.Valid v') /\
    repr_v1 e b (upd k new m) v'.
Proof.
  intros Hstep. remember (m !! k) as old eqn:Hk. symmetry in Hk.
  destruct Hstep as [ci Hb Hnn|ci o Hb Hc Hd He Hnn Hep|ci o Hb Hc Hd Hle Hlt|ci o Hb Hd Hcd|o Hb He].
  - destruct (v1_register ci Hk Hb) as (v' & Hup & Hr'). exists v'. cbn. by rewrite Hup.
  - destruct (v1_certify ci o Hk Hb Hc Hd He Hnn Hep) as (v' & Hup & Hr'). exists v'. cbn. by rewrite Hup.
  - destruct (v1_extend ci o Hk Hb Hc Hd Hle Hlt) as (v' & Hup & Hr'). exists v'. cbn. by rewrite Hup.
  - destruct (v1_remove_deletable o Hk Hb Hd) as (v' & Hup & Hr').
    eexists. split; [|exact Hr']. cbn. unfold V1.update_status, V1.update_status_objects.
    by rewrite Hcd, Hup.
  - destruct (o_deletable o) eqn:Hd.
    + destruct (v1_remove_deletable o Hk Hb Hd) as (v' & Hup & Hr').
      eexists. split; [|exact Hr']. cbn. unfold V1.deletable_expired. by rewrite Hup.
    + destruct (v1_remove_permanent o Hk Hb Hd He) as (v' & Hup & Hr').
      eexists. split; [|exact Hr']. cbn. by rewrite Hup.
Qed.

End v1.

(** ** Version 2 *)

Abbreviation pooled_objects := (gmap ObjectID PerObjectPooledBlobInfo).

Definition pool_of (b : BlobId) (P : PerObjectPooledBlobInfo -> bool)
    (o : PerObjectPooledBlobInfo) : bool :=
  bool_decide (po_blob_id o = b) && P o.
Definition pool_any (o : PerObjectPooledBlobInfo) : bool := true.
Definition pool_cert (o : PerObjectPooledBlobInfo) : bool := is_some (po_certified_epoch o).

Definition pool_live_cert (b : BlobId) (mp : pooled_objects) (c : Epoch) : Prop :=
  exists k o, mp !! k = Some o /\ po_blob_id o = b /\ po_certified_epoch o = Some c.

(** The step of one pooled object of blob [b] in epoch [e]. *)
Definition pooled_registered (b : BlobId) (ci : PooledBlobChangeInfo) : PerObjectPooledBlobInfo :=
  mk_pooled b (pc_epoch ci) None (pc_storage_pool_id ci) (pc_status_event ci).

Definition pooled_certified (o : PerObjectPooledBlobInfo) (ci : PooledBlobChangeInfo) :
    PerObjectPooledBlobInfo :=
  mk_pooled (po_blob_id o) (po_registered_epoch o) (Some (pc_epoch ci)) (po_storage_pool_id o)
    (pc_status_event ci).

Inductive pooled_step (e : Epoch) (b : BlobId) :
    option PerObjectPooledBlobInfo -> BlobInfoMergeOperand -> option PerObjectPooledBlobInfo ->
    Prop :=
| pstep_register ci : pc_blob_id ci = b ->
    pooled_step e b None (PooledBlobChangeStatus Register ci) (Some (pooled_registered b ci))
| pstep_certify ci o : po_blob_id o = b -> po_certified_epoch o = None -> pc_epoch ci <= e ->
    pooled_step e b (Some o) (PooledBlobChangeStatus Certify ci) (Some (pooled_certified o ci))
| pstep_delete ci o : po_blob_id o = b ->
    pooled_step e b (Some o) (PooledBlobChangeStatus (Delete (pool_cert o)) ci) None
| pstep_expire pool o : po_blob_id o = b ->
    pooled_step e b (Some o) (PoolExpired pool (pool_cert o)) None.

Record repr_v2 (e : Epoch) (b : BlobId) (m : objects) (mp : pooled_objects)
    (v : V2.ValidBlobInfo) : Prop := {
  r2_del : V2.count_deletable_total v = cnt (of_blob b is_del) m;
  r2_del_cert : V2.count_deletable_certified v = cnt (of_blob b is_del_cert) m;
  r2_perm : perm_repr e (V2.permanent_total v) (of_blob b is_perm) m;
  r2_perm_cert : perm_repr e (V2.permanent_certified v) (of_blob b is_perm_cert) m;
  r2_perm_le : perm_le (V2.permanent_certified v) (V2.permanent_total v);
  r2_pool : V2.count_pooled_refs_total v = cnt (pool_of b pool_any) mp;
  r2_pool_cert : V2.count_pooled_refs_certified v = cnt (pool_of b pool_cert) mp;
  r2_init : init_repr e (V2.initial_certified_epoch v)
    (cnt (of_blob b is_cert) m + cnt (pool_of b pool_cert) mp)
    (fun c => live_cert e b m c \/ pool_live_cert b mp c);
}.

Lemma pool_of_eq b P o : po_blob_id o = b -> pool_of b P o = P o.
Proof. intros Hb. unfold pool_of. by rewrite bool_decide_eq_true_2. Qed.

Lemma pool_live_count b mp c : pool_live_cert b mp c -> 0 < cnt (pool_of b pool_cert) mp.
Proof.
  intros (k & o & Hk & Hb & Hc). apply cnt_pos_iff. exists k, o. split; [done|].
  rewrite pool_of_eq by done. unfold pool_cert. by rewrite Hc.
Qed.

Lemma pool_live_upd b k new mp c : pool_live_cert b (upd k new mp) c ->
  pool_live_cert b mp c \/ exists o, new = Some o /\ po_certified_epoch o = Some c.
Proof.
  intros (k' & o & Hk & Hb & Hc). apply lookup_upd_Some in Hk as [[-> ->]|[_ Hk]].
  - right. by exists o.
  - left. by exists k', o.
Qed.

Lemma cnt_pool_cert_le b (mp : pooled_objects) :
  cnt (pool_of b pool_cert) mp <= cnt (pool_of b pool_any) mp.
Proof.
  apply cnt_mono. intros o. unfold pool_of. rewrite !andb_true_iff. naive_solver.
Qed.

(** The upgrade from version 1 keeps the representation, where there is no
    pooled object yet. *)
Lemma upgrade_repr e b m mp v : cnt (pool_of b pool_any) mp = 0 -> repr_v1 e b m v ->
  repr_v2 e b m mp (V2.from_valid_v1 v).
Proof.
  intros Hz [Hd Hdc Hp Hpc Hple Hl Hlc Hlle Hi]. pose proof (cnt_pool_cert_le b mp).
  pose proof (cnt_nonneg (pool_of b pool_cert) mp).
  constructor; cbn -[perm_repr init_repr perm_le]; try (done || lia).
  eapply init_same; [exact Hi| |lia]. intros c [Hc|Hc%pool_live_count]; [done|lia].
Qed.

Section v2.
Context `{Build} (e : Epoch) (b : BlobId) (m : objects) (mp : pooled_objects).
Context (k : ObjectID) (v : V2.ValidBlobInfo) (Hr : repr_v2 e b m mp v).

Lemma v2_live_count c : live_cert e b m c \/ pool_live_cert b mp c ->
  0 < cnt (of_blob b is_cert) m + cnt (pool_of b pool_cert) mp.
Proof.
  intros Hc. pose proof (cnt_nonneg (of_blob b is_cert) m).
  pose proof (cnt_nonneg (pool_of b pool_cert) mp).
  destruct Hc as [Hc%live_cert_count|Hc%pool_live_count]; lia.
Qed.

Lemma v2_live_certified x c y : x <= e -> live_cert e b m c \/ pool_live_cert b mp c ->
  V2.initial_certified_epoch v = Some y -> y <= x -> V2.valid_is_certified v x = true.
Proof.
  intros Hx Hc Hy Hyx. destruct Hr as [_ Hdc _ Hpc _ _ Hplc _]. unfold V2.valid_is_certified.
  rewrite Hy. cbn [is_some_and]. rewrite (proj2 (Z.leb_le y x) Hyx). cbn [andb].
  rewrite !orb_true_iff, Hdc, Hplc.
  destruct Hc as [(k' & o & Hk & Hb & He & Hco)|Hc%pool_live_count]; [left|right; by apply Z.ltb_lt].
  destruct (o_deletable o) eqn:Hd.
  - right. apply Z.ltb_lt, cnt_pos_iff. exists k', o. split; [done|].
    rewrite of_blob_eq by done. eval_pred.
  - left. destruct (V2.permanent_certified v) as [p|]; cbn in Hpc |- *.
    + destruct Hpc as (_ & _ & Hall & _). apply Z.ltb_lt.
      specialize (Hall k' o Hk ltac:(rewrite of_blob_eq by done; eval_pred)). lia.
    + apply (proj1 (cnt_zero_iff _ m)) with (k := k') (x := o) in Hpc; [|done].
      rewrite of_blob_eq in Hpc by done. revert Hpc. eval_pred.
Qed.

Lemma v2_update_initial s x force :
  V2.update_initial_certified_epoch s x force =
    V2.set_initial (if force || is_none_or (V2.initial_certified_epoch s) (fun y => x <? y)
                    then Some x else V2.initial_certified_epoch s) s.
Proof. unfold V2.update_initial_certified_epoch. destruct s. by case_match. Qed.

Lemma v2_maybe_unset s n : 0 <= V2.count_deletable_certified s ->
  0 <= V2.count_pooled_refs_certified s -> perm_count (V2.permanent_certified s) ->
  n = V2.count_deletable_certified s + from_option p_count 0 (V2.permanent_certified s)
      + V2.count_pooled_refs_certified s ->
  V2.maybe_unset_initial_certified_epoch s =
    V2.set_initial (if n =? 0 then None else V2.initial_certified_epoch s) s.
Proof.
  intros Hc Hpl Hp ->. unfold V2.maybe_unset_initial_certified_epoch.
  destruct (V2.permanent_certified s) as [p|] eqn:Hs; cbn in *.
  - rewrite andb_false_r. destruct (Z.eqb_spec (V2.count_deletable_certified s + p_count p
      + V2.count_pooled_refs_certified s) 0); [lia|]. by destruct s.
  - rewrite andb_true_r, Z.add_0_r.
    destruct (Z.eqb_spec (V2.count_pooled_refs_certified s) 0),
      (Z.eqb_spec (V2.count_deletable_certified s) 0),
      (Z.eqb_spec (V2.count_deletable_certified s + V2.count_pooled_refs_certified s) 0);
      try lia; by destruct s.
Qed.

(** The fields of a representation, one goal each. *)
Ltac fields2 := constructor; cbn -[perm_repr init_repr perm_le].

Section v2_steps.
Context (Hmax : cnt (of_blob b (fun _ => true)) m < u32_MAX).
Context (Hpmax : cnt (pool_of b pool_any) mp < u32_MAX).

Lemma v2_register ci : m !! k = None -> ci_blob_id ci = b ->
  exists v', V2.update_status v Register ci = Ok v' /\
    repr_v2 e b (upd k (Some (registered_object b ci)) m) mp v'.
Proof.
  intros Hk Hb. destruct (v1_counts b m Hmax) as (Hcd & Hcp & Hcdc & Hcpc).
  destruct Hr as [Hd Hdc Hp Hpc Hple Hpl Hplc Hi].
  assert (init_repr e (V2.initial_certified_epoch v)
    (cnt (of_blob b is_cert) (upd k (Some (registered_object b ci)) m) + cnt (pool_of b pool_cert) mp)
    (fun c => live_cert e b (upd k (Some (registered_object b ci)) m) c \/ pool_live_cert b mp c)) as Hi'.
  { eapply init_same; [exact Hi| |eval_cnt Hk].
    intros c [[|(o' & [= <-] & _ & _ & ?)]%live_cert_upd|]; [by left|done|by right]. }
  unfold V2.update_status, V2.update_status_objects.
  destruct (deletable ci) eqn:Hdel.
  - rewrite Hd, arith_in_range by uint_lia. cbn [mbind outcome_bind].
    eexists. split; [done|]. fields2; [eval_cnt Hk|rewrite Hdc; eval_cnt Hk
      |frame Hk|frame Hk|done|done|done|done].
  - destruct (perm_add (of_blob b is_perm) m k (Some (registered_object b ci)) e
      (V2.permanent_total v) (registered_object b ci) ci)
      as (p' & Hup & Hp' & Hend); try done; [rewrite Hk; done|eval_pred|lia|].
    unfold perm_register. rewrite Hup. cbn [mbind outcome_bind].
    eexists. split; [done|]. fields2; [rewrite Hd; eval_cnt Hk|rewrite Hdc; eval_cnt Hk
      |done|frame Hk| |done|done|done].
    destruct (V2.permanent_certified v) as [c|], (V2.permanent_total v); cbn in *; (done || lia).
Qed.

Lemma v2_certify ci o : m !! k = Some o -> o_blob_id o = b -> o_certified_epoch o = None ->
  o_deletable o = deletable ci -> end_epoch ci = o_end_epoch o -> epoch ci <= e ->
  exists v', V2.update_status v Certify ci = Ok v' /\
    repr_v2 e b (upd k (Some (certified_object o ci)) m) mp v'.
Proof.
  intros Hk Hb Hcert Hdel Hend He. destruct (v1_counts b m Hmax) as (Hcd & Hcp & Hcdc & Hcpc).
  pose proof (certified_below b m k o ci Hk Hb Hcert) as Hlt.
  set (m' := upd k (Some (certified_object o ci)) m).
  assert (forall c, live_cert e b m' c \/ pool_live_cert b mp c ->
    c = epoch ci \/ (live_cert e b m c \/ pool_live_cert b mp c)) as Hlive'.
  { intros c [[|(o' & [= <-] & _ & _ & [= <-])]%live_cert_upd|]; [by right; left|by left|by right; right]. }
  assert (0 < cnt (of_blob b is_cert) m' + cnt (pool_of b pool_cert) mp) as Hpos.
  { pose proof (cnt_nonneg (pool_of b pool_cert) mp).
    assert (0 < cnt (of_blob b is_cert) m'); [|lia].
    eapply cnt_set_pos; [done|]. by rewrite of_blob_eq. }
  pose proof (init_certified _ _ _ _ _ _ _ (V2.valid_is_certified v (epoch ci)) He
    (r2_init _ _ _ _ _ Hr) (fun c y => v2_live_certified (epoch ci) c y He) v2_live_count
    Hlive' Hpos) as Hi'.
  destruct Hr as [Hd Hdc Hp Hpc Hple Hpl Hplc Hi].
  unfold V2.update_status, V2.update_status_objects. rewrite <- Hdel. unfold m' in *. clear m'.
  destruct (o_deletable o) eqn:Hod.
  - destruct (Z.leb_spec (V2.count_deletable_total v) (V2.count_deletable_certified v)); [lia|].
    rewrite arith_in_range by uint_lia. cbn [mbind outcome_bind].
    rewrite v2_update_initial. eexists. split; [done|].
    fields2; [rewrite Hd; eval_cnt Hk|rewrite Hdc; eval_cnt Hk|frame Hk|frame Hk|done|done|done|done].
  - destruct (perm_repr_count _ _ _ _ Hp) as [_ Hpn]. destruct (perm_repr_count _ _ _ _ Hpc) as [_ Hcn].
    destruct (V2.permanent_total v) as [t|] eqn:Ht; [|cbn in Hpn; lia]. cbn in Hpn.
    pose proof Hp as (_ & _ & Hall & _).
    specialize (Hall k o Hk ltac:(rewrite of_blob_eq by done; eval_pred)).
    destruct (perm_add (of_blob b is_perm_cert) m k (Some (certified_object o ci)) e
      (V2.permanent_certified v) (certified_object o ci) ci) as (p' & Hup & Hp' & Hpend);
      try done; [rewrite Hk; eval_pred|eval_pred|lia|].
    unfold perm_certify. destruct (Z.ltb_spec (p_end_epoch t) (end_epoch ci)); [lia|].
    rewrite Hcn. destruct (Z.leb_spec (p_count t) (cnt (of_blob b is_perm_cert) m)); [lia|].
    rewrite Hup. cbn [mbind outcome_bind]. rewrite v2_update_initial. eexists. split; [done|].
    fields2; [rewrite Hd; eval_cnt Hk|rewrite Hdc; eval_cnt Hk|keep Hk|done| |done|done|done].
    cbn. destruct (V2.permanent_certified v); cbn in *; lia.
Qed.

Lemma v2_extend ci o : m !! k = Some o -> o_blob_id o = b -> is_cert o = true ->
  o_deletable o = deletable ci -> o_end_epoch o <= end_epoch ci -> e < o_end_epoch o ->
  exists v', V2.update_status v Extend ci = Ok v' /\
    repr_v2 e b (upd k (Some (extended_object o ci)) m) mp v'.
Proof.
  intros Hk Hb Hcert Hdel Hend He. destruct Hr as [Hd Hdc Hp Hpc Hple Hpl Hplc Hi].
  assert (init_repr e (V2.initial_certified_epoch v)
    (cnt (of_blob b is_cert) (upd k (Some (extended_object o ci)) m) + cnt (pool_of b pool_cert) mp)
    (fun c => live_cert e b (upd k (Some (extended_object o ci)) m) c \/ pool_live_cert b mp c)) as Hi'.
  { eapply init_same; [exact Hi| |eval_cnt Hk].
    intros c [[|(x & [= <-] & _ & _ & Hc)]%live_cert_upd|]; [by left| |by right].
    left. by exists k, o. }
  unfold V2.update_status, V2.update_status_objects. rewrite <- Hdel.
  destruct (o_deletable o) eqn:Hod; cbn [mbind outcome_bind].
  - eexists. split; [done|]. fields2; [rewrite Hd; eval_cnt Hk|rewrite Hdc; eval_cnt Hk|frame Hk
      |frame Hk|done|done|done|done].
  - destruct (perm_extended (of_blob b is_perm) m k (Some (extended_object o ci)) e
      (V2.permanent_total v) o (extended_object o ci) ci) as (t & t' & Ht & Hxt & Hrt & Het);
      try done; [eval_pred|eval_pred|].
    destruct (perm_extended (of_blob b is_perm_cert) m k (Some (extended_object o ci)) e
      (V2.permanent_certified v) o (extended_object o ci) ci) as (c & c' & Hc & Hxc & Hrc & Hec);
      try done; [eval_pred|eval_pred|].
    rewrite Hxt, Hxc. cbn [mbind outcome_bind]. eexists. split; [done|].
    fields2; [rewrite Hd; eval_cnt Hk|rewrite Hdc; eval_cnt Hk|done|done| |done|done|done].
    rewrite Ht, Hc in Hple. cbn in *. lia.
Qed.

Lemma v2_init_removed i : init_repr e i (cnt (of_blob b is_cert) m + cnt (pool_of b pool_cert) mp)
    (fun c => live_cert e b m c \/ pool_live_cert b mp c) ->
  let n := cnt (of_blob b is_cert) (upd k None m) + cnt (pool_of b pool_cert) mp in
  cnt (of_blob b is_cert) (upd k None m) <= cnt (of_blob b is_cert) m ->
  init_repr e (if n =? 0 then None else i) n
    (fun c => live_cert e b (upd k None m) c \/ pool_live_cert b mp c).
Proof.
  intros Hi n Hle. subst n. pose proof (cnt_nonneg (of_blob b is_cert) (upd k None m)).
  pose proof (cnt_nonneg (pool_of b pool_cert) mp).
  eapply init_removed; [exact Hi| |lia].
  intros c [Hc|Hc]; [left; by eapply live_cert_removed|by right].
Qed.

Lemma v2_remove_deletable o : m !! k = Some o -> o_blob_id o = b -> o_deletable o = true ->
  repr_v2 e b (upd k None m) mp (V2.deletable_expired v (is_cert o)).
Proof.
  intros Hk Hb Hod. destruct (v1_counts b m Hmax) as (Hcd & Hcp & Hcdc & Hcpc).
  destruct Hr as [Hd Hdc Hp Hpc Hple Hpl Hplc Hi].
  pose proof (cnt_cert_split b (upd k None m)) as Hsplit. pose proof (cnt_cert_split b m) as Hsplit0.
  assert (cnt (of_blob b is_perm_cert) (upd k None m) = cnt (of_blob b is_perm_cert) m) as Hpc' by eval_cnt Hk.
  assert (cnt (of_blob b is_del) (upd k None m) = cnt (of_blob b is_del) m - 1) as Hd' by eval_cnt Hk.
  assert (cnt (of_blob b is_del_cert) (upd k None m) = cnt (of_blob b is_del_cert) m - b2z (is_cert o)) as Hdc'.
  { eval_cnt Hk. }
  pose proof (cnt_nonneg (of_blob b is_del_cert) (upd k None m)).
  pose proof (cnt_nonneg (of_blob b is_del) (upd k None m)).
  pose proof (cnt_nonneg (pool_of b pool_cert) mp).
  destruct (perm_repr_count _ _ _ _ Hpc) as [Hpcount Hpn].
  assert ((if is_cert o then saturating_sub (V2.count_deletable_certified v) 1
           else V2.count_deletable_certified v) = cnt (of_blob b is_del_cert) (upd k None m)) as Hcc.
  { rewrite Hdc, Hdc'. unfold saturating_sub. destruct (is_cert o); cbn in *; lia. }
  unfold V2.deletable_expired, V2.update_deletable_counters. rewrite Hcc.
  rewrite (v2_maybe_unset _ (cnt (of_blob b is_cert) (upd k None m) + cnt (pool_of b pool_cert) mp))
    by (cbn; done || lia).
  fields2; [unfold saturating_sub; lia|done|frame Hk|frame Hk|done|done|done|].
  apply v2_init_removed; [done|]. destruct (is_cert o); cbn in *; lia.
Qed.

Lemma v2_remove_permanent o : m !! k = Some o -> o_blob_id o = b -> o_deletable o = false ->
  o_end_epoch o <= e ->
  exists v', V2.permanent_expired v (is_cert o) = Ok v' /\ repr_v2 e b (upd k None m) mp v'.
Proof.
  intros Hk Hb Hod He. destruct (v1_counts b m Hmax) as (Hcd & Hcp & Hcdc & Hcpc).
  destruct Hr as [Hd Hdc Hp Hpc Hple Hpl Hplc Hi].
  destruct (perm_removed (of_blob b is_perm) m k None e _ o Hk ltac:(rewrite of_blob_eq by done; eval_pred)
    eq_refl He Hp) as (t & t' & Ht & Hdt & Hrt & Het).
  unfold V2.permanent_expired. rewrite Hdt. cbn [mbind outcome_bind].
  pose proof (cnt_cert_split b (upd k None m)) as Hsplit. pose proof (cnt_cert_split b m) as Hsplit0.
  assert (cnt (of_blob b is_del_cert) (upd k None m) = cnt (of_blob b is_del_cert) m) as Hdc' by eval_cnt Hk.
  assert (cnt (of_blob b is_perm_cert) (upd k None m) <= cnt (of_blob b is_perm_cert) m) as Hple'.
  { eval_cnt Hk. destruct (is_some _); cbn; lia. }
  pose proof (cnt_nonneg (of_blob b is_perm_cert) (upd k None m)).
  pose proof (cnt_nonneg (pool_of b pool_cert) mp).
  destruct (perm_cert_removed e b m k o (V2.permanent_certified v) Hk Hb Hod He Hpc)
    as (c' & Hdc2 & Hrc & Hec).
  rewrite Hdc2. cbn [mbind outcome_bind]. destruct (perm_repr_count _ _ _ _ Hrc) as [Hpcount Hpn].
  eexists. split; [done|].
  rewrite (v2_maybe_unset _ (cnt (of_blob b is_cert) (upd k None m) + cnt (pool_of b pool_cert) mp))
    by (cbn; done || lia).
  fields2; [rewrite Hd; eval_cnt Hk|by rewrite Hdc|done|done| |done|done|].
  - apply (perm_le_repr e b (upd k None m)); [done|done|]. intros x y Hx Hy.
    destruct (Hec x Hx) as (c & Hc & ->). rewrite (Het y Hy). rewrite Ht, Hc in Hple. done.
  - apply v2_init_removed; [done|lia].
Qed.

(** Version 2 simulates every step of a regular object. *)
Lemma v2_step op new : object_step e b (m !! k) op new ->
  exists v', V2.merge_with_v2 (V2.Valid v) op = Ok (V2.Valid v') /\
    repr_v2 e b (upd k new m) mp v'.
Proof.
  intros Hstep. remember (m !! k) as old eqn:Hk. symmetry in Hk.
  destruct Hstep as [ci Hb Hnn|ci o Hb Hc Hd He Hnn Hep|ci o Hb Hc Hd Hle Hlt|ci o Hb Hd Hcd|o Hb He].
  - destruct (v2_register ci Hk Hb) as (v' & Hup & Hr'). exists v'. cbn. by rewrite Hup.
  - destruct (v2_certify ci o Hk Hb Hc Hd He Hep) as (v' & Hup & Hr'). exists v'. cbn. by rewrite Hup.
  - destruct (v2_extend ci o Hk Hb Hc Hd Hle Hlt) as (v' & Hup & Hr'). exists v'. cbn. by rewrite Hup.
  - eexists. split; [|exact (v2_remove_deletable o Hk Hb Hd)].
    cbn. unfold V2.update_status, V2.update_status_objects. by rewrite Hcd.
  - destruct (o_deletable o) eqn:Hd.
    + eexists. split; [|exact (v2_remove_deletable o Hk Hb Hd)]. done.
    + destruct (v2_remove_permanent o Hk Hb Hd He) as (v' & Hup & Hr').
      eexists. split; [|exact Hr']. cbn. by rewrite Hup.
Qed.

(** The fields about regular objects when a pooled object changes. *)
Lemma v2_pooled_fields new i n nc :
  n = cnt (pool_of b pool_any) (upd k new mp) -> nc = cnt (pool_of b pool_cert) (upd k new mp) ->
  init_repr e i (cnt (of_blob b is_cert) m + nc)
    (fun c => live_cert e b m c \/ pool_live_cert b (upd k new mp) c) ->
  repr_v2 e b m (upd k new mp) (V2.set_initial i (V2.set_pooled n nc v)).
Proof. intros -> -> Hi. destruct Hr. by constructor. Qed.

Lemma pooled_removed_counts o : mp !! k = Some o -> po_blob_id o = b ->
  cnt (pool_of b pool_any) (upd k None mp) = cnt (pool_of b pool_any) mp - 1 /\
  cnt (pool_of b pool_cert) (upd k None mp) = cnt (pool_of b pool_cert) mp - b2z (pool_cert o).
Proof.
  intros Hk Hb. rewrite !cnt_upd, !Hk. cbn [is_some_and]. rewrite !pool_of_eq by done. cbn. lia.
Qed.

Lemma v2_pool_delete o : mp !! k = Some o -> po_blob_id o = b ->
  repr_v2 e b m (upd k None mp) (V2.pool_delete v (pool_cert o)).
Proof.
  intros Hk Hb. destruct (pooled_removed_counts o Hk Hb) as [Hn Hnc].
  destruct (v1_counts b m Hmax) as (Hcd & Hcp & Hcdc & Hcpc).
  pose proof (cnt_nonneg (pool_of b pool_any) (upd k None mp)).
  pose proof (cnt_nonneg (pool_of b pool_cert) (upd k None mp)).
  pose proof (cnt_cert_split b m) as Hsplit.
  pose proof Hr as [Hd Hdc Hp Hpc Hple Hpl Hplc Hi].
  destruct (perm_repr_count _ _ _ _ Hpc) as [Hpcount Hpn].
  unfold V2.pool_delete. destruct (Z.eqb_spec (V2.count_pooled_refs_total v) 0); [lia|].
  assert ((if pool_cert o then saturating_sub (V2.count_pooled_refs_certified v) 1
           else V2.count_pooled_refs_certified v) = cnt (pool_of b pool_cert) (upd k None mp)) as ->.
  { rewrite Hplc, Hnc. unfold saturating_sub. destruct (pool_cert o); cbn in *; lia. }
  rewrite (v2_maybe_unset _ (cnt (of_blob b is_cert) m + cnt (pool_of b pool_cert) (upd k None mp)))
    by (cbn; done || lia).
  cbn [V2.set_pooled V2.initial_certified_epoch].
  apply v2_pooled_fields; [unfold saturating_sub; lia|done|].
  eapply init_removed; [exact Hi| |destruct (pool_cert o); cbn in *; lia].
  intros c [Hc|[Hc|(? & ? & _)]%pool_live_upd]; [by left|by right|done].
Qed.

Lemma v2_pool_register ci : mp !! k = None -> pc_blob_id ci = b ->
  repr_v2 e b m (upd k (Some (pooled_registered b ci)) mp) (V2.pool_register v).
Proof.
  intros Hk Hb. pose proof Hr as [Hd Hdc Hp Hpc Hple Hpl Hplc Hi].
  assert (V2.pool_register v = V2.set_initial (V2.initial_certified_epoch v)
    (V2.set_pooled (saturating_add 32 (V2.count_pooled_refs_total v) 1)
      (V2.count_pooled_refs_certified v) v)) as -> by done.
  pose proof (cnt_nonneg (pool_of b pool_any) mp).
  apply v2_pooled_fields.
  - rewrite Hpl, cnt_upd, Hk. cbn [is_some_and]. rewrite pool_of_eq by done. cbn.
    unfold saturating_add. uint_lia.
  - rewrite Hplc, cnt_upd, Hk. cbn [is_some_and]. rewrite pool_of_eq by done. cbn. lia.
  - eapply init_same; [exact Hi| |lia].
    intros c [Hc|[Hc|(? & [= <-] & ?)]%pool_live_upd]; [by left|by right|done].
Qed.

Lemma v2_pool_certify ci o : mp !! k = Some o -> po_blob_id o = b -> po_certified_epoch o = None ->
  pc_epoch ci <= e ->
  repr_v2 e b m (upd k (Some (pooled_certified o ci)) mp) (V2.pool_certify v (pc_epoch ci)).
Proof.
  intros Hk Hb Hc He. pose proof Hr as [Hd Hdc Hp Hpc Hple Hpl Hplc Hi].
  pose proof (cnt_nonneg (pool_of b pool_cert) mp). pose proof (cnt_nonneg (of_blob b is_cert) m).
  set (mp' := upd k (Some (pooled_certified o ci)) mp).
  assert (cnt (pool_of b pool_any) mp' = cnt (pool_of b pool_any) mp) as Hn.
  { unfold mp'. rewrite cnt_upd, Hk. cbn [is_some_and]. rewrite !pool_of_eq by done. cbn. lia. }
  assert (cnt (pool_of b pool_cert) mp' = cnt (pool_of b pool_cert) mp + 1) as Hnc.
  { unfold mp'. rewrite cnt_upd, Hk. cbn [is_some_and]. rewrite !pool_of_eq by done.
    unfold pool_cert at 2 3. rewrite Hc. cbn. lia. }
  pose proof (cnt_pool_cert_le b mp'). unfold V2.pool_certify.
  destruct (Z.leb_spec (V2.count_pooled_refs_total v) (V2.count_pooled_refs_certified v)); [lia|].
  rewrite v2_update_initial. cbn [V2.set_pooled V2.initial_certified_epoch].
  apply v2_pooled_fields; [fold mp'; lia|fold mp'; rewrite Hplc; unfold saturating_add; uint_lia|].
  assert (saturating_add 32 (V2.count_pooled_refs_certified v) 1 = cnt (pool_of b pool_cert) mp') as ->.
  { rewrite Hplc. unfold saturating_add. uint_lia. }
  eapply init_certified; [exact He|exact Hi|intros c y; by apply v2_live_certified|apply v2_live_count| |lia].
  intros c [Hl|[Hl|(? & [= <-] & [= <-])]%pool_live_upd]; [by right; left|by right; right|by left].
Qed.

(** Version 2 simulates every step of a pooled object. *)
Lemma v2_pooled_step op new : pooled_step e b (mp !! k) op new ->
  exists v', V2.merge_with_v2 (V2.Valid v) op = Ok (V2.Valid v') /\
    repr_v2 e b m (upd k new mp) v'.
Proof.
  intros Hstep. remember (mp !! k) as old eqn:Hk. symmetry in Hk.
  destruct Hstep as [ci Hb|ci o Hb Hc He|ci o Hb|pool o Hb]; eexists;
    (split; [done|]).
  - by apply v2_pool_register.
  - by apply v2_pool_certify.
  - by apply v2_pool_delete.
  - by apply v2_pool_delete.
Qed.

End v2_steps.
End v2.
