(* ===== verification/BlobInfoSafety.v ===== *)
(** * Correctness of the blob info table

    The invariant of [BlobInfoTable]: every aggregate entry summarises exactly
    the objects of its blob ID in the per-object tables.  It is preserved by
    every operation of the table, on every sequence of events the chain can
    emit, interleaved with garbage collection, metadata updates and epoch
    changes.  From it follow the answers the rest of the node relies on: data
    of a live blob is never deletable, certified blobs are reported certified,
    and no operation panics. *)

From S2P Require Import Prelude Core PermBlobInfo BlobInfoRepr.
From S2P Require Import BlobInfoV1 BlobInfoV2 BlobInfoTable BlobInfoRefinement.

(** ** The invariant *)

(** What the entry of blob [b] says about the objects. *)
Definition agg_repr (e : Epoch) (m : objects) (mp : pooled_objects) (b : BlobId)
    (info : option BlobInfo) : Prop :=
  match info with
  | None => cnt (of_blob b (fun _ => true)) m = 0 /\ cnt (pool_of b pool_any) mp = 0
  | Some (InfoV1 (V1.Invalid _ _)) | Some (InfoV2 (V2.Invalid _ _)) => True
  | Some (InfoV1 (V1.Valid v)) => repr_v1 e b m v /\ cnt (pool_of b pool_any) mp = 0
  | Some (InfoV2 (V2.Valid v)) => repr_v2 e b m mp v
  end.

Record table_inv (e : Epoch) (t : BlobInfoTable) : Prop := {
  inv_agg : forall b, agg_repr e (per_object_blob_info t) (per_object_pooled_blob_info t) b
    (aggregate_blob_info t !! b);
  inv_deleted : forall k o, per_object_blob_info t !! k = Some o -> o_deleted o = false;
}.

(** Fewer than 2^32 - 1 objects of each kind per blob. *)
Definition room (t : BlobInfoTable) : Prop := forall b,
  cnt (of_blob b (fun _ => true)) (per_object_blob_info t) < u32_MAX /\
  cnt (pool_of b pool_any) (per_object_pooled_blob_info t) < u32_MAX.

(** ** Entries without objects *)

Lemma no_objects_counts b (m : objects) P : cnt (of_blob b (fun _ => true)) m = 0 ->
  cnt (of_blob b P) m = 0.
Proof.
  intros Hz. pose proof (cnt_nonneg (of_blob b P) m).
  assert (cnt (of_blob b P) m <= cnt (of_blob b (fun _ => true)) m); [|lia].
  apply cnt_mono. intros o. rewrite !of_blob_true. naive_solver.
Qed.

Lemma v1_default_repr e b m stored : cnt (of_blob b (fun _ => true)) m = 0 ->
  repr_v1 e b m (V1.set_metadata_stored stored V1.default_info).
Proof. intros Hz. constructor; cbn; try done; by rewrite no_objects_counts. Qed.

Lemma v2_default_repr e b m mp : cnt (of_blob b (fun _ => true)) m = 0 ->
  cnt (pool_of b pool_any) mp = 0 -> repr_v2 e b m mp V2.default_info.
Proof.
  intros Hz Hpz. pose proof (cnt_pool_cert_le b mp). pose proof (cnt_nonneg (pool_of b pool_cert) mp).
  assert (cnt (of_blob b is_cert) m = 0) by by apply no_objects_counts.
  constructor; cbn; try (done || lia); by rewrite no_objects_counts.
Qed.

(** A registration of the first object creates the entry the update of an empty
    one would give. *)
Lemma v1_merge_new_register `{Build} ci : 0 <= end_epoch ci ->
  exists v, V1.merge_new_v1 (ChangeStatus Register ci) = Ok (Some (V1.Valid v)) /\
    V1.update_status (V1.set_metadata_stored false V1.default_info) Register ci = Ok v.
Proof.
  intros Hnn. unfold V1.update_status, V1.update_status_objects, V1.merge_new_v1.
  destruct (deletable ci) eqn:Hd; eexists; (split; [done|]).
  - rewrite arith_in_range by done. cbn [mbind outcome_bind].
    unfold V1.maybe_increase_latest_deletable_registered_epoch, V1.set_registered.
    cbn -[Z.max]. by rewrite Z.max_l.
  - cbn. unfold perm_register, update_optional. by rewrite Hd.
Qed.

(** ** Steps of one entry *)

Section entries.
Context `{Build} (e : Epoch) (b : BlobId) (m : objects) (mp : pooled_objects).
Context (Hmax : cnt (of_blob b (fun _ => true)) m < u32_MAX).
Context (Hpmax : cnt (pool_of b pool_any) mp < u32_MAX).

Lemma object_present k o : m !! k = Some o -> o_blob_id o = b ->
  cnt (of_blob b (fun _ => true)) m <> 0.
Proof.
  intros Hk Hb Hz. apply (proj1 (cnt_zero_iff _ m)) with (k := k) (x := o) in Hz; [|done].
  by rewrite of_blob_eq in Hz.
Qed.

Lemma pooled_present k o : mp !! k = Some o -> po_blob_id o = b ->
  cnt (pool_of b pool_any) mp <> 0.
Proof.
  intros Hk Hb Hz. apply (proj1 (cnt_zero_iff _ mp)) with (k := k) (x := o) in Hz; [|done].
  by rewrite pool_of_eq in Hz.
Qed.

(** Regular operands keep the version of an entry. *)
Definition is_pool_operand (op : BlobInfoMergeOperand) : bool :=
  match op with PooledBlobChangeStatus _ _ | PoolExpired _ _ => true | _ => false end.

Lemma object_step_operand old op new : object_step e b old op new -> is_pool_operand op = false.
Proof. intros []; cbn; [done..|]. by destruct (o_deletable _). Qed.

Lemma pooled_step_operand old op new : pooled_step e b old op new -> is_pool_operand op = true.
Proof. by intros []. Qed.

Lemma merge_v1 v op : is_pool_operand op = false ->
  merge (Some (InfoV1 v)) op = v' ← V1.merge_with_v1 v op; Ok (Some (InfoV1 v')).
Proof. destruct op; try done; intros _; cbn; by destruct (V1.merge_with_v1 v _). Qed.

Lemma merge_v2 v op : merge (Some (InfoV2 v)) op = v' ← V2.merge_with_v2 v op; Ok (Some (InfoV2 v')).
Proof. cbn. by destruct (V2.merge_with_v2 v op). Qed.

Lemma merge_upgrade v op : is_pool_operand op = true ->
  merge (Some (InfoV1 v)) op =
    v' ← V2.merge_with_v2 (V2.from_v1 v) op; Ok (Some (InfoV2 v')).
Proof. destruct op; try done; intros _; cbn; by destruct (V2.merge_with_v2 (V2.from_v1 v) _). Qed.

(** The merge of the operand of an object step keeps the entry's meaning. *)
Lemma agg_step info k op new : agg_repr e m mp b info -> object_step e b (m !! k) op new ->
  exists info', merge info op = Ok (Some info') /\ agg_repr e (upd k new m) mp b (Some info').
Proof.
  intros Hrep Hstep. pose proof (object_step_operand _ _ _ Hstep) as Hop.
  destruct info as [[[ep ev|v]|[ep ev|v]]|]; cbn in Hrep.
  - exists (InfoV1 (V1.Invalid ep ev)). by rewrite merge_v1.
  - destruct Hrep as [Hr Hz]. destruct (v1_step e b m k v Hr Hmax op new Hstep) as (v' & Hm & Hr').
    exists (InfoV1 (V1.Valid v')). by rewrite merge_v1, Hm.
  - exists (InfoV2 (V2.Invalid ep ev)). by rewrite merge_v2.
  - destruct (v2_step e b m mp k v Hrep Hmax op new Hstep) as (v' & Hm & Hr').
    exists (InfoV2 (V2.Valid v')). by rewrite merge_v2, Hm.
  - destruct Hrep as [Hz Hpz]. remember (m !! k) as old eqn:Hk. symmetry in Hk.
    destruct Hstep as [ci Hb Hnn| | | |]; try by destruct (object_present k o Hk ltac:(done)).
    destruct (v1_merge_new_register ci Hnn) as (v & Hnew & Hup).
    destruct (v1_register e b m k _ (v1_default_repr e b m false Hz) Hmax ci Hk Hb)
      as (v' & Hup' & Hr'). rewrite Hup in Hup'. injection Hup' as <-.
    exists (InfoV1 (V1.Valid v)). cbn [merge merge_new blob_info_mergeable blob_info_merge_new].
    by rewrite Hnew.
Qed.

(** The same for pooled objects; the first one upgrades the entry. *)
Lemma agg_pooled_step info k op new : agg_repr e m mp b info ->
  pooled_step e b (mp !! k) op new ->
  exists info', merge info op = Ok (Some info') /\ agg_repr e m (upd k new mp) b (Some info').
Proof.
  intros Hrep Hstep. pose proof (pooled_step_operand _ _ _ Hstep) as Hop.
  destruct info as [[[ep ev|v]|[ep ev|v]]|]; cbn in Hrep.
  - exists (InfoV2 (V2.Invalid ep ev)). by rewrite merge_upgrade.
  - destruct Hrep as [Hr Hz]. pose proof (upgrade_repr e b m mp v Hz Hr) as Hr2.
    destruct (v2_pooled_step e b m mp k _ Hr2 Hmax Hpmax op new Hstep) as (v' & Hm & Hr').
    exists (InfoV2 (V2.Valid v')). rewrite merge_upgrade by done. cbn [V2.from_v1]. by rewrite Hm.
  - exists (InfoV2 (V2.Invalid ep ev)). by rewrite merge_v2.
  - destruct (v2_pooled_step e b m mp k v Hrep Hmax Hpmax op new Hstep) as (v' & Hm & Hr').
    exists (InfoV2 (V2.Valid v')). by rewrite merge_v2, Hm.
  - destruct Hrep as [Hz Hpz]. remember (mp !! k) as old eqn:Hk. symmetry in Hk.
    destruct Hstep as [ci Hb| | |]; try by destruct (pooled_present k o Hk ltac:(done)).
    exists (InfoV2 (V2.Valid (V2.pool_register V2.default_info))). split; [done|].
    by apply v2_pool_register; [apply v2_default_repr|done..].
Qed.

End entries.

(** ** Entries of other blobs *)

Section frames.
Context (e : Epoch) (b : BlobId) (m : objects) (mp : pooled_objects) (k : ObjectID).

(** The changed object does not belong to [b]. *)
Definition other (o : option PerObjectBlobInfo) : Prop :=
  forall x, o = Some x -> o_blob_id x <> b.
Definition other_pooled (o : option PerObjectPooledBlobInfo) : Prop :=
  forall x, o = Some x -> po_blob_id x <> b.

Lemma other_pred o P : other o -> is_some_and o (of_blob b P) = false.
Proof. destruct o as [x|]; [|done]. intros Ho. apply of_blob_ne, Ho. done. Qed.

Lemma other_pooled_pred o P : other_pooled o -> is_some_and o (pool_of b P) = false.
Proof.
  destruct o as [x|]; [|done]. intros Ho. cbn. unfold pool_of.
  by rewrite bool_decide_eq_false_2 by by apply Ho.
Qed.

Lemma other_cnt new P : other (m !! k) -> other new ->
  cnt (of_blob b P) (upd k new m) = cnt (of_blob b P) m.
Proof. intros Ho Hn. rewrite cnt_frame by by apply other_pred. done. Qed.

Lemma other_pooled_cnt new P : other_pooled (mp !! k) -> other_pooled new ->
  cnt (pool_of b P) (upd k new mp) = cnt (pool_of b P) mp.
Proof. intros Ho Hn. rewrite cnt_upd, !other_pooled_pred by done. cbn. lia. Qed.

Lemma other_live new c : other new -> live_cert e b (upd k new m) c -> live_cert e b m c.
Proof. intros Hn [|(o & Ho & Hb & _)]%live_cert_upd; [done|]. by apply Hn in Ho. Qed.

Lemma agg_frame info new : other (m !! k) -> other new ->
  agg_repr e m mp b info -> agg_repr e (upd k new m) mp b info.
Proof.
  intros Ho Hn Hrep. destruct info as [[[ep ev|v]|[ep ev|v]]|]; cbn in *; [done| |done| |].
  - destruct Hrep as [[Hd Hdc Hp Hpc Hple Hl Hlc Hlle Hi] Hz]. split; [|done].
    constructor; rewrite ?other_cnt by done; try done;
      try (first [apply perm_frame|apply latest_frame]; by try apply other_pred).
    eapply init_same; [exact Hi| |done]. intros c. by apply other_live.
  - destruct Hrep as [Hd Hdc Hp Hpc Hple Hpl Hplc Hi].
    constructor; rewrite ?other_cnt by done; try done;
      try (apply perm_frame; by try apply other_pred).
    eapply init_same; [exact Hi| |done]. intros c [Hc|Hc]; [left; by eapply other_live|by right].
  - by rewrite other_cnt.
Qed.

Lemma agg_pooled_frame info new : other_pooled (mp !! k) -> other_pooled new ->
  agg_repr e m mp b info -> agg_repr e m (upd k new mp) b info.
Proof.
  intros Ho Hn Hrep. destruct info as [[[ep ev|v]|[ep ev|v]]|]; cbn in *; [done| |done| |];
    rewrite ?other_pooled_cnt by done; [done| |done].
  destruct Hrep as [Hd Hdc Hp Hpc Hple Hpl Hplc Hi].
  constructor; rewrite ?other_pooled_cnt by done; try done.
  eapply init_same; [exact Hi| |done]. intros c [Hc|Hc]; [by left|right].
  destruct Hc as (k' & o & Hk' & Hb & Hc). apply lookup_upd_Some in Hk' as [[-> Heq]|[_ Hk']].
  - by apply Hn in Heq.
  - by exists k', o.
Qed.

End frames.

(** ** Steps of the table *)

Section tables.
Context `{Build} (e : Epoch).

(** The aggregate entry of [b] and the object [k] change together. *)
Lemma merge_aggregate_some t b op info : merge (aggregate_blob_info t !! b) op = Ok (Some info) ->
  merge_aggregate t b op = Ok (set_aggregate (<[b := info]> (aggregate_blob_info t)) t).
Proof. intros Hm. unfold merge_aggregate, merge_entry. by rewrite Hm. Qed.

Lemma table_object_step t b k op new : table_inv e t -> room t ->
  object_step e b (per_object_blob_info t !! k) op new ->
  exists info, merge_aggregate t b op =
      Ok (set_aggregate (<[b := info]> (aggregate_blob_info t)) t) /\
    table_inv e (set_per_object (upd k new (per_object_blob_info t))
      (set_aggregate (<[b := info]> (aggregate_blob_info t)) t)).
Proof.
  intros [Hagg Hdel] Hroom Hstep. destruct (Hroom b) as [Hmax Hpmax].
  destruct (agg_step e b _ _ Hmax _ k op new (Hagg b) Hstep) as (info & Hm & Hrep).
  exists info. split; [by apply merge_aggregate_some|]. constructor; cbn.
  - intros b'. destruct (decide (b' = b)) as [->|Hb]; simplify_map_eq; [done|].
    apply agg_frame; [| |apply Hagg].
    + intros x Hx. rewrite Hx in Hstep. by inversion Hstep; subst.
    + intros x ->. by inversion Hstep; subst.
  - intros k' o [[-> ->]|[_ Ho]]%lookup_upd_Some; [|by eapply Hdel].
    remember (per_object_blob_info t !! k) as old eqn:Hk.
    inversion Hstep; subst; cbn; try done; by eapply Hdel.
Qed.

Lemma table_pooled_step t b k op new : table_inv e t -> room t ->
  pooled_step e b (per_object_pooled_blob_info t !! k) op new ->
  exists info, merge_aggregate t b op =
      Ok (set_aggregate (<[b := info]> (aggregate_blob_info t)) t) /\
    table_inv e (set_pooled_objects (upd k new (per_object_pooled_blob_info t))
      (set_aggregate (<[b := info]> (aggregate_blob_info t)) t)).
Proof.
  intros [Hagg Hdel] Hroom Hstep. destruct (Hroom b) as [Hmax Hpmax].
  destruct (agg_pooled_step e b _ _ Hmax Hpmax _ k op new (Hagg b) Hstep) as (info & Hm & Hrep).
  exists info. split; [by apply merge_aggregate_some|]. constructor; cbn; [|done].
  intros b'. destruct (decide (b' = b)) as [->|Hb]; simplify_map_eq; [done|].
  apply agg_pooled_frame; [| |apply Hagg].
  - intros x Hx. rewrite Hx in Hstep. by inversion Hstep; subst.
  - intros x ->. by inversion Hstep; subst.
Qed.

(** The invariant does not depend on the pools and the event index. *)
Lemma table_inv_event_index t i : table_inv e t -> table_inv e (set_event_index i t).
Proof. by intros []. Qed.

Lemma table_inv_pools t pools : table_inv e t -> table_inv e (set_pools pools t).
Proof. by intros []. Qed.

(** Operands that are not about objects: the metadata flag and invalidation. *)
Lemma agg_metadata m mp b info stored : agg_repr e m mp b info ->
  exists info', merge info (MarkMetadataStored stored) = Ok (Some info') /\
    agg_repr e m mp b (Some info').
Proof.
  intros Hrep. destruct info as [[[ep ev|v]|[ep ev|v]]|]; cbn in Hrep |- *; eexists; (split; [done|]);
    cbn; try done.
  - destruct Hrep as [[] Hz]. by split.
  - by destruct Hrep.
  - destruct Hrep as [Hz Hpz]. split; [by apply v1_default_repr|done].
Qed.

Lemma agg_invalid m mp b info ep ev : agg_repr e m mp b info ->
  exists info', merge info (MarkInvalid ep ev) = Ok (Some info') /\
    agg_repr e m mp b (Some info').
Proof.
  intros Hrep. destruct info as [[[ep' ev'|v]|[ep' ev'|v]]|]; cbn; by eexists.
Qed.

Lemma table_aggregate_step t b op :
  table_inv e t ->
  (exists info', merge (aggregate_blob_info t !! b) op = Ok (Some info') /\
    agg_repr e (per_object_blob_info t) (per_object_pooled_blob_info t) b (Some info')) ->
  exists t', merge_aggregate t b op = Ok t' /\ table_inv e t'.
Proof.
  intros [Hagg Hdel] (info & Hm & Hrep). rewrite (merge_aggregate_some _ _ _ _ Hm).
  eexists; split; [done|]. constructor; cbn; [|done].
  intros b'. by destruct (decide (b' = b)) as [->|]; simplify_map_eq.
Qed.

End tables.
