(* ===== verification/BlobInfoEvents.v ===== *)
(** * Events, garbage collection and reachable states of the blob info table

    [event_ok] states what the chain guarantees about the event it emits next,
    in terms of the objects the node knows.  Under it every event is handled
    without a panic and keeps the invariant of [BlobInfoSafety].  [table_step]
    closes these with garbage collection, epoch changes, the metadata flag, the
    recovery path and the deletion of entries; the theorems hold in every
    reachable state. *)

From S2P Require Import Prelude Core PermBlobInfo BlobInfoRepr.
From S2P Require Import BlobInfoV1 BlobInfoV2 BlobInfoTable Batches BlobInfoRefinement.
From S2P Require Import BlobInfoSafety.

(** ** What the chain guarantees *)

(** A certification or extension event of object [o] in epoch [e]: a blob is
    certified once, in the past, before its end epoch changes; only certified
    blobs that have not expired are extended, never shortened, and the event
    repeats the epoch of the certification. *)
Definition certified_ok (e : Epoch) (c : BlobCertified) (o : PerObjectBlobInfo) : Prop :=
  o_blob_id o = bc_blob_id c /\ o_deletable o = bc_deletable c /\
  if bc_is_extension c
  then o_certified_epoch o = Some (bc_epoch c) /\ bc_epoch c <= e /\
    o_end_epoch o <= bc_end_epoch c /\ e < o_end_epoch o
  else o_certified_epoch o = None /\ bc_end_epoch c = o_end_epoch o /\
    0 <= bc_end_epoch c /\ bc_epoch c <= e.

(** Object IDs are fresh at registration, and later events of an object repeat
    what is known of it. *)
Definition event_ok (e : Epoch) (m : objects) (mp : pooled_objects) (event : BlobEvent) : Prop :=
  match event with
  | EvRegistered r =>
    m !! br_object_id r = None /\ 0 <= br_end_epoch r
  | EvCertified c =>
    exists o, m !! bc_object_id c = Some o /\ certified_ok e c o
  | EvDeleted d =>
    exists o, m !! bd_object_id d = Some o /\
      o_blob_id o = bd_blob_id d /\ o_deletable o = true /\ bd_end_epoch d = o_end_epoch o /\
      bd_was_certified d = is_cert o
  | EvInvalidBlobID _ => True
  | EvDenyListBlobDeleted _ => False
  | EvPooledBlobRegistered r => mp !! pr_object_id r = None
  | EvPooledBlobCertified c =>
    exists o, mp !! pcf_object_id c = Some o /\
      po_blob_id o = pcf_blob_id c /\ po_certified_epoch o = None /\ pcf_epoch c <= e
  | EvPooledBlobDeleted d =>
    exists o, mp !! pd_object_id d = Some o /\
      po_blob_id o = pd_blob_id d /\ pd_was_certified d = pool_cert o
  end.

(** The objects after the event, which the tables must hold. *)
Definition objects_after (m : objects) (event : BlobEvent) : objects :=
  match event with
  | EvRegistered r =>
    upd (br_object_id r) (Some (registered_object (br_blob_id r) (registered_change r).2)) m
  | EvCertified c =>
    upd (bc_object_id c)
      (option_map (fun o => (if bc_is_extension c then extended_object else certified_object)
        o (certified_change c).2) (m !! bc_object_id c)) m
  | EvDeleted d => upd (bd_object_id d) None m
  | _ => m
  end.

Definition pooled_objects_after (m : pooled_objects) (event : BlobEvent) : pooled_objects :=
  match event with
  | EvPooledBlobRegistered r =>
    upd (pr_object_id r)
      (Some (pooled_registered (pr_blob_id r) (pooled_registered_change r).2)) m
  | EvPooledBlobCertified c =>
    upd (pcf_object_id c)
      (option_map (fun o => pooled_certified o (pooled_certified_change c).2)
        (m !! pcf_object_id c)) m
  | EvPooledBlobDeleted d => upd (pd_object_id d) None m
  | _ => m
  end.

(** The guarantees for the objects in the table. *)
Definition table_event_ok (e : Epoch) (t : BlobInfoTable) (ev : BlobEvent) : Prop :=
  event_ok e (per_object_blob_info t) (per_object_pooled_blob_info t) ev.

(** ** Handling one event *)

Section events.
Context `{Build} (e : Epoch).

(** The per-object merges compute the abstract steps. *)
Lemma object_merge_register t r : per_object_blob_info t !! br_object_id r = None ->
  merge_object t (br_object_id r) (registered_change r) =
    Ok (set_per_object (objects_after (per_object_blob_info t) (EvRegistered r)) t).
Proof. intros Hk. unfold merge_object, merge_entry. by rewrite Hk. Qed.

Lemma object_merge_certified t c o : per_object_blob_info t !! bc_object_id c = Some o ->
  certified_ok e c o -> o_deleted o = false ->
  merge_object t (bc_object_id c) (certified_change c) =
    Ok (set_per_object (objects_after (per_object_blob_info t) (EvCertified c)) t).
Proof.
  intros Hk (Hb & Hd & Hc) Hdel. unfold merge_object, merge_entry, objects_after. rewrite Hk.
  cbn -[bool_decide Bool.eqb]. unfold object_merge_with. cbn -[bool_decide Bool.eqb].
  rewrite bool_decide_eq_true_2 by done. rewrite Hd, Bool.eqb_reflx, Hdel.
  destruct (bc_is_extension c); destruct Hc as [Hc _].
  - cbn. rewrite Hc. unfold extended_object. by rewrite ?Hd, ?Hdel, ?Hc.
  - cbn. rewrite Hc. unfold certified_object. by rewrite ?Hd, ?Hdel.
Qed.

Lemma pooled_merge_register t r : per_object_pooled_blob_info t !! pr_object_id r = None ->
  merge_pooled_object t (pr_object_id r) (pooled_registered_change r) =
    Ok (set_pooled_objects (pooled_objects_after (per_object_pooled_blob_info t) (EvPooledBlobRegistered r)) t).
Proof. intros Hk. unfold merge_pooled_object, merge_entry. by rewrite Hk. Qed.

Lemma pooled_merge_certified t c o : per_object_pooled_blob_info t !! pcf_object_id c = Some o ->
  po_blob_id o = pcf_blob_id c -> po_certified_epoch o = None ->
  merge_pooled_object t (pcf_object_id c) (pooled_certified_change c) =
    Ok (set_pooled_objects (pooled_objects_after (per_object_pooled_blob_info t) (EvPooledBlobCertified c)) t).
Proof.
  intros Hk Hb Hc. unfold merge_pooled_object, merge_entry, pooled_objects_after. rewrite Hk.
  cbn -[bool_decide]. unfold pooled_merge_with. cbn -[bool_decide].
  by rewrite bool_decide_eq_true_2, Hc.
Qed.

(** The event as the abstract step of its object. *)
Lemma event_object_step t ev k op : table_event_ok e t ev -> event_operand ev = Ok op ->
  match ev with EvRegistered r => k = br_object_id r | EvCertified c => k = bc_object_id c
    | EvDeleted d => k = bd_object_id d | _ => False end ->
  object_step e (event_blob_id ev) (per_object_blob_info t !! k) op (objects_after (per_object_blob_info t) ev !! k).
Proof.
  destruct ev as [r|c|d| | | | |]; try done; cbn; intros Hok [= <-] ->; rewrite lookup_upd.
  - destruct Hok as [-> Hnn]. by constructor.
  - destruct Hok as (o & -> & Hb & Hd & Hc). cbn. unfold certified_change.
    destruct (bc_is_extension c); [destruct Hc as (Hc & ? & ? & ?)|destruct Hc as (? & ? & ? & ?)];
      constructor; try done. unfold is_cert. by rewrite Hc.
  - destruct Hok as (o & -> & Hb & Hd & _ & Hc). unfold deleted_change. cbn. rewrite Hc. by constructor.
Qed.

Lemma event_pooled_step t ev k op : table_event_ok e t ev -> event_operand ev = Ok op ->
  match ev with EvPooledBlobRegistered r => k = pr_object_id r
    | EvPooledBlobCertified c => k = pcf_object_id c
    | EvPooledBlobDeleted d => k = pd_object_id d | _ => False end ->
  pooled_step e (event_blob_id ev) (per_object_pooled_blob_info t !! k) op
    (pooled_objects_after (per_object_pooled_blob_info t) ev !! k).
Proof.
  destruct ev as [| | | | |r|c|d]; try done; cbn; intros Hok [= <-] ->; rewrite lookup_upd.
  - rewrite Hok. by constructor.
  - destruct Hok as (o & -> & Hb & Hc & He). by constructor.
  - destruct Hok as (o & -> & Hb & Hc). unfold pooled_deleted_change. cbn. rewrite Hc.
    by constructor.
Qed.

(** What handling the event leaves in the table besides the aggregate. *)
Definition handled (t : BlobInfoTable) (i : Z) (ev : BlobEvent) (t' : BlobInfoTable) : Prop :=
  per_object_blob_info t' = objects_after (per_object_blob_info t) ev /\
  per_object_pooled_blob_info t' = pooled_objects_after (per_object_pooled_blob_info t) ev /\
  storage_pool_info t' = storage_pool_info t /\
  latest_handled_event_index t' = Some i.

Ltac finish_update := eexists; split; [done|]; split; [by apply table_inv_event_index|done].

Lemma update_object_event t i ev k op :
  table_inv e t -> room t -> table_event_ok e t ev -> event_operand ev = Ok op ->
  has_event_been_handled (latest_handled_event_index t) i = false ->
  match ev with EvRegistered r => k = br_object_id r | EvCertified c => k = bc_object_id c
    | EvDeleted d => k = bd_object_id d | _ => False end ->
  exists t', update_blob_info t i ev = Ok t' /\ table_inv e t' /\ handled t i ev t'.
Proof.
  intros Hinv Hroom Hok Hop Hfresh Hk.
  destruct (table_object_step e t _ k op _ Hinv Hroom (event_object_step t ev k op Hok Hop Hk))
    as (info & Hm & Hinv').
  unfold update_blob_info. rewrite Hfresh, Hop. cbn [mbind outcome_bind]. rewrite Hm.
  cbn [mbind outcome_bind].
  destruct ev as [r|c|d| | | | |]; try done; subst k; cbn [objects_after] in Hinv';
    rewrite lookup_upd in Hinv'; cbn [update_per_object_blob_info].
  - rewrite object_merge_register by by destruct Hok. finish_update.
  - destruct Hok as (o & Ho & Hc). rewrite (object_merge_certified _ c o) by
      (done || by apply (inv_deleted _ _ Hinv) in Ho). finish_update.
  - finish_update.
Qed.

Lemma update_pooled_event t i ev k op :
  table_inv e t -> room t -> table_event_ok e t ev -> event_operand ev = Ok op ->
  has_event_been_handled (latest_handled_event_index t) i = false ->
  match ev with EvPooledBlobRegistered r => k = pr_object_id r
    | EvPooledBlobCertified c => k = pcf_object_id c
    | EvPooledBlobDeleted d => k = pd_object_id d | _ => False end ->
  exists t', update_blob_info t i ev = Ok t' /\ table_inv e t' /\ handled t i ev t'.
Proof.
  intros Hinv Hroom Hok Hop Hfresh Hk.
  destruct (table_pooled_step e t _ k op _ Hinv Hroom (event_pooled_step t ev k op Hok Hop Hk))
    as (info & Hm & Hinv').
  unfold update_blob_info. rewrite Hfresh, Hop. cbn [mbind outcome_bind]. rewrite Hm.
  cbn [mbind outcome_bind].
  destruct ev as [| | | | |r|c|d]; try done; subst k; cbn [pooled_objects_after] in Hinv';
    rewrite lookup_upd in Hinv'; cbn [update_per_object_blob_info].
  - rewrite pooled_merge_register by done. finish_update.
  - destruct Hok as (o & Ho & Hb & Hc & _). rewrite (pooled_merge_certified _ c o) by done.
    finish_update.
  - finish_update.
Qed.

(** Every event the chain may emit is handled without a panic. *)
Lemma update_blob_info_ok t i ev :
  table_inv e t -> room t -> table_event_ok e t ev ->
  has_event_been_handled (latest_handled_event_index t) i = false ->
  exists t', update_blob_info t i ev = Ok t' /\ table_inv e t' /\ handled t i ev t'.
Proof.
  intros Hinv Hroom Hok Hfresh. destruct ev as [r|c|d|v| |r|c|d]; try done;
    try (by eapply update_object_event); try (by eapply update_pooled_event).
  unfold update_blob_info. rewrite Hfresh. cbn [event_operand event_blob_id mbind outcome_bind].
  destruct (agg_invalid e _ _ _ _ (ib_epoch v) (ib_event_id v) (inv_agg _ _ Hinv (ib_blob_id v)))
    as (info & Hm & Hrep).
  rewrite (merge_aggregate_some _ _ _ _ Hm). eexists; split; [done|]. split; [|done].
  destruct Hinv as [Hagg Hdel]. constructor; [|done]. cbn.
  intros b'. by destruct (decide (b' = ib_blob_id v)) as [->|]; simplify_map_eq.
Qed.

End events.

(** ** Garbage collection *)

Section gc.
Context `{Build} (e : Epoch).

Definition object_expired (o : PerObjectBlobInfo) : bool := negb (object_is_registered o e).

(** What a collection of regular objects keeps of the table [t0]. *)
Definition gc_state (t0 t : BlobInfoTable) : Prop :=
  table_inv e t /\ room t /\
  per_object_pooled_blob_info t = per_object_pooled_blob_info t0 /\
  storage_pool_info t = storage_pool_info t0 /\
  latest_handled_event_index t = latest_handled_event_index t0.

Lemma room_removed t k : room t ->
  room (set_per_object (upd k None (per_object_blob_info t)) t).
Proof.
  intros Hroom b. destruct (Hroom b) as [Hm Hp]. cbn. split; [|done]. rewrite cnt_upd. cbn.
  destruct (is_some_and _ _); cbn; lia.
Qed.

Lemma room_pooled_removed t k : room t ->
  room (set_pooled_objects (upd k None (per_object_pooled_blob_info t)) t).
Proof.
  intros Hroom b. destruct (Hroom b) as [Hm Hp]. cbn. split; [done|]. rewrite cnt_upd. cbn.
  destruct (is_some_and _ _); cbn; lia.
Qed.

Lemma process_object_spec t0 : process_spec per_object_blob_info
  (fun t id o => process_maybe_expired_blob_object t id o e) (gc_state t0) object_expired.
Proof.
  intros t k o (Hinv & Hroom & ? & ? & ?) Hk. unfold process_maybe_expired_blob_object, object_expired.
  destruct (object_is_registered o e) eqn:Hreg; cbn [negb]; [by exists t|].
  assert (o_deleted o = false) as Hdel by by apply (inv_deleted _ _ Hinv) in Hk.
  unfold object_is_registered in Hreg. rewrite Hdel, andb_true_r, Z.ltb_ge in Hreg.
  assert (object_step e (o_blob_id o) (per_object_blob_info t !! k)
    (if o_deletable o then DeletableExpired (is_cert o) else PermanentExpired (is_cert o)) None)
    as Hstep by (rewrite Hk; by constructor).
  destruct (table_object_step e t _ k _ _ Hinv Hroom Hstep) as (info & Hm & Hinv').
  rewrite Hdel. cbn [negb]. unfold merge_aggregate in Hm |- *. cbn [aggregate_blob_info set_per_object].
  fold (is_cert o). destruct (merge_entry _ _ _) as [m'| |]; try done.
  cbn [mbind outcome_bind] in Hm |- *. injection Hm as ->. eexists. split; [done|].
  split_and!; [|done]. split_and!; [exact Hinv'|exact (room_removed t k Hroom)|done..].
Qed.

(** Collecting the regular objects ends, removes exactly those that are not
    registered any more, and keeps the invariant. *)
Lemma process_expired_regular_ok t batch_size :
  table_inv e t -> room t -> (0 < batch_size)%nat ->
  exists t', process_expired_regular_blob_objects t e batch_size = Ok t' /\
    gc_state t t' /\
    per_object_blob_info t' =
      filter (fun kx => object_expired kx.2 = false) (per_object_blob_info t).
Proof.
  intros Hinv Hroom Hbs. unfold process_expired_regular_blob_objects.
  destruct (process_all_ok _ _ (gc_state t) object_expired (process_object_spec t) t batch_size)
    as (t' & Hp & Hstate & He); [by split_and!|done|].
  rewrite Hp. by exists t'.
Qed.

(** *** Pooled objects *)

Definition pooled_expired (t0 : BlobInfoTable) (o : PerObjectPooledBlobInfo) : bool :=
  pool_is_expired t0 e (po_storage_pool_id o).

(** The cache agrees with the pools. *)
Definition gc_pooled_state (t0 : BlobInfoTable) (s : BlobInfoTable * gmap ObjectID bool) : Prop :=
  table_inv e s.1 /\ room s.1 /\
  per_object_blob_info s.1 = per_object_blob_info t0 /\
  storage_pool_info s.1 = storage_pool_info t0 /\
  latest_handled_event_index s.1 = latest_handled_event_index t0 /\
  forall pool x, s.2 !! pool = Some x -> x = pool_is_expired t0 e pool.

Lemma pool_expired_lookup t0 t (cache : gmap ObjectID bool) pool :
  storage_pool_info t = storage_pool_info t0 ->
  (forall pool x, cache !! pool = Some x -> x = pool_is_expired t0 e pool) ->
  exists cache', match cache !! pool with
    | Some cached => (cached, cache)
    | None => (pool_is_expired t e pool, <[pool := pool_is_expired t e pool]> cache)
    end = (pool_is_expired t0 e pool, cache') /\
    forall pool x, cache' !! pool = Some x -> x = pool_is_expired t0 e pool.
Proof.
  intros Hpools Hcache. assert (forall p, pool_is_expired t e p = pool_is_expired t0 e p) as Heq.
  { intros p. unfold pool_is_expired. by rewrite Hpools. }
  destruct (cache !! pool) as [x|] eqn:Hx; eexists; (split; [by f_equal; eauto|]); [done|].
  intros p x [[<- <-]|[_ Hp]]%lookup_insert_Some; eauto.
Qed.

Lemma process_pooled_spec t0 : process_spec (fun s => per_object_pooled_blob_info s.1)
  (fun s id o => process_maybe_expired_pooled_blob_object s id o e)
  (gc_pooled_state t0) (pooled_expired t0).
Proof.
  intros [t cache] k o (Hinv & Hroom & Hobj & Hpools & Hidx & Hcache) Hk. cbn [fst snd] in *.
  unfold process_maybe_expired_pooled_blob_object, pooled_expired.
  destruct (pool_expired_lookup t0 t cache (po_storage_pool_id o) Hpools Hcache)
    as (cache' & -> & Hcache').
  destruct (pool_is_expired t0 e (po_storage_pool_id o)); [|by exists (t, cache')].
  assert (pooled_step e (po_blob_id o) (per_object_pooled_blob_info t !! k)
    (PoolExpired (po_storage_pool_id o) (pool_cert o)) None)
    as Hstep by (rewrite Hk; by constructor).
  destruct (table_pooled_step e t _ k _ _ Hinv Hroom Hstep) as (info & Hm & Hinv').
  unfold merge_aggregate in Hm |- *. cbn [aggregate_blob_info set_pooled_objects].
  fold (pool_cert o). destruct (merge_entry _ _ _) as [m'| |]; try done.
  cbn [mbind outcome_bind] in Hm |- *. injection Hm as ->. eexists. split; [done|].
  split_and!; [|done]. split_and!; [exact Hinv'|exact (room_pooled_removed t k Hroom)|done..].
Qed.

Lemma process_expired_pooled_ok t batch_size :
  table_inv e t -> room t -> (0 < batch_size)%nat ->
  exists t', process_expired_pooled_blob_objects t e batch_size = Ok t' /\
    table_inv e t' /\ room t' /\
    per_object_blob_info t' = per_object_blob_info t /\
    storage_pool_info t' = storage_pool_info t /\
    latest_handled_event_index t' = latest_handled_event_index t /\
    per_object_pooled_blob_info t' =
      filter (fun kx => pooled_expired t kx.2 = false) (per_object_pooled_blob_info t).
Proof.
  intros Hinv Hroom Hbs. unfold process_expired_pooled_blob_objects.
  destruct (process_all_ok _ _ (gc_pooled_state t) (pooled_expired t) (process_pooled_spec t)
    (t, ∅) batch_size) as ([t' cache] & Hp & Hstate & He); [by split_and!|done|].
  rewrite Hp. exists t'. split; [done|].
  destruct Hstate as (? & ? & ? & ? & ? & _). by split_and!.
Qed.

End gc.
