(* ===== verification/BlobInfoProps.v ===== *)
(** * What the blob info table guarantees in every reachable state

    [table_step] interleaves events (with redelivery), storage pool events, the
    metadata flag, epoch changes, garbage collection and the removal of entries
    of [Storage::delete_blob_data]; [reachable] are the states it reaches from
    the empty table.  The theorems at the end are the promises of the table to
    the rest of the storage node. *)

From S2P Require Import Prelude Core PermBlobInfo BlobInfoRepr.
From S2P Require Import BlobInfoV1 BlobInfoV2 BlobInfoTable Batches BlobInfoRefinement.
From S2P Require Import BlobInfoSafety BlobInfoEvents.

(** ** Entries answer for their objects *)

(** An object of [b] that is not expired; pooled objects are live as long as
    they are in their table. *)
Definition live_object (e : Epoch) (t : BlobInfoTable) (b : BlobId) : Prop :=
  (exists k o, per_object_blob_info t !! k = Some o /\ o_blob_id o = b /\ e < o_end_epoch o) \/
  (exists k o, per_object_pooled_blob_info t !! k = Some o /\ po_blob_id o = b).

(** The certification epochs of the live objects of [b]. *)
Definition live_certified (e : Epoch) (t : BlobInfoTable) (b : BlobId) (c : Epoch) : Prop :=
  live_cert e b (per_object_blob_info t) c \/
  pool_live_cert b (per_object_pooled_blob_info t) c.

Definition is_invalid (info : BlobInfo) : bool := is_some (invalidation_event info).

(** The consistency checks of the two versions. *)
Definition info_check_invariants (info : BlobInfo) : bool :=
  match info with
  | InfoV1 (V1.Valid v) => V1.check_invariants v
  | InfoV2 (V2.Valid v) => V2.check_invariants v
  | _ => true
  end.

Section answers.
Context (e : Epoch) (b : BlobId) (m : objects) (mp : pooled_objects).

Lemma live_by_kind k o : m !! k = Some o -> o_blob_id o = b -> e < o_end_epoch o ->
  (exists k o, m !! k = Some o /\ of_blob b is_del o = true /\ e < o_end_epoch o) \/
  (exists k o, m !! k = Some o /\ of_blob b is_perm o = true /\ e < o_end_epoch o).
Proof.
  intros Hk Hb He. destruct (o_deletable o) eqn:Hd; [left|right]; exists k, o; split_and!; try done;
    apply of_blob_true; unfold is_del, is_perm; by rewrite Hd.
Qed.

Lemma v1_registered v k o : repr_v1 e b m v -> m !! k = Some o -> o_blob_id o = b ->
  e < o_end_epoch o -> V1.is_registered (V1.Valid v) e = true.
Proof.
  intros Hr Hk Hb He. cbn. apply orb_true_iff.
  destruct (live_by_kind k o Hk Hb He) as [(k' & o' & Hk' & HP & He')|Hex].
  - right. rewrite (r1_del _ _ _ _ Hr). by eapply latest_repr_live; [apply Hr|..].
  - left. by apply (perm_repr_live _ _ _ _ (r1_perm _ _ _ _ Hr)).
Qed.

Lemma v2_registered v k o : repr_v2 e b m mp v -> m !! k = Some o -> o_blob_id o = b ->
  e < o_end_epoch o -> V2.is_registered (V2.Valid v) e = true.
Proof.
  intros Hr Hk Hb He. cbn. rewrite !orb_true_iff.
  destruct (live_by_kind k o Hk Hb He) as [(k' & o' & Hk' & HP & He')|Hex].
  - left. right. rewrite (r2_del _ _ _ _ _ Hr). apply Z.ltb_lt, cnt_pos_iff. by exists k', o'.
  - do 2 left. by apply (perm_repr_live _ _ _ _ (r2_perm _ _ _ _ _ Hr)).
Qed.

Lemma v2_pooled_registered v k o : repr_v2 e b m mp v -> mp !! k = Some o -> po_blob_id o = b ->
  V2.is_registered (V2.Valid v) e = true.
Proof.
  intros Hr Hk Hb. cbn. rewrite !orb_true_iff. right. rewrite (r2_pool _ _ _ _ _ Hr).
  apply Z.ltb_lt, cnt_pos_iff. exists k, o. split; [done|]. by rewrite pool_of_eq.
Qed.

(** Certified live objects by kind. *)
Lemma live_cert_by_kind c : live_cert e b m c ->
  (exists k o, m !! k = Some o /\ of_blob b is_del_cert o = true /\ e < o_end_epoch o) \/
  (exists k o, m !! k = Some o /\ of_blob b is_perm_cert o = true /\ e < o_end_epoch o).
Proof.
  intros (k & o & Hk & Hb & He & Hc).
  destruct (o_deletable o) eqn:Hd; [left|right]; exists k, o; split_and!; try done;
    apply of_blob_true; unfold is_del_cert, is_perm_cert, is_del, is_perm, is_cert;
    by rewrite Hd, Hc.
Qed.

Lemma init_live i n (live : Epoch -> Prop) c : init_repr e i n live -> live c -> 0 < n ->
  exists x, i = Some x /\ x <= e /\ x <= c.
Proof.
  intros Hi Hc Hn. destruct i as [x|]; cbn in Hi; [|lia].
  exists x. destruct Hi as (_ & Hx & Hall). by split_and!; [| |apply Hall].
Qed.

Lemma live_cert_pos c : live_cert e b m c -> 0 < cnt (of_blob b is_cert) m.
Proof.
  intros (k & o & Hk & Hb & He & Hc). apply cnt_pos_iff. exists k, o. split; [done|].
  apply of_blob_true. unfold is_cert. by rewrite Hc.
Qed.

Lemma v1_certified v c : repr_v1 e b m v -> live_cert e b m c ->
  V1.valid_is_certified v e = true /\
  exists x, V1.initial_certified_epoch v = Some x /\ x <= c.
Proof.
  intros Hr Hc.
  destruct (init_live _ _ _ c (r1_init _ _ _ _ Hr) Hc (live_cert_pos c Hc)) as (x & Hi & Hxe & Hxc).
  split; [|by exists x]. unfold V1.valid_is_certified. rewrite Hi. cbn.
  apply andb_true_iff. split; [by apply Z.leb_le|]. apply orb_true_iff.
  destruct (live_cert_by_kind c Hc) as [(k & o & Hk & HP & He)|Hex].
  - right. rewrite (r1_del_cert _ _ _ _ Hr). by eapply latest_repr_live; [apply Hr|..].
  - left. by apply (perm_repr_live _ _ _ _ (r1_perm_cert _ _ _ _ Hr)).
Qed.

Lemma v2_certified v c : repr_v2 e b m mp v -> live_cert e b m c \/ pool_live_cert b mp c ->
  V2.valid_is_certified v e = true /\
  exists x, V2.initial_certified_epoch v = Some x /\ x <= c.
Proof.
  intros Hr Hc. pose proof (cnt_nonneg (of_blob b is_cert) m).
  pose proof (cnt_nonneg (pool_of b pool_cert) mp).
  assert (0 < cnt (of_blob b is_cert) m + cnt (pool_of b pool_cert) mp).
  { destruct Hc as [Hc|Hc]; [apply live_cert_pos in Hc|apply pool_live_count in Hc]; lia. }
  destruct (init_live _ _ _ c (r2_init _ _ _ _ _ Hr) Hc) as (x & Hi & Hxe & Hxc); [done|].
  split; [|by exists x]. unfold V2.valid_is_certified. rewrite Hi. cbn.
  apply andb_true_iff. split; [by apply Z.leb_le|]. rewrite !orb_true_iff.
  destruct Hc as [Hc|Hc].
  - destruct (live_cert_by_kind c Hc) as [(k & o & Hk & HP & He)|Hex].
    + left. right. rewrite (r2_del_cert _ _ _ _ _ Hr). apply Z.ltb_lt, cnt_pos_iff. by exists k, o.
    + do 2 left. by apply (perm_repr_live _ _ _ _ (r2_perm_cert _ _ _ _ _ Hr)).
  - right. rewrite (r2_pool_cert _ _ _ _ _ Hr). by apply Z.ltb_lt, (pool_live_count _ _ c).
Qed.

End answers.

(** ** The consistency checks *)

Section checks.
Context (e : Epoch) (b : BlobId) (m : objects) (mp : pooled_objects).

Lemma cnt_le P Q : (forall o, P o = true -> Q o = true) ->
  cnt (of_blob b P) m <= cnt (of_blob b Q) m.
Proof. intros HPQ. apply cnt_mono. intros o. rewrite !of_blob_true. naive_solver. Qed.

(** The certified permanent summary is consistent with the total one. *)
Lemma perm_check t c : perm_repr e t (of_blob b is_perm) m ->
  perm_repr e c (of_blob b is_perm_cert) m -> perm_le c t ->
  match t, c with
  | None, Some _ => false
  | Some t, Some c => (p_end_epoch c <=? p_end_epoch t) && (p_count c <=? p_count t)
  | _, _ => true
  end = true.
Proof.
  intros Ht Hc Hle. destruct t as [t|], c as [c|]; try done. cbn in *.
  apply andb_true_iff. split; [by apply Z.leb_le|]. apply Z.leb_le.
  destruct Ht as (_ & -> & _), Hc as (_ & -> & _). apply cnt_le.
  intros o. unfold is_perm_cert. by intros [? _]%andb_true_iff.
Qed.

Lemma perm_cert_some c : perm_repr e c (of_blob b is_perm_cert) m ->
  is_some c = (0 <? cnt (of_blob b is_perm_cert) m).
Proof.
  intros Hc. destruct c as [c|]; cbn in *; symmetry.
  - destruct Hc as [Hc _]. by apply Z.ltb_lt.
  - by rewrite Hc.
Qed.

Lemma del_cert_le : cnt (of_blob b is_del_cert) m <= cnt (of_blob b is_del) m.
Proof. apply cnt_le. intros o. unfold is_del_cert. by intros [? _]%andb_true_iff. Qed.

Lemma v1_check v : repr_v1 e b m v -> V1.check_invariants v = true.
Proof.
  intros Hr. unfold V1.check_invariants. rewrite !andb_true_iff. split_and!.
  - apply Z.leb_le. rewrite (r1_del _ _ _ _ Hr), (r1_del_cert _ _ _ _ Hr). apply del_cert_le.
  - pose proof (r1_init _ _ _ _ Hr) as Hi. rewrite cnt_cert_split in Hi.
    pose proof (perm_cert_some _ (r1_perm_cert _ _ _ _ Hr)) as Hp.
    rewrite (r1_del_cert _ _ _ _ Hr). pose proof (cnt_nonneg (of_blob b is_del_cert) m).
    pose proof (cnt_nonneg (of_blob b is_perm_cert) m).
    destruct (V1.initial_certified_epoch v); cbn in Hi.
    + rewrite Hp. apply orb_true_iff. rewrite !Z.ltb_lt. lia.
    + apply andb_true_iff. split; [lia|]. destruct (V1.permanent_certified v); [|done].
      cbn in Hp. symmetry in Hp. apply Z.ltb_lt in Hp. lia.
  - apply perm_check; apply Hr.
  - pose proof (r1_latest_le _ _ _ _ Hr) as Hl.
    destruct (V1.latest_seen_deletable_registered_end_epoch v),
      (V1.latest_seen_deletable_certified_end_epoch v); try done. by apply Z.leb_le.
Qed.

Lemma v2_check v : repr_v2 e b m mp v -> V2.check_invariants v = true.
Proof.
  intros Hr. unfold V2.check_invariants. rewrite !andb_true_iff. split_and!.
  - apply Z.leb_le. rewrite (r2_del _ _ _ _ _ Hr), (r2_del_cert _ _ _ _ _ Hr). apply del_cert_le.
  - pose proof (r2_init _ _ _ _ _ Hr) as Hi. rewrite cnt_cert_split in Hi.
    pose proof (perm_cert_some _ (r2_perm_cert _ _ _ _ _ Hr)) as Hp.
    rewrite (r2_del_cert _ _ _ _ _ Hr), (r2_pool_cert _ _ _ _ _ Hr), Hp.
    pose proof (cnt_nonneg (of_blob b is_del_cert) m).
    pose proof (cnt_nonneg (of_blob b is_perm_cert) m).
    pose proof (cnt_nonneg (pool_of b pool_cert) mp).
    destruct (V2.initial_certified_epoch v); cbn in Hi; lia.
  - apply perm_check; apply Hr.
  - apply Z.leb_le. rewrite (r2_pool _ _ _ _ _ Hr), (r2_pool_cert _ _ _ _ _ Hr).
    apply cnt_pool_cert_le.
Qed.

(** Entries that may be removed have no objects. *)
Lemma deletable_entry info : agg_repr e m mp b (Some info) ->
  can_blob_info_be_deleted info e = true -> agg_repr e m mp b None.
Proof.
  intros Hrep Hcan. destruct info as [[ep ev|v]|[ep ev|v]]; cbn in Hcan; try done;
    rewrite !andb_true_iff in Hcan; cbn in Hrep.
  - destruct Hcan as [[Hd Hp] _], Hrep as [Hr Hz]. split; [|done]. rewrite cnt_blob_split.
    pose proof (r1_perm _ _ _ _ Hr) as Hperm. rewrite (r1_del _ _ _ _ Hr) in Hd.
    destruct (V1.permanent_total v); [done|]. cbn in Hperm. lia.
  - destruct Hcan as [[[Hd Hp] Hpool] _], Hrep as [Hdel _ Hperm _ _ Hpl _ _].
    split; [|lia]. rewrite cnt_blob_split. rewrite Hdel in Hd.
    destruct (V2.permanent_total v); [done|]. cbn in Hperm. lia.
Qed.

(** The meaning of an entry only weakens as time passes. *)
Lemma agg_mono e' info : e <= e' -> agg_repr e m mp b info -> agg_repr e' m mp b info.
Proof.
  intros He Hrep. destruct info as [[[ep ev|v]|[ep ev|v]]|]; cbn in *; try done.
  - destruct Hrep as [[] ?]. split; [|done].
    constructor; eauto using perm_repr_mono, init_repr_mono.
  - destruct Hrep as [? ? ? ? ? ? ? Hi].
    constructor; eauto using perm_repr_mono.
    destruct (V2.initial_certified_epoch v) as [x|]; [|done]. destruct Hi as (? & ? & Hall).
    split_and!; [done|lia|]. intros c [(k & o & ? & ? & ? & ?)|Hc]; apply Hall; [left|by right].
    exists k, o. split_and!; [done|done|lia|done].
Qed.

End checks.

Lemma table_inv_mono e e' t : e <= e' -> table_inv e t -> table_inv e' t.
Proof. intros He [Hagg Hdel]. constructor; [|done]. intros b. by eapply agg_mono. Qed.

Lemma empty_table_inv e : table_inv e empty_table.
Proof. constructor; [|done]. intros b. by cbn. Qed.

Lemma delete_entry_inv e t b info : table_inv e t -> aggregate_blob_info t !! b = Some info ->
  can_blob_info_be_deleted info e = true -> table_inv e (delete_in_transaction t b).
Proof.
  intros [Hagg Hdel] Hb Hcan. constructor; [|done]. intros b'. cbn.
  destruct (decide (b' = b)) as [->|Hne].
  - rewrite lookup_delete_eq. specialize (Hagg b). rewrite Hb in Hagg. by eapply deletable_entry.
  - rewrite lookup_delete_ne by done. apply Hagg.
Qed.

(** ** Reachable states *)

Section reachability.
Context `{Build}.

(** One step of a node in state [(e, t)].  Events may be delivered again; the
    chain vouches for those not handled yet. *)
Inductive table_step : Epoch * BlobInfoTable -> Epoch * BlobInfoTable -> Prop :=
| ts_event e t i ev t' : room t ->
    has_event_been_handled (latest_handled_event_index t) i = true \/ table_event_ok e t ev ->
    update_blob_info t i ev = Ok t' -> table_step (e, t) (e, t')
| ts_pool_event e t i ev t' :
    update_storage_pool_info t i ev = Ok t' -> table_step (e, t) (e, t')
| ts_metadata e t b stored t' :
    table_set_metadata_stored t b stored = Ok t' -> table_step (e, t) (e, t')
| ts_epoch e e' t : e <= e' -> table_step (e, t) (e', t)
| ts_collect_pools e t batch_size t' : (0 < batch_size)%nat ->
    process_expired_storage_pools t e batch_size = Ok t' -> table_step (e, t) (e, t')
| ts_collect_objects e t batch_size t' : room t -> (0 < batch_size)%nat ->
    process_expired_blob_objects t e batch_size = Ok t' -> table_step (e, t) (e, t')
| ts_remove_entry e t b info : aggregate_blob_info t !! b = Some info ->
    can_blob_info_be_deleted info e = true ->
    table_step (e, t) (e, delete_in_transaction t b)
| ts_clear e t : table_step (e, t) (e, clear t).

Definition reachable (e : Epoch) (t : BlobInfoTable) : Prop :=
  exists e0, rtc table_step (e0, empty_table) (e, t).

Lemma reachable_event e t i ev t' : reachable e t -> room t -> table_event_ok e t ev ->
  update_blob_info t i ev = Ok t' -> reachable e t'.
Proof.
  intros [e0 Hr] Hroom Hok Hu. exists e0. eapply rtc_r; [exact Hr|]. by eapply ts_event; [|right|].
Qed.

(** Collecting the pools only touches the pools. *)
Definition pool_expired (e : Epoch) (info : StoragePoolInfo) : bool := pool_end_epoch info <=? e.

Lemma process_pool_spec e t0 : process_spec storage_pool_info
  (fun t id info => process_maybe_expired_storage_pool t id info e)
  (fun t => exists pools, t = set_pools pools t0) (pool_expired e).
Proof.
  intros t k info [pools ->] Hk. unfold process_maybe_expired_storage_pool, pool_expired.
  destruct (pool_end_epoch info <=? e); eexists; (split; [done|]); cbn; eauto.
Qed.

Lemma process_expired_pools_ok e t batch_size : (0 < batch_size)%nat ->
  process_expired_storage_pools t e batch_size =
    Ok (set_pools (filter (fun kx => pool_expired e kx.2 = false) (storage_pool_info t)) t).
Proof.
  intros Hbs. unfold process_expired_storage_pools.
  destruct (process_all_ok _ _ _ _ (process_pool_spec e t) t batch_size)
    as (t' & -> & [pools ->] & Hpools); [by exists (storage_pool_info t); destruct t|done|].
  cbn in *. by rewrite Hpools.
Qed.

Lemma process_expired_objects_ok e t batch_size :
  table_inv e t -> room t -> (0 < batch_size)%nat ->
  exists t', process_expired_blob_objects t e batch_size = Ok t' /\
    table_inv e t' /\ room t' /\
    storage_pool_info t' = storage_pool_info t /\
    latest_handled_event_index t' = latest_handled_event_index t /\
    per_object_blob_info t' =
      filter (fun kx => object_expired e kx.2 = false) (per_object_blob_info t) /\
    per_object_pooled_blob_info t' =
      filter (fun kx => pooled_expired e t kx.2 = false) (per_object_pooled_blob_info t).
Proof.
  intros Hinv Hroom Hbs. unfold process_expired_blob_objects.
  destruct (process_expired_regular_ok e t batch_size Hinv Hroom Hbs)
    as (t1 & -> & (Hinv1 & Hroom1 & Hpl1 & Hp1 & Hi1) & Ho1). cbn [mbind outcome_bind].
  destruct (process_expired_pooled_ok e t1 batch_size Hinv1 Hroom1 Hbs)
    as (t2 & -> & Hinv2 & Hroom2 & Ho2 & Hp2 & Hi2 & Hpl2).
  exists t2. split_and!; [done..| | | |]; try congruence.
  rewrite Hpl2, Hpl1. apply map_filter_ext. intros k o _. cbn. unfold pooled_expired, pool_is_expired.
  by rewrite Hp1.
Qed.

Lemma table_step_inv s s' : table_step s s' -> table_inv s.1 s.2 -> table_inv s'.1 s'.2.
Proof.
  intros [e t i ev t' Hroom Hok Hu|e t i ev t' Hu|e t b stored t' Hu|e e' t He
    |e t bs t' Hbs Hu|e t bs t' Hroom Hbs Hu|e t b info Hb Hcan|e t] Hinv; cbn [fst snd] in *.
  - destruct (has_event_been_handled (latest_handled_event_index t) i) eqn:Hh.
    + unfold update_blob_info in Hu. rewrite Hh in Hu. by injection Hu as <-.
    + destruct Hok as [|Hok]; [done|].
      destruct (update_blob_info_ok e t i ev Hinv Hroom Hok Hh) as (t2 & Hu2 & Hinv2 & _).
      rewrite Hu2 in Hu. by injection Hu as <-.
  - unfold update_storage_pool_info in Hu. destruct (has_event_been_handled _ _).
    { by injection Hu as <-. }
    destruct ev; cbn in Hu; destruct (merge_entry _ _ _); try done; injection Hu as <-;
      by apply table_inv_event_index, table_inv_pools.
  - destruct (table_aggregate_step e t b (MarkMetadataStored stored) Hinv) as (t2 & Hu2 & Hinv2).
    { apply agg_metadata, Hinv. }
    unfold table_set_metadata_stored in Hu. rewrite Hu2 in Hu. by injection Hu as <-.
  - by eapply table_inv_mono.
  - rewrite process_expired_pools_ok in Hu by done. injection Hu as <-. by apply table_inv_pools.
  - destruct (process_expired_objects_ok e t bs Hinv Hroom Hbs) as (t2 & Hu2 & Hinv2 & _).
    rewrite Hu2 in Hu. by injection Hu as <-.
  - by eapply delete_entry_inv.
  - apply empty_table_inv.
Qed.

Lemma reachable_inv e t : reachable e t -> table_inv e t.
Proof.
  intros [e0 Hr].
  assert (forall s s', rtc table_step s s' -> table_inv s.1 s.2 -> table_inv s'.1 s'.2) as Hind.
  { induction 1; [done|]. intros Hinv. eauto using table_step_inv. }
  apply (Hind _ _ Hr), empty_table_inv.
Qed.

End reachability.

(** ** Entries after a collection *)

(** No object in the table has expired. *)
Definition collected (e : Epoch) (t : BlobInfoTable) : Prop :=
  forall k o, per_object_blob_info t !! k = Some o -> e < o_end_epoch o.

(** Some object of [b] is in the tables. *)
Definition has_object (t : BlobInfoTable) (b : BlobId) : Prop :=
  (exists k o, per_object_blob_info t !! k = Some o /\ o_blob_id o = b) \/
  (exists k o, per_object_pooled_blob_info t !! k = Some o /\ po_blob_id o = b).

Section collected.
Context (e : Epoch) (t : BlobInfoTable) (b : BlobId) (Hinv : table_inv e t).

Lemma cnt_object P : 0 < cnt (of_blob b P) (per_object_blob_info t) -> has_object t b.
Proof.
  intros (k & o & Hk & [Hb _]%of_blob_true)%cnt_pos_iff. left. by exists k, o.
Qed.

Lemma cnt_pooled_object P : 0 < cnt (pool_of b P) (per_object_pooled_blob_info t) ->
  has_object t b.
Proof.
  intros (k & o & Hk & HP)%cnt_pos_iff. right. exists k, o. split; [done|].
  unfold pool_of in HP. by apply andb_true_iff in HP as [?%bool_decide_eq_true _].
Qed.

Lemma perm_object p P : perm_repr e p (of_blob b P) (per_object_blob_info t) ->
  is_some p = true -> has_object t b.
Proof. destruct p as [p|]; [|done]. intros (Hpos & _) _. by eapply cnt_object. Qed.

(** Entries only count objects that are there. *)
Lemma registered_has_object info : aggregate_blob_info t !! b = Some info ->
  is_registered info e = true -> has_object t b.
Proof.
  intros Hb Hreg. pose proof (inv_agg _ _ Hinv b) as Hrep. rewrite Hb in Hrep.
  destruct info as [[ep ev|v]|[ep ev|v]]; cbn in Hreg, Hrep; try done;
    rewrite ?orb_true_iff, ?andb_true_iff in Hreg.
  - destruct Hrep as [Hr _]. destruct Hreg as [Hp|[Hd _]].
    + eapply perm_object; [apply Hr|]. by destruct (V1.permanent_total v).
    + rewrite (r1_del _ _ _ _ Hr) in Hd. by eapply cnt_object, Z.ltb_lt.
  - destruct Hreg as [[Hp|Hd]|Hpl].
    + eapply perm_object; [apply Hrep|]. by destruct (V2.permanent_total v).
    + rewrite (r2_del _ _ _ _ _ Hrep) in Hd. by eapply cnt_object, Z.ltb_lt.
    + rewrite (r2_pool _ _ _ _ _ Hrep) in Hpl. by eapply cnt_pooled_object, Z.ltb_lt.
Qed.

(** Entries of live objects say so. *)
Lemma live_registered : live_object e t b -> exists info, aggregate_blob_info t !! b = Some info /\
  (is_invalid info = true \/ is_registered info e = true).
Proof.
  intros Hlive. pose proof (inv_agg _ _ Hinv b) as Hrep.
  destruct (aggregate_blob_info t !! b) as [info|].
  - exists info. split; [done|].
    destruct info as [[ep ev|v]|[ep ev|v]]; cbn in Hrep; try (by left); right.
    + destruct Hrep as [Hr Hz]. destruct Hlive as [(k & o & Hk & Hb & He)|(k & o & Hk & Hb)].
      * by eapply v1_registered.
      * exfalso. by eapply pooled_present.
    + destruct Hlive as [(k & o & Hk & Hb & He)|(k & o & Hk & Hb)];
        [by eapply v2_registered|by eapply v2_pooled_registered].
  - exfalso. destruct Hrep as [Hz Hpz]. destruct Hlive as [(k & o & Hk & Hb & _)|(k & o & Hk & Hb)].
    + by eapply object_present.
    + by eapply pooled_present.
Qed.

(** Valid entries that are not registered after a collection may be removed. *)
Lemma unregistered_removable info : collected e t -> aggregate_blob_info t !! b = Some info ->
  is_invalid info = false -> is_registered info e = false ->
  can_blob_info_be_deleted info e = true.
Proof.
  intros Hcol Hb Hval Hreg.
  assert (~ has_object t b) as Hno.
  { intros Hobj. destruct live_registered as (info' & Hb' & Hor); [|naive_solver congruence].
    destruct Hobj as [(k & o & Hk & Ho)|Hp]; [left|by right]. exists k, o. by eauto. }
  pose proof (inv_agg _ _ Hinv b) as Hrep. rewrite Hb in Hrep.
  assert (forall P, cnt (of_blob b P) (per_object_blob_info t) = 0) as Hz.
  { intros P. pose proof (cnt_nonneg (of_blob b P) (per_object_blob_info t)).
    destruct (decide (0 < cnt (of_blob b P) (per_object_blob_info t))) as [Hp|]; [|lia].
    by apply cnt_object in Hp. }
  assert (cnt (pool_of b pool_any) (per_object_pooled_blob_info t) = 0) as Hpz.
  { pose proof (cnt_nonneg (pool_of b pool_any) (per_object_pooled_blob_info t)).
    destruct (decide (0 < cnt (pool_of b pool_any) (per_object_pooled_blob_info t))) as [Hp|]; [|lia].
    by apply cnt_pooled_object in Hp. }
  destruct info as [[ep ev|v]|[ep ev|v]]; try done; cbn [can_blob_info_be_deleted is_registered] in *;
    unfold V1.can_blob_info_be_deleted, V2.can_blob_info_be_deleted; rewrite Hreg; cbn in Hrep.
  - destruct Hrep as [Hr _]. rewrite (r1_del _ _ _ _ Hr), Hz.
    pose proof (r1_perm _ _ _ _ Hr) as Hp. destruct (V1.permanent_total v); [|done].
    destruct Hp as [Hp _]. rewrite Hz in Hp. lia.
  - rewrite (r2_del _ _ _ _ _ Hrep), (r2_pool _ _ _ _ _ Hrep), Hz, Hpz.
    pose proof (r2_perm _ _ _ _ _ Hrep) as Hp. destruct (V2.permanent_total v); [|done].
    destruct Hp as [Hp _]. rewrite Hz in Hp. lia.
Qed.

End collected.

(** ** The promises of the table *)

Section promises.
Context `{Build}.

(** In every reachable state, any event the chain can emit next is handled
    without a panic, updates exactly the object it is about, and reaches a
    reachable state again. *)
Theorem update_blob_info_never_panics e t i ev :
  reachable e t -> room t -> table_event_ok e t ev ->
  has_event_been_handled (latest_handled_event_index t) i = false ->
  exists t', update_blob_info t i ev = Ok t' /\ reachable e t' /\ handled t i ev t'.
Proof.
  intros Hreach Hroom Hok Hfresh.
  destruct (update_blob_info_ok e t i ev (reachable_inv e t Hreach) Hroom Hok Hfresh)
    as (t' & Hu & _ & Hh).
  exists t'. split_and!; [done| |done]. by eapply reachable_event.
Qed.

(** Data of a blob with a live object is never deletable: such a blob has an entry, and
    unless the blob was marked invalid the entry reports it registered, and neither its data nor
    the entry itself may be deleted. *)
Lemma live_entry e t b : table_inv e t -> live_object e t b ->
  exists info, aggregate_blob_info t !! b = Some info /\
    (is_invalid info = true \/
     (is_registered info e = true /\ can_data_be_deleted info e = false /\
      can_blob_info_be_deleted info e = false)).
Proof.
  intros Hinv Hlive.
  destruct (live_registered e t b Hinv Hlive) as (info & Hb & [Hi|Hr]).
  - exists info. by eauto.
  - exists info. split; [done|]. right. split_and!; [done| |].
    + unfold can_data_be_deleted. by rewrite Hr.
    + destruct info as [[|v]|[|v]]; try done; cbn [can_blob_info_be_deleted is_registered] in *;
        unfold V1.can_blob_info_be_deleted, V2.can_blob_info_be_deleted; by rewrite Hr, andb_false_r.
Qed.

Theorem live_blob_is_kept e t b : reachable e t -> live_object e t b ->
  exists info, aggregate_blob_info t !! b = Some info /\
    (is_invalid info = true \/
     (is_registered info e = true /\ can_data_be_deleted info e = false /\
      can_blob_info_be_deleted info e = false)).
Proof. intros Hreach. apply live_entry. by apply reachable_inv. Qed.

(** A blob with a certified live object is reported certified. *)
Lemma certified_entry e t b c info : table_inv e t -> live_certified e t b c -> aggregate_blob_info t !! b = Some info ->
  is_invalid info = true \/ (is_certified info e = true /\ exists x, initial_certified_epoch info = Some x /\ x <= c).
Proof.
  intros Hinv Hlive Hb. pose proof (inv_agg _ _ Hinv b) as Hrep. rewrite Hb in Hrep.
  destruct info as [[ep ev|v]|[ep ev|v]]; cbn in Hrep; try (by left); right.
  - destruct Hrep as [Hr Hz]. destruct Hlive as [Hc|(k & o & Hk & Ho & _)].
    + by eapply v1_certified.
    + exfalso. by eapply pooled_present.
  - by eapply v2_certified.
Qed.

(** A blob with a certified live object is reported certified, with an
    initial certified epoch that is not after the certification of any live
    object, unless the blob was marked invalid. *)
Theorem certified_blob_is_reported e t b c : reachable e t -> live_certified e t b c ->
  exists info, aggregate_blob_info t !! b = Some info /\
    (is_invalid info = true \/
     (is_certified info e = true /\
      exists x, initial_certified_epoch info = Some x /\ x <= c)).
Proof.
  intros Hreach Hlive. pose proof (reachable_inv e t Hreach) as Hinv.
  assert (live_object e t b) as Hobj.
  { destruct Hlive as [(k & o & ? & ? & ? & _)|(k & o & ? & ? & _)]; [left|right]; by exists k, o. }
  destruct (live_registered e t b Hinv Hobj) as (info & Hb & _).
  exists info. split; [done|]. by eapply certified_entry.
Qed.

(** Every entry of a reachable state passes the consistency checks of its
    version ([check_invariants]). *)
Theorem check_invariants_hold e t b info : reachable e t ->
  aggregate_blob_info t !! b = Some info -> info_check_invariants info = true.
Proof.
  intros Hreach Hb. pose proof (inv_agg _ _ (reachable_inv e t Hreach) b) as Hrep.
  rewrite Hb in Hrep. destruct info as [[ep ev|v]|[ep ev|v]]; cbn in *; try done.
  - destruct Hrep as [Hr _]. by eapply v1_check.
  - by eapply v2_check.
Qed.

(** Garbage collection ends for every positive batch size, without a
    panic, and removes exactly the objects that are expired: regular objects
    whose end epoch has passed and pooled objects whose pool is gone or has
    ended. *)
Theorem collection_is_exact e t batch_size :
  reachable e t -> room t -> (0 < batch_size)%nat ->
  exists t', process_expired_blob_objects t e batch_size = Ok t' /\
    reachable e t' /\ collected e t' /\
    per_object_blob_info t' =
      filter (fun kx => e < o_end_epoch kx.2) (per_object_blob_info t) /\
    per_object_pooled_blob_info t' =
      filter (fun kx => pool_is_expired t e (po_storage_pool_id kx.2) = false)
        (per_object_pooled_blob_info t).
Proof.
  intros Hreach Hroom Hbs. pose proof (reachable_inv e t Hreach) as Hinv.
  destruct (process_expired_objects_ok e t batch_size Hinv Hroom Hbs)
    as (t' & Hp & Hinv' & _ & _ & _ & Ho & Hpl).
  assert (per_object_blob_info t' =
    filter (fun kx => e < o_end_epoch kx.2) (per_object_blob_info t)) as Ho'.
  { rewrite Ho. apply map_filter_ext. intros k o Hk. cbn. unfold object_expired, object_is_registered.
    rewrite (inv_deleted _ _ Hinv k o Hk), andb_true_r, negb_false_iff. apply Z.ltb_lt. }
  exists t'. split_and!; [done| | |done|done].
  - destruct Hreach as [e0 Hr]. exists e0. eapply rtc_r; [exact Hr|]. by eapply ts_collect_objects.
  - intros k o Hk. rewrite Ho' in Hk. by apply map_lookup_filter_Some in Hk as [_ ?].
Qed.

(** After a collection the entries are precise: a valid entry is reported
    registered exactly when an object of the blob is in the tables, and may be
    removed exactly when there is none. *)
Theorem collected_entries_are_precise e t b info : reachable e t -> collected e t ->
  aggregate_blob_info t !! b = Some info -> is_invalid info = false ->
  (is_registered info e = true <-> has_object t b) /\
  (can_blob_info_be_deleted info e = true <-> ~ has_object t b).
Proof.
  intros Hreach Hcol Hb Hval. pose proof (reachable_inv e t Hreach) as Hinv.
  assert (has_object t b -> is_registered info e = true) as Hobj.
  { intros Ho. destruct (live_registered e t b Hinv) as (info' & Hb' & Hor);
      [|naive_solver congruence].
    destruct Ho as [(k & o & Hk & Ho)|Hp]; [left|by right]. exists k, o. by eauto. }
  pose proof (registered_has_object e t b Hinv info Hb) as Hreg.
  split; [done|]. split.
  - intros Hcan Ho. apply Hobj in Ho. destruct info as [[|v]|[|v]]; try done;
      cbn [can_blob_info_be_deleted is_registered] in *;
      unfold V1.can_blob_info_be_deleted, V2.can_blob_info_be_deleted in Hcan;
      by rewrite Ho, andb_false_r in Hcan.
  - intros Hno. apply (unregistered_removable e t b Hinv info Hcol Hb Hval).
    by destruct (is_registered info e) eqn:?; [destruct Hno; apply Hreg|].
Qed.

(** Handling a list of indexed events. *)
Definition update_all (t : BlobInfoTable) (events : list (Z * BlobEvent)) : total BlobInfoTable :=
  foldM (fun t '(i, ev) => update_blob_info t i ev) t events.

Definition handled_index (t : BlobInfoTable) (i : Z) : Prop :=
  has_event_been_handled (latest_handled_event_index t) i = true.

Lemma update_blob_info_index t i ev t' : update_blob_info t i ev = Ok t' ->
  handled_index t' i /\ forall j, handled_index t j -> handled_index t' j.
Proof.
  unfold update_blob_info, handled_index.
  destruct (has_event_been_handled (latest_handled_event_index t) i) eqn:Hh.
  { by intros [= <-]. }
  intros Hu. destruct (event_operand ev) as [op| |]; try done. cbn in Hu.
  destruct (merge_aggregate _ _ _) as [t1| |]; try done. cbn in Hu.
  destruct (update_per_object_blob_info _ _) as [t2| |]; try done. injection Hu as <-. cbn in *.
  split; [by apply Z.leb_refl|]. intros j Hj.
  destruct (latest_handled_event_index t) as [l|]; [|done]. cbn in *. lia.
Qed.

Lemma update_all_index t events t' : update_all t events = Ok t' ->
  (forall j, handled_index t j -> handled_index t' j) /\
  forall i ev, (i, ev) ∈ events -> handled_index t' i.
Proof.
  revert t. induction events as [|[i ev] events IH]; intros t Hu.
  - injection Hu as <-. split; [done|]. set_solver.
  - cbn in Hu. destruct (update_blob_info t i ev) as [t1| |] eqn:H1; try done. cbn in Hu.
    destruct (IH t1 Hu) as [Hmono Hall]. destruct (update_blob_info_index _ _ _ _ H1) as [Hi Hm].
    split; [by eauto|]. intros j ev' [[= -> ->]|Hin]%elem_of_cons; by eauto.
Qed.

Lemma update_all_handled t events : (forall i ev, (i, ev) ∈ events -> handled_index t i) ->
  update_all t events = Ok t.
Proof.
  induction events as [|[i ev] events IH]; intros Hall; [done|]. cbn.
  assert (update_blob_info t i ev = Ok t) as ->.
  { unfold update_blob_info. by rewrite (Hall i ev) by set_solver. }
  cbn. apply IH. set_solver.
Qed.

(** Events are applied at most once: after any prefix of the event stream
    has been handled, delivering the prefix again before the rest of the stream
    (as after a restart) gives the same table as delivering the rest alone. *)
Theorem redelivery_is_idempotent t prefix rest t1 : update_all t prefix = Ok t1 ->
  update_all t1 (prefix ++ rest) = update_all t1 rest.
Proof.
  intros Hu. unfold update_all. rewrite foldM_app. fold (update_all t1 prefix).
  rewrite update_all_handled; [done|]. by apply (update_all_index t prefix).
Qed.

End promises.

(** ** A concrete history

    A deletable blob object is registered and certified; the statements above
    apply to the state reached. *)

Lemma room_small t : Z.of_nat (size (per_object_blob_info t)) < u32_MAX ->
  Z.of_nat (size (per_object_pooled_blob_info t)) < u32_MAX -> room t.
Proof.
  assert (forall T P (m : gmap ObjectID T), cnt P m <= Z.of_nat (size m)) as Hle.
  { intros T P m. unfold cnt. apply Nat2Z.inj_le, map_subseteq_size, map_filter_subseteq. }
  intros Hm Hp b. split; (eapply Z.le_lt_trans; [apply Hle|done]).
Qed.

Section example.
#[local] Existing Instance release_build.

Definition example_blob : BlobId := mk_blob_id (replicate 32 Byte.x07).

Definition example_registered : BlobRegistered :=
  {| br_epoch := 1; br_blob_id := example_blob; br_size := 100; br_encoding_type := RS2;
     br_end_epoch := 10; br_deletable := true; br_object_id := 5; br_event_id := 70 |}.

Definition example_certified : BlobCertified :=
  {| bc_epoch := 1; bc_blob_id := example_blob; bc_end_epoch := 10; bc_deletable := true;
     bc_object_id := 5; bc_is_extension := false; bc_event_id := 71 |}.

Definition example_deleted : BlobDeleted :=
  {| bd_epoch := 1; bd_blob_id := example_blob; bd_end_epoch := 10; bd_object_id := 5;
     bd_was_certified := true; bd_event_id := 72 |}.

Definition example_events : list (Z * BlobEvent) :=
  [(0, EvRegistered example_registered); (1, EvCertified example_certified)].

Definition run_events (events : list (Z * BlobEvent)) : BlobInfoTable :=
  match update_all empty_table events with Ok t => t | _ => empty_table end.

Definition example_table : BlobInfoTable := run_events example_events.

Lemma example_reachable : reachable 1 example_table.
Proof.
  assert (reachable 1 (run_events (take 1 example_events))) as H1.
  { apply (reachable_event 1 empty_table 0 (EvRegistered example_registered));
      [by exists 1; apply rtc_refl|by apply room_small|by split|vm_compute; reflexivity]. }
  apply (reachable_event 1 _ 1 (EvCertified example_certified) _ H1);
    [by apply room_small| |vm_compute; reflexivity].
  eexists. split; [vm_compute; reflexivity|]. split_and!; by vm_compute.
Qed.

Lemma example_room : room example_table.
Proof. by apply room_small. Qed.

End example.

Section witnesses.
#[local] Existing Instance release_build.

Lemma update_blob_info_never_panics_witness :
  exists t', update_blob_info example_table 2 (EvDeleted example_deleted) = Ok t' /\
    reachable 1 t' /\ handled example_table 2 (EvDeleted example_deleted) t'.
Proof.
  apply update_blob_info_never_panics.
  - exact example_reachable.
  - exact example_room.
  - eexists. split; [vm_compute; reflexivity|]. split_and!; vm_compute; reflexivity.
  - vm_compute. reflexivity.
Defined.

Lemma example_live_certified : live_certified 1 example_table example_blob 1.
Proof.
  left. exists 5. eexists. split; [vm_compute; reflexivity|]. split_and!; by vm_compute.
Qed.

Lemma live_blob_is_kept_witness :
  exists info, aggregate_blob_info example_table !! example_blob = Some info /\
    (is_invalid info = true \/
     (is_registered info 1 = true /\ can_data_be_deleted info 1 = false /\
      can_blob_info_be_deleted info 1 = false)).
Proof.
  apply live_blob_is_kept; [exact example_reachable|].
  left. exists 5. eexists. split; [vm_compute; reflexivity|]. split; by vm_compute.
Defined.

Lemma certified_blob_is_reported_witness :
  exists info, aggregate_blob_info example_table !! example_blob = Some info /\
    (is_invalid info = true \/
     (is_certified info 1 = true /\
      exists x, initial_certified_epoch info = Some x /\ x <= 1)).
Proof.
  apply certified_blob_is_reported; [exact example_reachable|exact example_live_certified].
Defined.

Definition example_info : BlobInfo :=
  default (InfoV1 (V1.Valid V1.default_info)) (aggregate_blob_info example_table !! example_blob).

Lemma check_invariants_hold_witness : info_check_invariants example_info = true.
Proof.
  apply (check_invariants_hold 1 example_table example_blob); [exact example_reachable|].
  vm_compute. reflexivity.
Defined.

Lemma collection_is_exact_witness :
  exists t', process_expired_blob_objects example_table 1 2 = Ok t' /\
    reachable 1 t' /\ collected 1 t' /\
    per_object_blob_info t' =
      filter (fun kx => 1 < o_end_epoch kx.2) (per_object_blob_info example_table) /\
    per_object_pooled_blob_info t' =
      filter (fun kx => pool_is_expired example_table 1 (po_storage_pool_id kx.2) = false)
        (per_object_pooled_blob_info example_table).
Proof.
  apply collection_is_exact; [exact example_reachable|exact example_room|lia].
Defined.

Lemma collected_entries_are_precise_witness :
  (is_registered example_info 1 = true <-> has_object example_table example_blob) /\
  (can_blob_info_be_deleted example_info 1 = true <-> ~ has_object example_table example_blob).
Proof.
  apply collected_entries_are_precise; [exact example_reachable| | |].
  - intros k o Hk. apply (elem_of_map_to_list (M := gmap ObjectID)) in Hk. vm_compute in Hk.
    apply list_elem_of_singleton in Hk. injection Hk as -> ->. vm_compute. reflexivity.
  - vm_compute. reflexivity.
  - vm_compute. reflexivity.
Defined.

Lemma redelivery_is_idempotent_witness :
  update_all example_table (example_events ++ [(2, EvDeleted example_deleted)]) =
    update_all example_table [(2, EvDeleted example_deleted)].
Proof. apply (redelivery_is_idempotent empty_table). vm_compute. reflexivity. Defined.

End witnesses.
