(* ===== verification/BlobInfoRecovery.v ===== *)
(** * Recovery with incomplete history

    [update_blob_info_during_recovery_with_incomplete_history] is fed an event
    stream from which events of blobs that ended before the recovery started
    may be missing.  The theorem relates the table to the objects on chain: it
    holds exactly those that end after the epoch at which recovery started,
    however many of the early events were seen. *)

From S2P Require Import Prelude Core PermBlobInfo BlobInfoRepr.
From S2P Require Import BlobInfoV1 BlobInfoV2 BlobInfoTable Batches BlobInfoRefinement.
From S2P Require Import BlobInfoSafety BlobInfoEvents BlobInfoProps.

(** What recovery reconstructs of an object; the registration epoch and the
    event of a blob first seen through an extension are those of the extension. *)
Definition same_object (o o' : PerObjectBlobInfo) : Prop :=
  o_blob_id o' = o_blob_id o /\ o_certified_epoch o' = o_certified_epoch o /\
  o_end_epoch o' = o_end_epoch o /\ o_deletable o' = o_deletable o.

(** The table [m] holds the chain's objects that end after [start]. *)
Definition recovered_at (start : Epoch) (chain : option PerObjectBlobInfo)
    (known : option PerObjectBlobInfo) : Prop :=
  match chain with
  | Some o =>
    if start <? o_end_epoch o then exists o', known = Some o' /\ same_object o o'
    else known = None
  | None => known = None
  end.

Definition recovered (start : Epoch) (chain m : objects) : Prop :=
  forall k, recovered_at start (chain !! k) (m !! k).

(** Room for the two merges of an extension. *)
Definition spare_room (t : BlobInfoTable) : Prop := forall b,
  cnt (of_blob b (fun _ => true)) (per_object_blob_info t) + 1 < u32_MAX /\
  cnt (pool_of b pool_any) (per_object_pooled_blob_info t) < u32_MAX.

Lemma spare_room_room t : spare_room t -> room t.
Proof. intros Hroom b. destruct (Hroom b). lia. Qed.

Lemma recovered_upd start chain m k new new' : recovered start chain m ->
  recovered_at start new new' -> recovered start (upd k new chain) (upd k new' m).
Proof.
  intros Hrec Hnew k'. destruct (decide (k' = k)) as [->|]; [by rewrite !lookup_upd|].
  rewrite !lookup_upd_ne by done. apply Hrec.
Qed.

Lemma recovered_skip start chain m k new : recovered start chain m -> m !! k = None ->
  recovered_at start new None -> recovered start (upd k new chain) m.
Proof.
  intros Hrec Hk Hnew k'. destruct (decide (k' = k)) as [->|]; [by rewrite lookup_upd, Hk|].
  rewrite lookup_upd_ne by done. apply Hrec.
Qed.

Section recovery.
Context `{Build} (e start : Epoch).

(** Merges into the aggregate do not read the other tables. *)
Lemma merge_aggregate_frame t t' b op a : merge_aggregate t b op = Ok (set_aggregate a t) ->
  aggregate_blob_info t' = aggregate_blob_info t ->
  merge_aggregate t' b op = Ok (set_aggregate a t').
Proof.
  unfold merge_aggregate. intros Hm ->. destruct (merge_entry _ _ _) as [a'| |]; try done.
  injection Hm as ->. done.
Qed.

(** The object created for an extension of an unknown blob. *)
Definition extension_object (c : BlobCertified) : PerObjectBlobInfo :=
  certified_object (registered_object (bc_blob_id c) (extension_change c)) (extension_change c).

Lemma record_extension_ok t c (ci := extension_change c) (k := bc_object_id c) :
  table_inv e t -> spare_room t -> 0 <= bc_end_epoch c -> bc_epoch c <= e ->
  per_object_blob_info t !! k = None ->
  exists a, record_extension t c ci =
      Ok (set_per_object (upd k (Some (extension_object c)) (per_object_blob_info t))
        (set_aggregate a t)) /\
    table_inv e (set_per_object (upd k (Some (extension_object c)) (per_object_blob_info t))
      (set_aggregate a t)).
Proof.
  intros Hinv Hroom Hnn He Hk. set (b := bc_blob_id c). set (r := registered_object b ci).
  assert (object_step e b (per_object_blob_info t !! k) (ChangeStatus Register ci) (Some r)) as Hs1
    by (rewrite Hk; by constructor).
  destruct (table_object_step e t b k _ _ Hinv (spare_room_room t Hroom) Hs1) as (info1 & Hm1 & Hi1).
  set (a1 := <[b := info1]> (aggregate_blob_info t)) in *.
  set (t1 := set_per_object (upd k (Some r) (per_object_blob_info t)) (set_aggregate a1 t)) in *.
  assert (room t1) as Hroom1.
  { intros b'. destruct (Hroom b') as [Hm Hp]. cbn. split; [|done]. rewrite cnt_upd, Hk. cbn.
    destruct (of_blob b' _ _); cbn; lia. }
  assert (per_object_blob_info t1 !! k = Some r) as Hk1 by apply lookup_upd.
  assert (object_step e b (per_object_blob_info t1 !! k) (ChangeStatus Certify ci)
    (Some (certified_object r ci))) as Hs2 by (rewrite Hk1; by constructor).
  destruct (table_object_step e t1 b k _ _ Hi1 Hroom1 Hs2) as (info2 & Hm2 & Hi2).
  apply (merge_aggregate_frame _ (set_aggregate a1 t)) in Hm2; [|done].
  exists (<[b := info2]> a1). unfold record_extension. fold b k. rewrite Hm1. cbn [mbind outcome_bind].
  rewrite Hm2. cbn [mbind outcome_bind].
  assert (upd k (Some (extension_object c)) (per_object_blob_info t) =
    upd k (Some (certified_object r ci)) (per_object_blob_info t1)) as Heq.
  { cbn. by rewrite upd_upd. }
  rewrite Heq. split; [|exact Hi2].
  unfold merge_object, merge_entry. cbn [per_object_blob_info set_aggregate set_per_object].
  rewrite Hk. cbn [merge merge_new object_mergeable object_merge_new uncurry mbind outcome_bind
    po_change_type po_change_info per_object_blob_info set_per_object]. rewrite lookup_insert_eq.
  cbn -[bool_decide Bool.eqb]. unfold object_merge_with. cbn -[bool_decide Bool.eqb].
  by rewrite bool_decide_eq_true_2, Bool.eqb_reflx.
Qed.

(** *** One event *)

(** Objects the table knows are the chain's. *)
Lemma recovered_known chain m k o : recovered start chain m -> chain !! k = Some o ->
  start < o_end_epoch o -> exists o', m !! k = Some o' /\ same_object o o'.
Proof.
  intros Hrec Hk Hlt. specialize (Hrec k). rewrite Hk in Hrec. unfold recovered_at in Hrec.
  by rewrite (proj2 (Z.ltb_lt _ _) Hlt) in Hrec.
Qed.

Lemma recovered_unknown chain m k o : recovered start chain m -> chain !! k = Some o ->
  o_end_epoch o <= start -> m !! k = None.
Proof.
  intros Hrec Hk Hle. specialize (Hrec k). rewrite Hk in Hrec. unfold recovered_at in Hrec.
  by rewrite (proj2 (Z.ltb_ge _ _) Hle) in Hrec.
Qed.

Lemma recovered_fresh chain m k : recovered start chain m -> chain !! k = None -> m !! k = None.
Proof. intros Hrec Hk. specialize (Hrec k). by rewrite Hk in Hrec. Qed.

Lemma recovered_at_live o o' : start < o_end_epoch o -> same_object o o' ->
  recovered_at start (Some o) (Some o').
Proof. intros Hlt Hsame. cbn. rewrite (proj2 (Z.ltb_lt _ _) Hlt). eauto. Qed.

Lemma recovered_at_ended o : o_end_epoch o <= start -> recovered_at start (Some o) None.
Proof. intros Hle. cbn. by rewrite (proj2 (Z.ltb_ge _ _) Hle). Qed.

(** The table after the event. *)
Definition recovers (chain : objects) (mp : pooled_objects) (ev : BlobEvent)
    (r : total BlobInfoTable) : Prop :=
  exists t', r = Ok t' /\ table_inv e t' /\
    recovered start (objects_after chain ev) (per_object_blob_info t') /\
    per_object_pooled_blob_info t' = pooled_objects_after mp ev.

(** Events handled as usual. *)
Lemma recovers_standard chain t i ev :
  table_inv e t -> room t -> table_event_ok e t ev ->
  has_event_been_handled (latest_handled_event_index t) i = false ->
  recovered start (objects_after chain ev) (objects_after (per_object_blob_info t) ev) ->
  recovers chain (per_object_pooled_blob_info t) ev (update_blob_info t i ev).
Proof.
  intros Hinv Hroom Hok Hfresh Hrec.
  destruct (update_blob_info_ok e t i ev Hinv Hroom Hok Hfresh) as (t' & Hu & Hinv' & Ho & Hp & _).
  exists t'. rewrite Ho. by split_and!.
Qed.

Lemma recover_registered chain t i r : table_inv e t -> room t ->
  recovered start chain (per_object_blob_info t) ->
  event_ok e chain (per_object_pooled_blob_info t) (EvRegistered r) ->
  has_event_been_handled (latest_handled_event_index t) i = false ->
  recovers chain (per_object_pooled_blob_info t) (EvRegistered r)
    (update_blob_info_during_recovery t i (EvRegistered r) start).
Proof.
  intros Hinv Hroom Hrec [Hk Hnn] Hfresh. unfold update_blob_info_during_recovery.
  pose proof (recovered_fresh _ _ _ Hrec Hk) as Hkt.
  destruct (Z.leb_spec (br_end_epoch r) start) as [Hle|Hlt].
  - exists t. split_and!; [done..| |done]. apply recovered_skip; [done..|].
    by apply recovered_at_ended.
  - apply recovers_standard; try done. apply recovered_upd; [done|]. by apply recovered_at_live.
Qed.

Lemma recover_deleted chain t i d : table_inv e t -> room t ->
  recovered start chain (per_object_blob_info t) ->
  event_ok e chain (per_object_pooled_blob_info t) (EvDeleted d) ->
  has_event_been_handled (latest_handled_event_index t) i = false ->
  recovers chain (per_object_pooled_blob_info t) (EvDeleted d)
    (update_blob_info_during_recovery t i (EvDeleted d) start).
Proof.
  intros Hinv Hroom Hrec (o & Hk & Hb & Hd & Hend & Hc) Hfresh.
  unfold update_blob_info_during_recovery. rewrite Hend.
  destruct (Z.leb_spec (o_end_epoch o) start) as [Hle|Hlt].
  - exists t. split_and!; [done..| |done]. apply recovered_skip; [done| |done].
    by eapply recovered_unknown.
  - destruct (recovered_known _ _ _ _ Hrec Hk Hlt) as (o' & Hk' & Hb' & Hc' & He' & Hd').
    apply recovers_standard; try done; [|by apply recovered_upd].
    exists o'. unfold is_cert in *. split_and!; congruence.
Qed.

(** An extended or certified object is recovered from the recovered one. *)
Lemma recovered_certified chain t c o o' : recovered start chain (per_object_blob_info t) ->
  chain !! bc_object_id c = Some o -> per_object_blob_info t !! bc_object_id c = Some o' ->
  certified_ok e c o -> same_object o o' -> start < bc_end_epoch c ->
  table_event_ok e t (EvCertified c) /\
  recovered start (objects_after chain (EvCertified c))
    (objects_after (per_object_blob_info t) (EvCertified c)).
Proof.
  intros Hrec Hk Hk' (Hb & Hd & Hc) (Hb' & Hc' & He' & Hd') Hlt. split.
  - exists o'. split; [done|]. unfold certified_ok. rewrite Hb', Hd', Hc', He'. by split_and!.
  - cbn. rewrite Hk, Hk'. apply recovered_upd; [done|]. cbn [option_map].
    destruct (bc_is_extension c); apply recovered_at_live; try done.
    cbn. by destruct Hc as (_ & <- & _).
Qed.

Lemma recover_certified chain t i c : table_inv e t -> spare_room t -> 0 <= start ->
  recovered start chain (per_object_blob_info t) ->
  event_ok e chain (per_object_pooled_blob_info t) (EvCertified c) ->
  has_event_been_handled (latest_handled_event_index t) i = false ->
  recovers chain (per_object_pooled_blob_info t) (EvCertified c)
    (update_blob_info_during_recovery t i (EvCertified c) start).
Proof.
  intros Hinv Hsp Hnn Hrec (o & Hk & Hok) Hfresh. pose proof (spare_room_room t Hsp) as Hroom.
  assert (o_end_epoch o <= bc_end_epoch c) as Hend.
  { destruct Hok as (_ & _ & Hc). destruct (bc_is_extension c); lia. }
  unfold update_blob_info_during_recovery.
  destruct (Z.leb_spec (bc_end_epoch c) start) as [Hle|Hlt].
  { exists t. split_and!; [done..| |done]. cbn [objects_after]. rewrite Hk. cbn [option_map].
    apply recovered_skip; [done|eapply recovered_unknown; [done..|lia]|].
    apply recovered_at_ended. destruct (bc_is_extension c); cbn; lia. }
  destruct (Z.lt_ge_cases start (o_end_epoch o)) as [Hlive|Hended].
  - destruct (recovered_known _ _ _ _ Hrec Hk Hlive) as (o' & Hk' & Hsame).
    destruct (recovered_certified _ _ _ _ _ Hrec Hk Hk' Hok Hsame Hlt) as [Hok' Hrec'].
    rewrite Hk'. unfold object_is_registered.
    replace (o_end_epoch o') with (o_end_epoch o) by by destruct Hsame as (_ & _ & -> & _).
    rewrite (proj2 (Z.ltb_lt _ _) Hlive), (inv_deleted _ _ Hinv _ _ Hk').
    destruct (bc_is_extension c); by apply recovers_standard.
  - destruct Hok as (Hb & Hd & Hc). destruct (bc_is_extension c) eqn:Hext; [|lia].
    destruct Hc as (Hc & Hce & _ & _).
    pose proof (recovered_unknown _ _ _ _ Hrec Hk Hended) as Hk'. rewrite Hk', Hfresh.
    destruct (record_extension_ok t c Hinv Hsp) as (a & -> & Hinv'); [lia|done|done|].
    cbn [mbind outcome_bind]. eexists. split; [done|].
    split_and!; [by apply table_inv_event_index| |done]. cbn. rewrite Hk, Hext. cbn [option_map].
    apply recovered_upd; [done|]. apply recovered_at_live; [done|]. by split_and!; cbn.
Qed.

Lemma recover_event chain t i ev : table_inv e t -> spare_room t -> 0 <= start ->
  recovered start chain (per_object_blob_info t) ->
  event_ok e chain (per_object_pooled_blob_info t) ev ->
  has_event_been_handled (latest_handled_event_index t) i = false ->
  recovers chain (per_object_pooled_blob_info t) ev
    (update_blob_info_during_recovery t i ev start).
Proof.
  intros Hinv Hsp Hnn Hrec Hok Hfresh. pose proof (spare_room_room t Hsp) as Hroom.
  destruct ev as [r|c|d|v| |r|c|d]; [by apply recover_registered|by apply recover_certified
    |by apply recover_deleted|by apply recovers_standard|done|by apply recovers_standard..].
Qed.

(** An event of a regular blob whose object ends before recovery started, or that
    a blob is invalid.  The events of pooled blobs are not among them: recovery
    needs all of these. *)
Definition ended_event (ev : BlobEvent) : bool :=
  match ev with
  | EvRegistered r => br_end_epoch r <=? start
  | EvCertified c => bc_end_epoch c <=? start
  | EvDeleted d => bd_end_epoch d <=? start
  | EvInvalidBlobID _ => true
  | _ => false
  end.

(** Missing such an event is the same as receiving it. *)
Lemma recover_missing chain t mp ev : recovered start chain (per_object_blob_info t) ->
  event_ok e chain mp ev -> ended_event ev = true ->
  recovered start (objects_after chain ev) (per_object_blob_info t).
Proof.
  intros Hrec Hok Hend. destruct ev as [r|c|d|v| | | |]; try done; cbn in Hend; apply Z.leb_le in Hend.
  - destruct Hok as [Hk _]. apply recovered_skip; [done|by eapply recovered_fresh|].
    by apply recovered_at_ended.
  - destruct Hok as (o & Hk & Hb & Hd & Hc). cbn. rewrite Hk.
    assert (o_end_epoch o <= bc_end_epoch c) by (destruct (bc_is_extension c); lia).
    apply recovered_skip; [done|eapply recovered_unknown; [done..|lia]|].
    apply recovered_at_ended. destruct (bc_is_extension c); cbn; lia.
  - destruct Hok as (o & Hk & Hb & Hd & He & Hc).
    apply recovered_skip; [done|eapply recovered_unknown; [done..|lia]|done].
Qed.

End recovery.

(** ** Recovery against the chain *)

Section runs.
Context `{Build} (start : Epoch).

(** The chain's epoch and objects beside the recovering table: each event the
    chain emits is delivered, or missing when it is an [ended_event] (of a regular
    blob whose object ended before the start of the recovery, or of an invalid blob). *)
Inductive recovery_step : Epoch * objects * BlobInfoTable -> Epoch * objects * BlobInfoTable -> Prop :=
| rs_event e chain t i ev t' : spare_room t ->
    event_ok e chain (per_object_pooled_blob_info t) ev ->
    has_event_been_handled (latest_handled_event_index t) i = false ->
    update_blob_info_during_recovery t i ev start = Ok t' ->
    recovery_step (e, chain, t) (e, objects_after chain ev, t')
| rs_missing e chain t ev : event_ok e chain (per_object_pooled_blob_info t) ev ->
    ended_event start ev = true ->
    recovery_step (e, chain, t) (e, objects_after chain ev, t)
| rs_epoch e e' chain t : e <= e' -> recovery_step (e, chain, t) (e', chain, t).

Definition recovering (e : Epoch) (chain : objects) (t : BlobInfoTable) : Prop :=
  exists e0, rtc recovery_step (e0, ∅, empty_table) (e, chain, t).

Lemma recovery_step_inv s s' : 0 <= start -> recovery_step s s' ->
  table_inv s.1.1 s.2 /\ recovered start s.1.2 (per_object_blob_info s.2) ->
  table_inv s'.1.1 s'.2 /\ recovered start s'.1.2 (per_object_blob_info s'.2).
Proof.
  intros Hnn [e chain t i ev t' Hsp Hok Hfresh Hu|e chain t ev Hok Hend|e e' chain t He]
    [Hinv Hrec]; cbn [fst snd] in *.
  - destruct (recover_event e start chain t i ev Hinv Hsp Hnn Hrec Hok Hfresh)
      as (t2 & Hu2 & Hinv2 & Hrec2 & _). rewrite Hu2 in Hu. by injection Hu as <-.
  - split; [done|]. by eapply recover_missing.
  - split; [by eapply table_inv_mono|done].
Qed.

Lemma recovering_inv e chain t : 0 <= start -> recovering e chain t ->
  table_inv e t /\ recovered start chain (per_object_blob_info t).
Proof.
  intros Hnn [e0 Hr].
  assert (forall s s', rtc recovery_step s s' ->
    table_inv s.1.1 s.2 /\ recovered start s.1.2 (per_object_blob_info s.2) ->
    table_inv s'.1.1 s'.2 /\ recovered start s'.1.2 (per_object_blob_info s'.2)) as Hind.
  { induction 1; [done|]. eauto using recovery_step_inv. }
  apply (Hind _ _ Hr). split; [apply empty_table_inv|]. by intros k.
Qed.

(** C36: recovery with incomplete history reconstructs the chain: whatever
    events of regular blobs that ended before the start of recovery (and of invalid
    blobs) are missing, as long as the events of pooled blobs are complete, the
    per-object table holds exactly the chain's objects that end later, with
    their certification; and every further event is handled without a panic. *)
Theorem recovery_tracks_chain e chain t i ev : 0 <= start -> recovering e chain t ->
  spare_room t -> event_ok e chain (per_object_pooled_blob_info t) ev ->
  has_event_been_handled (latest_handled_event_index t) i = false ->
  recovered start chain (per_object_blob_info t) /\
  exists t', update_blob_info_during_recovery t i ev start = Ok t' /\
    recovering e (objects_after chain ev) t'.
Proof.
  intros Hnn Hr Hsp Hok Hfresh. destruct (recovering_inv e chain t Hnn Hr) as [Hinv Hrec].
  split; [done|]. destruct (recover_event e start chain t i ev Hinv Hsp Hnn Hrec Hok Hfresh)
    as (t' & Hu & _). exists t'. split; [done|]. destruct Hr as [e0 Hr]. exists e0.
  eapply rtc_r; [exact Hr|]. by eapply rs_event.
Qed.

(** The table of a recovering node answers like that of a node with the full
    history: blobs with an object on chain that ends after the start of
    recovery and after the current epoch have an entry that keeps their data. *)
Theorem recovery_keeps_live_blobs e chain t b k o : 0 <= start -> recovering e chain t ->
  chain !! k = Some o -> o_blob_id o = b -> start < o_end_epoch o -> e < o_end_epoch o ->
  exists info, aggregate_blob_info t !! b = Some info /\
    (is_invalid info = true \/ is_registered info e = true).
Proof.
  intros Hnn Hr Hk Hb Hs He. destruct (recovering_inv e chain t Hnn Hr) as [Hinv Hrec].
  destruct (recovered_known start chain _ k o Hrec Hk Hs) as (o' & Hk' & Hb' & _ & He' & _).
  apply live_registered; [done|]. left. exists k, o'. split_and!; [done|congruence|lia].
Qed.

End runs.

(** ** Witnesses *)

Section witnesses.
#[local] Existing Instance release_build.

(** An object that was to end at 10 is extended to 20 while a node recovers from
    epoch 10. *)
Definition ended_certified : BlobCertified :=
  {| bc_epoch := 1; bc_blob_id := example_blob; bc_end_epoch := 10; bc_deletable := true;
     bc_object_id := 5; bc_is_extension := false; bc_event_id := 71 |}.

Definition example_extension : BlobCertified :=
  {| bc_epoch := 1; bc_blob_id := example_blob; bc_end_epoch := 20; bc_deletable := true;
     bc_object_id := 5; bc_is_extension := true; bc_event_id := 73 |}.

Definition example_chain : objects :=
  objects_after (objects_after ∅ (EvRegistered example_registered)) (EvCertified ended_certified).

Lemma example_recovering : recovering 10 1 example_chain empty_table.
Proof.
  exists 1. eapply rtc_l; [eapply (rs_missing _ 1 _ _ (EvRegistered example_registered))|];
    [by vm_compute|done|].
  eapply rtc_l; [eapply (rs_missing _ 1 _ _ (EvCertified ended_certified))|].
  - eexists. split; [vm_compute; reflexivity|]. split_and!; by vm_compute.
  - done.
  - apply rtc_refl.
Qed.

Lemma empty_spare_room : spare_room empty_table.
Proof. by intros b. Qed.

Lemma recovery_tracks_chain_witness :
  recovered 10 example_chain (per_object_blob_info empty_table) /\
  exists t', update_blob_info_during_recovery empty_table 7 (EvCertified example_extension) 10 =
      Ok t' /\
    recovering 10 1 (objects_after example_chain (EvCertified example_extension)) t'.
Proof.
  apply recovery_tracks_chain; [lia|exact example_recovering|exact empty_spare_room| |reflexivity].
  eexists. split; [vm_compute; reflexivity|]. split_and!; by vm_compute.
Defined.

Definition recovered_table : BlobInfoTable :=
  match update_blob_info_during_recovery empty_table 7 (EvCertified example_extension) 10 with
  | Ok t => t | _ => empty_table end.

Lemma example_recovered :
  recovering 10 1 (objects_after example_chain (EvCertified example_extension)) recovered_table.
Proof.
  destruct example_recovering as [e0 Hr]. exists e0. eapply rtc_r; [exact Hr|].
  apply (rs_event _ _ _ _ 7); [exact empty_spare_room| |done|by vm_compute].
  eexists. split; [vm_compute; reflexivity|]. split_and!; by vm_compute.
Qed.

Lemma recovery_keeps_live_blobs_witness :
  exists info, aggregate_blob_info recovered_table !! example_blob = Some info /\
    (is_invalid info = true \/ is_registered info 1 = true).
Proof.
  eapply (recovery_keeps_live_blobs 10 1 _ recovered_table example_blob 5);
    [lia|exact example_recovered|vm_compute; reflexivity|vm_compute; reflexivity..].
Defined.

End witnesses.
