(* ===== verification/BlobInfoStatus.v ===== *)
(** * The blob status reported to clients

    [to_blob_status] turns an aggregate entry into the [BlobStatus] of the
    storage node API (walrus-storage-node-client, api.rs).  The theorems relate
    what clients are told to the objects in the tables. *)

From S2P Require Import Prelude Core PermBlobInfo BlobInfoRepr.
From S2P Require Import BlobInfoV1 BlobInfoV2 BlobInfoTable Batches BlobInfoRefinement.
From S2P Require Import BlobInfoSafety BlobInfoEvents BlobInfoProps.

(** [BlobStatus::is_registered], [BlobStatus::initial_certified_epoch]. *)
Definition status_is_registered (s : BlobStatus) : bool :=
  match s with DeletableStatus _ _ | PermanentStatus _ _ _ _ _ => true | _ => false end.

Definition status_initial_certified_epoch (s : BlobStatus) : option Epoch :=
  match s with
  | PermanentStatus _ _ _ _ initial | DeletableStatus initial _ => initial
  | Nonexistent | InvalidStatus _ => None
  end.

(** ** The shared shape of the two versions

    Both versions choose by the permanent summaries and the counts of deletable
    objects. *)
Definition status_of (certified registered : option PermanentBlobInfo)
    (counts : DeletableCounts) (initial : option Epoch) (e : Epoch) : BlobStatus :=
  let live p := is_some_and p (fun p => e <? p_end_epoch p) in
  match certified, registered with
  | Some c, _ =>
    if live certified then PermanentStatus (p_end_epoch c) true (p_event c) counts initial
    else match registered with
      | Some p =>
        if live registered then PermanentStatus (p_end_epoch p) false (p_event p) counts initial
        else if decide (counts = mk_counts 0 0) then Nonexistent
        else DeletableStatus initial counts
      | None =>
        if decide (counts = mk_counts 0 0) then Nonexistent else DeletableStatus initial counts
      end
  | None, Some p =>
    if live registered then PermanentStatus (p_end_epoch p) false (p_event p) counts initial
    else if decide (counts = mk_counts 0 0) then Nonexistent else DeletableStatus initial counts
  | None, None =>
    if decide (counts = mk_counts 0 0) then Nonexistent else DeletableStatus initial counts
  end.

Definition v1_counts (v : V1.ValidBlobInfo) (e : Epoch) : DeletableCounts :=
  mk_counts
    (if is_some_and (V1.latest_seen_deletable_registered_end_epoch v) (fun x => e <? x)
     then V1.count_deletable_total v else 0)
    (if is_some_and (V1.latest_seen_deletable_certified_end_epoch v) (fun x => e <? x)
     then V1.count_deletable_certified v else 0).

Definition v2_counts (v : V2.ValidBlobInfo) : DeletableCounts :=
  mk_counts
    (saturating_add 32 (V2.count_deletable_total v) (V2.count_pooled_refs_total v))
    (saturating_add 32 (V2.count_deletable_certified v) (V2.count_pooled_refs_certified v)).

Lemma v1_status v e : V1.valid_to_blob_status v e =
  status_of (V1.permanent_certified v) (V1.permanent_total v) (v1_counts v e)
    (V1.initial_certified_epoch v) e.
Proof.
  unfold V1.valid_to_blob_status, status_of, v1_counts.
  destruct (V1.permanent_certified v), (V1.permanent_total v); cbn; by repeat case_match.
Qed.

Lemma v2_status v e : V2.valid_to_blob_status v e =
  status_of (V2.permanent_certified v) (V2.permanent_total v) (v2_counts v)
    (V2.initial_certified_epoch v) e.
Proof.
  unfold V2.valid_to_blob_status, status_of, v2_counts.
  destruct (V2.permanent_certified v), (V2.permanent_total v); cbn; by repeat case_match.
Qed.

Section shape.
Context (e : Epoch) (certified registered : option PermanentBlobInfo).
Context (counts : DeletableCounts) (initial : option Epoch).

Definition perm_live (p : option PermanentBlobInfo) : bool :=
  is_some_and p (fun p => e <? p_end_epoch p).

(** A status reports registration when a permanent summary is live or a count
    is not zero. *)
Lemma status_of_registered : perm_le certified registered ->
  status_is_registered (status_of certified registered counts initial e) =
    perm_live registered || bool_decide (counts <> mk_counts 0 0).
Proof.
  intros Hle. unfold status_of, perm_live.
  destruct certified as [c|], registered as [p|]; cbn in *; try done;
    repeat case_match; cbn; rewrite ?bool_decide_eq_true_2, ?bool_decide_eq_false_2 by
      (by intros ?) ; try done; try lia.
Qed.

(** A deletable status means that no permanent summary is live. *)
Lemma status_of_deletable i n : perm_le certified registered ->
  status_of certified registered counts initial e = DeletableStatus i n ->
  perm_live registered = false /\ i = initial /\ n = counts.
Proof.
  intros Hle. unfold status_of, perm_live.
  destruct certified as [c|], registered as [p|]; cbn in *; try done; repeat case_match; naive_solver.
Qed.

(** A live certified summary decides the status. *)
Lemma status_of_certified : perm_live certified = true ->
  exists c, certified = Some c /\
    status_of certified registered counts initial e =
      PermanentStatus (p_end_epoch c) true (p_event c) counts initial.
Proof.
  unfold status_of, perm_live. destruct certified as [c|]; [|done]. cbn. intros ->.
  exists c. by destruct registered.
Qed.

End shape.

(** ** The counts *)

Section counts.
Context (e : Epoch) (b : BlobId) (m : objects) (mp : pooled_objects).

Lemma v1_counts_zero v : repr_v1 e b m v ->
  bool_decide (v1_counts v e <> mk_counts 0 0) =
    (0 <? V1.count_deletable_total v) &&
    is_some_and (V1.latest_seen_deletable_registered_end_epoch v) (fun x => e <? x).
Proof.
  intros Hr. unfold v1_counts. pose proof (r1_latest_le _ _ _ _ Hr) as Hle.
  pose proof (del_cert_le b m) as Hdc. rewrite <- (r1_del _ _ _ _ Hr), <- (r1_del_cert _ _ _ _ Hr) in Hdc.
  pose proof (cnt_nonneg (of_blob b is_del_cert) m) as Hnn. rewrite <- (r1_del_cert _ _ _ _ Hr) in Hnn.
  destruct (V1.latest_seen_deletable_registered_end_epoch v) as [r|],
    (V1.latest_seen_deletable_certified_end_epoch v) as [c|]; cbn in *; try done;
    repeat case_match; cbn; rewrite ?andb_true_r, ?andb_false_r;
    try (by apply bool_decide_eq_false_2; intros []); try lia.
  all: destruct (0 <? V1.count_deletable_total v) eqn:Ht;
    [apply bool_decide_eq_true_2; intros [=]; lia
    |apply bool_decide_eq_false_2; intros Hne; apply Hne; f_equal; lia].
Qed.

Lemma v2_counts_zero v : repr_v2 e b m mp v ->
  bool_decide (v2_counts v <> mk_counts 0 0) =
    (0 <? V2.count_deletable_total v) || (0 <? V2.count_pooled_refs_total v).
Proof.
  intros [Hd Hdc _ _ _ Hp Hpc _]. unfold v2_counts, saturating_add.
  pose proof (del_cert_le b m). pose proof (cnt_pool_cert_le b mp).
  pose proof (cnt_nonneg (of_blob b is_del_cert) m). pose proof (cnt_nonneg (pool_of b pool_cert) mp).
  rewrite <- Hd, <- Hdc, <- Hp, <- Hpc in *.
  destruct (0 <? V2.count_deletable_total v) eqn:?, (0 <? V2.count_pooled_refs_total v) eqn:?; cbn [orb];
    [apply bool_decide_eq_true_2; intros [=]; lia..|].
  apply bool_decide_eq_false_2. intros Hne. apply Hne. f_equal; lia.
Qed.

End counts.

(** ** The promises to clients *)

Section promises.
Context `{Build}.

(** The reported status says registered exactly when the entry is
    registered, so clients and garbage collection agree. *)
Theorem status_agrees_with_registration e t b info : reachable e t ->
  aggregate_blob_info t !! b = Some info ->
  status_is_registered (to_blob_status info e) = is_registered info e.
Proof.
  intros Hreach Hb. pose proof (inv_agg _ _ (reachable_inv e t Hreach) b) as Hrep.
  rewrite Hb in Hrep. destruct info as [[ep ev|v]|[ep ev|v]]; try done; cbn in Hrep;
    cbn [to_blob_status is_registered]; unfold V1.to_blob_status, V2.to_blob_status.
  - destruct Hrep as [Hr _]. rewrite v1_status, status_of_registered by apply Hr.
    by rewrite (v1_counts_zero _ _ _ _ Hr).
  - rewrite v2_status, status_of_registered by apply Hrep.
    rewrite (v2_counts_zero _ _ _ _ _ Hrep). cbn. by rewrite orb_assoc.
Qed.

(** A certified permanent object decides the status: clients see a
    permanent, certified blob until an end epoch that is at least the object's
    and is the end epoch of some certified permanent object of the blob, with
    an initial certified epoch not after the object's certification. *)
Theorem status_of_permanent_blob e t b info k o c : reachable e t ->
  aggregate_blob_info t !! b = Some info -> is_invalid info = false ->
  per_object_blob_info t !! k = Some o -> o_blob_id o = b -> o_deletable o = false ->
  o_certified_epoch o = Some c -> e < o_end_epoch o ->
  exists end_epoch ev counts x,
    to_blob_status info e = PermanentStatus end_epoch true ev counts (Some x) /\
    o_end_epoch o <= end_epoch /\ x <= c /\
    exists k' o', per_object_blob_info t !! k' = Some o' /\ o_blob_id o' = b /\
      o_deletable o' = false /\ is_cert o' = true /\ o_end_epoch o' = end_epoch.
Proof.
  intros Hreach Hb Hval Hk Hob Hd Hc He. set (m := per_object_blob_info t) in *.
  pose proof (inv_agg _ _ (reachable_inv e t Hreach) b) as Hrep. rewrite Hb in Hrep.
  assert (live_cert e b m c) as Hlc by (by exists k, o).
  assert (of_blob b is_perm_cert o = true) as HP.
  { apply of_blob_true. split; [done|]. unfold is_perm_cert, is_perm, is_cert. by rewrite Hd, Hc. }
  assert (forall p, perm_repr e p (of_blob b is_perm_cert) m -> perm_live e p = true /\
    forall q, p = Some q -> o_end_epoch o <= p_end_epoch q /\
      exists k' o', m !! k' = Some o' /\ o_blob_id o' = b /\ o_deletable o' = false /\
        is_cert o' = true /\ o_end_epoch o' = p_end_epoch q) as Hperm.
  { intros p Hp. assert (perm_live e p = true) as Hl by (apply (perm_repr_live _ _ _ _ Hp); eauto).
    split; [done|]. intros q ->. destruct Hp as (_ & _ & Hall & Hex). split; [by eapply Hall|].
    cbn in Hl. destruct Hex as [?|(k' & o' & Hk' & HP' & Heq)]; [lia|].
    apply of_blob_true in HP' as [? [HP' ?]%andb_true_iff]. exists k', o'. split_and!; try done.
    by apply negb_true_iff. }
  destruct info as [[ep ev|v]|[ep ev|v]]; try done; cbn in Hrep;
    cbn [to_blob_status]; unfold V1.to_blob_status, V2.to_blob_status.
  - destruct Hrep as [Hr _]. rewrite v1_status.
    destruct (v1_certified e b m v c Hr Hlc) as (_ & x & -> & Hx).
    destruct (Hperm _ (r1_perm_cert _ _ _ _ Hr)) as [Hl Hq].
    destruct (status_of_certified e _ (V1.permanent_total v) (v1_counts v e) (Some x) Hl)
      as (q & Heq & ->). destruct (Hq q Heq) as [? ?]. eauto 10.
  - rewrite v2_status.
    destruct (v2_certified e b m _ v c Hrep (or_introl Hlc)) as (_ & x & -> & Hx).
    destruct (Hperm _ (r2_perm_cert _ _ _ _ _ Hrep)) as [Hl Hq].
    destruct (status_of_certified e _ (V2.permanent_total v) (v2_counts v) (Some x) Hl)
      as (q & Heq & ->). destruct (Hq q Heq) as [? ?]. eauto 10.
Qed.

(** The documented invariant of [BlobStatus::Deletable]. *)
Definition deletable_status_inv (s : BlobStatus) : bool :=
  match s with
  | DeletableStatus initial counts => Bool.eqb (is_some initial) (0 <? count_certified counts)
  | _ => true
  end.

(** Without live permanent objects there are no permanent objects once expired
    ones are collected. *)
Lemma collected_no_permanent e t b P p : collected e t -> (forall o, P o = true -> is_perm o = true) ->
  perm_repr e p (of_blob b is_perm) (per_object_blob_info t) -> perm_live e p = false ->
  cnt (of_blob b P) (per_object_blob_info t) = 0.
Proof.
  intros Hcol HP Hp Hl. apply cnt_zero_iff. intros k o Hk. destruct (of_blob b P o) eqn:HPo; [|done].
  apply of_blob_true in HPo as [Hb HPo].
  assert (perm_live e p = true); [|congruence]. apply (perm_repr_live _ _ _ _ Hp).
  exists k, o. split_and!; [done| |by eapply Hcol]. apply of_blob_true. eauto.
Qed.

(** Once expired objects are collected, a deletable status carries a
    certified epoch exactly when it counts a certified object. *)
Theorem deletable_status_inv_after_collection e t b info : reachable e t -> collected e t ->
  aggregate_blob_info t !! b = Some info -> deletable_status_inv (to_blob_status info e) = true.
Proof.
  intros Hreach Hcol Hb. pose proof (inv_agg _ _ (reachable_inv e t Hreach) b) as Hrep.
  rewrite Hb in Hrep.
  destruct info as [[ep ev|v]|[ep ev|v]]; try done; cbn in Hrep;
    cbn [to_blob_status]; unfold V1.to_blob_status, V2.to_blob_status.
  - destruct Hrep as [Hr _]. rewrite v1_status.
    destruct (status_of _ _ _ _ _) as [| | |i n] eqn:Hs; try done.
    apply status_of_deletable in Hs as (Hl & -> & ->); [|apply Hr]. cbn.
    pose proof (r1_init _ _ _ _ Hr) as Hi. rewrite cnt_cert_split in Hi.
    rewrite (collected_no_permanent e t b is_perm_cert (V1.permanent_total v) Hcol) in Hi;
      [|by intros o [? _]%andb_true_iff|apply Hr|done].
    pose proof (r1_latest_cert _ _ _ _ Hr) as Hlc. rewrite (r1_del_cert _ _ _ _ Hr).
    destruct (V1.initial_certified_epoch v) as [x|], (V1.latest_seen_deletable_certified_end_epoch v)
      as [y|]; cbn in *; try lia.
    destruct Hlc as [Hpos Hall]. pose proof Hpos as (k & o & Hk & HP)%cnt_pos_iff.
    specialize (Hall k o Hk HP). specialize (Hcol k o Hk).
    rewrite (proj2 (Z.ltb_lt e y)) by lia. by rewrite (proj2 (Z.ltb_lt _ _)).
  - rewrite v2_status. destruct (status_of _ _ _ _ _) as [| | |i n] eqn:Hs; try done.
    apply status_of_deletable in Hs as (Hl & -> & ->); [|apply Hrep]. cbn. unfold saturating_add.
    pose proof (r2_init _ _ _ _ _ Hrep) as Hi. rewrite cnt_cert_split in Hi.
    rewrite (collected_no_permanent e t b is_perm_cert (V2.permanent_total v) Hcol) in Hi;
      [|by intros o [? _]%andb_true_iff|apply Hrep|done].
    rewrite (r2_del_cert _ _ _ _ _ Hrep), (r2_pool_cert _ _ _ _ _ Hrep).
    destruct (V2.initial_certified_epoch v) as [x|]; cbn in *.
    + destruct Hi as [Hi _]. by rewrite (proj2 (Z.ltb_lt _ _)) by lia.
    + by rewrite (proj2 (Z.ltb_ge _ _)) by lia.
Qed.

End promises.

(** ** Witnesses *)

Section witnesses.
#[local] Existing Instance release_build.

(** Before a collection the documented invariant can fail: object 5 ends at 20
    uncertified, object 6 is certified and ends at 10, and the status is asked
    for in epoch 15. *)
Definition two_object_registered (id : ObjectID) (end_epoch : Epoch) : BlobEvent :=
  EvRegistered
    {| br_epoch := 1; br_blob_id := example_blob; br_size := 100; br_encoding_type := RS2;
       br_end_epoch := end_epoch; br_deletable := true; br_object_id := id; br_event_id := id |}.

Definition two_object_certified : BlobEvent :=
  EvCertified {| bc_epoch := 1; bc_blob_id := example_blob; bc_end_epoch := 10;
    bc_deletable := true; bc_object_id := 6; bc_is_extension := false; bc_event_id := 9 |}.

Definition two_object_events : list (Z * BlobEvent) :=
  [(0, two_object_registered 5 20); (1, two_object_registered 6 10); (2, two_object_certified)].

Definition two_object_table : BlobInfoTable := run_events two_object_events.

Lemma two_object_reachable : reachable 15 two_object_table.
Proof.
  assert (reachable 1 (run_events (take 1 two_object_events))) as H1.
  { apply (reachable_event 1 empty_table 0 (two_object_registered 5 20));
      [by exists 1; apply rtc_refl|by apply room_small|by split|vm_compute; reflexivity]. }
  assert (reachable 1 (run_events (take 2 two_object_events))) as H2.
  { apply (reachable_event 1 _ 1 (two_object_registered 6 10) _ H1);
      [by apply room_small|split; [vm_compute; reflexivity|done]|vm_compute; reflexivity]. }
  assert (reachable 1 two_object_table) as [e0 Hr].
  { apply (reachable_event 1 _ 2 two_object_certified _ H2);
      [by apply room_small| |vm_compute; reflexivity].
    eexists. split; [vm_compute; reflexivity|]. split_and!; by vm_compute. }
  exists e0. eapply rtc_r; [exact Hr|]. by apply ts_epoch.
Qed.

(** Before expired objects are collected, a deletable status can carry a
    certified epoch while it counts no certified object. *)
Theorem deletable_status_inv_before_collection :
  exists t info, reachable 15 t /\ aggregate_blob_info t !! example_blob = Some info /\
    to_blob_status info 15 = DeletableStatus (Some 1) (mk_counts 2 0) /\
    deletable_status_inv (to_blob_status info 15) = false.
Proof.
  exists two_object_table. eexists. split; [exact two_object_reachable|].
  split; [vm_compute; reflexivity|]. by vm_compute.
Qed.

Lemma status_agrees_with_registration_witness :
  status_is_registered (to_blob_status example_info 1) = is_registered example_info 1.
Proof.
  apply (status_agrees_with_registration 1 example_table example_blob);
    [exact example_reachable|vm_compute; reflexivity].
Defined.

Lemma deletable_status_inv_after_collection_witness :
  deletable_status_inv (to_blob_status example_info 1) = true.
Proof.
  apply (deletable_status_inv_after_collection 1 example_table example_blob);
    [exact example_reachable| |vm_compute; reflexivity].
  intros k o Hk. apply (elem_of_map_to_list (M := gmap ObjectID)) in Hk. vm_compute in Hk.
  apply list_elem_of_singleton in Hk. injection Hk as -> ->. vm_compute. reflexivity.
Defined.

(** A certified permanent object. *)
Definition permanent_registered : BlobEvent :=
  EvRegistered
    {| br_epoch := 1; br_blob_id := example_blob; br_size := 100; br_encoding_type := RS2;
       br_end_epoch := 10; br_deletable := false; br_object_id := 5; br_event_id := 70 |}.

Definition permanent_certified_event : BlobEvent :=
  EvCertified {| bc_epoch := 1; bc_blob_id := example_blob; bc_end_epoch := 10;
    bc_deletable := false; bc_object_id := 5; bc_is_extension := false; bc_event_id := 71 |}.

Definition permanent_events : list (Z * BlobEvent) :=
  [(0, permanent_registered); (1, permanent_certified_event)].

Lemma permanent_reachable : reachable 1 (run_events permanent_events).
Proof.
  assert (reachable 1 (run_events (take 1 permanent_events))) as H1.
  { apply (reachable_event 1 empty_table 0 permanent_registered);
      [by exists 1; apply rtc_refl|by apply room_small|by split|vm_compute; reflexivity]. }
  apply (reachable_event 1 _ 1 permanent_certified_event _ H1);
    [by apply room_small| |vm_compute; reflexivity].
  eexists. split; [vm_compute; reflexivity|]. split_and!; by vm_compute.
Qed.

Definition permanent_info : BlobInfo :=
  default example_info (aggregate_blob_info (run_events permanent_events) !! example_blob).

Definition permanent_object : PerObjectBlobInfo :=
  mk_object example_blob 1 (Some 1) 10 false 71 false.

Lemma status_of_permanent_blob_witness :
  exists end_epoch ev counts x,
    to_blob_status permanent_info 1 = PermanentStatus end_epoch true ev counts (Some x) /\
    o_end_epoch permanent_object <= end_epoch /\ x <= 1 /\
    exists k' o', per_object_blob_info (run_events permanent_events) !! k' = Some o' /\
      o_blob_id o' = example_blob /\ o_deletable o' = false /\ is_cert o' = true /\
      o_end_epoch o' = end_epoch.
Proof.
  apply (status_of_permanent_blob 1 _ example_blob permanent_info 5 permanent_object 1);
    [exact permanent_reachable|vm_compute; reflexivity..].
Defined.

End witnesses.
