(* ===== verification/EventCursor.v ===== *)
(** * The event cursor

    Models storage/event_sequencer.rs and storage/event_cursor_table.rs of the
    storage node.  Events finish in any order; the cursor that is stored, from
    which event processing resumes after a restart, only moves to the end of
    the contiguous prefix of finished events.  Database errors are not
    modelled, and a merge operand is applied when it is written. *)

From S2P Require Import Prelude PermBlobInfo.

(** ** The sequencer (event_sequencer.rs) *)

Record EventSequencer := mk_sequencer { head_index : Z; queue : gmap Z EventID }.

Definition continue_from (head_index : Z) : EventSequencer := mk_sequencer head_index ∅.

Definition sequencer_add {E} (s : EventSequencer) (index : Z) (event_id : EventID) :
    outcome E EventSequencer :=
  if (index <? head_index s) || is_some (queue s !! index) then Panic
  else Ok (mk_sequencer (head_index s) (<[index := event_id]> (queue s))).

Section sequencer.
Context `{Build}.

(** [(head_index..).scan(..)]: the range computes its next element before it
    yields one; fuel: one more than there are entries in the queue. *)
Fixpoint ready_loop {E} (fuel : nat) (queue : gmap Z EventID) (i : Z) : outcome E (list EventID) :=
  match fuel with
  | O => Panic
  | S fuel =>
    next ← arith 64 (i + 1);
    match queue !! i with
    | None => Ok []
    | Some event_id => events ← ready_loop fuel queue next; Ok (event_id :: events)
    end
  end.

Definition ready_events {E} (s : EventSequencer) : outcome E (list EventID) :=
  ready_loop (S (size (queue s))) (queue s) (head_index s).

(** The [while] loop of [advance]; fuel as for [ready_events]. *)
Fixpoint advance_loop {E} (fuel : nat) (s : EventSequencer) : outcome E EventSequencer :=
  match fuel with
  | O => Panic
  | S fuel =>
    match queue s !! head_index s with
    | None => Ok s
    | Some _ =>
      next ← arith 64 (head_index s + 1);
      advance_loop fuel (mk_sequencer next (delete (head_index s) (queue s)))
    end
  end.

Definition advance {E} (s : EventSequencer) : outcome E EventSequencer :=
  advance_loop (S (size (queue s))) s.

End sequencer.

Definition remaining (s : EventSequencer) : Z := Z.of_nat (size (queue s)).

(** ** The cursor table (event_cursor_table.rs) *)

Record EventIdWithProgress := mk_progress { event_id : EventID; next_event_index : Z }.

Record EventProgress := {
  persisted : Z;
  pending : Z;
  highest_finished_event_index : Z;
}.

Record EventCursorTable := mk_cursor_table {
  inner : option EventIdWithProgress;
  event_queue : EventSequencer;
  persisted_event_count : Z;
  pending_event_count : Z;
  highest_finished : Z;
}.

Definition sequentially_processed (inner : option EventIdWithProgress) : Z :=
  match inner with None => 0 | Some v1 => next_event_index v1 end.

Definition get_sequentially_processed_event_count (t : EventCursorTable) : Z :=
  sequentially_processed (inner t).

(** [reopen], from what the database holds. *)
Definition cursor_reopen (inner : option EventIdWithProgress) : EventCursorTable :=
  let next_index := sequentially_processed inner in
  mk_cursor_table inner (continue_from next_index) next_index 0 0.

Definition reposition_event_cursor (t : EventCursorTable) (cursor : EventID) (next_index : Z) :
    EventCursorTable :=
  mk_cursor_table (Some (mk_progress cursor next_index)) (continue_from next_index) next_index
    (pending_event_count t) (highest_finished t).

Definition get_event_cursor_progress (t : EventCursorTable) : EventProgress :=
  {| persisted := persisted_event_count t; pending := pending_event_count t;
     highest_finished_event_index := highest_finished t |}.

Section table.
Context `{Build}.

(** The merge operator of the column family. *)
Definition update_cursor_and_progress {E} (existing_val : option EventIdWithProgress)
    (operands : list (EventID * Z)) : outcome E (option EventIdWithProgress) :=
  foldM (fun current_val '(cursor, increment) =>
      updated_progress ← arith 64 (sequentially_processed current_val + increment);
      Ok (Some (mk_progress cursor updated_progress)))
    existing_val operands.

(** The part of [maybe_advance_event_cursor] that stores the cursor of the last
    ready event and how many there are, and drops them from the queue. *)
Definition persist_ready {E} (inner : option EventIdWithProgress) (event_queue : EventSequencer) :
    outcome E (option EventIdWithProgress * EventSequencer) :=
  events ← ready_events event_queue;
  let count := len events in
  match last events with
  | Some cursor =>
    inner ← update_cursor_and_progress inner [(cursor, count)];
    event_queue ← advance event_queue;
    Ok (inner, event_queue)
  | None => Ok (inner, event_queue)
  end.

Definition maybe_advance_event_cursor {E} (t : EventCursorTable) (event_index : Z) (cursor : EventID) :
    outcome E (EventCursorTable * EventProgress) :=
  event_queue ← sequencer_add (event_queue t) event_index cursor;
  '(inner, event_queue) ← persist_ready (inner t) event_queue;
  let persisted := head_index event_queue in
  let pending := remaining event_queue in
  debug_assert (persisted =? sequentially_processed inner);;
  let highest := Z.max (highest_finished t) event_index in
  Ok (mk_cursor_table inner event_queue persisted pending highest,
      {| persisted := persisted; pending := pending; highest_finished_event_index := highest |}).

(** A sequence of calls. *)
Definition finish_event {E} (t : EventCursorTable) (event : Z * EventID) : outcome E EventCursorTable :=
  '(t, _) ← maybe_advance_event_cursor t event.1 event.2; Ok t.

Definition finish_events {E} (t : EventCursorTable) (events : list (Z * EventID)) :
    outcome E EventCursorTable :=
  foldM finish_event t events.

End table.

(** ** The first gap *)

(** [g] is the first index from [h] on that is not in the map. *)
Record first_gap {A} (h : Z) (m : gmap Z A) (g : Z) : Prop := {
  gap_from : h <= g;
  gap_before i : h <= i < g -> is_Some (m !! i);
  gap_at : m !! g = None;
}.

Section gaps.
Context {A : Type}.
Implicit Types m : gmap Z A.

Lemma first_gap_unique h m g g' : first_gap h m g -> first_gap h m g' -> g = g'.
Proof.
  intros [H1 H2 H3] [H1' H2' H3']. destruct (Z.lt_trichotomy g g') as [Hlt|[|Hlt]]; [|done|].
  - destruct (H2' g ltac:(lia)). congruence.
  - destruct (H2 g' ltac:(lia)). congruence.
Qed.

Lemma first_gap_exists h m : exists g, first_gap h m g /\ g - h <= Z.of_nat (size m).
Proof.
  remember (size m) as k eqn:Hk. revert h m Hk. induction k as [|k IH]; intros h m Hk.
  - symmetry in Hk. apply map_size_empty_inv in Hk as ->. exists h. split; [|lia].
    split; [lia|intros i Hi; lia|done].
  - destruct (m !! h) as [x|] eqn:Hh; [|exists h; split; [split; [lia|lia|done]|lia]].
    destruct (IH (h + 1) (delete h m)) as (g & [H1 H2 H3] & Hg).
    { rewrite map_size_delete_Some by by exists x. lia. }
    exists g. split; [|lia]. split; [lia| |by rewrite lookup_delete_ne in H3 by lia].
    intros i Hi. destruct (Z.eq_dec i h) as [->|Hne]; [by exists x|].
    destruct (H2 i ltac:(lia)) as [y Hy]. rewrite lookup_delete_ne in Hy by lia. by exists y.
Qed.

Lemma first_gap_size h m g : first_gap h m g -> g - h <= Z.of_nat (size m).
Proof. intros Hg. destruct (first_gap_exists h m) as (g' & Hg' & Hs). by rewrite (first_gap_unique _ _ _ _ Hg Hg'). Qed.

Lemma first_gap_ext h m m' g : (forall i, h <= i -> m !! i = m' !! i) -> first_gap h m g -> first_gap h m' g.
Proof.
  intros Hext [H1 H2 H3]. split; [done| |by rewrite <- Hext by lia].
  intros i Hi. rewrite <- Hext by lia. by apply H2.
Qed.

(** A gap found from the previous one. *)
Lemma first_gap_trans h m g g' : h <= g -> (forall i, h <= i < g -> is_Some (m !! i)) ->
  first_gap g m g' -> first_gap h m g'.
Proof.
  intros Hg Hb [H1 H2 H3]. split; [lia| |done]. intros i Hi.
  destruct (Z.lt_ge_cases i g); [apply Hb; lia|apply H2; lia].
Qed.

Lemma first_gap_next h m x g : m !! h = Some x -> first_gap h m g -> first_gap (h + 1) m g /\ h < g.
Proof.
  intros Hh [H1 H2 H3]. assert (h <> g) by congruence. split; [|lia].
  split; [lia| |done]. intros i Hi. apply H2. lia.
Qed.

End gaps.

Section loops.
Context `{Build}.

Lemma ready_loop_ok {E} fuel q i g : first_gap i q g -> 0 <= i -> g < 2 ^ 64 - 1 -> (Z.to_nat (g - i) < fuel)%nat ->
  ready_loop (E:=E) fuel q i = Ok ((fun j => q !!! j) <$> seqZ i (g - i)).
Proof.
  revert i. induction fuel as [|fuel IH]; intros i Hg Hi Hmax Hf; [lia|]. cbn [ready_loop].
  pose proof (gap_from _ _ _ Hg). rewrite arith_in_range by lia. cbn [mbind outcome_bind].
  destruct (q !! i) as [x|] eqn:Hx.
  - destruct (first_gap_next _ _ _ _ Hx Hg) as [Hg' Hlt].
    replace (i + 1) with (Z.succ i) in * by lia. rewrite IH by (done || lia). cbn [mbind outcome_bind].
    rewrite (seqZ_cons i) by lia. rewrite fmap_cons, (lookup_total_correct _ _ _ Hx).
    by replace (Z.pred (g - i)) with (g - Z.succ i) by lia.
  - assert (g = i) as ->.
    { destruct (Z.eq_dec g i); [done|]. destruct (gap_before _ _ _ Hg i ltac:(lia)). congruence. }
    by rewrite Z.sub_diag.
Qed.

Lemma advance_loop_ok {E} fuel q i g : first_gap i q g -> 0 <= i -> g < 2 ^ 64 -> (Z.to_nat (g - i) < fuel)%nat ->
  (forall j, is_Some (q !! j) -> i <= j) ->
  advance_loop (E:=E) fuel (mk_sequencer i q) = Ok (mk_sequencer g (filter (fun kv => g <= kv.1) q)).
Proof.
  revert i q. induction fuel as [|fuel IH]; intros i q Hg Hi Hmax Hf Hall; [lia|]. cbn [advance_loop queue head_index].
  pose proof (gap_from _ _ _ Hg). destruct (q !! i) as [x|] eqn:Hx.
  - destruct (first_gap_next _ _ _ _ Hx Hg) as [Hg' Hlt]. rewrite arith_in_range by lia. cbn [mbind outcome_bind].
    rewrite IH; [|by eapply first_gap_ext; [|exact Hg']; intros j Hj; rewrite lookup_delete_ne by lia|lia|lia|lia|].
    + do 2 f_equal. rewrite map_filter_delete. apply delete_id.
      apply map_lookup_filter_None. right. intros y _. cbn. lia.
    + intros j [y Hy]. destruct (Z.eq_dec i j) as [->|Hne]; [by rewrite lookup_delete_eq in Hy|].
      rewrite lookup_delete_ne in Hy by done. assert (i <= j) by (apply Hall; by exists y). lia.
  - assert (g = i) as ->.
    { destruct (Z.eq_dec g i); [done|]. destruct (gap_before _ _ _ Hg i ltac:(lia)). congruence. }
    do 2 f_equal. symmetry. apply map_filter_id. intros j y Hy. cbn. apply Hall. by exists y.
Qed.

End loops.

(** ** What the table holds *)

(** The table after the events [obs] finished, when it was opened with the
    cursor [c0]. *)
Record tracks (c0 : option EventIdWithProgress) (obs : gmap Z EventID) (t : EventCursorTable) : Prop := {
  tracks_gap : first_gap (sequentially_processed c0) obs (persisted_event_count t);
  tracks_queue : event_queue t =
    mk_sequencer (persisted_event_count t) (filter (fun kv => persisted_event_count t <= kv.1) obs);
  tracks_inner : inner t =
    if bool_decide (persisted_event_count t = sequentially_processed c0) then c0
    else Some (mk_progress (obs !!! (persisted_event_count t - 1)) (persisted_event_count t));
  tracks_pending : pending_event_count t = remaining (event_queue t);
}.

(** Events that may finish: not before the cursor, not yet finished, and not at
    the end of the range of indices. *)
Definition may_finish (c0 : option EventIdWithProgress) (i : Z) : Prop :=
  sequentially_processed c0 <= i < 2 ^ 64 - 2.

Section tracking.
Context `{Build}.
Context (c0 : option EventIdWithProgress) (Hc0 : 0 <= sequentially_processed c0).
Implicit Types (obs : gmap Z EventID) (t : EventCursorTable).
Let h0 := sequentially_processed c0.

Lemma tracks_count obs t : tracks c0 obs t -> sequentially_processed (inner t) = persisted_event_count t.
Proof. intros Ht. rewrite (tracks_inner _ _ _ Ht). by case_bool_decide. Qed.

Lemma reopen_tracks : tracks c0 ∅ (cursor_reopen c0).
Proof.
  split; cbn.
  - split; [done|lia|done].
  - done.
  - by rewrite bool_decide_true.
  - done.
Qed.

(** The gap stays below the last index. *)
Lemma gap_bounded obs g : 0 <= h0 -> h0 < 2 ^ 64 - 1 -> (forall i, is_Some (obs !! i) -> may_finish c0 i) ->
  first_gap h0 obs g -> g < 2 ^ 64 - 1.
Proof.
  intros _ Hh Hall Hg. destruct (Z.eq_dec g h0) as [->|Hne]; [done|].
  pose proof (gap_from _ _ _ Hg). destruct (Hall (g - 1)) as [_ ?]; [apply (gap_before _ _ _ Hg); lia|]. lia.
Qed.

Lemma persist_ready_ok {E} inn q g g' : first_gap g q g' -> 0 <= g -> g' < 2 ^ 64 - 1 ->
  (forall j, is_Some (q !! j) -> g <= j) -> sequentially_processed inn = g ->
  persist_ready (E:=E) inn (mk_sequencer g q) =
    Ok (if bool_decide (g' = g) then inn else Some (mk_progress (q !!! (g' - 1)) g'),
        mk_sequencer g' (filter (fun kv => g' <= kv.1) q)).
Proof.
  intros Hg H0 Hmax Hall Hinn. pose proof (first_gap_size _ _ _ Hg). pose proof (gap_from _ _ _ Hg).
  unfold persist_ready, ready_events, advance. cbn [queue head_index].
  rewrite (ready_loop_ok _ q g g') by (done || lia). cbn [mbind outcome_bind].
  destruct (Z.eq_dec g' g) as [->|Hne].
  - rewrite Z.sub_diag, bool_decide_true by done. cbn. do 3 f_equal. symmetry. apply map_filter_id.
    intros j x Hx. cbn. apply Hall. by exists x.
  - rewrite bool_decide_false by done. rewrite length_fmap, length_seqZ.
    replace (seqZ g (g' - g)) with (seqZ g (Z.of_nat (S (Z.to_nat (g' - g - 1))))) by (f_equal; lia).
    rewrite seqZ_S, fmap_app. cbn [fmap list_fmap]. rewrite last_snoc.
    replace (g + Z.of_nat (Z.to_nat (g' - g - 1))) with (g' - 1) by lia.
    unfold update_cursor_and_progress. cbn [foldM].
    rewrite Hinn, arith_in_range by lia. cbn [mbind outcome_bind].
    rewrite advance_loop_ok with (g := g') by (done || lia). cbn. do 5 f_equal. lia.
Qed.

(** The table after one more event, when [persist_ready] moved the gap. *)
Lemma tracks_advance obs g g' inn hi : first_gap h0 obs g' -> h0 <= g <= g' ->
  inn = (if bool_decide (g = h0) then c0 else Some (mk_progress (obs !!! (g - 1)) g)) ->
  let q := filter (fun kv => g <= kv.1) obs in
  let s := mk_sequencer g' (filter (fun kv => g' <= kv.1) q) in
  tracks c0 obs (mk_cursor_table
    (if bool_decide (g' = g) then inn else Some (mk_progress (q !!! (g' - 1)) g')) s g' (remaining s) hi).
Proof.
  intros Hgap Hg -> q s. split; cbn [persisted_event_count event_queue inner pending_event_count].
  - done.
  - subst s q. f_equal. rewrite map_filter_filter. apply map_filter_ext. intros j x _. cbn. lia.
  - fold h0. destruct (Z.eq_dec g' g) as [->|Hne]; [by rewrite (bool_decide_true (g = g))|].
    rewrite !bool_decide_false by lia. do 2 f_equal. unfold q.
    destruct (gap_before _ _ _ Hgap (g' - 1) ltac:(lia)) as [x Hx]. rewrite (lookup_total_correct _ _ _ Hx).
    apply lookup_total_correct, map_lookup_filter_Some. split; [done|cbn; lia].
  - done.
Qed.

Lemma tracks_step {E} obs t i id : h0 < 2 ^ 64 - 1 -> tracks c0 obs t ->
  (forall j, is_Some (obs !! j) -> may_finish c0 j) -> may_finish c0 i -> obs !! i = None ->
  exists t', maybe_advance_event_cursor (E:=E) t i id = Ok (t', get_event_cursor_progress t') /\
    tracks c0 (<[i := id]> obs) t' /\ highest_finished t' = Z.max (highest_finished t) i.
Proof.
  intros Hmax Ht Hall Hi Hfresh. pose proof (tracks_count obs t Ht) as Hcount.
  destruct Ht as [Hgap Hq Hin _]. set (g := persisted_event_count t) in *.
  set (obs' := <[i := id]> obs). pose proof (gap_from _ _ _ Hgap) as Hhg. fold h0 in Hhg.
  assert (g <= i) as Hgi.
  { destruct (Z.le_gt_cases g i); [done|]. destruct (gap_before _ _ _ Hgap i) as [? ?]; [|congruence].
    destruct Hi. lia. }
  assert (forall j, is_Some (obs' !! j) -> may_finish c0 j) as Hall'.
  { intros j Hj. unfold obs' in Hj. destruct (Z.eq_dec i j) as [<-|Hne]; [done|].
    rewrite lookup_insert_ne in Hj by done. by apply Hall. }
  assert (forall j, j < g -> obs' !! j = obs !! j) as Hold by (intros; unfold obs'; by rewrite lookup_insert_ne by lia).
  destruct (first_gap_exists g obs') as (g' & Hg' & _). pose proof (gap_from _ _ _ Hg') as Hgg.
  assert (first_gap h0 obs' g') as Hgap'.
  { apply (first_gap_trans h0 obs' g); [done| |done]. intros j Hj. rewrite Hold by lia. by apply (gap_before _ _ _ Hgap). }
  pose proof (gap_bounded obs' g' Hc0 Hmax Hall' Hgap') as Hlt.
  unfold maybe_advance_event_cursor, sequencer_add. rewrite Hq. cbn [head_index queue].
  rewrite (proj2 (Z.ltb_ge i g)), (proj2 (map_lookup_filter_None _ obs i) (or_introl Hfresh)) by done.
  cbn [is_some orb mbind outcome_bind].
  replace (<[i := id]> (filter (fun kv => g <= kv.1) obs)) with (filter (fun kv => g <= kv.1) obs')
    by (unfold obs'; by rewrite map_filter_insert_True).
  rewrite (persist_ready_ok (inner t) _ g g'); [|..|done].
  - cbn [mbind outcome_bind head_index].
    pose proof (tracks_advance obs' g g' (inner t) (Z.max (highest_finished t) i) Hgap' ltac:(lia)) as Htr.
    eexists. split; [|split; [apply Htr|done]].
    + unfold debug_assert. replace (g' =? _) with true; [by destruct debug_assertions|]. symmetry. apply Z.eqb_eq.
      destruct (bool_decide_reflect (g' = g)); [by rewrite Hcount|done].
    + rewrite Hin. fold h0. destruct (bool_decide_reflect (g = h0)) as [|Hgh]; [done|]. do 2 f_equal.
      by rewrite !lookup_total_alt, Hold by lia.
  - eapply first_gap_ext; [|exact Hg']. intros j Hj. symmetry.
    destruct (obs' !! j) as [x|] eqn:Hx; [by apply map_lookup_filter_Some|apply map_lookup_filter_None; by left].
  - lia.
  - done.
  - intros j [x [_ Hj]%map_lookup_filter_Some]. done.
Qed.

(** A run of the table. *)
Record run (events : list (Z * EventID)) : Prop := {
  run_distinct : NoDup events.*1;
  run_indices : Forall (fun ev => may_finish c0 ev.1) events;
}.

Lemma finish_events_from {E} events obs t : h0 < 2 ^ 64 - 1 -> tracks c0 obs t ->
  (forall j, is_Some (obs !! j) -> may_finish c0 j) -> run events -> Forall (fun ev => obs !! ev.1 = None) events ->
  exists t', finish_events (E:=E) t events = Ok t' /\ tracks c0 (list_to_map events ∪ obs) t'.
Proof.
  intros Hmax. revert obs t. induction events as [|[i id] events IH]; intros obs t Ht Hobs [Hnd Hok] Hfresh.
  - exists t. cbn. by rewrite (left_id_L ∅ (∪)).
  - apply NoDup_cons in Hnd as [Hi Hnd]. apply Forall_cons in Hok as [Hio Hok]. apply Forall_cons in Hfresh as [Hif Hfresh].
    cbn [fst] in *. destruct (tracks_step (E:=E) obs t i id Hmax Ht Hobs Hio Hif) as (t1 & Hstep & Ht1 & _).
    destruct (IH (<[i := id]> obs) t1 Ht1) as (t' & Hrun & Ht').
    + intros j Hj. destruct (Z.eq_dec i j) as [<-|]; [done|]. rewrite lookup_insert_ne in Hj by done. by apply Hobs.
    + done.
    + apply Forall_forall. intros ev Hev. rewrite Forall_forall in Hfresh. rewrite lookup_insert_ne; [by apply Hfresh|].
      intros Heq. apply Hi. rewrite Heq. apply list_elem_of_fmap. by exists ev.
    + exists t'. split; [unfold finish_events; cbn [foldM]; unfold finish_event at 2; cbn [fst snd]; by rewrite Hstep|].
      cbn [list_to_map foldr uncurry]. rewrite <- insert_union_l. rewrite <- insert_union_r in Ht'; [done|].
      by apply not_elem_of_list_to_map_1.
Qed.

Lemma finish_events_ok {E} events : h0 < 2 ^ 64 - 1 -> run events ->
  exists t, finish_events (E:=E) (cursor_reopen c0) events = Ok t /\ tracks c0 (list_to_map events) t.
Proof.
  intros Hmax Hrun. destruct (finish_events_from (E:=E) events ∅ (cursor_reopen c0)) as (t & Hok & Ht);
    [done|apply reopen_tracks|by intros j [? ?]|done|by apply Forall_true|].
  exists t. by rewrite (right_id_L ∅ (∪)) in Ht.
Qed.

End tracking.

(** ** The promises of the cursor *)

Section promises.
Context `{Build}.
Implicit Types (events : list (Z * EventID)).

Lemma filter_list_to_map (P : Z -> Prop) `{forall i, Decision (P i)} events : NoDup events.*1 ->
  (list_to_map (filter (fun ev => P ev.1) events) : gmap Z EventID) =
    filter (fun kv => P kv.1) (list_to_map events : gmap Z EventID).
Proof.
  induction events as [|[i id] events IH]; intros Hnd; [done|]. cbn [fmap list_fmap fst] in Hnd.
  apply NoDup_cons in Hnd as [Hi Hnd]. destruct (decide (P i)) as [Hp|Hp].
  - rewrite filter_cons_True by done. cbn. rewrite map_filter_insert_True by done. by rewrite IH.
  - rewrite filter_cons_False by done. cbn. rewrite map_filter_insert_False by done.
    rewrite delete_id by by apply not_elem_of_list_to_map_1. by apply IH.
Qed.

(** Processing that is resumed at the gap reaches the same cursor. *)
Lemma resumed_inner c0 obs1 obs t1 t2 t : obs1 ⊆ obs -> tracks c0 obs1 t1 -> tracks c0 obs t ->
  tracks (inner t1) (filter (fun kv => persisted_event_count t1 <= kv.1) obs) t2 -> inner t2 = inner t.
Proof.
  intros Hsub Ht1 Ht Ht2. pose proof (tracks_count _ _ _ Ht1) as Hc1.
  destruct Ht1 as [Hg1 _ Hin1 _], Ht as [Hg _ Hin _], Ht2 as [Hg2 _ Hin2 _]. rewrite Hc1 in Hg2, Hin2.
  set (g1 := persisted_event_count t1) in *. pose proof (gap_from _ _ _ Hg1). pose proof (gap_from _ _ _ Hg2).
  assert (forall j, sequentially_processed c0 <= j < g1 -> is_Some (obs !! j)) as Hold.
  { intros j Hj. destruct (gap_before _ _ _ Hg1 j Hj) as [x Hx]. exists x. by eapply lookup_weaken. }
  assert (persisted_event_count t2 = persisted_event_count t) as Heq.
  { eapply first_gap_unique; [|exact Hg]. eapply first_gap_trans; [done|exact Hold|].
    eapply first_gap_ext; [|exact Hg2]. intros j Hj.
    destruct (obs !! j) as [x|] eqn:Hx; [by apply map_lookup_filter_Some|apply map_lookup_filter_None; by left]. }
  rewrite Hin2, Hin, Heq. rewrite Heq in *. destruct (bool_decide_reflect (persisted_event_count t = g1)) as [Hgg|Hgg].
  - rewrite Hin1, Hgg. destruct (bool_decide_reflect (g1 = sequentially_processed c0)); [done|]. do 2 f_equal.
    destruct (gap_before _ _ _ Hg1 (g1 - 1) ltac:(lia)) as [x Hx].
    by rewrite (lookup_total_correct _ _ _ Hx), (lookup_total_correct _ _ _ (lookup_weaken _ _ _ _ Hx Hsub)).
  - rewrite bool_decide_false by lia. do 2 f_equal.
    destruct (gap_before _ _ _ Hg (persisted_event_count t - 1) ltac:(lia)) as [x Hx].
    rewrite (lookup_total_correct _ _ _ Hx). apply lookup_total_correct, map_lookup_filter_Some. split; [done|cbn; lia].
Qed.

(** C26: however the events finish, the stored cursor is the end of the contiguous
    prefix: after any sequence of distinct events from the cursor on, no call
    panics, the number of persisted events is the first index that did not
    finish, the cursor is the identifier of the event before it, and the events
    beyond the gap are the pending ones. *)
Theorem event_cursor_is_first_gap c0 events :
  0 <= sequentially_processed c0 < 2 ^ 64 - 1 -> run c0 events ->
  exists t, finish_events (E:=False) (cursor_reopen c0) events = Ok t /\
    let g := get_sequentially_processed_event_count t in
    first_gap (sequentially_processed c0) (list_to_map events) g /\
    persisted (get_event_cursor_progress t) = g /\
    (forall id, (g - 1, id) ∈ events -> inner t = Some (mk_progress id g)) /\
    ((forall id, (g - 1, id) ∉ events) -> inner t = c0) /\
    pending (get_event_cursor_progress t) = len (filter (fun ev => g <= ev.1) events).
Proof.
  intros [H0 Hmax] Hrun. destruct (finish_events_ok c0 H0 (E:=False) events Hmax Hrun) as (t & Hok & Ht).
  pose proof (tracks_count _ _ _ Ht) as Hc. exists t. split; [done|]. cbn zeta.
  unfold get_sequentially_processed_event_count. rewrite Hc. pose proof (run_distinct _ _ Hrun) as Hnd.
  destruct Ht as [Hg Hq Hin Hp]. set (g := persisted_event_count t) in *. pose proof (gap_from _ _ _ Hg).
  assert (forall id, (g - 1, id) ∈ events -> g <> sequentially_processed c0) as Hne.
  { intros id Hid. pose proof (run_indices _ _ Hrun) as Hi. rewrite Forall_forall in Hi.
    destruct (Hi _ Hid) as [Hle _]. cbn in Hle. lia. }
  split_and!; [done|done|..].
  - intros id Hid. rewrite Hin, bool_decide_false by by eapply Hne. do 2 f_equal.
    apply lookup_total_correct. by apply elem_of_list_to_map_1.
  - intros Hno. rewrite Hin. destruct (bool_decide_reflect (g = sequentially_processed c0)); [done|].
    destruct (gap_before _ _ _ Hg (g - 1) ltac:(lia)) as [id Hid]. apply elem_of_list_to_map_2 in Hid. by apply Hno in Hid.
  - cbn. rewrite Hp, Hq. unfold remaining. cbn [queue]. rewrite <- filter_list_to_map by done.
    rewrite map_size_list_to_map; [done|]. eapply sublist_NoDup; [exact Hnd|]. apply fmap_sublist, sublist_filter.
Qed.

(** A crash loses no event and repeats none that was persisted: when
    processing is interrupted after some events, the table is reopened from the
    database, and the events from the stored cursor on are delivered again in
    any order, the stored cursor ends up where it would without the crash. *)
Theorem event_cursor_survives_crash c0 events1 events2 redelivered t1 :
  0 <= sequentially_processed c0 < 2 ^ 64 - 1 -> run c0 (events1 ++ events2) ->
  finish_events (E:=False) (cursor_reopen c0) events1 = Ok t1 ->
  redelivered ≡ₚ filter (fun ev => get_sequentially_processed_event_count t1 <= ev.1) (events1 ++ events2) ->
  exists t2 t, finish_events (E:=False) (cursor_reopen (inner t1)) redelivered = Ok t2 /\
    finish_events (E:=False) (cursor_reopen c0) (events1 ++ events2) = Ok t /\ inner t2 = inner t.
Proof.
  intros [H0 Hmax] Hrun Ht1 Hred. set (events := events1 ++ events2) in *.
  destruct Hrun as [Hnd Hidx]. pose proof Hnd as Hnd'. unfold events in Hnd'. rewrite fmap_app in Hnd'.
  apply NoDup_app in Hnd' as (Hnd1 & Hdisj & _). pose proof Hidx as [Hidx1 _]%Forall_app.
  destruct (finish_events_ok c0 H0 (E:=False) events1 Hmax) as (t1' & Hok1 & Htr1); [by split|].
  rewrite Ht1 in Hok1. injection Hok1 as <-.
  destruct (finish_events_ok c0 H0 (E:=False) events Hmax) as (t & Hok & Htr); [by split|].
  pose proof (tracks_count _ _ _ Htr1) as Hc. unfold get_sequentially_processed_event_count in Hred.
  pose proof (tracks_gap _ _ _ Htr1) as Hgap1. pose proof (gap_from _ _ _ Hgap1).
  assert (persisted_event_count t1 < 2 ^ 64 - 1) as Hmax1.
  { eapply (gap_bounded c0); [exact H0|exact Hmax| |exact Hgap1]. intros j [x Hx%elem_of_list_to_map_2].
    rewrite Forall_forall in Hidx1. exact (Hidx1 _ Hx). }
  assert (NoDup redelivered.*1) as Hndr.
  { rewrite Hred. eapply sublist_NoDup; [exact Hnd|]. apply fmap_sublist, sublist_filter. }
  destruct (finish_events_ok (inner t1) ltac:(lia) (E:=False) redelivered ltac:(lia)) as (t2 & Hok2 & Htr2).
  { split; [done|]. rewrite Hred. apply Forall_forall. intros ev [Hle Hev]%list_elem_of_filter.
    rewrite Forall_forall in Hidx. destruct (Hidx _ Hev). split; [done|lia]. }
  exists t2, t. split_and!; [done|done|]. eapply (resumed_inner c0 (list_to_map events1) (list_to_map events)).
  - unfold events. rewrite list_to_map_app. apply map_union_subseteq_l.
  - done.
  - done.
  - rewrite <- filter_list_to_map by done. rewrite <- Hc.
    by rewrite <- (list_to_map_proper redelivered _ Hndr Hred).
Qed.

End promises.

(** ** Witnesses *)

Section witnesses.
#[local] Existing Instance release_build.

(** Events finish out of order and leave a gap at 7. *)
Definition out_of_order : list (Z * EventID) := [(6, 106); (8, 108); (5, 105); (9, 109)].

Lemma out_of_order_run : run (Some (mk_progress 104 5)) (out_of_order ++ [(7, 107)]).
Proof.
  split.
  - apply (bool_decide_unpack _). vm_compute. exact I.
  - apply Forall_forall. intros [i id] Hev. unfold may_finish. cbn in *.
    repeat (apply elem_of_cons in Hev as [[= -> ->]|Hev]; [lia|]). by apply not_elem_of_nil in Hev.
Qed.

Lemma out_of_order_prefix : run (Some (mk_progress 104 5)) out_of_order.
Proof.
  destruct out_of_order_run as [Hnd Hidx]. rewrite fmap_app in Hnd. apply NoDup_app in Hnd as [Hnd _].
  apply Forall_app in Hidx as [Hidx _]. by split.
Qed.

Lemma event_cursor_is_first_gap_witness : exists t,
  finish_events (E:=False) (cursor_reopen (Some (mk_progress 104 5))) out_of_order = Ok t /\
  inner t = Some (mk_progress 106 7) /\ pending (get_event_cursor_progress t) = 2.
Proof.
  destruct (event_cursor_is_first_gap (Some (mk_progress 104 5)) out_of_order ltac:(cbn; lia) out_of_order_prefix)
    as (t & Hok & Hg & _ & Hin & _ & Hp).
  assert (get_sequentially_processed_event_count t = 7) as H7.
  { eapply first_gap_unique; [exact Hg|]. split; [cbn; lia| |reflexivity]. cbn. intros i Hi.
    assert (i = 5 \/ i = 6) as [-> | ->] by lia; by eexists. }
  rewrite H7 in Hin, Hp. exists t. split; [exact Hok|]. split; [apply Hin; by left|]. rewrite Hp. reflexivity.
Defined.

(** The node crashes before event 7 finishes. *)
Lemma event_cursor_survives_crash_witness : exists t1 t2 t,
  finish_events (E:=False) (cursor_reopen (Some (mk_progress 104 5))) out_of_order = Ok t1 /\
  finish_events (E:=False) (cursor_reopen (inner t1)) [(9, 109); (7, 107); (8, 108)] = Ok t2 /\
  finish_events (E:=False) (cursor_reopen (Some (mk_progress 104 5))) (out_of_order ++ [(7, 107)]) = Ok t /\
  inner t2 = inner t.
Proof.
  destruct (finish_events (E:=False) (cursor_reopen (Some (mk_progress 104 5))) out_of_order) as [t1| |] eqn:Ht1;
    [|vm_compute in Ht1; discriminate..].
  destruct (event_cursor_survives_crash (Some (mk_progress 104 5)) out_of_order [(7, 107)] [(9, 109); (7, 107); (8, 108)] t1
    ltac:(cbn; lia) out_of_order_run Ht1) as (t2 & t & H2 & H & Heq).
  - vm_compute in Ht1. injection Ht1 as <-. apply (bool_decide_unpack _). vm_compute. exact I.
  - exists t1, t2, t. exact (conj eq_refl (conj H2 (conj H Heq))).
Defined.

End witnesses.
