(* ===== verification/NodeStorage.v ===== *)
(** * The storage of a node

    Models node/storage.rs and the tables of node/storage/shard.rs: the node
    status, metadata, blob info, event cursor and garbage collection tables, and
    the shards with their slivers and status, with the operations that change
    them; and the phases of node/garbage_collector.rs.  A database write is
    applied when its batch is written; database errors are not modelled.  The
    optimistic transactions of RocksDB that delete blob data are split into
    the reads and the commit, so that other operations can come in between;
    whether a commit succeeds is decided by the database. *)

From S2P Require Import Prelude Core Symbols Metadata Slivers.
From S2P Require Import PermBlobInfo BlobInfoV1 BlobInfoV2 BlobInfoTable EventCursor.

#[export] Instance Axis_countable : Countable Axis :=
  inj_countable' is_primary (fun b : bool => if b then Primary else Secondary)
    (fun a => match a with Primary => eq_refl | Secondary => eq_refl end).

(** ** Shards *)

Inductive ShardStatus := ShardNone | ShardActive | ActiveSync | ActiveRecover | LockedToMove.

#[export] Instance ShardStatus_eq_dec : EqDecision ShardStatus.
Proof. solve_decision. Defined.

Definition is_owned_by_node (status : ShardStatus) : bool := negb (bool_decide (status = LockedToMove)).

Record ShardSyncProgress := mk_sync_progress {
  last_synced_blob_id : BlobId;
  synced_sliver_type : Axis;
}.

Inductive ShardLastSyncStatus :=
| SyncPrimary (last_synced_blob_id : option BlobId)
| SyncSecondary (last_synced_blob_id : option BlobId)
| SyncRecovery.

(** [ShardStorage]: its column families. *)
Record ShardStorage := mk_shard {
  shard_status : option ShardStatus;
  primary_slivers : gmap BlobId SliverData;
  secondary_slivers : gmap BlobId SliverData;
  shard_sync_progress : option ShardSyncProgress;
  pending_recover_slivers : gset (Axis * BlobId);
}.

Definition slivers_of (a : Axis) (s : ShardStorage) : gmap BlobId SliverData :=
  match a with Primary => primary_slivers s | Secondary => secondary_slivers s end.

Definition set_shard_status (status : ShardStatus) (s : ShardStorage) : ShardStorage :=
  mk_shard (Some status) (primary_slivers s) (secondary_slivers s) (shard_sync_progress s)
    (pending_recover_slivers s).

Definition set_slivers (a : Axis) (m : gmap BlobId SliverData) (s : ShardStorage) : ShardStorage :=
  match a with
  | Primary => mk_shard (shard_status s) m (secondary_slivers s) (shard_sync_progress s) (pending_recover_slivers s)
  | Secondary => mk_shard (shard_status s) (primary_slivers s) m (shard_sync_progress s) (pending_recover_slivers s)
  end.

Definition set_sync_progress (p : option ShardSyncProgress) (s : ShardStorage) : ShardStorage :=
  mk_shard (shard_status s) (primary_slivers s) (secondary_slivers s) p (pending_recover_slivers s).

Definition set_pending (p : gset (Axis * BlobId)) (s : ShardStorage) : ShardStorage :=
  mk_shard (shard_status s) (primary_slivers s) (secondary_slivers s) (shard_sync_progress s) p.

(** [create_or_reopen] of a shard that has no column families yet. *)
Definition create_shard (initial_shard_status : option ShardStatus) : ShardStorage :=
  mk_shard initial_shard_status ∅ ∅ None ∅.

Definition put_sliver (s : ShardStorage) (blob_id : BlobId) (a : Axis) (sliver : SliverData) : ShardStorage :=
  set_slivers a (<[blob_id := sliver]> (slivers_of a s)) s.

Definition get_sliver (s : ShardStorage) (blob_id : BlobId) (a : Axis) : option SliverData :=
  slivers_of a s !! blob_id.

Definition is_sliver_type_stored (s : ShardStorage) (blob_id : BlobId) (a : Axis) : bool :=
  is_some (slivers_of a s !! blob_id).

Definition is_sliver_pair_stored (s : ShardStorage) (blob_id : BlobId) : bool :=
  is_sliver_type_stored s blob_id Primary && is_sliver_type_stored s blob_id Secondary.

(** [delete_sliver_pair] and [delete_sliver_pair_in_transaction]. *)
Definition delete_sliver_pair (s : ShardStorage) (blob_id : BlobId) : ShardStorage :=
  set_slivers Secondary (delete blob_id (secondary_slivers s))
    (set_slivers Primary (delete blob_id (primary_slivers s)) s).

Definition status (s : ShardStorage) : ShardStatus := default ShardNone (shard_status s).

Definition record_start_shard_sync (s : ShardStorage) : ShardStorage :=
  set_shard_status ActiveSync (set_sync_progress None s).

Definition force_set_active_status (s : ShardStorage) : ShardStorage := set_shard_status ShardActive s.

Definition lock_shard_for_epoch_change (s : ShardStorage) : ShardStorage := set_shard_status LockedToMove s.

Definition shard_status_resume_active_shard_sync (s : ShardStorage)
    (restart_shard_sync_always_retry_transfer_first : bool) : ShardStorage * ShardStatus :=
  if restart_shard_sync_always_retry_transfer_first then
    if bool_decide (shard_status s = Some ActiveRecover)
    then (set_shard_status ActiveSync s, ActiveSync)
    else (s, default ShardNone (shard_status s))
  else (s, status s).

Definition get_last_sync_status (s : ShardStorage) (shard_status : ShardStatus) : ShardLastSyncStatus :=
  if bool_decide (shard_status = ActiveRecover) then SyncRecovery else
  match shard_sync_progress s with
  | Some p =>
    match synced_sliver_type p with
    | Primary => SyncPrimary (Some (last_synced_blob_id p))
    | Secondary => SyncSecondary (Some (last_synced_blob_id p))
    end
  | None => SyncPrimary None
  end.

Definition fetch_slivers (s : ShardStorage) (a : Axis) (slivers_to_fetch : list BlobId) :
    list (BlobId * SliverData) :=
  omap (fun blob_id => (fun sliver => (blob_id, sliver)) <$> slivers_of a s !! blob_id) slivers_to_fetch.

(** ** The storage *)

Inductive NodeStatus :=
| Standby
| Active
| RecoverMetadata
| RecoveryCatchUp
| RecoveryInProgress (epoch : Epoch)
| RecoveryCatchUpWithIncompleteHistory (first_complete_epoch epoch_at_start : Epoch).

#[export] Instance NodeStatus_eq_dec : EqDecision NodeStatus.
Proof. solve_decision. Defined.

Definition is_active (s : NodeStatus) : bool := match s with Active => true | _ => false end.

Definition is_catching_up (s : NodeStatus) : bool :=
  match s with
  | RecoveryCatchUp | RecoveryCatchUpWithIncompleteHistory _ _ => true
  | _ => false
  end.

Definition is_catching_up_with_incomplete_history (s : NodeStatus) : bool :=
  match s with RecoveryCatchUpWithIncompleteHistory _ _ => true | _ => false end.

Definition GENESIS_EPOCH : Epoch := 0.

(** [Storage]; [optimistic] says whether the database supports transactions. *)
Record Storage := mk_storage {
  optimistic : bool;
  node_status : NodeStatus;
  metadata_table : gmap BlobId BlobMetadata;
  blob_info : BlobInfoTable;
  event_cursor : EventCursorTable;
  gc_last_started_epoch : Epoch;
  gc_last_completed_epoch : Epoch;
  shards : gmap Z ShardStorage;
}.

(** [Storage::open] of an empty database. *)
Definition storage_open (optimistic : bool) : Storage :=
  mk_storage optimistic Standby ∅ empty_table (cursor_reopen None) GENESIS_EPOCH GENESIS_EPOCH ∅.

Definition set_node_status (status : NodeStatus) (s : Storage) : Storage :=
  mk_storage (optimistic s) status (metadata_table s) (blob_info s) (event_cursor s)
    (gc_last_started_epoch s) (gc_last_completed_epoch s) (shards s).

Definition set_metadata_table (m : gmap BlobId BlobMetadata) (s : Storage) : Storage :=
  mk_storage (optimistic s) (node_status s) m (blob_info s) (event_cursor s)
    (gc_last_started_epoch s) (gc_last_completed_epoch s) (shards s).

Definition set_blob_info (t : BlobInfoTable) (s : Storage) : Storage :=
  mk_storage (optimistic s) (node_status s) (metadata_table s) t (event_cursor s)
    (gc_last_started_epoch s) (gc_last_completed_epoch s) (shards s).

Definition set_event_cursor (c : EventCursorTable) (s : Storage) : Storage :=
  mk_storage (optimistic s) (node_status s) (metadata_table s) (blob_info s) c
    (gc_last_started_epoch s) (gc_last_completed_epoch s) (shards s).

Definition set_garbage_collector_last_started_epoch (e : Epoch) (s : Storage) : Storage :=
  mk_storage (optimistic s) (node_status s) (metadata_table s) (blob_info s) (event_cursor s)
    e (gc_last_completed_epoch s) (shards s).

Definition set_garbage_collector_last_completed_epoch (e : Epoch) (s : Storage) : Storage :=
  mk_storage (optimistic s) (node_status s) (metadata_table s) (blob_info s) (event_cursor s)
    (gc_last_started_epoch s) e (shards s).

Definition set_shards (m : gmap Z ShardStorage) (s : Storage) : Storage :=
  mk_storage (optimistic s) (node_status s) (metadata_table s) (blob_info s) (event_cursor s)
    (gc_last_started_epoch s) (gc_last_completed_epoch s) m.

(** *** Shards of the storage *)

(** [StorageShardLock::missing_shards], [create_storage_for_shards] and
    [insert_shards], as the callers combine them under the lock. *)
Definition missing_shards (s : Storage) (new_shards : list Z) : list Z :=
  List.filter (fun i => negb (is_some (shards s !! i))) new_shards.

Definition create_storage_for_shards (new_shards : list Z) : list (Z * ShardStorage) :=
  (fun i => (i, create_shard (Some ShardNone))) <$> new_shards.

Definition insert_shards (s : Storage) (shard_storages : list (Z * ShardStorage)) : Storage :=
  set_shards (foldl (fun m '(i, shard) => if is_some (m !! i) then m else <[i := shard]> m) (shards s) shard_storages) s.

Definition remove_storage_for_shards (s : Storage) (removed : list Z) : Storage :=
  set_shards (foldl (fun m i => delete i m) (shards s) removed) s.

Definition update_shard (s : Storage) (i : Z) (f : ShardStorage -> ShardStorage) : Storage :=
  set_shards (alter f i (shards s)) s.

Definition owned_shard_storages (s : Storage) : list Z :=
  (map_to_list (filter (fun kv => is_owned_by_node (status kv.2) = true) (shards s))).*1.

Definition existing_shard_storages (s : Storage) : list Z := (map_to_list (shards s)).*1.

Definition is_stored_at_shard (s : Storage) (blob_id : BlobId) (i : Z) : option bool :=
  (fun shard => is_sliver_pair_stored shard blob_id) <$> shards s !! i.

Definition shards_with_sliver_pairs (s : Storage) (blob_id : BlobId) : list Z :=
  (map_to_list (filter (fun kv => is_sliver_pair_stored kv.2 blob_id = true) (shards s))).*1.

Section storage.
Context `{Build}.
Implicit Types (s : Storage) (blob_id : BlobId).

(** *** Metadata *)

Definition put_metadata s blob_id (metadata : BlobMetadata) : total Storage :=
  t ← table_set_metadata_stored (blob_info s) blob_id true;
  Ok (set_blob_info t (set_metadata_table (<[blob_id := metadata]> (metadata_table s)) s)).

Definition put_verified_metadata s (metadata : BlobMetadataWithId) : total Storage :=
  put_metadata s (Metadata.blob_id metadata) (Metadata.metadata metadata).

Definition put_verified_metadata_without_blob_info s (metadata : BlobMetadataWithId) : Storage :=
  set_metadata_table (<[Metadata.blob_id metadata := Metadata.metadata metadata]> (metadata_table s)) s.

Definition update_blob_info_with_metadata s blob_id : total Storage :=
  t ← table_set_metadata_stored (blob_info s) blob_id true;
  Ok (set_blob_info t s).

Definition has_metadata s blob_id : bool :=
  match aggregate_blob_info (blob_info s) !! blob_id with
  | Some info => is_metadata_stored info
  | None => false
  end.

Definition get_metadata s blob_id : option BlobMetadata := metadata_table s !! blob_id.

(** *** Events and the collection of expired objects *)

Definition storage_update_blob_info s (event_index : Z) (event : BlobEvent) : total Storage :=
  t ← (match node_status s with
       | RecoveryCatchUpWithIncompleteHistory _ epoch_at_start =>
         update_blob_info_during_recovery (blob_info s) event_index event epoch_at_start
       | _ => update_blob_info (blob_info s) event_index event
       end);
  Ok (set_blob_info t s).

Definition storage_process_expired_storage_pools s (current_epoch : Epoch) (batch_size : nat) : total Storage :=
  t ← process_expired_storage_pools (blob_info s) current_epoch batch_size; Ok (set_blob_info t s).

Definition storage_process_expired_blob_objects s (current_epoch : Epoch) (batch_size : nat) : total Storage :=
  t ← process_expired_blob_objects (blob_info s) current_epoch batch_size; Ok (set_blob_info t s).

(** *** Deletion of blob data *)

(** The transaction of [attempt_to_delete_blob_data_inner] before its commit:
    the entry that was read, and what will be written. *)
Record DeletionTransaction := mk_transaction {
  tx_blob_id : BlobId;
  tx_read : BlobInfo;
  tx_delete_info : bool;
  tx_shards : list Z;
}.

Definition begin_deletion s blob_id (current_epoch : Epoch) (shard_ids : list Z) : option DeletionTransaction :=
  match aggregate_blob_info (blob_info s) !! blob_id with
  | None => None
  | Some info =>
    if negb (can_data_be_deleted info current_epoch) then None
    else Some (mk_transaction blob_id info (can_blob_info_be_deleted info current_epoch) shard_ids)
  end.

(** [delete_blob_data_in_transaction]. *)
Definition delete_blob_data_in_transaction s blob_id (shard_ids : list Z) : Storage :=
  set_shards (foldl (fun m i => alter (fun shard => delete_sliver_pair shard blob_id) i m) (shards s) shard_ids)
    (set_metadata_table (delete blob_id (metadata_table s)) s).

Definition commit_deletion s (tx : DeletionTransaction) : Storage :=
  let s := if tx_delete_info tx
           then set_blob_info (delete_in_transaction (blob_info s) (tx_blob_id tx)) s else s in
  delete_blob_data_in_transaction s (tx_blob_id tx) (tx_shards tx).

(** [attempt_to_delete_blob_data_inner] without interference; [commits] is the
    answer of the database. *)
Definition attempt_to_delete_blob_data_inner s blob_id (current_epoch : Epoch) (shard_ids : list Z)
    (commits : bool) : Storage * bool :=
  match begin_deletion s blob_id current_epoch shard_ids with
  | None => (s, false)
  | Some tx => if commits then (commit_deletion s tx, true) else (s, false)
  end.

Definition attempt_to_delete_blob_data s blob_id (current_epoch : Epoch) (commits : bool) : Storage * bool :=
  if optimistic s
  then attempt_to_delete_blob_data_inner s blob_id current_epoch (owned_shard_storages s) commits
  else (s, false).

(** One entry of [iterate_and_delete_expired_blob_data]. *)
Definition delete_expired_entry (current_epoch : Epoch) (shard_ids : list Z) (commits : BlobId -> bool)
    s blob_id (info : BlobInfo) : total (Storage * bool) :=
  if negb (can_data_be_deleted info current_epoch) then Ok (s, false)
  else Ok (attempt_to_delete_blob_data_inner s blob_id current_epoch shard_ids (commits blob_id)).

Definition delete_expired_blob_data s (current_epoch : Epoch) (batch_size : nat) (commits : BlobId -> bool) :
    total (Storage * bool) :=
  if negb (optimistic s) then Ok (s, false) else
  match node_status s with
  | Active =>
    '(s, _) ← process_all (fun s => aggregate_blob_info (blob_info s))
      (delete_expired_entry current_epoch (owned_shard_storages s) commits) s batch_size;
    Ok (s, true)
  | _ => Ok (s, false)
  end.

(** [delete_blob_data], for invalid blobs. *)
Definition delete_metadata s blob_id (update_blob_info : bool) : total Storage :=
  let s := set_metadata_table (delete blob_id (metadata_table s)) s in
  if update_blob_info
  then t ← table_set_metadata_stored (blob_info s) blob_id false; Ok (set_blob_info t s)
  else Ok s.

Definition delete_slivers s blob_id : Storage :=
  set_shards ((fun shard => delete_sliver_pair shard blob_id) <$> shards s) s.

Definition delete_blob_data s blob_id : total Storage :=
  s ← delete_metadata s blob_id false;
  Ok (delete_slivers s blob_id).

End storage.

(** ** The garbage collector *)

Record GarbageCollectionConfig := {
  enable_blob_info_cleanup : bool;
  enable_data_deletion : bool;
  enable_immediate_data_deletion : bool;
  blob_objects_batch_size : nat;
  data_deletion_batch_size : nat;
}.

Section garbage_collector.
Context `{Build}.

Definition perform_blob_info_cleanup (config : GarbageCollectionConfig) (s : Storage) (epoch : Epoch) :
    total Storage :=
  s ← storage_process_expired_storage_pools s epoch (blob_objects_batch_size config);
  storage_process_expired_blob_objects s epoch (blob_objects_batch_size config).

(** [start_garbage_collection_task]: the first phase; the result says whether
    the second phase is started in the background. *)
Definition start_garbage_collection_task (config : GarbageCollectionConfig) (s : Storage) (epoch : Epoch) :
    total (Storage * bool) :=
  if epoch =? GENESIS_EPOCH then Ok (s, false) else
  if negb (enable_blob_info_cleanup config) then Ok (s, false) else
  let s := set_garbage_collector_last_started_epoch epoch s in
  s ← perform_blob_info_cleanup config s epoch;
  Ok (s, enable_data_deletion config).

Definition perform_data_deletion (config : GarbageCollectionConfig) (s : Storage) (epoch : Epoch)
    (commits : BlobId -> bool) : total Storage :=
  '(s, completed) ← delete_expired_blob_data s epoch (data_deletion_batch_size config) commits;
  Ok (if (completed : bool) then set_garbage_collector_last_completed_epoch epoch s else s).

(** The part of [process_blob_deleted_event] that deletes data; it runs after
    the blob info was updated with the event, and [epoch] is the event's. *)
Definition process_blob_deleted_data (config : GarbageCollectionConfig) (s : Storage) (blob_id : BlobId)
    (epoch : Epoch) (commits : bool) : Storage :=
  match aggregate_blob_info (blob_info s) !! blob_id with
  | Some info =>
    if can_data_be_deleted info epoch && enable_data_deletion config && enable_immediate_data_deletion config
    then (attempt_to_delete_blob_data s blob_id epoch commits).1
    else s
  | None => s
  end.

End garbage_collector.
