(* ===== verification/NodeStorageProps.v ===== *)
(** * Blob data is deleted when it may be, and only then

    [storage_step] interleaves events, uploads, shard changes, garbage collection
    and the reads and commits of the transactions that delete data.  A commit
    succeeds only if the entry that the transaction read is unchanged, which is
    what the conflict detection of RocksDB guarantees for a key read for update. *)

From S2P Require Import Prelude Core Symbols Metadata Slivers PermBlobInfo.
From S2P Require Import BlobInfoRepr BlobInfoV1 BlobInfoV2 BlobInfoTable Batches BlobInfoRefinement.
From S2P Require Import BlobInfoSafety BlobInfoEvents BlobInfoProps BlobInfoRecovery EventCursor NodeStorage.

(** ** Entries at earlier and later epochs *)

Lemma registered_earlier info (e e' : Epoch) : e <= e' -> is_registered info e' = true -> is_registered info e = true.
Proof.
  intros He. destruct info as [[|v]|[|v]]; cbn; try done; rewrite ?orb_true_iff, ?andb_true_iff.
  - intros [Hp|[Hd Hl]]; [left|right; split; [done|]].
    + destruct (V1.permanent_total v); cbn in *; [|done]. rewrite Z.ltb_lt in *. lia.
    + destruct (V1.latest_seen_deletable_registered_end_epoch v); cbn in *; [|done]. rewrite Z.ltb_lt in *. lia.
  - intros [[Hp|Hd]|Hl]; [left; left|by left; right|by right].
    destruct (V2.permanent_total v); cbn in *; [|done]. rewrite Z.ltb_lt in *. lia.
Qed.

Lemma removable_later info (e e' : Epoch) : e <= e' ->
  can_blob_info_be_deleted info e = true -> can_blob_info_be_deleted info e' = true.
Proof.
  intros He Hcan. assert (is_registered info e' = false) as Hr.
  { destruct (is_registered info e') eqn:Hr; [|done]. apply (registered_earlier _ e) in Hr; [|done].
    destruct info as [[|v]|[|v]]; try done; cbn [can_blob_info_be_deleted V1.can_blob_info_be_deleted
      V2.can_blob_info_be_deleted is_registered] in *; rewrite Hr in Hcan; by rewrite andb_false_r in Hcan. }
  destruct info as [[|v]|[|v]]; try done; cbn [can_blob_info_be_deleted V1.can_blob_info_be_deleted
    V2.can_blob_info_be_deleted is_registered] in *; rewrite Hr; apply andb_prop in Hcan as [-> _]; done.
Qed.

Lemma removable_deletable info (e : Epoch) : can_blob_info_be_deleted info e = true -> can_data_be_deleted info e = true.
Proof.
  unfold can_data_be_deleted. destruct info as [[|v]|[|v]]; try done; cbn [can_blob_info_be_deleted
    V1.can_blob_info_be_deleted V2.can_blob_info_be_deleted is_registered]; by intros [_ ?]%andb_prop.
Qed.

(** ** Stored data *)

(** A piece of the data of a blob. *)
Inductive datum := TheMetadata (b : BlobId) | TheSliver (i : Z) (a : Axis) (b : BlobId).

Definition datum_blob (d : datum) : BlobId :=
  match d with TheMetadata b | TheSliver _ _ b => b end.

Definition datum_stored (s : Storage) (d : datum) : Prop :=
  match d with
  | TheMetadata b => is_Some (get_metadata s b)
  | TheSliver i a b => exists shard, shards s !! i = Some shard /\ is_Some (get_sliver shard b a)
  end.

(** What a deletion leaves of the other blobs. *)

Lemma delete_sliver_pair_other shard b b' a : b <> b' -> get_sliver (delete_sliver_pair shard b) b' a = get_sliver shard b' a.
Proof. intros Hne. unfold get_sliver. destruct a; cbn; by rewrite lookup_delete_ne. Qed.

Lemma delete_sliver_pair_same shard b a : get_sliver (delete_sliver_pair shard b) b a = None.
Proof. unfold get_sliver. destruct a; cbn; apply lookup_delete_eq. Qed.

Lemma delete_pairs_other b ids (m : gmap Z ShardStorage) i shard a b' : b <> b' -> m !! i = Some shard ->
  exists shard', foldl (fun m i => alter (fun shard => delete_sliver_pair shard b) i m) m ids !! i = Some shard' /\
    get_sliver shard' b' a = get_sliver shard b' a.
Proof.
  intros Hne. revert m shard. induction ids as [|j ids IH]; intros m shard Hi; [by exists shard|]. cbn [foldl].
  destruct (Z.eq_dec i j) as [->|Hij].
  - destruct (IH (alter (fun shard => delete_sliver_pair shard b) j m) (delete_sliver_pair shard b))
      as (shard' & Hs & Hg); [by rewrite lookup_alter_eq, Hi|].
    exists shard'. split; [done|]. by rewrite Hg, delete_sliver_pair_other.
  - apply IH. by rewrite lookup_alter_ne.
Qed.

Lemma deletion_keeps_other s b ids d : datum_blob d <> b -> datum_stored s d ->
  datum_stored (delete_blob_data_in_transaction s b ids) d.
Proof.
  intros Hne. destruct d as [b'|i a b']; cbn in *.
  - unfold get_metadata. cbn. by rewrite lookup_delete_ne.
  - intros (shard & Hi & Hg). destruct (delete_pairs_other b ids (shards s) i shard a b') as (shard' & Hs & Heq);
      [by intros ->|done|]. exists shard'. split; [done|]. by rewrite Heq.
Qed.

Lemma commit_keeps_other s tx d : datum_blob d <> tx_blob_id tx -> datum_stored s d -> datum_stored (commit_deletion s tx) d.
Proof.
  intros Hne Hd. unfold commit_deletion. apply deletion_keeps_other; [done|].
  destruct (tx_delete_info tx); [|done]. by destruct d.
Qed.

(** ** Interleavings *)

Definition node_state : Type := Epoch * Storage * list DeletionTransaction.

(** Changes of the status of a shard. *)
Definition shard_update (f : ShardStorage -> ShardStorage) : Prop :=
  f = record_start_shard_sync \/ f = force_set_active_status \/ f = lock_shard_for_epoch_change \/
  exists retry, f = (fun shard => (shard_status_resume_active_shard_sync shard retry).1).

Section steps.
Context `{Build}.

Inductive storage_step : node_state -> node_state -> Prop :=
| ss_event e s txs i ev s' : room (blob_info s) -> is_catching_up_with_incomplete_history (node_status s) = false ->
    has_event_been_handled (latest_handled_event_index (blob_info s)) i = true \/ table_event_ok e (blob_info s) ev ->
    storage_update_blob_info s i ev = Ok s' -> storage_step (e, s, txs) (e, s', txs)
| ss_recovery_event e s txs first start chain i ev s' : spare_room (blob_info s) ->
    node_status s = RecoveryCatchUpWithIncompleteHistory first start -> 0 <= start ->
    recovered start chain (per_object_blob_info (blob_info s)) ->
    event_ok e chain (per_object_pooled_blob_info (blob_info s)) ev ->
    has_event_been_handled (latest_handled_event_index (blob_info s)) i = false ->
    storage_update_blob_info s i ev = Ok s' -> storage_step (e, s, txs) (e, s', txs)
| ss_pool_event e s txs i ev t : update_storage_pool_info (blob_info s) i ev = Ok t ->
    storage_step (e, s, txs) (e, set_blob_info t s, txs)
| ss_epoch e e' s txs : e <= e' -> storage_step (e, s, txs) (e', s, txs)
| ss_collect_pools e s txs batch_size s' : (0 < batch_size)%nat ->
    storage_process_expired_storage_pools s e batch_size = Ok s' -> storage_step (e, s, txs) (e, s', txs)
| ss_collect_objects e s txs batch_size s' : room (blob_info s) -> (0 < batch_size)%nat ->
    storage_process_expired_blob_objects s e batch_size = Ok s' -> storage_step (e, s, txs) (e, s', txs)
| ss_clear e s txs : storage_step (e, s, txs) (e, set_blob_info (clear (blob_info s)) s, txs)
| ss_node_status e s txs status : storage_step (e, s, txs) (e, set_node_status status s, txs)
| ss_gc_started e s txs epoch : storage_step (e, s, txs) (e, set_garbage_collector_last_started_epoch epoch s, txs)
| ss_gc_completed e s txs epoch : storage_step (e, s, txs) (e, set_garbage_collector_last_completed_epoch epoch s, txs)
| ss_cursor e s txs cursor : storage_step (e, s, txs) (e, set_event_cursor cursor s, txs)
| ss_put_metadata e s txs b m s' : put_metadata s b m = Ok s' -> storage_step (e, s, txs) (e, s', txs)
| ss_put_event_blob e s txs md s' : update_blob_info_with_metadata (put_verified_metadata_without_blob_info s md)
      (Metadata.blob_id md) = Ok s' -> storage_step (e, s, txs) (e, s', txs)
| ss_put_sliver e s txs i b a x : storage_step (e, s, txs) (e, update_shard s i (fun shard => put_sliver shard b a x), txs)
| ss_shard_status e s txs i f : shard_update f -> storage_step (e, s, txs) (e, update_shard s i f, txs)
| ss_insert_shards e s txs new :
    storage_step (e, s, txs) (e, insert_shards s (create_storage_for_shards (missing_shards s new)), txs)
| ss_remove_shards e s txs removed : storage_step (e, s, txs) (e, remove_storage_for_shards s removed, txs)
| ss_begin e s txs b epoch ids tx : optimistic s = true -> epoch <= e ->
    begin_deletion s b epoch ids = Some tx -> storage_step (e, s, txs) (e, s, tx :: txs)
| ss_commit e s txs1 tx txs2 : aggregate_blob_info (blob_info s) !! tx_blob_id tx = Some (tx_read tx) ->
    storage_step (e, s, txs1 ++ tx :: txs2) (e, commit_deletion s tx, txs1 ++ txs2)
| ss_abort e s txs1 tx txs2 : storage_step (e, s, txs1 ++ tx :: txs2) (e, s, txs1 ++ txs2)
| ss_delete_invalid e s txs b info s' : aggregate_blob_info (blob_info s) !! b = Some info -> is_invalid info = true ->
    delete_blob_data s b = Ok s' -> storage_step (e, s, txs) (e, s', txs).

Definition node_reachable (c : node_state) : Prop :=
  exists e opt, rtc storage_step (e, storage_open opt, []) c.

(** A transaction was begun at an earlier epoch, when its blob was not
    registered. *)
Definition transaction_ok (e : Epoch) (tx : DeletionTransaction) : Prop :=
  exists epoch, epoch <= e /\ can_data_be_deleted (tx_read tx) epoch = true /\
    tx_delete_info tx = can_blob_info_be_deleted (tx_read tx) epoch.

Definition node_inv (c : node_state) : Prop :=
  table_inv c.1.1 (blob_info c.1.2) /\ Forall (transaction_ok c.1.1) c.2.

Lemma begin_ok s b epoch ids tx : begin_deletion s b epoch ids = Some tx ->
  tx_blob_id tx = b /\ can_data_be_deleted (tx_read tx) epoch = true /\
  tx_delete_info tx = can_blob_info_be_deleted (tx_read tx) epoch /\ tx_shards tx = ids /\
  aggregate_blob_info (blob_info s) !! b = Some (tx_read tx).
Proof.
  unfold begin_deletion. destruct (aggregate_blob_info (blob_info s) !! b) as [info|]; [|done].
  destruct (can_data_be_deleted info epoch) eqn:Hd; [|done]. by intros [= <-].
Qed.

Lemma commit_inv e s tx : table_inv e (blob_info s) -> transaction_ok e tx ->
  aggregate_blob_info (blob_info s) !! tx_blob_id tx = Some (tx_read tx) ->
  table_inv e (blob_info (commit_deletion s tx)).
Proof.
  intros Hinv (epoch & He & _ & Hdel) Hread. unfold commit_deletion.
  destruct (tx_delete_info tx) eqn:Htx; [|done]. cbn.
  eapply delete_entry_inv; [done|exact Hread|]. by apply (removable_later _ epoch).
Qed.

Lemma transaction_ok_later e e' tx : e <= e' -> transaction_ok e tx -> transaction_ok e' tx.
Proof. intros He (epoch & Hle & Hok). exists epoch. split; [lia|done]. Qed.

(** Steps of the table inside the storage. *)
Lemma table_step_storage e s e' t : table_step (e, blob_info s) (e', t) -> table_inv e (blob_info s) -> table_inv e' t.
Proof. intros Hstep Hinv. exact (table_step_inv _ _ Hstep Hinv). Qed.

Lemma storage_step_inv c c' : storage_step c c' -> node_inv c -> node_inv c'.
Proof.
  intros Hstep [Hinv Htx].
  destruct Hstep as [e s txs i ev s' Hroom Hst Hok Hu|e s txs first start chain i ev s' Hsp Hst H0 Hrec Hok Hh Hu
    |e s txs i ev t Hu|e e' s txs He|e s txs bs s' Hbs Hu|e s txs bs s' Hroom Hbs Hu|e s txs|e s txs st|e s txs ep|e s txs ep|e s txs cur
    |e s txs b m s' Hu|e s txs md s' Hu|e s txs i b a x|e s txs i f Hf|e s txs new|e s txs removed
    |e s txs b ep ids tx Hopt He Hb|e s txs1 tx txs2 Hread|e s txs1 tx txs2|e s txs b info s' Hb Hinvalid Hu];
    cbn [fst snd] in *; (split; cbn [fst snd]; [|try exact Htx]); try exact Hinv.
  - apply bind_Ok in Hu as (t & Hu & [= <-]). cbn. eapply table_step_storage; [|exact Hinv].
    eapply ts_event; [done|exact Hok|]. by destruct (node_status s).
  - apply bind_Ok in Hu as (t & Hu & [= <-]). cbn. rewrite Hst in Hu.
    destruct (recover_event e start chain (blob_info s) i ev Hinv Hsp H0 Hrec Hok Hh) as (t2 & Hu2 & Hinv2 & _).
    rewrite Hu2 in Hu. by injection Hu as <-.
  - eapply table_step_storage; [by eapply ts_pool_event|exact Hinv].
  - eapply table_step_storage; [by eapply ts_epoch|exact Hinv].
  - eapply Forall_impl; [exact Htx|]. intros tx. by apply transaction_ok_later.
  - apply bind_Ok in Hu as (t & Hu & [= <-]). eapply table_step_storage; [by eapply ts_collect_pools|exact Hinv].
  - apply bind_Ok in Hu as (t & Hu & [= <-]). eapply table_step_storage; [by eapply ts_collect_objects|exact Hinv].
  - eapply table_step_storage; [by eapply ts_clear|exact Hinv].
  - apply bind_Ok in Hu as (t & Hu & [= <-]). eapply table_step_storage; [by eapply ts_metadata|exact Hinv].
  - apply bind_Ok in Hu as (t & Hu & [= <-]). eapply table_step_storage; [by eapply ts_metadata|exact Hinv].
  - constructor; [|exact Htx]. destruct (begin_ok _ _ _ _ _ Hb) as (_ & Hd & Hdel & _). by exists ep.
  - apply commit_inv; [done| |done]. apply Forall_app in Htx as [_ [Htx _]%Forall_cons]. exact Htx.
  - apply Forall_app in Htx as [H1 [_ H2]%Forall_cons]. by apply Forall_app.
  - apply Forall_app in Htx as [H1 [_ H2]%Forall_cons]. by apply Forall_app.
  - apply bind_Ok in Hu as (s1 & [= <-] & [= <-]). exact Hinv.
Qed.

Lemma node_reachable_inv c : node_reachable c -> node_inv c.
Proof.
  intros (e & opt & Hr). assert (forall c c', rtc storage_step c c' -> node_inv c -> node_inv c') as Hind.
  { induction 1; [done|]. eauto using storage_step_inv. }
  apply (Hind _ _ Hr). split; [|constructor]. apply empty_table_inv.
Qed.

(** ** Live data survives every step *)

(** The blob has a live object and was not marked invalid. *)
Definition protected (c : node_state) (b : BlobId) : Prop :=
  live_object c.1.1 (blob_info c.1.2) b /\
  forall info, aggregate_blob_info (blob_info c.1.2) !! b = Some info -> is_invalid info = false.

(** The shard of a sliver is one of the node's shards. *)
Definition holds_shard (s : Storage) (d : datum) : Prop :=
  match d with TheMetadata _ => True | TheSliver i _ _ => is_Some (shards s !! i) end.

Lemma same_tables_stored s s' d : metadata_table s' = metadata_table s -> shards s' = shards s ->
  datum_stored s d -> datum_stored s' d.
Proof. intros Hm Hsh. destruct d; unfold datum_stored, get_metadata; by rewrite ?Hm, ?Hsh. Qed.

Lemma put_metadata_stored s b m d : datum_stored s d ->
  datum_stored (set_metadata_table (<[b := m]> (metadata_table s)) s) d.
Proof.
  destruct d as [b'|]; [|done]. unfold datum_stored, get_metadata. cbn. intros Hm.
  destruct (decide (b = b')) as [->|]; [by rewrite lookup_insert_eq|by rewrite lookup_insert_ne].
Qed.

Lemma update_shard_stored s i f d : (forall shard b a, is_Some (get_sliver shard b a) -> is_Some (get_sliver (f shard) b a)) ->
  datum_stored s d -> datum_stored (update_shard s i f) d.
Proof.
  intros Hf. destruct d as [|j a b]; [done|]. intros (shard & Hj & Hg). cbn. destruct (decide (i = j)) as [->|].
  - exists (f shard). rewrite lookup_alter_eq, Hj. by split; [|apply Hf].
  - exists shard. by rewrite lookup_alter_ne.
Qed.

Lemma put_sliver_stored shard b a x b' a' : is_Some (get_sliver shard b' a') ->
  is_Some (get_sliver (put_sliver shard b a x) b' a').
Proof.
  unfold get_sliver, put_sliver. destruct a, a'; cbn; try done; intros Hs;
    (destruct (decide (b = b')) as [->|]; [by rewrite lookup_insert_eq|by rewrite lookup_insert_ne]).
Qed.

Lemma shard_update_stored f shard b a : shard_update f -> get_sliver (f shard) b a = get_sliver shard b a.
Proof.
  unfold get_sliver. intros [->|[->|[->|[retry ->]]]]; [by destruct a..|].
  unfold shard_status_resume_active_shard_sync. destruct retry; [|done]. case_bool_decide; [by destruct a|done].
Qed.

Lemma insert_shards_kept new (m : gmap Z ShardStorage) i shard : m !! i = Some shard ->
  foldl (fun m '(i, shard) => if is_some (m !! i) then m else <[i := shard]> m) m new !! i = Some shard.
Proof.
  revert m. induction new as [|[j x] new IH]; intros m Hi; [done|]. cbn. apply IH.
  destruct (m !! j) eqn:Hj; [done|]. cbn. rewrite lookup_insert_ne; [done|]. congruence.
Qed.

Lemma remove_shards_kept removed (m : gmap Z ShardStorage) i :
  is_Some (foldl (fun m i => delete i m) m removed !! i) -> foldl (fun m i => delete i m) m removed !! i = m !! i.
Proof.
  revert m. induction removed as [|j removed IH]; intros m; [done|]. cbn. intros Hi. rewrite IH by done.
  rewrite (IH _ Hi) in Hi. destruct (decide (i = j)) as [->|]; [by rewrite lookup_delete_eq in Hi; destruct Hi|].
  by rewrite lookup_delete_ne.
Qed.

Lemma protected_not_deletable e s b info : table_inv e (blob_info s) -> protected (e, s, []) b ->
  aggregate_blob_info (blob_info s) !! b = Some info -> is_registered info e = true.
Proof.
  intros Hinv [Hlive Hval] Hb. destruct (live_registered e (blob_info s) b Hinv Hlive) as (info' & Hb' & Hor).
  specialize (Hval info Hb). naive_solver congruence.
Qed.

Lemma step_keeps_protected c c' d : storage_step c c' -> node_inv c -> protected c (datum_blob d) ->
  holds_shard c'.1.2 d -> datum_stored c.1.2 d -> datum_stored c'.1.2 d.
Proof.
  intros Hstep [Hinv Htx] Hprot Hshard Hd.
  destruct Hstep as [e s txs i ev s' Hroom Hst Hok Hu|e s txs first start chain i ev s' Hsp Hst H0 Hrec Hok Hh Hu
    |e s txs i ev t Hu|e e' s txs He|e s txs bs s' Hbs Hu|e s txs bs s' Hroom Hbs Hu|e s txs|e s txs st|e s txs ep
    |e s txs ep|e s txs cur|e s txs b m s' Hu|e s txs md s' Hu|e s txs i b a x|e s txs i f Hf|e s txs new|e s txs removed
    |e s txs b ep ids tx Hopt He Hb|e s txs1 tx txs2 Hread|e s txs1 tx txs2|e s txs b info s' Hb Hinvalid Hu];
    cbn [fst snd] in *; try exact Hd; try (by eapply same_tables_stored; [..|exact Hd]);
    try (apply bind_Ok in Hu as (t & Hu & [= <-]); by eapply same_tables_stored; [..|exact Hd]).
  - apply bind_Ok in Hu as (t & Hu & [= <-]). eapply same_tables_stored; [done|done|]. by apply put_metadata_stored.
  - apply bind_Ok in Hu as (t & Hu & [= <-]).
    eapply same_tables_stored; [done|done|]. by apply put_metadata_stored.
  - apply update_shard_stored; [|done]. intros shard b' a'. apply put_sliver_stored.
  - apply update_shard_stored; [|done]. intros shard b' a'. by rewrite shard_update_stored.
  - destruct d as [|j a b]; [done|]. destruct Hd as (shard & Hj & Hg). exists shard. split; [|done].
    by apply insert_shards_kept.
  - destruct d as [|j a b]; [done|]. destruct Hd as (shard & Hj & Hg). exists shard. split; [|done].
    cbn in *. by rewrite remove_shards_kept.
  - apply commit_keeps_other; [|done]. intros Heq. apply Forall_app in Htx as [_ [(ep & He & Hdel & _) _]%Forall_cons].
    rewrite <- Heq in Hread. pose proof (protected_not_deletable e s _ _ Hinv Hprot Hread) as Hreg.
    apply (registered_earlier _ ep) in Hreg; [|done]. unfold can_data_be_deleted in Hdel. by rewrite Hreg in Hdel.
  - destruct Hprot as [_ Hval]. assert (datum_blob d <> b) as Hne.
    { intros Heq. cbn [fst snd] in Hval. rewrite Heq in Hval. specialize (Hval _ Hb). congruence. }
    apply bind_Ok in Hu as (s1 & [= <-] & [= <-]). destruct d as [b'|j a b']; cbn in *.
    + unfold get_metadata. cbn. by rewrite lookup_delete_ne.
    + destruct Hd as (shard & Hj & Hg). exists (delete_sliver_pair shard b).
      rewrite lookup_fmap, Hj, delete_sliver_pair_other by congruence. done.
Qed.

(** ** Deletions are sequences of steps *)

Lemma attempt_inner_steps e s txs b epoch ids commits : optimistic s = true -> epoch <= e ->
  rtc storage_step (e, s, txs) (e, (attempt_to_delete_blob_data_inner s b epoch ids commits).1, txs).
Proof.
  intros Hopt He. unfold attempt_to_delete_blob_data_inner.
  destruct (begin_deletion s b epoch ids) as [tx|] eqn:Hb; [|apply rtc_refl].
  destruct commits; [|apply rtc_refl]. eapply rtc_l; [by eapply (ss_begin _ _ _ b epoch ids)|].
  destruct (begin_ok _ _ _ _ _ Hb) as (Htx & _ & _ & _ & Hread). apply rtc_once.
  apply (ss_commit e s [] tx txs). by rewrite Htx.
Qed.

Lemma process_blob_deleted_steps config e s txs b epoch commits : epoch <= e ->
  rtc storage_step (e, s, txs) (e, process_blob_deleted_data config s b epoch commits, txs).
Proof.
  intros He. unfold process_blob_deleted_data, attempt_to_delete_blob_data.
  destruct (aggregate_blob_info (blob_info s) !! b) as [info|]; [|apply rtc_refl].
  destruct (_ && _ && _); [|apply rtc_refl]. destruct (optimistic s) eqn:Hopt; [|apply rtc_refl].
  by apply attempt_inner_steps.
Qed.

Lemma attempt_inner_optimistic s b epoch ids commits :
  optimistic (attempt_to_delete_blob_data_inner s b epoch ids commits).1 = optimistic s.
Proof.
  unfold attempt_to_delete_blob_data_inner. destruct (begin_deletion s b epoch ids) as [tx|]; [|done].
  destruct commits; [|done]. unfold commit_deletion. by destruct (tx_delete_info tx).
Qed.

Lemma attempt_inner_other s b epoch ids commits b' : b' <> b ->
  aggregate_blob_info (blob_info (attempt_to_delete_blob_data_inner s b epoch ids commits).1) !! b' =
  aggregate_blob_info (blob_info s) !! b'.
Proof.
  intros Hne. unfold attempt_to_delete_blob_data_inner, begin_deletion.
  destruct (aggregate_blob_info (blob_info s) !! b) as [info|]; [|done].
  destruct (negb _); [done|]. destruct commits; [|done]. unfold commit_deletion. cbn [tx_delete_info tx_blob_id].
  destruct (can_blob_info_be_deleted info epoch); [|done]. cbn. by rewrite lookup_delete_ne.
Qed.

(** So is a pass of data deletion, whatever commits succeed. *)
Lemma delete_expired_steps e s txs epoch batch_size commits s' done : (0 < batch_size)%nat -> epoch <= e ->
  delete_expired_blob_data s epoch batch_size commits = Ok (s', done) -> rtc storage_step (e, s, txs) (e, s', txs).
Proof.
  intros Hbs He. unfold delete_expired_blob_data. destruct (optimistic s) eqn:Hopt; cbn [negb];
    [|intros [= <- _]; apply rtc_refl].
  destruct (node_status s); try (intros [= <- _]; apply rtc_refl).
  set (I x := optimistic x = true /\ rtc storage_step (e, s, txs) (e, x, txs)).
  assert (I s) as HI by (split; [done|apply rtc_refl]).
  intros ((s1 & n) & Hp & [= <- _])%bind_Ok.
  edestruct (process_all_view (fun x => aggregate_blob_info (blob_info x))
    (delete_expired_entry epoch (owned_shard_storages s) commits) I) with (view := fun (_ : Storage) (_ : BlobId) => tt)
    (updated := fun (_ : BlobId) (_ : unit) => tt) (s := s) (batch_size := batch_size) as (s2 & n2 & Hp2 & [_ Hr] & _);
    [|done|done|done|]; [|congruence].
  intros x b info [Hx Hrx] Hb. unfold delete_expired_entry.
  destruct (negb _); [by exists x, false|]. eexists _, _. split; [apply f_equal, surjective_pairing|]. split; [split|].
  - by rewrite attempt_inner_optimistic.
  - etransitivity; [exact Hrx|]. by apply attempt_inner_steps.
  - apply attempt_inner_other.
Qed.

End steps.

(** ** One pass of data deletion *)

(** What the storage has of a blob: its entry, metadata and slivers by shard,
    with the status of the shard. *)
Record BlobView := mk_view {
  v_info : option BlobInfo;
  v_metadata : option BlobMetadata;
  v_slivers : gmap Z (ShardStatus * (option SliverData * option SliverData));
}.

Definition shard_view (b : BlobId) (shard : ShardStorage) : ShardStatus * (option SliverData * option SliverData) :=
  (status shard, (get_sliver shard b Primary, get_sliver shard b Secondary)).

Definition blob_view (s : Storage) (b : BlobId) : BlobView :=
  mk_view (aggregate_blob_info (blob_info s) !! b) (get_metadata s b) (shard_view b <$> shards s).

(** Without its data: the shards that the node still owns lose their slivers. *)
Definition without_data (info : option BlobInfo) (v : BlobView) : BlobView :=
  mk_view info None ((fun x => if is_owned_by_node x.1 then (x.1, (None, None)) else x) <$> v_slivers v).

Definition collected_view (e : Epoch) (v : BlobView) : BlobView :=
  match v_info v with
  | Some info =>
    if can_data_be_deleted info e
    then without_data (if can_blob_info_be_deleted info e then None else Some info) v
    else v
  | None => v
  end.

Lemma alter_all_lookup {A} (f : A -> A) ids (m : gmap Z A) i : NoDup ids ->
  foldl (fun m i => alter f i m) m ids !! i = (if decide (i ∈ ids) then f <$> m !! i else m !! i).
Proof.
  revert m. induction ids as [|j ids IH]; intros m; [done|]. intros [Hj Hnd]%NoDup_cons. cbn [foldl]. rewrite IH by done.
  destruct (decide (i = j)) as [->|Hij].
  - by rewrite decide_False, decide_True, lookup_alter_eq by set_solver.
  - rewrite lookup_alter_ne by done. destruct (decide (i ∈ ids)); [by rewrite decide_True by set_solver|].
    by rewrite decide_False by set_solver.
Qed.

Lemma elem_of_owned s i : i ∈ owned_shard_storages s <->
  exists shard, shards s !! i = Some shard /\ is_owned_by_node (status shard) = true.
Proof.
  unfold owned_shard_storages. rewrite list_elem_of_fmap. split.
  - intros ([j shard] & -> & Hj). apply elem_of_map_to_list, map_lookup_filter_Some in Hj. by exists shard.
  - intros (shard & Hi & Ho). exists (i, shard). by rewrite elem_of_map_to_list, map_lookup_filter_Some.
Qed.

Lemma owned_nodup s : NoDup (owned_shard_storages s).
Proof. apply NoDup_fst_map_to_list. Qed.

(** The status of a shard is not changed by deletions. *)
Definition same_statuses (s s' : Storage) : Prop := status <$> shards s' = status <$> shards s.

Lemma shard_view_deleted shard b : shard_view b (delete_sliver_pair shard b) = (status shard, (None, None)).
Proof. unfold shard_view. by rewrite !delete_sliver_pair_same. Qed.

Lemma shard_view_other shard b b' : b' <> b -> shard_view b' (delete_sliver_pair shard b) = shard_view b' shard.
Proof. intros Hne. unfold shard_view. by rewrite !delete_sliver_pair_other. Qed.

Lemma deleted_slivers_view s0 s b : same_statuses s0 s ->
  shard_view b <$> shards (delete_blob_data_in_transaction s b (owned_shard_storages s0)) =
  v_slivers (without_data None (blob_view s b)).
Proof.
  intros Hst. apply map_eq. intros i. cbn. rewrite !lookup_fmap, alter_all_lookup by apply owned_nodup.
  apply (f_equal (lookup i)) in Hst. rewrite !lookup_fmap in Hst.
  destruct (shards s !! i) as [shard|] eqn:Hi; [|by destruct (decide _)]. cbn in *.
  destruct (shards s0 !! i) as [shard0|] eqn:Hi0; [|done]. injection Hst as Hst.
  destruct (is_owned_by_node (status shard)) eqn:Ho.
  - rewrite decide_True by (apply elem_of_owned; exists shard0; by rewrite <- Hst). apply (f_equal Some), shard_view_deleted.
  - rewrite decide_False; [done|]. intros (shard' & Hi' & Ho')%elem_of_owned. congruence.
Qed.

Lemma deletion_same_statuses s b ids : NoDup ids -> same_statuses s (delete_blob_data_in_transaction s b ids).
Proof.
  intros Hnd. apply map_eq. intros i. cbn. rewrite !lookup_fmap, alter_all_lookup by done.
  destruct (decide (i ∈ ids)); [|done]. by destruct (shards s !! i).
Qed.

Lemma blob_view_other s b b' ids : NoDup ids -> b' <> b ->
  blob_view (delete_blob_data_in_transaction s b ids) b' = blob_view s b'.
Proof.
  intros Hnd Hne. unfold blob_view, get_metadata. cbn. rewrite lookup_delete_ne by done. f_equal.
  apply map_eq. intros i. rewrite !lookup_fmap, alter_all_lookup by done.
  destruct (decide (i ∈ ids)); [|done]. destruct (shards s !! i) as [shard|]; [|done].
  by apply (f_equal Some), shard_view_other.
Qed.

Section pass.
Context `{Build} (e : Epoch) (s0 : Storage).
Implicit Types (s : Storage) (b : BlobId).

(** What a pass leaves alone. *)
Definition other_tables s : Storage :=
  set_shards ∅ (set_metadata_table ∅ (set_blob_info (set_aggregate ∅ (blob_info s)) s)).

(** The states during the pass. *)
Definition pass_inv s : Prop := same_statuses s0 s /\ other_tables s = other_tables s0.

Lemma commit_view s tx : same_statuses s0 s -> tx_shards tx = owned_shard_storages s0 ->
  blob_view (commit_deletion s tx) (tx_blob_id tx) =
    without_data (if tx_delete_info tx then None else aggregate_blob_info (blob_info s) !! tx_blob_id tx)
      (blob_view s (tx_blob_id tx)) /\
  (forall b, b <> tx_blob_id tx -> blob_view (commit_deletion s tx) b = blob_view s b) /\
  same_statuses s0 (commit_deletion s tx).
Proof.
  intros Hst Hsh. unfold commit_deletion. rewrite Hsh. set (b := tx_blob_id tx).
  set (s1 := if tx_delete_info tx then _ else s).
  assert (same_statuses s0 s1) as Hst1 by (unfold s1; by destruct (tx_delete_info tx)).
  split_and!.
  - unfold blob_view at 1. rewrite deleted_slivers_view by done. unfold without_data, get_metadata. f_equal.
    + unfold s1. cbn. destruct (tx_delete_info tx); [|done]. cbn. by rewrite lookup_delete_eq.
    + apply lookup_delete_eq.
    + unfold s1. by destruct (tx_delete_info tx).
  - intros b' Hne. rewrite blob_view_other by (done || apply owned_nodup). unfold s1.
    destruct (tx_delete_info tx); [|done]. unfold blob_view. cbn. by rewrite lookup_delete_ne.
  - unfold same_statuses. rewrite <- Hst1. apply deletion_same_statuses, owned_nodup.
Qed.
Lemma delete_entry_view s b info : pass_inv s -> aggregate_blob_info (blob_info s) !! b = Some info ->
  exists s' md, delete_expired_entry e (owned_shard_storages s0) (fun _ => true) s b info = Ok (s', md) /\
    pass_inv s' /\ blob_view s' b = collected_view e (blob_view s b) /\
    forall b', b' <> b -> blob_view s' b' = blob_view s b'.
Proof.
  intros [Hst Hrest] Hb. unfold delete_expired_entry, collected_view. cbn [v_info blob_view]. rewrite Hb.
  destruct (can_data_be_deleted info e) eqn:Hcan; cbn [negb]; [|by exists s, false].
  unfold attempt_to_delete_blob_data_inner, begin_deletion. rewrite Hb, Hcan. cbn [negb].
  eexists _, true. split; [done|]. set (tx := mk_transaction _ _ _ _).
  destruct (commit_view s tx Hst eq_refl) as (Hv & Hvo & Hst'). split; [split; [done|]|].
  - rewrite <- Hrest. unfold commit_deletion. by destruct (tx_delete_info tx).
  - split; [|done]. cbn [tx_delete_info tx_blob_id tx] in Hv. rewrite Hb in Hv. exact Hv.
Qed.

Lemma deletion_pass batch_size : optimistic s0 = true -> node_status s0 = Active -> (0 < batch_size)%nat ->
  exists s', delete_expired_blob_data s0 e batch_size (fun _ => true) = Ok (s', true) /\
    other_tables s' = other_tables s0 /\
    forall b, blob_view s' b = collected_view e (blob_view s0 b).
Proof.
  intros Hopt Hact Hbs. unfold delete_expired_blob_data. rewrite Hopt, Hact. cbn [negb].
  destruct (process_all_view (fun s => aggregate_blob_info (blob_info s))
    (delete_expired_entry e (owned_shard_storages s0) (fun _ => true)) pass_inv) with
    (view := blob_view) (updated := fun _ : BlobId => collected_view e) (s := s0) (batch_size := batch_size)
    as (s' & n & -> & [_ Hrest] & Hv); [| |done|exact Hbs|].
  - intros s b info Hs Hb. destruct (delete_entry_view s b info Hs Hb) as (s1 & md & Hd & Hs1 & Hv & Hvo).
    exists s1, md. split_and!; [done|done|]. intros b' Hne. exact (f_equal v_info (Hvo b' Hne)).
  - intros s b info s1 md Hs Hb Hd. destruct (delete_entry_view s b info Hs Hb) as (s2 & md2 & Hd2 & _ & Hv & Hvo).
    rewrite Hd in Hd2. by injection Hd2 as -> ->.
  - exists s'. cbn [mbind outcome_bind]. split_and!; [done|done|]. intros b. rewrite Hv.
    destruct (decide _) as [|Hno]; [done|]. apply eq_None_not_Some in Hno. unfold collected_view. cbn. by rewrite Hno.
Qed.

End pass.

(** ** A garbage collection *)

(** Objects of [b] that a collection at epoch [e] keeps. *)
Definition surviving (e : Epoch) (t : BlobInfoTable) (b : BlobId) : Prop :=
  (exists k o, per_object_blob_info t !! k = Some o /\ o_blob_id o = b /\ e < o_end_epoch o) \/
  (exists k o, per_object_pooled_blob_info t !! k = Some o /\ po_blob_id o = b /\
     pool_is_expired t e (po_storage_pool_id o) = false).

Section garbage_collection.
Context `{Build} (e : Epoch) (config : GarbageCollectionConfig).
Context (Hbs : (0 < blob_objects_batch_size config)%nat).

(** Collecting the expired pools first does not change which pools are expired. *)
Lemma expired_after_pools t id :
  pool_is_expired (set_pools (filter (fun kx => pool_expired e kx.2 = false) (storage_pool_info t)) t) e id =
  pool_is_expired t e id.
Proof.
  unfold pool_is_expired. cbn. destruct (storage_pool_info t !! id) as [info|] eqn:Hid.
  - destruct (pool_expired e info) eqn:Hx.
    + rewrite (proj2 (map_lookup_filter_None _ _ _)); [by rewrite <- Hx|]. right. intros x Hx'. cbn. congruence.
    + by rewrite (proj2 (map_lookup_filter_Some _ _ _ info)).
  - by rewrite (proj2 (map_lookup_filter_None _ _ _)) by by left.
Qed.

Lemma blob_info_cleanup_ok s : table_inv e (blob_info s) -> room (blob_info s) ->
  exists t, perform_blob_info_cleanup config s e = Ok (set_blob_info t s) /\ table_inv e t /\ collected e t /\
    forall b, has_object t b <-> surviving e (blob_info s) b.
Proof.
  intros Hinv Hroom. unfold perform_blob_info_cleanup, storage_process_expired_storage_pools.
  rewrite process_expired_pools_ok by done. cbn [mbind outcome_bind].
  set (t1 := set_pools _ (blob_info s)). assert (table_inv e t1) as Hinv1 by by apply table_inv_pools.
  destruct (process_expired_objects_ok e t1 _ Hinv1 Hroom Hbs) as (t & Ht & Hinv' & _ & _ & _ & Ho & Hp).
  unfold storage_process_expired_blob_objects. cbn [blob_info set_blob_info]. rewrite Ht.
  assert (forall k o, per_object_blob_info t !! k = Some o <->
    per_object_blob_info (blob_info s) !! k = Some o /\ e < o_end_epoch o) as Hobj.
  { intros k o. rewrite Ho, map_lookup_filter_Some. cbn. unfold object_expired, object_is_registered.
    split; intros [Hk He]; (split; [done|]); rewrite (inv_deleted _ _ Hinv k o Hk), andb_true_r in *; lia. }
  exists t. split_and!; [done|done| |].
  - intros k o [_ He]%Hobj. exact He.
  - intros b. unfold has_object, surviving. setoid_rewrite Hobj. rewrite Hp. setoid_rewrite map_lookup_filter_Some.
    unfold pooled_expired, t1. cbn. setoid_rewrite expired_after_pools. naive_solver.
Qed.

Lemma cleaned_view t s b info : table_inv e t -> collected e t -> blob_info s = t ->
  aggregate_blob_info t !! b = Some info ->
  (is_invalid info = true -> collected_view e (blob_view s b) = without_data (Some info) (blob_view s b)) /\
  (is_invalid info = false -> has_object t b -> collected_view e (blob_view s b) = blob_view s b) /\
  (is_invalid info = false -> ~ has_object t b -> collected_view e (blob_view s b) = without_data None (blob_view s b)).
Proof.
  intros Hinv Hcol <- Hb. unfold collected_view. cbn [v_info blob_view]. rewrite Hb. split_and!.
  - intros Hi. by destruct info as [[|v]|[|v]].
  - intros Hval Ho. destruct (live_registered e (blob_info s) b Hinv) as (info' & Hb' & Hor).
    { destruct Ho as [(k & o & Hk & Ho)|Hp]; [left|by right]. exists k, o. by eauto. }
    assert (is_registered info e = true) as Hr by naive_solver congruence.
    unfold can_data_be_deleted. by rewrite Hr.
  - intros Hval Ho. assert (is_registered info e = false) as Hr.
    { destruct (is_registered info e) eqn:Hr; [|done]. destruct Ho. by eapply registered_has_object. }
    rewrite (unregistered_removable e (blob_info s) b Hinv info Hcol Hb Hval Hr).
    unfold can_data_be_deleted. by rewrite Hr.
Qed.

End garbage_collection.

(** ** What the storage promises *)

Section promises.
Context `{Build}.

(** C8: data of a live blob is never lost: in every reachable state, metadata or
    a sliver that is stored stays stored by any sequence of steps (events,
    uploads, epoch changes, garbage collection, deletions that began earlier and
    commit now, shard changes) for as long as its blob has a live object and is
    not marked invalid and its shard is not removed from the node. *)
Theorem live_data_is_kept c c' d : node_reachable c -> datum_stored c.1.2 d ->
  rtc (fun x y => storage_step x y /\ protected x (datum_blob d) /\ holds_shard y.1.2 d) c c' ->
  datum_stored c'.1.2 d.
Proof.
  intros Hreach%node_reachable_inv Hd Hrun. induction Hrun as [|c c1 c' (Hstep & Hprot & Hsh) _ IH]; [done|].
  apply IH; [by eapply storage_step_inv|]. by eapply step_keeps_protected.
Qed.

(** C19: a garbage collection deletes exactly what it may.  At the beginning of
    an epoch, on an active node with both kinds of cleanup enabled and whose
    transactions succeed, both phases end
    without a panic and record the epoch; a valid blob keeps its entry and data
    if one of its objects is not expired, and otherwise loses its entry, its
    metadata and its slivers on all shards that the node owns; an invalid blob
    loses its data and keeps its entry. *)
Theorem gc_deletes_exactly config e s txs :
  node_reachable (e, s, txs) -> room (blob_info s) -> optimistic s = true -> node_status s = Active ->
  e <> GENESIS_EPOCH -> enable_blob_info_cleanup config = true -> enable_data_deletion config = true ->
  (0 < blob_objects_batch_size config)%nat -> (0 < data_deletion_batch_size config)%nat ->
  exists s1 s2, start_garbage_collection_task config s e = Ok (s1, true) /\
    perform_data_deletion config s1 e (fun _ => true) = Ok s2 /\
    gc_last_started_epoch s2 = e /\ gc_last_completed_epoch s2 = e /\
    forall b, v_metadata (blob_view s1 b) = v_metadata (blob_view s b) /\
      v_slivers (blob_view s1 b) = v_slivers (blob_view s b) /\
      match v_info (blob_view s1 b) with
      | None => ~ surviving e (blob_info s) b /\ blob_view s2 b = blob_view s1 b
      | Some info =>
        if is_invalid info then blob_view s2 b = without_data (Some info) (blob_view s b)
        else (surviving e (blob_info s) b -> blob_view s2 b = blob_view s1 b) /\
             (~ surviving e (blob_info s) b -> blob_view s2 b = without_data None (blob_view s b))
      end.
Proof.
  intros Hreach%node_reachable_inv Hroom Hopt Hact Hgen Hclean Hdel Hbs Hdbs. destruct Hreach as [Hinv _].
  cbn [fst snd] in Hinv. unfold start_garbage_collection_task, perform_data_deletion.
  rewrite (proj2 (Z.eqb_neq _ _) Hgen), Hclean, Hdel. cbn [negb].
  set (s0 := set_garbage_collector_last_started_epoch e s).
  destruct (blob_info_cleanup_ok e config Hbs s0 Hinv Hroom) as (t & -> & Hinv' & Hcol & Hobj). cbn [mbind outcome_bind].
  set (s1 := set_blob_info t s0).
  destruct (deletion_pass e s1 _ Hopt Hact Hdbs) as (s2 & Hs2 & Hrest & Hv).
  eexists s1, _. rewrite Hs2. cbn [mbind outcome_bind]. split; [done|]. split; [done|]. split.
  { exact (f_equal gc_last_started_epoch Hrest). }
  split; [done|]. intros b. split; [done|]. split; [done|]. change (blob_view (set_garbage_collector_last_completed_epoch e s2) b)
    with (blob_view s2 b). rewrite Hv. cbn [v_info blob_view blob_info set_blob_info s1].
  destruct (aggregate_blob_info t !! b) as [info|] eqn:Hb.
  - destruct (cleaned_view e t s1 b info Hinv' Hcol eq_refl Hb) as (Hi & Hk & Hr).
    destruct (is_invalid info); [by apply Hi|]. split; intros Hs%Hobj || intros Hs; [by apply Hk|].
    apply Hr; [done|]. by rewrite Hobj.
  - split; [|unfold collected_view; cbn; by rewrite Hb]. intros Hs%Hobj.
    destruct (live_registered e t b Hinv') as (? & ? & _); [|congruence].
    destruct Hs as [(k & o & Hk & Ho)|Hp]; [left|by right]. exists k, o. by eauto.
Qed.

End promises.
