(* ===== verification/ShardSync.v ===== *)
(** * Synchronization of a shard

    Models node/storage/shard.rs from [start_sync_shard_before_epoch_impl] on,
    the iterator over certified blobs of node/storage/blob_info.rs, the buffer of
    typed-store/src/rocks.rs for SST files, and the server side of the transfer,
    [Storage::handle_sync_shard_request].  A shard that moves to the node is
    copied from its previous owner, sliver type by sliver type and in the order of
    blob IDs; blobs that the owner does not send are recorded as pending and
    recovered afterwards.  The responses of the owner and the results of the
    recovery are arguments.  Writes to a batch are applied to a copy of the shard
    that takes effect when the batch is written. *)

From S2P Require Import Prelude Core Symbols Metadata Slivers.
From S2P Require Import PermBlobInfo BlobInfoV1 BlobInfoV2 BlobInfoTable EventCursor NodeStorage.

(** [Sliver]: the data with its sliver type. *)
Definition Sliver : Type := Axis * SliverData.

(** ** Certified blobs *)

Section iterator.
Implicit Types (t : BlobInfoTable) (before_epoch : Epoch).

(** The test of [BlobInfoIter::next]. *)
Definition certified_before before_epoch (info : BlobInfo) : bool :=
  match initial_certified_epoch info with
  | Some initial_certified_epoch => initial_certified_epoch <? before_epoch
  | None => false
  end && is_certified info before_epoch.

(** The blob IDs that [certified_blob_info_iter_before_epoch] returns, for the
    bounds [Unbounded] and [Excluded]. *)
Definition certified_blob_info_iter_before_epoch t before_epoch (excluded : option BlobId) : list BlobId :=
  (List.filter (fun kv => certified_before before_epoch kv.2) (entries_after excluded (aggregate_blob_info t))).*1.

(** For the bound [Included]. *)
Definition certified_blob_info_iter_from t before_epoch (starting_blob_id : BlobId) : list BlobId :=
  List.filter (fun b => negb (key_ltb b starting_blob_id)) (certified_blob_info_iter_before_epoch t before_epoch None).

End iterator.

(** ** The owner of the shard *)

Inductive SyncShardServiceError :=
| RequestedSliverCountExceedsLimit (requested limit : Z)
| ShardNotAssigned (shard : Z) (epoch : Epoch).

Section server.
Context (s : Storage) (current_epoch : Epoch).

(** The loop of [handle_sync_shard_request]; every pass consumes at least one
    certified blob. *)
Fixpoint fetch_loop (fuel : nat) (shard : ShardStorage) (sliver_type : Axis) (starting_blob_id : BlobId)
    (sliver_count : nat) (last_fetched_blob_id : option BlobId) (fetched_blobs : list (BlobId * Sliver)) :
    list (BlobId * Sliver) :=
  match fuel with
  | O => fetched_blobs
  | S fuel =>
    if negb (length fetched_blobs <? sliver_count)%nat then fetched_blobs else
    let remaining_count := (sliver_count - length fetched_blobs)%nat in
    let blobs_to_fetch := take remaining_count
      match last_fetched_blob_id with
      | None => certified_blob_info_iter_from (blob_info s) current_epoch starting_blob_id
      | Some id => certified_blob_info_iter_before_epoch (blob_info s) current_epoch (Some id)
      end in
    match last blobs_to_fetch with
    | None => fetched_blobs
    | Some last_blob =>
      let slivers := (fun '(b, x) => (b, (sliver_type, x))) <$> fetch_slivers shard sliver_type blobs_to_fetch in
      fetch_loop fuel shard sliver_type starting_blob_id sliver_count (Some last_blob) (fetched_blobs ++ slivers)
    end
  end.

Definition handle_sync_shard_request (shard_index : Z) (sliver_type : Axis) (starting_blob_id : BlobId)
    (sliver_count : Z) (max_sliver_count : option Z) : outcome SyncShardServiceError (list (BlobId * Sliver)) :=
  _ ← match max_sliver_count with
      | Some limit => ensure (sliver_count <=? limit) (RequestedSliverCountExceedsLimit sliver_count limit)
      | None => Ok tt
      end;
  match shards s !! shard_index with
  | None => Err (ShardNotAssigned shard_index current_epoch)
  | Some shard =>
    Ok (fetch_loop (S (size (aggregate_blob_info (blob_info s)))) shard sliver_type starting_blob_id
          (Z.to_nat sliver_count) None [])
  end.

End server.

(** ** The new owner *)

Record SstIngestionConfig := { max_entries : option Z; compact_after_sync : bool }.

Record ShardSyncConfig := {
  sliver_count_per_sync_request : Z;
  sst_ingestion_config : option SstIngestionConfig;
}.

(** [SstIngestBuffer]: entries that wait to be written to a file and ingested. *)
Definition SstIngestBuffer : Type := list (BlobId * SliverData).

Definition sst_push (buffer : SstIngestBuffer) (key : BlobId) (value : SliverData) : SstIngestBuffer :=
  buffer ++ [(key, value)].

(** Values written in order. *)
Definition put_slivers (a : Axis) (l : list (BlobId * SliverData)) (s : ShardStorage) : ShardStorage :=
  foldl (fun s '(b, x) => put_sliver s b a x) s l.

Inductive SyncShardClientError := RequestError | StorageError.

(** [SstIngestBuffer::flush] takes the entries out of the buffer; [accepted] is
    the answer of the database to the file, which must be sorted. *)
Definition sst_flush (accepted : bool) (a : Axis) (buffer : SstIngestBuffer) (s : ShardStorage) :
    outcome SyncShardClientError (ShardStorage * SstIngestBuffer) :=
  match buffer with
  | [] => Ok (s, [])
  | _ => if accepted then Ok (put_slivers a buffer s, []) else Err StorageError
  end.

(** The two buffers, created at the first sliver. *)
Record SstBuffers := mk_buffers {
  sst_primary_buffer : option SstIngestBuffer;
  sst_secondary_buffer : option SstIngestBuffer;
}.

Definition buffer_of (a : Axis) (bufs : SstBuffers) : option SstIngestBuffer :=
  match a with Primary => sst_primary_buffer bufs | Secondary => sst_secondary_buffer bufs end.

Definition set_buffer (a : Axis) (buf : SstIngestBuffer) (bufs : SstBuffers) : SstBuffers :=
  match a with
  | Primary => mk_buffers (Some buf) (sst_secondary_buffer bufs)
  | Secondary => mk_buffers (sst_primary_buffer bufs) (Some buf)
  end.

(** [SstIngestBuffer::clear] of the buffers that exist. *)
Definition clear_buffers (bufs : SstBuffers) : SstBuffers :=
  mk_buffers ((fun _ => []) <$> sst_primary_buffer bufs) ((fun _ => []) <$> sst_secondary_buffer bufs).

(** *** Missing blobs *)

(** [blob_info_iter.next()]. *)
Definition iter_next (iter : list BlobId) : option BlobId * list BlobId :=
  match iter with [] => (None, []) | b :: iter => (Some b, iter) end.

(** The loop of [check_and_record_missing_blobs]; the result has the slivers
    that were recorded in the batch. *)
Fixpoint record_missing (a : Axis) (fetched_blob_id next_blob_id : BlobId) (iter : list BlobId)
    (s : ShardStorage) : ShardStorage * (option BlobId * list BlobId) :=
  if key_ltb next_blob_id fetched_blob_id then
    let s := set_pending (pending_recover_slivers s ∪ {[ (a, next_blob_id) ]}) s in
    match iter with
    | [] => (s, (None, []))
    | b :: iter => record_missing a fetched_blob_id b iter s
    end
  else if bool_decide (next_blob_id = fetched_blob_id) then (s, iter_next iter)
  else (s, (Some next_blob_id, iter)).

Section client.
Context `{Build}.

Definition check_and_record_missing_blobs (a : Axis) (fetched_blob_id : BlobId) (s : ShardStorage)
    (next_blob_info : option BlobId) (iter : list BlobId) :
    outcome SyncShardClientError (ShardStorage * (option BlobId * list BlobId)) :=
  match next_blob_info with
  | None => debug_assert (bool_decide (iter = []));; Ok (s, (None, iter))
  | Some next_blob_id =>
    if bool_decide (next_blob_id = fetched_blob_id) then Ok (s, iter_next iter)
    else Ok (record_missing a fetched_blob_id next_blob_id iter s)
  end.

(** *** The transfer *)

(** The variables of [sync_shard_before_epoch_internal]: the batch, the buffers
    and the position in the certified blobs. *)
Record Transfer := mk_transfer {
  t_batch : ShardStorage;
  t_buffers : SstBuffers;
  t_next : option BlobId;
  t_iter : list BlobId;
}.

(** One sliver of [batch_fetched_slivers_and_check_missing_blobs]. *)
Definition batch_fetched_sliver (config : ShardSyncConfig) (sliver_type : Axis) (t : Transfer)
    (fetched : BlobId * Sliver) : outcome SyncShardClientError Transfer :=
  let '(blob_id, (axis, sliver)) := fetched in
  assert (bool_decide (sliver_type = axis));;
  let '(batch, bufs) :=
    if is_some (sst_ingestion_config config)
    then (t_batch t, set_buffer axis (sst_push (default [] (buffer_of axis (t_buffers t))) blob_id sliver) (t_buffers t))
    else (put_sliver (t_batch t) blob_id axis sliver, t_buffers t) in
  '(batch, (next, iter)) ← check_and_record_missing_blobs sliver_type blob_id batch (t_next t) (t_iter t);
  Ok (mk_transfer batch bufs next iter).

Definition batch_fetched_slivers_and_check_missing_blobs (config : ShardSyncConfig) (sliver_type : Axis)
    (t : Transfer) (fetched_slivers : list (BlobId * Sliver)) : outcome SyncShardClientError Transfer :=
  foldM (batch_fetched_sliver config sliver_type) t fetched_slivers.

Definition record_last_synced_blob_id (sliver_type : Axis) (last_synced_blob_id : BlobId) (batch : ShardStorage) :
    ShardStorage :=
  set_sync_progress (Some (mk_sync_progress last_synced_blob_id sliver_type)) batch.

(** [flush_sst]; compaction does not change the contents of the table. *)
Definition flush_sst (accepted : bool) (a : Axis) (buffer : SstIngestBuffer) (end_of_range : bool)
    (sst_file_threshold : Z) (batch : ShardStorage) : outcome SyncShardClientError (ShardStorage * SstIngestBuffer * bool) :=
  if negb ((sst_file_threshold <=? len buffer) || end_of_range) then Ok (batch, buffer, false)
  else '(batch, buffer) ← sst_flush accepted a buffer batch; Ok (batch, buffer, true).

(** [handle_sst_progress]. *)
Definition handle_sst_progress (accepted : bool) (sliver_type : Axis) (last_pushed : option BlobId)
    (end_of_range : bool) (sst_file_threshold : Z) (t : Transfer) : outcome SyncShardClientError Transfer :=
  match buffer_of sliver_type (t_buffers t) with
  | None => Ok t
  | Some buffer =>
    '(batch, buffer, flushed) ← flush_sst accepted sliver_type buffer end_of_range sst_file_threshold (t_batch t);
    let batch := match flushed, last_pushed with
                 | true, Some id => record_last_synced_blob_id sliver_type id batch
                 | _, _ => batch
                 end in
    Ok (mk_transfer batch (set_buffer sliver_type buffer (t_buffers t)) (t_next t) (t_iter t))
  end.

(** One request of the loop of [sync_shard_before_epoch_internal], with the
    response of the owner; the result also has the last blob ID of the response. *)
Definition sync_request (config : ShardSyncConfig) (sliver_type : Axis) (accepted : bool)
    (fetched_slivers : list (BlobId * Sliver)) (t : Transfer) :
    outcome SyncShardClientError (Transfer * option BlobId) :=
  t ← batch_fetched_slivers_and_check_missing_blobs config sliver_type t fetched_slivers;
  let last_synced_blob_id := fst <$> last fetched_slivers in
  t ← match sst_ingestion_config config with
      | Some sst =>
        handle_sst_progress accepted sliver_type last_synced_blob_id (negb (is_some (t_next t)))
          (default 100000 (max_entries sst)) t
      | None =>
        Ok match last_synced_blob_id with
           | Some id => mk_transfer (record_last_synced_blob_id sliver_type id (t_batch t)) (t_buffers t) (t_next t) (t_iter t)
           | None => t
           end
      end;
  Ok (t, last_synced_blob_id).

(** The end of [sync_shard_before_epoch_internal]: what was not sent is pending. *)
Definition record_remaining (sliver_type : Axis) (t : Transfer) : ShardStorage :=
  match t_next t with
  | None => t_batch t
  | Some next =>
    set_pending (pending_recover_slivers (t_batch t) ∪ list_to_set ((fun b => (sliver_type, b)) <$> next :: t_iter t)) (t_batch t)
  end.

(** The start of [sync_shard_before_epoch_internal], with its assertion. *)
Definition start_transfer (table : BlobInfoTable) (epoch : Epoch) (last_synced_blob_id : option BlobId)
    (s : ShardStorage) (bufs : SstBuffers) : outcome SyncShardClientError Transfer :=
  let '(next, iter) := iter_next (certified_blob_info_iter_before_epoch table epoch last_synced_blob_id) in
  assert (negb (epoch =? 0) && ((1 <? epoch) || negb (is_some next)));;
  Ok (mk_transfer s bufs next iter).

(** The whole of [sync_shard_before_epoch_internal] against an owner that
    answers requests; the fuel bounds the number of requests. *)
Fixpoint sync_requests (fuel : nat) (config : ShardSyncConfig) (sliver_type : Axis)
    (owner : BlobId -> outcome SyncShardClientError (list (BlobId * Sliver))) (t : Transfer) :
    outcome SyncShardClientError Transfer :=
  match t_next t with
  | None => Ok t
  | Some next_starting_blob_id =>
    match fuel with
    | O => Err RequestError
    | S fuel =>
      fetched_slivers ← owner next_starting_blob_id;
      '(t, last_synced_blob_id) ← sync_request config sliver_type true fetched_slivers t;
      match last_synced_blob_id with
      | None => Ok t
      | Some _ => sync_requests fuel config sliver_type owner t
      end
    end
  end.

Definition sync_shard_before_epoch_internal (fuel : nat) (table : BlobInfoTable) (epoch : Epoch) (sliver_type : Axis)
    (last_synced_blob_id : option BlobId) (config : ShardSyncConfig) (directly_recover_shard : bool)
    (owner : BlobId -> outcome SyncShardClientError (list (BlobId * Sliver))) (s : ShardStorage) (bufs : SstBuffers) :
    outcome SyncShardClientError (ShardStorage * SstBuffers) :=
  t ← start_transfer table epoch last_synced_blob_id s bufs;
  t ← (if directly_recover_shard then Ok t else sync_requests fuel config sliver_type owner t);
  Ok (record_remaining sliver_type t, t_buffers t).

(** *** Recovery *)

(** What [recover_blob] did about a pending sliver: its blob was retired while
    it ran, the sliver was recovered, the blob was proven inconsistent, or an error
    ended it. *)
Inductive RecoveryResult := BlobRetired | Recovered (sliver : SliverData) | Inconsistent | RecoveryFailed.

(** [skip_recover_blob]. *)
Definition skip_recover_blob (s : ShardStorage) (a : Axis) (blob_id : BlobId) : ShardStorage :=
  set_pending (pending_recover_slivers s ∖ {[ (a, blob_id) ]}) s.

Definition recover_blob (s : ShardStorage) (a : Axis) (blob_id : BlobId) (result : RecoveryResult) : ShardStorage :=
  match result with
  | BlobRetired => skip_recover_blob s a blob_id
  | Recovered sliver => skip_recover_blob (put_sliver s blob_id a sliver) a blob_id
  | Inconsistent => skip_recover_blob s a blob_id
  | RecoveryFailed => s
  end.

(** One pending sliver in [recover_missing_blobs]; [None] stands for a blob that
    is not certified. *)
Definition recover_missing_blob (results : Axis * BlobId -> option RecoveryResult) (s : ShardStorage)
    (pending : Axis * BlobId) : ShardStorage :=
  if is_sliver_type_stored s pending.2 pending.1 then skip_recover_blob s pending.1 pending.2 else
  match results pending with
  | None => skip_recover_blob s pending.1 pending.2
  | Some result => recover_blob s pending.1 pending.2 result
  end.

Definition recover_missing_blobs (results : Axis * BlobId -> option RecoveryResult) (s : ShardStorage) : ShardStorage :=
  foldl (recover_missing_blob results) s (elements (pending_recover_slivers s)).

(** The status change at the start of [recovery_any_missing_slivers]. *)
Definition enter_recovery (s : ShardStorage) : ShardStorage :=
  if bool_decide (shard_status s = Some ActiveSync) then set_shard_status ActiveRecover s else s.

(** The loop of [recovery_any_missing_slivers], with the results of its rounds;
    the node stops when there are no more. *)
Fixpoint recovery_rounds (rounds : list (Axis * BlobId -> option RecoveryResult)) (s : ShardStorage) :
    outcome SyncShardClientError ShardStorage :=
  match rounds with
  | [] => Err StorageError
  | results :: rounds =>
    let s := recover_missing_blobs results s in
    if bool_decide (pending_recover_slivers s = ∅) then Ok s else recovery_rounds rounds s
  end.

Definition recovery_any_missing_slivers (rounds : list (Axis * BlobId -> option RecoveryResult)) (s : ShardStorage) :
    outcome SyncShardClientError ShardStorage :=
  if bool_decide (pending_recover_slivers s = ∅) then Ok s else recovery_rounds rounds (enter_recovery s).

(** The end of [start_sync_shard_before_epoch_impl]. *)
Definition finish_sync (s : ShardStorage) : ShardStorage :=
  let s' := if bool_decide (shard_status s = Some ActiveSync) || bool_decide (shard_status s = Some ActiveRecover)
            then set_shard_status ShardActive s else s in
  set_sync_progress None s'.

(** The assertion at its start. *)
Definition sync_status_ok (s : ShardStorage) : bool :=
  bool_decide (status s = ActiveSync) || bool_decide (status s = ActiveRecover) || bool_decide (status s = LockedToMove).

Definition start_sync_shard_before_epoch_impl (fuel : nat) (table : BlobInfoTable) (epoch : Epoch)
    (config : ShardSyncConfig) (directly_recover_shard : bool)
    (owner : Axis -> BlobId -> outcome SyncShardClientError (list (BlobId * Sliver)))
    (rounds : list (Axis * BlobId -> option RecoveryResult)) (s : ShardStorage) (bufs : SstBuffers) :
    outcome SyncShardClientError (ShardStorage * SstBuffers) :=
  let bufs := if is_some (sst_ingestion_config config) then clear_buffers bufs else bufs in
  assert (sync_status_ok s);;
  let sync a last sb :=
    sync_shard_before_epoch_internal fuel table epoch a last config directly_recover_shard (owner a) sb.1 sb.2 in
  sb ← match get_last_sync_status s (status s) with
       | SyncPrimary last => sb ← sync Primary last (s, bufs); sync Secondary None sb
       | SyncSecondary last => sync Secondary last (s, bufs)
       | SyncRecovery => Ok (s, bufs)
       end;
  s ← recovery_any_missing_slivers rounds sb.1;
  Ok (finish_sync s, sb.2).

End client.
