(* ===== verification/ShardSyncProps.v ===== *)
(** * A shard is active only when it is complete

    [sync_step] interleaves the transfer of a shard and the recovery of missing
    slivers with errors, restarts and other writes to the shard, for any responses
    of the previous owner.  The second part runs the transfer against an owner
    that answers as [handle_sync_shard_request]. *)

From stdpp Require Import sorting.
From S2P Require Import Prelude Core Symbols Metadata Slivers.
From S2P Require Import PermBlobInfo BlobInfoV1 BlobInfoV2 BlobInfoTable Batches EventCursor.
From S2P Require Import NodeStorage ShardSync.

(** ** The certified blobs in key order *)

Definition id_lt (i j : BlobId) : Prop := key_ltb i j = true.

Lemma sorted_map {A} (R : relation A) {B} (Q : relation B) (f : A -> B) l :
  (forall x y, R x y -> Q (f x) (f y)) -> StronglySorted R l -> StronglySorted Q (f <$> l).
Proof.
  intros Hf. induction 1 as [|x l Hl IH Hx]; cbn; [constructor|]. constructor; [done|].
  apply Forall_fmap. by eapply Forall_impl; [|intros y; apply Hf].
Qed.

Lemma certified_sorted table epoch excluded :
  StronglySorted id_lt (certified_blob_info_iter_before_epoch table epoch excluded).
Proof.
  eapply sorted_map; [|apply sorted_filter, entries_after_sorted]. by intros [] [].
Qed.

Lemma elem_of_certified table epoch excluded b :
  b ∈ certified_blob_info_iter_before_epoch table epoch excluded <->
  past excluded b /\ exists info, aggregate_blob_info table !! b = Some info /\ certified_before epoch info = true.
Proof.
  unfold certified_blob_info_iter_before_epoch. rewrite list_elem_of_fmap. split.
  - intros ([k info] & -> & Hin). rewrite list_elem_of_In, filter_In, <- list_elem_of_In in Hin.
    destruct Hin as [[Hk Hp]%elem_of_entries_after Hc]. split; [done|]. by exists info.
  - intros (Hp & info & Hb & Hc). exists (b, info). split; [done|].
    rewrite list_elem_of_In, filter_In, <- list_elem_of_In. split; [|done]. by apply elem_of_entries_after.
Qed.

(** ** The transfer *)

(** The certified blobs that are still to come. *)
Definition rest (t : Transfer) : list BlobId :=
  match t_next t with None => [] | Some b => b :: t_iter t end.

Definition transfer_ok (t : Transfer) : Prop :=
  StronglySorted id_lt (rest t) /\ (t_next t = None -> t_iter t = []).

(** A sliver was stored, or waits to be recovered. *)
Definition stored (s : ShardStorage) (x : Axis * BlobId) : Prop := is_Some (get_sliver s x.2 x.1).

(** Writes that add slivers and pending ones. *)
Record extends (s s' : ShardStorage) : Prop := {
  ext_status : shard_status s' = shard_status s;
  ext_stored x : stored s x -> stored s' x;
  ext_pending : pending_recover_slivers s ⊆ pending_recover_slivers s';
}.

#[export] Instance extends_preorder : PreOrder extends.
Proof.
  split; [by split|]. intros s1 s2 s3 [H1 H2 H3] [H1' H2' H3']. split; [congruence|eauto|set_solver].
Qed.

Definition buffered (a : Axis) (bufs : SstBuffers) (b : BlobId) : Prop :=
  b ∈ (default [] (buffer_of a bufs)).*1.

(** A certified blob is accounted for. *)
Definition accounted (a : Axis) (t : Transfer) (b : BlobId) : Prop :=
  stored (t_batch t) (a, b) \/ (a, b) ∈ pending_recover_slivers (t_batch t) \/ buffered a (t_buffers t) b.

Lemma stored_put s b a x y : stored s y -> stored (put_sliver s b a x) y.
Proof.
  unfold stored, get_sliver. destruct y as [a' b']. destruct a, a'; cbn; try done; intros Hs;
    (destruct (decide (b = b')) as [->|]; [by rewrite lookup_insert_eq|by rewrite lookup_insert_ne]).
Qed.

Lemma put_stored s b a x : stored (put_sliver s b a x) (a, b).
Proof. unfold stored, get_sliver. destruct a; cbn; by rewrite lookup_insert_eq. Qed.

Lemma put_extends s b a x : extends s (put_sliver s b a x).
Proof. split; [by destruct a|intros y; apply stored_put|by destruct a]. Qed.

Lemma pending_extends s p : pending_recover_slivers s ⊆ p -> extends s (set_pending p s).
Proof. intros Hp. split; [done| |done]. by intros [[] ?]. Qed.

Lemma puts_ok a l s : extends s (put_slivers a l s) /\ forall b, b ∈ l.*1 -> stored (put_slivers a l s) (a, b).
Proof.
  revert s. induction l as [|[b x] l IH]; intros s; [split; [reflexivity|set_solver]|].
  change (put_slivers a ((b, x) :: l) s) with (put_slivers a l (put_sliver s b a x)). destruct (IH (put_sliver s b a x)) as [He Hs]. split.
  - etransitivity; [apply put_extends|exact He].
  - intros b' [->|Hin]%elem_of_cons; [|by apply Hs]. apply He, put_stored.
Qed.

Lemma puts_progress a l s : shard_sync_progress (put_slivers a l s) = shard_sync_progress s.
Proof.
  revert s. induction l as [|[b x] l IH]; intros s; [done|].
  change (put_slivers a ((b, x) :: l) s) with (put_slivers a l (put_sliver s b a x)). rewrite IH. by destruct a.
Qed.

(** Recording what is missing before a blob that was sent. *)
Lemma record_missing_ok a f next iter s : StronglySorted id_lt (next :: iter) ->
  let r := record_missing a f next iter s in
  let t := mk_transfer r.1 (mk_buffers None None) r.2.1 r.2.2 in
  transfer_ok t /\ Forall (id_lt f) (rest t) /\ extends s r.1 /\ shard_sync_progress r.1 = shard_sync_progress s /\
  forall b, b ∈ next :: iter -> b ∈ rest t \/ b = f \/ (a, b) ∈ pending_recover_slivers r.1.
Proof.
  revert next s. induction iter as [|n iter IH]; intros next s Hsort; cbn [record_missing];
    (destruct (key_ltb next f) eqn:Hlt; [|case_bool_decide as Heq]).
  - cbn. split_and!; [split; [constructor|done]|constructor|apply pending_extends; set_solver|done|]. set_solver.
  - subst. cbn. split_and!; [split; [constructor|done]|constructor|reflexivity|done|]. set_solver.
  - cbn. split_and!; [split; [done|by intros]|repeat constructor|reflexivity|done|set_solver].
    unfold id_lt. destruct (key_ltb f next) eqn:Hfn; [done|]. by pose proof (key_ltb_total _ _ Hlt Hfn).
  - apply StronglySorted_inv in Hsort as [Hsort Hall]. set (s1 := set_pending _ s).
    destruct (IH n s1 Hsort) as (Ht & Hf & He & Hp & Hin). split_and!; [done|done| |done|].
    + etransitivity; [|exact He]. apply pending_extends. set_solver.
    + intros b [->|Hb]%elem_of_cons; [|by apply Hin]. right. right. apply He. cbn. set_solver.
  - subst. apply StronglySorted_inv in Hsort as [Hsort Hall]. cbn.
    split_and!; [split; [done|by intros]|done|reflexivity|done|set_solver].
  - split_and!; [split; [done|by intros]| |reflexivity|done|set_solver].
    assert (id_lt f next) as Hfn.
    { unfold id_lt. destruct (key_ltb f next) eqn:Hfn; [done|]. by pose proof (key_ltb_total _ _ Hlt Hfn). }
    apply StronglySorted_inv in Hsort as [Hsort Hall]. constructor; [done|].
    eapply Forall_impl; [exact Hall|]. intros x Hx. by eapply key_ltb_trans.
Qed.

Section requests.
Context `{Build} (config : ShardSyncConfig) (a : Axis).
Implicit Types (t : Transfer) (b : BlobId).

Lemma check_missing_ok f s next iter s' n' it' :
  transfer_ok (mk_transfer s (mk_buffers None None) next iter) ->
  check_and_record_missing_blobs a f s next iter = Ok (s', (n', it')) ->
  let t := mk_transfer s (mk_buffers None None) next iter in
  let t' := mk_transfer s' (mk_buffers None None) n' it' in
  transfer_ok t' /\ Forall (id_lt f) (rest t') /\ extends s s' /\ shard_sync_progress s' = shard_sync_progress s /\
  forall b, b ∈ rest t -> b ∈ rest t' \/ b = f \/ (a, b) ∈ pending_recover_slivers s'.
Proof.
  intros [Hsort Hnil]. unfold check_and_record_missing_blobs. destruct next as [next|]; cbn in Hsort, Hnil |- *.
  - case_bool_decide as Heq.
    + intros [= <- Hit]. subst f. apply StronglySorted_inv in Hsort as [Hsort Hall].
      destruct iter as [|n iter]; cbn in Hit; injection Hit as <- <-;
        (split_and!; [split; [done|by intros]|done|reflexivity|done|set_solver]).
    + pose proof (record_missing_ok a f next iter s Hsort) as Hr.
      destruct (record_missing a f next iter s) as [s1 [n1 it1]]. intros [= -> -> ->]. exact Hr.
  - rewrite (Hnil eq_refl), bool_decide_true by done. unfold debug_assert.
    intros Hok. assert (Ok (E:=SyncShardClientError) (s, (None, [])) = Ok (s', (n', it'))) as [= -> <- <-].
    { by destruct debug_assertions. }
    split_and!; [split; [constructor|done]|constructor|reflexivity|done|set_solver].
Qed.

(** What processing fetched slivers achieves. *)
Record fetched_ok t t' : Prop := {
  fo_ok : transfer_ok t';
  fo_extends : extends (t_batch t) (t_batch t');
  fo_progress : shard_sync_progress (t_batch t') = shard_sync_progress (t_batch t);
  fo_rest b : b ∈ rest t -> b ∈ rest t' \/ accounted a t' b;
  fo_buffered b : buffered a (t_buffers t) b -> buffered a (t_buffers t') b;
  fo_plain : sst_ingestion_config config = None -> t_buffers t' = t_buffers t;
}.

Lemma buffer_set bufs buf : buffer_of a (set_buffer a buf bufs) = Some buf.
Proof. by destruct a. Qed.

Lemma buffer_push bufs b x b' :
  buffered a (set_buffer a (sst_push (default [] (buffer_of a bufs)) b x) bufs) b' <-> buffered a bufs b' \/ b' = b.
Proof.
  unfold buffered. rewrite buffer_set. cbn [default from_option id]. unfold sst_push. rewrite fmap_app. set_solver.
Qed.

Lemma batch_fetched_sliver_ok t b x t' : transfer_ok t ->
  batch_fetched_sliver config a t (b, x) = Ok t' -> fetched_ok t t' /\ Forall (id_lt b) (rest t').
Proof.
  intros Ht. destruct x as [axis x]. unfold batch_fetched_sliver.
  case_bool_decide as Ha; cbn [assert mbind outcome_bind]; [subst axis|done].
  set (p := if is_some _ then _ else _). destruct p as [batch bufs] eqn:Hp.
  intros ([s' [n' it']] & Hc & [= <-])%bind_Ok.
  assert (extends (t_batch t) batch /\ shard_sync_progress batch = shard_sync_progress (t_batch t) /\
    (stored batch (a, b) \/ buffered a bufs b) /\ (forall b', buffered a (t_buffers t) b' -> buffered a bufs b') /\
    (sst_ingestion_config config = None -> bufs = t_buffers t)) as (He & Hpr & Hst & Hbuf & Hplain).
  { unfold p in Hp. destruct (sst_ingestion_config config); cbn in Hp; injection Hp as <- <-.
    - split_and!; [reflexivity|done|right; by apply buffer_push; right
        |intros b' ?; apply buffer_push; by left|done].
    - split_and!; [apply put_extends|by destruct a|left; apply put_stored|done|done]. }
  apply check_missing_ok in Hc as (Hok & Hf & He' & Hpr' & Hin); [|exact Ht].
  split; [|exact Hf]. split; cbn; [exact Hok|by etransitivity|congruence| |done|done].
  intros b' Hb'. destruct (Hin b' Hb') as [?|[->|?]]; [by left|right|right; by right; left].
  destruct Hst as [Hst|Hst]; [left; by apply He'|by right; right].
Qed.

Lemma fetched_ok_trans t1 t2 t3 : fetched_ok t1 t2 -> fetched_ok t2 t3 -> fetched_ok t1 t3.
Proof.
  intros [H1 H2 H3 H4 H5 H6] [H1' H2' H3' H4' H5' H6']. split; [done|by etransitivity|congruence| |eauto|].
  - intros b [?|[Hs|[Hp|Hb]]]%H4; [by apply H4'| | |]; right.
    + left. by apply H2'.
    + right. left. by apply H2'.
    + right. right. by apply H5'.
  - intros Hc. rewrite H6', H6; done.
Qed.

Lemma batch_fetched_ok l t t' : transfer_ok t ->
  batch_fetched_slivers_and_check_missing_blobs config a t l = Ok t' ->
  fetched_ok t t' /\ (forall b, fst <$> last l = Some b -> Forall (id_lt b) (rest t')).
Proof.
  unfold batch_fetched_slivers_and_check_missing_blobs.
  revert t. induction l as [|[b x] l IH]; intros t Ht; cbn [foldM].
  { intros [= <-]. split; [|done]. split; [done|reflexivity|done|by left|done|done]. }
  intros (t1 & Hb & Hl)%bind_Ok. apply batch_fetched_sliver_ok in Hb as [Hf1 Hall1]; [|done].
  destruct (IH t1 (fo_ok _ _ Hf1) Hl) as [Hf Hlast]. split; [by eapply fetched_ok_trans|].
  intros b' Hb'. destruct l as [|y l]; [|by apply Hlast]. injection Hb' as <-. by injection Hl as <-.
Qed.

(** Stored, or recorded as pending. *)
Definition settled (s : ShardStorage) (x : Axis * BlobId) : Prop := stored s x \/ x ∈ pending_recover_slivers s.

Lemma settled_extends s s' x : extends s s' -> settled s x -> settled s' x.
Proof. intros He [Hs|Hp]; [left|right]; by apply He. Qed.

Lemma sst_flush_ok accepted buf s s' buf' : sst_flush accepted a buf s = Ok (s', buf') ->
  extends s s' /\ shard_sync_progress s' = shard_sync_progress s /\ buf' = [] /\ forall b, b ∈ buf.*1 -> stored s' (a, b).
Proof.
  unfold sst_flush. destruct buf as [|x buf]; [intros [= <- <-]; split_and!; [reflexivity|done|done|set_solver]|].
  destruct accepted; [|done]. intros [= <- <-]. destruct (puts_ok a (x :: buf) s) as [He Hs].
  split_and!; [done|exact (puts_progress a (x :: buf) s)|done|done].
Qed.

(** At the end of the range the buffer is written. *)
Lemma sst_flushed accepted last_pushed threshold t t' b :
  handle_sst_progress accepted a last_pushed true threshold t = Ok t' -> ~ buffered a (t_buffers t') b.
Proof.
  unfold handle_sst_progress. destruct (buffer_of a (t_buffers t)) as [buf|] eqn:Hbuf.
  - intros ([[s' buf'] flushed] & Hfl & [= <-])%bind_Ok. unfold flush_sst in Hfl. rewrite orb_true_r in Hfl. cbn [negb] in Hfl.
    apply bind_Ok in Hfl as ([s1 buf1] & Hfl & [= _ -> _]). apply sst_flush_ok in Hfl as (_ & _ & -> & _).
    unfold buffered. cbn [t_buffers]. rewrite buffer_set. apply not_elem_of_nil.
  - intros [= <-]. unfold buffered. rewrite Hbuf. apply not_elem_of_nil.
Qed.

(** The progress that a request records only skips settled slivers. *)
Definition progress_ok (P : BlobId -> Prop) (s s' : ShardStorage) : Prop :=
  shard_sync_progress s' = shard_sync_progress s \/
  exists id, shard_sync_progress s' = Some (mk_sync_progress id a) /\
    forall b, P b -> ~ id_lt id b -> settled s' (a, b).

Lemma set_progress_extends s p : extends s (set_sync_progress p s).
Proof. split; [done| |done]. by intros [[] ?]. Qed.

Lemma accounted_settled t b : ~ buffered a (t_buffers t) b -> accounted a t b -> settled (t_batch t) (a, b).
Proof. intros Hb [?|[?|?]]; [by left|by right|done]. Qed.

Lemma handle_sst_ok accepted last_pushed end_of_range threshold t t' : transfer_ok t ->
  handle_sst_progress accepted a last_pushed end_of_range threshold t = Ok t' ->
  rest t' = rest t /\ transfer_ok t' /\ extends (t_batch t) (t_batch t') /\
  (forall b, accounted a t b -> accounted a t' b) /\
  (shard_sync_progress (t_batch t') = shard_sync_progress (t_batch t) \/
   exists id, last_pushed = Some id /\ shard_sync_progress (t_batch t') = Some (mk_sync_progress id a) /\
     forall b, accounted a t b -> settled (t_batch t') (a, b)).
Proof.
  intros Ht. unfold handle_sst_progress. destruct (buffer_of a (t_buffers t)) as [buf|] eqn:Hbuf.
  2: { intros [= <-]. split_and!; [done|done|reflexivity|done|by left]. }
  intros ([[s' buf'] flushed] & Hfl & [= <-])%bind_Ok. unfold flush_sst in Hfl. destruct (negb _).
  - injection Hfl as <- <- <-. split_and!; [done|exact Ht|reflexivity| |by left].
    intros b [?|[?|Hb]]; [by left|by right; left|right; right]. unfold buffered in *. cbn [t_buffers].
    rewrite Hbuf in Hb. by rewrite buffer_set.
  - apply bind_Ok in Hfl as ([s1 buf1] & Hfl & [= -> -> <-]). apply sst_flush_ok in Hfl as (He & Hp & -> & Hst).
    set (s2 := match last_pushed with Some id => _ | None => _ end).
    assert (extends s' s2) as He2 by (unfold s2; destruct last_pushed; [apply set_progress_extends|reflexivity]).
    assert (forall b, accounted a t b -> settled s2 (a, b)) as Hset.
    { intros b Hb. apply (settled_extends s'); [done|]. destruct Hb as [?|[?|Hb]]; [left; by apply He|right; by apply He|].
      left. apply Hst. unfold buffered in Hb. by rewrite Hbuf in Hb. }
    split_and!; [done|exact Ht|by etransitivity| |].
    + intros b [?|?]%Hset; [by left|by right; left].
    + unfold s2 in *. destruct last_pushed as [id|]; [right|by left]. exists id. split_and!; [done|done|]. exact Hset.
Qed.

Lemma sync_request_ok accepted l t t' id' : transfer_ok t ->
  (sst_ingestion_config config = None -> t_buffers t = mk_buffers None None) ->
  sync_request config a accepted l t = Ok (t', id') ->
  transfer_ok t' /\ extends (t_batch t) (t_batch t') /\ id' = fst <$> last l /\
  (sst_ingestion_config config = None -> t_buffers t' = mk_buffers None None) /\
  (forall b, b ∈ rest t \/ accounted a t b -> b ∈ rest t' \/ accounted a t' b) /\
  (forall b, t_next t' = None \/ sst_ingestion_config config = None -> ~ buffered a (t_buffers t') b) /\
  progress_ok (fun b => b ∈ rest t \/ accounted a t b) (t_batch t) (t_batch t').
Proof.
  intros Ht Hplain. unfold sync_request. intros (t1 & Hb & Hok)%bind_Ok.
  apply batch_fetched_ok in Hb as [Hf Hlast]; [|done].
  assert (forall b, b ∈ rest t \/ accounted a t b -> b ∈ rest t1 \/ accounted a t1 b) as Hacc.
  { intros b [Hr|Hacc]; [by apply (fo_rest _ _ Hf)|right].
    destruct Hacc as [?|[?|?]]; [left; by apply (fo_extends _ _ Hf)|right; left; by apply (fo_extends _ _ Hf)|].
    right. right. by apply (fo_buffered _ _ Hf). }
  assert (forall b id, fst <$> last l = Some id -> b ∈ rest t1 -> id_lt id b) as Hgt.
  { intros b id Hid Hr. specialize (Hlast id Hid). rewrite Forall_forall in Hlast. by apply Hlast. }
  destruct (sst_ingestion_config config) as [sst|] eqn:Hsst; apply bind_Ok in Hok as (t2 & Hok & [= <- <-]).
  - pose proof Hok as Hfl. apply handle_sst_ok in Hok as (Hr & Ht2 & He & Ha & Hp); [|apply Hf]. split_and!; [done| |done|done| | |].
    + etransitivity; [apply Hf|done].
    + intros b [?|?]%Hacc; [left; by rewrite Hr|right; by apply Ha].
    + intros b [Hn|?]; [|done]. assert (t_next t1 = None) as Hn1.
      { unfold rest in Hr. rewrite Hn in Hr. by destruct (t_next t1). }
      rewrite Hn1 in Hfl. by eapply sst_flushed.
    + destruct Hp as [Hp|(id & Hid & Hp & Hset)]; [left; rewrite Hp; apply Hf|right].
      exists id. split; [done|]. intros b [Hb|Hb]%Hacc Hnlt; [by destruct Hnlt; apply Hgt|by apply Hset].
  - injection Hok as <-. pose proof (fo_plain _ _ Hf Hsst) as Hbufs. rewrite (Hplain eq_refl) in Hbufs.
    assert (forall b, ~ buffered a (t_buffers t1) b) as Hnb.
    { intros b. rewrite Hbufs. unfold buffered. by destruct a; cbn; apply not_elem_of_nil. }
    destruct (fst <$> last l) as [id|] eqn:Hid; cbn.
    + split_and!; [apply Hf|etransitivity; [apply Hf|apply set_progress_extends]|done|done| |by intros; apply Hnb|].
      * intros b Hb. destruct (Hacc b Hb) as [?|[?|[?|?]]]; [by left| | |]; right;
          [left|right; left|right; right]; done || by destruct a.
      * right. exists id. split; [done|]. intros b Hb Hnlt. apply (settled_extends (t_batch t1)); [apply set_progress_extends|].
        apply Hacc in Hb as [Hb|Hb]; [by destruct Hnlt; apply (Hgt b id)|]. by apply accounted_settled.
    + split_and!; [apply Hf|apply Hf|done|done|done|by intros; apply Hnb|left; apply Hf].
Qed.

End requests.

(** ** Interleavings *)

(** Where a run of [start_sync_shard_before_epoch_impl] is: in the loop over
    requests, after it, between the sliver types, or recovering. *)
Inductive SyncTask :=
| Transferring (a : Axis) (t : Transfer)
| Ending (a : Axis) (t : Transfer)
| Transferred (a : Axis) (bufs : SstBuffers)
| Recovering.

(** The shard, the run if there is one, and the slivers that a recovery gave up:
    their blobs are not certified any more, retired or inconsistent. *)
Record SyncNode := mk_node {
  n_shard : ShardStorage;
  n_task : option SyncTask;
  n_given_up : gset (Axis * BlobId);
}.

(** A transfer continues on the shard as it is now. *)
Definition on_shard (s : ShardStorage) (t : Transfer) : Transfer :=
  mk_transfer s (t_buffers t) (t_next t) (t_iter t).

Section interleavings.
Context `{Build} (config : ShardSyncConfig).

(** The blob info tables, with the epochs to which the shard is synced, that
    runs of the synchronization see. *)
Context (tables : BlobInfoTable -> Epoch -> Prop).

(** Certified whenever a run looks. *)
Definition needed (b : BlobId) : Prop := forall table epoch, tables table epoch ->
  b ∈ certified_blob_info_iter_before_epoch table epoch None.

Definition fresh_buffers (bufs : SstBuffers) : SstBuffers :=
  if is_some (sst_ingestion_config config) then clear_buffers bufs else mk_buffers None None.

Definition transfer_task (directly_recover_shard : bool) (a : Axis) (t : Transfer) : SyncTask :=
  if directly_recover_shard then Ending a t else Transferring a t.

Inductive sync_step : SyncNode -> SyncNode -> Prop :=
| sy_start_primary s g table epoch bufs last directly t : tables table epoch ->
    sync_status_ok s = true -> get_last_sync_status s (status s) = SyncPrimary last ->
    start_transfer table epoch last s (fresh_buffers bufs) = Ok t ->
    sync_step (mk_node s None g) (mk_node s (Some (transfer_task directly Primary t)) g)
| sy_start_secondary s g table epoch bufs last directly t : tables table epoch ->
    sync_status_ok s = true -> get_last_sync_status s (status s) = SyncSecondary last ->
    start_transfer table epoch last s (fresh_buffers bufs) = Ok t ->
    sync_step (mk_node s None g) (mk_node s (Some (transfer_task directly Secondary t)) g)
| sy_start_recovery s g : sync_status_ok s = true -> get_last_sync_status s (status s) = SyncRecovery ->
    sync_step (mk_node s None g) (mk_node s (Some Recovering) g)
| sy_request s g a t accepted l t' id : is_Some (t_next t) ->
    sst_ingestion_config config = None \/ l <> [] ->
    sync_request config a accepted l (on_shard s t) = Ok (t', id) ->
    sync_step (mk_node s (Some (Transferring a t)) g)
      (mk_node (t_batch t') (Some (if is_some id then Transferring a t' else Ending a t')) g)
| sy_loop_ends s g a t : t_next t = None ->
    sync_step (mk_node s (Some (Transferring a t)) g) (mk_node s (Some (Ending a t)) g)
| sy_remaining s g a t :
    sync_step (mk_node s (Some (Ending a t)) g)
      (mk_node (record_remaining a (on_shard s t)) (Some (Transferred a (t_buffers t))) g)
| sy_secondary s g table epoch bufs directly t : tables table epoch ->
    start_transfer table epoch None s bufs = Ok t ->
    sync_step (mk_node s (Some (Transferred Primary bufs)) g) (mk_node s (Some (transfer_task directly Secondary t)) g)
| sy_recovery s g bufs :
    sync_step (mk_node s (Some (Transferred Secondary bufs)) g)
      (mk_node (if bool_decide (pending_recover_slivers s = ∅) then s else enter_recovery s) (Some Recovering) g)
| sy_skip_stored s g a b : is_sliver_type_stored s b a = true ->
    sync_step (mk_node s (Some Recovering) g) (mk_node (skip_recover_blob s a b) (Some Recovering) g)
| sy_skip_uncertified s g a b :
    sync_step (mk_node s (Some Recovering) g) (mk_node (skip_recover_blob s a b) (Some Recovering) (g ∪ {[ (a, b) ]}))
| sy_recover s g a b result :
    sync_step (mk_node s (Some Recovering) g)
      (mk_node (recover_blob s a b result) (Some Recovering)
        match result with Recovered _ | RecoveryFailed => g | _ => g ∪ {[ (a, b) ]} end)
| sy_finish s g : pending_recover_slivers s = ∅ ->
    sync_step (mk_node s (Some Recovering) g) (mk_node (finish_sync s) None g)
| sy_stop s g task : sync_step (mk_node s (Some task) g) (mk_node s None g)
| sy_put_sliver s g task b a x : sync_step (mk_node s task g) (mk_node (put_sliver s b a x) task g)
| sy_delete s g task b : ~ needed b -> sync_step (mk_node s task g) (mk_node (delete_sliver_pair s b) task g)
| sy_new_sync s g : status s <> ShardActive ->
    sync_step (mk_node s None g) (mk_node (record_start_shard_sync s) None g)
| sy_resume s g retry : sync_step (mk_node s None g) (mk_node (shard_status_resume_active_shard_sync s retry).1 None g)
| sy_lock s g task : sync_step (mk_node s task g) (mk_node (lock_shard_for_epoch_change s) task g).

(** ** The invariant *)

Section invariant.
Context (b : BlobId) (Hb : needed b).
Implicit Types (s : ShardStorage) (g : gset (Axis * BlobId)) (a : Axis).

(** The sliver is stored, pending, or given up. *)
Definition handled_sliver g s a : Prop := settled s (a, b) \/ (a, b) ∈ g.

Definition primary_before g s a : Prop := a = Secondary -> handled_sliver g s Primary.

Record shard_inv g s : Prop := {
  si_recover : shard_status s = Some ActiveRecover -> forall a, handled_sliver g s a;
  si_progress p : shard_sync_progress s = Some p -> primary_before g s (synced_sliver_type p) /\
    (~ id_lt (last_synced_blob_id p) b -> handled_sliver g s (synced_sliver_type p));
  si_active : shard_status s = Some ShardActive -> forall a, stored s (a, b) \/ (a, b) ∈ g;
}.

Definition transfer_inv g s a (t : Transfer) : Prop :=
  transfer_ok t /\ primary_before g s a /\
  (sst_ingestion_config config = None -> t_buffers t = mk_buffers None None).

Definition task_inv g s (task : SyncTask) : Prop :=
  match task with
  | Transferring a t => transfer_inv g s a t /\
      (b ∈ rest t \/ accounted a (on_shard s t) b \/ (a, b) ∈ g) /\
      (t_next t = None -> handled_sliver g s a)
  | Ending a t => transfer_inv g s a t /\ (b ∈ rest t \/ handled_sliver g s a)
  | Transferred a bufs => primary_before g s a /\ handled_sliver g s a /\
      (sst_ingestion_config config = None -> bufs = mk_buffers None None)
  | Recovering => forall a, handled_sliver g s a
  end.

Definition sync_inv (c : SyncNode) : Prop :=
  shard_inv (n_given_up c) (n_shard c) /\ from_option (task_inv (n_given_up c) (n_shard c)) True (n_task c).

Lemma handled_mono g g' s s' a : extends s s' -> g ⊆ g' -> handled_sliver g s a -> handled_sliver g' s' a.
Proof. intros He Hg [Hs|Hs]; [left; by eapply settled_extends|right; set_solver]. Qed.

Lemma primary_mono g g' s s' a : extends s s' -> g ⊆ g' -> primary_before g s a -> primary_before g' s' a.
Proof. intros He Hg Hp Ha. by eapply handled_mono; [..|apply Hp]. Qed.

Lemma shard_inv_mono g g' s s' : extends s s' -> g ⊆ g' -> shard_sync_progress s' = shard_sync_progress s ->
  shard_inv g s -> shard_inv g' s'.
Proof.
  intros He Hg Hp [H1 H2 H3]. split; rewrite ?(ext_status _ _ He).
  - intros Hr a. by eapply handled_mono; [..|apply H1].
  - intros p. rewrite Hp. intros [Hpr Hle]%H2. split; [by eapply primary_mono|].
    intros Hn. by eapply handled_mono; [..|apply Hle].
  - intros Ha a. destruct (H3 Ha a); [left; by apply He|right; set_solver].
Qed.

Lemma accounted_mono a s s' t : extends s s' -> accounted a (on_shard s t) b -> accounted a (on_shard s' t) b.
Proof. intros He [?|[?|?]]; [left; by apply He|right; left; by apply He|by right; right]. Qed.

Lemma task_inv_mono g g' s s' task : extends s s' -> g ⊆ g' -> task_inv g s task -> task_inv g' s' task.
Proof.
  intros He Hg. destruct task as [a t|a t|a bufs|]; cbn; unfold transfer_inv.
  - intros ((Ht & Hp & Hc) & Hr & Hn). split_and!; [done|by eapply primary_mono|done| |].
    + destruct Hr as [?|[?|?]]; [by left|right; left; by eapply accounted_mono|right; right; set_solver].
    + intros Hnone. by eapply handled_mono; [..|apply Hn].
  - intros ((Ht & Hp & Hc) & Hr). split_and!; [done|by eapply primary_mono|done|].
    destruct Hr; [by left|right; by eapply handled_mono].
  - intros (Hp & Hh & Hc). split_and!; [by eapply primary_mono|by eapply handled_mono|done].
  - intros Hh a. by eapply handled_mono.
Qed.

Lemma sync_inv_mono g g' s s' task : extends s s' -> g ⊆ g' -> shard_sync_progress s' = shard_sync_progress s ->
  sync_inv (mk_node s task g) -> sync_inv (mk_node s' task g').
Proof.
  intros He Hg Hp [Hs Ht]. split; [by eapply shard_inv_mono|]. destruct task; [|done]. by eapply task_inv_mono.
Qed.

(** A transfer starts with every needed blob to come, or settled before. *)
Lemma start_transfer_inv g s a table epoch last bufs t directly : tables table epoch ->
  start_transfer table epoch last s bufs = Ok t -> primary_before g s a ->
  (sst_ingestion_config config = None -> bufs = mk_buffers None None) ->
  (forall l, last = Some l -> ~ id_lt l b -> handled_sliver g s a) ->
  task_inv g s (transfer_task directly a t).
Proof.
  intros Htab Hstart Hp Hbufs Hlast. unfold start_transfer in Hstart.
  set (L := certified_blob_info_iter_before_epoch table epoch last) in *.
  assert (StronglySorted id_lt L) as Hsort by apply certified_sorted.
  assert (transfer_ok t /\ rest t = L /\ t_buffers t = bufs) as (Hok & Hr & <-).
  { destruct (iter_next L) as [n it] eqn:Hit. apply bind_Ok in Hstart as (_ & _ & [= <-]).
    destruct L as [|x L]; injection Hit as <- <-; (split_and!; [split; [done|by intros]|done|done]). }
  assert (b ∈ rest t \/ handled_sliver g s a) as Hb'.
  { rewrite Hr. unfold L. destruct last as [l|]; [|left; by apply Hb].
    destruct (key_ltb l b) eqn:Hlt; [left|right; apply (Hlast l eq_refl); unfold id_lt; congruence].
    specialize (Hb table epoch Htab). apply elem_of_certified in Hb as [_ Hc]. apply elem_of_certified. split; [|done].
    by intros ? [= <-]. }
  destruct directly; cbn; unfold transfer_inv; (split; [done|]); [done|]. split.
  - destruct Hb' as [?|[[?|?]|?]]; [by left|right; left; by left|right; left; by right; left|by right; right].
  - intros Hn. destruct Hb' as [Hin|]; [|done]. unfold rest in Hin. rewrite Hn in Hin. by apply not_elem_of_nil in Hin.
Qed.

Lemma last_sync_secondary s l : get_last_sync_status s (status s) = SyncSecondary l ->
  exists p, shard_sync_progress s = Some p /\ synced_sliver_type p = Secondary /\ l = Some (last_synced_blob_id p).
Proof.
  unfold get_last_sync_status. case_bool_decide; [done|]. destruct (shard_sync_progress s) as [p|]; [|done].
  destruct (synced_sliver_type p) eqn:Hp; [done|]. intros [= <-]. by exists p.
Qed.

Lemma last_sync_primary s l : get_last_sync_status s (status s) = SyncPrimary (Some l) ->
  exists p, shard_sync_progress s = Some p /\ synced_sliver_type p = Primary /\ l = last_synced_blob_id p.
Proof.
  unfold get_last_sync_status. case_bool_decide; [done|]. destruct (shard_sync_progress s) as [p|]; [|done].
  destruct (synced_sliver_type p) eqn:Hp; [|done]. intros [= <-]. by exists p.
Qed.

Lemma last_sync_recovery s : get_last_sync_status s (status s) = SyncRecovery -> shard_status s = Some ActiveRecover.
Proof.
  unfold get_last_sync_status, status. case_bool_decide as Hs; [|by destruct (shard_sync_progress s) as [[? []]|]].
  destruct (shard_status s); cbn in Hs; congruence.
Qed.

Lemma fresh_plain bufs : sst_ingestion_config config = None -> fresh_buffers bufs = mk_buffers None None.
Proof. unfold fresh_buffers. by intros ->. Qed.

(** The progress that a request recorded. *)
Lemma progress_inv g s s' a P : extends s s' -> primary_before g s a -> shard_inv g s ->
  progress_ok a P s s' -> P b \/ (a, b) ∈ g -> shard_inv g s'.
Proof.
  intros He Hp Hinv [Hsame|(id & Hpr & Hset)] HP; [by eapply shard_inv_mono|].
  destruct Hinv as [H1 H2 H3]. split; rewrite ?(ext_status _ _ He).
  - intros Hr a'. eapply handled_mono; [done|reflexivity|]. by apply H1.
  - intros p. rewrite Hpr. intros [= <-]. cbn. split; [by eapply primary_mono|].
    intros Hn. destruct HP; [left; by apply Hset|by right].
  - intros Ha a'. destruct (H3 Ha a'); [left; by apply He|by right].
Qed.

Lemma request_inv g s a t accepted l t' id : is_Some (t_next t) ->
  sst_ingestion_config config = None \/ l <> [] ->
  sync_request config a accepted l (on_shard s t) = Ok (t', id) ->
  sync_inv (mk_node s (Some (Transferring a t)) g) ->
  sync_inv (mk_node (t_batch t') (Some (if is_some id then Transferring a t' else Ending a t')) g).
Proof.
  intros Hn Hsst Hreq (Hs & (Ht & Hp & Hbufs) & Hr & _).
  apply sync_request_ok in Hreq as (Ht' & He & Hid & Hbufs' & Hrest & Hnb & Hprog); [|done|done].
  assert (b ∈ rest t' \/ accounted a t' b \/ (a, b) ∈ g) as Hr'.
  { destruct Hr as [Hr|[Hr|Hr]]; [| |by right; right].
    - destruct (Hrest b (or_introl Hr)); [by left|by right; left].
    - destruct (Hrest b (or_intror Hr)); [by left|by right; left]. }
  assert (t_next t' = None \/ sst_ingestion_config config = None -> b ∈ rest t' \/ handled_sliver g (t_batch t') a) as Hset.
  { intros Hc. destruct Hr' as [?|[Hacc|?]]; [by left|right; left|by right; right].
    apply accounted_settled; [by apply Hnb|done]. }
  split; cbn.
  - eapply progress_inv; [done|done|done|exact Hprog|]. destruct Hr as [?|[?|?]]; [by left; left|by left; right|by right].
  - assert (transfer_inv g (t_batch t') a t') as Hti by (split_and!; [done|by eapply primary_mono|done]).
    assert (t_next t' = None -> handled_sliver g (t_batch t') a) as Hend.
    { intros Hn'. destruct Hset as [Hin|]; [by left| |done]. unfold rest in Hin. rewrite Hn' in Hin. by apply not_elem_of_nil in Hin. }
    destruct id as [id|]; cbn; (split; [done|]); [done|]. apply Hset.
    destruct Hsst as [|Hl]; [by right|]. destruct l as [|x l]; [done|]. exfalso.
    destruct (last (x :: l)) eqn:Hlast; [by rewrite ?Hlast in Hid|]. by apply last_None in Hlast.
Qed.

(** Changes of the status, the progress and other blobs. *)
Lemma status_inv g s s' task : (forall a, stored s' (a, b) <-> stored s (a, b)) ->
  pending_recover_slivers s' = pending_recover_slivers s ->
  (forall p, shard_sync_progress s' = Some p -> shard_sync_progress s = Some p) ->
  (shard_status s' = Some ActiveRecover -> shard_status s = Some ActiveRecover \/ forall a, handled_sliver g s a) ->
  (shard_status s' = Some ShardActive -> shard_status s = Some ShardActive \/
     forall a, stored s (a, b) \/ (a, b) ∈ g) ->
  sync_inv (mk_node s task g) -> sync_inv (mk_node s' task g).
Proof.
  intros Hst Hpe Hprog Hrec Hact [[H1 H2 H3] Ht].
  assert (forall a, handled_sliver g s' a <-> handled_sliver g s a) as Hh.
  { intros a. unfold handled_sliver, settled. by rewrite Hst, Hpe. }
  assert (forall a, primary_before g s' a <-> primary_before g s a) as Hpb.
  { intros a. unfold primary_before. by rewrite Hh. }
  split; cbn in *; [split|].
  - intros Hr a. apply Hh. destruct (Hrec Hr) as [?|?]; auto.
  - intros p [Hp1 Hp2]%Hprog%H2. rewrite Hpb, Hh. done.
  - intros Ha a. rewrite Hst. destruct (Hact Ha) as [?|?]; auto.
  - destruct task as [[a t|a t|a bufs|]|]; cbn in *; unfold transfer_inv, accounted in *; cbn in *;
      rewrite ?Hpb, ?Hh, ?Hst, ?Hpe; try done. intros a. by apply Hh.
Qed.

Lemma skip_inv g g' s a b' task : g ⊆ g' -> (b' = b -> stored s (a, b) \/ (a, b) ∈ g') ->
  sync_inv (mk_node s (Some Recovering) g) -> task = Recovering ->
  sync_inv (mk_node (skip_recover_blob s a b') (Some task) g').
Proof.
  intros Hg Hskip [[H1 H2 H3] Ht] ->.
  assert (forall x, stored (skip_recover_blob s a b') x <-> stored s x) as Hst by by intros [[] x].
  assert (forall a', handled_sliver g s a' -> handled_sliver g' (skip_recover_blob s a b') a') as Hh.
  { intros a' [[?|Hp]|?]; [left; by left; apply Hst| |right; set_solver].
    destruct (decide ((a', b) = (a, b'))) as [[= -> <-]|Hne].
    - destruct (Hskip eq_refl); [left; by left; apply Hst|by right].
    - left. right. cbn. set_solver. }
  split; cbn in *; [split|].
  - intros _ a'. apply Hh, Ht.
  - intros p [Hp1 Hp2]%H2. split; [intros Ha; apply Hh, Ht|intros _; apply Hh, Ht].
  - intros Ha a'. rewrite Hst. destruct (H3 Ha a'); [by left|right; set_solver].
  - intros a'. apply Hh, Ht.
Qed.

Lemma remaining_inv g s a t : sync_inv (mk_node s (Some (Ending a t)) g) ->
  sync_inv (mk_node (record_remaining a (on_shard s t)) (Some (Transferred a (t_buffers t))) g).
Proof.
  intros (Hs & (Ht & Hp & Hbufs) & Hr). set (s' := record_remaining a (on_shard s t)).
  assert (extends s s') as He.
  { unfold s', record_remaining. cbn. destruct (t_next t); [|reflexivity]. apply pending_extends. set_solver. }
  assert (shard_sync_progress s' = shard_sync_progress s) as Hpr.
  { unfold s', record_remaining. cbn. by destruct (t_next t). }
  split; cbn; [by eapply shard_inv_mono|]. split_and!; [by eapply primary_mono| |done].
  destruct Hr as [Hr|Hr]; [|by eapply handled_mono]. left. right.
  unfold s', record_remaining, rest, on_shard in *. cbn [t_next t_batch t_iter].
  destruct (t_next t) as [n|]; [|by apply not_elem_of_nil in Hr]. cbn [pending_recover_slivers set_pending].
  apply elem_of_union_r. rewrite elem_of_list_to_set. apply list_elem_of_fmap. by exists b.
Qed.

Lemma finish_inv g s : pending_recover_slivers s = ∅ -> sync_inv (mk_node s (Some Recovering) g) ->
  sync_inv (mk_node (finish_sync s) None g).
Proof.
  intros Hp Hinv. assert (forall a, stored s (a, b) \/ (a, b) ∈ g) as Hall.
  { assert (forall a, handled_sliver g s a) as Ht by exact (proj2 Hinv). intros a.
    destruct (Ht a) as [[?|Hin]|?]; [by left| |by right]. rewrite Hp in Hin. set_solver. }
  assert (sync_inv (mk_node s None g)) as Hinv' by by destruct Hinv.
  revert Hinv'. unfold finish_sync. destruct (_ || _); apply status_inv; cbn; try done.
  - by right.
  - by left.
  - by left.
Qed.

Lemma resume_inv g s retry : sync_inv (mk_node s None g) ->
  sync_inv (mk_node (shard_status_resume_active_shard_sync s retry).1 None g).
Proof.
  unfold shard_status_resume_active_shard_sync. destruct retry; [|done]. case_bool_decide; [|done].
  by apply status_inv.
Qed.

(** Every step keeps the invariant. *)
Lemma sync_step_inv c c' : sync_step c c' -> sync_inv c -> sync_inv c'.
Proof.
  intros Hstep Hinv.
  destruct Hstep as [s g table epoch bufs l d t Htab Hst Hl Ht|s g table epoch bufs l d t Htab Hst Hl Ht|s g Hst Hl
    |s g a t acc l t' id Hn Hsst Hreq|s g a t Hn|s g a t|s g table epoch bufs d t Htab Ht|s g bufs|s g a b' Hs|s g a b'
    |s g a b' r|s g Hp|s g task|s g task b' a x|s g task b' Hn|s g Hst|s g retry|s g task].
  - destruct Hinv as [Hs _]. split; [done|]. eapply start_transfer_inv; [exact Htab|exact Ht|done|apply fresh_plain|].
    intros l' -> Hle. apply last_sync_primary in Hl as (p & Hp & Ha & ->).
    destruct (si_progress _ _ Hs p Hp) as [_ Hh]. rewrite Ha in Hh. by apply Hh.
  - destruct Hinv as [Hs _]. apply last_sync_secondary in Hl as (p & Hp & Ha & ->).
    destruct (si_progress _ _ Hs p Hp) as [Hpb Hh]. rewrite Ha in Hpb, Hh. split; [done|].
    eapply start_transfer_inv; [exact Htab|exact Ht|exact Hpb|apply fresh_plain|]. by intros l' [= <-].
  - destruct Hinv as [Hs _]. split; [done|]. apply last_sync_recovery in Hl. exact (si_recover _ _ Hs Hl).
  - by eapply request_inv.
  - destruct Hinv as (Hs & Ht & Hr & Hend). split; [done|]. split; [exact Ht|]. right. by apply Hend.
  - by apply remaining_inv.
  - destruct Hinv as (Hs & _ & Hh & Hbufs). split; [done|].
    eapply start_transfer_inv; [exact Htab|exact Ht|by intros _|exact Hbufs|done].
  - destruct Hinv as (Hs & Hpb & Hh & _).
    assert (forall a, handled_sliver g s a) as Hall by (intros []; [by apply Hpb|exact Hh]).
    assert (sync_inv (mk_node s (Some Recovering) g)) as Hinv' by by split.
    case_bool_decide; [done|]. revert Hinv'. unfold enter_recovery. case_bool_decide; [|done].
    apply status_inv; cbn; try done. by right.
  - eapply (skip_inv g g); [done| |exact Hinv|done]. intros ->. left. unfold stored, get_sliver, is_sliver_type_stored in *.
    destruct (slivers_of a s !! b) eqn:Hg; [|done]. cbn. rewrite Hg. by eexists.
  - eapply (skip_inv g); [set_solver| |exact Hinv|done]. intros ->. right. set_solver.
  - destruct r as [|x| |]; [| | |done].
    + eapply (skip_inv g); [set_solver| |exact Hinv|done]. intros ->. right. set_solver.
    + apply (skip_inv g g); [done| | |done].
      * intros ->. left. apply put_stored.
      * eapply sync_inv_mono; [apply put_extends|done|by destruct a|exact Hinv].
    + eapply (skip_inv g); [set_solver| |exact Hinv|done]. intros ->. right. set_solver.
  - by apply finish_inv.
  - by destruct Hinv.
  - eapply sync_inv_mono; [apply put_extends|done|by destruct a|exact Hinv].
  - revert Hinv. apply status_inv; cbn; try done; try by left. intros a. assert (b' <> b) as Hne by (intros ->; by apply Hn).
    unfold stored, get_sliver. destruct a; cbn; by rewrite lookup_delete_ne.
  - revert Hinv. by apply status_inv.
  - by apply resume_inv.
  - revert Hinv. by apply status_inv.
Qed.

End invariant.
End interleavings.

(** ** Runs of the code are sequences of steps *)

(** The recovery gives a sliver up. *)
Definition gives_up (result : option RecoveryResult) : bool :=
  match result with None | Some BlobRetired | Some Inconsistent => true | _ => false end.

Section runs.
Context `{Build} (config : ShardSyncConfig) (Hsst : sst_ingestion_config config = None).
Context (tables : BlobInfoTable -> Epoch -> Prop) (table : BlobInfoTable) (epoch : Epoch) (Htab : tables table epoch).
Implicit Types (s : ShardStorage) (g : gset (Axis * BlobId)) (t : Transfer).

Let steps := rtc (sync_step config tables).

Lemma on_own_shard t : on_shard (t_batch t) t = t.
Proof. by destruct t. Qed.

Lemma remaining_step a t g : sync_step config tables (mk_node (t_batch t) (Some (Ending a t)) g)
  (mk_node (record_remaining a t) (Some (Transferred a (t_buffers t))) g).
Proof. pose proof (sy_remaining config tables (t_batch t) g a t) as Hr. by rewrite on_own_shard in Hr. Qed.

Lemma requests_steps fuel a owner t t' g : sync_requests fuel config a owner t = Ok t' ->
  steps (mk_node (t_batch t) (Some (Transferring a t)) g) (mk_node (t_batch t') (Some (Ending a t')) g).
Proof.
  revert t. induction fuel as [|fuel IH]; intros t; cbn [sync_requests]; (destruct (t_next t) as [n|] eqn:Hn;
    [|intros [= <-]; by apply rtc_once, sy_loop_ends]); [done|].
  intros (l & _ & Hrun)%bind_Ok. apply bind_Ok in Hrun as ([t1 id] & Hreq & Hrun). eapply rtc_l.
  - apply (sy_request config tables (t_batch t) g a t true l t1 id); [by rewrite Hn|by left|by rewrite on_own_shard].
  - destruct id as [id|]; [by apply IH|]. injection Hrun as <-. apply rtc_refl.
Qed.

Lemma internal_steps fuel a last directly owner s bufs s' bufs' g task :
  (forall t, start_transfer table epoch last s bufs = Ok t ->
     sync_step config tables (mk_node s task g) (mk_node s (Some (transfer_task directly a t)) g)) ->
  sync_shard_before_epoch_internal fuel table epoch a last config directly owner s bufs = Ok (s', bufs') ->
  steps (mk_node s task g) (mk_node s' (Some (Transferred a bufs')) g).
Proof.
  intros Hstart. unfold sync_shard_before_epoch_internal. intros (t & Ht & Hrun)%bind_Ok.
  apply bind_Ok in Hrun as (t' & Hreq & [= <- <-]). eapply rtc_l; [by apply Hstart|].
  assert (t_batch t = s) as Hbs.
  { unfold start_transfer in Ht. destruct (iter_next _) as [n it]. by apply bind_Ok in Ht as (_ & _ & [= <-]). }
  destruct directly; cbn [transfer_task].
  - injection Hreq as <-. rewrite <- Hbs. apply rtc_once, remaining_step.
  - eapply rtc_r; [rewrite <- Hbs; by eapply requests_steps|apply remaining_step].
Qed.

Lemma recover_round_steps results l s g : exists g',
  steps (mk_node s (Some Recovering) g) (mk_node (foldl (recover_missing_blob results) s l) (Some Recovering) g') /\
  forall x, x ∈ g' -> x ∈ g \/ gives_up (results x) = true.
Proof.
  revert s g. induction l as [|[a b] l IH]; intros s g; [exists g; split; [apply rtc_refl|by left]|]. cbn [foldl].
  assert (exists g1, sync_step config tables (mk_node s (Some Recovering) g)
    (mk_node (recover_missing_blob results s (a, b)) (Some Recovering) g1) /\
    forall x, x ∈ g1 -> x ∈ g \/ gives_up (results x) = true) as (g1 & Hstep & Hg1).
  { unfold recover_missing_blob. cbn [fst snd].
    destruct (is_sliver_type_stored s b a) eqn:Hs; [exists g; split; [by apply sy_skip_stored|by left]|].
    destruct (results (a, b)) as [r|] eqn:Hr; eexists; (split; [apply sy_recover || apply sy_skip_uncertified|]).
    - intros x Hx. destruct r; try (by left); (apply elem_of_union in Hx as [?|Hx%elem_of_singleton];
        [by left|subst x; right; by rewrite Hr]).
    - intros x [?|Hx%elem_of_singleton]%elem_of_union; [by left|subst x; right; by rewrite Hr]. }
  destruct (IH (recover_missing_blob results s (a, b)) g1) as (g' & Hg' & Hx). exists g'. split; [by eapply rtc_l|].
  intros x [?|?]%Hx; [by apply Hg1|by right].
Qed.

Lemma rounds_steps rounds s s' g : recovery_rounds rounds s = Ok s' -> exists g',
  steps (mk_node s (Some Recovering) g) (mk_node s' (Some Recovering) g') /\ pending_recover_slivers s' = ∅ /\
  forall x, x ∈ g' -> x ∈ g \/ exists results, results ∈ rounds /\ gives_up (results x) = true.
Proof.
  revert s g. induction rounds as [|results rounds IH]; intros s g; cbn [recovery_rounds]; [done|].
  destruct (recover_round_steps results (elements (pending_recover_slivers s)) s g) as (g1 & H1 & Hg1).
  fold (recover_missing_blobs results s) in H1. case_bool_decide as Hp.
  - intros [= <-]. exists g1. split_and!; [done|done|]. intros x [?|?]%Hg1; [by left|right; exists results; split; [left|done]].
  - intros Hr. destruct (IH _ g1 Hr) as (g' & H2 & He & Hg'). exists g'. split_and!; [by etransitivity|done|].
    intros x [[?|?]%Hg1|(r & Hin & Hx)]%Hg'; [by left|right; exists results; by split; [left|]|right; exists r; by split; [right|]].
Qed.

Lemma start_transfer_ok last s bufs t : start_transfer table epoch last s bufs = Ok t ->
  transfer_ok t /\ t_batch t = s /\ t_buffers t = bufs.
Proof.
  unfold start_transfer. pose proof (certified_sorted table epoch last) as Hsort.
  destruct (certified_blob_info_iter_before_epoch table epoch last) as [|n it]; cbn [iter_next];
    intros (_ & _ & [= <-])%bind_Ok; (split; [split; [done|by intros]|done]).
Qed.

(** The status during a run. *)
Lemma requests_status fuel a owner t t' : transfer_ok t -> t_buffers t = mk_buffers None None ->
  sync_requests fuel config a owner t = Ok t' -> shard_status (t_batch t') = shard_status (t_batch t) /\ t_buffers t' = mk_buffers None None.
Proof.
  revert t. induction fuel as [|fuel IH]; intros t Ht Hb; cbn [sync_requests]; (destruct (t_next t) as [n|] eqn:Hn;
    [|by intros [= <-]]); [done|].
  intros (l & _ & Hrun)%bind_Ok. apply bind_Ok in Hrun as ([t1 id] & Hreq & Hrun).
  apply sync_request_ok in Hreq as (Ht1 & He & _ & Hb1 & _); [|done|done]. specialize (Hb1 Hsst).
  destruct id as [id|]; [|injection Hrun as <-; by split; [apply He|]].
  destruct (IH t1 Ht1 Hb1 Hrun) as [-> Hb']. by split; [apply He|].
Qed.

Lemma internal_status fuel a last directly owner s s' bufs' :
  sync_shard_before_epoch_internal fuel table epoch a last config directly owner s (mk_buffers None None) = Ok (s', bufs') ->
  shard_status s' = shard_status s /\ bufs' = mk_buffers None None.
Proof.
  unfold sync_shard_before_epoch_internal. intros (t & Ht & Hrun)%bind_Ok.
  apply bind_Ok in Hrun as (t' & Hreq & [= <- <-]).
  destruct (start_transfer_ok _ _ _ _ Ht) as (Hok & Hbs & Hb).
  assert (shard_status (t_batch t') = shard_status (t_batch t) /\ t_buffers t' = mk_buffers None None) as [Hst Hbufs].
  { destruct directly; [by injection Hreq as <-|by eapply requests_status]. }
  split; [|done]. rewrite <- Hbs, <- Hst. unfold record_remaining. by destruct (t_next t').
Qed.

Lemma rounds_status rounds s s' : recovery_rounds rounds s = Ok s' -> shard_status s' = shard_status s.
Proof.
  assert (forall results l s, shard_status (foldl (recover_missing_blob results) s l) = shard_status s) as Hl.
  { intros results l. induction l as [|[a b] l IH]; intros s1; [done|]. cbn [foldl]. rewrite IH. unfold recover_missing_blob.
    destruct (is_sliver_type_stored _ _ _); [done|]. destruct (results (a, b)) as [[]|]; try done. by destruct a. }
  revert s. induction rounds as [|r rounds IH]; intros s; cbn [recovery_rounds]; [done|].
  unfold recover_missing_blobs. case_bool_decide; [intros [= <-]; apply Hl|]. intros Hr. by rewrite (IH _ Hr), Hl.
Qed.

Lemma sync_run_steps fuel directly owner rounds s s' bufs' g :
  start_sync_shard_before_epoch_impl fuel table epoch config directly owner rounds s (mk_buffers None None) = Ok (s', bufs') ->
  exists g', steps (mk_node s None g) (mk_node s' None g') /\ pending_recover_slivers s' = ∅ /\
    forall x, x ∈ g' -> x ∈ g \/ exists results, results ∈ rounds /\ gives_up (results x) = true.
Proof.
  unfold start_sync_shard_before_epoch_impl. rewrite Hsst. cbn [is_some].
  destruct (sync_status_ok s) eqn:Hok; [cbn [assert mbind outcome_bind]|done].
  intros ([s1 bufs1] & Hsync & Hrest)%bind_Ok. apply bind_Ok in Hrest as (s2 & Hrec & [= <- <-]). cbn [fst snd] in Hrec.
  set (s1' := if bool_decide (pending_recover_slivers s1 = ∅) then s1 else enter_recovery s1).
  assert (steps (mk_node s None g) (mk_node s1' (Some Recovering) g)) as Hreach.
  { assert (forall bufs, fresh_buffers config bufs = mk_buffers None None) as Hfresh by (intros; by apply fresh_plain).
    destruct (get_last_sync_status s (status s)) as [last|last|] eqn:Hl.
    - apply bind_Ok in Hsync as ([s0 bufs0] & H1 & H2). cbn [fst snd] in H1, H2.
      eapply rtc_r; [|apply (sy_recovery config tables s1 g bufs1)]. etransitivity.
      + eapply internal_steps; [|exact H1]. intros t Ht.
        apply (sy_start_primary config tables s g table epoch (mk_buffers None None) last); [done..|by rewrite Hfresh].
      + eapply internal_steps; [|exact H2]. intros t Ht. by apply (sy_secondary config tables s0 g table epoch bufs0).
    - eapply rtc_r; [|apply (sy_recovery config tables s1 g bufs1)]. eapply internal_steps; [|exact Hsync]. intros t Ht.
      apply (sy_start_secondary config tables s g table epoch (mk_buffers None None) last); [done..|by rewrite Hfresh].
    - injection Hsync as <- <-. apply rtc_once. replace s1' with s; [by apply sy_start_recovery|].
      unfold s1', enter_recovery. rewrite (last_sync_recovery s Hl). by case_bool_decide. }
  unfold recovery_any_missing_slivers in Hrec. unfold s1' in Hreach. clear s1'. case_bool_decide as Hp.
  - injection Hrec as <-. exists g. split_and!; [eapply rtc_r; [exact Hreach|by apply sy_finish]| |by left].
    unfold finish_sync. by destruct (_ || _).
  - destruct (rounds_steps rounds _ _ g Hrec) as (g' & Hg & He & Hx). exists g'.
    split_and!; [eapply rtc_r; [etransitivity; [exact Hreach|exact Hg]|by apply sy_finish]| |done].
    unfold finish_sync. by destruct (_ || _).
Qed.

Lemma sync_run_active fuel directly owner rounds s s' bufs' :
  start_sync_shard_before_epoch_impl fuel table epoch config directly owner rounds s (mk_buffers None None) = Ok (s', bufs') ->
  shard_status s = Some ActiveSync -> status s' = ShardActive /\ shard_sync_progress s' = None.
Proof.
  unfold start_sync_shard_before_epoch_impl. rewrite Hsst. cbn [is_some].
  destruct (sync_status_ok s); [cbn [assert mbind outcome_bind]|done].
  intros ([s1 bufs1] & Hsync & Hrest)%bind_Ok Hst. apply bind_Ok in Hrest as (s2 & Hrec & [= <- <-]). cbn [fst snd] in Hrec.
  assert (shard_status s1 = Some ActiveSync) as Hs1.
  { destruct (get_last_sync_status s (status s)) as [last|last|]; cbn [fst snd] in Hsync.
    - apply bind_Ok in Hsync as ([s0 bufs0] & H1 & H2). apply internal_status in H1 as [H1 ->].
      cbn [fst snd] in H2. apply internal_status in H2 as [H2 _]. congruence.
    - apply internal_status in Hsync as [H1 _]. congruence.
    - injection Hsync as <- _. done. }
  assert (shard_status s2 = Some ActiveSync \/ shard_status s2 = Some ActiveRecover) as Hs2.
  { unfold recovery_any_missing_slivers in Hrec. case_bool_decide; [injection Hrec as <-; by left|]. right.
    rewrite (rounds_status _ _ _ Hrec). unfold enter_recovery. by rewrite bool_decide_true. }
  unfold finish_sync, status. destruct Hs2 as [-> | ->]; by rewrite ?bool_decide_true, ?orb_true_r by done.
Qed.

End runs.

(** ** What the synchronization promises *)

Section promises.
Context `{Build} (config : ShardSyncConfig).

Lemma start_inv tables s b : needed tables b -> sync_inv config b (mk_node (record_start_shard_sync s) None ∅).
Proof. intros Hb. split; [|done]. by split. Qed.

Lemma steps_inv tables b c c' : needed tables b -> rtc (sync_step config tables) c c' -> sync_inv config b c -> sync_inv config b c'.
Proof. intros Hb. induction 1; [done|]. intros Hinv. eauto using sync_step_inv. Qed.

Lemma active_complete b c a : sync_inv config b c -> status (n_shard c) = ShardActive ->
  stored (n_shard c) (a, b) \/ (a, b) ∈ n_given_up c.
Proof.
  intros [Hs _] Hact. apply (si_active _ _ _ Hs). unfold status in Hact. by destruct (shard_status (n_shard c)); cbn in Hact; subst.
Qed.

(** C9: a shard that was synchronized is only marked active when it is
    complete.  Whatever the previous owner sends, and whatever errors, restarts,
    retries, uploads and status changes come in between, an active shard stores
    both slivers of every blob that was certified whenever the synchronization
    looked, apart from slivers that a recovery gave up because their blob was not
    certified any more, retired or proven inconsistent.  With SST ingestion this
    needs that the owner does not answer with an empty list. *)
Theorem active_shard_is_complete tables s c b a :
  rtc (sync_step config tables) (mk_node (record_start_shard_sync s) None ∅) c -> needed tables b ->
  status (n_shard c) = ShardActive -> stored (n_shard c) (a, b) \/ (a, b) ∈ n_given_up c.
Proof. intros Hrun Hb. apply active_complete. by eapply steps_inv, start_inv. Qed.

(** A run of the synchronization that returns leaves an active shard with
    nothing pending and without recorded progress; every certified blob has its
    slivers on it, except where a round of the recovery gave a sliver up. *)
Theorem sync_run_is_complete fuel table epoch directly owner rounds s s' bufs :
  sst_ingestion_config config = None ->
  start_sync_shard_before_epoch_impl fuel table epoch config directly owner rounds (record_start_shard_sync s)
    (mk_buffers None None) = Ok (s', bufs) ->
  status s' = ShardActive /\ pending_recover_slivers s' = ∅ /\ shard_sync_progress s' = None /\
  forall b a, b ∈ certified_blob_info_iter_before_epoch table epoch None ->
    stored s' (a, b) \/ exists results, results ∈ rounds /\ gives_up (results (a, b)) = true.
Proof.
  intros Hsst Hrun. set (tables t e := t = table /\ e = epoch).
  destruct (sync_run_steps config Hsst tables table epoch (conj eq_refl eq_refl) _ _ _ _ _ _ _ ∅ Hrun) as (g & Hsteps & Hp & Hg).
  destruct (sync_run_active config Hsst table epoch _ _ _ _ _ _ _ Hrun eq_refl) as [Hact Hpr].
  split_and!; [done|done|done|]. intros b a Hb.
  assert (needed tables b) as Hn by by intros t e [-> ->].
  destruct (active_complete b (mk_node s' None g) a) as [?|Hx]; [by eapply steps_inv, start_inv|done|by left|].
  apply Hg in Hx as [?|?]; [set_solver|by right].
Qed.

End promises.
