(* ===== verification/ShardTransfer.v ===== *)
(** * Transferring a shard from an owner that has it

    The loop over requests of the new owner against [handle_sync_shard_request]
    of the previous one, when both know the same certified blobs: every sliver
    that the owner has is copied, exactly the others are pending, and there are at
    most as many requests as certified blobs. *)

From stdpp Require Import sorting.
From S2P Require Import Prelude Core Symbols Metadata Slivers.
From S2P Require Import PermBlobInfo BlobInfoV1 BlobInfoV2 BlobInfoTable Batches EventCursor.
From S2P Require Import NodeStorage ShardSync ShardSyncProps.

(** ** Suffixes of the certified blobs *)

Lemma filter_fmap {A B} (f : A -> B) (p : B -> bool) (q : A -> bool) l : (forall x, q x = p (f x)) ->
  f <$> List.filter q l = List.filter p (f <$> l).
Proof. intros Hq. induction l as [|x l IH]; [done|]. cbn. rewrite Hq. destruct (p (f x)); cbn; by rewrite IH. Qed.

Lemma filter_comm {A} (p q : A -> bool) l : List.filter p (List.filter q l) = List.filter q (List.filter p l).
Proof.
  induction l as [|x l IH]; [done|]. cbn. destruct (q x) eqn:Hq, (p x) eqn:Hp; cbn; rewrite ?Hq, ?Hp; by rewrite IH.
Qed.

Lemma filter_true {A} (l : list A) : List.filter (fun _ => true) l = l.
Proof. induction l as [|x l IH]; cbn; by rewrite ?IH. Qed.

Lemma certified_after table epoch z :
  certified_blob_info_iter_before_epoch table epoch (Some z) =
  List.filter (key_ltb z) (certified_blob_info_iter_before_epoch table epoch None).
Proof.
  unfold certified_blob_info_iter_before_epoch, entries_after.
  rewrite <- (filter_fmap fst (key_ltb z) (fun kv => key_ltb z kv.1)) by done. apply f_equal.
  set (M := merge_sort key_le _). rewrite (filter_comm (fun kv => key_ltb z kv.1)). f_equal.
  replace (List.filter (fun '(_, _) => true) M) with M.
  - apply List.filter_ext. by intros [].
  - symmetry. rewrite <- (filter_true M) at 2. apply List.filter_ext. by intros [].
Qed.

Section suffixes.
Implicit Types (l : list BlobId).

Lemma sorted_middle pre z post : StronglySorted id_lt (pre ++ z :: post) ->
  Forall (fun x => id_lt x z) pre /\ Forall (id_lt z) post.
Proof.
  induction pre as [|x pre IH]; cbn; intros [Hs Hx]%StronglySorted_inv; [by split|].
  destruct (IH Hs) as [H1 H2]. split; [|done]. constructor; [|done]. rewrite Forall_forall in Hx. apply Hx. set_solver.
Qed.

Lemma filter_all (p : BlobId -> bool) l : Forall (fun x => p x = true) l -> List.filter p l = l.
Proof. induction 1 as [|x l Hx Hl IH]; [done|]. cbn. by rewrite Hx, IH. Qed.

Lemma filter_none (p : BlobId -> bool) l : Forall (fun x => p x = false) l -> List.filter p l = [].
Proof. induction 1 as [|x l Hx Hl IH]; [done|]. cbn. by rewrite Hx. Qed.

Lemma filter_after pre z post : StronglySorted id_lt (pre ++ z :: post) ->
  List.filter (key_ltb z) (pre ++ z :: post) = post.
Proof.
  intros [Hpre Hpost]%sorted_middle. rewrite List.filter_app. cbn [List.filter]. rewrite key_ltb_irrefl, filter_none.
  - by apply filter_all.
  - eapply Forall_impl; [exact Hpre|]. intros x Hx. by apply key_ltb_asym.
Qed.

Lemma filter_from pre z post : StronglySorted id_lt (pre ++ z :: post) ->
  List.filter (fun x => negb (key_ltb x z)) (pre ++ z :: post) = z :: post.
Proof.
  intros [Hpre Hpost]%sorted_middle. rewrite List.filter_app. cbn [List.filter].
  rewrite key_ltb_irrefl, filter_none; cbn [negb app].
  - f_equal. apply filter_all. eapply Forall_impl; [exact Hpost|]. intros x Hx. cbn beta. by rewrite (key_ltb_asym _ _ Hx).
  - eapply Forall_impl; [exact Hpre|]. intros x Hx. cbn beta. by rewrite Hx.
Qed.

End suffixes.

(** ** The responses *)

(** The slivers among [l] that the owner has. *)
Definition available (shard : ShardStorage) (a : Axis) (l : list BlobId) : list (BlobId * Sliver) :=
  omap (fun b => (fun x => (b, (a, x))) <$> slivers_of a shard !! b) l.

Lemma fetch_available shard a l : (fun '(b, x) => (b, (a, x))) <$> fetch_slivers shard a l = available shard a l.
Proof.
  unfold fetch_slivers, available. induction l as [|b l IH]; [done|]. cbn.
  destruct (slivers_of a shard !! b); cbn; by rewrite IH.
Qed.

Lemma available_app shard a l1 l2 : available shard a (l1 ++ l2) = available shard a l1 ++ available shard a l2.
Proof. apply omap_app. Qed.

Lemma available_length shard a l : (length (available shard a l) <= length l)%nat.
Proof.
  unfold available. induction l as [|b l IH]; [done|]. csimpl.
  destruct (slivers_of a shard !! b); csimpl; lia.
Qed.

Section server.
Context (s : Storage) (epoch : Epoch) (shard : ShardStorage) (a : Axis).
Let C := certified_blob_info_iter_before_epoch (blob_info s) epoch None.

Lemma fetch_loop_ok fuel start count last acc M pre : (length M < fuel)%nat -> C = pre ++ M ->
  M = match last with
      | None => certified_blob_info_iter_from (blob_info s) epoch start
      | Some id => certified_blob_info_iter_before_epoch (blob_info s) epoch (Some id)
      end ->
  fetch_loop s epoch fuel shard a start count last acc = acc ++ take (count - length acc) (available shard a M).
Proof.
  revert last acc M pre. induction fuel as [|fuel IH]; intros last acc M pre Hfuel HC HM; [lia|]. cbn [fetch_loop].
  destruct (Nat.ltb_spec (length acc) count) as [Hlt|Hge]; cbn [negb].
  2: { rewrite (proj2 (Nat.sub_0_le _ _)) by lia. by rewrite take_0, app_nil_r. }
  rewrite <- HM. set (r := (count - length acc)%nat). destruct (list.last (take r M)) as [z|] eqn:Hz.
  - apply last_Some in Hz as [bt Hbt]. rewrite fetch_available.
    assert (M = (bt ++ [z]) ++ drop r M) as HMz by (rewrite <- Hbt; by rewrite take_drop).
    assert (length (bt ++ [z]) <= r)%nat as Hr by (rewrite <- Hbt, length_take; lia).
    rewrite (IH (Some z) _ (drop r M) (pre ++ bt ++ [z])).
    + pose proof (available_length shard a (take r M)) as Hlen. rewrite length_take in Hlen.
      assert (available shard a M = available shard a (take r M) ++ available shard a (drop r M)) as Hav
        by by rewrite <- available_app, take_drop.
      rewrite Hav, <- app_assoc, take_app_ge by lia. rewrite length_app. do 3 f_equal. unfold r. lia.
    + apply (f_equal length) in HMz. rewrite !length_app in HMz. cbn in HMz. lia.
    + rewrite HC. rewrite HMz at 1. by rewrite <- !app_assoc.
    + rewrite certified_after. fold C. symmetry. rewrite HC. rewrite HMz at 1. rewrite <- !app_assoc. cbn.
      rewrite app_assoc. apply filter_after. rewrite <- app_assoc.
      replace (bt ++ z :: drop r M) with M by (rewrite HMz at 1; by rewrite <- app_assoc). rewrite <- HC. apply certified_sorted.
  - apply last_None in Hz. assert (M = []) as ->.
    { destruct M as [|x M]; [done|]. destruct r eqn:Hr; [unfold r in Hr; lia|done]. }
    cbn. by rewrite take_nil, app_nil_r.
Qed.

(** The response to a request for the blobs from the head of [r] on. *)
Lemma owner_response shard_index start r pre count limit :
  shards s !! shard_index = Some shard -> C = pre ++ start :: r -> (forall l, limit = Some l -> count <= l) ->
  handle_sync_shard_request s epoch shard_index a start count limit =
    Ok (take (Z.to_nat count) (available shard a (start :: r))).
Proof.
  intros Hs HC Hlim. unfold handle_sync_shard_request.
  assert (match limit with
      | Some limit => ensure (count <=? limit) (RequestedSliverCountExceedsLimit count limit)
      | None => Ok tt
      end = Ok tt) as ->.
  { destruct limit as [l|]; [|done]. unfold ensure. by rewrite (proj2 (Z.leb_le _ _) (Hlim l eq_refl)). }
  cbn [mbind outcome_bind]. rewrite Hs. f_equal. rewrite (fetch_loop_ok _ _ _ None [] (start :: r) pre).
  - by rewrite Nat.sub_0_r.
  - apply Nat.lt_succ_r. etransitivity; [|apply (length_entries_after None (aggregate_blob_info (blob_info s)))].
    etransitivity; [|apply (List.filter_length_le (fun kv => certified_before epoch kv.2))].
    rewrite <- (length_fmap fst). change (length (start :: r) <= length C)%nat. rewrite HC, length_app. lia.
  - done.
  - unfold certified_blob_info_iter_from. fold C. rewrite HC. symmetry. apply filter_from. rewrite <- HC. apply certified_sorted.
Qed.

End server.

(** ** Copying slivers *)

Section copy.
Context `{Build} (config : ShardSyncConfig) (Hsst : sst_ingestion_config config = None).
Context (o : ShardStorage) (a : Axis).
Implicit Types (s : ShardStorage) (t : Transfer) (r : list BlobId).

(** The shard [s'] is [s] after the blobs of [r] were copied from the owner. *)
Record copied r s s' : Prop := {
  cp_slivers b : slivers_of a s' !! b =
    if decide (b ∈ r) then (slivers_of a o !! b) ∪ (slivers_of a s !! b) else slivers_of a s !! b;
  cp_other a' : a' <> a -> slivers_of a' s' = slivers_of a' s;
  cp_pending x : x ∈ pending_recover_slivers s' <->
    x ∈ pending_recover_slivers s \/ (x.1 = a /\ x.2 ∈ r /\ slivers_of a o !! x.2 = None);
  cp_status : shard_status s' = shard_status s;
}.

Lemma copied_nil s : copied [] s s.
Proof.
  split; [by intros|done| |done]. intros x. split; [by left|]. intros [?|(_ & Hx & _)]; [done|]. by apply not_elem_of_nil in Hx.
Qed.

Lemma copied_app r1 r2 s s1 s2 : copied r1 s s1 -> copied r2 s1 s2 -> copied (r1 ++ r2) s s2.
Proof.
  intros [H1 H2 H3 H4] [G1 G2 G3 G4]. split.
  - intros b. rewrite G1, H1. assert (b ∈ r1 ++ r2 <-> b ∈ r1 \/ b ∈ r2) as Happ by apply elem_of_app.
    destruct (decide (b ∈ r1)), (decide (b ∈ r2)), (decide (b ∈ r1 ++ r2)); try (exfalso; tauto); try done.
    by destruct (slivers_of a o !! b), (slivers_of a s !! b).
  - intros a' Ha. by rewrite G2, H2.
  - intros x. rewrite G3, H3, elem_of_app. tauto.
  - congruence.
Qed.

Lemma copied_progress r s s' p : copied r s s' -> copied r s (set_sync_progress p s').
Proof. intros [H1 H2 H3 H4]. by split. Qed.

Lemma available_split r : available o a r = [] /\ (forall b, b ∈ r -> slivers_of a o !! b = None) \/
  exists pre f x post, r = pre ++ f :: post /\ (forall b, b ∈ pre -> slivers_of a o !! b = None) /\
    slivers_of a o !! f = Some x /\ available o a r = (f, (a, x)) :: available o a post.
Proof.
  induction r as [|b r IH]; [left; split; [done|set_solver]|].
  destruct (slivers_of a o !! b) as [x|] eqn:Hb.
  - right. exists [], b, x, r. split_and!; [done|set_solver|done|]. unfold available. csimpl. by rewrite Hb.
  - assert (available o a (b :: r) = available o a r) as -> by (unfold available; csimpl; by rewrite Hb).
    destruct IH as [[Ha Hr]|(pre & f & x & post & -> & Hpre & Hf & Ha)]; [left|right].
    + split; [done|]. set_solver.
    + exists (b :: pre), f, x, post. split_and!; [done| |done|done]. set_solver.
Qed.

Lemma record_missing_run f pre post next iter s : next :: iter = pre ++ f :: post ->
  StronglySorted id_lt (pre ++ f :: post) ->
  record_missing a f next iter s =
    (set_pending (pending_recover_slivers s ∪ list_to_set ((fun b => (a, b)) <$> pre)) s, iter_next post).
Proof.
  revert next iter s. induction pre as [|p pre IH]; intros next iter s [= -> ->] Hsort; cbn [app] in *.
  - assert (set_pending (pending_recover_slivers s ∪ list_to_set ((fun b => (a, b)) <$> [])) s = s) as ->.
    { destruct s. unfold set_pending. cbn. f_equal. set_solver. }
    destruct post; cbn [record_missing]; rewrite key_ltb_irrefl; by rewrite bool_decide_true.
  - apply StronglySorted_inv in Hsort as [Hsort Hp]. assert (key_ltb p f = true) as Hlt.
    { rewrite Forall_forall in Hp. apply Hp. set_solver. }
    destruct (pre ++ f :: post) as [|n it] eqn:Heq; [by destruct pre|]. cbn [record_missing]. rewrite Hlt.
    rewrite (IH n it) by done. f_equal. unfold set_pending. cbn. f_equal. set_solver.
Qed.

Lemma sliver_run t pre f x post : rest t = pre ++ f :: post -> StronglySorted id_lt (rest t) ->
  (forall b, b ∈ pre -> slivers_of a o !! b = None) -> slivers_of a o !! f = Some x ->
  exists t', batch_fetched_sliver config a t (f, (a, x)) = Ok t' /\ rest t' = post /\
    copied (pre ++ [f]) (t_batch t) (t_batch t') /\ t_buffers t' = t_buffers t.
Proof.
  intros Hr Hsort Hpre Hf. unfold batch_fetched_sliver. rewrite bool_decide_true by done. cbn [assert mbind outcome_bind].
  rewrite Hsst. cbn [is_some]. unfold rest in Hr, Hsort. destruct (t_next t) as [n|]; [|by destruct pre].
  rewrite Hr in Hsort. unfold check_and_record_missing_blobs. set (s1 := put_sliver (t_batch t) f a x).
  assert ((if bool_decide (n = f) then Ok (s1, iter_next (t_iter t)) else Ok (record_missing a f n (t_iter t) s1)) =
    Ok (E:=SyncShardClientError)
      (set_pending (pending_recover_slivers s1 ∪ list_to_set ((fun b => (a, b)) <$> pre)) s1, iter_next post)) as Hc.
  { rewrite (record_missing_run f pre post) by done. case_bool_decide as Hn; [|done].
    assert (pre = []) as ->.
    { destruct pre as [|p pre]; [done|]. exfalso. injection Hr as <- Hit. subst n.
      apply StronglySorted_inv in Hsort as [_ Hall]. rewrite Forall_forall in Hall.
      assert (id_lt f f) as Hff by (apply Hall; set_solver). by apply key_ltb_ne in Hff. }
    injection Hr as -> ->. do 2 f_equal. unfold s1. destruct (put_sliver _ _ _ _). unfold set_pending. cbn. f_equal. set_solver. }
  rewrite Hc. cbn [mbind outcome_bind]. destruct (iter_next post) as [n' it'] eqn:Hit.
  eexists. split; [done|]. split; [|split; [|done]].
  - destruct post; by injection Hit as <- <-.
  - cbn [t_batch]. split.
    + intros b. assert (slivers_of a s1 !! b = if decide (b = f) then Some x else slivers_of a (t_batch t) !! b) as Hs1.
      { unfold s1. destruct a; cbn; (destruct (decide (b = f)) as [->|]; [by rewrite lookup_insert_eq|by rewrite lookup_insert_ne]). }
      replace (slivers_of a (set_pending _ s1)) with (slivers_of a s1) by by destruct a. rewrite Hs1.
      destruct (decide (b = f)) as [->|Hne].
      * rewrite decide_True by (apply elem_of_app; right; by left). rewrite Hf. by destruct (slivers_of a (t_batch t) !! f).
      * destruct (decide (b ∈ pre ++ [f])) as [Hin|]; [|done].
        apply elem_of_app in Hin as [Hin|Hin%list_elem_of_singleton]; [|done]. rewrite (Hpre b Hin).
        by destruct (slivers_of a (t_batch t) !! b).
    + intros a' Ha. unfold s1. by destruct a, a'.
    + intros y. cbn. unfold s1. destruct y as [a' b']. cbn. rewrite elem_of_union, elem_of_list_to_set, list_elem_of_fmap.
      replace (pending_recover_slivers (put_sliver (t_batch t) f a x)) with (pending_recover_slivers (t_batch t)) by by destruct a.
      split; (intros [?|Hy]; [by left|right]).
      * destruct Hy as (b & [= -> ->] & Hb). split_and!; [done|set_solver|by apply Hpre].
      * destruct Hy as (-> & Hin & Hno). exists b'. split; [done|].
        apply elem_of_app in Hin as [?|Hin%list_elem_of_singleton]; [done|congruence].
    + unfold s1. by destruct a.
Qed.

(** Blobs that the owner does not have are pending at the end. *)
Lemma remaining_copied t : (forall b, b ∈ rest t -> slivers_of a o !! b = None) ->
  copied (rest t) (t_batch t) (record_remaining a t).
Proof.
  unfold rest, record_remaining. destruct (t_next t) as [n|]; [|intros; apply copied_nil]. intros Hmiss. split; try done.
  - intros b. cbn. replace (slivers_of a (set_pending _ (t_batch t))) with (slivers_of a (t_batch t)) by by destruct a.
    destruct (decide (b ∈ n :: t_iter t)) as [Hin|]; [|done]. rewrite (Hmiss b Hin).
    by destruct (slivers_of a (t_batch t) !! b).
  - intros [a' b]. cbn [pending_recover_slivers set_pending fst snd].
    rewrite elem_of_union, elem_of_list_to_set, list_elem_of_fmap. split; (intros [?|Hx]; [by left|right]).
    + destruct Hx as (b' & [= -> ->] & Hin). by auto.
    + destruct Hx as (-> & Hin & _). by exists b.
Qed.

(** A response is copied, together with what it skips. *)
Lemma response_run n t : StronglySorted id_lt (rest t) ->
  exists r1 r2 t', rest t = r1 ++ r2 /\ rest t' = r2 /\
    batch_fetched_slivers_and_check_missing_blobs config a t (take n (available o a (rest t))) = Ok t' /\
    copied r1 (t_batch t) (t_batch t') /\ t_buffers t' = t_buffers t /\
    (take n (available o a (rest t)) <> [] -> r1 <> []).
Proof.
  unfold batch_fetched_slivers_and_check_missing_blobs. revert t. induction n as [|n IH]; intros t Hsort.
  { exists [], (rest t), t. split_and!; [done..|apply copied_nil|done|done]. }
  destruct (available_split (rest t)) as [[-> _]|(pre & f & x & post & Hr & Hpre & Hf & Ha)].
  { exists [], (rest t), t. split_and!; [done..|apply copied_nil|done|done]. }
  destruct (sliver_run t pre f x post Hr Hsort Hpre Hf) as (t1 & Hb & Hr1 & Hc1 & Hbufs1).
  assert (StronglySorted id_lt (rest t1)) as Hsort1.
  { rewrite Hr1. rewrite Hr in Hsort. apply StronglySorted_app_1_r in Hsort. by apply StronglySorted_inv in Hsort as [? _]. }
  destruct (IH t1 Hsort1) as (r1 & r2 & t2 & Hr2 & Hr2' & Hl & Hc2 & Hbufs2 & _). rewrite Hr1 in Hr2, Hl.
  exists ((pre ++ [f]) ++ r1), r2, t2. rewrite Ha. cbn [take]. split_and!; [|done| | |congruence|].
  - rewrite Hr, Hr2, <- !app_assoc. done.
  - cbn [foldM]. rewrite Hb. exact Hl.
  - by eapply copied_app.
  - intros _ Hnil. apply app_nil in Hnil as [Hnil _]. by apply app_nil in Hnil as [_ ?].
Qed.

(** One request, when the response is not empty and when it is. *)
Lemma request_run n t l : StronglySorted id_lt (rest t) -> l = take n (available o a (rest t)) ->
  exists r1 r2 t' id, rest t = r1 ++ r2 /\ rest t' = r2 /\ sync_request config a true l t = Ok (t', id) /\
    copied r1 (t_batch t) (t_batch t') /\ t_buffers t' = t_buffers t /\
    (id = None -> l = [] /\ r1 = []) /\ (is_Some id -> r1 <> []).
Proof.
  intros Hsort ->. destruct (response_run n t Hsort) as (r1 & r2 & t1 & Hr & Hr1 & Hb & Hc & Hbufs & Hne).
  set (l := take n _) in *. unfold sync_request. rewrite Hb. cbn [mbind outcome_bind]. rewrite Hsst.
  destruct (fst <$> last l) as [id|] eqn:Hid; cbn [mbind outcome_bind].
  - eexists r1, r2, _, (Some id). split_and!; [done| |done|by apply copied_progress|done|done|].
    + exact Hr1.
    + intros _. apply Hne. by intros ->.
  - assert (l = []) as Hl by by apply last_None; destruct (last l).
    exists r1, r2, t1, None. split_and!; [done|done|done|done|done| |by intros []].
    intros _. split; [done|]. rewrite Hl in Hb. injection Hb as <-. rewrite Hr1 in Hr.
    apply (f_equal length) in Hr. rewrite length_app in Hr. apply length_zero_iff_nil. lia.
Qed.

(** The loop and the blobs that remain after it. *)
Lemma requests_run fuel n owner t : (0 < n)%nat -> (length (rest t) <= fuel)%nat -> StronglySorted id_lt (rest t) ->
  (forall start r pre, rest t = pre ++ start :: r -> owner start = Ok (take n (available o a (start :: r)))) ->
  exists t', sync_requests fuel config a owner t = Ok t' /\
    copied (rest t) (t_batch t) (record_remaining a t') /\ t_buffers t' = t_buffers t.
Proof.
  intros Hn. revert t. induction fuel as [|fuel IH]; intros t Hlen Hsort Howner; cbn [sync_requests].
  { destruct (t_next t) as [b|] eqn:Hnext; [unfold rest in Hlen; rewrite Hnext in Hlen; cbn in Hlen; lia|].
    exists t. unfold rest, record_remaining. rewrite Hnext. split_and!; [done|apply copied_nil|done]. }
  destruct (t_next t) as [b|] eqn:Hnext.
  2: { exists t. unfold rest, record_remaining. rewrite Hnext. split_and!; [done|apply copied_nil|done]. }
  assert (rest t = b :: t_iter t) as Hrest by (unfold rest; by rewrite Hnext).
  rewrite (Howner b (t_iter t) [] Hrest), <- Hrest. cbn [mbind outcome_bind].
  destruct (request_run n t _ Hsort eq_refl) as (r1 & r2 & t1 & id & Hr & Hr1 & -> & Hc & Hbufs & Hnone & Hsome).
  cbn [mbind outcome_bind]. destruct id as [id|].
  - destruct (IH t1) as (t2 & -> & Hc2 & Hbufs2).
    + rewrite Hr1. rewrite Hr, length_app in Hlen. destruct r1; [by destruct (Hsome (mk_is_Some _ _ eq_refl))|cbn in Hlen; lia].
    + rewrite Hr1. rewrite Hr in Hsort. by apply StronglySorted_app_1_r in Hsort.
    + intros start r pre Hs. rewrite Hr1 in Hs. apply (Howner start r (r1 ++ pre)). by rewrite Hr, Hs, app_assoc.
    + exists t2. split_and!; [done| |congruence]. rewrite Hr, Hr1 in *. by eapply copied_app.
  - destruct (Hnone eq_refl) as [Hl ->]. cbn in Hr. exists t1. split_and!; [done| |done].
    assert (forall x, x ∈ rest t -> slivers_of a o !! x = None) as Hmiss.
    { destruct (available_split (rest t)) as [[_ Hm]|(pre & f & x & post & _ & _ & _ & Ha)]; [done|].
      rewrite Ha in Hl. destruct n; [lia|done]. }
    rewrite Hr, <- Hr1. apply (copied_app [] (rest t1) _ (t_batch t1)); [exact Hc|].
    apply remaining_copied. rewrite Hr1, <- Hr. exact Hmiss.
Qed.

End copy.

(** ** The transfer of a whole shard *)

Section transfer.
Context `{Build} (config : ShardSyncConfig) (Hsst : sst_ingestion_config config = None).
Context (owner_node : Storage) (shard_index : Z) (o : ShardStorage) (table : BlobInfoTable) (epoch : Epoch).
Context (limit : option Z).
Context (Ho : shards owner_node !! shard_index = Some o).
Context (Hcount : 0 < sliver_count_per_sync_request config).
Context (Hlimit : forall l, limit = Some l -> sliver_count_per_sync_request config <= l).

(** The requests of the new owner, answered by the previous one. *)
Definition owner_of_shard (a : Axis) (start : BlobId) : outcome SyncShardClientError (list (BlobId * Sliver)) :=
  map_err (fun _ => RequestError)
    (handle_sync_shard_request owner_node epoch shard_index a start (sliver_count_per_sync_request config) limit).

(** Both know the same certified blobs. *)
Let C := certified_blob_info_iter_before_epoch table epoch None.
Context (Hsame : certified_blob_info_iter_before_epoch (blob_info owner_node) epoch None = C).
Context (Hepoch : 1 < epoch).

Lemma transfer_run fuel a s : (length C <= fuel)%nat ->
  exists s', sync_shard_before_epoch_internal fuel table epoch a None config false (owner_of_shard a) s (mk_buffers None None) =
      Ok (s', mk_buffers None None) /\ copied o a C s s'.
Proof.
  intros Hfuel. unfold sync_shard_before_epoch_internal, start_transfer. fold C.
  pose proof (certified_sorted table epoch None) as Hsort. fold C in Hsort.
  destruct (iter_next C) as [next iter] eqn:Hit.
  rewrite (proj2 (Z.eqb_neq epoch 0)), (proj2 (Z.ltb_lt 1 epoch)) by lia. cbn [negb andb orb assert mbind outcome_bind].
  set (t := mk_transfer s (mk_buffers None None) next iter).
  assert (rest t = C) as Hr by (unfold rest; cbn; destruct C; by injection Hit as <- <-).
  destruct (requests_run config Hsst o a fuel (Z.to_nat (sliver_count_per_sync_request config)) (owner_of_shard a) t)
    as (t' & Hrun & Hc & Hb); [lia|by rewrite Hr|by rewrite Hr| |].
  - intros start r pre Hs. unfold owner_of_shard.
    rewrite (owner_response owner_node epoch o a shard_index start r pre) by (done || by rewrite Hsame, <- Hs, Hr). done.
  - cbn [mbind outcome_bind]. rewrite Hrun. cbn [mbind outcome_bind]. exists (record_remaining a t'). rewrite Hb.
    split; [done|]. by rewrite <- Hr.
Qed.

End transfer.

Section promises.
Context `{Build}.

(** C10: a shard moves in full from an owner that has it.  Without SST
    ingestion, and when the previous owner answers and knows the same certified blobs, the synchronization of a new
    shard ends after at most one request per certified blob and sliver type,
    without a recovery; the shard is active, nothing is pending, both slivers of
    every certified blob are the owner's, and other slivers are untouched. *)
Theorem shard_moves_in_full config owner_node shard_index o table epoch limit s fuel :
  sst_ingestion_config config = None -> shards owner_node !! shard_index = Some o ->
  0 < sliver_count_per_sync_request config ->
  (forall l, limit = Some l -> sliver_count_per_sync_request config <= l) -> 1 < epoch ->
  let C := certified_blob_info_iter_before_epoch table epoch None in
  certified_blob_info_iter_before_epoch (blob_info owner_node) epoch None = C ->
  (forall b a, b ∈ C -> is_Some (get_sliver o b a)) -> pending_recover_slivers s = ∅ -> (length C <= fuel)%nat ->
  exists s', start_sync_shard_before_epoch_impl fuel table epoch config false
      (owner_of_shard config owner_node shard_index epoch limit) [] (record_start_shard_sync s) (mk_buffers None None) =
      Ok (s', mk_buffers None None) /\
    status s' = ShardActive /\ pending_recover_slivers s' = ∅ /\
    forall b a, get_sliver s' b a = if decide (b ∈ C) then get_sliver o b a else get_sliver s b a.
Proof.
  intros Hsst Ho Hcount Hlimit Hepoch C Hsame Hfull Hp Hfuel. set (s0 := record_start_shard_sync s).
  unfold start_sync_shard_before_epoch_impl. rewrite Hsst. cbn [is_some].
  assert (sync_status_ok s0 = true) as -> by done. cbn [assert mbind outcome_bind].
  assert (get_last_sync_status s0 (status s0) = SyncPrimary None) as -> by done. cbn [fst snd].
  destruct (transfer_run config Hsst owner_node shard_index o table epoch limit Ho Hcount Hlimit Hsame Hepoch fuel Primary s0 Hfuel)
    as (s1 & -> & H1). cbn [mbind outcome_bind fst snd].
  destruct (transfer_run config Hsst owner_node shard_index o table epoch limit Ho Hcount Hlimit Hsame Hepoch fuel Secondary s1 Hfuel)
    as (s2 & -> & H2). cbn [mbind outcome_bind fst snd].
  assert (pending_recover_slivers s2 = ∅) as Hp2.
  { apply set_eq. intros x. rewrite (cp_pending _ _ _ _ _ H2), (cp_pending _ _ _ _ _ H1). split; [|set_solver].
    assert (forall a, x.2 ∈ C -> slivers_of a o !! x.2 <> None) as Hf.
    { intros a Hx Hn. destruct (Hfull x.2 a Hx) as [y Hy]. unfold get_sliver in Hy. congruence. }
    intros [[Hx|(_ & Hx & Hn)]|(_ & Hx & Hn)]; [|by destruct (Hf _ Hx Hn)..]. change (x ∈ pending_recover_slivers s) in Hx.
    by rewrite Hp in Hx. }
  unfold recovery_any_missing_slivers. rewrite bool_decide_true by done. cbn [mbind outcome_bind].
  assert (shard_status s2 = Some ActiveSync) as Hs2 by (rewrite (cp_status _ _ _ _ _ H2), (cp_status _ _ _ _ _ H1); done).
  eexists. split; [done|]. unfold finish_sync. rewrite (bool_decide_true (_ = Some ActiveSync)) by done. cbn [orb].
  split_and!; [done|done|]. intros b a.
  assert (get_sliver (set_sync_progress None (set_shard_status ShardActive s2)) b a = slivers_of a s2 !! b) as -> by by destruct a.
  assert (slivers_of a s2 !! b = if decide (b ∈ C) then (slivers_of a o !! b) ∪ (slivers_of a s !! b) else slivers_of a s !! b) as ->.
  { destruct a.
    - rewrite (cp_other _ _ _ _ _ H2 Primary) by done. rewrite (cp_slivers _ _ _ _ _ H1). done.
    - rewrite (cp_slivers _ _ _ _ _ H2). by rewrite (cp_other _ _ _ _ _ H1 Secondary) by done. }
  destruct (decide (b ∈ C)) as [Hb|]; [|done]. destruct (Hfull b a Hb) as [y Hy]. rewrite Hy. unfold get_sliver in Hy. rewrite Hy.
  by destruct (slivers_of a s !! b).
Qed.

End promises.
