(* ===== verification/NodeStorageExamples.v ===== *)
(** * Runs of the node storage and of the shard synchronization

    Concrete runs: a live blob next to one that expires and is collected, and
    the run in which data is deleted while the entry of the blob keeps saying
    that its metadata is stored.  For the shard synchronization: a shard
    that moves from its owner, one with a blob that the owner does not send, and the
    run with SST ingestion in which slivers that were received are neither written
    nor recovered. *)

From S2P Require Import Prelude Core Symbols Metadata Slivers PermBlobInfo.
From S2P Require Import BlobInfoRepr BlobInfoV1 BlobInfoV2 BlobInfoTable Batches BlobInfoRefinement.
From S2P Require Import BlobInfoSafety BlobInfoEvents BlobInfoProps BlobInfoRecovery EventCursor NodeStorage.
From S2P Require Import NodeStorageProps ShardSync ShardSyncProps ShardTransfer.

(** A storage after an operation that succeeds. *)
Definition after (s : Storage) (r : total Storage) : Storage := match r with Ok s' => s' | _ => s end.

Lemma after_ok s r : is_ok r = true -> r = Ok (after s r).
Proof. by destruct r. Qed.

(** Small tables have room for more objects. *)
Ltac small_room := apply room_small; vm_compute; reflexivity.

Section runs.
#[local] Existing Instance release_build.

Lemma run_event e s txs i ev : node_reachable (e, s, txs) -> room (blob_info s) ->
  is_catching_up_with_incomplete_history (node_status s) = false -> table_event_ok e (blob_info s) ev ->
  is_ok (storage_update_blob_info s i ev) = true ->
  node_reachable (e, after s (storage_update_blob_info s i ev), txs).
Proof.
  intros (e0 & opt & Hr) Hroom Hst Hok Hu. exists e0, opt. eapply rtc_r; [exact Hr|].
  eapply ss_event; eauto using after_ok.
Qed.

Lemma run_step c c' : node_reachable c -> storage_step c c' -> node_reachable c'.
Proof. intros (e0 & opt & Hr) Hstep. exists e0, opt. by eapply rtc_r. Qed.

Definition registered (id : ObjectID) (b : BlobId) (e end_epoch : Epoch) (deletable : bool) : BlobEvent :=
  EvRegistered {| br_epoch := e; br_blob_id := b; br_size := 100; br_encoding_type := RS2;
    br_end_epoch := end_epoch; br_deletable := deletable; br_object_id := id; br_event_id := 70 |}.

Definition example_metadata : BlobMetadata := {| md_encoding_type := RS2; unencoded_length := 100; hashes := [] |}.

Definition example_sliver : SliverData := {| sliver_symbols := mk_symbols [Byte.x01; Byte.x02] 2; sliver_idx := mk_sliver_index 0 |}.

Definition expired_blob : BlobId := mk_blob_id (replicate 32 Byte.x09).

(** An active node with one shard that stores data of two blobs; the objects of
    the blobs end in epochs 10 and 2. *)
Definition node0 : Storage := set_node_status Active (storage_open true).
Definition node1 : Storage := insert_shards node0 (create_storage_for_shards (missing_shards node0 [3])).
Definition node2 : Storage := after node1 (storage_update_blob_info node1 0 (registered 5 example_blob 1 10 true)).
Definition node3 : Storage := after node2 (storage_update_blob_info node2 1 (registered 6 expired_blob 1 2 false)).
Definition node4 : Storage := after node3 (put_metadata node3 example_blob example_metadata).
Definition node5 : Storage := after node4 (put_metadata node4 expired_blob example_metadata).
Definition node6 : Storage := update_shard node5 3 (fun shard => put_sliver shard example_blob Primary example_sliver).

Lemma node1_reachable : node_reachable (1, node1, []).
Proof.
  exists 1, true. eapply rtc_l; [apply (ss_node_status _ _ _ Active)|].
  eapply rtc_l; [apply (ss_insert_shards _ _ _ [3])|]. apply rtc_refl.
Qed.

Lemma node6_reachable : node_reachable (1, node6, []).
Proof.
  pose proof node1_reachable as H1.
  assert (node_reachable (1, node2, [])) as H2.
  { apply (run_event 1 node1); [exact H1|small_room|reflexivity|split; vm_compute; [reflexivity|discriminate]
      |vm_compute; reflexivity]. }
  assert (node_reachable (1, node3, [])) as H3.
  { apply (run_event 1 node2); [exact H2|small_room|vm_compute; reflexivity
      |split; vm_compute; [reflexivity|discriminate]|vm_compute; reflexivity]. }
  apply (run_step (1, node5, [])); [|apply ss_put_sliver].
  apply (run_step (1, node4, [])); [|apply (ss_put_metadata 1 node4 [] expired_blob example_metadata), after_ok; vm_compute; reflexivity].
  apply (run_step (1, node3, []) _ H3). apply (ss_put_metadata 1 node3 [] example_blob example_metadata), after_ok.
  vm_compute. reflexivity.
Qed.

(** In epoch 3 the second blob is collected and its data deleted. *)
Definition node7 : Storage := after node6 (storage_process_expired_blob_objects node6 3 1).
Definition expired_deletion : DeletionTransaction :=
  default (mk_transaction expired_blob example_info false [])
    (begin_deletion node7 expired_blob 3 (owned_shard_storages node7)).
Definition node8 : Storage := commit_deletion node7 expired_deletion.

(** The first blob is live throughout. *)
Definition protectedb (e : Epoch) (s : Storage) : bool :=
  match per_object_blob_info (blob_info s) !! 5, aggregate_blob_info (blob_info s) !! example_blob with
  | Some o, Some info => bool_decide (o_blob_id o = example_blob) && (e <? o_end_epoch o) && negb (is_invalid info)
  | _, _ => false
  end.

Lemma protectedb_ok e s txs : protectedb e s = true -> protected (e, s, txs) example_blob.
Proof.
  unfold protectedb. destruct (per_object_blob_info (blob_info s) !! 5) as [o|] eqn:Ho; [|done].
  destruct (aggregate_blob_info (blob_info s) !! example_blob) as [info|] eqn:Hinfo; [|done].
  intros [[Hb%bool_decide_eq_true He%Z.ltb_lt]%andb_prop Hi%negb_true_iff]%andb_prop. split.
  - left. by exists 5, o.
  - intros info' Hinfo'. cbn in Hinfo'. congruence.
Qed.

Lemma run_kept e s txs c' : protectedb e s = true -> is_some (shards c'.1.2 !! 3) = true ->
  storage_step (e, s, txs) c' ->
  storage_step (e, s, txs) c' /\ protected (e, s, txs) example_blob /\ holds_shard c'.1.2 (TheSliver 3 Primary example_blob).
Proof.
  intros Hp Hs Hstep. split; [done|]. split; [by apply protectedb_ok|]. cbn.
  by destruct (shards c'.1.2 !! 3).
Qed.

Lemma sliver_stored s i a b : is_some (shards s !! i ≫= fun shard => get_sliver shard b a) = true ->
  datum_stored s (TheSliver i a b).
Proof.
  cbn. destruct (shards s !! i) as [shard|]; [|done]. cbn. intros Hs. exists shard. split; [done|].
  destruct (get_sliver shard b a); [by eexists|done].
Qed.

Lemma live_data_is_kept_witness :
  datum_stored node8 (TheSliver 3 Primary example_blob) /\ get_metadata node8 expired_blob = None.
Proof.
  split; [|vm_compute; reflexivity].
  apply (live_data_is_kept (1, node6, []) (3, node8, []) (TheSliver 3 Primary example_blob)).
  - exact node6_reachable.
  - apply sliver_stored. vm_compute. reflexivity.
  - apply (rtc_l _ _ (3, node6, [])); [apply run_kept; [vm_compute; reflexivity..|apply ss_epoch; lia]|].
    apply (rtc_l _ _ (3, node7, [])); [apply run_kept; [vm_compute; reflexivity..|]|].
    { apply (ss_collect_objects 3 node6 [] 1); [small_room|lia|apply after_ok; vm_compute; reflexivity]. }
    apply (rtc_l _ _ (3, node7, [expired_deletion])); [apply run_kept; [vm_compute; reflexivity..|]|].
    { apply (ss_begin 3 node7 [] expired_blob 3 (owned_shard_storages node7)); [vm_compute; reflexivity|lia|vm_compute; reflexivity]. }
    apply rtc_once, run_kept; [vm_compute; reflexivity..|].
    apply (ss_commit 3 node7 [] expired_deletion []). vm_compute. reflexivity.
Defined.

Definition default_gc_config : GarbageCollectionConfig :=
  {| enable_blob_info_cleanup := true; enable_data_deletion := true; enable_immediate_data_deletion := true;
     blob_objects_batch_size := 5000; data_deletion_batch_size := 2000 |}.

Lemma gc_deletes_exactly_witness :
  exists s1 s2, start_garbage_collection_task default_gc_config node6 3 = Ok (s1, true) /\
    perform_data_deletion default_gc_config s1 3 (fun _ => true) = Ok s2 /\
    gc_last_started_epoch s2 = 3 /\ gc_last_completed_epoch s2 = 3 /\
    forall b, v_metadata (blob_view s1 b) = v_metadata (blob_view node6 b) /\
      v_slivers (blob_view s1 b) = v_slivers (blob_view node6 b) /\
      match v_info (blob_view s1 b) with
      | None => ~ surviving 3 (blob_info node6) b /\ blob_view s2 b = blob_view s1 b
      | Some info =>
        if is_invalid info then blob_view s2 b = without_data (Some info) (blob_view node6 b)
        else (surviving 3 (blob_info node6) b -> blob_view s2 b = blob_view s1 b) /\
             (~ surviving 3 (blob_info node6) b -> blob_view s2 b = without_data None (blob_view node6 b))
      end.
Proof.
  apply (gc_deletes_exactly default_gc_config 3 node6 []).
  - apply (run_step (1, node6, []) _ node6_reachable). apply ss_epoch. lia.
  - small_room.
  - vm_compute. reflexivity.
  - vm_compute. reflexivity.
  - discriminate.
  - reflexivity.
  - reflexivity.
  - vm_compute. lia.
  - vm_compute. lia.
Defined.

(** ** Immediate deletion without the cleanup of blob info *)

Definition no_cleanup_config : GarbageCollectionConfig :=
  {| enable_blob_info_cleanup := false; enable_data_deletion := true; enable_immediate_data_deletion := true;
     blob_objects_batch_size := 5000; data_deletion_batch_size := 2000 |}.

(** A blob with a permanent object that ends in epoch 5 and a deletable one that
    is deleted in epoch 6; a new object is registered afterwards. *)
Definition deleted : BlobEvent :=
  EvDeleted {| bd_epoch := 6; bd_blob_id := example_blob; bd_end_epoch := 10; bd_object_id := 2;
    bd_was_certified := false; bd_event_id := 72 |}.

Definition kept1 : Storage := after node1 (storage_update_blob_info node1 0 (registered 1 example_blob 1 5 false)).
Definition kept2 : Storage := after kept1 (storage_update_blob_info kept1 1 (registered 2 example_blob 1 10 true)).
Definition kept3 : Storage := after kept2 (put_metadata kept2 example_blob example_metadata).
Definition kept4 : Storage := after kept3 (storage_update_blob_info kept3 2 deleted).
Definition kept5 : Storage := process_blob_deleted_data no_cleanup_config kept4 example_blob 6 true.
Definition kept6 : Storage := after kept5 (storage_update_blob_info kept5 3 (registered 7 example_blob 6 20 false)).

(** With the cleanup of blob info disabled, which is documented to disable
    data deletion, a [BlobDeleted] event still deletes the data of a blob whose
    other object has expired, and leaves the entry with the mark that its
    metadata is stored; after the blob is registered again the node claims to
    have metadata that it does not have. *)
Theorem metadata_flag_outlives_metadata :
  start_garbage_collection_task no_cleanup_config kept3 6 = Ok (kept3, false) /\
  node_reachable (6, kept6, []) /\ live_object 6 (blob_info kept6) example_blob /\
  has_metadata kept6 example_blob = true /\ get_metadata kept6 example_blob = None.
Proof.
  split; [reflexivity|].
  pose proof node1_reachable as H1.
  assert (node_reachable (1, kept1, [])) as H2.
  { apply (run_event 1 node1); [exact H1|small_room|reflexivity|split; vm_compute; [reflexivity|discriminate]
      |vm_compute; reflexivity]. }
  assert (node_reachable (1, kept2, [])) as H3.
  { apply (run_event 1 kept1); [exact H2|small_room|vm_compute; reflexivity
      |split; vm_compute; [reflexivity|discriminate]|vm_compute; reflexivity]. }
  assert (node_reachable (6, kept3, [])) as H4.
  { apply (run_step (1, kept3, [])); [|apply ss_epoch; lia]. apply (run_step (1, kept2, []) _ H3).
    apply (ss_put_metadata 1 kept2 [] example_blob example_metadata), after_ok. vm_compute. reflexivity. }
  assert (node_reachable (6, kept4, [])) as H5.
  { apply (run_event 6 kept3); [exact H4|small_room|vm_compute; reflexivity| |vm_compute; reflexivity].
    eexists. split; [vm_compute; reflexivity|]. split_and!; vm_compute; reflexivity. }
  assert (node_reachable (6, kept5, [])) as H6.
  { destruct H5 as (e0 & opt & Hr). exists e0, opt. etransitivity; [exact Hr|].
    apply process_blob_deleted_steps. lia. }
  split_and!.
  - apply (run_event 6 kept5); [exact H6|small_room|vm_compute; reflexivity
      |split; vm_compute; [reflexivity|discriminate]|vm_compute; reflexivity].
  - left. exists 7. eexists. split; [vm_compute; reflexivity|]. split; vm_compute; reflexivity.
  - vm_compute. reflexivity.
  - vm_compute. reflexivity.
Qed.

End runs.

(** ** Shard synchronization *)

Section runs.
#[local] Existing Instance release_build.

(** Two certified blobs. *)
Definition certified (id : ObjectID) (b : BlobId) : BlobEvent :=
  EvCertified {| bc_epoch := 1; bc_blob_id := b; bc_end_epoch := 10; bc_deletable := true;
    bc_object_id := id; bc_is_extension := false; bc_event_id := 71 |}.

Definition blob_a : BlobId := example_blob.
Definition blob_b : BlobId := expired_blob.

Definition two_blobs : BlobInfoTable :=
  run_events [(0, registered 5 blob_a 1 10 true); (1, certified 5 blob_a);
              (2, registered 6 blob_b 1 10 true); (3, certified 6 blob_b)].

Definition sliver_of (i : Z) : SliverData :=
  {| sliver_symbols := mk_symbols [Byte.x01; Byte.x02] 2; sliver_idx := mk_sliver_index i |}.

(** The previous owner, with all slivers of both blobs. *)
Definition old_shard : ShardStorage :=
  foldl (fun s '(b, a, i) => put_sliver s b a (sliver_of i)) (create_shard (Some ShardActive))
    [(blob_a, Primary, 1); (blob_b, Primary, 2); (blob_a, Secondary, 3); (blob_b, Secondary, 4)].

Definition old_owner : Storage := set_shards {[ 3 := old_shard ]} (set_blob_info two_blobs (storage_open true)).

Definition plain_config : ShardSyncConfig := {| sliver_count_per_sync_request := 1; sst_ingestion_config := None |}.

Definition new_shard : ShardStorage := create_shard (Some ShardNone).

Lemma shard_moves_in_full_witness :
  exists s', start_sync_shard_before_epoch_impl 2 two_blobs 2 plain_config false
      (owner_of_shard plain_config old_owner 3 2 (Some 10)) [] (record_start_shard_sync new_shard) (mk_buffers None None) =
      Ok (s', mk_buffers None None) /\
    status s' = ShardActive /\ pending_recover_slivers s' = ∅ /\
    forall b a, get_sliver s' b a =
      if decide (b ∈ certified_blob_info_iter_before_epoch two_blobs 2 None) then get_sliver old_shard b a
      else get_sliver new_shard b a.
Proof.
  apply (shard_moves_in_full plain_config old_owner 3 old_shard two_blobs 2 (Some 10) new_shard 2).
  - reflexivity.
  - apply lookup_singleton_eq.
  - reflexivity.
  - intros l [= <-]. vm_compute. discriminate.
  - reflexivity.
  - vm_compute. reflexivity.
  - intros b a Hb. assert (certified_blob_info_iter_before_epoch two_blobs 2 None = [blob_a; blob_b]) as Hc by (vm_compute; reflexivity).
    rewrite Hc in Hb. apply elem_of_cons in Hb as [->|Hb%list_elem_of_singleton];
      [|rewrite Hb]; destruct a; vm_compute; by eexists.
  - reflexivity.
  - vm_compute. lia.
Defined.

(** An owner that sends nothing of the primary slivers after the first blob. *)
Definition partial_owner (a : Axis) (start : BlobId) : outcome SyncShardClientError (list (BlobId * Sliver)) :=
  Ok match a with
     | Primary => if bool_decide (start = blob_a) then [(blob_a, (Primary, sliver_of 1))] else []
     | Secondary => if bool_decide (start = blob_a) then [(blob_a, (Secondary, sliver_of 3))]
                    else [(blob_b, (Secondary, sliver_of 4))]
     end.

(** A recovery that succeeds. *)
Definition recovers (x : Axis * BlobId) : option RecoveryResult := Some (Recovered (sliver_of 2)).

Definition synced (config : ShardSyncConfig) : outcome SyncShardClientError (ShardStorage * SstBuffers) :=
  start_sync_shard_before_epoch_impl 5 two_blobs 2 config false partial_owner [recovers]
    (record_start_shard_sync new_shard) (mk_buffers None None).

Definition synced_shard (config : ShardSyncConfig) : ShardStorage :=
  match synced config with Ok (s, _) => s | _ => new_shard end.

Definition synced_buffers (config : ShardSyncConfig) : SstBuffers :=
  match synced config with Ok (_, b) => b | _ => mk_buffers None None end.

Lemma synced_ok config : is_ok (synced config) = true ->
  synced config = Ok (synced_shard config, synced_buffers config).
Proof. unfold synced_shard, synced_buffers. by destruct (synced config) as [[]| |]. Qed.

Lemma plain_synced : synced plain_config = Ok (synced_shard plain_config, synced_buffers plain_config).
Proof. apply synced_ok. vm_compute. reflexivity. Qed.

Lemma sync_run_is_complete_witness :
  status (synced_shard plain_config) = ShardActive /\ pending_recover_slivers (synced_shard plain_config) = ∅ /\
  shard_sync_progress (synced_shard plain_config) = None /\
  forall b a, b ∈ certified_blob_info_iter_before_epoch two_blobs 2 None ->
    stored (synced_shard plain_config) (a, b) \/ exists results, results ∈ [recovers] /\ gives_up (results (a, b)) = true.
Proof.
  apply (sync_run_is_complete plain_config 5 two_blobs 2 false partial_owner [recovers] new_shard (synced_shard plain_config)
    (synced_buffers plain_config)).
  - reflexivity.
  - exact plain_synced.
Defined.

Definition these_tables (t : BlobInfoTable) (e : Epoch) : Prop := t = two_blobs /\ e = 2.

Lemma plain_steps : exists g, rtc (sync_step plain_config these_tables) (mk_node (record_start_shard_sync new_shard) None ∅)
    (mk_node (synced_shard plain_config) None g) /\ (Primary, blob_a) ∉ g.
Proof.
  pose proof plain_synced as Hrun. unfold synced in Hrun at 1.
  destruct (sync_run_steps plain_config eq_refl these_tables two_blobs 2 (conj eq_refl eq_refl) _ _ _ _ _ _ _ ∅ Hrun)
    as (g & Hsteps & _ & Hg).
  exists g. split; [exact Hsteps|]. intros Hx. apply Hg in Hx as [Hx|(r & Hr & Hx)].
  - by apply not_elem_of_empty in Hx.
  - apply list_elem_of_singleton in Hr as ->. discriminate.
Qed.

Lemma active_shard_is_complete_witness : stored (synced_shard plain_config) (Primary, blob_a).
Proof.
  destruct plain_steps as (g & Hsteps & Hg).
  destruct (active_shard_is_complete plain_config these_tables new_shard (mk_node (synced_shard plain_config) None g)
    blob_a Primary Hsteps) as [Hs|Hs].
  - intros t e [-> ->]. apply (bool_decide_unpack _). vm_compute. reflexivity.
  - vm_compute. reflexivity.
  - exact Hs.
  - destruct (Hg Hs).
Defined.

(** ** SST ingestion *)

Definition sst_config : ShardSyncConfig :=
  {| sliver_count_per_sync_request := 1;
     sst_ingestion_config := Some {| max_entries := None; compact_after_sync := true |} |}.

(** With SST ingestion a shard can become active without a sliver that the
    owner sent: when the owner answers a later request with an empty list the loop
    ends without writing the buffer, and the sliver is neither stored nor pending,
    although no recovery gave it up. *)
Theorem sst_buffer_is_lost :
  synced sst_config = Ok (synced_shard sst_config, synced_buffers sst_config) /\
  partial_owner Primary blob_a = Ok [(blob_a, (Primary, sliver_of 1))] /\
  blob_a ∈ certified_blob_info_iter_before_epoch two_blobs 2 None /\
  status (synced_shard sst_config) = ShardActive /\
  pending_recover_slivers (synced_shard sst_config) = ∅ /\
  get_sliver (synced_shard sst_config) blob_a Primary = None /\
  gives_up (recovers (Primary, blob_a)) = false.
Proof.
  split; [apply synced_ok; vm_compute; reflexivity|].
  split; [vm_compute; reflexivity|].
  split; [vm_compute; by left|].
  split; [vm_compute; reflexivity|].
  split; [apply (bool_decide_unpack _); vm_compute; reflexivity|].
  split; vm_compute; reflexivity.
Qed.

(** A response with slivers of the other type makes the node panic. *)
Theorem wrong_sliver_type_panics config t b x : sync_request config Primary true [(b, (Secondary, x))] t = Panic.
Proof. done. Qed.

End runs.
