(* ===== verification/QuiltIndex.v ===== *)
(** * Blobs of a quilt and their index

    Models the identifiers, blobs and versions of encoding/quilt_encoding.rs, its
    trait [QuiltIndexApi], and the quilt patches, patch identifiers and the index
    of metadata.rs.  The text of error messages is not modelled, and the missing
    identifiers that an error lists are a set.  Of Rust's [String] the code uses that
    it is a sequence of Unicode scalar values, and its length that of its UTF-8
    encoding; strings are compared byte by byte, which for UTF-8 is the order of the
    scalar values. *)

From stdpp Require Import sorting.
From S2P Require Import Prelude Core.

(** ** Strings *)

Definition rstring := list Z.

(** [char::len_utf8] and [str::len]. *)
Definition len_utf8 (c : Z) : Z :=
  if c <? 2 ^ 7 then 1 else if c <? 2 ^ 11 then 2 else if c <? 2 ^ 16 then 3 else 4.
Definition str_len (s : rstring) : Z := foldr Z.add 0 (len_utf8 <$> s).

Definition in_range (a b c : Z) : bool := (a <=? c) && (c <=? b).

(** [char::is_control]: the general category Cc. *)
Definition is_control (c : Z) : bool := in_range 0 31 c || in_range 127 159 c.

(** [char::is_whitespace]: the property White_Space. *)
Definition is_whitespace (c : Z) : bool :=
  in_range 9 13 c || (c =? 32) || (c =? 133) || (c =? 160) || (c =? 5760) ||
  in_range 8192 8202 c || in_range 8232 8233 c || (c =? 8239) || (c =? 8287) || (c =? 12288).

(** [str::trim_end]. *)
Fixpoint trim_start (s : rstring) : rstring :=
  match s with
  | c :: s' => if is_whitespace c then trim_start s' else s
  | [] => []
  end.
Definition trim_end (s : rstring) : rstring := reverse (trim_start (reverse s)).

(** [str::cmp]. *)
Fixpoint str_leb (s t : rstring) : bool :=
  match s, t with
  | [], _ => true
  | _ :: _, [] => false
  | c :: s, d :: t => (c <? d) || ((c =? d) && str_leb s t)
  end.

Definition str_le (s t : rstring) : Prop := str_leb s t = true.

#[export] Instance str_le_dec : RelDecision str_le.
Proof. intros s t. unfold str_le. apply _. Defined.

#[export] Instance str_le_refl : Reflexive str_le.
Proof. intros s. unfold str_le. induction s as [|c s IH]; [done|]. cbn. by rewrite IH, Z.eqb_refl, orb_true_r. Qed.

#[export] Instance str_le_trans : Transitive str_le.
Proof.
  unfold str_le. intros s. induction s as [|c s IH]; intros [|d t] [|e u]; cbn; try done.
  rewrite !orb_true_iff, !andb_true_iff, !Z.ltb_lt, !Z.eqb_eq. intros [|[]] [|[]]; [left; lia..|].
  right. split; [lia|by eapply IH].
Qed.

#[export] Instance str_le_antisymm : AntiSymm (=) str_le.
Proof.
  unfold str_le. intros s. induction s as [|c s IH]; intros [|d t]; cbn; try done.
  rewrite !orb_true_iff, !andb_true_iff, !Z.ltb_lt, !Z.eqb_eq.
  intros [|[-> Hst]] [|[? Hts]]; try lia. f_equal. auto.
Qed.

#[export] Instance str_le_total : Total str_le.
Proof.
  unfold str_le. intros s. induction s as [|c s IH]; intros [|d t]; cbn; auto.
  rewrite !orb_true_iff, !andb_true_iff, !Z.ltb_lt, !Z.eqb_eq.
  destruct (Z.lt_trichotomy c d) as [?|[->|?]]; auto. destruct (IH t); auto.
Qed.

(** ** Errors *)

Definition Tags := gmap rstring rstring.

Inductive QuiltError :=
| BlobsNotFoundInQuilt (identifiers : gset rstring)
| QuiltVersionMismatch (version expected : byte)
| InvalidFormatNotAligned
| FailedToExtractQuiltIndexSize
| QuiltIndexSerDerError
| MissingSlivers (slivers : list SliverIndex)
| MissingQuiltIndex
| TooManyBlobs (n_blobs max_n_blobs : nat)
| QuiltOversize
| IndexOutOfBounds (index max_index : nat)
| InsufficientQuiltData (requested available : nat)
| EmptyInput
| InvalidIdentifier
| DuplicateIdentifier (identifier : rstring)
| FailedToDecodeExtension
| InvalidQuiltData
| Other
| ColumnSizeMismatch (expected actual : nat).

#[export] Instance QuiltError_eq_dec : EqDecision QuiltError.
Proof. solve_decision. Defined.

Definition QUILT_INDEX_SIZE_BYTES_LENGTH : nat := 4.
Definition QUILT_VERSION_BYTES_LENGTH : nat := 1.
Definition BLOB_IDENTIFIER_SIZE_BYTES_LENGTH : nat := 2.
Definition TAGS_SIZE_BYTES_LENGTH : nat := 2.
Definition MAX_BLOB_IDENTIFIER_BYTES_LENGTH : Z := 2 ^ (8 * 2) - 1.
Definition QUILT_INDEX_PREFIX_SIZE : nat := QUILT_INDEX_SIZE_BYTES_LENGTH + QUILT_VERSION_BYTES_LENGTH.
Definition MAX_NUM_SLIVERS_FOR_QUILT_INDEX : nat := 10.
Definition QUILT_VERSION_BYTE : byte := x01.
Definition BLOB_HEADER_SIZE : nat := 6.

Definition validate_quilt_identifier (identifier : rstring) : outcome QuiltError unit :=
  ensure (negb (MAX_BLOB_IDENTIFIER_BYTES_LENGTH <? str_len identifier)) InvalidIdentifier;;
  ensure (negb (bool_decide (identifier = []))) InvalidIdentifier;;
  ensure (bool_decide (trim_end identifier = identifier)) InvalidIdentifier;;
  ensure (negb (existsb is_control identifier)) InvalidIdentifier.

(** ** Versions *)

Inductive QuiltVersionEnum := QuiltVersionV1.

Definition quilt_version_try_from (value : byte) : outcome QuiltError QuiltVersionEnum :=
  if bool_decide (value = QUILT_VERSION_BYTE) then Ok QuiltVersionV1 else Err Other.

Definition new_from_sliver (sliver : list byte) : outcome QuiltError QuiltVersionEnum :=
  ensure (negb (bool_decide (sliver = []))) EmptyInput;;
  b ← index sliver 0;
  quilt_version_try_from b.

Definition get_quilt_version_byte (data : list byte) : outcome QuiltError byte :=
  ok_or (head data) EmptyInput.

Definition get_quilt_version_enum (data : list byte) : outcome QuiltError QuiltVersionEnum :=
  b ← get_quilt_version_byte data; quilt_version_try_from b.

Definition check_quilt_version (data : list byte) : outcome QuiltError unit :=
  b ← get_quilt_version_byte data;
  ensure (bool_decide (b = QUILT_VERSION_BYTE)) (QuiltVersionMismatch b QUILT_VERSION_BYTE).

(** ** Blobs *)

(** Borrowed and owned data are the same bytes. *)
Record QuiltStoreBlob := mk_store_blob {
  store_data : list byte;
  identifier : rstring;
  tags : Tags;
}.

#[export] Instance QuiltStoreBlob_eq_dec : EqDecision QuiltStoreBlob.
Proof. solve_decision. Defined.

Definition store_blob_new (blob : list byte) (identifier : rstring) : outcome QuiltError QuiltStoreBlob :=
  validate_quilt_identifier identifier;;
  Ok (mk_store_blob blob identifier ∅).

Definition with_tags (self : QuiltStoreBlob) (t : Tags) : QuiltStoreBlob :=
  mk_store_blob (store_data self) (identifier self) t.

(** ** Patches *)

Record QuiltPatchV1 := mk_patch {
  start_index : Z;
  end_index : Z;
  patch_identifier : rstring;
  patch_tags : Tags;
}.

#[export] Instance QuiltPatchV1_eq_dec : EqDecision QuiltPatchV1.
Proof. solve_decision. Defined.

Definition patch_new_with_tags (identifier : rstring) (t : Tags) : outcome QuiltError QuiltPatchV1 :=
  validate_quilt_identifier identifier;;
  Ok (mk_patch 0 0 identifier t).

Definition set_range (p : QuiltPatchV1) (start_index end_index : Z) : QuiltPatchV1 :=
  mk_patch start_index end_index (patch_identifier p) (patch_tags p).

Definition has_matched_tag (p : QuiltPatchV1) (target_tag target_value : rstring) : bool :=
  bool_decide (patch_tags p !! target_tag = Some target_value).

(** [(start..end).map(SliverIndex::new)], of patches and of their identifiers. *)
Definition sliver_indices (start_index end_index : Z) : list SliverIndex :=
  (fun i => mk_sliver_index (Z.of_nat i)) <$>
    seq (Z.to_nat start_index) (Z.to_nat end_index - Z.to_nat start_index).

(** The fields of a patch that serde writes: [start_index] is skipped, and has
    its default value when a patch is read. *)
Definition wire_patch : Type := Z * rstring * Tags.
Definition patch_to_wire (p : QuiltPatchV1) : wire_patch := (end_index p, patch_identifier p, patch_tags p).
Definition patch_from_wire (w : wire_patch) : QuiltPatchV1 :=
  let '(e, i, t) := w in mk_patch 0 e i t.

Record QuiltPatchInternalIdV1 := mk_internal_id { id_start_index : Z; id_end_index : Z }.

Definition quilt_patch_internal_id (p : QuiltPatchV1) : QuiltPatchInternalIdV1 :=
  mk_internal_id (start_index p) (end_index p).

Definition internal_id_to_bytes (i : QuiltPatchInternalIdV1) : list byte :=
  [QUILT_VERSION_BYTE] ++ le_bytes 2 (id_start_index i) ++ le_bytes 2 (id_end_index i).

Definition internal_id_from_bytes (bytes : list byte) : outcome QuiltError QuiltPatchInternalIdV1 :=
  ensure (length bytes =? 5)%nat Other;;
  b ← index bytes 0;
  ensure (bool_decide (b = QUILT_VERSION_BYTE)) (QuiltVersionMismatch b QUILT_VERSION_BYTE);;
  s ← slice 1 3 bytes;
  e ← slice 3 5 bytes;
  Ok (mk_internal_id (le_value s) (le_value e)).

(** ** The index *)

Record QuiltIndexV1 := mk_index { quilt_patches : list QuiltPatchV1 }.

#[export] Instance QuiltIndexV1_eq_dec : EqDecision QuiltIndexV1.
Proof. solve_decision. Defined.

Fixpoint populate_start_indices_from (prev_end_index : Z) (patches : list QuiltPatchV1) : list QuiltPatchV1 :=
  match patches with
  | [] => []
  | p :: patches => set_range p prev_end_index (end_index p) :: populate_start_indices_from (end_index p) patches
  end.

Definition populate_start_indices (self : QuiltIndexV1) (first_start : Z) : QuiltIndexV1 :=
  mk_index (populate_start_indices_from first_start (quilt_patches self)).

(** [patches.filter(|patch| identifiers.remove(patch.identifier()))] with the
    identifiers that are left. *)
Fixpoint remove_matching (identifiers : gset rstring) (patches : list QuiltPatchV1) :
    list QuiltPatchV1 * gset rstring :=
  match patches with
  | [] => ([], identifiers)
  | p :: patches =>
    if bool_decide (patch_identifier p ∈ identifiers) then
      let '(matched, rest) := remove_matching (identifiers ∖ {[patch_identifier p]}) patches in
      (p :: matched, rest)
    else remove_matching identifiers patches
  end.

Definition get_quilt_patches_by_identifiers (self : QuiltIndexV1) (identifiers : list rstring) :
    outcome QuiltError (list QuiltPatchV1) :=
  let '(patches, rest) := remove_matching (list_to_set identifiers) (quilt_patches self) in
  ensure (bool_decide (rest = ∅)) (BlobsNotFoundInQuilt rest);;
  Ok patches.

Definition get_quilt_patches_by_tag (self : QuiltIndexV1) (target_tag target_value : rstring) :
    list QuiltPatchV1 :=
  List.filter (fun p => has_matched_tag p target_tag target_value) (quilt_patches self).

Definition patch_sliver_indices (p : QuiltPatchV1) : list SliverIndex :=
  sliver_indices (start_index p) (end_index p).

Definition get_sliver_indices_for_tag (self : QuiltIndexV1) (target_tag target_value : rstring) :
    list SliverIndex :=
  concat (patch_sliver_indices <$>
    List.filter (fun p => has_matched_tag p target_tag target_value) (quilt_patches self)).

Definition get_sliver_indices_for_identifiers (self : QuiltIndexV1) (identifiers : list rstring) :
    outcome QuiltError (list SliverIndex) :=
  let '(patches, rest) := remove_matching (list_to_set identifiers) (quilt_patches self) in
  ensure (bool_decide (rest = ∅)) (BlobsNotFoundInQuilt rest);;
  Ok (concat (patch_sliver_indices <$> patches)).

(** The identifier of a patch is read back from its bytes. *)
Lemma internal_id_roundtrip i : 0 <= id_start_index i < 2 ^ 16 -> 0 <= id_end_index i < 2 ^ 16 ->
  internal_id_from_bytes (internal_id_to_bytes i) = Ok i.
Proof.
  destruct i as [s e]. cbn [id_start_index id_end_index]. intros Hs He. unfold internal_id_from_bytes.
  change (length (internal_id_to_bytes (mk_internal_id s e)) =? 5)%nat with true.
  change (index (internal_id_to_bytes (mk_internal_id s e)) 0) with (@Ok QuiltError _ QUILT_VERSION_BYTE).
  cbn [ensure mbind outcome_bind]. rewrite bool_decide_true by done. cbn [ensure mbind outcome_bind].
  change (slice 1 3 (internal_id_to_bytes (mk_internal_id s e))) with (@Ok QuiltError _ (le_bytes 2 s)).
  change (slice 3 5 (internal_id_to_bytes (mk_internal_id s e))) with (@Ok QuiltError _ (le_bytes 2 e)).
  cbn [mbind outcome_bind]. by rewrite !le_value_le_bytes.
Qed.
