(* ===== verification/Quilt.v ===== *)
(** * Quilts

    Models encoding/quilt_encoding.rs: a quilt packs blobs into the columns of
    the message matrix of one large blob, after an index.  The file holds the
    format of a blob in a quilt, the size of the symbols, the encoder
    [construct_quilt], and the two readers: [QuiltV1] has the whole quilt and
    [QuiltDecoderV1] some of its secondary slivers.  Both implement the interface
    [QuiltColumnRangeReader] for which decoding is written.  Sizes and positions
    are [nat]: they stay below the size of data in memory, except where they are
    read from the quilt, and those are compared at their width first.  The crate
    bcs is the class [Bcs]. *)

From stdpp Require Import sorting.
From S2P Require Import Prelude Core EncodingConfig Symbols ReedSolomon Merkle Metadata RecoverySymbols.
From S2P Require Import Slivers Loops BlobEncoder QuiltIndex.

(** ** Serialization

    [bcs::to_bytes], [bcs::serialized_size] and [bcs::from_bytes] at one type;
    their errors carry no information here. *)
Class Bcs (T : Type) := {
  bcs_to_bytes : T -> option (list byte);
  bcs_serialized_size : T -> option nat;
  bcs_from_bytes : list byte -> option T;
}.

(** ** Arithmetic on [usize]

    A division panics for a zero divisor. *)
Definition ceil_div (a b : nat) : nat := (a / b + if (a mod b =? 0)%nat then 0 else 1)%nat.

Definition usize_div {E} (a b : nat) : outcome E nat := if (b =? 0)%nat then Panic else Ok (a / b)%nat.
Definition usize_rem {E} (a b : nat) : outcome E nat := if (b =? 0)%nat then Panic else Ok (a mod b)%nat.
Definition usize_div_ceil {E} (a b : nat) : outcome E nat :=
  if (b =? 0)%nat then Panic else Ok (ceil_div a b).
Definition usize_checked_sub (a b : nat) : option nat := if (b <=? a)%nat then Some (a - b)%nat else None.

(** ** The header of a blob *)

Record BlobHeaderV1 := mk_header { header_length : Z; header_mask : Z }.

Definition TAGS_ENABLED : Z := 1.
Definition MAX_SERIALIZED_BLOB_SIZE : Z := u32_MAX.

(** [from_bytes] of a slice that the caller converts to an array. *)
Definition header_from_bytes (bytes : list byte) : outcome QuiltError BlobHeaderV1 :=
  version ← ok_or (bytes !! 0%nat) InvalidQuiltData;
  ensure (bool_decide (version = QUILT_VERSION_BYTE)) InvalidQuiltData;;
  mask ← ok_or (bytes !! 5%nat) InvalidQuiltData;
  Ok (mk_header (le_value (take 4 (drop 1 bytes))) (byte_val mask)).

Definition header_as_bytes (self : BlobHeaderV1) : list byte :=
  [QUILT_VERSION_BYTE] ++ le_bytes 4 (header_length self) ++ [byte_of (header_mask self)].

Definition has_tags (self : BlobHeaderV1) : bool := negb (Z.land (header_mask self) TAGS_ENABLED =? 0).

Definition set_has_tags (self : BlobHeaderV1) (has_tags : bool) : BlobHeaderV1 :=
  mk_header (header_length self)
    (if has_tags then Z.lor (header_mask self) TAGS_ENABLED
     else Z.ldiff (header_mask self) TAGS_ENABLED).

(** ** Reading *)

Class QuiltColumnRangeReader (T : Type) := {
  range_read_from_columns : T -> nat -> nat -> nat -> outcome QuiltError (list byte);
  total_data_size : T -> outcome QuiltError nat;
}.

Section quilt.
Context `{Build} `{!Bcs rstring} `{!Bcs Tags} `{!Bcs (list wire_patch)}.

Definition index_to_bytes (i : QuiltIndexV1) : option (list byte) :=
  bcs_to_bytes (patch_to_wire <$> quilt_patches i).
Definition index_serialized_size (i : QuiltIndexV1) : option nat :=
  bcs_serialized_size (patch_to_wire <$> quilt_patches i).
Definition index_from_bytes (bytes : list byte) : option QuiltIndexV1 :=
  (fun l => mk_index (patch_from_wire <$> l)) <$> bcs_from_bytes bytes.

Section decode.
Context {T : Type} `{!QuiltColumnRangeReader T}.
Implicit Types data_source : T.

Definition decode_quilt_index data_source (column_size : nat) : outcome QuiltError QuiltIndexV1 :=
  quilt_version_bytes ← range_read_from_columns data_source 0 0 QUILT_VERSION_BYTES_LENGTH;
  debug_assert (length quilt_version_bytes =? QUILT_VERSION_BYTES_LENGTH)%nat;;
  check_quilt_version quilt_version_bytes;;
  size_bytes ← range_read_from_columns data_source 0 QUILT_VERSION_BYTES_LENGTH
                 QUILT_INDEX_SIZE_BYTES_LENGTH;
  debug_assert (length size_bytes =? QUILT_INDEX_SIZE_BYTES_LENGTH)%nat;;
  ensure (length size_bytes =? 4)%nat FailedToExtractQuiltIndexSize;;
  let index_size := le_value size_bytes in
  let max_index_size := saturating_sub
    (Z.min (Z.of_nat column_size * Z.of_nat MAX_NUM_SLIVERS_FOR_QUILT_INDEX) (2 ^ 64 - 1))
    (Z.of_nat QUILT_INDEX_PREFIX_SIZE) in
  ensure (negb (max_index_size <? index_size)) InvalidQuiltData;;
  let index_size := Z.to_nat index_size in
  index_bytes ← range_read_from_columns data_source 0 QUILT_INDEX_PREFIX_SIZE index_size;
  debug_assert (length index_bytes =? index_size)%nat;;
  quilt_index ← ok_or (index_from_bytes index_bytes) QuiltIndexSerDerError;
  let total_size := (index_size + QUILT_INDEX_PREFIX_SIZE)%nat in
  columns_needed ← usize_div_ceil total_size column_size;
  first_start ← ok_or (try_from 16 (Z.of_nat columns_needed)) InvalidQuiltData;
  Ok (populate_start_indices quilt_index first_start).

Definition decode_blob_identifier data_source (start_col initial_offset : nat) :
    outcome QuiltError (rstring * nat) :=
  size_buffer ← range_read_from_columns data_source start_col initial_offset
                  BLOB_IDENTIFIER_SIZE_BYTES_LENGTH;
  debug_assert (length size_buffer =? BLOB_IDENTIFIER_SIZE_BYTES_LENGTH)%nat;;
  let offset := (initial_offset + BLOB_IDENTIFIER_SIZE_BYTES_LENGTH)%nat in
  ensure (length size_buffer =? 2)%nat InvalidQuiltData;;
  let identifier_size := Z.to_nat (le_value size_buffer) in
  identifier_bytes ← range_read_from_columns data_source start_col offset identifier_size;
  debug_assert (length identifier_bytes =? identifier_size)%nat;;
  identifier ← ok_or (bcs_from_bytes identifier_bytes) InvalidIdentifier;
  Ok (identifier, BLOB_IDENTIFIER_SIZE_BYTES_LENGTH + identifier_size)%nat.

Definition decode_blob_tags data_source (start_col initial_offset : nat) :
    outcome QuiltError (Tags * nat) :=
  size_bytes ← range_read_from_columns data_source start_col initial_offset TAGS_SIZE_BYTES_LENGTH;
  debug_assert (length size_bytes =? TAGS_SIZE_BYTES_LENGTH)%nat;;
  ensure (length size_bytes =? 2)%nat InvalidQuiltData;;
  let tags_size := Z.to_nat (le_value size_bytes) in
  let offset := (initial_offset + TAGS_SIZE_BYTES_LENGTH)%nat in
  tags_bytes ← range_read_from_columns data_source start_col offset tags_size;
  debug_assert (length tags_bytes =? tags_size)%nat;;
  tags ← ok_or (bcs_from_bytes tags_bytes) FailedToDecodeExtension;
  Ok (tags, offset + tags_size - initial_offset)%nat.

Definition quilt_decode_blob data_source (start_col : nat) : outcome QuiltError QuiltStoreBlob :=
  header_bytes ← range_read_from_columns data_source start_col 0 BLOB_HEADER_SIZE;
  debug_assert (length header_bytes =? BLOB_HEADER_SIZE)%nat;;
  ensure (length header_bytes =? BLOB_HEADER_SIZE)%nat InvalidQuiltData;;
  blob_header ← header_from_bytes header_bytes;
  total_data ← total_data_size data_source;
  ensure (header_length blob_header <=? Z.of_nat total_data) InvalidQuiltData;;
  let blob_bytes_size := Z.to_nat (header_length blob_header) in
  '(identifier, bytes_consumed) ← decode_blob_identifier data_source start_col BLOB_HEADER_SIZE;
  let offset := (BLOB_HEADER_SIZE + bytes_consumed)%nat in
  blob_bytes_size ← ok_or (usize_checked_sub blob_bytes_size bytes_consumed) InvalidQuiltData;
  '(tags, offset, blob_bytes_size) ←
    (if has_tags blob_header then
       '(tags, bytes_consumed) ← decode_blob_tags data_source start_col offset;
       blob_bytes_size ← ok_or (usize_checked_sub blob_bytes_size bytes_consumed) InvalidQuiltData;
       Ok (tags, offset + bytes_consumed, blob_bytes_size)%nat
     else Ok (∅, offset, blob_bytes_size));
  data_bytes ← range_read_from_columns data_source start_col offset blob_bytes_size;
  debug_assert (length data_bytes =? blob_bytes_size)%nat;;
  blob ← store_blob_new data_bytes identifier;
  Ok (with_tags blob tags).

End decode.

(** ** The size of the symbols *)

Definition can_blobs_fit_into_matrix {E} (blobs_sizes : list nat) (n_columns column_size : nat) :
    outcome E bool :=
  columns ← mapM_outcome (fun blob_size => usize_div_ceil blob_size column_size) blobs_sizes;
  Ok (sum_list columns <=? n_columns)%nat.

(** The binary search of [compute_symbol_size]. *)
Fixpoint search_symbol_size {E} (fuel : nat) (blobs_sizes : list nat) (n_columns n_rows : nat)
    (min_val max_val : nat) : outcome E nat :=
  if (min_val <? max_val)%nat then
    match fuel with
    | O => Panic
    | S fuel =>
      let mid := ((min_val + max_val) / 2)%nat in
      fits ← can_blobs_fit_into_matrix blobs_sizes n_columns (mid * n_rows);
      if fits : bool then search_symbol_size fuel blobs_sizes n_columns n_rows min_val mid
      else search_symbol_size fuel blobs_sizes n_columns n_rows (mid + 1) max_val
    end
  else Ok min_val.

Definition quilt_symbol_size (blobs_sizes : list nat) (n_columns n_rows : nat)
    (max_num_columns_for_quilt_index : nat) (encoding_type : EncodingType) : outcome QuiltError nat :=
  ensure (negb (n_columns <? length blobs_sizes)%nat)
    (TooManyBlobs (length blobs_sizes - 1) (n_columns - 1));;
  ensure (negb (bool_decide (blobs_sizes = []))) EmptyInput;;
  all ← usize_div_ceil (sum_list blobs_sizes) (n_columns * n_rows);
  first ← expect (head blobs_sizes);
  first ← usize_div_ceil first (n_rows * max_num_columns_for_quilt_index);
  prefix ← usize_div_ceil QUILT_INDEX_PREFIX_SIZE n_rows;
  let min_val := Nat.max (Nat.max all first) prefix in
  share ← usize_div n_columns (length blobs_sizes);
  max_val ← usize_div_ceil (max_list blobs_sizes) (share * n_rows);
  min_val ← search_symbol_size max_val blobs_sizes n_columns n_rows min_val max_val;
  let symbol_size := Z.to_nat (next_multiple (Z.of_nat min_val) (required_alignment encoding_type)) in
  (if debug_assertions then
     fits ← can_blobs_fit_into_matrix blobs_sizes n_columns (symbol_size * n_rows); assert fits
   else Ok tt);;
  ensure (negb (max_symbol_size encoding_type <? Z.of_nat symbol_size)) QuiltOversize;;
  Ok symbol_size.

(** ** Encoding *)

(** The whole size of a serialized blob. *)
Definition serialized_blob_size (blob : QuiltStoreBlob) : outcome QuiltError nat :=
  identifier_size ← ok_or (bcs_serialized_size (identifier blob)) Other;
  ensure (negb (MAX_BLOB_IDENTIFIER_BYTES_LENGTH <=? Z.of_nat identifier_size)) InvalidIdentifier;;
  let prefix_size := (identifier_size + BLOB_IDENTIFIER_SIZE_BYTES_LENGTH)%nat in
  prefix_size ←
    (if bool_decide (tags blob = ∅) then Ok prefix_size
     else
       tags_size ← ok_or (bcs_serialized_size (tags blob)) Other;
       Ok (prefix_size + (tags_size + TAGS_SIZE_BYTES_LENGTH))%nat);
  let blob_content_size := (prefix_size + length (store_data blob))%nat in
  ensure (negb (MAX_SERIALIZED_BLOB_SIZE <? Z.of_nat blob_content_size)) QuiltOversize;;
  Ok (blob_content_size + BLOB_HEADER_SIZE)%nat.

Definition get_header_and_extension_bytes (blob : QuiltStoreBlob) : outcome QuiltError (list byte) :=
  size ← ok_or (bcs_serialized_size (identifier blob)) InvalidIdentifier;
  identifier_size ← ok_or (try_from 16 (Z.of_nat size)) InvalidIdentifier;
  serialized ← ok_or (bcs_to_bytes (identifier blob)) InvalidIdentifier;
  let identifier_bytes := le_bytes 2 identifier_size ++ serialized in
  '(header, extension_bytes) ←
    (if bool_decide (tags blob = ∅) then Ok (mk_header 0 0, [identifier_bytes])
     else
       serialized_tags ← ok_or (bcs_to_bytes (tags blob)) Other;
       tags_size ← ok_or (try_from 16 (len serialized_tags)) Other;
       Ok (set_has_tags (mk_header 0 0) true,
           [identifier_bytes; le_bytes 2 tags_size ++ serialized_tags]));
  let total_size := (sum_list (length <$> extension_bytes) + length (store_data blob))%nat in
  header_length ← ok_or (try_from 32 (Z.of_nat total_size)) QuiltOversize;
  let header_bytes := header_as_bytes (mk_header header_length (header_mask header)) in
  debug_assert (length header_bytes =? BLOB_HEADER_SIZE)%nat;;
  Ok (header_bytes ++ concat extension_bytes).

(** The loop of [write_bytes_to_columns]. *)
Fixpoint write_columns_loop {E} (fuel : nat) (bytes : list byte) (n_rows row_size symbol_size : nat)
    (data : list byte) (current_col current_row offset idx : nat) : outcome E (list byte) :=
  if (idx <? length bytes)%nat then
    match fuel with
    | O => Panic
    | S fuel =>
      let base_idx := (current_row * row_size + current_col * symbol_size)%nat in
      let start_idx := (base_idx + offset)%nat in
      let l := Nat.min (symbol_size - offset) (length bytes - idx) in
      src ← slice idx (idx + l) bytes;
      data ← write_range start_idx (start_idx + l) src data;
      current_row ← usize_rem (current_row + 1) n_rows;
      let current_col := if (current_row =? 0)%nat then (current_col + 1)%nat else current_col in
      write_columns_loop fuel bytes n_rows row_size symbol_size data current_col current_row 0 (idx + l)
    end
  else Ok data.

Definition write_bytes_to_columns {E} (data bytes : list byte)
    (start_col row_size column_size symbol_size bytes_to_skip : nat) : outcome E (list byte) :=
  n_rows ← usize_div column_size symbol_size;
  n_cols ← usize_div row_size symbol_size;
  skipped ← usize_div bytes_to_skip column_size;
  let current_col := (start_col + skipped)%nat in
  assert (current_col <? n_cols)%nat;;
  symbols ← usize_div bytes_to_skip symbol_size;
  current_row ← usize_rem symbols n_rows;
  offset ← usize_rem bytes_to_skip symbol_size;
  assert (offset <? symbol_size)%nat;;
  write_columns_loop (length bytes) bytes n_rows row_size symbol_size data current_col current_row offset 0.

(** The data is changed in place; the number of columns is returned. *)
Definition add_blob_to_quilt (data : list byte) (blob : QuiltStoreBlob) (is_meta_blob : bool)
    (current_col column_size row_size symbol_size : nat) : outcome QuiltError (list byte * nat) :=
  assert (is_multiple_of (Z.of_nat column_size) (Z.of_nat symbol_size));;
  '(data, total_bytes_written) ←
    (if is_meta_blob then Ok (data, 0%nat)
     else
       prefix_bytes ← get_header_and_extension_bytes blob;
       data ← write_bytes_to_columns data prefix_bytes current_col row_size column_size symbol_size 0;
       Ok (data, length prefix_bytes));
  data ← write_bytes_to_columns data (store_data blob) current_col row_size column_size symbol_size
           total_bytes_written;
  cols ← usize_div_ceil (total_bytes_written + length (store_data blob)) column_size;
  Ok (data, cols).

Record QuiltV1 := mk_quilt {
  quilt_data : list byte;
  quilt_row_size : nat;
  quilt_symbol_bytes : nat;
  quilt_index : option QuiltIndexV1;
}.

(** The order in which blobs are stored. *)
Definition blob_le (a b : QuiltStoreBlob) : Prop := str_le (identifier a) (identifier b).
#[export] Instance blob_le_dec : RelDecision blob_le.
Proof. intros a b. unfold blob_le. apply _. Defined.

(** The loop over adjacent pairs of sorted blobs. *)
Fixpoint check_duplicates (blobs : list QuiltStoreBlob) : outcome QuiltError unit :=
  match blobs with
  | a :: ((b :: _) as rest) =>
    ensure (negb (bool_decide (identifier a = identifier b))) (DuplicateIdentifier (identifier a));;
    check_duplicates rest
  | _ => Ok tt
  end.

(** The identifier of the meta blob. *)
Definition quilt_index_identifier : rstring :=
  [113; 117; 105; 108; 116; 95; 105; 110; 100; 101; 120].

(** One pass of the loop that fills the data. *)
Definition place_blob (column_size row_size symbol_size : nat)
    (s : list byte * list QuiltPatchV1 * nat) (blob : nat * QuiltStoreBlob) :
    outcome QuiltError (list byte * list QuiltPatchV1 * nat) :=
  let '(data, patches, current_col) := s in
  let '(i, blob) := blob in
  '(data, cols_needed) ← add_blob_to_quilt data blob false current_col column_size row_size symbol_size;
  patch ← index patches i;
  from ← expect (try_from 16 (Z.of_nat current_col));
  to ← expect (try_from 16 (Z.of_nat (current_col + cols_needed)));
  Ok (data, <[i := set_range patch from to]> patches, current_col + cols_needed)%nat.

(** The end of [construct_quilt]: the index goes to the first columns. *)
Definition add_index_to_quilt (data : list byte) (quilt_index : QuiltIndexV1) (serialized_index_size : Z)
    (index_total_size index_cols_needed column_size row_size symbol_size : nat) :
    outcome QuiltError (list byte) :=
  index_bytes ← expect (index_to_bytes quilt_index);
  let meta_blob_data := [QUILT_VERSION_BYTE] ++ le_bytes 4 serialized_index_size ++ index_bytes in
  assert (length meta_blob_data =? index_total_size)%nat;;
  meta_blob ← store_blob_new meta_blob_data quilt_index_identifier;
  '(data, index_cols_used) ← add_blob_to_quilt data meta_blob true 0 column_size row_size symbol_size;
  debug_assert (index_cols_used =? index_cols_needed)%nat;;
  Ok data.

Definition construct_quilt (config : EncodingConfigEnum) (blobs : list QuiltStoreBlob) :
    outcome QuiltError QuiltV1 :=
  let n_rows := Z.to_nat (n_source_symbols Primary config) in
  let n_columns := Z.to_nat (n_source_symbols Secondary config) in
  let blob_pairs := merge_sort blob_le blobs in
  check_duplicates blob_pairs;;
  quilt_patches ← mapM_outcome (fun b => patch_new_with_tags (identifier b) (tags b)) blob_pairs;
  size ← ok_or (index_serialized_size (mk_index quilt_patches)) QuiltIndexSerDerError;
  serialized_index_size ← expect (try_from 32 (Z.of_nat size));
  let index_total_size := (QUILT_INDEX_PREFIX_SIZE + Z.to_nat serialized_index_size)%nat in
  blob_sizes ← mapM_outcome serialized_blob_size blob_pairs;
  symbol_size ← quilt_symbol_size (index_total_size :: blob_sizes) n_columns n_rows
                  MAX_NUM_SLIVERS_FOR_QUILT_INDEX (encoding_type config);
  let row_size := (symbol_size * n_columns)%nat in
  let data := replicate (row_size * n_rows) x00 in
  let column_size := (symbol_size * n_rows)%nat in
  index_cols_needed ← usize_div_ceil index_total_size column_size;
  assert (index_cols_needed <=? MAX_NUM_SLIVERS_FOR_QUILT_INDEX)%nat;;
  '(data, quilt_patches, _) ← foldM (place_blob column_size row_size symbol_size)
    (data, quilt_patches, index_cols_needed) (enumerate blob_pairs);
  data ← add_index_to_quilt data (mk_index quilt_patches) serialized_index_size index_total_size
           index_cols_needed column_size row_size symbol_size;
  Ok (mk_quilt data row_size symbol_size (Some (mk_index quilt_patches))).

(** ** The whole quilt *)

(** [get_slice] of [QuiltV1::range_read_from_columns]. *)
Definition get_slice (self : QuiltV1) (col row skip limit : nat) : outcome QuiltError (list byte) :=
  let size := length (quilt_data self) in
  let base_index := (row * quilt_row_size self + col * quilt_symbol_bytes self)%nat in
  let start_index := (base_index + skip)%nat in
  let end_index := Nat.min (Nat.min (base_index + quilt_symbol_bytes self) (start_index + limit)) size in
  ensure (negb (size <=? start_index)%nat) (IndexOutOfBounds start_index size);;
  slice start_index end_index (quilt_data self).

(** Its loop. *)
Fixpoint read_columns_loop (fuel : nat) (self : QuiltV1) (n_rows current_col current_row : nat)
    (bytes_to_skip bytes_to_return : nat) (result : list byte) : outcome QuiltError (list byte) :=
  if (0 <? bytes_to_return)%nat then
    match fuel with
    | O => Panic
    | S fuel =>
      piece ← get_slice self current_col current_row bytes_to_skip bytes_to_return;
      current_row ← usize_rem (current_row + 1) n_rows;
      let current_col := if (current_row =? 0)%nat then (current_col + 1)%nat else current_col in
      read_columns_loop fuel self n_rows current_col current_row 0 (bytes_to_return - length piece)
        (result ++ piece)
    end
  else Ok result.

Definition quilt_range_read (self : QuiltV1) (start_col bytes_to_skip bytes_to_return : nat) :
    outcome QuiltError (list byte) :=
  ensure (negb ((quilt_symbol_bytes self =? 0)%nat || (quilt_row_size self =? 0)%nat ||
                bool_decide (quilt_data self = []))) Other;;
  n_rows ← usize_div (length (quilt_data self)) (quilt_row_size self);
  let symbols_to_skip := (bytes_to_skip / quilt_symbol_bytes self)%nat in
  cols ← usize_div symbols_to_skip n_rows;
  current_row ← usize_rem symbols_to_skip n_rows;
  read_columns_loop bytes_to_return self n_rows (start_col + cols) current_row
    (bytes_to_skip - symbols_to_skip * quilt_symbol_bytes self) bytes_to_return [].

#[export] Instance quilt_reader : QuiltColumnRangeReader QuiltV1 := {|
  range_read_from_columns := quilt_range_read;
  total_data_size self := Ok (length (quilt_data self));
|}.

Definition quilt_get_index (self : QuiltV1) : outcome QuiltError QuiltIndexV1 :=
  ok_or (quilt_index self) MissingQuiltIndex.

(** [QuiltV1::get_or_decode_quilt_index]; the index is also stored. *)
Definition quilt_get_or_decode_index (self : QuiltV1) : outcome QuiltError (QuiltV1 * QuiltIndexV1) :=
  match quilt_index self with
  | Some i => Ok (self, i)
  | None =>
    n_rows ← usize_div (length (quilt_data self)) (quilt_row_size self);
    i ← decode_quilt_index self (n_rows * quilt_symbol_bytes self);
    Ok (mk_quilt (quilt_data self) (quilt_row_size self) (quilt_symbol_bytes self) (Some i), i)
  end.

Definition new_from_quilt_blob (quilt_blob : list byte) (config : EncodingConfigEnum) :
    outcome QuiltError QuiltV1 :=
  ensure (negb (bool_decide (quilt_blob = []))) EmptyInput;;
  let n_primary := Z.to_nat (n_source_symbols Primary config) in
  let n_secondary := Z.to_nat (n_source_symbols Secondary config) in
  let n_source := (n_primary * n_secondary)%nat in
  ensure (negb (n_source =? 0)%nat) Other;;
  ensure (is_multiple_of (len quilt_blob) (Z.of_nat n_source)) InvalidFormatNotAligned;;
  symbol_size ← usize_div (length quilt_blob) n_source;
  let row_size := (symbol_size * n_secondary)%nat in
  '(quilt, _) ← quilt_get_or_decode_index (mk_quilt quilt_blob row_size symbol_size None);
  Ok quilt.

(** [QuiltEnum::new]; there is one version. *)
Definition quilt_enum_new (quilt_blob : list byte) (config : EncodingConfigEnum) :
    outcome QuiltError QuiltV1 :=
  v ← new_from_sliver quilt_blob;
  match v with QuiltVersionV1 => new_from_quilt_blob quilt_blob config end.

Definition decode_patch (self : QuiltV1) (p : QuiltPatchV1) : outcome QuiltError QuiltStoreBlob :=
  quilt_decode_blob self (Z.to_nat (start_index p)).

Definition quilt_get_blobs_by_identifiers (self : QuiltV1) (identifiers : list rstring) :
    outcome QuiltError (list QuiltStoreBlob) :=
  i ← quilt_get_index self;
  patches ← get_quilt_patches_by_identifiers i identifiers;
  mapM_outcome (decode_patch self) patches.

Definition quilt_get_blob_by_patch_internal_id (self : QuiltV1) (patch_internal_id : list byte) :
    outcome QuiltError QuiltStoreBlob :=
  id ← internal_id_from_bytes patch_internal_id;
  quilt_decode_blob self (Z.to_nat (id_start_index id)).

Definition quilt_get_blobs_by_tag (self : QuiltV1) (target_tag target_value : rstring) :
    outcome QuiltError (list QuiltStoreBlob) :=
  i ← quilt_get_index self;
  mapM_outcome (decode_patch self) (get_quilt_patches_by_tag i target_tag target_value).

Definition quilt_get_all_blobs (self : QuiltV1) : outcome QuiltError (list QuiltStoreBlob) :=
  i ← quilt_get_index self;
  mapM_outcome (decode_patch self) (quilt_patches i).

(** ** Some slivers of a quilt *)

Record QuiltDecoderV1 := mk_decoder {
  decoder_slivers : gmap Z SliverData;
  decoder_index : option QuiltIndexV1;
  decoder_column_size : option nat;
}.

Definition validate_and_update_column_size (column_size : option nat) (sliver_data_len : nat) :
    outcome QuiltError (option nat) :=
  match column_size with
  | None => Ok (Some sliver_data_len)
  | Some expected =>
    ensure (expected =? sliver_data_len)%nat (ColumnSizeMismatch expected sliver_data_len);;
    Ok column_size
  end.

(** [add_slivers] and [add_owned_slivers]. *)
Definition add_slivers (self : QuiltDecoderV1) (slivers : list SliverData) :
    outcome QuiltError QuiltDecoderV1 :=
  foldM (fun self sliver =>
      column_size ← validate_and_update_column_size (decoder_column_size self)
                      (length (sym_data (sliver_symbols sliver)));
      Ok (mk_decoder (<[sliver_index_get (sliver_idx sliver) := sliver]> (decoder_slivers self))
            (decoder_index self) column_size))
    self slivers.

(** [QuiltDecoderV1::new], [new_with_owned] and [new_with_quilt_index]. *)
Definition decoder_new (slivers : list SliverData) (quilt_index : option QuiltIndexV1) :
    outcome QuiltError QuiltDecoderV1 :=
  add_slivers (mk_decoder ∅ quilt_index None) slivers.

(** [i as u16]. *)
Definition column_key (i : nat) : Z := Z.of_nat i mod 2 ^ 16.

Definition check_missing_slivers (self : QuiltDecoderV1) (start_idx end_idx : nat) :
    outcome QuiltError unit :=
  let missing := List.filter (fun i => bool_decide (decoder_slivers self !! column_key i = None))
                   (seq start_idx (end_idx - start_idx)) in
  ensure (bool_decide (missing = [])) (MissingSlivers ((fun i => mk_sliver_index (column_key i)) <$> missing)).

(** The loop of [QuiltDecoderV1::range_read_from_columns]. *)
Fixpoint read_slivers_loop (slivers : list SliverData) (bytes_to_skip bytes_to_return : nat)
    (result : list byte) : outcome QuiltError (list byte) :=
  match slivers with
  | [] => Ok result
  | sliver :: slivers =>
    if (bytes_to_return =? 0)%nat then Ok result
    else
      let data := sym_data (sliver_symbols sliver) in
      if (length data <=? bytes_to_skip)%nat
      then read_slivers_loop slivers (bytes_to_skip - length data) bytes_to_return result
      else
        let start_offset := bytes_to_skip in
        let available := (length data - start_offset)%nat in
        let copy_len := Nat.min available bytes_to_return in
        piece ← slice start_offset (start_offset + copy_len) data;
        read_slivers_loop slivers 0 (bytes_to_return - copy_len) (result ++ piece)
  end.

Definition decoder_range_read (self : QuiltDecoderV1) (start_col bytes_to_skip bytes_to_return : nat) :
    outcome QuiltError (list byte) :=
  check_missing_slivers self start_col (start_col + 1);;
  column_size ← expect (decoder_column_size self);
  cols ← usize_div_ceil (bytes_to_skip + bytes_to_return) column_size;
  let end_col := (start_col + cols)%nat in
  check_missing_slivers self start_col end_col;;
  slivers ← mapM_outcome (fun col => expect (decoder_slivers self !! column_key col))
              (seq start_col (end_col - start_col));
  result ← read_slivers_loop slivers bytes_to_skip bytes_to_return [];
  ensure (length result =? bytes_to_return)%nat (InsufficientQuiltData bytes_to_return (length result));;
  Ok result.

Definition decoder_total_data_size (self : QuiltDecoderV1) : outcome QuiltError nat :=
  match decoder_column_size self with
  | Some col_size => Ok (size (decoder_slivers self) * col_size)%nat
  | None => debug_assert (bool_decide (decoder_slivers self = ∅));; Ok 0%nat
  end.

#[export] Instance decoder_reader : QuiltColumnRangeReader QuiltDecoderV1 := {|
  range_read_from_columns := decoder_range_read;
  total_data_size := decoder_total_data_size;
|}.

Definition decoder_get_or_decode_index (self : QuiltDecoderV1) :
    outcome QuiltError (QuiltDecoderV1 * QuiltIndexV1) :=
  match decoder_index self with
  | Some i => Ok (self, i)
  | None =>
    check_missing_slivers self 0 1;;
    column_size ← expect (decoder_column_size self);
    i ← decode_quilt_index self column_size;
    Ok (mk_decoder (decoder_slivers self) (Some i) (decoder_column_size self), i)
  end.

(** A blob in the given columns, all of which must be present. *)
Definition decode_columns (self : QuiltDecoderV1) (start_index end_index : Z) :
    outcome QuiltError QuiltStoreBlob :=
  let start_col := Z.to_nat start_index in
  check_missing_slivers self start_col (Z.to_nat end_index);;
  quilt_decode_blob self start_col.

Definition get_patch_by_quilt_patch (self : QuiltDecoderV1) (p : QuiltPatchV1) :
    outcome QuiltError QuiltStoreBlob :=
  decode_columns self (start_index p) (end_index p).

Definition decoder_get_blobs_by_identifiers (self : QuiltDecoderV1) (identifiers : list rstring) :
    outcome QuiltError (list QuiltStoreBlob) :=
  i ← ok_or (decoder_index self) MissingQuiltIndex;
  patches ← get_quilt_patches_by_identifiers i identifiers;
  mapM_outcome (get_patch_by_quilt_patch self) patches.

Definition decoder_get_blob_by_patch_internal_id (self : QuiltDecoderV1) (patch_internal_id : list byte) :
    outcome QuiltError QuiltStoreBlob :=
  id ← internal_id_from_bytes patch_internal_id;
  decode_columns self (id_start_index id) (id_end_index id).

Definition decoder_get_blobs_by_tag (self : QuiltDecoderV1) (target_tag target_value : rstring) :
    outcome QuiltError (list QuiltStoreBlob) :=
  i ← ok_or (decoder_index self) MissingQuiltIndex;
  mapM_outcome (get_patch_by_quilt_patch self) (get_quilt_patches_by_tag i target_tag target_value).

End quilt.

(** ** Encoding into slivers *)

Record QuiltMetadataV1 := {
  quilt_id : BlobId;
  quilt_metadata : BlobMetadata;
  quilt_metadata_index : QuiltIndexV1;
}.

Section encode.
Context `{Build} `{HashFunction} `{ReedSolomonSimd}.
Context `{!Bcs rstring} `{!Bcs Tags} `{!Bcs (list wire_patch)}.

Definition quilt_encode_with_metadata (config : EncodingConfigEnum) (blobs : list QuiltStoreBlob) :
    outcome QuiltError (list SliverPair * QuiltMetadataV1) :=
  quilt ← construct_quilt config blobs;
  i ← quilt_get_index quilt;
  encoder ← map_err (fun _ => QuiltOversize) (blob_encoder_new config (quilt_data quilt));
  assert (be_symbol_usize encoder =? quilt_symbol_bytes quilt)%nat;;
  '(sliver_pairs, md) ← encode_with_metadata encoder;
  Ok (sliver_pairs, {| quilt_id := blob_id md; quilt_metadata := metadata md; quilt_metadata_index := i |}).

End encode.
