(* ===== verification/QuiltLayout.v ===== *)
(** * The columns of a quilt as one sequence of bytes

    The data of a quilt is stored row by row, but blobs are written and read
    column by column.  [column_major] lists the bytes in the order of columns;
    writing to columns splices bytes into this list, and reading from columns
    takes a piece of it. *)

From S2P Require Import Prelude Core EncodingConfig Symbols Slivers QuiltIndex Quilt.

Local Open Scope nat_scope.

(** ** Rounding up *)

Lemma ceil_div_spec a b : 0 < b -> a <= b * ceil_div a b < a + b.
Proof.
  intros Hb. unfold ceil_div. pose proof (Nat.div_mod_eq a b) as Hdm.
  pose proof (Nat.mod_upper_bound a b ltac:(lia)) as Hm. destruct (Nat.eqb_spec (a mod b) 0); nia.
Qed.

Lemma ceil_div_le_iff a b q : 0 < b -> ceil_div a b <= q <-> a <= b * q.
Proof. intros Hb. pose proof (ceil_div_spec a b Hb). nia. Qed.

Lemma usize_div_ceil_ok {E} a b : 0 < b -> usize_div_ceil (E:=E) a b = Ok (ceil_div a b).
Proof. intros Hb. unfold usize_div_ceil. by destruct (Nat.eqb_spec b 0); [lia|]. Qed.

Lemma usize_div_ok {E} a b : 0 < b -> usize_div (E:=E) a b = Ok (a / b).
Proof. intros Hb. unfold usize_div. by destruct (Nat.eqb_spec b 0); [lia|]. Qed.

Lemma usize_rem_ok {E} a b : 0 < b -> usize_rem (E:=E) a b = Ok (a mod b).
Proof. intros Hb. unfold usize_rem. by destruct (Nat.eqb_spec b 0); [lia|]. Qed.

(** ** Replacing a piece of a list *)

Definition splice {A} (p : nat) (bs l : list A) : list A := take p l ++ bs ++ drop (p + length bs) l.

Section splice.
Context {A : Type}.
Implicit Types l bs : list A.

Lemma length_splice p bs l : p + length bs <= length l -> length (splice p bs l) = length l.
Proof. intros Hp. unfold splice. len_solve. Qed.

Lemma lookup_splice p bs l q : p + length bs <= length l ->
  splice p bs l !! q = if decide (p <= q < p + length bs) then bs !! (q - p) else l !! q.
Proof.
  intros Hp. unfold splice. case_decide.
  - rewrite lookup_app_r by len_solve. rewrite lookup_app_l by len_solve. f_equal. len_solve.
  - destruct (decide (q < p)).
    + rewrite lookup_app_l by len_solve. by rewrite lookup_take_lt.
    + rewrite !lookup_app_r by len_solve. rewrite lookup_drop. f_equal. len_solve.
Qed.

Lemma splice_nil p l : splice p [] l = l.
Proof. unfold splice. cbn. by rewrite Nat.add_0_r, take_drop. Qed.

Lemma splice_app p bs bs' l : p + length bs + length bs' <= length l ->
  splice (p + length bs) bs' (splice p bs l) = splice p (bs ++ bs') l.
Proof.
  intros Hp. apply list_eq. intros q.
  rewrite !lookup_splice by (rewrite ?length_splice, ?length_app; lia).
  rewrite length_app. repeat case_decide; try lia; [|by rewrite lookup_app_l by lia|done].
  rewrite lookup_app_r by lia. f_equal. lia.
Qed.

Lemma splice_middle l1 l2 l3 bs : length bs = length l2 ->
  splice (length l1) bs (l1 ++ l2 ++ l3) = l1 ++ bs ++ l3.
Proof.
  intros Hl. unfold splice. rewrite take_app_length. do 2 f_equal.
  rewrite <- drop_drop, drop_app_length. by rewrite Hl, drop_app_length.
Qed.

End splice.

(** ** Cells *)

Section layout.
Context (ss rows cols : nat).
Context (Hss : 0 < ss) (Hrows : 0 < rows) (Hcols : 0 < cols).
Let cs := ss * rows.
Let total := ss * cols * rows.

(** Where the byte at position [p] of the columns is stored. *)
Definition cell (p : nat) : nat := ((p / ss) mod rows) * (ss * cols) + p / (ss * rows) * ss + p mod ss.

Lemma cell_at c r o : r < rows -> o < ss -> cell (c * cs + r * ss + o) = r * (ss * cols) + c * ss + o.
Proof.
  intros Hr Ho. unfold cell, cs. replace (c * (ss * rows) + r * ss + o) with ((c * rows + r) * ss + o) by lia.
  rewrite Nat.div_add_l, (Nat.div_small o) by lia. rewrite Nat.add_0_r.
  rewrite (Nat.add_comm _ o), Nat.Div0.mod_add, (Nat.mod_small o) by lia.
  rewrite (Nat.add_comm _ r), Nat.Div0.mod_add, (Nat.mod_small r) by lia.
  replace (o + (r + c * rows) * ss) with (c * (ss * rows) + (o + r * ss)) by lia.
  rewrite Nat.div_add_l, (Nat.div_small (o + r * ss)) by nia. lia.
Qed.

Lemma position p : exists c r o, p = c * cs + r * ss + o /\ r < rows /\ o < ss /\
  c = p / cs /\ r = (p / ss) mod rows /\ o = p mod ss.
Proof.
  exists (p / cs), ((p / ss) mod rows), (p mod ss). unfold cs.
  pose proof (Nat.mod_upper_bound (p / ss) rows ltac:(lia)). pose proof (Nat.mod_upper_bound p ss ltac:(lia)).
  split_and!; try done. rewrite <- Nat.Div0.div_div.
  pose proof (Nat.div_mod_eq p ss). pose proof (Nat.div_mod_eq (p / ss) rows). nia.
Qed.

Lemma position_unique c r o c' r' o' : r < rows -> o < ss -> r' < rows -> o' < ss ->
  c * cs + r * ss + o = c' * cs + r' * ss + o' -> c = c' /\ r = r' /\ o = o'.
Proof.
  intros Hr Ho Hr' Ho' Heq.
  assert (r * ss + o < cs) by (unfold cs; nia). assert (r' * ss + o' < cs) by (unfold cs; nia).
  assert (c = c') as -> by (destruct (Nat.lt_trichotomy c c') as [|[]]; [nia|done|nia]).
  assert (r = r') as -> by (destruct (Nat.lt_trichotomy r r') as [|[]]; [nia|done|nia]). lia.
Qed.

(** The coordinates of a position. *)
Lemma position_at c r o : r < rows -> o < ss -> let p := c * cs + r * ss + o in
  p / cs = c /\ (p / ss) mod rows = r /\ p mod ss = o.
Proof.
  intros Hr Ho p. destruct (position p) as (c' & r' & o' & Hp & Hr' & Ho' & <- & <- & <-).
  destruct (position_unique c r o c' r' o' Hr Ho Hr' Ho' Hp) as (-> & -> & ->). done.
Qed.

Lemma position_bound c r o : r < rows -> o < ss -> c * cs + r * ss + o < total -> c < cols.
Proof. unfold cs, total. nia. Qed.

Lemma cell_bound p : p < total -> cell p < total.
Proof.
  intros Hp. destruct (position p) as (c & r & o & -> & Hr & Ho & _).
  pose proof (position_bound c r o Hr Ho Hp). rewrite cell_at by done. unfold total. nia.
Qed.

Lemma cell_inj p q : p < total -> q < total -> cell p = cell q -> p = q.
Proof.
  intros Hp Hq. destruct (position p) as (c & r & o & -> & Hr & Ho & _), (position q) as (c' & r' & o' & -> & Hr' & Ho' & _).
  pose proof (position_bound c r o Hr Ho Hp). pose proof (position_bound c' r' o' Hr' Ho' Hq).
  rewrite !cell_at by done. intros Heq.
  assert (r = r') as -> by (destruct (Nat.lt_trichotomy r r') as [|[]]; [nia|done|nia]).
  assert (c = c') as -> by (destruct (Nat.lt_trichotomy c c') as [|[]]; [nia|done|nia]). lia.
Qed.

(** Within a symbol, positions are adjacent. *)
Lemma cell_symbol p i : p mod ss + i < ss -> cell (p + i) = cell p + i.
Proof.
  destruct (position p) as (c & r & o & -> & Hr & Ho & _ & _ & <-). intros Hi.
  rewrite <- Nat.add_assoc, !cell_at by lia. lia.
Qed.

Definition column_major (data : list byte) : list byte :=
  (fun p => default x00 (data !! cell p)) <$> seq 0 total.

Lemma length_column_major data : length (column_major data) = total.
Proof. unfold column_major. by rewrite length_fmap, length_seq. Qed.

Lemma lookup_column_major data p : length data = total -> p < total -> column_major data !! p = data !! cell p.
Proof.
  intros Hd Hp. unfold column_major. rewrite list_lookup_fmap, lookup_seq_lt by done. cbn.
  destruct (lookup_lt_is_Some_2 data (cell p)) as [x ->]; [|done]. rewrite Hd. by apply cell_bound.
Qed.

Lemma column_major_zeros : column_major (replicate total x00) = replicate total x00.
Proof.
  apply list_eq. intros q. destruct (decide (q < total)).
  - rewrite lookup_column_major by (by rewrite ?length_replicate). rewrite !lookup_replicate_2; [done|done|].
    by apply cell_bound.
  - by rewrite !lookup_ge_None_2 by (rewrite ?length_column_major, ?length_replicate; lia).
Qed.

(** *** One symbol *)

Lemma write_symbol {E} data p src : length data = total -> p mod ss + length src <= ss ->
  p + length src <= total -> src <> [] ->
  exists data', write_range (E:=E) (cell p) (cell p + length src) src data = Ok data' /\
    length data' = total /\ column_major data' = splice p src (column_major data).
Proof.
  intros Hd Hs Hp Hne. assert (0 < length src) by (by destruct src; [|cbn; lia]).
  assert (forall i, i < length src -> cell (p + i) = cell p + i) as Hcell by (intros; apply cell_symbol; lia).
  pose proof (cell_bound (p + (length src - 1)) ltac:(lia)) as Hb. rewrite Hcell in Hb by lia.
  exists (splice (cell p) src data). unfold write_range.
  rewrite (proj2 (Nat.leb_le _ _)), (proj2 (Nat.leb_le _ _)), (proj2 (Nat.eqb_eq _ _)) by lia. cbn [andb].
  assert (length (splice (cell p) src data) = total) as Hd' by (rewrite length_splice; lia).
  split_and!; [done|done|]. apply list_eq. intros q.
  destruct (decide (q < total)) as [Hq|]; cycle 1.
  { by rewrite !lookup_ge_None_2 by (rewrite ?length_splice, ?length_column_major; rewrite ?length_column_major; lia). }
  rewrite lookup_column_major, !lookup_splice by (rewrite ?length_column_major; lia).
  rewrite lookup_column_major by done. destruct (decide (p <= q < p + length src)) as [Hin|Hout].
  - assert (cell q = cell p + (q - p)) as Hcq by (rewrite <- Hcell by lia; f_equal; lia).
    rewrite decide_True by lia. f_equal. lia.
  - rewrite decide_False; [done|]. intros Hc. destruct Hout.
    assert (p + (cell q - cell p) = q); [|lia]. apply cell_inj; [lia|done|]. rewrite Hcell; lia.
Qed.

Lemma read_symbol data p n : length data = total -> p mod ss + n <= ss -> p + n <= total -> 0 < n ->
  take n (drop (cell p) data) = take n (drop p (column_major data)).
Proof.
  intros Hd Hs Hp Hn. apply list_eq. intros i. destruct (decide (i < n)); cycle 1.
  { by rewrite !lookup_ge_None_2 by (rewrite length_take; lia). }
  rewrite !lookup_take_lt, !lookup_drop, lookup_column_major, cell_symbol by lia. done.
Qed.

(** The position after the end of a symbol. *)
Lemma next_symbol p : let q := p + (ss - p mod ss) in
  q mod ss = 0 /\ (q / ss) mod rows = ((p / ss) mod rows + 1) mod rows /\
  q / cs = if (((p / ss) mod rows + 1) mod rows =? 0)%nat then p / cs + 1 else p / cs.
Proof.
  cbn zeta. destruct (position p) as (c & r & o & Hp & Hr & Ho & <- & <- & <-). subst p.
  destruct (decide (r + 1 = rows)) as [Hlast|].
  - destruct (position_at (c + 1) 0 0 ltac:(lia) ltac:(lia)) as (Hc & Hr0 & Ho0).
    replace (c * cs + r * ss + o + (ss - o)) with ((c + 1) * cs + 0 * ss + 0) by (unfold cs; nia).
    by rewrite Hc, Hr0, Ho0, Hlast, Nat.Div0.mod_same.
  - destruct (position_at c (r + 1) 0 ltac:(lia) ltac:(lia)) as (Hc & Hr1 & Ho1).
    replace (c * cs + r * ss + o + (ss - o)) with (c * cs + (r + 1) * ss + 0) by nia.
    rewrite Hc, Hr1, Ho1, Nat.mod_small by lia. by destruct (Nat.eqb_spec (r + 1) 0); [lia|].
Qed.

(** The position of [skip] bytes after the start of a column. *)
Lemma column_offset c skip : let p := c * cs + skip in
  p / cs = c + skip / cs /\ (p / ss) mod rows = (skip / ss) mod rows /\ p mod ss = skip mod ss.
Proof.
  intros p. destruct (position skip) as (c' & r & o & Hskip & Hr & Ho & <- & <- & <-).
  unfold p. rewrite Hskip. replace (c * cs + (c' * cs + r * ss + o)) with ((c + c') * cs + r * ss + o) by lia.
  by apply position_at.
Qed.

(** *** Writing *)

Lemma write_loop_ok {E} bytes fuel data p idx : length data = total ->
  idx <= length bytes <= idx + fuel -> p + (length bytes - idx) <= total ->
  exists data', write_columns_loop (E:=E) fuel bytes rows (ss * cols) ss data
      (p / cs) ((p / ss) mod rows) (p mod ss) idx = Ok data' /\
    length data' = total /\ column_major data' = splice p (drop idx bytes) (column_major data).
Proof.
  revert data p idx. induction fuel as [|fuel IH]; intros data p idx Hd Hi Hp; cbn [write_columns_loop].
  { rewrite (proj2 (Nat.ltb_ge _ _)) by lia. exists data. by rewrite drop_ge, splice_nil by lia. }
  destruct (Nat.ltb_spec idx (length bytes)); [|exists data; by rewrite drop_ge, splice_nil by lia].
  set (l := Nat.min _ _). pose proof (Nat.mod_upper_bound p ss ltac:(lia)) as Ho.
  change (((p / ss) mod rows) * (ss * cols) + p / cs * ss + p mod ss) with (cell p).
  set (src := take l (drop idx bytes)).
  assert (slice (E:=E) idx (idx + l) bytes = Ok src) as ->.
  { unfold slice. rewrite (proj2 (Nat.leb_le _ _)), (proj2 (Nat.leb_le _ _)) by lia. cbn [andb].
    by replace (idx + l - idx) with l by lia. }
  assert (length src = l) as Hsrc by (unfold src; rewrite length_take, length_drop; lia).
  cbn [mbind outcome_bind]. rewrite <- Hsrc.
  destruct (write_symbol (E:=E) data p src) as (data1 & -> & Hd1 & Hm1); [done|lia|lia| |].
  { intros Hnil. rewrite Hnil in Hsrc. cbn in Hsrc. lia. }
  cbn [mbind outcome_bind]. rewrite usize_rem_ok by done. cbn [mbind outcome_bind]. rewrite Hsrc.
  assert (drop idx bytes = src ++ drop (idx + l) bytes) as Hsplit.
  { unfold src. by rewrite <- drop_drop, take_drop. }
  destruct (decide (idx + l = length bytes)) as [Hend|].
  - exists data1. rewrite (drop_ge _ (idx + l)), app_nil_r in Hsplit by lia. rewrite Hsplit, <- Hm1.
    destruct fuel; cbn [write_columns_loop]; by rewrite (proj2 (Nat.ltb_ge _ _)) by lia.
  - assert (l = ss - p mod ss) as Hl by lia.
    destruct (next_symbol p) as (Hmod & Hrow & Hcol). cbn zeta in *. rewrite <- Hl in Hmod, Hrow, Hcol.
    destruct (IH data1 (p + l) (idx + l)) as (data' & Hw & Hd' & Hm'); [done|lia|lia|].
    exists data'. rewrite Hmod, Hrow, Hcol in Hw. split_and!; [exact Hw|done|]. rewrite Hm', Hm1, Hsplit, <- Hsrc.
    apply splice_app. rewrite length_column_major, length_drop. lia.
Qed.

Lemma write_bytes_ok {E} data bytes c skip : length data = total ->
  c * cs + skip + length bytes <= total -> c + skip / cs < cols ->
  exists data', write_bytes_to_columns (E:=E) data bytes c (ss * cols) cs ss skip = Ok data' /\
    length data' = total /\ column_major data' = splice (c * cs + skip) bytes (column_major data).
Proof.
  intros Hd Hp Hc. assert (0 < cs) by (unfold cs; lia). unfold write_bytes_to_columns.
  rewrite !usize_div_ok by lia. cbn [mbind outcome_bind].
  replace (cs / ss) with rows by (unfold cs; by rewrite Nat.mul_comm, Nat.div_mul by lia).
  replace (ss * cols / ss) with cols by (by rewrite Nat.mul_comm, Nat.div_mul by lia).
  rewrite (proj2 (Nat.ltb_lt _ _) Hc), !usize_rem_ok by lia. cbn [assert mbind outcome_bind].
  rewrite (proj2 (Nat.ltb_lt _ _)) by (apply Nat.mod_upper_bound; lia). cbn [assert mbind outcome_bind].
  destruct (column_offset c skip) as (<- & <- & <-).
  destruct (write_loop_ok (E:=E) bytes (length bytes) data (c * cs + skip) 0) as (data' & Hw & Hd' & Hm);
    [done|lia|lia|]. exists data'. by rewrite drop_0 in Hm.
Qed.

(** The check on the first column is the only one that can fail: an empty write
    after the last column panics. *)
Lemma write_bytes_beyond {E} data bytes c skip : cols <= c + skip / cs ->
  write_bytes_to_columns (E:=E) data bytes c (ss * cols) cs ss skip = Panic.
Proof.
  intros Hc. assert (0 < cs) by (unfold cs; lia). unfold write_bytes_to_columns.
  rewrite !usize_div_ok by lia. cbn [mbind outcome_bind].
  replace (ss * cols / ss) with cols by (by rewrite Nat.mul_comm, Nat.div_mul by lia).
  by rewrite (proj2 (Nat.ltb_ge _ _)) by lia.
Qed.

(** *** Reading *)

(** A quilt with this layout. *)
Record quilt_layout (q : QuiltV1) : Prop := {
  layout_symbol : quilt_symbol_bytes q = ss;
  layout_row : quilt_row_size q = ss * cols;
  layout_data : length (quilt_data q) = total;
}.

Section read.
Context (q : QuiltV1) (Hq : quilt_layout q).

(** Wherever it starts, a piece is not empty and at most as long as asked for. *)
Lemma get_slice_total c r o n : r < rows -> o < ss -> 0 < n ->
  (exists e, get_slice q c r o n = Err e) \/
  (exists piece, get_slice q c r o n = Ok piece /\ 0 < length piece <= n).
Proof.
  intros Hr Ho Hn. unfold get_slice. destruct Hq as [-> -> Hd]. rewrite Hd.
  destruct (Nat.leb_spec total (r * (ss * cols) + c * ss + o)) as [|Hlt]; [left; by eexists|right].
  cbn [negb ensure mbind outcome_bind]. unfold slice. set (m := Nat.min _ _).
  rewrite (proj2 (Nat.leb_le _ _)), (proj2 (Nat.leb_le _ _)) by (rewrite ?Hd; lia). cbn [andb].
  eexists. split; [done|]. rewrite length_take, length_drop, Hd. lia.
Qed.

Lemma read_loop_total fuel c r o n acc : r < rows -> o < ss -> n <= fuel ->
  (exists e, read_columns_loop fuel q rows c r o n acc = Err e) \/
  (exists bs, read_columns_loop fuel q rows c r o n acc = Ok bs /\ length bs = length acc + n).
Proof.
  revert c r o n acc. induction fuel as [|fuel IH]; intros c r o n acc Hr Ho Hn; cbn [read_columns_loop].
  { rewrite (proj2 (Nat.ltb_ge _ _)) by lia. right. exists acc. split; [done|lia]. }
  destruct (Nat.ltb_spec 0 n); [|right; exists acc; split; [done|lia]].
  destruct (get_slice_total c r o n) as [[e ->]|(piece & -> & Hl)]; [done..|left; by eexists|].
  cbn [mbind outcome_bind]. rewrite usize_rem_ok by done. cbn [mbind outcome_bind].
  destruct (IH (if ((r + 1) mod rows =? 0) then c + 1 else c) ((r + 1) mod rows) 0 (n - length piece) (acc ++ piece))
    as [[e ->]|(bs & -> & Hbs)]; [apply Nat.mod_upper_bound; lia|lia|lia|left; by eexists|].
  right. exists bs. split; [done|]. rewrite length_app in Hbs. lia.
Qed.

Lemma get_slice_ok p n : p + n <= total -> 0 < n ->
  get_slice q (p / cs) ((p / ss) mod rows) (p mod ss) n =
    Ok (take (Nat.min (ss - p mod ss) n) (drop p (column_major (quilt_data q)))).
Proof.
  intros Hp Hn. unfold get_slice. destruct Hq as [-> -> Hd]. rewrite Hd.
  pose proof (Nat.mod_upper_bound p ss ltac:(lia)) as Ho. pose proof (cell_bound p ltac:(lia)) as Hb.
  set (l := Nat.min (ss - p mod ss) n).
  assert (cell (p + (l - 1)) = cell p + (l - 1)) as Hc by (apply cell_symbol; lia).
  pose proof (cell_bound (p + (l - 1)) ltac:(lia)) as Hb'.
  change (((p / ss) mod rows) * (ss * cols) + p / cs * ss + p mod ss) with (cell p).
  rewrite (proj2 (Nat.leb_gt _ _)) by lia. cbn [negb ensure mbind outcome_bind].
  assert (Nat.min (Nat.min (((p / ss) mod rows) * (ss * cols) + p / cs * ss + ss) (cell p + n)) total =
    cell p + l) as ->.
  { assert (((p / ss) mod rows) * (ss * cols) + p / cs * ss + p mod ss = cell p) by done. lia. }
  unfold slice. rewrite (proj2 (Nat.leb_le _ _)), (proj2 (Nat.leb_le _ _)) by (rewrite ?Hd; lia). cbn [andb].
  replace (cell p + l - cell p) with l by lia. f_equal. apply read_symbol; [done|lia..].
Qed.

Lemma read_loop_ok fuel p n acc : p + n <= total -> n <= fuel ->
  read_columns_loop fuel q rows (p / cs) ((p / ss) mod rows) (p mod ss) n acc =
    Ok (acc ++ take n (drop p (column_major (quilt_data q)))).
Proof.
  revert p n acc. induction fuel as [|fuel IH]; intros p n acc Hp Hn; cbn [read_columns_loop].
  { replace n with 0 by lia. by rewrite take_0, app_nil_r. }
  destruct (Nat.ltb_spec 0 n); [|replace n with 0 by lia; by rewrite take_0, app_nil_r].
  rewrite get_slice_ok by lia. cbn [mbind outcome_bind]. rewrite usize_rem_ok by done. cbn [mbind outcome_bind].
  set (l := Nat.min _ _). pose proof (Nat.mod_upper_bound p ss ltac:(lia)) as Ho.
  set (cm := column_major (quilt_data q)).
  assert (length (take l (drop p cm)) = l) as ->.
  { rewrite length_take, length_drop. unfold cm. rewrite length_column_major. lia. }
  assert (take n (drop p cm) = take l (drop p cm) ++ take (n - l) (drop (p + l) cm)) as Hsplit.
  { rewrite <- drop_drop, <- (take_drop l (drop p cm)) at 1. rewrite take_app_ge; rewrite length_take, length_drop;
      unfold cm; rewrite length_column_major; [|lia]. do 2 f_equal. lia. }
  destruct (decide (l = n)) as [Hl|].
  - rewrite Hsplit, Hl, Nat.sub_diag, take_0, app_nil_r.
    destruct fuel; cbn [read_columns_loop]; by rewrite (proj2 (Nat.ltb_ge _ _)) by lia.
  - assert (l = ss - p mod ss) as Heq by lia.
    destruct (next_symbol p) as (Hmod & Hrow & Hcol). cbn zeta in *. rewrite <- Heq in Hmod, Hrow, Hcol.
    specialize (IH (p + l) (n - l) (acc ++ take l (drop p cm)) ltac:(lia) ltac:(lia)).
    rewrite Hmod, Hrow, Hcol in IH. rewrite Hsplit, app_assoc. exact IH.
Qed.

Lemma quilt_range_read_eq c skip n :
  quilt_range_read q c skip n = read_columns_loop n q rows (c + skip / cs) ((skip / ss) mod rows) (skip mod ss) n [].
Proof.
  assert (0 < total) as Ht by (unfold total; nia). unfold quilt_range_read. pose proof Hq as [-> -> Hd]. rewrite Hd.
  rewrite (proj2 (Nat.eqb_neq _ _)), (proj2 (Nat.eqb_neq _ _)) by nia.
  rewrite bool_decide_false by (intros Hnil; rewrite Hnil in Hd; cbn in Hd; lia).
  cbn [orb negb ensure mbind outcome_bind].
  replace total with (rows * (ss * cols)) by (unfold total; lia).
  rewrite usize_div_ok, Nat.div_mul by nia. cbn [mbind outcome_bind].
  rewrite usize_div_ok, usize_rem_ok by done. cbn [mbind outcome_bind]. unfold cs.
  rewrite Nat.Div0.div_div. f_equal. rewrite (Nat.Div0.mod_eq skip ss). lia.
Qed.

(** Reading within the columns. *)
Lemma quilt_range_read_ok c skip n : c * cs + skip + n <= total ->
  quilt_range_read q c skip n = Ok (take n (drop (c * cs + skip) (column_major (quilt_data q)))).
Proof.
  intros Hp. rewrite quilt_range_read_eq. destruct (column_offset c skip) as (<- & <- & <-).
  by rewrite read_loop_ok by lia.
Qed.

(** Reading anywhere returns an error or as many bytes as asked for. *)
Lemma quilt_range_read_total c skip n :
  (exists e, quilt_range_read q c skip n = Err e) \/ (exists bs, quilt_range_read q c skip n = Ok bs /\ length bs = n).
Proof.
  rewrite quilt_range_read_eq. apply (read_loop_total n _ _ _ n []); [|apply Nat.mod_upper_bound; lia|done].
  apply Nat.mod_upper_bound. lia.
Qed.

End read.
End layout.
