(* ===== verification/QuiltReaders.v ===== *)
(** * Readers of quilts

    Decoding is written for any [QuiltColumnRangeReader].  Against this interface:
    decoding does not panic on a reader that keeps the promise of the interface
    ([safe_reader]), returns the same from a reader that can read more
    ([reader_refines]), and returns the blob that is stored ([stored]).  Then both
    implementations are shown to be such readers. *)

From S2P Require Import Prelude Core EncodingConfig Symbols Slivers QuiltIndex Quilt QuiltLayout.

Local Open Scope nat_scope.

(** The documented behaviour of the crate bcs: a value that can be serialized has
    the announced size and is read back. *)
Class BcsSpec (T : Type) `{Bcs T} := {
  bcs_size x : bcs_serialized_size x = length <$> bcs_to_bytes x;
  bcs_roundtrip x bytes : bcs_to_bytes x = Some bytes -> bcs_from_bytes bytes = Some x;
}.

(** An integer of 16 bits takes two bytes, so that the end indices of patches do
    not change the size of an index. *)
Definition is_u16 (v : Z) : Prop := (0 <= v < 2 ^ 16)%Z.
Definition wire_end (w : wire_patch) : Z := fst (fst w).
Definition wire_rest (w : wire_patch) : rstring * Tags := (snd (fst w), snd w).

Class BcsIndexSpec `{Bcs (list wire_patch)} := {
  bcs_index_spec :: BcsSpec (list wire_patch);
  bcs_index_size l l' : Forall (is_u16 ∘ wire_end) l -> Forall (is_u16 ∘ wire_end) l' ->
    wire_rest <$> l = wire_rest <$> l' -> bcs_serialized_size l = bcs_serialized_size l';
}.

(** Reads a chain of successful calls off the goal: a [debug_assert] that holds
    and an [ensure] that holds are run. *)
Lemma debug_assert_true `{Build} {E} : debug_assert (E:=E) true = Ok tt.
Proof. unfold debug_assert. by destruct debug_assertions. Qed.

Ltac run := cbn [mbind outcome_bind ensure ok_or negb map_err expect]; rewrite ?debug_assert_true;
  cbn [mbind outcome_bind ensure ok_or negb map_err expect].

Lemma le_value_bound l : (0 <= le_value l < 256 ^ len l)%Z.
Proof.
  induction l as [|b l IH]; [done|]. cbn [le_value length]. rewrite Nat2Z.inj_succ, Z.pow_succ_r by lia.
  pose proof (byte_val_range b). lia.
Qed.

Section readers.
Context `{Build} `{!Bcs rstring} `{!Bcs Tags} `{!Bcs (list wire_patch)}.

Section interface.
Context {T : Type} `{!QuiltColumnRangeReader T}.
Implicit Types src : T.

(** ** Arbitrary data *)

Record safe_reader src : Prop := {
  safe_read c skip n : (exists e, range_read_from_columns src c skip n = Err e) \/
    (exists bs, range_read_from_columns src c skip n = Ok bs /\ length bs = n);
  safe_size : exists t, total_data_size src = Ok t;
}.

Section safe.
Context src (Hsrc : safe_reader src).

Lemma decode_blob_identifier_safe c o : decode_blob_identifier src c o <> Panic.
Proof.
  unfold decode_blob_identifier.
  destruct (safe_read src Hsrc c o BLOB_IDENTIFIER_SIZE_BYTES_LENGTH)
    as [[e ->]|(bs & -> & Hlbs)]; [done|]. run. rewrite !Hlbs, ?Nat.eqb_refl. run.
  destruct (safe_read src Hsrc c (o + BLOB_IDENTIFIER_SIZE_BYTES_LENGTH) (Z.to_nat (le_value bs)))
    as [[e ->]|(bs' & -> & Hlbs')]; [done|]. run. rewrite !Hlbs', ?Nat.eqb_refl. run. by destruct (bcs_from_bytes bs').
Qed.

Lemma decode_blob_tags_safe c o : decode_blob_tags src c o <> Panic.
Proof.
  unfold decode_blob_tags.
  destruct (safe_read src Hsrc c o TAGS_SIZE_BYTES_LENGTH)
    as [[e ->]|(bs & -> & Hlbs)]; [done|]. run. rewrite !Hlbs, ?Nat.eqb_refl. run.
  destruct (safe_read src Hsrc c (o + TAGS_SIZE_BYTES_LENGTH) (Z.to_nat (le_value bs)))
    as [[e ->]|(bs' & -> & Hlbs')]; [done|]. run. rewrite !Hlbs', ?Nat.eqb_refl. run. by destruct (bcs_from_bytes bs').
Qed.

Lemma store_blob_new_safe bs i : store_blob_new bs i <> Panic.
Proof.
  unfold store_blob_new, validate_quilt_identifier.
  repeat match goal with |- context [ensure ?c _] => destruct c; run end; done.
Qed.

Lemma header_from_bytes_safe bs : header_from_bytes bs <> Panic.
Proof.
  unfold header_from_bytes. destruct (bs !! 0); [|done]. run. destruct (bool_decide _); [|done]. run.
  by destruct (bs !! 5).
Qed.

Lemma decode_blob_safe c : quilt_decode_blob src c <> Panic.
Proof.
  unfold quilt_decode_blob. destruct (safe_read src Hsrc c 0 BLOB_HEADER_SIZE)
    as [[e ->]|(bs & -> & Hlbs)]; [done|]. run. rewrite !Hlbs, ?Nat.eqb_refl. run.
  destruct (header_from_bytes bs) as [h| |] eqn:Hh; [|done|by destruct (header_from_bytes_safe bs)]. run.
  destruct (safe_size src Hsrc) as [t ->]. run. destruct (_ <=? _)%Z; [|done]. run.
  destruct (decode_blob_identifier src c _) as [[i k]| |] eqn:Hi; [|done|by destruct (decode_blob_identifier_safe c _ Hi)].
  run. destruct (usize_checked_sub _ _) as [m|]; [|done]. run. destruct (has_tags h).
  - destruct (decode_blob_tags src c _) as [[t' k']| |] eqn:Ht; [|done|by destruct (decode_blob_tags_safe c _ Ht)].
    run. destruct (usize_checked_sub _ _) as [m'|]; [|done]. run.
    destruct (safe_read src Hsrc c (BLOB_HEADER_SIZE + k + k') m')
    as [[e ->]|(bs' & -> & Hlbs')]; [done|]. run. rewrite !Hlbs', ?Nat.eqb_refl. run. destruct (store_blob_new bs' i) eqn:Hs; [done|done|by destruct (store_blob_new_safe bs' i)].
  - run. destruct (safe_read src Hsrc c (BLOB_HEADER_SIZE + k) m)
    as [[e ->]|(bs' & -> & Hlbs')]; [done|]. run. rewrite !Hlbs', ?Nat.eqb_refl. run. destruct (store_blob_new bs' i) eqn:Hs; [done|done|by destruct (store_blob_new_safe bs' i)].
Qed.

Lemma decode_quilt_index_safe cs : 0 < cs -> decode_quilt_index src cs <> Panic.
Proof.
  intros Hcs. unfold decode_quilt_index.
  destruct (safe_read src Hsrc 0 0 QUILT_VERSION_BYTES_LENGTH) as [[e ->]|(bs & -> & Hl)]; [done|]. run. rewrite Hl. run.
  unfold check_quilt_version, get_quilt_version_byte. destruct bs as [|b bs]; [done|]. cbn [head]. run.
  destruct (bool_decide _); [|done]. run.
  destruct (safe_read src Hsrc 0 QUILT_VERSION_BYTES_LENGTH QUILT_INDEX_SIZE_BYTES_LENGTH)
    as [[e ->]|(bs1 & -> & Hlbs1)]; [done|]. run. rewrite !Hlbs1, ?Nat.eqb_refl. run. destruct (_ <? _)%Z; [done|]. run.
  destruct (safe_read src Hsrc 0 QUILT_INDEX_PREFIX_SIZE (Z.to_nat (le_value bs1)))
    as [[e ->]|(bs2 & -> & Hlbs2)]; [done|]. run. rewrite !Hlbs2, ?Nat.eqb_refl. run.
  destruct (index_from_bytes bs2); [|done]. run. rewrite usize_div_ceil_ok by done. run.
  by destruct (try_from _ _).
Qed.

End safe.
(** ** Stored blobs *)

(** The bytes are at the start of a column. *)
Definition stored src (c : nat) (bytes : list byte) : Prop :=
  forall skip n, skip + n <= length bytes -> range_read_from_columns src c skip n = Ok (take n (drop skip bytes)).

Lemma stored_piece src c l1 l2 l3 skip n : stored src c (l1 ++ l2 ++ l3) ->
  skip = length l1 -> n = length l2 -> range_read_from_columns src c skip n = Ok l2.
Proof.
  intros Hs -> ->. rewrite Hs by (rewrite !length_app; lia). by rewrite drop_app_length, take_app_length.
Qed.

Lemma header_roundtrip h : (0 <= header_length h < 2 ^ 32)%Z -> (0 <= header_mask h < 2 ^ 8)%Z ->
  header_from_bytes (header_as_bytes h) = Ok h.
Proof.
  intros Hl Hm. destruct h as [l m]. cbn [header_length header_mask] in *. unfold header_from_bytes.
  change (header_as_bytes (mk_header l m) !! 0) with (Some QUILT_VERSION_BYTE).
  change (header_as_bytes (mk_header l m) !! 5) with (Some (byte_of m)).
  change (take 4 (drop 1 (header_as_bytes (mk_header l m)))) with (le_bytes 4 l).
  run. by rewrite le_value_le_bytes, byte_val_of, Z.mod_small.
Qed.

Context `{!BcsSpec rstring} `{!BcsSpec Tags}.

(** The bytes of the tags of a blob. *)
Definition tags_bytes (t : Tags) (bytes : list byte) : Prop :=
  if bool_decide (t = ∅) then bytes = []
  else exists st, bcs_to_bytes t = Some st /\ is_u16 (len st) /\ bytes = le_bytes 2 (len st) ++ st.

Lemma prefix_shape blob prefix : get_header_and_extension_bytes blob = Ok prefix ->
  exists sid tb h, bcs_to_bytes (identifier blob) = Some sid /\ is_u16 (len sid) /\ tags_bytes (tags blob) tb /\
    prefix = header_as_bytes h ++ (le_bytes 2 (len sid) ++ sid) ++ tb /\
    header_length h = Z.of_nat (2 + length sid + length tb + length (store_data blob)) /\
    (0 <= header_length h < 2 ^ 32)%Z /\ (0 <= header_mask h < 2 ^ 8)%Z /\
    has_tags h = negb (bool_decide (tags blob = ∅)).
Proof.
  unfold get_header_and_extension_bytes, tags_bytes. rewrite bcs_size.
  destruct (bcs_to_bytes (identifier blob)) as [sid|]; [|done]. cbn [fmap option_fmap option_map]. run.
  destruct (try_from 16 (len sid)) as [ls|] eqn:Hls; [|done]. apply try_from_Some in Hls as [-> Hls]. run.
  assert (length (le_bytes 2 (len sid) ++ sid) = 2 + length sid) as Hl1 by (by rewrite length_app, length_le_bytes).
  case_bool_decide as Ht; run.
  - cbn [fmap list_fmap sum_list id]. rewrite Hl1.
    destruct (try_from 32 (Z.of_nat _)) as [L|] eqn:HL; [|done]. apply try_from_Some in HL as [-> HL]. run.
    intros [= <-]. eexists sid, [], (mk_header _ 0). split_and!; try done; cbn [header_length length]; lia.
  - destruct (bcs_to_bytes (tags blob)) as [st|] eqn:Hst; [|done]. run.
    destruct (try_from 16 (len st)) as [lt|] eqn:Hlt; [|done]. apply try_from_Some in Hlt as [-> Hlt]. run.
    assert (length (le_bytes 2 (len st) ++ st) = 2 + length st) as Hl2 by (by rewrite length_app, length_le_bytes).
    cbn [fmap list_fmap sum_list id]. rewrite Hl1, Hl2. set (m := (_ + length (store_data blob))).
    destruct (try_from 32 (Z.of_nat _)) as [L|] eqn:HL; [|done]. apply try_from_Some in HL as [-> HL]. run.
    intros [= <-]. eexists sid, (le_bytes 2 (len st) ++ st), (mk_header (Z.of_nat m) 1). 
    split_and!; try done; first [by eexists|cbn [concat]; by rewrite app_nil_r|cbn [header_length]; lia].
Qed.

Lemma decode_blob_identifier_stored src c l1 sid l3 i : stored src c (l1 ++ (le_bytes 2 (len sid) ++ sid) ++ l3) ->
  bcs_to_bytes i = Some sid -> is_u16 (len sid) ->
  decode_blob_identifier src c (length l1) = Ok (i, 2 + length sid).
Proof.
  intros Hs Hi Hl. unfold decode_blob_identifier. rewrite <- !app_assoc in Hs.
  rewrite (stored_piece _ _ _ _ _ _ _ Hs) by done. run. rewrite length_le_bytes. run.
  rewrite le_value_le_bytes, Nat2Z.id by exact Hl. rewrite app_assoc in Hs.
  rewrite (stored_piece _ _ _ _ _ _ _ Hs) by (rewrite ?length_app, ?length_le_bytes; done).
  run. rewrite Nat.eqb_refl. run. by rewrite (bcs_roundtrip _ _ Hi).
Qed.

Lemma decode_blob_tags_stored src c l1 st l3 t : stored src c (l1 ++ (le_bytes 2 (len st) ++ st) ++ l3) ->
  bcs_to_bytes t = Some st -> is_u16 (len st) ->
  decode_blob_tags src c (length l1) = Ok (t, 2 + length st).
Proof.
  intros Hs Hi Hl. unfold decode_blob_tags. rewrite <- !app_assoc in Hs.
  rewrite (stored_piece _ _ _ _ _ _ _ Hs) by done. run. rewrite length_le_bytes. run.
  rewrite le_value_le_bytes, Nat2Z.id by exact Hl. rewrite app_assoc in Hs.
  rewrite (stored_piece _ _ _ _ _ _ _ Hs) by (rewrite ?length_app, ?length_le_bytes; done).
  run. rewrite Nat.eqb_refl. run. rewrite (bcs_roundtrip _ _ Hi). run.
  rewrite Nat.eqb_refl. run. do 2 f_equal. unfold TAGS_SIZE_BYTES_LENGTH. lia.
Qed.

(** A stored blob is decoded. *)
Lemma decode_blob_stored src c blob prefix t : get_header_and_extension_bytes blob = Ok prefix ->
  validate_quilt_identifier (identifier blob) = Ok tt -> stored src c (prefix ++ store_data blob) ->
  total_data_size src = Ok t -> length (prefix ++ store_data blob) <= t ->
  quilt_decode_blob src c = Ok blob.
Proof.
  intros Hp Hv Hs Ht Hl. apply prefix_shape in Hp as (sid & tb & h & Hi & Hls & Htb & -> & HL & Hr & Hm & Hht).
  unfold quilt_decode_blob. rewrite <- !(app_assoc (header_as_bytes h)) in Hs.
  assert (length (header_as_bytes h) = 6) as Hh6 by (unfold header_as_bytes; by rewrite !length_app, length_le_bytes).
  rewrite (stored_piece _ _ [] (header_as_bytes h) (((le_bytes 2 (len sid) ++ sid) ++ tb) ++ store_data blob)) by done.
  run. rewrite !Hh6. run. rewrite header_roundtrip, Ht by done. run.
  rewrite !length_app, Hh6, length_le_bytes in Hl. rewrite (proj2 (Z.leb_le _ _)) by lia. run.
  rewrite <- app_assoc in Hs. pose proof (decode_blob_identifier_stored _ _ _ _ _ _ Hs Hi Hls) as Hid.
  rewrite Hh6 in Hid. change BLOB_HEADER_SIZE with 6. rewrite Hid. run. rewrite HL, Nat2Z.id.
  unfold usize_checked_sub. rewrite (proj2 (Nat.leb_le _ _)) by lia. run. rewrite Hht. unfold tags_bytes in Htb.
  assert (store_blob_new (store_data blob) (identifier blob) = Ok (mk_store_blob (store_data blob) (identifier blob) ∅)) as Hnew.
  { unfold store_blob_new. by rewrite Hv. }
  case_bool_decide as Htags; cbn [negb].
  - subst tb. run. cbn [app length] in *. rewrite app_assoc, <- (app_nil_r (store_data blob)) in Hs.
    rewrite (stored_piece _ _ _ _ _ _ _ Hs) by (rewrite ?length_app, ?length_le_bytes; lia).
    run. rewrite (proj2 (Nat.eqb_eq _ _)) by lia. run. rewrite Hnew. run. unfold with_tags. cbn. rewrite <- Htags. by destruct blob.
  - destruct Htb as (st & Hst & Hlst & ->). rewrite app_assoc in Hs.
    pose proof (decode_blob_tags_stored _ _ _ _ _ _ Hs Hst Hlst) as Hdt.
    rewrite !length_app, !length_le_bytes, Hh6 in *. rewrite Hdt. run.
    rewrite (proj2 (Nat.leb_le _ _)) by lia. run. rewrite app_assoc, <- (app_nil_r (store_data blob)) in Hs.
    rewrite (stored_piece _ _ _ _ _ _ _ Hs) by (rewrite ?length_app, ?length_le_bytes; lia).
    run. rewrite (proj2 (Nat.eqb_eq _ _)) by lia. run. rewrite Hnew. run. unfold with_tags. cbn. by destruct blob.
Qed.

(** A stored index is decoded. *)
Lemma decode_quilt_index_stored src cs ib i : stored src 0 ([QUILT_VERSION_BYTE] ++ le_bytes 4 (len ib) ++ ib) ->
  index_from_bytes ib = Some i -> (len ib < 2 ^ 32)%Z -> 0 < cs ->
  QUILT_INDEX_PREFIX_SIZE + length ib <= cs * MAX_NUM_SLIVERS_FOR_QUILT_INDEX ->
  decode_quilt_index src cs =
    Ok (populate_start_indices i (Z.of_nat (ceil_div (QUILT_INDEX_PREFIX_SIZE + length ib) cs))).
Proof.
  intros Hs Hi Hl Hcs Hfit. unfold decode_quilt_index.
  rewrite (stored_piece src 0 [] [QUILT_VERSION_BYTE] (le_bytes 4 (len ib) ++ ib) 0 QUILT_VERSION_BYTES_LENGTH Hs) by done. run.
  change (length [QUILT_VERSION_BYTE] =? QUILT_VERSION_BYTES_LENGTH) with true. run.
  change (check_quilt_version [QUILT_VERSION_BYTE]) with (@Ok QuiltError unit tt). run.
  rewrite (stored_piece src 0 [QUILT_VERSION_BYTE] (le_bytes 4 (len ib)) ib QUILT_VERSION_BYTES_LENGTH QUILT_INDEX_SIZE_BYTES_LENGTH Hs) by done. run.
  rewrite !length_le_bytes. change (4 =? QUILT_INDEX_SIZE_BYTES_LENGTH) with true. run.
  change (4 =? 4) with true. run. rewrite le_value_le_bytes by (change (256 ^ Z.of_nat 4)%Z with (2 ^ 32)%Z; lia).
  unfold QUILT_INDEX_PREFIX_SIZE, MAX_NUM_SLIVERS_FOR_QUILT_INDEX, QUILT_INDEX_SIZE_BYTES_LENGTH, QUILT_VERSION_BYTES_LENGTH in *.
  change (4 + 1) with 5 in *. rewrite (proj2 (Z.ltb_ge _ _)) by (unfold saturating_sub; lia). run. rewrite Nat2Z.id.
  assert (stored src 0 (([QUILT_VERSION_BYTE] ++ le_bytes 4 (len ib)) ++ ib ++ [])) as Hs'
    by (by rewrite app_nil_r, <- app_assoc).
  rewrite (stored_piece _ _ _ _ _ _ _ Hs') by done. run.
  rewrite Nat.eqb_refl, Hi. run. rewrite usize_div_ceil_ok by done. run.
  pose proof (proj2 (ceil_div_le_iff (length ib + 5) cs 10 Hcs) ltac:(lia)).
  replace (try_from 16 _) with (Some (Z.of_nat (ceil_div (length ib + 5) cs))).
  - run. by rewrite (Nat.add_comm (length ib)).
  - symmetry. apply try_from_Some. split; [done|]. lia.
Qed.

End interface.
(** ** Readers that can read more *)

Section refinement.
Context {T T' : Type} `{!QuiltColumnRangeReader T} `{!QuiltColumnRangeReader T'}.

Record reader_refines (src : T) (src' : T') : Prop := {
  refines_read c skip n bs : is_u16 (Z.of_nat c) -> range_read_from_columns src c skip n = Ok bs ->
    range_read_from_columns src' c skip n = Ok bs;
  refines_size t : total_data_size src = Ok t -> exists t', total_data_size src' = Ok t' /\ t <= t';
}.

Context (src : T) (src' : T') (Href : reader_refines src src').

Lemma decode_blob_identifier_refines c o r : is_u16 (Z.of_nat c) ->
  decode_blob_identifier src c o = Ok r -> decode_blob_identifier src' c o = Ok r.
Proof.
  unfold decode_blob_identifier. intros Hc (bs & Hr & Hk)%bind_Ok. rewrite (refines_read _ _ Href _ _ _ _ Hc Hr). run.
  apply bind_Ok in Hk as ([] & -> & Hk). run. apply bind_Ok in Hk as ([] & -> & Hk). run.
  apply bind_Ok in Hk as (bs' & Hr' & Hk). by rewrite (refines_read _ _ Href _ _ _ _ Hc Hr').
Qed.

Lemma decode_blob_tags_refines c o r : is_u16 (Z.of_nat c) ->
  decode_blob_tags src c o = Ok r -> decode_blob_tags src' c o = Ok r.
Proof.
  unfold decode_blob_tags. intros Hc (bs & Hr & Hk)%bind_Ok. rewrite (refines_read _ _ Href _ _ _ _ Hc Hr). run.
  apply bind_Ok in Hk as ([] & -> & Hk). run. apply bind_Ok in Hk as ([] & -> & Hk). run.
  apply bind_Ok in Hk as (bs' & Hr' & Hk). by rewrite (refines_read _ _ Href _ _ _ _ Hc Hr').
Qed.

Lemma decode_blob_refines c b : is_u16 (Z.of_nat c) -> quilt_decode_blob src c = Ok b -> quilt_decode_blob src' c = Ok b.
Proof.
  unfold quilt_decode_blob. intros Hc (bs & Hr & Hk)%bind_Ok. rewrite (refines_read _ _ Href _ _ _ _ Hc Hr). run.
  apply bind_Ok in Hk as ([] & -> & Hk). run. apply bind_Ok in Hk as ([] & -> & Hk). run.
  apply bind_Ok in Hk as (h & -> & Hk). run. apply bind_Ok in Hk as (t & Ht & Hk).
  destruct (refines_size _ _ Href t Ht) as (t' & -> & Hle). run. apply bind_Ok in Hk as ([] & Hlt%ensure_Ok & Hk).
  rewrite (proj2 (Z.leb_le _ _)) by lia. run. apply bind_Ok in Hk as ([i k] & Hi & Hk).
  rewrite (decode_blob_identifier_refines _ _ _ Hc Hi). run. apply bind_Ok in Hk as (m & -> & Hk). run.
  apply bind_Ok in Hk as ([[tg o] m'] & Htg & Hk). destruct (has_tags h).
  - apply bind_Ok in Htg as ([t1 k1] & Ht1 & Hk1). rewrite (decode_blob_tags_refines _ _ _ Hc Ht1). run.
    rewrite Hk1. run. apply bind_Ok in Hk as (d & Hd & Hk). by rewrite (refines_read _ _ Href _ _ _ _ Hc Hd).
  - rewrite Htg. run. apply bind_Ok in Hk as (d & Hd & Hk). by rewrite (refines_read _ _ Href _ _ _ _ Hc Hd).
Qed.

Lemma decode_quilt_index_refines cs i : decode_quilt_index src cs = Ok i -> decode_quilt_index src' cs = Ok i.
Proof.
  assert (is_u16 (Z.of_nat 0)) as Hc by done.
  unfold decode_quilt_index. intros (bs & Hr & Hk)%bind_Ok. rewrite (refines_read _ _ Href _ _ _ _ Hc Hr). run.
  apply bind_Ok in Hk as ([] & -> & Hk). run. apply bind_Ok in Hk as ([] & -> & Hk). run.
  apply bind_Ok in Hk as (bs1 & Hr1 & Hk). rewrite (refines_read _ _ Href _ _ _ _ Hc Hr1). run.
  apply bind_Ok in Hk as ([] & -> & Hk). run. apply bind_Ok in Hk as ([] & -> & Hk). run.
  apply bind_Ok in Hk as ([] & -> & Hk). run.
  apply bind_Ok in Hk as (bs2 & Hr2 & Hk). by rewrite (refines_read _ _ Href _ _ _ _ Hc Hr2).
Qed.

End refinement.
End readers.
