(* ===== verification/QuiltDecoders.v ===== *)
(** * The two readers of a quilt

    [QuiltV1] and [QuiltDecoderV1] implement the interface of [QuiltReaders]: both
    are safe on arbitrary data, a decoder that holds columns of a quilt refines
    the quilt, and what lies in the columns of the quilt is stored in both. *)

From S2P Require Import Prelude Core EncodingConfig Symbols Slivers QuiltIndex Quilt QuiltLayout.
From S2P Require Import QuiltReaders.

Local Open Scope nat_scope.

Abbreviation sliver_bytes x := (sym_data (sliver_symbols x)).

Section slivers.
Context `{Build}.

(** ** Slivers *)

(** What [add_slivers] maintains for slivers that are not empty. *)
Record decoder_wf (d : QuiltDecoderV1) : Prop := {
  wf_size k x : decoder_slivers d !! k = Some x -> decoder_column_size d = Some (length (sym_data (sliver_symbols x)));
  wf_positive : decoder_column_size d <> Some 0;
}.

Lemma add_slivers_wf d slivers d' : Forall (fun x => sym_data (sliver_symbols x) <> []) slivers ->
  decoder_wf d -> add_slivers d slivers = Ok d' -> decoder_wf d'.
Proof.
  intros Hne. revert d. induction Hne as [|x l Hx _ IH]; intros d Hwf; cbn [add_slivers foldM]; [by intros [= <-]|].
  intros (d1 & Hd1 & Hrest)%bind_Ok. apply (IH d1); [|done]. destruct Hwf as [Hsz Hpos].
  apply bind_Ok in Hd1 as (o & Ho & [= <-]). unfold validate_and_update_column_size in Ho.
  assert (o = Some (length (sym_data (sliver_symbols x))) /\
    (decoder_column_size d = None \/ decoder_column_size d = o)) as [-> Hold].
  { destruct (decoder_column_size d) as [e|]; [|by injection Ho as <-; auto].
    apply bind_Ok in Ho as ([] & He%ensure_Ok & [= <-]). apply Nat.eqb_eq in He as ->. auto. }
  split; cbn [decoder_slivers decoder_column_size].
  - intros k y [[_ <-]|[_ Hy]]%lookup_insert_Some; [done|]. apply Hsz in Hy. destruct Hold; congruence.
  - intros [= Hnil%nil_length_inv]. done.
Qed.

Lemma decoder_new_wf slivers i d : Forall (fun x => sym_data (sliver_symbols x) <> []) slivers ->
  decoder_new slivers i = Ok d -> decoder_wf d.
Proof. intros Hne. by apply add_slivers_wf. Qed.

Lemma add_slivers_elem d slivers d' : add_slivers d slivers = Ok d' ->
  decoder_index d' = decoder_index d /\ forall k x, decoder_slivers d' !! k = Some x ->
    decoder_slivers d !! k = Some x \/ (x ∈ slivers /\ sliver_index_get (sliver_idx x) = k).
Proof.
  revert d. induction slivers as [|y l IH]; intros d; cbn [add_slivers foldM]; [intros [= <-]; auto|].
  intros (d1 & Hd1 & [Hi Hrest]%IH)%bind_Ok. apply bind_Ok in Hd1 as (o & _ & [= <-]).
  cbn [decoder_index decoder_slivers] in *. split; [done|]. intros k x [Hx|[Hin Hk]]%Hrest; [|right; split; [by right|done]].
  apply lookup_insert_Some in Hx as [[<- <-]|[_ Hx]]; [right; split; [by left|done]|by left].
Qed.

Lemma decoder_new_index slivers i d : decoder_new slivers i = Ok d -> decoder_index d = i.
Proof. intros [Hi _]%add_slivers_elem. done. Qed.

Lemma decoder_new_elem slivers i d k x : decoder_new slivers i = Ok d -> decoder_slivers d !! k = Some x ->
  x ∈ slivers /\ sliver_index_get (sliver_idx x) = k.
Proof.
  intros [_ Hd]%add_slivers_elem [Hx|Hx]%Hd; [|done].
  change ((∅ : gmap Z SliverData) !! k = Some x) in Hx. by rewrite lookup_empty in Hx.
Qed.

Lemma check_missing_slivers_ok d c e : check_missing_slivers d c e = Ok tt <->
  forall i, c <= i < e -> is_Some (decoder_slivers d !! column_key i).
Proof.
  unfold check_missing_slivers. rewrite ensure_Ok, bool_decide_eq_true. split.
  - intros Hnil i Hi. destruct (decoder_slivers d !! column_key i) eqn:Hl; [done|exfalso].
    assert (In i []) as []. rewrite <- Hnil. apply filter_In. split; [apply in_seq; lia|by apply bool_decide_eq_true].
  - intros Hall. destruct (List.filter _ _) as [|i l] eqn:Hf; [done|exfalso].
    assert (In i (i :: l)) as Hi by by left. rewrite <- Hf in Hi.
    apply filter_In in Hi as [Hi%in_seq Hn%bool_decide_eq_true]. destruct (Hall i) as [x Hx]; [lia|congruence].
Qed.

Lemma check_missing_cases d c e : check_missing_slivers d c e = Ok tt \/ exists err, check_missing_slivers d c e = Err err.
Proof. unfold check_missing_slivers. destruct (bool_decide _); cbn; eauto. Qed.

Lemma slice_ok {E A} (l : list A) a n : a + n <= length l -> slice (E:=E) a (a + n) l = Ok (take n (drop a l)).
Proof.
  intros Hl. unfold slice. rewrite (proj2 (Nat.leb_le _ _)), (proj2 (Nat.leb_le _ _)) by lia. cbn [andb].
  by replace (a + n - a) with n by lia.
Qed.

Lemma read_slivers_loop_ok slivers skip n acc : read_slivers_loop slivers skip n acc =
  Ok (acc ++ take n (drop skip (concat ((fun x => sliver_bytes x) <$> slivers)))).
Proof.
  revert skip n acc. induction slivers as [|x l IH]; intros skip n acc; cbn [read_slivers_loop fmap list_fmap concat].
  { by rewrite drop_nil, take_nil, app_nil_r. }
  destruct (Nat.eqb_spec n 0) as [->|Hn]; [by rewrite take_0, app_nil_r|].
  destruct (Nat.leb_spec (length (sliver_bytes x)) skip).
  - rewrite IH, drop_app_ge by lia. done.
  - rewrite slice_ok by lia. run. rewrite IH, <- app_assoc, drop_0, drop_app_le by lia. do 2 f_equal.
    set (d := drop skip (sliver_bytes x)). assert (length d = length (sliver_bytes x) - skip) as Hd by apply length_drop.
    rewrite <- Hd. destruct (decide (n <= length d)).
    + rewrite Nat.min_r, take_app_le, Nat.sub_diag, take_0 by lia. apply app_nil_r.
    + rewrite Nat.min_l, take_app_ge, (take_ge d) by lia. done.
Qed.

(** The bytes that a decoder returns: the columns must be present. *)
Definition columns_of (d : QuiltDecoderV1) (c m : nat) (l : list SliverData) : Prop :=
  Forall2 (fun i x => decoder_slivers d !! column_key i = Some x) (seq c m) l.

Lemma columns_of_present d c m : (forall i, c <= i < c + m -> is_Some (decoder_slivers d !! column_key i)) ->
  exists l, columns_of d c m l /\
    mapM_outcome (E:=QuiltError) (fun col => expect (decoder_slivers d !! column_key col)) (seq c m) = Ok l.
Proof.
  unfold columns_of. revert c. induction m as [|m IH]; intros c Hp; [by exists []|]. cbn [seq mapM_outcome].
  destruct (Hp c) as [x Hx]; [lia|]. rewrite Hx. run. destruct (IH (S c)) as (l & Hl & ->); [intros; apply Hp; lia|].
  run. exists (x :: l). split; [by constructor|done].
Qed.

Lemma decoder_range_read_present d cs' c skip n : decoder_column_size d = Some cs' -> 0 < cs' ->
  is_Some (decoder_slivers d !! column_key c) ->
  (forall i, c <= i < c + ceil_div (skip + n) cs' -> is_Some (decoder_slivers d !! column_key i)) ->
  exists l, columns_of d c (ceil_div (skip + n) cs') l /\ decoder_range_read d c skip n =
    let r := take n (drop skip (concat ((fun x => sliver_bytes x) <$> l))) in
    ensure (length r =? n) (InsufficientQuiltData n (length r));; Ok r.
Proof.
  intros Hsz Hpos Hc Hall. unfold decoder_range_read.
  rewrite (proj2 (check_missing_slivers_ok d c (c + 1))) by (intros i ?; by replace i with c by lia). run.
  rewrite Hsz. run. rewrite usize_div_ceil_ok by done. run. rewrite (proj2 (check_missing_slivers_ok _ _ _) Hall). run.
  destruct (columns_of_present d c _ Hall) as (l & Hl & Hm). exists l. split; [done|].
  replace (c + ceil_div (skip + n) cs' - c) with (ceil_div (skip + n) cs') by lia. rewrite Hm. run.
  by rewrite read_slivers_loop_ok.
Qed.

Lemma decoder_range_read_cases d c skip n : decoder_wf d ->
  (exists e, decoder_range_read d c skip n = Err e) \/
  exists cs' l, decoder_column_size d = Some cs' /\ 0 < cs' /\ is_Some (decoder_slivers d !! column_key c) /\
    columns_of d c (ceil_div (skip + n) cs') l /\
    decoder_range_read d c skip n = Ok (take n (drop skip (concat ((fun x => sliver_bytes x) <$> l)))) /\
    length (take n (drop skip (concat ((fun x => sliver_bytes x) <$> l)))) = n.
Proof.
  intros [Hsz Hpos]. destruct (check_missing_cases d c (c + 1)) as [Hc|[e He]]; cycle 1.
  { left. exists e. unfold decoder_range_read. by rewrite He. }
  pose proof (proj1 (check_missing_slivers_ok _ _ _) Hc c ltac:(lia)) as [x Hx]. pose proof (Hsz _ _ Hx) as Hs.
  set (cs' := length (sliver_bytes x)) in *. assert (0 < cs') by (destruct cs'; [congruence|lia]).
  destruct (check_missing_cases d c (c + ceil_div (skip + n) cs')) as [Hall|[e He]]; cycle 1.
  { left. exists e. unfold decoder_range_read. rewrite Hc. run. rewrite Hs. run.
    rewrite usize_div_ceil_ok by done. run. by rewrite He. }
  destruct (decoder_range_read_present d cs' c skip n) as (l & Hl & Hr); [done|done|by eexists|by apply check_missing_slivers_ok|].
  cbn zeta in Hr. rewrite Hr. destruct (Nat.eqb_spec (length (take n (drop skip (concat ((fun x => sliver_bytes x) <$> l))))) n).
  - right. exists cs', l. split_and!; try done.
  - left. by eexists.
Qed.

Lemma decoder_safe d : decoder_wf d -> safe_reader d.
Proof.
  intros Hwf. split.
  - intros c skip n. destruct (decoder_range_read_cases d c skip n Hwf) as [Herr|(cs' & l & _ & _ & _ & _ & Hr & Hl)]; [by left|].
    right. eexists. split; [exact Hr|done].
  - cbn [total_data_size decoder_reader]. unfold decoder_total_data_size.
    destruct (decoder_column_size d) eqn:Hc; [by eexists|]. rewrite bool_decide_true; [run; by eexists|].
    apply map_empty. intros k. destruct (decoder_slivers d !! k) as [x|] eqn:Hx; [|done].
    apply (wf_size d Hwf) in Hx. congruence.
Qed.

End slivers.

Section layout.
Context `{Build}.
Context (ss rows cols : nat) (Hss : 0 < ss) (Hrows : 0 < rows) (Hcols : 0 < cols).
Let cs := ss * rows.
Let total := ss * cols * rows.

(** ** The whole quilt *)

Section quilt.
Context (q : QuiltV1) (Hq : quilt_layout ss rows cols q).
Let cm := column_major ss rows cols (quilt_data q).

Lemma quilt_safe : safe_reader q.
Proof. split; [by apply (quilt_range_read_total ss rows cols)|by eexists]. Qed.

Lemma quilt_stored c bytes : c * cs + length bytes <= total ->
  take (length bytes) (drop (c * cs) cm) = bytes -> stored q c bytes.
Proof.
  intros Hl Hb skip n Hn. cbn [range_read_from_columns quilt_reader].
  rewrite (quilt_range_read_ok ss rows cols Hss Hrows Hcols q Hq) by (fold cs total; lia). fold cm cs.
  rewrite <- Hb, skipn_firstn_comm, drop_drop, firstn_firstn. f_equal. f_equal. lia.
Qed.

End quilt.

(** ** Columns of a quilt *)

Section columns.
Context (q : QuiltV1) (Hq : quilt_layout ss rows cols q) (Hu16 : (Z.of_nat cols < 2 ^ 16)%Z).
Let cm := column_major ss rows cols (quilt_data q).

Definition column (c : nat) : list byte := take cs (drop (c * cs) cm).

(** A decoder that holds some of the columns. *)
Record decoder_of (d : QuiltDecoderV1) : Prop := {
  of_wf : decoder_wf d;
  of_column k x : decoder_slivers d !! k = Some x -> exists c, k = Z.of_nat c /\ c < cols /\ sliver_bytes x = column c;
}.

Lemma column_length c : c < cols -> length (column c) = cs.
Proof.
  intros Hc. unfold column. rewrite length_take, length_drop. unfold cm. rewrite length_column_major. fold total.
  unfold total, cs. nia.
Qed.

Lemma decoder_new_of slivers i d : Forall (fun x => exists c, sliver_index_get (sliver_idx x) = Z.of_nat c /\ c < cols /\
    sliver_bytes x = column c) slivers -> decoder_new slivers i = Ok d -> decoder_of d.
Proof.
  intros Hall Hd. rewrite Forall_forall in Hall. split.
  - eapply decoder_new_wf; [|exact Hd]. apply Forall_forall. intros x Hx. destruct (Hall x Hx) as (c & _ & Hc & ->).
    intros Hnil. pose proof (column_length c Hc) as Hl. rewrite Hnil in Hl. cbn in Hl. unfold cs in Hl. nia.
  - intros k x Hx. destruct (decoder_new_elem _ _ _ _ _ Hd Hx) as [Hin <-]. by apply Hall.
Qed.

Context (d : QuiltDecoderV1) (Hd : decoder_of d).

Lemma column_key_eq i : i < cols -> column_key i = Z.of_nat i.
Proof. intros Hi. apply Z.mod_small. lia. Qed.

Lemma of_column_size k x : decoder_slivers d !! k = Some x -> decoder_column_size d = Some cs.
Proof.
  intros Hx. rewrite (wf_size d (of_wf d Hd) k x Hx). f_equal.
  destruct (of_column d Hd k x Hx) as (c & _ & Hc & ->). by apply column_length.
Qed.

(** A column that is present is one of the quilt, also when its number is
    truncated to 16 bits. *)
Lemma present_bound c m : is_u16 (Z.of_nat c) -> is_Some (decoder_slivers d !! column_key c) ->
  (forall i, c <= i < c + m -> is_Some (decoder_slivers d !! column_key i)) -> c < cols /\ c + m <= cols.
Proof.
  intros Hc [x Hx] Hall. assert (c < cols) as Hlt.
  { destruct (of_column d Hd _ x Hx) as (c' & Heq & Hc' & _). unfold column_key, is_u16 in *. rewrite Z.mod_small in Heq; lia. }
  split; [done|]. destruct (decide (c + m <= cols)); [done|]. destruct (Hall cols) as [y Hy]; [lia|].
  destruct (of_column d Hd _ y Hy) as (c' & Heq & Hc' & _). unfold column_key in Heq. rewrite Z.mod_small in Heq; lia.
Qed.

Lemma concat_columns c m l : c + m <= cols -> columns_of d c m l ->
  concat ((fun x => sliver_bytes x) <$> l) = take (m * cs) (drop (c * cs) cm).
Proof.
  unfold columns_of. revert c l. induction m as [|m IH]; intros c l Hm Hl; cbn [seq] in Hl.
  { by inversion Hl. }
  inversion Hl as [|? x ? l' Hx Hl' Heq]; subst. cbn [fmap list_fmap concat].
  rewrite (IH (S c) l') by (done || lia). destruct (of_column d Hd _ x Hx) as (c' & Hk & Hc' & ->).
  rewrite column_key_eq in Hk by lia. assert (c' = c) as -> by lia. unfold column.
  replace (S m * cs) with (cs + m * cs) by lia. replace (S c * cs) with (c * cs + cs) by lia.
  rewrite <- drop_drop. set (r := drop (c * cs) cm).
  assert (cs <= length r) by (unfold r, cm; rewrite length_drop, length_column_major; unfold cs; nia).
  rewrite <- (take_drop cs r) at 3. rewrite take_app_ge; rewrite length_take; [|lia]. do 2 f_equal. lia.
Qed.

Lemma present_of_columns c m l : columns_of d c m l ->
  forall i, c <= i < c + m -> is_Some (decoder_slivers d !! column_key i).
Proof.
  unfold columns_of. revert c l. induction m as [|m IH]; intros c l Hl i Hi; [lia|]. cbn [seq] in Hl.
  inversion Hl as [|? x ? l' Hx Hl']; subst. destruct (decide (i = c)) as [->|]; [by eexists|].
  apply (IH (S c) l'); [done|lia].
Qed.

Lemma slivers_bound : size (decoder_slivers d) <= cols.
Proof.
  rewrite <- (size_dom (D:=gset Z)). etransitivity.
  - apply (subseteq_size _ (list_to_set (Z.of_nat <$> seq 0 cols))). intros k [x Hx]%elem_of_dom.
    destruct (of_column d Hd k x Hx) as (c & -> & Hc & _). apply elem_of_list_to_set, list_elem_of_fmap.
    exists c. split; [done|]. apply elem_of_seq. lia.
  - rewrite size_list_to_set; [by rewrite length_fmap, length_seq|]. apply NoDup_fmap_2; [intros ?? ?; lia|apply NoDup_seq].
Qed.

(** What the decoder returns, the quilt returns as well. *)
Lemma decoder_refines : reader_refines d q.
Proof.
  split.
  - intros c skip n bs Hc Hr. cbn [range_read_from_columns decoder_reader quilt_reader] in *.
    destruct (decoder_range_read_cases d c skip n (of_wf d Hd)) as [[e He]|(cs' & l & Hs & Hpos & [x Hx] & Hl & Hok & Hlen)];
      [congruence|]. rewrite Hok in Hr. injection Hr as <-.
    pose proof (of_column_size _ _ Hx) as Hs'. assert (cs' = cs) as -> by congruence.
    destruct (present_bound c (ceil_div (skip + n) cs) Hc) as [Hb Hm]; [by eexists|by eapply present_of_columns|].
    rewrite (concat_columns _ _ _ Hm Hl) in *. pose proof (ceil_div_spec (skip + n) cs Hpos) as Hceil.
    rewrite (quilt_range_read_ok ss rows cols Hss Hrows Hcols q Hq); fold cs cm.
    + rewrite skipn_firstn_comm, drop_drop, firstn_firstn. do 2 f_equal. lia.
    + replace (ss * cols * rows) with (cs * cols) by (unfold cs; lia). nia.
  - cbn [total_data_size decoder_reader quilt_reader]. unfold decoder_total_data_size. intros t Ht.
    exists (length (quilt_data q)). split; [done|]. rewrite (layout_data _ _ _ _ Hq). pose proof slivers_bound as Hsz.
    destruct (decide (decoder_slivers d = ∅)) as [Hnil|(k & x & Hx)%map_choose].
    + destruct (decoder_column_size d) as [e|].
      * injection Ht as <-. rewrite Hnil, map_size_empty. lia.
      * apply bind_Ok in Ht as (? & _ & [= <-]). lia.
    + rewrite (of_column_size k x Hx) in Ht. injection Ht as <-. unfold cs. nia.
Qed.

(** What is in columns that the decoder has is stored in it. *)
Lemma decoder_stored c bytes : 0 < length bytes -> c * cs + length bytes <= total ->
  (forall i, c <= i < c + ceil_div (length bytes) cs -> is_Some (decoder_slivers d !! Z.of_nat i)) ->
  take (length bytes) (drop (c * cs) cm) = bytes -> stored d c bytes.
Proof.
  intros Hne Hl Hall Hb skip n Hn. cbn [range_read_from_columns decoder_reader].
  assert (0 < cs) as Hcs by (unfold cs; nia). set (m := ceil_div (skip + n) cs).
  pose proof (ceil_div_spec (length bytes) cs Hcs) as Hcl. pose proof (ceil_div_spec (skip + n) cs Hcs) as Hcm.
  assert (c + ceil_div (length bytes) cs <= cols) as Hin.
  { destruct (decide (c + ceil_div (length bytes) cs <= cols)); [done|]. unfold total, cs in *. nia. }
  assert (m <= ceil_div (length bytes) cs) as Hmle by (apply ceil_div_le_iff; [done|]; lia).
  assert (0 < ceil_div (length bytes) cs) by (destruct (ceil_div (length bytes) cs); lia).
  assert (forall i, c <= i < c + m -> is_Some (decoder_slivers d !! column_key i)) as Hpres.
  { intros i Hi. rewrite column_key_eq by lia. apply Hall. lia. }
  destruct (Hall c) as [x Hx]; [lia|]. assert (is_Some (decoder_slivers d !! column_key c)) as Hc.
  { rewrite column_key_eq by lia. by eexists. }
  destruct (decoder_range_read_present d cs c skip n (of_column_size _ _ Hx) Hcs Hc Hpres) as (l & Hcol & ->).
  rewrite (concat_columns c m l) by (done || lia). cbn zeta.
  assert (take n (drop skip (take (m * cs) (drop (c * cs) cm))) = take n (drop skip bytes)) as ->.
  { rewrite <- Hb, !skipn_firstn_comm, !firstn_firstn. f_equal. unfold m. lia. }
  rewrite (proj2 (Nat.eqb_eq _ _)) by (rewrite length_take, length_drop; lia). done.
Qed.

End columns.
End layout.
