(* ===== verification/QuiltSymbolSize.v ===== *)
(** * The symbol size of a quilt

    [compute_symbol_size] of encoding/quilt_encoding.rs finds the least symbol
    size for which the blobs fit into the columns, each starting in a column of
    its own, and the index into its first ten columns. *)

From S2P Require Import Prelude Core QuiltIndex Quilt QuiltLayout.

Local Open Scope nat_scope.

(** The number of columns of a given size that the blobs take. *)
Definition columns_needed (sizes : list nat) (column_size : nat) : nat :=
  sum_list ((fun s => ceil_div s column_size) <$> sizes).

Lemma ceil_div_anti a b b' : 0 < b <= b' -> ceil_div a b' <= ceil_div a b.
Proof. intros Hb. apply ceil_div_le_iff; [lia|]. pose proof (ceil_div_spec a b ltac:(lia)). nia. Qed.

Lemma columns_needed_anti sizes b b' : 0 < b <= b' -> columns_needed sizes b' <= columns_needed sizes b.
Proof.
  intros Hb. unfold columns_needed. induction sizes as [|s sizes IH]; [done|].
  cbn [fmap list_fmap sum_list sum_list_with id] in *. pose proof (ceil_div_anti s b b' Hb). unfold id in *. lia.
Qed.

Lemma columns_needed_share sizes b k : 0 < b -> Forall (fun s => s <= b * k) sizes ->
  columns_needed sizes b <= length sizes * k.
Proof.
  intros Hb. unfold columns_needed. induction 1 as [|s sizes Hs _ IH]; [done|].
  cbn [fmap list_fmap sum_list sum_list_with id length] in *. apply ceil_div_le_iff in Hs; [|done]. unfold id in *. lia.
Qed.

Lemma columns_needed_sum sizes b : 0 < b -> sum_list sizes <= b * columns_needed sizes b.
Proof.
  intros Hb. unfold columns_needed. induction sizes as [|s sizes IH]; [cbn; lia|].
  cbn [fmap list_fmap sum_list sum_list_with id] in *. pose proof (ceil_div_spec s b Hb). unfold id in *. lia.
Qed.

Lemma columns_needed_length sizes b : 0 < b -> Forall (fun s => 0 < s) sizes -> length sizes <= columns_needed sizes b.
Proof.
  intros Hb. unfold columns_needed. induction 1 as [|s sizes Hs _ IH]; [done|].
  cbn [fmap list_fmap sum_list sum_list_with id length] in *. pose proof (ceil_div_spec s b Hb).
  destruct (ceil_div s b); unfold id in *; lia.
Qed.

Lemma can_blobs_fit_ok {E} sizes n b : 0 < b ->
  can_blobs_fit_into_matrix (E:=E) sizes n b = Ok (columns_needed sizes b <=? n).
Proof.
  intros Hb. unfold can_blobs_fit_into_matrix.
  assert (mapM_outcome (E:=E) (fun s => usize_div_ceil s b) sizes = Ok ((fun s => ceil_div s b) <$> sizes)) as ->; [|done].
  induction sizes as [|s sizes IH]; [done|]. cbn [mapM_outcome fmap list_fmap].
  rewrite usize_div_ceil_ok by done. cbn [mbind outcome_bind]. by rewrite IH.
Qed.

Section search.
Context (sizes : list nat) (n_columns n_rows : nat) (Hrows : 0 < n_rows).

Definition size_fits (v : nat) : Prop := columns_needed sizes (v * n_rows) <= n_columns.

Lemma size_fits_mono v v' : 0 < v <= v' -> size_fits v -> size_fits v'.
Proof. unfold size_fits. intros Hv. pose proof (columns_needed_anti sizes (v * n_rows) (v' * n_rows) ltac:(nia)). lia. Qed.

(** Every blob gets an equal share of the columns. *)
Lemma share_fits v : 0 < v -> 0 < length sizes -> max_list sizes <= n_columns / length sizes * n_rows * v -> size_fits v.
Proof.
  intros Hv Hl Hmax. unfold size_fits. etransitivity; [apply (columns_needed_share _ _ (n_columns / length sizes))|].
  - nia.
  - apply Forall_forall. intros s Hs. pose proof (max_list_elem_of_le s sizes Hs). nia.
  - apply Nat.Div0.mul_div_le.
Qed.

(** The binary search returns the least size that is at least [min_val]. *)
Lemma search_ok {E} fuel min_val max_val : 0 < min_val -> max_val - min_val <= fuel ->
  (forall v, max_val <= v -> 0 < v -> size_fits v) ->
  exists r, search_symbol_size (E:=E) fuel sizes n_columns n_rows min_val max_val = Ok r /\
    min_val <= r /\ size_fits r /\ forall v, min_val <= v < r -> ~ size_fits v.
Proof.
  revert min_val max_val. induction fuel as [|fuel IH]; intros min_val max_val Hmin Hf Hmax; cbn [search_symbol_size].
  { rewrite (proj2 (Nat.ltb_ge _ _)) by lia. exists min_val. split_and!; [done..|apply Hmax; lia|lia]. }
  destruct (Nat.ltb_spec min_val max_val); cycle 1.
  { exists min_val. split_and!; [done..|apply Hmax; lia|lia]. }
  set (mid := (min_val + max_val) / 2). assert (min_val <= mid < max_val) as Hmid.
  { pose proof (Nat.div_mod_eq (min_val + max_val) 2). pose proof (Nat.mod_upper_bound (min_val + max_val) 2 ltac:(lia)).
    unfold mid. lia. }
  rewrite can_blobs_fit_ok by nia. cbn [mbind outcome_bind].
  destruct (Nat.leb_spec (columns_needed sizes (mid * n_rows)) n_columns) as [Hfit|Hno].
  - apply IH; [done|lia|]. intros v Hv Hv0. apply (size_fits_mono mid); [lia|done].
  - destruct (IH (mid + 1) max_val) as (r & Hr & Hle & Hfit & Hleast); [lia|lia|done|].
    exists r. split_and!; [done|lia|done|]. intros v Hv Hv'. destruct (decide (v <= mid)).
    + apply (size_fits_mono v mid) in Hv'; [unfold size_fits in Hv'; lia|lia].
    + apply (Hleast v); [lia|done].
Qed.

End search.

(** A symbol size with which the blobs fit, the first of them, the index, into
    ten columns, and the prefix of the index into the first column. *)
Record quilt_fits (sizes : list nat) (n_columns n_rows v : nat) : Prop := {
  fits_positive : 0 < v;
  fits_even : v mod 2 = 0;
  fits_columns : columns_needed sizes (v * n_rows) <= n_columns;
  fits_index : forall s, head sizes = Some s -> s <= v * n_rows * MAX_NUM_SLIVERS_FOR_QUILT_INDEX;
  fits_prefix : QUILT_INDEX_PREFIX_SIZE <= v * n_rows;
}.

Lemma next_even v : let r := Z.to_nat (next_multiple (Z.of_nat v) (required_alignment RS2)) in
  v <= r /\ r mod 2 = 0 /\ forall w, w mod 2 = 0 -> v <= w -> r <= w.
Proof.
  cbn zeta. change (required_alignment RS2) with 2%Z. destruct (next_multiple_spec (Z.of_nat v) 2 ltac:(lia)) as [Hb Hm].
  set (r := next_multiple (Z.of_nat v) 2) in *.
  split_and!; [lia|apply Nat2Z.inj; rewrite Nat2Z.inj_mod, Z2Nat.id by lia; exact Hm|]. intros w Hw Hv.
  apply (f_equal Z.of_nat) in Hw. rewrite Nat2Z.inj_mod in Hw. change (Z.of_nat 2) with 2%Z in Hw.
  pose proof (Z.div_mod (Z.of_nat w) 2 ltac:(lia)).
  pose proof (proj2 (next_multiple_le_iff (Z.of_nat v) 2 (Z.of_nat w / 2) ltac:(lia)) ltac:(lia)). lia.
Qed.

Lemma quilt_symbol_size_ok `{Build} sizes n_columns n_rows : 0 < n_rows -> sizes <> [] ->
  length sizes <= n_columns ->
  exists v, quilt_fits sizes n_columns n_rows v /\
    (forall w, quilt_fits sizes n_columns n_rows w -> v <= w) /\
    quilt_symbol_size sizes n_columns n_rows MAX_NUM_SLIVERS_FOR_QUILT_INDEX RS2 =
      (if (max_symbol_size RS2 <? Z.of_nat v)%Z then Err QuiltOversize else Ok v).
Proof.
  intros Hr Hne Hlen. destruct sizes as [|s0 sizes']; [done|]. set (sizes := s0 :: sizes') in *.
  assert (0 < length sizes) as Hl by (cbn; lia). unfold quilt_symbol_size.
  rewrite (proj2 (Nat.ltb_ge _ _) Hlen), bool_decide_false by done. cbn [negb ensure mbind outcome_bind head sizes expect].
  fold sizes. assert (0 < n_columns / length sizes) as Hshare by (apply Nat.div_str_pos; lia).
  rewrite !usize_div_ceil_ok by (unfold MAX_NUM_SLIVERS_FOR_QUILT_INDEX; nia). cbn [mbind outcome_bind].
  rewrite usize_div_ok by done. cbn [mbind outcome_bind]. rewrite usize_div_ceil_ok by nia. cbn [mbind outcome_bind].
  set (max_val := ceil_div (max_list sizes) _). set (min_val := Nat.max (Nat.max _ _) _).
  pose proof (ceil_div_spec QUILT_INDEX_PREFIX_SIZE n_rows Hr) as Hp.
  assert (0 < ceil_div QUILT_INDEX_PREFIX_SIZE n_rows) as Hp0.
  { destruct (ceil_div QUILT_INDEX_PREFIX_SIZE n_rows); [|lia]. cbn in Hp. lia. }
  destruct (search_ok (E:=QuiltError) sizes n_columns n_rows Hr max_val min_val max_val) as (r & -> & Hmin & Hfit & Hleast).
  { lia. } { lia. }
  { intros v Hv Hv0. apply share_fits; [done..|]. 
    pose proof (ceil_div_spec (max_list sizes) (n_columns / length sizes * n_rows) ltac:(nia)) as Hc.
    fold max_val in Hc. nia. }
  cbn [mbind outcome_bind]. destruct (next_even r) as (Hge & Heven & Hnext). set (v := Z.to_nat _) in *.
  assert (size_fits sizes n_columns n_rows v) as Hfv by (apply (size_fits_mono _ _ _ Hr r); [lia|done]).
  exists v. split_and!.
  - split; [lia|done|done| |nia]. intros s [= <-].
    pose proof (ceil_div_spec s0 (n_rows * MAX_NUM_SLIVERS_FOR_QUILT_INDEX) ltac:(unfold MAX_NUM_SLIVERS_FOR_QUILT_INDEX; nia)). nia.
  - intros w [Hw0 Hwe Hwc Hwi Hwp]. apply Hnext; [done|]. destruct (decide (r <= w)); [done|exfalso].
    apply (Hleast w); [|done]. split; [|lia]. specialize (Hwi s0 eq_refl). unfold min_val.
    apply Nat.max_lub; [apply Nat.max_lub|]; apply ceil_div_le_iff; try (unfold MAX_NUM_SLIVERS_FOR_QUILT_INDEX in *; nia).
    pose proof (columns_needed_sum sizes (w * n_rows) ltac:(nia)). nia.
  - rewrite can_blobs_fit_ok by nia. rewrite (proj2 (Nat.leb_le _ _) Hfv). cbn [mbind outcome_bind assert].
    replace (if debug_assertions then Ok tt else Ok tt) with (@Ok QuiltError unit tt) by by destruct debug_assertions.
    cbn [mbind outcome_bind]. by destruct (_ <? _)%Z.
Qed.

