(* ===== verification/QuiltEncoder.v ===== *)
(** * What the quilt encoder writes

    In the order of columns, a quilt is its index followed by its blobs in the
    order of their identifiers, each filled up with zeros to the end of a column
    ([quilt_of]).  [construct_quilt_cases] shows that this is what
    [construct_quilt] returns, and when it panics. *)

From stdpp Require Import sorting.
From S2P Require Import Prelude Core EncodingConfig Symbols Slivers Loops QuiltIndex Quilt.
From S2P Require Import SliverProps QuiltLayout QuiltReaders QuiltSymbolSize.

Local Open Scope nat_scope.

(** Bytes filled up to whole columns. *)
Definition pad_columns (cs : nat) (bytes : list byte) : list byte :=
  bytes ++ replicate (cs * ceil_div (length bytes) cs - length bytes) x00.

Lemma length_pad_columns cs bytes : 0 < cs -> length (pad_columns cs bytes) = cs * ceil_div (length bytes) cs.
Proof.
  intros Hcs. unfold pad_columns. pose proof (ceil_div_spec (length bytes) cs Hcs). len_solve.
Qed.

(** A blob with the bytes that represent it in a quilt. *)
Abbreviation blob_entry := (QuiltStoreBlob * list byte)%type.

Definition entry_columns (cs : nat) (bes : list blob_entry) : nat := columns_needed (length ∘ snd <$> bes) cs.

(** The patches of blobs that are stored one after the other. *)
Fixpoint patches_at (cs col : nat) (bes : list blob_entry) : list QuiltPatchV1 :=
  match bes with
  | [] => []
  | (b, e) :: bes =>
    mk_patch (Z.of_nat col) (Z.of_nat (col + ceil_div (length e) cs)) (identifier b) (tags b) ::
      patches_at cs (col + ceil_div (length e) cs) bes
  end.

Lemma entry_columns_cons cs b e bes :
  entry_columns cs ((b, e) :: bes) = ceil_div (length e) cs + entry_columns cs bes.
Proof. done. Qed.

Lemma length_patches_at cs col bes : length (patches_at cs col bes) = length bes.
Proof. revert col. induction bes as [|[b e] bes IH]; intros col; cbn; [done|]. by rewrite IH. Qed.

Lemma patches_at_rest cs col bes :
  wire_rest ∘ patch_to_wire <$> patches_at cs col bes = (fun be => (identifier (fst be), tags (fst be))) <$> bes.
Proof. revert col. induction bes as [|[b e] bes IH]; intros col; cbn; [done|]. by rewrite IH. Qed.

Lemma patches_at_u16 cs col bes : 0 < cs -> (Z.of_nat (col + entry_columns cs bes) < 2 ^ 16)%Z ->
  Forall (is_u16 ∘ wire_end) (patch_to_wire <$> patches_at cs col bes).
Proof.
  intros Hcs. revert col. induction bes as [|[b e] bes IH]; intros col Hu; cbn [patches_at fmap list_fmap]; constructor.
  - unfold is_u16. rewrite entry_columns_cons in Hu. cbn. lia.
  - apply IH. rewrite entry_columns_cons in Hu. lia.
Qed.

(** Reading the index back: the start of a patch is the end of the previous one. *)
Lemma populate_patches_at cs col bes :
  populate_start_indices_from (Z.of_nat col) (patch_from_wire ∘ patch_to_wire <$> patches_at cs col bes) =
    patches_at cs col bes.
Proof. revert col. induction bes as [|[b e] bes IH]; intros col; cbn; [done|]. by rewrite IH. Qed.

Section encoder.
Context `{Build} `{!Bcs rstring} `{!Bcs Tags} `{!Bcs (list wire_patch)}.
Context `{!BcsSpec rstring} `{!BcsSpec Tags} `{!BcsIndexSpec}.

(** The bytes of a blob: the header and extensions, then the data. *)
Definition is_entry (be : blob_entry) : Prop :=
  exists prefix, get_header_and_extension_bytes (fst be) = Ok prefix /\ snd be = prefix ++ store_data (fst be).

Lemma length_prefix b prefix : get_header_and_extension_bytes b = Ok prefix -> 6 <= length prefix.
Proof.
  intros (sid & tb & h & _ & _ & _ & -> & _)%prefix_shape. unfold header_as_bytes.
  rewrite !length_app, !length_le_bytes. cbn [length]. lia.
Qed.

Lemma entry_nonempty be : is_entry be -> 0 < length (snd be).
Proof. intros (prefix & Hp%length_prefix & ->). rewrite length_app. lia. Qed.

(** The two computations of the size agree. *)
Lemma entry_size b prefix s : get_header_and_extension_bytes b = Ok prefix -> serialized_blob_size b = Ok s ->
  s = length (prefix ++ store_data b).
Proof.
  intros (sid & tb & h & Hi & _ & Htb & -> & _)%prefix_shape. unfold serialized_blob_size. rewrite (bcs_size (identifier b)), Hi.
  cbn [fmap option_fmap option_map]. run. destruct (_ <=? _)%Z; [done|]. run. unfold tags_bytes in Htb.
  unfold header_as_bytes. rewrite !length_app, !length_le_bytes. cbn [length].
  case_bool_decide; run.
  - subst tb. destruct (_ <? _)%Z; [done|]. run. intros [= <-]. unfold BLOB_IDENTIFIER_SIZE_BYTES_LENGTH, BLOB_HEADER_SIZE.
    cbn [length]. lia.
  - destruct Htb as (st & Hst & _ & ->). rewrite (bcs_size (tags b)), Hst. cbn [fmap option_fmap option_map]. run.
    destruct (_ <? _)%Z; [done|]. run. intros [= <-].
    rewrite length_app, length_le_bytes. unfold BLOB_IDENTIFIER_SIZE_BYTES_LENGTH, BLOB_HEADER_SIZE, TAGS_SIZE_BYTES_LENGTH. lia.
Qed.

Lemma get_header_safe b : get_header_and_extension_bytes b <> Panic.
Proof.
  unfold get_header_and_extension_bytes. rewrite (bcs_size (identifier b)).
  destruct (bcs_to_bytes (identifier b)) as [sid|]; [|done]. cbn [fmap option_fmap option_map]. run.
  destruct (try_from 16 _); [|done]. run. case_bool_decide; run.
  - destruct (try_from 32 _); [|done]. by run.
  - destruct (bcs_to_bytes (tags b)) as [st|]; [|done]. run. destruct (try_from 16 _); [|done]. run.
    destruct (try_from 32 _); [|done]. by run.
Qed.

Lemma serialized_blob_size_safe b : serialized_blob_size b <> Panic.
Proof.
  unfold serialized_blob_size. destruct (bcs_serialized_size (identifier b)); [|done]. run.
  destruct (_ <=? _)%Z; [done|]. run. case_bool_decide; run.
  - by destruct (_ <? _)%Z.
  - destruct (bcs_serialized_size (tags b)); [|done]. run. by destruct (_ <? _)%Z.
Qed.

(** The index with its prefix. *)
Definition meta_bytes (ib : list byte) : list byte := [QUILT_VERSION_BYTE] ++ le_bytes 4 (len ib) ++ ib.

Lemma length_meta_bytes ib : length (meta_bytes ib) = QUILT_INDEX_PREFIX_SIZE + length ib.
Proof. unfold meta_bytes. by rewrite !length_app, length_le_bytes. Qed.

(** ** Writing blobs *)

Section write.
Context (ss rows cols : nat) (Hss : 0 < ss) (Hrows : 0 < rows) (Hcols : 0 < cols).
Let cs := ss * rows.
Let total := ss * cols * rows.
Let cm := column_major ss rows cols.

(** Data whose columns hold [l], and zeros after it. *)
Definition filled (data l : list byte) : Prop :=
  length data = total /\ length l <= total /\ cm data = l ++ replicate (total - length l) x00.

Lemma splice_filled (l bytes : list byte) z : length bytes <= z ->
  splice (length l) bytes (l ++ replicate z x00) = (l ++ bytes) ++ replicate (z - length bytes) x00.
Proof.
  intros Hb. replace z with (length bytes + (z - length bytes)) at 1 by lia.
  rewrite replicate_add, splice_middle by (by rewrite length_replicate). by rewrite app_assoc.
Qed.

Lemma write_filled {E} data l c skip bytes : filled data l -> length l = c * cs + skip ->
  length l + length bytes <= total -> length l < total ->
  exists data', write_bytes_to_columns (E:=E) data bytes c (ss * cols) cs ss skip = Ok data' /\ filled data' (l ++ bytes).
Proof.
  intros (Hd & Hle & Hcm) Hl Hfit Hlt. assert (0 < cs) by (unfold cs; nia).
  destruct (write_bytes_ok ss rows cols Hss Hrows Hcols (E:=E) data bytes c skip) as (data' & Hw & Hd' & Hm).
  - done.
  - fold cs total. lia.
  - fold cs. rewrite <- Nat.div_add_l by lia. apply Nat.Div0.div_lt_upper_bound. unfold total, cs in *. nia.
  - exists data'. split; [exact Hw|]. split; [done|]. split; [rewrite length_app; lia|].
    unfold cm in *. rewrite Hm, Hcm. fold cs. rewrite <- Hl, splice_filled by lia. do 2 f_equal. rewrite length_app. lia.
Qed.

Lemma column_multiple : is_multiple_of (Z.of_nat cs) (Z.of_nat ss) = true.
Proof.
  unfold is_multiple_of. destruct (Z.eqb_spec (Z.of_nat ss) 0); [lia|].
  unfold cs. rewrite Nat2Z.inj_mul, Z.mul_comm, Z.mod_mul by lia. done.
Qed.

(** Adding a blob after [c] full columns, or the panic of the last write. *)
Lemma add_blob_cases data l c b e : filled data l -> length l = c * cs -> is_entry (b, e) ->
  c * cs + length e <= total ->
  (store_data b = [] /\ c * cs + length e = total /\ add_blob_to_quilt data b false c cs (ss * cols) ss = Panic) \/
  exists data', add_blob_to_quilt data b false c cs (ss * cols) ss = Ok (data', ceil_div (length e) cs) /\
    filled data' (l ++ e).
Proof.
  intros Hf Hl (prefix & Hp & He) Hfit. cbn [fst snd] in Hp, He. subst e. pose proof (length_prefix _ _ Hp) as H6.
  rewrite length_app in Hfit. assert (0 < cs) by (unfold cs; nia). unfold add_blob_to_quilt.
  rewrite column_multiple. cbn [assert mbind outcome_bind]. rewrite Hp. run.
  destruct (write_filled (E:=QuiltError) data l c 0 prefix) as (d1 & -> & Hf1); [done|lia|lia|lia|]. run.
  destruct (decide (c * cs + length prefix = total)) as [Hend|].
  - left. assert (length (store_data b) = 0) as Hnil%nil_length_inv by lia. split_and!; [done|rewrite Hnil, app_nil_r; lia|].
    assert (write_bytes_to_columns (E:=QuiltError) d1 (store_data b) c (ss * cols) cs ss (length prefix) = Panic) as ->; [|done].
    apply write_bytes_beyond; [done..|]. fold cs. rewrite <- Nat.div_add_l by lia.
    apply Nat.div_le_lower_bound; [lia|]. unfold total, cs in *. nia.
  - right. destruct (write_filled (E:=QuiltError) d1 (l ++ prefix) c (length prefix) (store_data b)) as (d2 & -> & Hf2);
      [done|rewrite length_app; lia..|]. run. rewrite usize_div_ceil_ok by done. run.
    exists d2. rewrite length_app. split; [done|]. by rewrite <- app_assoc in Hf2.
Qed.

(** Data is filled up with the zeros that are already there. *)
Lemma filled_pad data l e c : filled data (l ++ e) -> length l = c * cs -> c + ceil_div (length e) cs <= cols ->
  filled data (l ++ pad_columns cs e).
Proof.
  intros (Hd & _ & Hcm) Hl Hc. assert (0 < cs) as Hcs by (unfold cs; nia).
  pose proof (ceil_div_spec (length e) cs Hcs) as Hs. pose proof (length_pad_columns cs e Hcs) as Hlp.
  assert (length (l ++ pad_columns cs e) <= total) as Hle by (rewrite length_app, Hlp, Hl; unfold total, cs in *; nia).
  split; [done|]. split; [done|]. rewrite Hcm. unfold pad_columns. rewrite <- !app_assoc, <- replicate_add. do 3 f_equal.
  rewrite length_app, Hlp in Hle. rewrite !length_app, length_replicate. lia.
Qed.

Lemma pad_columns_nonempty be : is_entry be -> 0 < ceil_div (length (snd be)) cs.
Proof.
  intros Hbe%entry_nonempty. pose proof (ceil_div_spec (length (snd be)) cs ltac:(unfold cs; nia)).
  destruct (ceil_div _ _); lia.
Qed.

Definition entries_bytes (bes : list blob_entry) : list byte := concat (pad_columns cs ∘ snd <$> bes).

(** A patch before its blob is placed. *)
Definition new_patch (b : QuiltStoreBlob) : QuiltPatchV1 := mk_patch 0 0 (identifier b) (tags b).

(** The loop over the blobs. *)
Lemma place_blobs_cases bes rest data l done_patches c : filled data l -> length l = c * cs -> Forall is_entry bes ->
  c + entry_columns cs bes <= cols -> (Z.of_nat cols < 2 ^ 16)%Z ->
  let r := foldM (place_blob cs (ss * cols) ss)
    (data, done_patches ++ (new_patch <$> (fst <$> bes)) ++ rest, c)
    (imap (fun i b => (length done_patches + i, b)) (fst <$> bes)) in
  (r = Panic /\ c + entry_columns cs bes = cols /\ exists be, last bes = Some be /\ store_data (fst be) = []) \/
  exists data', r = Ok (data', done_patches ++ patches_at cs c bes ++ rest, c + entry_columns cs bes) /\
    filled data' (l ++ entries_bytes bes).
Proof.
  cbn zeta. revert data l done_patches c.
  induction bes as [|[b e] bes IH]; intros data l done_patches c Hf Hl Hall Hfit Hu16.
  { right. exists data. cbn. by rewrite !app_nil_r, Nat.add_0_r. }
  apply Forall_cons in Hall as [Hbe Hall]. rewrite entry_columns_cons in *. assert (0 < cs) as Hcs by (unfold cs; nia).
  pose proof (ceil_div_spec (length e) cs Hcs) as Hce. cbn [fmap list_fmap imap fst foldM place_blob].
  destruct (add_blob_cases data l c b e Hf Hl Hbe) as [(Hnil & Hend & ->)|(d1 & -> & Hf1)].
  { unfold total, cs in *. nia. }
  { left. split; [done|]. destruct bes as [|be' bes].
    { split; [|by eexists]. change (entry_columns cs []) with 0. unfold total, cs in *. nia. }
    exfalso.
    apply Forall_cons in Hall as [Hbe' _]. pose proof (pad_columns_nonempty _ Hbe') as Hpos. destruct be' as [b' e'].
    rewrite entry_columns_cons in Hfit. cbn [snd] in Hpos. unfold total, cs in *. nia. }
  run. unfold index. rewrite Nat.add_0_r, lookup_app_r, Nat.sub_diag by lia. cbn [app lookup list_lookup]. run.
  assert (forall m, m <= cols -> try_from 16 (Z.of_nat m) = Some (Z.of_nat m)) as Hu.
  { intros m Hm. apply try_from_Some. split; [done|]. lia. }
  rewrite !Hu by lia. run. rewrite insert_app_r_alt, Nat.sub_diag by lia. cbn [insert list_insert].
  set (p := set_range _ _ _). apply (filled_pad d1 l e c) in Hf1; [|done|lia].
  specialize (IH d1 (l ++ pad_columns cs e) (done_patches ++ [p]) (c + ceil_div (length e) cs) Hf1).
  rewrite <- !app_assoc, !length_app in IH. cbn [app length] in IH.
  assert (imap (fun i b0 => (length done_patches + 1 + i, b0)) (fst <$> bes) =
    imap ((fun i b0 => (length done_patches + i, b0)) ∘ S) (fst <$> bes)) as Himap.
  { apply imap_ext. intros. cbn. f_equal. lia. }
  rewrite Himap in IH. destruct IH as [(Hp & Hfull & be & Hlast & Hnil)|(d' & Hr & Hf')];
    [rewrite length_pad_columns by done; lia|done|lia|done| |].
  - left. split_and!; [exact Hp|lia|]. exists be. split; [|done]. by destruct bes.
  - right. exists d'. split; [rewrite Nat.add_assoc; exact Hr|]. done.
Qed.

(** The blobs up to the first one that cannot be written. *)
Lemma entries_or_error bs : (exists bes, fst <$> bes = bs /\ Forall is_entry bes) \/
  exists bes b bs' e, bs = (fst <$> bes) ++ b :: bs' /\ Forall is_entry bes /\ get_header_and_extension_bytes b = Err e.
Proof.
  induction bs as [|b bs IH]; [left; by exists []|].
  destruct (get_header_and_extension_bytes b) as [prefix|e|] eqn:Hb; [|right; by exists [], b, bs, e|by destruct (get_header_safe b)].
  assert (is_entry (b, prefix ++ store_data b)) as Hbe by by exists prefix.
  destruct IH as [(bes & <- & Hall)|(bes & b' & bs' & e & -> & Hall & He)].
  - left. exists ((b, prefix ++ store_data b) :: bes). split; [done|by constructor].
  - right. exists ((b, prefix ++ store_data b) :: bes), b', bs', e. split_and!; [done|by constructor|done].
Qed.

Definition has_size (b : QuiltStoreBlob) (s : nat) : Prop := serialized_blob_size b = Ok s.

Lemma has_size_positive b s : has_size b s -> 0 < s.
Proof.
  unfold has_size, serialized_blob_size. intros Hs. outcome_inv. unfold BLOB_HEADER_SIZE. lia.
Qed.

Lemma sizes_positive bs sizes : Forall2 has_size bs sizes -> Forall (fun s => 0 < s) sizes.
Proof. induction 1; constructor; [by eapply has_size_positive|done]. Qed.

Lemma entries_sizes bes sizes : Forall is_entry bes -> Forall2 has_size (fst <$> bes) sizes ->
  sizes = length ∘ snd <$> bes.
Proof.
  intros Hall. revert sizes. induction Hall as [|[b e] bes (prefix & Hp & He) _ IH]; intros sizes Hs; inversion Hs; subst; [done|].
  cbn [fst snd] in *. cbn [fmap list_fmap]. f_equal; [|by apply IH]. cbn. subst e. by eapply entry_size.
Qed.

Lemma place_all_cases bs sizes data l c : filled data l -> length l = c * cs -> Forall2 has_size bs sizes ->
  c + columns_needed sizes cs <= cols -> (Z.of_nat cols < 2 ^ 16)%Z ->
  let r := foldM (place_blob cs (ss * cols) ss) (data, new_patch <$> bs, c) (enumerate bs) in
  (exists b e, b ∈ bs /\ get_header_and_extension_bytes b = Err e /\ r = Err e) \/
  (r = Panic /\ exists b, last bs = Some b /\ store_data b = []) \/
  exists bes data', fst <$> bes = bs /\ Forall is_entry bes /\ sizes = length ∘ snd <$> bes /\
    r = Ok (data', patches_at cs c bes, c + entry_columns cs bes) /\ filled data' (l ++ entries_bytes bes).
Proof.
  intros Hf Hl Hs Hfit Hu16 r. destruct (entries_or_error bs) as [(bes & <- & Hall)|(bes & b & bs' & e & -> & Hall & He)].
  - pose proof (entries_sizes bes sizes Hall Hs) as ->.
    destruct (place_blobs_cases bes [] data l [] c Hf Hl Hall Hfit Hu16) as [(Hp & _ & be & Hlast & Hnil)|(d' & Hr & Hf')];
      rewrite ?app_nil_r in *.
    + right; left. split; [exact Hp|]. exists (fst be). split; [|done]. by rewrite fmap_last, Hlast.
    + right; right. exists bes, d'. split_and!; try done.
  - left. apply Forall2_app_inv_l in Hs as (s1 & s2 & Hs1 & Hs2 & ->). inversion Hs2 as [|? sb ? s2' Hsb _]; subst.
    pose proof (entries_sizes bes s1 Hall Hs1) as ->. assert (0 < cs) as Hcs by (unfold cs; nia).
    assert (entry_columns cs bes + ceil_div sb cs <= columns_needed ((length ∘ snd <$> bes) ++ sb :: s2') cs) as Hsum.
    { unfold entry_columns, columns_needed. rewrite fmap_app, sum_list_with_app. cbn. unfold id. lia. }
    pose proof (ceil_div_spec sb cs Hcs) as Hsc. apply has_size_positive in Hsb.
    assert (0 < ceil_div sb cs) by (destruct (ceil_div sb cs); lia).
    subst r. unfold enumerate. rewrite fmap_app, imap_app, foldM_app.
    destruct (place_blobs_cases bes (new_patch <$> b :: bs') data l [] c Hf Hl Hall) as [(_ & Hfull & _)|(d' & Hr & Hf')];
      [lia|done|lia|]. cbn [app] in Hr.
    change (imap pair bes.*1) with (imap (fun i (b : QuiltStoreBlob) => (length (@nil QuiltPatchV1) + i, b)) bes.*1).
    rewrite Hr. run. cbn [fmap list_fmap imap foldM place_blob].
    unfold add_blob_to_quilt. rewrite column_multiple. cbn [assert]. run. rewrite He. run.
    exists b, e. split_and!; [apply elem_of_app; right; by left|done|done].
Qed.

(** Writing the index into the columns that are left for it. *)
Lemma add_meta_ok data meta rest k : filled data (replicate (k * cs) x00 ++ rest) -> 0 < length meta <= k * cs ->
  exists data', add_blob_to_quilt data (mk_store_blob meta quilt_index_identifier ∅) true 0 cs (ss * cols) ss =
    Ok (data', ceil_div (length meta) cs) /\ filled data' (meta ++ replicate (k * cs - length meta) x00 ++ rest).
Proof.
  intros (Hd & Hle & Hcm) Hm. rewrite length_app, length_replicate in Hle. assert (0 < cs) by (unfold cs; nia).
  unfold add_blob_to_quilt. rewrite column_multiple. cbn [assert store_data]. run.
  destruct (write_bytes_ok ss rows cols Hss Hrows Hcols (E:=QuiltError) data meta 0 0) as (d' & Hw & Hd' & Hs).
  - done.
  - fold total. lia.
  - by rewrite Nat.Div0.div_0_l.
  - fold cs in Hw. rewrite Hw. run. rewrite usize_div_ceil_ok by done. run. exists d'. split; [done|]. split; [done|].
    unfold cm in *. rewrite Hs, Hcm, !length_app, !length_replicate. split; [lia|].
    replace (k * cs) with (length meta + (k * cs - length meta)) at 1 by lia. rewrite replicate_add, <- !app_assoc.
    change (0 * (ss * rows) + 0) with (length (@nil byte)). set (z := replicate (k * cs - length meta) x00 ++ _).
    pose proof (splice_middle [] (replicate (length meta) x00) z meta) as Hsp. cbn [app] in Hsp.
    rewrite Hsp by (by rewrite length_replicate). subst z.
    replace (length meta + (k * cs - length meta + length rest)) with (k * cs + length rest) by lia. done.
Qed.

Lemma add_index_ok data i ib rest k : filled data (replicate (k * cs) x00 ++ rest) -> index_to_bytes i = Some ib ->
  k = ceil_div (length (meta_bytes ib)) cs ->
  exists data', add_index_to_quilt data i (len ib) (QUILT_INDEX_PREFIX_SIZE + length ib) k cs (ss * cols) ss = Ok data' /\
    filled data' (pad_columns cs (meta_bytes ib) ++ rest).
Proof.
  intros Hf Hi Hceil. pose proof (ceil_div_spec (length (meta_bytes ib)) cs ltac:(unfold cs; nia)) as Hk.
  rewrite <- Hceil in Hk. unfold add_index_to_quilt. rewrite Hi. run.
  change ([QUILT_VERSION_BYTE] ++ le_bytes 4 (len ib) ++ ib) with (meta_bytes ib).
  pose proof (length_meta_bytes ib) as Hmeta. rewrite <- Hmeta, Nat.eqb_refl. cbn [assert]. run.
  change (store_blob_new (meta_bytes ib) quilt_index_identifier) with
    (@Ok QuiltError _ (mk_store_blob (meta_bytes ib) quilt_index_identifier ∅)). run.
  destruct (add_meta_ok data (meta_bytes ib) rest k Hf) as (d' & -> & Hf').
  { split; [rewrite Hmeta; change QUILT_INDEX_PREFIX_SIZE with 5; lia|lia]. }
  run. rewrite <- Hceil, Nat.eqb_refl. run. exists d'. split; [done|]. unfold pad_columns.
  by rewrite <- Hceil, (Nat.mul_comm cs k), <- app_assoc.
Qed.

Lemma filled_zeros k : k <= total -> filled (replicate total x00) (replicate k x00).
Proof.
  intros Hk. split; [apply length_replicate|]. rewrite length_replicate. split; [done|].
  unfold cm. unfold total at 1. rewrite column_major_zeros by done. fold total.
  rewrite <- replicate_add. f_equal. lia.
Qed.

End write.

(** ** Checks before writing *)

Lemma check_duplicates_cases bs : StronglySorted blob_le bs ->
  (exists i, check_duplicates bs = Err (DuplicateIdentifier i) /\ ~ NoDup (identifier <$> bs)) \/ (check_duplicates bs = Ok tt /\ NoDup (identifier <$> bs)).
Proof.
  induction 1 as [|a bs Hs IH Ha]; [right; split; [done|constructor]|]. destruct bs as [|b bs].
  { right. split; [done|]. apply NoDup_singleton. }
  change (check_duplicates (a :: b :: bs)) with
    (ensure (negb (bool_decide (identifier a = identifier b))) (DuplicateIdentifier (identifier a));;
     check_duplicates (b :: bs)). case_bool_decide as Hab; run.
  { left. exists (identifier a). split; [done|]. rewrite !fmap_cons, Hab. intros [Hin _]%NoDup_cons. apply Hin. by left. }
  destruct IH as [(i & -> & Hdup)|[-> Hnd]].
  { left. exists i. split; [done|]. rewrite fmap_cons. by intros [_ ?]%NoDup_cons. }
  right. split; [done|].
  rewrite fmap_cons. constructor; [|done]. intros Hin.
  apply (list_elem_of_fmap_1 identifier) in Hin as (x & Hx & Hin). rewrite Forall_forall in Ha.
  assert (str_le (identifier b) (identifier x)) as Hbx.
  { apply elem_of_cons in Hin as [->|Hin]; [done|]. apply StronglySorted_inv in Hs as [_ Hb].
    rewrite Forall_forall in Hb. by apply Hb. }
  apply Hab. apply (anti_symm str_le); [apply (Ha b); by left|by rewrite Hx].
Qed.

Lemma new_patches_cases bs :
  let r := mapM_outcome (fun b => patch_new_with_tags (identifier b) (tags b)) bs in
  (exists b e, b ∈ bs /\ validate_quilt_identifier (identifier b) = Err e /\ r = Err e) \/
  (r = Ok (new_patch <$> bs) /\ Forall (fun b => validate_quilt_identifier (identifier b) = Ok tt) bs).
Proof.
  cbn zeta. induction bs as [|b bs IH]; [right; split; [done|constructor]|]. cbn [mapM_outcome].
  destruct (validate_quilt_identifier (identifier b)) as [[]|e|] eqn:Hv.
  - assert (patch_new_with_tags (identifier b) (tags b) = Ok (new_patch b)) as ->.
    { unfold patch_new_with_tags. by rewrite Hv. }
    run. destruct IH as [(b' & e & Hb' & He & ->)|[-> Hall]]; [left; exists b', e; by split_and!; [right|..]|].
    right. split; [done|by constructor].
  - left. exists b, e. unfold patch_new_with_tags. rewrite Hv. by split_and!; [left|..].
  - exfalso. pose proof (store_blob_new_safe [] (identifier b)) as Hsafe. unfold store_blob_new in Hsafe.
    by rewrite Hv in Hsafe.
Qed.

Lemma sizes_cases bs :
  (exists b e, b ∈ bs /\ serialized_blob_size b = Err e /\ mapM_outcome serialized_blob_size bs = Err e) \/
  exists sizes, mapM_outcome serialized_blob_size bs = Ok sizes /\ Forall2 has_size bs sizes.
Proof.
  induction bs as [|b bs IH]; [right; by exists []|]. cbn [mapM_outcome].
  destruct (serialized_blob_size b) as [s|e|] eqn:Hb; [|left; exists b, e; by split_and!; [left|..]|by destruct (serialized_blob_size_safe b)].
  run. destruct IH as [(b' & e & Hb' & He & ->)|(sizes & -> & Hall)]; [left; exists b', e; by split_and!; [right|..]|]. right. exists (s :: sizes). split; [done|by constructor].
Qed.

(** ** The whole quilt *)

Section construct.
Context (n : Z) (Hn : is_nzu16 n).
Let rows := Z.to_nat (n_primary_of n).
Let cols := Z.to_nat (n_secondary_of n).

Lemma quilt_dimensions : 0 < rows /\ 0 < cols /\ (Z.of_nat cols < 2 ^ 16)%Z.
Proof. pose proof (n_source_bounds n Hn). unfold rows, cols, is_nzu in *. lia. Qed.

(** What the encoder returns for a list of blobs: [bes] are the blobs in order
    with their bytes and [ib] the serialized index. *)
Record quilt_of (blobs : list QuiltStoreBlob) (q : QuiltV1) (bes : list blob_entry) (ib : list byte) : Prop := {
  of_blobs : fst <$> bes = merge_sort blob_le blobs;
  of_entries : Forall is_entry bes;
  of_identifiers : Forall (fun b => validate_quilt_identifier (identifier b) = Ok tt) (fst <$> bes);
  of_distinct : NoDup (identifier ∘ fst <$> bes);
  of_symbol : 0 < quilt_symbol_bytes q /\ quilt_symbol_bytes q mod 2 = 0 /\
    (Z.of_nat (quilt_symbol_bytes q) <= max_symbol_size RS2)%Z;
  of_layout : quilt_layout (quilt_symbol_bytes q) rows cols q;
  of_index_size : (len ib < 2 ^ 32)%Z /\
    length (meta_bytes ib) <= quilt_symbol_bytes q * rows * MAX_NUM_SLIVERS_FOR_QUILT_INDEX;
  of_index : let i := mk_index (patches_at (quilt_symbol_bytes q * rows)
                 (ceil_div (length (meta_bytes ib)) (quilt_symbol_bytes q * rows)) bes) in
    quilt_index q = Some i /\ index_to_bytes i = Some ib;
  of_columns : ceil_div (length (meta_bytes ib)) (quilt_symbol_bytes q * rows) +
    entry_columns (quilt_symbol_bytes q * rows) bes <= cols;
  of_bytes : filled (quilt_symbol_bytes q) rows cols (quilt_data q)
    (pad_columns (quilt_symbol_bytes q * rows) (meta_bytes ib) ++
     entries_bytes (quilt_symbol_bytes q) rows bes);
}.

(** Filling in the index does not change its size. *)
Lemma index_size_kept bs bes cs c size : fst <$> bes = bs -> 0 < cs -> (Z.of_nat (c + entry_columns cs bes) < 2 ^ 16)%Z ->
  index_serialized_size (mk_index (new_patch <$> bs)) = Some size ->
  exists ib, index_to_bytes (mk_index (patches_at cs c bes)) = Some ib /\ length ib = size.
Proof.
  intros <- Hcs Hu. unfold index_serialized_size, index_to_bytes. cbn [quilt_patches].
  rewrite (bcs_index_size _ (patch_to_wire <$> patches_at cs c bes)).
  - rewrite bcs_size. destruct (bcs_to_bytes (patch_to_wire <$> patches_at cs c bes)) as [ib|]; [|done]. intros [= <-]. by exists ib.
  - apply Forall_fmap, Forall_fmap, Forall_forall. intros b _. done.
  - by apply patches_at_u16.
  - rewrite <- !list_fmap_compose. rewrite (patches_at_rest cs c bes). done.
Qed.

(** No symbol size is large enough for the blobs. *)
Definition too_large (sizes : list nat) : Prop :=
  forall v, quilt_fits sizes cols rows v -> (max_symbol_size RS2 < Z.of_nat v)%Z.

Lemma symbol_size_cases sizes : sizes <> [] -> Forall (fun s => 0 < s) sizes ->
  let r := quilt_symbol_size sizes cols rows MAX_NUM_SLIVERS_FOR_QUILT_INDEX RS2 in
  (exists e, r = Err e /\ too_large sizes) \/
  exists ss, r = Ok ss /\ quilt_fits sizes cols rows ss /\ (Z.of_nat ss <= max_symbol_size RS2)%Z.
Proof.
  intros Hne Hpos. destruct quilt_dimensions as (Hrows & Hcols & _). destruct (decide (length sizes <= cols)) as [Hl|Hl].
  - destruct (quilt_symbol_size_ok sizes cols rows Hrows Hne Hl) as (v & Hv & Hleast & Hr). cbn zeta. rewrite Hr.
    destruct (Z.ltb_spec (max_symbol_size RS2) (Z.of_nat v)); [|right; by exists v].
    left. eexists. split; [done|]. intros w Hw%Hleast. lia.
  - left. unfold quilt_symbol_size. rewrite (proj2 (Nat.ltb_lt _ _)) by lia. eexists. split; [done|].
    intros v [Hv _ Hc _ _]. pose proof (columns_needed_length sizes (v * rows) ltac:(nia) Hpos). lia.
Qed.

(** Why blobs are refused. *)
Inductive quilt_refused (bs : list QuiltStoreBlob) : QuiltError -> Prop :=
| refused_duplicate i : ~ NoDup (identifier <$> bs) -> quilt_refused bs (DuplicateIdentifier i)
| refused_identifier b e : b ∈ bs -> validate_quilt_identifier (identifier b) = Err e -> quilt_refused bs e
| refused_index : index_serialized_size (mk_index (new_patch <$> bs)) = None -> quilt_refused bs QuiltIndexSerDerError
| refused_size b e : b ∈ bs -> serialized_blob_size b = Err e -> quilt_refused bs e
| refused_header b e : b ∈ bs -> get_header_and_extension_bytes b = Err e -> quilt_refused bs e
| refused_symbol size sizes e : index_serialized_size (mk_index (new_patch <$> bs)) = Some size ->
    Forall2 has_size bs sizes -> too_large (QUILT_INDEX_PREFIX_SIZE + size :: sizes) -> quilt_refused bs e.

Lemma sorted_blobs blobs : StronglySorted blob_le (merge_sort blob_le blobs).
Proof.
  apply StronglySorted_merge_sort.
  - intros a b c. apply (transitivity (R:=str_le)).
  - intros a b. apply (total str_le).
Qed.

(** What [construct_quilt] does on any list of blobs: it refuses them, panics
    because the index has 4 GiB or more or because the last blob is empty, or
    returns a quilt with the blobs in the order of their identifiers. *)
Lemma construct_quilt_cases blobs :
  let bs := merge_sort blob_le blobs in
  (exists e, construct_quilt (enum_of n) blobs = Err e /\ quilt_refused bs e) \/
  (construct_quilt (enum_of n) blobs = Panic /\
    ((exists size, index_serialized_size (mk_index (new_patch <$> bs)) = Some size /\ (2 ^ 32 <= Z.of_nat size)%Z) \/
     exists b, last bs = Some b /\ store_data b = [])) \/
  exists q bes ib, construct_quilt (enum_of n) blobs = Ok q /\ quilt_of blobs q bes ib.
Proof.
  cbn zeta. set (bs := merge_sort blob_le blobs). destruct quilt_dimensions as (Hrows & Hcols & Hu16). unfold construct_quilt.
  change (Z.to_nat (n_source_symbols Primary (enum_of n))) with rows.
  change (Z.to_nat (n_source_symbols Secondary (enum_of n))) with cols.
  change (encoding_type (enum_of n)) with RS2. fold bs.
  destruct (check_duplicates_cases bs (sorted_blobs blobs)) as [(i & -> & Hdup)|[-> Hnd]];
    [left; eauto using quilt_refused|]. run.
  destruct (new_patches_cases bs) as [(b & e & Hb & He & ->)|[-> Hval]]; [left; eauto using quilt_refused|]. run.
  destruct (index_serialized_size (mk_index (new_patch <$> bs))) as [size|] eqn:Hsize;
    [|left; eauto using quilt_refused]. run.
  destruct (try_from 32 (Z.of_nat size)) as [isz|] eqn:Htry; run; cycle 1.
  { right; left. split; [done|]. left. exists size. split; [done|]. apply try_from_None in Htry. lia. }
  apply try_from_Some in Htry as [-> Hu32]. rewrite Nat2Z.id.
  destruct (sizes_cases bs) as [(b & e & Hb & He & ->)|(sizes & -> & Hsizes)]; [left; eauto using quilt_refused|]. run.
  set (it := QUILT_INDEX_PREFIX_SIZE + size).
  destruct (symbol_size_cases (it :: sizes)) as [(e & -> & Hlarge)|(ss & -> & [Hss Heven Hfit Hidx _] & Hmax)].
  { done. }
  { constructor; [unfold it; change QUILT_INDEX_PREFIX_SIZE with 5; lia|]. by eapply sizes_positive. }
  { left; eauto using quilt_refused. }
  run. set (cs := ss * rows) in *. assert (0 < cs) as Hcs by (unfold cs; nia). specialize (Hidx it eq_refl).
  change (columns_needed (it :: sizes) cs) with (ceil_div it cs + columns_needed sizes cs) in Hfit.
  rewrite usize_div_ceil_ok by done. run. set (k := ceil_div it cs) in *.
  pose proof (ceil_div_spec it cs Hcs) as Hk. fold k in Hk.
  rewrite (proj2 (Nat.leb_le _ _)) by (apply ceil_div_le_iff; [done|exact Hidx]). cbn [assert]. run.
  assert (k * cs <= ss * cols * rows) as Hkt by (unfold cs; nia).
  destruct (place_all_cases ss rows cols Hss Hrows Hcols bs sizes (replicate (ss * cols * rows) x00) (replicate (k * cs) x00) k)
    as [(b & e & Hb & Hh & He)|[[Hp Hlast]|(bes & data' & Hbes & Hall & Hsz & Hok & Hf)]].
  - by apply filled_zeros.
  - apply length_replicate.
  - done.
  - exact Hfit.
  - done.
  - left. fold cs in He. rewrite He. eauto using quilt_refused.
  - right; left. fold cs in Hp. rewrite Hp. split; [done|by right].
  - right; right. fold cs in Hok. rewrite Hok. run.
    assert (entry_columns cs bes = columns_needed sizes cs) as Hec by by rewrite Hsz.
    destruct (index_size_kept bs bes cs k size) as (ib & Hib & Hlib); [done|done|lia|done|].
    destruct (add_index_ok ss rows cols Hss Hrows Hcols data' (mk_index (patches_at cs k bes)) ib (entries_bytes ss rows bes) k)
      as (d' & Hadd & Hf'); [done|done|by rewrite length_meta_bytes, Hlib|]. rewrite Hlib in Hadd.
    fold cs it in Hadd. rewrite Hadd. run.
    assert (length (meta_bytes ib) = it) as Hmeta by (rewrite length_meta_bytes; unfold it; lia).
    eexists _, bes, ib. split; [done|]. split; cbn [quilt_symbol_bytes quilt_data quilt_index]; fold cs; rewrite ?Hmeta; fold k; try done.
    + by rewrite Hbes.
    + by rewrite list_fmap_compose, Hbes.
    + split; [done|done|]. apply Hf'.
    + split; [lia|done].
    + lia.
Qed.

End construct.
End encoder.
