(* ===== verification/QuiltProps.v ===== *)
(** * Properties of quilts

    A quilt that was built returns its blobs, from the whole quilt and from the
    secondary slivers of the columns that hold a blob; decoding arbitrary data
    does not panic; and what a decoder returns for some slivers agrees with the
    whole quilt. *)

From stdpp Require Import sorting.
From S2P Require Import Prelude Core EncodingConfig Symbols Slivers Loops QuiltIndex Quilt.
From S2P Require Import SliverProps QuiltLayout QuiltReaders QuiltDecoders QuiltSymbolSize QuiltEncoder.

Local Open Scope nat_scope.

(** ** The index *)

Lemma remove_matching_distinct ids ps : NoDup (patch_identifier <$> ps) ->
  remove_matching ids ps =
    (List.filter (fun p => bool_decide (patch_identifier p ∈ ids)) ps, ids ∖ list_to_set (patch_identifier <$> ps)).
Proof.
  revert ids. induction ps as [|p ps IH]; intros ids Hnd.
  { cbn. f_equal. set_solver. }
  cbn [remove_matching List.filter]. rewrite fmap_cons in *. apply NoDup_cons in Hnd as [Hp Hnd].
  case_bool_decide as Hin; rewrite IH by done; f_equal; [f_equal|set_solver..].
  apply filter_ext_in. intros x Hx%list_elem_of_In. apply bool_decide_ext.
  assert (patch_identifier x <> patch_identifier p); [|set_solver]. intros Heq. apply Hp. rewrite <- Heq.
  by apply list_elem_of_fmap_2.
Qed.

Section props.
Context `{Build} `{!Bcs rstring} `{!Bcs Tags} `{!Bcs (list wire_patch)}.
Context `{!BcsSpec rstring} `{!BcsSpec Tags} `{!BcsIndexSpec}.

(** ** What is stored in a quilt *)

Section stored.
Context (n : Z) (Hn : is_nzu16 n) (blobs : list QuiltStoreBlob) (q : QuiltV1) (bes : list blob_entry) (ib : list byte).
Context (Hof : quilt_of n blobs q bes ib).
Let rows := Z.to_nat (n_primary_of n).
Let cols := Z.to_nat (n_secondary_of n).
Let ss := quilt_symbol_bytes q.
Let cs := ss * rows.
Let cm := column_major ss rows cols (quilt_data q).
Let k0 := ceil_div (length (meta_bytes ib)) cs.
Let patches := patches_at cs k0 bes.

Lemma quilt_sizes : 0 < ss /\ 0 < rows /\ 0 < cols /\ 0 < cs /\ (Z.of_nat cols < 2 ^ 16)%Z /\
  length (quilt_data q) = ss * cols * rows.
Proof.
  pose proof (quilt_dimensions n Hn) as (Hr & Hc & Hu). destruct (of_symbol _ _ _ _ _ Hof) as (Hs & _).
  fold rows cols ss in Hr, Hc, Hu, Hs. unfold cs. split_and!; try done; [nia|]. apply (layout_data _ _ _ _ (of_layout _ _ _ _ _ Hof)).
Qed.

(** The bytes in the columns of a quilt. *)
Definition at_column (c : nat) (bytes : list byte) : Prop :=
  0 < length bytes /\ c * cs + length bytes <= ss * cols * rows /\
  c + ceil_div (length bytes) cs <= cols /\ take (length bytes) (drop (c * cs) cm) = bytes.

Lemma at_column_intro c l1 bytes l2 : cm = l1 ++ pad_columns cs bytes ++ l2 -> length l1 = c * cs ->
  c + ceil_div (length bytes) cs <= cols -> 0 < length bytes -> at_column c bytes.
Proof.
  intros Hcm Hl Hc Hb. destruct quilt_sizes as (Hs & Hr & Hcl & Hcs & _ & _).
  pose proof (ceil_div_spec (length bytes) cs Hcs). split_and!; [done|unfold cs in *; nia|done|].
  rewrite Hcm, <- Hl, drop_app_length. unfold pad_columns. by rewrite <- app_assoc, take_app_length.
Qed.

Lemma quilt_bytes : exists z, cm = pad_columns cs (meta_bytes ib) ++ entries_bytes ss rows bes ++ z.
Proof. destruct (of_bytes _ _ _ _ _ Hof) as (_ & _ & Hcm). eexists. rewrite app_assoc. exact Hcm. Qed.

Lemma meta_at_column : at_column 0 (meta_bytes ib).
Proof.
  destruct quilt_bytes as [z Hz]. eapply (at_column_intro 0 []); [exact Hz|done| |rewrite length_meta_bytes; cbn; lia].
  pose proof (of_columns _ _ _ _ _ Hof) as Hc. fold ss rows cols in Hc. unfold cs. cbn [Nat.add]. lia.
Qed.

(** Every blob lies in the columns of its patch. *)
Lemma entries_at_column c l1 bes' z : cm = l1 ++ entries_bytes ss rows bes' ++ z -> length l1 = c * cs ->
  c + entry_columns cs bes' <= cols -> Forall is_entry bes' ->
  Forall2 (fun p be => exists c', p = mk_patch (Z.of_nat c') (Z.of_nat (c' + ceil_div (length (snd be)) cs))
      (identifier (fst be)) (tags (fst be)) /\ at_column c' (snd be))
    (patches_at cs c bes') bes'.
Proof.
  destruct quilt_sizes as (Hs & Hr & Hcl & Hcs & _ & _).
  revert c l1. induction bes' as [|[b e] bes' IH]; intros c l1 Hcm Hl Hc Hall; [constructor|].
  apply Forall_cons in Hall as [Hbe Hall]. rewrite entry_columns_cons in Hc. cbn [patches_at].
  unfold entries_bytes in Hcm. cbn [fmap list_fmap concat] in Hcm. constructor.
  - exists c. split; [done|]. cbn [snd]. eapply at_column_intro; [rewrite Hcm, <- app_assoc; done|done|lia|].
    apply (entry_nonempty _ Hbe).
  - apply (IH _ (l1 ++ pad_columns cs e)); [by rewrite Hcm, <- !app_assoc| |lia|done].
    rewrite length_app, Hl, length_pad_columns by done. lia.
Qed.

Lemma patches_stored : Forall2 (fun p be =>
  exists c, p = mk_patch (Z.of_nat c) (Z.of_nat (c + ceil_div (length (snd be)) cs)) (identifier (fst be)) (tags (fst be)) /\
    at_column c (snd be)) patches bes.
Proof.
  destruct quilt_bytes as [z Hz], quilt_sizes as (Hs & Hr & Hcl & Hcs & _ & _).
  eapply entries_at_column; [exact Hz| | |apply (of_entries _ _ _ _ _ Hof)].
  - rewrite length_pad_columns by done. fold k0. lia.
  - apply (of_columns _ _ _ _ _ Hof).
Qed.

Lemma patches_identifiers : patch_identifier <$> patches = identifier ∘ fst <$> bes.
Proof.
  pose proof patches_stored as Hp. clear Hof. induction Hp as [|p be ps bes' (c & -> & _) _ IH]; [done|].
  cbn. by rewrite IH.
Qed.

(** *** Reading from a source in which the columns of blobs are stored *)

Lemma quilt_at_column c bytes : at_column c bytes -> stored q c bytes.
Proof.
  intros (Hb & Hl & Hc & Ht). destruct quilt_sizes as (Hs & Hr & Hcl & _).
  apply (quilt_stored ss rows cols Hs Hr Hcl q (of_layout _ _ _ _ _ Hof)); [exact Hl|exact Ht].
Qed.

(** Blobs are decoded from a source that has their bytes. *)
Lemma decode_entry {T} `{!QuiltColumnRangeReader T} (src : T) c be t : be ∈ bes -> at_column c (snd be) ->
  stored src c (snd be) -> total_data_size src = Ok t -> length (snd be) <= t -> quilt_decode_blob src c = Ok (fst be).
Proof.
  intros Hin _ Hst Ht Hl. pose proof (of_entries _ _ _ _ _ Hof) as Hall. rewrite Forall_forall in Hall.
  destruct (Hall be Hin) as (prefix & Hp & Hbytes). rewrite Hbytes in *.
  pose proof (of_identifiers _ _ _ _ _ Hof) as Hval. rewrite Forall_forall in Hval.
  eapply decode_blob_stored; [exact Hp|apply Hval; by apply list_elem_of_fmap_2|done|done|done].
Qed.

Lemma quilt_decode_entry c be : be ∈ bes -> at_column c (snd be) -> quilt_decode_blob q c = Ok (fst be).
Proof.
  intros Hin Hat. eapply decode_entry; [done|done|by apply quilt_at_column|done|].
  destruct Hat as (_ & Hl & _), quilt_sizes as (_ & _ & _ & _ & _ & ->). lia.
Qed.

Definition patch_of (p : QuiltPatchV1) (be : blob_entry) : Prop := exists c,
  p = mk_patch (Z.of_nat c) (Z.of_nat (c + ceil_div (length (snd be)) cs)) (identifier (fst be)) (tags (fst be)) /\
  at_column c (snd be).

(** The blobs whose patches are selected by identifier and tags. *)
Lemma decode_selected_from (f : rstring -> Tags -> bool) ps bes' : Forall2 patch_of ps bes' -> Forall (.∈ bes) bes' ->
  mapM_outcome (decode_patch q) (List.filter (fun p => f (patch_identifier p) (patch_tags p)) ps) =
    Ok (List.filter (fun b => f (identifier b) (tags b)) (fst <$> bes')).
Proof.
  induction 1 as [|p be ps' bes'' (c & -> & Hat) _ IH]; intros Hsub; [done|]. apply Forall_cons in Hsub as [Hbe Hsub].
  cbn [List.filter fmap list_fmap patch_identifier patch_tags]. specialize (IH Hsub).
  destruct (f (identifier be.1) (tags be.1)); [|exact IH].
  cbn [mapM_outcome]. set (p := mk_patch _ _ _ _). assert (decode_patch q p = Ok be.1) as ->.
  { unfold decode_patch, p. cbn [start_index]. rewrite Nat2Z.id. by apply quilt_decode_entry. }
  run. by rewrite IH.
Qed.

Lemma decode_selected f :
  mapM_outcome (decode_patch q) (List.filter (fun p => f (patch_identifier p) (patch_tags p)) patches) =
    Ok (List.filter (fun b => f (identifier b) (tags b)) (merge_sort blob_le blobs)).
Proof.
  rewrite <- (of_blobs _ _ _ _ _ Hof). apply decode_selected_from; [apply patches_stored|by apply Forall_forall].
Qed.

(** The index is decoded from a source that has it. *)
Lemma decode_index_at {T} `{!QuiltColumnRangeReader T} (src : T) : stored src 0 (meta_bytes ib) ->
  decode_quilt_index src cs = Ok (mk_index patches).
Proof.
  intros Hst. destruct quilt_sizes as (_ & _ & _ & Hcs & _), (of_index_size _ _ _ _ _ Hof) as [Hib Hfit].
  destruct (of_index _ _ _ _ _ Hof) as [_ Hbytes]. rewrite length_meta_bytes in Hfit.
  rewrite (decode_quilt_index_stored src cs ib (mk_index (patch_from_wire ∘ patch_to_wire <$> patches))); try done.
  - rewrite <- length_meta_bytes. unfold populate_start_indices. cbn [quilt_patches]. fold k0. unfold patches.
    by rewrite populate_patches_at.
  - unfold index_to_bytes in Hbytes. cbn [quilt_patches] in Hbytes. unfold index_from_bytes.
    rewrite (bcs_roundtrip _ _ Hbytes). cbn. by rewrite list_fmap_compose.
Qed.

(** A quilt is read back from its bytes. *)
Lemma quilt_from_bytes : new_from_quilt_blob (quilt_data q) (enum_of n) = Ok q.
Proof.
  destruct quilt_sizes as (Hs & Hr & Hcl & Hcs & Hu & Hl). pose proof (of_layout _ _ _ _ _ Hof) as Hlay.
  unfold new_from_quilt_blob. change (Z.to_nat (n_source_symbols Primary (enum_of n))) with rows.
  change (Z.to_nat (n_source_symbols Secondary (enum_of n))) with cols.
  rewrite bool_decide_false by (intros Hnil; rewrite Hnil in Hl; cbn in Hl; nia). run.
  rewrite (proj2 (Nat.eqb_neq _ _)) by nia. run. rewrite Hl. unfold is_multiple_of.
  rewrite (proj2 (Z.eqb_neq _ _)) by nia. replace (ss * cols * rows) with (ss * (rows * cols)) by lia.
  rewrite Nat2Z.inj_mul, Z.mod_mul by nia. cbn [Z.eqb]. run. rewrite usize_div_ok, Nat.div_mul by nia. run.
  unfold quilt_get_or_decode_index. cbn [quilt_index quilt_data quilt_row_size quilt_symbol_bytes].
  rewrite Hl, usize_div_ok by nia. run. replace (ss * cols * rows) with (rows * (ss * cols)) by lia.
  rewrite Nat.div_mul by nia. set (q' := mk_quilt (quilt_data q) (ss * cols) ss None).
  assert (quilt_layout ss rows cols q') as Hlay' by (split; [done|done|exact Hl]).
  replace (rows * ss) with cs by (unfold cs; lia). rewrite decode_index_at; cycle 1.
  { destruct meta_at_column as (_ & Hm & _ & Ht). by apply (quilt_stored ss rows cols Hs Hr Hcl q' Hlay'). }
  run. f_equal. destruct (of_index _ _ _ _ _ Hof) as [Hi _]. destruct Hlay as [_ Hrow _].
  fold rows in Hi. fold cs k0 patches in Hi. fold ss cols in Hrow. destruct q as [d r y i]. cbn in *. by subst.
Qed.

Lemma quilt_get_index_eq : quilt_get_index q = Ok (mk_index patches).
Proof. unfold quilt_get_index. destruct (of_index _ _ _ _ _ Hof) as [Hi _]. by rewrite Hi. Qed.

Lemma identifiers_sorted : (list_to_set (patch_identifier <$> patches) : gset rstring) = list_to_set (identifier <$> blobs).
Proof.
  rewrite patches_identifiers, list_fmap_compose, (of_blobs _ _ _ _ _ Hof). apply list_to_set_perm_L.
  by rewrite merge_sort_Permutation.
Qed.

Lemma patch_indices p be : patch_of p be -> is_u16 (start_index p) /\ is_u16 (end_index p).
Proof.
  intros (c & -> & _ & _ & Hc & _). destruct quilt_sizes as (_ & _ & _ & _ & Hu & _). unfold is_u16. cbn. lia.
Qed.

Lemma quilt_patches_by_identifiers ids :
  get_quilt_patches_by_identifiers (mk_index patches) ids =
    let missing := list_to_set ids ∖ list_to_set (identifier <$> blobs) in
    if bool_decide (missing = ∅) then Ok (List.filter (fun p => bool_decide (patch_identifier p ∈ ids)) patches)
    else Err (BlobsNotFoundInQuilt missing).
Proof.
  unfold get_quilt_patches_by_identifiers. cbn [quilt_patches]. rewrite remove_matching_distinct; cycle 1.
  { rewrite patches_identifiers. apply (of_distinct _ _ _ _ _ Hof). }
  rewrite identifiers_sorted. cbn zeta. destruct (bool_decide _); [|done]. run. f_equal. apply List.filter_ext.
  intros p. apply bool_decide_ext. set_solver.
Qed.

End stored.
(** C16: a quilt returns the blobs it was built from: its bytes are read back as
    the same quilt, all blobs are returned in the order of their identifiers,
    blobs are found by identifiers (or the missing identifiers are reported) and
    by tags, and each blob by the identifier of its patch. *)
Theorem quilt_roundtrip n blobs q : is_nzu16 n -> construct_quilt (enum_of n) blobs = Ok q ->
  let bs := merge_sort blob_le blobs in
  new_from_quilt_blob (quilt_data q) (enum_of n) = Ok q /\
  quilt_get_all_blobs q = Ok bs /\
  (forall ids, quilt_get_blobs_by_identifiers q ids =
    let missing := list_to_set ids ∖ list_to_set (identifier <$> blobs) in
    if bool_decide (missing = ∅) then Ok (List.filter (fun b => bool_decide (identifier b ∈ ids)) bs)
    else Err (BlobsNotFoundInQuilt missing)) /\
  (forall t v, quilt_get_blobs_by_tag q t v = Ok (List.filter (fun b => bool_decide (tags b !! t = Some v)) bs)) /\
  exists i, quilt_index q = Some i /\ length (quilt_patches i) = length bs /\
    forall k p b, quilt_patches i !! k = Some p -> bs !! k = Some b ->
      patch_identifier p = identifier b /\ patch_tags p = tags b /\
      quilt_get_blob_by_patch_internal_id q (internal_id_to_bytes (quilt_patch_internal_id p)) = Ok b.
Proof.
  intros Hn Hq. cbn zeta. destruct (construct_quilt_cases n Hn blobs) as [(e & He & _)|[[He _]|(q' & bes & ib & Hq' & Hof)]];
    [congruence|congruence|]. assert (q' = q) as -> by congruence. clear Hq Hq'.
  pose proof (quilt_get_index_eq n blobs q bes ib Hof) as Hi. split_and!.
  - by apply (quilt_from_bytes n Hn blobs q bes ib).
  - unfold quilt_get_all_blobs. rewrite Hi. run.
    pose proof (decode_selected n Hn blobs q bes ib Hof (fun _ _ => true)) as Hd. by rewrite !filter_true in Hd.
  - intros ids. unfold quilt_get_blobs_by_identifiers. rewrite Hi. run.
    rewrite (quilt_patches_by_identifiers n Hn blobs q bes ib Hof). cbn zeta. destruct (bool_decide _); [|done]. run.
    pose proof (decode_selected n Hn blobs q bes ib Hof (fun (i : rstring) (_ : Tags) => bool_decide (i ∈ ids))) as Hd. exact Hd.
  - intros t v. unfold quilt_get_blobs_by_tag. rewrite Hi. run.
    pose proof (decode_selected n Hn blobs q bes ib Hof (fun (_ : rstring) (tg : Tags) => bool_decide (tg !! t = Some v))) as Hd. exact Hd.
  - pose proof (patches_stored n Hn blobs q bes ib Hof) as Hps. rewrite <- (of_blobs _ _ _ _ _ Hof).
    destruct (of_index _ _ _ _ _ Hof) as [Hidx _]. eexists. split; [exact Hidx|]. cbn [quilt_patches].
    rewrite length_fmap. split; [by apply Forall2_length in Hps|]. intros k p b Hp Hb.
    apply list_lookup_fmap_Some in Hb as (be & -> & Hbe). pose proof (Forall2_lookup_lr _ _ _ _ _ _ Hps Hp Hbe) as Hpo.
    destruct (patch_indices n Hn blobs q bes ib Hof p be Hpo) as [Hs He]. destruct Hpo as (c & -> & Hat). split_and!; [done|done|].
    unfold quilt_get_blob_by_patch_internal_id. rewrite internal_id_roundtrip by done. run.
    cbn [quilt_patch_internal_id id_start_index start_index]. rewrite Nat2Z.id.
    apply (quilt_decode_entry n Hn blobs q bes ib Hof); [by eapply list_elem_of_lookup_2|done].
Qed.

(** C29: building a quilt succeeds whenever the blobs can be stored.  Unless the
    last blob in the order of identifiers is empty or the index has 4 GiB or more,
    [construct_quilt] does not panic, and it returns an error only if identifiers
    are invalid or repeated, a blob or the index cannot be serialized within the
    limits of the format, or no symbol size is large enough. *)
Theorem construct_quilt_total n blobs : is_nzu16 n ->
  let bs := merge_sort blob_le blobs in
  (forall b, last bs = Some b -> store_data b <> []) ->
  (forall size, index_serialized_size (mk_index (new_patch <$> bs)) = Some size -> (Z.of_nat size < 2 ^ 32)%Z) ->
  match construct_quilt (enum_of n) blobs with
  | Ok q => exists bes ib, quilt_of n blobs q bes ib
  | Err e => quilt_refused n bs e
  | Panic => False
  end.
Proof.
  cbn zeta. intros Hn Hlast Hsize.
  destruct (construct_quilt_cases n Hn blobs) as [(e & -> & He)|[[-> [(size & Hs & Hl)|(b & Hb & Hnil)]]|(q & bes & ib & -> & Hof)]].
  - done.
  - specialize (Hsize _ Hs). lia.
  - by apply (Hlast b).
  - by exists bes, ib.
Qed.

(** ** Arbitrary data *)

Lemma new_from_quilt_blob_cases n bytes : is_nzu16 n ->
  let rows := Z.to_nat (n_primary_of n) in let cols := Z.to_nat (n_secondary_of n) in
  (exists e, new_from_quilt_blob bytes (enum_of n) = Err e) \/
  exists q, new_from_quilt_blob bytes (enum_of n) = Ok q /\ quilt_data q = bytes /\
    0 < quilt_symbol_bytes q /\ quilt_layout (quilt_symbol_bytes q) rows cols q /\
    exists i, quilt_index q = Some i /\
      decode_quilt_index (mk_quilt bytes (quilt_row_size q) (quilt_symbol_bytes q) None) (quilt_symbol_bytes q * rows) = Ok i.
Proof.
  intros Hn rows cols. destruct (quilt_dimensions n Hn) as (Hr & Hc & _). fold rows in Hr. fold cols in Hc.
  unfold new_from_quilt_blob. change (Z.to_nat (n_source_symbols Primary (enum_of n))) with rows.
  change (Z.to_nat (n_source_symbols Secondary (enum_of n))) with cols.
  case_bool_decide as Hne; [left; by eexists|]. run. rewrite (proj2 (Nat.eqb_neq _ _)) by nia. run.
  unfold is_multiple_of. rewrite (proj2 (Z.eqb_neq _ _)) by nia.
  destruct (Z.eqb_spec (len bytes mod Z.of_nat (rows * cols)) 0) as [Hm|]; [|left; by eexists]. run.
  rewrite usize_div_ok by nia. run. set (ss := length bytes / (rows * cols)).
  assert (length bytes = ss * cols * rows) as Hl.
  { rewrite <- Nat2Z.inj_mod in Hm. pose proof (Nat.div_mod_eq (length bytes) (rows * cols)). unfold ss. nia. }
  assert (0 < ss) as Hss by (destruct ss; [destruct bytes; cbn in *; [done|lia]|lia]).
  unfold quilt_get_or_decode_index. cbn [quilt_index quilt_data quilt_row_size quilt_symbol_bytes].
  replace (length bytes) with (rows * (ss * cols)) by lia. rewrite usize_div_ok, Nat.div_mul by nia. run.
  set (q' := mk_quilt bytes (ss * cols) ss None).
  assert (quilt_layout ss rows cols q') as Hlay' by (split; [done|done|exact Hl]).
  rewrite (Nat.mul_comm rows ss). destruct (decode_quilt_index q' (ss * rows)) as [i|e|] eqn:Hi; run.
  - right. eexists. split_and!; try done. by exists i.
  - left. by eexists.
  - exfalso. revert Hi. apply decode_quilt_index_safe; [by apply (quilt_safe ss rows cols)|nia].
Qed.

Lemma mapM_outcome_safe {E A B} (f : A -> outcome E B) l : (forall x, f x <> Panic) -> mapM_outcome f l <> Panic.
Proof.
  intros Hf. induction l as [|x l IH]; [done|]. cbn [mapM_outcome]. specialize (Hf x).
  destruct (f x); cbn [mbind outcome_bind]; [|done|done]. by destruct (mapM_outcome f l).
Qed.

Lemma patches_by_identifiers_safe i ids : get_quilt_patches_by_identifiers i ids <> Panic.
Proof. unfold get_quilt_patches_by_identifiers. destruct (remove_matching _ _). by destruct (bool_decide _). Qed.

Lemma internal_id_safe bytes : internal_id_from_bytes bytes <> Panic.
Proof.
  unfold internal_id_from_bytes. destruct (Nat.eqb_spec (length bytes) 5) as [Hl|]; [|done]. run.
  destruct bytes as [|b bytes]; [done|]. change (index (b :: bytes) 0) with (@Ok QuiltError _ b). run.
  destruct (bool_decide _); [|done]. run. unfold slice. rewrite Hl. done.
Qed.

(** The readers of the blobs of a quilt, for a decoding function. *)
Lemma quilt_readers_safe q : safe_reader q ->
  quilt_get_all_blobs q <> Panic /\ (forall ids, quilt_get_blobs_by_identifiers q ids <> Panic) /\
  (forall t v, quilt_get_blobs_by_tag q t v <> Panic) /\ (forall id, quilt_get_blob_by_patch_internal_id q id <> Panic).
Proof.
  intros Hsafe. assert (forall ps, mapM_outcome (decode_patch q) ps <> Panic) as Hm.
  { intros ps. apply mapM_outcome_safe. intros p. by apply decode_blob_safe. }
  unfold quilt_get_all_blobs, quilt_get_blobs_by_identifiers, quilt_get_blobs_by_tag, quilt_get_blob_by_patch_internal_id, quilt_get_index.
  destruct (quilt_index q) as [i|]; run; (split_and!; [done| |done|]).
  - intros ids. destruct (get_quilt_patches_by_identifiers i ids) eqn:Hp; run; [done|done|by destruct (patches_by_identifiers_safe i ids)].
  - intros id. destruct (internal_id_from_bytes id) eqn:Hp; run; [by apply decode_blob_safe|done|by destruct (internal_id_safe id)].
  - done.
  - intros id. destruct (internal_id_from_bytes id) eqn:Hp; run; [by apply decode_blob_safe|done|by destruct (internal_id_safe id)].
Qed.

Lemma decode_columns_safe d s e : decoder_wf d -> decode_columns d s e <> Panic.
Proof.
  intros Hwf. unfold decode_columns. destruct (check_missing_cases d (Z.to_nat s) (Z.to_nat e)) as [->|[err ->]]; [|done].
  run. by apply decode_blob_safe, decoder_safe.
Qed.

Lemma decoder_readers_safe d : decoder_wf d ->
  decoder_get_or_decode_index d <> Panic /\ (forall ids, decoder_get_blobs_by_identifiers d ids <> Panic) /\
  (forall t v, decoder_get_blobs_by_tag d t v <> Panic) /\ (forall id, decoder_get_blob_by_patch_internal_id d id <> Panic).
Proof.
  intros Hwf. assert (forall ps, mapM_outcome (get_patch_by_quilt_patch d) ps <> Panic) as Hm.
  { intros ps. apply mapM_outcome_safe. intros p. by apply decode_columns_safe. }
  assert (forall id, decoder_get_blob_by_patch_internal_id d id <> Panic) as Hid.
  { intros id. unfold decoder_get_blob_by_patch_internal_id.
    destruct (internal_id_from_bytes id) eqn:Hp; run; [by apply decode_columns_safe|done|by destruct (internal_id_safe id)]. }
  unfold decoder_get_or_decode_index, decoder_get_blobs_by_identifiers, decoder_get_blobs_by_tag.
  destruct (decoder_index d) as [i|]; run; split_and!; try done.
  - intros ids. destruct (get_quilt_patches_by_identifiers i ids) eqn:Hp; run; [done|done|by destruct (patches_by_identifiers_safe i ids)].
  - destruct (check_missing_cases d 0 1) as [Hc|[err ->]]; [|done]. rewrite Hc. run.
    destruct (proj1 (check_missing_slivers_ok d 0 1) Hc 0) as [x Hx]; [lia|]. pose proof (wf_size d Hwf _ _ Hx) as Hs. rewrite Hs. run.
    pose proof (decode_quilt_index_safe d (decoder_safe d Hwf) (length (sym_data (sliver_symbols x)))) as Hsafe.
    pose proof (wf_positive d Hwf) as Hpos. destruct (decode_quilt_index d _) eqn:Hdi; run; [done|done|].
    exfalso. apply Hsafe; [|done]. destruct (length _); [congruence|lia].
Qed.

Lemma decoder_new_safe slivers i : decoder_new slivers i <> Panic.
Proof.
  unfold decoder_new, add_slivers. generalize (mk_decoder ∅ i None).
  induction slivers as [|x l IH]; intros d; [done|]. cbn [foldM].
  destruct (validate_and_update_column_size (decoder_column_size d) _) eqn:Hv; run; [apply IH|done|].
  unfold validate_and_update_column_size in Hv. destruct (decoder_column_size d) as [k|]; [|done].
  by destruct (k =? _).
Qed.

(** C18: decoding does not panic on data from users: neither reading arbitrary
    bytes as a quilt, nor reading blobs from what was read, nor reading from
    arbitrary slivers that are not empty, whatever the index says. *)
Theorem quilt_decoding_never_panics n : is_nzu16 n ->
  (forall bytes, quilt_enum_new bytes (enum_of n) <> Panic /\
    forall q, quilt_enum_new bytes (enum_of n) = Ok q ->
      quilt_get_all_blobs q <> Panic /\ (forall ids, quilt_get_blobs_by_identifiers q ids <> Panic) /\
      (forall t v, quilt_get_blobs_by_tag q t v <> Panic) /\
      (forall id, quilt_get_blob_by_patch_internal_id q id <> Panic)) /\
  (forall slivers i, Forall (fun x => sym_data (sliver_symbols x) <> []) slivers ->
    decoder_new slivers i <> Panic /\
    forall d i', decoder_new slivers i = Ok d ->
      let d := mk_decoder (decoder_slivers d) i' (decoder_column_size d) in
      decoder_get_or_decode_index d <> Panic /\ (forall ids, decoder_get_blobs_by_identifiers d ids <> Panic) /\
      (forall t v, decoder_get_blobs_by_tag d t v <> Panic) /\
      (forall id, decoder_get_blob_by_patch_internal_id d id <> Panic)).
Proof.
  intros Hn. split.
  - intros bytes. unfold quilt_enum_new, new_from_sliver. destruct bytes as [|b bytes]; [done|].
    rewrite bool_decide_false by done. change (index (b :: bytes) 0) with (@Ok QuiltError _ b). run.
    unfold quilt_version_try_from. destruct (bool_decide _); [|done]. run.
    destruct (new_from_quilt_blob_cases n (b :: bytes) Hn) as [[e ->]|(q & -> & _ & Hs & Hlay & _)]; [done|].
    split; [done|]. intros q' [= <-]. destruct (quilt_dimensions n Hn) as (Hr & Hc & _).
    apply quilt_readers_safe.
    by apply (quilt_safe (quilt_symbol_bytes q) (Z.to_nat (n_primary_of n)) (Z.to_nat (n_secondary_of n))).
  - intros slivers i Hne. split; [apply decoder_new_safe|]. intros d i' Hd. apply decoder_readers_safe.
    apply (decoder_new_wf slivers i d Hne) in Hd as [Hsz Hpos]. by split.
Qed.

Lemma internal_id_u16 bytes i : internal_id_from_bytes bytes = Ok i -> is_u16 (id_start_index i) /\ is_u16 (id_end_index i).
Proof.
  unfold internal_id_from_bytes. destruct (Nat.eqb_spec (length bytes) 5) as [Hl|]; [|done]. run.
  unfold slice. rewrite Hl. run. intros (b & _ & Hi)%bind_Ok. apply bind_Ok in Hi as ([] & _ & [= <-]).
  cbn [id_start_index id_end_index]. unfold is_u16.
  pose proof (le_value_bound (take 2 (drop 1 bytes))) as H1. pose proof (le_value_bound (take 2 (drop 3 bytes))) as H3.
  rewrite length_take, length_drop, Hl in H1, H3. split; [exact H1|exact H3].
Qed.

(** C30: the two readers agree.  For arbitrary bytes that are read as a quilt, what a
    decoder returns that has some of the columns of this quilt is what the whole
    quilt returns, for the index and for the blob of any patch. *)
Theorem decoder_agrees_with_quilt n bytes q slivers i d : is_nzu16 n ->
  new_from_quilt_blob bytes (enum_of n) = Ok q ->
  let rows := Z.to_nat (n_primary_of n) in let cols := Z.to_nat (n_secondary_of n) in
  Forall (fun x => exists c, sliver_index_get (sliver_idx x) = Z.of_nat c /\ c < cols /\
    sym_data (sliver_symbols x) = column (quilt_symbol_bytes q) rows cols q c) slivers ->
  decoder_new slivers i = Ok d ->
  (forall id b, decoder_get_blob_by_patch_internal_id d id = Ok b -> quilt_get_blob_by_patch_internal_id q id = Ok b) /\
  (forall d' j, i = None -> decoder_get_or_decode_index d = Ok (d', j) -> quilt_index q = Some j).
Proof.
  intros Hn Hq rows cols Hcol Hd. destruct (quilt_dimensions n Hn) as (Hr & Hc & Hu).
  destruct (new_from_quilt_blob_cases n bytes Hn) as [[e He]|(q' & Hq' & Hbytes & Hs & Hlay & j0 & Hj0 & Hdec)]; [congruence|].
  assert (q' = q) as -> by congruence. set (ss := quilt_symbol_bytes q) in *. fold rows cols in Hr, Hc, Hu.
  pose proof (decoder_new_of ss rows cols Hs Hr Hc q slivers i d Hcol Hd) as Hof. split.
  - intros id b. unfold decoder_get_blob_by_patch_internal_id, quilt_get_blob_by_patch_internal_id.
    destruct (internal_id_from_bytes id) as [x|e|] eqn:Hid; run; [|done|done]. unfold decode_columns.
    intros (_ & _ & Hb)%bind_Ok. revert Hb. apply decode_blob_refines; [by apply (decoder_refines ss rows cols)|].
    pose proof (internal_id_u16 _ _ Hid). unfold is_u16 in *. lia.
  - intros d' j -> Hj. unfold decoder_get_or_decode_index in Hj. rewrite (decoder_new_index _ _ _ Hd) in Hj.
    apply bind_Ok in Hj as ([] & Hm & Hj). apply bind_Ok in Hj as (cs' & Hcs' & Hj).
    apply bind_Ok in Hj as (j' & Hj' & [= _ <-]). rewrite Hj0. f_equal.
    destruct (proj1 (check_missing_slivers_ok d 0 1) Hm 0) as [x Hx]; [lia|].
    rewrite (of_column_size ss rows cols Hs Hr Hc q d Hof _ _ Hx) in Hcs'. injection Hcs' as <-.
    set (q0 := mk_quilt bytes (quilt_row_size q) ss None) in *.
    assert (decoder_of ss rows cols q0 d) as Hof0 by (destruct Hof as [Hwf Hcl]; split; [done|]; unfold column in *; by rewrite Hbytes in Hcl).
    assert (quilt_layout ss rows cols q0) as Hlay0 by (destruct Hlay as [H1 H2 H3]; rewrite Hbytes in H3; by split).
    apply (decode_quilt_index_refines d q0) in Hj'; [|by apply (decoder_refines ss rows cols)].
    change (decode_quilt_index q0 (ss * rows) = Ok j0) in Hdec. congruence.
Qed.

End props.
