(* ===== verification/QuiltSlivers.v ===== *)
(** * Blobs from the slivers of an encoded quilt

    A quilt is stored like any blob.  Its symbol size is the one the encoder
    computes for its bytes, so that the first secondary slivers are the columns of
    the quilt, and the slivers of the columns of a patch are enough to read the
    blob. *)

From stdpp Require Import sorting.
From S2P Require Import Prelude Core EncodingConfig Symbols Loops ReedSolomon ProductCode Merkle Metadata.
From S2P Require Import RecoverySymbols Slivers SliverProps BlobEncoder SymbolVectors BlobEncoderProps BlobDecoder BlobReads.
From S2P Require Import EncodingProps QuiltIndex Quilt QuiltLayout QuiltReaders QuiltDecoders.
From S2P Require Import QuiltSymbolSize QuiltEncoder QuiltProps.

Local Open Scope nat_scope.

(** Consecutive pieces of a list. *)
Lemma concat_pieces {A} (l : list A) o k m : o + m * k <= length l ->
  concat ((fun u => take k (drop (o + u * k) l)) <$> seq 0 m) = take (m * k) (drop o l).
Proof.
  induction m as [|m IH]; intros Hl; [done|]. rewrite seq_S, fmap_app, concat_app, IH by lia. cbn [fmap list_fmap concat].
  rewrite app_nil_r. replace (S m * k) with (m * k + k) by lia. rewrite <- drop_drop. set (r := drop o l).
  assert (m * k + k <= length r) by (unfold r; rewrite length_drop; lia).
  rewrite <- (take_drop (m * k) r) at 3. rewrite take_app_ge; rewrite length_take; [|lia].
  rewrite Nat.min_l by lia. do 2 f_equal. lia.
Qed.

(** ** Decoders of slivers of equal length *)

Lemma add_slivers_total m slivers d : Forall (fun x => length (sliver_bytes x) = m) slivers ->
  (decoder_column_size d = None \/ decoder_column_size d = Some m) ->
  exists d', add_slivers d slivers = Ok d' /\ (forall k, is_Some (decoder_slivers d !! k) -> is_Some (decoder_slivers d' !! k)) /\
    forall x, x ∈ slivers -> is_Some (decoder_slivers d' !! sliver_index_get (sliver_idx x)).
Proof.
  intros Hall. revert d. induction Hall as [|y l Hy _ IH]; intros d Hm.
  { exists d. split_and!; [done|done|]. by intros x ?%elem_of_nil. }
  cbn [add_slivers foldM]. rewrite Hy.
  assert (validate_and_update_column_size (decoder_column_size d) m = Ok (Some m)) as ->.
  { unfold validate_and_update_column_size. destruct Hm as [->| ->]; [done|]. rewrite Nat.eqb_refl. done. }
  run. set (d1 := mk_decoder _ _ _). destruct (IH d1) as (d' & Hd' & Hkeep & Hin); [by right|].
  exists d'. split; [exact Hd'|]. assert (forall k, k = sliver_index_get (sliver_idx y) \/ is_Some (decoder_slivers d !! k) ->
    is_Some (decoder_slivers d1 !! k)) as Hd1.
  { intros k Hk. apply lookup_insert_is_Some. destruct (decide (sliver_index_get (sliver_idx y) = k)); [by left|right].
    split; [done|]. by destruct Hk as [->|]. }
  split; [intros k Hk; apply Hkeep, Hd1; by right|]. intros x [->|Hx]%elem_of_cons; [|by apply Hin]. apply Hkeep, Hd1. by left.
Qed.

(** A decoder with consecutive columns has at least as many slivers. *)
Lemma slivers_at_least d c m : (forall i, c <= i < c + m -> is_Some (decoder_slivers d !! Z.of_nat i)) ->
  m <= size (decoder_slivers d).
Proof.
  intros Hall. rewrite <- (size_dom (D:=gset Z)).
  transitivity (size (list_to_set (Z.of_nat <$> seq c m) : gset Z)).
  - rewrite size_list_to_set; [by rewrite length_fmap, length_seq|]. apply NoDup_fmap_2; [intros ?? ?; lia|apply NoDup_seq].
  - apply subseteq_size. intros k Hk%elem_of_list_to_set%list_elem_of_fmap. destruct Hk as (i & -> & Hi%elem_of_seq).
    apply elem_of_dom, Hall. lia.
Qed.

Section slivers.
Context `{Build} `{HashFunction} `{Spec : ReedSolomonSpec} `{!ReedSolomonLinear Spec}.
Context `{!Bcs rstring} `{!Bcs Tags} `{!Bcs (list wire_patch)}.
Context `{!BcsSpec rstring} `{!BcsSpec Tags} `{!BcsIndexSpec}.

Section encoded.
Context (n : Z) (Hn : is_nzu16 n) (blobs : list QuiltStoreBlob) (q : QuiltV1) (bes : list blob_entry) (ib : list byte).
Context (Hof : quilt_of n blobs q bes ib).
Let rows := Z.to_nat (n_primary_of n).
Let cols := Z.to_nat (n_secondary_of n).
Let ss := quilt_symbol_bytes q.
Let cs := ss * rows.

(** The encoder computes the symbol size of the quilt. *)
Lemma quilt_symbol_size_for_blob : symbol_size_for_blob (enum_of n) (len (quilt_data q)) = Ok (Z.of_nat ss).
Proof.
  destruct (quilt_sizes n Hn blobs q bes ib Hof) as (Hs & Hr & Hc & _ & _ & Hl).
  destruct (of_symbol _ _ _ _ _ Hof) as (_ & Heven & Hmax). fold ss rows cols in Hs, Hr, Hc, Hl, Heven, Hmax.
  pose proof (n_source_bounds n Hn) as Hb. pose proof (symbols_per_blob_bounds n Hn) as Hspb.
  assert (len (quilt_data q) = symbols_per_blob n * Z.of_nat ss)%Z as Hlen.
  { rewrite Hl. unfold symbols_per_blob, rows, cols. rewrite !Nat2Z.inj_mul, !Z2Nat.id by lia. lia. }
  change (max_symbol_size RS2) with 65534%Z in Hmax.
  change (symbol_size_for_blob (enum_of n)) with (symbol_size_for_blob (rs_config_of n)).
  rewrite symbol_size_for_blob_eq; [|done|nia|intros [-> Hbad]; unfold u64_MAX in Hbad; nia].
  rewrite (proj2 (Z.leb_le _ _)) by (change (max_symbol_size RS2) with 65534%Z; nia). f_equal. rewrite Hlen.
  destruct (exact_symbol_size_least (symbols_per_blob n * Z.of_nat ss) (symbols_per_blob n) 2 ltac:(lia) ltac:(lia))
    as (Hpos & Hev & Hcov & Hleast).
  apply (f_equal Z.of_nat) in Heven. rewrite Nat2Z.inj_mod in Heven.
  apply Z.le_antisymm; [|nia]. apply Hleast; [exact Heven|nia].
Qed.

(** A symbol of the message matrix is a piece of a column. *)
Lemma quilt_message u c : u < rows -> c < cols ->
  message ss cols (quilt_data q) u c = take ss (drop (c * cs + u * ss) (column_major ss rows cols (quilt_data q))).
Proof.
  destruct (quilt_sizes n Hn blobs q bes ib Hof) as (Hs & Hr & Hc & _ & _ & Hl). fold ss rows cols in Hs, Hr, Hc, Hl.
  intros Hu Hcc. pose proof (cell_at ss rows cols Hs Hr Hc c u 0 Hu Hs) as Hcell. rewrite !Nat.add_0_r in Hcell. fold cs in Hcell.
  destruct (position_at ss rows cols Hs Hr Hc c u 0 Hu Hs) as (_ & _ & Hmod). rewrite Nat.add_0_r in Hmod. fold cs in Hmod.
  assert (c * cs + u * ss + ss <= ss * cols * rows) as Hfit by (unfold cs; nia).
  rewrite <- (read_symbol ss rows cols Hs Hr Hc (quilt_data q) (c * cs + u * ss) ss) by (done || lia).
  rewrite Hcell. unfold message. replace (ss * (cols * u + c)) with (u * (ss * cols) + c * ss) by lia.
  unfold pad_symbol. assert (length (take ss (drop (u * (ss * cols) + c * ss) (quilt_data q))) = ss) as ->.
  { rewrite length_take, length_drop, Hl. nia. }
  by rewrite Nat.sub_diag, app_nil_r.
Qed.

Let X := blob_matrix n (Z.of_nat ss) (quilt_data q).

(** The first secondary slivers are the columns of the quilt. *)
Lemma secondary_sliver_column c : c < cols ->
  sliver_bytes (sliver_of n (Z.of_nat ss) X Secondary (Z.of_nat c)) = column ss rows cols q c.
Proof.
  intros Hc. destruct (quilt_sizes n Hn blobs q bes ib Hof) as (Hs & Hr & _ & _ & _ & Hl). fold ss rows cols in Hs, Hr, Hl.
  unfold column. fold cs. cbn [sliver_of sliver_symbols of_symbols sym_data]. rewrite Nat2Z.id.
  change (sliver_symbols_count Secondary (enum_of n)) with rows. replace cs with (rows * ss) at 1 by (unfold cs; lia).
  rewrite <- concat_pieces by (rewrite length_column_major; unfold cs; nia). f_equal. apply fmap_seq_ext. intros u Hu.
  cbn [line]. unfold X, blob_matrix. rewrite Nat2Z.id.
  rewrite (expanded_systematic (n_primary_of n) (n_secondary_of n)) by (fold rows cols; lia). apply quilt_message; lia.
Qed.

(** Encoding the quilt. *)
Lemma quilt_encode_ok : construct_quilt (enum_of n) blobs = Ok q -> supported n (Z.of_nat ss) ->
  exists pairs md mdq, quilt_encode_with_metadata (enum_of n) blobs = Ok (pairs, mdq) /\
    encoded n (Z.of_nat ss) (quilt_data q) pairs md /\
    quilt_id mdq = blob_id md /\ quilt_metadata mdq = metadata md /\ quilt_index q = Some (quilt_metadata_index mdq).
Proof.
  intros Hq Hsup. destruct (quilt_sizes n Hn blobs q bes ib Hof) as (Hs & Hr & Hc & _ & _ & Hl). fold ss rows cols in Hs, Hr, Hc, Hl.
  destruct (of_symbol _ _ _ _ _ Hof) as (_ & _ & Hmax). change (max_symbol_size RS2) with 65534%Z in Hmax. fold ss in Hmax.
  pose proof (n_source_bounds n Hn) as Hb. assert (len (quilt_data q) < 2 ^ 64)%Z as Hfit.
  { rewrite Hl. unfold rows, cols in *. rewrite !Nat2Z.inj_mul, !Z2Nat.id by lia. unfold MAX_SOURCE_SYMBOLS, u16_MAX in Hb. nia. }
  pose proof quilt_symbol_size_for_blob as Hsz.
  destruct (blob_encoder_new_ok n Hn (quilt_data q) (Z.of_nat ss) Hfit Hsz Hsup) as (e & Hnew & He).
  destruct (of_index _ _ _ _ _ Hof) as [Hi _]. unfold quilt_encode_with_metadata. rewrite Hq. run.
  unfold quilt_get_index. rewrite Hi. run. rewrite Hnew. run.
  assert (be_symbol_usize e =? quilt_symbol_bytes q = true) as ->.
  { apply Nat.eqb_eq. rewrite (encoder_of_self _ _ _ _ He). cbn. apply Nat2Z.id. }
  cbn [assert]. run. rewrite (encode_with_metadata_ok n Hn (quilt_data q) e (Z.of_nat ss) He). run.
  do 3 eexists. split; [done|]. split; [|done]. split; try done. unfold config_encode_with_metadata. rewrite Hnew. run.
  by rewrite (encode_with_metadata_ok n Hn (quilt_data q) e (Z.of_nat ss) He).
Qed.

(** A decoder for slivers of the encoded quilt. *)
Lemma encoded_decoder pairs md slivers i : encoded n (Z.of_nat ss) (quilt_data q) pairs md ->
  Forall (fun x => x ∈ axis_slivers Secondary pairs /\ (sliver_index_get (sliver_idx x) < n_secondary_of n)%Z) slivers ->
  exists d, decoder_new slivers i = Ok d /\ decoder_of ss rows cols q d /\ decoder_index d = i /\
    forall x, x ∈ slivers -> is_Some (decoder_slivers d !! sliver_index_get (sliver_idx x)).
Proof.
  intros He Hall. destruct (quilt_sizes n Hn blobs q bes ib Hof) as (Hs & Hr & Hc & _ & _ & Hl). fold ss rows cols in Hs, Hr, Hc, Hl.
  assert (Forall (fun x => exists c, sliver_index_get (sliver_idx x) = Z.of_nat c /\ c < cols /\
    sliver_bytes x = column ss rows cols q c) slivers) as Hcol.
  { eapply Forall_impl; [exact Hall|]. intros x [Hx Hlt]. apply (encoded_slivers _ _ _ _ _ He) in Hx as (j & Hj & ->).
    cbn [sliver_of sliver_idx sliver_index_get] in Hlt. exists (Z.to_nat j). cbn [sliver_of sliver_idx sliver_index_get].
    assert (Z.to_nat j < cols) by (unfold cols; lia). split_and!; [lia|done|].
    pose proof (secondary_sliver_column (Z.to_nat j) ltac:(done)) as Hb. rewrite Z2Nat.id in Hb by lia. exact Hb. }
  destruct (add_slivers_total cs slivers (mk_decoder ∅ i None)) as (d & Hd & _ & Hin); [|by left|].
  { eapply Forall_impl; [exact Hcol|]. intros x (c & _ & Hcc & ->). by apply column_length. }
  exists d. split_and!; [exact Hd| |by apply (decoder_new_index slivers)|exact Hin].
  by apply (decoder_new_of ss rows cols Hs Hr Hc q slivers i).
Qed.

Section decoder.
Context (d : QuiltDecoderV1) (Hd : decoder_of ss rows cols q d).

(** The bytes in columns that the decoder has. *)
Lemma decoder_at_column c bytes : at_column n q c bytes ->
  (forall i, c <= i < c + ceil_div (length bytes) cs -> is_Some (decoder_slivers d !! Z.of_nat i)) ->
  stored d c bytes /\ exists t, total_data_size d = Ok t /\ length bytes <= t.
Proof.
  destruct (quilt_sizes n Hn blobs q bes ib Hof) as (Hs & Hr & Hc & Hcs & Hu & Hl). fold ss rows cols in Hs, Hr, Hc, Hl, Hu.
  fold ss rows in Hcs. fold cs in Hcs. intros (Hb & Hfit & Hin & Ht) Hall. fold ss rows cols in Hfit, Hin, Ht. fold cs in Hin, Ht. split.
  - by apply (decoder_stored ss rows cols Hs Hr Hc q Hu d Hd).
  - pose proof (ceil_div_spec (length bytes) cs Hcs) as Hceil. pose proof (slivers_at_least d c _ Hall) as Hsz.
    destruct (Hall c) as [x Hx]; [destruct (ceil_div (length bytes) cs); lia|].
    exists (size (decoder_slivers d) * cs). cbn [total_data_size decoder_reader]. unfold decoder_total_data_size.
    rewrite (of_column_size ss rows cols Hs Hr Hc q d Hd _ _ Hx). split; [done|]. nia.
Qed.

(** The blob of a patch whose columns the decoder has. *)
Lemma decoder_patch_blob p be : patch_of n q p be -> be ∈ bes ->
  (forall j, j ∈ patch_sliver_indices p -> is_Some (decoder_slivers d !! sliver_index_get j)) ->
  decoder_get_blob_by_patch_internal_id d (internal_id_to_bytes (quilt_patch_internal_id p)) = Ok (fst be).
Proof.
  intros Hp Hbe Hall. destruct (patch_indices n Hn blobs q bes ib Hof p be Hp) as [Hs He].
  destruct Hp as (c & -> & Hat). fold ss rows in Hall. fold cs in Hall.
  assert (forall i, c <= i < c + ceil_div (length (snd be)) cs -> is_Some (decoder_slivers d !! Z.of_nat i)) as Hpres.
  { intros i Hi. apply (Hall (mk_sliver_index (Z.of_nat i))). apply list_elem_of_fmap. exists i. split; [done|].
    cbn [start_index end_index]. rewrite !Nat2Z.id. apply elem_of_seq. lia. }
  destruct (decoder_at_column c (snd be) Hat Hpres) as (Hst & t & Ht & Hle).
  unfold decoder_get_blob_by_patch_internal_id. rewrite internal_id_roundtrip by done. run. unfold decode_columns.
  cbn [quilt_patch_internal_id id_start_index id_end_index start_index end_index]. rewrite !Nat2Z.id.
  rewrite (proj2 (check_missing_slivers_ok d _ _)).
  - run. by eapply (decode_entry n blobs q bes ib Hof).
  - intros i Hi. destruct (quilt_sizes n Hn blobs q bes ib Hof) as (Hs' & Hr & Hc & _ & Hu & _). destruct Hat as (_ & _ & Hcc & _).
    rewrite (column_key_eq _ _ _ Hs' Hr Hc Hu) by lia. by apply Hpres.
Qed.

(** The index, if the decoder has the columns that can hold it. *)
Lemma decoder_reads_index i : quilt_index q = Some i -> decoder_index d = None ->
  (forall j, j < cols -> j < MAX_NUM_SLIVERS_FOR_QUILT_INDEX -> is_Some (decoder_slivers d !! Z.of_nat j)) ->
  exists d', decoder_get_or_decode_index d = Ok (d', i).
Proof.
  intros Hi Hnone Hall. destruct (quilt_sizes n Hn blobs q bes ib Hof) as (Hs & Hr & Hc & Hcs & Hu & Hl).
  fold ss rows cols in Hs, Hr, Hc, Hl, Hu. fold ss rows in Hcs. fold cs in Hcs.
  pose proof (meta_at_column n Hn blobs q bes ib Hof) as Hmeta. destruct (of_index_size _ _ _ _ _ Hof) as [_ Hsize].
  fold ss rows in Hsize. fold cs in Hsize. apply ceil_div_le_iff in Hsize; [|done].
  destruct (decoder_at_column 0 (meta_bytes ib) Hmeta) as (Hst & _).
  { intros j Hj. destruct Hmeta as (_ & _ & Hcc & _). apply Hall; [fold ss rows cols in Hcc; fold cs in Hcc; lia|lia]. }
  destruct (Hall 0) as [x Hx]; [done|unfold MAX_NUM_SLIVERS_FOR_QUILT_INDEX; lia|].
  unfold decoder_get_or_decode_index. rewrite Hnone. rewrite (proj2 (check_missing_slivers_ok d 0 1)).
  - run. rewrite (of_column_size ss rows cols Hs Hr Hc q d Hd _ _ Hx). run.
    pose proof (decode_index_at n Hn blobs q bes ib Hof d Hst) as Hdec. fold ss rows in Hdec. rewrite Hdec. run.
    destruct (of_index _ _ _ _ _ Hof) as [Hq _]. rewrite Hi in Hq. injection Hq as ->. by eexists.
  - intros j Hj. replace j with 0 by lia. by eexists.
Qed.

End decoder.
End encoded.
(** C17: a blob of a quilt is read from the slivers of its patch alone.  A quilt
    that was built is encoded like any blob, and of its secondary slivers the ones
    of the columns of a patch are enough to read the blob of this patch; the first
    ten columns are enough to read the index. *)
Theorem blobs_from_slivers n blobs q : is_nzu16 n -> construct_quilt (enum_of n) blobs = Ok q ->
  supported n (Z.of_nat (quilt_symbol_bytes q)) ->
  exists pairs mdq, quilt_encode_with_metadata (enum_of n) blobs = Ok (pairs, mdq) /\
    quilt_index q = Some (quilt_metadata_index mdq) /\
    compute_blob_id (enum_of n) (quilt_data q) = Ok (quilt_id mdq) /\
    forall slivers i, Forall (fun x => x ∈ axis_slivers Secondary pairs /\
        (sliver_index_get (sliver_idx x) < n_secondary_of n)%Z) slivers ->
      let has j := exists x, x ∈ slivers /\ sliver_idx x = j in
      exists d, decoder_new slivers i = Ok d /\
        (i = None -> (forall j, (0 <= j < Z.min (n_secondary_of n) (Z.of_nat MAX_NUM_SLIVERS_FOR_QUILT_INDEX))%Z ->
           has (mk_sliver_index j)) ->
         exists d', decoder_get_or_decode_index d = Ok (d', quilt_metadata_index mdq)) /\
        (forall k p b, quilt_patches (quilt_metadata_index mdq) !! k = Some p -> merge_sort blob_le blobs !! k = Some b ->
         (forall j, j ∈ patch_sliver_indices p -> has j) ->
         decoder_get_blob_by_patch_internal_id d (internal_id_to_bytes (quilt_patch_internal_id p)) = Ok b).
Proof.
  intros Hn Hq Hsup. destruct (construct_quilt_cases n Hn blobs) as [(e & He & _)|[[He _]|(q' & bes & ib & Hq' & Hof)]];
    [congruence|congruence|]. assert (q' = q) as -> by congruence. clear Hq'.
  destruct (quilt_encode_ok n Hn blobs q bes ib Hof Hq Hsup) as (pairs & md & mdq & Hmd & He & Hid & _ & Hi).
  exists pairs, mdq. split_and!; [done|done| |].
  { destruct (encoded_encoder _ _ _ _ _ He) as (e & Hnew & Hof' & _ & ->). rewrite Hid.
    unfold compute_blob_id, config_compute_metadata. rewrite Hnew. run.
    by rewrite (compute_metadata_ok n Hn (quilt_data q) e (Z.of_nat (quilt_symbol_bytes q)) Hof'). }
  intros slivers i Hall has. destruct (encoded_decoder n Hn blobs q bes ib Hof pairs md slivers i He Hall) as (d & Hd & Hdof & Hdi & Hin).
  assert (forall j, has j -> is_Some (decoder_slivers d !! sliver_index_get j)) as Hhas by (intros j (x & Hx & <-); by apply Hin).
  exists d. split_and!; [done| |].
  - intros -> Hcols. eapply (decoder_reads_index n Hn blobs q bes ib Hof d Hdof); [done|done|]. intros j Hj1 Hj2.
    apply (Hhas (mk_sliver_index (Z.of_nat j))), Hcols. lia.
  - intros k p b Hp Hb Hcols. pose proof (patches_stored n Hn blobs q bes ib Hof) as Hps.
    rewrite <- (of_blobs _ _ _ _ _ Hof) in Hb. apply list_lookup_fmap_Some in Hb as (be & -> & Hbe).
    destruct (of_index _ _ _ _ _ Hof) as [Hidx _]. rewrite Hi in Hidx. injection Hidx as Hidx. rewrite Hidx in Hp.
    apply (decoder_patch_blob n Hn blobs q bes ib Hof d Hdof); [|by eapply list_elem_of_lookup_2|auto].
    exact (Forall2_lookup_lr _ _ _ _ _ _ Hps Hp Hbe).
Qed.

End slivers.
