(* ===== verification/QuiltExamples.v ===== *)
(** * Runs of quilts

    An instance of the serialization that follows the format of BCS (for strings
    of ASCII characters), concrete quilts for a committee of seven shards, and two
    inputs on which the code does not do what it means to: a quilt that ends with
    an empty blob, and a column that does not exist. *)

From stdpp Require Import sorting.
From S2P Require Import Prelude Core EncodingConfig Symbols ReedSolomon ProductCode Merkle Metadata Slivers SliverProps.
From S2P Require Import BlobEncoder BlobEncoderProps XorCode EncodingProps QuiltIndex Quilt QuiltLayout.
From S2P Require Import QuiltReaders QuiltDecoders QuiltSymbolSize QuiltEncoder QuiltProps QuiltSlivers.

(** ** Serialization *)

(** A format with a parser that leaves the rest of the input. *)
Record codec (A : Type) := mk_codec {
  enc : A -> option (list byte);
  dec : list byte -> option (A * list byte);
  dec_enc x bs rest : enc x = Some bs -> dec (bs ++ rest) = Some (x, rest);
}.
Arguments enc {A} c x.
Arguments dec {A} c l.
Arguments dec_enc {A} c x bs rest _.

(** Numbers in ULEB128, with at most five bytes. *)
Fixpoint uleb (fuel : nat) (v : Z) : option (list byte) :=
  match fuel with
  | O => None
  | S fuel =>
    if (0 <=? v) && (v <? 128) then Some [byte_of v]
    else if v <? 0 then None
    else bs ← uleb fuel (v / 128); Some (byte_of (v mod 128 + 128) :: bs)
  end.

Fixpoint uleb_value (fuel : nat) (l : list byte) : option (Z * list byte) :=
  match fuel, l with
  | S fuel, b :: l =>
    if byte_val b <? 128 then Some (byte_val b, l)
    else '(v, l) ← uleb_value fuel l; Some (byte_val b - 128 + 128 * v, l)
  | _, _ => None
  end.

Lemma uleb_roundtrip fuel v bs rest : uleb fuel v = Some bs -> uleb_value fuel (bs ++ rest) = Some (v, rest).
Proof.
  revert v bs. induction fuel as [|fuel IH]; intros v bs; [done|]. cbn [uleb].
  destruct ((0 <=? v) && (v <? 128)) eqn:Hv.
  - intros [= <-]. cbn [app uleb_value]. rewrite byte_val_of, Z.mod_small by lia. by rewrite (proj2 (Z.ltb_lt v 128)) by lia.
  - destruct (Z.ltb_spec v 0); [done|]. destruct (uleb fuel (v / 128)) as [bs'|] eqn:Hb; [|done]. intros [= <-].
    pose proof (Z.mod_pos_bound v 128 ltac:(lia)). cbn [app uleb_value]. rewrite byte_val_of, Z.mod_small by lia.
    rewrite (proj2 (Z.ltb_ge _ _)) by lia. rewrite (IH _ _ Hb). cbn. do 2 f_equal. pose proof (Z.div_mod v 128 ltac:(lia)). lia.
Qed.

Definition uleb_codec : codec Z := mk_codec Z (uleb 5) (uleb_value 5) (uleb_roundtrip 5).

(** Integers of 16 bits, and characters of one byte. *)
Definition u16_codec : codec Z.
Proof.
  refine (mk_codec Z (fun v => if (0 <=? v) && (v <? 2 ^ 16) then Some (le_bytes 2 v) else None)
    (fun l => match l with a :: b :: l => Some (le_value [a; b], l) | _ => None end) _).
  intros v bs rest. destruct ((0 <=? v) && (v <? 2 ^ 16)) eqn:Hv; [|done]. intros [= <-].
  transitivity (Some (le_value (le_bytes 2 v), rest)); [done|]. rewrite le_value_le_bytes; [done|].
  change (256 ^ Z.of_nat 2) with (2 ^ 16). lia.
Defined.

Definition ascii_codec : codec Z.
Proof.
  refine (mk_codec Z (fun v => if (0 <=? v) && (v <? 128) then Some [byte_of v] else None)
    (fun l => match l with a :: l => Some (byte_val a, l) | _ => None end) _).
  intros v bs rest. destruct ((0 <=? v) && (v <? 128)) eqn:Hv; [|done]. intros [= <-]. cbn [app].
  rewrite byte_val_of, Z.mod_small by lia. done.
Defined.

Definition pair_codec {A B} (ca : codec A) (cb : codec B) : codec (A * B).
Proof.
  refine (mk_codec (A * B) (fun '(a, b) => x ← enc ca a; y ← enc cb b; Some (x ++ y))
    (fun l => '(a, l) ← dec ca l; '(b, l) ← dec cb l; Some ((a, b), l)) _).
  intros [a b] bs rest. destruct (enc ca a) as [x|] eqn:Hx; [|done]. cbn. destruct (enc cb b) as [y|] eqn:Hy; [|done].
  cbn. intros [= <-]. rewrite <- app_assoc, (dec_enc ca _ _ _ Hx). cbn. by rewrite (dec_enc cb _ _ _ Hy).
Defined.

(** Another type with the same format. *)
Definition iso_codec {A B} (c : codec A) (f : B -> A) (g : A -> B) (Hgf : forall b, g (f b) = b) : codec B.
Proof.
  refine (mk_codec B (fun b => enc c (f b)) (fun l => '(a, l) ← dec c l; Some (g a, l)) _).
  intros b bs rest Hb. rewrite (dec_enc c _ _ _ Hb). cbn. by rewrite Hgf.
Defined.

Section list.
Context {A : Type} (c : codec A).

Fixpoint enc_items (l : list A) : option (list byte) :=
  match l with
  | [] => Some []
  | x :: l => a ← enc c x; b ← enc_items l; Some (a ++ b)
  end.

Fixpoint dec_items (n : nat) (l : list byte) : option (list A * list byte) :=
  match n with
  | O => Some ([], l)
  | S n => '(x, l) ← dec c l; '(xs, l) ← dec_items n l; Some (x :: xs, l)
  end.

Lemma dec_items_enc l bs rest : enc_items l = Some bs -> dec_items (length l) (bs ++ rest) = Some (l, rest).
Proof.
  revert bs. induction l as [|x l IH]; intros bs; cbn [enc_items dec_items length]; [by intros [= <-]|].
  destruct (enc c x) as [a|] eqn:Ha; [|done]. cbn. destruct (enc_items l) as [b|]; [|done]. cbn. intros [= <-].
  rewrite <- app_assoc, (dec_enc c _ _ _ Ha). cbn. by rewrite (IH _ eq_refl).
Qed.

(** A sequence: its length, then its elements. *)
Definition list_codec : codec (list A).
Proof.
  refine (mk_codec (list A) (fun l => a ← enc uleb_codec (len l); b ← enc_items l; Some (a ++ b))
    (fun l => '(n, l) ← dec uleb_codec l; dec_items (Z.to_nat n) l) _).
  intros l bs rest. destruct (enc uleb_codec (len l)) as [a|] eqn:Ha; [|done]. cbn [mbind option_bind].
  destruct (enc_items l) as [b|] eqn:Hb; [|done]. cbn [mbind option_bind]. intros [= <-].
  rewrite <- app_assoc. rewrite (dec_enc uleb_codec _ _ _ Ha). cbn [mbind option_bind]. rewrite Nat2Z.id. by apply dec_items_enc.
Defined.

(** The size of a sequence is determined by the sizes of its elements. *)
Lemma list_codec_size l l' : Forall2 (fun x y => length <$> enc c x = length <$> enc c y) l l' ->
  length <$> enc list_codec l = length <$> enc list_codec l'.
Proof.
  intros Hl. cbn [enc list_codec]. pose proof (Forall2_length _ _ _ Hl) as ->.
  destruct (enc uleb_codec (len l')) as [a|]; [|done]. cbn [mbind option_bind].
  assert (length <$> enc_items l = length <$> enc_items l') as Hit.
  { induction Hl as [|x y l l' Hxy _ IH]; [done|]. cbn [enc_items].
    destruct (enc c x), (enc c y), (enc_items l), (enc_items l'); cbn in *; simplify_eq; try done.
    rewrite !length_app. congruence. }
  destruct (enc_items l), (enc_items l'); cbn in *; simplify_eq; try done. rewrite !length_app. congruence.
Qed.

End list.

Definition string_codec : codec rstring := list_codec ascii_codec.

(** Maps are written in the order of their keys. *)
Definition tag_key_le (a b : rstring * rstring) : Prop := str_le a.1 b.1.
#[local] Instance tag_key_le_dec : RelDecision tag_key_le.
Proof. intros a b. unfold tag_key_le. apply _. Defined.

Lemma tags_of_list (m : Tags) : list_to_map (merge_sort tag_key_le (map_to_list m)) = m.
Proof.
  rewrite <- (list_to_map_to_list m) at 2. apply list_to_map_proper; [|apply merge_sort_Permutation].
  rewrite merge_sort_Permutation. apply NoDup_fst_map_to_list.
Qed.

Definition tags_codec : codec Tags :=
  iso_codec (list_codec (pair_codec string_codec string_codec))
    (fun m => merge_sort tag_key_le (map_to_list m)) list_to_map tags_of_list.

Definition patch_codec : codec wire_patch := pair_codec (pair_codec u16_codec string_codec) tags_codec.

(** [bcs::from_bytes] asks for the whole input. *)
Definition bcs_of {T} (c : codec T) : Bcs T := {|
  bcs_to_bytes := enc c;
  bcs_serialized_size x := length <$> enc c x;
  bcs_from_bytes l := match dec c l with Some (x, []) => Some x | _ => None end;
|}.

Lemma bcs_of_spec {T} (c : codec T) : @BcsSpec T (bcs_of c).
Proof.
  split; [done|]. intros x bs Hx. cbn in *. pose proof (dec_enc c x bs [] Hx) as Hd. rewrite app_nil_r in Hd. by rewrite Hd.
Qed.

#[local] Instance bcs_string : Bcs rstring := bcs_of string_codec.
#[local] Instance bcs_tags : Bcs Tags := bcs_of tags_codec.
#[local] Instance bcs_patches : Bcs (list wire_patch) := bcs_of (list_codec patch_codec).
#[local] Instance bcs_string_spec : BcsSpec rstring := bcs_of_spec string_codec.
#[local] Instance bcs_tags_spec : BcsSpec Tags := bcs_of_spec tags_codec.

#[local] Instance bcs_patches_spec : BcsIndexSpec.
Proof.
  split; [apply bcs_of_spec|]. intros l l' Hl Hl' Hrest. cbn [bcs_serialized_size bcs_patches bcs_of].
  apply list_codec_size. revert l' Hl' Hrest. induction Hl as [|[[e i] t] l He _ IH]; intros l' Hl' Hrest.
  - destruct l'; [constructor|done].
  - destruct l' as [|[[e' i'] t'] l']; [done|]. injection Hrest as -> -> Hrest.
    apply Forall_cons in Hl' as [He' Hl']. constructor; [|by apply IH].
    cbn [enc patch_codec pair_codec u16_codec]. unfold is_u16, wire_end in He, He'. cbn in He, He'.
    rewrite (proj2 (andb_true_iff _ _)), (proj2 (andb_true_iff _ _)) by (rewrite Z.leb_le, Z.ltb_lt; lia). cbn [mbind option_bind].
    destruct (enc string_codec i'), (enc tags_codec t'); try done.
Qed.

(** ** Witnesses *)

Section witnesses.
#[local] Existing Instance release_build.
#[local] Existing Instance poly_hash.

(** A quilt with one blob for four shards: two rows and three columns. *)
Definition blob_a : QuiltStoreBlob := mk_store_blob (replicate 12 x07) [97; 97; 97] ∅.
Definition empty_quilt : QuiltV1 := mk_quilt [] 0 0 None.
Definition quilt_or_empty (m : outcome QuiltError QuiltV1) : QuiltV1 :=
  match m with Ok q => q | _ => empty_quilt end.
Definition quilt_a : QuiltV1 := quilt_or_empty (construct_quilt (enum_of 4) [blob_a]).

Lemma quilt_a_built : construct_quilt (enum_of 4) [blob_a] = Ok quilt_a.
Proof. vm_compute. reflexivity. Qed.

(** A quilt with three blobs, one with a tag, for seven shards. *)
Definition blob_b : QuiltStoreBlob := mk_store_blob [] [98; 98; 98] ∅.
Definition blob_c : QuiltStoreBlob := mk_store_blob [x01] [97] {[ [107] := [118] ]}.
Definition quilt_abc : QuiltV1 := quilt_or_empty (construct_quilt (enum_of 7) [blob_b; blob_a; blob_c]).

Lemma quilt_abc_built : construct_quilt (enum_of 7) [blob_b; blob_a; blob_c] = Ok quilt_abc.
Proof. vm_compute. reflexivity. Qed.


Lemma construct_quilt_total_witness : exists bes ib, quilt_of 4 [blob_a] quilt_a bes ib.
Proof.
  pose proof (construct_quilt_total 4 [blob_a] ltac:(split; lia)) as Ht. cbn zeta in Ht. rewrite quilt_a_built in Ht.
  apply Ht.
  - intros b Hb. vm_compute in Hb. injection Hb as <-. discriminate.
  - intros size Hs. vm_compute in Hs. injection Hs as <-. reflexivity.
Defined.

Lemma quilt_roundtrip_witness : new_from_quilt_blob (quilt_data quilt_abc) (enum_of 7) = Ok quilt_abc /\
  quilt_get_all_blobs quilt_abc = Ok [blob_c; blob_a; blob_b] /\
  quilt_get_blobs_by_tag quilt_abc [107] [118] = Ok [blob_c].
Proof.
  destruct (quilt_roundtrip 7 [blob_b; blob_a; blob_c] quilt_abc ltac:(split; lia) quilt_abc_built) as (Hn & Ha & _ & Ht & _).
  split; [exact Hn|]. split; [rewrite Ha; vm_compute; reflexivity|]. rewrite Ht. vm_compute. reflexivity.
Defined.

Lemma quilt_decoding_never_panics_witness :
  quilt_enum_new [x01; x05; x00] (enum_of 7) <> Panic /\ quilt_get_all_blobs quilt_abc <> Panic.
Proof.
  destruct (quilt_decoding_never_panics 7 ltac:(split; lia)) as [Hq _].
  assert (quilt_enum_new (quilt_data quilt_abc) (enum_of 7) = Ok quilt_abc) as Habc by (vm_compute; reflexivity).
  exact (conj (proj1 (Hq _)) (proj1 (proj2 (Hq _) _ Habc))).
Defined.

(** The columns of the only patch of [quilt_a]. *)
Definition column_sliver (c : nat) : SliverData :=
  {| sliver_symbols := mk_symbols (column 8 2 3 quilt_a c) 8; sliver_idx := mk_sliver_index (Z.of_nat c) |}.
Definition slivers_a : list SliverData := [column_sliver 2; column_sliver 1].
Definition decoder_or_empty (m : outcome QuiltError QuiltDecoderV1) : QuiltDecoderV1 :=
  match m with Ok d => d | _ => mk_decoder ∅ None None end.
Definition decoder_a : QuiltDecoderV1 := decoder_or_empty (decoder_new slivers_a None).
Definition id_a : list byte := internal_id_to_bytes (mk_internal_id 1 3).

Lemma decoder_agrees_with_quilt_witness : quilt_get_blob_by_patch_internal_id quilt_a id_a = Ok blob_a.
Proof.
  assert (new_from_quilt_blob (quilt_data quilt_a) (enum_of 4) = Ok quilt_a) as Hq by (vm_compute; reflexivity).
  assert (decoder_new slivers_a None = Ok decoder_a) as Hd by (vm_compute; reflexivity).
  assert (decoder_get_blob_by_patch_internal_id decoder_a id_a = Ok blob_a) as Hb by (vm_compute; reflexivity).
  pose (P x := exists c, sliver_index_get (sliver_idx x) = Z.of_nat c /\ (c < Z.to_nat (n_secondary_of 4))%nat /\
    sym_data (sliver_symbols x) =
      column (quilt_symbol_bytes quilt_a) (Z.to_nat (n_primary_of 4)) (Z.to_nat (n_secondary_of 4)) quilt_a c).
  assert (forall c, (c < 3)%nat -> P (column_sliver c)) as Hcol.
  { intros c Hc. exists c. split; [reflexivity|]. split; [exact Hc|].
    assert (quilt_symbol_bytes quilt_a = 8%nat) as -> by (vm_compute; reflexivity). reflexivity. }
  assert (Forall P slivers_a) as Hall.
  { constructor; [exact (Hcol 2%nat ltac:(lia))|constructor; [exact (Hcol 1%nat ltac:(lia))|constructor]]. }
  exact (proj1 (decoder_agrees_with_quilt 4 (quilt_data quilt_a) quilt_a slivers_a None decoder_a ltac:(split; lia) Hq Hall Hd)
    id_a blob_a Hb).
Defined.

Definition pairs_a : list SliverPair :=
  match quilt_encode_with_metadata (enum_of 4) [blob_a] with Ok (pairs, _) => pairs | _ => [] end.
Definition secondary_a (c : nat) : SliverData :=
  nth c (axis_slivers Secondary (reverse pairs_a)) (column_sliver 0).

Lemma blobs_from_slivers_witness : exists d, decoder_new [secondary_a 2; secondary_a 1] None = Ok d /\
  decoder_get_blob_by_patch_internal_id d id_a = Ok blob_a.
Proof.
  destruct (blobs_from_slivers 4 [blob_a] quilt_a) as (pairs & mdq & Hmd & Hi & _ & Hs).
  - split; lia.
  - exact quilt_a_built.
  - intros []; vm_compute; reflexivity.
  - assert (pairs = pairs_a) as -> by (unfold pairs_a; rewrite Hmd; reflexivity).
    destruct (Hs [secondary_a 2; secondary_a 1] None) as (d & Hd & _ & Hb).
    { assert (axis_slivers Secondary pairs_a !! 1%nat = Some (secondary_a 2)) as H1 by (vm_compute; reflexivity).
      assert (axis_slivers Secondary pairs_a !! 2%nat = Some (secondary_a 1)) as H2 by (vm_compute; reflexivity).
      constructor; [split; [exact (list_elem_of_lookup_2 _ _ _ H1)|vm_compute; reflexivity]|].
      constructor; [split; [exact (list_elem_of_lookup_2 _ _ _ H2)|vm_compute; reflexivity]|constructor]. }
    exists d. split; [exact Hd|].
    assert (quilt_metadata_index mdq = mk_index [mk_patch 1 3 [97; 97; 97] ∅]) as Hidx.
    { assert (quilt_index quilt_a = Some (mk_index [mk_patch 1 3 [97; 97; 97] ∅])) as Hq by (vm_compute; reflexivity). congruence. }
    apply (Hb 0%nat (mk_patch 1 3 [97; 97; 97] ∅) blob_a).
    + rewrite Hidx. reflexivity.
    + vm_compute. reflexivity.
    + assert (sliver_idx (secondary_a 1) = mk_sliver_index 1) as H1 by (vm_compute; reflexivity).
      assert (sliver_idx (secondary_a 2) = mk_sliver_index 2) as H2 by (vm_compute; reflexivity).
      assert (patch_sliver_indices (mk_patch 1 3 [97; 97; 97] ∅) = [mk_sliver_index 1; mk_sliver_index 2]) as ->
        by (vm_compute; reflexivity).
      intros j [->|[->|Hj%elem_of_nil]%elem_of_cons]%elem_of_cons; [exists (secondary_a 1)|exists (secondary_a 2)|destruct Hj].
      * exact (conj (list_elem_of_further _ _ _ (list_elem_of_here _ _)) H1).
      * exact (conj (list_elem_of_here _ _) H2).
Defined.

(** ** Two unintended behaviours *)

(** Building a quilt can panic: the last blob is empty and its header fills
    the last column to the end, so that the empty write of its data starts after
    the last column.  The same blobs with one byte in the last one build. *)
Theorem empty_last_blob_panics : construct_quilt (enum_of 7) [blob_a; blob_b] = Panic /\
  is_ok (construct_quilt (enum_of 7) [blob_a; mk_store_blob [x00] [98; 98; 98] ∅]) = true.
Proof. vm_compute. split; reflexivity. Qed.

(** A column that does not exist is read as the first column, one row down,
    where a decoder of slivers reports missing slivers. *)
Theorem nonexistent_column_is_read : n_secondary_of 4 = 3 /\
  (quilt_range_read quilt_a 3 0 8 = quilt_range_read quilt_a 0 8 8 /\ is_ok (quilt_range_read quilt_a 3 0 8) = true) /\
  decoder_range_read (decoder_or_empty (decoder_new (column_sliver <$> [0; 1; 2]%nat) None)) 3 0 8 =
    Err (MissingSlivers [mk_sliver_index 3]).
Proof. vm_compute. done. Qed.

End witnesses.
