(* ===== verification/MoveStd.v ===== *)
(** * The standard library of the contracts

    The vectors, fixed-point numbers and ordered maps of Move's and Sui's
    standard libraries, as far as the contracts use them.  A transaction that
    leaves the range of an integer or of a vector aborts: [Panic]. *)

From S2P Require Import Prelude Redstuff.

(** ** Vectors *)

(** [v.swap(i, j)]. *)
Definition vector_swap {E A} (i j : nat) (v : list A) : outcome E (list A) :=
  x ← index v i;
  y ← index v j;
  Ok (<[i := y]> (<[j := x]> v)).

(** [v.swap_remove(i)]: the last element takes the place of the removed one. *)
Definition swap_remove {E A} (i : nat) (v : list A) : outcome E (A * list A) :=
  x ← index v i;
  v ← vector_swap i (length v - 1) v;
  Ok (x, take (length v - 1) v).

(** [v.pop_back()]. *)
Definition pop_back {E A} (v : list A) : outcome E (A * list A) :=
  x ← expect (last v);
  Ok (x, take (length v - 1) v).

(** [v[i] = x]. *)
Definition vector_set {E A} (i : nat) (x : A) (v : list A) : outcome E (list A) :=
  assert (i <? length v)%nat;; Ok (<[i := x]> v).

(** [v.find_index!(p)]. *)
Fixpoint find_index {A} (p : A -> bool) (v : list A) : option nat :=
  match v with
  | [] => None
  | x :: v => if p x then Some O else S <$> find_index p v
  end.

(** The sum of a vector of integers of [w] bits. *)
Definition move_sum {E} (w : Z) (v : list Z) : outcome E Z := foldM (fun acc x => move_arith w (acc + x)) 0 v.

(** ** Integers *)

(** Division aborts for zero; [u64::div_ceil]. *)
Definition move_div {E} (a b : Z) : outcome E Z := if b =? 0 then Panic else Ok (a / b).
Definition move_div_ceil {E} (a b : Z) : outcome E Z := if b =? 0 then Panic else Ok (div_ceil a b).

(** [uq64_64::from_quotient]: a fixed-point number with 64 fractional bits. *)
Definition from_quotient {E} (numerator denominator : Z) : outcome E Z :=
  assert (negb (denominator =? 0));;
  let quotient := (numerator * 2 ^ 128) / (denominator * 2 ^ 64) in
  assert (negb ((quotient =? 0) && negb (numerator =? 0)));;
  assert (quotient <? 2 ^ 128);;
  Ok quotient.

(** ** [VecMap]: entries in the order of insertion, with distinct keys

    Keys are the identifiers of objects, numbers of 256 bits. *)
Abbreviation ID := Z (only parsing).
Abbreviation VecMap V := (list (ID * V)).

Definition get_idx_opt {V} (key : ID) (m : VecMap V) : option nat := find_index (fun e => fst e =? key) m.

Definition try_get {V} (key : ID) (m : VecMap V) : option V :=
  i ← get_idx_opt key m; snd <$> m !! i.

(** [m.insert(key, value)] aborts if the key is there. *)
Definition vec_map_insert {E V} (key : ID) (value : V) (m : VecMap V) : outcome E (VecMap V) :=
  assert (bool_decide (get_idx_opt key m = None));; Ok (m ++ [(key, value)]).

(** [m.remove_entry_by_idx(i)]. *)
Definition remove_entry_by_idx {E V} (i : nat) (m : VecMap V) : outcome E ((ID * V) * VecMap V) :=
  e ← index m i; Ok (e, delete i m).

(** [vec_map::from_keys_values]. *)
Definition from_keys_values {E V} (keys : list ID) (values : list V) : outcome E (VecMap V) :=
  assert (length keys =? length values)%nat;;
  foldM (fun m e => vec_map_insert (fst e) (snd e) m) [] (zip keys values).

(** ** Lemmas *)

Lemma index_lookup {E A} (v : list A) i x : v !! i = Some x -> index (E:=E) v i = Ok x.
Proof. unfold index. by intros ->. Qed.

(** The position that [swap] moves an index from. *)
Definition swapped (i j k : nat) : nat := if decide (k = i) then j else if decide (k = j) then i else k.

Lemma vector_swap_ok {E A} i j (v : list A) x y : v !! i = Some x -> v !! j = Some y ->
  exists v', vector_swap (E:=E) i j v = Ok v' /\ length v' = length v /\ v' ≡ₚ v /\
    forall k, v' !! k = v !! swapped i j k.
Proof.
  intros Hi Hj. unfold vector_swap. rewrite (index_lookup _ _ _ Hi), (index_lookup _ _ _ Hj). cbn [mbind outcome_bind].
  eexists. split; [done|]. pose proof (lookup_lt_Some _ _ _ Hi). pose proof (lookup_lt_Some _ _ _ Hj).
  assert (forall k, <[i:=y]> (<[j:=x]> v) !! k = v !! swapped i j k) as Hlk.
  { intros k. unfold swapped. destruct (decide (k = i)) as [->|Hki].
    - rewrite list_lookup_insert_eq by (by rewrite length_insert). done.
    - rewrite list_lookup_insert_ne by done. destruct (decide (k = j)) as [->|Hkj].
      + by rewrite list_lookup_insert_eq.
      + by rewrite list_lookup_insert_ne. }
  split_and!; [by rewrite !length_insert| |done].
  apply Permutation_inj. split; [by rewrite !length_insert|]. exists (swapped i j). split; [|done].
  intros a b. unfold swapped. repeat case_decide; congruence.
Qed.

Lemma swap_remove_ok {E A} i (v : list A) x y : v !! i = Some x -> last v = Some y ->
  exists v', swap_remove (E:=E) i v = Ok (x, v') /\ S (length v') = length v /\ v ≡ₚ x :: v' /\
    forall k, (k < length v')%nat -> v' !! k = if decide (k = i) then Some y else v !! k.
Proof.
  intros Hi Hl. rewrite last_lookup in Hl. unfold swap_remove. rewrite (index_lookup _ _ _ Hi). cbn [mbind outcome_bind].
  replace (pred (length v)) with (length v - 1)%nat in Hl by lia.
  destruct (vector_swap_ok (E:=E) i (length v - 1) v x y Hi Hl) as (v' & -> & Hlen & Hp & Hlk). cbn [mbind outcome_bind].
  pose proof (lookup_lt_Some _ _ _ Hi). eexists. split; [done|]. rewrite length_take, Hlen.
  split_and!; [lia| |].
  - rewrite <- Hp at 1. rewrite <- (take_drop (length v - 1) v') at 1.
    assert (v' !! (length v - 1)%nat = Some x) as Hx.
    { rewrite Hlk. unfold swapped. repeat case_decide; congruence. }
    rewrite (drop_S _ _ _ Hx), drop_ge by lia. by rewrite Permutation_app_comm.
  - intros k Hk. rewrite lookup_take_lt by lia. rewrite Hlk. unfold swapped. repeat case_decide; [done|lia|done].
Qed.

Lemma from_quotient_ok {E} a b : 0 <= a < 2 ^ 64 -> 0 < b <= 2 ^ 64 ->
  from_quotient (E:=E) a b = Ok (a * 2 ^ 64 / b).
Proof.
  intros Ha Hb. unfold from_quotient. rewrite (proj2 (Z.eqb_neq b 0)) by lia. cbn [assert negb mbind outcome_bind].
  replace (a * 2 ^ 128 / (b * 2 ^ 64)) with (a * 2 ^ 64 / b).
  2: { replace (a * 2 ^ 128) with (a * 2 ^ 64 * 2 ^ 64) by lia. by rewrite Z.div_mul_cancel_r by lia. }
  assert (a <> 0 -> 0 < a * 2 ^ 64 / b) as Hpos by (intros; apply Z.div_str_pos; lia).
  assert (a * 2 ^ 64 / b < 2 ^ 128) as Hlt by (apply Z.div_lt_upper_bound; lia).
  assert ((a * 2 ^ 64 / b =? 0) && negb (a =? 0) = false) as ->.
  { destruct (Z.eqb_spec a 0); [by rewrite andb_false_r|]. specialize (Hpos ltac:(lia)). by rewrite (proj2 (Z.eqb_neq _ _)) by lia. }
  rewrite (proj2 (Z.ltb_lt _ _)) by done. done.
Qed.

(** The exact sum, and the one that is computed. *)
Definition zsum (v : list Z) : Z := foldr Z.add 0 v.

Lemma zsum_app v w : zsum (v ++ w) = zsum v + zsum w.
Proof. induction v as [|x v IH]; cbn; [done|]. unfold zsum in *. lia. Qed.

#[export] Instance zsum_Permutation : Proper ((≡ₚ) ==> (=)) zsum.
Proof. intros v w Hp. induction Hp; cbn in *; unfold zsum in *; lia. Qed.

Lemma zsum_nonneg v : Forall (Z.le 0) v -> 0 <= zsum v.
Proof. induction 1; cbn; [lia|]. unfold zsum in *. lia. Qed.

Lemma zsum_replicate k x : zsum (replicate k x) = x * Z.of_nat k.
Proof. induction k as [|k IH]; cbn [replicate]; [cbn; lia|]. unfold zsum in *. cbn [foldr]. lia. Qed.

Lemma zsum_insert v i x y : v !! i = Some x -> zsum (<[i := y]> v) = zsum v - x + y.
Proof.
  intros Hi. rewrite <- (take_drop_middle _ _ _ Hi) at 2. rewrite insert_take_drop by (by eapply lookup_lt_Some).
  rewrite !zsum_app. cbn. unfold zsum. lia.
Qed.

Lemma zsum_elem v i x : Forall (Z.le 0) v -> v !! i = Some x -> x <= zsum v.
Proof.
  intros Hv Hi. rewrite <- (take_drop_middle _ _ _ Hi). rewrite zsum_app. cbn.
  pose proof (zsum_nonneg _ (Forall_take _ i _ Hv)). pose proof (zsum_nonneg _ (Forall_drop _ (S i) _ Hv)).
  unfold zsum in *. lia.
Qed.

Lemma move_sum_eq {E} w v : 0 <= w -> Forall (Z.le 0) v ->
  move_sum (E:=E) w v = if zsum v <? 2 ^ w then Ok (zsum v) else Panic.
Proof.
  intros Hw. unfold move_sum.
  enough (forall acc, 0 <= acc < 2 ^ w -> Forall (Z.le 0) v ->
    foldM (fun acc x => move_arith (E:=E) w (acc + x)) acc v = if acc + zsum v <? 2 ^ w then Ok (acc + zsum v) else Panic) as Hg.
  { intros Hv. rewrite (Hg 0); [done| |done]. pose proof (Z.pow_pos_nonneg 2 w). lia. }
  induction v as [|x v IH]; intros acc Hacc Hv; cbn [foldM].
  { cbn. rewrite Z.add_0_r. by rewrite (proj2 (Z.ltb_lt _ _)) by lia. }
  inversion Hv as [|? ? Hx Hv']; subst. pose proof (zsum_nonneg _ Hv'). change (zsum (x :: v)) with (x + zsum v).
  destruct (decide (acc + x < 2 ^ w)).
  - rewrite move_arith_in_range by lia. cbn [mbind outcome_bind]. rewrite (IH (acc + x) ltac:(lia) Hv').
    by rewrite Z.add_assoc.
  - rewrite move_arith_overflow by lia. cbn [mbind outcome_bind]. by rewrite (proj2 (Z.ltb_ge _ _)) by lia.
Qed.

(** *** Maps *)

Lemma find_index_Some {A} (p : A -> bool) v i : find_index p v = Some i -> exists x, v !! i = Some x /\ p x = true.
Proof.
  revert i. induction v as [|x v IH]; intros i; cbn; [done|]. destruct (p x) eqn:Hp; [intros [= <-]; by exists x|].
  destruct (find_index p v) as [j|]; [|done]. intros [= <-]. by apply IH.
Qed.

Lemma find_index_None {A} (p : A -> bool) v : find_index p v = None <-> Forall (fun x => p x = false) v.
Proof.
  induction v as [|x v IH]; cbn; [done|]. rewrite Forall_cons. destruct (p x) eqn:Hp; [naive_solver|].
  destruct (find_index p v); [|naive_solver]. split; [done|]. intros [_ Hv%IH]. done.
Qed.

Section vec_map.
Context {V : Type}.
Implicit Types m : VecMap V.

Lemma get_idx_opt_None key m : get_idx_opt key m = None <-> key ∉ m.*1.
Proof.
  unfold get_idx_opt. rewrite find_index_None, Forall_forall, list_elem_of_fmap. split.
  - intros Hm ([k v] & -> & Hx). specialize (Hm _ Hx). cbn in Hm. lia.
  - intros Hn [k v] Hx. apply Z.eqb_neq. intros <-. apply Hn. by exists (k, v).
Qed.

Lemma get_idx_opt_Some key m i : get_idx_opt key m = Some i -> exists v, m !! i = Some (key, v).
Proof. intros ([k v] & Hi & He)%find_index_Some. cbn in He. apply Z.eqb_eq in He as ->. by exists v. Qed.

Lemma elem_of_map_keys key (v : V) m : (key, v) ∈ m -> key ∈ m.*1.
Proof. intros Hx. apply (list_elem_of_fmap_2 fst _ _ Hx). Qed.

Lemma map_keys_inj key (v w : V) m : NoDup m.*1 -> (key, v) ∈ m -> (key, w) ∈ m -> v = w.
Proof.
  intros Hnd [i Hi]%list_elem_of_lookup [j Hj]%list_elem_of_lookup.
  assert (i = j) as ->; [|congruence]. apply (NoDup_lookup m.*1 i j key Hnd); rewrite list_lookup_fmap; [by rewrite Hi|by rewrite Hj].
Qed.

Lemma try_get_Some key v m : NoDup m.*1 -> try_get key m = Some v <-> (key, v) ∈ m.
Proof.
  intros Hnd. unfold try_get. destruct (get_idx_opt key m) as [i|] eqn:Hi; cbn.
  - apply get_idx_opt_Some in Hi as (w & Hw). rewrite Hw. cbn. split.
    + intros [= <-]. by eapply list_elem_of_lookup_2.
    + intros Hv. f_equal. apply (map_keys_inj key w v m Hnd); [by eapply list_elem_of_lookup_2|done].
  - apply get_idx_opt_None in Hi. split; [done|]. intros Hv%elem_of_map_keys. done.
Qed.

Lemma try_get_None key m : try_get key m = None <-> key ∉ m.*1.
Proof.
  unfold try_get. destruct (get_idx_opt key m) as [i|] eqn:Hi; cbn.
  - apply get_idx_opt_Some in Hi as (w & Hw). rewrite Hw. cbn. split; [done|]. intros Hn. destruct Hn.
    eapply elem_of_map_keys, list_elem_of_lookup_2. exact Hw.
  - by apply get_idx_opt_None in Hi.
Qed.

Lemma vec_map_insert_ok {E} key v m : key ∉ m.*1 -> vec_map_insert (E:=E) key v m = Ok (m ++ [(key, v)]).
Proof. intros Hk. unfold vec_map_insert. rewrite bool_decide_true by (by apply get_idx_opt_None). done. Qed.

(** Removing the entry of a key. *)
Lemma remove_entry_ok {E} key i m : get_idx_opt key m = Some i ->
  exists v m', remove_entry_by_idx (E:=E) i m = Ok ((key, v), m') /\ m ≡ₚ (key, v) :: m'.
Proof.
  intros (v & Hv)%get_idx_opt_Some. unfold remove_entry_by_idx. rewrite (index_lookup _ _ _ Hv). cbn [mbind outcome_bind].
  eexists _, _. split; [done|]. by apply delete_Permutation.
Qed.

Lemma from_keys_values_ok {E} m : NoDup m.*1 -> from_keys_values (E:=E) m.*1 m.*2 = Ok m.
Proof.
  intros Hnd. unfold from_keys_values. rewrite !length_fmap, Nat.eqb_refl. cbn [assert mbind outcome_bind].
  rewrite zip_fst_snd. enough (forall a b, NoDup (a ++ b).*1 -> foldM (E:=E) (fun m e => vec_map_insert e.1 e.2 m) a b = Ok (a ++ b)) as Hg.
  { by apply (Hg []). }
  intros a b. revert a. induction b as [|[k v] b IH]; intros a Hab; cbn [foldM]; [by rewrite app_nil_r|].
  rewrite vec_map_insert_ok.
  2: { cbn. rewrite fmap_app in Hab. apply NoDup_app in Hab as (_ & Hd & _). intros Hk. apply (Hd k Hk). apply list_elem_of_here. }
  cbn [mbind outcome_bind]. replace (a ++ (k, v) :: b) with ((a ++ [(k, v)]) ++ b) in * by (by rewrite <- app_assoc). by apply IH.
Qed.

End vec_map.

(** The last element moves to the end of another vector, [k] times. *)
Fixpoint move_back {E A} (k : nat) (from to : list A) : outcome E (list A * list A) :=
  match k with
  | O => Ok (from, to)
  | S k => '(x, from) ← pop_back from; move_back k from (to ++ [x])
  end.

Lemma move_back_ok {E A} k (from to : list A) : (k <= length from)%nat ->
  move_back (E:=E) k from to = Ok (take (length from - k) from, to ++ reverse (drop (length from - k) from)).
Proof.
  revert from to. induction k as [|k IH]; intros from to Hk; cbn [move_back].
  { rewrite Nat.sub_0_r, firstn_all, drop_all. cbn. by rewrite app_nil_r. }
  destruct from as [|x from _] using rev_ind; [cbn in Hk; lia|]. unfold pop_back. rewrite last_snoc. cbn [expect mbind outcome_bind].
  rewrite length_app in *. cbn [length] in *. rewrite take_app_length' by lia. rewrite IH by lia.
  replace (length from + 1 - S k)%nat with (length from - k)%nat by lia. rewrite take_app_le, drop_app_le by lia.
  by rewrite reverse_app, <- app_assoc.
Qed.

(** ** Sums over maps *)

Definition msum `{Countable K} {A} (f : A -> Z) (m : gmap K A) : Z := zsum (f <$> (map_to_list m).*2).

Section msum.
Context `{Countable K} {A : Type} (f : A -> Z).
Implicit Types m : gmap K A.

Lemma msum_insert_fresh k x m : m !! k = None -> msum f (<[k := x]> m) = f x + msum f m.
Proof. intros Hk. unfold msum. by rewrite map_to_list_insert. Qed.

Lemma msum_delete k x m : m !! k = Some x -> msum f (delete k m) = msum f m - f x.
Proof.
  intros Hk. assert (msum f m = f x + msum f (delete k m)); [|lia]. rewrite <- (insert_delete_id m k x Hk) at 1.
  by rewrite msum_insert_fresh by apply lookup_delete_eq.
Qed.

Lemma msum_replace k x y m : m !! k = Some y -> msum f (<[k := x]> m) = msum f m - f y + f x.
Proof.
  intros Hk. rewrite <- insert_delete_eq, msum_insert_fresh by apply lookup_delete_eq. rewrite (msum_delete k y) by done. lia.
Qed.
End msum.

Lemma msum_nonneg `{Countable K} {A} (f : A -> Z) (m : gmap K A) : map_Forall (fun _ x => 0 <= f x) m -> 0 <= msum f m.
Proof.
  intros Hm. apply zsum_nonneg, Forall_fmap, Forall_fmap, Forall_forall. intros [k x] Hk%elem_of_map_to_list. cbn. by apply (Hm k).
Qed.

Lemma zsum_delete {A} (f : A -> Z) l i x : l !! i = Some x -> zsum (f <$> delete i l) = zsum (f <$> l) - f x.
Proof.
  intros Hi. assert (zsum (f <$> l) = f x + zsum (f <$> delete i l)); [|lia]. rewrite (delete_Permutation l i x Hi) at 1. done.
Qed.

Lemma zsum_replace {A} (f : A -> Z) l i x y : l !! i = Some y -> zsum (f <$> <[i := x]> l) = zsum (f <$> l) - f y + f x.
Proof. intros Hi. rewrite list_fmap_insert. apply zsum_insert. by rewrite list_lookup_fmap, Hi. Qed.

Lemma zsum_snoc {A} (f : A -> Z) l x : zsum (f <$> l ++ [x]) = zsum (f <$> l) + f x.
Proof. rewrite fmap_app, zsum_app. cbn. lia. Qed.

Lemma Forall_delete_insert {A} (P : A -> Prop) l i j x : Forall P l -> P x -> Forall P (delete j (<[i := x]> l)).
Proof. intros Hl Hx. apply Forall_delete. by apply Forall_insert. Qed.

(** ** Successful runs *)

Lemma move_arith_Ok {E} w v r : move_arith (E:=E) w v = Ok r <-> r = v /\ 0 <= v < 2 ^ w.
Proof. unfold move_arith. rewrite <- in_uint_spec. destruct (in_uint w v); naive_solver. Qed.

Lemma assert_Ok {E} (c : bool) u : assert (E:=E) c = Ok u <-> c = true.
Proof. destruct c, u; cbn; naive_solver. Qed.

(** Reads off what a call did that returned. *)
Ltac call_inv :=
  repeat match goal with
  | H : (_ ≫= _) = Ok _ |- _ => apply bind_Ok in H as (? & ? & H); cbv beta in H
  | H : (let '(_, _) := ?x in _) = Ok _ |- _ => destruct x as [? ?]
  | H : ensure _ _ = Ok _ |- _ => apply ensure_Ok in H
  | H : assert _ = Ok _ |- _ => apply assert_Ok in H
  | H : ok_or _ _ = Ok _ |- _ => apply ok_or_Ok in H
  | H : expect _ = Ok _ |- _ => apply expect_Ok in H
  | H : move_arith _ _ = Ok _ |- _ => apply move_arith_Ok in H as [-> ?]
  | H : Ok _ = Ok _ |- _ => injection H as H
  | H : Err _ = Ok _ |- _ => discriminate H
  | H : Panic = Ok _ |- _ => discriminate H
  end; subst.

(** The comparisons that a call has checked. *)
Ltac checked :=
  repeat match goal with
  | H : (_ <? _) = true |- _ => apply Z.ltb_lt in H
  | H : (_ <=? _) = true |- _ => apply Z.leb_le in H
  | H : (_ =? _) = true |- _ => apply Z.eqb_eq in H
  | H : _ && _ = true |- _ => apply andb_true_iff in H as [? ?]
  | H : bool_decide _ = true |- _ => apply bool_decide_eq_true in H
  end.
