(* ===== verification/ApportionmentQueue.v ===== *)
(** * The priority queue of the apportionment

    Models contracts/walrus/sources/staking/apportionment_queue.move: a binary
    heap in a vector.  [heap] is the invariant that the comment of the source
    states; insertion and removal keep it, so that the queue is a multiset from
    which an entry of the highest priority is taken. *)

From S2P Require Import Prelude Redstuff MoveStd.

(** The error codes of the contracts that are modelled. *)
Inductive AbortCode :=
| EPopFromEmptyHeap
| ENoStake
| EInvalidShardAssignment
| EZeroMaxSize
| EDuplicateInsertion
| EWrongEpochState
| EInvalidSyncEpoch
| EDuplicateSyncDone
| ENotInCommittee
| ECommitteeSelected
| EZeroNodeWeight
| EMissingEpochValue | EReduceValueTooLarge
| EInvalidRate
| ENotWithdrawing | EMetadataMismatch | EInvalidAmount | EAlreadyWithdrawing | EStakeBelowThreshold
| EPoolAlreadyUpdated | ECalculationError | EIncorrectEpochAdvance | EPoolNotEmpty | EInvalidProofOfPossession
| EPoolAlreadyWithdrawing | EPoolIsNotActive | EZeroStake | ENotStaked | EIncorrectPoolId | EPoolNotWithdrawing
| EWithdrawEpochNotReached | EActivationEpochNotReached | EWithdrawDirectly | EIncorrectCommissionRate
| EAuthorizationFailure | EInvalidNetworkAddressLength | EInvalidNameLength | EZeroShares
| EInvalidNetworkPublicKey
| EInvalidNodeWeight | ENotAuthorized | EDuplicateVote | ENoProposalForNode | EWrongEpoch | ENotEnoughVotes
| EStakeNotFound.

Record Entry (T : Type) := mk_entry { priority : Z; tie_breaker : Z; value : T }.
Arguments mk_entry {T}.
Arguments priority {T}.
Arguments tie_breaker {T}.
Arguments value {T}.

Section queue.
Context {T : Type}.

Record ApportionmentQueue := mk_queue { entries : list (Entry T) }.

Definition queue_new : ApportionmentQueue := mk_queue [].

Definition higher_priority_than (entry1 entry2 : Entry T) : bool :=
  (priority entry2 <? priority entry1) ||
  ((priority entry1 =? priority entry2) && (tie_breaker entry2 <? tie_breaker entry1)).

(** The condition of one of the two comparisons with a child. *)
Definition child_wins (elements : list (Entry T)) (child max : nat) : outcome AbortCode bool :=
  if (child <? length elements)%nat then
    c ← index elements child;
    m ← index elements max;
    Ok (higher_priority_than c m)
  else Ok false.

Fixpoint bubble_down_loop (fuel : nat) (elements : list (Entry T)) (i : nat) :
    outcome AbortCode (list (Entry T)) :=
  if (i <? length elements)%nat then
    match fuel with
    | O => Panic
    | S fuel =>
      let left := (i * 2 + 1)%nat in
      let right := (left + 1)%nat in
      l ← child_wins elements left i;
      let max := if l : bool then left else i in
      r ← child_wins elements right max;
      let max := if r : bool then right else max in
      if (max =? i)%nat then Ok elements
      else
        elements ← vector_swap max i elements;
        bubble_down_loop fuel elements max
    end
  else Ok elements.

Definition bubble_down (elements : list (Entry T)) : outcome AbortCode (list (Entry T)) :=
  bubble_down_loop (length elements) elements 0.

Fixpoint bubble_up_loop (fuel : nat) (elements : list (Entry T)) (i : nat) :
    outcome AbortCode (list (Entry T)) :=
  if (0 <? i)%nat then
    match fuel with
    | O => Panic
    | S fuel =>
      let parent := ((i - 1) / 2)%nat in
      c ← index elements i;
      p ← index elements parent;
      if higher_priority_than c p then
        elements ← vector_swap i parent elements;
        bubble_up_loop fuel elements parent
      else Ok elements
    end
  else Ok elements.

Definition bubble_up (elements : list (Entry T)) : outcome AbortCode (list (Entry T)) :=
  bubble_up_loop (length elements) elements (length elements - 1).

Definition pop_max (pq : ApportionmentQueue) : outcome AbortCode (Entry T * ApportionmentQueue) :=
  ensure (0 <? length (entries pq))%nat EPopFromEmptyHeap;;
  '(e, elements) ← swap_remove 0 (entries pq);
  elements ← bubble_down elements;
  Ok (e, mk_queue elements).

Definition queue_insert (pq : ApportionmentQueue) (priority tie_breaker : Z) (value : T) :
    outcome AbortCode ApportionmentQueue :=
  elements ← bubble_up (entries pq ++ [mk_entry priority tie_breaker value]);
  Ok (mk_queue elements).

(** ** The order of priorities *)

Definition prio_le (e1 e2 : Entry T) : Prop := higher_priority_than e1 e2 = false.

Lemma prio_le_spec e1 e2 : prio_le e1 e2 <->
  priority e1 < priority e2 \/ (priority e1 = priority e2 /\ tie_breaker e1 <= tie_breaker e2).
Proof. unfold prio_le, higher_priority_than. lia. Qed.

Lemma higher_spec e1 e2 : higher_priority_than e1 e2 = true <->
  priority e2 < priority e1 \/ (priority e1 = priority e2 /\ tie_breaker e2 < tie_breaker e1).
Proof. unfold higher_priority_than. lia. Qed.

Lemma prio_le_refl e : prio_le e e.
Proof. rewrite prio_le_spec. lia. Qed.

Lemma prio_le_trans e1 e2 e3 : prio_le e1 e2 -> prio_le e2 e3 -> prio_le e1 e3.
Proof. rewrite !prio_le_spec. lia. Qed.

Lemma higher_prio_le e1 e2 : higher_priority_than e1 e2 = true -> prio_le e2 e1.
Proof. rewrite prio_le_spec, higher_spec. lia. Qed.

(** ** The invariant *)

Definition parent (i : nat) : nat := ((i - 1) / 2)%nat.

(** The entry at [i] does not come before the one at [j]. *)
Definition below (l : list (Entry T)) (i j : nat) : Prop :=
  forall x y, l !! i = Some x -> l !! j = Some y -> prio_le x y.

Definition heap (l : list (Entry T)) : Prop := forall i, (0 < i)%nat -> below l i (parent i).

(** Heaps in which the order can fail between [i] and its parent, or between
    [i] and its children. *)
Definition heap_up (l : list (Entry T)) (i : nat) : Prop :=
  (forall j, (0 < j)%nat -> j <> i -> below l j (parent j)) /\
  (forall j, (0 < j)%nat -> (0 < i)%nat -> parent j = i -> below l j (parent i)).

Definition heap_down (l : list (Entry T)) (i : nat) : Prop :=
  (forall j, (0 < j)%nat -> parent j <> i -> below l j (parent j)) /\
  (forall j, (0 < j)%nat -> (0 < i)%nat -> parent j = i -> below l j (parent i)).

Lemma parent_lt i : (0 < i)%nat -> (parent i < i)%nat.
Proof. intros Hi. unfold parent. apply Nat.Div0.div_lt_upper_bound; lia. Qed.

Lemma parent_children i j : (0 < j)%nat -> parent j = i <-> j = (i * 2 + 1)%nat \/ j = (i * 2 + 1 + 1)%nat.
Proof.
  intros Hj. unfold parent. pose proof (Nat.div_mod_eq (j - 1) 2). pose proof (Nat.mod_upper_bound (j - 1) 2). lia.
Qed.

(** The root of a heap has the highest priority. *)
Lemma heap_root l x : heap l -> l !! 0%nat = Some x -> Forall (fun y => prio_le y x) l.
Proof.
  intros Hh Hx. apply Forall_lookup. intros i. induction i as [i IH] using lt_wf_ind. intros y Hy.
  destruct (decide (i = 0%nat)) as [->|Hi]; [rewrite Hx in Hy; injection Hy as ->; apply prio_le_refl|].
  pose proof (parent_lt i ltac:(lia)) as Hp.
  destruct (lookup_lt_is_Some_2 l (parent i)) as [z Hz].
  { pose proof (lookup_lt_Some _ _ _ Hy). lia. }
  apply prio_le_trans with z; [by apply (Hh i ltac:(lia))|by apply (IH (parent i))].
Qed.

(** Looking up both ends of [below] after a swap. *)
Ltac below_swapped Hlk :=
  let x := fresh "x" in let y := fresh "y" in
  intros x y; rewrite !Hlk; unfold swapped; repeat case_decide; subst; intros; simplify_eq.

Lemma heap_up_swap l l' i c q : (0 < i)%nat -> heap_up l i -> l !! i = Some c -> l !! parent i = Some q ->
  higher_priority_than c q = true -> (forall k, l' !! k = l !! swapped i (parent i) k) -> heap_up l' (parent i).
Proof.
  intros Hi [H1 H2] Hc Hq Hh Hlk. pose proof (parent_lt i Hi) as Hp. apply higher_prio_le in Hh. split.
  - intros j Hj Hjp. pose proof (parent_lt j Hj). destruct (decide (j = i)) as [->|Hji].
    { below_swapped Hlk; try lia. done. }
    destruct (decide (parent j = i)) as [Hpi|Hpi].
    { rewrite Hpi. pose proof (H2 j Hj Hi Hpi) as Hb. below_swapped Hlk; try lia; eauto. }
    pose proof (H1 j Hj Hji) as Hb. below_swapped Hlk; try lia; [|by eapply Hb].
    eapply prio_le_trans; [|done]. eapply Hb; [done|]. congruence.
  - intros j Hj Hpos Hpj. pose proof (parent_lt (parent i) Hpos) as Hpp. pose proof (H1 (parent i) Hpos ltac:(lia)) as Hbp.
    pose proof (parent_lt j Hj). destruct (decide (j = i)) as [->|Hji]; [below_swapped Hlk; try lia; by eapply Hbp|].
    pose proof (H1 j Hj Hji) as Hb. rewrite Hpj in Hb. below_swapped Hlk; try lia.
    eapply prio_le_trans; [by eapply Hb|by eapply Hbp].
Qed.

Lemma bubble_up_ok fuel l i : (i < length l)%nat -> (i <= fuel)%nat -> heap_up l i ->
  exists l', bubble_up_loop fuel l i = Ok l' /\ l' ≡ₚ l /\ heap l'.
Proof.
  revert l i. induction fuel as [|fuel IH]; intros l i Hi Hf Hh; cbn [bubble_up_loop];
    (destruct (Nat.ltb_spec 0 i) as [Hpos|]; [|exists l; split_and!; [done|done|]; intros j Hj; apply Hh; lia]); [lia|].
  change ((i - 1) / 2)%nat with (parent i). pose proof (parent_lt i Hpos).
  destruct (lookup_lt_is_Some_2 l i Hi) as [c Hc]. destruct (lookup_lt_is_Some_2 l (parent i)) as [q Hq]; [lia|].
  rewrite (index_lookup _ _ _ Hc), (index_lookup _ _ _ Hq). cbn [mbind outcome_bind].
  destruct (higher_priority_than c q) eqn:Hcq.
  - destruct (vector_swap_ok (E:=AbortCode) i (parent i) l c q Hc Hq) as (l' & -> & Hlen & Hp & Hlk). cbn [mbind outcome_bind].
    destruct (IH l' (parent i)) as (l'' & Hok & Hp' & Hh'); [lia|lia|by eapply heap_up_swap|].
    exists l''. split_and!; [done|by rewrite Hp'|done].
  - exists l. split_and!; [done|done|]. intros j Hj. destruct (decide (j = i)) as [->|]; [|by apply Hh].
    intros x y. rewrite Hc, Hq. intros [= <-] [= <-]. exact Hcq.
Qed.

Lemma child_wins_spec l child m y : l !! m = Some y -> exists b, child_wins l child m = Ok b /\
  if b : bool then exists x, l !! child = Some x /\ higher_priority_than x y = true else below l child m.
Proof.
  intros Hy. unfold child_wins. destruct (Nat.ltb_spec child (length l)) as [Hc|Hc].
  - destruct (lookup_lt_is_Some_2 l child Hc) as [x Hx]. rewrite (index_lookup _ _ _ Hx), (index_lookup _ _ _ Hy).
    cbn [mbind outcome_bind]. eexists. split; [done|]. destruct (higher_priority_than x y) eqn:Hxy; [by eexists|].
    intros x' y'. rewrite Hx, Hy. by intros [= <-] [= <-].
  - eexists. split; [done|]. intros x' y' Hx'. apply lookup_lt_Some in Hx'. lia.
Qed.

Lemma heap_down_swap l l' i m c q : (0 < m)%nat -> parent m = i -> heap_down l i -> l !! m = Some c -> l !! i = Some q ->
  (forall j, (0 < j)%nat -> parent j = i -> below l j m) -> prio_le q c ->
  (forall k, l' !! k = l !! swapped m i k) -> heap_down l' m.
Proof.
  intros Hm Hpm [H1 H2] Hc Hq Hmax Hqc Hlk. pose proof (parent_lt m Hm) as Hp. rewrite Hpm in Hp. split.
  - intros j Hj Hjm. pose proof (parent_lt j Hj). destruct (decide (parent j = i)) as [Hpi|Hpi].
    { pose proof (Hmax j Hj Hpi) as Hb. rewrite Hpi. below_swapped Hlk; try lia; [done|by eapply Hb]. }
    destruct (decide (j = i)) as [->|Hji].
    { pose proof (H2 m Hm Hj Hpm) as Hb. below_swapped Hlk; try lia. by eapply Hb. }
    pose proof (H1 j Hj Hpi) as Hb. below_swapped Hlk; try lia; try congruence. by eapply Hb.
  - intros j Hj _ Hpj. pose proof (parent_lt j Hj). rewrite Hpm. pose proof (H1 j Hj ltac:(lia)) as Hb. rewrite Hpj in Hb.
    below_swapped Hlk; try lia. by eapply Hb.
Qed.

(** The child that is chosen comes before its parent and its sibling. *)
Lemma bubble_down_ok fuel l i : (length l - i <= fuel)%nat -> heap_down l i ->
  exists l', bubble_down_loop fuel l i = Ok l' /\ l' ≡ₚ l /\ heap l'.
Proof.
  revert l i. induction fuel as [|fuel IH]; intros l i Hf Hh; cbn [bubble_down_loop];
    (destruct (Nat.ltb_spec i (length l)) as [Hi|Hi];
      [|exists l; split_and!; [done|done|]; intros j Hj; destruct (decide (parent j = i)) as [<-|]; [|by apply Hh];
        intros x y _ Hy; apply lookup_lt_Some in Hy; lia]); [lia|].
  destruct (lookup_lt_is_Some_2 l i Hi) as [q Hq].
  assert (forall m c, (0 < m)%nat -> parent m = i -> l !! m = Some c -> prio_le q c ->
    (forall j, (0 < j)%nat -> parent j = i -> below l j m) ->
    exists l', (if (m =? i)%nat then Ok l else elements ← vector_swap m i l; bubble_down_loop fuel elements m) = Ok l' /\
      l' ≡ₚ l /\ heap l') as Hstep.
  { intros m c Hm Hpm Hc Hqc Hmax. pose proof (parent_lt m Hm). rewrite (proj2 (Nat.eqb_neq m i)) by lia.
    destruct (vector_swap_ok (E:=AbortCode) m i l c q Hc Hq) as (l' & -> & Hlen & Hp & Hlk). cbn [mbind outcome_bind].
    destruct (IH l' m) as (l'' & Hok & Hp' & Hh'); [lia|by eapply heap_down_swap|].
    exists l''. split_and!; [done|by rewrite Hp'|done]. }
  pose proof (fun j Hj => parent_children i j Hj) as Hch.
  destruct (child_wins_spec l (i * 2 + 1) i q Hq) as ([] & -> & Hl); cbn [mbind outcome_bind].
  - destruct Hl as (x & Hx & Hxq).
    destruct (child_wins_spec l (i * 2 + 1 + 1) (i * 2 + 1) x Hx) as ([] & -> & Hr); cbn [mbind outcome_bind].
    + destruct Hr as (z & Hz & Hzx). apply (Hstep _ z); [lia|apply Hch; lia|done| |].
      * eapply prio_le_trans; by apply higher_prio_le.
      * intros j Hj [->| ->]%(Hch j Hj) a b; rewrite ?Hx, Hz; intros [= <-] [= <-]; [by apply higher_prio_le|apply prio_le_refl].
    + apply (Hstep _ x); [lia|apply Hch; lia|done|by apply higher_prio_le|].
      intros j Hj [->| ->]%(Hch j Hj); [|exact Hr]. intros a b. rewrite Hx. intros [= <-] [= <-]. apply prio_le_refl.
  - destruct (child_wins_spec l (i * 2 + 1 + 1) i q Hq) as ([] & -> & Hr); cbn [mbind outcome_bind].
    + destruct Hr as (z & Hz & Hzq). apply (Hstep _ z); [lia|apply Hch; lia|done|by apply higher_prio_le|].
      intros j Hj [->| ->]%(Hch j Hj) a b Ha; rewrite Hz; intros [= <-].
      * eapply prio_le_trans; [by eapply Hl|by apply higher_prio_le].
      * rewrite Hz in Ha. injection Ha as <-. apply prio_le_refl.
    + rewrite Nat.eqb_refl. exists l. split_and!; [done|done|]. intros j Hj.
      destruct (decide (parent j = i)) as [Hp|]; [|by apply Hh]. rewrite Hp.
      apply (Hch j Hj) in Hp as [->| ->]; [exact Hl|exact Hr].
Qed.

(** ** The queue as a multiset *)

Lemma queue_insert_ok pq p t v : heap (entries pq) -> exists pq', queue_insert pq p t v = Ok pq' /\
  entries pq' ≡ₚ mk_entry p t v :: entries pq /\ heap (entries pq').
Proof.
  intros Hh. unfold queue_insert, bubble_up. set (e := mk_entry p t v).
  destruct (bubble_up_ok (length (entries pq ++ [e])) (entries pq ++ [e]) (length (entries pq ++ [e]) - 1)) as (l' & -> & Hp & Hh').
  - rewrite length_app. cbn. lia.
  - lia.
  - rewrite length_app. cbn [length]. replace (length (entries pq) + 1 - 1)%nat with (length (entries pq)) by lia. split.
    + intros j Hj Hn x y Hx Hy. pose proof (lookup_lt_Some _ _ _ Hx) as Hlt. rewrite length_app in Hlt. cbn in Hlt.
      pose proof (parent_lt j Hj). rewrite lookup_app_l in Hx, Hy by lia. by eapply (Hh j).
    + intros j Hj _ Hpj x y Hx. pose proof (lookup_lt_Some _ _ _ Hx) as Hlt. rewrite length_app in Hlt. cbn in Hlt.
      pose proof (parent_lt j Hj). lia.
  - cbn [mbind outcome_bind]. eexists. split_and!; [done| |done]. cbn [entries]. by rewrite Hp, Permutation_app_comm.
Qed.

Lemma pop_max_empty : pop_max queue_new = Err EPopFromEmptyHeap.
Proof. done. Qed.

Lemma pop_max_ok pq : heap (entries pq) -> entries pq <> [] -> exists e pq', pop_max pq = Ok (e, pq') /\
  entries pq ≡ₚ e :: entries pq' /\ heap (entries pq') /\ Forall (fun x => prio_le x e) (entries pq).
Proof.
  intros Hh Hne. unfold pop_max. destruct (entries pq) as [|e l] eqn:He; [done|]. clear Hne. rewrite <- He in *.
  rewrite (proj2 (Nat.ltb_lt _ _)) by (rewrite He; cbn; lia). cbn [ensure mbind outcome_bind].
  assert (entries pq !! 0%nat = Some e) as H0 by (by rewrite He).
  destruct (last (entries pq)) as [y|] eqn:Hl; [|rewrite He, last_cons in Hl; by destruct (last l)].
  destruct (swap_remove_ok (E:=AbortCode) 0 (entries pq) e y H0 Hl) as (v' & -> & Hlen & Hp & Hlk). cbn [mbind outcome_bind].
  unfold bubble_down. destruct (bubble_down_ok (length v') v' 0) as (l' & -> & Hp' & Hh'); [lia| |].
  - split; [|lia]. intros j Hj Hpj x z Hx Hz. pose proof (lookup_lt_Some _ _ _ Hx). pose proof (lookup_lt_Some _ _ _ Hz).
    rewrite Hlk in Hx, Hz by lia. rewrite decide_False in Hx by lia. rewrite decide_False in Hz by done. by eapply (Hh j).
  - cbn [mbind outcome_bind]. eexists _, _. split_and!; [done| |done|by apply heap_root]. cbn [entries]. by rewrite Hp, Hp'.
Qed.

(** The queue hands out its entries in the order of their priorities, with
    ties broken.  Whatever is inserted and taken out of a queue that was
    empty at first ([heap] holds), insertion adds exactly the new entry, and
    removal takes out one entry that no other one comes before, or reports that
    the queue is empty; neither aborts otherwise. *)
Theorem queue_pops_maximum pq : heap (entries pq) ->
  (forall p t v, exists pq', queue_insert pq p t v = Ok pq' /\
     entries pq' ≡ₚ mk_entry p t v :: entries pq /\ heap (entries pq')) /\
  match pop_max pq with
  | Ok (e, pq') => entries pq ≡ₚ e :: entries pq' /\ heap (entries pq') /\
      Forall (fun x => higher_priority_than x e = false) (entries pq)
  | Err code => code = EPopFromEmptyHeap /\ entries pq = []
  | Panic => False
  end.
Proof.
  intros Hh. split; [intros p t v; by apply queue_insert_ok|]. destruct pq as [[|e l]]; [done|].
  destruct (pop_max_ok (mk_queue (e :: l)) Hh ltac:(done)) as (m & pq' & -> & Hp & Hh' & Hmax). done.
Qed.

End queue.
