(* ===== verification/Apportionment.v ===== *)
(** * The distribution of shards by stake

    Models [dhondt] and [max_shards_per_node] of
    contracts/walrus/sources/staking/staking_inner.move.  [dhondt_allocation]
    states the method of D'Hondt with a limit per node: the last shard of a node
    has at least the quotient of the next shard of any node below the limit.
    [dhondt_correct] shows that the contract computes this allocation, which is
    the only one. *)

From S2P Require Import Prelude Redstuff MoveStd ApportionmentQueue.

Definition MIN_NODES_FOR_SHARDS_LIMIT : Z := 20.
Definition SHARDS_LIMIT_DENOMINATOR : Z := 10.

Definition max_shards_per_node (n_nodes n_shards : Z) : outcome AbortCode Z :=
  if MIN_NODES_FOR_SHARDS_LIMIT <=? n_nodes then move_div n_shards SHARDS_LIMIT_DENOMINATOR
  else
    a ← move_arith 64 (n_shards * MIN_NODES_FOR_SHARDS_LIMIT);
    b ← move_arith 64 (n_nodes * SHARDS_LIMIT_DENOMINATOR);
    move_div_ceil a b.

(** The quotient of the next shard of a node below the limit enters the queue,
    in both loops of [dhondt]. *)
Definition insert_quotient (max_shards : Z) (stake shards : list Z) (tie_breaker : outcome AbortCode Z)
    (quotients : ApportionmentQueue (T := nat)) (i : nat) : outcome AbortCode ApportionmentQueue :=
  s ← index shards i;
  if s =? max_shards then Ok quotients
  else
    st ← index stake i;
    next ← move_arith 128 (s + 1);
    quotient ← from_quotient st next;
    t ← tie_breaker;
    queue_insert quotients quotient t i.

Fixpoint dhondt_loop (fuel : nat) (n_shards max_shards : Z) (stake shards : list Z)
    (quotients : ApportionmentQueue (T := nat)) (n_shards_distributed : Z) : outcome AbortCode (list Z) :=
  if n_shards_distributed =? n_shards then Ok shards
  else
    match fuel with
    | O => Panic
    | S fuel =>
      '(e, quotients) ← pop_max quotients;
      s ← index shards (value e);
      s ← move_arith 64 (s + 1);
      shards ← vector_set (value e) s shards;
      quotients ← insert_quotient max_shards stake shards (Ok (tie_breaker e)) quotients (value e);
      n_shards_distributed ← move_arith 64 (n_shards_distributed + 1);
      dhondt_loop fuel n_shards max_shards stake shards quotients n_shards_distributed
    end.

Definition dhondt (node_priorities : list Z) (n_shards : Z) (stake : list Z) : outcome AbortCode (list Z) :=
  total_stake ← move_sum 64 stake;
  ensure (0 <? total_stake) ENoStake;;
  max_shards ← max_shards_per_node (len stake) n_shards;
  shards ← mapM_outcome (fun s =>
    n1 ← move_arith 64 (n_shards + 1);
    d ← move_div total_stake n1;
    d1 ← move_arith 64 (d + 1);
    q ← move_div s d1;
    Ok (Z.min q max_shards)) stake;
  quotients ← foldM (fun qs i => insert_quotient max_shards stake shards (index node_priorities i) qs i)
                queue_new (seq 0 (length stake));
  if (length stake =? 0)%nat then Ok []
  else
    n_shards_distributed ← move_sum 64 shards;
    shards ← dhondt_loop (Z.to_nat n_shards) n_shards max_shards stake shards quotients n_shards_distributed;
    mapM_outcome (move_arith 16) shards.

(** ** The method of D'Hondt *)

(** The limit, as a number. *)
Definition shards_limit (n_nodes n_shards : Z) : Z :=
  if MIN_NODES_FOR_SHARDS_LIMIT <=? n_nodes then n_shards / 10 else div_ceil (n_shards * 20) (n_nodes * 10).

Section method.
Context (priorities stake : list Z) (n_shards : Z).

(** The claim of a node to its [k]-th shard. *)
Definition shard_claim (i : nat) (k : Z) : Entry nat :=
  mk_entry (stake !!! i * 2 ^ 64 / k) (priorities !!! i) i.

Record dhondt_allocation (limit : Z) (shards : list Z) : Prop := {
  da_length : length shards = length stake;
  da_range : forall i, (i < length stake)%nat -> 0 <= shards !!! i <= limit;
  da_sum : zsum shards = n_shards;
  da_stable : forall i j, (i < length stake)%nat -> (j < length stake)%nat -> 0 < shards !!! i -> shards !!! j < limit ->
    prio_le (shard_claim j (shards !!! j + 1)) (shard_claim i (shards !!! i));
}.

Context (Hstake : Forall (fun s => 0 <= s < 2 ^ 64) stake).

Lemma stake_range i : 0 <= stake !!! i < 2 ^ 64.
Proof.
  destruct (stake !! i) as [s|] eqn:Hs.
  - rewrite (list_lookup_total_correct _ _ _ Hs). by apply (Forall_lookup_1 _ _ _ _ Hstake Hs).
  - by rewrite list_lookup_total_alt, Hs.
Qed.

(** Later shards of a node have lower claims. *)
Lemma shard_claim_anti i a b : 0 < a <= b -> prio_le (shard_claim i b) (shard_claim i a).
Proof.
  intros Hab. apply prio_le_spec. cbn. pose proof (stake_range i).
  assert (stake !!! i * 2 ^ 64 / b <= stake !!! i * 2 ^ 64 / a) by (apply Z.div_le_compat_l; lia). lia.
Qed.

Lemma zsum_mono (s t : list Z) : length s = length t -> (forall i, (i < length s)%nat -> t !!! i <= s !!! i) -> zsum t <= zsum s.
Proof.
  revert t. induction s as [|x s IH]; intros [|y t] Hlen Hle; [done..|]. pose proof (Hle 0%nat ltac:(cbn; lia)) as H0. cbn in H0.
  specialize (IH t ltac:(by injection Hlen) ltac:(intros i Hi; apply (Hle (S i)); cbn; lia)). unfold zsum in *. cbn. lia.
Qed.

(** Two lists of the same sum that differ cross. *)
Lemma zsum_cross (s t : list Z) : length s = length t -> zsum s = zsum t -> s <> t ->
  exists i, (i < length s)%nat /\ s !!! i < t !!! i.
Proof.
  intros Hlen Hsum Hne. destruct (decide (Exists (fun i => s !!! i < t !!! i) (seq 0 (length s)))) as [He|Hn].
  { apply Exists_exists in He as (i & Hi%elem_of_seq & Hlt). exists i. split; [lia|done]. }
  exfalso. apply Hne. apply not_Exists_Forall in Hn; [|intros x; apply _]. rewrite Forall_seq in Hn.
  assert (forall i, (i < length s)%nat -> t !!! i <= s !!! i) as Hle by (intros i Hi; specialize (Hn i ltac:(lia)); cbn in Hn; lia).
  clear Hn Hne. revert t Hlen Hsum Hle. induction s as [|x s IH]; intros [|y t] Hlen Hsum Hle; [done..|].
  pose proof (Hle 0%nat ltac:(cbn; lia)) as H0. cbn in H0.
  assert (forall i, (i < length s)%nat -> t !!! i <= s !!! i) as Hle' by (intros i Hi; apply (Hle (S i)); cbn; lia).
  assert (zsum t <= zsum s) as Hts by (apply zsum_mono; [by injection Hlen|done]).
  change (x + zsum s = y + zsum t) in Hsum. f_equal; [lia|]. apply IH; [by injection Hlen|lia|done].
Qed.

Lemma dhondt_unique limit s t : NoDup priorities -> length priorities = length stake ->
  dhondt_allocation limit s -> dhondt_allocation limit t -> s = t.
Proof.
  intros Hnd Hlp Hs Ht. destruct (decide (s = t)) as [|Hne]; [done|]. exfalso.
  pose proof (da_length _ _ Hs) as Hls. pose proof (da_length _ _ Ht) as Hlt.
  destruct (zsum_cross s t) as (j & Hj & Hsj); [congruence|by rewrite (da_sum _ _ Hs), (da_sum _ _ Ht)|done|].
  destruct (zsum_cross t s) as (i & Hi & Hti); [congruence|by rewrite (da_sum _ _ Hs), (da_sum _ _ Ht)|done|].
  rewrite Hls in Hj. rewrite Hlt in Hi. pose proof (da_range _ _ Hs j Hj). pose proof (da_range _ _ Ht i Hi).
  pose proof (da_range _ _ Hs i Hi). pose proof (da_range _ _ Ht j Hj).
  pose proof (da_stable _ _ Hs i j Hi Hj ltac:(lia) ltac:(lia)) as Hc1.
  pose proof (da_stable _ _ Ht j i Hj Hi ltac:(lia) ltac:(lia)) as Hc2.
  assert (prio_le (shard_claim i (s !!! i)) (shard_claim i (t !!! i + 1))) as Hc3 by (apply shard_claim_anti; lia).
  assert (prio_le (shard_claim j (t !!! j)) (shard_claim j (s !!! j + 1))) as Hc4 by (apply shard_claim_anti; lia).
  apply prio_le_spec in Hc1, Hc2, Hc3, Hc4. cbn [shard_claim priority tie_breaker] in Hc1, Hc2, Hc3, Hc4.
  assert (priorities !!! i = priorities !!! j) as Hp by lia.
  assert (i = j); [|subst; lia]. rewrite <- Hlp in Hi, Hj.
  destruct (lookup_lt_is_Some_2 _ _ Hi) as [a Ha]. destruct (lookup_lt_is_Some_2 _ _ Hj) as [b Hb].
  rewrite (list_lookup_total_correct _ _ _ Ha), (list_lookup_total_correct _ _ _ Hb) in Hp. subst b.
  by eapply NoDup_lookup.
Qed.

(** ** The loop *)

Context (limit : Z) (Hlimit : 0 <= limit < 2 ^ 17) (Hn : 0 <= n_shards < 2 ^ 16).
Context (Hprio : length priorities = length stake).
Let N := length stake.

(** The queue holds the next claim of every node below the limit. *)
Record claims_queue (shards : list Z) (q : ApportionmentQueue (T := nat)) : Prop := {
  cq_heap : heap (entries q);
  cq_entries x : x ∈ entries q <-> exists i, (i < N)%nat /\ shards !!! i < limit /\ x = shard_claim i (shards !!! i + 1);
  cq_distinct : NoDup (value <$> entries q);
}.

Record loop_inv (shards : list Z) (q : ApportionmentQueue (T := nat)) : Prop := {
  li_length : length shards = N;
  li_range : forall i, (i < N)%nat -> 0 <= shards !!! i <= limit;
  li_queue : claims_queue shards q;
  li_stable : forall i j, (i < N)%nat -> (j < N)%nat -> 0 < shards !!! i -> shards !!! j < limit ->
    prio_le (shard_claim j (shards !!! j + 1)) (shard_claim i (shards !!! i));
}.

Lemma index_total {E} (l : list Z) i : (i < length l)%nat -> index (E:=E) l i = Ok (l !!! i).
Proof. intros Hi. apply index_lookup. destruct (lookup_lt_is_Some_2 l i Hi) as [x Hx]. by rewrite (list_lookup_total_correct _ _ _ Hx). Qed.

(** A node that is not in the queue enters it. *)
Lemma insert_quotient_ok shards q i t : length shards = N -> (i < N)%nat -> 0 <= shards !!! i <= limit ->
  t = Ok (priorities !!! i) -> heap (entries q) ->
  exists q', insert_quotient limit stake shards t q i = Ok q' /\ heap (entries q') /\
    entries q' ≡ₚ (if decide (shards !!! i < limit) then [shard_claim i (shards !!! i + 1)] else []) ++ entries q.
Proof.
  intros Hl Hi Hr -> Hh. unfold insert_quotient. rewrite (index_total shards) by lia. cbn [mbind outcome_bind].
  destruct (Z.eqb_spec (shards !!! i) limit).
  - rewrite decide_False by lia. by exists q.
  - rewrite decide_True by lia. rewrite (index_total stake) by (fold N; lia). cbn [mbind outcome_bind].
    rewrite move_arith_in_range by lia. cbn [mbind outcome_bind].
    rewrite from_quotient_ok; [|by apply stake_range|lia]. cbn [mbind outcome_bind].
    destruct (queue_insert_ok q (stake !!! i * 2 ^ 64 / (shards !!! i + 1)) (priorities !!! i) i Hh) as (q' & -> & Hp & Hh').
    by exists q'.
Qed.

(** Every node enters the queue before the loop. *)
Lemma initial_queue shards : length shards = N -> (forall i, (i < N)%nat -> 0 <= shards !!! i <= limit) ->
  exists q, foldM (fun qs i => insert_quotient limit stake shards (index priorities i) qs i) queue_new (seq 0 N) = Ok q /\
    claims_queue shards q.
Proof.
  intros Hl Hr.
  enough (forall k, (k <= N)%nat -> exists q,
    foldM (fun qs i => insert_quotient limit stake shards (index priorities i) qs i) queue_new (seq 0 k) = Ok q /\
    heap (entries q) /\ (forall x, x ∈ entries q <-> exists i, (i < k)%nat /\ shards !!! i < limit /\ x = shard_claim i (shards !!! i + 1)) /\
    NoDup (value <$> entries q)) as Hk.
  { destruct (Hk N) as (q & Hq & Hh & He & Hnd); [lia|]. by exists q. }
  induction k as [|k IH]; intros HkN.
  { exists queue_new. split_and!; [done|by intros i _ x y| |apply NoDup_nil_2]. intros x. split; [by intros ?%elem_of_nil|intros (i & ? & _); lia]. }
  destruct IH as (q & Hq & Hh & He & Hnd); [lia|]. rewrite seq_S, foldM_app, Hq. cbn [mbind outcome_bind foldM Nat.add].
  destruct (insert_quotient_ok shards q k (index priorities k) Hl ltac:(lia) (Hr k ltac:(lia))) as (q' & -> & Hh' & Hp);
    [apply index_total; fold N in Hprio; lia|done|]. cbn [mbind outcome_bind]. exists q'. split_and!; [done|done| |].
  - intros x. rewrite Hp, elem_of_app, He. case_decide as Hd.
    + rewrite list_elem_of_singleton. split.
      * intros [->|(i & Hi & Hx)]; [exists k; split_and!; [lia|done|done]|exists i; split; [lia|done]].
      * intros (i & Hi & Hx). destruct (decide (i = k)) as [->|]; [left; apply Hx|right; exists i; split; [lia|done]].
    + rewrite elem_of_nil. split.
      * intros [[]|(i & Hi & Hx)]. exists i. split; [lia|done].
      * intros (i & Hi & Hx). right. exists i. split; [|done]. destruct (decide (i = k)) as [->|]; [tauto|lia].
  - rewrite Hp, fmap_app. apply NoDup_app. split_and!; [|..|done].
    + case_decide; [apply NoDup_singleton|apply NoDup_nil_2].
    + intros i Hi. case_decide; [|by apply elem_of_nil in Hi]. cbn in Hi. apply list_elem_of_singleton in Hi as ->.
      intros (x & -> & Hx)%list_elem_of_fmap. apply He in Hx as (j & Hj & _ & ->). cbn in Hj. lia.
Qed.

(** A pass of the loop gives a shard to the node with the highest claim. *)
Lemma loop_step shards q e q' : loop_inv shards q -> entries q ≡ₚ e :: entries q' -> heap (entries q') ->
  Forall (fun x => prio_le x e) (entries q) ->
  let i := value e in
  (i < N)%nat /\ shards !!! i < limit /\ tie_breaker e = priorities !!! i /\
  exists q'', insert_quotient limit stake (<[i := shards !!! i + 1]> shards) (Ok (tie_breaker e)) q' i = Ok q'' /\
    loop_inv (<[i := shards !!! i + 1]> shards) q''.
Proof.
  intros [Hl Hr [_ He Hnd] Hst] Hp Hh Hmax. destruct (proj1 (He e)) as (i & Hi & Hlt & ->); [rewrite Hp; apply list_elem_of_here|].
  cbn [shard_claim value tie_breaker]. split_and!; [done|done|done|]. set (s' := <[i := shards !!! i + 1]> shards).
  assert (s' !!! i = shards !!! i + 1) as Hsi by (apply list_lookup_total_insert_eq; lia).
  assert (forall j, j <> i -> s' !!! j = shards !!! j) as Hsj by (intros; by apply list_lookup_total_insert_ne).
  assert (length s' = N) as Hl' by (unfold s'; by rewrite length_insert). pose proof (Hr i Hi) as Hri.
  destruct (insert_quotient_ok s' q' i (Ok (priorities !!! i)) Hl' Hi ltac:(lia) eq_refl Hh) as (q'' & -> & Hh'' & Hp'').
  exists q''. split; [done|]. rewrite Hp in Hnd. cbn [fmap list_fmap] in Hnd. apply NoDup_cons in Hnd as [Hni Hnd].
  assert (forall x, x ∈ entries q' <-> x ∈ entries q /\ value x <> i) as Hq'.
  { intros x. rewrite Hp, elem_of_cons. split; [|intros [[->|?] Hv]; [by destruct Hv|done]]. intros Hx. split; [by right|].
    intros Hv. apply Hni. cbn [shard_claim value]. rewrite <- Hv. by apply list_elem_of_fmap_2. }
  split; [done| | |].
  - intros j Hj. destruct (decide (j = i)) as [->|]; [lia|]. rewrite Hsj by done. by apply Hr.
  - split; [done| |].
    + intros x. rewrite Hp'', elem_of_app, Hq', He. split.
      * intros [Hx|[(j & Hj & Hx & ->) Hv]]; [|exists j; by rewrite Hsj].
        case_decide; [|by apply elem_of_nil in Hx]. apply list_elem_of_singleton in Hx as ->. by exists i.
      * intros (j & Hj & Hx & ->). destruct (decide (j = i)) as [->|Hji].
        { left. rewrite decide_True by done. by apply list_elem_of_singleton. }
        rewrite Hsj in Hx by done. right. rewrite Hsj by done. split; [by exists j|done].
    + rewrite Hp'', fmap_app. apply NoDup_app. split_and!; [case_decide; [apply NoDup_singleton|apply NoDup_nil_2]| |done].
      intros v Hv. case_decide; [|by apply elem_of_nil in Hv]. cbn in Hv. apply list_elem_of_singleton in Hv as ->. done.
  - intros a b Ha Hb. destruct (decide (a = i)) as [->|Hai], (decide (b = i)) as [->|Hbi]; rewrite ?Hsi, ?(Hsj a), ?(Hsj b) by done.
    + intros _ _. apply shard_claim_anti. lia.
    + intros _ Hsb. rewrite Forall_forall in Hmax. apply Hmax, He. by exists b.
    + intros Hsa _. eapply prio_le_trans; [apply (shard_claim_anti i (shards !!! i + 1)); lia|by apply Hst].
    + intros Hsa Hsb. by apply Hst.
Qed.

(** The loop distributes all shards when the limit leaves room for them. *)
Lemma dhondt_loop_ok fuel shards q : n_shards <= limit * Z.of_nat N -> loop_inv shards q -> zsum shards <= n_shards ->
  n_shards - zsum shards <= Z.of_nat fuel ->
  exists shards', dhondt_loop fuel n_shards limit stake shards q (zsum shards) = Ok shards' /\ dhondt_allocation limit shards'.
Proof.
  intros Hroom. revert shards q. induction fuel as [|fuel IH]; intros shards q Hinv Hle Hf; cbn [dhondt_loop];
    (destruct (Z.eqb_spec (zsum shards) n_shards) as [Heq|]; [exists shards; split; [done|]; destruct Hinv; by split|]); [lia|].
  pose proof (li_length _ _ Hinv) as Hl. pose proof (li_queue _ _ Hinv) as [Hh He _].
  destruct (pop_max_ok q Hh) as (e & q' & -> & Hp & Hh' & Hmax).
  { intros Hnil. assert (limit * Z.of_nat N <= zsum shards); [|lia].
    rewrite <- zsum_replicate. apply zsum_mono; [by rewrite length_replicate|]. intros i Hi. rewrite Hl in Hi.
    rewrite (list_lookup_total_correct _ _ limit) by (by apply lookup_replicate_2).
    apply Z.nlt_ge. intros Hlt. apply (not_elem_of_nil (shard_claim i (shards !!! i + 1))). rewrite <- Hnil. apply He. by exists i. }
  destruct (loop_step shards q e q' Hinv Hp Hh' Hmax) as (Hi & Hlt & Ht & q'' & Hq'' & Hinv'').
  pose proof (li_range _ _ Hinv (value e) Hi) as Hri. cbn [mbind outcome_bind].
  rewrite index_total by lia. cbn [mbind outcome_bind]. rewrite (move_arith_in_range 64 (shards !!! value e + 1)) by lia. cbn [mbind outcome_bind].
  unfold vector_set. rewrite (proj2 (Nat.ltb_lt _ _)) by lia. cbn [assert mbind outcome_bind]. rewrite Hq''. cbn [mbind outcome_bind].
  destruct (lookup_lt_is_Some_2 shards (value e)) as [x Hx]; [lia|]. pose proof (list_lookup_total_correct _ _ _ Hx) as Hxx.
  assert (zsum (<[value e := shards !!! value e + 1]> shards) = zsum shards + 1) as Hs'.
  { rewrite (zsum_insert _ _ x) by done. lia. }
  assert (0 <= zsum shards) by (apply zsum_nonneg, Forall_lookup_2; intros j y Hy; rewrite <- (list_lookup_total_correct _ _ _ Hy); apply (li_range _ _ Hinv); apply lookup_lt_Some in Hy; lia).
  rewrite move_arith_in_range by lia. cbn [mbind outcome_bind]. rewrite <- Hs'. apply (IH _ q''); [done|lia|lia].
Qed.

(** ** The initial assignment

    By the method of Hagenbach and Bischoff every node gets at once as many
    shards as its stake contains the distribution number. *)
Context (d : Z) (Hd : 0 < d) (Htotal : zsum stake < d * (n_shards + 1)).
Let initial := (fun s => Z.min (s / d) limit) <$> stake.

Lemma initial_lookup i : (i < N)%nat -> initial !!! i = Z.min (stake !!! i / d) limit.
Proof.
  intros Hi. destruct (lookup_lt_is_Some_2 stake i Hi) as [s Hs]. rewrite (list_lookup_total_correct _ _ _ Hs).
  apply list_lookup_total_correct. unfold initial. by rewrite list_lookup_fmap, Hs.
Qed.

Lemma initial_range i : (i < N)%nat -> 0 <= initial !!! i <= limit.
Proof.
  intros Hi. rewrite initial_lookup by done. pose proof (stake_range i). assert (0 <= stake !!! i / d) by (apply Z.div_pos; lia). lia.
Qed.

Lemma initial_sum : 0 <= zsum initial <= n_shards.
Proof.
  assert (0 <= zsum initial /\ zsum initial * d <= zsum stake) as [H0 H1]; [|nia].
  unfold initial. clear initial Htotal N Hprio. revert Hstake. induction stake as [|s l IH]; intros Hs; [cbn; lia|].
  apply Forall_cons in Hs as [Hs Hl]. specialize (IH Hl). cbn [fmap list_fmap]. unfold zsum in *. cbn [foldr].
  assert (0 <= s / d) by (apply Z.div_pos; lia). pose proof (Z.mul_div_le s d Hd). nia.
Qed.

Lemma initial_stable i j : (i < N)%nat -> (j < N)%nat -> 0 < initial !!! i -> initial !!! j < limit ->
  prio_le (shard_claim j (initial !!! j + 1)) (shard_claim i (initial !!! i)).
Proof.
  intros Hi Hj. rewrite !initial_lookup by done. intros Hpos Hlt. pose proof (stake_range i). pose proof (stake_range j).
  assert (0 <= stake !!! i / d) by (apply Z.div_pos; lia). assert (0 <= stake !!! j / d) by (apply Z.div_pos; lia).
  rewrite (Z.min_l (stake !!! j / d)) by lia. apply prio_le_spec. left. cbn [shard_claim priority].
  apply Z.lt_le_trans with (d * 2 ^ 64).
  - apply Z.div_lt_upper_bound; [lia|]. pose proof (Z.mul_succ_div_gt (stake !!! j) d Hd). nia.
  - apply Z.div_le_lower_bound; [lia|]. pose proof (Z.mul_div_le (stake !!! i) d Hd).
    set (m := Z.min _ _) in *. assert (m <= stake !!! i / d) by lia. nia.
Qed.

(** Initial assignment and loop. *)
Lemma dhondt_rest : n_shards <= limit * Z.of_nat N -> exists shards,
  (quotients ← foldM (fun qs i => insert_quotient limit stake initial (index priorities i) qs i) queue_new (seq 0 N);
   if (N =? 0)%nat then Ok []
   else
     n_shards_distributed ← move_sum 64 initial;
     shards ← dhondt_loop (Z.to_nat n_shards) n_shards limit stake initial quotients n_shards_distributed;
     mapM_outcome (move_arith 16) shards) = Ok shards /\ dhondt_allocation limit shards.
Proof.
  intros Hroom. destruct initial_sum as [Hs0 Hsn]. assert (length initial = N) as Hl by (unfold initial; by rewrite length_fmap).
  destruct (initial_queue initial Hl initial_range) as (q & -> & Hq). cbn [mbind outcome_bind].
  destruct (Nat.eqb_spec N 0) as [HN|HN].
  { exists []. split; [done|]. split; [by symmetry|unfold N in *; lia| |unfold N in *; lia]. cbn. lia. }
  rewrite move_sum_eq, (proj2 (Z.ltb_lt _ _)) by (try lia; apply Forall_lookup_2; intros j y Hy;
    rewrite <- (list_lookup_total_correct _ _ _ Hy); apply initial_range; apply lookup_lt_Some in Hy; lia). cbn [mbind outcome_bind].
  destruct (dhondt_loop_ok (Z.to_nat n_shards) initial q Hroom) as (shards & -> & Ha).
  - split; [done|exact initial_range|done|exact initial_stable].
  - lia.
  - lia.
  - cbn [mbind outcome_bind]. exists shards. split; [|done].
    assert (Forall (Z.le 0) shards) as Hpos.
    { apply Forall_lookup_2. intros j y Hy. rewrite <- (list_lookup_total_correct _ _ _ Hy). apply (da_range _ _ Ha).
      rewrite <- (da_length _ _ Ha). by eapply lookup_lt_Some. }
    rewrite (mapM_outcome_ok _ id), list_fmap_id; [done|]. intros x [j Hj]%list_elem_of_lookup.
    pose proof (zsum_elem _ _ _ Hpos Hj). pose proof (Forall_lookup_1 _ _ _ _ Hpos Hj) as H0.
    pose proof (da_sum _ _ Ha). cbv beta in H0. unfold id. apply move_arith_in_range. lia.
Qed.

(** With a limit of zero no node enters the queue. *)
Lemma dhondt_no_room : 0 < n_shards -> limit = 0 ->
  (quotients ← foldM (fun qs i => insert_quotient limit stake initial (index priorities i) qs i) queue_new (seq 0 N);
   if (N =? 0)%nat then Ok []
   else
     n_shards_distributed ← move_sum 64 initial;
     shards ← dhondt_loop (Z.to_nat n_shards) n_shards limit stake initial quotients n_shards_distributed;
     mapM_outcome (move_arith 16) shards) = if (N =? 0)%nat then Ok [] else Err EPopFromEmptyHeap.
Proof.
  intros Hpos H0. assert (length initial = N) as Hl by (unfold initial; by rewrite length_fmap).
  destruct (initial_queue initial Hl initial_range) as (q & -> & Hq). cbn [mbind outcome_bind].
  destruct (N =? 0)%nat; [done|].
  assert (initial = replicate N 0) as ->.
  { unfold initial, N. rewrite (list_fmap_ext _ (fun _ => 0)); [by apply const_fmap|]. intros i s Hs.
    pose proof (Forall_lookup_1 _ _ _ _ Hstake Hs) as Hr. cbv beta in Hr. assert (0 <= s / d) by (apply Z.div_pos; lia). lia. }
  assert (entries q = []) as He.
  { destruct (entries q) as [|e l] eqn:Hq'; [done|]. exfalso. destruct (proj1 (cq_entries _ _ Hq e)) as (i & Hi & Hlt & _).
    { rewrite Hq'. apply list_elem_of_here. }
    rewrite (list_lookup_total_correct (replicate _ _) _ 0) in Hlt by (by apply lookup_replicate_2). lia. }
  rewrite move_sum_eq, zsum_replicate, Z.mul_0_l by (lia || by apply Forall_replicate).
  change (0 <? 2 ^ 64) with true. cbn [mbind outcome_bind].
  destruct (Z.to_nat n_shards) as [|k] eqn:Hk; [lia|]. cbn [dhondt_loop]. rewrite (proj2 (Z.eqb_neq _ _)) by lia.
  unfold pop_max. by rewrite He.
Qed.

End method.

Lemma shards_limit_range n_nodes n_shards : 0 < n_nodes -> 0 < n_shards < 2 ^ 16 ->
  0 <= shards_limit n_nodes n_shards < 2 ^ 17 /\
  (n_nodes < 20 \/ 10 <= n_shards -> n_shards <= shards_limit n_nodes n_shards * n_nodes) /\
  max_shards_per_node n_nodes n_shards = Ok (shards_limit n_nodes n_shards).
Proof.
  intros Hm Hn. unfold shards_limit, max_shards_per_node, MIN_NODES_FOR_SHARDS_LIMIT, SHARDS_LIMIT_DENOMINATOR.
  destruct (Z.leb_spec 20 n_nodes).
  - pose proof (Z.mul_div_le n_shards 10). pose proof (Z.mul_succ_div_gt n_shards 10). split; [lia|]. split; [nia|done].
  - pose proof (div_ceil_spec (n_shards * 20) (n_nodes * 10)). split; [nia|]. split; [nia|].
    rewrite move_arith_in_range by lia. cbn [mbind outcome_bind]. rewrite move_arith_in_range by lia. cbn [mbind outcome_bind].
    unfold move_div_ceil. by rewrite (proj2 (Z.eqb_neq _ _)) by lia.
Qed.

(** The cases of [dhondt]. *)
Lemma dhondt_cases priorities n_shards stake : Forall (fun s => 0 <= s < 2 ^ 64) stake ->
  length priorities = length stake -> NoDup priorities -> 0 < n_shards < 2 ^ 16 ->
  let limit := shards_limit (len stake) n_shards in
  let r := dhondt priorities n_shards stake in
  if 2 ^ 64 <=? zsum stake then r = Panic
  else if zsum stake =? 0 then r = Err ENoStake
  else if (20 <=? len stake) && (n_shards <? 10) then r = Err EPopFromEmptyHeap
  else exists shards, r = Ok shards /\ dhondt_allocation priorities stake n_shards limit shards /\
    forall other, dhondt_allocation priorities stake n_shards limit other -> other = shards.
Proof.
  intros Hstake Hprio Hnd Hn. cbn zeta. assert (Forall (Z.le 0) stake) as Hpos by (eapply Forall_impl; [exact Hstake|cbn; lia]).
  unfold dhondt. rewrite move_sum_eq by (done || lia). destruct (Z.leb_spec (2 ^ 64) (zsum stake)) as [Hbig|Hfit].
  { by rewrite (proj2 (Z.ltb_ge _ _)) by lia. }
  rewrite (proj2 (Z.ltb_lt (zsum stake) _)) by lia. cbn [mbind outcome_bind]. pose proof (zsum_nonneg _ Hpos).
  destruct (Z.eqb_spec (zsum stake) 0) as [->|Hne]; [done|]. rewrite (proj2 (Z.ltb_lt 0 _)) by lia. cbn [ensure mbind outcome_bind].
  assert (0 < len stake) as HN by (destruct stake; [done|cbn; lia]).
  destruct (shards_limit_range (len stake) n_shards HN Hn) as (Hlim & Hroom & ->). cbn [mbind outcome_bind].
  set (limit := shards_limit _ _) in *. set (d := zsum stake / (n_shards + 1) + 1).
  pose proof (Z.mul_succ_div_gt (zsum stake) (n_shards + 1) ltac:(lia)) as Hdiv.
  assert (0 <= zsum stake / (n_shards + 1) <= zsum stake / 2) as Hq.
  { split; [apply Z.div_pos; lia|apply Z.div_le_compat_l; lia]. }
  assert (0 < d) as Hd by (unfold d; lia). assert (zsum stake / 2 < 2 ^ 63) as Hhalf by (apply Z.div_lt_upper_bound; lia).
  rewrite (mapM_outcome_ok _ (fun s => Z.min (s / d) limit)).
  2: { intros s _. rewrite move_arith_in_range by lia. cbn [mbind outcome_bind]. unfold move_div.
    rewrite (proj2 (Z.eqb_neq (n_shards + 1) 0)) by lia. cbn [mbind outcome_bind]. rewrite move_arith_in_range by lia.
    cbn [mbind outcome_bind]. fold d. by rewrite (proj2 (Z.eqb_neq d 0)) by lia. }
  assert (zsum stake < d * (n_shards + 1)) as Htot by (unfold d; lia). cbn [mbind outcome_bind].
  destruct (Z.leb_spec 20 (len stake)) as [H20|H20], (Z.ltb_spec n_shards 10) as [H10|H10]; cbn [andb].
  { assert (limit = 0) as Hl0.
    { unfold limit, shards_limit, MIN_NODES_FOR_SHARDS_LIMIT. rewrite (proj2 (Z.leb_le _ _)) by done. apply Z.div_small. lia. }
    rewrite dhondt_no_room by (done || lia). by rewrite (proj2 (Nat.eqb_neq _ _)) by lia. }
  all: destruct (dhondt_rest priorities stake n_shards Hstake limit Hlim ltac:(lia) Hprio d Hd Htot ltac:(apply Hroom; lia))
         as (shards & -> & Ha); exists shards; split_and!; [done|done|]; intros other Ho; by eapply dhondt_unique.
Qed.

(** C24: shards are distributed by the method of D'Hondt.  With stake that fits
    64 bits, [dhondt] gives every node a number of shards up to the limit, all
    shards together, such that the last shard of a node never has a lower
    quotient (a lower priority, if quotients are equal) than the next shard of
    a node below the limit; no other distribution has these properties.  The
    exception are fewer than ten shards for twenty or more nodes: then the limit
    is zero and the contract aborts because its queue is empty. *)
Theorem dhondt_correct priorities n_shards stake : Forall (fun s => 0 <= s < 2 ^ 64) stake ->
  length priorities = length stake -> NoDup priorities -> 0 < n_shards < 2 ^ 16 ->
  let limit := shards_limit (len stake) n_shards in
  let r := dhondt priorities n_shards stake in
  if 2 ^ 64 <=? zsum stake then r = Panic
  else if zsum stake =? 0 then r = Err ENoStake
  else if (20 <=? len stake) && (n_shards <? 10) then r = Err EPopFromEmptyHeap
  else exists shards, r = Ok shards /\ dhondt_allocation priorities stake n_shards limit shards /\
    forall other, dhondt_allocation priorities stake n_shards limit other -> other = shards.
Proof. apply dhondt_cases. Qed.
