(* ===== verification/Committee.v ===== *)
(** * Committees and the assignment of shards

    Models contracts/walrus/sources/staking/committee.move and
    contracts/walrus/sources/utils/sort.move.  A committee assigns shards to
    nodes; [transition] computes the next committee from the number of shards
    every node is to have, and moves no shard that can stay. *)

From stdpp Require Import sorting.
From S2P Require Import Prelude Redstuff MoveStd ApportionmentQueue.

(** ** Sorting by node *)

(** The inner loop of the insertion sort. *)
Fixpoint sort_inner {E V} (j : nat) (keys : list ID) (values : list V) : outcome E (list ID * list V) :=
  match j with
  | O => Ok (keys, values)
  | S j' =>
    a ← index keys j';
    b ← index keys j;
    if b <? a then
      keys ← vector_swap j' j keys;
      values ← vector_swap j' j values;
      sort_inner j' keys values
    else Ok (keys, values)
  end.

Definition sort_vec_map_by_node_id {E V} (self : VecMap V) : outcome E (VecMap V) :=
  if (length self <=? 1)%nat then Ok self
  else
    '(keys, values) ← foldM (fun '(keys, values) i => sort_inner i keys values) (self.*1, self.*2)
                        (seq 1 (length self - 1));
    from_keys_values keys values.

(** ** Committees *)

Record Committee := mk_committee { inner : VecMap (list Z) }.

(** [vector::tabulate!] of [initialize]: the next [v] shards. *)
Fixpoint next_shards (v : nat) (shard_idx : Z) : outcome AbortCode (list Z * Z) :=
  match v with
  | O => Ok ([], shard_idx)
  | S v =>
    shard_idx' ← move_arith 16 (shard_idx + 1);
    '(rest, end_idx) ← next_shards v shard_idx';
    Ok (shard_idx :: rest, end_idx)
  end.

Definition initialize (assigned_number : VecMap Z) : outcome AbortCode Committee :=
  sorted_assignments ← sort_vec_map_by_node_id assigned_number;
  '(values, _) ← foldM (fun '(values, shard_idx) v =>
      '(shards, shard_idx) ← next_shards (Z.to_nat v) shard_idx;
      Ok (values ++ [shards], shard_idx)) ([], 0) sorted_assignments.*2;
  cmt ← from_keys_values sorted_assignments.*1 values;
  Ok (mk_committee cmt).

(** The variables of [transition]. *)
Record Transition := mk_transition {
  new_assignments : VecMap Z;
  new_cmt : VecMap (list Z);
  to_move : list Z;
  current_num_of_shards : Z;
}.

(** The loop over the nodes of the current committee. *)
Definition transition_node (t : Transition) (entry : ID * list Z) : outcome AbortCode Transition :=
  let '(node_id, prev_shards) := entry in
  current ← move_arith 64 (current_num_of_shards t + len prev_shards);
  '(assigned_len, assignments) ←
    match get_idx_opt node_id (new_assignments t) with
    | None => Ok (None, new_assignments t)
    | Some idx => '(e, m) ← remove_entry_by_idx idx (new_assignments t); Ok (Some (snd e), m)
    end;
  match assigned_len with
  | None => Ok (mk_transition assignments (new_cmt t) (to_move t ++ prev_shards) current)
  | Some assigned_len =>
    if assigned_len =? 0 then Ok (mk_transition assignments (new_cmt t) (to_move t ++ prev_shards) current)
    else
      let curr_len := len prev_shards in
      cmt ← (if curr_len =? assigned_len then vec_map_insert node_id prev_shards (new_cmt t) else Ok (new_cmt t));
      '(cmt, moved) ←
        (if assigned_len <? curr_len then
           '(node_shards, moved) ← move_back (Z.to_nat (curr_len - assigned_len)) prev_shards (to_move t);
           cmt ← vec_map_insert node_id node_shards cmt;
           Ok (cmt, moved)
         else Ok (cmt, to_move t));
      assignments ←
        (if curr_len <? assigned_len then
           a ← move_arith 16 assigned_len; vec_map_insert node_id a assignments
         else Ok assignments);
      Ok (mk_transition assignments cmt moved current)
  end.

(** The loop over the nodes that need more shards than they have. *)
Definition transition_fill (cmt : Committee) (t : VecMap (list Z) * list Z) (entry : ID * Z) :
    outcome AbortCode (VecMap (list Z) * list Z) :=
  let '(new_cmt, to_move) := t in
  let '(key, value) := entry in
  if value =? 0 then Ok (new_cmt, to_move)
  else
    let current_shards := default [] (try_get key (inner cmt)) in
    '(to_move, current_shards) ← move_back (Z.to_nat (Z.abs (len current_shards - value))) to_move current_shards;
    new_cmt ← vec_map_insert key current_shards new_cmt;
    Ok (new_cmt, to_move).

Definition transition (cmt : Committee) (assignments : VecMap Z) : outcome AbortCode Committee :=
  new_num_of_shards ← move_sum 16 assignments.*2;
  t ← foldM transition_node (mk_transition assignments [] [] 0) (inner cmt);
  ensure (new_num_of_shards =? current_num_of_shards t) EInvalidShardAssignment;;
  '(new_cmt, _) ← foldM (transition_fill cmt) (new_cmt t, to_move t) (new_assignments t);
  sorted ← sort_vec_map_by_node_id new_cmt;
  Ok (mk_committee sorted).

(** [diff]: the nodes of each committee that are not in the other one.  The three
    loops consume the two sorted lists. *)
Fixpoint committee_diff_loop (lhs rhs : list ID) (diff_1 diff_2 : list ID) : list ID * list ID :=
  let fix go rhs diff_1 diff_2 {struct rhs} :=
    match lhs, rhs with
    | [], rhs => (diff_1, diff_2 ++ rhs)
    | lhs, [] => (diff_1 ++ lhs, diff_2)
    | l :: lhs', r :: rhs' =>
      if l =? r then committee_diff_loop lhs' rhs' diff_1 diff_2
      else if l <? r then committee_diff_loop lhs' rhs (diff_1 ++ [l]) diff_2
      else go rhs' diff_1 (diff_2 ++ [r])
    end in
  go rhs diff_1 diff_2.

Definition committee_diff (cmt_1 cmt_2 : Committee) : list ID * list ID :=
  committee_diff_loop (inner cmt_1).*1 (inner cmt_2).*1 [] [].

(** ** Sorting *)

Abbreviation sorted_keys m := (StronglySorted Z.lt m.*1).

Lemma sorted_NoDup (l : list Z) : StronglySorted Z.lt l -> NoDup l.
Proof. induction 1 as [|x l Hl IH Hx]; constructor; [|done]. rewrite Forall_forall in Hx. intros Hin%Hx. lia. Qed.

Lemma vector_swap_fmap {E A B} (f : A -> B) i j (v : list A) :
  vector_swap (E:=E) i j (f <$> v) = fmap (M:=outcome E) (fmap (M:=list) f) (vector_swap i j v).
Proof.
  unfold vector_swap, index. rewrite !list_lookup_fmap. destruct (v !! i) as [x|]; cbn; [|done].
  destruct (v !! j) as [y|]; cbn; [|done]. by rewrite !list_fmap_insert.
Qed.

Lemma vector_swap_adjacent {E A} (p : list A) x y r :
  vector_swap (E:=E) (length p) (S (length p)) (p ++ x :: y :: r) = Ok (p ++ y :: x :: r).
Proof.
  unfold vector_swap. rewrite (index_lookup _ (length p) x) by (by rewrite lookup_app_r, Nat.sub_diag by lia).
  rewrite (index_lookup _ (S (length p)) y) by (rewrite lookup_app_r by lia; by replace (S (length p) - length p)%nat with 1%nat by lia).
  cbn [mbind outcome_bind]. rewrite insert_app_r_alt by lia. replace (S (length p) - length p)%nat with 1%nat by lia.
  rewrite insert_app_r_alt by lia. by rewrite Nat.sub_diag.
Qed.

Section sort.
Context {V : Type}.
Implicit Types l m p r : VecMap V.

(** The entry after a sorted prefix goes to its place. *)
Lemma sort_inner_ok {E} p x r : sorted_keys p -> x.1 ∉ p.*1 ->
  exists p', sort_inner (E:=E) (length p) (p ++ x :: r).*1 (p ++ x :: r).*2 = Ok ((p' ++ r).*1, (p' ++ r).*2) /\
    p' ≡ₚ p ++ [x] /\ sorted_keys p'.
Proof.
  revert r. induction p as [|y p IH] using rev_ind; intros r Hs Hx.
  { exists [x]. split_and!; [done|done|]. repeat constructor. }
  rewrite length_app. cbn [length]. replace (length p + 1)%nat with (S (length p)) by lia. rewrite <- app_assoc. cbn [sort_inner app].
  assert (forall f : ID * V -> Z, index (E:=E) (f <$> p ++ y :: x :: r) (length p) = Ok (f y)) as Hy.
  { intros f. apply index_lookup. by rewrite list_lookup_fmap, lookup_app_r, Nat.sub_diag by lia. }
  rewrite Hy. cbn [mbind outcome_bind].
  rewrite (index_lookup _ _ x.1).
  2: { rewrite list_lookup_fmap, lookup_app_r by lia. by replace (S (length p) - length p)%nat with 1%nat by lia. }
  cbn [mbind outcome_bind]. rewrite fmap_app in Hs. apply StronglySorted_app in Hs as (Hpy & Hp & _).
  destruct (Z.ltb_spec x.1 y.1) as [Hlt|Hge].
  - rewrite !vector_swap_fmap, !vector_swap_adjacent. cbn [fmap outcome_fmap mbind outcome_bind].
    destruct (IH (y :: r) Hp) as (p' & -> & Hperm & Hsp'); [rewrite fmap_app in Hx; set_solver|].
    exists (p' ++ [y]). rewrite <- !app_assoc. split_and!; [done|by rewrite Hperm, <- !app_assoc, (Permutation_app_comm [x])|].
    rewrite fmap_app. apply StronglySorted_app_2; [|done|repeat constructor]. intros a b Ha Hb.
    apply list_elem_of_singleton in Hb as ->. rewrite Hperm, fmap_app, elem_of_app in Ha. destruct Ha as [Ha|Ha].
    + apply Hpy; [done|]. by apply list_elem_of_singleton.
    + apply list_elem_of_singleton in Ha as ->. done.
  - exists (p ++ [y; x]). rewrite <- !app_assoc. split_and!; [done|done|]. rewrite fmap_app.
    assert (x.1 <> y.1) by (intros He; apply Hx; rewrite fmap_app, elem_of_app, He; right; apply list_elem_of_here).
    apply StronglySorted_app_2; [|done|].
    + intros a b Ha [->| ->%list_elem_of_singleton]%elem_of_cons; [by apply Hpy; [|apply list_elem_of_here]|].
      assert (a < y.1) by (apply Hpy; [done|apply list_elem_of_here]). lia.
    + repeat constructor. cbn. lia.
Qed.

Lemma sort_vec_map_ok {E} m : NoDup m.*1 -> exists m', sort_vec_map_by_node_id (E:=E) m = Ok m' /\ m' ≡ₚ m /\ sorted_keys m'.
Proof.
  intros Hnd. unfold sort_vec_map_by_node_id. destruct (Nat.leb_spec (length m) 1) as [Hl|Hl].
  { exists m. split_and!; [done|done|]. destruct m as [|x [|]]; [constructor|repeat constructor|cbn in Hl; lia]. }
  enough (forall r p, sorted_keys p -> NoDup (p ++ r).*1 -> exists l,
    foldM (E:=E) (fun '(keys, values) i => sort_inner i keys values) ((p ++ r).*1, (p ++ r).*2) (seq (length p) (length r)) =
      Ok (l.*1, l.*2) /\ l ≡ₚ p ++ r /\ sorted_keys l) as Hg.
  { destruct m as [|x m]; [cbn in Hl; lia|]. destruct (Hg m [x]) as (l & Hf & Hp & Hs); [repeat constructor|done|].
    cbn [app length] in Hf. replace (length (x :: m) - 1)%nat with (length m) by (cbn; lia). rewrite Hf. cbn [mbind outcome_bind].
    rewrite from_keys_values_ok by (by apply sorted_NoDup). by exists l. }
  induction r as [|x r IH]; intros p Hs Hpr; cbn [length seq foldM].
  { exists p. by rewrite app_nil_r. }
  destruct (sort_inner_ok (E:=E) p x r Hs) as (p' & -> & Hp & Hs').
  { rewrite fmap_app in Hpr. apply NoDup_app in Hpr as (_ & Hd & _). intros Hx. apply (Hd _ Hx). apply list_elem_of_here. }
  cbn [mbind outcome_bind]. assert (length p' = S (length p)) as Hl' by (rewrite Hp, length_app; cbn; lia). rewrite <- Hl'.
  destruct (IH p' Hs') as (l & Hf & Hl2 & Hsl).
  { rewrite Hp, <- app_assoc. done. }
  exists l. split_and!; [done| |done]. by rewrite Hl2, Hp, <- app_assoc.
Qed.

End sort.

(** ** The first committee *)

Lemma next_shards_ok v i : 0 <= i -> i + Z.of_nat v < 2 ^ 16 -> next_shards v i = Ok (seqZ i (Z.of_nat v), i + Z.of_nat v).
Proof.
  revert i. induction v as [|v IH]; intros i Hi Hv; cbn [next_shards]; [by rewrite Z.add_0_r|].
  rewrite move_arith_in_range by lia. cbn [mbind outcome_bind]. rewrite IH by lia. cbn [mbind outcome_bind].
  rewrite (seqZ_cons i) by lia. f_equal. f_equal; [|lia]. f_equal. f_equal; lia.
Qed.

(** The shards that a committee assigns, and those of one node. *)
Definition all_shards (cmt : Committee) : list Z := concat (inner cmt).*2.
Definition shards_of (cmt : Committee) (id : ID) : list Z := default [] (try_get id (inner cmt)).

Lemma initialize_values (l : list Z) i : 0 <= i -> Forall (Z.le 0) l -> i + zsum l < 2 ^ 16 -> forall acc,
  exists values, foldM (fun '(values, shard_idx) v =>
      '(shards, shard_idx) ← next_shards (Z.to_nat v) shard_idx;
      Ok (values ++ [shards], shard_idx)) (acc, i) l = Ok (acc ++ values, i + zsum l) /\
    concat values = seqZ i (zsum l) /\ (fun sh : list Z => len sh) <$> values = l.
Proof.
  intros Hi Hl. revert i Hi. induction Hl as [|v l Hv Hl IH]; intros i Hi Hsum acc; cbn [foldM].
  { exists []. cbn. rewrite app_nil_r, Z.add_0_r. done. }
  change (zsum (v :: l)) with (v + zsum l) in *. pose proof (zsum_nonneg _ Hl).
  rewrite next_shards_ok by lia. cbn [mbind outcome_bind]. rewrite Z2Nat.id by lia.
  destruct (IH (i + v) ltac:(lia) ltac:(lia) (acc ++ [seqZ i v])) as (values & -> & Hc & Hm).
  exists (seqZ i v :: values). rewrite <- app_assoc. split_and!; [by rewrite Z.add_assoc| |].
  - cbn [concat]. rewrite Hc. by rewrite seqZ_app by lia.
  - cbn [fmap list_fmap]. rewrite Hm. f_equal. rewrite length_seqZ. lia.
Qed.

(** ** The transition *)

(** The numbers of shards of the nodes. *)
Definition assignment_of (cmt : Committee) : VecMap Z := (fun e => (e.1, len e.2)) <$> inner cmt.

(** The shards that a node keeps: one list starts with the other. *)
Definition keeps (old new : list Z) : Prop := old `prefix_of` new \/ new `prefix_of` old.

Definition held (p : VecMap (list Z)) (id : ID) : list Z := default [] (try_get id p).

Lemma Permutation_regroup {X} (a b c d e : list X) : (a ++ b) ++ (c ++ d) ++ e ≡ₚ (a ++ c ++ e) ++ b ++ d.
Proof.
  rewrite <- !app_assoc. f_equiv. rewrite (Permutation_app_swap_app b c). f_equiv.
  rewrite (app_assoc b d e). apply Permutation_app_comm.
Qed.

Lemma held_new p id sh : id ∉ p.*1 -> NoDup p.*1 -> held (p ++ [(id, sh)]) id = sh.
Proof.
  intros Hid Hnd. assert (NoDup (p ++ [(id, sh)]).*1) as Hnd'.
  { rewrite fmap_app. apply NoDup_app. split_and!; [done|set_solver|apply NoDup_singleton]. }
  unfold held. rewrite (proj2 (try_get_Some id sh _ Hnd')); [done|]. apply elem_of_app. right. by apply list_elem_of_singleton.
Qed.

Lemma held_other p id id' sh : id' <> id -> held (p ++ [(id, sh)]) id' = held p id'.
Proof.
  intros Hne. unfold held, try_get, get_idx_opt. induction p as [|[k v] p IH]; cbn [app find_index fst].
  { rewrite (proj2 (Z.eqb_neq id id')) by done. done. }
  destruct (k =? id'); [done|]. destruct (find_index (fun e : ID * list Z => e.1 =? id') p) as [i|];
    destruct (find_index (fun e : ID * list Z => e.1 =? id') (p ++ [(id, sh)])) as [j|]; cbn in *; done.
Qed.

Section transition.
Context (cmt : Committee) (A : VecMap Z).
Context (Hcmt : NoDup (inner cmt).*1) (HA : NoDup A.*1) (Hpos : Forall (Z.le 0) A.*2) (Hsum : zsum A.*2 < 2 ^ 16).

(** What holds after the nodes [p] were processed. *)
Record transition_inv (p : VecMap (list Z)) (na : VecMap Z) (nc : VecMap (list Z)) (tm : list Z) : Prop := {
  ti_na_keys : NoDup na.*1;
  ti_na : forall id v, (id, v) ∈ na -> (id, v) ∈ A /\ len (held p id) <= v;
  ti_nc_keys : NoDup nc.*1;
  ti_nc : forall id sh, (id, sh) ∈ nc ->
    (id, len sh) ∈ A /\ 0 < len sh /\ id ∉ na.*1 /\ keeps (shards_of cmt id) sh;
  ti_complete : forall id v, (id, v) ∈ A -> 0 < v -> id ∈ nc.*1 \/ (id, v) ∈ na;
  ti_count : zsum na.*2 + len (concat nc.*2) = zsum A.*2;
  ti_shards : concat nc.*2 ++ tm ++ concat ((fun e => held p e.1) <$> na) ≡ₚ concat p.*2;
}.

Lemma assigned_range id v : (id, v) ∈ A -> 0 <= v < 2 ^ 16.
Proof.
  intros [i Hi]%list_elem_of_lookup. assert (A.*2 !! i = Some v) as Hv by (by rewrite list_lookup_fmap, Hi).
  pose proof (zsum_elem _ _ _ Hpos Hv). pose proof (Forall_lookup_1 _ _ _ _ Hpos Hv) as H0. cbv beta in H0. lia.
Qed.

(** The shards held by nodes that a new node is not among. *)
Lemma held_fmap p id sh (na : VecMap Z) : id ∉ na.*1 ->
  (fun e : ID * Z => held (p ++ [(id, sh)]) e.1) <$> na = (fun e => held p e.1) <$> na.
Proof.
  intros Hid. apply list_fmap_ext. intros i [k v] Hi. cbn [fst]. apply held_other. intros ->. apply Hid.
  eapply elem_of_map_keys, list_elem_of_lookup_2. exact Hi.
Qed.

(** A node that is not assigned shards. *)
Lemma inv_drop p na nc tm id sh : transition_inv p na nc tm -> id ∉ na.*1 ->
  transition_inv (p ++ [(id, sh)]) na nc (tm ++ sh).
Proof.
  intros [H1 H2 H3 H4 H5 H6 H7] Hid. split; [done| |done|done|done|done|].
  - intros k v Hk. destruct (H2 k v Hk) as [Ha Hl]. split; [done|]. rewrite held_other; [done|].
    intros ->. by apply Hid, (elem_of_map_keys id v).
  - rewrite (held_fmap p id sh na Hid), fmap_app, concat_app. cbn [fmap list_fmap concat]. rewrite <- H7.
    rewrite app_nil_r, <- !app_assoc. do 2 f_equiv. apply Permutation_app_comm.
Qed.

(** Removing a node that is not assigned shards changes nothing else. *)
Lemma inv_remove_zero p na m nc tm id : transition_inv p na nc tm -> na ≡ₚ (id, 0) :: m -> held p id = [] ->
  transition_inv p m nc tm.
Proof.
  intros [H1 H2 H3 H4 H5 H6 H7] Hp Hid. rewrite Hp in H1. cbn in H1. apply NoDup_cons in H1 as [Hni H1]. split; [done| |done| | | |].
  - intros k v Hk. apply H2. rewrite Hp. by right.
  - intros k s Hk. destruct (H4 k s Hk) as (? & ? & Hn & ?). split_and!; [done|done| |done]. intros Hm. apply Hn.
    rewrite Hp. cbn. by right.
  - intros k v Hk Hv. destruct (H5 k v Hk Hv) as [?|Hin]; [by left|]. rewrite Hp in Hin. apply elem_of_cons in Hin as [[= -> ->]|]; [lia|by right].
  - rewrite <- H6, Hp. cbn. unfold zsum. lia.
  - rewrite <- H7, Hp. cbn [fmap list_fmap concat fst]. by rewrite Hid.
Qed.

(** A node that keeps all its shards or a part of them. *)
Lemma inv_keep p na m nc tm id a sh : transition_inv p na nc tm -> na ≡ₚ (id, a) :: m -> id ∉ p.*1 -> id ∉ nc.*1 ->
  shards_of cmt id = sh -> 0 < a <= len sh ->
  transition_inv (p ++ [(id, sh)]) m (nc ++ [(id, take (Z.to_nat a) sh)]) (tm ++ reverse (drop (Z.to_nat a) sh)).
Proof.
  intros [H1 H2 H3 H4 H5 H6 H7] Hp Hid Hnc Hold Ha. rewrite Hp in H1. cbn in H1. apply NoDup_cons in H1 as [Hni H1].
  assert (len (take (Z.to_nat a) sh) = a) as Hlen by (rewrite length_take; lia).
  assert ((id, a) ∈ A) as HaA by (apply H2; rewrite Hp; apply list_elem_of_here). split; [done| | | | | |].
  - intros k v Hk. destruct (H2 k v) as [? Hl]; [rewrite Hp; by right|]. split; [done|]. rewrite held_other; [done|].
    intros ->. by apply Hni, (elem_of_map_keys id v).
  - rewrite fmap_app. apply NoDup_app. split_and!; [done|set_solver|apply NoDup_singleton].
  - intros k s [Hk|Hk]%elem_of_app.
    + destruct (H4 k s Hk) as (? & ? & Hn & ?). split_and!; [done|done| |done]. intros Hm. apply Hn. rewrite Hp. cbn. by right.
    + apply list_elem_of_singleton in Hk as [= -> ->]. rewrite Hlen, Hold. split_and!; [done|lia|done|]. right. apply prefix_take.
  - intros k v Hk Hv. rewrite fmap_app, elem_of_app. destruct (H5 k v Hk Hv) as [?|Hin]; [by left; left|].
    rewrite Hp in Hin. apply elem_of_cons in Hin as [[= -> ->]|]; [left; right; by apply list_elem_of_singleton|by right].
  - rewrite fmap_app, concat_app. cbn [fmap list_fmap concat snd]. rewrite app_nil_r, length_app.
    rewrite <- H6, Hp. cbn. unfold zsum in *. lia.
  - rewrite held_fmap by done. rewrite !fmap_app, !concat_app. cbn [fmap list_fmap concat snd]. rewrite !app_nil_r.
    rewrite <- H7, Hp. cbn [fmap list_fmap concat fst]. unfold held at 2. rewrite (proj2 (try_get_None id p) Hid). cbn [default app].
    rewrite <- (take_drop (Z.to_nat a) sh) at 3. rewrite (reverse_Permutation (drop _ sh)).
    apply Permutation_regroup.
Qed.

(** A node that needs more shards. *)
Lemma inv_grow p na m nc tm id a sh : transition_inv p na nc tm -> na ≡ₚ (id, a) :: m -> NoDup p.*1 -> id ∉ p.*1 ->
  len sh < a -> transition_inv (p ++ [(id, sh)]) (m ++ [(id, a)]) nc tm.
Proof.
  intros [H1 H2 H3 H4 H5 H6 H7] Hp Hnd Hid Ha. assert (m ++ [(id, a)] ≡ₚ na) as Hp' by (by rewrite Hp, Permutation_app_comm).
  pose proof H1 as Hni. rewrite Hp in Hni. cbn in Hni. apply NoDup_cons in Hni as [Hni _]. split; [by rewrite Hp'| |done| | | |].
  - intros k v Hk. rewrite Hp' in Hk. destruct (H2 k v Hk) as [HkA Hl]. split; [done|]. destruct (decide (k = id)) as [->|].
    + rewrite held_new by done. rewrite Hp in Hk. apply elem_of_cons in Hk as [[= ->]|Hk]; [lia|].
      destruct Hni. by eapply elem_of_map_keys.
    + by rewrite held_other.
  - intros k s Hk. destruct (H4 k s Hk) as (? & ? & Hn & ?). by rewrite Hp'.
  - intros k v Hk Hv. rewrite Hp'. by apply H5.
  - by rewrite Hp'.
  - rewrite !fmap_app, !concat_app, held_fmap by done. cbn [fmap list_fmap concat fst snd]. rewrite held_new by done.
    rewrite <- H7, Hp. cbn [fmap list_fmap concat fst]. unfold held at 2. rewrite (proj2 (try_get_None id p) Hid). cbn [default app].
    by rewrite !app_nil_r, <- !app_assoc.
Qed.

(** The first loop. *)
Lemma transition_node_ok p na nc tm cur id sh : transition_inv p na nc tm -> NoDup p.*1 -> id ∉ p.*1 ->
  (forall k, k ∈ nc.*1 -> k ∈ p.*1) -> shards_of cmt id = sh -> 0 <= cur -> cur + len sh < 2 ^ 64 ->
  exists na' nc' tm', transition_node (mk_transition na nc tm cur) (id, sh) = Ok (mk_transition na' nc' tm' (cur + len sh)) /\
    transition_inv (p ++ [(id, sh)]) na' nc' tm' /\ (forall k, k ∈ nc'.*1 -> k ∈ (p ++ [(id, sh)]).*1).
Proof.
  intros Hinv Hnd Hid Hnc Hold Hcur Hfit. unfold transition_node. cbn [new_assignments new_cmt to_move current_num_of_shards].
  rewrite (move_arith_in_range 64) by lia. cbn [mbind outcome_bind].
  assert (forall k, k ∈ nc.*1 -> k ∈ (p ++ [(id, sh)]).*1) as Hnc' by (intros k Hk; rewrite fmap_app, elem_of_app; left; auto).
  destruct (get_idx_opt id na) as [i|] eqn:Hi; cbn [mbind outcome_bind].
  2: { exists na, nc, (tm ++ sh). split_and!; [done| |done]. apply inv_drop; [done|]. by apply get_idx_opt_None. }
  destruct (remove_entry_ok (E:=AbortCode) id i na Hi) as (a & m & -> & Hp). cbn [mbind outcome_bind snd].
  assert (id ∉ m.*1) as Hm.
  { pose proof (ti_na_keys _ _ _ _ Hinv) as Hn. rewrite Hp in Hn. cbn in Hn. by apply NoDup_cons in Hn as [? _]. }
  assert ((id, a) ∈ A) as HaA by (apply (ti_na _ _ _ _ Hinv); rewrite Hp; apply list_elem_of_here).
  pose proof (assigned_range id a HaA) as Har. destruct (Z.eqb_spec a 0) as [->|Ha0].
  { exists m, nc, (tm ++ sh). split_and!; [done| |done]. apply inv_drop; [|done]. eapply inv_remove_zero; [done..|].
    unfold held. by rewrite (proj2 (try_get_None id p) Hid). }
  assert (id ∉ nc.*1) as Hidnc by (intros Hk; by apply Hid, Hnc).
  destruct (Z.ltb_spec (len sh) a) as [Hlt|Hge].
  - rewrite (proj2 (Z.eqb_neq (len sh) a)), (proj2 (Z.ltb_ge a (len sh))) by lia. cbn [mbind outcome_bind].
    rewrite move_arith_in_range by lia. cbn [mbind outcome_bind]. rewrite vec_map_insert_ok by done. cbn [mbind outcome_bind].
    exists (m ++ [(id, a)]), nc, tm. split_and!; [done|by eapply inv_grow|done].
  - exists m, (nc ++ [(id, take (Z.to_nat a) sh)]), (tm ++ reverse (drop (Z.to_nat a) sh)).
    split_and!; [|eapply inv_keep; [done..|lia]|].
    + destruct (Z.eqb_spec (len sh) a) as [Heq|Hne]; rewrite ?vec_map_insert_ok by done; cbn [mbind outcome_bind].
      * rewrite (proj2 (Z.ltb_ge a (len sh))) by lia. cbn [mbind outcome_bind].
        rewrite take_ge, drop_ge by lia. cbn. by rewrite app_nil_r.
      * rewrite (proj2 (Z.ltb_lt a (len sh))) by lia. rewrite move_back_ok by lia. cbn [mbind outcome_bind].
        replace (length sh - Z.to_nat (len sh - a))%nat with (Z.to_nat a) by lia. by rewrite vec_map_insert_ok.
    + intros k. rewrite !fmap_app, !elem_of_app. cbn. intros [Hk|Hk]; [left; auto|by right].
Qed.

Lemma held_all p id sh r : inner cmt = p ++ (id, sh) :: r -> shards_of cmt id = sh.
Proof.
  intros He. unfold shards_of. rewrite (proj2 (try_get_Some id sh _ Hcmt)); [done|]. rewrite He.
  apply elem_of_app. right. apply list_elem_of_here.
Qed.

Lemma transition_nodes_ok : len (all_shards cmt) < 2 ^ 64 ->
  exists na nc tm, foldM transition_node (mk_transition A [] [] 0) (inner cmt) = Ok (mk_transition na nc tm (len (all_shards cmt))) /\
    transition_inv (inner cmt) na nc tm.
Proof.
  intros Hfit. enough (forall r p na nc tm, inner cmt = p ++ r -> transition_inv p na nc tm -> (forall k, k ∈ nc.*1 -> k ∈ p.*1) ->
    exists na' nc' tm', foldM transition_node (mk_transition na nc tm (len (concat p.*2))) r =
      Ok (mk_transition na' nc' tm' (len (concat (p ++ r).*2))) /\ transition_inv (p ++ r) na' nc' tm') as Hg.
  { apply (Hg (inner cmt) [] A [] []); [done| |by intros k ?%elem_of_nil]. split; [done| |apply NoDup_nil_2|by intros ? ? ?%elem_of_nil| | |].
    - intros id v Hv. split; [done|]. apply assigned_range in Hv. cbn. lia.
    - intros id v Hv _. by right.
    - cbn. lia.
    - cbn. clear. induction A as [|e l IH]; [done|]. cbn [fmap list_fmap concat]. by rewrite IH. }
  induction r as [|[id sh] r IH]; intros p na nc tm Hin Hinv Hnc; cbn [foldM].
  { exists na, nc, tm. by rewrite app_nil_r. }
  pose proof Hcmt as Hnd. rewrite Hin, fmap_app in Hnd. apply NoDup_app in Hnd as (Hndp & Hd & _).
  assert (len (concat p.*2) + len sh < 2 ^ 64) as Hlt.
  { unfold all_shards in Hfit. rewrite Hin, fmap_app, concat_app, length_app in Hfit. cbn [fmap list_fmap concat snd] in Hfit.
    rewrite length_app in Hfit. lia. }
  destruct (transition_node_ok p na nc tm (len (concat p.*2)) id sh) as (na' & nc' & tm' & -> & Hinv' & Hnc');
    [done|done| |done|by eapply held_all|lia|done|].
  { intros Hk. apply (Hd id Hk). apply list_elem_of_here. }
  cbn [mbind outcome_bind]. replace (len (concat p.*2) + len sh) with (len (concat (p ++ [(id, sh)]).*2)).
  2: { rewrite fmap_app, concat_app, length_app. cbn. rewrite app_nil_r. lia. }
  replace (p ++ (id, sh) :: r) with ((p ++ [(id, sh)]) ++ r) in * by (by rewrite <- app_assoc). by apply IH.
Qed.

(** The second loop: there are enough shards to move, and none are left over. *)
Lemma held_le p (na : VecMap Z) : (forall id v, (id, v) ∈ na -> len (held p id) <= v) ->
  len (concat ((fun e => held p e.1) <$> na)) <= zsum na.*2.
Proof.
  induction na as [|[id v] na IH]; intros Hle; [done|]. cbn [fmap list_fmap concat fst snd].
  specialize (IH ltac:(intros k w Hk; apply Hle; by right)). specialize (Hle id v (list_elem_of_here _ _)).
  rewrite length_app. unfold zsum in *. cbn [foldr]. lia.
Qed.

Lemma to_move_count na nc tm : transition_inv (inner cmt) na nc tm -> len (all_shards cmt) = zsum A.*2 ->
  len tm = zsum na.*2 - len (concat ((fun e => held (inner cmt) e.1) <$> na)).
Proof.
  intros Hinv Hn. pose proof (Permutation_length (ti_shards _ _ _ _ Hinv)) as Hl. fold (all_shards cmt) in Hl.
  rewrite !length_app in Hl. pose proof (ti_count _ _ _ _ Hinv). lia.
Qed.

Lemma inv_fill na nc tm id v : transition_inv (inner cmt) ((id, v) :: na) nc tm -> len (all_shards cmt) = zsum A.*2 -> 0 < v ->
  let k := (length tm - Z.to_nat (v - len (shards_of cmt id)))%nat in
  0 <= v - len (shards_of cmt id) <= len tm /\
  transition_inv (inner cmt) na (nc ++ [(id, shards_of cmt id ++ reverse (drop k tm))]) (take k tm).
Proof.
  intros Hinv Hn Hv. cbn zeta. pose proof (to_move_count _ _ _ Hinv Hn) as Htm. destruct Hinv as [H1 H2 H3 H4 H5 H6 H7].
  destruct (H2 id v (list_elem_of_here _ _)) as [HvA Hl]. fold (shards_of cmt id) in Hl.
  pose proof (held_le (inner cmt) na ltac:(intros j w Hj; apply H2; by right)) as Hle.
  cbn [fmap list_fmap concat fst snd] in *. change (held (inner cmt) id) with (shards_of cmt id) in *. rewrite length_app in Htm.
  change (zsum (v :: na.*2)) with (v + zsum na.*2) in *. set (old := shards_of cmt id) in *. split; [lia|].
  set (k := (length tm - Z.to_nat (v - len old))%nat).
  assert (len (old ++ reverse (drop k tm)) = v) as Hlen by (rewrite length_app, length_reverse, length_drop; lia).
  apply NoDup_cons in H1 as [Hni H1]. assert (id ∉ nc.*1) as Hnc.
  { intros ([? s] & -> & Hs)%list_elem_of_fmap. destruct (H4 _ _ Hs) as (_ & _ & Hn' & _). apply Hn'. apply list_elem_of_here. }
  split; [done| | | | | |].
  - intros j w Hj. apply H2. by right.
  - rewrite fmap_app. apply NoDup_app. split_and!; [done|set_solver|apply NoDup_singleton].
  - intros j s [Hj|Hj]%elem_of_app.
    + destruct (H4 j s Hj) as (? & ? & Hn' & ?). split_and!; [done|done| |done]. intros Hm. apply Hn'. by right.
    + apply list_elem_of_singleton in Hj as [= -> ->]. rewrite Hlen. split_and!; [done|lia|done|]. left. by apply prefix_app_r.
  - intros j w Hj Hw. rewrite fmap_app, elem_of_app. destruct (H5 j w Hj Hw) as [?|[[= -> ->]|]%elem_of_cons]; [by left; left| |by right].
    left. right. by apply list_elem_of_singleton.
  - rewrite fmap_app, concat_app, length_app. cbn [fmap list_fmap concat snd]. rewrite app_nil_r. lia.
  - rewrite <- H7, fmap_app, concat_app. cbn [fmap list_fmap concat snd]. rewrite app_nil_r, (reverse_Permutation (drop k tm)).
    rewrite <- (take_drop k tm) at 3. rewrite <- !app_assoc. f_equiv.
    rewrite (app_assoc old), (Permutation_app_swap_app (old ++ drop k tm)), <- app_assoc. f_equiv. apply Permutation_app_swap_app.
Qed.

Lemma transition_fill_ok na nc tm : transition_inv (inner cmt) na nc tm -> len (all_shards cmt) = zsum A.*2 ->
  exists nc', foldM (transition_fill cmt) (nc, tm) na = Ok (nc', []) /\ transition_inv (inner cmt) [] nc' [].
Proof.
  revert nc tm. induction na as [|[id v] na IH]; intros nc tm Hinv Hn; cbn [foldM].
  { pose proof (to_move_count _ _ _ Hinv Hn) as Htm. cbn in Htm. destruct tm; [by exists nc|cbn in Htm; lia]. }
  cbn [transition_fill]. destruct (ti_na _ _ _ _ Hinv id v (list_elem_of_here _ _)) as [HvA Hl].
  pose proof (assigned_range id v HvA). destruct (Z.eqb_spec v 0) as [->|Hv0].
  { cbn [mbind outcome_bind]. apply IH; [|done]. eapply inv_remove_zero; [done..|].
    destruct (held (inner cmt) id); [done|cbn in Hl; lia]. }
  destruct (inv_fill na nc tm id v Hinv Hn ltac:(lia)) as [Hk Hinv']. fold (shards_of cmt id).
  replace (Z.abs (len (shards_of cmt id) - v)) with (v - len (shards_of cmt id)) by lia.
  rewrite move_back_ok by lia. cbn [mbind outcome_bind]. rewrite vec_map_insert_ok.
  2: { pose proof (ti_nc_keys _ _ _ _ Hinv') as Hnd. rewrite fmap_app in Hnd. apply NoDup_app in Hnd as (_ & Hd & _).
    intros Hin. apply (Hd id Hin). apply list_elem_of_here. }
  cbn [mbind outcome_bind]. by apply IH.
Qed.

End transition.

(** The cases of [transition]. *)
Lemma transition_cases cmt A : NoDup (inner cmt).*1 -> len (all_shards cmt) < 2 ^ 16 ->
  NoDup A.*1 -> Forall (Z.le 0) A.*2 ->
  if 2 ^ 16 <=? zsum A.*2 then transition cmt A = Panic
  else if negb (zsum A.*2 =? len (all_shards cmt)) then transition cmt A = Err EInvalidShardAssignment
  else exists cmt', transition cmt A = Ok cmt' /\ sorted_keys (inner cmt') /\
    all_shards cmt' ≡ₚ all_shards cmt /\
    assignment_of cmt' ≡ₚ filter (fun e => 0 < e.2) A /\
    forall id, 0 < len (shards_of cmt' id) -> keeps (shards_of cmt id) (shards_of cmt' id).
Proof.
  intros Hcmt Hfit HA Hpos. unfold transition. rewrite move_sum_eq by (done || lia).
  destruct (Z.leb_spec (2 ^ 16) (zsum A.*2)) as [Hbig|Hsum]; [by rewrite (proj2 (Z.ltb_ge _ _)) by lia|].
  rewrite (proj2 (Z.ltb_lt (zsum _) _)) by lia. cbn [mbind outcome_bind].
  destruct (transition_nodes_ok cmt A Hcmt HA Hpos Hsum ltac:(lia)) as (na & nc & tm & -> & Hinv). cbn [mbind outcome_bind current_num_of_shards].
  destruct (Z.eqb_spec (zsum A.*2) (len (all_shards cmt))) as [Hn|Hn]; cbn [negb]; [|done]. cbn [ensure mbind outcome_bind].
  destruct (transition_fill_ok cmt A Hcmt HA Hpos Hsum na nc tm Hinv (eq_sym Hn)) as (nc' & Hf & [_ _ Hk Hnc Hall _ Hsh]). cbn [new_cmt to_move new_assignments].
  rewrite Hf. cbn [mbind outcome_bind]. destruct (sort_vec_map_ok (E:=AbortCode) nc' Hk) as (m & -> & Hp & Hs). cbn [mbind outcome_bind].
  exists (mk_committee m). split_and!; [done|done| | |].
  - unfold all_shards at 1. cbn [inner]. rewrite Hp. cbn in Hsh. by rewrite app_nil_r in Hsh.
  - unfold assignment_of. cbn [inner]. rewrite Hp. apply NoDup_Permutation.
    + apply (NoDup_fmap_1 fst). rewrite <- list_fmap_compose. exact Hk.
    + apply NoDup_filter. by apply (NoDup_fmap_1 fst).
    + intros [id v]. rewrite list_elem_of_filter, list_elem_of_fmap. cbn [snd]. split.
      * intros ([k sh] & [= -> ->] & Hin). destruct (Hnc _ _ Hin) as (? & ? & _). done.
      * intros [Hv HvA]. destruct (Hall id v HvA Hv) as [Hin|[]%elem_of_nil].
        apply list_elem_of_fmap in Hin as ([k sh] & -> & Hin). exists (k, sh). split; [|done]. cbn. f_equal.
        destruct (Hnc _ _ Hin) as (HinA & _). cbn in *. by eapply map_keys_inj.
  - intros id Hid. unfold shards_of in Hid |- * at 2. cbn [inner] in *. destruct (try_get id m) as [sh|] eqn:Hg; [|cbn in Hid; lia].
    apply try_get_Some in Hg; [|by apply sorted_NoDup]. rewrite Hp in Hg. by destruct (Hnc _ _ Hg) as (_ & _ & _ & ?).
Qed.

(** C25: a change of the committee assigns every shard exactly once and moves as
    few as possible.  For nodes with given numbers of shards, [transition] returns
    a committee sorted by node in which every node has its number, with the same
    shards as before, and in which the shards of a node are the first ones of its
    previous shards or all of these and more.  It aborts exactly when the
    numbers do not add up to the shards there are (or overflow). *)
Theorem transition_correct cmt A : NoDup (inner cmt).*1 -> len (all_shards cmt) < 2 ^ 16 ->
  NoDup A.*1 -> Forall (Z.le 0) A.*2 ->
  if 2 ^ 16 <=? zsum A.*2 then transition cmt A = Panic
  else if negb (zsum A.*2 =? len (all_shards cmt)) then transition cmt A = Err EInvalidShardAssignment
  else exists cmt', transition cmt A = Ok cmt' /\ sorted_keys (inner cmt') /\
    all_shards cmt' ≡ₚ all_shards cmt /\
    assignment_of cmt' ≡ₚ filter (fun e => 0 < e.2) A /\
    forall id, 0 < len (shards_of cmt' id) -> keeps (shards_of cmt id) (shards_of cmt' id).
Proof. apply transition_cases. Qed.

(** ** The other operations *)

Lemma initialize_ok A : NoDup A.*1 -> Forall (Z.le 0) A.*2 -> zsum A.*2 < 2 ^ 16 -> exists cmt, initialize A = Ok cmt /\
  sorted_keys (inner cmt) /\ all_shards cmt = seqZ 0 (zsum A.*2) /\ assignment_of cmt ≡ₚ A.
Proof.
  intros HA Hpos Hsum. unfold initialize. destruct (sort_vec_map_ok (E:=AbortCode) A HA) as (m & -> & Hp & Hs). cbn [mbind outcome_bind].
  assert (zsum A.*2 = zsum m.*2) as Hz by (by rewrite Hp). rewrite Hz in *. rewrite <- Hp in Hpos.
  destruct (initialize_values m.*2 0 ltac:(lia) Hpos ltac:(lia) []) as (values & -> & Hc & Hl). cbn [mbind outcome_bind app].
  assert (length values = length m) as Hlen by (rewrite <- (length_fmap snd m), <- Hl; by rewrite length_fmap).
  set (z := zip m.*1 values). assert (z.*1 = m.*1) as Hz1 by (apply fst_zip; rewrite length_fmap; lia).
  assert (z.*2 = values) as Hz2 by (apply snd_zip; rewrite length_fmap; lia).
  replace (from_keys_values m.*1 values) with (from_keys_values (E:=AbortCode) z.*1 z.*2) by (by rewrite Hz1, Hz2).
  rewrite from_keys_values_ok by (rewrite Hz1; by apply sorted_NoDup). cbn [mbind outcome_bind].
  eexists. split; [done|]. unfold all_shards, assignment_of. cbn [inner]. rewrite Hz1, Hz2. split_and!; [done|done|].
  replace ((fun e : ID * list Z => (e.1, len e.2)) <$> z) with m; [by rewrite Hp|]. unfold z. rewrite <- (zip_fst_snd m) at 1. rewrite <- Hl.
  clear. revert values. induction m.*1 as [|k ks IH]; intros [|v vs]; [done..|]. cbn [fmap list_fmap zip_with fst snd]. by rewrite <- IH.
Qed.

(** The two results of [diff] for sorted lists of nodes. *)
Lemma diff_loop_ok lhs rhs d1 d2 : StronglySorted Z.lt lhs -> StronglySorted Z.lt rhs ->
  let r := committee_diff_loop lhs rhs d1 d2 in
  (forall x, x ∈ r.1 <-> x ∈ d1 \/ (x ∈ lhs /\ x ∉ rhs)) /\ (forall x, x ∈ r.2 <-> x ∈ d2 \/ (x ∈ rhs /\ x ∉ lhs)).
Proof.
  cbn zeta. revert rhs d1 d2. induction lhs as [|l lhs IHl]; intros rhs d1 d2 Hl Hr.
  { destruct rhs; cbn [committee_diff_loop fst snd]; set_solver. }
  pose proof Hl as [Hll Hl']%StronglySorted_cons. rewrite Forall_forall in Hll.
  revert d1 d2. induction rhs as [|r rhs IHr]; intros d1 d2; cbn [committee_diff_loop]; [cbn [fst snd]; set_solver|].
  pose proof Hr as [Hrr Hr']%StronglySorted_cons. rewrite Forall_forall in Hrr.
  destruct (Z.eqb_spec l r) as [->|Hne]; [|destruct (Z.ltb_spec l r) as [Hlt|Hge]].
  - destruct (IHl rhs d1 d2 Hl' Hr') as [H1 H2]. split; intros x; [rewrite H1|rewrite H2]; rewrite !elem_of_cons.
    + split; [|naive_solver]. intros [?|[Hx Hn]]; [by left|]. right. split; [by right|]. intros [->|]; [|done]. specialize (Hll _ Hx). lia.
    + split; [|naive_solver]. intros [?|[Hx Hn]]; [by left|]. right. split; [by right|]. intros [->|]; [|done]. specialize (Hrr _ Hx). lia.
  - destruct (IHl (r :: rhs) (d1 ++ [l]) d2 Hl' Hr) as [H1 H2]. split; intros x; [rewrite H1|rewrite H2].
    + rewrite elem_of_app, list_elem_of_singleton, !elem_of_cons. split; [|naive_solver].
      intros [[?| ->]|?]; [by left| |naive_solver]. right. split; [by left|]. intros [?|Hin]; [lia|]. specialize (Hrr _ Hin). lia.
    + rewrite !elem_of_cons. split; [|naive_solver]. intros [?|[Hx Hn]]; [by left|]. right. split; [done|].
      intros [->|]; [|done]. destruct Hx as [?|Hx]; [lia|]. specialize (Hrr _ Hx). lia.
  - destruct (IHr Hr' d1 (d2 ++ [r])) as [H1 H2]. fold committee_diff_loop in *. split; intros x.
    + cbn [committee_diff_loop] in H1. rewrite H1. rewrite !elem_of_cons. split; [|naive_solver]. intros [?|[Hx Hn]]; [by left|]. right.
      split; [done|]. intros [->|]; [|done]. destruct Hx as [?|Hx]; [lia|]. specialize (Hll _ Hx). lia.
    + cbn [committee_diff_loop] in H2. rewrite H2. rewrite elem_of_app, list_elem_of_singleton, !elem_of_cons. split; [|naive_solver].
      intros [[?| ->]|?]; [by left| |naive_solver]. right. split; [by left|]. intros [?|Hin]; [lia|]. specialize (Hll _ Hin). lia.
Qed.
