(* ===== verification/Staking.v ===== *)
(** * Staking: who stores which shard, epoch by epoch

    Models contracts/walrus/sources/staking/active_set.move and the parts of
    staking_inner.move that select committees and change epochs.  The balance that
    a pool has in the next epoch, which the active set is updated with, is an
    argument here; [StakingContract] computes it from the pools. *)

From S2P Require Import Prelude Redstuff MoveStd ApportionmentQueue Apportionment Committee.

(** ** The active set *)

Record ActiveSetEntry := mk_active { node_id : ID; staked_amount : Z }.

Record ActiveSet := mk_active_set {
  max_size : Z;
  threshold_stake : Z;
  nodes : list ActiveSetEntry;
  total_stake : Z;
}.

Definition active_set_new (max_size threshold_stake : Z) : outcome AbortCode ActiveSet :=
  ensure (0 <? max_size) EZeroMaxSize;;
  Ok (mk_active_set max_size threshold_stake [] 0).

Definition find_node (set : ActiveSet) (id : ID) : option nat := find_index (fun entry => node_id entry =? id) (nodes set).

Definition active_remove (set : ActiveSet) (id : ID) : outcome AbortCode ActiveSet :=
  match find_node set id with
  | None => Ok set
  | Some idx =>
    '(entry, rest) ← swap_remove idx (nodes set);
    total ← move_arith 64 (total_stake set - staked_amount entry);
    Ok (mk_active_set (max_size set) (threshold_stake set) rest total)
  end.

Definition active_update (set : ActiveSet) (id : ID) (staked : Z) : outcome AbortCode (ActiveSet * bool) :=
  match find_node set id with
  | None => Ok (set, false)
  | Some idx =>
    entry ← index (nodes set) idx;
    total ← move_arith 64 (total_stake set + staked);
    total ← move_arith 64 (total - staked_amount entry);
    ns ← vector_set idx (mk_active (node_id entry) staked) (nodes set);
    Ok (mk_active_set (max_size set) (threshold_stake set) ns total, true)
  end.

(** The loop that finds the smallest stake below the new one. *)
Fixpoint find_min (i : nat) (ns : list ActiveSetEntry) (min_stake : Z) (min_idx : option nat) : Z * option nat :=
  match ns with
  | [] => (min_stake, min_idx)
  | entry :: ns =>
    if staked_amount entry <? min_stake then find_min (S i) ns (staked_amount entry) (Some i)
    else find_min (S i) ns min_stake min_idx
  end.

Definition active_insert (set : ActiveSet) (id : ID) (staked : Z) : outcome AbortCode (ActiveSet * bool) :=
  ensure (bool_decide (find_node set id = None)) EDuplicateInsertion;;
  size ← move_arith 16 (len (nodes set));
  if size <? max_size set then
    total ← move_arith 64 (total_stake set + staked);
    Ok (mk_active_set (max_size set) (threshold_stake set) (nodes set ++ [mk_active id staked]) total, true)
  else
    match find_min 0 (nodes set) staked None with
    | (_, None) => Ok (set, false)
    | (min_stake, Some min_idx) =>
      total ← move_arith 64 (total_stake set - min_stake);
      total ← move_arith 64 (total + staked);
      ns ← vector_set min_idx (mk_active id staked) (nodes set);
      Ok (mk_active_set (max_size set) (threshold_stake set) ns total, true)
    end.

Definition insert_or_update (set : ActiveSet) (id : ID) (staked : Z) : outcome AbortCode (ActiveSet * bool) :=
  if (staked =? 0) || (staked <? threshold_stake set) then
    set ← active_remove set id; Ok (set, false)
  else
    '(set, updated) ← active_update set id staked;
    if updated : bool then Ok (set, true) else active_insert set id staked.

(** ** Epochs *)

Inductive EpochState :=
| EpochChangeSync (weight : Z)
| EpochChangeDone (timestamp : Z)
| NextParamsSelected (timestamp : Z).

Record StakingInnerV1 := mk_staking {
  n_shards : Z;
  epoch_duration : Z;
  first_epoch_start : Z;
  epoch : Z;
  active_set : ActiveSet;
  next_committee : option Committee;
  committee : Committee;
  previous_committee : Committee;
  epoch_state : EpochState;
}.

Definition TEMP_ACTIVE_SET_SIZE_LIMIT : Z := 111.
Definition MIN_STAKE : Z := 0.
Definition empty_committee : Committee := mk_committee [].

Definition staking_new (epoch_zero_duration epoch_duration n_shards now : Z) : outcome AbortCode StakingInnerV1 :=
  start ← move_arith 64 (epoch_zero_duration + now);
  set ← active_set_new TEMP_ACTIVE_SET_SIZE_LIMIT MIN_STAKE;
  Ok (mk_staking n_shards epoch_duration start 0 set None empty_committee empty_committee (EpochChangeDone now)).

Definition set_active_set (set : ActiveSet) (self : StakingInnerV1) : StakingInnerV1 :=
  mk_staking (n_shards self) (epoch_duration self) (first_epoch_start self) (epoch self) set (next_committee self)
    (committee self) (previous_committee self) (epoch_state self).
Definition set_epoch_state (st : EpochState) (self : StakingInnerV1) : StakingInnerV1 :=
  mk_staking (n_shards self) (epoch_duration self) (first_epoch_start self) (epoch self) (active_set self)
    (next_committee self) (committee self) (previous_committee self) st.

(** The last step of [stake_with_pool], [request_withdraw_stake],
    [withdraw_stake] and [try_join_active_set], with the balance of the pool. *)
Definition try_join_active_set (self : StakingInnerV1) (id : ID) (balance : Z) : outcome AbortCode StakingInnerV1 :=
  '(set, _) ← insert_or_update (active_set self) id balance;
  Ok (set_active_set set self).

Definition apportionment (self : StakingInnerV1) : outcome AbortCode (VecMap Z) :=
  let active_ids := node_id <$> nodes (active_set self) in
  let stake := staked_amount <$> nodes (active_set self) in
  let n_nodes := length stake in
  let priorities := (fun i => Z.of_nat (n_nodes - i)) <$> seq 0 n_nodes in
  shards ← dhondt priorities (n_shards self) stake;
  assert (length active_ids =? length shards)%nat;;
  foldM (fun distribution '(id, shards) =>
    if 0 <? shards then vec_map_insert id shards distribution else Ok distribution) [] (zip active_ids shards).

Definition compute_next_committee (self : StakingInnerV1) : outcome AbortCode Committee :=
  distribution ← apportionment self;
  if (length (inner (committee self)) =? 0)%nat then initialize distribution
  else transition (committee self) distribution.

(** The selection of the committee; the public keys and the vote on the capacity
    are left out. *)
Definition select_committee (self : StakingInnerV1) : outcome AbortCode StakingInnerV1 :=
  ensure (bool_decide (next_committee self = None)) ECommitteeSelected;;
  c ← compute_next_committee self;
  foldM (fun (_ : unit) e => ensure (0 <? len (snd e)) EZeroNodeWeight) tt (inner c);;
  Ok (mk_staking (n_shards self) (epoch_duration self) (first_epoch_start self) (epoch self) (active_set self)
        (Some c) (committee self) (previous_committee self) (epoch_state self)).

Definition voting_end (self : StakingInnerV1) (now : Z) : outcome AbortCode StakingInnerV1 :=
  match epoch_state self with
  | EpochChangeDone last_epoch_change =>
    (if negb (epoch self =? 0) then
       t ← move_arith 64 (last_epoch_change + epoch_duration self / 2); ensure (t <=? now) EWrongEpochState
     else ensure (first_epoch_start self <=? now) EWrongEpochState);;
    self ← select_committee self;
    _ ← move_arith 32 (epoch self + 1);
    Ok (set_epoch_state (NextParamsSelected last_epoch_change) self)
  | _ => Err EWrongEpochState
  end.

(** The nodes that receive rewards and those that join get the balance that
    their pools have in the next epoch. *)
Definition update_balances (balance : ID -> Z) (ids : list ID) (set : ActiveSet) : outcome AbortCode ActiveSet :=
  foldM (fun set id => '(set, _) ← insert_or_update set id (balance id); Ok set) set ids.

Definition advance_epoch (self : StakingInnerV1) (rewards : list ID) (balance : ID -> Z) : outcome AbortCode StakingInnerV1 :=
  next ← ok_or (next_committee self) EWrongEpochState;
  epoch' ← move_arith 32 (epoch self + 1);
  let new_ids := snd (committee_diff (committee self) next) in
  set ← update_balances balance rewards (active_set self);
  set ← update_balances balance new_ids set;
  Ok (mk_staking (n_shards self) (epoch_duration self) (first_epoch_start self) epoch' set None next (committee self)
        (EpochChangeSync 0)).

Definition initiate_epoch_change (self : StakingInnerV1) (now : Z) (rewards : list ID) (balance : ID -> Z) :
    outcome AbortCode StakingInnerV1 :=
  match epoch_state self with
  | NextParamsSelected last_epoch_change =>
    (if epoch self =? 0 then ensure (first_epoch_start self <=? now) EWrongEpochState
     else t ← move_arith 64 (last_epoch_change + epoch_duration self); ensure (t <=? now) EWrongEpochState);;
    advance_epoch self rewards balance
  | _ => Err EWrongEpochState
  end.

Definition is_quorum_for_n_shards (weight n_shards : Z) : outcome AbortCode bool :=
  a ← move_arith 64 (3 * weight);
  b ← move_arith 64 (2 * n_shards);
  b ← move_arith 64 (b + 1);
  Ok (b <=? a).

(** The capability of a node. *)
Record StorageNodeCap := mk_cap { cap_node_id : ID; last_epoch_sync_done : Z }.

Definition epoch_sync_done (self : StakingInnerV1) (cap : StorageNodeCap) (e now : Z) :
    outcome AbortCode (StakingInnerV1 * StorageNodeCap) :=
  ensure (e =? epoch self) EInvalidSyncEpoch;;
  ensure (last_epoch_sync_done cap <? epoch self) EDuplicateSyncDone;;
  let cap := mk_cap (cap_node_id cap) (epoch self) in
  node_shards ← ok_or (try_get (cap_node_id cap) (inner (committee self))) ENotInCommittee;
  self ←
    match epoch_state self with
    | EpochChangeSync weight =>
      l ← move_arith 16 (len node_shards);
      weight ← move_arith 16 (weight + l);
      quorum ← is_quorum_for_n_shards weight (n_shards self);
      Ok (set_epoch_state (if quorum : bool then EpochChangeDone now else EpochChangeSync weight) self)
    | _ => Ok self
    end;
  Ok (self, cap).
