(* ===== verification/StakingProps.v ===== *)
(** * What staking promises

    The active set keeps the nodes with the largest stake; the committee of every
    epoch assigns every shard to exactly one node; an epoch change ends only
    after nodes with a quorum of shards have confirmed it. *)

From stdpp Require Import sorting.
From S2P Require Import Prelude Redstuff MoveStd ApportionmentQueue Apportionment Committee Staking.

(** ** The active set *)

Record active_wf (set : ActiveSet) : Prop := {
  aw_ids : NoDup (node_id <$> nodes set);
  aw_size : len (nodes set) <= max_size set;
  aw_max : 0 < max_size set < 2 ^ 16;
  aw_total : total_stake set = zsum (staked_amount <$> nodes set);
  aw_bound : total_stake set < 2 ^ 64;
  aw_pos : Forall (fun e => 0 < staked_amount e) (nodes set);
}.

Lemma find_node_None set id : find_node set id = None <-> id ∉ node_id <$> nodes set.
Proof.
  unfold find_node. rewrite find_index_None, Forall_forall, list_elem_of_fmap. split.
  - intros Hm (e & -> & He). specialize (Hm _ He). lia.
  - intros Hn e He. apply Z.eqb_neq. intros <-. apply Hn. by exists e.
Qed.

Lemma find_node_Some set id i : find_node set id = Some i -> exists e, nodes set !! i = Some e /\ node_id e = id.
Proof. intros (e & He & Hid)%find_index_Some. exists e. split; [done|]. lia. Qed.

Lemma stake_of_node set i e : active_wf set -> nodes set !! i = Some e -> 0 < staked_amount e <= total_stake set.
Proof.
  intros Hwf Hi. split; [apply (Forall_lookup_1 _ _ _ _ (aw_pos _ Hwf) Hi)|]. rewrite (aw_total _ Hwf). apply (zsum_elem _ i).
  - apply Forall_fmap. eapply Forall_impl; [apply (aw_pos _ Hwf)|cbn; lia].
  - by rewrite list_lookup_fmap, Hi.
Qed.

Lemma active_stakes set : active_wf set -> Forall (fun s => 0 <= s < 2 ^ 64) (staked_amount <$> nodes set).
Proof.
  intros Hwf. apply Forall_fmap, Forall_lookup_2. intros i e Hi. pose proof (stake_of_node _ _ _ Hwf Hi).
  pose proof (aw_bound _ Hwf). cbn. lia.
Qed.

(** Replacing an entry. *)
Lemma nodes_insert_wf set i e e' ns total : active_wf set -> nodes set !! i = Some e -> ns = <[i := e']> (nodes set) ->
  total = total_stake set - staked_amount e + staked_amount e' -> total < 2 ^ 64 -> 0 < staked_amount e' ->
  (node_id e' = node_id e \/ node_id e' ∉ node_id <$> nodes set) ->
  active_wf (mk_active_set (max_size set) (threshold_stake set) ns total).
Proof.
  intros [H1 H2 H3 H4 H5 H6] Hi -> Ht Hb Hp Hid. split; cbn [nodes max_size total_stake].
  - rewrite list_fmap_insert. assert ((node_id <$> nodes set) !! i = Some (node_id e)) as Hl by (by rewrite list_lookup_fmap, Hi).
    destruct Hid as [Hid|Hid]; [by rewrite Hid, list_insert_id|].
    apply NoDup_alt. intros a b x Ha Hb'. rewrite !list_lookup_insert in Ha, Hb'. rewrite NoDup_alt in H1.
    repeat case_decide; naive_solver eauto using list_elem_of_lookup_2.
  - by rewrite length_insert.
  - done.
  - rewrite list_fmap_insert, (zsum_insert _ _ (staked_amount e)), <- H4 by (by rewrite list_lookup_fmap, Hi). done.
  - done.
  - by apply Forall_insert.
Qed.

Lemma active_remove_ok set id : active_wf set -> exists set', active_remove set id = Ok set' /\ active_wf set' /\
  max_size set' = max_size set /\ threshold_stake set' = threshold_stake set /\
  forall e, e ∈ nodes set' <-> e ∈ nodes set /\ node_id e <> id.
Proof.
  intros Hwf. unfold active_remove. destruct (find_node set id) as [i|] eqn:Hi.
  2: { apply find_node_None in Hi. exists set. split_and!; [done|done|done|done|]. intros e. split; [|by intros [? _]]. intros He.
    split; [done|]. intros <-. apply Hi. by apply list_elem_of_fmap_2. }
  apply find_node_Some in Hi as (x & Hx & Hid). destruct (last (nodes set)) as [y|] eqn:Hl.
  2: { apply last_None in Hl. by rewrite Hl in Hx. }
  destruct (swap_remove_ok (E:=AbortCode) i _ x y Hx Hl) as (rest & -> & Hlen & Hp & _). cbn [mbind outcome_bind].
  pose proof (stake_of_node _ _ _ Hwf Hx). destruct Hwf as [H1 H2 H3 H4 H5 H6].
  rewrite move_arith_in_range by lia. cbn [mbind outcome_bind]. eexists. split; [done|]. cbn [nodes max_size threshold_stake].
  rewrite Hp in H1, H4, H6. cbn [fmap list_fmap] in H1, H4. apply NoDup_cons in H1 as [Hni H1]. apply Forall_cons in H6 as [_ H6].
  split_and!; [split; cbn; [done|lia|done|unfold zsum in *; cbn [foldr] in H4; lia|lia|done]|done|done|].
  intros e. rewrite Hp, elem_of_cons. split; [|by intros [[->|] ?]]. intros He. split; [by right|]. intros Heq. apply Hni.
  rewrite Hid, <- Heq. by apply list_elem_of_fmap_2.
Qed.

Lemma find_min_spec ns i m idx : exists m' idx', find_min i ns m idx = (m', idx') /\ m' <= m /\
  Forall (fun e => m' <= staked_amount e) ns /\
  ((idx' = idx /\ m' = m) \/ exists k e, idx' = Some (i + k)%nat /\ ns !! k = Some e /\ staked_amount e = m' /\ m' < m).
Proof.
  revert i m idx. induction ns as [|e ns IH]; intros i m idx; cbn [find_min].
  { exists m, idx. split_and!; [done|lia|done|by left]. }
  destruct (Z.ltb_spec (staked_amount e) m) as [Hlt|Hge].
  - destruct (IH (S i) (staked_amount e) (Some i)) as (m' & idx' & -> & Hm & Hall & Hc). exists m', idx'.
    split_and!; [done|lia|by constructor|]. right. destruct Hc as [[-> ->]|(k & x & -> & Hk & Hx & ?)].
    + exists 0%nat, e. rewrite Nat.add_0_r. done.
    + exists (S k), x. split_and!; [f_equal; lia|done|done|lia].
  - destruct (IH (S i) m idx) as (m' & idx' & -> & Hm & Hall & Hc). exists m', idx'.
    split_and!; [done|lia|constructor; [lia|done]|]. destruct Hc as [[-> ->]|(k & x & -> & Hk & Hx & ?)]; [by left|].
    right. exists (S k), x. split_and!; [f_equal; lia|done|done|lia].
Qed.

(** The nodes that are there after an update of node [id]: this node with its new
    stake, or not at all, and all others but possibly one: if the set was full,
    the node with the smallest stake has left. *)
Record updated (set set' : ActiveSet) (id : ID) (staked : Z) (b : bool) : Prop := {
  up_wf : active_wf set';
  up_size : max_size set' = max_size set;
  up_threshold : threshold_stake set' = threshold_stake set;
  up_self e : node_id e = id -> e ∈ nodes set' <-> b = true /\ e = mk_active id staked;
  up_old e : node_id e <> id -> e ∈ nodes set' -> e ∈ nodes set;
  up_others e : node_id e <> id -> e ∈ nodes set -> e ∈ nodes set' \/
    (len (nodes set) = max_size set /\ staked_amount e < staked /\
     Forall (fun e' => staked_amount e <= staked_amount e') (nodes set'));
}.

(** An update aborts only if the total stake does not fit. *)
Definition updates (set : ActiveSet) (id : ID) (staked : Z) (r : outcome AbortCode (ActiveSet * bool)) : Prop :=
  match r with
  | Ok (set', b) => updated set set' id staked b
  | Err _ => False
  | Panic => 2 ^ 64 <= total_stake set + staked
  end.

Lemma elem_of_replaced (l : list ActiveSetEntry) i x y e : NoDup (node_id <$> l) -> l !! i = Some x ->
  e ∈ <[i := y]> l <-> e = y \/ (e ∈ l /\ node_id e <> node_id x).
Proof.
  intros Hnd Hi. pose proof (lookup_lt_Some _ _ _ Hi) as Hlt. split.
  - intros [j Hj]%list_elem_of_lookup. destruct (decide (j = i)) as [->|Hne].
    { rewrite list_lookup_insert_eq in Hj by done. injection Hj as ->. by left. }
    rewrite list_lookup_insert_ne in Hj by done. right. split; [by eapply list_elem_of_lookup_2|]. intros Heq. apply Hne.
    apply (NoDup_lookup _ j i (node_id x) Hnd); rewrite list_lookup_fmap; [by rewrite Hj, <- Heq|by rewrite Hi].
  - intros [->|[[j Hj]%list_elem_of_lookup Hne]]; [by apply list_elem_of_insert|]. apply (list_elem_of_lookup_2 _ j).
    rewrite list_lookup_insert_ne; [done|]. intros ->. congruence.
Qed.

Lemma active_update_ok set id i staked : active_wf set -> 0 < staked -> find_node set id = Some i ->
  updates set id staked (active_update set id staked) /\ forall set', active_update set id staked <> Ok (set', false).
Proof.
  intros Hwf Hst Hi. unfold active_update. rewrite Hi. apply find_node_Some in Hi as (x & Hx & <-).
  rewrite (index_lookup _ _ _ Hx). cbn [mbind outcome_bind]. pose proof (stake_of_node _ _ _ Hwf Hx).
  destruct (decide (total_stake set + staked < 2 ^ 64)); [|rewrite move_arith_overflow by lia; cbn; split; [lia|done]].
  rewrite move_arith_in_range by lia. cbn [mbind outcome_bind]. rewrite move_arith_in_range by lia. cbn [mbind outcome_bind].
  unfold vector_set. rewrite (proj2 (Nat.ltb_lt _ _)) by (by eapply lookup_lt_Some). cbn [assert mbind outcome_bind].
  split; [|done]. pose proof (fun e => elem_of_replaced _ i x (mk_active (node_id x) staked) e (aw_ids _ Hwf) Hx) as Hin.
  split; cbn [nodes max_size threshold_stake]; [|done|done|..].
  - eapply (nodes_insert_wf set i x (mk_active (node_id x) staked)); cbn; [done|done|done|lia|lia|lia|by left].
  - intros e He. rewrite Hin. naive_solver.
  - intros e He. rewrite Hin. intros [->|[? _]]; [by destruct He|done].
  - intros e He Hold. left. rewrite Hin. by right.
Qed.

Lemma active_insert_ok set id staked : active_wf set -> 0 < staked -> id ∉ node_id <$> nodes set ->
  updates set id staked (active_insert set id staked).
Proof.
  intros Hwf Hst Hid. unfold active_insert. rewrite bool_decide_true by (by apply find_node_None). cbn [ensure mbind outcome_bind].
  pose proof (aw_size _ Hwf) as Hsz. pose proof (aw_max _ Hwf). pose proof (aw_bound _ Hwf). pose proof (aw_total _ Hwf) as Ht.
  assert (0 <= total_stake set) as Ht0.
  { rewrite Ht. apply zsum_nonneg, Forall_fmap. eapply Forall_impl; [apply (aw_pos _ Hwf)|cbn; lia]. }
  assert (forall e, node_id e = id -> e ∉ nodes set) as Hnot by (intros e <- He; apply Hid; by apply list_elem_of_fmap_2).
  rewrite (move_arith_in_range 16) by lia. cbn [mbind outcome_bind]. destruct (Z.ltb_spec (len (nodes set)) (max_size set)).
  - destruct (decide (total_stake set + staked < 2 ^ 64)); [|rewrite move_arith_overflow by lia; cbn; lia].
    rewrite move_arith_in_range by lia. cbn [mbind outcome_bind].
    split; cbn [nodes max_size threshold_stake]; [|done|done|..].
    + destruct Hwf as [W1 W2 W3 W4 W5 W6]. split; cbn [nodes max_size total_stake]; [|rewrite length_app; cbn; lia|done| |lia|].
      * rewrite fmap_app. apply NoDup_app. split_and!; [done|set_solver|apply NoDup_singleton].
      * rewrite fmap_app, zsum_app, <- W4. cbn. lia.
      * apply Forall_app. split; [done|]. by constructor.
    + intros e He. rewrite elem_of_app, list_elem_of_singleton. split; [intros [Hold| ->]; [by apply Hnot in Hold|done]|intros [_ ->]; by right].
    + intros e He. rewrite elem_of_app, list_elem_of_singleton. intros [?| ->]; [done|by destruct He].
    + intros e He Hold. left. apply elem_of_app. by left.
  - destruct (find_min_spec (nodes set) 0 staked None) as (m & idx & -> & Hm & Hall & [[-> ->]|(k & x & -> & Hk & Hx & Hlt)]).
    + split; [done|done|done| |done|by left]. intros e He. split; [by intros ?%Hnot|by intros [? _]].
    + cbn [Nat.add]. pose proof (stake_of_node _ _ _ Hwf Hk).
      rewrite move_arith_in_range by lia. cbn [mbind outcome_bind].
      destruct (decide (total_stake set - m + staked < 2 ^ 64)); [|rewrite move_arith_overflow by lia; cbn; lia].
      rewrite move_arith_in_range by lia. cbn [mbind outcome_bind].
      unfold vector_set. rewrite (proj2 (Nat.ltb_lt _ _)) by (by eapply lookup_lt_Some). cbn [assert mbind outcome_bind].
      pose proof (fun e => elem_of_replaced _ k x (mk_active id staked) e (aw_ids _ Hwf) Hk) as Hin.
      split; cbn [nodes max_size threshold_stake]; [|done|done|..].
      * eapply (nodes_insert_wf set k x (mk_active id staked)); cbn; [done|done|done|lia|lia|lia|by right].
      * intros e He. rewrite Hin. split; [intros [->|[Hold _]]; [done|by apply Hnot in Hold]|intros [_ ->]; by left].
      * intros e He. rewrite Hin. intros [->|[? _]]; [by destruct He|done].
      * intros e He Hold. rewrite Hin. destruct (decide (node_id e = node_id x)) as [Heq|]; [|left; by right]. right.
        assert (e = x) as ->.
        { apply list_elem_of_lookup in Hold as [j Hj]. assert (j = k) as ->; [|congruence].
          apply (NoDup_lookup _ j k (node_id x) (aw_ids _ Hwf)); rewrite list_lookup_fmap; [by rewrite Hj, <- Heq|by rewrite Hk]. }
        split_and!; [lia|lia|]. apply Forall_insert; [by rewrite Hx|cbn; lia].
Qed.

Lemma insert_or_update_ok set id staked : active_wf set -> 0 <= threshold_stake set -> 0 <= staked ->
  updates set id staked (insert_or_update set id staked).
Proof.
  intros Hwf Hth Hst. unfold insert_or_update. destruct ((staked =? 0) || (staked <? threshold_stake set)) eqn:Hz.
  { destruct (active_remove_ok set id Hwf) as (set' & -> & Hwf' & Hmax & Ht & Hin). cbn [mbind outcome_bind].
    split; [done|done|done|..]; intros e He; rewrite Hin; naive_solver. }
  assert (0 < staked) as Hpos by lia. destruct (find_node set id) as [i|] eqn:Hi.
  - destruct (active_update_ok set id i staked Hwf Hpos Hi) as [Hup Hn].
    destruct (active_update set id staked) as [[set' []]|?|]; cbn [mbind outcome_bind]; [done|by destruct (Hn set')|done|done].
  - unfold active_update. rewrite Hi. cbn [mbind outcome_bind]. apply active_insert_ok; [done..|]. by apply find_node_None.
Qed.

(** The active set holds the nodes with the largest stake.  An update aborts
    only if the total stake does not fit 64 bits; otherwise it keeps the set
    well formed (distinct nodes with positive stake, the recorded total is their
    sum, the size is bounded), records the new stake or removes the node, and
    evicts a node only from a full set, for a node with more stake, and one that
    no remaining node has less stake than. *)
Theorem active_set_keeps_largest set id staked : active_wf set -> 0 <= threshold_stake set -> 0 <= staked ->
  match insert_or_update set id staked with
  | Ok (set', b) => updated set set' id staked b
  | Err _ => False
  | Panic => 2 ^ 64 <= total_stake set + staked
  end.
Proof. apply insert_or_update_ok. Qed.

(** ** Selecting a committee *)

(** Every shard belongs to exactly one node of the committee. *)
Record committee_ok (n : Z) (c : Committee) : Prop := {
  co_sorted : sorted_keys (inner c);
  co_shards : all_shards c ≡ₚ seqZ 0 n;
  co_weights : Forall (fun e => 0 < len e.2) (inner c);
}.

Definition node_priorities (n : nat) : list Z := (fun i => Z.of_nat (n - i)) <$> seq 0 n.

Lemma node_priorities_NoDup n : NoDup (node_priorities n).
Proof.
  apply NoDup_fmap_2_strong; [|apply NoDup_seq]. intros i j Hi%elem_of_seq Hj%elem_of_seq. lia.
Qed.

Lemma length_node_priorities n : length (node_priorities n) = n.
Proof. unfold node_priorities. by rewrite length_fmap, length_seq. Qed.

Lemma NoDup_filter_keys (P : ID * Z -> Prop) `{forall e, Decision (P e)} (l : VecMap Z) : NoDup l.*1 -> NoDup (filter P l).*1.
Proof.
  induction l as [|e l IH]; [done|]. intros [Hn Hl]%NoDup_cons. rewrite filter_cons. case_decide; [|auto].
  cbn [fmap list_fmap]. apply NoDup_cons. split; [|auto]. intros (x & Hx & [_ Hin]%list_elem_of_filter)%list_elem_of_fmap.
  apply Hn. rewrite Hx. by apply list_elem_of_fmap_2.
Qed.

Lemma distribution_ok (l acc : VecMap Z) : NoDup (acc ++ l).*1 ->
  foldM (E:=AbortCode) (fun distribution '(id, shards) =>
    if 0 <? shards then vec_map_insert id shards distribution else Ok distribution) acc l =
  Ok (acc ++ filter (fun e => 0 < e.2) l).
Proof.
  revert acc. induction l as [|[id s] l IH]; intros acc Hnd; cbn [foldM]; [by rewrite app_nil_r|].
  rewrite filter_cons. cbn [snd]. destruct (Z.ltb_spec 0 s) as [Hs|Hs].
  - rewrite vec_map_insert_ok.
    2: { rewrite fmap_app in Hnd. apply NoDup_app in Hnd as (_ & Hd & _). intros Hin. apply (Hd id Hin). apply list_elem_of_here. }
    cbn [mbind outcome_bind]. rewrite decide_True by done. replace (acc ++ (id, s) :: l) with ((acc ++ [(id, s)]) ++ l) in Hnd by (by rewrite <- app_assoc).
    rewrite IH by done. by rewrite <- app_assoc.
  - cbn [mbind outcome_bind]. rewrite decide_False by lia. apply IH. rewrite fmap_app in *. cbn in Hnd.
    apply NoDup_app in Hnd as (? & Hd & [_ ?]%NoDup_cons). apply NoDup_app. split_and!; [done|set_solver|done].
Qed.

Lemma zsum_filter_pos (l : VecMap Z) : Forall (Z.le 0) l.*2 -> zsum (filter (fun e => 0 < e.2) l).*2 = zsum l.*2.
Proof.
  induction l as [|[id s] l IH]; [done|]. intros [Hs Hl]%Forall_cons. cbn in Hs. specialize (IH Hl). rewrite filter_cons. cbn [snd].
  case_decide; cbn [fmap list_fmap snd]; unfold zsum in *; cbn [foldr]; lia.
Qed.

(** The number of shards of every active node. *)
Definition shard_distribution (self : StakingInnerV1) (shards : list Z) : VecMap Z :=
  filter (fun e => 0 < e.2) (zip (node_id <$> nodes (active_set self)) shards).

Record can_select (self : StakingInnerV1) : Prop := {
  cs_active : active_wf (active_set self);
  cs_stake : nodes (active_set self) <> [];
  cs_shards : 0 < n_shards self < 2 ^ 16;
  cs_limit : len (nodes (active_set self)) < 20 \/ 10 <= n_shards self;
}.

Lemma apportionment_ok self : can_select self -> exists shards, let D := shard_distribution self shards in
  apportionment self = Ok D /\
  dhondt_allocation (node_priorities (length (nodes (active_set self)))) (staked_amount <$> nodes (active_set self)) (n_shards self)
    (shards_limit (len (nodes (active_set self))) (n_shards self)) shards /\
  NoDup D.*1 /\ Forall (Z.lt 0) D.*2 /\ zsum D.*2 = n_shards self.
Proof.
  intros [Hwf Hne Hn Hlim]. set (ns := nodes (active_set self)) in *.
  pose proof (dhondt_cases (node_priorities (length ns)) (n_shards self) (staked_amount <$> ns) (active_stakes _ Hwf)) as Hd.
  rewrite !length_fmap in Hd. specialize (Hd (length_node_priorities _) (node_priorities_NoDup _) Hn). cbn zeta in Hd.
  pose proof (aw_total _ Hwf) as Ht. fold ns in Ht. pose proof (aw_bound _ Hwf).
  assert (0 < total_stake (active_set self)) as Hpos.
  { destruct ns as [|e ns'] eqn:Hns; [done|]. pose proof (stake_of_node (active_set self) 0 e Hwf) as Hs. fold ns in Hs. rewrite Hns in Hs. specialize (Hs eq_refl). lia. }
  rewrite <- Ht, (proj2 (Z.leb_gt _ _)), (proj2 (Z.eqb_neq _ _)) in Hd by lia.
  replace ((20 <=? len ns) && (n_shards self <? 10)) with false in Hd by lia.
  destruct Hd as (shards & Hd & Ha & _). exists shards. unfold apportionment. cbn zeta. fold ns. rewrite !length_fmap.
  fold (node_priorities (length ns)). rewrite Hd. cbn [mbind outcome_bind].
  pose proof (da_length _ _ _ _ _ Ha) as Hl. rewrite length_fmap in Hl. rewrite Hl, Nat.eqb_refl. cbn [assert mbind outcome_bind].
  assert ((zip (node_id <$> ns) shards).*1 = node_id <$> ns) as H1 by (apply fst_zip; rewrite length_fmap; lia).
  assert ((zip (node_id <$> ns) shards).*2 = shards) as H2 by (apply snd_zip; rewrite length_fmap; lia).
  assert (Forall (Z.le 0) shards) as Hs0.
  { apply Forall_lookup_2. intros i s Hi. rewrite <- (list_lookup_total_correct _ _ _ Hi). apply (da_range _ _ _ _ _ Ha).
    rewrite length_fmap, <- Hl. by eapply lookup_lt_Some. }
  unfold shard_distribution. fold ns. rewrite (distribution_ok _ []) by (cbn [app]; rewrite H1; apply (aw_ids _ Hwf)). split_and!; [done|done| | |].
  - apply NoDup_filter_keys. rewrite H1. apply (aw_ids _ Hwf).
  - apply Forall_fmap, Forall_forall. intros e [He _]%list_elem_of_filter. exact He.
  - rewrite zsum_filter_pos by (by rewrite H2). rewrite H2. apply (da_sum _ _ _ _ _ Ha).
Qed.

Lemma assignment_weights c (D : VecMap Z) : assignment_of c ≡ₚ D -> Forall (Z.lt 0) D.*2 -> Forall (fun e => 0 < len e.2) (inner c).
Proof.
  intros Hp HD. rewrite Forall_fmap, <- Hp in HD. unfold assignment_of in HD. by rewrite Forall_fmap in HD.
Qed.

(** What the selection of a committee returns. *)
Record selects (self : StakingInnerV1) (c : Committee) : Prop := {
  se_committee : committee_ok (n_shards self) c;
  se_distribution : exists shards,
    dhondt_allocation (node_priorities (length (nodes (active_set self)))) (staked_amount <$> nodes (active_set self)) (n_shards self)
      (shards_limit (len (nodes (active_set self))) (n_shards self)) shards /\
    assignment_of c ≡ₚ shard_distribution self shards;
  se_keeps : forall id, 0 < len (shards_of c id) -> keeps (shards_of (committee self) id) (shards_of c id);
}.

Lemma compute_next_committee_ok self : can_select self ->
  inner (committee self) = [] \/ committee_ok (n_shards self) (committee self) ->
  exists c, compute_next_committee self = Ok c /\ selects self c.
Proof.
  intros Hcan Hcom. pose proof (cs_shards _ Hcan) as Hn. destruct (apportionment_ok self Hcan) as (shards & HD & Ha & Hnd & Hpos & Hsum).
  set (D := shard_distribution self shards) in *. unfold compute_next_committee. rewrite HD. cbn [mbind outcome_bind].
  assert (Forall (Z.le 0) D.*2) as Hpos' by (eapply Forall_impl; [exact Hpos|cbn; lia]).
  destruct (Nat.eqb_spec (length (inner (committee self))) 0) as [Hnil%nil_length_inv|Hne].
  - destruct (initialize_ok D Hnd Hpos' ltac:(lia)) as (c & -> & Hs & Hall & Hp). exists c. split; [done|]. split.
    + split; [done|by rewrite Hall, Hsum|by eapply assignment_weights].
    + by exists shards.
    + intros id _. left. unfold shards_of at 1. rewrite Hnil. cbn. apply prefix_nil.
  - destruct Hcom as [Hnil|Hok]; [by rewrite Hnil in Hne|]. pose proof (Permutation_length (co_shards _ _ Hok)) as Hlen. rewrite length_seqZ in Hlen.
    pose proof (transition_cases (committee self) D (sorted_NoDup _ (co_sorted _ _ Hok)) ltac:(lia) Hnd Hpos') as Ht.
    rewrite (proj2 (Z.leb_gt _ _)) in Ht by lia. rewrite (proj2 (Z.eqb_eq _ _)) in Ht by lia. cbn [negb] in Ht.
    destruct Ht as (c & -> & Hs & Hall & Hp & Hkeep). exists c. split; [done|].
    assert (filter (fun e : ID * Z => 0 < e.2) D = D) as HDf.
    { unfold D, shard_distribution. rewrite list_filter_filter. apply list_filter_iff. tauto. }
    rewrite HDf in Hp. split.
    + split; [done|by rewrite Hall, (co_shards _ _ Hok)|by eapply assignment_weights].
    + by exists shards.
    + exact Hkeep.
Qed.

Lemma select_committee_ok self : can_select self -> inner (committee self) = [] \/ committee_ok (n_shards self) (committee self) ->
  next_committee self = None -> exists c, selects self c /\
  select_committee self = Ok (mk_staking (n_shards self) (epoch_duration self) (first_epoch_start self) (epoch self) (active_set self)
    (Some c) (committee self) (previous_committee self) (epoch_state self)).
Proof.
  intros Hcan Hcom Hnone. unfold select_committee. rewrite Hnone, bool_decide_true by done. cbn [ensure mbind outcome_bind].
  destruct (compute_next_committee_ok self Hcan Hcom) as (c & -> & Hsel). cbn [mbind outcome_bind]. exists c. split; [done|].
  assert (foldM (E:=AbortCode) (fun (_ : unit) e => ensure (0 <? len (snd e)) EZeroNodeWeight) tt (inner c) = Ok tt) as ->; [|done].
  pose proof (co_weights _ _ (se_committee _ _ Hsel)) as Hw. induction Hw as [|e l He Hl IH]; cbn [foldM]; [done|].
  rewrite (proj2 (Z.ltb_lt _ _)) by done. cbn [ensure mbind outcome_bind]. exact IH.
Qed.

(** A selection that succeeds had stake to distribute. *)
Lemma select_committee_can self self' : active_wf (active_set self) -> 0 < n_shards self < 2 ^ 16 ->
  select_committee self = Ok self' -> can_select self /\ next_committee self = None.
Proof.
  intros Hwf Hn Hs. unfold select_committee in Hs. apply bind_Ok in Hs as ([] & Hnone%ensure_Ok & Hs). apply bool_decide_eq_true in Hnone.
  apply bind_Ok in Hs as (c & Hc & _). split; [|done]. unfold compute_next_committee, apportionment in Hc.
  apply bind_Ok in Hc as (D & HD & _). apply bind_Ok in HD as (shards & Hd & _). rewrite length_fmap in Hd.
  set (ns := nodes (active_set self)) in *. fold (node_priorities (length ns)) in Hd.
  pose proof (dhondt_cases (node_priorities (length ns)) (n_shards self) (staked_amount <$> ns) (active_stakes _ Hwf)) as Hcases.
  rewrite !length_fmap in Hcases. specialize (Hcases (length_node_priorities _) (node_priorities_NoDup _) Hn). cbn zeta in Hcases.
  rewrite Hd in Hcases. destruct (2 ^ 64 <=? _); [done|]. destruct (Z.eqb_spec (zsum (staked_amount <$> ns)) 0) as [|Hz]; [done|].
  destruct ((20 <=? len ns) && (n_shards self <? 10)) eqn:Hl; [done|]. split; [done| |done|fold ns; lia]. fold ns. intros Hnil. by rewrite Hnil in Hz.
Qed.
