(* ===== verification/StakingEpochs.v ===== *)
(** * Epochs as a state machine

    The transactions of the staking contract that change stake, committees and
    epochs as steps, in any order, with any clock and balances.  An aborted
    transaction changes nothing and is no step. *)

From stdpp Require Import sorting functions.
From S2P Require Import Prelude Redstuff MoveStd ApportionmentQueue Apportionment Committee Staking StakingProps.

(** The contract together with the capabilities of the nodes. *)
Definition staking_state : Type := StakingInnerV1 * (ID -> Z).

Inductive staking_step : staking_state -> staking_state -> Prop :=
| step_stake s caps id balance s' : 0 <= balance ->
    try_join_active_set s id balance = Ok s' -> staking_step (s, caps) (s', caps)
| step_voting_end s caps now s' : voting_end s now = Ok s' -> staking_step (s, caps) (s', caps)
| step_epoch_change s caps now rewards balance s' : (forall id, 0 <= balance id) ->
    initiate_epoch_change s now rewards balance = Ok s' -> staking_step (s, caps) (s', caps)
| step_sync_done s caps id e now s' cap : epoch_sync_done s (mk_cap id (caps id)) e now = Ok (s', cap) ->
    staking_step (s, caps) (s', <[id := last_epoch_sync_done cap]> caps).

(** The shards of the nodes that have confirmed the current epoch. *)
Definition confirmed_in (e : Z) (caps : ID -> Z) (c : VecMap (list Z)) : Z :=
  zsum ((fun x => if caps x.1 =? e then len x.2 else 0) <$> c).
Definition confirmed (s : StakingInnerV1) (caps : ID -> Z) : Z := confirmed_in (epoch s) caps (inner (committee s)).

Record staking_inv (n : Z) (st : staking_state) : Prop := {
  si_shards : n_shards (fst st) = n;
  si_active : active_wf (active_set (fst st));
  si_threshold : 0 <= threshold_stake (active_set (fst st));
  si_epoch : 0 <= epoch (fst st);
  si_committee : if decide (epoch (fst st) = 0) then inner (committee (fst st)) = [] else committee_ok n (committee (fst st));
  si_previous : if decide (epoch (fst st) <= 1) then inner (previous_committee (fst st)) = [] else committee_ok n (previous_committee (fst st));
  si_next : match next_committee (fst st), epoch_state (fst st) with
            | Some c, NextParamsSelected _ => committee_ok n c
            | None, NextParamsSelected _ => False
            | None, _ => True
            | Some _, _ => False
            end;
  si_caps : forall id, snd st id <= epoch (fst st);
  si_confirmed : match epoch_state (fst st) with
                 | EpochChangeSync w => w = confirmed (fst st) (snd st) /\ 3 * w < 2 * n + 1
                 | _ => 0 < epoch (fst st) -> 2 * n + 1 <= 3 * confirmed (fst st) (snd st)
                 end;
}.

(** The first epoch has a committee to change from, or none. *)
Lemma inv_committee n s caps : staking_inv n (s, caps) -> inner (committee s) = [] \/ committee_ok n (committee s).
Proof. intros Hinv. pose proof (si_committee _ _ Hinv) as Hc. cbn [fst] in Hc. case_decide; auto. Qed.

Section machine.
Context (n : Z) (Hn : 0 < n < 2 ^ 16).

Lemma staking_new_inv zero duration now s : staking_new zero duration n now = Ok s -> staking_inv n (s, fun _ => 0).
Proof.
  intros (start & _ & Hs)%bind_Ok. cbn in Hs. injection Hs as <-. split; cbn; try done; try lia.
  split; cbn; unfold TEMP_ACTIVE_SET_SIZE_LIMIT; [apply NoDup_nil_2|lia|lia|done|lia|done].
Qed.

Lemma inv_stake s caps id balance s' : staking_inv n (s, caps) -> 0 <= balance -> try_join_active_set s id balance = Ok s' ->
  staking_inv n (s', caps).
Proof.
  intros [H1 H2 H3 H4 H5 H6 H7 H8 H9] Hb ([set b] & Hs & [= <-])%bind_Ok. cbn [fst snd] in *.
  pose proof (insert_or_update_ok _ id balance H2 H3 Hb) as Hup. rewrite Hs in Hup. destruct Hup as [Hwf _ Hth _ _ _].
  split; cbn; try done. by rewrite Hth.
Qed.

Lemma inv_voting_end s caps now s' : staking_inv n (s, caps) -> voting_end s now = Ok s' -> staking_inv n (s', caps).
Proof.
  intros Hinv Hv. pose proof (inv_committee _ _ _ Hinv) as Hc. destruct Hinv as [H1 H2 H3 H4 H5 H6 H7 H8 H9]. cbn [fst snd] in *.
  unfold voting_end in Hv. destruct (epoch_state s) as [|t|] eqn:Hst; [done| |done]. apply bind_Ok in Hv as (_ & _ & Hv).
  apply bind_Ok in Hv as (s1 & Hs1 & Hv). apply bind_Ok in Hv as (_ & _ & [= <-]).
  destruct (select_committee_can s s1 H2 ltac:(lia) Hs1) as [Hcan Hnone]. rewrite <- H1 in Hc.
  destruct (select_committee_ok s Hcan Hc Hnone) as (c & Hsel & Hs1'). rewrite Hs1 in Hs1'. injection Hs1' as ->.
  split; cbn; try done. rewrite <- H1. apply (se_committee _ _ Hsel).
Qed.

Lemma update_balances_wf balance ids set set' : (forall id, 0 <= balance id) -> active_wf set -> 0 <= threshold_stake set ->
  update_balances balance ids set = Ok set' -> active_wf set' /\ 0 <= threshold_stake set'.
Proof.
  intros Hb. revert set. induction ids as [|id ids IH]; intros set Hwf Hth Hu; cbn in Hu; [by injection Hu as <-|].
  pose proof (insert_or_update_ok set id (balance id) Hwf Hth (Hb id)) as Hup.
  destruct (insert_or_update set id (balance id)) as [[set1 b]|?|]; cbn [mbind outcome_bind] in Hu; [|done|done].
  destruct Hup as [Hwf1 _ Hth1 _ _ _]. apply (IH set1); [done|by rewrite Hth1|done].
Qed.

Lemma confirmed_none e caps c : (forall id, caps id < e) -> confirmed_in e caps c = 0.
Proof.
  intros Hc. unfold confirmed_in. induction c as [|x c IH]; [done|]. cbn [fmap list_fmap].
  rewrite (proj2 (Z.eqb_neq _ _)) by (specialize (Hc x.1); lia). unfold zsum in *. cbn [foldr]. lia.
Qed.

Lemma inv_epoch_change s caps now rewards balance s' : staking_inv n (s, caps) -> (forall id, 0 <= balance id) ->
  initiate_epoch_change s now rewards balance = Ok s' -> staking_inv n (s', caps).
Proof.
  intros [H1 H2 H3 H4 H5 H6 H7 H8 H9] Hb Hi. cbn [fst snd] in *. unfold initiate_epoch_change in Hi.
  destruct (epoch_state s) as [| |t] eqn:Hst; [done|done|]. apply bind_Ok in Hi as (_ & _ & Hi). unfold advance_epoch in Hi.
  destruct (next_committee s) as [next|] eqn:Hnext; [|done]. cbn [ok_or mbind outcome_bind] in Hi.
  apply bind_Ok in Hi as (e' & He & Hi). apply bind_Ok in Hi as (set1 & Hset1 & Hi). apply bind_Ok in Hi as (set2 & Hset2 & [= <-]).
  destruct (update_balances_wf _ _ _ _ Hb H2 H3 Hset1) as [Hwf1 Hth1]. destruct (update_balances_wf _ _ _ _ Hb Hwf1 Hth1 Hset2) as [Hwf2 Hth2].
  unfold move_arith in He. destruct (in_uint 32 (epoch s + 1)); [|done]. injection He as <-. split; cbn; try done.
  - lia.
  - by rewrite decide_False by lia.
  - destruct (decide (epoch s = 0)); [rewrite decide_True by lia; done|rewrite decide_False by lia; done].
  - intros id. specialize (H8 id). lia.
  - unfold confirmed. cbn [epoch committee]. rewrite confirmed_none by (intros id; specialize (H8 id); lia). lia.
Qed.

(** A node confirms an epoch once. *)
Lemma confirmed_add e caps c id sh : NoDup c.*1 -> (id, sh) ∈ c -> caps id <> e ->
  confirmed_in e (<[id := e]> caps) c = confirmed_in e caps c + len sh.
Proof.
  intros Hnd Hin Hne. unfold confirmed_in. induction c as [|[k v] c IH]; [by apply elem_of_nil in Hin|].
  cbn in Hnd. apply NoDup_cons in Hnd as [Hk Hnd]. cbn [fmap list_fmap fst snd]. unfold zsum in *. cbn [foldr].
  apply elem_of_cons in Hin as [[= <- <-]|Hin].
  - rewrite fn_lookup_insert, Z.eqb_refl, (proj2 (Z.eqb_neq (caps id) e)) by done.
    replace ((fun x : ID * list Z => if (<[id := e]> caps) x.1 =? e then len x.2 else 0) <$> c)
      with ((fun x : ID * list Z => if caps x.1 =? e then len x.2 else 0) <$> c); [lia|].
    apply list_fmap_ext. intros i [k w] Hi. cbn [fst]. rewrite fn_lookup_insert_ne; [done|]. intros ->. apply Hk.
    eapply elem_of_map_keys, list_elem_of_lookup_2. exact Hi.
  - rewrite (IH Hnd Hin), fn_lookup_insert_ne; [lia|]. intros ->. by apply Hk, (elem_of_map_keys _ sh).
Qed.

Lemma inv_sync_done s caps id e now s' cap : staking_inv n (s, caps) ->
  epoch_sync_done s (mk_cap id (caps id)) e now = Ok (s', cap) -> staking_inv n (s', <[id := last_epoch_sync_done cap]> caps).
Proof.
  intros [H1 H2 H3 H4 H5 H6 H7 H8 H9] Hd. cbn [fst snd] in *. unfold epoch_sync_done in Hd. cbn [cap_node_id last_epoch_sync_done] in Hd.
  apply bind_Ok in Hd as ([] & _ & Hd). apply bind_Ok in Hd as ([] & Hlt%ensure_Ok & Hd). apply Z.ltb_lt in Hlt.
  apply bind_Ok in Hd as (sh & Hsh%ok_or_Ok & Hd). apply bind_Ok in Hd as (s1 & Hs1 & [= <- <-]). cbn [last_epoch_sync_done].
  destruct (decide (epoch s = 0)) as [He|He]; [by rewrite H5 in Hsh|]. pose proof (sorted_NoDup _ (co_sorted _ _ H5)) as Hnd.
  apply try_get_Some in Hsh; [|done].
  assert (confirmed s (<[id := epoch s]> caps) = confirmed s caps + len sh) as Hadd by (apply confirmed_add; [done|done|lia]).
  assert (forall k, (<[id := epoch s]> caps) k <= epoch s) as Hcaps.
  { intros k. destruct (decide (k = id)) as [->|]; [by rewrite fn_lookup_insert|by rewrite fn_lookup_insert_ne]. }
  destruct (epoch_state s) as [w|t|t] eqn:Hst.
  2, 3: injection Hs1 as <-; split; cbn [fst snd]; rewrite ?Hst; try done; [by rewrite decide_False|]; intros Hpos; rewrite Hadd; specialize (H9 Hpos); lia.
  unfold move_arith in Hs1. destruct (in_uint 16 (len sh)); [|done]. cbn [mbind outcome_bind] in Hs1.
  destruct (in_uint 16 (w + len sh)) eqn:Hw; [|done]. apply in_uint_spec in Hw. cbn [mbind outcome_bind] in Hs1.
  unfold is_quorum_for_n_shards in Hs1. rewrite H1 in Hs1.
  rewrite !move_arith_in_range in Hs1 by lia. cbn [mbind outcome_bind] in Hs1.
  rewrite !move_arith_in_range in Hs1 by lia. cbn [mbind outcome_bind] in Hs1. injection Hs1 as <-. destruct H9 as [-> H9].
  assert (match next_committee s with Some _ => False | None => True end) as Hnone by (by destruct (next_committee s)).
  destruct (Z.leb_spec (2 * n + 1) (3 * (confirmed s caps + len sh))); split;
    cbn [fst snd set_epoch_state n_shards active_set epoch committee previous_committee next_committee epoch_state]; try done;
    try (by rewrite decide_False); try (by destruct (next_committee s)); unfold confirmed in *; cbn [epoch committee set_epoch_state]; lia.
Qed.

Lemma step_inv st st' : staking_step st st' -> staking_inv n st -> staking_inv n st'.
Proof.
  intros Hstep Hinv. inversion Hstep; subst; [by eapply inv_stake|by eapply inv_voting_end|by eapply inv_epoch_change|by eapply inv_sync_done].
Qed.

Lemma staking_reachable_inv zero duration now s st : staking_new zero duration n now = Ok s ->
  rtc staking_step (s, fun _ => 0) st -> staking_inv n st.
Proof.
  intros Hs Hr. apply staking_new_inv in Hs. revert Hs. induction Hr; [done|]. intros Hinv. eauto using step_inv.
Qed.

End machine.

(** C20: at any time every shard has exactly one node.  Whatever stake changes,
    whenever the votes end and epochs change: from the first epoch on the current
    committee assigns the shards [0 .. n_shards - 1] to its nodes without
    overlap, every node has a shard, and the same holds for the previous and
    the next committee, which is there exactly between the end of the vote and
    the change of the epoch. *)
Theorem every_shard_has_one_node n zero duration now s0 s caps : 0 < n < 2 ^ 16 ->
  staking_new zero duration n now = Ok s0 -> rtc staking_step (s0, fun _ => 0) (s, caps) ->
  (0 < epoch s -> committee_ok n (committee s)) /\
  (1 < epoch s -> committee_ok n (previous_committee s)) /\
  match epoch_state s with
  | NextParamsSelected _ => exists c, next_committee s = Some c /\ committee_ok n c
  | _ => next_committee s = None
  end.
Proof.
  intros Hn Hs Hr. destruct (staking_reachable_inv n Hn _ _ _ _ _ Hs Hr) as [_ _ _ _ H5 H6 H7 _ _]. cbn [fst] in *. split_and!.
  - intros He. by rewrite decide_False in H5 by lia.
  - intros He. by rewrite decide_False in H6 by lia.
  - destruct (next_committee s) as [c|], (epoch_state s); try done. by exists c.
Qed.

(** C35: an epoch change is complete only with a quorum.  In an epoch after the
    first, the state leaves [EpochChangeSync] only when nodes with more than two
    thirds of the shards have confirmed this epoch, each counted once; until then
    the recorded weight is the number of their shards. *)
Theorem epoch_change_needs_quorum n zero duration now s0 s caps : 0 < n < 2 ^ 16 ->
  staking_new zero duration n now = Ok s0 -> rtc staking_step (s0, fun _ => 0) (s, caps) ->
  match epoch_state s with
  | EpochChangeSync weight => weight = confirmed s caps /\ 3 * weight < 2 * n + 1
  | _ => 0 < epoch s -> 2 * n + 1 <= 3 * confirmed s caps
  end.
Proof. intros Hn Hs Hr. apply (si_confirmed _ _ (staking_reachable_inv n Hn _ _ _ _ _ Hs Hr)). Qed.

(** The vote ends with a committee: in a state in which the epoch
    change is done, with stake in the active set (and ten shards or fewer than
    twenty nodes), [voting_end] succeeds as soon as the time has come, and selects
    the committee that the method of D'Hondt gives for the current stake, moving
    no shard that can stay. *)
Lemma voting_end_selects n s caps t now : 0 < n < 2 ^ 16 -> staking_inv n (s, caps) ->
  epoch_state s = EpochChangeDone t -> nodes (active_set s) <> [] -> len (nodes (active_set s)) < 20 \/ 10 <= n ->
  epoch s + 1 < 2 ^ 32 ->
  (if decide (epoch s = 0) then first_epoch_start s <= now
   else 0 <= t + epoch_duration s / 2 < 2 ^ 64 /\ t + epoch_duration s / 2 <= now) ->
  exists s' c, voting_end s now = Ok s' /\ epoch_state s' = NextParamsSelected t /\ next_committee s' = Some c /\ selects s c.
Proof.
  intros Hn Hinv Hst Hne Hlim Hep Htime. pose proof (inv_committee _ _ _ Hinv) as Hc.
  destruct Hinv as [H1 H2 H3 H4 H5 H6 H7 H8 H9]. cbn [fst snd] in *. rewrite Hst in H7. rewrite <- H1 in *.
  assert (next_committee s = None) as Hnone by (by destruct (next_committee s)).
  destruct (select_committee_ok s) as (c & Hsel & Hsc); [by split|done|done|].
  unfold voting_end. rewrite Hst. destruct (Z.eqb_spec (epoch s) 0) as [He|He]; cbn [negb].
  - rewrite decide_True in Htime by done. rewrite (proj2 (Z.leb_le _ _)) by done. cbn [ensure mbind outcome_bind]. rewrite Hsc. cbn [mbind outcome_bind epoch].
    rewrite move_arith_in_range by lia. cbn [mbind outcome_bind]. eexists _, c. by split_and!.
  - rewrite decide_False in Htime by done. rewrite move_arith_in_range by lia. cbn [mbind outcome_bind].
    rewrite (proj2 (Z.leb_le _ _)) by lia. cbn [ensure mbind outcome_bind]. rewrite Hsc. cbn [mbind outcome_bind epoch].
    rewrite move_arith_in_range by lia. cbn [mbind outcome_bind]. eexists _, c. by split_and!.
Qed.

(** The members of the next committee are nodes of the active set. *)
Lemma voting_end_members n s caps now s' next id : 0 < n < 2 ^ 16 -> staking_inv n (s, caps) -> voting_end s now = Ok s' -> next_committee s' = Some next ->
  id ∈ (inner next).*1 -> id ∈ node_id <$> nodes (active_set s).
Proof.
  intros Hn Hinv Hv Hnx Hid. pose proof (inv_committee _ _ _ Hinv) as Hc. destruct Hinv as [H1 H2 _ _ _ _ _ _ _]. cbn [fst snd] in *.
  unfold voting_end in Hv. destruct (epoch_state s) as [|t|]; [done| |done]. apply bind_Ok in Hv as (_ & _ & Hv).
  apply bind_Ok in Hv as (s1 & Hs1 & Hv). apply bind_Ok in Hv as (_ & _ & [= <-]). destruct (select_committee_can s s1 H2 ltac:(lia) Hs1) as [Hcan Hnone]. rewrite <- H1 in Hc.
  destruct (select_committee_ok s Hcan Hc Hnone) as (c & Hsel & Hs1'). rewrite Hs1 in Hs1'. injection Hs1' as ->. cbn in Hnx. injection Hnx as ->.
  destruct (se_distribution _ _ Hsel) as (shards & _ & Hp). assert (id ∈ (assignment_of next).*1) as Ha.
  { unfold assignment_of. rewrite <- list_fmap_compose. exact Hid. }
  rewrite Hp in Ha. apply list_elem_of_fmap in Ha as ([k w] & -> & [_ Hz]%list_elem_of_filter). cbn. by apply elem_of_zip_l in Hz.
Qed.
