(* ===== verification/StakingPool.v ===== *)
(** * Staking pools

    Models contracts/walrus/sources/staking/staking_pool.move with
    pending_values.move, exchange_rate.move, staked_wal.move, auth.move and
    walrus_context.move: the stake of one storage node, its shares, its rewards and
    the votes of the node.  Balances are their values.  The description of the node
    (names, addresses, keys and metadata of storage_node.move) is not part of the
    pool here; what [new] checks of it is an argument. *)

From S2P Require Import Prelude Redstuff MoveStd ApportionmentQueue.

Abbreviation staking := (outcome AbortCode).

(** ** Pending values: amounts by the epoch from which they count *)

Definition contains {V} (key : ID) (m : VecMap V) : bool := match get_idx_opt key m with Some _ => true | None => false end.

(** [m[&key]] and [*&mut m[&key] = value]. *)
Definition vec_map_get {V} (key : ID) (m : VecMap V) : staking V := expect (try_get key m).
Definition vec_map_set {V} (key : ID) (value : V) (m : VecMap V) : staking (VecMap V) :=
  i ← expect (get_idx_opt key m); Ok (<[i := (key, value)]> m).
Definition vec_map_remove {V} (key : ID) (m : VecMap V) : staking (V * VecMap V) :=
  i ← expect (get_idx_opt key m); '(e, m) ← remove_entry_by_idx i m; Ok (snd e, m).

Abbreviation PendingValues := (VecMap Z).

Definition insert_or_add (self : PendingValues) (epoch value : Z) : staking PendingValues :=
  if negb (contains epoch self) then vec_map_insert epoch value self
  else curr ← vec_map_get epoch self; v ← move_arith 64 (curr + value); vec_map_set epoch v self.

Definition insert_or_replace (self : PendingValues) (epoch value : Z) : staking PendingValues :=
  if negb (contains epoch self) then vec_map_insert epoch value self else vec_map_set epoch value self.

Definition pending_reduce (self : PendingValues) (epoch value : Z) : staking PendingValues :=
  if negb (contains epoch self) then Err EMissingEpochValue
  else
    curr ← vec_map_get epoch self;
    ensure (value <=? curr) EReduceValueTooLarge;;
    v ← move_arith 64 (curr - value);
    vec_map_set epoch v self.

Definition value_at (self : PendingValues) (epoch : Z) : staking Z :=
  foldM (fun value e => if e <=? epoch then v ← vec_map_get e self; move_arith 64 (value + v) else Ok value) 0 self.*1.

Definition latest_value_at (self : PendingValues) (to_epoch : Z) : staking (option Z) :=
  let latest_epoch := foldl (fun latest epoch =>
    if epoch <=? to_epoch then
      match latest with Some l => if l <? epoch then Some epoch else latest | None => Some epoch end
    else latest) None self.*1 in
  match latest_epoch with Some e => v ← vec_map_get e self; Ok (Some v) | None => Ok None end.

Definition flush (self : PendingValues) (to_epoch : Z) : staking (Z * PendingValues) :=
  foldM (fun '(value, m) epoch =>
    if epoch <=? to_epoch then
      '(epoch_value, m) ← vec_map_remove epoch m; value ← move_arith 64 (value + epoch_value); Ok (value, m)
    else Ok (value, m)) (0, self) self.*1.

(** ** Exchange rates *)

Inductive PoolExchangeRate :=
| Flat
| Variable_ (wal_amount share_amount : Z).

Definition rate_new (wal_amount share_amount : Z) : staking PoolExchangeRate :=
  ensure (share_amount <=? wal_amount) EInvalidRate;;
  Ok (if (wal_amount =? 0) || (share_amount =? 0) then Flat else Variable_ wal_amount share_amount).

Definition convert_to_wal_amount (exchange_rate : PoolExchangeRate) (amount : Z) : staking Z :=
  match exchange_rate with
  | Flat => Ok amount
  | Variable_ wal_amount share_amount =>
    x ← move_arith 128 (amount * wal_amount); res ← move_div x share_amount; move_arith 64 res
  end.

Definition convert_to_share_amount (exchange_rate : PoolExchangeRate) (amount : Z) : staking Z :=
  match exchange_rate with
  | Flat => Ok amount
  | Variable_ wal_amount share_amount =>
    x ← move_arith 128 (amount * share_amount); res ← move_div x wal_amount; move_arith 64 res
  end.

(** ** The current values of the contract

    Nothing reads the committee of a [WalrusContext]. *)

Record WalrusContext := mk_wctx { wctx_epoch : Z; committee_selected : bool }.

(** ** Staked WAL *)

Inductive StakedWalState := Staked | Withdrawing (withdraw_epoch : Z).

Record StakedWal := mk_staked_wal {
  sw_state : StakedWalState;
  sw_node_id : ID;
  principal : Z;
  sw_activation_epoch : Z;
}.

Definition MIN_STAKING_THRESHOLD : Z := 1000000000.

Definition mint (node_id : ID) (principal activation_epoch : Z) : staking StakedWal :=
  ensure (MIN_STAKING_THRESHOLD <=? principal) EStakeBelowThreshold;;
  Ok (mk_staked_wal Staked node_id principal activation_epoch).

Definition is_staked (sw : StakedWal) : bool := match sw_state sw with Staked => true | Withdrawing _ => false end.
Definition sw_is_withdrawing (sw : StakedWal) : bool := match sw_state sw with Withdrawing _ => true | Staked => false end.
Definition withdraw_epoch (sw : StakedWal) : staking Z :=
  match sw_state sw with Withdrawing e => Ok e | Staked => Err ENotWithdrawing end.

Definition sw_set_withdrawing (sw : StakedWal) (withdraw_epoch : Z) : staking StakedWal :=
  ensure (is_staked sw) EAlreadyWithdrawing;;
  Ok (mk_staked_wal (Withdrawing withdraw_epoch) (sw_node_id sw) (principal sw) (sw_activation_epoch sw)).

Definition can_withdraw_early (sw : StakedWal) (node_in_next_committee : bool) (wctx : WalrusContext) : staking bool :=
  if sw_is_withdrawing sw then Ok false
  else
    e2 ← move_arith 32 (wctx_epoch wctx + 2);
    if sw_activation_epoch sw =? e2 then Ok true
    else e1 ← move_arith 32 (wctx_epoch wctx + 1); Ok ((sw_activation_epoch sw =? e1) && negb node_in_next_committee).

Definition sw_join (sw other : StakedWal) : staking StakedWal :=
  ensure (sw_node_id sw =? sw_node_id other) EMetadataMismatch;;
  ensure (sw_activation_epoch sw =? sw_activation_epoch other) EMetadataMismatch;;
  (if is_staked sw then ensure (is_staked other) EMetadataMismatch
   else
     ensure (sw_is_withdrawing sw && sw_is_withdrawing other) EMetadataMismatch;;
     e ← withdraw_epoch sw;
     e' ← withdraw_epoch other;
     ensure (e =? e') EMetadataMismatch);;
  p ← move_arith 64 (principal sw + principal other);
  Ok (mk_staked_wal (sw_state sw) (sw_node_id sw) p (sw_activation_epoch sw)).

Definition sw_split (sw : StakedWal) (amount : Z) : staking (StakedWal * StakedWal) :=
  ensure (amount <? principal sw) EInvalidAmount;;
  ensure (MIN_STAKING_THRESHOLD <=? amount) EStakeBelowThreshold;;
  rest ← move_arith 64 (principal sw - amount);
  ensure (MIN_STAKING_THRESHOLD <=? rest) EStakeBelowThreshold;;
  Ok (mk_staked_wal (sw_state sw) (sw_node_id sw) rest (sw_activation_epoch sw),
      mk_staked_wal (sw_state sw) (sw_node_id sw) amount (sw_activation_epoch sw)).

(** ** Authorization *)

Inductive Authenticated := Sender (a : Z) | Object_ (id : ID).
Inductive Authorized := Address (a : Z) | ObjectID_ (id : ID).

Definition matches (authenticated : Authenticated) (authorized : Authorized) : bool :=
  match authenticated, authorized with
  | Sender a, Address b => a =? b
  | Object_ a, ObjectID_ b => a =? b
  | _, _ => false
  end.

(** ** The pool *)

Inductive PoolState := Active | PoolWithdrawing (epoch : Z) | Withdrawn.

Record VotingParams := mk_votes { storage_price : Z; write_price : Z; node_capacity : Z }.

(** [blocked_commission] is the entry [NewEpochCommissionBlockedForCollection] of
    the extra fields. *)
Record StakingPool := mk_pool {
  pool_id : ID;
  state : PoolState;
  voting_params : VotingParams;
  activation_epoch : Z;
  latest_epoch : Z;
  wal_balance : Z;
  num_shares : Z;
  pending_shares_withdraw : PendingValues;
  pre_active_withdrawals : PendingValues;
  pending_commission_rate : PendingValues;
  commission_rate : Z;
  exchange_rates : gmap Z PoolExchangeRate;
  pending_stake : PendingValues;
  rewards_pool : Z;
  commission : Z;
  commission_receiver : Authorized;
  governance_authorized : Authorized;
  blocked_commission : option Z;
}.

Definition MAX_NODE_NAME_LENGTH : Z := 100.
Definition MAX_NETWORK_ADDRESS_LENGTH : Z := 259.
Definition N_BASIS_POINTS : Z := 10000.

(** [valid_proof] is the result of verifying the proof of possession. *)
Definition pool_new (id : ID) (name network_address network_public_key : list byte) (valid_proof : bool)
    (commission_rate storage_price write_price node_capacity sender : Z) (wctx : WalrusContext) : staking StakingPool :=
  ensure valid_proof EInvalidProofOfPossession;;
  ensure (len name <=? MAX_NODE_NAME_LENGTH) EInvalidNameLength;;
  ensure (len network_address <=? MAX_NETWORK_ADDRESS_LENGTH) EInvalidNetworkAddressLength;;
  ensure (commission_rate <=? N_BASIS_POINTS) EIncorrectCommissionRate;;
  activation_epoch ← (if committee_selected wctx then move_arith 32 (wctx_epoch wctx + 1) else Ok (wctx_epoch wctx));
  ensure (len network_public_key =? 33) EInvalidNetworkPublicKey;;
  Ok (mk_pool id Active (mk_votes storage_price write_price node_capacity) activation_epoch (wctx_epoch wctx) 0 0 [] [] []
        commission_rate {[ activation_epoch := Flat ]} [] 0 0 (Address sender) (Address sender) None).

Definition is_active (p : StakingPool) : bool := match state p with Active => true | _ => false end.
Definition pool_is_withdrawing (p : StakingPool) : bool := match state p with PoolWithdrawing _ => true | _ => false end.

Definition pool_set_withdrawing (p : StakingPool) (wctx : WalrusContext) : staking StakingPool :=
  ensure (negb (pool_is_withdrawing p)) EPoolAlreadyWithdrawing;;
  e ← move_arith 32 (wctx_epoch wctx + 1);
  Ok (mk_pool (pool_id p) (PoolWithdrawing e) (voting_params p) (activation_epoch p) (latest_epoch p) (wal_balance p)
        (num_shares p) (pending_shares_withdraw p) (pre_active_withdrawals p) (pending_commission_rate p) (commission_rate p)
        (exchange_rates p) (pending_stake p) (rewards_pool p) (commission p) (commission_receiver p) (governance_authorized p)
        (blocked_commission p)).

(** Updates of one field or two. *)
Definition set_pending (stake shares pre_active : PendingValues) (p : StakingPool) : StakingPool :=
  mk_pool (pool_id p) (state p) (voting_params p) (activation_epoch p) (latest_epoch p) (wal_balance p) (num_shares p)
    shares pre_active (pending_commission_rate p) (commission_rate p) (exchange_rates p) stake
    (rewards_pool p) (commission p) (commission_receiver p) (governance_authorized p) (blocked_commission p).
Definition set_pending_stake v p := set_pending v (pending_shares_withdraw p) (pre_active_withdrawals p) p.
Definition set_shares_withdraw v p := set_pending (pending_stake p) v (pre_active_withdrawals p) p.
Definition set_pre_active v p := set_pending (pending_stake p) (pending_shares_withdraw p) v p.
Definition set_balance (wal shares : Z) (rates : gmap Z PoolExchangeRate) (p : StakingPool) : StakingPool :=
  mk_pool (pool_id p) (state p) (voting_params p) (activation_epoch p) (latest_epoch p) wal shares
    (pending_shares_withdraw p) (pre_active_withdrawals p) (pending_commission_rate p) (commission_rate p) rates (pending_stake p)
    (rewards_pool p) (commission p) (commission_receiver p) (governance_authorized p) (blocked_commission p).
Definition set_rewards (rewards : Z) (p : StakingPool) : StakingPool :=
  mk_pool (pool_id p) (state p) (voting_params p) (activation_epoch p) (latest_epoch p) (wal_balance p) (num_shares p)
    (pending_shares_withdraw p) (pre_active_withdrawals p) (pending_commission_rate p) (commission_rate p) (exchange_rates p)
    (pending_stake p) rewards (commission p) (commission_receiver p) (governance_authorized p) (blocked_commission p).
Definition set_commission (value : Z) (blocked : option Z) (p : StakingPool) : StakingPool :=
  mk_pool (pool_id p) (state p) (voting_params p) (activation_epoch p) (latest_epoch p) (wal_balance p) (num_shares p)
    (pending_shares_withdraw p) (pre_active_withdrawals p) (pending_commission_rate p) (commission_rate p) (exchange_rates p)
    (pending_stake p) (rewards_pool p) value (commission_receiver p) (governance_authorized p) blocked.
Definition set_rate (rate : Z) (pending : PendingValues) (p : StakingPool) : StakingPool :=
  mk_pool (pool_id p) (state p) (voting_params p) (activation_epoch p) (latest_epoch p) (wal_balance p) (num_shares p)
    (pending_shares_withdraw p) (pre_active_withdrawals p) pending rate (exchange_rates p)
    (pending_stake p) (rewards_pool p) (commission p) (commission_receiver p) (governance_authorized p) (blocked_commission p).
Definition set_latest (epoch : Z) (p : StakingPool) : StakingPool :=
  mk_pool (pool_id p) (state p) (voting_params p) (activation_epoch p) epoch (wal_balance p) (num_shares p)
    (pending_shares_withdraw p) (pre_active_withdrawals p) (pending_commission_rate p) (commission_rate p) (exchange_rates p)
    (pending_stake p) (rewards_pool p) (commission p) (commission_receiver p) (governance_authorized p) (blocked_commission p).
Definition set_votes (votes : VotingParams) (p : StakingPool) : StakingPool :=
  mk_pool (pool_id p) (state p) votes (activation_epoch p) (latest_epoch p) (wal_balance p) (num_shares p)
    (pending_shares_withdraw p) (pre_active_withdrawals p) (pending_commission_rate p) (commission_rate p) (exchange_rates p)
    (pending_stake p) (rewards_pool p) (commission p) (commission_receiver p) (governance_authorized p) (blocked_commission p).
Definition set_authorized (receiver governance : Authorized) (p : StakingPool) : StakingPool :=
  mk_pool (pool_id p) (state p) (voting_params p) (activation_epoch p) (latest_epoch p) (wal_balance p) (num_shares p)
    (pending_shares_withdraw p) (pre_active_withdrawals p) (pending_commission_rate p) (commission_rate p) (exchange_rates p)
    (pending_stake p) (rewards_pool p) (commission p) receiver governance (blocked_commission p).

(** The loop of [exchange_rate_at_epoch], with the number of epochs since the
    activation of the pool as fuel. *)
Fixpoint find_rate (fuel : nat) (rates : gmap Z PoolExchangeRate) (activation epoch : Z) : staking PoolExchangeRate :=
  if activation <=? epoch then
    match fuel with
    | O => Panic
    | S fuel =>
      match rates !! epoch with
      | Some rate => Ok rate
      | None => epoch ← move_arith 32 (epoch - 1); find_rate fuel rates activation epoch
      end
    end
  else Ok Flat.

Definition exchange_rate_at_epoch (p : StakingPool) (epoch : Z) : staking PoolExchangeRate :=
  find_rate (Z.to_nat (epoch - activation_epoch p + 1)) (exchange_rates p) (activation_epoch p) epoch.

Definition calculate_rewards (p : StakingPool) (staked_principal activation_epoch withdraw_epoch : Z) : staking Z :=
  rate ← exchange_rate_at_epoch p activation_epoch;
  shares ← convert_to_share_amount rate staked_principal;
  rate ← exchange_rate_at_epoch p withdraw_epoch;
  wal_amount ← convert_to_wal_amount rate shares;
  if staked_principal <=? wal_amount then move_arith 64 (wal_amount - staked_principal) else Ok 0.

(** *** Stake *)

Definition pool_stake (p : StakingPool) (to_stake : Z) (wctx : WalrusContext) : staking (StakingPool * StakedWal) :=
  ensure (is_active p) EPoolIsNotActive;;
  ensure (0 <? to_stake) EZeroStake;;
  activation_epoch ← move_arith 32 (wctx_epoch wctx + if committee_selected wctx then 2 else 1);
  staked_wal ← mint (pool_id p) to_stake activation_epoch;
  pending ← insert_or_add (pending_stake p) activation_epoch to_stake;
  Ok (set_pending_stake pending p, staked_wal).

Definition pool_request_withdraw_stake (p : StakingPool) (staked_wal : StakedWal) (in_current_committee in_next_committee : bool)
    (wctx : WalrusContext) : staking (StakingPool * StakedWal) :=
  ensure (0 <? principal staked_wal) EZeroStake;;
  ensure (sw_node_id staked_wal =? pool_id p) EIncorrectPoolId;;
  ensure (is_staked staked_wal) ENotStaked;;
  early ← can_withdraw_early staked_wal in_next_committee wctx;
  ensure (negb early) EWithdrawDirectly;;
  next ← move_arith 32 (wctx_epoch wctx + 1);
  if sw_activation_epoch staked_wal =? next then
    withdraw_epoch ← move_arith 32 (sw_activation_epoch staked_wal + 1);
    pending ← insert_or_add (pre_active_withdrawals p) withdraw_epoch (principal staked_wal);
    staked_wal ← sw_set_withdrawing staked_wal withdraw_epoch;
    Ok (set_pre_active pending p, staked_wal)
  else
    ensure (sw_activation_epoch staked_wal <=? wctx_epoch wctx) EActivationEpochNotReached;;
    withdraw_epoch ← (if in_next_committee then move_arith 32 (wctx_epoch wctx + 2)
                      else if in_current_committee then move_arith 32 (wctx_epoch wctx + 1) else Err EWithdrawDirectly);
    rate ← exchange_rate_at_epoch p (sw_activation_epoch staked_wal);
    share_amount ← convert_to_share_amount rate (principal staked_wal);
    ensure (negb (share_amount =? 0)) EZeroShares;;
    pending ← insert_or_add (pending_shares_withdraw p) withdraw_epoch share_amount;
    staked_wal ← sw_set_withdrawing staked_wal withdraw_epoch;
    Ok (set_shares_withdraw pending p, staked_wal).

(** The pool after a withdrawal that is not an early one, and the rewards due. *)
Definition withdraw_rewards (p : StakingPool) (staked_wal : StakedWal) (in_current_committee in_next_committee : bool)
    (wctx : WalrusContext) : staking (StakingPool * Z) :=
  let activation_epoch := sw_activation_epoch staked_wal in
  if negb in_current_committee && negb in_next_committee && is_staked staked_wal then
    if wctx_epoch wctx <? activation_epoch then
      pending ← pending_reduce (pending_stake p) activation_epoch (principal staked_wal);
      Ok (set_pending_stake pending p, 0)
    else
      rate ← exchange_rate_at_epoch p activation_epoch;
      share_amount ← convert_to_share_amount rate (principal staked_wal);
      pending ← insert_or_add (pending_shares_withdraw p) (wctx_epoch wctx) share_amount;
      let p := set_shares_withdraw pending p in
      rewards ← calculate_rewards p (principal staked_wal) activation_epoch (wctx_epoch wctx);
      Ok (p, rewards)
  else
    ensure (sw_is_withdrawing staked_wal) EPoolNotWithdrawing;;
    w ← withdraw_epoch staked_wal;
    ensure (w <=? wctx_epoch wctx) EWithdrawEpochNotReached;;
    ensure (activation_epoch <=? wctx_epoch wctx) EActivationEpochNotReached;;
    rewards ← calculate_rewards p (principal staked_wal) activation_epoch w;
    Ok (p, rewards).

Definition pool_withdraw_stake (p : StakingPool) (staked_wal : StakedWal) (in_current_committee in_next_committee : bool)
    (wctx : WalrusContext) : staking (StakingPool * Z) :=
  ensure (0 <? principal staked_wal) EZeroStake;;
  ensure (sw_node_id staked_wal =? pool_id p) EIncorrectPoolId;;
  early ← can_withdraw_early staked_wal in_next_committee wctx;
  if early : bool then
    pending ← pending_reduce (pending_stake p) (sw_activation_epoch staked_wal) (principal staked_wal);
    Ok (set_pending_stake pending p, principal staked_wal)
  else
    '(p, rewards_amount) ← withdraw_rewards p staked_wal in_current_committee in_next_committee wctx;
    let rewards_amount := Z.min rewards_amount (rewards_pool p) in
    to_withdraw ← move_arith 64 (rewards_amount + principal staked_wal);
    Ok (set_rewards (rewards_pool p - rewards_amount) p, to_withdraw).

(** *** Epochs *)

Definition increase_blocked_commission (blocked : option Z) (amount : Z) : staking (option Z) :=
  match blocked with
  | Some current => b ← move_arith 64 (current + amount); Ok (Some b)
  | None => Ok (Some amount)
  end.

Definition add_commission (p : StakingPool) (value : Z) (block : bool) : staking StakingPool :=
  total ← move_arith 64 (commission p + value);
  blocked ← (if block then increase_blocked_commission (blocked_commission p) value else Ok (blocked_commission p));
  Ok (set_commission total blocked p).

(** The shares of the stakes that were withdrawn before they became active, each
    at the rate of the epoch in which it did. *)
Definition pre_active_shares (p : StakingPool) (current_epoch : Z) : staking Z :=
  foldM (fun shares epoch =>
    if epoch <=? current_epoch then
      epoch_value ← vec_map_get epoch (pre_active_withdrawals p);
      activation_epoch ← move_arith 32 (epoch - 1);
      rate ← exchange_rate_at_epoch p activation_epoch;
      shares_for_epoch ← convert_to_share_amount rate epoch_value;
      move_arith 64 (shares + shares_for_epoch)
    else Ok shares) 0 (pre_active_withdrawals p).*1.

Definition process_pending_stake (p : StakingPool) (wctx : WalrusContext) : staking StakingPool :=
  let current_epoch := wctx_epoch wctx in
  exchange_rate ← rate_new (wal_balance p) (num_shares p);
  assert (match exchange_rates p !! current_epoch with Some _ => false | None => true end);;
  let p := set_balance (wal_balance p) (num_shares p) (<[current_epoch := exchange_rate]> (exchange_rates p)) p in
  '(added, pending) ← flush (pending_stake p) current_epoch;
  wal ← move_arith 64 (wal_balance p + added);
  let p := set_balance wal (num_shares p) (exchange_rates p) (set_pending_stake pending p) in
  pre_active_shares_withdraw ← pre_active_shares p current_epoch;
  '(_, pre_active) ← flush (pre_active_withdrawals p) current_epoch;
  let p := set_pre_active pre_active p in
  '(shares_withdraw, pending) ← flush (pending_shares_withdraw p) current_epoch;
  let p := set_shares_withdraw pending p in
  shares ← move_arith 64 (shares_withdraw + pre_active_shares_withdraw);
  pending_withdrawal ← convert_to_wal_amount exchange_rate shares;
  ensure (pending_withdrawal <=? wal_balance p) ECalculationError;;
  wal ← move_arith 64 (wal_balance p - pending_withdrawal);
  shares ← convert_to_share_amount exchange_rate wal;
  Ok (set_balance wal shares (exchange_rates p) p).

Definition pool_advance_epoch (p : StakingPool) (rewards : Z) (wctx : WalrusContext) : staking StakingPool :=
  let current_epoch := wctx_epoch wctx in
  ensure (latest_epoch p <? current_epoch) EPoolAlreadyUpdated;;
  ensure ((rewards =? 0) || (0 <? wal_balance p)) EIncorrectEpochAdvance;;
  x ← move_arith 128 (rewards * commission_rate p);
  commission_value ← move_arith 64 (x / N_BASIS_POINTS);
  rewards ← move_arith 64 (rewards - commission_value);
  p ← add_commission p commission_value true;
  rate ← latest_value_at (pending_commission_rate p) current_epoch;
  rate ← (match rate with Some r => move_arith 16 r | None => Ok (commission_rate p) end);
  '(_, pending) ← flush (pending_commission_rate p) current_epoch;
  let p := set_rate rate pending p in
  pool_rewards ← move_arith 64 (rewards_pool p + rewards);
  wal ← move_arith 64 (wal_balance p + rewards);
  let p := set_latest current_epoch (set_balance wal (num_shares p) (exchange_rates p) (set_rewards pool_rewards p)) in
  process_pending_stake p wctx.

Definition wal_balance_at_epoch (p : StakingPool) (epoch : Z) : staking Z :=
  exchange_rate ← rate_new (wal_balance p) (num_shares p);
  pre_active_shares_withdraw ← pre_active_shares p epoch;
  shares_withdraw ← value_at (pending_shares_withdraw p) epoch;
  shares ← move_arith 64 (shares_withdraw + pre_active_shares_withdraw);
  pending_withdrawal ← convert_to_wal_amount exchange_rate shares;
  added ← value_at (pending_stake p) epoch;
  total ← move_arith 64 (wal_balance p + added);
  move_arith 64 (total - pending_withdrawal).

(** *** Commission, votes and authorization *)

Definition extract_commission_to_burn (p : StakingPool) : StakingPool * Z := (set_commission 0 None p, commission p).
Definition clear_blocked_commission (p : StakingPool) : StakingPool := set_commission (commission p) None p.

Definition pool_collect_commission (p : StakingPool) (auth : Authenticated) : staking (StakingPool * Z) :=
  ensure (matches auth (commission_receiver p)) EAuthorizationFailure;;
  let blocked := default 0 (blocked_commission p) in
  let total := commission p in
  if total <=? blocked then Ok (p, 0)
  else collectable ← move_arith 64 (total - blocked); Ok (set_commission (total - collectable) (blocked_commission p) p, collectable).

Definition set_next_commission (p : StakingPool) (rate : Z) (wctx : WalrusContext) : staking StakingPool :=
  ensure (rate <=? N_BASIS_POINTS) EIncorrectCommissionRate;;
  e ← move_arith 32 (wctx_epoch wctx + 2);
  pending ← insert_or_replace (pending_commission_rate p) e rate;
  Ok (set_rate (commission_rate p) pending p).

Definition set_next_storage_price (p : StakingPool) (price : Z) : StakingPool :=
  set_votes (mk_votes price (write_price (voting_params p)) (node_capacity (voting_params p))) p.
Definition set_next_write_price (p : StakingPool) (price : Z) : StakingPool :=
  set_votes (mk_votes (storage_price (voting_params p)) price (node_capacity (voting_params p))) p.
Definition set_next_node_capacity (p : StakingPool) (capacity : Z) : StakingPool :=
  set_votes (mk_votes (storage_price (voting_params p)) (write_price (voting_params p)) capacity) p.

Definition set_commission_receiver (p : StakingPool) (auth : Authenticated) (receiver : Authorized) : staking StakingPool :=
  ensure (matches auth (commission_receiver p)) EAuthorizationFailure;;
  Ok (set_authorized receiver (governance_authorized p) p).
Definition set_governance_authorized (p : StakingPool) (auth : Authenticated) (authorized : Authorized) : staking StakingPool :=
  ensure (matches auth (governance_authorized p)) EAuthorizationFailure;;
  Ok (set_authorized (commission_receiver p) authorized p).

Definition pool_is_empty (p : StakingPool) : bool :=
  (rewards_pool p =? 0) && (num_shares p =? 0) && (commission p =? 0) && (wal_balance p =? 0) &&
  forallb (fun e => snd e =? 0) (pending_stake p).

Definition destroy_empty (p : StakingPool) : staking unit := ensure (pool_is_empty p) EPoolNotEmpty.
