(* ===== verification/StakingContract.v ===== *)
(** * The staking contract with its pools

    Models the operations of contracts/walrus/sources/staking/staking_inner.move
    that concern staking pools, the interface of staking.move, and slashing.move.
    The state of [Staking] is joined with the pools, the [StakedWal] objects of the
    users, the capabilities of the nodes and the votes on slashing.  A [StakingCall]
    is a transaction that calls one function; [staking_execute] returns the new state
    and the WAL that was paid in (negative if it was paid out).  The keys of the
    nodes are left out. *)

From stdpp Require Import functions.
From S2P Require Import Prelude Redstuff MoveStd ApportionmentQueue Apportionment Committee Staking StakingPool.

(** ** Votes

    A [PriorityQueue] of Sui: [pop_max] takes an entry with the largest value. *)

Abbreviation VoteQueue := (list (Z * Z)) (only parsing).

Fixpoint max_entry (best : Z * Z) (q : VoteQueue) : Z * Z :=
  match q with [] => best | e :: q => max_entry (if fst best <? fst e then e else best) q end.

Definition vote_pop_max (q : VoteQueue) : staking ((Z * Z) * VoteQueue) :=
  match q with
  | [] => Err EPopFromEmptyHeap
  | e :: q' =>
    let best := max_entry e q' in
    Ok (best, take (default O (find_index (fun x => bool_decide (x = best)) q)) q ++
              drop (S (default O (find_index (fun x => bool_decide (x = best)) q))) q)
  end.

Fixpoint quorum_above_loop (fuel : nat) (sum_weight n_shards : Z) (q : VoteQueue) : staking Z :=
  match fuel with
  | O => Panic
  | S fuel =>
    '((value, weight), q) ← vote_pop_max q;
    sum_weight ← move_arith 64 (sum_weight + weight);
    quorum ← is_quorum_for_n_shards sum_weight n_shards;
    if quorum : bool then Ok value else quorum_above_loop fuel sum_weight n_shards q
  end.

(** Every iteration takes an entry: their number plus one is enough. *)
Definition quorum_above (q : VoteQueue) (n_shards : Z) : staking Z := quorum_above_loop (S (length q)) 0 n_shards q.

Fixpoint quorum_below_loop (fuel : nat) (sum_weight n_shards : Z) (q : VoteQueue) : staking Z :=
  match fuel with
  | O => Panic
  | S fuel =>
    '((value, weight), q) ← vote_pop_max q;
    sum_weight ← move_arith 64 (sum_weight - weight);
    quorum ← is_quorum_for_n_shards sum_weight n_shards;
    if negb quorum then Ok value else quorum_below_loop fuel sum_weight n_shards q
  end.

Definition quorum_below (q : VoteQueue) (n_shards : Z) : staking Z := quorum_below_loop (S (length q)) n_shards n_shards q.

(** ** The state

    [sync_done] is the epoch that the capability of a node has confirmed, 0 for a new one. *)

Record SlashingProposal := mk_proposal { proposal_epoch : Z; voting_weight : Z; voters : list ID }.

Record StakingContract := mk_contract {
  staking_inner : StakingInnerV1;
  pools : gmap ID StakingPool;
  next_capacity : option Z;
  staked_wals : gmap ID StakedWal;
  sync_done : ID -> Z;
  slashing_candidates : gmap ID SlashingProposal;
}.

Definition with_inner (s : StakingInnerV1) (c : StakingContract) : StakingContract :=
  mk_contract s (pools c) (next_capacity c) (staked_wals c) (sync_done c) (slashing_candidates c).
Definition with_pools (ps : gmap ID StakingPool) (c : StakingContract) : StakingContract :=
  mk_contract (staking_inner c) ps (next_capacity c) (staked_wals c) (sync_done c) (slashing_candidates c).
Definition with_wals (m : gmap ID StakedWal) (c : StakingContract) : StakingContract :=
  mk_contract (staking_inner c) (pools c) (next_capacity c) m (sync_done c) (slashing_candidates c).
Definition with_pool (id : ID) (p : StakingPool) (c : StakingContract) : StakingContract := with_pools (<[id := p]> (pools c)) c.
Definition with_slashing (m : gmap ID SlashingProposal) (c : StakingContract) : StakingContract :=
  mk_contract (staking_inner c) (pools c) (next_capacity c) (staked_wals c) (sync_done c) m.

Definition contract_new (epoch_zero_duration epoch_duration n_shards now : Z) : staking StakingContract :=
  s ← staking_new epoch_zero_duration epoch_duration n_shards now;
  Ok (mk_contract s ∅ None ∅ (fun _ => 0) ∅).

Definition new_walrus_context (s : StakingInnerV1) : WalrusContext :=
  mk_wctx (epoch s) (match next_committee s with Some _ => true | None => false end).

Definition in_committee (id : ID) (c : Committee) : bool := contains id (inner c).
Definition in_next (id : ID) (s : StakingInnerV1) : bool :=
  match next_committee s with Some c => in_committee id c | None => false end.

(** [self.pools[id]]. *)
Definition get_pool (c : StakingContract) (id : ID) : staking StakingPool := expect (pools c !! id).

(** The balance that counts for the next vote, and the update of the active set
    with it, the last step of the operations on stake. *)
Definition next_balance (s : StakingInnerV1) (p : StakingPool) : staking Z :=
  e ← move_arith 32 (epoch s + match epoch_state s with NextParamsSelected _ => 2 | _ => 1 end);
  wal_balance_at_epoch p e.

Definition update_active_set (c : StakingContract) (id : ID) (p : StakingPool) : staking StakingContract :=
  balance ← next_balance (staking_inner c) p;
  s ← try_join_active_set (staking_inner c) id balance;
  Ok (with_inner s c).

(** ** Stake *)

Definition stake_with_pool (c : StakingContract) (to_stake : Z) (id : ID) (object_id : ID) : staking StakingContract :=
  p ← get_pool c id;
  '(p, staked_wal) ← pool_stake p to_stake (new_walrus_context (staking_inner c));
  update_active_set (with_wals (<[object_id := staked_wal]> (staked_wals c)) (with_pool id p c)) id p.

Definition request_withdraw_stake (c : StakingContract) (object_id : ID) : staking StakingContract :=
  staked_wal ← ok_or (staked_wals c !! object_id) EStakeNotFound;
  let id := sw_node_id staked_wal in
  p ← get_pool c id;
  '(p, staked_wal) ← pool_request_withdraw_stake p staked_wal (in_committee id (committee (staking_inner c)))
    (in_next id (staking_inner c)) (new_walrus_context (staking_inner c));
  update_active_set (with_wals (<[object_id := staked_wal]> (staked_wals c)) (with_pool id p c)) id p.

Definition withdraw_stake (c : StakingContract) (object_id : ID) : staking (StakingContract * Z) :=
  staked_wal ← ok_or (staked_wals c !! object_id) EStakeNotFound;
  let id := sw_node_id staked_wal in
  p ← get_pool c id;
  '(p, wal) ← pool_withdraw_stake p staked_wal (in_committee id (committee (staking_inner c)))
    (in_next id (staking_inner c)) (new_walrus_context (staking_inner c));
  c ← update_active_set (with_wals (delete object_id (staked_wals c)) (with_pool id p c)) id p;
  Ok (c, wal).

(** ** Epochs *)

Definition clear_previous_committee_blocked_commission (s : StakingInnerV1) (ps : gmap ID StakingPool) : gmap ID StakingPool :=
  foldl (fun ps id => match ps !! id with Some p => <[id := clear_blocked_commission p]> ps | None => ps end) ps
    (inner (previous_committee s)).*1.

(** The votes on the capacity, in [select_committee_and_calculate_votes]. *)
Definition capacity_votes (c : StakingContract) (n_shards : Z) (cmt : Committee) : staking VoteQueue :=
  foldM (fun votes e =>
    p ← get_pool c (fst e);
    x ← move_arith 128 (node_capacity (voting_params p) * n_shards);
    vote ← move_div x (len (snd e));
    Ok (votes ++ [(Z.min vote u64_MAX, len (snd e))])) [] (inner cmt).

Definition contract_voting_end (c : StakingContract) (now : Z) : staking StakingContract :=
  let c := with_pools (clear_previous_committee_blocked_commission (staking_inner c) (pools c)) c in
  s ← voting_end (staking_inner c) now;
  next ← expect (next_committee s);
  votes ← capacity_votes c (n_shards s) next;
  capacity ← quorum_above votes (n_shards s);
  Ok (mk_contract s (pools c) (Some capacity) (staked_wals c) (sync_done c) (slashing_candidates c)).

Definition advance_pool (wctx : WalrusContext) (st : gmap ID StakingPool * ActiveSet) (node : ID * Z) :
    staking (gmap ID StakingPool * ActiveSet) :=
  let '(ps, set) := st in
  let '(id, reward) := node in
  p ← expect (ps !! id);
  p ← pool_advance_epoch p reward wctx;
  e ← move_arith 32 (wctx_epoch wctx + 1);
  balance ← wal_balance_at_epoch p e;
  '(set, _) ← insert_or_update set id balance;
  Ok (<[id := p]> ps, set).

Definition contract_advance_epoch (c : StakingContract) (rewards : VecMap Z) : staking StakingContract :=
  let s := staking_inner c in
  next ← ok_or (next_committee s) EWrongEpochState;
  epoch' ← move_arith 32 (epoch s + 1);
  let wctx := mk_wctx epoch' false in
  let new_ids := snd (committee_diff (committee s) next) in
  st ← foldM (advance_pool wctx) (pools c, active_set s) rewards;
  '(ps, set) ← foldM (advance_pool wctx) st ((fun id => (id, 0)) <$> new_ids);
  let s := mk_staking (n_shards s) (epoch_duration s) (first_epoch_start s) epoch' set None next (committee s) (EpochChangeSync 0) in
  Ok (with_inner s (with_pools ps c)).

Definition contract_initiate_epoch_change (c : StakingContract) (now : Z) (rewards : VecMap Z) : staking StakingContract :=
  let s := staking_inner c in
  match epoch_state s with
  | NextParamsSelected last_epoch_change =>
    (if epoch s =? 0 then ensure (first_epoch_start s <=? now) EWrongEpochState
     else t ← move_arith 64 (last_epoch_change + epoch_duration s); ensure (t <=? now) EWrongEpochState);;
    contract_advance_epoch c rewards
  | _ => Err EWrongEpochState
  end.

Definition contract_epoch_sync_done (c : StakingContract) (id : ID) (e now : Z) : staking StakingContract :=
  _ ← ok_or (pools c !! id) EStakeNotFound;
  '(s, cap) ← epoch_sync_done (staking_inner c) (mk_cap id (sync_done c id)) e now;
  Ok (mk_contract s (pools c) (next_capacity c) (staked_wals c) (<[id := last_epoch_sync_done cap]> (sync_done c))
        (slashing_candidates c)).

(** The prices of storage and of writes that a quorum of the shards accepts. *)
Definition recalculate_prices (c : StakingContract) : staking (Z * Z) :=
  let s := staking_inner c in
  if (length (inner (committee s)) =? 0)%nat then Ok (u64_MAX, u64_MAX)
  else
    votes ← mapM_outcome (fun e => p ← get_pool c (fst e); Ok (voting_params p, len (snd e))) (inner (committee s));
    storage ← quorum_below ((fun v => (storage_price (fst v), snd v)) <$> votes) (n_shards s);
    write ← quorum_below ((fun v => (write_price (fst v), snd v)) <$> votes) (n_shards s);
    Ok (storage, write).

(** ** Commission *)

Definition add_commission_to_pools (c : StakingContract) (ids : list ID) (commissions : list Z) : staking StakingContract :=
  assert (length ids =? length commissions)%nat;;
  let block := match epoch_state (staking_inner c) with NextParamsSelected _ => false | _ => true end in
  ps ← foldM (fun ps e => p ← expect (ps !! fst e); p ← add_commission p (snd e) block; Ok (<[fst e := p]> ps))
         (pools c) (zip ids commissions);
  Ok (with_pools ps c).

Definition burn_commission (c : StakingContract) (id : ID) : staking (StakingContract * Z) :=
  p ← get_pool c id;
  let '(p, burnt) := extract_commission_to_burn p in
  Ok (with_pool id p c, burnt).

(** ** Slashing *)

Definition get_current_node_weight (s : StakingInnerV1) (id : ID) : staking Z :=
  shards ← ok_or (try_get id (inner (committee s))) ENotInCommittee;
  ensure (len shards <=? u16_MAX) EInvalidNodeWeight;;
  Ok (len shards).

Definition add_vote (proposal : SlashingProposal) (id : ID) (weight : Z) : staking SlashingProposal :=
  ensure (bool_decide (id ∉ voters proposal)) EDuplicateVote;;
  w ← move_arith 16 (voting_weight proposal + weight);
  Ok (mk_proposal (proposal_epoch proposal) w (voters proposal ++ [id])).

Definition vote_for_slashing (c : StakingContract) (auth : Authenticated) (voter candidate : ID) : staking StakingContract :=
  p ← get_pool c voter;
  ensure (matches auth (governance_authorized p)) ENotAuthorized;;
  weight ← get_current_node_weight (staking_inner c) voter;
  let epoch := epoch (staking_inner c) in
  let proposal :=
    match slashing_candidates c !! candidate with
    | Some proposal => if proposal_epoch proposal =? epoch then proposal else mk_proposal epoch 0 []
    | None => mk_proposal epoch 0 []
    end in
  proposal ← add_vote proposal voter weight;
  Ok (with_slashing (<[candidate := proposal]> (slashing_candidates c)) c).

Definition execute_slashing (c : StakingContract) (candidate : ID) : staking (StakingContract * Z) :=
  proposal ← ok_or (slashing_candidates c !! candidate) ENoProposalForNode;
  let c := with_slashing (delete candidate (slashing_candidates c)) c in
  ensure (proposal_epoch proposal =? epoch (staking_inner c)) EWrongEpoch;;
  quorum ← is_quorum_for_n_shards (voting_weight proposal) (n_shards (staking_inner c));
  ensure quorum ENotEnoughVotes;;
  burn_commission c candidate.

Definition cleanup_slashing_proposals (c : StakingContract) (ids : list ID) : StakingContract :=
  with_slashing (foldl (fun m id =>
    match m !! id with
    | Some proposal => if proposal_epoch proposal <? epoch (staking_inner c) then delete id m else m
    | None => m
    end) (slashing_candidates c) ids) c.

(** ** Calls *)

(** The capability [cap] of a node may collect its commission. *)
Definition register_candidate (c : StakingContract) (id cap sender : ID) (name network_address network_public_key : list byte)
    (valid_proof : bool) (commission_rate storage_price write_price node_capacity : Z) : staking StakingContract :=
  p ← pool_new id name network_address network_public_key valid_proof commission_rate storage_price write_price node_capacity sender
        (new_walrus_context (staking_inner c));
  p ← set_commission_receiver p (Sender sender) (ObjectID_ cap);
  Ok (with_pool id p c).

Inductive StakingCall :=
| RegisterCandidate (id cap sender : ID) (name network_address network_public_key : list byte) (valid_proof : bool)
    (commission_rate storage_price write_price node_capacity : Z)
| StakeWithPool (to_stake : Z) (id object_id : ID)
| RequestWithdrawStake (object_id : ID)
| WithdrawStake (object_id : ID)
| SplitStake (object_id : ID) (amount : Z) (new_id : ID)
| JoinStake (object_id other : ID)
| TryJoinActiveSet (id : ID)
| SetNextCommission (id : ID) (rate : Z)
| SetStoragePriceVote (id : ID) (price : Z)
| SetWritePriceVote (id : ID) (price : Z)
| SetNodeCapacityVote (id : ID) (capacity : Z)
| SetCommissionReceiver (id : ID) (auth : Authenticated) (receiver : Authorized)
| SetGovernanceAuthorized (id : ID) (auth : Authenticated) (authorized : Authorized)
| CollectCommission (id : ID) (auth : Authenticated)
| AddCommissionToPools (ids : list ID) (commissions : list Z)
| VoteForSlashing (auth : Authenticated) (voter candidate : ID)
| ExecuteSlashing (candidate : ID)
| CleanupSlashing (ids : list ID)
| VotingEnd (now : Z)
| InitiateEpochChange (now : Z) (rewards : VecMap Z)
| EpochSyncDone (id : ID) (e now : Z).

(** An operation on one pool that moves no WAL. *)
Definition on_pool (c : StakingContract) (id : ID) (f : StakingPool -> staking StakingPool) : staking (StakingContract * Z) :=
  p ← get_pool c id; p ← f p; Ok (with_pool id p c, 0).

Definition staking_execute (call : StakingCall) (c : StakingContract) : staking (StakingContract * Z) :=
  match call with
  | RegisterCandidate id cap sender name address key valid rate storage write capacity =>
    c ← register_candidate c id cap sender name address key valid rate storage write capacity; Ok (c, 0)
  | StakeWithPool to_stake id object_id => c ← stake_with_pool c to_stake id object_id; Ok (c, to_stake)
  | RequestWithdrawStake object_id => c ← request_withdraw_stake c object_id; Ok (c, 0)
  | WithdrawStake object_id => '(c, wal) ← withdraw_stake c object_id; Ok (c, - wal)
  | SplitStake object_id amount new_id =>
    sw ← ok_or (staked_wals c !! object_id) EStakeNotFound;
    '(sw, new) ← sw_split sw amount;
    Ok (with_wals (<[new_id := new]> (<[object_id := sw]> (staked_wals c))) c, 0)
  | JoinStake object_id other =>
    sw ← ok_or (staked_wals c !! object_id) EStakeNotFound;
    sw' ← ok_or (delete object_id (staked_wals c) !! other) EStakeNotFound;
    sw ← sw_join sw sw';
    Ok (with_wals (delete other (<[object_id := sw]> (staked_wals c))) c, 0)
  | TryJoinActiveSet id => p ← get_pool c id; c ← update_active_set c id p; Ok (c, 0)
  | SetNextCommission id rate => on_pool c id (fun p => set_next_commission p rate (new_walrus_context (staking_inner c)))
  | SetStoragePriceVote id price => on_pool c id (fun p => Ok (set_next_storage_price p price))
  | SetWritePriceVote id price => on_pool c id (fun p => Ok (set_next_write_price p price))
  | SetNodeCapacityVote id capacity => on_pool c id (fun p => Ok (set_next_node_capacity p capacity))
  | SetCommissionReceiver id auth receiver => on_pool c id (fun p => set_commission_receiver p auth receiver)
  | SetGovernanceAuthorized id auth authorized => on_pool c id (fun p => set_governance_authorized p auth authorized)
  | CollectCommission id auth =>
    p ← get_pool c id; '(p, wal) ← pool_collect_commission p auth; Ok (with_pool id p c, - wal)
  | AddCommissionToPools ids commissions => c ← add_commission_to_pools c ids commissions; Ok (c, zsum commissions)
  | VoteForSlashing auth voter candidate => c ← vote_for_slashing c auth voter candidate; Ok (c, 0)
  | ExecuteSlashing candidate => '(c, burnt) ← execute_slashing c candidate; Ok (c, - burnt)
  | CleanupSlashing ids => Ok (cleanup_slashing_proposals c ids, 0)
  | VotingEnd now => c ← contract_voting_end c now; Ok (c, 0)
  | InitiateEpochChange now rewards => c ← contract_initiate_epoch_change c now rewards; Ok (c, zsum rewards.*2)
  | EpochSyncDone id e now => c ← contract_epoch_sync_done c id e now; Ok (c, 0)
  end.
