(* ===== verification/StakingPoolProps.v ===== *)
(** * The shares of a staking pool

    [pool_inv] is the invariant of the pool of a node that is not out of the
    committee for a whole epoch once it has been in one: the shares of the active
    stakes and of the pending withdrawals are covered by the shares of the pool.
    The operations on stake keep it, and the epoch change of such a pool does not
    abort. *)

From S2P Require Import Prelude Redstuff MoveStd ApportionmentQueue Apportionment Committee Staking StakingPool.

(** Computes the fields of an updated pool. *)
Ltac pool_simpl :=
  cbn [pool_id state voting_params activation_epoch latest_epoch wal_balance num_shares pending_shares_withdraw pre_active_withdrawals
       pending_commission_rate commission_rate exchange_rates pending_stake rewards_pool commission commission_receiver
       governance_authorized blocked_commission set_pending set_pending_stake set_shares_withdraw set_pre_active set_balance set_rewards
       set_commission set_rate set_latest set_votes set_authorized].
Ltac pool_simpl_all :=
  cbn [pool_id state voting_params activation_epoch latest_epoch wal_balance num_shares pending_shares_withdraw pre_active_withdrawals
       pending_commission_rate commission_rate exchange_rates pending_stake rewards_pool commission commission_receiver
       governance_authorized blocked_commission set_pending set_pending_stake set_shares_withdraw set_pre_active set_balance set_rewards
       set_commission set_rate set_latest set_votes set_authorized] in *.

(** ** Pending values *)

(** The sum of the values whose epoch satisfies [f]. *)
Definition sumif (f : Z -> bool) (m : PendingValues) : Z := zsum ((fun x => if f x.1 then x.2 else 0) <$> m).
Abbreviation upto e := (sumif (fun x => x <=? e)).
Abbreviation amount e := (sumif (fun x => x =? e)).
Abbreviation total := (sumif (fun _ => true)).

(** The entries after an epoch. *)
Abbreviation after e := (filter (fun x : Z * Z => e < x.1)).

Record pending_ok (m : PendingValues) : Prop := {
  pv_keys : NoDup m.*1;
  pv_values : Forall (fun v => 0 <= v < 2 ^ 64) m.*2;
}.

Section sumif.
Implicit Types (f g : Z -> bool) (m : PendingValues).

Lemma sumif_cons f k v m : sumif f ((k, v) :: m) = (if f k then v else 0) + sumif f m.
Proof. done. Qed.

Lemma sumif_app f m1 m2 : sumif f (m1 ++ m2) = sumif f m1 + sumif f m2.
Proof. unfold sumif. by rewrite fmap_app, zsum_app. Qed.

Lemma pending_cons k v m : pending_ok ((k, v) :: m) -> 0 <= v < 2 ^ 64 /\ k ∉ m.*1 /\ pending_ok m.
Proof. intros [[Hk Hn]%NoDup_cons [Hx Hv]%Forall_cons]. done. Qed.

Lemma pending_nil : pending_ok [].
Proof. split; constructor. Qed.

Lemma sumif_nonneg f m : pending_ok m -> 0 <= sumif f m.
Proof.
  induction m as [|[k v] m IH]; [done|]. intros (Hv & _ & Hm)%pending_cons. rewrite sumif_cons. specialize (IH Hm). destruct (f k); lia.
Qed.

Lemma sumif_mono f g m : pending_ok m -> (forall x, f x = true -> g x = true) -> sumif f m <= sumif g m.
Proof.
  intros Hm Hfg. induction m as [|[k v] m IH]; [done|]. apply pending_cons in Hm as (Hv & _ & Hm). rewrite !sumif_cons. specialize (IH Hm).
  specialize (Hfg k). destruct (f k), (g k); lia.
Qed.

Lemma sumif_ext f g m : (forall x, f x = g x) -> sumif f m = sumif g m.
Proof. intros Hfg. unfold sumif. f_equal. apply list_fmap_ext. intros ? [k v] _. by rewrite Hfg. Qed.

(** The values up to the next epoch. *)
Lemma upto_next e m : upto (e + 1) m = upto e m + amount (e + 1) m.
Proof.
  induction m as [|[k v] m IH]; [done|]. rewrite !sumif_cons, IH.
  destruct (Z.leb_spec k (e + 1)), (Z.leb_spec k e), (Z.eqb_spec k (e + 1)); lia.
Qed.

Lemma sumif_absent f k m : k ∉ m.*1 -> (forall x, f x = true -> x = k) -> sumif f m = 0.
Proof.
  intros Hk Hf. induction m as [|[x v] m IH]; [done|]. cbn in Hk. apply not_elem_of_cons in Hk as [Hx Hk]. rewrite sumif_cons, IH by done.
  destruct (f x) eqn:Hfx; [|done]. by rewrite (Hf x Hfx) in Hx.
Qed.

Lemma amount_elem k v m : NoDup m.*1 -> (k, v) ∈ m -> amount k m = v.
Proof.
  intros Hn Hin. induction m as [|[x w] m IH]; [by apply elem_of_nil in Hin|]. cbn in Hn. apply NoDup_cons in Hn as [Hx Hn].
  rewrite sumif_cons. apply elem_of_cons in Hin as [[= <- <-]|Hin].
  - rewrite Z.eqb_refl, (sumif_absent _ k); [lia|done|]. intros y ?%Z.eqb_eq. done.
  - rewrite IH by done. destruct (Z.eqb_spec x k) as [->|]; [|done]. destruct Hx. by eapply elem_of_map_keys.
Qed.

Lemma contains_false {V} k (m : VecMap V) : contains k m = false <-> k ∉ m.*1.
Proof. unfold contains. rewrite <- get_idx_opt_None. destruct (get_idx_opt k m); naive_solver. Qed.

(** *** Operations *)

Lemma vec_map_set_ok k v m : pending_ok m -> contains k m = true -> 0 <= v < 2 ^ 64 -> exists m', vec_map_set k v m = Ok m' /\ pending_ok m' /\
  forall f, sumif f m' = sumif f m + if f k then v - amount k m else 0.
Proof.
  intros [Hn Hp] Hc Hv. unfold contains in Hc. unfold vec_map_set. destruct (get_idx_opt k m) as [i|] eqn:Hi; [|done].
  apply get_idx_opt_Some in Hi as (w & Hw). cbn [expect mbind outcome_bind]. eexists. split; [done|]. split.
  - split; [rewrite list_fmap_insert, list_insert_id; [done|by rewrite list_lookup_fmap, Hw]|].
    rewrite list_fmap_insert. by apply Forall_insert.
  - intros f. rewrite (amount_elem k w) by (done || by eapply list_elem_of_lookup_2). unfold sumif. rewrite (zsum_replace _ m i (k, v) _ Hw). cbn.
    destruct (f k); lia.
Qed.

Lemma vec_map_get_ok k m : NoDup m.*1 -> contains k m = true -> vec_map_get k m = Ok (amount k m).
Proof.
  intros Hn Hc. unfold vec_map_get. destruct (try_get k m) as [v|] eqn:Hv.
  - apply try_get_Some in Hv; [|done]. by rewrite (amount_elem k v).
  - apply try_get_None, contains_false in Hv. congruence.
Qed.

Lemma absent_amount k m : contains k m = false -> amount k m = 0.
Proof. intros Hk%contains_false. apply (sumif_absent _ k); [done|]. by intros x ?%Z.eqb_eq. Qed.

(** [insert_or_add] succeeds if the value fits. *)
Lemma insert_or_add_ok m k v : pending_ok m -> 0 <= v < 2 ^ 64 ->
  match insert_or_add m k v with
  | Ok m' => pending_ok m' /\ forall f, sumif f m' = sumif f m + if f k then v else 0
  | Err _ => False
  | Panic => 2 ^ 64 <= amount k m + v
  end.
Proof.
  intros Hm Hv. pose proof (sumif_nonneg (fun x => x =? k) m Hm) as H0. unfold insert_or_add. destruct (contains k m) eqn:Hc; cbn [negb].
  - rewrite vec_map_get_ok by (done || apply Hm). cbn [mbind outcome_bind]. destruct (Z.ltb_spec (amount k m + v) (2 ^ 64)) as [Hlt|Hge].
    + rewrite move_arith_in_range by lia. cbn [mbind outcome_bind].
      destruct (vec_map_set_ok k (amount k m + v) m Hm Hc ltac:(lia)) as (m' & -> & Hm' & Hf). split; [done|]. intros f. rewrite Hf. destruct (f k); lia.
    + rewrite move_arith_overflow by lia. done.
  - rewrite vec_map_insert_ok by (by apply contains_false). split.
    + destruct Hm as [Hn Hp]. apply contains_false in Hc. split; rewrite fmap_app.
      * apply NoDup_app. split_and!; [done| |by apply NoDup_singleton]. intros x Hx ->%list_elem_of_singleton. done.
      * apply Forall_app. split; [done|]. by constructor.
    + intros f. rewrite sumif_app, sumif_cons. cbn. lia.
Qed.

Lemma pending_reduce_ok m k v : pending_ok m -> 0 <= v -> contains k m = true -> v <= amount k m < 2 ^ 64 -> exists m',
  pending_reduce m k v = Ok m' /\ pending_ok m' /\ forall f, sumif f m' = sumif f m - if f k then v else 0.
Proof.
  intros Hm Hv Hc [Hle Hlt]. unfold pending_reduce. rewrite Hc. cbn [negb]. rewrite vec_map_get_ok by (done || apply Hm). cbn [mbind outcome_bind].
  rewrite (proj2 (Z.leb_le _ _)) by done. cbn [ensure mbind outcome_bind]. rewrite move_arith_in_range by lia. cbn [mbind outcome_bind].
  destruct (vec_map_set_ok k (amount k m - v) m Hm Hc ltac:(lia)) as (m' & -> & Hm' & Hf). exists m'. split_and!; [done|done|].
  intros f. rewrite Hf. destruct (f k); lia.
Qed.

Lemma pending_reduce_inv m k v m' : pending_ok m -> 0 <= v -> pending_reduce m k v = Ok m' ->
  pending_ok m' /\ forall f, sumif f m' = sumif f m - if f k then v else 0.
Proof.
  intros Hm Hv Hr. unfold pending_reduce in Hr. destruct (contains k m) eqn:Hc; [|done]. cbn [negb] in Hr.
  rewrite vec_map_get_ok in Hr by (done || apply Hm). cbn [mbind outcome_bind] in Hr. call_inv. checked.
  destruct (vec_map_set_ok k (amount k m - v) m Hm Hc ltac:(lia)) as (m1 & Hm1 & Hok & Hf). rewrite Hm1 in *. call_inv.
  split; [done|]. intros f. rewrite Hf. destruct (f k); lia.
Qed.

Lemma value_at_eq m e : pending_ok m -> value_at m e = if upto e m <? 2 ^ 64 then Ok (upto e m) else Panic.
Proof.
  intros Hm. unfold value_at.
  enough (forall l acc, pending_ok l -> l ⊆ m -> 0 <= acc < 2 ^ 64 ->
    foldM (fun value k => if k <=? e then v ← vec_map_get k m; move_arith 64 (value + v) else Ok value) acc l.*1 =
    if acc + upto e l <? 2 ^ 64 then Ok (acc + upto e l) else Panic) as Hg.
  { rewrite (Hg m 0 Hm); [by rewrite Z.add_0_l|done|lia]. }
  induction l as [|[k v] l IH]; intros acc Hl Hsub Hacc.
  { cbn. rewrite Z.add_0_r. by rewrite (proj2 (Z.ltb_lt _ _)) by lia. }
  apply pending_cons in Hl as (Hv & Hk & Hl). rewrite sumif_cons. cbn [fmap list_fmap foldM fst].
  assert ((k, v) ∈ m) as Hin by (apply Hsub, list_elem_of_here). assert (l ⊆ m) as Hsub' by (intros x Hx; apply Hsub; by right).
  pose proof (sumif_nonneg (fun x => x <=? e) l Hl). destruct (k <=? e); cbn [mbind outcome_bind].
  2: { rewrite IH by done. by rewrite Z.add_0_l. }
  rewrite vec_map_get_ok by (apply Hm || (destruct (contains k m) eqn:Hc; [done|]; apply contains_false in Hc; destruct Hc; by eapply elem_of_map_keys)).
  cbn [mbind outcome_bind]. rewrite (amount_elem k v) by (done || apply Hm). destruct (Z.ltb_spec (acc + v) (2 ^ 64)).
  - rewrite move_arith_in_range by lia. cbn [mbind outcome_bind]. rewrite IH by (done || lia). by rewrite Z.add_assoc.
  - rewrite move_arith_overflow by lia. cbn [mbind outcome_bind]. by rewrite (proj2 (Z.ltb_ge _ _)) by lia.
Qed.

Lemma get_idx_opt_middle k v (m1 m2 : PendingValues) : k ∉ m1.*1 -> get_idx_opt k (m1 ++ (k, v) :: m2) = Some (length m1).
Proof.
  unfold get_idx_opt. induction m1 as [|[x w] m1 IH]; cbn; [by rewrite Z.eqb_refl|]. intros [Hx Hk]%not_elem_of_cons.
  rewrite (proj2 (Z.eqb_neq x k)) by congruence. by rewrite IH.
Qed.

Lemma flush_eq m e : pending_ok m -> flush m e = if upto e m <? 2 ^ 64 then Ok (upto e m, after e m) else Panic.
Proof.
  intros Hm. unfold flush.
  enough (forall l acc kept, pending_ok (kept ++ l) -> 0 <= acc < 2 ^ 64 ->
    foldM (fun '(value, m) epoch => if epoch <=? e then '(v, m) ← vec_map_remove epoch m; value ← move_arith 64 (value + v); Ok (value, m)
      else Ok (value, m)) (acc, kept ++ l) l.*1 =
    if acc + upto e l <? 2 ^ 64 then Ok (acc + upto e l, kept ++ after e l) else Panic) as Hg.
  { apply (Hg m 0 []); [done|lia]. }
  induction l as [|[k v] l IH]; intros acc kept Hl Hacc.
  { cbn. rewrite Z.add_0_r. by rewrite (proj2 (Z.ltb_lt _ _)) by lia. }
  rewrite sumif_cons. cbn [fmap list_fmap foldM fst]. rewrite filter_cons. cbn [fst].
  assert (k ∉ kept.*1 /\ 0 <= v < 2 ^ 64 /\ pending_ok l /\ pending_ok (kept ++ l)) as (Hk & Hv & Hl2 & Hkl).
  { assert (kept ++ (k, v) :: l ≡ₚ (k, v) :: kept ++ l) as Hp by (by rewrite Permutation_middle). destruct Hl as [Hn Hvs].
    rewrite Hp in Hn, Hvs. destruct (pending_cons k v (kept ++ l)) as (Hv & Hk & Hok); [by split|]. rewrite fmap_app in Hk.
    split; [set_solver|]. split; [done|]. split; [|done]. destruct Hok as [Hn' Hvs']. rewrite fmap_app in Hn', Hvs'. apply NoDup_app in Hn' as (_ & _ & Hn').
    apply Forall_app in Hvs' as [_ Hvs']. by split. }
  pose proof (sumif_nonneg (fun x => x <=? e) l Hl2). destruct (Z.leb_spec k e) as [Hke|Hke]; cbn [mbind outcome_bind].
  - rewrite decide_False by lia. unfold vec_map_remove, remove_entry_by_idx. rewrite get_idx_opt_middle by done. cbn [expect mbind outcome_bind].
    rewrite (index_lookup _ _ (k, v)) by (by rewrite list_lookup_middle). cbn [mbind outcome_bind snd]. rewrite delete_middle.
    destruct (Z.ltb_spec (acc + v) (2 ^ 64)).
    + rewrite move_arith_in_range by lia. cbn [mbind outcome_bind]. rewrite IH by (done || lia). by rewrite Z.add_assoc.
    + rewrite move_arith_overflow by lia. cbn [mbind outcome_bind]. by rewrite (proj2 (Z.ltb_ge _ _)) by lia.
  - rewrite decide_True by lia. replace (kept ++ (k, v) :: l) with ((kept ++ [(k, v)]) ++ l) by (by rewrite <- app_assoc).
    rewrite IH; [by rewrite <- app_assoc, Z.add_0_l| |done]. by rewrite <- app_assoc.
Qed.

Lemma pending_after e m : pending_ok m -> pending_ok (after e m).
Proof.
  induction m as [|[k v] m IH]; [done|]. intros (Hv & Hk & Hm)%pending_cons. rewrite filter_cons. specialize (IH Hm). case_decide; [|done].
  destruct IH as [Hn Hvs]. split; cbn; constructor; try done. intros (x & -> & Hx)%list_elem_of_fmap. apply Hk.
  apply list_elem_of_filter in Hx as [_ Hx]. by apply (list_elem_of_fmap_2 fst).
Qed.

Lemma sumif_after f e m : sumif f (after e m) = sumif (fun x => f x && (e <? x)) m.
Proof.
  induction m as [|[k v] m IH]; [done|]. rewrite filter_cons, sumif_cons. cbn [fst].
  destruct (Z.ltb_spec e k); [rewrite decide_True by done|rewrite decide_False by (cbn; lia)];
    rewrite ?sumif_cons, IH; destruct (f k); cbn; lia.
Qed.

End sumif.

(** ** Exchange rates *)

Definition rate_ok (r : PoolExchangeRate) : Prop :=
  match r with Flat => True | Variable_ wal share => 0 < share <= wal /\ wal < 2 ^ 64 end.

(** The values of the conversions. *)
Definition to_share (r : PoolExchangeRate) (x : Z) : Z := match r with Flat => x | Variable_ wal share => x * share / wal end.
Definition to_wal (r : PoolExchangeRate) (x : Z) : Z := match r with Flat => x | Variable_ wal share => x * wal / share end.

Section rates.
Implicit Types r : PoolExchangeRate.

Lemma to_share_bounds r x : rate_ok r -> 0 <= x -> 0 <= to_share r x <= x.
Proof.
  destruct r as [|wal share]; cbn; [lia|]. intros [Hs _] Hx. split; [apply Z.div_pos; nia|]. apply Z.div_le_upper_bound; nia.
Qed.

Lemma to_share_eq r x : rate_ok r -> 0 <= x < 2 ^ 64 -> convert_to_share_amount r x = Ok (to_share r x).
Proof.
  intros Hr Hx. pose proof (to_share_bounds r x Hr ltac:(lia)) as Hb. destruct r as [|wal share]; cbn in *; [done|].
  rewrite move_arith_in_range by (change (2 ^ 128) with (2 ^ 64 * 2 ^ 64); nia). cbn [mbind outcome_bind]. unfold move_div.
  rewrite (proj2 (Z.eqb_neq _ _)) by lia. cbn [mbind outcome_bind]. apply move_arith_in_range. lia.
Qed.

Lemma to_wal_nonneg r x : rate_ok r -> 0 <= x -> 0 <= to_wal r x.
Proof. destruct r as [|wal share]; cbn; [lia|]. intros [Hs _] Hx. apply Z.div_pos; nia. Qed.

Lemma to_wal_eq r x : rate_ok r -> 0 <= x < 2 ^ 64 -> convert_to_wal_amount r x = if to_wal r x <? 2 ^ 64 then Ok (to_wal r x) else Panic.
Proof.
  intros Hr Hx. pose proof (to_wal_nonneg r x Hr ltac:(lia)) as Hb. destruct r as [|wal share]; cbn in *; [by rewrite (proj2 (Z.ltb_lt _ _)) by lia|].
  rewrite move_arith_in_range by (change (2 ^ 128) with (2 ^ 64 * 2 ^ 64); nia). cbn [mbind outcome_bind]. unfold move_div.
  rewrite (proj2 (Z.eqb_neq _ _)) by lia. cbn [mbind outcome_bind]. destruct (Z.ltb_spec (x * wal / share) (2 ^ 64)).
  - apply move_arith_in_range. lia.
  - apply move_arith_overflow. lia.
Qed.

(** Parts of a stake never have more shares than the stake. *)
Lemma to_share_add r x y : rate_ok r -> 0 <= x -> 0 <= y -> to_share r x + to_share r y <= to_share r (x + y).
Proof.
  destruct r as [|wal share]; cbn; [lia|]. intros [Hs _] Hx Hy. apply Z.div_le_lower_bound; [lia|].
  pose proof (Z.mul_div_le (x * share) wal ltac:(lia)). pose proof (Z.mul_div_le (y * share) wal ltac:(lia)). nia.
Qed.

Lemma to_share_mono r x y : rate_ok r -> x <= y -> to_share r x <= to_share r y.
Proof. destruct r as [|wal share]; cbn; [done|]. intros [Hs _] Hxy. apply Z.div_le_mono; nia. Qed.

Lemma to_share_0 r : to_share r 0 = 0.
Proof. by destruct r. Qed.

(** The rate of a balance. *)
Definition rate_of (wal shares : Z) : PoolExchangeRate := if (wal =? 0) || (shares =? 0) then Flat else Variable_ wal shares.

Lemma rate_new_eq wal shares : shares <= wal -> rate_new wal shares = Ok (rate_of wal shares).
Proof. intros Hle. unfold rate_new. by rewrite (proj2 (Z.leb_le _ _)). Qed.

Lemma rate_of_ok wal shares : 0 <= shares <= wal -> wal < 2 ^ 64 -> rate_ok (rate_of wal shares).
Proof. intros Hle Hw. unfold rate_of. destruct (Z.eqb_spec wal 0), (Z.eqb_spec shares 0); cbn; (done || lia). Qed.

End rates.

(** *** The rate of an epoch *)

Record rates_ok (p : StakingPool) : Prop := {
  ro_activation : 0 <= activation_epoch p;
  ro_first : is_Some (exchange_rates p !! activation_epoch p);
  ro_all : map_Forall (fun _ r => rate_ok r) (exchange_rates p);
}.

Definition rate_at (p : StakingPool) (e : Z) : PoolExchangeRate :=
  match exchange_rate_at_epoch p e with Ok r => r | _ => Flat end.

Section rate_at.
Implicit Types p : StakingPool.

(** The search ends at the latest in the epoch of activation. *)
Lemma find_rate_ok fuel rates act e : 0 <= act -> is_Some (rates !! act) -> map_Forall (fun _ r => rate_ok r) rates ->
  e - act < Z.of_nat fuel -> e < 2 ^ 32 -> exists r, find_rate fuel rates act e = Ok r /\ rate_ok r.
Proof.
  intros Ha Hs Hall. revert e. induction fuel as [|fuel IH]; intros e Hf He; cbn [find_rate]; destruct (Z.leb_spec act e); try (by exists Flat); [lia|].
  destruct (rates !! e) as [r|] eqn:Hr; [by eexists; split; [|by eapply Hall]|]. destruct (decide (e = act)) as [->|].
  - destruct Hs as [? Hs]. congruence.
  - rewrite move_arith_in_range by lia. cbn [mbind outcome_bind]. apply IH; lia.
Qed.

Lemma rate_at_eq p e : rates_ok p -> e < 2 ^ 32 -> exchange_rate_at_epoch p e = Ok (rate_at p e) /\ rate_ok (rate_at p e).
Proof.
  intros [Ha Hs Hall] He. unfold rate_at, exchange_rate_at_epoch.
  destruct (find_rate_ok (Z.to_nat (e - activation_epoch p + 1)) (exchange_rates p) _ e Ha Hs Hall) as (r & -> & Hr); [lia|done|done].
Qed.

Lemma find_rate_insert fuel rates act e c r : e < c -> find_rate fuel (<[c := r]> rates) act e = find_rate fuel rates act e.
Proof.
  revert e. induction fuel as [|fuel IH]; intros e He; cbn [find_rate]; [done|]. destruct (act <=? e); [|done].
  rewrite lookup_insert_ne by lia. destruct (rates !! e); [done|]. unfold move_arith. destruct (in_uint 32 (e - 1)); [|done]. apply IH. lia.
Qed.

(** A new rate leaves those of earlier epochs. *)
Lemma rate_at_insert p p' e c r : exchange_rates p' = <[c := r]> (exchange_rates p) -> activation_epoch p' = activation_epoch p -> e < c ->
  rate_at p' e = rate_at p e.
Proof. intros Hr Ha He. unfold rate_at, exchange_rate_at_epoch. by rewrite Hr, Ha, find_rate_insert. Qed.

Lemma rate_at_same p p' e : exchange_rates p' = exchange_rates p -> activation_epoch p' = activation_epoch p -> rate_at p' e = rate_at p e.
Proof. intros Hr Ha. unfold rate_at, exchange_rate_at_epoch. by rewrite Hr, Ha. Qed.

Lemma rate_at_here p c r : exchange_rates p !! c = Some r -> activation_epoch p <= c -> rate_at p c = r.
Proof.
  intros Hr Ha. unfold rate_at, exchange_rate_at_epoch. destruct (Z.to_nat (c - activation_epoch p + 1)) eqn:Hn; [lia|].
  cbn [find_rate]. by rewrite (proj2 (Z.leb_le _ _)), Hr by lia.
Qed.

Lemma rate_at_flat p e : exchange_rates p = {[ activation_epoch p := Flat ]} -> rate_at p e = Flat.
Proof.
  intros Hr. unfold rate_at, exchange_rate_at_epoch. rewrite Hr.
  enough (forall fuel e, match find_rate fuel {[activation_epoch p := Flat]} (activation_epoch p) e with Ok r => r | _ => Flat end = Flat) as Hg by apply Hg.
  clear e. induction fuel as [|fuel IH]; intros e; cbn [find_rate]; destruct (_ <=? _); try done.
  destruct (_ !! e) as [r|] eqn:He; [by apply lookup_singleton_Some in He as [_ <-]|]. unfold move_arith. destruct (in_uint 32 (e - 1)); [|done]. apply IH.
Qed.

End rate_at.

(** ** The epoch change *)

(** The shares of the stakes that were withdrawn before they became active. *)
Definition pre_shares (p : StakingPool) (c : Z) (m : PendingValues) : Z :=
  zsum ((fun x => if x.1 <=? c then to_share (rate_at p (x.1 - 1)) x.2 else 0) <$> m).

Record pool_wf (p : StakingPool) : Prop := {
  wf_stake : pending_ok (pending_stake p);
  wf_shares : pending_ok (pending_shares_withdraw p);
  wf_pre : pending_ok (pre_active_withdrawals p);
  wf_pre_keys : Forall (fun k => 0 < k < 2 ^ 32) (pre_active_withdrawals p).*1;
  wf_rates : rates_ok p;
  wf_balance : 0 <= num_shares p <= wal_balance p;
  wf_range : wal_balance p < 2 ^ 64;
}.

Section advance.
Implicit Types p : StakingPool.

Lemma pre_shares_nonneg p c m : rates_ok p -> pending_ok m -> Forall (fun k => 0 < k < 2 ^ 32) m.*1 -> 0 <= pre_shares p c m.
Proof.
  intros Hr. induction m as [|[k v] m IH]; [done|]. intros (Hv & _ & Hm)%pending_cons Hk. inversion Hk; subst. specialize (IH Hm ltac:(done)).
  unfold pre_shares in *. cbn [fmap list_fmap fst snd]. unfold zsum in *. cbn [foldr]. cbn in *.
  pose proof (to_share_bounds _ v (proj2 (rate_at_eq p (k - 1) Hr ltac:(lia))) ltac:(lia)). destruct (k <=? c); lia.
Qed.

Lemma pre_active_shares_eq p c : pool_wf p -> pre_active_shares p c =
  if pre_shares p c (pre_active_withdrawals p) <? 2 ^ 64 then Ok (pre_shares p c (pre_active_withdrawals p)) else Panic.
Proof.
  intros Hp. pose proof (wf_pre _ Hp) as Hm. pose proof (wf_rates _ Hp) as Hr. unfold pre_active_shares. set (m := pre_active_withdrawals p) in *.
  match goal with |- foldM ?f _ _ = _ => enough (forall l acc, pending_ok l -> Forall (fun k => 0 < k < 2 ^ 32) l.*1 -> l ⊆ m -> 0 <= acc < 2 ^ 64 ->
    foldM f acc l.*1 = if acc + pre_shares p c l <? 2 ^ 64 then Ok (acc + pre_shares p c l) else Panic) as Hg end.
  { rewrite (Hg m 0 Hm (wf_pre_keys _ Hp)); [done|done|lia]. }
  induction l as [|[k v] l IH]; intros acc Hl Hks Hsub Hacc.
  { cbn. rewrite Z.add_0_r. by rewrite (proj2 (Z.ltb_lt _ _)) by lia. }
  apply pending_cons in Hl as (Hv & Hk & Hl). inversion Hks as [|? ? Hkr Hks']; subst. cbn in Hks'.
  assert ((k, v) ∈ m) as Hin by (apply Hsub, list_elem_of_here). assert (l ⊆ m) as Hsub' by (intros x Hx; apply Hsub; by right).
  pose proof (pre_shares_nonneg p c l Hr Hl Hks'). replace (pre_shares p c ((k, v) :: l))
    with ((if k <=? c then to_share (rate_at p (k - 1)) v else 0) + pre_shares p c l) by done.
  cbn [fmap list_fmap foldM fst]. destruct (k <=? c); cbn [mbind outcome_bind]; [|by rewrite IH, Z.add_0_l].
  rewrite vec_map_get_ok by (apply Hm || (destruct (contains k m) eqn:Hc; [done|]; apply contains_false in Hc; destruct Hc; by eapply elem_of_map_keys)).
  cbn [mbind outcome_bind]. rewrite (amount_elem k v) by (done || apply Hm). cbn in Hkr. rewrite move_arith_in_range by lia. cbn [mbind outcome_bind].
  destruct (rate_at_eq p (k - 1) Hr ltac:(lia)) as [-> Hrk]. cbn [mbind outcome_bind]. rewrite to_share_eq by done. cbn [mbind outcome_bind].
  pose proof (to_share_bounds _ v Hrk ltac:(lia)). destruct (Z.ltb_spec (acc + to_share (rate_at p (k - 1)) v) (2 ^ 64)).
  - rewrite move_arith_in_range by lia. cbn [mbind outcome_bind]. rewrite IH by (done || lia). by rewrite Z.add_assoc.
  - rewrite move_arith_overflow by lia. cbn [mbind outcome_bind]. by rewrite (proj2 (Z.ltb_ge _ _)) by lia.
Qed.

Lemma pre_shares_same p p' c m : (forall e, e < c -> rate_at p' e = rate_at p e) -> pre_shares p' c m = pre_shares p c m.
Proof.
  intros He. unfold pre_shares. f_equal. apply list_fmap_ext. intros ? [k v] _. cbn. destruct (Z.leb_spec k c); [|done]. by rewrite He by lia.
Qed.

(** The rate and the shares that are withdrawn when epoch [c] begins. *)
Definition rate_now p : PoolExchangeRate := rate_of (wal_balance p) (num_shares p).
Definition withdrawn p (c : Z) : Z := upto c (pending_shares_withdraw p) + pre_shares p c (pre_active_withdrawals p).

(** The pool after [process_pending_stake]. *)
Definition processed p (c : Z) : StakingPool :=
  let wal := wal_balance p + upto c (pending_stake p) - to_wal (rate_now p) (withdrawn p c) in
  set_balance wal (to_share (rate_now p) wal) (<[c := rate_now p]> (exchange_rates p))
    (set_pending (after c (pending_stake p)) (after c (pending_shares_withdraw p)) (after c (pre_active_withdrawals p)) p).

Lemma rate_now_ok p : pool_wf p -> rate_ok (rate_now p).
Proof. intros Hp. apply rate_of_ok; [apply (wf_balance _ Hp)|apply (wf_range _ Hp)]. Qed.

Lemma withdrawn_nonneg p c : pool_wf p -> 0 <= withdrawn p c.
Proof.
  intros Hp. pose proof (sumif_nonneg (fun x => x <=? c) _ (wf_shares _ Hp)).
  pose proof (pre_shares_nonneg p c _ (wf_rates _ Hp) (wf_pre _ Hp) (wf_pre_keys _ Hp)). unfold withdrawn. lia.
Qed.

(** The sanity check of [process_pending_stake] fails exactly if more is withdrawn than there is. *)
Lemma process_pending_eq p c sel : pool_wf p -> exchange_rates p !! c = None ->
  wal_balance p + upto c (pending_stake p) < 2 ^ 64 -> withdrawn p c < 2 ^ 64 -> upto c (pre_active_withdrawals p) < 2 ^ 64 ->
  process_pending_stake p (mk_wctx c sel) =
    if to_wal (rate_now p) (withdrawn p c) <? 2 ^ 64 then
      if to_wal (rate_now p) (withdrawn p c) <=? wal_balance p + upto c (pending_stake p) then Ok (processed p c) else Err ECalculationError
    else Panic.
Proof.
  intros Hp Hc Hq Hk Hpre. pose proof (rate_now_ok p Hp) as Hrn. destruct Hp as [H1 H2 H3 H4 [Ha Hf Hall] H6 H7].
  pose proof (sumif_nonneg (fun x => x <=? c) _ H1) as Hq0. pose proof (sumif_nonneg (fun x => x <=? c) _ H2) as Hs0.
  pose proof (pre_shares_nonneg p c _ ltac:(by split) H3 H4) as Hp0. unfold withdrawn in *. unfold process_pending_stake. cbn [wctx_epoch].
  rewrite rate_new_eq by lia. cbn [mbind outcome_bind]. rewrite Hc. cbn [assert mbind outcome_bind pending_stake set_balance].
  rewrite flush_eq by done. rewrite (proj2 (Z.ltb_lt _ _)) by lia. cbn [mbind outcome_bind wal_balance num_shares set_balance].
  rewrite move_arith_in_range by lia. cbn [mbind outcome_bind].
  match goal with |- context [pre_active_shares ?q c] => assert (pool_wf q) as Hwf; [|rewrite (pre_active_shares_eq q c Hwf)] end.
  { split; cbn; try done; [by apply pending_after| |lia]. split; cbn; [done| |by apply map_Forall_insert_2].
    destruct (decide (activation_epoch p = c)) as [->|]; [by rewrite lookup_insert_eq|by rewrite lookup_insert_ne]. }
  rewrite (pre_shares_same p) by (intros e He; by eapply rate_at_insert).
  cbn [pre_active_withdrawals set_balance set_pending_stake set_pending pending_shares_withdraw].
  rewrite (proj2 (Z.ltb_lt (pre_shares p c _) _)) by lia. cbn [mbind outcome_bind pre_active_withdrawals].
  rewrite flush_eq by done. rewrite (proj2 (Z.ltb_lt _ _)) by done. cbn [mbind outcome_bind pending_shares_withdraw set_pre_active set_pending].
  cbn [pending_shares_withdraw set_balance set_pending_stake set_pending].
  rewrite flush_eq by done. rewrite (proj2 (Z.ltb_lt _ _)) by lia. cbn [mbind outcome_bind].
  rewrite move_arith_in_range by lia. cbn [mbind outcome_bind]. fold (rate_now p). rewrite to_wal_eq by (done || lia).
  destruct (Z.ltb_spec (to_wal (rate_now p) (upto c (pending_shares_withdraw p) + pre_shares p c (pre_active_withdrawals p))) (2 ^ 64)); [|done].
  cbn [mbind outcome_bind wal_balance set_shares_withdraw set_pre_active set_pending set_balance set_pending_stake].
  pose proof (to_wal_nonneg (rate_now p) (upto c (pending_shares_withdraw p) + pre_shares p c (pre_active_withdrawals p)) Hrn ltac:(lia)).
  destruct (Z.leb_spec (to_wal (rate_now p) (upto c (pending_shares_withdraw p) + pre_shares p c (pre_active_withdrawals p)))
    (wal_balance p + upto c (pending_stake p))); cbn [ensure mbind outcome_bind]; [|done].
  rewrite move_arith_in_range by lia. cbn [mbind outcome_bind]. rewrite to_share_eq by (done || lia). done.
Qed.

(** [wal_balance_at_epoch] predicts what [process_pending_stake] leaves. *)
Lemma balance_at_eq p c : pool_wf p -> wal_balance p + upto c (pending_stake p) < 2 ^ 64 -> withdrawn p c < 2 ^ 64 ->
  to_wal (rate_now p) (withdrawn p c) <= wal_balance p + upto c (pending_stake p) -> wal_balance_at_epoch p c = Ok (wal_balance (processed p c)).
Proof.
  intros Hp Hq Hk Hle. pose proof (rate_now_ok p Hp) as Hrn. pose proof (withdrawn_nonneg p c Hp) as Hk0. pose proof (to_wal_nonneg _ _ Hrn Hk0) as Hw0.
  pose proof Hp as [H1 H2 H3 H4 H5 H6 H7]. pose proof (sumif_nonneg (fun x => x <=? c) _ H1) as Hq0. pose proof (sumif_nonneg (fun x => x <=? c) _ H2) as Hs0.
  pose proof (pre_shares_nonneg p c _ H5 H3 H4) as Hp0. unfold withdrawn in *. unfold wal_balance_at_epoch. rewrite rate_new_eq by lia. cbn [mbind outcome_bind].
  rewrite pre_active_shares_eq, (proj2 (Z.ltb_lt _ _)) by (done || lia). cbn [mbind outcome_bind]. rewrite (value_at_eq (pending_shares_withdraw p)), (proj2 (Z.ltb_lt _ _)) by (done || lia).
  cbn [mbind outcome_bind]. rewrite move_arith_in_range by lia. cbn [mbind outcome_bind]. fold (rate_now p).
  rewrite to_wal_eq, (proj2 (Z.ltb_lt _ _)) by (done || lia). cbn [mbind outcome_bind]. rewrite value_at_eq, (proj2 (Z.ltb_lt _ _)) by (done || lia).
  cbn [mbind outcome_bind]. rewrite move_arith_in_range by lia. cbn [mbind outcome_bind]. rewrite move_arith_in_range by lia. done.
Qed.

(** *** Commission *)

Record commission_ok p : Prop := {
  co_rate : 0 <= commission_rate p <= N_BASIS_POINTS;
  co_keys : NoDup (pending_commission_rate p).*1 /\ Forall (fun k => 0 <= k < 2 ^ 32) (pending_commission_rate p).*1;
  co_values : Forall (fun v => 0 <= v <= N_BASIS_POINTS) (pending_commission_rate p).*2;
  co_blocked : 0 <= default 0 (blocked_commission p) <= commission p;
  co_rewards : 0 <= rewards_pool p;
}.

Lemma rates_pending_ok (m : PendingValues) : NoDup m.*1 -> Forall (fun v => 0 <= v <= N_BASIS_POINTS) m.*2 -> pending_ok m.
Proof. intros Hn Hv. split; [done|]. eapply Forall_impl; [exact Hv|]. cbv beta. unfold N_BASIS_POINTS. lia. Qed.

(** There are not more values than epochs. *)
Lemma keys_count n (m : PendingValues) : 0 <= n -> NoDup m.*1 -> Forall (fun k => 0 <= k < n) m.*1 -> len m <= n.
Proof.
  intros H0 Hn Hk. assert (m.*1 ⊆+ seqZ 0 n) as Hs.
  { apply NoDup_submseteq; [done|]. intros k Hin. rewrite Forall_forall in Hk. apply elem_of_seqZ. specialize (Hk k Hin). lia. }
  apply submseteq_length in Hs. rewrite length_fmap, length_seqZ in Hs. lia.
Qed.

Lemma rates_sum (m : PendingValues) e : NoDup m.*1 -> Forall (fun k => 0 <= k < 2 ^ 32) m.*1 -> Forall (fun v => 0 <= v <= N_BASIS_POINTS) m.*2 -> upto e m < 2 ^ 64.
Proof.
  intros Hn Hk Hv. pose proof (keys_count (2 ^ 32) m ltac:(lia) Hn Hk) as Hlen.
  assert (upto e m <= N_BASIS_POINTS * len m) as Hs; [|unfold N_BASIS_POINTS in Hs; lia]. clear Hn Hk Hlen.
  induction m as [|[k v] m IH]; [done|]. cbn in Hv. apply Forall_cons in Hv as [Hv Hm]. specialize (IH Hm). rewrite sumif_cons.
  cbn [length]. unfold N_BASIS_POINTS in *. cbv beta in *. destruct (k <=? e); lia.
Qed.

Lemma latest_value_ok (m : PendingValues) e : NoDup m.*1 -> exists o, latest_value_at m e = Ok o /\ forall v, o = Some v -> v ∈ m.*2.
Proof.
  intros Hn. unfold latest_value_at.
  match goal with |- context [foldl ?f None m.*1] => assert (forall l o, l ⊆ m.*1 -> (forall k, o = Some k -> k ∈ m.*1) ->
    forall k, foldl f o l = Some k -> k ∈ m.*1) as Hg; [|pose proof (Hg m.*1 None ltac:(done) ltac:(done)) as Hk; destruct (foldl f None m.*1) as [k|]] end.
  { induction l as [|x l IH]; intros o Hl Ho k Hf; [by apply Ho|]. cbn in Hf. apply IH in Hf; [done|set_solver|].
    intros y. destruct (x <=? e), o as [z|]; [destruct (z <? x)| | |]; intros [= <-]; (set_solver || by apply Ho). }
  - specialize (Hk k eq_refl). apply list_elem_of_fmap in Hk as ([x v] & Hx & Hk). cbn in Hx. subst x. unfold vec_map_get.
    rewrite (proj2 (try_get_Some k v m Hn) Hk). cbn. eexists. split; [done|]. intros w [= <-]. by apply (list_elem_of_fmap_2 snd _ _ Hk).
  - by exists None.
Qed.

(** What the pool keeps of its rewards. *)
Definition net_rewards p (rewards : Z) : Z := rewards - rewards * commission_rate p / N_BASIS_POINTS.

Lemma net_rewards_bounds p rewards : commission_ok p -> 0 <= rewards -> 0 <= net_rewards p rewards <= rewards.
Proof.
  intros [[Hr1 Hr2] _ _ _ _] Hr. unfold net_rewards, N_BASIS_POINTS in *. split.
  - assert (rewards * commission_rate p / 10000 <= rewards); [|lia]. apply Z.div_le_upper_bound; nia.
  - assert (0 <= rewards * commission_rate p / 10000); [|lia]. apply Z.div_pos; nia.
Qed.

(** The stake of [p'] is that of [p] with [rewards] more. *)
Record rewarded p p' (rewards : Z) : Prop := {
  rw_id : pool_id p' = pool_id p;
  rw_wal : wal_balance p' = wal_balance p + rewards;
  rw_shares : num_shares p' = num_shares p;
  rw_rates : exchange_rates p' = exchange_rates p /\ activation_epoch p' = activation_epoch p;
  rw_pending : pending_stake p' = pending_stake p /\ pending_shares_withdraw p' = pending_shares_withdraw p /\
    pre_active_withdrawals p' = pre_active_withdrawals p;
  rw_pool : rewards_pool p' = rewards_pool p + rewards;
}.

(** The amounts of an epoch change fit in 64 bits. *)
Record fits p (rewards c : Z) : Prop := {
  ft_rewards : 0 <= rewards < 2 ^ 64;
  ft_stake : rewards = 0 \/ 0 < wal_balance p;
  ft_commission : commission p + (rewards - net_rewards p rewards) < 2 ^ 64;
  ft_pool : rewards_pool p + net_rewards p rewards < 2 ^ 64;
  ft_balance : wal_balance p + net_rewards p rewards + upto c (pending_stake p) < 2 ^ 64;
}.

Lemma advance_rewards p rewards c sel : commission_ok p -> pool_wf p -> latest_epoch p < c -> fits p rewards c ->
  exists p', pool_advance_epoch p rewards (mk_wctx c sel) = process_pending_stake p' (mk_wctx c sel) /\ rewarded p p' (net_rewards p rewards) /\
    commission_ok p' /\ latest_epoch p' = c /\ commission p' = commission p + (rewards - net_rewards p rewards).
Proof.
  intros Hco Hwf Hl [Hr Hs Hc Hp Hw]. pose proof (wf_balance _ Hwf) as Hw0. pose proof (sumif_nonneg (fun x => x <=? c) _ (wf_stake _ Hwf)) as Hq0.
  pose proof (net_rewards_bounds p rewards Hco ltac:(lia)) as Hn. destruct Hco as [Hrate [Hnd Hks] Hvs [Hb1 Hb2] Hrw].
  unfold pool_advance_epoch. cbn [wctx_epoch]. rewrite (proj2 (Z.ltb_lt (latest_epoch p) c)) by done. cbn [ensure mbind outcome_bind].
  assert ((rewards =? 0) || (0 <? wal_balance p) = true) as -> by lia. cbn [ensure mbind outcome_bind].
  assert (0 <= rewards * commission_rate p / N_BASIS_POINTS <= rewards) as Hcv by (unfold net_rewards in Hn; lia).
  assert (rewards - net_rewards p rewards = rewards * commission_rate p / N_BASIS_POINTS) as Hcm by (unfold net_rewards; lia). rewrite Hcm in Hc.
  rewrite move_arith_in_range by (change (2 ^ 128) with (2 ^ 64 * 2 ^ 64); unfold N_BASIS_POINTS in *; nia). cbn [mbind outcome_bind].
  rewrite move_arith_in_range by lia. cbn [mbind outcome_bind]. fold (net_rewards p rewards). rewrite move_arith_in_range by lia. cbn [mbind outcome_bind].
  unfold add_commission. rewrite move_arith_in_range by lia. cbn [mbind outcome_bind].
  assert (exists b, increase_blocked_commission (blocked_commission p) (rewards * commission_rate p / N_BASIS_POINTS) = Ok (Some b) /\
    0 <= b <= commission p + rewards * commission_rate p / N_BASIS_POINTS) as (b & -> & Hb).
  { unfold increase_blocked_commission. destruct (blocked_commission p) as [b|]; cbn in Hb1, Hb2.
    - rewrite move_arith_in_range by lia. eexists. split; [done|lia].
    - eexists. split; [done|lia]. }
  cbn [mbind outcome_bind pending_commission_rate set_commission]. destruct (latest_value_ok (pending_commission_rate p) c Hnd) as (o & -> & Ho).
  cbn [mbind outcome_bind commission_rate set_commission].
  assert (exists rate, match o with Some r => move_arith 16 r | None => Ok (commission_rate p) end = Ok rate (E := AbortCode) /\ 0 <= rate <= N_BASIS_POINTS)
    as (rate & -> & Hrate').
  { destruct o as [r|]; [|by eexists]. rewrite Forall_forall in Hvs. specialize (Hvs r (Ho r eq_refl)). unfold N_BASIS_POINTS in *.
    rewrite move_arith_in_range by lia. eexists. split; [done|lia]. }
  cbn [mbind outcome_bind]. rewrite flush_eq by (by apply rates_pending_ok). rewrite (proj2 (Z.ltb_lt _ _)) by (by apply rates_sum). cbn [mbind outcome_bind].
  cbn [rewards_pool set_rate set_commission wal_balance]. rewrite move_arith_in_range by lia. cbn [mbind outcome_bind].
  rewrite move_arith_in_range by lia. cbn [mbind outcome_bind]. eexists. split; [done|]. split; [by split|]. split; [|split; [done|rewrite Hcm; done]].
  assert (Forall (fun x => x ∈ pending_commission_rate p) (after c (pending_commission_rate p))) as Hsub.
  { apply Forall_forall. intros x Hx. by apply list_elem_of_filter in Hx as [_ Hx]. }
  split; cbn; [done| | |lia|lia].
  - split; [apply (pv_keys _ (pending_after c _ (rates_pending_ok _ Hnd Hvs)))|]. apply Forall_fmap. eapply Forall_impl; [exact Hsub|].
    intros x Hx. rewrite Forall_forall in Hks. by apply Hks, list_elem_of_fmap_2.
  - apply Forall_fmap. eapply Forall_impl; [exact Hsub|]. intros x Hx. rewrite Forall_forall in Hvs. by apply Hvs, list_elem_of_fmap_2.
Qed.

(** If the epoch change succeeds, the amounts fit. *)
Lemma advance_fits p rewards c sel p' : pool_wf p -> commission_ok p -> 0 <= rewards < 2 ^ 64 ->
  pool_advance_epoch p rewards (mk_wctx c sel) = Ok p' -> latest_epoch p < c /\ fits p rewards c.
Proof.
  intros Hwf [Hrate _ _ _ _] Hr Ha. unfold pool_advance_epoch, add_commission, process_pending_stake in Ha. cbn [wctx_epoch] in Ha. call_inv. pool_simpl_all. checked.
  split; [done|]. fold (net_rewards p rewards) in *.
  match goal with H : flush (pending_stake p) c = Ok _ |- _ => rewrite flush_eq in H by apply (wf_stake _ Hwf); destruct (_ <? 2 ^ 64) in H; [|done]; injection H as <- <- end.
  split; [done|lia| | |]; unfold net_rewards in *; lia.
Qed.

End advance.

(** ** The shares cover the stakes *)

(** The stake of every activation epoch is given by [A]. *)
Definition staked_upto (A : Z -> Z) (E : Z) : Z := zsum (A <$> seqZ 0 (E + 1)).
Definition obligations (p : StakingPool) (A : Z -> Z) (E : Z) : Z := zsum ((fun a => to_share (rate_at p a) (A a)) <$> seqZ 0 (E + 1)).

(** A pool that has not been in a committee, whose stake is all pending. *)
Record fresh (E : Z) (cur : bool) (nxt : option bool) (A : Z -> Z) (p : StakingPool) : Prop := {
  fr_cur : cur = false;
  fr_wal : wal_balance p = 0 /\ num_shares p = 0;
  fr_rates : exchange_rates p = {[ activation_epoch p := Flat ]};
  fr_activation : activation_epoch p <= E \/ (nxt = Some false /\ activation_epoch p = E + 1);
  fr_pre : upto (E + 1) (pre_active_withdrawals p) = 0;
  fr_pre_next : nxt <> Some true -> total (pre_active_withdrawals p) = 0;
  fr_pending : upto E (pending_stake p) = staked_upto A E + total (pending_shares_withdraw p);
}.

(** A pool that was advanced to the current epoch [E]. *)
Record advanced (E : Z) (A : Z -> Z) (p : StakingPool) : Prop := {
  ad_latest : latest_epoch p = E;
  ad_activation : activation_epoch p < E /\ is_Some (exchange_rates p !! E);
  ad_rates : map_Forall (fun e _ => e <= E) (exchange_rates p);
  ad_pending : upto E (pending_stake p) = 0;
  ad_pre : upto E (pre_active_withdrawals p) = 0;
  ad_shares : obligations p A E + to_share (rate_at p E) (amount (E + 1) (pre_active_withdrawals p)) + total (pending_shares_withdraw p) <= num_shares p;
}.

(** [cur] and [nxt] say whether the node is in the committee, and in the next one if it was selected. *)
Record pool_inv (E : Z) (cur : bool) (nxt : option bool) (A : Z -> Z) (p : StakingPool) : Prop := {
  pi_wf : pool_wf p;
  pi_commission : commission_ok p;
  pi_epoch : 0 <= E;
  pi_stakes : forall a, 0 <= A a;
  pi_latest : latest_epoch p <= E;
  pi_next : forall a, E < a -> amount a (pending_stake p) = A a + amount (a + 1) (pre_active_withdrawals p);
  pi_phase : fresh E cur nxt A p \/ advanced E A p;
}.

(** *** Sums over epochs *)

Section sums.
Implicit Types (f g A : Z -> Z) (p : StakingPool).

Lemma zsum_epochs_next f E : 0 <= E -> zsum (f <$> seqZ 0 (E + 1 + 1)) = zsum (f <$> seqZ 0 (E + 1)) + f (E + 1).
Proof.
  intros HE. rewrite (seqZ_app 0 (E + 1) 1), fmap_app, zsum_app by lia. f_equal. rewrite seqZ_cons by lia. cbn. rewrite Z.add_0_r. done.
Qed.

Lemma zsum_epochs_le f g E : (forall a, 0 <= a <= E -> f a <= g a) -> zsum (f <$> seqZ 0 (E + 1)) <= zsum (g <$> seqZ 0 (E + 1)).
Proof.
  intros Hfg. assert (Forall (fun a => f a <= g a) (seqZ 0 (E + 1))) as Hl.
  { apply Forall_forall. intros a Ha%elem_of_seqZ. apply Hfg. lia. }
  induction Hl; [done|]. cbn. unfold zsum in *. lia.
Qed.

(** A change in one epoch. *)
Lemma zsum_epochs_change f g E a d : 0 <= a <= E -> (forall x, x <> a -> f x <= g x) -> f a + d <= g a ->
  zsum (f <$> seqZ 0 (E + 1)) + d <= zsum (g <$> seqZ 0 (E + 1)).
Proof.
  intros Ha Hne Heq. replace (E + 1) with (a + (E + 1 - a)) by lia. rewrite seqZ_app by lia. rewrite !fmap_app, !zsum_app. rewrite (seqZ_cons (0 + a)) by lia. cbn [fmap list_fmap].
  assert (forall l, Forall (fun x => x <> a) l -> zsum (f <$> l) <= zsum (g <$> l)) as Hl.
  { induction 1; [done|]. cbn. unfold zsum in *. specialize (Hne x ltac:(done)). lia. }
  pose proof (Hl (seqZ 0 a)) as H1. pose proof (Hl (seqZ (Z.succ (0 + a)) (Z.pred (E + 1 - a)))) as H2. rewrite Z.add_0_l in *.
  unfold zsum in *. cbn [foldr]. specialize (H1 ltac:(apply Forall_forall; intros x Hx%elem_of_seqZ; lia)).
  specialize (H2 ltac:(apply Forall_forall; intros x Hx%elem_of_seqZ; lia)). lia.
Qed.

Lemma zsum_epochs_same f g E : (forall a, 0 <= a <= E -> f a = g a) -> zsum (f <$> seqZ 0 (E + 1)) = zsum (g <$> seqZ 0 (E + 1)).
Proof. intros Hfg. apply Z.le_antisymm; apply zsum_epochs_le; intros a Ha; rewrite Hfg; done. Qed.

End sums.

(** *** Stake and withdrawals *)

(** [A'] has [d] more in epoch [a]. *)
Definition changed_at (a d : Z) (A A' : Z -> Z) : Prop := forall x, A' x = A x + if x =? a then d else 0.

Section stake.
Context (E : Z) (cur : bool) (nxt : option bool).
Implicit Types (A : Z -> Z) (p : StakingPool).

Lemma changed_upto a d A A' : changed_at a d A A' -> 0 <= a -> staked_upto A' E = staked_upto A E + if a <=? E then d else 0.
Proof.
  intros Hc Ha. unfold staked_upto. destruct (Z.leb_spec a E).
  - apply Z.le_antisymm; [assert (zsum (A' <$> seqZ 0 (E + 1)) + - d <= zsum (A <$> seqZ 0 (E + 1))); [|lia]|];
      apply (zsum_epochs_change _ _ E a); try lia; try (intros x Hx; rewrite Hc, (proj2 (Z.eqb_neq x a)) by done; lia); rewrite Hc, Z.eqb_refl; lia.
  - rewrite Z.add_0_r. apply zsum_epochs_same. intros x Hx. rewrite Hc, (proj2 (Z.eqb_neq x a)) by lia. lia.
Qed.

(** A stake that leaves takes its shares. *)
Lemma changed_obligations p a v A A' : rates_ok p -> E < 2 ^ 32 -> (forall x, 0 <= A' x) -> changed_at a (- v) A A' -> 0 <= v -> 0 <= a <= E ->
  obligations p A' E + to_share (rate_at p a) v <= obligations p A E.
Proof.
  intros Hr HE HA Hc Hv Ha. apply (zsum_epochs_change _ _ E a); [done| |].
  - intros x Hx. rewrite Hc, (proj2 (Z.eqb_neq x a)) by done. by rewrite Z.add_0_r.
  - pose proof (to_share_add (rate_at p a) (A' a) v (proj2 (rate_at_eq p a Hr ltac:(lia))) (HA a) Hv) as Hle.
    pose proof (Hc a) as Ha'. rewrite Z.eqb_refl in Ha'. replace (A' a + v) with (A a) in Hle by lia. done.
Qed.

Lemma obligations_later p a d A A' : changed_at a d A A' -> E < a -> obligations p A' E = obligations p A E.
Proof. intros Hc Ha. apply zsum_epochs_same. intros x Hx. rewrite Hc, (proj2 (Z.eqb_neq x a)) by lia. by rewrite Z.add_0_r. Qed.

(** The invariant speaks of the stake only by its amounts. *)
Lemma pool_inv_ext A A' p : (forall a, A' a = A a) -> pool_inv E cur nxt A p -> pool_inv E cur nxt A' p.
Proof.
  intros HA [H1 H2 H3 H4 H5 H6 H7]. split; try done; [intros a; by rewrite HA|intros a Ha; rewrite HA; by apply H6|].
  destruct H7 as [[F1 F2 F3 F4 F5 F6 F7]|[F1 F2 F3 F4 F5 F6]]; [left|right]; split; try done.
  - rewrite F7. f_equal. apply zsum_epochs_same. intros a _. by rewrite HA.
  - enough (obligations p A' E = obligations p A E) as -> by done. apply zsum_epochs_same. intros a _. by rewrite HA.
Qed.

(** The stake part of a pool: what the invariant reads. *)
Record same_stake p p' : Prop := {
  ss_balance : wal_balance p' = wal_balance p /\ num_shares p' = num_shares p /\ latest_epoch p' = latest_epoch p;
  ss_rates : exchange_rates p' = exchange_rates p /\ activation_epoch p' = activation_epoch p;
  ss_pending : pending_stake p' = pending_stake p /\ pending_shares_withdraw p' = pending_shares_withdraw p /\
    pre_active_withdrawals p' = pre_active_withdrawals p;
}.

Lemma pool_wf_same p p' : same_stake p p' -> pool_wf p -> pool_wf p'.
Proof.
  intros [(Hw & Hs & Hl) (Hr & Ha) (H1 & H2 & H3)] [W1 W2 W3 W4 [R1 R2 R3] W6 W7]. split; rewrite ?H1, ?H2, ?H3, ?Hw, ?Hs; try done.
  split; by rewrite ?Hr, ?Ha.
Qed.

Lemma pool_inv_same A p p' : same_stake p p' -> commission_ok p' -> pool_inv E cur nxt A p -> pool_inv E cur nxt A p'.
Proof.
  intros Hss Hco [P1 P2 P3 P4 P5 P6 P7]. pose proof (pool_wf_same _ _ Hss P1) as Hwf. destruct Hss as [(Hw & Hs & Hl) (Hr & Ha) (H1 & H2 & H3)].
  assert (forall e, rate_at p' e = rate_at p e) as Hrate by (intros e; by apply rate_at_same).
  split; try done; [by rewrite Hl|by rewrite H1, H3|].
  destruct P7 as [[F1 F2 F3 F4 F5 F6 F7]|[F1 F2 F3 F4 F5 F6]]; [left|right]; split; rewrite ?Hw, ?Hs, ?Hr, ?Ha, ?H1, ?H2, ?H3, ?Hl, ?Hrate; try done.
  unfold obligations in *. erewrite zsum_epochs_same; [exact F6|]. intros a _. cbn. by rewrite Hrate.
Qed.

(** Stake is added to, or taken from, what becomes active later. *)
Lemma pending_changed A A' p a d m : pool_inv E cur nxt A p -> E < a -> changed_at a d A A' -> (forall x, 0 <= A' x) -> pending_ok m ->
  (forall f, sumif f m = sumif f (pending_stake p) + if f a then d else 0) -> pool_inv E cur nxt A' (set_pending_stake m p).
Proof.
  intros [P1 P2 P3 P4 P5 P6 P7] Ha Hc HA Hm Hsum. destruct P1 as [W1 W2 W3 W4 [R1 R2 R3] W6 W7], P2. split; try done.
  - intros x Hx. pool_simpl. rewrite Hsum, Hc, P6 by done. rewrite (Z.eqb_sym a x). lia.
  - destruct P7 as [[F1 F2 F3 F4 F5 F6 F7]|[F1 F2 F3 F4 F5 F6]]; [left|right]; split; pool_simpl; try done; rewrite ?Hsum.
    + rewrite (proj2 (Z.leb_gt a E)) by lia. rewrite (changed_upto a d A A' Hc) by lia. rewrite (proj2 (Z.leb_gt a E)) by lia. lia.
    + rewrite (proj2 (Z.leb_gt a E)) by lia. lia.
    + change (obligations (set_pending_stake m p) A' E) with (obligations p A' E). by rewrite (obligations_later p a d A A').
Qed.

(** Active stake is withdrawn. *)
Lemma active_withdrawn A A' p a w v m : pool_inv E cur nxt A p -> E < 2 ^ 32 -> 0 <= a <= E -> changed_at a (- v) A A' -> (forall x, 0 <= A' x) -> 0 <= v ->
  insert_or_add (pending_shares_withdraw p) w (to_share (rate_at p a) v) = Ok m -> v < 2 ^ 64 -> pool_inv E cur nxt A' (set_shares_withdraw m p).
Proof.
  intros [P1 P2 P3 P4 P5 P6 P7] HE Ha Hc HA Hv Hm Hv64. destruct P1 as [W1 W2 W3 W4 [R1 R2 R3] W6 W7], P2.
  assert (rates_ok p) as Hro by (by split). pose proof (to_share_bounds _ v (proj2 (rate_at_eq p a Hro ltac:(lia))) Hv) as Hsh.
  pose proof (insert_or_add_ok _ w (to_share (rate_at p a) v) W2 ltac:(lia)) as Hins. rewrite Hm in Hins. destruct Hins as [Hok Hsum].
  split; try done.
  - intros x Hx. pool_simpl. rewrite Hc, (proj2 (Z.eqb_neq x a)), P6 by lia. lia.
  - destruct P7 as [[F1 F2 F3 F4 F5 F6 F7]|[F1 F2 F3 F4 F5 F6]]; [left|right]; split; pool_simpl; try done; rewrite ?Hsum.
    + rewrite (changed_upto a (- v) A A' Hc), (proj2 (Z.leb_le a E)) by lia. rewrite (rate_at_flat p a F3). cbn. lia.
    + pose proof (changed_obligations p a v A A' Hro HE HA Hc Hv Ha) as Ho.
      change (obligations (set_shares_withdraw m p) A' E) with (obligations p A' E). change (rate_at (set_shares_withdraw m p) E) with (rate_at p E). lia.
Qed.

(** Stake that is not yet active, but counts for the next committee, is withdrawn. *)
Lemma pre_active_withdrawn A A' p v m : pool_inv E cur nxt A p -> nxt = Some true -> E + 2 < 2 ^ 32 -> changed_at (E + 1) (- v) A A' -> (forall x, 0 <= A' x) ->
  0 <= v < 2 ^ 64 -> insert_or_add (pre_active_withdrawals p) (E + 2) v = Ok m -> Forall (fun k => 0 < k < 2 ^ 32) m.*1 ->
  pool_inv E cur nxt A' (set_pre_active m p).
Proof.
  intros [P1 P2 P3 P4 P5 P6 P7] Hn HE Hc HA Hv Hm Hkeys. destruct P1 as [W1 W2 W3 W4 [R1 R2 R3] W6 W7], P2.
  pose proof (insert_or_add_ok _ (E + 2) v W3 Hv) as Hins. rewrite Hm in Hins. destruct Hins as [Hok Hsum]. split; try done.
  - intros x Hx. pool_simpl. rewrite Hc, Hsum, P6 by done.
    destruct (Z.eqb_spec x (E + 1)), (Z.eqb_spec (E + 2) (x + 1)); lia.
  - destruct P7 as [[F1 F2 F3 F4 F5 F6 F7]|[F1 F2 F3 F4 F5 F6]]; [left|right]; split; pool_simpl; try done; rewrite ?Hsum.
    + rewrite (proj2 (Z.leb_gt (E + 2) (E + 1))) by lia. lia.
    + rewrite (changed_upto (E + 1) (- v) A A' Hc), (proj2 (Z.leb_gt (E + 1) E)) by lia. lia.
    + rewrite (proj2 (Z.leb_gt (E + 2) E)) by lia. lia.
    + rewrite (proj2 (Z.eqb_neq (E + 2) (E + 1))), Z.add_0_r by lia.
      change (obligations (set_pre_active m p) A' E) with (obligations p A' E). by rewrite (obligations_later p (E + 1) (- v) A A') by (done || lia).
Qed.

Lemma insert_or_add_keys (P : Z -> Prop) m k v m' : insert_or_add m k v = Ok m' -> Forall P m.*1 -> P k -> Forall P m'.*1.
Proof.
  intros Hi Hm Hk. unfold insert_or_add in Hi. destruct (negb (contains k m)).
  - unfold vec_map_insert in Hi. call_inv. rewrite fmap_app. apply Forall_app. by split; [|constructor].
  - call_inv. unfold vec_map_set in *. call_inv. rewrite list_fmap_insert. by apply Forall_insert.
Qed.

(** ** The operations on stake *)

Context (HE : E + 2 < 2 ^ 32).
Abbreviation sel := (match nxt with Some _ => true | None => false end).
Abbreviation wctx := (mk_wctx E sel).
Abbreviation next := (bool_decide (nxt = Some true)).

Lemma pool_stake_inv A p v p' sw : pool_inv E cur nxt A p -> pool_stake p v wctx = Ok (p', sw) -> v < 2 ^ 64 ->
  exists a, sw = mk_staked_wal Staked (pool_id p) v a /\ E < a /\ 0 < v /\ forall A', changed_at a v A A' -> pool_inv E cur nxt A' p'.
Proof.
  intros Hinv Hs Hv. unfold pool_stake, mint in Hs. cbn [wctx_epoch committee_selected] in Hs. call_inv. checked.
  set (a := E + if sel then 2 else 1) in *. exists a. split_and!; [done|unfold a; destruct sel; lia|lia|]. intros A' Hc.
  match goal with H : insert_or_add _ _ _ = Ok ?m |- _ => pose proof (insert_or_add_ok _ a v (wf_stake _ (pi_wf _ _ _ _ _ Hinv)) ltac:(lia)) as Hins; rewrite H in Hins end.
  destruct Hins as [Hok Hsum]. eapply pending_changed; [done| |done| |done|done]; [unfold a; destruct sel; lia|].
  intros y. rewrite Hc. pose proof (pi_stakes _ _ _ _ _ Hinv y). destruct (y =? a); lia.
Qed.

Lemma can_withdraw_early_eq sw b : 0 <= E -> can_withdraw_early sw b wctx =
  Ok (is_staked sw && ((sw_activation_epoch sw =? E + 2) || ((sw_activation_epoch sw =? E + 1) && negb b))).
Proof.
  intros H0. unfold can_withdraw_early, sw_is_withdrawing, is_staked. cbn [wctx_epoch]. destruct (sw_state sw); [|done].
  rewrite !move_arith_in_range by lia. cbn [mbind outcome_bind]. by destruct (_ =? E + 2).
Qed.

Lemma request_stake_inv A p sw p' sw' : pool_inv E cur nxt A p -> pool_request_withdraw_stake p sw cur next wctx = Ok (p', sw') ->
  principal sw < 2 ^ 64 -> 0 <= sw_activation_epoch sw -> is_staked sw = true /\
  (exists w, sw' = mk_staked_wal (Withdrawing w) (sw_node_id sw) (principal sw) (sw_activation_epoch sw)) /\
  forall A', changed_at (sw_activation_epoch sw) (- principal sw) A A' -> (forall x, 0 <= A' x) -> pool_inv E cur nxt A' p'.
Proof.
  intros Hinv Hr Hv Ha. pose proof Hinv as [[_ _ _ Hk Hro _ _] _ HE0 _ _ _ _]. unfold pool_request_withdraw_stake in Hr. cbn [wctx_epoch] in Hr.
  rewrite can_withdraw_early_eq in Hr by done. unfold sw_set_withdrawing in Hr. call_inv. checked.
  assert (is_staked sw = true) as Hst by done. rewrite Hst in *. split; [done|]. destruct (Z.eqb_spec (sw_activation_epoch sw) (E + 1)) as [He|Hne]; call_inv.
  - split; [by eexists|]. intros A' Hc HA. rewrite He in *. replace (E + 1 + 1) with (E + 2) in * by lia.
    assert (nxt = Some true) as Hn.
    { destruct (decide (nxt = Some true)) as [|Hnn]; [done|]. rewrite (bool_decide_false _ Hnn), orb_true_r in *. done. }
    eapply (pre_active_withdrawn A A' p (principal sw)); try done; [lia|]. eapply insert_or_add_keys; [done|done|lia].
  - checked. split; [by eexists|]. intros A' Hc HA. destruct (rate_at_eq p (sw_activation_epoch sw) Hro ltac:(lia)) as [Hrate Hrok].
    match goal with H : exchange_rate_at_epoch _ _ = Ok _ |- _ => rewrite Hrate in H; injection H as <- end.
    match goal with H : convert_to_share_amount _ _ = Ok _ |- _ => rewrite to_share_eq in H by (done || lia); injection H as <- end.
    eapply (active_withdrawn A A' p (sw_activation_epoch sw) _ (principal sw)); [done|lia|lia|done|done|lia|done|done].
Qed.

Lemma calculate_rewards_nonneg p v a w r : calculate_rewards p v a w = Ok r -> 0 <= r.
Proof. unfold calculate_rewards. intros Hr. call_inv. destruct (v <=? _); call_inv; lia. Qed.

(** A withdrawal returns the principal and rewards from the rewards pool. *)
Lemma withdraw_inv A p sw p' wal : pool_inv E cur nxt A p -> pool_withdraw_stake p sw cur next wctx = Ok (p', wal) ->
  principal sw < 2 ^ 64 -> 0 <= sw_activation_epoch sw ->
  if is_staked sw then forall A', changed_at (sw_activation_epoch sw) (- principal sw) A A' -> (forall x, 0 <= A' x) -> pool_inv E cur nxt A' p'
  else pool_inv E cur nxt A p'.
Proof.
  intros Hinv Hr Hv Ha. pose proof Hinv as [[Hps _ _ _ Hro _ _] Hco HE0 _ _ _ _]. unfold pool_withdraw_stake in Hr.
  rewrite can_withdraw_early_eq in Hr by done. call_inv. checked.
  destruct (is_staked sw && _) eqn:Hearly; call_inv.
  - apply andb_true_iff in Hearly as [-> He]. intros A' Hc HA.
    match goal with H : pending_reduce _ _ _ = Ok _ |- _ => apply pending_reduce_inv in H as [Hok Hsum]; [|done|lia] end.
    eapply (pending_changed A A' p (sw_activation_epoch sw)); [done|lia|done|done|done|]. intros f. rewrite Hsum. destruct (f _); lia.
  - match goal with H : withdraw_rewards _ _ _ _ _ = Ok (?q, ?r) |- _ => rename H into Hw; rename q into p1; rename r into r1 end.
    match goal with |- if _ then forall A', _ -> _ -> pool_inv _ _ _ _ ?q else _ => assert (forall A', pool_inv E cur nxt A' p1 -> 0 <= r1 -> pool_inv E cur nxt A' q) as Hset end.
    { intros A' Hi Hr1. apply (pool_inv_same A' p1); [by split| |exact Hi].
      destruct (pi_commission _ _ _ _ _ Hi). split; try done. pool_simpl. lia. }
    unfold withdraw_rewards in Hw. cbn [wctx_epoch] in Hw. destruct (negb cur && negb next && is_staked sw) eqn:Hone.
    + apply andb_true_iff in Hone as [_ Hst]. rewrite Hst. intros A' Hc HA. destruct (Z.ltb_spec E (sw_activation_epoch sw)).
      * call_inv. match goal with H : pending_reduce _ _ _ = Ok _ |- _ => apply pending_reduce_inv in H as [Hok Hsum]; [|done|lia] end.
        apply Hset; [|lia]. eapply (pending_changed A A' p (sw_activation_epoch sw)); [done|lia|done|done|done|]. intros f. rewrite Hsum. destruct (f _); lia.
      * destruct (rate_at_eq p (sw_activation_epoch sw) Hro ltac:(lia)) as [Hrate Hrok]. rewrite Hrate in Hw. cbn [mbind outcome_bind] in Hw.
        rewrite to_share_eq in Hw by (done || lia). call_inv. apply Hset; [|by eapply calculate_rewards_nonneg].
        eapply (active_withdrawn A A' p (sw_activation_epoch sw) _ (principal sw)); [done|lia|lia|done|done|lia|done|done].
    + call_inv. checked. unfold is_staked, sw_is_withdrawing in *. destruct (sw_state sw); [done|]. apply Hset; [done|by eapply calculate_rewards_nonneg].
Qed.

(** *** Selection of the committee *)

Lemma select_inv A p b : nxt = None -> pool_inv E cur nxt A p -> pool_inv E cur (Some b) A p.
Proof.
  intros Hn [P1 P2 P3 P4 P5 P6 P7]. split; try done. destruct P7 as [[F1 F2 F3 F4 F5 F6 F7]|]; [left|by right]. rewrite Hn in *.
  split; try done; [destruct F4 as [|[]]; [by left|done]|]. intros _. by apply F6.
Qed.

End stake.

Lemma pool_new_inv id name address key valid rate storage write capacity sender E nxt p : 0 <= E -> 0 <= rate -> nxt <> Some true ->
  pool_new id name address key valid rate storage write capacity sender (mk_wctx E (match nxt with Some _ => true | None => false end)) = Ok p ->
  pool_inv E false nxt (fun _ => 0) p /\ pool_id p = id.
Proof.
  intros HE Hr Hn Hp. unfold pool_new in Hp. cbn [wctx_epoch committee_selected] in Hp. call_inv. checked.
  match goal with |- pool_inv _ _ _ _ (mk_pool _ _ _ ?a _ _ _ _ _ _ _ _ _ _ _ _ _ _) /\ _ => set (act := a) end.
  assert (act = E /\ nxt = None \/ act = E + 1 /\ nxt = Some false) as Hact.
  { destruct nxt as [[]|]; [done| |]; call_inv; [by right|by left]. }
  split; [|done]. split; cbn; try done; try lia.
  - split; cbn; [apply pending_nil|apply pending_nil|apply pending_nil|constructor| |lia|lia].
    split; cbn; [lia|by rewrite lookup_singleton_eq|]. by apply map_Forall_singleton.
  - split; cbn; [lia|by split; constructor|constructor|lia|lia].
  - left. split; cbn; try done; [destruct Hact as [[Hx _]|[Hx Hy]]; [left; lia|by right]|]. unfold staked_upto. cut (forall l, zsum ((fun _ : Z => 0) <$> l) = 0); [intros ->; done|].
    induction l; [done|]. done.
Qed.

(** ** The epoch change of a steady pool *)

(** If [k] of [S] shares leave and [q] WAL come, the shares that are left and the new ones are covered. *)
Lemma shares_cover W S k q : 0 <= S <= W -> 0 <= k <= S -> 0 <= q ->
  let r := rate_of W S in let wal := W + q - to_wal r k in
  0 <= to_wal r k <= W /\ S - k + to_share r q <= to_share r wal /\ to_share r wal <= wal.
Proof.
  intros HS Hk Hq. cbn zeta. unfold rate_of. destruct (Z.eqb_spec W 0), (Z.eqb_spec S 0); cbn [orb to_wal to_share]; try lia.
  pose proof (Z.mul_div_le (k * W) S ltac:(lia)) as H1. assert (0 <= k * W / S) by (apply Z.div_pos; nia).
  assert (k * W / S <= W) by (apply Z.div_le_upper_bound; nia). split_and!; [done|done| |].
  - apply Z.div_le_lower_bound; [lia|]. pose proof (Z.mul_div_le (q * S) W ltac:(lia)). nia.
  - apply Z.div_le_upper_bound; nia.
Qed.

Lemma amount_lt m e : pending_ok m -> amount e m < 2 ^ 64.
Proof.
  intros Hm. destruct (contains e m) eqn:Hc.
  - unfold contains in Hc. destruct (get_idx_opt e m) as [i|] eqn:Hi; [|done]. apply get_idx_opt_Some in Hi as (v & Hv). apply list_elem_of_lookup_2 in Hv.
    rewrite (amount_elem e v) by (done || apply Hm). destruct Hm as [_ Hm]. rewrite Forall_forall in Hm. by apply (Hm v), (list_elem_of_fmap_2 snd _ _ Hv).
  - rewrite absent_amount by done. lia.
Qed.

(** Of the stakes that were withdrawn early, those of the last epoch are due. *)
Lemma pre_shares_last p e m : pending_ok m -> upto e m = 0 -> pre_shares p (e + 1) m = to_share (rate_at p e) (amount (e + 1) m).
Proof.
  induction m as [|[k v] m IH]; [by rewrite to_share_0|]. intros (Hv & Hk & Hm)%pending_cons Hup. rewrite sumif_cons in *.
  pose proof (sumif_nonneg (fun x => x <=? e) m Hm). unfold pre_shares. cbn [fmap list_fmap fst snd]. unfold zsum. cbn [foldr].
  fold (zsum ((fun x : Z * Z => if x.1 <=? e + 1 then to_share (rate_at p (x.1 - 1)) x.2 else 0) <$> m)). fold (pre_shares p (e + 1) m).
  destruct (Z.leb_spec k e).
  - assert (v = 0) as -> by lia. rewrite IH by (done || lia). destruct (Z.leb_spec k (e + 1)), (Z.eqb_spec k (e + 1)); try lia. by rewrite to_share_0.
  - rewrite IH by (done || lia). destruct (Z.eqb_spec k (e + 1)) as [->|].
    + rewrite (proj2 (Z.leb_le _ _)) by lia. replace (e + 1 - 1) with e by lia.
      rewrite (absent_amount (e + 1) m) by (by apply contains_false). rewrite to_share_0. by rewrite !Z.add_0_r.
    + rewrite (proj2 (Z.leb_gt _ _)) by lia. done.
Qed.

Section epoch.
Context (E : Z) (cur : bool) (nxt : option bool) (HE : E + 1 < 2 ^ 32).
Implicit Types (A : Z -> Z) (p : StakingPool).
Abbreviation next := (bool_decide (nxt = Some true)).

(** What is left of pending values after an epoch change. *)
Lemma amount_after a c m : c < a -> amount a (after c m) = amount a m.
Proof. intros Ha. rewrite sumif_after. apply sumif_ext. intros x. destruct (Z.eqb_spec x a); cbn; lia. Qed.
Lemma upto_after c m : upto c (after c m) = 0.
Proof.
  rewrite sumif_after. erewrite (sumif_ext _ (fun _ => false)); [|intros x; lia]. unfold sumif. induction m; [done|]. done.
Qed.
Lemma total_after c m : total (after c m) = total m - upto c m.
Proof.
  rewrite sumif_after. induction m as [|[k v] m IH]; [done|]. rewrite !sumif_cons, IH. destruct (Z.ltb_spec c k), (Z.leb_spec k c); cbn; lia.
Qed.

(** The pool of a node that stays out, and was never in, a committee. *)
Lemma idle_inv A p : pool_inv E cur nxt A p -> cur = false -> nxt <> Some true -> fresh E cur nxt A p -> pool_inv (E + 1) false None A p.
Proof.
  intros [P1 P2 P3 P4 P5 P6 _] Hc Hn [F1 F2 F3 F4 F5 F6 F7]. specialize (F6 Hn).
  assert (forall f, sumif f (pre_active_withdrawals p) = 0) as Hz.
  { intros f. apply Z.le_antisymm; [|apply sumif_nonneg, (wf_pre _ P1)]. rewrite <- F6. by apply sumif_mono; [apply (wf_pre _ P1)|]. }
  split; try done; [lia|lia|intros a Ha; apply P6; lia|]. left. split; try done; [left; destruct F4 as [|[_ ->]]; lia|].
  rewrite upto_next, F7, P6, Hz by lia. unfold staked_upto. rewrite (zsum_epochs_next A E P3). lia.
Qed.

Lemma pool_inv_rates p c A : pool_inv E cur nxt A p -> cur = true \/ nxt = Some true -> E < c -> exchange_rates p !! c = None /\ activation_epoch p <= E.
Proof.
  intros [_ _ _ _ _ _ [[F1 _ F3 F4 _ _ _]|[_ F2 F3 _ _ _]]] Hin Hc.
  - destruct F4 as [F4|[F4 _]]; [|rewrite F1, F4 in Hin; by destruct Hin]. rewrite F3. split; [|done]. apply lookup_singleton_ne. lia.
  - split; [|lia]. destruct (exchange_rates p !! c) as [r|] eqn:Hr; [|done]. apply F3 in Hr. lia.
Qed.

(** The rates of the epochs before are kept, the new one is that of the balance. *)
Lemma processed_rates p c : activation_epoch p <= c -> exchange_rates p !! c = None ->
  (forall a, a < c -> rate_at (processed p c) a = rate_at p a) /\ rate_at (processed p c) c = rate_now p.
Proof.
  intros Ha Hc. split; [intros a Hac; by eapply rate_at_insert|]. apply rate_at_here; [by apply lookup_insert_eq|done].
Qed.

Lemma processed_wf p c : pool_wf p -> to_wal (rate_now p) (withdrawn p c) <= wal_balance p + upto c (pending_stake p) < 2 ^ 64 -> pool_wf (processed p c).
Proof.
  intros Hp Hle. pose proof (rate_now_ok p Hp) as Hr. pose proof (to_wal_nonneg _ _ Hr (withdrawn_nonneg p c Hp)).
  destruct Hp as [W1 W2 W3 W4 [R1 R2 R3] W6 W7]. unfold processed. split; pool_simpl; try (by apply pending_after).
  - apply Forall_forall. intros k (x & -> & Hx)%list_elem_of_fmap. apply list_elem_of_filter in Hx as [_ Hx]. rewrite Forall_forall in W4. by apply W4, list_elem_of_fmap_2.
  - split; pool_simpl; [done| |by apply map_Forall_insert_2].
    destruct (decide (activation_epoch p = c)) as [->|]; [by rewrite lookup_insert_eq|by rewrite lookup_insert_ne].
  - apply to_share_bounds; [done|lia].
  - lia.
Qed.

(** The shares of the pool after the epoch change cover the stakes. *)
Lemma processed_covers A p : pool_wf p -> 0 <= E -> (forall a, 0 <= A a) -> (forall a, E < a -> amount a (pending_stake p) = A a + amount (a + 1) (pre_active_withdrawals p)) ->
  exchange_rates p !! (E + 1) = None -> activation_epoch p <= E -> upto E (pending_stake p) = 0 -> upto E (pre_active_withdrawals p) = 0 ->
  obligations p A E + to_share (rate_at p E) (amount (E + 1) (pre_active_withdrawals p)) + total (pending_shares_withdraw p) <= num_shares p ->
  let c := E + 1 in
  to_wal (rate_now p) (withdrawn p c) <= wal_balance p /\ withdrawn p c <= num_shares p /\
  obligations (processed p c) A c + to_share (rate_at (processed p c) c) (amount (c + 1) (after c (pre_active_withdrawals p))) +
    total (after c (pending_shares_withdraw p)) <= to_share (rate_now p) (wal_balance p + upto c (pending_stake p) - to_wal (rate_now p) (withdrawn p c)).
Proof.
  intros Hp HE0 HA Hnext Hc Hact Hup Hpre Hob. cbn zeta. pose proof Hp as [W1 W2 W3 W4 Hro W6 W7].
  assert (0 <= obligations p A E) as Hob0.
  { apply zsum_nonneg, Forall_fmap, Forall_forall. intros a Ha%elem_of_seqZ. apply to_share_bounds; [apply rate_at_eq; [done|lia]|done]. }
  pose proof (withdrawn_nonneg p (E + 1) Hp) as Hk0. assert (withdrawn p (E + 1) = upto (E + 1) (pending_shares_withdraw p) +
    to_share (rate_at p E) (amount (E + 1) (pre_active_withdrawals p))) as Hk by (unfold withdrawn; by rewrite pre_shares_last).
  pose proof (sumif_mono (fun x => x <=? E + 1) (fun _ => true) _ W2 ltac:(done)) as Hmono.
  assert (0 <= upto (E + 1) (pending_stake p)) as Hq0 by (by apply sumif_nonneg).
  pose proof (shares_cover (wal_balance p) (num_shares p) (withdrawn p (E + 1)) (upto (E + 1) (pending_stake p)) W6 ltac:(lia) Hq0) as (Hw & Hs & Hle).
  fold (rate_now p) in Hw, Hs, Hle. split; [lia|]. split; [lia|]. destruct (processed_rates p (E + 1) ltac:(lia) Hc) as [Hold Hnew].
  rewrite Hnew, total_after, amount_after by lia.
  assert (obligations (processed p (E + 1)) A (E + 1) = obligations p A E + to_share (rate_now p) (A (E + 1))) as ->.
  { unfold obligations. rewrite zsum_epochs_next, Hnew by done. f_equal. apply zsum_epochs_same. intros a Ha. by rewrite Hold by lia. }
  pose proof (to_share_add (rate_now p) (A (E + 1)) (amount (E + 1 + 1) (pre_active_withdrawals p)) (rate_now_ok p Hp) (HA _) (sumif_nonneg _ _ W3)) as Hadd.
  rewrite <- Hnext in Hadd by lia.
  pose proof (upto_next E (pending_stake p)) as Hun. rewrite Hup, Z.add_0_l in Hun. rewrite Hun in *. lia.
Qed.

(** The same when the pool comes into a committee for the first time. *)
Lemma fresh_covers A p : pool_wf p -> 0 <= E -> (forall a, 0 <= A a) -> (forall a, E < a -> amount a (pending_stake p) = A a + amount (a + 1) (pre_active_withdrawals p)) ->
  exchange_rates p = {[ activation_epoch p := Flat ]} -> activation_epoch p <= E -> wal_balance p = 0 -> num_shares p = 0 ->
  upto (E + 1) (pre_active_withdrawals p) = 0 -> upto E (pending_stake p) = staked_upto A E + total (pending_shares_withdraw p) ->
  let c := E + 1 in
  to_wal (rate_now p) (withdrawn p c) <= upto c (pending_stake p) /\ withdrawn p c <= upto c (pending_stake p) /\
  obligations (processed p c) A c + to_share (rate_at (processed p c) c) (amount (c + 1) (after c (pre_active_withdrawals p))) +
    total (after c (pending_shares_withdraw p)) <= to_share (rate_now p) (wal_balance p + upto c (pending_stake p) - to_wal (rate_now p) (withdrawn p c)).
Proof.
  intros Hp HE0 HA Hnext Hr Hact Hw Hs Hpre Hup. cbn zeta. pose proof Hp as [W1 W2 W3 W4 Hro W6 W7].
  assert (rate_now p = Flat) as Hflat by (unfold rate_now, rate_of; by rewrite Hw).
  assert (exchange_rates p !! (E + 1) = None) as Hc by (rewrite Hr; apply lookup_singleton_ne; lia).
  destruct (processed_rates p (E + 1) ltac:(lia) Hc) as [Hold Hnew]. rewrite Hnew, Hflat. cbn [to_wal to_share].
  assert (withdrawn p (E + 1) = upto (E + 1) (pending_shares_withdraw p)) as Hk.
  { unfold withdrawn. pose proof (upto_next E (pre_active_withdrawals p)) as Hu. pose proof (sumif_nonneg (fun x => x <=? E) _ W3).
    pose proof (sumif_nonneg (fun x => x =? E + 1) _ W3). rewrite pre_shares_last by (done || lia).
    replace (amount (E + 1) (pre_active_withdrawals p)) with 0 by lia. rewrite to_share_0. lia. }
  pose proof (sumif_mono (fun x => x <=? E + 1) (fun _ => true) _ W2 ltac:(done)) as Hmono.
  assert (obligations (processed p (E + 1)) A (E + 1) = staked_upto A (E + 1)) as ->.
  { apply zsum_epochs_same. intros a Ha. destruct (decide (a = E + 1)) as [->|]; [by rewrite Hnew, Hflat|]. by rewrite Hold, (rate_at_flat p a Hr) by lia. }
  assert (staked_upto A (E + 1) = staked_upto A E + A (E + 1)) as -> by (by apply zsum_epochs_next).
  assert (0 <= staked_upto A E) as H0 by (apply zsum_nonneg, Forall_fmap, Forall_forall; intros a _; apply HA).
  pose proof (upto_next E (pending_stake p)) as Hun. rewrite Hup, (Hnext (E + 1)) in Hun by lia. rewrite total_after, amount_after, Hk, Hw by lia.
  pose proof (HA (E + 1)). pose proof (sumif_nonneg (fun x => x =? E + 1 + 1) _ W3). lia.
Qed.

(** Rewards do not make the withdrawals of an epoch larger than they are. *)
Lemma to_wal_rewarded W S k b : 0 <= S <= W -> 0 <= k <= S -> 0 <= b -> to_wal (rate_of (W + b) S) k <= to_wal (rate_of W S) k + b.
Proof.
  intros HS Hk Hb. unfold rate_of. destruct (Z.eqb_spec W 0), (Z.eqb_spec S 0); cbn [orb]; try lia.
  - rewrite orb_true_r. cbn. lia.
  - rewrite orb_true_r. cbn. lia.
  - rewrite (proj2 (Z.eqb_neq _ _)) by lia. cbn. rewrite <- Z.div_add by lia. apply Z.div_le_mono; nia.
Qed.

(** The epoch change succeeds as long as the amounts fit in 64 bits. *)
Lemma advance_ok A p rewards : pool_inv E cur nxt A p -> cur = true \/ nxt = Some true -> fits p rewards (E + 1) ->
  exists p1, rewarded p p1 (net_rewards p rewards) /\ pool_wf p1 /\
    to_wal (rate_now p1) (withdrawn p1 (E + 1)) <= wal_balance p1 + upto (E + 1) (pending_stake p1) /\
    pool_advance_epoch p rewards (mk_wctx (E + 1) false) = Ok (processed p1 (E + 1)) /\
    pool_inv (E + 1) next None A (processed p1 (E + 1)) /\
    withdrawn p1 (E + 1) < 2 ^ 64 /\ (net_rewards p rewards = 0 \/ withdrawn p1 (E + 1) <= num_shares p1).
Proof.
  intros Hinv Hin Hfit. pose proof Hfit as [Hr Hrw Hf1 Hf2 Hf3]. destruct (pool_inv_rates p (E + 1) A Hinv Hin ltac:(lia)) as [Hc Hact]. destruct Hinv as [P1 P2 P3 P4 P5 P6 P7].
  pose proof P1 as [W1 W2 W3 W4 [R1 R2 R3] W6 W7]. assert (0 <= upto (E + 1) (pending_stake p)) as Hq0 by (by apply sumif_nonneg).
  destruct (advance_rewards p rewards (E + 1) false P2 P1 ltac:(lia) Hfit) as (p1 & Hadv & Hrwd & Hco & Hl & _). pose proof Hrwd as [I1 I2 I3 (I4 & I5) (I6 & I7 & I8) I9].
  pose proof (net_rewards_bounds p rewards P2 ltac:(lia)) as Hnet.
  assert (pool_wf p1) as Hwf. { split; rewrite ?I2, ?I3, ?I6, ?I7, ?I8; try done; try lia. split; by rewrite ?I4, ?I5. }
  assert (forall a, rate_at p1 a = rate_at p a) as Hrate by (intros a; by apply rate_at_same).
  assert (upto (E + 1) (pre_active_withdrawals p1) < 2 ^ 64 /\ withdrawn p1 (E + 1) < 2 ^ 64 /\
    (net_rewards p rewards = 0 \/ withdrawn p1 (E + 1) <= num_shares p1) /\
    to_wal (rate_now p1) (withdrawn p1 (E + 1)) <= wal_balance p1 + upto (E + 1) (pending_stake p1) /\
    obligations (processed p1 (E + 1)) A (E + 1) + to_share (rate_at (processed p1 (E + 1)) (E + 1)) (amount (E + 1 + 1) (after (E + 1) (pre_active_withdrawals p1))) +
      total (after (E + 1) (pending_shares_withdraw p1)) <= num_shares (processed p1 (E + 1))) as (Hpre & Hk & Hkn & Hle & Hcov).
  { assert (forall a, E < a -> amount a (pending_stake p1) = A a + amount (a + 1) (pre_active_withdrawals p1)) as Hnext by (by rewrite I6, I8).
    destruct P7 as [[F1 [F2 F2'] F3 F4 F5 F6 F7]|[F1 F2 F3 F4 F5 F6]].
    - assert (net_rewards p rewards = 0) as Hn0 by (assert (rewards = 0) as -> by lia; by unfold net_rewards).
      destruct (fresh_covers A p1 Hwf P3 P4 Hnext) as (H1 & H2 & H3);
        [by rewrite I4, I5|by rewrite I5|rewrite I2; lia|by rewrite I3|by rewrite I8|by rewrite I6, I7|].
      split_and!; [rewrite I8; lia|rewrite I6 in H2; lia|by left|rewrite I2; lia|exact H3].
    - destruct (processed_covers A p1 Hwf P3 P4 Hnext) as (H1 & H2 & H3); [by rewrite I4|rewrite I5; lia|by rewrite I6|by rewrite I8| |].
      { rewrite I3, I7, I8, Hrate. unfold obligations in *. erewrite zsum_epochs_same; [exact F6|]. intros a _. cbn. by rewrite Hrate. }
      pose proof (amount_lt (pre_active_withdrawals p) (E + 1) W3). 
      assert (0 <= upto (E + 1) (pending_stake p1)) by (by rewrite I6). split_and!; [rewrite I8, upto_next, F5; lia|rewrite I3 in H2; lia|by right|lia|exact H3]. }
  exists p1. assert (to_wal (rate_now p1) (withdrawn p1 (E + 1)) < 2 ^ 64) by (rewrite I2, I6 in Hle; lia). split_and!; [done|done|done| | |done|done].
  - rewrite Hadv, process_pending_eq by (done || (by rewrite I4) || (rewrite I2, I6; lia)). by rewrite (proj2 (Z.ltb_lt _ _)), (proj2 (Z.leb_le _ _)).
  - pose proof (processed_wf p1 (E + 1) Hwf ltac:(rewrite I2, I6 in *; lia)) as Hwf'. split; [done|by destruct Hco|lia|done|by apply Z.eq_le_incl| |right].
    + intros a Ha. unfold processed. pool_simpl. rewrite !amount_after, I6, I8 by lia. apply P6. lia.
    + split; [done|unfold processed; pool_simpl; rewrite lookup_insert_eq; split; [lia|by eexists]| |apply upto_after|apply upto_after|exact Hcov]. unfold processed. pool_simpl.
      apply map_Forall_insert_2; [lia|]. rewrite I4. intros e r He. destruct P7 as [F|F].
      * rewrite (fr_rates _ _ _ _ _ F) in He. apply lookup_singleton_Some in He as [<- _]. lia.
      * apply (ad_rates _ _ _ F) in He. lia.
Qed.

End epoch.

(** ** The value of shares *)

(** Shares are worth at least as much at the second rate as at the first. *)
Definition amounts (r : PoolExchangeRate) : Z * Z := match r with Flat => (1, 1) | Variable_ wal share => (wal, share) end.
Definition price_le (r1 r2 : PoolExchangeRate) : Prop := (amounts r1).1 * (amounts r2).2 <= (amounts r2).1 * (amounts r1).2.

(** As long as stake that became active in epoch [a] has shares, their value does not fall. *)
Definition prices_ok (E : Z) (A : Z -> Z) (p : StakingPool) : Prop :=
  forall a, 0 <= a <= E -> 0 < to_share (rate_at p a) (A a) ->
    (forall e e', a <= e -> e <= e' -> e' <= E -> price_le (rate_at p e) (rate_at p e')) /\
    price_le (rate_at p E) (Variable_ (wal_balance p) (num_shares p)).

Section prices.
Implicit Types (A : Z -> Z) (p : StakingPool).

Lemma price_le_refl r : price_le r r.
Proof. unfold price_le. lia. Qed.

Lemma price_le_trans r1 r2 r3 : rate_ok r2 -> 0 < (amounts r1).2 -> 0 <= (amounts r3).2 -> price_le r1 r2 -> price_le r2 r3 -> price_le r1 r3.
Proof.
  unfold price_le. destruct r1 as [|w1 s1], r2 as [|w2 s2], r3 as [|w3 s3]; cbn; intros Hr H1 H3 H12 H23; nia.
Qed.

Lemma to_wal_price r1 r2 x : rate_ok r1 -> rate_ok r2 -> 0 <= x -> price_le r1 r2 -> to_wal r1 x <= to_wal r2 x.
Proof.
  unfold price_le. destruct r1 as [|w1 s1], r2 as [|w2 s2]; cbn; intros H1 H2 Hx Hle; [done| | |].
  - apply Z.div_le_lower_bound; nia.
  - apply Z.div_le_upper_bound; nia.
  - apply Z.div_le_lower_bound; [lia|]. pose proof (Z.mul_div_le (x * w1) s1 ltac:(lia)).
    assert (0 <= x * w1 / s1) by (apply Z.div_pos; nia). nia.
Qed.

(** The balance after the epoch change has a price that is not lower. *)
Lemma price_processed p c : pool_wf p -> to_wal (rate_now p) (withdrawn p c) <= wal_balance p + upto c (pending_stake p) ->
  price_le (rate_now p) (Variable_ (wal_balance (processed p c)) (num_shares (processed p c))).
Proof.
  intros Hp Hle. unfold processed. pool_simpl. set (wal := wal_balance p + _ - _) in *. assert (0 <= wal) by (unfold wal; lia).
  pose proof (rate_now_ok p Hp). unfold price_le. destruct (rate_now p) as [|w s]; cbn in *; [lia|].
  pose proof (Z.mul_div_le (wal * s) w ltac:(lia)). nia.
Qed.

Lemma prices_less E A A' p p' : prices_ok E A p -> rates_ok p -> E < 2 ^ 32 -> (forall a, a <= E -> A' a <= A a) ->
  (forall a, rate_at p' a = rate_at p a) -> wal_balance p' = wal_balance p -> num_shares p' = num_shares p -> prices_ok E A' p'.
Proof.
  intros Hp Hro HE HA Hr Hw Hs a Ha H0. rewrite Hw, Hs, !Hr in *. destruct (Hp a Ha) as [H1 H2].
  - pose proof (to_share_mono (rate_at p a) (A' a) (A a) (proj2 (rate_at_eq p a Hro ltac:(lia))) (HA a ltac:(lia))). lia.
  - split; [|done]. intros e e' ???. rewrite !Hr. by apply H1.
Qed.

(** A pool that was never in a committee. *)
Lemma prices_fresh E cur nxt A p : fresh E cur nxt A p -> prices_ok E A p.
Proof.
  intros [_ [Hw Hs] Hr _ _ _ _] a Ha _. split; [intros e e' _ _ _|]; rewrite !(rate_at_flat p _ Hr); [apply price_le_refl|].
  unfold price_le. cbn. lia.
Qed.

Lemma obligations_one p A E a : rates_ok p -> E < 2 ^ 32 -> (forall a, 0 <= A a) -> 0 <= a <= E -> to_share (rate_at p a) (A a) <= obligations p A E.
Proof.
  intros Hr HE HA Ha. apply (zsum_elem _ (Z.to_nat a)).
  - apply Forall_fmap, Forall_forall. intros x Hx%elem_of_seqZ. apply to_share_bounds; [apply rate_at_eq; [done|lia]|apply HA].
  - rewrite list_lookup_fmap, lookup_seqZ_lt by lia. cbn. by rewrite Z2Nat.id by lia.
Qed.

Lemma prices_advance E cur nxt A p p1 b : E + 1 < 2 ^ 32 -> pool_inv E cur nxt A p -> cur = true \/ nxt = Some true -> prices_ok E A p ->
  rewarded p p1 b -> 0 <= b -> pool_wf p1 -> to_wal (rate_now p1) (withdrawn p1 (E + 1)) <= wal_balance p1 + upto (E + 1) (pending_stake p1) ->
  pool_inv (E + 1) (bool_decide (nxt = Some true)) None A (processed p1 (E + 1)) -> prices_ok (E + 1) A (processed p1 (E + 1)).
Proof.
  intros HE Hinv Hin Hp [I1 I2 I3 (I4 & I5) (I6 & I7 & I8) I9] Hb Hwf Hle Hinv'. destruct (pool_inv_rates E cur nxt p (E + 1) A Hinv Hin ltac:(lia)) as [Hc Hact].
  destruct (processed_rates p1 (E + 1)) as [Hold Hnew]; [rewrite I5; lia|by rewrite I4|]. pose proof (price_processed p1 (E + 1) Hwf Hle) as Hpp.
  assert (forall e, rate_at p1 e = rate_at p e) as Hrate by (intros e; by apply rate_at_same).
  intros a Ha H0. rewrite Hnew. split; [|done]. intros e e' Hae Hee Hec. destruct (decide (e' = E + 1)) as [->|].
  2: { rewrite !Hold, !Hrate by lia. rewrite Hold, Hrate in H0 by lia. apply (proj1 (Hp a ltac:(lia) H0)); lia. }
  destruct (decide (e = E + 1)) as [->|]; [apply price_le_refl|]. rewrite Hnew, (Hold e), Hrate by lia. rewrite Hold, Hrate in H0 by lia.
  destruct (Hp a ltac:(lia) H0) as [Hmono Hlast]. pose proof (pi_wf _ _ _ _ _ Hinv) as [_ _ _ _ Hro Hbal Hran].
  destruct (pi_phase _ _ _ _ _ Hinv) as [F|F].
  - rewrite (rate_at_flat p e (fr_rates _ _ _ _ _ F)). unfold rate_now, rate_of. destruct (fr_wal _ _ _ _ _ F) as [_ Hs]. rewrite I3, Hs, orb_true_r. apply price_le_refl.
  - assert (0 < num_shares p) as Hpos.
    { pose proof (obligations_one p A E a Hro ltac:(lia) (pi_stakes _ _ _ _ _ Hinv) ltac:(lia)). destruct (pi_wf _ _ _ _ _ Hinv) as [_ Hsw Hpre _ _ _ _].
      pose proof (sumif_nonneg (fun _ => true) _ Hsw). pose proof (ad_shares _ _ _ F).
      pose proof (to_share_bounds (rate_at p E) _ (proj2 (rate_at_eq p E Hro ltac:(lia))) (sumif_nonneg (fun x => x =? E + 1) _ Hpre)). lia. }
    destruct (rate_at_eq p e Hro ltac:(lia)) as [_ Hre]. assert (0 < (amounts (rate_at p e)).2) as Hs0 by (destruct (rate_at p e); cbn in *; lia).
    apply (price_le_trans _ (Variable_ (wal_balance p) (num_shares p))); [cbn; lia|done| | |].
    + unfold rate_now, rate_of. rewrite I2, I3. destruct (_ || _); cbn; lia.
    + apply (price_le_trans _ (rate_at p E)); [apply rate_at_eq; [done|lia]|done|cbn; lia| |done]. apply Hmono; lia.
    + unfold rate_now, rate_of, price_le. rewrite I2, I3, (proj2 (Z.eqb_neq _ 0)), (proj2 (Z.eqb_neq (num_shares p) 0)) by lia. cbn. nia.
Qed.

End prices.
