(* ===== verification/StakingContractProps.v ===== *)
(** * The staking contract with its pools: what holds in every run

    [contract_step] is one transaction.  Every run of the contract is a run of
    [StakingEpochs], whose balances are those of the pools, so that what is proved
    there of committees and epochs holds of the contract; no WAL is lost or created;
    the vote at the end of an epoch decides on a committee and a capacity; slashing
    takes exactly a quorum of the current committee. *)

From stdpp Require Import sorting functions.
From S2P Require Import Prelude Redstuff MoveStd ApportionmentQueue Apportionment Committee Staking StakingProps StakingEpochs.
From S2P Require Import StakingPool StakingContract StakingPoolProps.

Definition view (c : StakingContract) : staking_state := (staking_inner c, sync_done c).

(** What the chain and the system contract guarantee about a call: new objects
    have fresh identifiers, arguments are in the range of their types, rewards are for the members of the
    committee, and there are epochs left. *)
Definition staking_allowed (call : StakingCall) (c : StakingContract) : Prop :=
  epoch (staking_inner c) + 2 < 2 ^ 32 /\
  match call with
  | RegisterCandidate id _ _ _ _ _ _ rate _ _ capacity => pools c !! id = None /\ 0 <= rate /\ 0 <= capacity < 2 ^ 64
  | StakeWithPool to_stake _ object_id => 0 <= to_stake < 2 ^ 64 /\ staked_wals c !! object_id = None
  | SplitStake _ amount new_id => 0 <= amount < 2 ^ 64 /\ staked_wals c !! new_id = None
  | SetNextCommission _ rate => 0 <= rate
  | SetNodeCapacityVote _ capacity => 0 <= capacity < 2 ^ 64
  | AddCommissionToPools _ commissions => Forall (Z.le 0) commissions
  | InitiateEpochChange _ rewards => rewards.*1 ≡ₚ (inner (committee (staking_inner c))).*1 /\ Forall (fun x => 0 <= x < 2 ^ 64) rewards.*2
  | _ => True
  end.

Inductive contract_step (c : StakingContract) (paid : Z) (c' : StakingContract) : Prop :=
| st_call call : staking_allowed call c -> staking_execute call c = Ok (c', paid) -> contract_step c paid c'.

(** The states that the contract can get into, whatever is called. *)
Definition contract_runs : relation StakingContract := rtc (fun c c' => exists paid, contract_step c paid c').

(** The contract after a run, with what was paid in. *)
Inductive contract_reachable (n : Z) : StakingContract -> Z -> Prop :=
| co_init zero duration now c : contract_new zero duration n now = Ok c -> contract_reachable n c 0
| co_step c paid c' sum : contract_reachable n c sum -> contract_step c paid c' -> contract_reachable n c' (sum + paid).

(** ** The active set *)

Lemma wal_balance_nonneg p e b : wal_balance_at_epoch p e = Ok b -> 0 <= b.
Proof. unfold wal_balance_at_epoch. intros Hb. call_inv. lia. Qed.

(** [c'] is [c] with another active set. *)
Record active_changed (c c' : StakingContract) : Prop := {
  ac_step : staking_step (view c) (view c');
  ac_inner : exists set, staking_inner c' = set_active_set set (staking_inner c);
  ac_pools : pools c' = pools c;
  ac_wals : staked_wals c' = staked_wals c;
  ac_slashing : slashing_candidates c' = slashing_candidates c;
}.

Lemma update_active_set_ok c id p c' : update_active_set c id p = Ok c' -> active_changed c c'.
Proof.
  unfold update_active_set, next_balance. intros Hu. call_inv.
  match goal with H : wal_balance_at_epoch _ _ = Ok ?b |- _ => pose proof (wal_balance_nonneg _ _ _ H) as Hb end.
  match goal with H : try_join_active_set _ _ _ = Ok _ |- _ => rename H into Hj end. split; try done; [by eapply step_stake|].
  unfold try_join_active_set in Hj. call_inv. by eexists.
Qed.

(** The node has the balance of its pool in the set, or is not in it. *)
Lemma update_active_set_nodes c id p c' : update_active_set c id p = Ok c' -> exists balance b, next_balance (staking_inner c) p = Ok balance /\
  0 <= balance /\ insert_or_update (active_set (staking_inner c)) id balance = Ok (active_set (staking_inner c'), b).
Proof.
  unfold update_active_set, try_join_active_set. intros Hu. call_inv. eexists _, _. split_and!; [done| |done].
  unfold next_balance in *. call_inv. by eapply wal_balance_nonneg.
Qed.

Lemma update_balances_nodes bal ids set set' : (forall id, 0 <= bal id) -> NoDup ids -> active_wf set -> 0 <= threshold_stake set ->
  update_balances bal ids set = Ok set' ->
  forall e, e ∈ nodes set' -> if decide (node_id e ∈ ids) then staked_amount e = bal (node_id e) else e ∈ nodes set.
Proof.
  intros Hb. revert set. induction ids as [|id ids IH]; intros set Hnd Hwf Hth Hu e He; [injection Hu as <-; by rewrite decide_False by apply not_elem_of_nil|].
  apply NoDup_cons in Hnd as [Hid Hnd]. cbn in Hu. pose proof (insert_or_update_ok set id (bal id) Hwf Hth (Hb id)) as Hup.
  destruct (insert_or_update set id (bal id)) as [[set1 b]|?|]; cbn [mbind outcome_bind] in Hu; [|done|done].
  destruct Hup as [Hwf1 _ Hth1 Hself Hold _]. specialize (IH set1 Hnd Hwf1 ltac:(by rewrite Hth1) Hu e He). destruct (decide (node_id e ∈ ids)) as [Hin|Hin].
  - by rewrite decide_True by (by apply list_elem_of_further).
  - destruct (decide (node_id e = id)) as [Heq|Hne].
    + rewrite decide_True by (rewrite Heq; apply list_elem_of_here). apply (Hself e Heq) in IH as [_ ->]. done.
    + rewrite decide_False by (by intros [|]%elem_of_cons). by apply Hold.
Qed.

(** ** Epoch changes *)

Lemma advance_latest p r wctx p' : pool_advance_epoch p r wctx = Ok p' -> latest_epoch p < wctx_epoch wctx /\ latest_epoch p' = wctx_epoch wctx.
Proof. unfold pool_advance_epoch, process_pending_stake, add_commission. intros Ha. call_inv. checked. by pool_simpl. Qed.

(** What the epoch change does to pools: those of [l] are advanced, once each. *)
Record pools_advanced (wctx : WalrusContext) (l : VecMap Z) (ps ps' : gmap ID StakingPool) : Prop := {
  pa_once : NoDup l.*1;
  pa_others : forall id, id ∉ l.*1 -> ps' !! id = ps !! id;
  pa_advanced : forall id r, (id, r) ∈ l -> exists p p', ps !! id = Some p /\ ps' !! id = Some p' /\ pool_advance_epoch p r wctx = Ok p';
}.

Lemma advance_pools wctx l ps set ps' set' : foldM (advance_pool wctx) (ps, set) l = Ok (ps', set') -> pools_advanced wctx l ps ps' /\
  exists bal : ID -> Z, (forall id, 0 <= bal id) /\
    (forall id, id ∈ l.*1 -> exists p, ps' !! id = Some p /\ wal_balance_at_epoch p (wctx_epoch wctx + 1) = Ok (bal id)) /\
    forall bal', (forall id, id ∈ l.*1 -> bal' id = bal id) -> update_balances bal' l.*1 set = Ok set'.
Proof.
  revert ps set. induction l as [|[id r] l IH]; intros ps set Hf.
  { cbn in Hf. injection Hf as <- <-. split; [split; [constructor|done|by intros ? ? ?%elem_of_nil]|]. exists (fun _ => 0). split_and!; [done|by intros ? ?%elem_of_nil|done]. }
  cbn [foldM] in Hf. apply bind_Ok in Hf as ([ps1 set1] & H1 & Hf). apply IH in Hf as ([Hn Ho Ha] & bal & Hb & Hbp & Hu). unfold advance_pool in H1. call_inv. checked.
  match goal with H : ps !! id = Some ?q |- _ => rename H into Hp; rename q into p end.
  match goal with H : pool_advance_epoch _ _ _ = Ok ?q |- _ => rename H into Hadv; rename q into p1 end.
  match goal with H : wal_balance_at_epoch _ _ = Ok ?q |- _ => pose proof (wal_balance_nonneg _ _ _ H) as Hq; rename q into bl end.
  match goal with H : insert_or_update _ _ _ = Ok _ |- _ => rename H into Hins end. pose proof (advance_latest _ _ _ _ Hadv) as [_ Hlat].
  assert (id ∉ l.*1) as Hid.
  { intros (x & Hx & Hin)%list_elem_of_fmap. destruct x as [? r2]. cbn in Hx. subst. destruct (Ha _ _ Hin) as (q & ? & Hq1 & _ & Hq2).
    rewrite lookup_insert_eq in Hq1. injection Hq1 as <-. apply advance_latest in Hq2 as [Hlt _]. lia. }
  split.
  - split; [by constructor| |].
    + intros x [Hx Hxl]%not_elem_of_cons. cbn in Hx. rewrite Ho by done. by rewrite lookup_insert_ne.
    + intros x r' [[= <- <-]|Hin]%elem_of_cons.
      * exists p, p1. split_and!; [done| |done]. rewrite Ho by done. apply lookup_insert_eq.
      * destruct (Ha _ _ Hin) as (q & q' & Hq1 & Hq2 & Hadv'). exists q, q'. split_and!; [|done|done]. rewrite lookup_insert_ne in Hq1; [done|].
        intros ->. apply Hid. by apply (list_elem_of_fmap_2 fst _ _ Hin).
  - exists (fun x => if decide (x = id) then bl else bal x). split; [intros x; by case_decide|]. split.
    { intros x [->|Hx]%elem_of_cons; [rewrite decide_True by done; exists p1; split; [rewrite Ho by done; apply lookup_insert_eq|done]|].
      rewrite decide_False; [by apply Hbp|]. by intros ->. }
    intros bal' Hbal. unfold update_balances. cbn [fmap list_fmap foldM fst].
    rewrite (Hbal id) by apply list_elem_of_here. rewrite decide_True by done. rewrite Hins. cbn [mbind outcome_bind]. apply Hu.
    intros x Hx. rewrite Hbal by (by apply list_elem_of_further). rewrite decide_False; [done|]. by intros ->.
Qed.

(** The nodes whose pools are advanced, with their rewards. *)
Definition advanced_nodes (s : StakingInnerV1) (next : Committee) (rewards : VecMap Z) : VecMap Z :=
  rewards ++ ((fun id => (id, 0)) <$> snd (committee_diff (committee s) next)).

Record epoch_changed (c c' : StakingContract) (rewards : VecMap Z) (next : Committee) : Prop := {
  ec_next : next_committee (staking_inner c) = Some next;
  ec_step : staking_step (view c) (view c');
  ec_pools : pools_advanced (mk_wctx (epoch (staking_inner c) + 1) false) (advanced_nodes (staking_inner c) next rewards) (pools c) (pools c');
  ec_epoch : epoch (staking_inner c') = epoch (staking_inner c) + 1;
  ec_committee : committee (staking_inner c') = next /\ next_committee (staking_inner c') = None;
  ec_same : staked_wals c' = staked_wals c /\ slashing_candidates c' = slashing_candidates c;
  ec_active : exists bal, (forall id, 0 <= bal id) /\
    (forall id, id ∈ (advanced_nodes (staking_inner c) next rewards).*1 -> exists p, pools c' !! id = Some p /\
      wal_balance_at_epoch p (epoch (staking_inner c') + 1) = Ok (bal id)) /\
    update_balances bal (advanced_nodes (staking_inner c) next rewards).*1 (active_set (staking_inner c)) = Ok (active_set (staking_inner c'));
}.

Lemma epoch_change_ok c now rewards c' : contract_initiate_epoch_change c now rewards = Ok c' -> exists next, epoch_changed c c' rewards next.
Proof.
  intros Hi. unfold contract_initiate_epoch_change in Hi. destruct (epoch_state (staking_inner c)) as [| |t] eqn:Hst; [done|done|].
  apply bind_Ok in Hi as ([] & Htime & Hi). unfold contract_advance_epoch in Hi. apply bind_Ok in Hi as (next & Hn%ok_or_Ok & Hi). exists next.
  apply bind_Ok in Hi as (e & He & Hi). apply bind_Ok in Hi as (st & Hst1 & Hi). apply bind_Ok in Hi as ([ps set] & Hst2 & [= <-]).
  assert (foldM (advance_pool (mk_wctx e false)) (pools c, active_set (staking_inner c)) (advanced_nodes (staking_inner c) next rewards) = Ok (ps, set)) as Hf
    by (unfold advanced_nodes; by rewrite foldM_app, Hst1).
  apply advance_pools in Hf as (Hps & bal & Hb & Hbp & Hu). pose proof He as [-> Her]%move_arith_Ok.
  split; try done; [|exists bal; split_and!; [done|exact Hbp|by apply Hu]].
  apply (step_epoch_change _ _ now rewards.*1 bal); [done|]. unfold initiate_epoch_change. rewrite Hst, Htime. cbn [mbind outcome_bind].
  unfold advance_epoch. rewrite Hn. cbn [ok_or mbind outcome_bind]. rewrite He. cbn [mbind outcome_bind].
  specialize (Hu bal ltac:(done)). unfold advanced_nodes, update_balances in Hu. rewrite fmap_app, foldM_app in Hu. unfold update_balances.
  apply bind_Ok in Hu as (set1 & -> & Hu). cbn [mbind outcome_bind]. rewrite <- list_fmap_compose in Hu.
  rewrite (list_fmap_ext _ id) in Hu by done. rewrite list_fmap_id in Hu. rewrite Hu. done.
Qed.

(** A pool whose blocked commission may have been cleared. *)
Lemma cleared_pools s ps id : match clear_previous_committee_blocked_commission s ps !! id with
  | Some p' => exists p, ps !! id = Some p /\ (p' = p \/ p' = clear_blocked_commission p)
  | None => ps !! id = None
  end.
Proof.
  unfold clear_previous_committee_blocked_commission. generalize (inner (previous_committee s)).*1. intros l. revert ps.
  induction l as [|x l IH]; intros ps; cbn [foldl]; [destruct (ps !! id); eauto|].
  specialize (IH (match ps !! x with Some p => <[x := clear_blocked_commission p]> ps | None => ps end)).
  destruct (foldl _ _ l !! id) as [p'|].
  - destruct IH as (p & Hp & Hp'). destruct (ps !! x) as [q|] eqn:Hq; [|by exists p]. destruct (decide (x = id)) as [->|].
    + rewrite lookup_insert_eq in Hp. injection Hp as <-. exists q. split; [done|]. right. by destruct Hp' as [->| ->].
    + rewrite lookup_insert_ne in Hp by done. by exists p.
  - destruct (ps !! x) as [q|] eqn:Hq; [|done]. apply lookup_insert_None in IH as [? _]. done.
Qed.

Lemma voting_end_shape s now s' : voting_end s now = Ok s' -> epoch s' = epoch s /\ committee s' = committee s /\ next_committee s = None /\ n_shards s' = n_shards s.
Proof.
  unfold voting_end. destruct (epoch_state s) as [|t|]; [done| |done]. intros Hv. apply bind_Ok in Hv as ([] & _ & Hv). apply bind_Ok in Hv as (s1 & Hs1 & Hv).
  unfold select_committee in Hs1. call_inv. checked. done.
Qed.

Record voting_ended (c c' : StakingContract) (next : Committee) : Prop := {
  ve_step : staking_step (view c) (view c');
  ve_before : next_committee (staking_inner c) = None;
  ve_next : next_committee (staking_inner c') = Some next;
  ve_epoch : epoch (staking_inner c') = epoch (staking_inner c) /\ committee (staking_inner c') = committee (staking_inner c);
  ve_members : forall id, in_committee id next = true -> is_Some (pools c !! id);
  ve_pools : pools c' = clear_previous_committee_blocked_commission (staking_inner c) (pools c);
  ve_same : staked_wals c' = staked_wals c /\ slashing_candidates c' = slashing_candidates c;
}.

Lemma contains_true {V} k (m : VecMap V) : contains k m = true <-> k ∈ m.*1.
Proof. destruct (contains k m) eqn:Hc; [|apply contains_false in Hc; naive_solver]. split; [|done]. intros _. destruct (decide (k ∈ m.*1)) as [|Hn]; [done|]. apply contains_false in Hn. congruence. Qed.

Lemma capacity_votes_members c n cmt v id : capacity_votes c n cmt = Ok v -> id ∈ (inner cmt).*1 -> is_Some (pools c !! id).
Proof.
  unfold capacity_votes. intros Hv. match type of Hv with foldM ?f _ _ = _ => assert (forall l acc v, foldM f acc l = Ok v -> id ∈ l.*1 -> is_Some (pools c !! id)) as Hg end; [|by eapply Hg].
  clear. induction l as [|[k sh] l IH]; intros acc v Hf Hid; [by apply elem_of_nil in Hid|]. cbn [foldM] in Hf. apply bind_Ok in Hf as (acc1 & H1 & Hf).
  cbn in Hid. apply elem_of_cons in Hid as [->|Hid]; [|by eapply IH]. unfold get_pool in H1. apply bind_Ok in H1 as (p & Hp%expect_Ok & _). by eexists.
Qed.

Lemma voting_end_ok c now c' : contract_voting_end c now = Ok c' -> exists next, voting_ended c c' next.
Proof.
  intros Hv. unfold contract_voting_end in Hv. cbn [staking_inner with_pools] in Hv. apply bind_Ok in Hv as (s & Hs & Hv). apply bind_Ok in Hv as (next & Hn%expect_Ok & Hv).
  apply bind_Ok in Hv as (votes & Hvotes & Hv). apply bind_Ok in Hv as (cap & _ & [= <-]). exists next.
  pose proof (voting_end_shape _ _ _ Hs) as (He & Hc & Hnone & _). split; try done; [by eapply step_voting_end|].
  intros id Hin%contains_true. pose proof (capacity_votes_members _ _ _ _ id Hvotes Hin) as [p Hp]. cbn in Hp.
  pose proof (cleared_pools (staking_inner c) (pools c) id) as Hcl. rewrite Hp in Hcl. destruct Hcl as (q & -> & _). by eexists.
Qed.

(** ** Refinement *)

Lemma sync_done_ok c id e now c' : contract_epoch_sync_done c id e now = Ok c' -> staking_step (view c) (view c') /\
  (exists st, staking_inner c' = set_epoch_state st (staking_inner c)) /\ pools c' = pools c /\ staked_wals c' = staked_wals c /\
  slashing_candidates c' = slashing_candidates c.
Proof.
  intros Hs. unfold contract_epoch_sync_done in Hs. call_inv. match goal with H : epoch_sync_done _ _ _ _ = Ok _ |- _ => rename H into Hd end.
  split_and!; try done; [by eapply step_sync_done|]. unfold epoch_sync_done in Hd. cbn [staking_inner].
  apply bind_Ok in Hd as ([] & _ & Hd). apply bind_Ok in Hd as ([] & _ & Hd). apply bind_Ok in Hd as (sh & _ & Hd). apply bind_Ok in Hd as (s1 & Hs1 & [= <- <-]).
  destruct (epoch_state (staking_inner c)) eqn:Hst; call_inv; [by eexists| |];
    exists (epoch_state (staking_inner c)); by destruct (staking_inner c).
Qed.

Lemma on_pool_ok c id f c' paid : on_pool c id f = Ok (c', paid) -> exists p p', pools c !! id = Some p /\ f p = Ok p' /\ c' = with_pool id p' c /\ paid = 0.
Proof. unfold on_pool, get_pool. intros Ho. call_inv. eexists _, _. by split_and!. Qed.

(** A call leaves the state of the epochs alone, or is one of its steps. *)
Lemma contract_refines c paid c' : contract_step c paid c' -> rtc staking_step (view c) (view c').
Proof.
  intros [call _ He]. destruct call; cbn [staking_execute] in He;
    try (apply on_pool_ok in He as (? & ? & _ & _ & -> & _); apply rtc_refl).
  - unfold register_candidate in He. call_inv. apply rtc_refl.
  - unfold stake_with_pool in He. call_inv. apply rtc_once. by eapply (ac_step _ _ (update_active_set_ok _ _ _ _ ltac:(eassumption))).
  - unfold request_withdraw_stake in He. call_inv. apply rtc_once. by eapply (ac_step _ _ (update_active_set_ok _ _ _ _ ltac:(eassumption))).
  - unfold withdraw_stake in He. call_inv. apply rtc_once. by eapply (ac_step _ _ (update_active_set_ok _ _ _ _ ltac:(eassumption))).
  - call_inv. apply rtc_refl.
  - call_inv. apply rtc_refl.
  - call_inv. apply rtc_once. by eapply (ac_step _ _ (update_active_set_ok _ _ _ _ ltac:(eassumption))).
  - call_inv. apply rtc_refl.
  - unfold add_commission_to_pools in He. call_inv. apply rtc_refl.
  - unfold vote_for_slashing in He. call_inv. apply rtc_refl.
  - unfold execute_slashing, burn_commission in He. call_inv. apply rtc_refl.
  - call_inv. apply rtc_refl.
  - call_inv. match goal with H : contract_voting_end _ _ = Ok _ |- _ => apply voting_end_ok in H as (next & H) end. by apply rtc_once, (ve_step _ _ next).
  - call_inv. match goal with H : contract_initiate_epoch_change _ _ _ = Ok _ |- _ => apply epoch_change_ok in H as (next & H) end. by eapply rtc_once, ec_step.
  - call_inv. match goal with H : contract_epoch_sync_done _ _ _ _ = Ok _ |- _ => apply sync_done_ok in H as [H _] end. by apply rtc_once.
Qed.

(** ** Conservation of WAL *)

Definition funds (p : StakingPool) : Z := rewards_pool p + commission p.
Definition holdings (c : StakingContract) : Z := msum principal (staked_wals c) + msum funds (pools c).

Section conservation.
Implicit Types (p : StakingPool) (c : StakingContract).

Lemma advance_funds p r wctx p' : pool_advance_epoch p r wctx = Ok p' -> funds p' = funds p + r.
Proof.
  unfold pool_advance_epoch, add_commission, process_pending_stake, funds. intros Ha. call_inv. pool_simpl. lia.
Qed.

Lemma withdraw_rewards_funds p sw cur nxt wctx p' r : withdraw_rewards p sw cur nxt wctx = Ok (p', r) ->
  rewards_pool p' = rewards_pool p /\ commission p' = commission p.
Proof.
  unfold withdraw_rewards. intros Hw. destruct (negb cur && negb nxt && is_staked sw); [destruct (wctx_epoch wctx <? sw_activation_epoch sw)|]; call_inv; done.
Qed.

Lemma withdraw_funds p sw cur nxt wctx p' wal : pool_withdraw_stake p sw cur nxt wctx = Ok (p', wal) -> funds p' + wal = funds p + principal sw.
Proof.
  unfold pool_withdraw_stake, funds. intros Hw. call_inv. match goal with H : (if ?e then _ else _) = Ok _ |- _ => destruct e; call_inv end; [by pool_simpl|].
  match goal with H : withdraw_rewards _ _ _ _ _ = Ok _ |- _ => apply withdraw_rewards_funds in H as [Hr Hc] end.
  pool_simpl. rewrite Hr, Hc. lia.
Qed.

Lemma stake_funds p v wctx p' sw : pool_stake p v wctx = Ok (p', sw) -> funds p' = funds p /\ principal sw = v.
Proof. unfold pool_stake, mint. intros Hs. by call_inv. Qed.

Lemma request_funds p sw cur nxt wctx p' sw' : pool_request_withdraw_stake p sw cur nxt wctx = Ok (p', sw') -> funds p' = funds p /\ principal sw' = principal sw.
Proof.
  unfold pool_request_withdraw_stake, sw_set_withdrawing. intros Hr. call_inv.
  destruct (sw_activation_epoch sw =? _); call_inv; done.
Qed.

Lemma msum_pools_advance wctx l ps set ps' set' : foldM (advance_pool wctx) (ps, set) l = Ok (ps', set') -> msum funds ps' = msum funds ps + zsum l.*2.
Proof.
  revert ps set. induction l as [|[id r] l IH]; intros ps set Hf; [injection Hf as <- <-; cbn; lia|]. cbn [foldM] in Hf.
  apply bind_Ok in Hf as ([ps1 set1] & H1 & Hf). rewrite (IH _ _ Hf). unfold advance_pool in H1. call_inv.
  match goal with H : pool_advance_epoch _ _ _ = Ok _ |- _ => apply advance_funds in H end.
  erewrite msum_replace by eassumption. unfold zsum. cbn. unfold zsum. lia.
Qed.

Lemma msum_cleared s ps : msum funds (clear_previous_committee_blocked_commission s ps) = msum funds ps.
Proof.
  unfold clear_previous_committee_blocked_commission. generalize (inner (previous_committee s)).*1. intros l. revert ps.
  induction l as [|x l IH]; intros ps; cbn [foldl]; [done|]. rewrite IH. destruct (ps !! x) as [p|] eqn:Hp; [|done].
  rewrite (msum_replace _ _ _ p) by done. unfold funds, clear_blocked_commission. pool_simpl. lia.
Qed.

Lemma msum_commissions (l : VecMap Z) block (ps ps' : gmap ID StakingPool) : foldM (fun ps e => p ← expect (ps !! fst e); p ← add_commission p (snd e) block; Ok (<[fst e := p]> ps)) ps l = Ok ps' ->
  msum funds ps' = msum funds ps + zsum l.*2.
Proof.
  revert ps. induction l as [|[id v] l IH]; intros ps Hf; [injection Hf as <-; cbn; lia|]. cbn [foldM] in Hf.
  apply bind_Ok in Hf as (ps1 & H1 & Hf). rewrite (IH _ Hf). unfold add_commission in H1. call_inv. erewrite msum_replace by eassumption.
  unfold funds. pool_simpl. unfold zsum. cbn. lia.
Qed.

(** A pool and a stake change. *)
Lemma holdings_pool c id p p' : pools c !! id = Some p -> holdings (with_pool id p' c) = holdings c - funds p + funds p'.
Proof. intros Hp. unfold holdings. cbn. rewrite (msum_replace _ _ _ p) by done. lia. Qed.

Lemma active_holdings c c' : active_changed c c' -> holdings c' = holdings c.
Proof. intros [_ _ Hp Hw _]. unfold holdings. by rewrite Hp, Hw. Qed.

(** Stake comes in, is withdrawn, or changes hands. *)
Lemma stake_holdings c v id object c' : staked_wals c !! object = None -> stake_with_pool c v id object = Ok c' -> holdings c' = holdings c + v.
Proof.
  unfold stake_with_pool, get_pool. intros Hf Hs. call_inv. match goal with H : update_active_set _ _ _ = Ok _ |- _ => rewrite (active_holdings _ _ (update_active_set_ok _ _ _ _ H)) end.
  match goal with H : pool_stake _ _ _ = Ok _ |- _ => apply stake_funds in H as [Hp Hv] end. unfold holdings. cbn.
  erewrite msum_insert_fresh, msum_replace by eassumption. lia.
Qed.

Lemma request_holdings c object c' : request_withdraw_stake c object = Ok c' -> holdings c' = holdings c.
Proof.
  unfold request_withdraw_stake, get_pool. intros Hs. call_inv. match goal with H : update_active_set _ _ _ = Ok _ |- _ => rewrite (active_holdings _ _ (update_active_set_ok _ _ _ _ H)) end.
  match goal with H : pool_request_withdraw_stake _ _ _ _ _ = Ok _ |- _ => apply request_funds in H as [Hp Hv] end. unfold holdings. cbn.
  erewrite !msum_replace by eassumption. lia.
Qed.

Lemma withdraw_holdings c object c' wal : withdraw_stake c object = Ok (c', wal) -> holdings c' = holdings c - wal.
Proof.
  unfold withdraw_stake, get_pool. intros Hs. call_inv. match goal with H : update_active_set _ _ _ = Ok _ |- _ => rewrite (active_holdings _ _ (update_active_set_ok _ _ _ _ H)) end.
  match goal with H : pool_withdraw_stake _ _ _ _ _ = Ok _ |- _ => apply withdraw_funds in H end. unfold holdings. cbn.
  erewrite msum_replace, msum_delete by eassumption. lia.
Qed.

Lemma epoch_change_holdings c now rewards c' : contract_initiate_epoch_change c now rewards = Ok c' -> holdings c' = holdings c + zsum rewards.*2.
Proof.
  unfold contract_initiate_epoch_change, contract_advance_epoch. destruct (epoch_state (staking_inner c)); [done|done|]. intros Hi.
  apply bind_Ok in Hi as ([] & _ & Hi). apply bind_Ok in Hi as (next & _ & Hi). apply bind_Ok in Hi as (e & _ & Hi).
  apply bind_Ok in Hi as ([ps1 set1] & H1 & Hi). apply bind_Ok in Hi as ([ps2 set2] & H2 & [= <-]). unfold holdings. cbn.
  apply msum_pools_advance in H1, H2. rewrite <- list_fmap_compose in H2. rewrite H2, H1.
  assert (forall l : list ID, zsum ((snd ∘ (fun id => (id, 0))) <$> l) = 0) as Hz by (induction l; done). rewrite Hz. lia.
Qed.

Lemma execute_holdings call c c' paid : staking_allowed call c -> staking_execute call c = Ok (c', paid) -> holdings c' = holdings c + paid.
Proof.
  intros [_ Hal] He. destruct call; cbn [staking_execute] in He;
    try (apply on_pool_ok in He as (p & p' & Hp & Hf & -> & ->); rewrite (holdings_pool _ _ p) by done;
         unfold set_next_commission, set_next_storage_price, set_next_write_price, set_next_node_capacity, set_commission_receiver,
           set_governance_authorized in Hf; cbv beta in Hf; call_inv; unfold funds; pool_simpl; lia).
  - unfold register_candidate, pool_new, set_commission_receiver in He. call_inv. unfold holdings. cbn. rewrite msum_insert_fresh by apply Hal. unfold funds. pool_simpl. lia.
  - call_inv. eapply stake_holdings; [apply Hal|done].
  - call_inv. erewrite request_holdings by eassumption. lia.
  - call_inv. erewrite withdraw_holdings by eassumption. lia.
  - unfold sw_split in He. call_inv. unfold holdings. cbn. rewrite msum_insert_fresh.
    + erewrite msum_replace by eassumption. cbn. lia.
    + rewrite lookup_insert_ne by (intros ->; destruct Hal; congruence). apply Hal.
  - unfold sw_join in He. call_inv. unfold holdings. cbn.
    match goal with H : delete _ _ !! _ = Some _ |- _ => apply lookup_delete_Some in H as [Hne Hother] end.
    erewrite msum_delete, msum_replace by (rewrite ?lookup_insert_ne by done; eassumption). cbn. lia.
  - call_inv. match goal with H : update_active_set _ _ _ = Ok _ |- _ => rewrite (active_holdings _ _ (update_active_set_ok _ _ _ _ H)) end. lia.
  - unfold get_pool, pool_collect_commission in He. call_inv.
    match goal with H : (if ?b then _ else _) = Ok _ |- _ => destruct b; call_inv end; erewrite holdings_pool by eassumption; unfold funds; pool_simpl; lia.
  - unfold add_commission_to_pools in He. call_inv. match goal with H : foldM _ _ _ = Ok _ |- _ => apply msum_commissions in H end. unfold holdings. cbn.
    match goal with H : (length ?l =? length ?m)%nat = true |- _ => apply Nat.eqb_eq in H; rewrite snd_zip in * by lia end. lia.
  - unfold vote_for_slashing in He. call_inv. unfold holdings. cbn. lia.
  - unfold execute_slashing, burn_commission, get_pool, extract_commission_to_burn in He. call_inv. erewrite holdings_pool by eassumption. unfold funds, holdings. pool_simpl. cbn. lia.
  - call_inv. unfold holdings. cbn. lia.
  - call_inv. match goal with H : contract_voting_end _ _ = Ok _ |- _ => apply voting_end_ok in H as (next & [_ _ _ _ _ Hp [Hw _]]) end.
    unfold holdings. rewrite Hp, Hw, msum_cleared. lia.
  - call_inv. erewrite epoch_change_holdings by eassumption. lia.
  - call_inv. match goal with H : contract_epoch_sync_done _ _ _ _ = Ok _ |- _ => apply sync_done_ok in H as (_ & _ & Hp & Hw & _) end. unfold holdings. rewrite Hp, Hw. lia.
Qed.

End conservation.

(** C21: no WAL is lost or created.  In every run of the staking contract, the principals of all stakes, the
    rewards and the commissions in the pools are what was paid in (stakes, rewards and commissions) less what was
    paid out (withdrawals, collected and burnt commissions). *)
Theorem wal_is_conserved n c sum : contract_reachable n c sum -> holdings c = sum.
Proof.
  induction 1 as [zero duration now c Hc|c paid c' sum _ IH [call Hal He]]; [unfold contract_new in Hc; by call_inv|].
  rewrite <- IH. by eapply execute_holdings.
Qed.

Lemma contract_runs_staking n zero duration now c0 c : contract_new zero duration n now = Ok c0 -> contract_runs c0 c ->
  exists s0, staking_new zero duration n now = Ok s0 /\ rtc staking_step (s0, fun _ => 0) (view c).
Proof.
  intros Hc Hr. unfold contract_new in Hc. apply bind_Ok in Hc as (s0 & Hs & [= <-]). exists s0. split; [done|].
  match type of Hr with contract_runs ?c0 _ => change (s0, fun _ => 0) with (view c0) end.
  induction Hr as [c|c c1 c2 [paid Hst] _ IH]; [apply rtc_refl|]. etrans; [by eapply contract_refines|exact IH].
Qed.

(** C33: the contract with its pools refines the staking module with stakes that change at will.  Every run of the
    contract, with stakes, withdrawals, rewards, commissions and slashing, is a run of the steps of committee selection
    from its initial state, with the confirmations of the storage nodes. *)
Theorem pools_refine_staking n zero duration now c0 c : contract_new zero duration n now = Ok c0 -> contract_runs c0 c ->
  exists s0, staking_new zero duration n now = Ok s0 /\ rtc staking_step (s0, fun _ => 0) (view c).
Proof. apply contract_runs_staking. Qed.

(** ** The end of the vote *)

(** The weight of the votes for at least [v]. *)
Definition votes_above (v : Z) (q : list (Z * Z)) : Z := zsum ((fun x => if v <=? x.1 then x.2 else 0) <$> q).

(** [v] is the largest value that a quorum accepts. *)
Definition quorum_value (n : Z) (q : list (Z * Z)) (v : Z) : Prop :=
  2 * n + 1 <= 3 * votes_above v q /\ forall v', v < v' -> 3 * votes_above v' q < 2 * n + 1.

(** The vote of a member on the capacity: what it offers, for all shards. *)
Definition capacity_vote (c : StakingContract) (n : Z) (e : ID * list Z) : Z * Z :=
  (match pools c !! e.1 with Some p => Z.min (node_capacity (voting_params p) * n / len e.2) u64_MAX | None => 0 end, len e.2).

Section votes.
Implicit Types q : list (Z * Z).

Lemma max_entry_ok best q : max_entry best q ∈ best :: q /\ Forall (fun x => x.1 <= (max_entry best q).1) (best :: q).
Proof.
  revert best. induction q as [|e q IH]; intros best; cbn [max_entry]; [split; [apply list_elem_of_here|by repeat constructor]|].
  destruct (IH (if best.1 <? e.1 then e else best)) as [Hin Hall]. inversion Hall as [|? ? Hb Hq]; subst. destruct (Z.ltb_spec best.1 e.1); split;
    try (apply elem_of_cons in Hin as [->|Hin]; set_solver); repeat constructor; (done || lia).
Qed.

Lemma vote_pop_max_ok q : q <> [] -> exists best rest, vote_pop_max q = Ok (best, rest) /\ q ≡ₚ best :: rest /\ Forall (fun x => x.1 <= best.1) q.
Proof.
  destruct q as [|e q]; [done|]. intros _. destruct (max_entry_ok e q) as [Hin Hall]. cbn [vote_pop_max]. set (best := max_entry e q) in *. exists best.
  destruct (find_index (fun x => bool_decide (x = best)) (e :: q)) as [i|] eqn:Hi.
  - apply find_index_Some in Hi as (x & Hx & ->%bool_decide_eq_true). eexists. split_and!; [done| |done]. cbn [default].
    rewrite <- (take_drop_middle _ _ _ Hx) at 1. by rewrite Permutation_middle.
  - apply find_index_None in Hi. rewrite Forall_forall in Hi. apply Hi in Hin. by apply bool_decide_eq_false in Hin.
Qed.

Lemma votes_above_perm v q q' : q ≡ₚ q' -> votes_above v q = votes_above v q'.
Proof. intros Hq. unfold votes_above. by rewrite Hq. Qed.

Lemma votes_above_bounds v q : Forall (fun x => 0 <= x.2) q -> 0 <= votes_above v q.
Proof. intros Hq. apply zsum_nonneg, Forall_fmap. eapply Forall_impl; [exact Hq|]. intros x Hx. cbn beta in Hx. change (0 <= if v <=? x.1 then x.2 else 0). destruct (v <=? x.1); lia. Qed.

Lemma votes_above_none v q : Forall (fun x => x.1 < v) q -> votes_above v q = 0.
Proof. unfold votes_above. induction 1 as [|x q Hx _ IH]; [done|]. cbn. rewrite (proj2 (Z.leb_gt _ _)) by done. unfold zsum in *. lia. Qed.

Lemma is_quorum_in_range w n : 0 <= w < 2 ^ 16 -> 0 <= n < 2 ^ 16 -> is_quorum_for_n_shards w n = Ok (2 * n + 1 <=? 3 * w).
Proof. intros Hw Hn. unfold is_quorum_for_n_shards. rewrite !move_arith_in_range by lia. cbn. by rewrite move_arith_in_range by lia. Qed.

(** The loop has taken votes with weight [w], all of them at least the others. *)
Lemma quorum_above_loop_ok fuel w n q : 0 < n < 2 ^ 16 -> 0 <= w -> Forall (fun x => 0 <= x.2) q -> w + zsum q.*2 = n -> 3 * w < 2 * n + 1 ->
  (length q < fuel)%nat -> exists v, quorum_above_loop fuel w n q = Ok v /\ v ∈ q.*1 /\ 2 * n + 1 <= 3 * (w + votes_above v q) /\
    forall v', v < v' -> 3 * (w + votes_above v' q) < 2 * n + 1.
Proof.
  intros Hn. revert w q. induction fuel as [|fuel IH]; intros w q Hw Hq Hsum Hno Hf; [lia|]. cbn [quorum_above_loop].
  destruct (vote_pop_max_ok q) as ([b x] & q' & -> & Hp & Hmax); [intros ->; cbn in Hsum; lia|]. cbn [mbind outcome_bind].
  assert (Forall (fun x => 0 <= x.2) ((b, x) :: q')) as Hq' by (by rewrite <- Hp). apply Forall_cons in Hq' as [Hx Hq'']. cbn in Hx.
  assert (zsum q.*2 = x + zsum q'.*2) as Hs by (by rewrite Hp). assert (0 <= zsum q'.*2) by (apply zsum_nonneg, Forall_fmap; done).
  assert (length q = S (length q')) as Hlen by (by rewrite Hp). rewrite move_arith_in_range by lia. cbn [mbind outcome_bind].
  rewrite is_quorum_in_range by lia. cbn [mbind outcome_bind].
  assert (forall v, votes_above v q = (if v <=? b then x else 0) + votes_above v q') as Ha by (intros v; by rewrite (votes_above_perm v _ _ Hp)).
  assert (b ∈ q.*1) as Hb by (rewrite Hp; apply list_elem_of_here). destruct (Z.leb_spec (2 * n + 1) (3 * (w + x))).
  - exists b. split_and!; [done|done| |].
    + rewrite Ha, (proj2 (Z.leb_le _ _)) by lia. pose proof (votes_above_bounds b q' Hq''). lia.
    + intros v' Hv'. rewrite (votes_above_none v' q); [lia|]. eapply Forall_impl; [exact Hmax|]. intros y Hy. cbn in Hy. lia.
  - destruct (IH (w + x) q') as (v & -> & Hin & Hge & Hlt); [lia|done|lia|lia|lia|]. assert (v <= b) as Hvb.
    { rewrite Hp in Hmax. apply Forall_cons in Hmax as [_ Hmax']. apply list_elem_of_fmap in Hin as (y & -> & Hy). rewrite Forall_forall in Hmax'. by apply Hmax'. }
    exists v. split_and!; [done|rewrite Hp; by right|rewrite Ha, (proj2 (Z.leb_le _ _)) by done; lia|]. intros v' Hv'. specialize (Hlt v' Hv'). rewrite Ha. destruct (v' <=? b); lia.
Qed.

Lemma quorum_above_ok n q : 0 < n < 2 ^ 16 -> Forall (fun x => 0 <= x.2) q -> zsum q.*2 = n -> exists v, quorum_above q n = Ok v /\ quorum_value n q v.
Proof.
  intros Hn Hq Hs. destruct (quorum_above_loop_ok (S (length q)) 0 n q Hn ltac:(lia) Hq ltac:(lia) ltac:(lia) ltac:(lia)) as (v & Hv & _ & H1 & H2).
  exists v. split; [exact Hv|]. split; [exact H1|]. intros v' Hv'. specialize (H2 v' Hv'). lia.
Qed.

End votes.

Lemma voting_end_inner c now c' : contract_voting_end c now = Ok c' -> voting_end (staking_inner c) now = Ok (staking_inner c').
Proof. unfold contract_voting_end. cbn [staking_inner with_pools]. intros Hv. by call_inv. Qed.

Lemma voting_end_active c now c' : contract_voting_end c now = Ok c' -> active_set (staking_inner c') = active_set (staking_inner c).
Proof.
  unfold contract_voting_end, voting_end, select_committee. cbn [staking_inner with_pools]. destruct (epoch_state (staking_inner c)); [done| |done].
  intros Hv. call_inv. checked. done.
Qed.

(** What the vote needs: a pool for every active node, and capacities of 64 bits. *)
Definition capacities_ok (ps : gmap ID StakingPool) : Prop := map_Forall (fun _ p => 0 <= node_capacity (voting_params p) < 2 ^ 64) ps.

Record vote_inv (c : StakingContract) : Prop := {
  vi_active : forall e, e ∈ nodes (active_set (staking_inner c)) -> is_Some (pools c !! node_id e);
  vi_capacities : capacities_ok (pools c);
}.

Section voting.
Context (n : Z) (Hn : 0 < n < 2 ^ 16).
Implicit Types (c : StakingContract) (p : StakingPool).

Lemma vote_inv_pools c c' : vote_inv c -> active_set (staking_inner c') = active_set (staking_inner c) ->
  (forall id p', pools c' !! id = Some p' -> 0 <= node_capacity (voting_params p') < 2 ^ 64) -> (forall id, is_Some (pools c !! id) -> is_Some (pools c' !! id)) -> vote_inv c'.
Proof. intros [H1 H2] Ha Hp Hk. split; [rewrite Ha; auto|exact Hp]. Qed.

Lemma is_Some_insert `{Countable K} {V} (m : gmap K V) i j x : is_Some (m !! j) -> is_Some (<[i := x]> m !! j).
Proof. destruct (decide (i = j)) as [->|]; [by rewrite lookup_insert_eq|by rewrite lookup_insert_ne]. Qed.

Lemma vote_inv_pool c id p p' : vote_inv c -> pools c !! id = Some p -> voting_params p' = voting_params p -> vote_inv (with_pool id p' c).
Proof.
  intros Hi Hp Hv. apply (vote_inv_pools c); [done|done| |intros k; apply is_Some_insert]. intros k q Hq. cbn in Hq.
  destruct (decide (id = k)) as [->|]; [rewrite lookup_insert_eq in Hq; injection Hq as <-; rewrite Hv|rewrite lookup_insert_ne in Hq by done]; by eapply (vi_capacities _ Hi).
Qed.

Lemma vote_inv_active c id p c' : staking_inv n (view c) -> vote_inv c -> is_Some (pools c !! id) -> update_active_set c id p = Ok c' -> vote_inv c'.
Proof.
  intros Hs [H1 H2] Hid Hu. pose proof (update_active_set_ok _ _ _ _ Hu) as [_ _ Hp _ _].
  destruct (update_active_set_nodes _ _ _ _ Hu) as (bal & b & _ & Hb & Hins). pose proof (insert_or_update_ok _ id bal (si_active _ _ Hs) (si_threshold _ _ Hs) Hb) as Hup.
  cbn [fst view] in Hup. rewrite Hins in Hup. split; [|by rewrite Hp]. intros e He. rewrite Hp. destruct (decide (node_id e = id)) as [->|Hne]; [done|].
  apply H1. by eapply (up_old _ _ _ _ _ Hup).
Qed.

(** The operations on a pool that leave its votes alone. *)
Lemma pool_stake_votes p v wctx p' sw : pool_stake p v wctx = Ok (p', sw) -> voting_params p' = voting_params p.
Proof. unfold pool_stake. intros Hs. by call_inv. Qed.
Lemma pool_request_votes p sw cur nxt wctx p' sw' : pool_request_withdraw_stake p sw cur nxt wctx = Ok (p', sw') -> voting_params p' = voting_params p.
Proof. unfold pool_request_withdraw_stake. intros Hr. call_inv. destruct (sw_activation_epoch sw =? _); by call_inv. Qed.
Lemma pool_withdraw_votes p sw cur nxt wctx p' wal : pool_withdraw_stake p sw cur nxt wctx = Ok (p', wal) -> voting_params p' = voting_params p.
Proof.
  unfold pool_withdraw_stake, withdraw_rewards. intros Hw. call_inv. match goal with H : (if ?b then _ else _) = Ok _ |- _ => destruct b; call_inv end; [done|].
  match goal with H : (if ?b then _ else _) = Ok _ |- _ => destruct b end; [destruct (wctx_epoch wctx <? sw_activation_epoch sw)|]; by call_inv.
Qed.
Lemma pool_advance_votes p r wctx p' : pool_advance_epoch p r wctx = Ok p' -> voting_params p' = voting_params p.
Proof. unfold pool_advance_epoch, process_pending_stake, add_commission. intros Ha. by call_inv. Qed.
Lemma pool_collect_votes p auth p' wal : pool_collect_commission p auth = Ok (p', wal) -> voting_params p' = voting_params p.
Proof. unfold pool_collect_commission. intros Hc. call_inv. destruct (_ <=? _); by call_inv. Qed.
Lemma add_commissions_votes l block ps ps' : foldM (fun ps e => p ← expect (ps !! fst e); p ← add_commission p (snd e) block; Ok (<[fst e := p]> ps)) ps l = Ok ps' ->
  capacities_ok ps -> capacities_ok ps' /\ forall id, is_Some (ps !! id) -> is_Some (ps' !! id).
Proof.
  revert ps. induction l as [|[k v] l IH]; intros ps Hf Hc; [by injection Hf as <-|]. cbn [foldM] in Hf. apply bind_Ok in Hf as (ps1 & H1 & Hf). unfold add_commission in H1. call_inv.
  destruct (IH _ Hf) as [Hc' Hk]; [|split; [done|]; intros id Hid; by apply Hk, is_Some_insert]. apply map_Forall_insert_2; [|done].
  match goal with H : ps !! _ = Some _ |- _ => exact (Hc _ _ H) end.
Qed.

Lemma vote_inv_epoch c c' rewards next : staking_inv n (view c) -> vote_inv c -> epoch_changed c c' rewards next -> vote_inv c'.
Proof.
  intros Hs [H1 H2] [_ _ [Hnd Ho Ha] _ _ _ (bal & Hb & Hbp & Hu)].
  assert (forall id, is_Some (pools c !! id) -> is_Some (pools c' !! id)) as Hk.
  { intros id Hid. destruct (decide (id ∈ (advanced_nodes (staking_inner c) next rewards).*1)) as [Hin|Hin]; [destruct (Hbp _ Hin) as (p & Hp & _); by exists p|by rewrite Ho]. }
  split.
  - intros e He. pose proof (update_balances_nodes bal _ _ _ Hb Hnd (si_active _ _ Hs) (si_threshold _ _ Hs) Hu e He) as Hnode. case_decide as Hin; [|by apply Hk, H1].
    destruct (Hbp _ Hin) as (p & Hp & _). by exists p.
  - intros id p' Hp'. destruct (decide (id ∈ (advanced_nodes (staking_inner c) next rewards).*1)) as [Hin|Hin]; [|rewrite Ho in Hp' by done; by apply (H2 id)].
    apply list_elem_of_fmap in Hin as ([k r] & -> & Hin). destruct (Ha _ _ Hin) as (p & q & Hp & Hq & Hadv). cbn in Hp'. rewrite Hq in Hp'. injection Hp' as ->.
    rewrite (pool_advance_votes _ _ _ _ Hadv). by apply (H2 k).
Qed.

Lemma cleared_capacities s ps : capacities_ok ps -> capacities_ok (clear_previous_committee_blocked_commission s ps) /\
  forall id, is_Some (ps !! id) -> is_Some (clear_previous_committee_blocked_commission s ps !! id).
Proof.
  intros Hc. split; intros id; pose proof (cleared_pools s ps id) as Hcl.
  - intros p' Hp'. rewrite Hp' in Hcl. destruct Hcl as (p & Hp & [->| ->]); by apply (Hc id p).
  - intros [p Hp]. destruct (clear_previous_committee_blocked_commission s ps !! id); [by eexists|congruence].
Qed.

Lemma vote_inv_set f c id c' paid : vote_inv c -> on_pool c id f = Ok (c', paid) ->
  (forall p p', f p = Ok p' -> 0 <= node_capacity (voting_params p) < 2 ^ 64 -> 0 <= node_capacity (voting_params p') < 2 ^ 64) -> vote_inv c'.
Proof.
  intros Hi (p & p' & Hp & Hf & -> & _)%on_pool_ok Hc. apply (vote_inv_pools c); [done|done| |intros k; apply is_Some_insert]. intros k q Hq. cbn in Hq.
  destruct (decide (id = k)) as [->|]; [rewrite lookup_insert_eq in Hq; injection Hq as <-; eapply Hc; [done|]|rewrite lookup_insert_ne in Hq by done]; by eapply (vi_capacities _ Hi).
Qed.

Lemma vote_inv_same c c' : vote_inv c -> active_set (staking_inner c') = active_set (staking_inner c) -> pools c' = pools c -> vote_inv c'.
Proof. intros [H1 H2] Ha Hp. by split; rewrite ?Ha, Hp. Qed.

(** A change of one pool and then of the active set. *)
Lemma vote_inv_stake c id p p' m c' : staking_inv n (view c) -> vote_inv c -> pools c !! id = Some p -> voting_params p' = voting_params p ->
  update_active_set (with_wals m (with_pool id p' c)) id p' = Ok c' -> vote_inv c'.
Proof.
  intros Hs Hi Hp Hv Hu. eapply (vote_inv_active (with_wals m (with_pool id p' c))); [exact Hs| | |exact Hu].
  - by eapply vote_inv_same; [by eapply (vote_inv_pool c id p p')|..].
  - cbn. rewrite lookup_insert_eq. by eexists.
Qed.

Lemma execute_vote_inv call c c' paid : staking_inv n (view c) -> vote_inv c -> staking_allowed call c -> staking_execute call c = Ok (c', paid) -> vote_inv c'.
Proof.
  intros Hs Hi [_ Hal] He. destruct call; cbn [staking_execute] in He;
    try (eapply vote_inv_set; [exact Hi|exact He|]; intros p p' Hf Hc;
         unfold set_next_commission, set_next_storage_price, set_next_write_price, set_next_node_capacity, set_commission_receiver,
           set_governance_authorized in Hf; call_inv; pool_simpl; cbn; (exact Hc || exact Hal)).
  - unfold register_candidate, pool_new, set_commission_receiver in He. call_inv. apply (vote_inv_pools c); [done|done| |intros k; apply is_Some_insert].
    intros k q Hq. cbn in Hq. destruct (decide (id = k)) as [->|]; [rewrite lookup_insert_eq in Hq; injection Hq as <-; cbn; apply Hal|].
    rewrite lookup_insert_ne in Hq by done. by eapply (vi_capacities _ Hi).
  - unfold stake_with_pool, get_pool in He. call_inv. by eapply vote_inv_stake; [..|by eapply pool_stake_votes|].
  - unfold request_withdraw_stake, get_pool in He. call_inv. by eapply vote_inv_stake; [..|by eapply pool_request_votes|].
  - unfold withdraw_stake, get_pool in He. call_inv. by eapply vote_inv_stake; [..|by eapply pool_withdraw_votes|].
  - call_inv. by apply (vote_inv_same c).
  - call_inv. by apply (vote_inv_same c).
  - unfold get_pool in He. call_inv. by eapply vote_inv_active.
  - unfold get_pool in He. call_inv. by eapply vote_inv_pool; [..|by eapply pool_collect_votes].
  - unfold add_commission_to_pools in He. call_inv. match goal with H : foldM _ _ _ = Ok _ |- _ => apply add_commissions_votes in H as [Hc Hk]; [|apply Hi] end. by apply (vote_inv_pools c).
  - unfold vote_for_slashing in He. call_inv. by apply (vote_inv_same c).
  - unfold execute_slashing, burn_commission, get_pool, extract_commission_to_burn in He. call_inv. by eapply vote_inv_pool; [by apply (vote_inv_same c)|..].
  - call_inv. by apply (vote_inv_same c).
  - call_inv. match goal with H : contract_voting_end _ _ = Ok _ |- _ => pose proof (voting_end_active _ _ _ H); apply voting_end_ok in H as (next & [_ _ _ _ _ Hp _]) end.
    destruct (cleared_capacities (staking_inner c) (pools c) (vi_capacities _ Hi)) as [Hc Hk]. rewrite <- Hp in Hc, Hk. by apply (vote_inv_pools c).
  - call_inv. match goal with H : contract_initiate_epoch_change _ _ _ = Ok _ |- _ => apply epoch_change_ok in H as (next & H) end. by eapply vote_inv_epoch.
  - call_inv. match goal with H : contract_epoch_sync_done _ _ _ _ = Ok _ |- _ => apply sync_done_ok in H as (_ & (st & Hst) & Hp & _) end. apply (vote_inv_same c); [done|by rewrite Hst|done].
Qed.

Lemma runs_vote_inv zero duration start c0 c : contract_new zero duration n start = Ok c0 -> contract_runs c0 c -> staking_inv n (view c) /\ vote_inv c.
Proof.
  intros Hc Hr. assert (staking_inv n (view c0) /\ vote_inv c0) as H0.
  { unfold contract_new in Hc. apply bind_Ok in Hc as (s & Hs & [= <-]). split; [by eapply staking_new_inv|]. unfold staking_new in Hs. apply bind_Ok in Hs as (d & _ & [= <-]). split; cbn; [set_solver|by intros ? ?]. }
  clear Hc. induction Hr as [c|c c1 c2 [paid Hst] _ IH]; [done|]. apply IH. destruct H0 as [Hs Hi]. split.
  - apply contract_refines in Hst. clear Hi IH. induction Hst; eauto using step_inv.
  - destruct Hst as [call Hal He]. by eapply execute_vote_inv.
Qed.

(** The votes are those of the members, with their shards as weights. *)
Lemma capacity_votes_ok c cmt : (forall e, e ∈ inner cmt -> exists p, pools c !! e.1 = Some p /\ 0 <= node_capacity (voting_params p) < 2 ^ 64) ->
  Forall (fun e => 0 < len e.2) (inner cmt) -> capacity_votes c n cmt = Ok (capacity_vote c n <$> inner cmt).
Proof.
  unfold capacity_votes. intros Hp Hw. match goal with |- foldM ?f _ _ = _ => enough (forall acc, foldM f acc (inner cmt) = Ok (acc ++ (capacity_vote c n <$> inner cmt))) as Hg by apply (Hg []) end.
  revert Hp. induction Hw as [|[k sh] l Hsh _ IH]; intros Hp acc; cbn [foldM].
  { cbn. by rewrite app_nil_r. }
  destruct (Hp (k, sh)) as (p & Hk & Hc); [apply list_elem_of_here|]. cbn [fst snd] in *. unfold get_pool. rewrite Hk. cbn [expect mbind outcome_bind].
  rewrite move_arith_in_range by nia. cbn [mbind outcome_bind]. unfold move_div. rewrite (proj2 (Z.eqb_neq _ _)) by lia. cbn [mbind outcome_bind].
  rewrite IH by (intros e He; apply Hp; by right). rewrite <- app_assoc. cbn [fmap list_fmap app]. unfold capacity_vote at 2. cbn [fst snd]. by rewrite Hk.
Qed.

Lemma capacity_vote_weights c cmt : (capacity_vote c n <$> inner cmt).*2 = (fun e => len e.2) <$> inner cmt.
Proof. by rewrite <- list_fmap_compose. Qed.

Lemma zsum_shards cmt : zsum ((fun e : ID * list Z => len e.2) <$> inner cmt) = len (all_shards cmt).
Proof. unfold all_shards. induction (inner cmt) as [|[k sh] l IH]; [done|]. cbn. rewrite length_app. unfold zsum in *. lia. Qed.

Lemma clear_votes c cmt : capacity_vote (with_pools (clear_previous_committee_blocked_commission (staking_inner c) (pools c)) c) n <$> inner cmt = capacity_vote c n <$> inner cmt.
Proof.
  apply list_fmap_ext. intros _ [k sh] _. unfold capacity_vote. cbn [pools with_pools fst snd]. pose proof (cleared_pools (staking_inner c) (pools c) k) as Hcl.
  destruct (clear_previous_committee_blocked_commission _ _ !! k) as [p'|]; [destruct Hcl as (p & -> & [->| ->])|rewrite Hcl]; done.
Qed.

End voting.

(** C34: the vote ends with a committee and a capacity.  In every run of the contract, when the epoch change is done, there is
    stake in the active set (with at least ten shards or fewer than twenty active nodes) and the time has come,
    [voting_end] succeeds.  The next committee has every shard exactly once, as the method of D'Hondt distributes them for
    the current stake, and moves no shard that can stay.  The capacity is the largest for which members with more than two thirds
    of its shards have voted: each member votes for what it offers, for all shards together and by its number of them. *)
Theorem contract_voting_end_selects n zero duration start c0 c t now : 0 < n < 2 ^ 16 ->
  contract_new zero duration n start = Ok c0 -> contract_runs c0 c ->
  let s := staking_inner c in
  epoch_state s = EpochChangeDone t -> nodes (active_set s) <> [] -> len (nodes (active_set s)) < 20 \/ 10 <= n ->
  epoch s + 1 < 2 ^ 32 ->
  (if decide (epoch s = 0) then first_epoch_start s <= now
   else 0 <= t + epoch_duration s / 2 < 2 ^ 64 /\ t + epoch_duration s / 2 <= now) ->
  exists c' next capacity, contract_voting_end c now = Ok c' /\ epoch_state (staking_inner c') = NextParamsSelected t /\
    next_committee (staking_inner c') = Some next /\ selects s next /\
    next_capacity c' = Some capacity /\ quorum_value n (capacity_vote c n <$> inner next) capacity.
Proof.
  intros Hn Hc Hr s Hst Hne Hlim Hep Htime. destruct (runs_vote_inv n Hn _ _ _ _ _ Hc Hr) as [Hs Hi].
  destruct (voting_end_selects n _ _ t now Hn Hs Hst Hne Hlim Hep Htime) as (s' & next & Hv & Hst' & Hnx & Hsel). change (voting_end s now = Ok s') in Hv.
  pose proof (voting_end_shape _ _ _ Hv) as (_ & _ & _ & Hn'). pose proof (si_shards _ _ Hs) as Hns. change (n_shards s = n) in Hns. change (selects s next) in Hsel.
  destruct (se_committee _ _ Hsel) as [_ Hsh Hw]. rewrite Hns in Hsh.
  destruct (cleared_capacities s (pools c) (vi_capacities _ Hi)) as [Hc' Hk]. set (c1 := with_pools (clear_previous_committee_blocked_commission s (pools c)) c).
  assert (forall e, e ∈ inner next -> exists p, pools c1 !! e.1 = Some p /\ 0 <= node_capacity (voting_params p) < 2 ^ 64) as Hp.
  { intros e He. assert (e.1 ∈ node_id <$> nodes (active_set s)) as Hin by (eapply voting_end_members; [exact Hn|exact Hs|exact Hv|exact Hnx|by apply list_elem_of_fmap_2]).
    apply list_elem_of_fmap in Hin as (a & -> & Ha). destruct (Hk _ (vi_active _ Hi _ Ha)) as [p Hp]. exists p. split; [exact Hp|by apply (Hc' (node_id a))]. }
  destruct (quorum_above_ok n (capacity_vote c n <$> inner next) Hn) as (capacity & Hq & Hv').
  { apply Forall_fmap. eapply Forall_impl; [exact Hw|]. intros e He. cbn. lia. }
  { rewrite capacity_vote_weights, zsum_shards, Hsh, length_seqZ. lia. }
  exists (mk_contract s' (pools c1) (Some capacity) (staked_wals c) (sync_done c) (slashing_candidates c)), next, capacity. split_and!; try done.
  unfold contract_voting_end. cbn zeta. fold s c1. change (staking_inner c1) with s. rewrite Hv. cbn [mbind outcome_bind]. rewrite Hnx. cbn [expect mbind outcome_bind].
  rewrite Hn', Hns, capacity_votes_ok by done. cbn [mbind outcome_bind]. unfold c1, s. rewrite clear_votes, Hq. done.
Qed.

(** ** Slashing *)

(** A run of the contract, with the calls that were executed and the states they were called in. *)
Inductive contract_log (n : Z) : StakingContract -> list (StakingContract * StakingCall) -> Prop :=
| cl_init zero duration now c : contract_new zero duration n now = Ok c -> contract_log n c []
| cl_call c log call c' paid : contract_log n c log -> staking_allowed call c -> staking_execute call c = Ok (c', paid) ->
    contract_log n c' (log ++ [(c, call)]).

(** The nodes that voted for slashing [candidate] since the epoch began and since it was slashed last. *)
Definition open_vote (candidate : ID) (votes : list ID) (x : StakingContract * StakingCall) : list ID :=
  match snd x with
  | VoteForSlashing _ voter k => if k =? candidate then votes ++ [voter] else votes
  | ExecuteSlashing k => if k =? candidate then [] else votes
  | InitiateEpochChange _ _ => []
  | _ => votes
  end.
Definition open_votes (candidate : ID) (log : list (StakingContract * StakingCall)) : list ID := foldl (open_vote candidate) [] log.

Definition weight_of (cmt : Committee) (id : ID) : Z := match try_get id (inner cmt) with Some shards => len shards | None => 0 end.

(** The call of an authorized vote in the epoch of [s]. *)
Definition voted_in (s : StakingInnerV1) (log : list (StakingContract * StakingCall)) (candidate voter : ID) : Prop :=
  exists c auth p, (c, VoteForSlashing auth voter candidate) ∈ log /\ epoch (staking_inner c) = epoch s /\
    pools c !! voter = Some p /\ matches auth (governance_authorized p) = true.

Record votes_ok (s : StakingInnerV1) (log : list (StakingContract * StakingCall)) (candidate : ID) (votes : list ID) : Prop := {
  vo_different : NoDup votes;
  vo_members : Forall (fun id => in_committee id (committee s) = true) votes;
  vo_voted : Forall (voted_in s log candidate) votes;
}.

(** What the contract records are the open votes. *)
Definition proposal_ok (s : StakingInnerV1) (votes : list ID) (o : option SlashingProposal) : Prop :=
  match o with
  | Some proposal => proposal_epoch proposal <= epoch s /\
      if decide (proposal_epoch proposal = epoch s)
      then voters proposal = votes /\ voting_weight proposal = zsum (weight_of (committee s) <$> votes) /\ voting_weight proposal < 2 ^ 16 else votes = []
  | None => votes = []
  end.

Record slashing_inv (c : StakingContract) (log : list (StakingContract * StakingCall)) : Prop := {
  sl_proposals candidate : proposal_ok (staking_inner c) (open_votes candidate log) (slashing_candidates c !! candidate);
  sl_votes candidate : votes_ok (staking_inner c) log candidate (open_votes candidate log);
}.

Section slashing.
Implicit Types (c : StakingContract) (log : list (StakingContract * StakingCall)).

Lemma open_votes_snoc candidate log x : open_votes candidate (log ++ [x]) = open_vote candidate (open_votes candidate log) x.
Proof. unfold open_votes. by rewrite foldl_app. Qed.

Lemma voted_more s s' log x candidate voter : epoch s' = epoch s -> voted_in s log candidate voter -> voted_in s' (log ++ [x]) candidate voter.
Proof. intros He (c & auth & p & H1 & H2 & H3 & H4). exists c, auth, p. rewrite He. split_and!; try done. apply elem_of_app. by left. Qed.

Lemma votes_ok_more s s' log x candidate votes : epoch s' = epoch s -> committee s' = committee s -> votes_ok s log candidate votes ->
  votes_ok s' (log ++ [x]) candidate votes.
Proof.
  intros He Hc [H1 H2 H3]. split; [done|by rewrite Hc|]. eapply Forall_impl; [exact H3|]. intros v. by apply voted_more.
Qed.

Lemma votes_ok_nil s log candidate : votes_ok s log candidate [].
Proof. split; constructor. Qed.

Lemma proposal_ok_same s s' votes o : epoch s' = epoch s -> committee s' = committee s -> proposal_ok s votes o -> proposal_ok s' votes o.
Proof. intros He Hc. unfold proposal_ok. by rewrite He, Hc. Qed.

(** Calls that neither vote nor change the epoch. *)
Lemma slashing_same c c' log call : slashing_inv c log -> slashing_candidates c' = slashing_candidates c ->
  epoch (staking_inner c') = epoch (staking_inner c) -> committee (staking_inner c') = committee (staking_inner c) ->
  (forall candidate votes, open_vote candidate votes (c, call) = votes) -> slashing_inv c' (log ++ [(c, call)]).
Proof.
  intros [H1 H2] Hs He Hc Hv. split; intros k; rewrite open_votes_snoc, Hv; [|by apply (votes_ok_more (staking_inner c))].
  rewrite Hs. by apply (proposal_ok_same (staking_inner c)).
Qed.

Lemma slashing_active c c1 c' log call : slashing_inv c log -> active_changed c1 c' -> slashing_candidates c1 = slashing_candidates c ->
  staking_inner c1 = staking_inner c -> (forall candidate votes, open_vote candidate votes (c, call) = votes) -> slashing_inv c' (log ++ [(c, call)]).
Proof. intros Hi [_ [set Hs] _ _ Hsl] H1 H2 Hv. apply (slashing_same c); [done|by rewrite Hsl, H1|by rewrite Hs, H2..|done]. Qed.

Lemma try_get_contains {V} k (m : VecMap V) v : try_get k m = Some v -> contains k m = true.
Proof. unfold try_get, contains. by destruct (get_idx_opt k m). Qed.

Lemma vote_logged c log auth voter k c' : slashing_inv c log -> vote_for_slashing c auth voter k = Ok c' ->
  slashing_inv c' (log ++ [(c, VoteForSlashing auth voter k)]).
Proof.
  intros [Hi Hok] Hv. unfold vote_for_slashing, get_current_node_weight, add_vote, get_pool in Hv. call_inv. checked.
  match goal with H : try_get voter _ = Some _ |- _ => rename H into Hget end.
  match goal with |- slashing_inv (with_slashing (<[k := mk_proposal (proposal_epoch ?q) _ _]> _) _) _ =>
    assert (proposal_epoch q = epoch (staking_inner c) /\ voters q = open_votes k log /\
      voting_weight q = zsum (weight_of (committee (staking_inner c)) <$> open_votes k log)) as (He & Hvs & Hw); [|set (old := q) in *] end.
  { specialize (Hi k). unfold proposal_ok in Hi. destruct (slashing_candidates c !! k) as [q|]; [|by rewrite Hi].
    destruct Hi as [_ Hi]. destruct (Z.eqb_spec (proposal_epoch q) (epoch (staking_inner c))); case_decide; try done; [|by rewrite Hi].
    by destruct Hi as (-> & -> & _). }
  match goal with H : voter ∉ voters old |- _ => rename H into Hnew; rewrite Hvs in Hnew end.
  split; intros k'; rewrite open_votes_snoc; cbn [open_vote snd]; destruct (Z.eqb_spec k k') as [<-|Hne].
  - cbn. rewrite lookup_insert_eq. cbn. split; [lia|]. rewrite decide_True by done. rewrite Hvs. split; [done|].
    rewrite fmap_app, zsum_app. cbn. unfold weight_of at 2. rewrite Hget. cbn. lia.
  - cbn. rewrite lookup_insert_ne by done. apply Hi.
  - destruct (Hok k) as [H1 H2 H3]. split.
    + apply NoDup_app. split_and!; [done| |apply NoDup_singleton]. by intros y Hy ->%list_elem_of_singleton.
    + apply Forall_app. split; [done|]. constructor; [by eapply try_get_contains|constructor].
    + apply Forall_app. split; [eapply Forall_impl; [exact H3|]; intros v; by apply voted_more|]. constructor; [|constructor].
      eexists c, auth, _. split_and!; [apply elem_of_app; right; by apply list_elem_of_singleton|done|eassumption|done].
  - by apply (votes_ok_more (staking_inner c)).
Qed.

Lemma execute_inv c log k c' burnt : slashing_inv c log -> execute_slashing c k = Ok (c', burnt) -> slashing_inv c' (log ++ [(c, ExecuteSlashing k)]).
Proof.
  intros [Hi Hok] He. unfold execute_slashing, burn_commission in He. call_inv.
  split; intros k'; rewrite open_votes_snoc; cbn [open_vote snd]; destruct (Z.eqb_spec k k') as [<-|Hne];
    [cbn; by rewrite lookup_delete_eq|cbn; rewrite lookup_delete_ne by done; apply Hi|apply votes_ok_nil|by apply (votes_ok_more (staking_inner c))].
Qed.

(** A clean-up removes proposals of earlier epochs. *)
Lemma cleanup_inv c log ids : slashing_inv c log -> slashing_inv (cleanup_slashing_proposals c ids) (log ++ [(c, CleanupSlashing ids)]).
Proof.
  intros [Hi Hok]. split; intros k; rewrite open_votes_snoc; cbn [open_vote snd]; [|by apply (votes_ok_more (staking_inner c))].
  unfold cleanup_slashing_proposals. cbn [slashing_candidates staking_inner with_slashing]. specialize (Hi k). revert Hi. generalize (slashing_candidates c).
  induction ids as [|id ids IH]; intros m Hm; [done|]. cbn [foldl]. apply IH. destruct (m !! id) as [pr|] eqn:Hpr; [|done]. destruct (Z.ltb_spec (proposal_epoch pr) (epoch (staking_inner c))); [|done].
  destruct (decide (id = k)) as [->|]; [|by rewrite lookup_delete_ne]. rewrite lookup_delete_eq. rewrite Hpr in Hm. destruct Hm as [_ Hm]. by rewrite decide_False in Hm by lia.
Qed.

Lemma call_slashing c log call c' paid : staking_execute call c = Ok (c', paid) -> slashing_inv c log -> slashing_inv c' (log ++ [(c, call)]).
Proof.
  intros He Hi. destruct call; cbn [staking_execute] in He;
    try (apply on_pool_ok in He as (? & ? & _ & _ & -> & _); by apply (slashing_same c)).
  - unfold register_candidate in He. call_inv. by apply (slashing_same c).
  - unfold stake_with_pool in He. call_inv. eapply (slashing_active c); [done|by eapply update_active_set_ok|done..].
  - unfold request_withdraw_stake in He. call_inv. eapply (slashing_active c); [done|by eapply update_active_set_ok|done..].
  - unfold withdraw_stake in He. call_inv. eapply (slashing_active c); [done|by eapply update_active_set_ok|done..].
  - call_inv. by apply (slashing_same c).
  - call_inv. by apply (slashing_same c).
  - call_inv. eapply (slashing_active c); [done|by eapply update_active_set_ok|done..].
  - call_inv. by apply (slashing_same c).
  - unfold add_commission_to_pools in He. call_inv. by apply (slashing_same c).
  - call_inv. by apply vote_logged.
  - call_inv. by eapply execute_inv.
  - call_inv. by apply cleanup_inv.
  - call_inv. match goal with H : contract_voting_end _ _ = Ok _ |- _ => apply voting_end_ok in H as (next & [_ _ _ [V1 V2] _ _ [_ V3]]) end.
    by apply (slashing_same c).
  - call_inv. match goal with H : contract_initiate_epoch_change _ _ _ = Ok _ |- _ => apply epoch_change_ok in H as (next & [_ _ _ E1 _ [_ E2]]) end.
    split; intros k; rewrite open_votes_snoc; cbn [open_vote snd]; [|apply votes_ok_nil]. rewrite E2. pose proof (sl_proposals _ _ Hi k) as Hk. unfold proposal_ok in *.
    destruct (slashing_candidates c !! k) as [pr|]; [|done]. rewrite E1. destruct Hk as [Hle _]. split; [lia|]. by rewrite decide_False by lia.
  - call_inv. match goal with H : contract_epoch_sync_done _ _ _ _ = Ok _ |- _ => apply sync_done_ok in H as (_ & [st Hs] & _ & _ & H3) end.
    apply (slashing_same c); rewrite ?Hs; done.
Qed.

Lemma log_slashing n c log : contract_log n c log -> slashing_inv c log.
Proof.
  induction 1 as [zero duration now c Hc|c log call c' paid _ IH _ He]; [|by eapply call_slashing].
  unfold contract_new in Hc. call_inv. split; intros k; [done|apply votes_ok_nil].
Qed.

Lemma log_staking n c log : 0 < n < 2 ^ 16 -> contract_log n c log -> staking_inv n (view c).
Proof.
  intros Hn. induction 1 as [zero duration now c Hc|c log call c' paid _ IH Hal He].
  - unfold contract_new in Hc. apply bind_Ok in Hc as (s & Hs & [= <-]). by eapply staking_new_inv.
  - assert (contract_step c paid c') as Hst%contract_refines by by econstructor. clear Hal He. induction Hst; eauto using step_inv.
Qed.

End slashing.

(** C32: slashing takes exactly a quorum.  In every run of the contract, the votes for slashing a node that are open (cast
    in this epoch, and after the node was slashed last) are those of different members of the committee, each cast by a call
    in this epoch that was authorized by the voter's node.  The slashing succeeds exactly if these votes have more than two
    thirds of the shards and the node has a pool; it burns all of the commission, uses up the votes, and changes nothing
    else. *)
Theorem slashing_needs_quorum n c log candidate : 0 < n < 2 ^ 16 -> contract_log n c log ->
  let s := staking_inner c in
  let votes := open_votes candidate log in
  votes_ok s log candidate votes /\
  forall c' burnt, execute_slashing c candidate = Ok (c', burnt) <->
    2 * n + 1 <= 3 * zsum (weight_of (committee s) <$> votes) /\
    exists p, pools c !! candidate = Some p /\ burnt = commission p /\
      c' = with_pool candidate (set_commission 0 None p) (with_slashing (delete candidate (slashing_candidates c)) c).
Proof.
  intros Hn Hl s votes. pose proof (si_shards _ _ (log_staking n c log Hn Hl)) as Hsh. change (n_shards s = n) in Hsh. destruct (log_slashing n c log Hl) as [Hpr Hvo].
  split; [apply Hvo|]. intros c' burnt. specialize (Hpr candidate). fold votes s in Hpr. unfold execute_slashing, burn_commission, get_pool, extract_commission_to_burn, is_quorum_for_n_shards.
  fold s. cbn [staking_inner with_slashing pools]. fold s. rewrite Hsh. split.
  - intros He. call_inv. checked. match goal with H : slashing_candidates c !! candidate = Some _ |- _ => rewrite H in Hpr end. cbn in Hpr.
    rewrite decide_True in Hpr by done. destruct Hpr as (_ & _ & Hw & _). split; [lia|]. eexists. split_and!; [eassumption|done..].
  - intros (Hq & p & Hp & -> & ->). destruct (slashing_candidates c !! candidate) as [pr|]; cbn in Hpr; [|rewrite Hpr in Hq; cbn in Hq; lia].
    destruct Hpr as [_ Hpr]. case_decide as He; [|rewrite Hpr in Hq; cbn in Hq; lia]. destruct Hpr as (_ & Hw & Hlt). cbn [ok_or mbind outcome_bind].
    rewrite (proj2 (Z.eqb_eq _ _) He). cbn [ensure mbind outcome_bind]. rewrite Hw. rewrite !move_arith_in_range by lia. cbn [mbind outcome_bind].
    rewrite move_arith_in_range by lia. cbn [mbind outcome_bind]. rewrite (proj2 (Z.leb_le _ _)) by lia. cbn [ensure mbind outcome_bind]. rewrite Hp. done.
Qed.
