(* ===== verification/StakingSteady.v ===== *)
(** * Staking pools across epochs

    A node is [steady] in a run of the staking contract if it is not out of the
    committee for a whole epoch once it has been in one.  The pool of a steady node
    keeps the invariant [pool_inv]: it never holds up an epoch change, and stakes in
    it never lose value.  [blocked] is the opposite: a state in which the pool of a
    member of the committee makes every epoch change abort, whatever happens. *)

From stdpp Require Import sorting functions.
From S2P Require Import Prelude Redstuff MoveStd ApportionmentQueue Apportionment Committee Staking StakingProps StakingEpochs.
From S2P Require Import StakingPool StakingContract StakingPoolProps StakingContractProps.

(** ** Calls that leave stake alone *)

Record quiet_pool (p p' : StakingPool) : Prop := {
  qp_id : pool_id p' = pool_id p;
  qp_stake : same_stake p p';
  qp_commission : commission_ok p -> commission_ok p';
}.

Record quiet (c c' : StakingContract) : Prop := {
  qt_epoch : epoch (staking_inner c') = epoch (staking_inner c);
  qt_committee : committee (staking_inner c') = committee (staking_inner c);
  qt_next : next_committee (staking_inner c') = next_committee (staking_inner c);
  qt_wals : staked_wals c' = staked_wals c;
  qt_pools : forall id, option_Forall2 quiet_pool (pools c !! id) (pools c' !! id);
}.

Lemma quiet_pool_refl p : quiet_pool p p.
Proof. by split; [|split|]. Qed.

Lemma quiet_pool_trans p1 p2 p3 : quiet_pool p1 p2 -> quiet_pool p2 p3 -> quiet_pool p1 p3.
Proof.
  intros [I1 [(A1 & A2 & A3) (A4 & A5) (A6 & A7 & A8)] C1] [I2 [(B1 & B2 & B3) (B4 & B5) (B6 & B7 & B8)] C2].
  split; [congruence| |auto]. split; split_and!; congruence.
Qed.

Lemma quiet_pools_refl (ps : gmap ID StakingPool) id : option_Forall2 quiet_pool (ps !! id) (ps !! id).
Proof. destruct (ps !! id); constructor. apply quiet_pool_refl. Qed.

Lemma quiet_pools_insert (ps : gmap ID StakingPool) k p p' id : ps !! k = Some p -> quiet_pool p p' -> option_Forall2 quiet_pool (ps !! id) (<[k := p']> ps !! id).
Proof.
  intros Hp Hq. destruct (decide (k = id)) as [->|]; [|rewrite lookup_insert_ne by done; apply quiet_pools_refl].
  rewrite lookup_insert_eq, Hp. by constructor.
Qed.

(** Operations on the commission and the votes of a pool. *)
Lemma quiet_votes p v : quiet_pool p (set_votes v p).
Proof. split; [done|by split|]. intros []. by split. Qed.

Lemma quiet_authorized p r g : quiet_pool p (set_authorized r g p).
Proof. split; [done|by split|]. intros []. by split. Qed.

Lemma quiet_set_commission p v b : (commission_ok p -> 0 <= default 0 b <= v) -> quiet_pool p (set_commission v b p).
Proof. intros Hb. split; [done|by split|]. intros Hc. specialize (Hb Hc). destruct Hc. split; try done. Qed.

Lemma insert_or_replace_ok m k v m' : insert_or_replace m k v = Ok m' -> NoDup m.*1 ->
  NoDup m'.*1 /\ (forall P : Z -> Prop, P k -> Forall P m.*1 -> Forall P m'.*1) /\ (forall P : Z -> Prop, P v -> Forall P m.*2 -> Forall P m'.*2).
Proof.
  unfold insert_or_replace. intros Hi Hn. destruct (contains k m) eqn:Hc; cbn [negb] in Hi.
  - unfold vec_map_set in Hi. call_inv. match goal with H : get_idx_opt k m = Some ?i |- _ => apply get_idx_opt_Some in H as (w & Hw) end.
    rewrite !list_fmap_insert. cbn. split_and!; [rewrite list_insert_id; [done|by rewrite list_lookup_fmap, Hw]| |]; intros P HP HF; by apply Forall_insert.
  - unfold vec_map_insert in Hi. call_inv. apply contains_false in Hc. rewrite !fmap_app. cbn. split_and!.
    + apply NoDup_app. split_and!; [done| |apply NoDup_singleton]. intros y Hy ->%list_elem_of_singleton. done.
    + intros P HP HF. apply Forall_app. by split; [|constructor].
    + intros P HP HF. apply Forall_app. by split; [|constructor].
Qed.

Lemma quiet_next_commission p rate wctx p' : set_next_commission p rate wctx = Ok p' -> 0 <= rate -> quiet_pool p p'.
Proof.
  unfold set_next_commission. intros Hs Hr. call_inv. checked. split; [done|by split|]. intros [C1 [C2 C3] C4 C5 C6].
  match goal with H : insert_or_replace _ _ _ = Ok _ |- _ => apply insert_or_replace_ok in H as (H1 & H2 & H3); [|done] end.
  split; pool_simpl; [done|split; [done|by apply H2]|apply H3; [lia|done]|done|done].
Qed.

Lemma quiet_collect p auth p' wal : pool_collect_commission p auth = Ok (p', wal) -> quiet_pool p p'.
Proof.
  unfold pool_collect_commission. intros Hc. call_inv. destruct (Z.leb_spec (commission p) (default 0 (blocked_commission p))); call_inv; [apply quiet_pool_refl|].
  apply quiet_set_commission. intros []. lia.
Qed.

Lemma quiet_add_commission p v block p' : add_commission p v block = Ok p' -> 0 <= v -> quiet_pool p p'.
Proof.
  unfold add_commission, increase_blocked_commission. intros Ha Hv. call_inv. apply quiet_set_commission. intros [_ _ _ Hb _].
  destruct block; [destruct (blocked_commission p)|]; call_inv; cbn in *; lia.
Qed.

Lemma quiet_add_commissions l block (ps ps' : gmap ID StakingPool) : Forall (fun e : ID * Z => 0 <= e.2) l ->
  foldM (fun ps e => p ← expect (ps !! fst e); p ← add_commission p (snd e) block; Ok (<[fst e := p]> ps)) ps l = Ok ps' ->
  forall id, option_Forall2 quiet_pool (ps !! id) (ps' !! id).
Proof.
  intros Hl. revert ps. induction Hl as [|[k v] l Hv _ IH]; intros ps Hf id; [injection Hf as <-; apply quiet_pools_refl|]. cbn [foldM] in Hf.
  apply bind_Ok in Hf as (ps1 & H1 & Hf). specialize (IH _ Hf id). call_inv. cbn in *.
  match goal with H : add_commission _ _ _ = Ok _ |- _ => apply quiet_add_commission in H; [|done] end.
  pose proof (quiet_pools_insert ps k _ _ id ltac:(eassumption) ltac:(eassumption)) as Hq. inversion Hq as [? ? Hqp He1 He2|He1 He2]; rewrite <- He2 in IH; inversion IH; subst; constructor.
  by eapply quiet_pool_trans.
Qed.

Lemma active_quiet c c' : active_changed c c' -> quiet c c'.
Proof. intros [_ [set Hs] Hp Hw _]. split; rewrite ?Hs, ?Hw, ?Hp; try done. intros id. apply quiet_pools_refl. Qed.

Lemma with_pool_quiet c id p p' : pools c !! id = Some p -> quiet_pool p p' -> quiet c (with_pool id p' c).
Proof. intros Hp Hq. split; try done. intros k. by eapply quiet_pools_insert. Qed.

Lemma execute_quiet call c c' paid : staking_allowed call c -> staking_execute call c = Ok (c', paid) ->
  match call with
  | RegisterCandidate _ _ _ _ _ _ _ _ _ _ _ | StakeWithPool _ _ _ | RequestWithdrawStake _ | WithdrawStake _ | SplitStake _ _ _ | JoinStake _ _
  | VotingEnd _ | InitiateEpochChange _ _ => True
  | _ => quiet c c'
  end.
Proof.
  intros [_ Hal] He. destruct call; try done; cbn [staking_execute] in He;
    try (apply on_pool_ok in He as (p & p' & Hp & Hf & -> & ->); cbv beta in Hf; eapply with_pool_quiet; [exact Hp|];
         unfold set_commission_receiver, set_governance_authorized in Hf; call_inv; first [apply quiet_votes|apply quiet_authorized|by eapply quiet_next_commission]).
  - call_inv. by eapply active_quiet, update_active_set_ok.
  - unfold get_pool in He. call_inv. eapply with_pool_quiet; [eassumption|by eapply quiet_collect].
  - unfold add_commission_to_pools in He. call_inv. split; try done. eapply quiet_add_commissions; [|eassumption].
    match goal with H : (length ?l =? length ?m)%nat = true |- _ => apply Nat.eqb_eq in H; apply (Forall_fmap snd (Z.le 0)); by rewrite snd_zip by lia end.
  - unfold vote_for_slashing in He. call_inv. split; try done. intros k. apply quiet_pools_refl.
  - unfold execute_slashing, burn_commission, get_pool, extract_commission_to_burn in He. call_inv.
    split; try done. intros k. cbn. eapply quiet_pools_insert; [eassumption|]. apply quiet_set_commission. cbn. lia.
  - call_inv. split; try done. intros k. apply quiet_pools_refl.
  - call_inv. match goal with H : contract_epoch_sync_done _ _ _ _ = Ok _ |- _ => apply sync_done_ok in H as (_ & [st Hs] & Hp & Hw & _) end.
    split; rewrite ?Hs, ?Hp; try done. intros k. apply quiet_pools_refl.
Qed.

(** ** Invariants of every run *)

(** The stake that becomes active in epoch [a] and was not withdrawn. *)
Definition stake_of (id : ID) (a : Z) (sw : StakedWal) : Z :=
  if is_staked sw && (sw_node_id sw =? id) && (sw_activation_epoch sw =? a) then principal sw else 0.
Definition staked_at (c : StakingContract) (id : ID) (a : Z) : Z := msum (stake_of id a) (staked_wals c).

Definition wal_ok (ps : gmap ID StakingPool) (sw : StakedWal) : Prop :=
  0 < principal sw < 2 ^ 64 /\ 0 <= sw_activation_epoch sw /\ is_Some (ps !! sw_node_id sw).

Record contract_inv (n : Z) (c : StakingContract) : Prop := {
  ci_staking : staking_inv n (view c);
  ci_wals : map_Forall (fun _ => wal_ok (pools c)) (staked_wals c);
  ci_ids : map_Forall (fun id p => pool_id p = id) (pools c);
  ci_members : forall id, in_committee id (committee (staking_inner c)) = true \/ in_next id (staking_inner c) = true -> is_Some (pools c !! id);
}.

(** Pools stay, with their identifiers. *)
Definition pools_kept (ps ps' : gmap ID StakingPool) : Prop :=
  (forall id, is_Some (ps !! id) -> is_Some (ps' !! id)) /\ (map_Forall (fun id p => pool_id p = id) ps -> map_Forall (fun id p => pool_id p = id) ps').

Lemma wal_ok_kept ps ps' sw : pools_kept ps ps' -> wal_ok ps sw -> wal_ok ps' sw.
Proof. intros [Hk _] (H1 & H2 & H3). split_and!; auto; apply H1. Qed.

Lemma kept_insert ps id p p' : ps !! id = Some p -> pool_id p' = pool_id p -> pools_kept ps (<[id := p']> ps).
Proof.
  intros Hp Hid. split.
  - intros k Hk. destruct (decide (id = k)) as [->|]; [by rewrite lookup_insert_eq|by rewrite lookup_insert_ne].
  - intros Hall k q Hq. destruct (decide (id = k)) as [<-|].
    + rewrite lookup_insert_eq in Hq. injection Hq as <-. rewrite Hid. by apply (Hall id p).
    + rewrite lookup_insert_ne in Hq by done. by apply Hall.
Qed.

Lemma kept_quiet c c' : quiet c c' -> pools_kept (pools c) (pools c').
Proof.
  intros [_ _ _ _ Hq]. split.
  - intros id [p Hp]. specialize (Hq id). rewrite Hp in Hq. destruct (pools c' !! id); [by eexists|inversion Hq].
  - intros Hall id p' Hp'. specialize (Hq id). rewrite Hp' in Hq. inversion Hq as [p ? Hqp Hp He|]; subst. rewrite (qp_id _ _ Hqp). by apply Hall.
Qed.

Section contract.
Context (n : Z) (Hn : 0 < n < 2 ^ 16).
Implicit Types c : StakingContract.

Lemma view_inv c c' paid : contract_step c paid c' -> contract_inv n c -> staking_inv n (view c').
Proof.
  intros Hs%contract_refines [Hi _ _ _]. enough (forall st st', rtc staking_step st st' -> staking_inv n st -> staking_inv n st') as Hg by (by eapply Hg).
  clear Hs Hi. induction 1; [done|]. intros Hi. eauto using step_inv.
Qed.

(** Calls other than the two that change committees. *)
Lemma same_committees_inv c c' : contract_inv n c -> staking_inv n (view c') -> committee (staking_inner c') = committee (staking_inner c) ->
  next_committee (staking_inner c') = next_committee (staking_inner c) -> pools_kept (pools c) (pools c') ->
  map_Forall (fun _ => wal_ok (pools c')) (staked_wals c') -> contract_inv n c'.
Proof.
  intros [_ _ H3 H4] Hv Hc Hnx Hk Hw. split; [done|done|by apply Hk|]. intros id Hid. apply Hk, H4. unfold in_next in *. by rewrite Hc, Hnx in Hid.
Qed.

Lemma kept_refl ps : pools_kept ps ps.
Proof. by split. Qed.

Lemma wals_kept c ps' : contract_inv n c -> pools_kept (pools c) ps' -> map_Forall (fun _ => wal_ok ps') (staked_wals c).
Proof. intros Hi Hk i sw Hsw. eapply wal_ok_kept; [done|]. by apply (ci_wals _ _ Hi i). Qed.

Lemma request_sw p sw cur nxt wctx p' sw' : pool_request_withdraw_stake p sw cur nxt wctx = Ok (p', sw') -> pool_id p' = pool_id p /\
  exists w, sw' = mk_staked_wal (Withdrawing w) (sw_node_id sw) (principal sw) (sw_activation_epoch sw).
Proof.
  unfold pool_request_withdraw_stake, sw_set_withdrawing. intros Hr. call_inv. destruct (sw_activation_epoch sw =? _); call_inv; split; try done; by eexists.
Qed.

Lemma withdraw_id p sw cur nxt wctx p' wal : pool_withdraw_stake p sw cur nxt wctx = Ok (p', wal) -> pool_id p' = pool_id p.
Proof.
  unfold pool_withdraw_stake, withdraw_rewards. intros Hw. call_inv. match goal with H : (if ?b then _ else _) = Ok _ |- _ => destruct b; call_inv end; [done|].
  pool_simpl. match goal with H : (if ?b then _ else _) = Ok _ |- _ => destruct b end; [destruct (wctx_epoch wctx <? sw_activation_epoch sw)|]; call_inv; done.
Qed.

Lemma advance_id p r wctx p' : pool_advance_epoch p r wctx = Ok p' -> pool_id p' = pool_id p.
Proof. unfold pool_advance_epoch, add_commission, process_pending_stake. intros Ha. by call_inv. Qed.

(** A call that changes one pool and the stakes, and then the active set. *)
Lemma stake_call_inv c id p p' wals c' : contract_inv n c -> staking_inv n (view c') -> pools c !! id = Some p -> pool_id p' = pool_id p ->
  active_changed (with_wals wals (with_pool id p' c)) c' -> map_Forall (fun _ => wal_ok (pools c)) wals -> contract_inv n c'.
Proof.
  intros Hi Hv Hp Hid [_ [set Hs] Hps Hws _] Hw. pose proof (kept_insert _ _ _ _ Hp Hid) as Hk. apply (same_committees_inv c); rewrite ?Hs, ?Hps, ?Hws; try done.
  intros i sw Hsw. eapply wal_ok_kept; [done|]. by apply (Hw i).
Qed.

Lemma voting_ended_inv c c' next : voting_ended c c' next -> contract_inv n c -> staking_inv n (view c') -> contract_inv n c'.
Proof.
  intros [_ _ V1 [_ V2] V3 V4 [V5 _]] Hi Hv. assert (pools_kept (pools c) (pools c')) as Hk.
  { rewrite V4. split; [intros id Hid|intros Hall id p Hp]; pose proof (cleared_pools (staking_inner c) (pools c) id) as Hcl.
    - destruct (clear_previous_committee_blocked_commission (staking_inner c) (pools c) !! id); [by eexists|]. rewrite Hcl in Hid. by destruct Hid.
    - rewrite Hp in Hcl. destruct Hcl as (q & Hq & Hpq). specialize (Hall _ _ Hq). by destruct Hpq as [->| ->]. }
  split; [done|rewrite V5; by apply wals_kept|apply Hk, (ci_ids _ _ Hi)|]. intros id Hid. apply Hk. destruct Hid as [Hid|Hid].
  - rewrite V2 in Hid. apply (ci_members _ _ Hi). by left.
  - unfold in_next in Hid. rewrite V1 in Hid. by apply V3.
Qed.

Lemma epoch_changed_inv c c' rewards next : epoch_changed c c' rewards next -> contract_inv n c -> staking_inv n (view c') -> contract_inv n c'.
Proof.
  intros [E1 _ [_ E2 E3] _ [E4 E5] [E6 _]] Hi Hv.
  assert (forall id, (exists r, (id, r) ∈ advanced_nodes (staking_inner c) next rewards) \/ pools c' !! id = pools c !! id) as Hcases.
  { intros id. destruct (decide (id ∈ (advanced_nodes (staking_inner c) next rewards).*1)) as [Hin|]; [|auto].
    apply list_elem_of_fmap in Hin as ([? r] & -> & Hin). left. by exists r. }
  assert (pools_kept (pools c) (pools c')) as Hk.
  { split; [intros id Hid|intros Hall id p Hp]; destruct (Hcases id) as [(r & (p1 & p2 & H1 & H2 & H3)%E3)|Heq].
    - by rewrite H2.
    - by rewrite Heq.
    - rewrite Hp in H2. injection H2 as <-. rewrite (advance_id _ _ _ _ H3). by apply Hall.
    - rewrite Heq in Hp. by apply Hall. }
  split; [done|rewrite E6; by apply wals_kept|apply Hk, (ci_ids _ _ Hi)|]. intros id Hid. apply Hk, (ci_members _ _ Hi). right. unfold in_next in *.
  rewrite E1. rewrite E4, E5 in Hid. by destruct Hid.
Qed.

Lemma contract_step_inv c paid c' : contract_step c paid c' -> contract_inv n c -> contract_inv n c'.
Proof.
  intros Hst Hi. pose proof (view_inv _ _ _ Hst Hi) as Hv. destruct Hst as [call Hal He]. pose proof (execute_quiet call c c' paid Hal He) as Hq.
  destruct call; try (pose proof (kept_quiet _ _ Hq) as Hk; destruct Hq as [_ Hc Hnx Hw _]; apply (same_committees_inv c); try done; rewrite Hw; by apply wals_kept);
    clear Hq; cbn [staking_execute] in He; destruct Hal as [Hep Hal].
  - unfold register_candidate, pool_new, set_commission_receiver in He. call_inv. destruct Hal as [Hfresh _].
    match goal with |- contract_inv n (with_pool id ?p c) => assert (pools_kept (pools c) (<[id := p]> (pools c))) as Hk end.
    { split; [intros k Hk; destruct (decide (id = k)) as [->|]; [by rewrite lookup_insert_eq|by rewrite lookup_insert_ne]|]. intros Hall. by apply map_Forall_insert_2. }
    apply (same_committees_inv c); [done|done|done|done|exact Hk|exact (wals_kept c _ Hi Hk)].
  - unfold stake_with_pool, get_pool in He. call_inv. match goal with H : pool_stake _ _ _ = Ok _ |- _ => unfold pool_stake, mint in H end. call_inv. checked.
    eapply stake_call_inv; [done|done|eassumption| |by eapply update_active_set_ok|]; [done|].
    apply map_Forall_insert_2; [|apply (ci_wals _ _ Hi)]. match goal with H : pools c !! id = Some _ |- _ => pose proof (ci_ids _ _ Hi _ _ H) as Hid end.
    split_and!; cbn; [lia|lia|match goal with H : 0 <= _ < 2 ^ 32 |- _ => exact (proj1 H) end|]. rewrite Hid. by eexists.
  - unfold request_withdraw_stake, get_pool in He. call_inv. match goal with H : pool_request_withdraw_stake _ _ _ _ _ = Ok _ |- _ => apply request_sw in H as (Hid & w & ->) end.
    match goal with H : staked_wals c !! object_id = Some _ |- _ => pose proof (ci_wals _ _ Hi _ _ H) as Hw end.
    eapply stake_call_inv; [done|done|eassumption|done|by eapply update_active_set_ok|]. apply map_Forall_insert_2; [exact Hw|apply (ci_wals _ _ Hi)].
  - unfold withdraw_stake, get_pool in He. call_inv. match goal with H : pool_withdraw_stake _ _ _ _ _ = Ok _ |- _ => apply withdraw_id in H end.
    eapply stake_call_inv; [done|done|eassumption|done|by eapply update_active_set_ok|]. apply map_Forall_delete, (ci_wals _ _ Hi).
  - unfold sw_split in He. call_inv. checked. match goal with H : staked_wals c !! object_id = Some _ |- _ => pose proof (ci_wals _ _ Hi _ _ H) as (Hw1 & Hw2 & Hw3) end.
    apply (same_committees_inv c); try done. unfold MIN_STAKING_THRESHOLD in *. apply map_Forall_insert_2; [split_and!; cbn; (lia || done)|].
    apply map_Forall_insert_2; [split_and!; cbn; (lia || done)|apply (ci_wals _ _ Hi)].
  - unfold sw_join in He. call_inv. checked. match goal with H : staked_wals c !! object_id = Some _ |- _ => pose proof (ci_wals _ _ Hi _ _ H) as (Hw1 & Hw2 & Hw3) end.
    match goal with H : delete _ _ !! _ = Some _ |- _ => apply lookup_delete_Some in H as [Hne Hother]; pose proof (ci_wals _ _ Hi _ _ Hother) as (Hw4 & _ & _) end.
    apply (same_committees_inv c); try done. apply map_Forall_delete, map_Forall_insert_2; [split_and!; cbn; (lia || done)|apply (ci_wals _ _ Hi)].
  - call_inv. match goal with H : contract_voting_end _ _ = Ok _ |- _ => apply voting_end_ok in H as (next & H); by eapply voting_ended_inv end.
  - call_inv. match goal with H : contract_initiate_epoch_change _ _ _ = Ok _ |- _ => apply epoch_change_ok in H as (next & H); by eapply epoch_changed_inv end.
Qed.

Lemma contract_new_inv zero duration now c : contract_new zero duration n now = Ok c -> contract_inv n c.
Proof.
  intros (s & Hs & [= <-])%bind_Ok. split; [by eapply staking_new_inv|apply map_Forall_empty|apply map_Forall_empty|].
  unfold staking_new in Hs. call_inv. intros id Hid. by destruct Hid.
Qed.

End contract.

(** ** Steady nodes *)

Definition nxt_of (id : ID) (s : StakingInnerV1) : option bool := in_committee id <$> next_committee s.

(** A node that has been in a committee is neither in this one nor in the next. *)
Definition sits_out (id : ID) (c : StakingContract) : Prop :=
  in_committee id (committee (staking_inner c)) = false /\ in_next id (staking_inner c) = false /\
  exists p, pools c !! id = Some p /\ exchange_rates p <> {[ activation_epoch p := Flat ]}.

Inductive steady (n : Z) (id : ID) : StakingContract -> Prop :=
| sy_init zero duration now c : contract_new zero duration n now = Ok c -> steady n id c
| sy_step c paid c' : steady n id c -> contract_step c paid c' -> (epoch (staking_inner c') <> epoch (staking_inner c) -> ~ sits_out id c) -> steady n id c'.

Definition steady_inv (id : ID) (c : StakingContract) : Prop :=
  forall p, pools c !! id = Some p ->
    pool_inv (epoch (staking_inner c)) (in_committee id (committee (staking_inner c))) (nxt_of id (staking_inner c)) (staked_at c id) p /\
    prices_ok (epoch (staking_inner c)) (staked_at c id) p.

Section stakes.
Context (n : Z).
Implicit Types c : StakingContract.

Lemma in_next_eq id s : in_next id s = bool_decide (nxt_of id s = Some true).
Proof. unfold in_next, nxt_of. destruct (next_committee s) as [cm|]; cbn; [|done]. destruct (in_committee id cm); done. Qed.

Lemma wctx_eq id s : new_walrus_context s = mk_wctx (epoch s) (match nxt_of id s with Some _ => true | None => false end).
Proof. unfold new_walrus_context, nxt_of. by destruct (next_committee s). Qed.

Lemma staked_at_nonneg c id a : contract_inv n c -> 0 <= staked_at c id a.
Proof. intros Hi. apply msum_nonneg. intros i sw Hsw. apply (ci_wals _ _ Hi) in Hsw as [Hp _]. unfold stake_of. destruct (_ && _); lia. Qed.

(** What the operations on stake leave alone. *)
Record same_rates (p p' : StakingPool) : Prop := {
  sr_wal : wal_balance p' = wal_balance p;
  sr_shares : num_shares p' = num_shares p;
  sr_rates : exchange_rates p' = exchange_rates p;
  sr_activation : activation_epoch p' = activation_epoch p;
}.

Lemma stake_rates p v wctx p' sw : pool_stake p v wctx = Ok (p', sw) -> same_rates p p'.
Proof. unfold pool_stake. intros Hs. call_inv. by split. Qed.

Lemma request_rates p sw cur nxt wctx p' sw' : pool_request_withdraw_stake p sw cur nxt wctx = Ok (p', sw') -> same_rates p p'.
Proof. unfold pool_request_withdraw_stake. intros Hr. call_inv. destruct (sw_activation_epoch sw =? _); call_inv; by split. Qed.

Lemma withdraw_rates p sw cur nxt wctx p' wal : pool_withdraw_stake p sw cur nxt wctx = Ok (p', wal) -> same_rates p p'.
Proof.
  unfold pool_withdraw_stake, withdraw_rewards. intros Hw. call_inv. match goal with H : (if ?b then _ else _) = Ok _ |- _ => destruct b; call_inv end; [by split|].
  match goal with H : (if ?b then _ else _) = Ok _ |- _ => destruct b end; [destruct (wctx_epoch wctx <? sw_activation_epoch sw)|]; call_inv; by split.
Qed.

Lemma prices_same_rates E cur nxt A A' p p' : pool_inv E cur nxt A p -> prices_ok E A p -> E < 2 ^ 32 -> same_rates p p' -> (forall a, a <= E -> A' a <= A a) ->
  prices_ok E A' p'.
Proof.
  intros Hi Hp HE [S1 S2 S3 S4] HA. eapply prices_less; [exact Hp|apply (wf_rates _ (pi_wf _ _ _ _ _ Hi))|done|done| |done|done]. intros a. by apply rate_at_same.
Qed.

(** *** Calls that do not change the pool's stake *)

Lemma pool_inv_quiet E cur nxt A p p' : quiet_pool p p' -> pool_inv E cur nxt A p -> prices_ok E A p -> E < 2 ^ 32 ->
  pool_inv E cur nxt A p' /\ prices_ok E A p'.
Proof.
  intros [_ Hs Hc] Hi Hp HE. split; [eapply pool_inv_same; [exact Hs|by apply Hc, (pi_commission _ _ _ _ _ Hi)|done]|].
  eapply prices_same_rates; [done|done|done| |done]. by destruct Hs as [(? & ? & ?) (? & ?) _].
Qed.

Lemma steady_quiet id c c' : steady_inv id c -> quiet c c' -> epoch (staking_inner c) < 2 ^ 32 -> steady_inv id c'.
Proof.
  intros Hs [Q1 Q2 Q3 Q4 Q5] HE p' Hp'. specialize (Q5 id). rewrite Hp' in Q5. inversion Q5 as [p ? Hq Hp He|]; subst. destruct (Hs p) as [Hi Hpr]; [done|].
  unfold nxt_of, staked_at. rewrite Q1, Q2, Q3, Q4. by apply (pool_inv_quiet _ _ _ _ p).
Qed.

(** The stakes of other nodes change, or change hands. *)
Lemma steady_same id c c' : steady_inv id c -> epoch (staking_inner c') = epoch (staking_inner c) -> committee (staking_inner c') = committee (staking_inner c) ->
  next_committee (staking_inner c') = next_committee (staking_inner c) -> pools c' !! id = pools c !! id -> (forall a, staked_at c' id a = staked_at c id a) ->
  epoch (staking_inner c) < 2 ^ 32 -> steady_inv id c'.
Proof.
  intros Hs H1 H2 H3 H4 H5 HE p Hp. rewrite H4 in Hp. destruct (Hs p Hp) as [Hi Hpr]. unfold nxt_of. rewrite H1, H2, H3. split.
  - by eapply pool_inv_ext.
  - eapply prices_same_rates; [done|done|done|by split|]. intros a _. by rewrite H5.
Qed.

(** *** Calls on stake *)

Lemma stake_of_other id k a sw : sw_node_id sw = k -> id <> k -> stake_of id a sw = 0.
Proof. intros Hk Hne. unfold stake_of. rewrite (proj2 (Z.eqb_neq _ id)) by congruence. by rewrite andb_false_r. Qed.

Lemma stake_of_staked sw a : is_staked sw = true -> stake_of (sw_node_id sw) a sw = if a =? sw_activation_epoch sw then principal sw else 0.
Proof. intros Hs. unfold stake_of. rewrite Hs, Z.eqb_refl, Z.eqb_sym. done. Qed.

Lemma stake_of_withdrawing id a sw : is_staked sw = false -> stake_of id a sw = 0.
Proof. intros Hs. unfold stake_of. by rewrite Hs. Qed.

Lemma stake_of_bound c i sw id a : contract_inv n c -> staked_wals c !! i = Some sw -> 0 <= stake_of id a sw <= staked_at c id a.
Proof.
  intros Hi Hsw. assert (forall sw, wal_ok (pools c) sw -> 0 <= stake_of id a sw) as H0.
  { intros x [Hx _]. unfold stake_of. destruct (_ && _); lia. }
  split; [apply H0; by apply (ci_wals _ _ Hi i)|]. unfold staked_at. pose proof (msum_delete (stake_of id a) i sw _ Hsw) as Hd.
  enough (0 <= msum (stake_of id a) (delete i (staked_wals c))) by lia. apply msum_nonneg. intros j x [_ Hx]%lookup_delete_Some. apply H0. by apply (ci_wals _ _ Hi j).
Qed.

(** The pool of node [k] and one stake in it change. *)
Lemma steady_stake id c k p p' wals c' : contract_inv n c -> steady_inv id c -> epoch (staking_inner c) + 2 < 2 ^ 32 -> pools c !! k = Some p ->
  active_changed (with_wals wals (with_pool k p' c)) c' -> same_rates p p' ->
  (forall a, id <> k -> msum (stake_of id a) wals = staked_at c id a) ->
  (id = k -> forall a, a <= epoch (staking_inner c) -> msum (stake_of k a) wals <= staked_at c k a) ->
  (id = k -> pool_inv (epoch (staking_inner c)) (in_committee k (committee (staking_inner c))) (nxt_of k (staking_inner c)) (staked_at c k) p ->
    pool_inv (epoch (staking_inner c)) (in_committee k (committee (staking_inner c))) (nxt_of k (staking_inner c)) (fun a => msum (stake_of k a) wals) p') ->
  steady_inv id c'.
Proof.
  intros Hi Hs HE Hp [_ [set Hset] Hps Hws _] Hr Hother Hle Hinv. destruct (decide (id = k)) as [->|Hne].
  - intros q Hq. rewrite Hps in Hq. cbn in Hq. rewrite lookup_insert_eq in Hq. injection Hq as <-. destruct (Hs p Hp) as [Hpi Hpr].
    unfold staked_at, nxt_of. rewrite Hset, Hws. cbn [staking_inner with_wals with_pool with_pools set_active_set epoch committee next_committee staked_wals].
    split; [by apply Hinv|]. eapply prices_same_rates; [exact Hpi|exact Hpr|lia|done|]. by apply Hle.
  - apply (steady_same id c); try done; rewrite ?Hset; try done; [rewrite Hps; cbn; by rewrite lookup_insert_ne| |lia].
    intros a. unfold staked_at at 1. rewrite Hws. by apply Hother.
Qed.

Lemma steady_stake_call id c v k object c' : contract_inv n c -> steady_inv id c -> epoch (staking_inner c) + 2 < 2 ^ 32 -> v < 2 ^ 64 ->
  staked_wals c !! object = None -> stake_with_pool c v k object = Ok c' -> steady_inv id c'.
Proof.
  intros Hi Hs HE Hv Hf Hc. unfold stake_with_pool, get_pool in Hc. call_inv. rewrite (wctx_eq k) in *.
  match goal with H : pools c !! k = Some _ |- _ => rename H into Hp; pose proof (ci_ids _ _ Hi _ _ Hp) as Hid end.
  match goal with H : pool_stake _ _ _ = Ok (?q, ?w) |- _ => rename H into Hst; rename q into p'; rename w into sw end.
  match goal with H : update_active_set _ _ _ = Ok _ |- _ => apply update_active_set_ok in H as Hac end.
  assert (sw_node_id sw = k /\ is_staked sw = true /\ epoch (staking_inner c) < sw_activation_epoch sw /\ 0 <= principal sw) as (Hk & Hsk & Ha & Hv0).
  { unfold pool_stake, mint in Hst. call_inv. checked. cbn. split_and!; [done|done|destruct (nxt_of _ _); lia|lia]. }
  eapply (steady_stake id c k _ p'); [done|done|done|done|exact Hac|by eapply stake_rates| | |].
  - intros a Hne. rewrite msum_insert_fresh by done. by rewrite (stake_of_other id k a sw).
  - intros -> a Hle. rewrite msum_insert_fresh by done. rewrite <- Hk at 1. rewrite stake_of_staked by done. rewrite (proj2 (Z.eqb_neq a _)) by lia. done.
  - intros -> Hpi. destruct (pool_stake_inv _ _ _ _ _ _ _ _ Hpi Hst Hv) as (a & -> & _ & _ & Hinv). apply Hinv. intros y. rewrite msum_insert_fresh by done.
    match goal with |- context [stake_of k y ?w] => assert (stake_of k y w = if y =? a then v else 0) as -> end; [|unfold staked_at; lia].
    unfold stake_of, is_staked. cbn in Hk |- *. by rewrite Hk, Z.eqb_refl, (Z.eqb_sym a y).
Qed.

Lemma steady_request_call id c object c' : contract_inv n c -> steady_inv id c -> epoch (staking_inner c) + 2 < 2 ^ 32 ->
  request_withdraw_stake c object = Ok c' -> steady_inv id c'.
Proof.
  intros Hi Hs HE Hc. unfold request_withdraw_stake, get_pool in Hc. call_inv.
  match goal with H : staked_wals c !! object = Some ?w |- _ => rename H into Hsw; rename w into sw; destruct (ci_wals _ _ Hi _ _ Hsw) as (Hpr & Ha & _) end.
  match goal with H : pools c !! _ = Some _ |- _ => rename H into Hp end. rewrite (wctx_eq (sw_node_id sw)), in_next_eq in *.
  match goal with H : pool_request_withdraw_stake _ _ _ _ _ = Ok (?q, ?w) |- _ => rename H into Hr; rename q into p'; rename w into sw' end.
  match goal with H : update_active_set _ _ _ = Ok _ |- _ => apply update_active_set_ok in H as Hac end.
  assert (is_staked sw = true) as Hsk by (unfold pool_request_withdraw_stake in Hr; by call_inv). pose proof (request_sw _ _ _ _ _ _ _ Hr) as (_ & w & ->).
  assert (forall i a, msum (stake_of i a) (<[object := mk_staked_wal (Withdrawing w) (sw_node_id sw) (principal sw) (sw_activation_epoch sw)]> (staked_wals c)) =
    staked_at c i a - stake_of i a sw) as Hsum by (intros i a; rewrite (msum_replace _ _ _ sw) by done; rewrite (stake_of_withdrawing i a (mk_staked_wal _ _ _ _)) by done; unfold staked_at; lia).
  eapply (steady_stake id c (sw_node_id sw) _ p'); [done|done|done|exact Hp|exact Hac|by eapply request_rates| | |].
  - intros a Hne. rewrite Hsum, (stake_of_other id (sw_node_id sw)) by done. lia.
  - intros -> a _. rewrite Hsum. pose proof (stake_of_bound c object sw (sw_node_id sw) a Hi Hsw). lia.
  - intros -> Hpi. destruct (request_stake_inv _ _ _ HE _ _ _ _ _ Hpi Hr ltac:(lia) Ha) as (_ & _ & Hinv). apply Hinv.
    + intros y. rewrite Hsum, stake_of_staked by done. destruct (y =? _); lia.
    + intros y. rewrite Hsum. pose proof (stake_of_bound c object sw (sw_node_id sw) y Hi Hsw). lia.
Qed.

Lemma steady_withdraw_call id c object c' wal : contract_inv n c -> steady_inv id c -> epoch (staking_inner c) + 2 < 2 ^ 32 ->
  withdraw_stake c object = Ok (c', wal) -> steady_inv id c'.
Proof.
  intros Hi Hs HE Hc. unfold withdraw_stake, get_pool in Hc. call_inv.
  match goal with H : staked_wals c !! object = Some ?w |- _ => rename H into Hsw; rename w into sw; destruct (ci_wals _ _ Hi _ _ Hsw) as (Hpr & Ha & _) end.
  match goal with H : pools c !! _ = Some _ |- _ => rename H into Hp end. rewrite (wctx_eq (sw_node_id sw)), in_next_eq in *.
  match goal with H : pool_withdraw_stake _ _ _ _ _ = Ok (?q, _) |- _ => rename H into Hw; rename q into p' end.
  match goal with H : update_active_set _ _ _ = Ok _ |- _ => apply update_active_set_ok in H as Hac end.
  assert (forall i a, msum (stake_of i a) (delete object (staked_wals c)) = staked_at c i a - stake_of i a sw) as Hsum by (intros i a; by apply msum_delete).
  eapply (steady_stake id c (sw_node_id sw) _ p'); [done|done|done|exact Hp|exact Hac|by eapply withdraw_rates| | |].
  - intros a Hne. rewrite Hsum, (stake_of_other id (sw_node_id sw)) by done. lia.
  - intros -> a _. rewrite Hsum. pose proof (stake_of_bound c object sw (sw_node_id sw) a Hi Hsw). lia.
  - intros -> Hpi. pose proof (withdraw_inv _ _ _ HE _ _ _ _ _ Hpi Hw ltac:(lia) Ha) as Hinv. destruct (is_staked sw) eqn:Hsk.
    + apply Hinv; intros y; rewrite Hsum; [rewrite stake_of_staked by done; destruct (y =? _); lia|].
      pose proof (stake_of_bound c object sw (sw_node_id sw) y Hi Hsw). lia.
    + eapply pool_inv_ext; [|exact Hinv]. intros y. cbv beta. rewrite Hsum, (stake_of_withdrawing _ y sw) by done. lia.
Qed.

(** A stake in two parts. *)
Lemma stake_of_parts id a sw sw1 sw2 : is_staked sw1 = is_staked sw -> is_staked sw2 = is_staked sw -> sw_node_id sw1 = sw_node_id sw -> sw_node_id sw2 = sw_node_id sw ->
  sw_activation_epoch sw1 = sw_activation_epoch sw -> sw_activation_epoch sw2 = sw_activation_epoch sw -> principal sw = principal sw1 + principal sw2 ->
  stake_of id a sw = stake_of id a sw1 + stake_of id a sw2.
Proof. intros H1 H2 H3 H4 H5 H6 H7. unfold stake_of. rewrite H1, H2, H3, H4, H5, H6, H7. destruct (_ && _); lia. Qed.

Lemma steady_split id c object amount new sw sw1 sw2 : steady_inv id c -> epoch (staking_inner c) < 2 ^ 32 -> staked_wals c !! object = Some sw ->
  staked_wals c !! new = None -> sw_split sw amount = Ok (sw1, sw2) -> steady_inv id (with_wals (<[new := sw2]> (<[object := sw1]> (staked_wals c))) c).
Proof.
  intros Hs HE Hsw Hf Hsp. apply (steady_same id c); try done. intros a. unfold staked_at. cbn.
  rewrite msum_insert_fresh by (rewrite lookup_insert_ne; [done|congruence]). rewrite (msum_replace _ _ _ sw) by done.
  unfold sw_split in Hsp. call_inv. match goal with |- stake_of _ _ ?x + (_ - _ + stake_of _ _ ?y) = _ => rewrite (stake_of_parts id a sw x y); try done; [lia|cbn; lia] end.
Qed.

Lemma steady_join id c object other sw sw1 sw2 : steady_inv id c -> epoch (staking_inner c) < 2 ^ 32 -> staked_wals c !! object = Some sw1 ->
  staked_wals c !! other = Some sw2 -> object <> other -> sw_join sw1 sw2 = Ok sw -> steady_inv id (with_wals (delete other (<[object := sw]> (staked_wals c))) c).
Proof.
  intros Hs HE H1 H2 Hne Hj. apply (steady_same id c); try done. intros a. unfold staked_at. cbn.
  rewrite (msum_delete _ _ sw2) by (by rewrite lookup_insert_ne). rewrite (msum_replace _ _ _ sw1) by done.
  unfold sw_join in Hj. call_inv. checked. match goal with |- _ + stake_of _ _ ?x - _ = _ => rewrite (stake_of_parts id a x sw1 sw2); try done; [lia|] end.
  cbn. unfold is_staked, sw_is_withdrawing in *. destruct (sw_state sw1), (sw_state sw2); call_inv; done.
Qed.

Lemma steady_register id c k p : contract_inv n c -> steady_inv id c -> epoch (staking_inner c) < 2 ^ 32 -> pools c !! k = None ->
  pool_inv (epoch (staking_inner c)) false (nxt_of k (staking_inner c)) (fun _ => 0) p -> fresh (epoch (staking_inner c)) false (nxt_of k (staking_inner c)) (fun _ => 0) p ->
  steady_inv id (with_pool k p c).
Proof.
  intros Hi Hs HE Hf Hp Hfr. destruct (decide (id = k)) as [->|Hne]; [|apply (steady_same id c); try done; cbn; by rewrite lookup_insert_ne].
  assert (forall a, staked_at c k a = 0) as H0.
  { intros a. unfold staked_at, msum. assert (Forall (fun x => stake_of k a x = 0) (map_to_list (staked_wals c)).*2) as Hall.
    { apply Forall_fmap, Forall_forall. intros [i sw] Hsw%elem_of_map_to_list. apply (ci_wals _ _ Hi) in Hsw as (_ & _ & [q Hq]).
      cbn. apply (stake_of_other k (sw_node_id sw)); [done|]. intros ->. congruence. }
    induction Hall as [|x l Hx _ IH]; [done|]. cbn. unfold zsum in *. lia. }
  assert (in_committee k (committee (staking_inner c)) = false) as Hcur.
  { destruct (in_committee k (committee (staking_inner c))) eqn:Hin; [|done]. destruct (ci_members _ _ Hi k ltac:(by left)) as [q Hq]. congruence. }
  intros q Hq. cbn in Hq. rewrite lookup_insert_eq in Hq. injection Hq as <-. cbn. rewrite Hcur. split; [eapply pool_inv_ext; [|exact Hp]; done|].
  eapply prices_fresh. destruct Hfr as [F1 F2 F3 F4 F5 F6 F7]. split; try done. rewrite F7. f_equal. apply zsum_epochs_same. intros a _. exact (eq_sym (H0 a)).
Qed.

Lemma steady_voting id c c' next : voting_ended c c' next -> steady_inv id c -> epoch (staking_inner c) < 2 ^ 32 -> steady_inv id c'.
Proof.
  intros [_ V0 V1 [V2 V3] _ V4 [V5 _]] Hs HE p' Hp'. rewrite V4 in Hp'. pose proof (cleared_pools (staking_inner c) (pools c) id) as Hcl. rewrite Hp' in Hcl.
  destruct Hcl as (p & Hp & Hpp). destruct (Hs p Hp) as [Hi Hpr]. assert (quiet_pool p p') as Hq.
  { destruct Hpp as [->| ->]; [apply quiet_pool_refl|]. apply quiet_set_commission. cbn. intros []. lia. }
  destruct (pool_inv_quiet _ _ _ _ _ _ Hq Hi Hpr HE) as [Hi' Hpr']. unfold staked_at, nxt_of in *. rewrite V0 in Hi'. rewrite V1, V2, V3, V5. split; [|done].
  by apply (select_inv _ _ None).
Qed.

(** *** Epoch changes *)

(** The pools of the old and of the new committee are advanced. *)
Lemma advanced_members c next rewards id : contract_inv n c -> next_committee (staking_inner c) = Some next ->
  rewards.*1 ≡ₚ (inner (committee (staking_inner c))).*1 ->
  id ∈ (advanced_nodes (staking_inner c) next rewards).*1 <-> in_committee id (committee (staking_inner c)) = true \/ nxt_of id (staking_inner c) = Some true.
Proof.
  intros [Hv _ _ _] Hnx Hr. pose proof (si_next _ _ Hv) as Hok. pose proof (inv_committee _ _ _ Hv) as Hc. cbn [fst view] in Hok. rewrite Hnx in Hok.
  destruct (epoch_state (staking_inner c)); [done|done|]. unfold advanced_nodes, nxt_of. rewrite Hnx, fmap_app, elem_of_app, Hr.
  rewrite <- list_fmap_compose, (list_fmap_ext _ (fun x => x)), list_fmap_id by done. cbn [fmap option_fmap option_map].
  destruct (diff_loop_ok (inner (committee (staking_inner c))).*1 (inner next).*1 [] []) as [_ Hd];
    [destruct Hc as [->|Hc]; [constructor|apply (co_sorted _ _ Hc)]|apply (co_sorted _ _ Hok)|].
  unfold committee_diff. rewrite Hd. unfold in_committee. rewrite contains_true.
  assert (Some (contains id (inner next)) = Some true <-> id ∈ (inner next).*1) as -> by (rewrite <- contains_true; split; [by intros [=]|congruence]).
  split; [|destruct (decide (id ∈ (inner (committee (staking_inner c))).*1)); naive_solver].
  intros [?|[?%elem_of_nil|[? _]]]; [by left|done|by right].
Qed.

Lemma advanced_reward c next rewards id r : (id, r) ∈ advanced_nodes (staking_inner c) next rewards -> Forall (fun x => 0 <= x < 2 ^ 64) rewards.*2 -> 0 <= r < 2 ^ 64.
Proof.
  unfold advanced_nodes. intros Hin Hrw. apply elem_of_app in Hin as [Hin|Hin]; [|apply list_elem_of_fmap in Hin as (? & [= _ ->] & _); lia].
  rewrite Forall_forall in Hrw. by apply (Hrw r), (list_elem_of_fmap_2 snd _ _ Hin).
Qed.

Lemma steady_epoch id c c' rewards next : epoch_changed c c' rewards next -> contract_inv n c -> steady_inv id c -> epoch (staking_inner c) + 2 < 2 ^ 32 ->
  rewards.*1 ≡ₚ (inner (committee (staking_inner c))).*1 -> Forall (fun x => 0 <= x < 2 ^ 64) rewards.*2 -> ~ sits_out id c -> steady_inv id c'.
Proof.
  intros [E1 _ [_ E2 E3] E4 [E5 E6] [E7 _]] Hi Hs HE Hr Hrw Hout p' Hp'. pose proof (advanced_members c next rewards id Hi E1 Hr) as Hmem.
  assert (forall a, staked_at c' id a = staked_at c id a) as HA by (intros a; unfold staked_at; by rewrite E7).
  assert (in_committee id (committee (staking_inner c')) = bool_decide (nxt_of id (staking_inner c) = Some true) /\ nxt_of id (staking_inner c') = None) as [Hc Hn].
  { unfold nxt_of. rewrite E1, E5, E6. cbn. split; [|done]. by destruct (in_committee id next). }
  rewrite E4, Hc, Hn. destruct (decide (id ∈ (advanced_nodes (staking_inner c) next rewards).*1)) as [Hin|Hin].
  - pose proof Hin as Hcur%Hmem. apply list_elem_of_fmap in Hin as ([? r] & -> & Hin). cbn in *. pose proof (advanced_reward _ _ _ _ _ Hin Hrw) as Hr0.
    destruct (E3 _ _ Hin) as (p & p2 & Hp & Hp2 & Hadv). rewrite Hp' in Hp2. injection Hp2 as <-. destruct (Hs p Hp) as [Hpi Hpr].
    destruct (advance_fits _ _ _ _ _ (pi_wf _ _ _ _ _ Hpi) (pi_commission _ _ _ _ _ Hpi) Hr0 Hadv) as [_ Hfit].
    destruct (advance_ok (epoch (staking_inner c)) _ _ ltac:(lia) _ _ _ Hpi Hcur Hfit) as (p1 & H1 & H2 & H3 & H4 & H5 & _). rewrite Hadv in H4. injection H4 as ->.
    split; [by eapply pool_inv_ext|]. eapply (prices_same_rates _ _ _ _ _ (processed p1 _)); [exact H5| |lia|by split|intros a _; by rewrite HA].
    eapply prices_advance; [lia|exact Hpi|done|done|exact H1|apply net_rewards_bounds; [apply (pi_commission _ _ _ _ _ Hpi)|lia]|done|done|exact H5].
  - rewrite E2 in Hp' by done. destruct (Hs p' Hp') as [Hpi Hpr]. assert (in_committee id (committee (staking_inner c)) = false) as Hcf.
    { destruct (in_committee id (committee (staking_inner c))) eqn:Hx; [|done]. destruct Hin. apply Hmem. by left. }
    assert (nxt_of id (staking_inner c) <> Some true) as Hnf by (intros Hx; destruct Hin; apply Hmem; by right).
    assert (fresh (epoch (staking_inner c)) (in_committee id (committee (staking_inner c))) (nxt_of id (staking_inner c)) (staked_at c id) p') as Hfr.
    { destruct (pi_phase _ _ _ _ _ Hpi) as [|[_ [F1 F2] _ _ _ _]]; [done|]. exfalso. apply Hout. split; [done|]. split; [rewrite in_next_eq; by apply bool_decide_eq_false|].
      exists p'. split; [done|]. intros Heq. rewrite Heq, lookup_singleton_ne in F2 by lia. by destruct F2. }
    rewrite bool_decide_false by done. pose proof (idle_inv _ _ _ _ _ Hpi Hcf Hnf Hfr) as Hidle. split; [by eapply pool_inv_ext|].
    destruct (pi_phase _ _ _ _ _ Hidle) as [Hf|[Hl _ _ _ _ _]]; [|pose proof (pi_latest _ _ _ _ _ Hpi); lia].
    eapply (prices_same_rates _ _ _ _ _ p'); [exact Hidle|by eapply prices_fresh|lia|by split|intros a _; by rewrite HA].
Qed.

Lemma register_fresh c k cap sender name address key valid rate storage write capacity c' : contract_inv n c -> pools c !! k = None -> 0 <= rate ->
  register_candidate c k cap sender name address key valid rate storage write capacity = Ok c' ->
  exists p, c' = with_pool k p c /\ pool_inv (epoch (staking_inner c)) false (nxt_of k (staking_inner c)) (fun _ => 0) p /\
    fresh (epoch (staking_inner c)) false (nxt_of k (staking_inner c)) (fun _ => 0) p.
Proof.
  intros Hi Hf Hr Hc. unfold register_candidate in Hc. rewrite (wctx_eq k) in Hc. apply bind_Ok in Hc as (p & Hp & Hc). apply bind_Ok in Hc as (p' & Hp' & [= <-]).
  exists p'. split; [done|]. pose proof (si_epoch _ _ (ci_staking _ _ Hi)) as HE. cbn in HE.
  assert (nxt_of k (staking_inner c) <> Some true) as Hn.
  { intros Hn. destruct (ci_members _ _ Hi k) as [q Hq]; [right; rewrite in_next_eq; by apply bool_decide_eq_true|congruence]. }
  destruct (pool_new_inv _ _ _ _ _ _ _ _ _ _ _ _ _ HE Hr Hn Hp) as [Hinv _]. unfold set_commission_receiver in Hp'. call_inv.
  match goal with |- pool_inv _ _ _ _ ?q /\ _ => assert (pool_inv (epoch (staking_inner c)) false (nxt_of k (staking_inner c)) (fun _ => 0) q) as Hinv' end.
  { eapply (pool_inv_same _ _ _ _ p); [by split| |exact Hinv]. by apply (qp_commission p), (pi_commission _ _ _ _ _ Hinv); apply quiet_authorized. }
  split; [done|]. destruct (pi_phase _ _ _ _ _ Hinv') as [|[Hl [Ha _] _ _ _ _]]; [done|]. exfalso.
  unfold pool_new in Hp. cbn [wctx_epoch committee_selected] in Hp. call_inv. cbn in Ha. destruct (nxt_of k (staking_inner c)); call_inv; cbn in *; lia.
Qed.

Lemma steady_step id c paid c' : contract_step c paid c' -> contract_inv n c -> steady_inv id c ->
  (epoch (staking_inner c') <> epoch (staking_inner c) -> ~ sits_out id c) -> steady_inv id c'.
Proof.
  intros [call Hal He] Hi Hs Hout. pose proof (execute_quiet call c c' paid Hal He) as Hq. destruct Hal as [HE Hal].
  destruct call; try (eapply steady_quiet; [done|exact Hq|lia]); clear Hq; cbn [staking_execute] in He; call_inv.
  - match goal with H : register_candidate _ _ _ _ _ _ _ _ _ _ _ _ = Ok _ |- _ => apply register_fresh in H as (p & -> & Hp & Hf); try done; [|apply Hal..] end.
    eapply steady_register; try done; [lia|apply Hal].
  - eapply steady_stake_call; try done; apply Hal.
  - by eapply steady_request_call.
  - by eapply steady_withdraw_call.
  - eapply steady_split; try done; [lia|apply Hal].
  - match goal with H : delete _ _ !! _ = Some _ |- _ => apply lookup_delete_Some in H as [Hne Ho] end. eapply steady_join; try done. lia.
  - match goal with H : contract_voting_end _ _ = Ok _ |- _ => apply voting_end_ok in H as (next & Hv) end. eapply steady_voting; [done|done|lia].
  - match goal with H : contract_initiate_epoch_change _ _ _ = Ok _ |- _ => apply epoch_change_ok in H as (next & Hec) end.
    eapply steady_epoch; try done; [apply Hal|apply Hal|]. apply Hout. rewrite (ec_epoch _ _ _ _ Hec). lia.
Qed.

End stakes.

(** *** Members have stake

    [backed] says that a node in the committee, or in the next one, has (or will have) WAL in its pool: the selection
    takes nodes with a positive balance at the time of the change. *)

Abbreviation predicted p e := (wal_balance (processed p e)).

(** A pool that was never advanced. *)
Definition untouched (p : StakingPool) : Prop := exchange_rates p = {[ activation_epoch p := Flat ]}.

Record backing (E : Z) (cur : bool) (nxt : option bool) (active : Prop) (p : StakingPool) : Prop := {
  bk_member : cur = true -> 0 < wal_balance p;
  bk_next : nxt = Some true -> 0 < predicted p (E + 1);
  bk_active : nxt = None -> active -> 0 < predicted p (E + 1);
  bk_idle : nxt = Some false -> cur = false -> untouched p -> active -> 0 < predicted p (E + 2);
  bk_withdrawn : untouched p -> nxt <> Some true -> Forall (fun k => k <= E) (pending_shares_withdraw p).*1;
}.

Definition is_active_node (id : ID) (s : StakingInnerV1) : Prop := id ∈ node_id <$> nodes (active_set s).

Definition backed (id : ID) (c : StakingContract) : Prop :=
  forall p, pools c !! id = Some p -> let s := staking_inner c in
    backing (epoch s) (in_committee id (committee s)) (nxt_of id s) (is_active_node id s) p.

Section backing.
Implicit Types p : StakingPool.

Lemma pool_inv_untouched E cur nxt A p : pool_inv E cur nxt A p -> untouched p -> fresh E cur nxt A p.
Proof.
  intros Hi Hu. destruct (pi_phase _ _ _ _ _ Hi) as [|[_ [F1 F2] _ _ _ _]]; [done|]. rewrite Hu, lookup_singleton_ne in F2 by lia. by destruct F2.
Qed.

Lemma balance_at_inv p e b : pool_wf p -> wal_balance_at_epoch p e = Ok b -> b = predicted p e.
Proof.
  intros Hp Hb. pose proof (rate_now_ok p Hp) as Hrn. pose proof (withdrawn_nonneg p e Hp) as Hk0. pose proof Hp as [H1 H2 H3 H4 H5 H6 H7].
  unfold wal_balance_at_epoch in Hb. rewrite rate_new_eq, pre_active_shares_eq in Hb by (done || lia). fold (rate_now p) in Hb. cbn [mbind outcome_bind] in Hb.
  rewrite !value_at_eq in Hb by done. call_inv. repeat match goal with H : (if ?x <? 2 ^ 64 then _ else _) = Ok _ |- _ => destruct (Z.ltb_spec x (2 ^ 64)); [injection H as <-|done] end.
  checked. match goal with H : convert_to_wal_amount _ _ = Ok _ |- _ => rewrite to_wal_eq in H by (done || unfold withdrawn in *; lia); destruct (_ <? 2 ^ 64) in H; [|done]; injection H as <- end.
  done.
Qed.

(** What the operations on the pool of a member of the next committee leave alone. *)
Record later (E : Z) p p' : Prop := {
  lt_stake : upto (E + 1) (pending_stake p') = upto (E + 1) (pending_stake p);
  lt_shares : upto (E + 1) (pending_shares_withdraw p') = upto (E + 1) (pending_shares_withdraw p);
  lt_pre : amount (E + 1) (pre_active_withdrawals p') = amount (E + 1) (pre_active_withdrawals p);
}.

Lemma pre_shares_soon E cur nxt A p : pool_inv E cur nxt A p -> pre_shares p (E + 1) (pre_active_withdrawals p) = to_share (rate_at p E) (amount (E + 1) (pre_active_withdrawals p)).
Proof.
  intros [P1 _ _ _ _ _ P7]. apply pre_shares_last; [apply (wf_pre _ P1)|]. destruct P7 as [F|F]; [|apply (ad_pre _ _ _ F)].
  apply Z.le_antisymm; [|apply sumif_nonneg, (wf_pre _ P1)]. rewrite <- (fr_pre _ _ _ _ _ F). apply sumif_mono; [apply (wf_pre _ P1)|]. intros x. lia.
Qed.

Lemma predicted_later E cur nxt A A' p p' : pool_inv E cur nxt A p -> pool_inv E cur nxt A' p' -> same_rates p p' -> later E p p' ->
  predicted p' (E + 1) = predicted p (E + 1).
Proof.
  intros Hi Hi' [S1 S2 S3 S4] [L1 L2 L3]. unfold processed, withdrawn, rate_now. pool_simpl. rewrite (pre_shares_soon _ _ _ _ _ Hi), (pre_shares_soon _ _ _ _ _ Hi').
  rewrite (rate_at_same p p') by done. by rewrite S1, S2, L1, L2, L3.
Qed.

Lemma predicted_same p p' e : same_stake p p' -> predicted p' e = predicted p e.
Proof.
  intros [(H1 & H2 & H3) (H4 & H5) (H6 & H7 & H8)]. unfold processed, withdrawn, rate_now. pool_simpl. rewrite H6, H7, H8, (pre_shares_same p p'); [by rewrite ?H1, ?H2, ?H3|].
  intros a _. by apply rate_at_same.
Qed.

Lemma backing_same E cur nxt (a a' : Prop) p p' : same_stake p p' -> (a' -> a) -> backing E cur nxt a p -> backing E cur nxt a' p'.
Proof.
  intros Hs Ha [B1 B2 B3 B4 B5]. pose proof (predicted_same p p' (E + 1) Hs) as Hp1. pose proof (predicted_same p p' (E + 2) Hs) as Hp2.
  destruct Hs as [(H1 & H2 & H3) (H4 & H5) (H6 & H7 & H8)]. unfold untouched in *. split; unfold untouched; rewrite ?Hp1, ?Hp2, ?H1, ?H2, ?H3, ?H4, ?H5, ?H7; intros; first [solve [apply B1; auto]|solve [apply B2; auto]|solve [apply B3; auto]|solve [apply B4; auto]|apply B5; auto].
Qed.

(** *** The operations on stake *)

Section operations.
Context (E : Z) (cur : bool) (nxt : option bool) (HE : E + 2 < 2 ^ 32).
Abbreviation wctx := (mk_wctx E (match nxt with Some _ => true | None => false end)).
Abbreviation next := (bool_decide (nxt = Some true)).

Lemma stake_later A p v p' sw : pool_inv E cur nxt A p -> nxt = Some true -> pool_stake p v wctx = Ok (p', sw) -> v < 2 ^ 64 -> later E p p'.
Proof.
  intros Hi -> Hs Hv. unfold pool_stake, mint in Hs. cbn [wctx_epoch committee_selected] in Hs. call_inv. checked.
  match goal with H : insert_or_add _ ?k ?v = Ok _ |- _ => pose proof (insert_or_add_ok _ k v (wf_stake _ (pi_wf _ _ _ _ _ Hi)) ltac:(lia)) as Hins; rewrite H in Hins end.
  destruct Hins as [_ Hsum]. split; pool_simpl; [|done|done]. rewrite Hsum, (proj2 (Z.leb_gt (E + 2) (E + 1))) by lia. lia.
Qed.

Lemma request_later A p sw p' sw' : pool_inv E cur nxt A p -> nxt = Some true -> pool_request_withdraw_stake p sw cur next wctx = Ok (p', sw') ->
  principal sw < 2 ^ 64 -> later E p p'.
Proof.
  intros Hi -> Hr Hv. pose proof Hi as [[_ W2 W3 _ W5 _ _] _ HE0 _ _ _ _]. unfold pool_request_withdraw_stake in Hr. cbn [wctx_epoch] in Hr.
  rewrite bool_decide_true in Hr by done. unfold sw_set_withdrawing in Hr. call_inv. checked. destruct (Z.eqb_spec (sw_activation_epoch sw) (E + 1)) as [He|Hne]; call_inv; checked.
  - match goal with H : insert_or_add _ ?k ?v = Ok _ |- _ => pose proof (insert_or_add_ok _ k v W3 ltac:(lia)) as Hins; rewrite H in Hins; destruct Hins as [_ Hsum] end.
    split; pool_simpl; [done|done|]. rewrite Hsum, (proj2 (Z.eqb_neq _ (E + 1))) by lia. lia.
  - destruct (rate_at_eq p (sw_activation_epoch sw) W5 ltac:(lia)) as [Hrate Hrok].
    match goal with H : exchange_rate_at_epoch _ _ = Ok _ |- _ => rewrite Hrate in H; injection H as <- end.
    match goal with H : convert_to_share_amount _ _ = Ok _ |- _ => rewrite to_share_eq in H by (done || lia); injection H as <- end.
    pose proof (to_share_bounds _ (principal sw) Hrok ltac:(lia)) as Hsh.
    match goal with H : insert_or_add _ ?k ?v = Ok _ |- _ => pose proof (insert_or_add_ok _ k v W2 ltac:(lia)) as Hins; rewrite H in Hins; destruct Hins as [_ Hsum] end.
    split; pool_simpl; [done| |done]. rewrite Hsum, (proj2 (Z.leb_gt _ (E + 1))) by lia. lia.
Qed.

Lemma withdraw_later A p sw p' wal : pool_inv E cur nxt A p -> nxt = Some true -> pool_withdraw_stake p sw cur next wctx = Ok (p', wal) -> later E p p'.
Proof.
  intros Hi -> Hr. pose proof Hi as [[W1 _ _ _ _ _ _] _ HE0 _ _ _ _]. unfold pool_withdraw_stake in Hr. rewrite (can_withdraw_early_eq E (Some true)) in Hr by done.
  unfold withdraw_rewards in Hr. rewrite bool_decide_true in Hr by done. cbn [negb] in Hr. rewrite andb_false_r, andb_false_l, andb_false_r, orb_false_r in Hr. call_inv. checked.
  destruct (is_staked sw && _) eqn:Hearly; call_inv; [|by split].
  match goal with H : pending_reduce _ _ _ = Ok _ |- _ => apply pending_reduce_inv in H as [_ Hsum]; [|done|lia] end.
  split; pool_simpl; [|done|done]. rewrite Hsum, (proj2 (Z.leb_gt _ (E + 1))) by lia. lia.
Qed.

(** From a pool that was never advanced, shares are only withdrawn at once. *)
Abbreviation at_once p := (Forall (fun k => k <= E) (pending_shares_withdraw p).*1).

Lemma stake_at_once p v p' sw : pool_stake p v wctx = Ok (p', sw) -> at_once p -> at_once p'.
Proof. unfold pool_stake. intros Hs. by call_inv. Qed.

Lemma request_at_once p sw p' sw' : 0 <= E -> cur = false -> nxt <> Some true -> pool_request_withdraw_stake p sw cur next wctx = Ok (p', sw') -> at_once p'.
Proof.
  intros H0 -> Hn Hr. unfold pool_request_withdraw_stake in Hr. rewrite can_withdraw_early_eq, (bool_decide_false _ Hn) in Hr by done. cbn [wctx_epoch] in Hr. call_inv. checked.
  destruct (Z.eqb_spec (sw_activation_epoch sw) (E + 1)) as [He|]; [|by call_inv]. exfalso.
  assert (is_staked sw = true) as Hst by done. rewrite Hst in *. by rewrite orb_true_r in *.
Qed.

Lemma withdraw_at_once p sw p' wal : pool_withdraw_stake p sw cur next wctx = Ok (p', wal) -> at_once p -> at_once p'.
Proof.
  unfold pool_withdraw_stake, withdraw_rewards. cbn [wctx_epoch]. intros Hw Ho. call_inv.
  match goal with H : (if ?b then _ else _) = Ok _ |- _ => destruct b; call_inv end; [done|].
  match goal with H : (if ?b then _ else _) = Ok _ |- _ => destruct b end; [destruct (E <? sw_activation_epoch sw)|]; call_inv; [done| |done].
  pool_simpl. eapply insert_or_add_keys; [eassumption|done|lia].
Qed.

End operations.

Lemma zsum_le {X} (f g : X -> Z) l : (forall x, x ∈ l -> f x <= g x) -> zsum (f <$> l) <= zsum (g <$> l).
Proof.
  induction l as [|x l IH]; intros Hl; [done|]. pose proof (Hl x ltac:(left)). pose proof (IH ltac:(intros y Hy; apply Hl; by right)). unfold zsum in *. cbn in *. lia.
Qed.

(** The balance of a pool that was never advanced does not fall while the node stays out of the committee. *)
Lemma idle_predicted E cur nxt A p : pool_inv E cur nxt A p -> untouched p -> nxt <> Some true -> Forall (fun k => k <= E) (pending_shares_withdraw p).*1 ->
  0 < predicted p (E + 1) -> 0 < predicted p (E + 2).
Proof.
  intros Hi Hu Hn Hk. pose proof (pool_inv_untouched _ _ _ _ _ Hi Hu) as [_ [F1 F2] F3 _ _ F6 _]. pose proof (pi_wf _ _ _ _ _ Hi) as Hwf. specialize (F6 Hn).
  assert (forall e, E <= e -> upto e (pending_shares_withdraw p) = total (pending_shares_withdraw p)) as Hw.
  { intros e He. unfold sumif. f_equal. apply list_fmap_ext. intros i [k v] Hx. cbn. rewrite Forall_fmap, Forall_lookup in Hk. specialize (Hk _ _ Hx). cbn in Hk.
    by rewrite (proj2 (Z.leb_le _ _)) by lia. }
  assert (forall e, pre_shares p e (pre_active_withdrawals p) = 0) as Hpre.
  { intros e. apply Z.le_antisymm; [|apply pre_shares_nonneg; apply Hwf]. rewrite <- F6. apply zsum_le. intros [k v] Hx. cbn.
    pose proof (pv_values _ (wf_pre _ Hwf)) as Hv. rewrite Forall_fmap, Forall_forall in Hv. specialize (Hv _ Hx). cbn in Hv. rewrite rate_at_flat by done. cbn. destruct (k <=? e); lia. }
  unfold processed, withdrawn, rate_now, rate_of. pool_simpl. rewrite F1, Z.eqb_refl, !Hw, !Hpre by lia. cbn [orb to_wal].
  pose proof (sumif_mono (fun x => x <=? E + 1) (fun x => x <=? E + 2) _ (wf_stake _ Hwf) ltac:(intros x; cbv beta; lia)). lia.
Qed.

Lemma advance_touched p r wctx p' : pool_advance_epoch p r wctx = Ok p' -> is_Some (exchange_rates p' !! wctx_epoch wctx) /\ activation_epoch p' = activation_epoch p.
Proof.
  unfold pool_advance_epoch, add_commission, process_pending_stake. intros Ha. call_inv. pool_simpl. split; [|done]. rewrite lookup_insert_eq. by eexists.
Qed.

#[global] Instance exchange_rate_dec : EqDecision PoolExchangeRate.
Proof. solve_decision. Defined.

#[global] Instance untouched_dec p : Decision (untouched p).
Proof. unfold untouched. apply _. Defined.

(** The balance that [wal_balance_at_epoch] predicts is there when the epoch changes. *)
Lemma advance_predicted E cur nxt A p rewards : E + 1 < 2 ^ 32 -> pool_inv E cur nxt A p -> cur = true \/ nxt = Some true -> fits p rewards (E + 1) ->
  exists b p', wal_balance_at_epoch p (E + 1) = Ok b /\ pool_advance_epoch p rewards (mk_wctx (E + 1) false) = Ok p' /\
    b <= wal_balance p' /\ pool_wf p'.
Proof.
  intros HE Hi Hin Hf. pose proof (pi_wf _ _ _ _ _ Hi) as Hwf. pose proof Hwf as [W1 _ _ _ _ W6 _]. pose proof (sumif_nonneg (fun x => x <=? E + 1) _ W1) as Hq.
  pose proof (net_rewards_bounds p rewards (pi_commission _ _ _ _ _ Hi) ltac:(apply Hf)) as Hn.
  destruct (advance_ok E cur nxt HE A p rewards Hi Hin Hf) as (p1 & [_ I2 I3 (I4 & I5) (I6 & I7 & I8) _] & Hwf1 & Hle & Hadv & Hi' & Hk & Hkn).
  assert (withdrawn p1 (E + 1) = withdrawn p (E + 1)) as Hwd.
  { unfold withdrawn. rewrite I7, I8. f_equal. apply pre_shares_same. intros e _. by apply rate_at_same. }
  assert (rate_now p1 = rate_of (wal_balance p + net_rewards p rewards) (num_shares p)) as Hr1 by (unfold rate_now; by rewrite I2, I3).
  rewrite Hwd, Hr1, I2, I6 in Hle. rewrite Hwd in Hk, Hkn. rewrite I3 in Hkn. pose proof (withdrawn_nonneg p (E + 1) Hwf) as Hk0.
  assert (to_wal (rate_now p) (withdrawn p (E + 1)) <= wal_balance p + upto (E + 1) (pending_stake p) /\
    to_wal (rate_now p1) (withdrawn p (E + 1)) <= to_wal (rate_now p) (withdrawn p (E + 1)) + net_rewards p rewards) as [Hle0 Hgrow].
  { rewrite Hr1. unfold rate_now. destruct Hkn as [Hz|Hks]; [rewrite Hz in *; rewrite Z.add_0_r in *; lia|].
    pose proof (shares_cover (wal_balance p) (num_shares p) _ 0 W6 (conj Hk0 Hks) ltac:(lia)) as [Hc _].
    pose proof (to_wal_rewarded _ _ _ (net_rewards p rewards) W6 (conj Hk0 Hks) ltac:(lia)). lia. }
  pose proof (ft_balance _ _ _ Hf). eexists _, _. split; [apply balance_at_eq; (done || lia)|]. split; [exact Hadv|].
  split; [|apply (pi_wf _ _ _ _ _ Hi')]. unfold processed. pool_simpl. rewrite Hwd, I2, I6. lia.
Qed.

End backing.

(** *** The calls of the contract *)

Section backed.
Context (n : Z) (Hn : 0 < n < 2 ^ 16) (id : ID).
Implicit Types c : StakingContract.

Lemma backed_same c c' : backed id c -> epoch (staking_inner c') = epoch (staking_inner c) -> committee (staking_inner c') = committee (staking_inner c) ->
  next_committee (staking_inner c') = next_committee (staking_inner c) ->
  (forall p', pools c' !! id = Some p' -> exists p, pools c !! id = Some p /\ same_stake p p') ->
  (is_active_node id (staking_inner c') -> is_active_node id (staking_inner c)) -> backed id c'.
Proof.
  intros Hb H1 H2 H3 H4 H5 p' Hp'. destruct (H4 p' Hp') as (p & Hp & Hs). cbv zeta. unfold nxt_of. rewrite H1, H2, H3. by apply (backing_same _ _ _ _ _ p p' Hs H5), Hb.
Qed.

Lemma same_stake_refl p : same_stake p p.
Proof. by split. Qed.

(** The balance in the active set is the one predicted for the next vote. *)
Lemma updated_active c k p c' : staking_inv n (view c) -> update_active_set c k p = Ok c' ->
  (forall i, i <> k -> is_active_node i (staking_inner c') -> is_active_node i (staking_inner c)) /\
  (pool_wf p -> is_active_node k (staking_inner c') ->
    0 < predicted p (epoch (staking_inner c) + match next_committee (staking_inner c) with Some _ => 2 | None => 1 end)).
Proof.
  intros Hs Hu. destruct (update_active_set_nodes _ _ _ _ Hu) as (bal & b & Hbal & Hb & Hins).
  pose proof (insert_or_update_ok _ k bal (si_active _ _ Hs) (si_threshold _ _ Hs) Hb) as Hup. cbn [fst view] in Hup. rewrite Hins in Hup. unfold is_active_node. split.
  - intros i Hi (e & -> & He)%list_elem_of_fmap. apply list_elem_of_fmap_2. by eapply (up_old _ _ _ _ _ Hup).
  - intros Hwf (e & Hk & He)%list_elem_of_fmap. pose proof (aw_pos _ (up_wf _ _ _ _ _ Hup)) as Hpos. rewrite Forall_forall in Hpos. specialize (Hpos e He).
    apply (up_self _ _ _ _ _ Hup e (eq_sym Hk)) in He as [_ ->]. cbn in Hpos. unfold next_balance in Hbal. apply bind_Ok in Hbal as (x & [-> _]%move_arith_Ok & Hbal).
    rewrite (balance_at_inv _ _ _ Hwf Hbal) in Hpos. pose proof (si_next _ _ Hs) as Hnx. cbn [fst view] in Hnx. by destruct (next_committee (staking_inner c)), (epoch_state (staking_inner c)).
Qed.

(** The pool of node [k] and the stakes in it change, and then the active set. *)
Lemma backed_stake c k p p' m c' : contract_inv n c -> steady_inv id c -> steady_inv id c' -> backed id c -> pools c !! k = Some p ->
  update_active_set (with_wals m (with_pool k p' c)) k p' = Ok c' -> same_rates p p' ->
  (let s := staking_inner c in forall A, id = k -> pool_inv (epoch s) (in_committee k (committee s)) (nxt_of k s) A p ->
    (nxt_of k s = Some true -> later (epoch s) p p') /\
    (in_committee k (committee s) = false -> nxt_of k s <> Some true -> Forall (fun x => x <= epoch s) (pending_shares_withdraw p).*1 -> Forall (fun x => x <= epoch s) (pending_shares_withdraw p').*1)) ->
  backed id c'.
Proof.
  intros Hi Hs Hs' Hb Hp Hu Hr Hop. pose proof (update_active_set_ok _ _ _ _ Hu) as [_ [set Hset] Hps _ _].
  destruct (updated_active (with_wals m (with_pool k p' c)) k p' c' (ci_staking _ _ Hi) Hu) as [Hother Hself]. destruct (decide (id = k)) as [->|Hne].
  - intros q Hq. assert (q = p') as ->. { rewrite Hps in Hq. cbn in Hq. rewrite lookup_insert_eq in Hq. congruence. }
    destruct (Hs p Hp) as [Hpi _], (Hs' p' Hq) as [Hpi' _], (Hb p Hp) as [B1 B2 B3 B4 B5]. specialize (Hop _ eq_refl Hpi) as [Hl Ho]. specialize (Hself (pi_wf _ _ _ _ _ Hpi')).
    unfold nxt_of in *. rewrite Hset in Hpi' |- *. cbn [staking_inner with_wals with_pool with_pools set_active_set epoch committee next_committee] in *. rewrite <- Hset.
    set (s := staking_inner c) in *. split.
    + rewrite (sr_wal _ _ Hr). exact B1.
    + intros Hx. rewrite (predicted_later _ _ _ _ _ p p' Hpi Hpi' Hr (Hl Hx)). by apply B2.
    + intros Hx Ha. specialize (Hself Ha). by destruct (next_committee s).
    + intros Hx _ _ Ha. specialize (Hself Ha). by destruct (next_committee s).
    + intros Hu' Hx. assert (untouched p) as Hup by (unfold untouched in *; destruct Hr as [_ _ R3 R4]; congruence).
      apply Ho; [|done|by apply B5]. by apply (pool_inv_untouched _ _ _ _ _ Hpi), fr_cur in Hup.
  - eapply (backed_same c); [done|rewrite ?Hset; done..| |by apply Hother]. intros q Hq. rewrite Hps in Hq. cbn in Hq. rewrite lookup_insert_ne in Hq by done.
    exists q. split; [done|apply same_stake_refl].
Qed.

Lemma with_pool_id c k p : pools c !! k = Some p -> with_wals (staked_wals c) (with_pool k p c) = c.
Proof. intros Hp. unfold with_wals, with_pool, with_pools. cbn. rewrite insert_id by done. by destruct c. Qed.

Lemma backed_voting c now c' : contract_inv n c -> steady_inv id c -> steady_inv id c' -> backed id c -> contract_voting_end c now = Ok c' -> backed id c'.
Proof.
  intros Hi Hs Hs' Hb Hv. pose proof (voting_end_active _ _ _ Hv) as Hact. pose proof (voting_end_inner _ _ _ Hv) as Hin.
  apply voting_end_ok in Hv as (next & [_ V0 V1 [V2 V3] _ V4 _]). intros p' Hp'. pose proof (cleared_pools (staking_inner c) (pools c) id) as Hcl. rewrite <- V4, Hp' in Hcl.
  destruct Hcl as (p & Hp & Hpp). assert (same_stake p p') as Hss by (destruct Hpp as [->| ->]; by split). destruct (Hs p Hp) as [Hpi _].
  assert (backing (epoch (staking_inner c)) (in_committee id (committee (staking_inner c))) (nxt_of id (staking_inner c)) (is_active_node id (staking_inner c')) p') as Hold.
  { apply (backing_same _ _ _ (is_active_node id (staking_inner c)) _ p); [done|unfold is_active_node; by rewrite Hact|by apply Hb]. }
  destruct (Hs' p' Hp') as [Hpi' _]. unfold nxt_of in *. rewrite V0 in Hold. rewrite V1, V2, V3 in *. destruct Hold as [B1 _ B3 _ B5]. cbn in *.
  split; [done| |done| |by intros Hu _; apply B5].
  - intros [= Hm%contains_true]. apply B3; [done|]. unfold is_active_node. rewrite Hact. by eapply voting_end_members; [exact Hn|exact (ci_staking _ _ Hi)|exact Hin|..].
  - intros Hx Hc Hu Ha. specialize (B3 eq_refl Ha). specialize (B5 Hu ltac:(done)). eapply idle_predicted; [exact Hpi'|done| |done|done]. by rewrite Hx.
Qed.

(** The pool of a member is advanced, and its new balance counts for the next vote. *)
Lemma advanced_backing c c' rewards next p p' r : epoch_changed c c' rewards next -> contract_inv n c -> staking_inv n (view c') -> steady_inv id c -> steady_inv id c' ->
  backed id c -> epoch (staking_inner c) + 2 < 2 ^ 32 -> rewards.*1 ≡ₚ (inner (committee (staking_inner c))).*1 -> 0 <= r < 2 ^ 64 ->
  id ∈ (advanced_nodes (staking_inner c) next rewards).*1 -> pools c !! id = Some p -> pools c' !! id = Some p' ->
  pool_advance_epoch p r (mk_wctx (epoch (staking_inner c) + 1) false) = Ok p' ->
  backing (epoch (staking_inner c')) (in_committee id next) None (is_active_node id (staking_inner c')) p'.
Proof.
  intros [E1 _ [End _ _] E4 _ _ (bal & Hbal & Hbp & Hub)] Hi Hi' Hs Hs' Hb HE Hrw Hr Hin Hp Hp' Hadv. destruct (Hs p Hp) as [Hpi _], (Hs' p' Hp') as [Hpi' _], (Hb p Hp) as [_ B2 _ _ _].
  pose proof (proj1 (advanced_members n c next rewards id Hi E1 Hrw) Hin) as Hmem. destruct (pool_inv_rates _ _ _ _ (epoch (staking_inner c) + 1) _ Hpi Hmem ltac:(lia)) as [_ Hact].
  destruct (advance_touched _ _ _ _ Hadv) as [Ht Ha]. cbn in Ht. split; [|done| |done|].
  - intros Hm. destruct (advance_fits _ _ _ _ _ (pi_wf _ _ _ _ _ Hpi) (pi_commission _ _ _ _ _ Hpi) Hr Hadv) as [_ Hfit].
    destruct (advance_predicted (epoch (staking_inner c)) _ _ _ p r ltac:(lia) Hpi Hmem Hfit) as (b & q & Hpred & Hq & Hle & _). rewrite Hadv in Hq. injection Hq as <-.
    rewrite (balance_at_inv _ _ _ (pi_wf _ _ _ _ _ Hpi) Hpred) in Hle. eapply Z.lt_le_trans; [apply B2|exact Hle]. unfold nxt_of. rewrite E1. cbn. by rewrite Hm.
  - intros _ (e & -> & He)%list_elem_of_fmap. pose proof (aw_pos _ (si_active _ _ Hi')) as Hpos. cbn [fst view] in Hpos. rewrite Forall_forall in Hpos. specialize (Hpos e He).
    pose proof (update_balances_nodes bal _ _ _ Hbal End (si_active _ _ (ci_staking _ _ Hi)) (si_threshold _ _ (ci_staking _ _ Hi)) Hub e He) as Hnode. rewrite decide_True in Hnode by done.
    destruct (Hbp _ Hin) as (q & Hq & Hpred). rewrite Hp' in Hq. injection Hq as <-. rewrite (balance_at_inv _ _ _ (pi_wf _ _ _ _ _ Hpi') Hpred) in Hnode. lia.
  - intros Hu _. unfold untouched in Hu. rewrite Hu, lookup_singleton_ne in Ht by lia. by destruct Ht.
Qed.

Lemma backed_epoch c c' rewards next : epoch_changed c c' rewards next -> contract_inv n c -> staking_inv n (view c') -> steady_inv id c -> steady_inv id c' -> backed id c ->
  epoch (staking_inner c) + 2 < 2 ^ 32 -> rewards.*1 ≡ₚ (inner (committee (staking_inner c))).*1 -> Forall (fun x => 0 <= x < 2 ^ 64) rewards.*2 -> ~ sits_out id c -> backed id c'.
Proof.
  intros Hec Hi Hi' Hs Hs' Hb HE Hr Hrw Hout p' Hp'. pose proof Hec as [E1 _ [End E2 E3] E4 [E5 E6] _ (bal & Hbal & _ & Hub)].
  pose proof (advanced_members n c next rewards id Hi E1 Hr) as Hmem. cbv zeta. unfold nxt_of. rewrite E5, E6. cbn [fmap option_fmap option_map].
  destruct (decide (id ∈ (advanced_nodes (staking_inner c) next rewards).*1)) as [Hin|Hin].
  - pose proof Hin as ([k r] & Hk & Hin')%list_elem_of_fmap. cbn in Hk. rewrite <- Hk in Hin'. destruct (E3 _ _ Hin') as (p & p2 & Hp & Hp2 & Hadv). cbn in *. rewrite Hp' in Hp2. injection Hp2 as <-.
    apply (advanced_backing c c' rewards next p p' r); try done. by eapply advanced_reward.
  - pose proof Hp' as Hp. rewrite E2 in Hp by done. assert (in_committee id (committee (staking_inner c)) = false) as Hcf.
    { destruct (in_committee id (committee (staking_inner c))) eqn:Hx; [|done]. destruct Hin. apply Hmem. by left. }
    assert (nxt_of id (staking_inner c) = Some false) as Hnf.
    { unfold nxt_of in *. rewrite E1 in *. cbn in *. destruct (in_committee id next); [|done]. destruct Hin. apply Hmem. by right. }
    assert (untouched p') as Hu.
    { destruct (decide (untouched p')) as [|Hu]; [done|]. destruct Hout. split; [done|]. split; [rewrite in_next_eq, Hnf; done|by exists p']. }
    destruct (Hb p' Hp) as [_ _ _ B4 B5]. assert (in_committee id next = false) as Hm by (unfold nxt_of in Hnf; rewrite E1 in Hnf; by injection Hnf). rewrite E4, Hm.
    split; [done|done| |done|].
    + intros _ (e & Hk & He)%list_elem_of_fmap. replace (epoch (staking_inner c) + 1 + 1) with (epoch (staking_inner c) + 2) by lia. apply B4; try done.
      pose proof (update_balances_nodes bal _ _ _ Hbal End (si_active _ _ (ci_staking _ _ Hi)) (si_threshold _ _ (ci_staking _ _ Hi)) Hub e He) as Hnode. rewrite <- Hk, decide_False in Hnode by done.
      unfold is_active_node. rewrite Hk. by apply list_elem_of_fmap_2.
    + intros _ _. eapply Forall_impl; [apply B5; [done|by rewrite Hnf]|]. cbn. lia.
Qed.

Lemma backed_register c k cap sender name address key valid rate storage write capacity c' : contract_inv n c -> vote_inv c -> backed id c -> pools c !! k = None ->
  register_candidate c k cap sender name address key valid rate storage write capacity = Ok c' -> backed id c'.
Proof.
  intros Hi Hv Hb Hf Hc. unfold register_candidate, pool_new, set_commission_receiver in Hc. call_inv. intros p Hp. cbn in Hp. destruct (decide (k = id)) as [->|Hne].
  - rewrite lookup_insert_eq in Hp. injection Hp as <-. cbn [staking_inner with_pool with_pools]. cbv zeta.
    assert (~ is_active_node id (staking_inner c)) as Ha.
    { intros (e & Hk & He)%list_elem_of_fmap. apply (vi_active _ Hv) in He as [q Hq]. rewrite <- Hk in Hq. congruence. }
    assert (in_committee id (committee (staking_inner c)) <> true /\ nxt_of id (staking_inner c) <> Some true) as [Hc1 Hc2].
    { split; intros Hx; destruct (ci_members _ _ Hi id) as [q Hq]; try congruence; [by left|right; rewrite in_next_eq; by apply bool_decide_eq_true]. }
    split; [done|done|done|done|constructor].
  - rewrite lookup_insert_ne in Hp by done. by apply Hb.
Qed.

(** The calls that leave the active set alone. *)
Lemma execute_active call c c' paid : staking_execute call c = Ok (c', paid) ->
  match call with
  | StakeWithPool _ _ _ | RequestWithdrawStake _ | WithdrawStake _ | TryJoinActiveSet _ | InitiateEpochChange _ _ => True
  | _ => active_set (staking_inner c') = active_set (staking_inner c)
  end.
Proof.
  intros He. destruct call; try done; cbn [staking_execute] in He; try (by apply on_pool_ok in He as (? & ? & _ & _ & -> & _));
    unfold register_candidate, add_commission_to_pools, vote_for_slashing, execute_slashing, burn_commission, extract_commission_to_burn in He; call_inv; try done.
  - by eapply voting_end_active.
  - match goal with H : contract_epoch_sync_done _ _ _ _ = Ok _ |- _ => apply sync_done_ok in H as (_ & [st Hst] & _) end. by rewrite Hst.
Qed.

Lemma backed_quiet c c' : backed id c -> quiet c c' -> active_set (staking_inner c') = active_set (staking_inner c) -> backed id c'.
Proof.
  intros Hb [Q1 Q2 Q3 _ Q5] Ha. apply (backed_same c); try done; [|unfold is_active_node; by rewrite Ha]. intros p' Hp'. specialize (Q5 id). rewrite Hp' in Q5.
  inversion Q5 as [p ? Hq Hp He|]; subst. exists p. split; [done|apply Hq].
Qed.

Lemma backed_stakes call c c' paid : contract_inv n c -> steady_inv id c -> steady_inv id c' -> backed id c -> epoch (staking_inner c) + 2 < 2 ^ 32 ->
  match call with StakeWithPool v _ _ => v < 2 ^ 64 | RequestWithdrawStake _ | WithdrawStake _ => True | _ => False end ->
  staking_execute call c = Ok (c', paid) -> backed id c'.
Proof.
  intros Hi Hs Hs' Hb HE Hcall He. pose proof (si_epoch _ _ (ci_staking _ _ Hi)) as HE0. cbn in HE0.
  destruct call; try done; cbn [staking_execute] in He; unfold stake_with_pool, request_withdraw_stake, withdraw_stake, get_pool in He; call_inv;
    try match goal with H : staked_wals c !! _ = Some ?w |- _ => pose proof (proj1 (ci_wals _ _ Hi _ _ H)); rewrite in_next_eq in * end;
    match goal with H : pools c !! ?k = Some _ |- _ => rewrite (wctx_eq k) in * end; (eapply (backed_stake c); [done|done|done|done|eassumption|eassumption| |]).
  - by eapply stake_rates.
  - intros st A _ Hp. split; [intros; by eapply stake_later|]. intros _ _. by eapply stake_at_once.
  - by eapply request_rates.
  - intros st A _ Hp. split; [intros; eapply request_later; try done; lia|]. intros ? ? _. by eapply request_at_once.
  - by eapply withdraw_rates.
  - intros st A _ Hp. split; [intros; by eapply withdraw_later|]. intros _ _. by eapply withdraw_at_once.
Qed.

Lemma backed_step c paid c' : contract_step c paid c' -> contract_inv n c -> vote_inv c -> steady_inv id c -> steady_inv id c' -> backed id c ->
  (epoch (staking_inner c') <> epoch (staking_inner c) -> ~ sits_out id c) -> backed id c'.
Proof.
  intros Hst Hi Hv Hs Hs' Hb Hout. pose proof (view_inv n Hn _ _ _ Hst Hi) as Hi'. destruct Hst as [call Hal He].
  pose proof (execute_quiet call c c' paid Hal He) as Hq. pose proof (execute_active call c c' paid He) as Ha. destruct Hal as [HE Hal].
  destruct call; try (by eapply backed_quiet); clear Hq; try solve [eapply backed_stakes; [done|done|done|done|done| |exact He]; (done || apply Hal)]; cbn [staking_execute] in He; call_inv.
  - eapply backed_register; [done|done|done|apply Hal|eassumption].
  - apply (backed_same c); try done. intros p Hp. by exists p.
  - apply (backed_same c); try done. intros p Hp. by exists p.
  - unfold get_pool in *. call_inv. match goal with H : update_active_set c ?k ?p = Ok _ |- _ => rewrite <- (with_pool_id c k p) in H by done; eapply (backed_stake c k p p); try done end.
  - by eapply backed_voting.
  - match goal with H : contract_initiate_epoch_change _ _ _ = Ok _ |- _ => apply epoch_change_ok in H as (next & Hec) end.
    eapply backed_epoch; try done; [apply Hal|apply Hal|]. apply Hout. rewrite (ec_epoch _ _ _ _ Hec). lia.
Qed.

End backed.

Record steady_ok (n : Z) (id : ID) (c : StakingContract) : Prop := {
  so_contract : contract_inv n c;
  so_vote : vote_inv c;
  so_steady : steady_inv id c;
  so_backed : backed id c;
}.

Lemma steady_reachable_inv n id c : 0 < n < 2 ^ 16 -> steady n id c -> steady_ok n id c.
Proof.
  intros Hn. induction 1 as [zero duration now c Hc|c paid c' _ [Hi Hv Hs Hb] Hst Hout].
  - destruct (runs_vote_inv n Hn _ _ _ _ _ Hc (rtc_refl _ _)) as [_ Hv]. pose proof (contract_new_inv n _ _ _ _ Hc) as Hi.
    unfold contract_new in Hc. apply bind_Ok in Hc as (s & _ & [= <-]). by split.
  - pose proof (steady_step n id c paid c' Hst Hi Hs Hout) as Hs'. split; [by eapply contract_step_inv| |done|by eapply backed_step].
    destruct Hst as [call Hal He]. by eapply execute_vote_inv; [apply Hi|..].
Qed.

(** *** What steadiness gives *)

(** The value of a stake at a rate. *)
Lemma calculate_rewards_eq p x a e : rates_ok p -> 0 <= x < 2 ^ 64 -> a < 2 ^ 32 -> e < 2 ^ 32 ->
  calculate_rewards p x a e = let v := to_wal (rate_at p e) (to_share (rate_at p a) x) in
    if v <? 2 ^ 64 then Ok (Z.max 0 (v - x)) else Panic.
Proof.
  intros Hr Hx Ha He. unfold calculate_rewards. destruct (rate_at_eq p a Hr Ha) as [-> Hra], (rate_at_eq p e Hr He) as [-> Hre]. cbn [mbind outcome_bind].
  rewrite to_share_eq by done. cbn [mbind outcome_bind]. pose proof (to_share_bounds _ x Hra ltac:(lia)) as Hs. rewrite to_wal_eq by (done || lia). cbv zeta.
  pose proof (to_wal_nonneg _ _ Hre (proj1 Hs)). destruct (Z.ltb_spec (to_wal (rate_at p e) (to_share (rate_at p a) x)) (2 ^ 64)); [|done]. cbn [mbind outcome_bind].
  destruct (Z.leb_spec x (to_wal (rate_at p e) (to_share (rate_at p a) x))); [rewrite move_arith_in_range by lia|]; f_equal; lia.
Qed.

(** The amounts of an epoch change fit in 64 bits. *)
Record amounts_fit (p : StakingPool) (rewards c : Z) : Prop := {
  af_rewards : 0 <= rewards < 2 ^ 64;
  af_commission : commission p + (rewards - net_rewards p rewards) < 2 ^ 64;
  af_pool : rewards_pool p + net_rewards p rewards < 2 ^ 64;
  af_balance : wal_balance p + net_rewards p rewards + upto c (pending_stake p) < 2 ^ 64;
}.

(** C22: the epoch change is never held up by a steady node.  In a run in which the node was never out of the
    committee for a whole epoch after it was in one, its pool advances to the next epoch, with any rewards if it is in the
    current committee and with none if it is only in the next one, whenever the amounts fit in 64 bits.  It ends up with at
    most as many shares as WAL, has at least the balance that the selection of the committee counted on, and the pool of
    a member of the next committee has WAL. *)
Theorem steady_pool_advances n id c p rewards : 0 < n < 2 ^ 16 -> steady n id c -> pools c !! id = Some p ->
  let s := staking_inner c in
  in_committee id (committee s) = true \/ in_next id s = true /\ rewards = 0 -> epoch s + 1 < 2 ^ 32 -> amounts_fit p rewards (epoch s + 1) ->
  exists predicted p', wal_balance_at_epoch p (epoch s + 1) = Ok predicted /\
    pool_advance_epoch p rewards (mk_wctx (epoch s + 1) false) = Ok p' /\
    predicted <= wal_balance p' /\ 0 <= num_shares p' <= wal_balance p' /\ (in_next id s = true -> 0 < wal_balance p').
Proof.
  intros Hn Hs Hp s Hin HE [H1 H2 H3 H4]. apply (steady_reachable_inv n id c Hn) in Hs as [_ _ Hs Hb]. destruct (Hs p Hp) as [Hi _], (Hb p Hp) as [B1 B2 _ _ _].
  rewrite in_next_eq, bool_decide_eq_true in *. fold s in Hi, B1, B2.
  assert (fits p rewards (epoch s + 1)) as Hf by (split; try done; destruct Hin as [Hin|[_ ->]]; auto).
  destruct (advance_predicted _ _ _ _ p rewards HE Hi ltac:(tauto) Hf) as (b & p' & Hpred & Hadv & Hle & Hwf). exists b, p'. split_and!; try done; try apply Hwf.
  intros Hnx%bool_decide_eq_true. rewrite (balance_at_inv _ _ _ (pi_wf _ _ _ _ _ Hi) Hpred) in Hle. specialize (B2 Hnx). lia.
Qed.

(** C23: stake does not lose value.  What a stake in the pool of a steady node would be paid in rewards if it were
    withdrawn in an epoch is at most what it would be paid in a later one. *)
Theorem stake_value_never_falls n c oid sw p e e' r' : 0 < n < 2 ^ 16 -> steady n (sw_node_id sw) c ->
  staked_wals c !! oid = Some sw -> is_staked sw = true -> pools c !! sw_node_id sw = Some p ->
  sw_activation_epoch sw <= e <= e' -> e' <= epoch (staking_inner c) < 2 ^ 32 ->
  calculate_rewards p (principal sw) (sw_activation_epoch sw) e' = Ok r' ->
  exists r, calculate_rewards p (principal sw) (sw_activation_epoch sw) e = Ok r /\ r <= r'.
Proof.
  intros Hn Hs Hsw Hst Hp He HE Hr'. apply (steady_reachable_inv n _ c Hn) in Hs as [Hi _ Hs _]. destruct (Hs p Hp) as [Hpi Hpr].
  destruct (ci_wals _ _ Hi _ _ Hsw) as (Hx & Ha & _). pose proof (wf_rates _ (pi_wf _ _ _ _ _ Hpi)) as Hro.
  rewrite calculate_rewards_eq in * by (done || lia). cbv zeta in *. set (a := sw_activation_epoch sw) in *. set (x := principal sw) in *.
  destruct (rate_at_eq p a Hro ltac:(lia)) as [_ Hra], (rate_at_eq p e Hro ltac:(lia)) as [_ Hre], (rate_at_eq p e' Hro ltac:(lia)) as [_ Hre'].
  pose proof (to_share_bounds _ x Hra ltac:(lia)) as Hsh.
  assert (to_wal (rate_at p e) (to_share (rate_at p a) x) <= to_wal (rate_at p e') (to_share (rate_at p a) x)) as Hle.
  { destruct (decide (to_share (rate_at p a) x = 0)) as [->|Hnz]; [destruct (rate_at p e), (rate_at p e'); cbn; rewrite ?Zdiv_0_l; lia|].
    apply to_wal_price; try done; [lia|]. pose proof (stake_of_bound n c oid sw (sw_node_id sw) a Hi Hsw) as [_ Hc].
    rewrite stake_of_staked, Z.eqb_refl in Hc by done.
    pose proof (to_share_mono (rate_at p a) _ _ Hra Hc) as Hm. fold a x in Hm. apply (proj1 (Hpr a ltac:(lia) ltac:(lia))); lia. }
  destruct (Z.ltb_spec (to_wal (rate_at p e') (to_share (rate_at p a) x)) (2 ^ 64)); [|done]. injection Hr' as <-.
  rewrite (proj2 (Z.ltb_lt _ _)) by lia. eexists. split; [done|]. lia.
Qed.

(** ** Nodes that hold up the epoch change *)

(** More shares are withdrawn with the next epoch than the pool has, and no stake is added. *)
Record overdrawn (E : Z) (p : StakingPool) : Prop := {
  od_wf : pool_wf p;
  od_commission : commission_ok p;
  od_shares : 0 < num_shares p < upto (E + 1) (pending_shares_withdraw p);
  od_pending : upto (E + 1) (pending_stake p) = 0;
}.

(** A member of the committee that is not in the next one has such a pool. *)
Record blocked (id : ID) (c : StakingContract) : Prop := {
  bl_member : in_committee id (committee (staking_inner c)) = true;
  bl_next : nxt_of id (staking_inner c) = Some false;
  bl_pool : exists p, pools c !! id = Some p /\ overdrawn (epoch (staking_inner c)) p;
}.

Lemma process_inv p c sel p' : pool_wf p -> process_pending_stake p (mk_wctx c sel) = Ok p' ->
  to_wal (rate_now p) (withdrawn p c) <= wal_balance p + upto c (pending_stake p).
Proof.
  intros Hp Hpr. pose proof (rate_now_ok p Hp) as Hrn. pose proof (withdrawn_nonneg p c Hp) as Hk0. pose proof Hp as [H1 H2 H3 H4 H5 H6 H7].
  unfold process_pending_stake in Hpr. cbn [wctx_epoch] in Hpr. rewrite rate_new_eq in Hpr by lia. fold (rate_now p) in Hpr. call_inv. pool_simpl_all.
  match goal with H : flush (pending_stake p) c = Ok _ |- _ => rewrite flush_eq in H by done; destruct (Z.ltb_spec (upto c (pending_stake p)) (2 ^ 64)); [|done]; injection H as <- <- end.
  match goal with H : flush (pending_shares_withdraw p) c = Ok _ |- _ => rewrite flush_eq in H by done; destruct (_ <? 2 ^ 64) in H; [|done]; injection H as <- <- end.
  match goal with H : pre_active_shares ?q c = Ok _ |- _ => rename H into Hpre; assert (pool_wf q) as Hwf; [|rewrite (pre_active_shares_eq q c Hwf) in Hpre] end.
  { pose proof (sumif_nonneg (fun x => x <=? c) _ H1). split; cbn; try done; [by apply pending_after| |lia|lia]. destruct H5 as [R1 R2 R3].
    split; cbn; [done| |by apply map_Forall_insert_2].
    destruct (decide (activation_epoch p = c)) as [->|]; [by rewrite lookup_insert_eq|by rewrite lookup_insert_ne]. }
  rewrite (pre_shares_same p) in Hpre by (intros e He; by eapply rate_at_insert). pool_simpl_all. destruct (_ <? 2 ^ 64) in Hpre; [|done]. injection Hpre as <-. checked.
  match goal with H : convert_to_wal_amount _ _ = Ok _ |- _ => rewrite to_wal_eq in H by (done || unfold withdrawn in *; lia); destruct (_ <? 2 ^ 64) in H; [|done]; injection H as <- end.
  unfold withdrawn. lia.
Qed.

Lemma overdrawn_stuck E p rewards sel p' : overdrawn E p -> 0 <= rewards < 2 ^ 64 -> pool_advance_epoch p rewards (mk_wctx (E + 1) sel) <> Ok p'.
Proof.
  intros [Hwf Hco Hs Hq] Hr Ha. destruct (advance_fits _ _ _ _ _ Hwf Hco Hr Ha) as [Hl Hf]. pose proof (ft_balance _ _ _ Hf) as Hb.
  destruct (advance_rewards p rewards (E + 1) sel Hco Hwf Hl Hf) as (p1 & Hadv & [_ I2 I3 (I4 & I5) (I6 & I7 & I8) _] & _). rewrite Hadv in Ha.
  pose proof (net_rewards_bounds p rewards Hco ltac:(lia)) as Hn. pose proof Hwf as [W1 W2 W3 W4 [R1 R2 R3] W6 W7].
  assert (pool_wf p1) as Hwf1 by (split; rewrite ?I2, ?I3, ?I6, ?I7, ?I8; try done; try lia; split; by rewrite ?I4, ?I5).
  apply process_inv in Ha; [|done]. rewrite I2, I6, Hq in Ha. pose proof (pre_shares_nonneg p1 (E + 1) _ (wf_rates _ Hwf1) (wf_pre _ Hwf1) (wf_pre_keys _ Hwf1)) as H0.
  assert (num_shares p + 1 <= withdrawn p1 (E + 1)) as Hk by (unfold withdrawn; rewrite I7; lia).
  unfold rate_now, rate_of in Ha. rewrite I2, I3, !(proj2 (Z.eqb_neq _ _)) in Ha by lia. cbn in Ha.
  assert (wal_balance p + net_rewards p rewards + 1 <= withdrawn p1 (E + 1) * (wal_balance p + net_rewards p rewards) / num_shares p); [|lia].
  apply Z.div_le_lower_bound; nia.
Qed.

(** *** Nothing that can be done with the pool helps *)

Section overdrawn.
Context (E : Z) (HE : 0 <= E) (HE2 : E + 2 < 2 ^ 32).
Implicit Types p : StakingPool.
Abbreviation wctx := (mk_wctx E true).

Lemma overdrawn_quiet p p' : quiet_pool p p' -> overdrawn E p -> overdrawn E p'.
Proof.
  intros [_ Hs Hc] [O1 O2 O3 O4]. pose proof (pool_wf_same _ _ Hs O1). destruct Hs as [(H1 & H2 & H3) _ (H4 & H5 & H6)]. split; try done; [by apply Hc|by rewrite H2, H5|by rewrite H4].
Qed.

Lemma overdrawn_stake p v p' sw : overdrawn E p -> pool_stake p v wctx = Ok (p', sw) -> v < 2 ^ 64 -> overdrawn E p'.
Proof.
  intros [[W1 W2 W3 W4 W5 W6 W7] O2 O3 O4] Hs Hv. unfold pool_stake, mint in Hs. cbn [wctx_epoch committee_selected] in Hs. call_inv. checked.
  match goal with H : insert_or_add _ _ _ = Ok _ |- _ => pose proof (insert_or_add_ok _ (E + 2) v W1 ltac:(lia)) as Hins; rewrite H in Hins; destruct Hins as [Hok Hsum] end.
  split; pool_simpl; try done; [split; pool_simpl; try done; by destruct W5|by destruct O2|]. rewrite Hsum, O4, (proj2 (Z.leb_gt (E + 2) (E + 1))) by lia. done.
Qed.

(** The stake of the next epoch is not there yet, and can be withdrawn early. *)
Lemma overdrawn_request p sw p' sw' : overdrawn E p -> 0 <= principal sw < 2 ^ 64 -> pool_request_withdraw_stake p sw true false wctx = Ok (p', sw') -> overdrawn E p'.
Proof.
  intros [[W1 W2 W3 W4 W5 W6 W7] O2 O3 O4] Hv Hr. unfold pool_request_withdraw_stake in Hr. cbn [wctx_epoch] in Hr.
  rewrite (can_withdraw_early_eq E (Some true)) in Hr by done. unfold sw_set_withdrawing in Hr. call_inv. checked.
  assert (is_staked sw = true) as Hst by done. rewrite Hst in *.
  destruct (Z.eqb_spec (sw_activation_epoch sw) (E + 1)) as [He|Hne]; [rewrite orb_true_r in *; done|]. call_inv. checked.
  destruct (rate_at_eq p (sw_activation_epoch sw) W5 ltac:(lia)) as [Hrate Hrok].
  match goal with H : exchange_rate_at_epoch _ _ = Ok _ |- _ => rewrite Hrate in H; injection H as <- end.
  match goal with H : convert_to_share_amount _ _ = Ok _ |- _ => rewrite to_share_eq in H by (done || lia); injection H as <- end.
  pose proof (to_share_bounds _ (principal sw) Hrok ltac:(lia)) as Hsh.
  match goal with H : insert_or_add _ ?k ?v = Ok _ |- _ => pose proof (insert_or_add_ok _ k v W2 ltac:(lia)) as Hins; rewrite H in Hins; destruct Hins as [Hok Hsum] end.
  split; pool_simpl; try done; [split; pool_simpl; try done; by destruct W5|by destruct O2|]. rewrite Hsum. destruct (_ <=? E + 1); lia.
Qed.

Lemma overdrawn_withdraw p sw p' wal : overdrawn E p -> 0 < principal sw < 2 ^ 64 -> pool_withdraw_stake p sw true false wctx = Ok (p', wal) -> overdrawn E p'.
Proof.
  intros [[W1 W2 W3 W4 W5 W6 W7] O2 O3 O4] Hv Hr. unfold pool_withdraw_stake in Hr. rewrite (can_withdraw_early_eq E (Some true)) in Hr by done. call_inv. checked.
  destruct (is_staked sw && _) eqn:Hearly; call_inv.
  - match goal with H : pending_reduce _ _ _ = Ok _ |- _ => apply pending_reduce_inv in H as [Hok Hsum]; [|done|lia] end.
    split; pool_simpl; try done; [split; pool_simpl; try done; by destruct W5|by destruct O2|].
    pose proof (sumif_nonneg (fun x => x <=? E + 1) _ Hok) as Hsn. rewrite Hsum, O4 in *. destruct (_ <=? E + 1); lia.
  - unfold withdraw_rewards in *. cbn [negb andb] in *. call_inv. checked. match goal with H : calculate_rewards _ _ _ _ = Ok _ |- _ => apply calculate_rewards_nonneg in H end.
    split; pool_simpl; try done; [split; pool_simpl; try done; by destruct W5|]. destruct O2. split; pool_simpl; try done. lia.
Qed.

End overdrawn.

Section blocked.
Context (n : Z) (id : ID).
Implicit Types c : StakingContract.

Lemma blocked_same c c' : blocked id c -> epoch (staking_inner c') = epoch (staking_inner c) -> committee (staking_inner c') = committee (staking_inner c) ->
  next_committee (staking_inner c') = next_committee (staking_inner c) ->
  (forall p, pools c !! id = Some p -> overdrawn (epoch (staking_inner c)) p -> exists p', pools c' !! id = Some p' /\ overdrawn (epoch (staking_inner c)) p') ->
  epoch (staking_inner c') = epoch (staking_inner c) /\ blocked id c'.
Proof.
  intros [B1 B2 (p & Hp & Ho)] H1 H2 H3 Hpool. split; [done|]. unfold nxt_of in *. split; [by rewrite H2|unfold nxt_of; by rewrite H3|rewrite H1; by eapply Hpool].
Qed.

(** A stake of the node [k] and its pool are changed. *)
Lemma blocked_pool c k p p' wals c' : blocked id c -> pools c !! k = Some p -> active_changed (with_wals wals (with_pool k p' c)) c' ->
  (id = k -> overdrawn (epoch (staking_inner c)) p -> overdrawn (epoch (staking_inner c)) p') ->
  epoch (staking_inner c') = epoch (staking_inner c) /\ blocked id c'.
Proof.
  intros Hb Hp [_ [set Hset] Hps _ _] Ho. apply (blocked_same c); rewrite ?Hset; try done. intros q Hq Hoq. rewrite Hps. cbn.
  destruct (decide (k = id)) as [->|]; [|rewrite lookup_insert_ne by done; by eexists]. rewrite lookup_insert_eq. eexists. split; [done|].
  rewrite Hq in Hp. injection Hp as ->. by apply Ho.
Qed.

Lemma blocked_context c k : blocked id c -> id = k -> in_committee k (committee (staking_inner c)) = true /\ in_next k (staking_inner c) = false /\
  new_walrus_context (staking_inner c) = mk_wctx (epoch (staking_inner c)) true.
Proof. intros [B1 B2 _] <-. rewrite (wctx_eq id), in_next_eq, B2. done. Qed.

Lemma blocked_quiet c c' : blocked id c -> quiet c c' -> epoch (staking_inner c') = epoch (staking_inner c) /\ blocked id c'.
Proof.
  intros Hb [Q1 Q2 Q3 _ Q5]. apply (blocked_same c); try done. intros p Hp Ho. specialize (Q5 id). rewrite Hp in Q5.
  destruct (pools c' !! id) as [p'|]; inversion Q5; subst. eexists. split; [done|]. by eapply overdrawn_quiet.
Qed.

Lemma blocked_no_epoch_change c now rewards c' : contract_inv n c -> blocked id c -> rewards.*1 ≡ₚ (inner (committee (staking_inner c))).*1 ->
  Forall (fun x => 0 <= x < 2 ^ 64) rewards.*2 -> contract_initiate_epoch_change c now rewards <> Ok c'.
Proof.
  intros Hi [B1 B2 (p & Hp & Ho)] Hr Hrw (next & [E1 _ [_ _ E3] _ _ _])%epoch_change_ok.
  assert (id ∈ (advanced_nodes (staking_inner c) next rewards).*1) as Hin by (eapply advanced_members; [done|done|done|by left]).
  apply list_elem_of_fmap in Hin as ([? r] & -> & Hin). destruct (E3 _ _ Hin) as (q & q' & Hq & _ & Hadv). cbn in *. rewrite Hp in Hq. injection Hq as <-.
  eapply overdrawn_stuck; [exact Ho|by eapply advanced_reward|exact Hadv].
Qed.

Lemma blocked_stakes c call c' paid : contract_inv n c -> blocked id c -> epoch (staking_inner c) + 2 < 2 ^ 32 ->
  match call with StakeWithPool v _ _ => v < 2 ^ 64 | RequestWithdrawStake _ | WithdrawStake _ => True | _ => False end ->
  staking_execute call c = Ok (c', paid) -> epoch (staking_inner c') = epoch (staking_inner c) /\ blocked id c'.
Proof.
  intros Hi Hb HE Hcall He. pose proof (si_epoch _ _ (ci_staking _ _ Hi)) as HE0. cbn in HE0.
  destruct call; try done; cbn [staking_execute] in He; unfold stake_with_pool, request_withdraw_stake, withdraw_stake, get_pool in He; call_inv;
    match goal with H : update_active_set _ _ _ = Ok _ |- _ => apply update_active_set_ok in H as Hac end;
    (eapply blocked_pool; [done|eassumption|exact Hac|]); intros Heq Ho; destruct (blocked_context c _ Hb Heq) as (Hc & Hn & Hw); rewrite ?Hc, ?Hn, ?Hw in *;
    try match goal with H : staked_wals c !! _ = Some _ |- _ => pose proof (proj1 (ci_wals _ _ Hi _ _ H)) end.
  - by eapply overdrawn_stake.
  - eapply overdrawn_request; [done|done|exact Ho| |eassumption]. lia.
  - by eapply overdrawn_withdraw.
Qed.

Lemma blocked_step c paid c' : contract_inv n c -> blocked id c -> contract_step c paid c' ->
  epoch (staking_inner c') = epoch (staking_inner c) /\ blocked id c'.
Proof.
  intros Hi Hb [call Hal He]. pose proof (execute_quiet call c c' paid Hal He) as Hq. destruct Hal as [HE Hal].
  destruct call; try (by apply blocked_quiet); clear Hq; try (by eapply blocked_stakes; [done|done|done| |exact He]; (done || apply Hal)); cbn [staking_execute] in He; call_inv.
  - match goal with H : register_candidate _ _ _ _ _ _ _ _ _ _ _ _ = Ok _ |- _ => apply (register_fresh n) in H as (p & -> & _); try done; [|apply Hal..] end.
    apply (blocked_same c); try done. intros q Hq Ho. exists q. split; [|done]. cbn. rewrite lookup_insert_ne; [done|]. intros ->. destruct Hal as [Hx _]. congruence.
  - apply (blocked_same c); try done. by eauto.
  - apply (blocked_same c); try done. by eauto.
  - match goal with H : contract_voting_end _ _ = Ok _ |- _ => apply voting_end_ok in H as (next & [_ V0 _ _ _ _ _]) end.
    destruct Hb as [_ B2 _]. unfold nxt_of in B2. by rewrite V0 in B2.
  - exfalso. eapply blocked_no_epoch_change; [done|done|apply Hal|apply Hal|eassumption].
Qed.

End blocked.

Lemma contract_reachable_inv n c sum : 0 < n < 2 ^ 16 -> contract_reachable n c sum -> contract_inv n c.
Proof. intros Hn. induction 1; [by eapply contract_new_inv|by eapply contract_step_inv]. Qed.

(** An overdrawn pool stops the contract: if more shares are withdrawn from the pool of a leaving member of the
    committee than it has, and it gets no new stake in the next epoch, then the epoch never changes again, whatever calls
    are made. *)
Lemma blocked_forever n c sum id c' : 0 < n < 2 ^ 16 -> contract_reachable n c sum -> blocked id c -> contract_runs c c' ->
  epoch (staking_inner c') = epoch (staking_inner c).
Proof.
  intros Hn Hr Hb Hrun. apply contract_reachable_inv in Hr; [|done]. induction Hrun as [c|c c1 c2 [paid Hs] _ IH]; [done|].
  destruct (blocked_step n id c paid c1 Hr Hb Hs) as [He Hb1]. rewrite IH; [done|by eapply contract_step_inv|done].
Qed.
