(* ===== verification/StakingExamples.v ===== *)
(** * Runs of the staking contract *)

From stdpp Require Import sorting functions.
From S2P Require Import Prelude Redstuff MoveStd ApportionmentQueue Apportionment Committee Staking StakingProps StakingEpochs.
From S2P Require Import StakingPool StakingContract StakingPoolProps StakingContractProps StakingSteady.

Definition unwrap {A} (d : A) (m : outcome AbortCode A) : A := match m with Ok a => a | _ => d end.

(** ** The queue, the apportionment and the transition *)

Definition queue_example : ApportionmentQueue (T := nat) :=
  mk_queue [mk_entry 5 1 0%nat; mk_entry 3 2 1%nat; mk_entry 5 0 2%nat].

Lemma queue_pops_maximum_witness : heap (entries queue_example) /\
  Forall (fun x => higher_priority_than x (mk_entry 5 1 0%nat) = false) (entries queue_example).
Proof.
  assert (heap (entries queue_example)) as Hh.
  { intros i Hi x y Hx Hy. destruct i as [|[|[|i]]]; [lia| | |done]; cbn in Hx, Hy; injection Hx as <-; injection Hy as <-; vm_compute; reflexivity. }
  destruct (queue_pops_maximum queue_example Hh) as [_ Hpop].
  assert (pop_max queue_example = Ok (mk_entry 5 1 0%nat, mk_queue [mk_entry 5 0 2%nat; mk_entry 3 2 1%nat])) as E by (vm_compute; reflexivity).
  rewrite E in Hpop. exact (conj Hh (proj2 (proj2 Hpop))).
Defined.

Lemma dhondt_correct_witness : dhondt [3; 2; 1] 7 [53; 24; 23] = Ok [4; 2; 1] /\
  dhondt_allocation [3; 2; 1] [53; 24; 23] 7 (shards_limit 3 7) [4; 2; 1].
Proof.
  assert (Forall (fun s => 0 <= s < 2 ^ 64) [53; 24; 23]) as Hs by (repeat constructor; lia).
  assert (NoDup [3; 2; 1]) as Hnd by (apply (bool_decide_unpack _); vm_compute; exact I).
  pose proof (dhondt_correct [3; 2; 1] 7 [53; 24; 23] Hs eq_refl Hnd ltac:(lia)) as H.
  assert (dhondt [3; 2; 1] 7 [53; 24; 23] = Ok [4; 2; 1]) as E by (vm_compute; reflexivity).
  cbn zeta in H. rewrite E in H. destruct H as (shards & [= <-] & Ha & _). exact (conj E Ha).
Defined.

(** Twenty nodes and nine shards. *)
Example few_shards_abort : dhondt (node_priorities 20) 9 (replicate 20 1) = Err EPopFromEmptyHeap.
Proof. vm_compute. reflexivity. Qed.

Definition committee_example : Committee := mk_committee [(3, [0; 1; 2]); (5, [3; 4]); (8, [5])].

Lemma transition_correct_witness : exists cmt',
  transition committee_example [(8, 3); (3, 1); (4, 2)] = Ok cmt' /\ inner cmt' = [(3, [0]); (4, [4; 3]); (8, [5; 1; 2])] /\
  all_shards cmt' ≡ₚ all_shards committee_example.
Proof.
  assert (NoDup (inner committee_example).*1) as H1 by (apply (bool_decide_unpack _); vm_compute; exact I).
  assert (NoDup ([(8, 3); (3, 1); (4, 2)] : VecMap Z).*1) as H2 by (apply (bool_decide_unpack _); vm_compute; exact I).
  assert (Forall (Z.le 0) ([(8, 3); (3, 1); (4, 2)] : VecMap Z).*2) as H3 by (apply (bool_decide_unpack _); vm_compute; exact I).
  pose proof (transition_correct committee_example [(8, 3); (3, 1); (4, 2)] H1 eq_refl H2 H3) as H.
  destruct H as (cmt' & E & _ & Hall & _). exists cmt'. split; [exact E|]. split; [|exact Hall].
  assert (transition committee_example [(8, 3); (3, 1); (4, 2)] = Ok (mk_committee [(3, [0]); (4, [4; 3]); (8, [5; 1; 2])])) as E'
    by (vm_compute; reflexivity).
  rewrite E in E'. injection E' as ->. reflexivity.
Defined.

(** ** A full active set *)

Definition full_set : ActiveSet := mk_active_set 2 0 [mk_active 1 10; mk_active 2 20] 30.

Lemma active_set_keeps_largest_witness : exists set', insert_or_update full_set 3 15 = Ok (set', true) /\
  nodes set' = [mk_active 3 15; mk_active 2 20] /\ updated full_set set' 3 15 true.
Proof.
  assert (active_wf full_set) as Hwf.
  { split; [apply (bool_decide_unpack _); vm_compute; exact I|cbn; lia|cbn; lia|reflexivity|cbn; lia|
      apply (bool_decide_unpack _); vm_compute; exact I]. }
  pose proof (active_set_keeps_largest full_set 3 15 Hwf ltac:(cbn; lia) ltac:(lia)) as H.
  assert (insert_or_update full_set 3 15 = Ok (mk_active_set 2 0 [mk_active 3 15; mk_active 2 20] 35, true)) as E by (vm_compute; reflexivity).
  rewrite E in H. eexists. split; [exact E|]. split; [reflexivity|exact H].
Defined.

(** ** The first epoch

    Three nodes stake, the vote ends, the epoch changes, and two nodes with nine
    of the ten shards confirm it. *)
Definition no_staking : StakingInnerV1 :=
  mk_staking 0 0 0 0 (mk_active_set 0 0 [] 0) None empty_committee empty_committee (EpochChangeDone 0).
Definition s0 : StakingInnerV1 := unwrap no_staking (staking_new 0 1000 10 5).
Definition s1 : StakingInnerV1 := unwrap no_staking (try_join_active_set s0 7 100).
Definition s2 : StakingInnerV1 := unwrap no_staking (try_join_active_set s1 3 50).
Definition s3 : StakingInnerV1 := unwrap no_staking (try_join_active_set s2 9 30).
Definition s4 : StakingInnerV1 := unwrap no_staking (voting_end s3 5).
Definition s5 : StakingInnerV1 := unwrap no_staking (initiate_epoch_change s4 5 [] (fun _ => 60)).
Definition sync_done (s : StakingInnerV1) (id : ID) : StakingInnerV1 :=
  fst (unwrap (no_staking, mk_cap 0 0) (epoch_sync_done s (mk_cap id 0) 1 6)).
Definition s6 : StakingInnerV1 := sync_done s5 7.
Definition s7 : StakingInnerV1 := sync_done s6 3.

Definition caps0 : ID -> Z := fun _ => 0.
Definition caps6 : ID -> Z := <[7 := 1]> caps0.
Definition caps7 : ID -> Z := <[3 := 1]> caps6.

Lemma s0_new : staking_new 0 1000 10 5 = Ok s0.
Proof. vm_compute. reflexivity. Qed.

Lemma s3_reachable : rtc staking_step (s0, caps0) (s3, caps0).
Proof.
  assert (try_join_active_set s0 7 100 = Ok s1) as E1 by (vm_compute; reflexivity).
  assert (try_join_active_set s1 3 50 = Ok s2) as E2 by (vm_compute; reflexivity).
  assert (try_join_active_set s2 9 30 = Ok s3) as E3 by (vm_compute; reflexivity).
  exact (rtc_l _ _ _ _ (step_stake s0 caps0 7 100 s1 ltac:(lia) E1) (rtc_l _ _ _ _ (step_stake s1 caps0 3 50 s2 ltac:(lia) E2)
    (rtc_l _ _ _ _ (step_stake s2 caps0 9 30 s3 ltac:(lia) E3) (rtc_refl _ _)))).
Qed.

Lemma s5_reachable : rtc staking_step (s0, caps0) (s5, caps0).
Proof.
  assert (voting_end s3 5 = Ok s4) as E4 by (vm_compute; reflexivity).
  assert (initiate_epoch_change s4 5 [] (fun _ => 60) = Ok s5) as E5 by (vm_compute; reflexivity).
  assert (ID -> 0 <= 60) as Hb by (intros; lia).
  exact (rtc_r _ _ _ (rtc_r _ _ _ s3_reachable (step_voting_end s3 caps0 5 s4 E4)) (step_epoch_change s4 caps0 5 [] (fun _ => 60) s5 Hb E5)).
Qed.

Lemma s7_reachable : rtc staking_step (s0, caps0) (s7, caps7).
Proof.
  assert (epoch_sync_done s5 (mk_cap 7 (caps0 7)) 1 6 = Ok (s6, mk_cap 7 1)) as E6 by (vm_compute; reflexivity).
  assert (epoch_sync_done s6 (mk_cap 3 (caps6 3)) 1 6 = Ok (s7, mk_cap 3 1)) as E7 by (vm_compute; reflexivity).
  exact (rtc_r _ _ _ (rtc_r _ _ _ s5_reachable (step_sync_done _ _ _ _ _ _ _ E6)) (step_sync_done _ _ _ _ _ _ _ E7)).
Qed.

Lemma every_shard_has_one_node_witness : inner (committee s5) = [(3, [0; 1; 2]); (7, [3; 4; 5; 6; 7; 8]); (9, [9])] /\ committee_ok 10 (committee s5).
Proof.
  destruct (every_shard_has_one_node 10 0 1000 5 s0 s5 caps0 ltac:(lia) s0_new s5_reachable) as [H _].
  split; [vm_compute; reflexivity|]. apply H. vm_compute. reflexivity.
Defined.

Lemma epoch_change_needs_quorum_witness : epoch_state s7 = EpochChangeDone 6 /\ 2 * 10 + 1 <= 3 * confirmed s7 caps7.
Proof.
  pose proof (epoch_change_needs_quorum 10 0 1000 5 s0 s7 caps7 ltac:(lia) s0_new s7_reachable) as H.
  assert (epoch_state s7 = EpochChangeDone 6) as E by (vm_compute; reflexivity). rewrite E in H.
  split; [exact E|]. apply H. vm_compute. reflexivity.
Defined.

(** ** Runs with pools *)

Definition allowedb (call : StakingCall) (c : StakingContract) : bool :=
  (epoch (staking_inner c) + 2 <? 2 ^ 32) &&
  match call with
  | RegisterCandidate id _ _ _ _ _ _ rate _ _ capacity => bool_decide (pools c !! id = None) && (0 <=? rate) && (0 <=? capacity) && (capacity <? 2 ^ 64)
  | StakeWithPool to_stake _ object_id => (0 <=? to_stake) && (to_stake <? 2 ^ 64) && bool_decide (staked_wals c !! object_id = None)
  | InitiateEpochChange _ rewards => bool_decide (rewards.*1 = (inner (committee (staking_inner c))).*1) && bool_decide (Forall (fun x => 0 <= x < 2 ^ 64) rewards.*2)
  | AddCommissionToPools _ commissions => bool_decide (Forall (Z.le 0) commissions)
  | RequestWithdrawStake _ | WithdrawStake _ | VoteForSlashing _ _ _ | VotingEnd _ | EpochSyncDone _ _ _ => true
  | _ => false
  end.

Lemma allowedb_ok call c : allowedb call c = true -> staking_allowed call c.
Proof.
  unfold allowedb, staking_allowed. intros [HE%Z.ltb_lt H]%andb_true_iff. split; [done|]. destruct call; try done; rewrite ?andb_true_iff, ?bool_decide_eq_true in H.
  - destruct H as [[[H1 H2] H3] H4]. split_and!; [done|lia..].
  - destruct H as [H1 H2]. split; [lia|done].
  - done.
  - by destruct H as [-> H].
Qed.

(** The node is not out of the committee when the epoch changes. *)
Definition stays (id : ID) (c c' : StakingContract) : bool :=
  (epoch (staking_inner c') =? epoch (staking_inner c)) || in_committee id (committee (staking_inner c)) || in_next id (staking_inner c).

(** The contract after some calls, what they paid in, and whether the nodes [ids] are steady. *)
Fixpoint run (ids : list ID) (calls : list StakingCall) (c : StakingContract) : option (StakingContract * Z) :=
  match calls with
  | [] => Some (c, 0)
  | call :: calls =>
    match staking_execute call c with
    | Ok (c', paid) => if allowedb call c && forallb (fun id => stays id c c') ids then '(c', sum) ← run ids calls c'; Some (c', paid + sum) else None
    | _ => None
    end
  end.

Lemma run_cons ids call calls c c' sum : run ids (call :: calls) c = Some (c', sum) -> exists c1 paid,
  contract_step c paid c1 /\ (forall id, id ∈ ids -> stays id c c1 = true) /\ run ids calls c1 = Some (c', sum - paid).
Proof.
  cbn [run]. destruct (staking_execute call c) as [[c1 paid]| |] eqn:He; try done. destruct (allowedb call c) eqn:Ha; [|done]. cbn [andb].
  destruct (forallb _ ids) eqn:Hs; [|done]. intros Hr. destruct (run ids calls c1) as [[c2 s]|] eqn:Hr1; [|done]. injection Hr as <- <-.
  exists c1, paid. split; [econstructor; [by apply allowedb_ok|done]|]. split; [|by replace (paid + s - paid) with s by lia]. intros id Hid.
  rewrite forallb_forall in Hs. by apply Hs, list_elem_of_In.
Qed.

Lemma run_contract_reachable n ids calls c sum c' s : contract_reachable n c sum -> run ids calls c = Some (c', s) -> contract_reachable n c' (sum + s).
Proof.
  revert c sum s. induction calls as [|call calls IH]; intros c sum s Hc Hr; [injection Hr as <- <-; by rewrite Z.add_0_r|].
  apply run_cons in Hr as (c1 & paid & Hs & _ & Hr). replace (sum + s) with (sum + paid + (s - paid)) by lia. eapply IH; [|exact Hr]. by econstructor.
Qed.

(** The states in which the calls of a run are made. *)
Fixpoint trace (calls : list StakingCall) (c : StakingContract) : list (StakingContract * StakingCall) :=
  match calls with
  | [] => []
  | call :: calls => (c, call) :: match staking_execute call c with Ok (c', _) => trace calls c' | _ => [] end
  end.

Lemma run_log n ids calls c c' s log : contract_log n c log -> run ids calls c = Some (c', s) -> contract_log n c' (log ++ trace calls c).
Proof.
  revert c s log. induction calls as [|call calls IH]; intros c s log Hl Hr; [injection Hr as <- _; cbn; by rewrite app_nil_r|]. cbn [run trace] in *.
  destruct (staking_execute call c) as [[c1 paid]| |] eqn:He; try done. destruct (allowedb call c) eqn:Ha; [|done]. cbn [andb] in Hr. destruct (forallb _ ids); [|done].
  destruct (run ids calls c1) as [[c2 s2]|] eqn:Hr1; [|done]. injection Hr as <- <-. rewrite cons_middle, app_assoc. eapply IH; [|exact Hr1].
  econstructor; [done|by apply allowedb_ok|exact He].
Qed.

Lemma run_runs ids calls c c' s : run ids calls c = Some (c', s) -> contract_runs c c'.
Proof.
  revert c s. induction calls as [|call calls IH]; intros c s Hr; [injection Hr as <- _; apply rtc_refl|].
  apply run_cons in Hr as (c1 & paid & Hs & _ & Hr). eapply rtc_l; [by exists paid|by eapply IH].
Qed.

Lemma run_steady n id ids calls c c' s : id ∈ ids -> steady n id c -> run ids calls c = Some (c', s) -> steady n id c'.
Proof.
  intros Hid. revert c s. induction calls as [|call calls IH]; intros c s Hc Hr; [by injection Hr as <- _|].
  apply run_cons in Hr as (c1 & paid & Hs & Hst & Hr). eapply IH; [|exact Hr]. econstructor; [done|exact Hs|]. intros He [H1 [H2 _]].
  specialize (Hst id Hid). unfold stays in Hst. rewrite H1, H2, (proj2 (Z.eqb_neq _ _)) in Hst; done.
Qed.

(** Two nodes and ten shards. *)
Definition no_contract : StakingContract := mk_contract no_staking ∅ None ∅ (fun _ => 0) ∅.
Definition start : StakingContract := unwrap no_contract (contract_new 0 1000 10 0).
Definition G : Z := 1000000000.
Definition register (id : ID) : StakingCall := RegisterCandidate id (id + 100) 1 [] [] (repeat Byte.x00 33) true 0 1 1 1.
Definition next_epoch (e : Z) (done : list ID) (rewards : VecMap Z) : list StakingCall :=
  [VotingEnd (1000 * e); InitiateEpochChange (1000 * e + 500) rewards] ++ ((fun id => EpochSyncDone id (e + 1) (1000 * e + 500)) <$> done).

(** Both nodes are in the committees of epochs 1 and 2. *)
Definition steady_calls : list StakingCall :=
  [register 1; register 2; StakeWithPool (90 * G) 1 11; StakeWithPool (10 * G) 2 12] ++ next_epoch 0 [1] [] ++
  [StakeWithPool G 2 13; StakeWithPool G 2 14] ++ next_epoch 1 [1] [(1, 0); (2, 5 * G)].

(** All stake of node 2 is withdrawn, and it is out of the committee in epochs 3 and 4.  Stake that becomes active
    meanwhile has shares at the rate of epoch 3, the pool has them at that of epoch 5. *)
Definition leaving_calls : list StakingCall :=
  [RequestWithdrawStake 12; RequestWithdrawStake 13; RequestWithdrawStake 14] ++ next_epoch 2 [1] [(1, 0); (2, 0)] ++
  [StakeWithPool (6 * G) 2 15] ++ next_epoch 3 [1] [(1, 0)] ++ [StakeWithPool (60 * G) 2 16] ++ next_epoch 4 [1; 2] [(1, 0)] ++
  [RequestWithdrawStake 16; VotingEnd 5500; StakeWithPool (5 * G) 2 17; RequestWithdrawStake 15].

Definition c2 : StakingContract := fst (default (no_contract, 0) (run [1; 2] steady_calls start)).
Definition c5 : StakingContract := fst (default (no_contract, 0) (run [] leaving_calls c2)).

Lemma start_new : contract_new 0 1000 10 0 = Ok start.
Proof. vm_compute. reflexivity. Qed.

Lemma run_c2 : run [1; 2] steady_calls start = Some (c2, 107 * G).
Proof. vm_compute. reflexivity. Qed.

Lemma run_c5 : run [] leaving_calls c2 = Some (c5, 71 * G).
Proof. vm_compute. reflexivity. Qed.

Lemma c2_steady : steady 10 2 c2.
Proof. eapply run_steady; [|by eapply sy_init, start_new|exact run_c2]. set_solver. Qed.

Lemma c5_reachable : contract_reachable 10 c5 (178 * G).
Proof.
  replace (178 * G) with (0 + 107 * G + 71 * G) by (unfold G; lia). eapply (run_contract_reachable 10 [] leaving_calls c2 (0 + 107 * G)); [|exact run_c5]. eapply run_contract_reachable; [by eapply co_init, start_new|exact run_c2].
Qed.

Lemma pools_refine_staking_witness : exists s, staking_new 0 1000 10 0 = Ok s /\ rtc staking_step (s, fun _ => 0) (view c5).
Proof. apply (pools_refine_staking 10 0 1000 0 start c5 start_new). etrans; [exact (run_runs _ _ _ _ _ run_c2)|exact (run_runs _ _ _ _ _ run_c5)]. Defined.

Lemma wal_is_conserved_witness : holdings c5 = 178 * G /\ rewards_pool <$> pools c5 !! 2 = Some (5 * G).
Proof. split; [exact (wal_is_conserved 10 c5 (178 * G) c5_reachable)|vm_compute; reflexivity]. Defined.

(** Node 1 has a quorum of the shards, and votes to slash node 2. *)
Definition slashing_calls : list StakingCall := [AddCommissionToPools [2] [7]; VoteForSlashing (Sender 1) 1 2].
Definition c2_voted : StakingContract := fst (default (no_contract, 0) (run [] slashing_calls c2)).

Definition c2_log : list (StakingContract * StakingCall) := trace steady_calls start ++ trace slashing_calls c2.

Lemma slashing_needs_quorum_witness : open_votes 2 c2_log = [1] /\ votes_ok (staking_inner c2_voted) c2_log 2 [1] /\
  exists c', execute_slashing c2_voted 2 = Ok (c', 7).
Proof.
  assert (run [] slashing_calls c2 = Some (c2_voted, 7)) as Hrun by (vm_compute; reflexivity).
  assert (contract_log 10 c2_voted c2_log) as Hl.
  { apply (run_log 10 [] slashing_calls c2 c2_voted 7); [|exact Hrun]. exact (run_log 10 _ _ _ _ _ [] (cl_init 10 0 1000 0 start start_new) run_c2). }
  assert (open_votes 2 c2_log = [1]) as Hv by (vm_compute; reflexivity). clear Hrun.
  destruct (slashing_needs_quorum 10 c2_voted c2_log 2 ltac:(lia) Hl) as [Hvo Hex]. cbv zeta in Hvo, Hex. rewrite Hv in Hvo, Hex. split; [exact Hv|]. split; [exact Hvo|].
  assert (exists p, pools c2_voted !! 2 = Some p /\ commission p = 7) as (p & Hp & Hc) by (eexists; split; [vm_compute; reflexivity|]; vm_compute; reflexivity).
  assert (zsum (weight_of (committee (staking_inner c2_voted)) <$> [1]) = 9) as Hw by (vm_compute; reflexivity).
  eexists. apply Hex. rewrite Hw. split; [lia|]. exists p. split; [exact Hp|]. split; [symmetry; exact Hc|reflexivity].
Defined.

(** Node 1 votes for a capacity of 1 with nine shards, node 2 for one of 10 with one shard. *)
Lemma contract_voting_end_selects_witness : exists c' next, contract_voting_end c2 2500 = Ok c' /\ next_committee (staking_inner c') = Some next /\
  selects (staking_inner c2) next /\ next_capacity c' = Some 1 /\ quorum_value 10 (capacity_vote c2 10 <$> inner next) 1.
Proof.
  destruct (contract_voting_end_selects 10 0 1000 0 start c2 1500 2500 ltac:(lia) start_new (run_runs _ _ _ _ _ run_c2)) as (c' & next & cap & Hv & _ & Hn & Hs & Hcap & Hq).
  - vm_compute. reflexivity.
  - vm_compute. discriminate.
  - right. lia.
  - vm_compute. reflexivity.
  - vm_compute. repeat split; discriminate.
  - assert (next_capacity <$> (match contract_voting_end c2 2500 with Ok c => Some c | _ => None end) = Some (Some 1)) as H1 by (vm_compute; reflexivity).
    rewrite Hv in H1. cbn in H1. rewrite Hcap in H1. injection H1 as ->. exists c', next. exact (conj Hv (conj Hn (conj Hs (conj Hcap Hq)))).
Defined.

(** Node 2 gets rewards of 3 WAL in epoch 2. *)
Lemma steady_pool_advances_witness : exists p predicted p', pools c2 !! 2 = Some p /\ wal_balance_at_epoch p 3 = Ok predicted /\
  pool_advance_epoch p (3 * G) (mk_wctx 3 false) = Ok p' /\ predicted <= wal_balance p' /\ 0 <= num_shares p' <= wal_balance p' /\
  (in_next 2 (staking_inner c2) = true -> 0 < wal_balance p').
Proof.
  assert (exists p, pools c2 !! 2 = Some p /\ wal_balance p = 17 * G /\ commission p = 0 /\ commission_rate p = 0 /\ rewards_pool p = 5 * G /\
    pending_stake p = []) as (p & Hp & H1 & H2 & H3 & H4 & H5) by (eexists; split; [vm_compute; reflexivity|]; vm_compute; repeat split).
  assert (amounts_fit p (3 * G) 3) as Hf by (split; unfold net_rewards, N_BASIS_POINTS; rewrite ?H1, ?H2, ?H3, ?H4, ?H5; [unfold G; lia|vm_compute; reflexivity..]).
  assert (epoch (staking_inner c2) = 2) as He by (vm_compute; reflexivity). assert (in_committee 2 (committee (staking_inner c2)) = true) as Hc by (vm_compute; reflexivity).
  pose proof (steady_pool_advances 10 2 c2 p (3 * G) ltac:(lia) c2_steady Hp) as H. cbv zeta in H. rewrite Hc, He in H.
  destruct (H (or_introl eq_refl) ltac:(lia) Hf) as (b & p' & H'). exists p, b, p'. exact (conj Hp H').
Defined.

(** The stake of 10 WAL of epoch 1 is worth 5 WAL more in epoch 2. *)
Lemma stake_value_never_falls_witness : exists p r, pools c2 !! 2 = Some p /\ calculate_rewards p (10 * G) 1 2 = Ok (5 * G) /\
  calculate_rewards p (10 * G) 1 1 = Ok r /\ r <= 5 * G.
Proof.
  assert (exists p, pools c2 !! 2 = Some p /\ calculate_rewards p (10 * G) 1 2 = Ok (5 * G)) as (p & Hp & Hr) by (eexists; split; [vm_compute; reflexivity|]; vm_compute; repeat split).
  assert (staked_wals c2 !! 12 = Some (mk_staked_wal Staked 2 (10 * G) 1)) as Hsw by (vm_compute; reflexivity).
  assert (epoch (staking_inner c2) = 2) as He by (vm_compute; reflexivity).
  pose proof (stake_value_never_falls 10 c2 12 (mk_staked_wal Staked 2 (10 * G) 1) p 1 2 (5 * G)) as H.
  cbn [sw_node_id sw_activation_epoch principal] in H. rewrite He in H.
  destruct (H ltac:(lia) c2_steady Hsw eq_refl Hp ltac:(lia) ltac:(lia) Hr) as (r & H'). exists p, r. exact (conj Hp (conj Hr H')).
Defined.

Lemma c5_blocked : blocked 2 c5.
Proof.
  assert (exists p, pools c5 !! 2 = Some p /\ num_shares p = 33000000001 /\ pending_shares_withdraw p = [(6, 33999999999)] /\ pending_stake p = [(7, 5 * G)] /\
    pre_active_withdrawals p = [] /\ wal_balance p = 66000000002 /\ activation_epoch p = 0 /\ commission_rate p = 0 /\ pending_commission_rate p = [] /\ commission p = 0 /\
    blocked_commission p = Some 0 /\ rewards_pool p = 5 * G /\ bool_decide (is_Some (exchange_rates p !! 0)) = true /\
    forallb (fun x => match x.2 with Flat => true | Variable_ wal share => (0 <? share) && (share <=? wal) && (wal <? 2 ^ 64) end) (map_to_list (exchange_rates p)) = true)
    as (p & Hp & H1 & H2 & H3 & H4 & H5 & H6 & H7 & H8 & H9 & H10 & H11 & H12 & H13) by (eexists; split; [vm_compute; reflexivity|]; vm_compute; repeat split).
  split; [vm_compute; reflexivity|vm_compute; reflexivity|]. exists p. split; [exact Hp|].
  assert (epoch (staking_inner c5) = 5) as -> by (vm_compute; reflexivity). clear Hp.
  assert (forall k v : Z, 0 <= v < 2 ^ 64 -> pending_ok [(k, v)]) as Hone by (intros k v Hv; split; [apply NoDup_singleton|exact (Forall_cons_2 _ _ _ Hv (Forall_nil_2 _))]).
  split; rewrite ?H1, ?H2, ?H3; [|split; rewrite ?H7, ?H8, ?H9, ?H10, ?H11; unfold N_BASIS_POINTS, G; cbn; [lia|split; [apply NoDup_nil_2|apply Forall_nil_2]|apply Forall_nil_2|lia|lia]|vm_compute; split; reflexivity|vm_compute; reflexivity].
  split; rewrite ?H1, ?H2, ?H3, ?H4, ?H5; try (apply Hone; unfold G; lia); try lia; [apply pending_nil|apply Forall_nil_2|].
  split; rewrite ?H6; [lia|exact (bool_decide_eq_true_1 _ H12)|]. intros e r He%elem_of_map_to_list. rewrite forallb_forall in H13.
  apply list_elem_of_In, H13 in He. cbn in He. destruct r; [done|]. cbn. lia.
Qed.

(** C40: the stake of a node that was out of the committee can stop the contract.  There is a run (31 calls, two nodes)
    after which no further calls, whatever they are, change the epoch again. *)
Theorem epoch_change_can_block : exists c sum, contract_reachable 10 c sum /\ epoch (staking_inner c) = 5 /\
  forall c', contract_runs c c' -> epoch (staking_inner c') = 5.
Proof.
  exists c5, (178 * G). split; [exact c5_reachable|]. assert (epoch (staking_inner c5) = 5) as H5 by (vm_compute; reflexivity). split; [exact H5|].
  intros c' Hc. rewrite <- H5. eapply (blocked_forever 10 c5 (178 * G) 2); [lia|exact c5_reachable|exact c5_blocked|exact Hc].
Qed.
