(* ===== verification/StorageAccounting.v ===== *)
(** * Storage resources and the accounts of future epochs

    Models contracts/walrus/sources/system/storage_resource.move and
    storage_accounting.move.  A storage resource reserves space for a period of
    epochs; the ring buffer holds, for the current and every future epoch, how
    much space is reserved and the rewards that will be distributed.  [window]
    lists its accounts in the order of epochs: the operations on the ring buffer
    are those of a queue of accounts.  A balance is its value. *)

From S2P Require Import Prelude Redstuff MoveStd.

(** The error codes of the modules of the system contract.  Where modules use the
    same name, the name of the module is put in front.  [ENotEnough] is an error
    of [sui::balance], and [EObjectNotFound] that of a transaction whose input
    does not exist. *)
Inductive SystemAbort :=
| EInvalidEpoch | EIncompatibleEpochs | EIncompatibleAmount | EInvalidEpochRange
| ETooFarInFuture
| EInvalidBitmap | ESigVerification | ENotEnoughStake | EBlsIncorrectCommittee
| EIncorrectAppId | EIncorrectEpoch | EInvalidMsgType | EIncorrectIntentVersion
| EInvalidPersistenceType | ENotDeletable
| EInvalidSequenceNumber
| ENotCertified | EBlobNotDeletable | EResourceBounds | EResourceSize | EAlreadyCertified | EInvalidBlobId
| EInvalidBlobPersistenceType | EInvalidBlobObject
| EPoolBlobNotDeletable | EPoolResourceBounds | EPoolAlreadyCertified | EPoolInvalidBlobId
| EPoolInvalidBlobPersistenceType | EPoolInvalidBlobObject | EInsufficientCapacity | EPoolNotEmpty
| EInvalidBlobSize | EInvalidBlobCount | EIncompatibleEndEpoch | EInvalidPercent
| EInvalidMaxEpochsAhead | EStorageExceeded | EInvalidEpochsAhead | EInvalidIdEpoch | EIncorrectCommittee
| EInvalidAccountingEpoch | EIncorrectAttestation | ERepeatedAttestation | ENotCommitteeMember
| EIncorrectDenyListSequence | EIncorrectDenyListNode | EInvalidResourceSize | EInvalidStartEpoch
| EZeroExtractSize
| ENotEnough | EObjectNotFound.

Abbreviation result := (outcome SystemAbort).

(** [balance.split(value)] and [balance.join(other)]. *)
Definition balance_split (balance value : Z) : result (Z * Z) :=
  ensure (value <=? balance) ENotEnough;; Ok (value, balance - value).
Definition balance_join (balance other : Z) : result Z := move_arith 64 (balance + other).

(** [start.range_do!(stop, f)] and [stop.do!(f)]. *)
Definition range_do {S} (start stop : Z) (f : S -> Z -> result S) (s : S) : result S :=
  foldM f s (seqZ start (stop - start)).

(** ** Storage resources *)

(** Storage of [storage_size] bytes from [start_epoch] to [end_epoch] (exclusive).
    Nothing reads the identifier of the object, which is left out. *)
Record Storage := mk_storage {
  start_epoch : Z;
  end_epoch : Z;
  storage_size : Z;
}.

Definition create_storage (start_epoch end_epoch storage_size : Z) : result Storage :=
  ensure (start_epoch <? end_epoch) EInvalidEpochRange;;
  Ok (mk_storage start_epoch end_epoch storage_size).

Definition extend_end_epoch (self : Storage) (extension_epochs : Z) : result Storage :=
  e ← move_arith 32 (end_epoch self + extension_epochs);
  Ok (mk_storage (start_epoch self) e (storage_size self)).

Definition increase_size (self : Storage) (additional_size : Z) : result Storage :=
  n ← move_arith 64 (storage_size self + additional_size);
  Ok (mk_storage (start_epoch self) (end_epoch self) n).

Definition split_by_epoch (storage : Storage) (split_epoch : Z) : result (Storage * Storage) :=
  ensure ((start_epoch storage <? split_epoch) && (split_epoch <? end_epoch storage)) EInvalidEpoch;;
  Ok (mk_storage (start_epoch storage) split_epoch (storage_size storage),
      mk_storage split_epoch (end_epoch storage) (storage_size storage)).

Definition split_by_size (storage : Storage) (split_size : Z) : result (Storage * Storage) :=
  ensure (split_size <=? storage_size storage) EIncompatibleAmount;;
  n ← move_arith 64 (storage_size storage - split_size);
  Ok (mk_storage (start_epoch storage) (end_epoch storage) split_size,
      mk_storage (start_epoch storage) (end_epoch storage) n).

Definition fuse_periods (first second : Storage) : result Storage :=
  ensure (storage_size first =? storage_size second) EIncompatibleAmount;;
  if end_epoch first =? start_epoch second then
    Ok (mk_storage (start_epoch first) (end_epoch second) (storage_size first))
  else
    ensure (start_epoch first =? end_epoch second) EIncompatibleEpochs;;
    Ok (mk_storage (start_epoch second) (end_epoch first) (storage_size first)).

Definition fuse_amount (first second : Storage) : result Storage :=
  ensure ((start_epoch first =? start_epoch second) && (end_epoch first =? end_epoch second)) EIncompatibleEpochs;;
  n ← move_arith 64 (storage_size first + storage_size second);
  Ok (mk_storage (start_epoch first) (end_epoch first) n).

Definition fuse (first second : Storage) : result Storage :=
  if start_epoch first =? start_epoch second then fuse_amount first second else fuse_periods first second.

(** ** The ring buffer *)

Record FutureAccounting := mk_accounting {
  accounting_epoch : Z;
  used_capacity : Z;
  rewards_to_distribute : Z;
}.

Definition increase_used_capacity (accounting : FutureAccounting) (amount : Z) : result (FutureAccounting * Z) :=
  c ← move_arith 64 (used_capacity accounting + amount);
  Ok (mk_accounting (accounting_epoch accounting) c (rewards_to_distribute accounting), c).

(** [accounting.rewards_balance().join(balance)]. *)
Definition join_rewards (balance : Z) (accounting : FutureAccounting) : result (FutureAccounting * unit) :=
  r ← balance_join (rewards_to_distribute accounting) balance;
  Ok (mk_accounting (accounting_epoch accounting) (used_capacity accounting) r, tt).

Record FutureAccountingRingBuffer := mk_ring {
  current_index : Z;
  ring_length : Z;
  ring_buffer : list FutureAccounting;
}.

Definition ring_new (length : Z) : FutureAccountingRingBuffer :=
  mk_ring 0 length ((fun epoch => mk_accounting epoch 0 0) <$> seqZ 0 length).

Definition move_rem {E} (a b : Z) : outcome E Z := if b =? 0 then Panic else Ok (a mod b).

(** The check of bounds and the index of [ring_lookup] and [ring_lookup_mut]. *)
Definition ring_index (self : FutureAccountingRingBuffer) (epochs_in_future : Z) : result nat :=
  ensure (epochs_in_future <? ring_length self) ETooFarInFuture;;
  i ← move_arith 32 (epochs_in_future + current_index self);
  actual_index ← move_rem i (ring_length self);
  Ok (Z.to_nat actual_index).

Definition ring_lookup (self : FutureAccountingRingBuffer) (epochs_in_future : Z) : result FutureAccounting :=
  i ← ring_index self epochs_in_future;
  index (ring_buffer self) i.

(** [ring_lookup_mut] returns a reference; [f] is what is done with it. *)
Definition ring_lookup_mut {A} (self : FutureAccountingRingBuffer) (epochs_in_future : Z)
    (f : FutureAccounting -> result (FutureAccounting * A)) : result (FutureAccountingRingBuffer * A) :=
  i ← ring_index self epochs_in_future;
  a ← index (ring_buffer self) i;
  '(a, x) ← f a;
  Ok (mk_ring (current_index self) (ring_length self) (<[i := a]> (ring_buffer self)), x).

Definition ring_pop_expand (self : FutureAccountingRingBuffer) : result (FutureAccounting * FutureAccountingRingBuffer) :=
  current ← index (ring_buffer self) (Z.to_nat (current_index self));
  e ← move_arith 32 (accounting_epoch current + ring_length self);
  '(accounting, buffer) ← swap_remove (Z.to_nat (current_index self)) (ring_buffer self ++ [mk_accounting e 0 0]);
  i ← move_arith 32 (current_index self + 1);
  i ← move_rem i (ring_length self);
  Ok (accounting, mk_ring i (ring_length self) buffer).

Definition ring_extract_burn_balance (self : FutureAccountingRingBuffer) : result (Z * FutureAccountingRingBuffer) :=
  let i := Z.to_nat (current_index self) in
  a ← index (ring_buffer self) i;
  three ← move_arith 64 (rewards_to_distribute a * 3);
  '(burnt, rest) ← balance_split (rewards_to_distribute a) (three / 100);
  Ok (burnt, mk_ring (current_index self) (ring_length self)
               (<[i := mk_accounting (accounting_epoch a) (used_capacity a) rest]> (ring_buffer self))).

(** ** Successful runs *)

Lemma range_do_inv {S} (P : Z -> S -> Prop) start stop (f : S -> Z -> result S) s s' : start <= stop -> P start s ->
  (forall i s s', start <= i < stop -> P i s -> f s i = Ok s' -> P (i + 1) s') ->
  range_do start stop f s = Ok s' -> P stop s'.
Proof.
  intros Hle HP Hf. unfold range_do. remember (Z.to_nat (stop - start)) as n eqn:Hn.
  revert start s Hle HP Hf Hn. induction n as [|n IH]; intros start s Hle HP Hf Hn Hr.
  - rewrite seqZ_nil in Hr by lia. injection Hr as <-. by replace stop with start by lia.
  - rewrite seqZ_cons in Hr by lia. cbn [foldM] in Hr. apply bind_Ok in Hr as (s1 & Hs1 & Hr).
    apply (IH (start + 1) s1); [lia|by apply (Hf start s); [lia|..]| |lia|].
    + intros i s2 s3 Hi. apply Hf. lia.
    + by replace (Z.succ start) with (start + 1) in Hr by lia; replace (stop - (start + 1)) with (Z.pred (stop - start)) by lia.
Qed.

Lemma range_do_ok {S} (P : Z -> S -> Prop) start stop (f : S -> Z -> result S) s : start <= stop -> P start s ->
  (forall i s, start <= i < stop -> P i s -> exists s', f s i = Ok s' /\ P (i + 1) s') ->
  exists s', range_do start stop f s = Ok s' /\ P stop s'.
Proof.
  intros Hle HP Hf. unfold range_do. remember (Z.to_nat (stop - start)) as n eqn:Hn.
  revert start s Hle HP Hf Hn. induction n as [|n IH]; intros start s Hle HP Hf Hn.
  - rewrite seqZ_nil by lia. exists s. split; [done|]. by replace stop with start by lia.
  - rewrite seqZ_cons by lia. cbn [foldM]. destruct (Hf start s ltac:(lia) HP) as (s1 & -> & H1). cbn [mbind outcome_bind].
    replace (Z.succ start) with (start + 1) by lia. replace (Z.pred (stop - start)) with (stop - (start + 1)) by lia.
    apply IH; [lia|done| |lia]. intros i s2 Hi. apply Hf. lia.
Qed.

(** ** The ring buffer as a queue *)

Definition window (self : FutureAccountingRingBuffer) : list FutureAccounting :=
  drop (Z.to_nat (current_index self)) (ring_buffer self) ++ take (Z.to_nat (current_index self)) (ring_buffer self).

Record ring_wf (self : FutureAccountingRingBuffer) : Prop := {
  wf_length : 0 < ring_length self < 2 ^ 31;
  wf_buffer : len (ring_buffer self) = ring_length self;
  wf_index : 0 <= current_index self < ring_length self;
}.

(** The account of the [i]-th epoch from [e] on is that of epoch [e + i]. *)
Definition window_epochs (e : Z) (w : list FutureAccounting) : Prop :=
  forall i a, w !! i = Some a -> accounting_epoch a = e + Z.of_nat i.

Lemma window_length r : length (window r) = length (ring_buffer r).
Proof. unfold window. rewrite length_app, length_drop, length_take. lia. Qed.

Lemma window_lookup r i : ring_wf r -> (i < length (ring_buffer r))%nat ->
  window r !! i = ring_buffer r !! Z.to_nat ((Z.of_nat i + current_index r) mod ring_length r).
Proof.
  intros [Hl Hb Hi] Hlt. unfold window.
  destruct (decide (Z.of_nat i + current_index r < ring_length r)) as [Hin|Hout].
  - rewrite lookup_app_l by (rewrite length_drop; lia). rewrite lookup_drop, Z.mod_small by lia. f_equal. lia.
  - rewrite lookup_app_r by (rewrite length_drop; lia). rewrite length_drop, lookup_take_lt by lia.
    replace (Z.of_nat i + current_index r) with (Z.of_nat i + current_index r - ring_length r + 1 * ring_length r) by lia.
    rewrite Z.mod_add, Z.mod_small by lia. f_equal. lia.
Qed.

(** The position in the buffer of an epoch. *)
Definition ring_position (r : FutureAccountingRingBuffer) (i : Z) : nat := Z.to_nat ((i + current_index r) mod ring_length r).

Lemma ring_index_cases r i : ring_wf r -> 0 <= i ->
  ring_index r i = if i <? ring_length r then Ok (ring_position r i) else Err ETooFarInFuture.
Proof.
  intros [Hl Hb Hi] H0. unfold ring_index, ring_position. destruct (Z.ltb_spec i (ring_length r)) as [Hlt|]; [|done].
  cbn [ensure mbind outcome_bind]. rewrite move_arith_in_range by lia. cbn [mbind outcome_bind]. unfold move_rem.
  by rewrite (proj2 (Z.eqb_neq _ _)) by lia.
Qed.

Lemma ring_position_inj r i j : ring_wf r -> 0 <= i < ring_length r -> 0 <= j < ring_length r ->
  ring_position r i = ring_position r j -> i = j.
Proof.
  intros [Hl Hb Hx] Hi Hj. unfold ring_position. intros Heq.
  pose proof (Z.mod_pos_bound (i + current_index r) (ring_length r) ltac:(lia)).
  pose proof (Z.mod_pos_bound (j + current_index r) (ring_length r) ltac:(lia)).
  assert ((i + current_index r) mod ring_length r = (j + current_index r) mod ring_length r) as Hm by lia.
  pose proof (Z.div_mod (i + current_index r) (ring_length r) ltac:(lia)).
  pose proof (Z.div_mod (j + current_index r) (ring_length r) ltac:(lia)).
  destruct (Z.lt_trichotomy ((i + current_index r) / ring_length r) ((j + current_index r) / ring_length r)) as [|[|]]; nia.
Qed.

Lemma window_at r i a : ring_wf r -> 0 <= i -> window r !! Z.to_nat i = Some a ->
  i < ring_length r /\ ring_buffer r !! ring_position r i = Some a.
Proof.
  intros Hwf H0 Ha. pose proof (lookup_lt_Some _ _ _ Ha) as Hlt. rewrite window_length in Hlt. pose proof (wf_buffer r Hwf).
  rewrite window_lookup in Ha by done. rewrite Z2Nat.id in Ha by done. split; [lia|done].
Qed.

Lemma window_total r i : ring_wf r -> 0 <= i < ring_length r -> exists a, window r !! Z.to_nat i = Some a.
Proof. intros Hwf Hi. apply lookup_lt_is_Some. rewrite window_length. pose proof (wf_buffer r Hwf). lia. Qed.

(** The buffer after the account of an epoch has changed. *)
Definition ring_set (r : FutureAccountingRingBuffer) (i : Z) (a : FutureAccounting) : FutureAccountingRingBuffer :=
  mk_ring (current_index r) (ring_length r) (<[ring_position r i := a]> (ring_buffer r)).

Lemma ring_set_wf r i a : ring_wf r -> ring_wf (ring_set r i a).
Proof. intros [Hl Hb Hi]. by constructor; cbn; rewrite ?length_insert. Qed.

Lemma window_set r i a : ring_wf r -> 0 <= i < ring_length r -> window (ring_set r i a) = <[Z.to_nat i := a]> (window r).
Proof.
  intros Hwf Hi. pose proof (wf_buffer r Hwf) as Hb. apply list_eq_same_length with (n := length (ring_buffer r)).
  - rewrite length_insert. apply window_length.
  - rewrite window_length. cbn. by rewrite length_insert.
  - intros j x y Hj Hx Hy. rewrite window_lookup in Hx by (try apply ring_set_wf; try done; cbn; by rewrite length_insert).
    cbn in Hx. destruct (decide (j = Z.to_nat i)) as [->|Hne].
    + rewrite list_lookup_insert_eq in Hy by (rewrite window_length; lia). rewrite Z2Nat.id in Hx by lia.
      fold (ring_position r i) in Hx. rewrite list_lookup_insert_eq in Hx; [congruence|].
      unfold ring_position. pose proof (Z.mod_pos_bound (i + current_index r) (ring_length r) ltac:(lia)). lia.
    + rewrite list_lookup_insert_ne in Hy by done. rewrite window_lookup in Hy by done.
      fold (ring_position r (Z.of_nat j)) in Hx, Hy. rewrite list_lookup_insert_ne in Hx; [congruence|].
      intros Heq. apply Hne. apply ring_position_inj in Heq; [lia|done|lia|lia].
Qed.

Lemma ring_lookup_ok r i a : ring_wf r -> 0 <= i -> window r !! Z.to_nat i = Some a -> ring_lookup r i = Ok a.
Proof.
  intros Hwf H0 Ha. destruct (window_at r i a Hwf H0 Ha) as [Hlt Hp]. unfold ring_lookup.
  rewrite ring_index_cases by done. rewrite (proj2 (Z.ltb_lt _ _)) by done. cbn [mbind outcome_bind].
  by rewrite (index_lookup _ _ _ Hp).
Qed.

Lemma ring_lookup_mut_ok {A} r i a (f : FutureAccounting -> result (FutureAccounting * A)) : ring_wf r -> 0 <= i ->
  window r !! Z.to_nat i = Some a -> ring_lookup_mut r i f = '(a', x) ← f a; Ok (ring_set r i a', x).
Proof.
  intros Hwf H0 Ha. destruct (window_at r i a Hwf H0 Ha) as [Hlt Hp]. unfold ring_lookup_mut.
  rewrite ring_index_cases by done. rewrite (proj2 (Z.ltb_lt _ _)) by done. cbn [mbind outcome_bind].
  rewrite (index_lookup _ _ _ Hp). done.
Qed.

Lemma ring_lookup_mut_far {A} r i (f : FutureAccounting -> result (FutureAccounting * A)) : ring_wf r ->
  ring_length r <= i -> ring_lookup_mut r i f = Err ETooFarInFuture.
Proof.
  intros Hwf Hi. pose proof (wf_length r Hwf). unfold ring_lookup_mut. rewrite ring_index_cases by (done || lia).
  by rewrite (proj2 (Z.ltb_ge _ _)) by done.
Qed.

Lemma ring_lookup_mut_inv {A} r i (f : FutureAccounting -> result (FutureAccounting * A)) r' x : ring_wf r -> 0 <= i ->
  ring_lookup_mut r i f = Ok (r', x) -> exists a a', window r !! Z.to_nat i = Some a /\ f a = Ok (a', x) /\
    window r' = <[Z.to_nat i := a']> (window r) /\ ring_wf r' /\ ring_length r' = ring_length r.
Proof.
  intros Hwf H0 Hr. destruct (decide (i < ring_length r)) as [Hlt|Hge].
  - destruct (window_total r i Hwf ltac:(lia)) as [a Ha]. rewrite (ring_lookup_mut_ok r i a f Hwf H0 Ha) in Hr.
    destruct (f a) as [[a' y]| |] eqn:Hf; [|done|done]. cbn [mbind outcome_bind] in Hr. injection Hr as <- <-.
    exists a, a'. split_and!; [done|done|by apply window_set; [|lia]|by apply ring_set_wf|done].
  - rewrite ring_lookup_mut_far in Hr by (done || lia). done.
Qed.

(** Popping the current epoch appends an empty account for the epoch after the
    last one. *)
Lemma ring_pop_ok r a w : ring_wf r -> window r = a :: w -> 0 <= accounting_epoch a < 2 ^ 32 - ring_length r ->
  exists r', ring_pop_expand r = Ok (a, r') /\ window r' = w ++ [mk_accounting (accounting_epoch a + ring_length r) 0 0] /\
    ring_wf r' /\ ring_length r' = ring_length r.
Proof.
  intros Hwf Hw He. pose proof Hwf as [Hl Hb Hi].
  assert (window r !! Z.to_nat 0 = Some a) as Ha by by rewrite Hw.
  destruct (window_at r 0 a Hwf ltac:(lia) Ha) as [_ Hp].
  assert (ring_position r 0 = Z.to_nat (current_index r)) as Hp0
    by (unfold ring_position; by rewrite Z.add_0_l, Z.mod_small by lia).
  rewrite Hp0 in Hp. unfold ring_pop_expand. rewrite (index_lookup _ _ _ Hp). cbn [mbind outcome_bind].
  rewrite (move_arith_in_range 32 (accounting_epoch a + _)) by lia. cbn [mbind outcome_bind].
  set (new := mk_accounting (accounting_epoch a + ring_length r) 0 0).
  destruct (swap_remove_ok (E:=SystemAbort) (Z.to_nat (current_index r)) (ring_buffer r ++ [new]) a new) as (buf & -> & Hlen & _ & Hbuf).
  { rewrite lookup_app_l by lia. done. }
  { by rewrite last_snoc. }
  rewrite length_app in Hlen. cbn in Hlen.
  assert (buf = <[Z.to_nat (current_index r) := new]> (ring_buffer r)) as ->.
  { apply list_eq_same_length with (n := length (ring_buffer r)); [by rewrite length_insert|lia|].
    intros j x y Hj Hx Hy. rewrite Hbuf in Hx by lia. destruct (decide (j = Z.to_nat (current_index r))) as [->|Hne].
    - rewrite list_lookup_insert_eq in Hy by lia. congruence.
    - rewrite list_lookup_insert_ne in Hy by done. rewrite lookup_app_l in Hx by lia. congruence. }
  cbn [mbind outcome_bind]. rewrite move_arith_in_range by lia. cbn [mbind outcome_bind]. unfold move_rem.
  rewrite (proj2 (Z.eqb_neq _ _)) by lia. eexists. split; [done|].
  pose proof (Z.mod_pos_bound (current_index r + 1) (ring_length r) ltac:(lia)).
  split_and!; [|by constructor; cbn; rewrite ?length_insert|done].
  unfold window in *. cbn. rewrite (drop_S _ _ _ Hp) in Hw. cbn in Hw. injection Hw as <-.
  rewrite insert_take_drop by lia. set (c := Z.to_nat (current_index r)) in *.
  destruct (decide (current_index r + 1 = ring_length r)) as [Hlast|Hmid].
  - rewrite Hlast, Z.mod_same by lia. cbn. rewrite (drop_ge _ (S c)) by lia. rewrite app_nil_r. done.
  - rewrite Z.mod_small by lia. replace (Z.to_nat (current_index r + 1)) with (S c) by lia.
    assert (length (take c (ring_buffer r)) = c) as Htc by (rewrite length_take; lia).
    rewrite drop_app_ge, take_app_ge by lia. rewrite Htc. replace (S c - c)%nat with 1%nat by lia. cbn. rewrite drop_0, take_0.
    by rewrite app_assoc.
Qed.

(** ** Changes of accounts *)

(** The space and the rewards that every account has gained. *)
Record ring_added (r r' : FutureAccountingRingBuffer) (used rewards : Z -> Z) : Prop := {
  added_wf : ring_wf r';
  added_length : ring_length r' = ring_length r;
  added_accounts : forall i a, 0 <= i -> window r !! Z.to_nat i = Some a -> window r' !! Z.to_nat i =
    Some (mk_accounting (accounting_epoch a) (used_capacity a + used i) (rewards_to_distribute a + rewards i));
}.

Definition at_epoch (i x : Z) : Z -> Z := fun j => if j =? i then x else 0.
Definition nothing : Z -> Z := fun _ => 0.

Lemma ring_added_refl r : ring_wf r -> ring_added r r nothing nothing.
Proof. intros Hwf. constructor; [done|done|]. intros i [e u w] _ Ha. unfold nothing. cbn. by rewrite !Z.add_0_r. Qed.

Lemma ring_added_trans r r1 r2 u1 w1 u2 w2 : ring_added r r1 u1 w1 -> ring_added r1 r2 u2 w2 ->
  ring_added r r2 (fun i => u1 i + u2 i) (fun i => w1 i + w2 i).
Proof.
  intros [_ Hl1 Ha1] [Hwf Hl2 Ha2]. constructor; [done|congruence|]. intros i a Hi Ha.
  rewrite (Ha2 _ _ Hi (Ha1 _ _ Hi Ha)). cbn. by rewrite !Z.add_assoc.
Qed.

Lemma ring_added_ext r r' u w u' w' : (forall i, 0 <= i < ring_length r -> u i = u' i /\ w i = w' i) -> ring_wf r ->
  ring_added r r' u w -> ring_added r r' u' w'.
Proof.
  intros Heq Hr [Hwf Hl Ha]. constructor; [done|done|]. intros i a Hi Hwi. rewrite (Ha _ _ Hi Hwi).
  destruct (window_at r i a Hr Hi Hwi) as [Hlt _]. destruct (Heq i ltac:(lia)) as [-> ->]. done.
Qed.

Lemma ring_lookup_mut_added {A} r i (f : FutureAccounting -> result (FutureAccounting * A)) r' x du dr : ring_wf r -> 0 <= i ->
  (forall a a' x, f a = Ok (a', x) -> a' = mk_accounting (accounting_epoch a) (used_capacity a + du) (rewards_to_distribute a + dr)) ->
  ring_lookup_mut r i f = Ok (r', x) -> i < ring_length r /\ ring_added r r' (at_epoch i du) (at_epoch i dr).
Proof.
  intros Hwf Hi Hf Hr. destruct (ring_lookup_mut_inv r i f r' x Hwf Hi Hr) as (a & a' & Ha & Hfa & Hw & Hwf' & Hl).
  destruct (window_at r i a Hwf Hi Ha) as [Hlt _]. split; [done|]. constructor; [done|done|]. intros j b Hj Hb. rewrite Hw. unfold at_epoch.
  destruct (Z.eqb_spec j i) as [->|Hne].
  - rewrite list_lookup_insert_eq by (apply lookup_lt_Some in Ha; done). rewrite Ha in Hb. injection Hb as <-. by rewrite (Hf _ _ _ Hfa).
  - rewrite list_lookup_insert_ne by lia. rewrite Hb. destruct b. cbn. by rewrite !Z.add_0_r.
Qed.

Lemma join_rewards_spec b a a' x : join_rewards b a = Ok (a', x) ->
  a' = mk_accounting (accounting_epoch a) (used_capacity a + 0) (rewards_to_distribute a + b).
Proof. unfold join_rewards, balance_join. intros Hj. call_inv. by rewrite Z.add_0_r. Qed.

Lemma increase_used_spec n a a' x : increase_used_capacity a n = Ok (a', x) ->
  a' = mk_accounting (accounting_epoch a) (used_capacity a + n) (rewards_to_distribute a + 0).
Proof. unfold increase_used_capacity. intros Hj. call_inv. by rewrite Z.add_0_r. Qed.

(** The rewards in all accounts. *)
Definition treasury (r : FutureAccountingRingBuffer) : Z := zsum (rewards_to_distribute <$> window r).

Lemma treasury_added r r' u i x : ring_wf r -> 0 <= i < ring_length r -> ring_added r r' u (at_epoch i x) ->
  treasury r' = treasury r + x.
Proof.
  intros Hwf Hi [Hwf' Hl Ha]. destruct (window_total r i Hwf Hi) as [a Hai].
  assert (rewards_to_distribute <$> window r' = <[Z.to_nat i := rewards_to_distribute a + x]> (rewards_to_distribute <$> window r)) as Heq.
  { apply list_eq_same_length with (n := length (window r)).
    - by rewrite length_insert, length_fmap.
    - rewrite length_fmap, !window_length. pose proof (wf_buffer r Hwf). pose proof (wf_buffer r' Hwf'). lia.
    - intros j y z Hj Hy Hz. destruct (lookup_lt_is_Some_2 _ _ Hj) as [b Hb].
      pose proof (Ha (Z.of_nat j) b ltac:(lia)) as Hb'. rewrite Nat2Z.id in Hb'. specialize (Hb' Hb).
      rewrite list_lookup_fmap, Hb' in Hy. injection Hy as <-. unfold at_epoch.
      destruct (decide (j = Z.to_nat i)) as [->|Hne].
      + rewrite list_lookup_insert_eq in Hz by (by rewrite length_fmap). injection Hz as <-.
        rewrite Hai in Hb. injection Hb as <-. rewrite Z2Nat.id, Z.eqb_refl by lia. done.
      + rewrite list_lookup_insert_ne, list_lookup_fmap, Hb in Hz by done. injection Hz as <-. cbn.
        rewrite (proj2 (Z.eqb_neq _ _)) by lia. lia. }
  unfold treasury. rewrite Heq, (zsum_insert _ _ (rewards_to_distribute a)); [lia|]. by rewrite list_lookup_fmap, Hai.
Qed.

Lemma treasury_same r r' u : ring_wf r -> ring_added r r' u nothing -> treasury r' = treasury r.
Proof.
  intros Hwf Ha. pose proof (wf_length r Hwf). rewrite (treasury_added r r' u 0 0); [lia|done|lia|].
  apply (ring_added_ext _ _ u nothing); [|done|done]. intros i _. unfold at_epoch, nothing. by destruct (i =? 0).
Qed.
