(* ===== verification/Certificates.v ===== *)
(** * Certificates

    Models contracts/walrus/sources/system/bls_aggregate.move and messages.move:
    a certificate is an aggregate signature with a bitmap of the members of the
    committee that signed.  The curve of [sui::bls12381] is the class
    [Bls12381], with the laws of its group in [BlsSpec].  A certificate is
    accepted exactly if the signers have enough weight and the signature verifies
    for the sum of their keys. *)

From S2P Require Import Prelude Redstuff MoveStd StorageAccounting.

(** ** Messages *)

Definition APP_ID : Z := 3.
Definition INTENT_VERSION : Z := 0.
Definition BLOB_CERT_MSG_TYPE : Z := 1.
Definition INVALID_BLOB_ID_MSG_TYPE : Z := 2.
Definition DENY_LIST_UPDATE_MSG_TYPE : Z := 4.
Definition DENY_LIST_BLOB_DELETED_MSG_TYPE : Z := 5.
Definition PROTOCOL_VERSION_MSG_TYPE : Z := 6.

(** [sui::bcs]: [peel_u8], [peel_u32], [peel_u64], [peel_u256] and, for
    identifiers, [peel_address], by the number of bytes.  Integers are little
    endian, addresses big endian. *)
Definition peel_bytes (n : nat) (bytes : list byte) : result (list byte * list byte) :=
  assert (n <=? length bytes)%nat;; Ok (take n bytes, drop n bytes).
Definition peel_uint (n : nat) (bytes : list byte) : result (Z * list byte) :=
  '(v, bytes) ← peel_bytes n bytes; Ok (le_value v, bytes).
Definition peel_address (bytes : list byte) : result (ID * list byte) :=
  '(v, bytes) ← peel_bytes 32 bytes; Ok (le_value (reverse v), bytes).

Record CertifiedMessage := mk_certified_message {
  intent_type : Z;
  intent_version : Z;
  cert_epoch : Z;
  message : list byte;
  stake_support : Z;
}.

Inductive BlobPersistenceType :=
| Permanent
| Deletable (object_id : ID).

Record CertifiedBlobMessage := mk_blob_message {
  certified_blob_id : Z;
  blob_persistence_type : BlobPersistenceType;
}.

Record ProtocolVersionMessage := mk_protocol_version_message {
  pv_start_epoch : Z;
  protocol_version : Z;
}.

Record DenyListUpdateMessage := mk_deny_list_message {
  storage_node_id : ID;
  deny_list_sequence_number : Z;
  deny_list_size : Z;
  deny_list_root : Z;
}.

Definition new_certified_message (message_bytes : list byte) (committee_epoch stake_support : Z) : result CertifiedMessage :=
  '(intent_type, bytes) ← peel_uint 1 message_bytes;
  '(intent_version, bytes) ← peel_uint 1 bytes;
  ensure (intent_version =? INTENT_VERSION) EIncorrectIntentVersion;;
  '(intent_app, bytes) ← peel_uint 1 bytes;
  ensure (intent_app =? APP_ID) EIncorrectAppId;;
  '(cert_epoch, bytes) ← peel_uint 4 bytes;
  ensure (cert_epoch =? committee_epoch) EIncorrectEpoch;;
  Ok (mk_certified_message intent_type intent_version cert_epoch bytes stake_support).

Definition peel_blob_persistence_type (bytes : list byte) : result (BlobPersistenceType * list byte) :=
  '(type_id, bytes) ← peel_uint 1 bytes;
  if type_id =? 0 then Ok (Permanent, bytes)
  else if type_id =? 1 then '(object_id, bytes) ← peel_address bytes; Ok (Deletable object_id, bytes)
  else Err EInvalidPersistenceType.

Definition certify_blob_message (m : CertifiedMessage) : result CertifiedBlobMessage :=
  ensure (intent_type m =? BLOB_CERT_MSG_TYPE) EInvalidMsgType;;
  '(blob_id, bytes) ← peel_uint 32 (message m);
  '(t, _) ← peel_blob_persistence_type bytes;
  Ok (mk_blob_message blob_id t).

Definition certified_event_blob_message (blob_id : Z) : CertifiedBlobMessage := mk_blob_message blob_id Permanent.

Definition invalid_blob_id_message (m : CertifiedMessage) : result Z :=
  ensure (intent_type m =? INVALID_BLOB_ID_MSG_TYPE) EInvalidMsgType;;
  '(blob_id, _) ← peel_uint 32 (message m);
  Ok blob_id.

Definition protocol_version_message (m : CertifiedMessage) : result ProtocolVersionMessage :=
  ensure (intent_type m =? PROTOCOL_VERSION_MSG_TYPE) EInvalidMsgType;;
  '(start_epoch, bytes) ← peel_uint 4 (message m);
  '(version, _) ← peel_uint 8 bytes;
  Ok (mk_protocol_version_message start_epoch version).

Definition deny_list_update_message (m : CertifiedMessage) : result DenyListUpdateMessage :=
  ensure (intent_type m =? DENY_LIST_UPDATE_MSG_TYPE) EInvalidMsgType;;
  '(node_id, bytes) ← peel_address (message m);
  '(sequence_number, bytes) ← peel_uint 8 bytes;
  '(size, bytes) ← peel_uint 8 bytes;
  '(root, _) ← peel_uint 32 bytes;
  Ok (mk_deny_list_message node_id sequence_number size root).

Definition deny_list_blob_deleted_message (m : CertifiedMessage) : result Z :=
  ensure (intent_type m =? DENY_LIST_BLOB_DELETED_MSG_TYPE) EInvalidMsgType;;
  '(blob_id, _) ← peel_uint 32 (message m);
  Ok blob_id.

Definition is_deletable (t : BlobPersistenceType) : bool :=
  match t with Deletable _ => true | Permanent => false end.
Definition object_id (t : BlobPersistenceType) : result ID :=
  match t with Deletable object_id => Ok object_id | Permanent => Err ENotDeletable end.

(** ** The committee *)

Class Bls12381 := {
  UncompressedG1 : Type;
  G1 : Type;
  uncompressed_g1_sum : list UncompressedG1 -> result UncompressedG1;
  uncompressed_g1_to_g1 : UncompressedG1 -> G1;
  g1_sub : G1 -> G1 -> G1;
  g1_bytes : G1 -> list byte;
  min_pk_verify : list byte -> list byte -> list byte -> bool;
}.

(** If keys can be added up, so can some of them, and the difference is the sum
    of the others. *)
Class BlsSpec `{Bls12381} : Prop := {
  g1_sub_sum l l1 l2 t : l ≡ₚ l1 ++ l2 -> uncompressed_g1_sum l = Ok t -> exists t1 t2,
    uncompressed_g1_sum l1 = Ok t1 /\ uncompressed_g1_sum l2 = Ok t2 /\
    g1_sub (uncompressed_g1_to_g1 t) (uncompressed_g1_to_g1 t2) = uncompressed_g1_to_g1 t1;
}.

Section committee.
Context `{Bls12381}.

Record BlsCommitteeMember := mk_member {
  public_key : UncompressedG1;
  weight : Z;
  node_id : ID;
}.

Record BlsCommittee := mk_bls_committee {
  members : list BlsCommitteeMember;
  n_shards : Z;
  epoch : Z;
  total_aggregated_key : G1;
}.

Inductive RequiredWeight := Quorum | OneCorrectNode.

Definition new_bls_committee (epoch : Z) (members : list BlsCommitteeMember) : result BlsCommittee :=
  n ← foldM (fun n member => ensure (0 <? weight member) EBlsIncorrectCommittee;; move_arith 16 (n + weight member)) 0 members;
  t ← uncompressed_g1_sum (public_key <$> members);
  Ok (mk_bls_committee members n epoch (uncompressed_g1_to_g1 t)).

Definition find_member (self : BlsCommittee) (id : ID) : option nat := find_index (fun m => node_id m =? id) (members self).
Definition contains (self : BlsCommittee) (id : ID) : bool := bool_decide (is_Some (find_member self id)).

Definition get_member_weight (self : BlsCommittee) (id : ID) : result Z :=
  match find_member self id with
  | Some idx => m ← index (members self) idx; Ok (weight m)
  | None => Ok 0
  end.

Definition to_vec_map (self : BlsCommittee) : result (VecMap Z) :=
  foldM (fun m member => vec_map_insert (node_id member) (weight member) m) [] (members self).

Definition is_quorum (self : BlsCommittee) (weight : Z) : result bool :=
  a ← move_arith 64 (3 * weight);
  b ← move_arith 64 (2 * n_shards self);
  b ← move_arith 64 (b + 1);
  Ok (b <=? a).

Definition includes_one_correct_node (self : BlsCommittee) (weight : Z) : result bool :=
  a ← move_arith 64 (3 * weight);
  b ← move_arith 64 (n_shards self + 1);
  Ok (b <=? a).

(** One bit of the bitmap; the state is the weight and the keys of the members
    that did not sign. *)
Definition visit_member (self : BlsCommittee) (byte offset : Z) (s : Z * list UncompressedG1) (i : Z) :
    result (Z * list UncompressedG1) :=
  idx ← move_arith 64 (offset + i);
  let is_signer := Z.land (Z.shiftr byte i) 1 =? 1 in
  if len (members self) <=? idx then ensure (negb is_signer) EInvalidBitmap;; Ok s
  else if negb is_signer then
    member ← index (members self) (Z.to_nat idx);
    w ← move_arith 16 (s.1 + weight member);
    Ok (w, s.2 ++ [public_key member])
  else Ok s.

Definition visit_byte (self : BlsCommittee) (signers_bitmap : list byte) (s : (Z * list UncompressedG1) * Z) (i : Z) :
    result ((Z * list UncompressedG1) * Z) :=
  let '(s, offset) := s in
  byte ← (if i <? len signers_bitmap then b ← index signers_bitmap (Z.to_nat i); Ok (byte_val b) else Ok 0);
  s ← range_do 0 8 (visit_member self byte offset) s;
  offset ← move_arith 64 (offset + 8);
  Ok (s, offset).

Definition verify_certificate_and_weight (self : BlsCommittee) (signature signers_bitmap message : list byte)
    (required_weight : RequiredWeight) : result Z :=
  max_bitmap_len_bytes ← move_div_ceil (len (members self)) 8;
  ensure (len signers_bitmap <=? max_bitmap_len_bytes) EInvalidBitmap;;
  '(non_signers, _) ← range_do 0 max_bitmap_len_bytes (visit_byte self signers_bitmap) ((0, []), 0);
  aggregate_weight ← move_arith 16 (n_shards self - fst non_signers);
  enough ← (match required_weight with
            | Quorum => is_quorum self aggregate_weight
            | OneCorrectNode => includes_one_correct_node self aggregate_weight
            end);
  ensure enough ENotEnoughStake;;
  non_signer_key ← uncompressed_g1_sum (snd non_signers);
  let aggregate_key := g1_sub (total_aggregated_key self) (uncompressed_g1_to_g1 non_signer_key) in
  ensure (min_pk_verify signature (g1_bytes aggregate_key) message) ESigVerification;;
  Ok aggregate_weight.

Definition verify_quorum_in_epoch (self : BlsCommittee) (signature signers_bitmap message : list byte) : result CertifiedMessage :=
  stake_support ← verify_certificate_and_weight self signature signers_bitmap message Quorum;
  new_certified_message message (epoch self) stake_support.

Definition verify_one_correct_node_in_epoch (self : BlsCommittee) (signature signers_bitmap message : list byte) :
    result CertifiedMessage :=
  stake_support ← verify_certificate_and_weight self signature signers_bitmap message OneCorrectNode;
  new_certified_message message (epoch self) stake_support.

End committee.

(** ** Which certificates are accepted *)

(** Whether the bitmap says that the member at index [k] signed. *)
Definition signs (signers_bitmap : list byte) (k : nat) : bool :=
  match signers_bitmap !! (k / 8)%nat with
  | Some b => Z.testbit (byte_val b) (Z.of_nat (k mod 8))
  | None => false
  end.

(** The elements of a list at the positions from [k] on that satisfy [p]. *)
Fixpoint members_where {A} (p : nat -> bool) (k : nat) (l : list A) : list A :=
  match l with
  | [] => []
  | x :: l => (if p k then [x] else []) ++ members_where p (S k) l
  end.

Lemma select_split {A} (p : nat -> bool) k (l : list A) : l ≡ₚ members_where p k l ++ members_where (fun i => negb (p i)) k l.
Proof.
  revert k. induction l as [|x l IH]; intros k; cbn; [done|]. destruct (p k); cbn; [by f_equiv|].
  rewrite <- Permutation_middle. by f_equiv.
Qed.

Lemma select_snoc {A} (p : nat -> bool) k (l : list A) x :
  members_where p k (l ++ [x]) = members_where p k l ++ (if p (k + length l)%nat then [x] else []).
Proof.
  revert k. induction l as [|y l IH]; intros k; cbn; [rewrite Nat.add_0_r; by rewrite app_nil_r|].
  rewrite IH, <- app_assoc. by replace (S k + length l)%nat with (k + S (length l))%nat by lia.
Qed.

Lemma shifted_bit v i : 0 <= i -> (Z.land (Z.shiftr v i) 1 =? 1) = Z.testbit v i.
Proof.
  intros Hi. change 1 with (Z.ones 1) at 1. rewrite Z.land_ones by lia. change (2 ^ 1) with 2.
  assert (Z.testbit v i = Z.odd (Z.shiftr v i)) as -> by (rewrite <- Z.bit0_odd, Z.shiftr_spec by lia; done).
  rewrite Zmod_odd.
  by destruct (Z.odd (Z.shiftr v i)).
Qed.

Section certificates.
Context `{Bls12381} (self : BlsCommittee) (signers_bitmap : list byte).

Definition signers : list BlsCommitteeMember := members_where (signs signers_bitmap) 0 (members self).
Definition non_signers (ms : list BlsCommitteeMember) : list BlsCommitteeMember :=
  members_where (fun k => negb (signs signers_bitmap k)) 0 ms.

(** The visit of the bit at position [k] of the bitmap. *)
Definition visit (s : Z * list UncompressedG1) (k : nat) : result (Z * list UncompressedG1) :=
  if (length (members self) <=? k)%nat then ensure (negb (signs signers_bitmap k)) EInvalidBitmap;; Ok s
  else if negb (signs signers_bitmap k) then
    member ← index (members self) k;
    w ← move_arith 16 (s.1 + weight member);
    Ok (w, s.2 ++ [public_key member])
  else Ok s.

Definition bitmap_byte (i : nat) : Z := match signers_bitmap !! i with Some b => byte_val b | None => 0 end.

Lemma visit_member_eq i j s : (j < 8)%nat -> Z.of_nat i < 2 ^ 32 ->
  visit_member self (bitmap_byte i) (8 * Z.of_nat i) s (Z.of_nat j) = visit s (8 * i + j).
Proof.
  intros Hj Hlt. unfold visit_member, visit. rewrite (move_arith_in_range 64 (_ + _)) by lia. cbn [mbind outcome_bind].
  rewrite shifted_bit by lia.
  assert (signs signers_bitmap (8 * i + j) = Z.testbit (bitmap_byte i) (Z.of_nat j)) as ->.
  { unfold signs, bitmap_byte. rewrite (Nat.mul_comm 8 i), Nat.div_add_l by lia. rewrite (Nat.div_small j 8), Nat.add_0_r by done.
    rewrite Nat.Div0.add_mod, Nat.Div0.mod_mul, Nat.add_0_l, Nat.Div0.mod_mod, Nat.mod_small by done.
    destruct (signers_bitmap !! i); [done|]. by rewrite Z.bits_0. }
  replace (Z.to_nat (8 * Z.of_nat i + Z.of_nat j)) with (8 * i + j)%nat by lia.
  destruct (Nat.leb_spec (length (members self)) (8 * i + j)).
  - by rewrite (proj2 (Z.leb_le _ _)) by lia.
  - by rewrite (proj2 (Z.leb_gt _ _)) by lia.
Qed.

Lemma visit_byte_eq i s : Z.of_nat i < 2 ^ 32 ->
  visit_byte self signers_bitmap (s, 8 * Z.of_nat i) (Z.of_nat i) =
    s' ← foldM visit s (seq (8 * i) 8); Ok (s', 8 * Z.of_nat (S i)).
Proof.
  intros Hlt. unfold visit_byte.
  assert ((if Z.of_nat i <? len signers_bitmap then b ← index signers_bitmap (Z.to_nat (Z.of_nat i)); Ok (byte_val b) else Ok 0)
    = Ok (E:=SystemAbort) (bitmap_byte i)) as ->.
  { unfold bitmap_byte, index. rewrite Nat2Z.id. destruct (Z.ltb_spec (Z.of_nat i) (len signers_bitmap)).
    - by destruct (lookup_lt_is_Some_2 signers_bitmap i ltac:(lia)) as [b ->].
    - by rewrite lookup_ge_None_2 by lia. }
  cbn [mbind outcome_bind]. unfold range_do. change (seqZ 0 (8 - 0)) with (Z.of_nat <$> seq 0 8).
  assert (forall l s, Forall (fun j => j < 8)%nat l ->
    foldM (visit_member self (bitmap_byte i) (8 * Z.of_nat i)) s (Z.of_nat <$> l) = foldM visit s (Nat.add (8 * i) <$> l)) as Hf.
  { induction l as [|j l IH]; intros s' Hl; [done|]. apply Forall_cons in Hl as [Hj Hl]. cbn [fmap list_fmap foldM].
    rewrite visit_member_eq by lia. destruct (visit s' (8 * i + j)); cbn; [by apply IH|done|done]. }
  rewrite Hf by (repeat constructor; lia). rewrite fmap_add_seq, Nat.add_0_r.
  destruct (foldM visit s _); cbn [mbind outcome_bind]; [|done|done].
  rewrite move_arith_in_range by lia. cbn [mbind outcome_bind]. do 2 f_equal. lia.
Qed.

Lemma visit_bytes_eq s k : Z.of_nat k < 2 ^ 32 ->
  foldM (visit_byte self signers_bitmap) (s, 0) (Z.of_nat <$> seq 0 k) =
    s' ← foldM visit s (seq 0 (8 * k)); Ok (s', 8 * Z.of_nat k).
Proof.
  induction k as [|k IH]; intros Hk; [done|]. rewrite seq_S, fmap_app, foldM_app, IH by lia.
  replace (8 * S k)%nat with (8 * k + 8)%nat by lia. rewrite seq_app, foldM_app.
  destruct (foldM visit s (seq 0 (8 * k))) as [s'| |]; cbn [mbind outcome_bind]; [|done|done].
  cbn [fmap list_fmap foldM]. rewrite Nat.add_0_l, visit_byte_eq by lia.
  by destruct (foldM visit s' _).
Qed.

(** No bit is set from position [n] to [n + k]. *)
Definition clear_bits (n k : nat) : bool := forallb (fun i => negb (signs signers_bitmap i)) (seq n k).

Lemma visit_all_eq k : Forall (fun m => 0 < weight m) (members self) -> zsum (weight <$> members self) < 2 ^ 16 ->
  foldM visit (0, []) (seq 0 k) =
    if clear_bits (length (members self)) (k - length (members self))
    then Ok (zsum (weight <$> non_signers (take k (members self))), public_key <$> non_signers (take k (members self)))
    else Err EInvalidBitmap.
Proof.
  intros Hpos Hsum. induction k as [|k IH]; [by rewrite take_0|]. rewrite seq_S, foldM_app, IH, Nat.add_0_l. clear IH.
  destruct (decide (k < length (members self))%nat) as [Hin|Hout].
  - replace (k - length (members self))%nat with 0%nat by lia. replace (S k - length (members self))%nat with 0%nat by lia.
    cbn [clear_bits seq forallb mbind outcome_bind foldM]. destruct (lookup_lt_is_Some_2 _ _ Hin) as [m Hm].
    rewrite (take_S_r _ _ _ Hm). unfold non_signers. rewrite select_snoc, length_take, Nat.min_l, Nat.add_0_l by lia.
    unfold visit. rewrite (proj2 (Nat.leb_gt _ _)) by done. destruct (signs signers_bitmap k); cbn [negb];
      [by rewrite app_nil_r|]. rewrite (index_lookup _ _ _ Hm). cbn [mbind outcome_bind fst snd].
    rewrite (fmap_app weight), zsum_app, (fmap_app public_key). cbn [fmap list_fmap zsum foldr]. rewrite Z.add_0_r.
    rewrite move_arith_in_range; [done|].
    assert (take k (members self) ++ [m] ++ drop (S k) (members self) = members self) as Hall
      by (cbn; rewrite <- (drop_S _ _ _ Hm); apply take_drop).
    rewrite <- Hall, !fmap_app, !zsum_app in Hsum. rewrite <- Hall in Hpos. rewrite !Forall_app in Hpos.
    rewrite (select_split (signs signers_bitmap) 0 (take k (members self))) in Hsum at 1.
    rewrite (select_split (signs signers_bitmap) 0 (take k (members self))), Forall_app in Hpos.
    rewrite fmap_app, zsum_app in Hsum. destruct Hpos as ((Hp1 & Hp2) & Hp3 & Hp4).
    rewrite Forall_singleton in Hp3. assert (zsum (weight <$> [m]) = weight m) by (cbn; lia).
    assert (forall l, Forall (fun m => 0 < weight m) l -> 0 <= zsum (weight <$> l)) as Hnn.
    { intros l Hl. apply zsum_nonneg, Forall_fmap. eapply Forall_impl; [exact Hl|]. cbn. lia. }
    apply Hnn in Hp1, Hp2, Hp4. lia.
  - replace (S k - length (members self))%nat with (S (k - length (members self))) by lia.
    rewrite !take_ge by lia. unfold clear_bits. rewrite seq_S, forallb_app. cbn [forallb].
    replace (length (members self) + (k - length (members self)))%nat with k by lia.
    destruct (forallb _ _); [|done]. cbn [mbind outcome_bind foldM andb]. unfold visit.
    rewrite (proj2 (Nat.leb_le _ _)) by lia. by destruct (signs signers_bitmap k).
Qed.

End certificates.

(** What the constructor checks. *)
Record bls_wf `{Bls12381} (self : BlsCommittee) : Prop := {
  wf_weights : Forall (fun m => 0 < weight m) (members self);
  wf_shards : n_shards self = zsum (weight <$> members self) /\ n_shards self < 2 ^ 16;
  wf_key : exists t, uncompressed_g1_sum (public_key <$> members self) = Ok t /\ total_aggregated_key self = uncompressed_g1_to_g1 t;
}.

Definition enough_weight `{Bls12381} (self : BlsCommittee) (required_weight : RequiredWeight) (w : Z) : Prop :=
  match required_weight with
  | Quorum => 2 * n_shards self + 1 <= 3 * w
  | OneCorrectNode => n_shards self + 1 <= 3 * w
  end.

Section accepted.
Context `{BlsSpec}.

Lemma new_bls_committee_wf e ms c : new_bls_committee e ms = Ok c -> bls_wf c /\ members c = ms /\ epoch c = e.
Proof.
  unfold new_bls_committee. intros (n & Hn & (t & Ht & [= <-])%bind_Ok)%bind_Ok. cbn. split_and!; [|done|done].
  assert (forall l k m, foldM (fun n member => ensure (0 <? weight member) EBlsIncorrectCommittee;; move_arith 16 (n + weight member)) k l = Ok m ->
    0 <= k < 2 ^ 16 -> Forall (fun m => 0 < weight m) l /\ m = k + zsum (weight <$> l) /\ m < 2 ^ 16) as Hf.
  { induction l as [|x l IH]; intros k m Hm Hk; cbn in Hm; [injection Hm as <-; cbn; split_and!; [constructor|lia|lia]|].
    destruct (Z.ltb_spec 0 (weight x)); [|done]. cbn in Hm. unfold move_arith in Hm.
    destruct (in_uint 16 (k + weight x)) eqn:Hu; [|done]. apply in_uint_spec in Hu. cbn in Hm.
    apply IH in Hm as (Hl & -> & Hlt); [|done]. change (zsum (weight <$> x :: l)) with (weight x + zsum (weight <$> l)).
    split_and!; [by constructor|lia|done]. }
  destruct (Hf ms 0 n Hn ltac:(lia)) as (Hpos & -> & Hlt). constructor; cbn [n_shards members total_aggregated_key]; [done|lia|by exists t].
Qed.

Lemma bls_wf_bounds (c : BlsCommittee) : bls_wf c -> len (members c) <= n_shards c /\ 0 <= n_shards c < 2 ^ 16.
Proof.
  intros [Hpos [-> Hlt] _]. split; [|split; [|done]].
  - clear Hlt. induction Hpos as [|x l Hx Hl IH]; [done|].
    change (zsum (weight <$> x :: l)) with (weight x + zsum (weight <$> l)). cbn [length]. lia.
  - apply zsum_nonneg, Forall_fmap. eapply Forall_impl; [exact Hpos|]. cbn. lia.
Qed.

Lemma signers_weight (c : BlsCommittee) bitmap : bls_wf c ->
  n_shards c - zsum (weight <$> non_signers bitmap (members c)) = zsum (weight <$> signers c bitmap) /\
  0 <= zsum (weight <$> signers c bitmap) /\ 0 <= zsum (weight <$> non_signers bitmap (members c)).
Proof.
  intros [Hpos [-> Hlt] _]. pose proof (select_split (signs bitmap) 0 (members c)) as Hp.
  rewrite Hp in Hpos |- * at 1. rewrite Forall_app in Hpos. rewrite fmap_app, zsum_app. unfold signers, non_signers.
  split; [lia|]. split; apply zsum_nonneg, Forall_fmap; (eapply Forall_impl; [apply Hpos|]); cbn; lia.
Qed.

Lemma enough_weight_spec (c : BlsCommittee) req w : bls_wf c -> 0 <= w < 2 ^ 16 -> exists b : bool,
  match req with Quorum => is_quorum c w | OneCorrectNode => includes_one_correct_node c w end = Ok b /\
  (b = true <-> enough_weight c req w).
Proof.
  intros Hwf Hw. pose proof (bls_wf_bounds c Hwf). unfold is_quorum, includes_one_correct_node, enough_weight.
  destruct req; (rewrite !move_arith_in_range by lia; cbn [mbind outcome_bind]; rewrite ?move_arith_in_range by lia; cbn [mbind outcome_bind]);
    (rewrite ?(move_arith_in_range 64 (2 * _ + 1)) by lia; cbn [mbind outcome_bind]); eexists; (split; [done|]); lia.
Qed.

(** No bit is set beyond the members, and the bitmap is not longer than needed. *)
Definition bitmap_ok (c : BlsCommittee) (bitmap : list byte) : Prop :=
  len bitmap <= div_ceil (len (members c)) 8 /\ forall k, (length (members c) <= k)%nat -> signs bitmap k = false.

Lemma clear_bits_spec bitmap n k : (length bitmap <= k)%nat ->
  clear_bits bitmap n (8 * k - n) = true <-> forall i, (n <= i)%nat -> signs bitmap i = false.
Proof.
  intros Hlen. unfold clear_bits. rewrite forallb_forall. split.
  - intros Hall i Hi. destruct (decide (i < 8 * k)%nat) as [Hlt|Hge].
    + specialize (Hall i). rewrite in_seq in Hall. specialize (Hall ltac:(lia)). by destruct (signs bitmap i).
    + unfold signs. rewrite lookup_ge_None_2; [done|]. pose proof (Nat.div_le_lower_bound i 8 k ltac:(lia) ltac:(lia)). lia.
  - intros Hall i [Hi _]%in_seq. by rewrite Hall.
Qed.

(** The loop over the bitmap computes the weight and the keys of the others. *)
Lemma bitmap_loop (c : BlsCommittee) bitmap k : bls_wf c -> Z.of_nat k = div_ceil (len (members c)) 8 ->
  exists offset, range_do 0 (Z.of_nat k) (visit_byte c bitmap) ((0, []), 0) =
    if clear_bits bitmap (length (members c)) (8 * k - length (members c)) then
      Ok ((zsum (weight <$> non_signers bitmap (members c)), public_key <$> non_signers bitmap (members c)), offset)
    else Err EInvalidBitmap.
Proof.
  intros Hwf Hk. pose proof (bls_wf_bounds c Hwf). pose proof (div_ceil_spec (len (members c)) 8 ltac:(lia)).
  exists (8 * Z.of_nat k). unfold range_do. rewrite Z.sub_0_r. unfold seqZ. rewrite Nat2Z.id.
  assert ((λ i, Z.of_nat i + 0) <$> seq 0 k = Z.of_nat <$> seq 0 k) as ->.
  { apply list_fmap_ext. intros. lia. }
  rewrite visit_bytes_eq by lia. destruct Hwf as [Hpos [Hn Hlt] _]. rewrite visit_all_eq by (done || lia).
  rewrite (take_ge (members c)) by lia. by destruct (clear_bits _ _ _).
Qed.

Lemma certificate_cases (c : BlsCommittee) sig bitmap msg req w : bls_wf c ->
  verify_certificate_and_weight c sig bitmap msg req = Ok w <->
    bitmap_ok c bitmap /\ w = zsum (weight <$> signers c bitmap) /\ enough_weight c req w /\
    exists key, uncompressed_g1_sum (public_key <$> signers c bitmap) = Ok key /\
      min_pk_verify sig (g1_bytes (uncompressed_g1_to_g1 key)) msg = true.
Proof.
  intros Hwf. pose proof (bls_wf_bounds c Hwf). pose proof (div_ceil_spec (len (members c)) 8 ltac:(lia)) as Hd.
  destruct (signers_weight c bitmap Hwf) as (Hw & Hw1 & Hw2).
  assert (0 <= zsum (weight <$> signers c bitmap) < 2 ^ 16) as Hws by lia.
  destruct (enough_weight_spec c req _ Hwf Hws) as (b & Hb & Hbs).
  destruct (wf_key c Hwf) as (t & Ht & Hkey).
  destruct (g1_sub_sum (public_key <$> members c) (public_key <$> signers c bitmap)
    (public_key <$> non_signers bitmap (members c)) t) as (t1 & t2 & Ht1 & Ht2 & Hsub); [|done|].
  { rewrite <- fmap_app. unfold signers, non_signers. by rewrite <- select_split. }
  destruct (Z_of_nat_complete (div_ceil (len (members c)) 8) ltac:(lia)) as [k Hk].
  destruct (bitmap_loop c bitmap k Hwf (eq_sym Hk)) as [offset Hloop].
  unfold verify_certificate_and_weight, bitmap_ok, move_div_ceil. cbn [Z.eqb]. cbn [mbind outcome_bind]. rewrite Hk.
  destruct (Z.leb_spec (len bitmap) (Z.of_nat k)) as [Hlen|]; [|split; [done|]; intros ((? & _) & _); lia].
  cbn [ensure mbind outcome_bind]. rewrite Hloop. pose proof (clear_bits_spec bitmap (length (members c)) k ltac:(lia)) as Hclear.
  destruct (clear_bits _ _ _); cbn [mbind outcome_bind].
  2: { split; [done|]. intros ((_ & Hall) & _). by apply Hclear in Hall. }
  cbn [fst snd]. rewrite Hw, (move_arith_in_range 16) by lia. cbn [mbind outcome_bind]. rewrite Hb. cbn [mbind outcome_bind].
  destruct b; cbn [ensure mbind outcome_bind].
  2: { split; [done|]. intros (_ & -> & He & _). by apply Hbs in He. }
  rewrite Ht2. cbn [mbind outcome_bind]. rewrite Hkey, Hsub. destruct (min_pk_verify _ _ _) eqn:Hv; cbn [ensure mbind outcome_bind].
  - split; [intros [= <-]|by intros (_ & -> & _)]. split_and!; [done|by apply Hclear|done|by apply Hbs|by exists t1].
  - split; [done|]. intros (_ & _ & _ & key & Hk' & Hv'). rewrite Ht1 in Hk'. injection Hk' as <-. congruence.
Qed.
Lemma common_signers p q k ms : Forall (fun m => 0 < weight m) ms ->
  zsum (weight <$> members_where p k ms) + zsum (weight <$> members_where q k ms) <=
    zsum (weight <$> ms) + zsum (weight <$> members_where (fun i => p i && q i) k ms).
Proof.
  intros Hms. revert k. induction Hms as [|m ms Hm _ IH]; intros k; [done|]. specialize (IH (S k)). cbn [members_where].
  rewrite !fmap_app, !zsum_app. change (zsum (weight <$> m :: ms)) with (weight m + zsum (weight <$> ms)).
  assert (forall b : bool, zsum (weight <$> (if b then [m] else [])) = if b then weight m else 0) as Hb by (intros []; cbn; lia).
  rewrite !Hb. destruct (p k), (q k); cbn [andb]; lia.
Qed.

(** C14: a certificate is accepted exactly if the bitmap names members of the
    committee only, the members it names hold enough shards (more than two thirds
    for a quorum, more than one third to include a correct node), and the
    signature verifies for the sum of their keys.  Any two quorums share members
    with more than a third of the shards. *)
Theorem certificate_accepted e ms c : new_bls_committee e ms = Ok c ->
  (forall signature bitmap message required_weight w,
    verify_certificate_and_weight c signature bitmap message required_weight = Ok w <->
      bitmap_ok c bitmap /\ w = zsum (weight <$> signers c bitmap) /\ enough_weight c required_weight w /\
      exists key, uncompressed_g1_sum (public_key <$> signers c bitmap) = Ok key /\
        min_pk_verify signature (g1_bytes (uncompressed_g1_to_g1 key)) message = true) /\
  (forall bitmap1 bitmap2, enough_weight c Quorum (zsum (weight <$> signers c bitmap1)) ->
    enough_weight c Quorum (zsum (weight <$> signers c bitmap2)) ->
    enough_weight c OneCorrectNode (zsum (weight <$> members_where (fun k => signs bitmap1 k && signs bitmap2 k) 0 (members c)))).
Proof.
  intros Hc. destruct (new_bls_committee_wf e ms c Hc) as (Hwf & _ & _). split.
  - intros. by apply certificate_cases.
  - intros b1 b2 H1 H2. pose proof (common_signers (signs b1) (signs b2) 0 _ (wf_weights c Hwf)) as Hi.
    destruct (wf_shards c Hwf) as [Hn _]. unfold enough_weight, signers in *. lia.
Qed.

End accepted.
