(* ===== verification/SystemObjects.v ===== *)
(** * Blobs and storage pools of the system contract

    Models contracts/walrus/sources/system/blob.move, storage_pool.move,
    event_blob.move and the events of events.move that they emit.  An operation
    returns the events it emits.  The attributes that users attach to blobs
    (metadata.move) are left out: nothing else reads them. *)

From S2P Require Import Prelude Redstuff Merkle MoveStd StorageAccounting Certificates.

(** ** Events *)

Inductive SystemEvent :=
| EmitBlobRegistered (epoch blob_id size encoding_type end_epoch : Z) (deletable : bool) (object_id : ID)
| EmitBlobCertified (epoch blob_id end_epoch : Z) (deletable : bool) (object_id : ID) (is_extension : bool)
| EmitBlobDeleted (epoch blob_id end_epoch : Z) (object_id : ID) (was_certified : bool)
| EmitInvalidBlobID (epoch blob_id : Z)
| EmitEpochChangeStart (epoch : Z)
| EmitProtocolVersion (epoch start_epoch protocol_version : Z)
| EmitRegisterDenyListUpdate (epoch root sequence_number : Z) (node_id : ID)
| EmitDenyListUpdate (epoch root sequence_number : Z) (node_id : ID)
| EmitDenyListedBlobDeleted (epoch blob_id : Z)
| EmitStoragePoolCreated (epoch : Z) (storage_pool_id : ID) (reserved start_epoch end_epoch : Z)
| EmitStoragePoolExtended (epoch : Z) (storage_pool_id : ID) (new_end_epoch : Z)
| EmitPooledBlobRegistered (epoch blob_id unencoded_size encoding_type : Z) (deletable : bool) (object_id storage_pool_id : ID)
| EmitPooledBlobCertified (epoch blob_id : Z) (deletable : bool) (object_id storage_pool_id : ID)
| EmitPooledBlobDeleted (epoch blob_id : Z) (object_id : ID) (was_certified : bool) (storage_pool_id : ID).

(** ** Blobs *)

Record Blob := mk_blob {
  blob_object_id : ID;
  registered_epoch : Z;
  blob_id : Z;
  blob_size : Z;
  encoding_type : Z;
  certified_epoch : option Z;
  storage : Storage;
  deletable : bool;
}.

Definition set_storage (storage : Storage) (b : Blob) : Blob :=
  mk_blob (blob_object_id b) (registered_epoch b) (blob_id b) (blob_size b) (encoding_type b) (certified_epoch b) storage
    (deletable b).
Definition mark_certified (e : Z) (b : Blob) : Blob :=
  mk_blob (blob_object_id b) (registered_epoch b) (blob_id b) (blob_size b) (encoding_type b) (Some e) (storage b)
    (deletable b).

(** [object_id()] of the persistence type has to be that of the object. *)
Definition check_object (deletable : bool) (t : BlobPersistenceType) (id : ID) (e : SystemAbort) : result unit :=
  if deletable then i ← object_id t; ensure (i =? id) e else Ok tt.

Definition assert_certified_not_expired (self : Blob) (current_epoch : Z) : result unit :=
  ensure (bool_decide (is_Some (certified_epoch self))) ENotCertified;;
  ensure (current_epoch <? end_epoch (storage self)) EResourceBounds.

Definition emit_certified (self : Blob) (is_extension : bool) : result (list SystemEvent) :=
  e ← expect (certified_epoch self);
  Ok [EmitBlobCertified e (blob_id self) (end_epoch (storage self)) (deletable self) (blob_object_id self) is_extension].

Definition certify_with_certified_msg (blob : Blob) (current_epoch : Z) (message : CertifiedBlobMessage) :
    result (Blob * list SystemEvent) :=
  ensure (blob_id blob =? certified_blob_id message) EInvalidBlobId;;
  ensure (bool_decide (certified_epoch blob = None)) EAlreadyCertified;;
  ensure (current_epoch <? end_epoch (storage blob)) EResourceBounds;;
  ensure (Bool.eqb (deletable blob) (is_deletable (blob_persistence_type message))) EInvalidBlobPersistenceType;;
  check_object (deletable blob) (blob_persistence_type message) (blob_object_id blob) EInvalidBlobObject;;
  let blob := mark_certified current_epoch blob in
  events ← emit_certified blob false;
  Ok (blob, events).

Definition blob_delete (self : Blob) (epoch : Z) : result (Storage * list SystemEvent) :=
  ensure (deletable self) EBlobNotDeletable;;
  ensure (epoch <? end_epoch (storage self)) EResourceBounds;;
  Ok (storage self,
      [EmitBlobDeleted epoch (blob_id self) (end_epoch (storage self)) (blob_object_id self)
         (bool_decide (is_Some (certified_epoch self)))]).

Definition extend_with_resource (blob : Blob) (extension : Storage) (current_epoch : Z) : result (Blob * list SystemEvent) :=
  assert_certified_not_expired blob current_epoch;;
  ensure (end_epoch (storage blob) <? end_epoch extension) EResourceBounds;;
  s ← fuse_periods (storage blob) extension;
  let blob := set_storage s blob in
  events ← emit_certified blob true;
  Ok (blob, events).

Section hashing.
Context `{HashFunction}.

(** BLAKE2b over the serialized type, size and root, read as a number. *)
Definition derive_blob_id (root_hash encoding_type size : Z) : Z :=
  le_value (digest ([byte_of encoding_type] ++ le_bytes 8 size ++ le_bytes 32 root_hash)).

Definition blob_new (id : ID) (storage : Storage) (blob_id root_hash size encoding_type : Z) (deletable : bool)
    (registered_epoch n_shards : Z) : result (Blob * list SystemEvent) :=
  ensure (start_epoch storage <=? registered_epoch) EResourceBounds;;
  ensure (registered_epoch <? end_epoch storage) EResourceBounds;;
  encoded_size ← move_encoded_blob_length size encoding_type n_shards;
  ensure (encoded_size <=? storage_size storage) EResourceSize;;
  ensure (derive_blob_id root_hash encoding_type size =? blob_id) EInvalidBlobId;;
  Ok (mk_blob id registered_epoch blob_id size encoding_type None storage deletable,
      [EmitBlobRegistered registered_epoch blob_id size encoding_type (end_epoch storage) deletable id]).

End hashing.

(** ** Storage pools *)

Record PooledBlob := mk_pooled_blob {
  pooled_object_id : ID;
  pooled_registered_epoch : Z;
  pooled_blob_id : Z;
  pooled_unencoded_size : Z;
  pooled_encoding_type : Z;
  pooled_certified_epoch : option Z;
  storage_pool_id : ID;
  pooled_deletable : bool;
}.

(** The pool together with its inner state, whose version never changes. *)
Record StoragePool := mk_storage_pool {
  pool_object_id : ID;
  pool_storage : Storage;
  used_encoded_bytes : Z;
  blob_count : Z;
  pool_blobs : gmap Z PooledBlob;
}.

Definition pool_create (id : ID) (storage : Storage) : StoragePool := mk_storage_pool id storage 0 0 ∅.

Definition set_pool_storage (storage : Storage) (self : StoragePool) : StoragePool :=
  mk_storage_pool (pool_object_id self) storage (used_encoded_bytes self) (blob_count self) (pool_blobs self).

Definition pool_extend_end_epoch (self : StoragePool) (extension_epochs : Z) : result StoragePool :=
  s ← extend_end_epoch (pool_storage self) extension_epochs; Ok (set_pool_storage s self).

Definition increase_reserved_encoded_capacity (self : StoragePool) (additional : Z) : result StoragePool :=
  s ← increase_size (pool_storage self) additional; Ok (set_pool_storage s self).

(** An object table aborts if a key that is added is there, or one that is
    borrowed or removed is not. *)
Definition add_blob (self : StoragePool) (blob : PooledBlob) (encoded_size : Z) : result StoragePool :=
  count ← move_arith 64 (blob_count self + 1);
  used ← move_arith 64 (used_encoded_bytes self + encoded_size);
  ensure (used <=? storage_size (pool_storage self)) EInsufficientCapacity;;
  assert (bool_decide (pool_blobs self !! pooled_blob_id blob = None));;
  Ok (mk_storage_pool (pool_object_id self) (pool_storage self) used count (<[pooled_blob_id blob := blob]> (pool_blobs self))).

Definition remove_blob (self : StoragePool) (blob_id n_shards : Z) : result (PooledBlob * StoragePool) :=
  blob ← expect (pool_blobs self !! blob_id);
  encoded_size ← move_encoded_blob_length (pooled_unencoded_size blob) (pooled_encoding_type blob) n_shards;
  ensure (encoded_size <=? used_encoded_bytes self) EInvalidBlobSize;;
  used ← move_arith 64 (used_encoded_bytes self - encoded_size);
  ensure (1 <=? blob_count self) EInvalidBlobCount;;
  count ← move_arith 64 (blob_count self - 1);
  Ok (blob, mk_storage_pool (pool_object_id self) (pool_storage self) used count (delete blob_id (pool_blobs self))).

Definition increase_capacity_with_storage (self : StoragePool) (other : Storage) (current_epoch : Z) : result StoragePool :=
  ensure (start_epoch other <=? current_epoch) EPoolResourceBounds;;
  ensure (end_epoch other =? end_epoch (pool_storage self)) EIncompatibleEndEpoch;;
  s ← increase_size (pool_storage self) (storage_size other);
  Ok (set_pool_storage s self).

Definition decrease_capacity_by_size (self : StoragePool) (extract_size : Z) : result (StoragePool * option Storage) :=
  if extract_size =? 0 then Ok (self, None)
  else
    unused ← move_arith 64 (storage_size (pool_storage self) - used_encoded_bytes self);
    ensure (extract_size <=? unused) EInsufficientCapacity;;
    keep_size ← move_arith 64 (storage_size (pool_storage self) - extract_size);
    '(kept, extracted) ← split_by_size (pool_storage self) keep_size;
    Ok (set_pool_storage kept self, Some extracted).

Definition decrease_unused_capacity_by_percent (self : StoragePool) (percent : Z) :
    result (StoragePool * option Storage) :=
  ensure (percent <=? 100) EInvalidPercent;;
  unused ← move_arith 64 (storage_size (pool_storage self) - used_encoded_bytes self);
  p ← move_arith 128 (unused * percent);
  extract_size ← move_arith 64 (p / 100);
  decrease_capacity_by_size self extract_size.

Definition pool_destroy (self : StoragePool) : result Storage :=
  ensure (blob_count self =? 0) EPoolNotEmpty;;
  assert (bool_decide (pool_blobs self = ∅));;
  Ok (pool_storage self).

Definition new_pooled_blob `{HashFunction} (id storage_pool_id : ID) (blob_id root_hash unencoded_size encoding_type : Z)
    (deletable : bool) (registered_epoch : Z) : result (PooledBlob * list SystemEvent) :=
  ensure (derive_blob_id root_hash encoding_type unencoded_size =? blob_id) EPoolInvalidBlobId;;
  Ok (mk_pooled_blob id registered_epoch blob_id unencoded_size encoding_type None storage_pool_id deletable,
      [EmitPooledBlobRegistered registered_epoch blob_id unencoded_size encoding_type deletable id storage_pool_id]).

Definition pooled_certify (pooled_blob : PooledBlob) (current_epoch end_epoch : Z) (message : CertifiedBlobMessage) :
    result (PooledBlob * list SystemEvent) :=
  let b := pooled_blob in
  ensure (pooled_blob_id b =? certified_blob_id message) EPoolInvalidBlobId;;
  ensure (current_epoch <? end_epoch) EPoolResourceBounds;;
  ensure (bool_decide (pooled_certified_epoch b = None)) EPoolAlreadyCertified;;
  ensure (Bool.eqb (pooled_deletable b) (is_deletable (blob_persistence_type message))) EPoolInvalidBlobPersistenceType;;
  check_object (pooled_deletable b) (blob_persistence_type message) (pooled_object_id b) EPoolInvalidBlobObject;;
  Ok (mk_pooled_blob (pooled_object_id b) (pooled_registered_epoch b) (pooled_blob_id b) (pooled_unencoded_size b)
        (pooled_encoding_type b) (Some current_epoch) (storage_pool_id b) (pooled_deletable b),
      [EmitPooledBlobCertified current_epoch (pooled_blob_id b) (pooled_deletable b) (pooled_object_id b) (storage_pool_id b)]).

Definition delete_blob_object (pooled_blob : PooledBlob) (epoch : Z) : result (list SystemEvent) :=
  ensure (pooled_deletable pooled_blob) EPoolBlobNotDeletable;;
  Ok [EmitPooledBlobDeleted epoch (pooled_blob_id pooled_blob) (pooled_object_id pooled_blob)
        (bool_decide (is_Some (pooled_certified_epoch pooled_blob))) (storage_pool_id pooled_blob)].

(** ** Certification of event blobs *)

Record EventBlobAttestation := mk_attestation {
  checkpoint_sequence_num : Z;
  attestation_epoch : Z;
}.

Record EventBlob := mk_event_blob {
  event_blob_id : Z;
  ending_checkpoint_sequence_number : Z;
}.

#[export] Instance EventBlob_eq_dec : EqDecision EventBlob.
Proof. solve_decision. Defined.

Record EventBlobCertificationState := mk_certification_state {
  latest_certified_blob : option EventBlob;
  aggregate_weight_per_blob : list (EventBlob * Z);
}.

Definition create_with_empty_state : EventBlobCertificationState := mk_certification_state None [].

Definition get_latest_certified_checkpoint_sequence_number (self : EventBlobCertificationState) : option Z :=
  ending_checkpoint_sequence_number <$> latest_certified_blob self.

Definition is_blob_already_certified (self : EventBlobCertificationState) (sequence_num : Z) : bool :=
  match get_latest_certified_checkpoint_sequence_number self with
  | Some latest => sequence_num <=? latest
  | None => false
  end.

Definition update_latest_certified_event_blob (self : EventBlobCertificationState) (sequence_num blob_id : Z) :
    result EventBlobCertificationState :=
  match get_latest_certified_checkpoint_sequence_number self with
  | Some latest => ensure (latest <? sequence_num) EInvalidSequenceNumber
  | None => Ok tt
  end;;
  Ok (mk_certification_state (Some (mk_event_blob blob_id sequence_num)) (aggregate_weight_per_blob self)).

Definition tracked (self : EventBlobCertificationState) (b : EventBlob) : option nat :=
  find_index (fun e => bool_decide (fst e = b)) (aggregate_weight_per_blob self).

Definition start_tracking_blob (self : EventBlobCertificationState) (blob_id sequence_num : Z) : EventBlobCertificationState :=
  let b := mk_event_blob blob_id sequence_num in
  if bool_decide (is_Some (tracked self b)) then self
  else mk_certification_state (latest_certified_blob self) (aggregate_weight_per_blob self ++ [(b, 0)]).

Definition update_aggregate_weight (self : EventBlobCertificationState) (blob_id sequence_num weight : Z) :
    result (EventBlobCertificationState * Z) :=
  i ← expect (tracked self (mk_event_blob blob_id sequence_num));
  e ← index (aggregate_weight_per_blob self) i;
  w ← move_arith 16 (snd e + weight);
  Ok (mk_certification_state (latest_certified_blob self) (<[i := (fst e, w)]> (aggregate_weight_per_blob self)), w).

Definition certification_reset (self : EventBlobCertificationState) : EventBlobCertificationState :=
  mk_certification_state (latest_certified_blob self) [].
