(* ===== verification/SystemState.v ===== *)
(** * The state of the system contract

    Models contracts/walrus/sources/system/system_state_inner.move: reservations
    of storage and their payment, blobs and storage pools, certification of event
    blobs, deny lists, and the change of epochs with the distribution of rewards.
    A payment is the value of the coin, and what is left of it is returned. *)

From S2P Require Import Prelude Redstuff Merkle MoveStd StorageAccounting Certificates SystemObjects.

Definition MAX_MAX_EPOCHS_AHEAD : Z := 1000.
Definition BYTES_PER_UNIT_SIZE : Z := 1024 * 1024.

(** The fields of [StorageNodeCap] that belong to the system contract. *)
Record SystemCap := mk_system_cap {
  cap_node_id : ID;
  last_event_blob_attestation : option EventBlobAttestation;
  cap_deny_list_root : Z;
  cap_deny_list_sequence : Z;
  cap_deny_list_size : Z;
}.

Section system.
Context `{Bls12381} `{HashFunction}.

Record SystemStateInnerV1 := mk_system {
  committee : BlsCommittee;
  total_capacity_size : Z;
  used_capacity_size : Z;
  storage_price_per_unit_size : Z;
  write_price_per_unit_size : Z;
  future_accounting : FutureAccountingRingBuffer;
  event_blob_certification_state : EventBlobCertificationState;
  deny_list_sizes : VecMap Z;
}.

Implicit Types self : SystemStateInnerV1.

Definition set_accounting (r : FutureAccountingRingBuffer) self : SystemStateInnerV1 :=
  mk_system (committee self) (total_capacity_size self) (used_capacity_size self) (storage_price_per_unit_size self)
    (write_price_per_unit_size self) r (event_blob_certification_state self) (deny_list_sizes self).
Definition set_used_capacity (used : Z) self : SystemStateInnerV1 :=
  mk_system (committee self) (total_capacity_size self) used (storage_price_per_unit_size self)
    (write_price_per_unit_size self) (future_accounting self) (event_blob_certification_state self) (deny_list_sizes self).
Definition set_event_blobs (st : EventBlobCertificationState) self : SystemStateInnerV1 :=
  mk_system (committee self) (total_capacity_size self) (used_capacity_size self) (storage_price_per_unit_size self)
    (write_price_per_unit_size self) (future_accounting self) st (deny_list_sizes self).
Definition set_deny_list_sizes (m : VecMap Z) self : SystemStateInnerV1 :=
  mk_system (committee self) (total_capacity_size self) (used_capacity_size self) (storage_price_per_unit_size self)
    (write_price_per_unit_size self) (future_accounting self) (event_blob_certification_state self) m.

Definition system_epoch self : Z := epoch (committee self).
Definition system_n_shards self : Z := n_shards (committee self).
Definition max_epochs_ahead self : Z := ring_length (future_accounting self).

Definition create_empty (max_epochs_ahead : Z) : result SystemStateInnerV1 :=
  c ← new_bls_committee 0 [];
  ensure (max_epochs_ahead <=? MAX_MAX_EPOCHS_AHEAD) EInvalidMaxEpochsAhead;;
  Ok (mk_system c 0 0 0 0 (ring_new max_epochs_ahead) create_with_empty_state []).

Definition set_storage_price (price : Z) self : SystemStateInnerV1 :=
  mk_system (committee self) (total_capacity_size self) (used_capacity_size self) price
    (write_price_per_unit_size self) (future_accounting self) (event_blob_certification_state self) (deny_list_sizes self).
Definition set_write_price (price : Z) self : SystemStateInnerV1 :=
  mk_system (committee self) (total_capacity_size self) (used_capacity_size self) (storage_price_per_unit_size self)
    price (future_accounting self) (event_blob_certification_state self) (deny_list_sizes self).

(** ** Change of epochs *)

(** What a node stored, weighted by its shards: its deny list does not count. *)
Definition stored_weighted (deny_list_sizes : VecMap Z) (old_epoch_used_capacity : Z) (node : ID * Z) : result Z :=
  let deny_list_size := Z.min (default 0 (try_get (fst node) deny_list_sizes)) old_epoch_used_capacity in
  stored ← move_arith 64 (old_epoch_used_capacity - deny_list_size);
  move_arith 128 (snd node * stored).

(** Splits the reward of a node off the rewards that are left. *)
Definition split_reward (total_rewards_value total_stored : Z) (s : Z * list Z) (stored : Z) : result (Z * list Z) :=
  p ← move_arith 128 (stored * total_rewards_value);
  v ← move_div p total_stored;
  v ← move_arith 64 v;
  '(reward, rest) ← balance_split (fst s) v;
  Ok (rest, snd s ++ [reward]).

Definition advance_epoch self (new_committee : BlsCommittee) (capacity : Z) : result (SystemStateInnerV1 * VecMap Z) :=
  let old_epoch := system_epoch self in
  new_epoch ← move_arith 32 (old_epoch + 1);
  ensure (epoch new_committee =? new_epoch) EIncorrectCommittee;;
  '(accounts_old_epoch, ring) ← ring_pop_expand (future_accounting self);
  ensure (accounting_epoch accounts_old_epoch =? old_epoch) EInvalidAccountingEpoch;;
  first ← ring_lookup ring 0;
  let used := used_capacity first in
  let total_rewards := rewards_to_distribute accounts_old_epoch in
  nodes ← to_vec_map (committee self);
  stored_vec ← mapM_outcome (stored_weighted (deny_list_sizes self) (used_capacity accounts_old_epoch)) nodes;
  total_stored ← move_sum 128 stored_vec;
  let total_stored := Z.max total_stored 1 in
  '(leftover, reward_values) ← foldM (split_reward total_rewards total_stored) (total_rewards, []) stored_vec;
  '(ring, _) ← ring_lookup_mut ring 0 (join_rewards leftover);
  rewards ← from_keys_values nodes.*1 reward_values;
  Ok (mk_system new_committee (Z.max capacity used) used (storage_price_per_unit_size self) (write_price_per_unit_size self)
        ring (certification_reset (event_blob_certification_state self)) (deny_list_sizes self), rewards).

Definition extract_burn_balance self : result (SystemStateInnerV1 * Z) :=
  '(burnt, ring) ← ring_extract_burn_balance (future_accounting self);
  Ok (set_accounting ring self, burnt).

(** ** Storage *)

Definition storage_units_from_size (size : Z) : result Z := move_div_ceil size BYTES_PER_UNIT_SIZE.

Definition write_price self (write_size : Z) : result Z :=
  units ← storage_units_from_size write_size;
  move_arith 64 (write_price_per_unit_size self * units).

(** One iteration of [process_storage_payments]. *)
Definition pay_epoch (period_payment_due : Z) (s : SystemStateInnerV1 * Z) (i : Z) : result (SystemStateInnerV1 * Z) :=
  let '(self, payment) := s in
  '(epoch_payment, payment) ← balance_split payment period_payment_due;
  '(ring, _) ← ring_lookup_mut (future_accounting self) i (join_rewards epoch_payment);
  Ok (set_accounting ring self, payment).

Definition process_storage_payments self (storage_size start_offset end_offset payment : Z) : result (SystemStateInnerV1 * Z) :=
  storage_units ← storage_units_from_size storage_size;
  period_payment_due ← move_arith 64 (storage_price_per_unit_size self * storage_units);
  range_do start_offset end_offset (pay_epoch period_payment_due) (self, payment).

(** One iteration of the loops that account for used capacity. *)
Definition account_epoch (check_capacity : bool) (amount : Z) self (i : Z) : result SystemStateInnerV1 :=
  '(ring, used) ← ring_lookup_mut (future_accounting self) i (fun a => increase_used_capacity a amount);
  let self := set_accounting ring self in
  let self := if i =? 0 then set_used_capacity used self else self in
  ensure (negb check_capacity || (used <=? total_capacity_size self)) EStorageExceeded;;
  Ok self.

Definition account_capacity self (start_epoch_offset end_epoch_offset encoded_capacity_bytes : Z) : result SystemStateInnerV1 :=
  range_do start_epoch_offset end_epoch_offset (account_epoch true encoded_capacity_bytes) self.

Definition reserve_space_without_payment self (storage_amount start_epoch_offset end_epoch_offset : Z) (check_capacity : bool) :
    result (SystemStateInnerV1 * Storage) :=
  d ← move_arith 32 (end_epoch_offset - start_epoch_offset);
  ensure (0 <? d) EInvalidEpochsAhead;;
  ensure (end_epoch_offset <=? max_epochs_ahead self) EInvalidEpochsAhead;;
  ensure (0 <? storage_amount) EInvalidResourceSize;;
  self ← range_do start_epoch_offset end_epoch_offset (account_epoch check_capacity storage_amount) self;
  start_epoch ← move_arith 32 (system_epoch self + start_epoch_offset);
  end_epoch ← move_arith 32 (system_epoch self + end_epoch_offset);
  s ← create_storage start_epoch end_epoch storage_amount;
  Ok (self, s).

Definition reserve_space_for_epochs self (storage_amount start_epoch end_epoch payment : Z) :
    result (SystemStateInnerV1 * Z * Storage) :=
  let current_epoch := system_epoch self in
  let start_epoch := Z.max start_epoch current_epoch in
  start_offset ← move_arith 32 (start_epoch - current_epoch);
  ensure (start_epoch <? end_epoch) EInvalidEpochsAhead;;
  end_offset ← move_arith 32 (end_epoch - current_epoch);
  ensure (end_offset <=? max_epochs_ahead self) EInvalidEpochsAhead;;
  '(self, payment) ← process_storage_payments self storage_amount start_offset end_offset payment;
  '(self, s) ← reserve_space_without_payment self storage_amount start_offset end_offset true;
  Ok (self, payment, s).

Definition reserve_space self (storage_amount epochs_ahead payment : Z) : result (SystemStateInnerV1 * Z * Storage) :=
  ensure (0 <? epochs_ahead) EInvalidEpochsAhead;;
  ensure (epochs_ahead <=? max_epochs_ahead self) EInvalidEpochsAhead;;
  end_epoch ← move_arith 32 (system_epoch self + epochs_ahead);
  reserve_space_for_epochs self storage_amount (system_epoch self) end_epoch payment.

(** [self.future_accounting.ring_lookup_mut(i).rewards_balance().join(balance)]. *)
Definition add_rewards self (i balance : Z) : result SystemStateInnerV1 :=
  '(ring, _) ← ring_lookup_mut (future_accounting self) i (join_rewards balance);
  Ok (set_accounting ring self).

Definition pay_write_price self (encoded_size payment : Z) : result (SystemStateInnerV1 * Z) :=
  price ← write_price self encoded_size;
  '(paid, payment) ← balance_split payment price;
  self ← add_rewards self 0 paid;
  Ok (self, payment).

Definition add_subsidy self (subsidy epochs_ahead : Z) : result SystemStateInnerV1 :=
  ensure (0 <? epochs_ahead) EInvalidEpochsAhead;;
  ensure (epochs_ahead <=? max_epochs_ahead self) EInvalidEpochsAhead;;
  reward_per_epoch ← move_div subsidy epochs_ahead;
  '(self, rest) ← range_do 0 epochs_ahead (fun s i =>
    '(paid, rest) ← balance_split (snd s) reward_per_epoch;
    self ← add_rewards (fst s) i paid;
    Ok (self, rest)) (self, subsidy);
  add_rewards self 0 rest.

Definition add_per_epoch_subsidies self (subsidies : list Z) : result SystemStateInnerV1 :=
  ensure (len subsidies <=? max_epochs_ahead self) EInvalidEpochsAhead;;
  '(self, _) ← foldM (fun s subsidy =>
    self ← add_rewards (fst s) (snd s) subsidy;
    i ← move_arith 32 (snd s + 1);
    Ok (self, i)) (self, 0) subsidies;
  Ok self.

(** ** Blobs *)

Definition register_blob self (id : ID) (storage : Storage) (blob_id root_hash size encoding_type : Z) (deletable : bool)
    (payment : Z) : result (SystemStateInnerV1 * Z * Blob * list SystemEvent) :=
  '(blob, events) ← blob_new id storage blob_id root_hash size encoding_type deletable (system_epoch self) (system_n_shards self);
  encoded_size ← move_encoded_blob_length size encoding_type (system_n_shards self);
  '(self, payment) ← pay_write_price self encoded_size payment;
  Ok (self, payment, blob, events).

Definition certify_blob self (blob : Blob) (signature signers_bitmap message : list byte) : result (Blob * list SystemEvent) :=
  certified_msg ← verify_quorum_in_epoch (committee self) signature signers_bitmap message;
  ensure (cert_epoch certified_msg =? system_epoch self) EInvalidIdEpoch;;
  m ← certify_blob_message certified_msg;
  certify_with_certified_msg blob (system_epoch self) m.

Definition delete_blob self (blob : Blob) : result (Storage * list SystemEvent) := blob_delete blob (system_epoch self).

Definition extend_blob_with_resource self (blob : Blob) (extension : Storage) : result (Blob * list SystemEvent) :=
  extend_with_resource blob extension (system_epoch self).

Definition extend_blob self (blob : Blob) (extended_epochs payment : Z) :
    result (SystemStateInnerV1 * Z * Blob * list SystemEvent) :=
  assert_certified_not_expired blob (system_epoch self);;
  start_offset ← move_arith 32 (end_epoch (storage blob) - system_epoch self);
  end_offset ← move_arith 32 (start_offset + extended_epochs);
  ensure (0 <? extended_epochs) EInvalidEpochsAhead;;
  ensure (end_offset <=? max_epochs_ahead self) EInvalidEpochsAhead;;
  let size := storage_size (storage blob) in
  '(self, payment) ← process_storage_payments self size start_offset end_offset payment;
  self ← range_do start_offset end_offset (fun self i =>
    '(ring, used) ← ring_lookup_mut (future_accounting self) i (fun a => increase_used_capacity a size);
    ensure (used <=? total_capacity_size self) EStorageExceeded;;
    Ok (set_accounting ring self)) self;
  s ← extend_end_epoch (storage blob) extended_epochs;
  let blob := set_storage s blob in
  events ← emit_certified blob true;
  Ok (self, payment, blob, events).

Definition invalidate_blob_id self (signature members_bitmap message : list byte) : result (Z * list SystemEvent) :=
  certified_message ← verify_one_correct_node_in_epoch (committee self) signature members_bitmap message;
  blob_id ← invalid_blob_id_message certified_message;
  ensure (cert_epoch certified_message =? system_epoch self) EInvalidIdEpoch;;
  Ok (blob_id, [EmitInvalidBlobID (cert_epoch certified_message) blob_id]).

(** ** Event blobs *)

(** A node attests again in an epoch only to a later event blob, and only once the
    last one it attested to is covered by a certified one. *)
Definition check_attestation self (attestation : EventBlobAttestation) (sequence_num : Z) : result unit :=
  let earlier := attestation_epoch attestation <? system_epoch self in
  ensure (earlier || (checkpoint_sequence_num attestation <? sequence_num)) ERepeatedAttestation;;
  match get_latest_certified_checkpoint_sequence_number (event_blob_certification_state self) with
  | Some latest => ensure (earlier || (checkpoint_sequence_num attestation <=? latest)) EIncorrectAttestation
  | None => ensure earlier EIncorrectAttestation
  end.

Definition certify_event_blob self (cap : SystemCap) (blob_id root_hash size encoding_type ending_checkpoint_sequence_num e : Z)
    (id : ID) : result (SystemStateInnerV1 * SystemCap * list SystemEvent) :=
  let seq := ending_checkpoint_sequence_num in
  ensure (contains (committee self) (cap_node_id cap)) ENotCommitteeMember;;
  ensure (e =? system_epoch self) EInvalidIdEpoch;;
  match last_event_blob_attestation cap with Some a => check_attestation self a seq | None => Ok tt end;;
  let cap := mk_system_cap (cap_node_id cap) (Some (mk_attestation seq e)) (cap_deny_list_root cap)
               (cap_deny_list_sequence cap) (cap_deny_list_size cap) in
  if is_blob_already_certified (event_blob_certification_state self) seq then Ok (self, cap, [])
  else
    let st := start_tracking_blob (event_blob_certification_state self) blob_id seq in
    w ← get_member_weight (committee self) (cap_node_id cap);
    '(st, agg_weight) ← update_aggregate_weight st blob_id seq w;
    let self := set_event_blobs st self in
    certified ← is_quorum (committee self) agg_weight;
    if negb certified then Ok (self, cap, [])
    else
      encoded_size ← move_encoded_blob_length size encoding_type (system_n_shards self);
      '(self, storage) ← reserve_space_without_payment self encoded_size 0 (max_epochs_ahead self) false;
      '(blob, events1) ← blob_new id storage blob_id root_hash size encoding_type false (system_epoch self) (system_n_shards self);
      '(_, events2) ← certify_with_certified_msg blob (system_epoch self) (certified_event_blob_message blob_id);
      st ← update_latest_certified_event_blob (event_blob_certification_state self) seq blob_id;
      Ok (set_event_blobs (certification_reset st) self, cap, events1 ++ events2).

(** ** Protocol version and deny lists *)

Definition update_protocol_version self (cap : SystemCap) (signature members_bitmap message : list byte) :
    result (list SystemEvent) :=
  ensure (contains (committee self) (cap_node_id cap)) ENotCommitteeMember;;
  certified_message ← verify_quorum_in_epoch (committee self) signature members_bitmap message;
  m ← protocol_version_message certified_message;
  ensure (cert_epoch certified_message =? system_epoch self) EInvalidIdEpoch;;
  ensure (system_epoch self <=? pv_start_epoch m) EInvalidStartEpoch;;
  Ok [EmitProtocolVersion (cert_epoch certified_message) (pv_start_epoch m) (protocol_version m)].

Definition register_deny_list_update self (cap : SystemCap) (deny_list_root deny_list_sequence : Z) : result (list SystemEvent) :=
  ensure (contains (committee self) (cap_node_id cap)) ENotCommitteeMember;;
  ensure (cap_deny_list_sequence cap <? deny_list_sequence) EIncorrectDenyListSequence;;
  Ok [EmitRegisterDenyListUpdate (system_epoch self) deny_list_root deny_list_sequence (cap_node_id cap)].

Definition update_deny_list self (cap : SystemCap) (signature members_bitmap message : list byte) :
    result (SystemStateInnerV1 * SystemCap * list SystemEvent) :=
  ensure (contains (committee self) (cap_node_id cap)) ENotCommitteeMember;;
  certified_message ← verify_quorum_in_epoch (committee self) signature members_bitmap message;
  m ← deny_list_update_message certified_message;
  ensure (cert_epoch certified_message =? system_epoch self) EInvalidIdEpoch;;
  ensure (storage_node_id m =? cap_node_id cap) EIncorrectDenyListNode;;
  ensure (cap_deny_list_sequence cap <? deny_list_sequence_number m) EIncorrectDenyListSequence;;
  let cap := mk_system_cap (cap_node_id cap) (last_event_blob_attestation cap) (deny_list_root m)
               (deny_list_sequence_number m) (deny_list_size m) in
  sizes ← (match get_idx_opt (storage_node_id m) (deny_list_sizes self) with
           | Some i => vector_set i (storage_node_id m, deny_list_size m) (deny_list_sizes self)
           | None => vec_map_insert (storage_node_id m) (deny_list_size m) (deny_list_sizes self)
           end);
  Ok (set_deny_list_sizes sizes self, cap,
      [EmitDenyListUpdate (system_epoch self) (deny_list_root m) (deny_list_sequence_number m) (cap_node_id cap)]).

Definition delete_deny_listed_blob self (signature members_bitmap message : list byte) : result (list SystemEvent) :=
  certified_message ← verify_one_correct_node_in_epoch (committee self) signature members_bitmap message;
  blob_id ← deny_list_blob_deleted_message certified_message;
  ensure (cert_epoch certified_message =? system_epoch self) EInvalidIdEpoch;;
  Ok [EmitDenyListedBlobDeleted (cert_epoch certified_message) blob_id].

(** ** Storage pools *)

Definition pool_end (pool : StoragePool) : Z := end_epoch (pool_storage pool).

Definition create_storage_pool_with_storage self (storage : Storage) (id : ID) : result (StoragePool * list SystemEvent) :=
  ensure (0 <? storage_size storage) EInvalidResourceSize;;
  ensure (start_epoch storage <=? system_epoch self) EInvalidEpochsAhead;;
  ensure (system_epoch self <? end_epoch storage) EInvalidEpochsAhead;;
  Ok (pool_create id storage,
      [EmitStoragePoolCreated (system_epoch self) id (storage_size storage) (start_epoch storage) (end_epoch storage)]).

Definition create_storage_pool self (reserved_encoded_capacity_bytes epochs_ahead payment : Z) (id : ID) :
    result (SystemStateInnerV1 * Z * StoragePool * list SystemEvent) :=
  '(self, payment, storage) ← reserve_space self reserved_encoded_capacity_bytes epochs_ahead payment;
  '(pool, events) ← create_storage_pool_with_storage self storage id;
  Ok (self, payment, pool, events).

Definition register_pooled_blob self (storage_pool : StoragePool) (id : ID) (blob_id root_hash unencoded_size encoding_type : Z)
    (deletable : bool) (payment : Z) : result (SystemStateInnerV1 * Z * StoragePool * list SystemEvent) :=
  ensure (start_epoch (pool_storage storage_pool) <=? system_epoch self) EInvalidEpochsAhead;;
  ensure (system_epoch self <? pool_end storage_pool) EInvalidEpochsAhead;;
  '(pooled_blob, events) ← new_pooled_blob id (pool_object_id storage_pool) blob_id root_hash unencoded_size encoding_type
                             deletable (system_epoch self);
  encoded_size ← move_encoded_blob_length unencoded_size encoding_type (system_n_shards self);
  storage_pool ← add_blob storage_pool pooled_blob encoded_size;
  '(self, payment) ← pay_write_price self encoded_size payment;
  Ok (self, payment, storage_pool, events).

Definition delete_pooled_blob self (storage_pool : StoragePool) (blob_id : Z) : result (StoragePool * list SystemEvent) :=
  ensure (system_epoch self <? pool_end storage_pool) EInvalidEpochsAhead;;
  '(blob, storage_pool) ← remove_blob storage_pool blob_id (system_n_shards self);
  events ← delete_blob_object blob (system_epoch self);
  Ok (storage_pool, events).

Definition burn_expired_pooled_blob self (storage_pool : StoragePool) (blob_id : Z) : result StoragePool :=
  ensure (pool_end storage_pool <=? system_epoch self) EInvalidEpochsAhead;;
  '(_, storage_pool) ← remove_blob storage_pool blob_id (system_n_shards self);
  Ok storage_pool.

Definition extend_storage_pool self (storage_pool : StoragePool) (extended_epochs payment : Z) :
    result (SystemStateInnerV1 * Z * StoragePool * list SystemEvent) :=
  ensure (0 <? extended_epochs) EInvalidEpochsAhead;;
  ensure (system_epoch self <? pool_end storage_pool) EInvalidEpochsAhead;;
  start_offset ← move_arith 32 (pool_end storage_pool - system_epoch self);
  end_offset ← move_arith 32 (start_offset + extended_epochs);
  ensure (end_offset <=? max_epochs_ahead self) EInvalidEpochsAhead;;
  let reserved := storage_size (pool_storage storage_pool) in
  '(self, payment) ← process_storage_payments self reserved start_offset end_offset payment;
  self ← account_capacity self start_offset end_offset reserved;
  storage_pool ← pool_extend_end_epoch storage_pool extended_epochs;
  Ok (self, payment, storage_pool,
      [EmitStoragePoolExtended (system_epoch self) (pool_object_id storage_pool) (pool_end storage_pool)]).

Definition increase_storage_pool_capacity self (storage_pool : StoragePool) (additional payment : Z) :
    result (SystemStateInnerV1 * Z * StoragePool) :=
  ensure (0 <? additional) EInvalidResourceSize;;
  ensure (system_epoch self <? pool_end storage_pool) EInvalidEpochsAhead;;
  remaining_epochs ← move_arith 32 (pool_end storage_pool - system_epoch self);
  '(self, payment) ← process_storage_payments self additional 0 remaining_epochs payment;
  self ← account_capacity self 0 remaining_epochs additional;
  storage_pool ← increase_reserved_encoded_capacity storage_pool additional;
  Ok (self, payment, storage_pool).

Definition increase_storage_pool_capacity_with_storage self (storage_pool : StoragePool) (storage : Storage) : result StoragePool :=
  ensure (system_epoch self <? pool_end storage_pool) EInvalidEpochsAhead;;
  increase_capacity_with_storage storage_pool storage (system_epoch self).

Definition decrease_storage_pool_capacity_by_size self (storage_pool : StoragePool) (size : Z) :
    result (StoragePool * option Storage) :=
  ensure (system_epoch self <? pool_end storage_pool) EInvalidEpochsAhead;;
  decrease_capacity_by_size storage_pool size.

Definition decrease_storage_pool_unused_capacity_by_percent self (storage_pool : StoragePool) (percent : Z) :
    result (StoragePool * option Storage) :=
  ensure (system_epoch self <? pool_end storage_pool) EInvalidEpochsAhead;;
  decrease_unused_capacity_by_percent storage_pool percent.

Definition certify_pooled_blob self (storage_pool : StoragePool) (blob_id : Z) (signature signers_bitmap message : list byte) :
    result (StoragePool * list SystemEvent) :=
  certified_msg ← verify_quorum_in_epoch (committee self) signature signers_bitmap message;
  ensure (cert_epoch certified_msg =? system_epoch self) EInvalidIdEpoch;;
  m ← certify_blob_message certified_msg;
  pooled_blob ← expect (pool_blobs storage_pool !! blob_id);
  '(pooled_blob, events) ← pooled_certify pooled_blob (system_epoch self) (pool_end storage_pool) m;
  Ok (mk_storage_pool (pool_object_id storage_pool) (pool_storage storage_pool) (used_encoded_bytes storage_pool)
        (blob_count storage_pool) (<[blob_id := pooled_blob]> (pool_blobs storage_pool)), events).

End system.
