(* ===== verification/SystemContract.v ===== *)
(** * Calls of the system contract

    Models the interface of contracts/walrus/sources/system.move on a chain: the
    state of the system contract together with the objects that users own.  A
    [Call] is a transaction that calls one function; [execute] returns the new
    state, the events, and the amount that was paid into the system (negative if
    it was paid out).  A call that aborts changes nothing.  The calls of the
    staking contract are the change of epochs, burning, the setting of prices and
    the registration of nodes. *)

From S2P Require Import Prelude Redstuff Merkle MoveStd StorageAccounting Certificates SystemObjects SystemState.

Section contract.
Context `{Bls12381} `{HashFunction}.

(** Storage that is not part of a blob or pool is referred to by its position;
    [used_ids] are the identifiers of all objects there ever were. *)
Record Chain := mk_chain {
  system : SystemStateInnerV1;
  storages : list Storage;
  blobs : gmap ID Blob;
  pools : gmap ID StoragePool;
  caps : gmap ID SystemCap;
  used_ids : gset ID;
}.

Inductive Call :=
| ReserveSpace (storage_amount epochs_ahead payment : Z)
| ReserveSpaceForEpochs (storage_amount start_epoch end_epoch payment : Z)
| SplitByEpoch (i : nat) (split_epoch : Z)
| SplitBySize (i : nat) (split_size : Z)
| FusePeriods (first second : nat)
| FuseAmount (first second : nat)
| Fuse (first second : nat)
| DestroyStorage (i : nat)
| RegisterBlob (i : nat) (id : ID) (blob_id root_hash size encoding_type : Z) (deletable : bool) (payment : Z)
| CertifyBlob (id : ID) (signature signers_bitmap message : list byte)
| DeleteBlob (id : ID)
| BurnBlob (id : ID)
| ExtendBlobWithResource (id : ID) (i : nat)
| ExtendBlob (id : ID) (extended_epochs payment : Z)
| CreateStoragePool (id : ID) (reserved epochs_ahead payment : Z)
| CreateStoragePoolWithStorage (id : ID) (i : nat)
| RegisterPooledBlob (pool id : ID) (blob_id root_hash size encoding_type : Z) (deletable : bool) (payment : Z)
| DeletePooledBlob (pool : ID) (blob_id : Z)
| BurnExpiredPooledBlob (pool : ID) (blob_id : Z)
| ExtendStoragePool (pool : ID) (extended_epochs payment : Z)
| IncreaseStoragePoolCapacity (pool : ID) (additional payment : Z)
| IncreaseStoragePoolCapacityWithStorage (pool : ID) (i : nat)
| DecreaseStoragePoolCapacityBySize (pool : ID) (size : Z)
| DecreaseStoragePoolUnusedCapacityByPercent (pool : ID) (percent : Z)
| CertifyPooledBlob (pool : ID) (blob_id : Z) (signature signers_bitmap message : list byte)
| DestroyStoragePool (pool : ID)
| CertifyEventBlob (node id : ID) (blob_id root_hash size encoding_type sequence_num e : Z)
| AddSubsidy (subsidy epochs_ahead : Z)
| AddPerEpochSubsidies (subsidies : list Z)
| InvalidateBlobId (signature members_bitmap message : list byte)
| UpdateProtocolVersion (node : ID) (signature members_bitmap message : list byte)
| RegisterDenyListUpdate (node : ID) (root sequence : Z)
| UpdateDenyList (node : ID) (signature members_bitmap message : list byte)
| DeleteDenyListedBlob (signature members_bitmap message : list byte)
| SetStoragePrice (price : Z)
| SetWritePrice (price : Z)
| AdvanceEpoch (new_committee : BlsCommittee) (capacity : Z)
| ExtractBurnBalance
| NewCap (node : ID).

Implicit Types c : Chain.

Definition with_system (s : SystemStateInnerV1) c : Chain := mk_chain s (storages c) (blobs c) (pools c) (caps c) (used_ids c).
Definition with_storages (l : list Storage) c : Chain := mk_chain (system c) l (blobs c) (pools c) (caps c) (used_ids c).
Definition with_blobs (m : gmap ID Blob) c : Chain := mk_chain (system c) (storages c) m (pools c) (caps c) (used_ids c).
Definition with_pools (m : gmap ID StoragePool) c : Chain := mk_chain (system c) (storages c) (blobs c) m (caps c) (used_ids c).
Definition with_cap (node : ID) (cap : SystemCap) c : Chain :=
  mk_chain (system c) (storages c) (blobs c) (pools c) (<[node := cap]> (caps c)) (used_ids c).
Definition with_id (id : ID) c : Chain :=
  mk_chain (system c) (storages c) (blobs c) (pools c) (caps c) ({[id]} ∪ used_ids c).

Definition get_storage c (i : nat) : result Storage := ok_or (storages c !! i) EObjectNotFound.
Definition get_blob c (id : ID) : result Blob := ok_or (blobs c !! id) EObjectNotFound.
Definition get_pool c (id : ID) : result StoragePool := ok_or (pools c !! id) EObjectNotFound.
Definition get_cap c (node : ID) : result SystemCap := ok_or (caps c !! node) EObjectNotFound.

(** Two different storage resources are fused by [f]; the second is consumed. *)
Definition fuse_storages c (first second : nat) (f : Storage -> Storage -> result Storage) : result Chain :=
  ensure (negb (first =? second)%nat) EObjectNotFound;;
  a ← get_storage c first;
  b ← get_storage c second;
  s ← f a b;
  Ok (with_storages (delete second (<[first := s]> (storages c))) c).

Abbreviation receipt := (Chain * list SystemEvent * Z)%type.

(** The calls that deal with storage resources only. *)
Definition execute_storage (call : Call) c : result receipt :=
  match call with
  | ReserveSpace amount epochs_ahead payment =>
    '(s, rest, st) ← reserve_space (system c) amount epochs_ahead payment;
    Ok (with_storages (storages c ++ [st]) (with_system s c), [], payment - rest)
  | ReserveSpaceForEpochs amount start_epoch end_epoch payment =>
    '(s, rest, st) ← reserve_space_for_epochs (system c) amount start_epoch end_epoch payment;
    Ok (with_storages (storages c ++ [st]) (with_system s c), [], payment - rest)
  | SplitByEpoch i split_epoch =>
    st ← get_storage c i;
    '(a, b) ← split_by_epoch st split_epoch;
    Ok (with_storages (<[i := a]> (storages c) ++ [b]) c, [], 0)
  | SplitBySize i split_size =>
    st ← get_storage c i;
    '(a, b) ← split_by_size st split_size;
    Ok (with_storages (<[i := a]> (storages c) ++ [b]) c, [], 0)
  | FusePeriods first second => c ← fuse_storages c first second fuse_periods; Ok (c, [], 0)
  | FuseAmount first second => c ← fuse_storages c first second fuse_amount; Ok (c, [], 0)
  | Fuse first second => c ← fuse_storages c first second fuse; Ok (c, [], 0)
  | DestroyStorage i => _ ← get_storage c i; Ok (with_storages (delete i (storages c)) c, [], 0)
  | _ => Err EObjectNotFound
  end.

(** The calls that deal with blobs. *)
Definition execute_blob (call : Call) c : result receipt :=
  match call with
  | RegisterBlob i id blob_id root_hash size encoding_type deletable payment =>
    st ← get_storage c i;
    '(s, rest, b, events) ← register_blob (system c) id st blob_id root_hash size encoding_type deletable payment;
    Ok (with_blobs (<[id := b]> (blobs c)) (with_id id (with_storages (delete i (storages c)) (with_system s c))), events,
        payment - rest)
  | CertifyBlob id signature signers_bitmap message =>
    b ← get_blob c id;
    '(b, events) ← certify_blob (system c) b signature signers_bitmap message;
    Ok (with_blobs (<[id := b]> (blobs c)) c, events, 0)
  | DeleteBlob id =>
    b ← get_blob c id;
    '(st, events) ← delete_blob (system c) b;
    Ok (with_storages (storages c ++ [st]) (with_blobs (delete id (blobs c)) c), events, 0)
  | BurnBlob id => _ ← get_blob c id; Ok (with_blobs (delete id (blobs c)) c, [], 0)
  | ExtendBlobWithResource id i =>
    b ← get_blob c id;
    st ← get_storage c i;
    '(b, events) ← extend_blob_with_resource (system c) b st;
    Ok (with_blobs (<[id := b]> (blobs c)) (with_storages (delete i (storages c)) c), events, 0)
  | ExtendBlob id extended_epochs payment =>
    b ← get_blob c id;
    '(s, rest, b, events) ← extend_blob (system c) b extended_epochs payment;
    Ok (with_blobs (<[id := b]> (blobs c)) (with_system s c), events, payment - rest)
  | _ => Err EObjectNotFound
  end.

(** The calls that deal with storage pools. *)
Definition execute_pool (call : Call) c : result receipt :=
  match call with
  | CreateStoragePool id reserved epochs_ahead payment =>
    '(s, rest, p, events) ← create_storage_pool (system c) reserved epochs_ahead payment id;
    Ok (with_pools (<[id := p]> (pools c)) (with_id id (with_system s c)), events, payment - rest)
  | CreateStoragePoolWithStorage id i =>
    st ← get_storage c i;
    '(p, events) ← create_storage_pool_with_storage (system c) st id;
    Ok (with_pools (<[id := p]> (pools c)) (with_id id (with_storages (delete i (storages c)) c)), events, 0)
  | RegisterPooledBlob pool id blob_id root_hash size encoding_type deletable payment =>
    p ← get_pool c pool;
    '(s, rest, p, events) ← register_pooled_blob (system c) p id blob_id root_hash size encoding_type deletable payment;
    Ok (with_pools (<[pool := p]> (pools c)) (with_id id (with_system s c)), events, payment - rest)
  | DeletePooledBlob pool blob_id =>
    p ← get_pool c pool;
    '(p, events) ← delete_pooled_blob (system c) p blob_id;
    Ok (with_pools (<[pool := p]> (pools c)) c, events, 0)
  | BurnExpiredPooledBlob pool blob_id =>
    p ← get_pool c pool;
    p ← burn_expired_pooled_blob (system c) p blob_id;
    Ok (with_pools (<[pool := p]> (pools c)) c, [], 0)
  | ExtendStoragePool pool extended_epochs payment =>
    p ← get_pool c pool;
    '(s, rest, p, events) ← extend_storage_pool (system c) p extended_epochs payment;
    Ok (with_pools (<[pool := p]> (pools c)) (with_system s c), events, payment - rest)
  | IncreaseStoragePoolCapacity pool additional payment =>
    p ← get_pool c pool;
    '(s, rest, p) ← increase_storage_pool_capacity (system c) p additional payment;
    Ok (with_pools (<[pool := p]> (pools c)) (with_system s c), [], payment - rest)
  | IncreaseStoragePoolCapacityWithStorage pool i =>
    p ← get_pool c pool;
    st ← get_storage c i;
    p ← increase_storage_pool_capacity_with_storage (system c) p st;
    Ok (with_pools (<[pool := p]> (pools c)) (with_storages (delete i (storages c)) c), [], 0)
  | DecreaseStoragePoolCapacityBySize pool size =>
    p ← get_pool c pool;
    '(p, st) ← decrease_storage_pool_capacity_by_size (system c) p size;
    st ← ok_or st EZeroExtractSize;
    Ok (with_pools (<[pool := p]> (pools c)) (with_storages (storages c ++ [st]) c), [], 0)
  | DecreaseStoragePoolUnusedCapacityByPercent pool percent =>
    p ← get_pool c pool;
    '(p, st) ← decrease_storage_pool_unused_capacity_by_percent (system c) p percent;
    st ← ok_or st EZeroExtractSize;
    Ok (with_pools (<[pool := p]> (pools c)) (with_storages (storages c ++ [st]) c), [], 0)
  | CertifyPooledBlob pool blob_id signature signers_bitmap message =>
    p ← get_pool c pool;
    '(p, events) ← certify_pooled_blob (system c) p blob_id signature signers_bitmap message;
    Ok (with_pools (<[pool := p]> (pools c)) c, events, 0)
  | DestroyStoragePool pool =>
    p ← get_pool c pool;
    st ← pool_destroy p;
    Ok (with_storages (storages c ++ [st]) (with_pools (delete pool (pools c)) c), [], 0)
  | _ => Err EObjectNotFound
  end.

(** The other calls: of nodes, of donors, and of the staking contract, which
    announces the epoch it starts. *)
Definition execute_system (call : Call) c : result receipt :=
  match call with
  | CertifyEventBlob node id blob_id root_hash size encoding_type sequence_num e =>
    cap ← get_cap c node;
    '(s, cap, events) ← certify_event_blob (system c) cap blob_id root_hash size encoding_type sequence_num e id;
    Ok (with_cap node cap (with_id id (with_system s c)), events, 0)
  | AddSubsidy subsidy epochs_ahead => s ← add_subsidy (system c) subsidy epochs_ahead; Ok (with_system s c, [], subsidy)
  | AddPerEpochSubsidies subsidies => s ← add_per_epoch_subsidies (system c) subsidies; Ok (with_system s c, [], zsum subsidies)
  | InvalidateBlobId signature members_bitmap message =>
    '(_, events) ← invalidate_blob_id (system c) signature members_bitmap message; Ok (c, events, 0)
  | UpdateProtocolVersion node signature members_bitmap message =>
    cap ← get_cap c node;
    events ← update_protocol_version (system c) cap signature members_bitmap message; Ok (c, events, 0)
  | RegisterDenyListUpdate node root sequence =>
    cap ← get_cap c node;
    events ← register_deny_list_update (system c) cap root sequence; Ok (c, events, 0)
  | UpdateDenyList node signature members_bitmap message =>
    cap ← get_cap c node;
    '(s, cap, events) ← update_deny_list (system c) cap signature members_bitmap message;
    Ok (with_cap node cap (with_system s c), events, 0)
  | DeleteDenyListedBlob signature members_bitmap message =>
    events ← delete_deny_listed_blob (system c) signature members_bitmap message; Ok (c, events, 0)
  | SetStoragePrice price => Ok (with_system (set_storage_price price (system c)) c, [], 0)
  | SetWritePrice price => Ok (with_system (set_write_price price (system c)) c, [], 0)
  | AdvanceEpoch new_committee capacity =>
    '(s, rewards) ← advance_epoch (system c) new_committee capacity;
    Ok (with_system s c, [EmitEpochChangeStart (epoch new_committee)], - zsum rewards.*2)
  | NewCap node =>
    ensure (bool_decide (caps c !! node = None)) EObjectNotFound;;
    Ok (with_cap node (mk_system_cap node None 0 0 0) c, [], 0)
  | ExtractBurnBalance => '(s, burnt) ← extract_burn_balance (system c); Ok (with_system s c, [], - burnt)
  | _ => Err EObjectNotFound
  end.

Definition execute (call : Call) c : result receipt :=
  match call with
  | ReserveSpace _ _ _ | ReserveSpaceForEpochs _ _ _ _ | SplitByEpoch _ _ | SplitBySize _ _ | FusePeriods _ _
  | FuseAmount _ _ | Fuse _ _ | DestroyStorage _ => execute_storage call c
  | RegisterBlob _ _ _ _ _ _ _ _ | CertifyBlob _ _ _ _ | DeleteBlob _ | BurnBlob _ | ExtendBlobWithResource _ _
  | ExtendBlob _ _ _ => execute_blob call c
  | CreateStoragePool _ _ _ _ | CreateStoragePoolWithStorage _ _ | RegisterPooledBlob _ _ _ _ _ _ _ _
  | DeletePooledBlob _ _ | BurnExpiredPooledBlob _ _ | ExtendStoragePool _ _ _ | IncreaseStoragePoolCapacity _ _ _
  | IncreaseStoragePoolCapacityWithStorage _ _ | DecreaseStoragePoolCapacityBySize _ _
  | DecreaseStoragePoolUnusedCapacityByPercent _ _ | CertifyPooledBlob _ _ _ _ _ | DestroyStoragePool _ =>
    execute_pool call c
  | _ => execute_system call c
  end.

End contract.
