(* ===== verification/SystemAccounting.v ===== *)
(** * Storage and payments of the system contract

    What the operations of [SystemState] do to the accounts: [system_added s s'
    used paid] says that [s'] has [used i] more bytes reserved in the [i]-th epoch
    from now on, and that [paid] has been paid in.  [system_ok] is the invariant
    of the state. *)

From S2P Require Import Prelude Redstuff Merkle MoveStd StorageAccounting Certificates SystemObjects SystemState.

Section accounting.
Context `{Bls12381} `{HashFunction}.
Implicit Types s : SystemStateInnerV1.

Abbreviation ring s := (future_accounting s).

(** The account of the [i]-th epoch from now on is that of this epoch, and the used
    capacity of the current epoch is in the account and in the state. *)
Record system_ok s : Prop := {
  ok_ring : ring_wf (ring s);
  ok_epochs : window_epochs (system_epoch s) (window (ring s));
  ok_used : used_capacity <$> head (window (ring s)) = Some (used_capacity_size s);
  ok_epoch : 0 <= system_epoch s;
}.

Record system_added s s' (used : Z -> Z) (paid : Z) : Prop := {
  sa_committee : committee s' = committee s;
  sa_capacity : total_capacity_size s' = total_capacity_size s;
  sa_wf : ring_wf (ring s');
  sa_length : max_epochs_ahead s' = max_epochs_ahead s;
  sa_used_size : used_capacity_size s' = used_capacity_size s + used 0;
  sa_window : forall i a, 0 <= i -> window (ring s) !! Z.to_nat i = Some a -> exists a', window (ring s') !! Z.to_nat i = Some a' /\
    accounting_epoch a' = accounting_epoch a /\ used_capacity a' = used_capacity a + used i;
  sa_treasury : treasury (ring s') = treasury (ring s) + paid;
}.

(** Storage of [amount] bytes from the epoch [start] to [stop]. *)
Definition within (start stop amount : Z) : Z -> Z := fun i => if (start <=? i) && (i <? stop) then amount else 0.

Lemma system_added_refl s : ring_wf (ring s) -> system_added s s nothing 0.
Proof.
  intros Hwf. constructor; try done; [unfold nothing; lia| |lia]. intros i a _ Ha. exists a. unfold nothing. split_and!; [done|done|lia].
Qed.

Lemma system_added_trans s s1 s2 u1 p1 u2 p2 : system_added s s1 u1 p1 -> system_added s1 s2 u2 p2 ->
  system_added s s2 (fun i => u1 i + u2 i) (p1 + p2).
Proof.
  intros H1 H2. constructor; [etrans; [apply H2|apply H1]|etrans; [apply H2|apply H1]|apply H2|etrans; [apply H2|apply H1]| | |].
  - rewrite (sa_used_size _ _ _ _ H2), (sa_used_size _ _ _ _ H1). lia.
  - intros i a Hi Ha. destruct (sa_window _ _ _ _ H1 i a Hi Ha) as (a1 & Ha1 & He1 & Hu1).
    destruct (sa_window _ _ _ _ H2 i a1 Hi Ha1) as (a2 & Ha2 & He2 & Hu2). exists a2. split_and!; [done|congruence|lia].
  - rewrite (sa_treasury _ _ _ _ H2), (sa_treasury _ _ _ _ H1). lia.
Qed.

Lemma system_added_ext s s' u u' p p' : (forall i, 0 <= i -> u i = u' i) -> p = p' -> system_added s s' u p -> system_added s s' u' p'.
Proof.
  intros Hu -> [Hc Ht Hw Hl Hus Hwin Htr]. constructor; try done; [by rewrite <- Hu by lia|]. intros i a Hi Ha. rewrite <- Hu by done. by apply Hwin.
Qed.

(** The other fields of the state do not matter. *)
Lemma system_added_fields s s' s2 u p : committee s2 = committee s' -> total_capacity_size s2 = total_capacity_size s' ->
  used_capacity_size s2 = used_capacity_size s' -> ring s2 = ring s' -> system_added s s' u p -> system_added s s2 u p.
Proof.
  intros Hc Ht Hu Hr [H1 H2 H3 H4 H5 H6 H7]. unfold max_epochs_ahead in *. constructor; unfold max_epochs_ahead; congruence || (rewrite Hr; done).
Qed.

Lemma rewards_added s r' i x : ring_wf (ring s) -> 0 <= i < ring_length (ring s) -> ring_added (ring s) r' (at_epoch i 0) (at_epoch i x) ->
  system_added s (set_accounting r' s) nothing x.
Proof.
  intros Hwf Hi Ha. constructor; cbn; try done; [apply Ha|apply Ha|unfold nothing; lia| |by apply (treasury_added _ _ (at_epoch i 0) i)].
  intros j a Hj Hwa. rewrite (added_accounts _ _ _ _ Ha j a Hj Hwa). eexists. split_and!; [done|done|]. cbn. unfold at_epoch, nothing. destruct (j =? i); lia.
Qed.

Lemma add_rewards_inv s i b s' : ring_wf (ring s) -> 0 <= i -> add_rewards s i b = Ok s' -> system_added s s' nothing b.
Proof.
  unfold add_rewards. intros Hwf Hi Hr. call_inv.
  destruct (ring_lookup_mut_added (ring s) i _ _ _ 0 b Hwf Hi (join_rewards_spec b) ltac:(eassumption)) as [Hlt Ha].
  by apply (rewards_added s _ i).
Qed.

Lemma pay_epoch_inv due s p i s' p' : ring_wf (ring s) -> 0 <= i -> pay_epoch due (s, p) i = Ok (s', p') ->
  system_added s s' nothing (p - p').
Proof.
  unfold pay_epoch, balance_split. intros Hwf Hi Hr. call_inv.
  match goal with H : ring_lookup_mut _ _ (join_rewards ?d) = Ok _ |- system_added _ _ _ ?x =>
    destruct (ring_lookup_mut_added (ring s) i _ _ _ 0 d Hwf Hi (join_rewards_spec d) H) as [Hlt Ha]; replace x with d by lia end.
  by apply (rewards_added s _ i).
Qed.

Lemma process_storage_payments_inv s size start stop p s' p' : ring_wf (ring s) -> 0 <= start <= stop ->
  process_storage_payments s size start stop p = Ok (s', p') -> system_added s s' nothing (p - p').
Proof.
  unfold process_storage_payments. intros Hwf Hs Hr. call_inv.
  match goal with H : range_do _ _ _ _ = _ |- _ =>
    eapply (range_do_inv (fun _ x => system_added s x.1 nothing (p - x.2))) in H; [exact H|lia| |] end.
  - apply (system_added_ext _ _ nothing nothing 0); [done|cbn; lia|by apply system_added_refl].
  - intros i [s1 p1] [s2 p2] Hi Hs1 Hs2. cbn in *.
    apply (system_added_ext _ _ (fun i => nothing i + nothing i) _ ((p - p1) + (p1 - p2))); [done|lia|].
    eapply system_added_trans; [exact Hs1|]. by apply (pay_epoch_inv _ s1 p1 i s2 p2 (sa_wf _ _ _ _ Hs1) ltac:(lia) Hs2).
Qed.

(** One more epoch of a reservation. *)
Lemma space_added s r' i n : ring_wf (ring s) -> 0 <= i < ring_length (ring s) -> ring_added (ring s) r' (at_epoch i n) (at_epoch i 0) ->
  forall s', committee s' = committee s -> total_capacity_size s' = total_capacity_size s ->
  used_capacity_size s' = used_capacity_size s + at_epoch i n 0 -> ring s' = r' -> system_added s s' (at_epoch i n) 0.
Proof.
  intros Hwf Hi Ha s' Hc Ht Hu Hr. constructor; try done; rewrite ?Hr; [apply Ha|by unfold max_epochs_ahead; rewrite Hr; apply Ha| |].
  - intros j a Hj Hwa. rewrite (added_accounts _ _ _ _ Ha j a Hj Hwa). by eexists.
  - rewrite (treasury_added _ _ (at_epoch i n) i 0 Hwf Hi Ha). done.
Qed.

Lemma head_lookup {A} (l : list A) : head l = l !! 0%nat.
Proof. by destruct l. Qed.

(** The state keeps the used capacity of the current epoch. *)
Lemma system_ok_added s s' u p : system_ok s -> system_added s s' u p -> system_ok s'.
Proof.
  intros [Hwf He Hu Hnn] Ha. pose proof (wf_length _ Hwf).
  assert (system_epoch s' = system_epoch s) as Hep by (unfold system_epoch; by rewrite (sa_committee _ _ _ _ Ha)).
  constructor; [apply Ha| | |by rewrite Hep].
  - intros i a' Ha'. rewrite Hep. assert (i < length (window (ring s)))%nat as Hi.
    { apply lookup_lt_Some in Ha'. rewrite window_length in *. pose proof (wf_buffer _ Hwf). pose proof (wf_buffer _ (sa_wf _ _ _ _ Ha)).
      pose proof (sa_length _ _ _ _ Ha). unfold max_epochs_ahead in *. lia. }
    destruct (lookup_lt_is_Some_2 _ _ Hi) as [a Hai]. destruct (sa_window _ _ _ _ Ha (Z.of_nat i) a ltac:(lia)) as (b & Hb & Heq & _).
    { by rewrite Nat2Z.id. }
    rewrite Nat2Z.id, Ha' in Hb. injection Hb as <-. rewrite Heq. by apply He.
  - rewrite head_lookup in *. destruct (window (ring s) !! 0%nat) as [a|] eqn:Hw; [|done]. injection Hu as Hu.
    destruct (sa_window _ _ _ _ Ha 0 a ltac:(lia) Hw) as (a' & Hw' & _ & Hu'). change (Z.to_nat 0) with 0%nat in Hw'. rewrite Hw'. cbn.
    by rewrite (sa_used_size _ _ _ _ Ha), Hu', Hu.
Qed.

Lemma account_epoch_inv check n s i s' : system_ok s -> 0 <= i -> account_epoch check n s i = Ok s' ->
  system_added s s' (at_epoch i n) 0 /\
  (check = true -> forall a, window (ring s') !! Z.to_nat i = Some a -> used_capacity a <= total_capacity_size s).
Proof.
  intros Hok Hi Hr. pose proof (ok_ring s Hok) as Hwf. unfold account_epoch in Hr. call_inv.
  match goal with H : ring_lookup_mut _ _ _ = Ok (?r, ?u) |- _ => rename H into Hm; rename r into r'; rename u into used end.
  destruct (ring_lookup_mut_inv _ _ _ _ _ Hwf Hi Hm) as (a & a' & Ha & Hinc & Hw & _ & _).
  destruct (ring_lookup_mut_added _ i _ _ _ n 0 Hwf Hi (increase_used_spec n) Hm) as [Hlt Hadd].
  unfold increase_used_capacity in Hinc. call_inv.
  match goal with H : _ || _ = true |- _ => rename H into Hcheck end.
  set (s' := if i =? 0 then _ else _) in *.
  assert (ring s' = r' /\ committee s' = committee s /\ total_capacity_size s' = total_capacity_size s) as (Hr' & Hc & Ht)
    by (subst s'; by destruct (i =? 0)).
  split.
  - apply (space_added s r'); try done. subst s'. unfold at_epoch. destruct (Z.eqb_spec i 0) as [->|Hne].
    + cbn. pose proof (ok_used s Hok) as Hu. rewrite head_lookup in Hu. change (Z.to_nat 0) with 0%nat in Ha. rewrite Ha in Hu. injection Hu as <-. done.
    + rewrite (proj2 (Z.eqb_neq _ _)) by lia. cbn. lia.
  - intros -> b Hb. rewrite Hr', Hw, list_lookup_insert_eq in Hb by (by apply lookup_lt_Some in Ha). injection Hb as <-. cbn.
    cbn in Hcheck. apply Z.leb_le in Hcheck. by rewrite <- Ht.
Qed.

Lemma within_step start i n j : start <= i -> within start i n j + at_epoch i n j = within start (i + 1) n j.
Proof. intros Hle. unfold within, at_epoch. destruct (Z.eqb_spec j i), (Z.leb_spec start j), (Z.ltb_spec j i), (Z.ltb_spec j (i + 1)); cbn; lia. Qed.

(** All epochs of a period have at most the capacity. *)
Definition within_capacity s (start stop : Z) : Prop :=
  forall j a, start <= j < stop -> window (ring s) !! Z.to_nat j = Some a -> used_capacity a <= total_capacity_size s.

Lemma within_capacity_added s s' start i n p : 0 <= start -> within_capacity s start i -> ring_wf (ring s) -> system_added s s' (at_epoch i n) p ->
  (forall a, window (ring s') !! Z.to_nat i = Some a -> used_capacity a <= total_capacity_size s) -> within_capacity s' start (i + 1).
Proof.
  intros Hs Hc Hwf Ha Hi j a Hj Hw. rewrite (sa_capacity _ _ _ _ Ha). destruct (decide (j = i)) as [->|Hne]; [by apply Hi|].
  assert (j < ring_length (ring s)) as Hlt.
  { destruct (window_at (ring s') j a (sa_wf _ _ _ _ Ha) ltac:(lia) Hw). pose proof (sa_length _ _ _ _ Ha). unfold max_epochs_ahead in *. lia. }
  destruct (window_total (ring s) j Hwf ltac:(lia)) as [b Hb].
  destruct (sa_window _ _ _ _ Ha j b ltac:(lia) Hb) as (b' & Hb' & _ & Hu). rewrite Hw in Hb'. injection Hb' as <-.
  unfold at_epoch in Hu. rewrite (proj2 (Z.eqb_neq _ _)) in Hu by done. rewrite Hu, Z.add_0_r. apply (Hc j); [lia|done].
Qed.

Lemma within_capacity_empty s start : within_capacity s start start.
Proof. intros j a Hj. lia. Qed.

(** A loop that reserves [n] bytes in the epochs of a period. *)
Lemma reserve_loop_inv (f : SystemStateInnerV1 -> Z -> result SystemStateInnerV1) (check : bool) n start stop s s' : system_ok s -> 0 <= start <= stop ->
  (forall s i s', system_ok s -> start <= i -> f s i = Ok s' -> system_added s s' (at_epoch i n) 0 /\
    (check = true -> forall a, window (ring s') !! Z.to_nat i = Some a -> used_capacity a <= total_capacity_size s)) ->
  range_do start stop f s = Ok s' -> system_added s s' (within start stop n) 0 /\ (check = true -> within_capacity s' start stop).
Proof.
  intros Hok Hs Hf Hr.
  eapply (range_do_inv (fun i x => system_added s x (within start i n) 0 /\ (check = true -> within_capacity x start i))) in Hr; [exact Hr|lia| |].
  - split; [|intros _; apply within_capacity_empty]. apply (system_added_ext _ _ nothing _ 0); [|done|apply system_added_refl, Hok].
    intros j _. unfold nothing, within. destruct (Z.leb_spec start j), (Z.ltb_spec j start); cbn; lia.
  - intros i s1 s2 Hi [Ha Hc] Hstep. pose proof (system_ok_added _ _ _ _ Hok Ha) as Hok1.
    destruct (Hf s1 i s2 Hok1 ltac:(lia) Hstep) as [Ha2 Hc2]. split.
    + eapply (system_added_ext _ _ _ _ (0 + 0)); [|done|by eapply system_added_trans]. intros j _. apply within_step. lia.
    + intros Ht. eapply within_capacity_added; [lia|by apply Hc|apply Hok1|exact Ha2|by apply Hc2].
Qed.

Lemma account_range_inv check n start stop s s' : system_ok s -> 0 <= start <= stop ->
  range_do start stop (account_epoch check n) s = Ok s' ->
  system_added s s' (within start stop n) 0 /\ (check = true -> within_capacity s' start stop).
Proof. intros Hok Hs. apply reserve_loop_inv; [done|done|]. intros s1 i s2 Hok1 Hi. apply account_epoch_inv; [done|lia]. Qed.

Lemma reserve_space_without_payment_inv s n start stop check s' st : system_ok s -> 0 <= start ->
  reserve_space_without_payment s n start stop check = Ok (s', st) ->
  0 < n /\ start < stop <= max_epochs_ahead s /\ st = mk_storage (system_epoch s + start) (system_epoch s + stop) n /\
  system_added s s' (within start stop n) 0 /\ (check = true -> within_capacity s' start stop).
Proof.
  unfold reserve_space_without_payment, create_storage. intros Hok Hs Hr. call_inv.
  checked.
  match goal with H : range_do _ _ _ _ = _ |- _ => apply account_range_inv in H as [Ha Hc]; [|done|lia] end.
  assert (system_epoch s' = system_epoch s) as -> by (unfold system_epoch; by rewrite (sa_committee _ _ _ _ Ha)). split_and!; try done; lia.
Qed.

Lemma reserve_space_for_epochs_inv s n start stop payment s' rest st : system_ok s ->
  reserve_space_for_epochs s n start stop payment = Ok (s', rest, st) ->
  let a := Z.max start (system_epoch s) in
  0 < n /\ a < stop <= system_epoch s + max_epochs_ahead s /\ st = mk_storage a stop n /\
  system_added s s' (within (a - system_epoch s) (stop - system_epoch s) n) (payment - rest) /\
  within_capacity s' (a - system_epoch s) (stop - system_epoch s).
Proof.
  unfold reserve_space_for_epochs. intros Hok Hr. call_inv.
  checked.
  match goal with H : process_storage_payments _ _ _ _ _ = _ |- _ => apply process_storage_payments_inv in H as Hp; [|apply Hok|lia] end.
  pose proof (system_ok_added _ _ _ _ Hok Hp) as Hok1.
  match goal with H : reserve_space_without_payment _ _ _ _ _ = _ |- _ => apply reserve_space_without_payment_inv in H as (Hn & Hss & -> & Ha & Hc); [|done|lia] end.
  assert (system_epoch s0 = system_epoch s) as -> by (unfold system_epoch; by rewrite (sa_committee _ _ _ _ Hp)).
  cbv zeta. split_and!; [done|lia|lia|f_equal; lia| |by apply Hc].
  eapply (system_added_ext _ _ _ _ (payment - rest + 0)); [|lia|by eapply system_added_trans]. intros i _. unfold nothing. lia.
Qed.

Lemma reserve_space_inv s n epochs payment s' rest st : system_ok s -> reserve_space s n epochs payment = Ok (s', rest, st) ->
  0 < n /\ 0 < epochs <= max_epochs_ahead s /\ st = mk_storage (system_epoch s) (system_epoch s + epochs) n /\
  system_added s s' (within 0 epochs n) (payment - rest) /\ within_capacity s' 0 epochs.
Proof.
  unfold reserve_space. intros Hok Hr. call_inv.
  checked.
  match goal with H : reserve_space_for_epochs _ _ _ _ _ = _ |- _ => apply reserve_space_for_epochs_inv in H as (Hn & Hb & -> & Ha & Hc); [|done] end.
  rewrite Z.max_id in *. replace (system_epoch s - system_epoch s) with 0 in * by lia.
  replace (system_epoch s + epochs - system_epoch s) with epochs in * by lia. split_and!; try done; lia.
Qed.

Lemma pay_write_price_inv s size payment s' rest : ring_wf (ring s) -> pay_write_price s size payment = Ok (s', rest) ->
  system_added s s' nothing (payment - rest).
Proof.
  unfold pay_write_price, balance_split. intros Hwf Hr. call_inv.
  match goal with H : add_rewards _ _ ?d = _ |- system_added _ _ _ ?x => replace x with d by lia; by apply (add_rewards_inv s 0) end.
Qed.

Lemma register_blob_inv s id st b root size enc del payment s' rest blob events : ring_wf (ring s) ->
  register_blob s id st b root size enc del payment = Ok (s', rest, blob, events) ->
  system_added s s' nothing (payment - rest) /\
  blob_new id st b root size enc del (system_epoch s) (system_n_shards s) = Ok (blob, events).
Proof. unfold register_blob. intros Hwf Hr. call_inv. split; [by eapply pay_write_price_inv|done]. Qed.

Lemma blob_new_inv id st b root size enc del e n blob events : blob_new id st b root size enc del e n = Ok (blob, events) ->
  start_epoch st <= e < end_epoch st /\ blob = mk_blob id e b size enc None st del /\ derive_blob_id root enc size = b /\
  events = [EmitBlobRegistered e b size enc (end_epoch st) del id] /\
  exists n', move_encoded_blob_length (E:=SystemAbort) size enc n = Ok n' /\ n' <= storage_size st.
Proof. unfold blob_new. intros Hr. call_inv. checked. subst. split_and!; eauto; lia. Qed.

Lemma certified_not_expired_inv b e u : assert_certified_not_expired b e = Ok u ->
  exists ce, certified_epoch b = Some ce /\ e < end_epoch (storage b).
Proof. unfold assert_certified_not_expired. intros Hr. call_inv. checked. destruct (certified_epoch b) as [ce|]; [by exists ce|by destruct H1]. Qed.

(** What is the same after a blob has been extended. *)
Definition extended (b b' : Blob) (stop : Z) (events : list SystemEvent) : Prop :=
  exists ce, certified_epoch b = Some ce /\ b' = set_storage (mk_storage (start_epoch (storage b)) stop (storage_size (storage b))) b /\
    events = [EmitBlobCertified ce (blob_id b) stop (deletable b) (blob_object_id b) true].

Lemma extend_blob_inv s b epochs payment s' rest b' events : system_ok s ->
  extend_blob s b epochs payment = Ok (s', rest, b', events) ->
  let stop := end_epoch (storage b) + epochs in
  system_epoch s < end_epoch (storage b) < stop /\ stop <= system_epoch s + max_epochs_ahead s /\
  extended b b' stop events /\
  system_added s s' (within (end_epoch (storage b) - system_epoch s) (stop - system_epoch s) (storage_size (storage b))) (payment - rest) /\
  within_capacity s' (end_epoch (storage b) - system_epoch s) (stop - system_epoch s).
Proof.
  unfold extend_blob, extend_end_epoch, emit_certified. intros Hok Hr. call_inv. checked.
  match goal with H : assert_certified_not_expired _ _ = _ |- _ => apply certified_not_expired_inv in H as (ce & Hce & Hend) end.
  match goal with H : process_storage_payments _ _ _ _ _ = _ |- _ => apply process_storage_payments_inv in H as Hp; [|apply Hok|lia] end.
  pose proof (system_ok_added _ _ _ _ Hok Hp) as Hok1.
  match goal with H : range_do _ _ _ _ = _ |- _ =>
    apply (reserve_loop_inv _ true (storage_size (storage b))) in H as [Ha Hc]; [|done|lia|] end.
  - cbv zeta. split_and!; [lia|lia|lia| | |].
    + exists ce. split_and!; [done|done|]. cbn in *. congruence.
    + replace (end_epoch (storage b) + epochs - system_epoch s) with (end_epoch (storage b) - system_epoch s + epochs) by lia.
      eapply (system_added_ext _ _ _ _ (payment - rest + 0)); [|lia|by eapply system_added_trans]. intros i _. unfold nothing. lia.
    + replace (end_epoch (storage b) + epochs - system_epoch s) with (end_epoch (storage b) - system_epoch s + epochs) by lia. by apply Hc.
  - intros s1 i s2 Hok2 Hi Hf. call_inv. checked. pose proof (ok_ring _ Hok2) as Hwf.
    match goal with H : ring_lookup_mut _ _ _ = Ok (?r, ?u) |- _ => rename H into Hm end. assert (0 <= i) as Hi0 by lia.
    destruct (ring_lookup_mut_inv _ _ _ _ _ Hwf Hi0 Hm) as (a & a' & Hai & Hinc & Hw & _ & _).
    destruct (ring_lookup_mut_added _ i _ _ _ _ 0 Hwf Hi0 (increase_used_spec _) Hm) as [Hlt Hadd].
    unfold increase_used_capacity in Hinc. call_inv. split.
    + assert (0 <= i < ring_length (ring s1)) as Hi1 by lia.
      apply (space_added s1 _ _ _ Hwf Hi1 Hadd); try done. cbn. unfold at_epoch. rewrite (proj2 (Z.eqb_neq _ _)) by lia. lia.
    + intros _ y Hy. cbn in Hy. rewrite Hw, list_lookup_insert_eq in Hy by (by apply lookup_lt_Some in Hai). injection Hy as <-. done.
Qed.

Lemma account_capacity_inv s start stop n s' : system_ok s -> 0 <= start <= stop -> account_capacity s start stop n = Ok s' ->
  system_added s s' (within start stop n) 0 /\ within_capacity s' start stop.
Proof. intros Hok Hs Hr. unfold account_capacity in Hr. apply account_range_inv in Hr as [Ha Hc]; [|done|lia]. split; [done|by apply Hc]. Qed.

Lemma add_subsidy_inv s v n s' : ring_wf (ring s) -> add_subsidy s v n = Ok s' -> system_added s s' nothing v.
Proof.
  unfold add_subsidy, balance_split. intros Hwf Hr. call_inv. checked.
  match goal with H : range_do _ _ _ _ = _ |- _ =>
    apply (range_do_inv (fun _ x => system_added s x.1 nothing (v - x.2))) in H as Ha; [|lia| |] end.
  - cbn in Ha. apply (add_rewards_inv _ 0) in Hr; [|apply Ha|lia].
    eapply system_added_ext; [| |eapply system_added_trans; [exact Ha|exact Hr]]; [intros i _; unfold nothing; lia|lia].
  - apply (system_added_ext _ _ nothing nothing 0); [done|cbn; lia|by apply system_added_refl].
  - intros i [s1 r1] [s2 r2] Hi Hs1 Hs2. cbn in *. call_inv.
    match goal with H : add_rewards s1 i _ = _ |- _ => apply add_rewards_inv in H as Hs3; [|apply Hs1|lia] end.
    eapply system_added_ext; [| |eapply system_added_trans; [exact Hs1|exact Hs3]]; [intros j _; unfold nothing; lia|lia].
Qed.

Lemma add_per_epoch_subsidies_inv s l s' : ring_wf (ring s) -> add_per_epoch_subsidies s l = Ok s' -> system_added s s' nothing (zsum l).
Proof.
  unfold add_per_epoch_subsidies. intros Hwf Hr. call_inv.
  assert (forall l s i x, ring_wf (ring s) -> 0 <= i -> foldM (fun (p : SystemStateInnerV1 * Z) subsidy => self ← add_rewards p.1 p.2 subsidy;
    i ← move_arith 32 (p.2 + 1); Ok (self, i)) (s, i) l = Ok x -> system_added s x.1 nothing (zsum l)) as Hg.
  { clear. induction l as [|v l IH]; intros s i x Hwf Hi Hf; cbn [foldM] in Hf; [injection Hf as <-; by apply system_added_refl|].
    apply bind_Ok in Hf as ([s1 i1] & Hs1 & Hf). cbn [fst snd] in Hs1. call_inv.
    match goal with H : add_rewards _ _ _ = _ |- _ => apply add_rewards_inv in H as Ha; [|done|done] end.
    apply IH in Hf; [|apply Ha|lia]. change (zsum (v :: l)) with (v + zsum l).
    eapply system_added_ext; [| |eapply system_added_trans; [exact Ha|exact Hf]]; [intros j _; unfold nothing; lia|lia]. }
  match goal with H : foldM _ _ _ = Ok (?x, ?y) |- _ => exact (Hg l s 0 (x, y) Hwf ltac:(lia) H) end.
Qed.

Lemma extract_burn_inv s s' b : ring_wf (ring s) -> extract_burn_balance s = Ok (s', b) -> system_added s s' nothing (- b).
Proof.
  unfold extract_burn_balance, ring_extract_burn_balance, balance_split. intros Hwf Hr. call_inv.
  match goal with H : index _ _ = Ok ?x |- _ => rename H into Ha; rename x into a end.
  pose proof (wf_length _ Hwf) as Hlen. pose proof (wf_index _ Hwf) as Hidx.
  assert (ring_position (ring s) 0 = Z.to_nat (current_index (ring s))) as Hp0
    by (unfold ring_position; by rewrite Z.add_0_l, Z.mod_small).
  assert (ring_buffer (ring s) !! Z.to_nat (current_index (ring s)) = Some a) as Hbuf.
  { unfold index in Ha. destruct (_ !! _); [|done]. by injection Ha as <-. }
  match goal with |- system_added _ (set_accounting ?r _) _ (- ?b) =>
    assert (r = ring_set (ring s) 0 (mk_accounting (accounting_epoch a) (used_capacity a) (rewards_to_distribute a - b))) as ->
      by (unfold ring_set; by rewrite Hp0);
    apply (rewards_added s _ 0); [done|lia|]; set (x := b) end.
  destruct (window_total (ring s) 0 Hwf ltac:(lia)) as [a' Ha']. destruct (window_at _ 0 a' Hwf ltac:(lia) Ha') as [_ Hb'].
  rewrite Hp0, Hbuf in Hb'. injection Hb' as <-.
  constructor; [by apply ring_set_wf|done|]. intros i y Hi Hy. rewrite window_set by (done || lia). unfold at_epoch.
  destruct (Z.eqb_spec i 0) as [->|Hne].
  - rewrite list_lookup_insert_eq by (by apply lookup_lt_Some in Ha'). rewrite Ha' in Hy. injection Hy as <-. do 2 f_equal; lia.
  - rewrite list_lookup_insert_ne by lia. rewrite Hy. destruct y. cbn. by rewrite !Z.add_0_r.
Qed.

Lemma system_ok_fields s s' : committee s' = committee s -> used_capacity_size s' = used_capacity_size s -> ring s' = ring s ->
  system_ok s -> system_ok s'.
Proof. intros Hc Hu Hr [H1 H2 H3 H4]. unfold system_epoch in *. constructor; unfold system_epoch; rewrite ?Hr, ?Hc, ?Hu; done. Qed.

Lemma certify_event_blob_inv s cap b root size enc seq e id s' cap' ev : system_ok s ->
  certify_event_blob s cap b root size enc seq e id = Ok (s', cap', ev) ->
  exists used, system_added s s' used 0 /\ forall i, 0 <= i -> 0 <= used i.
Proof.
  intros Hok Hr. pose proof (ok_ring _ Hok) as Hwf. unfold certify_event_blob in Hr.
  do 3 (apply bind_Ok in Hr as (? & _ & Hr)). cbv zeta beta in Hr.
  assert (forall st s', system_added s s' nothing 0 -> system_added s (set_event_blobs st s') nothing 0) as Hst
    by (intros st s1 Hs1; by apply (system_added_fields s s1)).
  destruct (is_blob_already_certified _ _); [call_inv; exists nothing; split; [by apply system_added_refl|done]|].
  call_inv. destruct (negb _) in Hr; call_inv; [exists nothing; split; [by apply Hst, system_added_refl|done]|].
  match goal with H : reserve_space_without_payment _ ?n _ _ _ = _ |- _ =>
    apply reserve_space_without_payment_inv in H as (Hn & Hb & _ & Ha & _); [|by apply (system_ok_fields s)|lia];
    exists (within 0 (max_epochs_ahead s) n) end.
  split; [|intros i Hi; unfold within; destruct ((_ <=? _) && _); lia].
  pose proof (system_added_trans _ _ _ _ _ _ _ (Hst _ _ (system_added_refl s Hwf)) Ha) as Hs2.
  match type of Hs2 with system_added _ ?s2 _ _ => by apply (system_added_fields s s2) end.
Qed.
End accounting.
