(* ===== verification/SystemEpochs.v ===== *)
(** * Epoch changes of the system contract

    [advance_epoch] moves the accounts on by one epoch and distributes the rewards
    of the old one: every node of the old committee gets its share of what it
    stored, rounded down, and what is left goes to the next epoch.  Nothing is
    lost and the call does not abort. *)

From S2P Require Import Prelude Redstuff Merkle MoveStd StorageAccounting Certificates SystemObjects SystemState SystemAccounting.

Section epochs.
Context `{Bls12381} `{HashFunction}.
Implicit Types s : SystemStateInnerV1.

Abbreviation ring s := (future_accounting s).

(** ** What an epoch change does *)

Lemma split_rewards_sum R T rest vs l rest' vs' : foldM (split_reward R T) (rest, vs) l = Ok (rest', vs') ->
  rest' + zsum vs' = rest + zsum vs /\ length vs' = (length vs + length l)%nat.
Proof.
  revert rest vs. induction l as [|x l IH]; intros rest vs Hr; cbn [foldM] in Hr; [injection Hr as -> ->; split; [lia|cbn; lia]|].
  apply bind_Ok in Hr as ([rest1 vs1] & Hx & Hr). apply IH in Hr as [Hs Hl]. unfold split_reward, balance_split in Hx.
  cbn [fst snd] in Hx. call_inv. rewrite zsum_app in Hs. rewrite length_app in Hl. cbn [zsum foldr length] in *. lia.
Qed.

Lemma from_keys_values_inv {E V} ks (vs : list V) m : from_keys_values (E:=E) ks vs = Ok m -> m.*1 = ks /\ m.*2 = vs.
Proof.
  unfold from_keys_values. intros Hr. call_inv. apply Nat.eqb_eq in H1.
  enough (forall a l, foldM (E:=E) (fun m e => vec_map_insert e.1 e.2 m) a l = Ok m -> m = a ++ l) as Hg.
  { apply Hg in Hr as ->. cbn. by rewrite fst_zip, snd_zip by lia. }
  intros a l. revert a. induction l as [|[k v] l IH]; intros a Hf; cbn [foldM] in Hf; [injection Hf as <-; by rewrite app_nil_r|].
  apply bind_Ok in Hf as (a1 & Ha & Hf). apply IH in Hf as ->. unfold vec_map_insert in Ha. call_inv. by rewrite <- app_assoc.
Qed.

(** The accounts after an epoch change: the first one is gone, and the rest of its
    rewards is in the next one. *)
Record advanced s s' (paid : Z) : Prop := {
  adv_epoch : system_epoch s' = system_epoch s + 1;
  adv_length : max_epochs_ahead s' = max_epochs_ahead s;
  adv_used : forall i a, 0 <= i -> window (ring s) !! Z.to_nat (i + 1) = Some a -> exists a', window (ring s') !! Z.to_nat i = Some a' /\
    used_capacity a' = used_capacity a;
  adv_last : exists a, window (ring s') !! Z.to_nat (max_epochs_ahead s - 1) = Some a /\ used_capacity a = 0;
  adv_treasury : treasury (ring s') = treasury (ring s) - paid;
}.

Lemma ring_pop_inv r a r' : ring_wf r -> ring_pop_expand r = Ok (a, r') -> 0 <= accounting_epoch a -> exists w,
  window r = a :: w /\ window r' = w ++ [mk_accounting (accounting_epoch a + ring_length r) 0 0] /\ ring_wf r' /\ ring_length r' = ring_length r.
Proof.
  intros Hwf Hr Ha. pose proof (wf_length r Hwf). destruct (window_total r 0 Hwf ltac:(lia)) as [b Hb].
  destruct (window r) as [|b' w] eqn:Hw; [done|]. injection Hb as ->.
  assert (ring_position r 0 = Z.to_nat (current_index r)) as Hp0.
  { unfold ring_position. pose proof (wf_index r Hwf). by rewrite Z.add_0_l, Z.mod_small. }
  assert (0 <= accounting_epoch b + ring_length r < 2 ^ 32 /\ b = a) as [Hb ->].
  { assert (window r !! Z.to_nat 0 = Some b) as Hb0 by by rewrite Hw.
    destruct (window_at r 0 b Hwf ltac:(lia) Hb0) as [_ Hbuf]. rewrite Hp0 in Hbuf.
    unfold ring_pop_expand in Hr. rewrite (index_lookup _ _ _ Hbuf) in Hr. cbn [mbind outcome_bind] in Hr. call_inv. split; [done|].
    match goal with H : swap_remove _ _ = _ |- _ => unfold swap_remove in H; rewrite (index_lookup _ _ b) in H end;
      [|by rewrite lookup_app_l by (by apply lookup_lt_Some in Hbuf)]. cbn [mbind outcome_bind] in *. call_inv. done. }
  exists w. destruct (ring_pop_ok r a w Hwf Hw ltac:(lia)) as (r1 & Hr1 & Hrest). rewrite Hr in Hr1. injection Hr1 as <-. done.
Qed.

Lemma window_epochs_cons e a w : window_epochs e (a :: w) -> accounting_epoch a = e /\ window_epochs (e + 1) w.
Proof. intros He. split; [rewrite (He 0%nat a) by done; lia|]. intros i b Hb. rewrite (He (S i) b Hb). lia. Qed.

Lemma window_epochs_snoc e w n u r : window_epochs e w -> e + len w = n -> window_epochs e (w ++ [mk_accounting n u r]).
Proof.
  intros He Hn i a Ha. apply lookup_app_Some in Ha as [Ha|[Hi Ha]]; [by apply He|].
  apply list_lookup_singleton_Some in Ha as [Hz <-]. cbn. lia.
Qed.

Lemma ring_added_epochs r r' u w e : ring_wf r -> ring_added r r' u w -> window_epochs e (window r) -> window_epochs e (window r').
Proof.
  intros Hwf Ha He i a' Hi. destruct (window_at r' (Z.of_nat i) a' (added_wf _ _ _ _ Ha) ltac:(lia) ltac:(by rewrite Nat2Z.id)) as [Hlt _].
  rewrite (added_length _ _ _ _ Ha) in Hlt. destruct (window_total r (Z.of_nat i) Hwf ltac:(lia)) as [a Hai].
  pose proof (added_accounts _ _ _ _ Ha (Z.of_nat i) a ltac:(lia) Hai) as Ha'. rewrite Nat2Z.id in *. rewrite Hi in Ha'. injection Ha' as ->.
  cbn. by apply He.
Qed.

Lemma advance_epoch_inv s c cap s' rewards : system_ok s -> advance_epoch s c cap = Ok (s', rewards) ->
  system_ok s' /\ advanced s s' (zsum rewards.*2) /\ committee s' = c /\ total_capacity_size s' = Z.max cap (used_capacity_size s') /\
  event_blob_certification_state s' = certification_reset (event_blob_certification_state s).
Proof.
  intros Hok Hr. unfold advance_epoch in Hr. call_inv. checked. cbn.
  match goal with H : ring_pop_expand _ = Ok (?a, ?r) |- _ => rename a into a, r into r1, H into Hpop end.
  pose proof (ok_epoch s Hok) as Hep. destruct (ring_pop_inv _ _ _ (ok_ring s Hok) Hpop ltac:(lia)) as (w & Hw & Hw1 & Hwf1 & Hl1).
  match goal with H : foldM _ _ _ = _ |- _ => apply split_rewards_sum in H as [Hsum _] end.
  match goal with H : from_keys_values _ _ = _ |- _ => apply from_keys_values_inv in H as [_ ->] end.
  match goal with H : ring_lookup_mut _ 0 (join_rewards ?x) = Ok (?r, _) |- _ => rename H into Hm, x into left, r into r2 end.
  destruct (ring_lookup_mut_added r1 0 _ _ _ 0 left Hwf1 ltac:(lia) (join_rewards_spec left) Hm) as [Hlen Hadd].
  destruct (window_total r1 0 Hwf1 ltac:(lia)) as [b Hb].
  match goal with H : ring_lookup _ 0 = Ok ?f |- _ => rewrite (ring_lookup_ok r1 0 b Hwf1 ltac:(lia) Hb) in H; injection H as <- end.
  pose proof (ok_epochs s Hok) as Hes. rewrite Hw in Hes. destruct (window_epochs_cons _ _ _ Hes) as [Hae Hes1].
  assert (len w + 1 = ring_length (ring s)) as Hlw.
  { pose proof (window_length (ring s)) as Hwl. rewrite Hw in Hwl. cbn in Hwl. pose proof (wf_buffer _ (ok_ring s Hok)). lia. }
  assert (window_epochs (epoch c) (window r1)) as Hes2.
  { rewrite Hw1. apply window_epochs_snoc; [|lia]. by replace (epoch c) with (system_epoch s + 1). }
  pose proof (added_accounts _ _ _ _ Hadd 0 b ltac:(lia) Hb) as Hb2. change (Z.to_nat 0) with 0%nat in *.
  split_and!; [| |done|done|done].
  - constructor; cbn; [apply Hadd|by eapply ring_added_epochs| |unfold system_epoch; cbn; lia]. rewrite head_lookup, Hb2. cbn. by rewrite Z.add_0_r.
  - constructor; cbn; [done|by unfold max_epochs_ahead; cbn; rewrite (added_length _ _ _ _ Hadd)| | |].
    + intros i a1 Hi Ha1. rewrite Hw in Ha1. replace (Z.to_nat (i + 1)) with (S (Z.to_nat i)) in Ha1 by lia. cbn in Ha1.
      assert (window r1 !! Z.to_nat i = Some a1) as Hi1 by (rewrite Hw1; by apply lookup_app_l_Some).
      rewrite (added_accounts _ _ _ _ Hadd i a1 Hi Hi1). eexists. split; [done|]. cbn. unfold at_epoch. destruct (i =? 0); lia.
    + pose proof (wf_length _ (ok_ring s Hok)). unfold max_epochs_ahead. eexists. split.
      * apply (added_accounts _ _ _ _ Hadd); [lia|]. rewrite Hw1, lookup_app_r by lia.
        by replace (Z.to_nat (ring_length (ring s) - 1) - length w)%nat with 0%nat by lia.
      * cbn. unfold at_epoch. by destruct (_ =? _).
    + rewrite (treasury_added r1 r2 (at_epoch 0 0) 0 left Hwf1 ltac:(lia) Hadd). unfold treasury.
      rewrite Hw, Hw1, fmap_app, zsum_app. cbn [fmap list_fmap]. unfold zsum in *. cbn [foldr rewards_to_distribute] in *. lia.
Qed.

(** ** The distribution of rewards *)

(** What a member stored in the old epoch, weighted by its shards. *)
Definition share s (used : Z) (m : BlsCommitteeMember) : Z :=
  weight m * (used - Z.min (default 0 (try_get (node_id m) (deny_list_sizes s))) used).

Definition total_share s (used : Z) : Z := Z.max 1 (zsum (share s used <$> members (committee s))).

Definition reward s (a : FutureAccounting) (m : BlsCommitteeMember) : Z :=
  share s (used_capacity a) m * rewards_to_distribute a / total_share s (used_capacity a).

Lemma zsum_map_nonneg {A} (f : A -> Z) l : (forall x, x ∈ l -> 0 <= f x) -> 0 <= zsum (f <$> l).
Proof. intros Hf. apply zsum_nonneg, Forall_fmap, Forall_forall. done. Qed.

Lemma zsum_floor R T l : 0 < T -> T * zsum ((fun x => x * R / T) <$> l) <= zsum l * R <= T * (zsum ((fun x => x * R / T) <$> l) + len l).
Proof.
  intros HT. induction l as [|x l IH]; [cbn; lia|].
  change (zsum ((fun x => x * R / T) <$> x :: l)) with (x * R / T + zsum ((fun x => x * R / T) <$> l)).
  change (zsum (x :: l)) with (x + zsum l). cbn [length].
  pose proof (Z.div_mod (x * R) T ltac:(lia)). pose proof (Z.mod_pos_bound (x * R) T HT). nia.
Qed.

Lemma split_rewards_ok R T l rest vs : 0 < T -> 0 <= R -> (forall x, x ∈ l -> 0 <= x /\ x * R < 2 ^ 128) ->
  zsum ((fun x => x * R / T) <$> l) <= rest < 2 ^ 64 ->
  foldM (split_reward R T) (rest, vs) l = Ok (rest - zsum ((fun x => x * R / T) <$> l), vs ++ ((fun x => x * R / T) <$> l)).
Proof.
  intros HT HR. revert rest vs. induction l as [|x l IH]; intros rest vs Hl Hrest; cbn [foldM]; [cbn; by rewrite app_nil_r, Z.sub_0_r|].
  change (zsum ((fun x => x * R / T) <$> x :: l)) with (x * R / T + zsum ((fun x => x * R / T) <$> l)) in *.
  destruct (Hl x) as [Hx0 Hx]; [by left|]. assert (0 <= x * R / T) by (apply Z.div_pos; nia).
  assert (0 <= zsum ((fun x => x * R / T) <$> l)).
  { apply zsum_map_nonneg. intros y Hy. apply Z.div_pos; [|lia]. destruct (Hl y) as [Hy0 _]; [by right|]. nia. }
  unfold split_reward at 2. rewrite (move_arith_in_range 128) by nia. cbn [mbind outcome_bind]. unfold move_div.
  rewrite (proj2 (Z.eqb_neq _ _)) by lia. cbn [mbind outcome_bind]. rewrite (move_arith_in_range 64) by lia. cbn [mbind outcome_bind fst snd].
  unfold balance_split. rewrite (proj2 (Z.leb_le _ _)) by lia. cbn [ensure mbind outcome_bind].
  rewrite IH; [|by intros y Hy; apply Hl; right|lia]. cbn. rewrite <- app_assoc. cbn. do 2 f_equal. lia.
Qed.

Lemma to_vec_map_ok (c : BlsCommittee) : NoDup (node_id <$> members c) ->
  to_vec_map c = Ok ((fun m => (node_id m, weight m)) <$> members c).
Proof.
  intros Hnd. unfold to_vec_map.
  enough (forall ms a, NoDup (a.*1 ++ (node_id <$> ms)) ->
    foldM (fun m member => vec_map_insert (E:=SystemAbort) (node_id member) (weight member) m) a ms = Ok (a ++ ((fun m => (node_id m, weight m)) <$> ms))) as Hg.
  { by apply (Hg (members c) []). }
  induction ms as [|m ms IH]; intros a Ha; cbn [foldM]; [cbn; by rewrite app_nil_r|].
  rewrite vec_map_insert_ok. 2: { apply NoDup_app in Ha as (_ & Hd & _). intros Hin. apply (Hd _ Hin). by left. }
  cbn [mbind outcome_bind]. rewrite IH; [cbn; by rewrite <- app_assoc|]. rewrite fmap_app, <- app_assoc. done.
Qed.

Section distribution.
Context s (a : FutureAccounting) (w : list FutureAccounting).
Context (Hok : system_ok s) (Hbls : bls_wf (committee s)) (Hnd : NoDup (node_id <$> members (committee s))).
Context (Hdeny : Forall (Z.le 0) (deny_list_sizes s).*2) (Hw : window (ring s) = a :: w).
Context (Hused : 0 <= used_capacity a < 2 ^ 64) (Hrewards : Forall (fun a => 0 <= rewards_to_distribute a) (a :: w)).
Context (Hfit : n_shards (committee s) * used_capacity a * rewards_to_distribute a < 2 ^ 128).

Lemma share_bounds m : m ∈ members (committee s) ->
  0 <= share s (used_capacity a) m <= weight m * used_capacity a /\ 0 < weight m <= n_shards (committee s) /\ n_shards (committee s) < 2 ^ 16.
Proof.
  intros Hm. destruct Hbls as [Hpos [Hn Hlt] _]. pose proof (proj1 (Forall_forall _ _) Hpos m Hm) as Hwm. cbv beta in Hwm.
  assert (weight m <= n_shards (committee s)).
  { rewrite Hn. apply list_elem_of_lookup in Hm as [i Hi].
    apply (zsum_elem _ i); [|by rewrite list_lookup_fmap, Hi]. apply Forall_fmap. eapply Forall_impl; [exact Hpos|]. cbn. lia. }
  assert (0 <= default 0 (try_get (node_id m) (deny_list_sizes s))).
  { destruct (try_get _ _) as [x|] eqn:Hx; [|done]. unfold try_get in Hx. apply bind_Some in Hx as (i & _ & Hx).
    apply fmap_Some in Hx as ([k v] & Hi & ->). cbn. apply (proj1 (Forall_forall _ _) Hdeny).
    apply list_elem_of_fmap. exists (k, v). split; [done|]. by eapply list_elem_of_lookup_2. }
  unfold share. split; [|lia]. nia.
Qed.

Lemma shares_sum : 0 <= zsum (share s (used_capacity a) <$> members (committee s)) <= n_shards (committee s) * used_capacity a.
Proof.
  split; [apply zsum_map_nonneg; intros m Hm; apply share_bounds; done|]. destruct Hbls as [_ [-> _] _].
  assert (forall ms, (forall m, m ∈ ms -> m ∈ members (committee s)) ->
    zsum (share s (used_capacity a) <$> ms) <= zsum (weight <$> ms) * used_capacity a) as Hg; [|by apply Hg].
  induction ms as [|m ms IH]; intros Hin; [done|].
  change (zsum (share s (used_capacity a) <$> m :: ms)) with (share s (used_capacity a) m + zsum (share s (used_capacity a) <$> ms)).
  change (zsum (weight <$> m :: ms)) with (weight m + zsum (weight <$> ms)).
  destruct (share_bounds m) as [Hs _]; [apply Hin; by left|]. specialize (IH ltac:(by intros m' Hm'; apply Hin; right)). lia.
Qed.

Lemma rewards_bound : zsum (reward s a <$> members (committee s)) <= rewards_to_distribute a /\
  (0 < zsum (share s (used_capacity a) <$> members (committee s)) ->
    rewards_to_distribute a <= zsum (reward s a <$> members (committee s)) + len (members (committee s))).
Proof.
  pose proof shares_sum as Hsum. inversion Hrewards as [|? ? HR _]; subst. unfold total_share in *.
  assert (reward s a <$> members (committee s) = (fun x => x * rewards_to_distribute a / total_share s (used_capacity a)) <$>
    (share s (used_capacity a) <$> members (committee s))) as -> by by rewrite <- list_fmap_compose.
  set (l := share s (used_capacity a) <$> members (committee s)) in *.
  assert (total_share s (used_capacity a) = Z.max 1 (zsum l)) as HT by done.
  pose proof (zsum_floor (rewards_to_distribute a) (total_share s (used_capacity a)) l ltac:(lia)) as Hf.
  assert (length (members (committee s)) = length l) as -> by (subst l; by rewrite length_fmap). split; [nia|].
  intros Hp. rewrite HT, Z.max_r in Hf by lia. rewrite HT, Z.max_r by lia. nia.
Qed.

Lemma no_share_no_reward : ~ 0 < zsum (share s (used_capacity a) <$> members (committee s)) -> zsum (reward s a <$> members (committee s)) = 0.
Proof.
  intros Hz. pose proof shares_sum as Hsum. pose proof rewards_bound as [Hb _]. inversion Hrewards as [|? ? HR _]; subst.
  assert (reward s a <$> members (committee s) = (fun x => x * rewards_to_distribute a / total_share s (used_capacity a)) <$>
    (share s (used_capacity a) <$> members (committee s))) as Hr by by rewrite <- list_fmap_compose.
  pose proof (zsum_floor (rewards_to_distribute a) 1 (share s (used_capacity a) <$> members (committee s)) ltac:(lia)) as Hf. rewrite Hr in *.
  replace (total_share s (used_capacity a)) with 1 in * by (unfold total_share; lia).
  assert (0 <= zsum ((fun x => x * rewards_to_distribute a / 1) <$> (share s (used_capacity a) <$> members (committee s)))) as Hnn; [|nia].
  rewrite <- list_fmap_compose. apply zsum_map_nonneg. intros m Hm. cbn. destruct (share_bounds m Hm). rewrite Z.div_1_r. nia.
Qed.

Lemma stored_ok : mapM_outcome (stored_weighted (deny_list_sizes s) (used_capacity a)) ((fun m => (node_id m, weight m)) <$> members (committee s)) =
  Ok (share s (used_capacity a) <$> members (committee s)).
Proof.
  assert (forall ms, (forall m, m ∈ ms -> m ∈ members (committee s)) ->
    mapM_outcome (stored_weighted (deny_list_sizes s) (used_capacity a)) ((fun m => (node_id m, weight m)) <$> ms) =
    Ok (share s (used_capacity a) <$> ms)) as Hg; [|by apply Hg].
  induction ms as [|m ms IH]; intros Hin; [done|]. cbn [fmap list_fmap mapM_outcome].
  assert (stored_weighted (deny_list_sizes s) (used_capacity a) (node_id m, weight m) = Ok (share s (used_capacity a) m)) as ->.
  { destruct (share_bounds m) as [Hs Hwm]; [apply Hin; by left|]. unfold share, stored_weighted in *. cbn [fst snd].
    rewrite (move_arith_in_range 64) by nia. cbn [mbind outcome_bind]. by rewrite (move_arith_in_range 128) by nia. }
  cbn [mbind outcome_bind]. rewrite IH by (by intros m' Hm'; apply Hin; right). done.
Qed.

Lemma reward_distribution_ok c cap : epoch c = system_epoch s + 1 -> system_epoch s + max_epochs_ahead s < 2 ^ 32 ->
  treasury (ring s) < 2 ^ 64 -> exists s', advance_epoch s c cap = Ok (s', (fun m => (node_id m, reward s a m)) <$> members (committee s)).
Proof.
  intros Hc Hmax Hsupply. pose proof (ok_ring s Hok) as Hwf. pose proof (ok_epoch s Hok) as Hep. pose proof (wf_length _ Hwf) as Hlen.
  unfold max_epochs_ahead in Hmax. pose proof (ok_epochs s Hok) as Hes. rewrite Hw in Hes. destruct (window_epochs_cons _ _ _ Hes) as [Hae _].
  destruct (ring_pop_ok (ring s) a w Hwf Hw ltac:(lia)) as (r1 & Hpop & Hw1 & Hwf1 & Hl1).
  destruct (window_total r1 0 Hwf1 ltac:(lia)) as [b Hb].
  pose proof shares_sum as Hsum. pose proof rewards_bound as [Hrb _]. inversion Hrewards as [|? ? HR HRw]; subst.
  assert (0 <= zsum (reward s a <$> members (committee s))) as Hnn.
  { apply zsum_map_nonneg. intros m Hm. unfold reward, total_share. apply Z.div_pos; [|lia]. destruct (share_bounds m Hm). nia. }
  assert (treasury (ring s) = rewards_to_distribute a + zsum (rewards_to_distribute <$> w)) as Ht by (unfold treasury; by rewrite Hw).
  assert (0 <= zsum (rewards_to_distribute <$> w)) as HRs by (apply zsum_map_nonneg; by apply Forall_forall).
  unfold advance_epoch. rewrite (move_arith_in_range 32 (system_epoch s + 1)) by lia. cbn [mbind outcome_bind].
  rewrite Hc, Z.eqb_refl. cbn [ensure mbind outcome_bind]. rewrite Hpop. cbn [mbind outcome_bind]. rewrite Hae, Z.eqb_refl. cbn [ensure mbind outcome_bind].
  rewrite (ring_lookup_ok r1 0 b Hwf1 ltac:(lia) Hb). cbn [mbind outcome_bind]. rewrite to_vec_map_ok by done. cbn [mbind outcome_bind].
  rewrite stored_ok. cbn [mbind outcome_bind]. rewrite move_sum_eq; [|lia|].
  2: { apply Forall_fmap, Forall_forall. intros m Hm. cbn. destruct (share_bounds m Hm). lia. }
  pose proof (bls_wf_bounds (committee s) Hbls) as [_ Hnb].
  rewrite (proj2 (Z.ltb_lt _ _)) by nia. cbn [mbind outcome_bind].
  rewrite (Z.max_comm _ 1). fold (total_share s (used_capacity a)).
  assert (((fun x => x * rewards_to_distribute a / total_share s (used_capacity a)) <$> (share s (used_capacity a) <$> members (committee s))) =
    reward s a <$> members (committee s)) as Hrew by by rewrite <- list_fmap_compose.
  rewrite split_rewards_ok; [|unfold total_share; lia|done| |rewrite Hrew; lia].
  2: { intros x (m & -> & Hm)%list_elem_of_fmap. destruct (share_bounds m Hm). nia. }
  rewrite Hrew. cbn [mbind outcome_bind]. rewrite (ring_lookup_mut_ok r1 0 b _ Hwf1 ltac:(lia) Hb). unfold join_rewards, balance_join.
  assert (0 <= rewards_to_distribute b <= zsum (rewards_to_distribute <$> w)) as Hbw.
  { rewrite Hw1 in Hb. destruct w as [|b' w']; cbn in Hb; injection Hb as <-; [cbn; lia|]. inversion HRw; subst.
    cbn [fmap list_fmap] in *. change (zsum (rewards_to_distribute b' :: (rewards_to_distribute <$> w')))
      with (rewards_to_distribute b' + zsum (rewards_to_distribute <$> w')). split; [done|].
    assert (0 <= zsum (rewards_to_distribute <$> w')) by (apply zsum_map_nonneg; by apply Forall_forall). lia. }
  rewrite (move_arith_in_range 64 (_ + _)) by lia. cbn [mbind outcome_bind].
  set (m0 := (fun m => (node_id m, reward s a m)) <$> members (committee s)).
  assert (from_keys_values (E:=SystemAbort) ((fun m => (node_id m, weight m)) <$> members (committee s)).*1 ([] ++ (reward s a <$> members (committee s))) = Ok m0) as ->.
  { rewrite app_nil_l. assert (((fun m => (node_id m, weight m)) <$> members (committee s)).*1 = m0.*1) as -> by (subst m0; by rewrite <- !list_fmap_compose).
    assert (reward s a <$> members (committee s) = m0.*2) as -> by (subst m0; by rewrite <- list_fmap_compose).
    apply from_keys_values_ok. subst m0. by rewrite <- list_fmap_compose. }
  by eexists.
Qed.
End distribution.

(** C27: an epoch change pays every member of the old committee the share of the
    rewards of the old epoch that it stored, weighted by its shards and without
    the blobs on its deny list, rounded down.  It does not pay more than there is,
    what is left stays in the accounts, and no unit is lost.  At most one unit per
    member is left if some member stored something; if none did (no capacity was
    used, or everything is on the deny lists), nothing is paid and all is left.  The
    call succeeds if the product of shards, used capacity and rewards fits into 128
    bits. *)
Theorem rewards_are_distributed s a w c cap : system_ok s -> bls_wf (committee s) -> NoDup (node_id <$> members (committee s)) ->
  Forall (Z.le 0) (deny_list_sizes s).*2 -> window (ring s) = a :: w -> 0 <= used_capacity a < 2 ^ 64 ->
  Forall (fun a => 0 <= rewards_to_distribute a) (a :: w) -> treasury (ring s) < 2 ^ 64 ->
  n_shards (committee s) * used_capacity a * rewards_to_distribute a < 2 ^ 128 ->
  epoch c = system_epoch s + 1 -> system_epoch s + max_epochs_ahead s < 2 ^ 32 ->
  let rewards := (fun m => (node_id m, reward s a m)) <$> members (committee s) in
  exists s', advance_epoch s c cap = Ok (s', rewards) /\ system_ok s' /\ committee s' = c /\
    treasury (ring s') + zsum rewards.*2 = treasury (ring s) /\ zsum rewards.*2 <= rewards_to_distribute a /\
    (if decide (0 < zsum (share s (used_capacity a) <$> members (committee s)))
     then rewards_to_distribute a <= zsum rewards.*2 + len (members (committee s)) else zsum rewards.*2 = 0).
Proof.
  intros Hok Hbls Hnd Hdeny Hw Hused Hrw Hsup Hfit Hc Hmax rewards.
  destruct (reward_distribution_ok s a w Hok Hbls Hnd Hdeny Hw Hused Hrw Hfit c cap Hc Hmax Hsup) as [s' Hs'].
  destruct (advance_epoch_inv s c cap s' _ Hok Hs') as (Hok' & Hadv & Hc' & _).
  pose proof (rewards_bound s a w Hbls Hdeny Hused Hrw) as Hb.
  assert (rewards.*2 = reward s a <$> members (committee s)) as Hr2 by (subst rewards; by rewrite <- list_fmap_compose).
  exists s'. split; [done|]. pose proof (adv_treasury _ _ _ Hadv) as Ht. fold rewards in Ht. rewrite Hr2 in *. split_and!; try done; [lia|apply Hb|].
  case_decide as Hsh; [by apply Hb|by apply (no_share_no_reward s a w)].
Qed.
End epochs.
