(* ===== verification/SystemProps.v ===== *)
(** * Storage that is sold

    Every call of the system contract as an exchange of storage resources: [call_effect]
    says which resources it consumes and creates, how much space it reserves and how
    much it is paid.  [SystemInvariant] concludes from this that in no epoch users
    hold more storage, on its own or in blobs and pools, than the contract accounts
    for. *)

From S2P Require Import Prelude Redstuff Merkle MoveStd StorageAccounting Certificates SystemObjects SystemState SystemContract.
From S2P Require Import SystemAccounting SystemEpochs.

(** ** Resources of the chain *)

Section props.
Context `{Bls12381} `{HashFunction}.
Implicit Types c : Chain.

(** The sum of [f] over all storage resources, and a property of all of them. *)
Definition in_total (f : Storage -> Z) c : Z :=
  zsum (f <$> storages c) + msum (fun b => f (storage b)) (blobs c) + msum (fun p => f (pool_storage p)) (pools c).

Definition all_storages (P : Storage -> Prop) c : Prop :=
  Forall P (storages c) /\ map_Forall (fun _ b => P (storage b)) (blobs c) /\ map_Forall (fun _ p => P (pool_storage p)) (pools c).

(** The bytes that a resource covers in an epoch. *)
Definition cover (e : Z) (st : Storage) : Z := if (start_epoch st <=? e) && (e <? end_epoch st) then storage_size st else 0.

Record storage_ok (s : SystemStateInnerV1) (st : Storage) : Prop := {
  st_period : start_epoch st < end_epoch st;
  st_size : 0 <= storage_size st;
  st_end : end_epoch st <= system_epoch s + max_epochs_ahead s;
}.

(** A call that replaces the resources [old] by [new]. *)
Record call_effect c c' (old new : list Storage) (used : Z -> Z) (paid : Z) : Prop := {
  ce_system : system_added (system c) (system c') used paid;
  ce_total : forall f, in_total f c' = in_total f c - zsum (f <$> old) + zsum (f <$> new);
  ce_old : forall P, all_storages P c -> Forall P old;
  ce_new : forall P, all_storages P c -> Forall P new -> all_storages P c';
  ce_ok : Forall (storage_ok (system c)) old -> Forall (storage_ok (system c)) new;
  ce_used : Forall (storage_ok (system c)) old -> forall i, 0 <= i ->
    zsum (cover (system_epoch (system c) + i) <$> new) <= zsum (cover (system_epoch (system c) + i) <$> old) + used i;
}.

(** The encoded size of a blob in a pool for [n] shards. *)
Definition pooled_size (n : Z) (b : PooledBlob) : Z :=
  match move_encoded_blob_length (E:=SystemAbort) (pooled_unencoded_size b) (pooled_encoding_type b) n with Ok k => k | _ => 0 end.

(** A pool knows how many blobs it has and how much space they take. *)
Record pool_ok (n : Z) (p : StoragePool) : Prop := {
  po_used : used_encoded_bytes p = msum (pooled_size n) (pool_blobs p) /\ used_encoded_bytes p <= storage_size (pool_storage p);
  po_count : blob_count p = Z.of_nat (size (pool_blobs p));
  po_range : used_encoded_bytes p < 2 ^ 64 /\ blob_count p < 2 ^ 64;
  po_sizes : map_Forall (fun id b => pooled_blob_id b = id /\ 0 <= pooled_size n b /\
    move_encoded_blob_length (E:=SystemAbort) (pooled_unencoded_size b) (pooled_encoding_type b) n = Ok (pooled_size n b)) (pool_blobs p);
}.

(** ** Coverage of resources *)

Lemma total_cover_far c e : all_storages (fun st => end_epoch st <= e) c -> in_total (cover e) c = 0.
Proof.
  intros (Hs & Hb & Hp). assert (forall st, end_epoch st <= e -> cover e st = 0) as Hc.
  { intros st Hst. unfold cover. by rewrite (proj2 (Z.ltb_ge _ _)), andb_false_r by lia. }
  assert (forall {A} (g : A -> Z) l, Forall (fun x => g x = 0) l -> zsum (g <$> l) = 0) as Hz.
  { intros A g l Hl. induction Hl as [|x l Hx _ IH]; [done|]. change (zsum (g <$> x :: l)) with (g x + zsum (g <$> l)). lia. }
  unfold in_total, msum. rewrite !Hz; [done| | |].
  - apply Forall_fmap, Forall_forall. intros [k p] Hk%elem_of_map_to_list. cbn. by apply Hc, (Hp k).
  - apply Forall_fmap, Forall_forall. intros [k b] Hk%elem_of_map_to_list. cbn. by apply Hc, (Hb k).
  - eapply Forall_impl; [exact Hs|]. cbn. apply Hc.
Qed.

Lemma all_storages_impl (P Q : Storage -> Prop) c : (forall st, P st -> Q st) -> all_storages P c -> all_storages Q c.
Proof.
  intros HPQ (Hs & Hb & Hp). split_and!; [by eapply Forall_impl|intros k b Hk; by apply HPQ, (Hb k)|intros k p Hk; by apply HPQ, (Hp k)].
Qed.

(** The accounts after a call. *)
Lemma storages_inv c c' old new used paid : call_effect c c' old new used paid -> system_ok (system c) ->
  all_storages (storage_ok (system c)) c ->
  (forall i a, window (future_accounting (system c)) !! Z.to_nat i = Some a -> 0 <= i -> in_total (cover (system_epoch (system c) + i)) c <= used_capacity a) ->
  system_ok (system c') /\ all_storages (storage_ok (system c')) c' /\
  (forall i a, window (future_accounting (system c')) !! Z.to_nat i = Some a -> 0 <= i -> in_total (cover (system_epoch (system c') + i)) c' <= used_capacity a).
Proof.
  intros [Hsys Htot Hold Hnew Hok Hused] Hs Hst Hcov.
  assert (system_epoch (system c') = system_epoch (system c)) as He by (unfold system_epoch; by rewrite (sa_committee _ _ _ _ Hsys)).
  pose proof (Hold _ Hst) as Ho. split_and!.
  - by eapply system_ok_added.
  - eapply all_storages_impl; [|exact (Hnew _ Hst (Hok Ho))]. intros st [H1 H2 H3]. constructor; [done|done|]. by rewrite He, (sa_length _ _ _ _ Hsys).
  - intros i a' Ha' Hi. rewrite He, Htot. destruct (window_at _ _ _ (sa_wf _ _ _ _ Hsys) Hi Ha') as [Hlt _].
    pose proof (sa_length _ _ _ _ Hsys) as Hl. unfold max_epochs_ahead in Hl.
    destruct (window_total _ i (ok_ring _ Hs) ltac:(lia)) as [a Ha].
    destruct (sa_window _ _ _ _ Hsys i a Hi Ha) as (b & Hb & _ & Hu). rewrite Ha' in Hb. injection Hb as <-.
    specialize (Hcov i a Ha Hi). specialize (Hused Ho i Hi). lia.
Qed.

(** ** The effect of every call *)

(** Sums and properties of the resources after a call. *)
Ltac totals :=
  intros ?f; unfold in_total; cbn [storages blobs pools with_storages with_blobs with_pools with_system with_id with_cap];
  repeat match goal with
  | |- context [zsum (_ <$> _ ++ [_])] => rewrite zsum_snoc
  | H : ?l !! ?i = Some _ |- context [zsum (_ <$> delete ?i ?l)] => rewrite (zsum_delete _ _ _ _ H)
  | H : ?l !! ?i = Some _ |- context [zsum (_ <$> <[?i := _]> ?l)] => rewrite (zsum_replace _ _ _ _ _ H)
  | H : ?m !! ?k = None |- context [msum ?g (<[?k := _]> ?m)] => rewrite (msum_insert_fresh g _ _ _ H)
  | H : ?m !! ?k = Some _ |- context [msum ?g (<[?k := _]> ?m)] => rewrite (msum_replace g _ _ _ _ H)
  | H : ?m !! ?k = Some _ |- context [msum ?g (delete ?k ?m)] => rewrite (msum_delete g _ _ _ H)
  end; cbn [fmap list_fmap zsum foldr storage pool_storage set_storage mark_certified set_pool_storage pool_create]; lia.

Ltac storages_of :=
  let P := fresh "P" in let Hs := fresh in let Hb := fresh in let Hp := fresh in
  intros P (Hs & Hb & Hp); repeat constructor;
  try match goal with
  | H : storages _ !! _ = Some ?st |- P ?st => exact (Forall_lookup_1 _ _ _ _ Hs H)
  | H : blobs _ !! _ = Some ?b |- P (storage ?b) => exact (Hb _ _ H)
  | H : pools _ !! _ = Some ?p |- P (pool_storage ?p) => exact (Hp _ _ H)
  end.

Ltac storages_after :=
  let Hn := fresh "Hn" in
  intros ?P (?Hs & ?Hb & ?Hp) Hn; rewrite ?Forall_cons in Hn; decompose [and] Hn;
  split_and!; cbn [storages blobs pools with_storages with_blobs with_pools with_system with_id with_cap];
  repeat match goal with
  | |- Forall _ (_ ++ _) => apply Forall_app_2
  | |- Forall _ (delete _ _) => apply Forall_delete
  | |- Forall _ (<[_ := _]> _) => apply Forall_insert
  | |- Forall _ [_] => apply Forall_singleton
  | |- map_Forall _ (<[_ := _]> _) => apply map_Forall_insert_2
  | |- map_Forall _ (delete _ _) => apply map_Forall_delete
  end; try done.

Lemma cover_reserved (s : SystemStateInnerV1) a b n i : cover (system_epoch s + i) (mk_storage (system_epoch s + a) (system_epoch s + b) n) = within a b n i.
Proof.
  unfold cover, within. cbn. destruct (Z.leb_spec (system_epoch s + a) (system_epoch s + i)), (Z.leb_spec a i); try lia;
    destruct (Z.ltb_spec (system_epoch s + i) (system_epoch s + b)), (Z.ltb_spec i b); try lia; done.
Qed.

Ltac cover_cases :=
  unfold cover; cbn;
  repeat match goal with
  | |- context [?a <=? ?b] => destruct (Z.leb_spec a b)
  | |- context [?a <? ?b] => destruct (Z.ltb_spec a b)
  end; cbn; try lia.

(** A call that only changes the state of the system. *)
Lemma effect_system c s' used paid : system_added (system c) s' used paid -> (forall i, 0 <= i -> 0 <= used i) ->
  call_effect c (with_system s' c) [] [] used paid.
Proof. intros Ha Hu. constructor; [done|totals|storages_of|by storages_after|done|]. intros _ i Hi. specialize (Hu i Hi). cbn. lia. Qed.

(** A call that reserves new storage. *)
Lemma effect_reserve c s' st paid a b n : system_added (system c) s' (within a b n) paid ->
  st = mk_storage (system_epoch (system c) + a) (system_epoch (system c) + b) n -> 0 < n -> a < b <= max_epochs_ahead (system c) ->
  call_effect c (with_storages (storages c ++ [st]) (with_system s' c)) [] [st] (within a b n) paid.
Proof.
  intros Ha -> Hn Hab. constructor; [done|totals|storages_of|storages_after| |].
  - intros _. constructor; [|constructor]. constructor; cbn; lia.
  - intros _ i Hi. cbn. rewrite cover_reserved. lia.
Qed.

(** Fusing covers no more than the two resources did. *)
Definition fuses (f : Storage -> Storage -> result Storage) : Prop := forall s a b r, f a b = Ok r -> storage_ok s a -> storage_ok s b ->
  storage_ok s r /\ forall e, cover e r <= cover e a + cover e b.

Lemma fuse_periods_fuses : fuses fuse_periods.
Proof.
  intros s a b r Hr [Ha1 Ha2 Ha3] [Hb1 Hb2 Hb3]. unfold fuse_periods in Hr. call_inv. checked.
  destruct (Z.eqb_spec (end_epoch a) (start_epoch b)); call_inv; checked; (split; [constructor; cbn; lia|]); intros e0; cover_cases.
Qed.

Lemma fuse_amount_fuses : fuses fuse_amount.
Proof.
  intros s a b r Hr [Ha1 Ha2 Ha3] [Hb1 Hb2 Hb3]. unfold fuse_amount in Hr. call_inv. checked. split; [constructor; cbn; lia|]. intros e0. cover_cases.
Qed.

Lemma fuse_fuses : fuses fuse.
Proof. intros s a b r. unfold fuse. destruct (_ =? _); [apply fuse_amount_fuses|apply fuse_periods_fuses]. Qed.

Lemma effect_fuse c i j f c' : system_ok (system c) -> fuses f -> fuse_storages c i j f = Ok c' ->
  exists old new used, call_effect c c' old new used 0.
Proof.
  intros Hok Hf Hr. unfold fuse_storages, get_storage in Hr. call_inv. apply negb_true_iff, Nat.eqb_neq in H1.
  match goal with H1 : storages c !! i = Some ?x, H2 : storages c !! j = Some ?y, H3 : f _ _ = Ok ?r |- _ =>
    rename H1 into Hi, H2 into Hj, H3 into Hfr, x into a, y into b, r into st end.
  assert (<[i := st]> (storages c) !! j = Some b) as Hj' by by rewrite list_lookup_insert_ne.
  exists [a; b], [st], nothing. constructor; [apply system_added_refl, Hok|totals|storages_of|storages_after| |].
  - intros [Ha [Hb _]%Forall_cons]%Forall_cons. constructor; [|constructor]. by apply (Hf _ _ _ _ Hfr Ha Hb).
  - intros [Ha [Hb _]%Forall_cons]%Forall_cons k _. destruct (Hf _ _ _ _ Hfr Ha Hb) as [_ Hc]. specialize (Hc (system_epoch (system c) + k)).
    unfold nothing. cbn. lia.
Qed.

Lemma effect_storage call c c' ev paid : system_ok (system c) -> execute_storage call c = Ok (c', ev, paid) ->
  (forall i n, call = SplitBySize i n -> 0 <= n) -> ev = [] /\ exists old new used, call_effect c c' old new used paid.
Proof.
  intros Hok Hr Hcall. pose proof (ok_ring _ Hok) as Hwf.
  destruct call; cbn [execute_storage] in Hr; try done; unfold get_storage in Hr; call_inv; (split; [done|]).
  - apply reserve_space_inv in H1 as (Hn & Hb & -> & Ha & _); [|done]. do 3 eexists. eapply effect_reserve; [exact Ha|f_equal; lia|done|lia].
  - apply reserve_space_for_epochs_inv in H1 as (Hn & Hb & -> & Ha & _); [|done]. do 3 eexists. eapply effect_reserve; [exact Ha|f_equal; lia|done|lia].
  - unfold split_by_epoch in H2. call_inv. checked. exists [x], [mk_storage (start_epoch x) split_epoch (storage_size x);
      mk_storage split_epoch (end_epoch x) (storage_size x)], nothing.
    constructor; [by apply system_added_refl|totals|storages_of|storages_after| |].
    + intros [[Hx1 Hx2 Hx3] _]%Forall_cons. repeat constructor; cbn; lia.
    + intros _ k _. unfold nothing. cbn. cover_cases.
  - unfold split_by_size in H2. call_inv. checked. exists [x], [mk_storage (start_epoch x) (end_epoch x) split_size;
      mk_storage (start_epoch x) (end_epoch x) (storage_size x - split_size)], nothing.
    constructor; [by apply system_added_refl|totals|storages_of|storages_after| |].
    + intros [[Hx1 Hx2 Hx3] _]%Forall_cons. pose proof (Hcall _ _ eq_refl). repeat constructor; cbn; lia.
    + intros _ k _. unfold nothing. cbn. cover_cases.
  - eapply effect_fuse; [done|exact fuse_periods_fuses|done].
  - eapply effect_fuse; [done|exact fuse_amount_fuses|done].
  - eapply effect_fuse; [done|exact fuse_fuses|done].
  - exists [x], [], nothing. constructor; [by apply system_added_refl|totals|storages_of|storages_after|done|].
    intros [[_ Hx _] _]%Forall_cons k _. unfold nothing. cbn. cover_cases.
Qed.

(** The objects a call creates have new identifiers. *)
Definition call_fresh (call : Call) c : Prop :=
  match call with
  | RegisterBlob _ id _ _ _ _ _ _ | CreateStoragePool id _ _ _ | CreateStoragePoolWithStorage id _
  | RegisterPooledBlob _ id _ _ _ _ _ _ | CertifyEventBlob _ id _ _ _ _ _ _ => id ∉ used_ids c
  | _ => True
  end.

Lemma certify_inv b e m b' ev : certify_with_certified_msg b e m = Ok (b', ev) ->
  b' = mark_certified e b /\ certified_epoch b = None /\ e < end_epoch (storage b) /\ certified_blob_id m = blob_id b /\
  ev = [EmitBlobCertified e (blob_id b) (end_epoch (storage b)) (deletable b) (blob_object_id b) false].
Proof. unfold certify_with_certified_msg, emit_certified. intros Hr. call_inv. checked. cbn in *. by simplify_eq. Qed.

Lemma effect_blob call c c' ev paid : system_ok (system c) ->
  (forall id, id ∉ used_ids c -> blobs c !! id = None /\ pools c !! id = None) -> call_fresh call c -> execute_blob call c = Ok (c', ev, paid) ->
  exists old new used, call_effect c c' old new used paid.
Proof.
  intros Hok Hids Hfresh Hr. pose proof (ok_ring _ Hok) as Hwf.
  destruct call; cbn [execute_blob] in Hr; try done; unfold get_storage, get_blob in Hr; call_inv.
  - apply register_blob_inv in H2 as [Ha Hb]; [|done]. apply blob_new_inv in Hb as (_ & -> & _). destruct (Hids id Hfresh) as [Hid _].
    exists [x], [x], nothing. constructor; [done|totals|storages_of|storages_after|done|]. intros _ k _. unfold nothing. lia.
  - unfold certify_blob in H2. call_inv. apply certify_inv in H2 as (-> & _).
    exists [storage x], [storage x], nothing. constructor; [by apply system_added_refl|totals|storages_of|storages_after|done|].
    intros _ k _. unfold nothing. lia.
  - unfold delete_blob, blob_delete in H2. call_inv.
    exists [storage x], [storage x], nothing. constructor; [by apply system_added_refl|totals|storages_of|storages_after|done|].
    intros _ k _. unfold nothing. lia.
  - exists [storage x], [], nothing. constructor; [by apply system_added_refl|totals|storages_of|storages_after|done|].
    intros [[_ Hx _] _]%Forall_cons k _. unfold nothing. cbn. cover_cases.
  - unfold extend_blob_with_resource, extend_with_resource in H3. call_inv.
    match goal with H : fuse_periods _ _ = Ok ?r |- _ => rename H into Hf, r into st end. rename x into b, x0 into ext.
    exists [storage b; ext], [st], nothing. constructor; [by apply system_added_refl|totals|storages_of|storages_after| |].
    + intros [Ha [Hb _]%Forall_cons]%Forall_cons. constructor; [|constructor]. by apply (fuse_periods_fuses _ _ _ _ Hf).
    + intros [Ha [Hb _]%Forall_cons]%Forall_cons k _. destruct (fuse_periods_fuses _ _ _ _ Hf Ha Hb) as [_ Hc].
      specialize (Hc (system_epoch (system c) + k)). unfold nothing. cbn. lia.
  - apply extend_blob_inv in H2 as (Hend & Hmax & (ce & _ & -> & _) & Ha & _); [|done]. rename x into b.
    eexists [storage b], [mk_storage (start_epoch (storage b)) (end_epoch (storage b) + extended_epochs) (storage_size (storage b))], _.
    constructor; [exact Ha|totals|storages_of|storages_after| |].
    + intros [[Hx1 Hx2 Hx3] _]%Forall_cons. repeat constructor; cbn; lia.
    + intros [[Hx1 Hx2 Hx3] _]%Forall_cons k Hk. unfold within. cbn. cover_cases.
Qed.

Lemma remove_blob_inv p b n blob p' : remove_blob p b n = Ok (blob, p') -> pool_blobs p !! b = Some blob /\
  pool_object_id p' = pool_object_id p /\ pool_storage p' = pool_storage p /\ pool_blobs p' = delete b (pool_blobs p) /\
  exists k, move_encoded_blob_length (E:=SystemAbort) (pooled_unencoded_size blob) (pooled_encoding_type blob) n = Ok k /\
    used_encoded_bytes p' = used_encoded_bytes p - k /\ blob_count p' = blob_count p - 1.
Proof. unfold remove_blob. intros Hr. call_inv. split_and!; try done. by eexists. Qed.

Lemma decrease_capacity_inv p n p' st : decrease_capacity_by_size p n = Ok (p', Some st) ->
  n <= storage_size (pool_storage p) - used_encoded_bytes p /\
  p' = set_pool_storage (mk_storage (start_epoch (pool_storage p)) (end_epoch (pool_storage p)) (storage_size (pool_storage p) - n)) p /\
  st = mk_storage (start_epoch (pool_storage p)) (end_epoch (pool_storage p)) n.
Proof.
  unfold decrease_capacity_by_size, split_by_size. destruct (n =? 0); [done|]. intros Hr. call_inv. checked.
  split_and!; [done|done|]. f_equal. lia.
Qed.

(** Storage that is split off a pool. *)
Lemma effect_decrease c id p p' n st : system_ok (system c) -> pools c !! id = Some p -> 0 <= n -> 0 <= used_encoded_bytes p ->
  decrease_capacity_by_size p n = Ok (p', Some st) ->
  exists old new used, call_effect c (with_pools (<[id := p']> (pools c)) (with_storages (storages c ++ [st]) c)) old new used 0.
Proof.
  intros Hok Hid Hn Hu Hr. apply decrease_capacity_inv in Hr as (Hle & -> & ->).
  exists [pool_storage p], [mk_storage (start_epoch (pool_storage p)) (end_epoch (pool_storage p)) (storage_size (pool_storage p) - n);
    mk_storage (start_epoch (pool_storage p)) (end_epoch (pool_storage p)) n], nothing.
  constructor; [apply system_added_refl, Hok|totals|storages_of|storages_after| |].
  - intros [[Hx1 Hx2 Hx3] _]%Forall_cons. repeat constructor; cbn; lia.
  - intros [[Hx1 Hx2 Hx3] _]%Forall_cons k _. unfold nothing. cbn. cover_cases.
Qed.

(** The arguments are unsigned. *)
Definition call_unsigned (call : Call) : Prop :=
  match call with
  | SplitBySize _ n | DecreaseStoragePoolCapacityBySize _ n | DecreaseStoragePoolUnusedCapacityByPercent _ n => 0 <= n
  | _ => True
  end.

Lemma same_pool_storage c c' p p' id paid : system_added (system c) (system c') nothing paid -> pools c' = <[id := p']> (pools c) ->
  pools c !! id = Some p -> pool_storage p' = pool_storage p -> storages c' = storages c -> blobs c' = blobs c ->
  exists old new used, call_effect c c' old new used paid.
Proof.
  intros Ha Hps Hp Hst Hs Hb. exists [pool_storage p], [pool_storage p], nothing. constructor; [done| |storages_of| |done|].
  - intros f. unfold in_total. rewrite Hs, Hb, Hps, (msum_replace _ _ _ _ _ Hp), Hst. lia.
  - intros P (Hs' & Hb' & Hp') Hn. split_and!; rewrite ?Hs, ?Hb, ?Hps; [done|done|]. apply map_Forall_insert_2; [|done].
    rewrite Hst. by apply (Hp' _ _ Hp).
  - intros _ k _. unfold nothing. lia.
Qed.

Lemma effect_pool call c c' ev paid : system_ok (system c) ->
  (forall id, id ∉ used_ids c -> blobs c !! id = None /\ pools c !! id = None) -> call_fresh call c -> call_unsigned call ->
  map_Forall (fun _ p => 0 <= used_encoded_bytes p) (pools c) ->
  execute_pool call c = Ok (c', ev, paid) -> exists old new used, call_effect c c' old new used paid.
Proof.
  intros Hok Hids Hfresh Huns Hpu Hr. pose proof (ok_ring _ Hok) as Hwf.
  destruct call; cbn [execute_pool] in Hr; try done; unfold get_storage, get_pool in Hr; call_inv.
  - unfold create_storage_pool, create_storage_pool_with_storage in H1. call_inv. destruct (Hids id Hfresh) as [_ Hid].
    match goal with H : reserve_space _ _ _ _ = _ |- _ => apply reserve_space_inv in H as (Hn & Hb & -> & Ha & _); [|done] end.
    eexists [], [mk_storage (system_epoch (system c)) (system_epoch (system c) + epochs_ahead) reserved], _.
    constructor; [exact Ha|totals|storages_of|storages_after| |].
    + intros _. repeat constructor; cbn; lia.
    + intros _ k Hk. cbn. rewrite <- (Z.add_0_r (system_epoch (system c))) at 2. rewrite cover_reserved. lia.
  - unfold create_storage_pool_with_storage in H2. call_inv. destruct (Hids id Hfresh) as [_ Hid].
    exists [x], [x], nothing. constructor; [by apply system_added_refl|totals|storages_of|storages_after|done|]. intros _ k _. unfold nothing. lia.
  - unfold register_pooled_blob, add_blob in H2. call_inv.
    match goal with H : pay_write_price _ _ _ = _ |- _ => apply pay_write_price_inv in H; [|done] end. eapply same_pool_storage; done.
  - unfold delete_pooled_blob in H2. call_inv.
    match goal with H : remove_blob _ _ _ = _ |- _ => apply remove_blob_inv in H as (_ & _ & Hst & _) end.
    eapply same_pool_storage; [by apply system_added_refl|..]; done.
  - unfold burn_expired_pooled_blob in H2. call_inv.
    match goal with H : remove_blob _ _ _ = _ |- _ => apply remove_blob_inv in H as (_ & _ & Hst & _) end.
    eapply same_pool_storage; [by apply system_added_refl|..]; done.
  - unfold extend_storage_pool, pool_extend_end_epoch, extend_end_epoch, pool_end in H2. call_inv. checked. rename x into p.
    match goal with H : process_storage_payments _ _ _ _ _ = _ |- _ => apply process_storage_payments_inv in H as Hpay; [|done|lia] end.
    match goal with H : account_capacity _ _ _ _ = _ |- _ =>
      apply account_capacity_inv in H as [Ha _]; [|by eapply system_ok_added|lia] end.
    pose proof (system_added_trans _ _ _ _ _ _ _ Hpay Ha) as Hadd. rewrite Z.add_0_r in Hadd.
    eexists [pool_storage p], [mk_storage (start_epoch (pool_storage p)) (end_epoch (pool_storage p) + extended_epochs) (storage_size (pool_storage p))], _.
    constructor; [exact Hadd|totals|storages_of|storages_after| |].
    + intros [[Hx1 Hx2 Hx3] _]%Forall_cons. repeat constructor; cbn; lia.
    + intros [[Hx1 Hx2 Hx3] _]%Forall_cons k Hk. unfold within, nothing. cbn. cover_cases.
  - unfold increase_storage_pool_capacity, increase_reserved_encoded_capacity, increase_size, pool_end in H2. call_inv. checked. rename x into p.
    match goal with H : process_storage_payments _ _ _ _ _ = _ |- _ => apply process_storage_payments_inv in H as Hpay; [|done|lia] end.
    match goal with H : account_capacity _ _ _ _ = _ |- _ =>
      apply account_capacity_inv in H as [Ha _]; [|by eapply system_ok_added|lia] end.
    pose proof (system_added_trans _ _ _ _ _ _ _ Hpay Ha) as Hadd. rewrite Z.add_0_r in Hadd.
    eexists [pool_storage p], [mk_storage (start_epoch (pool_storage p)) (end_epoch (pool_storage p)) (storage_size (pool_storage p) + additional)], _.
    constructor; [exact Hadd|totals|storages_of|storages_after| |].
    + intros [[Hx1 Hx2 Hx3] _]%Forall_cons. repeat constructor; cbn; lia.
    + intros [[Hx1 Hx2 Hx3] _]%Forall_cons k Hk. unfold within, nothing. cbn. cover_cases.
  - unfold increase_storage_pool_capacity_with_storage, increase_capacity_with_storage, increase_size, pool_end in H3. call_inv. checked.
    rename x into p, x0 into st.
    exists [pool_storage p; st], [mk_storage (start_epoch (pool_storage p)) (end_epoch (pool_storage p)) (storage_size (pool_storage p) + storage_size st)], nothing.
    constructor; [by apply system_added_refl|totals|storages_of|storages_after| |].
    + intros [[Hx1 Hx2 Hx3] [[Hy1 Hy2 Hy3] _]%Forall_cons]%Forall_cons. repeat constructor; cbn; lia.
    + intros [[Hx1 Hx2 Hx3] [[Hy1 Hy2 Hy3] _]%Forall_cons]%Forall_cons k Hk. unfold nothing. cbn. cover_cases.
  - unfold decrease_storage_pool_capacity_by_size in H2. call_inv. eapply effect_decrease; [done|done|done|by apply (Hpu _ _ H1)|done].
  - unfold decrease_storage_pool_unused_capacity_by_percent, decrease_unused_capacity_by_percent in H2. call_inv. checked.
    eapply effect_decrease; [done|done| |by apply (Hpu _ _ H1)|done]. lia.
  - match goal with H : certify_pooled_blob _ _ _ _ _ _ = _ |- _ => unfold certify_pooled_blob in H end. call_inv. eapply same_pool_storage; [by apply system_added_refl|..]; done.
  - match goal with H : pool_destroy _ = _ |- _ => unfold pool_destroy in H end. call_inv. exists [pool_storage x], [pool_storage x], nothing.
    constructor; [by apply system_added_refl|totals|storages_of|storages_after|done|]. intros _ k _. unfold nothing. lia.
Qed.

Lemma effect_other call c c' ev paid : system_ok (system c) -> (forall cm cap, call <> AdvanceEpoch cm cap) ->
  execute_system call c = Ok (c', ev, paid) -> exists old new used, call_effect c c' old new used paid.
Proof.
  intros Hok Hne Hr. pose proof (ok_ring _ Hok) as Hwf.
  assert (forall s' used paid c', system_added (system c) s' used paid -> (forall i, 0 <= i -> 0 <= used i) -> system c' = s' ->
    storages c' = storages c -> blobs c' = blobs c -> pools c' = pools c -> exists old new used, call_effect c c' old new used paid) as Hsys.
  { intros s' used paid' c1 Ha Hu <- Hst Hb Hp. destruct (effect_system c (system c1) used paid' Ha Hu) as [E1 E2 E3 E4 E5 E6].
    exists [], [], used. constructor; [done| |done| |done|done].
    - intros f. specialize (E2 f). unfold in_total in *. rewrite Hst, Hb, Hp. done.
    - intros P HP HP'. specialize (E4 P HP HP'). unfold all_storages in *. by rewrite Hst, Hb, Hp. }
  assert (forall c', committee (system c') = committee (system c) -> total_capacity_size (system c') = total_capacity_size (system c) ->
    used_capacity_size (system c') = used_capacity_size (system c) -> future_accounting (system c') = future_accounting (system c) ->
    storages c' = storages c -> blobs c' = blobs c -> pools c' = pools c -> exists old new used, call_effect c c' old new used 0) as Hfields.
  { intros c1 E1 E2 E3 E4 E5 E6 E7. apply (Hsys (system c1) nothing 0); try done.
    by apply (system_added_fields _ (system c)); [..|apply system_added_refl]. }
  destruct call; cbn [execute_system] in Hr; try done; unfold get_cap in Hr; call_inv; try (by apply Hfields).
  - match goal with H : certify_event_blob _ _ _ _ _ _ _ _ _ = _ |- _ => apply certify_event_blob_inv in H as (used & Ha & Hu); [|done] end.
    by eapply Hsys.
  - match goal with H : add_subsidy _ _ _ = _ |- _ => apply add_subsidy_inv in H; [|done] end. by eapply Hsys.
  - match goal with H : add_per_epoch_subsidies _ _ = _ |- _ => apply add_per_epoch_subsidies_inv in H; [|done] end. by eapply Hsys.
  - match goal with H : update_deny_list _ _ _ _ _ = _ |- _ => unfold update_deny_list in H end. call_inv.
    by apply Hfields.
  - by destruct (Hne new_committee capacity).
  - match goal with H : extract_burn_balance _ = _ |- _ => apply extract_burn_inv in H; [|done] end. by eapply Hsys.
Qed.

(** ** Pools *)

Lemma encoded_length_range size enc n k : move_encoded_blob_length (E:=SystemAbort) size enc n = Ok k -> 0 <= k /\ n <> 0.
Proof.
  unfold move_encoded_blob_length, redstuff_encoded_blob_length, move_source_symbols_primary, max_byzantine. intros Hr. call_inv. split; lia.
Qed.

Lemma encoded_length_type size enc n k : move_encoded_blob_length (E:=SystemAbort) size enc n = Ok k -> enc = 1.
Proof. unfold move_encoded_blob_length. intros Hr. call_inv. by checked. Qed.

Lemma pool_create_ok n id st : 0 <= storage_size st -> pool_ok n (pool_create id st).
Proof. intros Hst. constructor; cbn; [by unfold msum; rewrite map_to_list_empty|by rewrite map_size_empty|lia|done]. Qed.

Lemma add_blob_ok n p b k p' : pool_ok n p -> add_blob p b k = Ok p' ->
  move_encoded_blob_length (E:=SystemAbort) (pooled_unencoded_size b) (pooled_encoding_type b) n = Ok k -> pool_ok n p'.
Proof.
  intros [[Hu Hle] Hc Hrng Hs] Hr Hk. unfold add_blob in Hr. call_inv. checked.
  assert (pooled_size n b = k) as Hsize by (unfold pooled_size; by rewrite Hk). pose proof (encoded_length_range _ _ _ _ Hk).
  match goal with H : pool_blobs p !! _ = None |- _ => rename H into Hnone end. constructor; cbn.
  - rewrite msum_insert_fresh by done. rewrite Hsize. lia.
  - rewrite map_size_insert_None by done. lia.
  - lia.
  - apply map_Forall_insert_2; [|done]. rewrite Hsize. split_and!; [done|lia|done].
Qed.

Lemma remove_blob_ok n p id b p' : pool_ok n p -> remove_blob p id n = Ok (b, p') -> pool_ok n p'.
Proof.
  intros [[Hu Hle] Hc Hrng Hs] Hr. apply remove_blob_inv in Hr as (Hb & _ & Hst & Hbs & k & Hk & Hu' & Hc').
  assert (pooled_size n b = k) as Hsize by (unfold pooled_size; by rewrite Hk). pose proof (encoded_length_range _ _ _ _ Hk). constructor.
  - rewrite Hbs, (msum_delete _ _ _ _ Hb), Hsize, Hst. lia.
  - rewrite Hbs, map_size_delete_Some by done. assert (size (pool_blobs p) <> 0%nat); [|lia].
    intros Hz. apply map_size_empty_inv in Hz. by rewrite Hz in Hb.
  - lia.
  - rewrite Hbs. by apply map_Forall_delete.
Qed.

Lemma pool_storage_ok n p st : pool_ok n p -> used_encoded_bytes p <= storage_size st -> pool_ok n (set_pool_storage st p).
Proof. intros [[Hu Hle] Hc Hrng Hs] Hst. by constructor. Qed.

Lemma decrease_ok n p k p' st : pool_ok n p -> decrease_capacity_by_size p k = Ok (p', Some st) -> pool_ok n p' /\ pool_object_id p' = pool_object_id p.
Proof. intros Hp Hr. apply decrease_capacity_inv in Hr as (Hle & -> & _). split; [|done]. apply pool_storage_ok; [done|]. cbn. lia. Qed.

Lemma pool_used_nonneg n p : pool_ok n p -> 0 <= used_encoded_bytes p.
Proof. intros [[-> _] _ _ Hs]. apply msum_nonneg. intros k b Hb. by apply (Hs _ _ Hb). Qed.

Lemma remove_blob_total n p id b : pool_ok n p -> pool_blobs p !! id = Some b ->
  exists p', remove_blob p id n = Ok (b, p') /\ pool_blobs p' = delete id (pool_blobs p).
Proof.
  intros [[Hu Hle] Hc Hr Hs] Hb. destruct (Hs id b Hb) as (_ & Hk & Hlen).
  assert (0 <= msum (pooled_size n) (delete id (pool_blobs p))) as Hrest by (apply msum_nonneg, map_Forall_delete; intros i x Hx; by apply (Hs i x)).
  rewrite (msum_delete _ _ _ _ Hb) in Hrest.
  assert (size (pool_blobs p) <> 0%nat) as Hsz by (intros Hz; apply map_size_empty_inv in Hz; by rewrite Hz in Hb).
  unfold remove_blob. rewrite Hb. cbn. rewrite Hlen. cbn. rewrite (proj2 (Z.leb_le _ _)) by lia. cbn.
  rewrite (proj2 (move_arith_Ok 64 _ _)) by (split; [done|lia]). cbn. rewrite (proj2 (Z.leb_le _ _)) by lia. cbn.
  rewrite (proj2 (move_arith_Ok 64 _ _)) by (split; [done|lia]). cbn. eauto.
Qed.

Lemma certified_pool_ok n p id b e m b' ev : pool_ok n p -> pool_blobs p !! id = Some b ->
  pooled_certify b e (pool_end p) m = Ok (b', ev) ->
  pool_ok n (mk_storage_pool (pool_object_id p) (pool_storage p) (used_encoded_bytes p) (blob_count p) (<[id := b']> (pool_blobs p))).
Proof.
  intros [[Hu Hle] Hc Hrng Hs] Hb Hr. unfold pooled_certify in Hr. call_inv.
  match goal with |- context [<[id := ?x]> _] => assert (pooled_size n x = pooled_size n b) as Hsize by done end.
  destruct (Hs _ _ Hb) as (Hid & H1' & H2'). constructor; cbn.
  - rewrite (msum_replace _ _ _ _ _ Hb), Hsize. lia.
  - rewrite map_size_insert_Some by done. done.
  - lia.
  - by apply map_Forall_insert_2.
Qed.
End props.
