(* ===== verification/SystemInvariant.v ===== *)
(** * Reachable states of the system contract

    [chain_step] is one transaction.  In every reachable state the contract
    accounts for all storage that users hold, in every epoch, and every storage
    pool has room for its blobs; all payments are in the accounts until they are
    distributed or burnt. *)

From S2P Require Import Prelude Redstuff Merkle MoveStd StorageAccounting Certificates SystemObjects SystemState SystemContract.
From S2P Require Import SystemAccounting SystemEpochs SystemProps.

Section invariant.
Context `{Bls12381} `{HashFunction} (n : Z).
Implicit Types c : Chain.

(** What the staking contract guarantees about the committees that it appoints. *)
Definition call_committee (call : Call) : Prop :=
  match call with
  | AdvanceEpoch new_committee _ =>
    bls_wf new_committee /\ NoDup (node_id <$> members new_committee) /\ n_shards new_committee = n
  | _ => True
  end.

Definition call_allowed (call : Call) c : Prop := call_fresh call c /\ call_unsigned call /\ call_committee call.

Inductive chain_step c (events : list SystemEvent) (paid : Z) c' : Prop :=
| cs_call call : call_allowed call c -> execute call c = Ok (c', events, paid) -> chain_step c events paid c'.

Definition chain_init (max_epochs : Z) c : Prop :=
  0 < max_epochs /\ create_empty max_epochs = Ok (system c) /\ storages c = [] /\ blobs c = ∅ /\ pools c = ∅ /\ caps c = ∅.

(** The payments since the beginning. *)
Inductive chain_reachable (max_epochs : Z) : Chain -> Z -> Prop :=
| cr_init c : chain_init max_epochs c -> chain_reachable max_epochs c 0
| cr_step c events paid c' total : chain_reachable max_epochs c total -> chain_step c events paid c' ->
    chain_reachable max_epochs c' (total + paid).

(** ** Objects *)

Record objects_inv c : Prop := {
  oi_blobs : map_Forall (fun id b => blob_object_id b = id) (blobs c);
  oi_pools : map_Forall (fun id p => pool_object_id p = id /\ pool_ok n p) (pools c);
  oi_ids : forall id, id ∉ used_ids c -> blobs c !! id = None /\ pools c !! id = None;
}.

Lemma used_blob c id b : objects_inv c -> blobs c !! id = Some b -> id ∈ used_ids c.
Proof. intros [_ _ Hi] Hb. destruct (decide (id ∈ used_ids c)) as [|Hn]; [done|]. destruct (Hi id Hn). congruence. Qed.

Lemma used_pool c id p : objects_inv c -> pools c !! id = Some p -> id ∈ used_ids c.
Proof. intros [_ _ Hi] Hb. destruct (decide (id ∈ used_ids c)) as [|Hn]; [done|]. destruct (Hi id Hn). congruence. Qed.

Lemma objects_blobs c m c' : objects_inv c -> map_Forall (fun id b => blob_object_id b = id) m ->
  (forall id, m !! id <> None -> id ∈ used_ids c') -> used_ids c ⊆ used_ids c' -> blobs c' = m -> pools c' = pools c -> objects_inv c'.
Proof.
  intros [Hb Hp Hi] Hm Hid Hsub Hbs Hps. constructor; rewrite ?Hbs, ?Hps; [done|done|]. intros id Hn. split; [|apply Hi; set_solver].
  destruct (m !! id) eqn:Hmi; [|done]. destruct Hn. apply Hid. by rewrite Hmi.
Qed.

Lemma objects_pools c m c' : objects_inv c -> map_Forall (fun id p => pool_object_id p = id /\ pool_ok n p) m ->
  (forall id, m !! id <> None -> id ∈ used_ids c') -> used_ids c ⊆ used_ids c' -> blobs c' = blobs c -> pools c' = m -> objects_inv c'.
Proof.
  intros [Hb Hp Hi] Hm Hid Hsub Hbs Hps. constructor; rewrite ?Hbs, ?Hps; [done|done|]. intros id Hn. split; [apply Hi; set_solver|].
  destruct (m !! id) eqn:Hmi; [|done]. destruct Hn. apply Hid. by rewrite Hmi.
Qed.

(** A blob or pool is put in or replaced. *)
Lemma objects_blob c id b c' : objects_inv c -> blobs c' = <[id := b]> (blobs c) -> pools c' = pools c ->
  blob_object_id b = id -> id ∈ used_ids c' -> used_ids c ⊆ used_ids c' -> objects_inv c'.
Proof.
  intros Hc Hbs Hps Hb Hid Hsub. eapply objects_blobs; [exact Hc|apply map_Forall_insert_2; [exact Hb|apply Hc]| |done|done|done].
  intros id' Hn. destruct (decide (id' = id)) as [->|Hne]; [done|]. rewrite lookup_insert_ne in Hn by done.
  apply Hsub. destruct (blobs c !! id') eqn:Hx; [by eapply used_blob|done].
Qed.

Lemma objects_pool c id p c' : objects_inv c -> pools c' = <[id := p]> (pools c) -> blobs c' = blobs c ->
  pool_object_id p = id -> pool_ok n p -> id ∈ used_ids c' -> used_ids c ⊆ used_ids c' -> objects_inv c'.
Proof.
  intros Hc Hps Hbs Hb Hok Hid Hsub. eapply objects_pools; [exact Hc|apply map_Forall_insert_2; [by split|apply Hc]| |done|done|done].
  intros id' Hn. destruct (decide (id' = id)) as [->|Hne]; [done|]. rewrite lookup_insert_ne in Hn by done.
  apply Hsub. destruct (pools c !! id') eqn:Hx; [by eapply used_pool|done].
Qed.

Lemma objects_same c c' : objects_inv c -> blobs c' = blobs c -> pools c' = pools c -> used_ids c ⊆ used_ids c' -> objects_inv c'.
Proof. intros [Hb Hp Hi] Hbs Hps Hsub. constructor; rewrite ?Hbs, ?Hps; [done|done|]. intros id Hn. apply Hi. set_solver. Qed.

Lemma objects_deleted_blob c id c' : objects_inv c -> blobs c' = delete id (blobs c) -> pools c' = pools c -> used_ids c' = used_ids c -> objects_inv c'.
Proof.
  intros Hc Hbs Hps Hid. eapply objects_blobs; [exact Hc|apply map_Forall_delete, Hc| |by rewrite Hid|done|done].
  intros id' Hn. rewrite Hid. destruct (blobs c !! id') eqn:Hx; [by eapply used_blob|].
  destruct Hn. rewrite lookup_delete_None. by right.
Qed.

Lemma objects_deleted_pool c id c' : objects_inv c -> blobs c' = blobs c -> pools c' = delete id (pools c) -> used_ids c' = used_ids c -> objects_inv c'.
Proof.
  intros Hc Hbs Hps Hid. eapply objects_pools; [exact Hc|apply map_Forall_delete, Hc| |by rewrite Hid|done|done].
  intros id' Hn. rewrite Hid. destruct (pools c !! id') eqn:Hx; [by eapply used_pool|].
  destruct Hn. rewrite lookup_delete_None. by right.
Qed.

Lemma objects_execute_blob call c c' ev paid : objects_inv c -> execute_blob call c = Ok (c', ev, paid) -> objects_inv c'.
Proof.
  intros Hc Hr. destruct call; cbn [execute_blob] in Hr; try done; unfold get_storage, get_blob in Hr; call_inv.
  - unfold register_blob in H2. call_inv. match goal with H : blob_new _ _ _ _ _ _ _ _ _ = _ |- _ => apply blob_new_inv in H as (_ & -> & _) end.
    eapply objects_blob; [exact Hc|done|done| | |]; cbn; [done|set_solver|set_solver].
  - unfold certify_blob in H2. call_inv. apply certify_inv in H2 as (-> & _).
    eapply objects_blob; [exact Hc|done|done| |by eapply (used_blob c)|done]. cbn. by apply (oi_blobs _ Hc).
  - by eapply objects_deleted_blob.
  - by eapply objects_deleted_blob.
  - unfold extend_blob_with_resource, extend_with_resource in H3. call_inv.
    eapply objects_blob; [exact Hc|done|done| |by eapply (used_blob c)|done]. cbn. by apply (oi_blobs _ Hc).
  - unfold extend_blob in H2. call_inv.
    eapply objects_blob; [exact Hc|done|done| |by eapply (used_blob c)|done]. cbn. by apply (oi_blobs _ Hc).
Qed.

Lemma pooled_fields id pool b root size enc del e p ev : new_pooled_blob id pool b root size enc del e = Ok (p, ev) ->
  p = mk_pooled_blob id e b size enc None pool del /\ ev = [EmitPooledBlobRegistered e b size enc del id pool].
Proof. unfold new_pooled_blob. intros Hr. by call_inv. Qed.

Lemma objects_execute_pool call c c' ev paid : objects_inv c -> all_storages (storage_ok (system c)) c ->
  system_n_shards (system c) = n \/ system_n_shards (system c) = 0 -> execute_pool call c = Ok (c', ev, paid) -> objects_inv c'.
Proof.
  intros Hc (Hsts & _ & Hpst) Hn Hr. pose proof (oi_pools _ Hc) as Hps.
  destruct call; cbn [execute_pool] in Hr; try done; unfold get_storage, get_pool in Hr; call_inv.
  - unfold create_storage_pool, create_storage_pool_with_storage in H1. call_inv. checked.
    eapply objects_pool; [exact Hc|done|done| | | |]; cbn; [done|apply pool_create_ok; lia|set_solver|set_solver].
  - unfold create_storage_pool_with_storage in H2. call_inv. checked.
    eapply objects_pool; [exact Hc|done|done| | | |]; cbn; [done|apply pool_create_ok; lia|set_solver|set_solver].
  - destruct (Hps _ _ H1) as [Hid Hpo]. unfold register_pooled_blob in H2. call_inv.
    match goal with H : new_pooled_blob _ _ _ _ _ _ _ _ = _ |- _ => apply pooled_fields in H as [-> _] end.
    match goal with H : move_encoded_blob_length _ _ _ = Ok _, H' : add_blob _ _ _ = Ok _ |- _ => rename H into Hk, H' into Hadd end.
    destruct Hn as [Hn|Hn]; rewrite Hn in Hk; [|by destruct (encoded_length_range _ _ _ _ Hk)].
    eapply objects_pool; [exact Hc|done|done| |by eapply add_blob_ok| |]; cbn; [|pose proof (used_pool _ _ _ Hc H1); set_solver|set_solver].
    unfold add_blob in Hadd. by call_inv.
  - destruct (Hps _ _ H1) as [Hid Hpo]. unfold delete_pooled_blob in H2. call_inv.
    match goal with H : remove_blob _ _ _ = _ |- _ => rename H into Hrem; apply remove_blob_inv in Hrem as Hinv end.
    destruct Hinv as (_ & Hpid & _ & _ & k & Hk & _). destruct Hn as [Hn|Hn]; rewrite Hn in Hk, Hrem; [|by destruct (encoded_length_range _ _ _ _ Hk)].
    eapply objects_pool; [exact Hc|done|done|by rewrite Hpid|by eapply remove_blob_ok|by eapply (used_pool c)|done].
  - destruct (Hps _ _ H1) as [Hid Hpo]. unfold burn_expired_pooled_blob in H2. call_inv.
    match goal with H : remove_blob _ _ _ = _ |- _ => rename H into Hrem; apply remove_blob_inv in Hrem as Hinv end.
    destruct Hinv as (_ & Hpid & _ & _ & k & Hk & _). destruct Hn as [Hn|Hn]; rewrite Hn in Hk, Hrem; [|by destruct (encoded_length_range _ _ _ _ Hk)].
    eapply objects_pool; [exact Hc|done|done|by rewrite Hpid|by eapply remove_blob_ok|by eapply (used_pool c)|done].
  - destruct (Hps _ _ H1) as [Hid Hpo]. unfold extend_storage_pool, pool_extend_end_epoch, extend_end_epoch in H2. call_inv.
    eapply objects_pool; [exact Hc|done|done|done|by apply pool_storage_ok; [|apply Hpo]|by eapply (used_pool c)|done].
  - destruct (Hps _ _ H1) as [Hid Hpo]. unfold increase_storage_pool_capacity, increase_reserved_encoded_capacity, increase_size in H2. call_inv. checked.
    eapply objects_pool; [exact Hc|done|done|done|apply pool_storage_ok; [done|]|by eapply (used_pool c)|done]. destruct Hpo as [[_ Hle] _ _ _]. cbn. lia.
  - destruct (Hps _ _ H1) as [Hid Hpo]. unfold increase_storage_pool_capacity_with_storage, increase_capacity_with_storage, increase_size in H3. call_inv.
    eapply objects_pool; [exact Hc|done|done|done|apply pool_storage_ok; [done|]|by eapply (used_pool c)|done].
    destruct Hpo as [[_ Hle] _ _ _]. pose proof (st_size _ _ (Forall_lookup_1 _ _ _ _ Hsts H2)). cbn. lia.
  - destruct (Hps _ _ H1) as [Hid Hpo]. unfold decrease_storage_pool_capacity_by_size in H2. call_inv.
    match goal with H : decrease_capacity_by_size _ _ = _ |- _ => destruct (decrease_ok _ _ _ _ _ Hpo H) as [Hpo' Hpid] end.
    eapply objects_pool; [exact Hc|done|done|by rewrite Hpid|done|by eapply (used_pool c)|done].
  - destruct (Hps _ _ H1) as [Hid Hpo]. unfold decrease_storage_pool_unused_capacity_by_percent, decrease_unused_capacity_by_percent in H2. call_inv.
    match goal with H : decrease_capacity_by_size _ _ = _ |- _ => destruct (decrease_ok _ _ _ _ _ Hpo H) as [Hpo' Hpid] end.
    eapply objects_pool; [exact Hc|done|done|by rewrite Hpid|done|by eapply (used_pool c)|done].
  - destruct (Hps _ _ H1) as [Hid Hpo]. unfold certify_pooled_blob in H2. call_inv.
    eapply objects_pool; [exact Hc|done|done|done|by eapply certified_pool_ok|by eapply (used_pool c)|done].
  - by eapply objects_deleted_pool.
Qed.

Lemma objects_execute_system call c c' ev paid : objects_inv c -> execute_system call c = Ok (c', ev, paid) -> objects_inv c'.
Proof.
  intros Hc Hr. destruct call; cbn [execute_system] in Hr; try done; call_inv; try done; (eapply objects_same; [exact Hc|done|done|]); cbn; set_solver.
Qed.

(** ** The invariant *)

Record chain_inv c : Prop := {
  ci_system : system_ok (system c);
  ci_committee : bls_wf (committee (system c)) /\ NoDup (node_id <$> members (committee (system c)));
  ci_shards : system_n_shards (system c) = n \/ system_n_shards (system c) = 0;
  ci_storages : all_storages (storage_ok (system c)) c;
  ci_cover : forall i a, window (future_accounting (system c)) !! Z.to_nat i = Some a -> 0 <= i ->
    in_total (cover (system_epoch (system c) + i)) c <= used_capacity a;
  ci_objects : objects_inv c;
}.

Lemma ring_new_wf k : 0 < k <= MAX_MAX_EPOCHS_AHEAD ->
  ring_wf (ring_new k) /\ window (ring_new k) = (fun e => mk_accounting e 0 0) <$> seqZ 0 k.
Proof.
  unfold MAX_MAX_EPOCHS_AHEAD. intros Hk. split; [|by unfold window; cbn; rewrite drop_0, app_nil_r].
  constructor; cbn; [lia| |lia]. rewrite length_fmap, length_seqZ. lia.
Qed.

Lemma treasury_new k : 0 < k <= MAX_MAX_EPOCHS_AHEAD -> treasury (ring_new k) = 0.
Proof.
  intros Hk. destruct (ring_new_wf k Hk) as [_ Hw]. unfold treasury. rewrite Hw, <- list_fmap_compose. clear Hw.
  induction (seqZ 0 k) as [|x l IH]; [done|]. exact IH.
Qed.

Lemma init_inv k c : chain_init k c -> chain_inv c /\ treasury (future_accounting (system c)) = 0 /\ max_epochs_ahead (system c) = k.
Proof.
  intros (Hk & Hc & Hs & Hb & Hp & _). unfold create_empty in Hc. call_inv. checked.
  match goal with H : new_bls_committee _ _ = Ok ?x |- _ => apply new_bls_committee_wf in H as (Hwf & Hm & He); rename x into cm end.
  match goal with H : mk_system _ _ _ _ _ _ _ _ = system c |- _ => rename H into Hsys end. rewrite <- Hsys.
  destruct (ring_new_wf k ltac:(lia)) as [Hrwf Hw].
  assert (window (ring_new k) !! 0%nat = Some (mk_accounting 0 0 0)) as Hw0
    by (rewrite Hw, list_lookup_fmap, lookup_seqZ_lt by lia; done).
  split_and!; [|by apply treasury_new|done]. constructor; rewrite <- ?Hsys; cbn.
  - constructor; cbn; [done| |by rewrite head_lookup, Hw0|unfold system_epoch; cbn; lia].
    intros i a Ha. rewrite Hw, list_lookup_fmap in Ha. apply fmap_Some in Ha as (x & Hx & ->). apply lookup_seqZ in Hx as [-> _].
    unfold system_epoch. cbn. lia.
  - rewrite Hm. split; [done|constructor].
  - right. unfold system_n_shards. cbn. destruct (wf_shards _ Hwf) as [-> _]. by rewrite Hm.
  - unfold all_storages. rewrite Hs, Hb, Hp. done.
  - intros i a Ha Hi. rewrite Hw, list_lookup_fmap in Ha. apply fmap_Some in Ha as (x & Hx & ->). unfold in_total, msum.
    rewrite Hs, Hb, Hp, !map_to_list_empty. cbn. lia.
  - constructor; rewrite ?Hb, ?Hp; [done|done|]. intros id _. by rewrite !lookup_empty.
Qed.

(** A call that is not an epoch change. *)
Lemma execute_effect call c c' ev paid : chain_inv c -> call_allowed call c -> (forall cm cap, call <> AdvanceEpoch cm cap) ->
  execute call c = Ok (c', ev, paid) -> (exists old new used, call_effect c c' old new used paid) /\ objects_inv c'.
Proof.
  intros [Hok _ Hn Hst _ Hobj] (Hf & Hu & _) Hne Hr. pose proof (oi_ids _ Hobj) as Hids.
  assert (map_Forall (fun _ p => 0 <= used_encoded_bytes p) (pools c)) as Hpu.
  { intros id p Hp. destruct (oi_pools _ Hobj id p Hp) as [_ Hpo]. by eapply pool_used_nonneg. }
  destruct call; cbn [execute] in Hr;
    first
      [ (split; [destruct (effect_storage _ _ _ _ _ Hok Hr) as [_ He]; [by intros ? ? [= <- <-]|exact He]|]);
        cbn [execute_storage] in Hr; unfold fuse_storages in Hr; call_inv; by eapply objects_same
      | (split; [by eapply effect_blob|by eapply objects_execute_blob])
      | (split; [by eapply effect_pool|by eapply objects_execute_pool])
      | (split; [by eapply effect_other|by eapply objects_execute_system]) ].
Qed.

(** The epoch change: nothing is covered in the epoch that comes into the window. *)
Lemma advance_inv c c' cm cap ev paid : chain_inv c -> call_committee (AdvanceEpoch cm cap) ->
  execute (AdvanceEpoch cm cap) c = Ok (c', ev, paid) ->
  chain_inv c' /\ treasury (future_accounting (system c')) = treasury (future_accounting (system c)) + paid /\
  max_epochs_ahead (system c') = max_epochs_ahead (system c).
Proof.
  intros [Hok _ _ Hst Hcov Hobj] (Hcm & Hnd & Hn) Hr. cbn [execute execute_system] in Hr. call_inv.
  match goal with H : advance_epoch _ _ _ = Ok _ |- _ => apply advance_epoch_inv in H as (Hok' & [He Hl Hu Hlast Ht] & Hc & _ & _); [|done] end.
  split; [|cbn; split; [lia|done]]. constructor; cbn; [done|by rewrite Hc|left; unfold system_n_shards; by rewrite Hc| | |by eapply objects_same].
  - eapply all_storages_impl; [|exact Hst]. intros st [H1 H2 H3]. constructor; [done|done|]. cbn in *. lia.
  - intros i a' Ha' Hi. destruct (window_at _ _ _ (ok_ring _ Hok') Hi Ha') as [Hlt _].
    unfold max_epochs_ahead in *. rewrite He. replace (system_epoch (system c) + 1 + i) with (system_epoch (system c) + (i + 1)) by lia.
    change (in_total ?f (with_system _ c)) with (in_total f c).
    destruct (decide (i + 1 < ring_length (future_accounting (system c)))) as [Hin|Hout].
    + destruct (window_total _ (i + 1) (ok_ring _ Hok) ltac:(lia)) as [a Ha]. pose proof (Hcov _ _ Ha ltac:(lia)) as Hle.
      destruct (Hu i a Hi Ha) as (b & Hb & Hbu). rewrite Ha' in Hb. injection Hb as <-. lia.
    + destruct Hlast as (b & Hb & Hb0). replace (ring_length (future_accounting (system c)) - 1) with i in Hb by lia. rewrite Ha' in Hb.
      injection Hb as <-. rewrite total_cover_far; [lia|]. eapply all_storages_impl; [|exact Hst].
      intros st [_ _ Hend]. unfold max_epochs_ahead in Hend. cbn in *. lia.
Qed.

Lemma chain_step_inv c ev paid c' : chain_inv c -> chain_step c ev paid c' ->
  chain_inv c' /\ treasury (future_accounting (system c')) = treasury (future_accounting (system c)) + paid /\
  max_epochs_ahead (system c') = max_epochs_ahead (system c).
Proof.
  intros Hinv [call Hall Hr].
  assert ((exists cm cap, call = AdvanceEpoch cm cap) \/ (forall cm cap, call <> AdvanceEpoch cm cap)) as [(cm & cap & ->)|Hne]
    by (destruct call; eauto; by right).
  { eapply advance_inv; [done|apply Hall|done]. }
  edestruct execute_effect as [(old & new & used & He) Hobj]; [exact Hinv|exact Hall|exact Hne|exact Hr|].
  pose proof (ce_system _ _ _ _ _ _ He) as Hsa. destruct Hinv as [Hok Hcm Hn Hst Hcov _].
  destruct (storages_inv _ _ _ _ _ _ He Hok Hst Hcov) as (Hok' & Hst' & Hcov').
  split; [|split; [apply Hsa|by apply (sa_length _ _ _ _ Hsa)]].
  constructor; [done| | |done|done|done]; unfold system_n_shards; by rewrite (sa_committee _ _ _ _ Hsa).
Qed.

Lemma chain_reachable_inv k c total : chain_reachable k c total ->
  chain_inv c /\ treasury (future_accounting (system c)) = total /\ max_epochs_ahead (system c) = k.
Proof.
  induction 1 as [c Hi|c ev paid c' total Hc IH Hs]; [by apply init_inv|].
  destruct IH as (Hinv & Ht & Hk). destruct (chain_step_inv _ _ _ _ Hinv Hs) as (Hinv' & Ht' & Hk'). split; [done|]. split; congruence.
Qed.

(** ** Correctness *)

(** C13: The system contract accounts for all storage.  In every state that calls can lead to,
    in every epoch that can be reserved the resources that users hold, on their own, in blobs and
    in storage pools, together take no more space than the account of this epoch says is
    reserved; no resource reaches beyond these epochs; the used capacity of the contract is that
    of the current epoch; and the rewards in the accounts are exactly what was paid in and not
    paid out, to the nodes or as burnt funds. *)
Theorem storage_is_accounted k c paid : chain_reachable k c paid ->
  treasury (future_accounting (system c)) = paid /\
  all_storages (fun st => start_epoch st < end_epoch st <= system_epoch (system c) + k) c /\
  exists first rest, window (future_accounting (system c)) = first :: rest /\ used_capacity first = used_capacity_size (system c) /\
  len (first :: rest) = k /\
  forall i a, (first :: rest) !! i = Some a -> accounting_epoch a = system_epoch (system c) + Z.of_nat i /\
    in_total (cover (accounting_epoch a)) c <= used_capacity a.
Proof.
  intros ([Hok _ _ Hst Hcov _] & Ht & Hk)%chain_reachable_inv. split; [done|]. split.
  { eapply all_storages_impl; [|exact Hst]. intros st [H1 _ H3]. lia. }
  pose proof (ok_used _ Hok) as Hu. pose proof (ok_epochs _ Hok) as He. pose proof (window_length (future_accounting (system c))) as Hl.
  pose proof (wf_buffer _ (ok_ring _ Hok)) as Hbuf. unfold max_epochs_ahead in Hk.
  destruct (window _) as [|first rest] eqn:Hw; [done|]. injection Hu as Hu. exists first, rest. split_and!; [done|done|lia|].
  intros i a Ha. split; [by apply He|]. rewrite (He i a Ha). apply (Hcov (Z.of_nat i) a); [by rewrite Nat2Z.id|lia].
Qed.

(** C28: A storage pool has room for its blobs.  In every state that calls can lead to, a pool
    knows how many blobs it has and how many bytes their encodings take, these bytes fit into
    its storage, every blob of the pool can be removed from it, and a pool without blobs can be
    destroyed. *)
Theorem pool_has_room_for_blobs k c paid id p : chain_reachable k c paid -> pools c !! id = Some p ->
  used_encoded_bytes p = msum (pooled_size n) (pool_blobs p) /\ 0 <= used_encoded_bytes p <= storage_size (pool_storage p) /\
  blob_count p = Z.of_nat (size (pool_blobs p)) /\
  (forall b blob, pool_blobs p !! b = Some blob -> exists p', remove_blob p b n = Ok (blob, p') /\ pool_blobs p' = delete b (pool_blobs p)) /\
  (pool_blobs p = ∅ -> exists st, pool_destroy p = Ok st).
Proof.
  intros ([_ _ _ _ _ Hobj] & _ & _)%chain_reachable_inv Hp. destruct (oi_pools _ Hobj id p Hp) as [_ Hpo].
  pose proof (pool_used_nonneg n p Hpo) as Hnn. destruct (Hpo) as [[Hu Hle] Hc _ _]. split_and!; [done|done|done|done| |].
  - intros b blob Hb. by eapply remove_blob_total.
  - intros He. unfold pool_destroy. rewrite Hc, He, map_size_empty. cbn. eauto.
Qed.
End invariant.
