(* ===== verification/EventBlobCertification.v ===== *)
(** * Certification of event blobs

    Nodes attest to event blobs one by one, with [certify_event_blob]; the contract
    adds up the weights and certifies a blob by itself.  [round] collects the
    attestations since the last certification in the epoch: no node is in it twice, and
    the contract's tallies are the weights of its nodes. *)

From S2P Require Import Prelude Redstuff Merkle MoveStd StorageAccounting Certificates SystemObjects SystemState SystemContract.
From S2P Require Import SystemAccounting SystemEpochs SystemProps SystemInvariant.

(** ** Tallies *)

Fixpoint tally (l : list (EventBlob * Z)) (b : EventBlob) : Z :=
  match l with
  | [] => 0
  | (b', w) :: l => if bool_decide (b' = b) then w else tally l b
  end.

Lemma tally_snoc l b b' : tally (l ++ [(b, 0)]) b' = tally l b'.
Proof. induction l as [|[x w] l IH]; cbn; [by destruct (bool_decide _)|by rewrite IH]. Qed.

Lemma tally_update l b i e w : find_index (fun e => bool_decide (fst e = b)) l = Some i -> l !! i = Some e ->
  snd e = tally l b /\ forall b', tally (<[i := (fst e, w)]> l) b' = if bool_decide (b' = b) then w else tally l b'.
Proof.
  revert i. induction l as [|[x v] l IH]; intros i Hi He; [done|]. cbn in Hi. destruct (bool_decide (x = b)) eqn:Hx.
  - injection Hi as <-. injection He as <-. apply bool_decide_eq_true in Hx as ->. cbn. rewrite bool_decide_eq_true_2 by done. split; [done|].
    intros b'. destruct (decide (b = b')) as [->|Hne]; [by rewrite !bool_decide_eq_true_2|by rewrite !bool_decide_eq_false_2 by congruence].
  - destruct (find_index _ l) as [j|] eqn:Hj; [|done]. injection Hi as <-. destruct (IH j eq_refl He) as [Hs Ht]. cbn. rewrite Hx. split; [done|].
    intros b'. rewrite Ht. destruct (decide (x = b')) as [->|Hne]; [|by rewrite (bool_decide_eq_false_2 (x = b'))].
    rewrite Hx, bool_decide_eq_true_2; done.
Qed.

Lemma index_inv {E A} (v : list A) i x : index (E:=E) v i = Ok x -> v !! i = Some x.
Proof. unfold index. destruct (v !! i); [|done]. by intros [= ->]. Qed.

(** An attestation of weight [w]. *)
Lemma attest_inv st b seq w st' agg : update_aggregate_weight (start_tracking_blob st b seq) b seq w = Ok (st', agg) ->
  agg = tally (aggregate_weight_per_blob st) (mk_event_blob b seq) + w /\ latest_certified_blob st' = latest_certified_blob st /\
  forall b', tally (aggregate_weight_per_blob st') b' =
    tally (aggregate_weight_per_blob st) b' + (if bool_decide (b' = mk_event_blob b seq) then w else 0).
Proof.
  set (blob := mk_event_blob b seq). set (st1 := start_tracking_blob st b seq).
  assert (latest_certified_blob st1 = latest_certified_blob st /\
    forall b', tally (aggregate_weight_per_blob st1) b' = tally (aggregate_weight_per_blob st) b') as [Hl Ht].
  { unfold st1, start_tracking_blob. destruct (bool_decide _); [done|]. split; [done|]. apply tally_snoc. }
  unfold update_aggregate_weight. intros Hr. call_inv.
  match goal with H : index _ _ = Ok ?e |- _ => apply index_inv in H; destruct (tally_update _ _ _ _ (e.2 + w) ltac:(eassumption) H) as [Hs Hu] end.
  fold blob in Hs, Hu. split; [by rewrite Hs, Ht|]. split; [exact Hl|]. intros b'. cbn. rewrite Hu, Hs, !Ht.
  destruct (bool_decide_reflect (b' = blob)) as [->|]; [done|lia].
Qed.

Lemma foldM_keep {E S A} (P : S -> Prop) (f : S -> A -> outcome E S) s l s' :
  (forall s x s', P s -> f s x = Ok s' -> P s') -> P s -> foldM f s l = Ok s' -> P s'.
Proof.
  intros Hf. revert s. induction l as [|x l IH]; intros s Hs Hr; cbn in Hr; [by injection Hr as <-|].
  apply bind_Ok in Hr as (s1 & Hs1 & Hr). by eapply IH, Hr; eapply Hf.
Qed.

Section keep.
Context `{Bls12381} `{HashFunction}.
Implicit Types s : SystemStateInnerV1.
Implicit Types c : Chain.

(** ** The other operations *)

Abbreviation event_state s := (event_blob_certification_state s).

Lemma keep_payments s size start stop p s' p' : process_storage_payments s size start stop p = Ok (s', p') -> event_state s' = event_state s.
Proof.
  unfold process_storage_payments, range_do. intros Hr. call_inv.
  apply (foldM_keep (fun x => event_state (fst x) = event_state s)) in Hr; [done| |done].
  intros [s1 p1] i [s2 p2] Hs Hp. unfold pay_epoch in Hp. call_inv. done.
Qed.

Lemma keep_account check n start stop s s' : range_do start stop (account_epoch check n) s = Ok s' -> event_state s' = event_state s.
Proof.
  unfold range_do. apply (foldM_keep (fun x => event_state x = event_state s)); [|done].
  intros s1 i s2 Hs Hr. unfold account_epoch in Hr. call_inv. by destruct (i =? 0).
Qed.

Lemma keep_reserve s n start stop check s' st : reserve_space_without_payment s n start stop check = Ok (s', st) -> event_state s' = event_state s.
Proof.
  unfold reserve_space_without_payment. intros Hr. call_inv.
  match goal with H : range_do _ _ _ _ = _ |- _ => by apply keep_account in H end.
Qed.

Lemma keep_rewards s i b s' : add_rewards s i b = Ok s' -> event_state s' = event_state s.
Proof. unfold add_rewards. intros Hr. by call_inv. Qed.

Lemma keep_write_price s n p s' p' : pay_write_price s n p = Ok (s', p') -> event_state s' = event_state s.
Proof. unfold pay_write_price. intros Hr. call_inv. by eapply keep_rewards. Qed.

(** What the steps of an operation keep, it keeps. *)
Ltac keeps :=
  call_inv; repeat match goal with
  | H : process_storage_payments _ _ _ _ _ = Ok _ |- _ => apply keep_payments in H
  | H : range_do _ _ (account_epoch _ _) _ = Ok _ |- _ => apply keep_account in H
  | H : account_capacity _ _ _ _ = Ok _ |- _ => apply keep_account in H
  | H : pay_write_price _ _ _ = Ok _ |- _ => apply keep_write_price in H
  | H : reserve_space_without_payment _ _ _ _ _ = Ok _ |- _ => apply keep_reserve in H
  | H : add_rewards _ _ _ = Ok _ |- _ => apply keep_rewards in H
  end; cbn in *; try congruence.

Lemma keep_reserve_for_epochs s n start stop p s' p' st : reserve_space_for_epochs s n start stop p = Ok (s', p', st) ->
  event_state s' = event_state s.
Proof. unfold reserve_space_for_epochs. intros Hr. keeps. Qed.

Lemma keep_reserve_space s n k p s' p' st : reserve_space s n k p = Ok (s', p', st) -> event_state s' = event_state s.
Proof. unfold reserve_space. intros Hr. call_inv. by eapply keep_reserve_for_epochs. Qed.

Lemma keep_subsidy s v n s' : add_subsidy s v n = Ok s' -> event_state s' = event_state s.
Proof.
  unfold add_subsidy, range_do. intros Hr. call_inv. apply keep_rewards in Hr. rewrite Hr.
  match goal with H : foldM _ _ _ = Ok (?a, ?b) |- _ => 
    apply (foldM_keep (fun x => event_state (fst x) = event_state s)) in H; [exact H| |done] end.
  intros [s1 p1] i [s2 p2] Hs Hp. keeps.
Qed.

Lemma keep_subsidies s l s' : add_per_epoch_subsidies s l = Ok s' -> event_state s' = event_state s.
Proof.
  unfold add_per_epoch_subsidies. intros Hr. call_inv.
  match goal with H : foldM _ _ _ = Ok (?a, ?b) |- _ => 
    apply (foldM_keep (fun x => event_state (fst x) = event_state s)) in H; [exact H| |done] end.
  intros [s1 p1] i [s2 p2] Hs Hp. keeps.
Qed.

Lemma keep_extend s b k p s' p' b' ev : extend_blob s b k p = Ok (s', p', b', ev) -> event_state s' = event_state s.
Proof.
  unfold extend_blob, range_do. intros Hr. call_inv.
  match goal with H : foldM _ ?s1 _ = Ok _ |- _ => 
    apply (foldM_keep (fun x => event_state x = event_state s1)) in H; [|intros ? ? ? ? Hf; by keeps|done]; rewrite H end.
  keeps.
Qed.

(** Only attestations and epoch changes affect the certification of event blobs. *)
Lemma keep_execute call c c' ev paid : (forall cm cap, call <> AdvanceEpoch cm cap) ->
  (forall node id b root size enc seq e, call <> CertifyEventBlob node id b root size enc seq e) ->
  execute call c = Ok (c', ev, paid) -> event_state (system c') = event_state (system c).
Proof.
  intros Ha He Hr. destruct call; cbn [execute execute_storage execute_blob execute_pool execute_system] in Hr;
    try (by destruct (Ha _ _ eq_refl)); try (by destruct (He _ _ _ _ _ _ _ _ eq_refl)).
  all: unfold fuse_storages, register_blob, create_storage_pool, register_pooled_blob, extend_storage_pool,
    increase_storage_pool_capacity, update_deny_list, extract_burn_balance in Hr; call_inv; try done.
  all: try (by eapply keep_subsidy); try (by eapply keep_subsidies); try (by eapply keep_extend);
    try (by eapply keep_reserve_space); try (by eapply keep_reserve_for_epochs); try by keeps.
Qed.

(** No capability is lost, and only attestations change what a node last attested to. *)
Lemma keep_caps call c c' ev paid :
  (forall node id b root size enc seq e, call <> CertifyEventBlob node id b root size enc seq e) ->
  execute call c = Ok (c', ev, paid) -> map_Forall (fun x cap => cap_node_id cap = x) (caps c) ->
  map_Forall (fun x cap => cap_node_id cap = x) (caps c') /\
  forall x cap, caps c !! x = Some cap -> exists cap', caps c' !! x = Some cap' /\ last_event_blob_attestation cap' = last_event_blob_attestation cap.
Proof.
  intros He Hr Hn. assert (caps c' = caps c \/ exists node cap, caps c' = <[node := cap]> (caps c) /\ cap_node_id cap = node /\
    forall cap0, caps c !! node = Some cap0 -> last_event_blob_attestation cap = last_event_blob_attestation cap0) as [->|(node & cap & -> & Hid & Hl)].
  { destruct call; cbn [execute execute_storage execute_blob execute_pool execute_system] in Hr; try (by destruct (He _ _ _ _ _ _ _ _ eq_refl));
      unfold fuse_storages, get_cap, update_deny_list in Hr; call_inv; checked; try (by left); right; do 2 eexists; (split; [done|]); cbn.
    - split; [by apply Hn|]. intros cap0 Hc. by simplify_eq.
    - split; [done|]. congruence. }
  { split; [done|]. eauto. }
  split; [by apply map_Forall_insert_2|]. intros x cap0 Hx. destruct (decide (x = node)) as [->|Hne].
  - rewrite lookup_insert_eq. eauto.
  - rewrite lookup_insert_ne by done. eauto.
Qed.
End keep.

Section rounds.
Context `{Bls12381} `{HashFunction} (n : Z).
Implicit Types c : Chain.

Abbreviation event_state c := (event_blob_certification_state (system c)).

(** The calls that were executed so far. *)
Inductive chain_run (max_epochs : Z) : list Call -> Chain -> Prop :=
| run_init c : chain_init max_epochs c -> chain_run max_epochs [] c
| run_call calls c call c' events paid : chain_run max_epochs calls c -> call_allowed n call c -> execute call c = Ok (c', events, paid) ->
    chain_run max_epochs (calls ++ [call]) c'.

Definition node_weight (cm : BlsCommittee) (x : ID) : Z := match get_member_weight cm x with Ok w => w | _ => 0 end.

(** Node [x] attested to the blob [b] in the current epoch. *)
Definition attested (calls : list Call) c (x : ID) (b : EventBlob) : Prop :=
  exists id root size enc,
    CertifyEventBlob x id (event_blob_id b) root size enc (ending_checkpoint_sequence_number b) (system_epoch (system c)) ∈ calls.

Definition vote (cm : BlsCommittee) (b : EventBlob) (v : ID * EventBlob) : Z := if bool_decide (snd v = b) then node_weight cm (fst v) else 0.

Lemma vote_for cm b x b' : vote cm b (x, b') = if bool_decide (b = b') then node_weight cm x else 0.
Proof. unfold vote. cbn. by rewrite (bool_decide_ext (b' = b) (b = b')) by naive_solver. Qed.

Record round_entry (calls : list Call) c (x : ID) (b : EventBlob) : Prop := {
  re_member : contains (committee (system c)) x = true;
  re_cap : exists cap, caps c !! x = Some cap /\
    last_event_blob_attestation cap = Some (mk_attestation (ending_checkpoint_sequence_number b) (system_epoch (system c)));
  re_open : is_blob_already_certified (event_state c) (ending_checkpoint_sequence_number b) = false;
  re_call : attested calls c x b;
}.

Record round_ok (calls : list Call) c (round : list (ID * EventBlob)) : Prop := {
  ro_named : map_Forall (fun x cap => cap_node_id cap = x) (caps c);
  ro_nodup : NoDup round.*1;
  ro_entries : forall x b, (x, b) ∈ round -> round_entry calls c x b;
  ro_tally : forall b, tally (aggregate_weight_per_blob (event_state c)) b = zsum (vote (committee (system c)) b <$> round);
}.

(** A node of the round cannot attest again. *)
Lemma attests_once calls c round node cap seq : round_ok calls c round -> caps c !! node = Some cap ->
  match last_event_blob_attestation cap with Some a => check_attestation (system c) a seq | None => Ok tt end = Ok tt -> node ∉ round.*1.
Proof.
  intros Hro Hcap Hchk Hin. apply list_elem_of_fmap in Hin as ([x b] & -> & Hin). destruct (ro_entries _ _ _ Hro x b Hin) as [_ (cap1 & Hc1 & Hl) Ho _].
  cbn in *. rewrite Hcap in Hc1. injection Hc1 as <-. rewrite Hl in Hchk. unfold check_attestation, is_blob_already_certified in *. cbn in *.
  rewrite Z.ltb_irrefl in Hchk. cbn in Hchk. call_inv. destruct (get_latest_certified_checkpoint_sequence_number _); [|by call_inv].
  call_inv. congruence.
Qed.

(** What [certify_event_blob] does: it ignores a blob that is covered already, or it counts the vote. *)
Lemma certify_cases s cap b root size enc seq e id s' cap' ev : system_ok s -> certify_event_blob s cap b root size enc seq e id = Ok (s', cap', ev) ->
  let st := event_blob_certification_state s in let st' := event_blob_certification_state s' in let blob := mk_event_blob b seq in
  contains (committee s) (cap_node_id cap) = true /\ e = system_epoch s /\ committee s' = committee s /\
  match last_event_blob_attestation cap with Some a => check_attestation s a seq | None => Ok tt end = Ok tt /\
  cap_node_id cap' = cap_node_id cap /\ last_event_blob_attestation cap' = Some (mk_attestation seq e) /\
  (is_blob_already_certified st seq = true /\ st' = st /\ ev = [] \/
   is_blob_already_certified st seq = false /\
   let agg b' := tally (aggregate_weight_per_blob st) b' + if bool_decide (b' = blob) then node_weight (committee s) (cap_node_id cap) else 0 in
   (ev = [] /\ latest_certified_blob st' = latest_certified_blob st /\ (forall b', tally (aggregate_weight_per_blob st') b' = agg b') \/
    2 * n_shards (committee s) + 1 <= 3 * agg blob /\ st' = mk_certification_state (Some blob) [] /\ enc = 1 /\
    ev = [EmitBlobRegistered (system_epoch s) b size enc (system_epoch s + max_epochs_ahead s) false id;
          EmitBlobCertified (system_epoch s) b (system_epoch s + max_epochs_ahead s) false id false])).
Proof.
  intros Hok Hr. pose proof (certify_event_blob_inv _ _ _ _ _ _ _ _ _ _ _ _ Hok Hr) as (used & [Hcm _ _ _ _ _ _] & _). cbv zeta.
  unfold certify_event_blob in Hr. apply bind_Ok in Hr as (? & Hc & Hr). apply bind_Ok in Hr as (? & He & Hr). apply bind_Ok in Hr as ([] & Hchk & Hr).
  apply ensure_Ok in Hc, He. apply Z.eqb_eq in He as ->. cbv zeta in Hr.
  assert (cap_node_id cap' = cap_node_id cap /\ last_event_blob_attestation cap' = Some (mk_attestation seq (system_epoch s))) as [Hcap1 Hcap2].
  { destruct (is_blob_already_certified _ _); call_inv; [done|]. destruct (negb _) in Hr; call_inv; done. }
  split_and!; try done. destruct (is_blob_already_certified _ _) eqn:Hcert; [left; by call_inv|right]. split; [done|]. cbv zeta.
  apply bind_Ok in Hr as (w & Hw & Hr). apply bind_Ok in Hr as ([st agg] & Hst & Hr). apply attest_inv in Hst as (-> & Hlat & Htal).
  cbn [cap_node_id] in Hw. unfold node_weight. rewrite Hw. apply bind_Ok in Hr as (q & Hq & Hr). unfold is_quorum in Hq. call_inv.
  destruct (_ <=? _) eqn:Hle in Hr; cbn [negb] in Hr; call_inv; [right|by left]. apply Z.leb_le in Hle. cbn in *.
  rewrite bool_decide_eq_true_2 by done. split; [lia|].
  match goal with H : reserve_space_without_payment _ _ _ _ _ = _ |- _ =>
    apply reserve_space_without_payment_inv in H as (_ & _ & Hst & _); [|by apply (system_ok_fields s)|lia] end.
  match goal with H : blob_new _ _ _ _ _ _ _ _ _ = _ |- _ => apply blob_new_inv in H as (_ & -> & _ & -> & _) end.
  match goal with H : certify_with_certified_msg _ _ _ = _ |- _ => apply certify_inv in H as (_ & _ & _ & _ & ->) end.
  match goal with H : update_latest_certified_event_blob _ _ _ = _ |- _ => unfold update_latest_certified_event_blob in H; call_inv end.
  split; [done|]. split; [by eapply encoded_length_type|]. cbn. unfold system_epoch in *. by rewrite Hcm.
Qed.

Lemma run_reachable k calls c : chain_run k calls c -> exists paid, chain_reachable n k c paid.
Proof. induction 1 as [c Hc|calls c call c' ev paid Hc [total IH] Hal Hr]; eexists; [by constructor|]. econstructor; [exact IH|by econstructor]. Qed.

Lemma entry_kept calls l c c' x b : round_entry calls c x b -> committee (system c') = committee (system c) ->
  latest_certified_blob (event_state c') = latest_certified_blob (event_state c) ->
  (forall cap, caps c !! x = Some cap -> exists cap', caps c' !! x = Some cap' /\ last_event_blob_attestation cap' = last_event_blob_attestation cap) ->
  round_entry (calls ++ l) c' x b.
Proof.
  intros [Hm (cap & Hcap & Hl) Ho (id & root & size & enc & Hcall)] Hcm Hlat Hcaps. destruct (Hcaps cap Hcap) as (cap' & Hcap' & Hl').
  constructor.
  - by rewrite Hcm.
  - exists cap'. unfold system_epoch. rewrite Hcm. split; [done|]. by rewrite Hl'.
  - unfold is_blob_already_certified, get_latest_certified_checkpoint_sequence_number in *. by rewrite Hlat.
  - exists id, root, size, enc. unfold system_epoch. rewrite Hcm. apply elem_of_app. by left.
Qed.

(** The attestation of [node] to [b] in the current epoch. *)
Lemma certify_step calls c round node id b root size enc seq e c' ev paid : round_ok calls c round -> system_ok (system c) ->
  execute (CertifyEventBlob node id b root size enc seq e) c = Ok (c', ev, paid) ->
  exists cap s' cap', caps c !! node = Some cap /\ certify_event_blob (system c) cap b root size enc seq e id = Ok (s', cap', ev) /\
    c' = with_cap node cap' (with_id id (with_system s' c)) /\ cap_node_id cap = node /\ node ∉ round.*1 /\ e = system_epoch (system c).
Proof.
  intros Hro Hok Hr. cbn [execute execute_system] in Hr. unfold get_cap in Hr. call_inv. do 3 eexists. split; [done|].
  assert (cap_node_id x = node) as Hid by (by apply (ro_named _ _ _ Hro)).
  match goal with H : certify_event_blob _ _ _ _ _ _ _ _ _ = _ |- _ => pose proof (certify_cases _ _ _ _ _ _ _ _ _ _ _ _ Hok H) as (_ & He & _ & Hchk & _) end.
  split_and!; try done. by eapply attests_once.
Qed.

Lemma round_certify calls c round node id b root size enc seq e c' ev paid : round_ok calls c round -> system_ok (system c) ->
  execute (CertifyEventBlob node id b root size enc seq e) c = Ok (c', ev, paid) ->
  exists round', round_ok (calls ++ [CertifyEventBlob node id b root size enc seq e]) c' round'.
Proof.
  intros Hro Hok Hr. destruct (certify_step _ _ _ _ _ _ _ _ _ _ _ _ _ _ Hro Hok Hr) as (cap & s' & cap' & Hcap & Hce & -> & Hid & Hnew & ->).
  destruct (certify_cases _ _ _ _ _ _ _ _ _ _ _ _ Hok Hce) as (Hm & _ & Hcm & Hchk & Hid' & Hl' & Hcase). rewrite Hid in *.
  assert (map_Forall (fun x cap => cap_node_id cap = x) (<[node := cap']> (caps c))) as Hnamed by (apply map_Forall_insert_2; [done|apply Hro]).
  assert (latest_certified_blob (event_blob_certification_state s') = latest_certified_blob (event_state c) -> forall x b', (x, b') ∈ round ->
    round_entry (calls ++ [CertifyEventBlob node id b root size enc seq (system_epoch (system c))]) (with_cap node cap' (with_id id (with_system s' c))) x b') as Hkept.
  { intros Hlat x b' Hin. eapply entry_kept; [by apply (ro_entries _ _ _ Hro)|done|done|]. cbn. intros cap0 Hcap0.
    rewrite lookup_insert_ne; [eauto|]. intros <-. apply Hnew, list_elem_of_fmap. by exists (node, b'). }
  destruct Hcase as [(Hc & Hst & _)|(Hc & [(_ & Hlat & Ht)|(_ & Hst & _)])].
  - exists round. constructor; cbn; [done|apply Hro|apply Hkept; by rewrite Hst|]. rewrite Hst, Hcm. apply Hro.
  - exists ((node, mk_event_blob b seq) :: round). constructor; cbn; [done|by constructor; [|apply Hro]| |].
    + intros x b' [[= -> ->]|Hin]%elem_of_cons; [|by apply Hkept]. constructor; cbn.
      * by rewrite Hcm.
      * exists cap'. rewrite lookup_insert_eq. unfold system_epoch in *. by rewrite Hcm.
      * unfold is_blob_already_certified, get_latest_certified_checkpoint_sequence_number in *. by rewrite Hlat.
      * exists id, root, size, enc. cbn. unfold system_epoch. rewrite Hcm. apply elem_of_app. right. by apply list_elem_of_singleton.
    + intros b'. rewrite Ht, Hcm, (ro_tally _ _ _ Hro). change (zsum (?f <$> ?x :: ?l)) with (f x + zsum (f <$> l)).
      rewrite vote_for. apply Z.add_comm.
  - exists []. constructor; cbn; [done|constructor|by intros ? ? ?%elem_of_nil|by rewrite Hst].
Qed.

Lemma round_exists k calls c : chain_run k calls c -> exists round, round_ok calls c round.
Proof.
  induction 1 as [c (_ & Hc & _ & _ & _ & Hcaps)|calls c call c' ev paid Hc [round IH] Hal Hr].
  { exists []. unfold create_empty in Hc. call_inv. constructor; [by rewrite Hcaps|constructor|by intros ? ? ?%elem_of_nil|].
    by match goal with H : mk_system _ _ _ _ _ _ _ _ = system c |- _ => rewrite <- H end. }
  destruct (run_reachable _ _ _ Hc) as [total Hreach]. destruct (chain_reachable_inv _ _ _ _ Hreach) as (Hinv & _ & _).
  assert ((exists cm cap, call = AdvanceEpoch cm cap) \/ (forall cm cap, call <> AdvanceEpoch cm cap)) as [(cm & cap & ->)|Hna]
    by (destruct call; eauto; by right).
  { exists []. cbn [execute execute_system] in Hr. call_inv. match goal with H : advance_epoch _ _ _ = _ |- _ =>
      apply advance_epoch_inv in H as (_ & _ & _ & _ & Hst); [|apply Hinv] end.
    constructor; cbn; [apply IH|constructor|by intros ? ? ?%elem_of_nil|by rewrite Hst]. }
  assert ((exists node id b root size enc seq e, call = CertifyEventBlob node id b root size enc seq e) \/
    (forall node id b root size enc seq e, call <> CertifyEventBlob node id b root size enc seq e)) as [(? & ? & ? & ? & ? & ? & ? & ? & ->)|Hne]
    by (destruct call; eauto 10; by right).
  { eapply round_certify; [exact IH|apply Hinv|exact Hr]. }
  edestruct execute_effect as [(old & new & used & He) _]; [exact Hinv|exact Hal|exact Hna|exact Hr|].
  pose proof (sa_committee _ _ _ _ (ce_system _ _ _ _ _ _ He)) as Hcm. pose proof (keep_execute _ _ _ _ _ Hna Hne Hr) as Hst.
  destruct (keep_caps _ _ _ _ _ Hne Hr (ro_named _ _ _ IH)) as [Hnamed Hcaps].
  exists round. constructor; [done|apply IH| |rewrite Hst, Hcm; apply IH].
  intros x b Hin. eapply entry_kept; [by apply (ro_entries _ _ _ IH)|done|by rewrite Hst|apply Hcaps].
Qed.

(** The nodes of the round that voted for [b]. *)
Lemma votes_filter cm b (round : list (ID * EventBlob)) :
  zsum (vote cm b <$> round) = zsum (node_weight cm <$> (filter (fun v => snd v = b) round).*1).
Proof.
  induction round as [|[x b'] l IH]; [done|]. change (zsum (vote cm b <$> _ :: l)) with (vote cm b (x, b') + zsum (vote cm b <$> l)).
  rewrite IH, vote_for. destruct (decide (b' = b)) as [->|Hne].
  - rewrite filter_cons_True, bool_decide_eq_true_2 by done. done.
  - rewrite filter_cons_False, bool_decide_eq_false_2 by (cbn; congruence). done.
Qed.

(** C15: Event blobs need a quorum.  When the attestation of a node makes the contract certify an
    event blob, then different nodes of the committee, holding more than two thirds of the
    shards, attested to this blob and checkpoint in the current epoch.  The blob is then
    the latest certified one, its checkpoint is later than that of the previous one, and it is
    announced with the longest possible lifetime. *)
Theorem event_blob_needs_quorum k calls c node id b root size enc seq e c' events paid : chain_run k calls c ->
  execute (CertifyEventBlob node id b root size enc seq e) c = Ok (c', events, paid) -> events <> [] ->
  let blob := mk_event_blob b seq in let cm := committee (system c) in
  (exists signers, NoDup signers /\ 2 * n_shards cm + 1 <= 3 * zsum (node_weight cm <$> signers) /\
    forall x, x ∈ signers -> contains cm x = true /\ attested (calls ++ [CertifyEventBlob node id b root size enc seq e]) c x blob) /\
  latest_certified_blob (event_state c') = Some blob /\
  (forall previous, latest_certified_blob (event_state c) = Some previous -> ending_checkpoint_sequence_number previous < seq) /\
  EmitBlobCertified (system_epoch (system c)) b (system_epoch (system c) + k) false id false ∈ events.
Proof.
  intros Hrun Hr Hev blob cm. destruct (run_reachable _ _ _ Hrun) as [total Hreach].
  destruct (chain_reachable_inv _ _ _ _ Hreach) as (Hinv & _ & Hk). destruct (round_exists _ _ _ Hrun) as [round Hro].
  pose proof (ci_system _ _ Hinv) as Hok.
  destruct (certify_step _ _ _ _ _ _ _ _ _ _ _ _ _ _ Hro Hok Hr) as (cap & s' & cap' & Hcap & Hce & -> & Hid & Hnew & ->).
  destruct (certify_cases _ _ _ _ _ _ _ _ _ _ _ _ Hok Hce) as (Hm & _ & _ & _ & _ & _ & [(_ & _ & ->)|(Hc & [(-> & _)|(Hq & Hst & _ & Hevs)])]); [done|done|].
  rewrite Hid in *. fold blob in Hq, Hst. rewrite bool_decide_eq_true_2 in Hq by done. cbn [system with_cap with_id with_system]. rewrite Hst, <- Hk.
  split_and!; [|done| |rewrite Hevs; set_solver].
  - exists (node :: (filter (fun v => snd v = blob) round).*1). rewrite (ro_tally _ _ _ Hro), votes_filter in Hq. split_and!.
    + constructor; [|eapply sublist_NoDup; [exact (ro_nodup _ _ _ Hro)|apply fmap_sublist, sublist_filter]].
      intros (v & -> & Hv)%list_elem_of_fmap. apply list_elem_of_filter in Hv as [_ Hv]. apply Hnew, list_elem_of_fmap. eauto.
    + change (zsum (?f <$> ?x :: ?l)) with (f x + zsum (f <$> l)). fold cm in Hq. lia.
    + intros x [->|(v & -> & Hv)%list_elem_of_fmap]%elem_of_cons.
      * split; [done|]. exists id, root, size, enc. apply elem_of_app. right. by apply list_elem_of_singleton.
      * apply list_elem_of_filter in Hv as [Hvb Hv]. destruct v as [x b']. cbn in *. subst b'. destruct (ro_entries _ _ _ Hro _ _ Hv) as [Hmx _ _ (i & r & z & en & Hx)].
        split; [done|]. exists i, r, z, en. apply elem_of_app. by left.
  - intros previous Hp. unfold is_blob_already_certified, get_latest_certified_checkpoint_sequence_number in Hc. rewrite Hp in Hc. cbn in Hc. lia.
Qed.
End rounds.
