(* ===== verification/ChainEvents.v ===== *)
(** * What the events of the system contract announce

    A reader of the events keeps a [View]: the blobs, pooled blobs and storage pools
    that were announced and not deleted.  [legal] says when an event makes sense to
    such a reader; every event of the contract does, and the view then agrees with
    the objects on chain. *)

From S2P Require Import Prelude Redstuff Merkle MoveStd StorageAccounting Certificates SystemObjects SystemState SystemContract.
From S2P Require Import SystemAccounting SystemEpochs SystemProps SystemInvariant EventBlobCertification.

(** ** Views *)

Record ViewBlob := mk_view_blob {
  vb_blob_id : Z;
  vb_deletable : bool;
  vb_end_epoch : Z;
  vb_certified_epoch : option Z;
}.

Record ViewPooled := mk_view_pooled {
  vp_blob_id : Z;
  vp_certified_epoch : option Z;
  vp_pool : ID;
}.

Record View := mk_view {
  v_epoch : Z;
  v_blobs : gmap ID ViewBlob;
  v_pooled : gmap ID ViewPooled;
  v_pools : gmap ID Z;
}.

Definition empty_view : View := mk_view 0 ∅ ∅ ∅.

(** The pool is known and has not ended. *)
Definition pool_open (v : View) (pool : ID) : Prop := exists stop, v_pools v !! pool = Some stop /\ v_epoch v < stop.

Definition legal (v : View) (event : SystemEvent) : Prop :=
  match event with
  | EmitBlobRegistered _ _ _ enc stop _ id => v_blobs v !! id = None /\ 0 <= stop /\ enc = 1
  | EmitBlobCertified e b stop del id is_extension =>
    exists o, v_blobs v !! id = Some o /\ vb_blob_id o = b /\ vb_deletable o = del /\ v_epoch v < vb_end_epoch o /\ e <= v_epoch v /\
      if is_extension then vb_certified_epoch o = Some e /\ vb_end_epoch o <= stop
      else vb_certified_epoch o = None /\ stop = vb_end_epoch o /\ 0 <= stop
  | EmitBlobDeleted _ b stop id was_certified =>
    exists o, v_blobs v !! id = Some o /\ vb_blob_id o = b /\ vb_deletable o = true /\ vb_end_epoch o = stop /\ v_epoch v < stop /\
      was_certified = bool_decide (is_Some (vb_certified_epoch o))
  | EmitEpochChangeStart e => e = v_epoch v + 1 /\ 0 < e
  | EmitStoragePoolCreated _ pool _ _ _ => v_pools v !! pool = None
  | EmitStoragePoolExtended _ pool stop => exists stop0, v_pools v !! pool = Some stop0 /\ v_epoch v < stop0 <= stop
  | EmitPooledBlobRegistered _ _ _ enc _ id pool => v_pooled v !! id = None /\ pool_open v pool /\ enc = 1
  | EmitPooledBlobCertified e b _ id pool =>
    v_pooled v !! id = Some (mk_view_pooled b None pool) /\ pool_open v pool /\ e <= v_epoch v
  | EmitPooledBlobDeleted _ b id was_certified pool =>
    exists cert, v_pooled v !! id = Some (mk_view_pooled b cert pool) /\ pool_open v pool /\ was_certified = bool_decide (is_Some cert)
  | EmitInvalidBlobID _ _ | EmitProtocolVersion _ _ _ | EmitRegisterDenyListUpdate _ _ _ _ | EmitDenyListUpdate _ _ _ _
  | EmitDenyListedBlobDeleted _ _ => True
  end.

Definition announce (v : View) (event : SystemEvent) : View :=
  match event with
  | EmitBlobRegistered _ b _ _ stop del id => mk_view (v_epoch v) (<[id := mk_view_blob b del stop None]> (v_blobs v)) (v_pooled v) (v_pools v)
  | EmitBlobCertified e b stop del id _ =>
    mk_view (v_epoch v) (<[id := mk_view_blob b del stop (Some e)]> (v_blobs v)) (v_pooled v) (v_pools v)
  | EmitBlobDeleted _ _ _ id _ => mk_view (v_epoch v) (delete id (v_blobs v)) (v_pooled v) (v_pools v)
  | EmitEpochChangeStart e => mk_view e (v_blobs v) (v_pooled v) (v_pools v)
  | EmitStoragePoolCreated _ pool _ _ stop | EmitStoragePoolExtended _ pool stop =>
    mk_view (v_epoch v) (v_blobs v) (v_pooled v) (<[pool := stop]> (v_pools v))
  | EmitPooledBlobRegistered _ b _ _ _ id pool =>
    mk_view (v_epoch v) (v_blobs v) (<[id := mk_view_pooled b None pool]> (v_pooled v)) (v_pools v)
  | EmitPooledBlobCertified e b _ id pool =>
    mk_view (v_epoch v) (v_blobs v) (<[id := mk_view_pooled b (Some e) pool]> (v_pooled v)) (v_pools v)
  | EmitPooledBlobDeleted _ _ id _ _ => mk_view (v_epoch v) (v_blobs v) (delete id (v_pooled v)) (v_pools v)
  | EmitInvalidBlobID _ _ | EmitProtocolVersion _ _ _ | EmitRegisterDenyListUpdate _ _ _ _ | EmitDenyListUpdate _ _ _ _
  | EmitDenyListedBlobDeleted _ _ => v
  end.

(** The events are legal one after the other. *)
Inductive announced : View -> list SystemEvent -> View -> Prop :=
| announced_nil v : announced v [] v
| announced_cons v event events v' : legal v event -> announced (announce v event) events v' -> announced v (event :: events) v'.

Lemma announced_app v events v1 events' v2 : announced v events v1 -> announced v1 events' v2 -> announced v (events ++ events') v2.
Proof. induction 1; cbn; [done|]. intros. constructor; auto. Qed.

Lemma announced_one v event : legal v event -> announced v [event] (announce v event).
Proof. intros Hl. by repeat constructor. Qed.

(** ** The view agrees with the chain *)

Definition view_of_blob (b : Blob) : ViewBlob := mk_view_blob (blob_id b) (deletable b) (end_epoch (storage b)) (certified_epoch b).

Record pool_view (v : View) (id : ID) (p : StoragePool) : Prop := {
  pv_end : v_pools v !! id = Some (pool_end p);
  pv_blobs : forall b x, pool_blobs p !! b = Some x ->
    storage_pool_id x = id /\ v_pooled v !! pooled_object_id x = Some (mk_view_pooled b (pooled_certified_epoch x) id);
}.

Section views.
Context `{Bls12381} `{HashFunction} (n : Z).
Implicit Types c : Chain.
Implicit Types v : View.

Record chain_view c v : Prop := {
  cv_epoch : v_epoch v = system_epoch (system c);
  cv_blobs : map_Forall (fun id b => v_blobs v !! id = Some (view_of_blob b)) (blobs c);
  cv_past : map_Forall (fun _ b => forall e, certified_epoch b = Some e -> e <= v_epoch v) (blobs c);
  cv_pools : map_Forall (pool_view v) (pools c);
  cv_ids : forall id, id ∉ used_ids c -> v_blobs v !! id = None /\ v_pooled v !! id = None /\ v_pools v !! id = None;
}.

Lemma view_same c c' v : chain_view c v -> system_epoch (system c') = system_epoch (system c) -> blobs c' ⊆ blobs c -> pools c' ⊆ pools c ->
  used_ids c ⊆ used_ids c' -> chain_view c' v.
Proof.
  intros [He Hb Hc Hp Hi] He' Hbs Hps Hid. constructor; [congruence| | | |].
  - intros id b Hk. by apply Hb, (lookup_weaken _ _ _ _ Hk).
  - intros id b Hk. by apply (Hc id), (lookup_weaken _ _ _ _ Hk).
  - intros id p Hk. by apply Hp, (lookup_weaken _ _ _ _ Hk).
  - intros id Hn. apply Hi. set_solver.
Qed.

(** A blob is registered, certified or extended. *)
Lemma view_blob c c' v id b vb : chain_view c v -> system_epoch (system c') = system_epoch (system c) -> blobs c' = <[id := b]> (blobs c) ->
  pools c' = pools c -> used_ids c ⊆ used_ids c' -> id ∈ used_ids c' -> (forall e, certified_epoch b = Some e -> e <= v_epoch v) -> vb = view_of_blob b ->
  chain_view c' (mk_view (v_epoch v) (<[id := vb]> (v_blobs v)) (v_pooled v) (v_pools v)).
Proof.
  intros [He Hb Hc Hp Hi] He' Hbs Hps Hid Hin Hcb ->. constructor; cbn; [congruence| | | |].
  - rewrite Hbs. intros id' b' Hk. destruct (decide (id' = id)) as [->|Hne].
    + rewrite lookup_insert_eq in Hk. injection Hk as <-. by rewrite lookup_insert_eq.
    + rewrite lookup_insert_ne in Hk by done. rewrite lookup_insert_ne by done. by apply Hb.
  - rewrite Hbs. by apply map_Forall_insert_2.
  - rewrite Hps. intros id' p Hk. destruct (Hp id' p Hk). by constructor.
  - intros id' Hn. rewrite lookup_insert_ne by (intros <-; done). apply Hi. set_solver.
Qed.

Lemma view_delete c c' v id : chain_view c v -> system_epoch (system c') = system_epoch (system c) -> blobs c' = delete id (blobs c) ->
  pools c' = pools c -> used_ids c' = used_ids c ->
  chain_view c' (mk_view (v_epoch v) (delete id (v_blobs v)) (v_pooled v) (v_pools v)).
Proof.
  intros [He Hb Hc Hp Hi] He' Hbs Hps Hid. constructor; cbn; [congruence| | | |].
  - rewrite Hbs. intros id' b' [Hne Hk]%lookup_delete_Some. rewrite lookup_delete_ne by done. by apply Hb.
  - rewrite Hbs. by apply map_Forall_delete.
  - rewrite Hps. intros id' p Hk. destruct (Hp id' p Hk). by constructor.
  - intros id' Hn. rewrite Hid in Hn. destruct (Hi id' Hn) as (H1 & H2 & H3). split_and!; [|done|done]. rewrite lookup_delete_None. by right.
Qed.

(** One pool changes. *)
Lemma view_pool c c' v v' id p : chain_view c v -> system_epoch (system c') = system_epoch (system c) -> blobs c' = blobs c ->
  pools c' = <[id := p]> (pools c) -> v_epoch v' = v_epoch v -> v_blobs v' = v_blobs v -> pool_view v' id p ->
  (forall id' p', id' <> id -> pool_view v id' p' -> pool_view v' id' p') -> used_ids c ⊆ used_ids c' ->
  (forall id', id' ∉ used_ids c' -> v_pooled v' !! id' = v_pooled v !! id' /\ v_pools v' !! id' = v_pools v !! id') -> chain_view c' v'.
Proof.
  intros [He Hb Hc Hp Hi] He' Hbs Hps Hve Hvb Hv Hother Hsub Hid. constructor; [congruence|by rewrite Hbs, Hvb|by rewrite Hbs, Hve| |].
  - rewrite Hps. intros id' p' Hk. destruct (decide (id' = id)) as [->|Hne].
    + rewrite lookup_insert_eq in Hk. by injection Hk as <-.
    + rewrite lookup_insert_ne in Hk by done. apply Hother; [done|by apply Hp].
  - intros id' Hn. destruct (Hid id' Hn) as [-> ->]. rewrite Hvb. apply Hi. set_solver.
Qed.

(** A pool changes in nothing that is announced. *)
Lemma view_pool_same c c' v id p p' : chain_view c v -> pools c !! id = Some p -> system_epoch (system c') = system_epoch (system c) ->
  blobs c' = blobs c -> pools c' = <[id := p']> (pools c) -> used_ids c' = used_ids c -> pool_end p' = pool_end p ->
  pool_blobs p' ⊆ pool_blobs p -> chain_view c' v.
Proof.
  intros Hv Hp He Hbs Hps Hid Hend Hsub. eapply view_pool; [exact Hv|done|done|exact Hps|done|done| |done|by rewrite Hid|done].
  destruct (cv_pools _ _ Hv id p Hp) as [H1 H2]. constructor; [congruence|]. intros b x Hx. by apply H2, (lookup_weaken _ _ _ _ Hx).
Qed.

(** The end of a pool is announced. *)
Lemma view_pool_end c c' v id p stop : chain_view c v -> system_epoch (system c') = system_epoch (system c) -> blobs c' = blobs c ->
  pools c' = <[id := p]> (pools c) -> used_ids c ⊆ used_ids c' -> id ∈ used_ids c' -> pool_end p = stop ->
  (forall b x, pool_blobs p !! b = Some x -> exists p0, pools c !! id = Some p0 /\ pool_blobs p0 !! b = Some x) ->
  chain_view c' (mk_view (v_epoch v) (v_blobs v) (v_pooled v) (<[id := stop]> (v_pools v))).
Proof.
  intros Hv He Hbs Hps Hsub Hid Hend Hold. eapply view_pool; [exact Hv|done|done|exact Hps|done|done| | |done|].
  - constructor; cbn; [rewrite lookup_insert_eq; congruence|]. intros b x Hx. destruct (Hold b x Hx) as (p0 & Hp0 & Hb0).
    by apply (pv_blobs _ _ _ (cv_pools _ _ Hv id p0 Hp0)).
  - intros id' p' Hne [H1 H2]. constructor; cbn; [by rewrite lookup_insert_ne|done].
  - intros id' Hn. cbn. split; [done|]. rewrite lookup_insert_ne; [done|]. by intros <-.
Qed.

(** The blob [b] of a pool is registered or certified. *)
Lemma view_pooled c c' v id p p' b x : chain_view c v -> pools c !! id = Some p -> system_epoch (system c') = system_epoch (system c) ->
  blobs c' = blobs c -> pools c' = <[id := p']> (pools c) -> used_ids c ⊆ used_ids c' -> pooled_object_id x ∈ used_ids c' ->
  pool_end p' = pool_end p -> pool_blobs p' = <[b := x]> (pool_blobs p) -> storage_pool_id x = id ->
  (v_pooled v !! pooled_object_id x = None \/ exists cert, v_pooled v !! pooled_object_id x = Some (mk_view_pooled b cert id)) ->
  chain_view c' (mk_view (v_epoch v) (v_blobs v) (<[pooled_object_id x := mk_view_pooled b (pooled_certified_epoch x) id]> (v_pooled v)) (v_pools v)).
Proof.
  intros Hv Hp He Hbs Hps Hsub Hid Hend Hblobs Hpid Hold. destruct (cv_pools _ _ Hv id p Hp) as [Hpe Hpb].
  eapply view_pool; [exact Hv|done|done|exact Hps|done|done| | |done|].
  - constructor; cbn; [congruence|]. rewrite Hblobs. intros b' x' Hx'. destruct (decide (b' = b)) as [->|Hne].
    + rewrite lookup_insert_eq in Hx'. injection Hx' as <-. by rewrite lookup_insert_eq.
    + rewrite lookup_insert_ne in Hx' by done. destruct (Hpb b' x' Hx') as [H1 H2]. split; [done|].
      rewrite lookup_insert_ne; [done|]. intros Heq. rewrite <- Heq in H2. destruct Hold as [Ho|[cert Ho]]; congruence.
  - intros id' p2 Hne [H1 H2]. constructor; cbn; [done|]. intros b' x' Hx'. destruct (H2 b' x' Hx') as [H3 H4]. split; [done|].
    rewrite lookup_insert_ne; [done|]. intros Heq. rewrite <- Heq in H4. destruct Hold as [Ho|[cert Ho]]; congruence.
  - intros id' Hn. cbn. split; [|done]. rewrite lookup_insert_ne; [done|]. by intros <-.
Qed.

(** The blob [b] of a pool is deleted. *)
Lemma view_pooled_delete c c' v id p p' b x : chain_view c v -> pools c !! id = Some p -> system_epoch (system c') = system_epoch (system c) ->
  blobs c' = blobs c -> pools c' = <[id := p']> (pools c) -> used_ids c' = used_ids c -> pool_end p' = pool_end p ->
  pool_blobs p !! b = Some x -> pool_blobs p' = delete b (pool_blobs p) ->
  chain_view c' (mk_view (v_epoch v) (v_blobs v) (delete (pooled_object_id x) (v_pooled v)) (v_pools v)).
Proof.
  intros Hv Hp He Hbs Hps Hid Hend Hx Hblobs. destruct (cv_pools _ _ Hv id p Hp) as [Hpe Hpb]. destruct (Hpb b x Hx) as [_ Hvx].
  eapply view_pool; [exact Hv|done|done|exact Hps|done|done| | |by rewrite Hid|].
  - constructor; cbn; [congruence|]. rewrite Hblobs. intros b' x' [Hne Hx']%lookup_delete_Some. destruct (Hpb b' x' Hx') as [H1 H2]. split; [done|].
    rewrite lookup_delete_ne; [done|]. intros Heq. rewrite <- Heq in H2. congruence.
  - intros id' p2 Hne [H1 H2]. constructor; cbn; [done|]. intros b' x' Hx'. destruct (H2 b' x' Hx') as [H3 H4]. split; [done|].
    rewrite lookup_delete_ne; [done|]. intros Heq. rewrite <- Heq in H4. congruence.
  - intros id' Hn. cbn. split; [|done]. rewrite Hid in Hn. destruct (cv_ids _ _ Hv id' Hn) as (_ & Hno & _). rewrite Hno, lookup_delete_None. by right.
Qed.

(** ** The events of the calls *)

Lemma announces_one c' v event : legal v event -> chain_view c' (announce v event) -> exists v', announced v [event] v' /\ chain_view c' v'.
Proof. intros Hl Hv. eexists. split; [by apply announced_one|done]. Qed.

Lemma announces_none c' v : chain_view c' v -> exists v', announced v [] v' /\ chain_view c' v'.
Proof. intros Hv. exists v. split; [constructor|done]. Qed.

(** The storage of a certified blob is extended. *)
Lemma announce_extension c c' v id x st ce : chain_inv n c -> chain_view c v -> blobs c !! id = Some x -> certified_epoch x = Some ce ->
  system_epoch (system c) < end_epoch (storage x) <= end_epoch st -> system_epoch (system c') = system_epoch (system c) ->
  blobs c' = <[id := set_storage st x]> (blobs c) -> pools c' = pools c -> used_ids c' = used_ids c ->
  exists v', announced v [EmitBlobCertified ce (blob_id x) (end_epoch st) (deletable x) (blob_object_id x) true] v' /\ chain_view c' v'.
Proof.
  intros Hinv Hv Hx Hce Hend He Hbs Hps Hids. pose proof (ci_objects _ _ Hinv) as Hobj.
  pose proof (oi_blobs _ _ Hobj _ _ Hx) as Hid. cbn in Hid. pose proof (cv_epoch _ _ Hv) as Hve. pose proof (cv_past _ _ Hv id x Hx ce Hce) as Hpast.
  apply announces_one; cbn; rewrite Hid.
  - exists (view_of_blob x). split; [by apply (cv_blobs _ _ Hv)|]. cbn. split_and!; try done; lia.
  - eapply (view_blob c); [exact Hv|done|exact Hbs|done|by rewrite Hids|rewrite Hids; by eapply (used_blob n c)| |].
    + cbn. intros e Hcert. rewrite Hce in Hcert. by injection Hcert as <-.
    + unfold view_of_blob. cbn. by rewrite Hce.
Qed.

Lemma announce_blob call c c' ev paid v : chain_inv n c -> execute_blob call c = Ok (c', ev, paid) -> call_fresh call c ->
  system_epoch (system c') = system_epoch (system c) -> chain_view c v -> exists v', announced v ev v' /\ chain_view c' v'.
Proof.
  intros Hinv Hr Hf He Hv. pose proof (ok_epoch _ (ci_system _ _ Hinv)) as Hep. pose proof (ci_objects _ _ Hinv) as Hobj.
  pose proof (cv_epoch _ _ Hv) as Hve.
  destruct call; cbn [execute_blob] in Hr; try done; unfold get_storage, get_blob in Hr; call_inv.
  - unfold register_blob in H2. call_inv. apply blob_new_inv in H3 as (Hper & -> & _ & -> & _).
    apply announces_one; cbn; [split_and!; [by apply (cv_ids _ _ Hv)|lia|by eapply encoded_length_type]|]. eapply (view_blob c); [exact Hv|done|done|done|set_solver|set_solver|done|done].
  - unfold certify_blob in H2. call_inv. apply certify_inv in H2 as (-> & Hn & Hlt & _ & ->). pose proof (oi_blobs _ _ Hobj _ _ H1) as Hid. cbn in Hid.
    apply announces_one; cbn; rewrite Hid.
    + exists (view_of_blob x). split; [by apply (cv_blobs _ _ Hv)|]. cbn. rewrite Hve. split_and!; try done; lia.
    + eapply (view_blob c); [exact Hv|done|done|done|done|by eapply (used_blob n c)| |done]. cbn. rewrite Hve. intros e [= <-]. lia.
  - unfold delete_blob, blob_delete in H2. call_inv. checked. pose proof (oi_blobs _ _ Hobj _ _ H1) as Hid. cbn in Hid.
    apply announces_one; cbn; rewrite Hid; [|by eapply (view_delete c)].
    exists (view_of_blob x). split; [by apply (cv_blobs _ _ Hv)|]. cbn. rewrite Hve. split_and!; try done; lia.
  - apply announces_none. eapply (view_same c); [exact Hv|done|apply delete_subseteq|done|done].
  - unfold extend_blob_with_resource, extend_with_resource in H3. call_inv. checked.
    apply certified_not_expired_inv in H4 as (ce & Hce & Hend). unfold emit_certified in H7. cbn in H7. rewrite Hce in H7. injection H7 as <-.
    eapply announce_extension; [exact Hinv|exact Hv|exact H1|done| |done|done|done|done].
    unfold fuse_periods in H6. call_inv. destruct (_ =? _) in H6; call_inv; cbn; lia.
  - apply extend_blob_inv in H2 as (Hend & _ & (ce & Hce & -> & ->) & _ & _); [|apply Hinv].
    match goal with |- context [set_storage ?st _] => change (end_epoch (storage x) + extended_epochs) with (end_epoch st) at 1 end.
    eapply announce_extension; [exact Hinv|exact Hv|exact H1|done| |done|done|done|done]. cbn. lia.
Qed.

Lemma certify_pooled_inv x e stop m x' ev : pooled_certify x e stop m = Ok (x', ev) -> pooled_certified_epoch x = None /\ e < stop /\
  x' = mk_pooled_blob (pooled_object_id x) (pooled_registered_epoch x) (pooled_blob_id x) (pooled_unencoded_size x) (pooled_encoding_type x) (Some e)
         (storage_pool_id x) (pooled_deletable x) /\
  ev = [EmitPooledBlobCertified e (pooled_blob_id x) (pooled_deletable x) (pooled_object_id x) (storage_pool_id x)].
Proof. unfold pooled_certify. intros Hr. call_inv. checked. split_and!; done. Qed.

Lemma view_open c v id p : chain_view c v -> pools c !! id = Some p -> system_epoch (system c) < pool_end p -> pool_open v id.
Proof. intros Hv Hp Hlt. exists (pool_end p). rewrite (cv_epoch _ _ Hv). by split; [apply (cv_pools _ _ Hv)|]. Qed.

(** A pool is created. *)
Lemma announce_pool_created c c' v id p e k start stop : chain_view c v -> id ∉ used_ids c -> system_epoch (system c') = system_epoch (system c) -> blobs c' = blobs c ->
  pools c' = <[id := p]> (pools c) -> used_ids c' = {[id]} ∪ used_ids c -> pool_blobs p = ∅ -> pool_end p = stop ->
  exists v', announced v [EmitStoragePoolCreated e id k start stop] v' /\ chain_view c' v'.
Proof.
  intros Hv Hid He Hbs Hps Hids Hb <-. apply announces_one; cbn; [by apply (cv_ids _ _ Hv)|].
  eapply (view_pool_end c); [exact Hv|done|done|exact Hps|set_solver|set_solver|done|]. by rewrite Hb.
Qed.

Lemma announce_pool call c c' ev paid v : chain_inv n c -> execute_pool call c = Ok (c', ev, paid) -> call_fresh call c ->
  system_epoch (system c') = system_epoch (system c) -> chain_view c v -> exists v', announced v ev v' /\ chain_view c' v'.
Proof.
  intros Hinv Hr Hf He Hv. pose proof (ci_objects _ _ Hinv) as Hobj. pose proof (cv_epoch _ _ Hv) as Hve.
  destruct call; cbn [execute_pool] in Hr; try done; unfold get_storage, get_pool in Hr; call_inv.
  - unfold create_storage_pool, create_storage_pool_with_storage in H1. call_inv. by eapply announce_pool_created.
  - unfold create_storage_pool_with_storage in H2. call_inv. by eapply announce_pool_created.
  - unfold register_pooled_blob in H2. call_inv. checked.
    match goal with H : new_pooled_blob _ _ _ _ _ _ _ _ = _ |- _ => apply pooled_fields in H as [-> ->] end.
    match goal with H : add_blob _ _ _ = Ok _ |- _ => unfold add_blob in H; call_inv end. destruct (oi_pools _ _ Hobj _ _ H1) as [Hpid Hpo]. rewrite Hpid.
    apply announces_one; cbn; [split_and!; [by apply (cv_ids _ _ Hv)|by eapply view_open|by eapply encoded_length_type]|].
    eapply (view_pooled c _ _ _ _ _ _ (mk_pooled_blob id _ blob_id _ _ None _ _)); [exact Hv|exact H1|done|done|done|set_solver|set_solver|done|done|done|].
    left. by apply (cv_ids _ _ Hv).
  - unfold delete_pooled_blob, delete_blob_object in H2. call_inv. checked.
    match goal with H : remove_blob _ _ _ = _ |- _ => apply remove_blob_inv in H as (Hb & _ & Hst & Hbl & _) end.
    destruct (oi_pools _ _ Hobj _ _ H1) as [Hpid Hpo]. destruct (pv_blobs _ _ _ (cv_pools _ _ Hv _ _ H1) _ _ Hb) as [Hx Hvx]. rewrite Hx.
    destruct (po_sizes _ _ Hpo _ _ Hb) as (Hbid & _). rewrite Hbid.
    apply announces_one; cbn; [eexists; split; [exact Hvx|]; split; [by eapply view_open|done]|].
    eapply (view_pooled_delete c); [exact Hv|exact H1|done|done|done|done| |exact Hb|done]. unfold pool_end. by rewrite Hst.
  - unfold burn_expired_pooled_blob in H2. call_inv. checked.
    match goal with H : remove_blob _ _ _ = _ |- _ => apply remove_blob_inv in H as (Hb & _ & Hst & Hbl & _) end.
    apply announces_none. eapply (view_pool_same c); [exact Hv|exact H1|done|done|done|done|by unfold pool_end; rewrite Hst|]. rewrite Hbl. apply delete_subseteq.
  - unfold extend_storage_pool, pool_extend_end_epoch, extend_end_epoch in H2. call_inv. checked.
    destruct (oi_pools _ _ Hobj _ _ H1) as [Hpid Hpo]. cbn [set_pool_storage pool_object_id]. rewrite Hpid. destruct (cv_pools _ _ Hv _ _ H1) as [Hpe Hpb].
    apply announces_one; cbn.
    + eexists. split; [exact Hpe|]. rewrite Hve. unfold pool_end in *. cbn. lia.
    + eapply (view_pool_end c); [exact Hv|done|done|done|done|by eapply (used_pool n c)|done|]. cbn. eauto.
  - unfold increase_storage_pool_capacity, increase_reserved_encoded_capacity, increase_size in H2. call_inv.
    apply announces_none. by eapply (view_pool_same c).
  - unfold increase_storage_pool_capacity_with_storage, increase_capacity_with_storage, increase_size in H3. call_inv.
    apply announces_none. by eapply (view_pool_same c).
  - unfold decrease_storage_pool_capacity_by_size in H2. call_inv.
    match goal with H : decrease_capacity_by_size _ _ = _ |- _ => apply decrease_capacity_inv in H as (_ & -> & _) end.
    apply announces_none. by eapply (view_pool_same c).
  - unfold decrease_storage_pool_unused_capacity_by_percent, decrease_unused_capacity_by_percent in H2. call_inv.
    match goal with H : decrease_capacity_by_size _ _ = _ |- _ => apply decrease_capacity_inv in H as (_ & -> & _) end.
    apply announces_none. by eapply (view_pool_same c).
  - unfold certify_pooled_blob in H2. call_inv.
    match goal with H : pooled_certify _ _ _ _ = _ |- _ => apply certify_pooled_inv in H as (Hn & Hlt & -> & ->) end.
    match goal with H : pool_blobs _ !! _ = Some ?z |- _ => rename H into Hb, z into y end.
    destruct (oi_pools _ _ Hobj _ _ H1) as [Hpid Hpo]. destruct (pv_blobs _ _ _ (cv_pools _ _ Hv _ _ H1) _ _ Hb) as [Hx Hvx]. rewrite Hx. rewrite Hn in Hvx.
    destruct (po_sizes _ _ Hpo _ _ Hb) as (Hbid & _). rewrite Hbid.
    apply announces_one; cbn; [split; [done|]; split; [by eapply view_open|lia]|].
    eapply (view_pooled c _ _ _ _ _ _ (mk_pooled_blob _ _ _ _ _ (Some _) _ _)); [exact Hv|exact H1|done|done|done|done| |done|done|done|by right; eexists].
    cbn. destruct (decide (pooled_object_id y ∈ used_ids c)) as [|Hno]; [done|]. destruct (cv_ids _ _ Hv _ Hno) as (_ & Hno' & _). congruence.
  - apply announces_none. eapply (view_same c); [exact Hv|done|done|apply delete_subseteq|done].
Qed.

Lemma announce_storage call c c' ev paid v : execute_storage call c = Ok (c', ev, paid) ->
  system_epoch (system c') = system_epoch (system c) -> chain_view c v -> exists v', announced v ev v' /\ chain_view c' v'.
Proof.
  intros Hr He Hv. destruct call; cbn [execute_storage] in Hr; try done; unfold fuse_storages in Hr; call_inv;
    apply announces_none; by eapply (view_same c).
Qed.

Lemma announce_event_blob c c' v node id b root size enc seq e ev paid : chain_inv n c -> id ∉ used_ids c ->
  execute (CertifyEventBlob node id b root size enc seq e) c = Ok (c', ev, paid) -> chain_view c v -> exists v', announced v ev v' /\ chain_view c' v'.
Proof.
  intros Hinv Hid Hr Hv. pose proof (ci_system _ _ Hinv) as Hok. pose proof (ok_epoch _ Hok) as Hep. pose proof (wf_length _ (ok_ring _ Hok)) as Hlen.
  cbn [execute execute_system] in Hr. call_inv.
  match goal with H : certify_event_blob _ _ _ _ _ _ _ _ _ = _ |- _ => apply certify_cases in H as (_ & _ & Hcm & _ & _ & _ & Hcase); [|done] end.
  assert (forall v', v_epoch v' = v_epoch v -> v_pooled v' = v_pooled v -> v_pools v' = v_pools v -> (forall k, k <> id -> v_blobs v' !! k = v_blobs v !! k) ->
    chain_view (with_cap node s0 (with_id id (with_system s c))) v') as Hkeep.
  { intros v' H1' H2' H3' H4'. destruct Hv as [He Hb Hc Hp Hi]. constructor; cbn.
    - rewrite H1', He. unfold system_epoch. by rewrite Hcm.
    - intros k y Hk. rewrite H4'; [by apply Hb|]. intros ->. destruct (oi_ids _ _ (ci_objects _ _ Hinv) id Hid). congruence.
    - by rewrite H1'.
    - intros k p Hk. destruct (Hp k p Hk). constructor; [by rewrite H3'|by rewrite H2'].
    - intros k Hk. rewrite H2', H3', H4' by set_solver. apply Hi. set_solver. }
  destruct Hcase as [(_ & _ & ->)|(_ & [(-> & _)|(_ & _ & Henc & ->)])]; try (by apply announces_none, Hkeep).
  eexists. split.
  - unfold max_epochs_ahead in *. repeat apply announced_cons; cbn; [split_and!; [by apply (cv_ids _ _ Hv)|lia|done]| |apply announced_nil].
    eexists. rewrite lookup_insert_eq. split; [done|]. cbn. rewrite (cv_epoch _ _ Hv). split_and!; try done; lia.
  - apply Hkeep; cbn; [done|done|done|]. intros k Hk. by rewrite !lookup_insert_ne.
Qed.

Lemma announce_system call c c' ev paid v : chain_inv n c -> execute_system call c = Ok (c', ev, paid) -> call_fresh call c ->
  (forall cm cap, call <> AdvanceEpoch cm cap) -> (forall node id b root size enc seq e, call <> CertifyEventBlob node id b root size enc seq e) ->
  system_epoch (system c') = system_epoch (system c) -> chain_view c v -> exists v', announced v ev v' /\ chain_view c' v'.
Proof.
  intros Hinv Hr Hf Hna Hne He Hv. destruct call; cbn [execute_system] in Hr; try done; try (by destruct (Hna _ _ eq_refl));
    try (by destruct (Hne _ _ _ _ _ _ _ _ eq_refl));
    unfold invalidate_blob_id, update_protocol_version, register_deny_list_update, update_deny_list, delete_deny_listed_blob in Hr; call_inv.
  all: first [apply announces_none|apply announces_one; [done|]]; eapply view_same; [exact Hv|done..].
Qed.

(** Every call announces what it does to the objects. *)
Lemma announce_execute call c c' ev paid v : chain_inv n c -> call_allowed n call c -> execute call c = Ok (c', ev, paid) -> chain_view c v ->
  exists v', announced v ev v' /\ chain_view c' v'.
Proof.
  intros Hinv Hal Hr Hv. pose proof (proj1 Hal) as Hf.
  assert ((exists cm cap, call = AdvanceEpoch cm cap) \/ (forall cm cap, call <> AdvanceEpoch cm cap)) as [(cm & cap & ->)|Hna]
    by (destruct call; eauto; by right).
  { cbn [execute execute_system] in Hr. call_inv.
    match goal with H : advance_epoch _ _ _ = _ |- _ => apply advance_epoch_inv in H as (_ & [He _ _ _ _] & Hcm & _ & _); [|apply Hinv] end.
    pose proof (ok_epoch _ (ci_system _ _ Hinv)) as Hep. pose proof (cv_epoch _ _ Hv) as Hve.
    apply announces_one; cbn; unfold system_epoch in *; rewrite Hcm in *; [lia|]. destruct Hv as [_ Hb Hc Hp Hi]. constructor; cbn; [by unfold system_epoch; cbn; rewrite Hcm|done| | |done].
    - intros id b Hk e Hce. specialize (Hc id b Hk e Hce). lia.
    - intros id p Hk. destruct (Hp id p Hk). by constructor. }
  edestruct execute_effect as [(old & new & used & He) _]; [exact Hinv|exact Hal|exact Hna|exact Hr|].
  assert (system_epoch (system c') = system_epoch (system c)) as Hep
    by (unfold system_epoch; by rewrite (sa_committee _ _ _ _ (ce_system _ _ _ _ _ _ He))).
  assert ((exists node id b root size enc seq e, call = CertifyEventBlob node id b root size enc seq e) \/
    (forall node id b root size enc seq e, call <> CertifyEventBlob node id b root size enc seq e)) as [(? & ? & ? & ? & ? & ? & ? & ? & ->)|Hne]
    by (destruct call; eauto 10; by right).
  { by eapply announce_event_blob. }
  destruct call; cbn [execute] in Hr;
    first [by eapply announce_storage|by eapply announce_blob|by eapply announce_pool|by eapply announce_system].
Qed.
End views.
