(* ===== verification/NodeEvents.v ===== *)
(** * The events of the contract in the storage node

    The conversion of contract events to the events of the node (events.rs of
    walrus-sui) and their handling ([process_event_impl] of node.rs).  [node_view]
    relates the blob info table to what the events announced: as long as the events
    are legal the node handles them, and its table has every object that lives. *)

From S2P Require Import Prelude NodeStorage Merkle StorageAccounting SystemObjects ChainEvents.
From S2P Require Import Core PermBlobInfo BlobInfoRepr.
From S2P Require Import BlobInfoV1 BlobInfoV2 BlobInfoTable Batches BlobInfoRefinement.
From S2P Require Import BlobInfoSafety BlobInfoEvents BlobInfoProps.

(** ** Conversion *)

(** [ContractEvent], with the kinds that the system contract emits. *)
Inductive ContractEvent :=
| CBlobEvent (event : BlobEvent)
| CEpochChangeStart (epoch : Epoch)
| CDenyListEvent
| CProtocolVersionUpdated (version : Z)
| CStoragePoolEvent (event : StoragePoolEvent).

(** A blob ID is the little-endian serialization of a [u256]. *)
Definition blob_id_of_u256 (id : Z) : BlobId := mk_blob_id (le_bytes 32 id).

(** [TryFrom<EventEnvelope> for ContractEvent]; [event_id] is the ID in the envelope. *)
Definition contract_event (event_id : EventID) (event : SystemEvent) : outcome InvalidEncodingType ContractEvent :=
  match event with
  | EmitBlobRegistered epoch blob_id size encoding_type end_epoch deletable object_id =>
    t ← encoding_type_try_from_u8 encoding_type;
    Ok (CBlobEvent (EvRegistered {| br_epoch := epoch; br_blob_id := blob_id_of_u256 blob_id; br_size := size; br_encoding_type := t;
      br_end_epoch := end_epoch; br_deletable := deletable; br_object_id := object_id; br_event_id := event_id |}))
  | EmitBlobCertified epoch blob_id end_epoch deletable object_id is_extension =>
    Ok (CBlobEvent (EvCertified {| bc_epoch := epoch; bc_blob_id := blob_id_of_u256 blob_id; bc_end_epoch := end_epoch;
      bc_deletable := deletable; bc_object_id := object_id; bc_is_extension := is_extension; bc_event_id := event_id |}))
  | EmitBlobDeleted epoch blob_id end_epoch object_id was_certified =>
    Ok (CBlobEvent (EvDeleted {| bd_epoch := epoch; bd_blob_id := blob_id_of_u256 blob_id; bd_end_epoch := end_epoch;
      bd_object_id := object_id; bd_was_certified := was_certified; bd_event_id := event_id |}))
  | EmitInvalidBlobID epoch blob_id =>
    Ok (CBlobEvent (EvInvalidBlobID {| ib_epoch := epoch; ib_blob_id := blob_id_of_u256 blob_id; ib_event_id := event_id |}))
  | EmitEpochChangeStart epoch => Ok (CEpochChangeStart epoch)
  | EmitProtocolVersion _ _ version => Ok (CProtocolVersionUpdated version)
  | EmitRegisterDenyListUpdate _ _ _ _ | EmitDenyListUpdate _ _ _ _ => Ok CDenyListEvent
  | EmitDenyListedBlobDeleted epoch blob_id =>
    Ok (CBlobEvent (EvDenyListBlobDeleted {| dl_epoch := epoch; dl_blob_id := blob_id_of_u256 blob_id; dl_event_id := event_id |}))
  | EmitStoragePoolCreated _ storage_pool_id _ start_epoch end_epoch =>
    Ok (CStoragePoolEvent (StoragePoolCreated storage_pool_id start_epoch end_epoch))
  | EmitStoragePoolExtended _ storage_pool_id new_end_epoch => Ok (CStoragePoolEvent (StoragePoolExtended storage_pool_id new_end_epoch))
  | EmitPooledBlobRegistered epoch blob_id unencoded_size encoding_type deletable object_id storage_pool_id =>
    t ← encoding_type_try_from_u8 encoding_type;
    Ok (CBlobEvent (EvPooledBlobRegistered {| pr_epoch := epoch; pr_blob_id := blob_id_of_u256 blob_id; pr_unencoded_size := unencoded_size;
      pr_encoding_type := t; pr_deletable := deletable; pr_object_id := object_id; pr_storage_pool_id := storage_pool_id; pr_event_id := event_id |}))
  | EmitPooledBlobCertified epoch blob_id deletable object_id storage_pool_id =>
    Ok (CBlobEvent (EvPooledBlobCertified {| pcf_epoch := epoch; pcf_blob_id := blob_id_of_u256 blob_id; pcf_deletable := deletable;
      pcf_object_id := object_id; pcf_storage_pool_id := storage_pool_id; pcf_event_id := event_id |}))
  | EmitPooledBlobDeleted epoch blob_id object_id was_certified storage_pool_id =>
    Ok (CBlobEvent (EvPooledBlobDeleted {| pd_epoch := epoch; pd_blob_id := blob_id_of_u256 blob_id; pd_object_id := object_id;
      pd_was_certified := was_certified; pd_storage_pool_id := storage_pool_id; pd_event_id := event_id |}))
  end.

Section node.
Context `{Build}.

(** [process_event_impl] on the epoch and the blob info table of the node; the
    collection at an epoch change is a step of its own. *)
Definition process_event_impl (e : Epoch) (t : BlobInfoTable) (event_index : Z) (event : ContractEvent) : total (Epoch * BlobInfoTable) :=
  match event with
  | CBlobEvent event => t ← update_blob_info t event_index event; Ok (e, t)
  | CEpochChangeStart epoch => assert (negb (epoch =? GENESIS_EPOCH));; Ok (epoch, t)
  | CDenyListEvent => Ok (e, t)
  | CProtocolVersionUpdated _ => Panic
  | CStoragePoolEvent event => t ← update_storage_pool_info t event_index event; Ok (e, t)
  end.

(** The events that the node does not support yet. *)
Definition unsupported (event : SystemEvent) : bool :=
  match event with EmitProtocolVersion _ _ _ | EmitDenyListedBlobDeleted _ _ => true | _ => false end.

(** ** The table agrees with what was announced *)

Definition object_of_view (o : ViewBlob) (x : PerObjectBlobInfo) : Prop :=
  o_blob_id x = blob_id_of_u256 (vb_blob_id o) /\ o_deletable x = vb_deletable o /\ o_end_epoch x = vb_end_epoch o /\
  o_certified_epoch x = vb_certified_epoch o.

Definition pooled_of_view (o : ViewPooled) (x : PerObjectPooledBlobInfo) : Prop :=
  po_blob_id x = blob_id_of_u256 (vp_blob_id o) /\ po_certified_epoch x = vp_certified_epoch o /\ po_storage_pool_id x = vp_pool o.

Record node_view (v : View) (e : Epoch) (t : BlobInfoTable) : Prop := {
  nv_inv : table_inv e t;
  nv_pool_of : map_Forall (fun _ o => is_Some (v_pools v !! vp_pool o)) (v_pooled v);
  nv_epoch : v_epoch v = e;
  nv_blobs : forall id o, v_blobs v !! id = Some o -> e < vb_end_epoch o -> exists x, per_object_blob_info t !! id = Some x /\ object_of_view o x;
  nv_pooled : forall id o, v_pooled v !! id = Some o -> pool_open v (vp_pool o) ->
    exists x, per_object_pooled_blob_info t !! id = Some x /\ pooled_of_view o x;
  nv_pools : forall id stop, v_pools v !! id = Some stop -> e < stop -> exists info, storage_pool_info t !! id = Some info /\ pool_end_epoch info = stop;
  nv_known : forall id, (v_blobs v !! id = None -> per_object_blob_info t !! id = None) /\
    (v_pooled v !! id = None -> per_object_pooled_blob_info t !! id = None) /\ (v_pools v !! id = None -> storage_pool_info t !! id = None);
}.

Lemma legal_event_ok v e t i event ev : node_view v e t -> legal v event -> unsupported event = false ->
  contract_event i event = Ok (CBlobEvent ev) -> table_event_ok e t ev.
Proof.
  intros [_ _ He Hb Hp _ Hk] Hl Hu Hc. unfold table_event_ok.
  destruct event; cbn [contract_event legal unsupported] in *; try done.
  - destruct Hl as (Hn & Hs & ->). injection Hc as <-. cbn. split; [by apply Hk|done].
  - injection Hc as <-. destruct Hl as (o & Ho & <- & <- & Hlt & Hle & Hext). destruct (Hb _ _ Ho ltac:(lia)) as (x & Hx & H1 & H2 & H3 & H4).
    exists x. split; [done|]. split; [done|]. split; [done|]. cbn. rewrite H3, H4. destruct is_extension; split_and!; try naive_solver lia.
  - injection Hc as <-. destruct Hl as (o & Ho & <- & Hd & <- & Hlt & ->). destruct (Hb _ _ Ho ltac:(lia)) as (x & Hx & H1 & H2 & H3 & H4).
    exists x. cbn. split_and!; try done; [congruence|]. unfold is_cert. rewrite H4. by destruct (vb_certified_epoch o).
  - by injection Hc as <-.
  - destruct Hl as (Hn & _ & ->). injection Hc as <-. by apply Hk.
  - injection Hc as <-. destruct Hl as (Ho & Hopen & Hle). destruct (Hp _ _ Ho Hopen) as (x & Hx & H1 & H2 & H3).
    exists x. cbn in *. split_and!; try done. lia.
  - injection Hc as <-. destruct Hl as (cert & Ho & Hopen & ->). destruct (Hp _ _ Ho Hopen) as (x & Hx & H1 & H2 & H3).
    exists x. cbn in *. split_and!; try done. unfold pool_cert. rewrite H2. by destruct cert.
Qed.

(** The view after an event, from the objects after it. *)
Lemma view_after_blob v e t t' id vb x : node_view v e t -> table_inv e t' -> object_of_view vb x ->
  per_object_blob_info t' = upd id (Some x) (per_object_blob_info t) -> per_object_pooled_blob_info t' = per_object_pooled_blob_info t ->
  storage_pool_info t' = storage_pool_info t ->
  node_view (mk_view (v_epoch v) (<[id := vb]> (v_blobs v)) (v_pooled v) (v_pools v)) e t'.
Proof.
  intros [_ Hpof He Hb Hp Hps Hk] Hinv Hx Ho Hpo Hpl. constructor; cbn; [done|done|done| | |by rewrite Hpl|].
  - intros id' o Ho' Hlt. rewrite Ho. destruct (decide (id' = id)) as [->|Hne].
    + rewrite lookup_insert_eq in Ho'. injection Ho' as <-. exists x. by rewrite lookup_upd.
    + rewrite lookup_insert_ne in Ho' by done. rewrite lookup_upd_ne by done. by apply Hb.
  - rewrite Hpo. apply Hp.
  - intros id'. rewrite Hpo, Hpl. split; [|apply Hk]. intros Hn. apply lookup_insert_None in Hn as [Hn Hne].
    rewrite Ho, lookup_upd_ne by done. by apply Hk.
Qed.

Lemma view_after_pooled v e t t' id vp x : node_view v e t -> table_inv e t' -> pooled_of_view vp x ->
  per_object_pooled_blob_info t' = upd id (Some x) (per_object_pooled_blob_info t) -> per_object_blob_info t' = per_object_blob_info t ->
  storage_pool_info t' = storage_pool_info t -> is_Some (v_pools v !! vp_pool vp) ->
  node_view (mk_view (v_epoch v) (v_blobs v) (<[id := vp]> (v_pooled v)) (v_pools v)) e t'.
Proof.
  intros [_ Hpof He Hb Hp Hps Hk] Hinv Hx Hpo Ho Hpl Hvp. constructor; cbn; [done|by apply map_Forall_insert_2|done|by rewrite Ho| |by rewrite Hpl|].
  - intros id' o Ho' Hopen. rewrite Hpo. destruct (decide (id' = id)) as [->|Hne].
    + rewrite lookup_insert_eq in Ho'. injection Ho' as <-. exists x. by rewrite lookup_upd.
    + rewrite lookup_insert_ne in Ho' by done. rewrite lookup_upd_ne by done. by apply Hp.
  - intros id'. rewrite Ho, Hpl. split; [apply Hk|]. split; [|apply Hk]. intros Hn. apply lookup_insert_None in Hn as [Hn Hne].
    rewrite Hpo, lookup_upd_ne by done. by apply Hk.
Qed.

(** Events that remove an object, or none. *)
Lemma view_after_removal v e t t' bs ps : node_view v e t -> table_inv e t' ->
  (forall id o, bs !! id = Some o -> v_blobs v !! id = Some o /\ per_object_blob_info t' !! id = per_object_blob_info t !! id) ->
  (forall id o, ps !! id = Some o -> v_pooled v !! id = Some o /\ per_object_pooled_blob_info t' !! id = per_object_pooled_blob_info t !! id) ->
  (forall id, bs !! id = None -> per_object_blob_info t' !! id = None) -> (forall id, ps !! id = None -> per_object_pooled_blob_info t' !! id = None) ->
  storage_pool_info t' = storage_pool_info t -> node_view (mk_view (v_epoch v) bs ps (v_pools v)) e t'.
Proof.
  intros [_ Hpof He Hb Hp Hps Hk] Hinv H1 H2 H3 H4 Hpl. constructor; cbn; [done| |done| | |by rewrite Hpl|].
  - intros id o Ho. by apply (Hpof id), (H2 id o Ho).
  - intros id o Ho Hlt. destruct (H1 id o Ho) as [Hv ->]. by apply Hb.
  - intros id o Ho Hopen. destruct (H2 id o Ho) as [Hv ->]. by apply Hp.
  - intros id. rewrite Hpl. split_and!; [apply H3|apply H4|apply Hk].
Qed.

Lemma handled_view v e t t' i event ev : node_view v e t -> legal v event -> unsupported event = false ->
  contract_event i event = Ok (CBlobEvent ev) -> table_inv e t' -> handled t i ev t' -> node_view (announce v event) e t'.
Proof.
  intros Hv Hl Hu Hc Hinv (Ho & Hpo & Hpl & _). pose proof (nv_epoch _ _ _ Hv) as He.
  destruct event; cbn [contract_event legal unsupported announce] in *; try done.
  - destruct Hl as (_ & _ & ->). injection Hc as <-. by eapply view_after_blob; [exact Hv|done| |exact Ho|done|done].
  - injection Hc as <-. destruct Hl as (o & Hvo & <- & <- & Hlt & _ & Hext).
    destruct (nv_blobs _ _ _ Hv _ _ Hvo ltac:(lia)) as (x & Hx & H1 & H2 & H3 & H4). cbn in Ho. rewrite Hx in Ho. cbn in Ho.
    eapply view_after_blob; [exact Hv|done| |exact Ho|done|done]. unfold object_of_view. destruct is_extension; cbn.
    + destruct Hext as [Hcert _]. split_and!; try done. congruence.
    + destruct Hext as (_ & -> & _). done.
  - injection Hc as <-. cbn [objects_after pooled_objects_after bd_object_id pd_object_id] in Ho, Hpo. eapply view_after_removal; [exact Hv|done| | | | |done]; rewrite ?Ho, ?Hpo.
    + intros id' o [Hne Hid]%lookup_delete_Some. by rewrite lookup_upd_ne.
    + done.
    + intros id' [->|Hn]%lookup_delete_None; [by rewrite lookup_upd|]. destruct (decide (id' = object_id)) as [->|Hne]; [by rewrite lookup_upd|].
      rewrite lookup_upd_ne by done. by apply (nv_known _ _ _ Hv).
    + intros id'. apply (nv_known _ _ _ Hv).
  - injection Hc as <-. cbn in Ho, Hpo. destruct v as [ve vbs vps vpl]. eapply (view_after_removal (mk_view ve vbs vps vpl)); [exact Hv|done| | | | |done];
      rewrite ?Ho, ?Hpo; try done; intros id'; apply (nv_known _ _ _ Hv).
  - destruct Hl as (_ & (stop & Hs & _) & ->). injection Hc as <-. by eapply view_after_pooled; [exact Hv|done| |exact Hpo|done|done|eexists].
  - injection Hc as <-. destruct Hl as (Hvo & Hopen & _). destruct (nv_pooled _ _ _ Hv _ _ Hvo Hopen) as (x & Hx & H1 & H2 & H3).
    cbn in Hpo. rewrite Hx in Hpo. cbn in Hpo.
    destruct Hopen as (stop & Hs & _). by eapply view_after_pooled; [exact Hv|done| |exact Hpo|done|done|eexists].
  - injection Hc as <-. cbn [objects_after pooled_objects_after bd_object_id pd_object_id] in Ho, Hpo. eapply view_after_removal; [exact Hv|done| | | | |done]; rewrite ?Ho, ?Hpo.
    + done.
    + intros id' o [Hne Hid]%lookup_delete_Some. by rewrite lookup_upd_ne.
    + intros id'. apply (nv_known _ _ _ Hv).
    + intros id' [->|Hn]%lookup_delete_None; [by rewrite lookup_upd|]. destruct (decide (id' = object_id)) as [->|Hne]; [by rewrite lookup_upd|].
      rewrite lookup_upd_ne by done. by apply (nv_known _ _ _ Hv).
Qed.

(** Storage pool events. *)
Lemma pool_event_view v e t i event ev : node_view v e t -> legal v event -> contract_event i event = Ok (CStoragePoolEvent ev) ->
  has_event_been_handled (latest_handled_event_index t) i = false ->
  exists t', update_storage_pool_info t i ev = Ok t' /\ latest_handled_event_index t' = Some i /\ node_view (announce v event) e t'.
Proof.
  intros Hv Hl Hc Hi. unfold update_storage_pool_info. rewrite Hi. pose proof (nv_epoch _ _ _ Hv) as He.
  assert (exists id stop start, announce v event = mk_view (v_epoch v) (v_blobs v) (v_pooled v) (<[id := stop]> (v_pools v)) /\
    (forall stop0, v_pools v !! id = Some stop0 -> v_epoch v < stop0) /\
    update_storage_pool_info t i ev = Ok (set_event_index i (set_pools (<[id := mk_pool start stop]> (storage_pool_info t)) t))) as (id & stop & start & Ha & Hold & Hu).
  { unfold update_storage_pool_info. rewrite Hi. destruct event; cbn [contract_event legal announce] in *; try done; try (by destruct (encoding_type_try_from_u8 _));
      injection Hc as <-; unfold merge_entry; cbn.
    - do 3 eexists. split; [done|]. split; [congruence|]. by rewrite (proj2 (proj2 (nv_known _ _ _ Hv storage_pool_id)) Hl).
    - destruct Hl as (stop0 & Hs0 & Hlt). destruct (nv_pools _ _ _ Hv _ _ Hs0 ltac:(lia)) as (info & Hinfo & Hend).
      do 3 eexists. split; [done|]. split; [intros ? [= <-]%(eq_trans (eq_sym Hs0)); lia|]. rewrite Hinfo. cbn. by rewrite Hend, Z.max_r by lia. }
  unfold update_storage_pool_info in Hu. rewrite Hi in Hu. rewrite Hu, Ha. eexists. split; [done|]. split; [done|].
  destruct Hv as [Hinv Hpof _ Hb Hp Hps Hk].
  constructor; cbn; [by apply table_inv_event_index, table_inv_pools| |done|done| | |].
  - intros id' o Ho. destruct (decide (vp_pool o = id)) as [->|Hne]; [by rewrite lookup_insert_eq|]. rewrite lookup_insert_ne by done. by apply (Hpof id').
  - intros id' o Ho (stop' & Hs' & Hlt). cbn in *. apply (Hp id' o Ho). destruct (decide (vp_pool o = id)) as [Heq|Hne].
    + destruct (Hpof id' o Ho) as [stop0 Hs0]. exists stop0. split; [done|]. apply Hold. by rewrite <- Heq.
    + rewrite lookup_insert_ne in Hs' by done. by exists stop'.
  - intros id' stop' Hs' Hlt. destruct (decide (id' = id)) as [->|Hne].
    + rewrite lookup_insert_eq in Hs'. injection Hs' as <-. rewrite lookup_insert_eq. by eexists.
    + rewrite lookup_insert_ne in Hs' by done. rewrite lookup_insert_ne by done. by apply Hps.
  - intros id'. split_and!; [apply Hk|apply Hk|]. intros [Hn Hne]%lookup_insert_None. rewrite lookup_insert_ne by done. by apply Hk.
Qed.

(** ** Handling *)

Definition index_free (t : BlobInfoTable) (i : Z) : Prop := forall j, latest_handled_event_index t = Some j -> j < i.

Lemma index_free_handled t i : index_free t i -> has_event_been_handled (latest_handled_event_index t) i = false.
Proof. intros Hf. unfold has_event_been_handled, is_some_and. destruct (latest_handled_event_index t) as [j|] eqn:Hj; [|done]. specialize (Hf j Hj). lia. Qed.

Lemma unsupported_panics e t i event ce : index_free t i -> unsupported event = true -> contract_event i event = Ok ce ->
  process_event_impl e t i ce = Panic.
Proof.
  intros Hi%index_free_handled Hu Hce. destruct event; try done; injection Hce as <-; [done|]. cbn. unfold update_blob_info. by rewrite Hi.
Qed.

(** Every legal event is converted and handled, and the table then has what was announced. *)
Lemma process_legal v e t i event : node_view v e t -> index_free t i -> room t -> legal v event -> unsupported event = false ->
  exists ce e' t', contract_event i event = Ok ce /\ process_event_impl e t i ce = Ok (e', t') /\ node_view (announce v event) e' t' /\ index_free t' (i + 1).
Proof.
  intros Hv Hi Hroom Hl Hu. pose proof (index_free_handled t i Hi) as Hh. pose proof (nv_epoch _ _ _ Hv) as He.
  assert (index_free t (i + 1)) as Hi1 by (intros j Hj; specialize (Hi j Hj); lia).
  assert (exists ce, contract_event i event = Ok ce) as [ce Hce].
  { destruct event; cbn in Hl |- *; try (by eexists); destruct Hl as (_ & _ & ->); by eexists. }
  rewrite Hce. destruct ce as [ev|epoch| |version|ev].
  - destruct (update_blob_info_ok e t i ev (nv_inv _ _ _ Hv) Hroom (legal_event_ok _ _ _ _ _ _ Hv Hl Hu Hce) Hh) as (t' & Hup & Hinv & Hhd).
    exists (CBlobEvent ev), e, t'. cbn. rewrite Hup. split_and!; [done|done|by eapply handled_view|].
    destruct Hhd as (_ & _ & _ & Hlat). intros j Hj. rewrite Hlat in Hj. injection Hj as <-. lia.
  - exists (CEpochChangeStart epoch), epoch, t. assert (event = EmitEpochChangeStart epoch) as ->
      by (destruct event; cbn in Hce; try done; try (by destruct (encoding_type_try_from_u8 _)); by injection Hce as ->).
    destruct Hl as [-> Hpos]. cbn. rewrite (proj2 (Z.eqb_neq _ _)) by (unfold GENESIS_EPOCH; lia). split_and!; [done|done| |done].
    destruct Hv as [Hinv Hpof _ Hb Hp Hps Hk]. constructor; cbn; [eapply table_inv_mono; [|exact Hinv]; lia|done|done| | | |done].
    + intros id o Ho Hlt. apply (Hb id o Ho). lia.
    + intros id o Ho (stop & Hs & Hlt). apply (Hp id o Ho). exists stop. cbn in *. split; [done|lia].
    + intros id stop Hs Hlt. apply (Hps id stop Hs). lia.
  - exists CDenyListEvent, e, t. split_and!; [done|done| |done].
    destruct event; cbn in Hce; try done; by destruct (encoding_type_try_from_u8 _).
  - destruct event; cbn in Hce; try done; by destruct (encoding_type_try_from_u8 _).
  - destruct (pool_event_view _ _ _ _ _ _ Hv Hl Hce Hh) as (t' & Hup & Hlat & Hv').
    exists (CStoragePoolEvent ev), e, t'. cbn. rewrite Hup. split_and!; [done|done|done|]. intros j Hj. rewrite Hlat in Hj. injection Hj as <-. lia.
Qed.

(** ** Maintenance of the table *)

(** The collection of expired pools and objects, the metadata flag and the removal of entries. *)
Inductive maintenance (e : Epoch) (t : BlobInfoTable) : BlobInfoTable -> Prop :=
| m_collect_pools batch_size t' : (0 < batch_size)%nat -> process_expired_storage_pools t e batch_size = Ok t' -> maintenance e t t'
| m_collect_objects batch_size t' : room t -> (0 < batch_size)%nat -> process_expired_blob_objects t e batch_size = Ok t' -> maintenance e t t'
| m_metadata b stored t' : table_set_metadata_stored t b stored = Ok t' -> maintenance e t t'
| m_remove_entry b info : aggregate_blob_info t !! b = Some info -> can_blob_info_be_deleted info e = true ->
    maintenance e t (delete_in_transaction t b).

Lemma merge_aggregate_objects t b op t' : merge_aggregate t b op = Ok t' -> exists m, t' = set_aggregate m t.
Proof. unfold merge_aggregate. intros (m & _ & Hr)%bind_Ok. injection Hr as <-. by exists m. Qed.

Lemma maintenance_view v e t t' : node_view v e t -> maintenance e t t' ->
  node_view v e t' /\ latest_handled_event_index t' = latest_handled_event_index t.
Proof.
  intros [Hinv Hpof He Hb Hp Hps Hk] [bs t2 Hbs Hr|bs t2 Hroom Hbs Hr|b stored t2 Hr|b info Hbi Hcan].
  - rewrite process_expired_pools_ok in Hr by done. injection Hr as <-. split; [|done]. constructor; cbn; [by apply table_inv_pools|done|done|done|done| |].
    + intros id stop Hs Hlt. destruct (Hps id stop Hs Hlt) as (info & Hi & Hend). exists info. split; [|done].
      apply map_lookup_filter_Some. split; [done|]. unfold pool_expired. cbn. lia.
    + intros id. split_and!; [apply Hk|apply Hk|]. intros Hn. apply map_lookup_filter_None. left. by apply Hk.
  - destruct (process_expired_objects_ok e t bs Hinv Hroom Hbs) as (t3 & Hr3 & Hinv3 & _ & Hpl & Hlat & Ho & Hpo).
    rewrite Hr3 in Hr. injection Hr as <-. split; [|done]. constructor; [done|done|done| | |by rewrite Hpl|].
    + intros id o Hid Hlt. destruct (Hb id o Hid Hlt) as (x & Hx & Hxo). exists x. split; [|done]. rewrite Ho. apply map_lookup_filter_Some.
      split; [done|]. cbn. unfold object_expired, object_is_registered. destruct Hxo as (_ & _ & Hend & _).
      rewrite (inv_deleted _ _ Hinv id x Hx), Hend. apply negb_false_iff. rewrite andb_true_r. by apply Z.ltb_lt.
    + intros id o Hid Hopen. destruct (Hp id o Hid Hopen) as (x & Hx & Hxo). exists x. split; [|done]. rewrite Hpo. apply map_lookup_filter_Some.
      split; [done|]. cbn. destruct Hopen as (stop & Hs & Hlt). destruct (Hps _ _ Hs ltac:(lia)) as (info & Hi & Hend).
      unfold pooled_expired, pool_is_expired. destruct Hxo as (_ & _ & ->). rewrite Hi. lia.
    + intros id. rewrite Ho, Hpo, Hpl. split_and!; [| |apply Hk]; intros Hn; apply map_lookup_filter_None; left; by apply Hk.
  - destruct (table_aggregate_step e t b (MarkMetadataStored stored) Hinv) as (t3 & Hr3 & Hinv3); [apply agg_metadata, Hinv|].
    unfold table_set_metadata_stored in Hr. rewrite Hr3 in Hr. injection Hr as <-. destruct (merge_aggregate_objects _ _ _ _ Hr3) as [m ->].
    split; [|done]. by constructor.
  - split; [|done]. constructor; cbn; [by eapply delete_entry_inv|done..].
Qed.
End node.
