(* ===== verification/ChainNode.v ===== *)
(** * The system contract and a storage node together

    [world_step] interleaves the calls of the contract with a storage node that
    processes the emitted events in order, at its own pace, and maintains its table in
    between.  The node never panics on an event of the contract, except for the two
    kinds it does not support; once it has caught up, it keeps every blob that lives on
    chain and reports those certified that are. *)

From S2P Require Import Prelude Core PermBlobInfo BlobInfoRepr.
From S2P Require Import BlobInfoV1 BlobInfoV2 BlobInfoTable Batches BlobInfoRefinement.
From S2P Require Import BlobInfoSafety BlobInfoEvents BlobInfoProps NodeEvents.
From S2P Require Import Redstuff Merkle MoveStd StorageAccounting Certificates SystemObjects SystemState SystemContract.
From S2P Require Import SystemAccounting SystemEpochs SystemProps SystemInvariant EventBlobCertification ChainEvents.

Section world.
Context `{Bls12381} `{HashFunction} `{Build} (n : Z).

(** The chain with the events the node has not processed yet, and the node: the index of its
    next event, its epoch and its table. *)
Record World := mk_world {
  w_chain : Chain;
  w_pending : list SystemEvent;
  w_index : Z;
  w_epoch : Epoch;
  w_table : BlobInfoTable;
}.

Inductive world_step : World -> World -> Prop :=
| ws_call c pending i e t call c' events paid : call_allowed n call c -> execute call c = Ok (c', events, paid) ->
    world_step (mk_world c pending i e t) (mk_world c' (pending ++ events) i e t)
| ws_event c event pending i e t ce e' t' : room t -> contract_event i event = Ok ce -> process_event_impl e t i ce = Ok (e', t') ->
    world_step (mk_world c (event :: pending) i e t) (mk_world c pending (i + 1) e' t')
| ws_checkpoint c pending i e t : world_step (mk_world c pending i e t) (mk_world c pending (i + 1) e t)
| ws_maintenance c pending i e t t' : maintenance e t t' -> world_step (mk_world c pending i e t) (mk_world c pending i e t').

Definition world_reachable (k : Z) (w : World) : Prop :=
  exists c, chain_init k c /\ rtc world_step (mk_world c [] 0 0 empty_table) w.

(** The node has seen [v], and the pending events lead from there to the chain. *)
Definition world_inv (w : World) : Prop :=
  chain_inv n (w_chain w) /\ index_free (w_table w) (w_index w) /\
  exists v v', node_view v (w_epoch w) (w_table w) /\ announced v (w_pending w) v' /\ chain_view (w_chain w) v'.

Lemma init_view k c : chain_init k c -> chain_view c empty_view.
Proof.
  intros (Hk & Hc & _ & Hb & Hp & _). unfold create_empty in Hc. call_inv.
  match goal with H : new_bls_committee _ _ = Ok _ |- _ => apply new_bls_committee_wf in H as (_ & _ & He) end.
  match goal with H : mk_system _ _ _ _ _ _ _ _ = system c |- _ => rename H into Hsys end.
  constructor; rewrite ?Hb, ?Hp; [|done|done|done|done]. unfold system_epoch. rewrite <- Hsys. cbn. congruence.
Qed.

Lemma world_init_inv k c : chain_init k c -> world_inv (mk_world c [] 0 0 empty_table).
Proof.
  intros Hc. split; [by eapply init_inv|]. split; [done|]. exists empty_view, empty_view. split_and!; [|constructor|by eapply init_view].
  by constructor; try apply empty_table_inv.
Qed.

Lemma world_step_inv w w' : world_step w w' -> world_inv w -> world_inv w'.
Proof.
  intros Hs (Hinv & Hi & v & v' & Hn & Ha & Hc). destruct Hs as [c pending i e t call c' events paid Hal Hr|c event pending i e t ce e' t' Hroom Hce Hr
    |c pending i e t|c pending i e t t' Hm]; cbn in *.
  - destruct (chain_step_inv _ _ _ _ _ Hinv (cs_call _ _ _ _ _ _ Hal Hr)) as [Hinv' _].
    destruct (announce_execute _ _ _ _ _ _ _ Hinv Hal Hr Hc) as (v2 & Ha2 & Hc2).
    split; [done|]. split; [done|]. exists v, v2. split_and!; [done| |done]. by eapply announced_app.
  - inversion_clear Ha as [|? ? ? ? Hl Ha']. destruct (unsupported event) eqn:Hu.
    { by rewrite (unsupported_panics _ _ _ _ _ Hi Hu Hce) in Hr. }
    destruct (process_legal _ _ _ _ _ Hn Hi Hroom Hl Hu) as (ce2 & e2 & t2 & Hce2 & Hr2 & Hn2 & Hi2).
    rewrite Hce in Hce2. injection Hce2 as <-. rewrite Hr in Hr2. injection Hr2 as <- <-. split; [done|]. split; [done|]. eauto.
  - split; [done|]. split; [intros j Hj; specialize (Hi j Hj); cbn in *; lia|]. eauto.
  - destruct (maintenance_view _ _ _ _ Hn Hm) as [Hn' Hlat]. split; [done|]. split; [intros j Hj; apply Hi; by rewrite <- Hlat|]. eauto.
Qed.

Lemma world_reachable_inv k w : world_reachable k w -> world_inv w.
Proof.
  intros (c & Hc & Hr). pose proof (world_init_inv _ _ Hc) as Hinv. remember (mk_world c [] 0 0 empty_table) as w0 eqn:Hw0. clear Hw0 Hc.
  induction Hr as [|w1 w2 w3 Hs _ IH]; [done|]. apply IH. by eapply world_step_inv.
Qed.

(** C12: The storage node understands the contract.  However the node lags behind the chain, it
    converts the next event of the system contract and updates its table and epoch without a panic, exactly unless it
    is an update of the protocol version or the deletion of a deny-listed blob, as long as no
    blob has 2^32 - 1 objects. *)
Theorem node_handles_contract_events k w event rest : world_reachable k w -> w_pending w = event :: rest -> room (w_table w) ->
  (exists ce e' t', contract_event (w_index w) event = Ok ce /\ process_event_impl (w_epoch w) (w_table w) (w_index w) ce = Ok (e', t')) <->
  unsupported event = false.
Proof.
  intros (_ & Hi & v & v' & Hn & Ha & _)%world_reachable_inv Hp Hroom. rewrite Hp in Ha. inversion_clear Ha as [|? ? ? ? Hl _].
  destruct (unsupported event) eqn:Hu; (split; [intros (ce & e' & t' & Hce & Hr)|]); [|done|done|intros _].
  { by rewrite (unsupported_panics _ _ _ _ _ Hi Hu Hce) in Hr. }
  destruct (process_legal _ _ _ _ _ Hn Hi Hroom Hl Hu) as (ce & e' & t' & Hce & Hr & _). eauto.
Qed.

(** A blob lives on chain, on its own or in a storage pool, with the given epoch of certification. *)
Definition lives_on_chain (c : Chain) (b : Z) (certified : option Z) : Prop :=
  (exists id blob, blobs c !! id = Some blob /\ system_epoch (system c) < end_epoch (storage blob) /\ blob_id blob = b /\
    certified_epoch blob = certified) \/
  (exists id pool blob, pools c !! id = Some pool /\ system_epoch (system c) < pool_end pool /\ pool_blobs pool !! b = Some blob /\
    pooled_certified_epoch blob = certified).

Lemma live_in_table w v b certified : node_view v (w_epoch w) (w_table w) -> chain_view (w_chain w) v -> lives_on_chain (w_chain w) b certified ->
  live_object (w_epoch w) (w_table w) (blob_id_of_u256 b) /\
  forall ce, certified = Some ce -> live_certified (w_epoch w) (w_table w) (blob_id_of_u256 b) ce.
Proof.
  intros Hn Hc Hl. pose proof (nv_epoch _ _ _ Hn) as He. pose proof (cv_epoch _ _ Hc) as Hce.
  destruct Hl as [(id & blob & Hid & Hend & <- & <-)|(id & pool & blob & Hid & Hend & Hb & <-)].
  - destruct (nv_blobs _ _ _ Hn id (view_of_blob blob)) as (x & Hx & Hx1 & Hx2 & Hx3 & Hx4); [by apply (cv_blobs _ _ Hc)|cbn; lia|]. cbn in *.
    split; [left; exists id, x; split_and!; [done|done|lia]|]. intros ce Hcert. left. exists id, x. split_and!; [done|done|lia|congruence].
  - destruct (cv_pools _ _ Hc id pool Hid) as [Hpe Hpb]. destruct (Hpb b blob Hb) as [_ Hv].
    destruct (nv_pooled _ _ _ Hn _ _ Hv) as (x & Hx & Hx1 & Hx2 & Hx3); [exists (pool_end pool); cbn; split; [done|lia]|]. cbn in *.
    split; [right; eauto|]. intros ce Hcert. right. exists (pooled_object_id blob), x. split_and!; [done|done|congruence].
Qed.

(** C11: The node keeps what lives on chain.  Once the node has processed all events, every blob
    that has not expired on chain, on its own or in a storage pool, has an entry in the node's
    table; unless the blob was marked invalid, the entry says it is registered, its data may
    not be deleted and the entry neither, and if the blob is certified on chain the entry says
    so, with an initial epoch that is not later. *)
Theorem live_blobs_are_kept k w b certified : world_reachable k w -> w_pending w = [] -> lives_on_chain (w_chain w) b certified ->
  exists info, aggregate_blob_info (w_table w) !! blob_id_of_u256 b = Some info /\
    (is_invalid info = true \/
     (is_registered info (w_epoch w) = true /\ can_data_be_deleted info (w_epoch w) = false /\ can_blob_info_be_deleted info (w_epoch w) = false /\
      forall ce, certified = Some ce -> is_certified info (w_epoch w) = true /\ exists x, initial_certified_epoch info = Some x /\ x <= ce)).
Proof.
  intros (_ & _ & v & v' & Hn & Ha & Hc)%world_reachable_inv Hp Hl. rewrite Hp in Ha. inversion Ha; subst v'.
  destruct (live_in_table w v b certified Hn Hc Hl) as [Hlive Hcert]. destruct (live_entry _ _ _ (nv_inv _ _ _ Hn) Hlive) as (info & Hb & [Hi|(Hx1 & Hx2 & Hx3)]).
  { exists info. by eauto. }
  destruct (decide (is_invalid info = true)) as [Hi|Hi]; [by eauto|]. exists info. split; [done|]. right. split_and!; [done|done|done|].
  intros ce Hce. by destruct (certified_entry _ _ _ _ _ (nv_inv _ _ _ Hn) (Hcert ce Hce) Hb).
Qed.
End world.
