(* ===== verification/SystemExamples.v ===== *)
(** * A run of the system contract

    Four nodes with ten shards; a blob and a storage pool are paid for, the blob is
    certified, an event blob too, and a new epoch begins.  The curve is replaced by the
    integers.  The theorems on the contract apply to this run.  A
    storage node processes the events of the run. *)

From S2P Require Import Prelude Core PermBlobInfo BlobInfoRepr BlobInfoV1 BlobInfoV2 BlobInfoTable Batches BlobInfoRefinement.
From S2P Require Import BlobInfoSafety BlobInfoEvents BlobInfoProps NodeEvents.
From S2P Require Import Redstuff Merkle MoveStd StorageAccounting Certificates SystemObjects SystemState SystemContract.
From S2P Require Import SystemAccounting SystemEpochs SystemProps SystemInvariant EventBlobCertification ChainEvents ChainNode.

#[local] Existing Instance poly_hash.

(** ** Keys are integers *)

#[export] Instance toy_bls : Bls12381 := {|
  UncompressedG1 := Z;
  G1 := Z;
  uncompressed_g1_sum l := Ok (zsum l);
  uncompressed_g1_to_g1 k := k;
  g1_sub := Z.sub;
  g1_bytes k := le_bytes 48 k;
  min_pk_verify signature key message := bool_decide (signature = key ++ message);
|}.

#[export] Instance toy_bls_spec : BlsSpec.
Proof.
  constructor. intros l l1 l2 t Hp Ht. injection Ht as <-. exists (zsum l1), (zsum l2). split_and!; [done|done|]. cbn.
  assert (zsum l = zsum (l1 ++ l2)) as -> by by rewrite Hp.
  rewrite zsum_app. lia.
Qed.

(** ** The run *)

Definition toy_members : list BlsCommitteeMember :=
  [mk_member 11 4 1; mk_member 12 3 2; mk_member 13 2 3; mk_member 14 1 4].

Definition toy_committee (e : Z) : BlsCommittee := mk_bls_committee toy_members 10 e 50.

(** The signature of the members 1, 2 and 3. *)
Definition toy_signature (message : list byte) : list byte := le_bytes 48 36 ++ message.
Definition toy_bitmap : list byte := [byte_of 7].

Definition toy_start : Chain :=
  match create_empty 5 with Ok s => mk_chain s [] ∅ ∅ ∅ ∅ | _ => mk_chain (mk_system (toy_committee 0) 0 0 0 0 (ring_new 5) create_with_empty_state []) [] ∅ ∅ ∅ ∅ end.

Definition toy_blob_id (root : Z) : Z := derive_blob_id root 1 100.

Definition blob_certificate (e root : Z) : list byte :=
  [byte_of BLOB_CERT_MSG_TYPE; byte_of INTENT_VERSION; byte_of APP_ID] ++ le_bytes 4 e ++ le_bytes 32 (toy_blob_id root) ++ [byte_of 0].

Definition toy_calls : list Call :=
  [NewCap 1; NewCap 2; NewCap 3; NewCap 4; AdvanceEpoch (toy_committee 1) 100000000; SetStoragePrice 10; SetWritePrice 3;
   ReserveSpace 5000000 4 1000; SplitBySize 0 3000000; RegisterBlob 0 100 (toy_blob_id 7) 7 100 1 false 50;
   CertifyBlob 100 (toy_signature (blob_certificate 1 7)) toy_bitmap (blob_certificate 1 7);
   CreateStoragePool 200 4000000 3 1000; RegisterPooledBlob 200 101 (toy_blob_id 8) 8 100 1 true 50;
   CertifyEventBlob 1 102 (toy_blob_id 9) 9 100 1 40 1; CertifyEventBlob 2 103 (toy_blob_id 9) 9 100 1 40 1].

(** ** Executing calls *)

Definition committee_allowed (cm : BlsCommittee) : bool :=
  match new_bls_committee (epoch cm) (members cm) with
  | Ok cm' => (n_shards cm' =? n_shards cm) && ((total_aggregated_key cm' : Z) =? total_aggregated_key cm)
  | _ => false
  end && bool_decide (NoDup (node_id <$> members cm)) && (n_shards cm =? 10).

Definition allowed (call : Call) (c : Chain) : bool :=
  match call with
  | RegisterBlob _ id _ _ _ _ _ _ | CreateStoragePool id _ _ _ | CreateStoragePoolWithStorage id _
  | RegisterPooledBlob _ id _ _ _ _ _ _ | CertifyEventBlob _ id _ _ _ _ _ _ => bool_decide (id ∉ used_ids c)
  | SplitBySize _ n | DecreaseStoragePoolCapacityBySize _ n | DecreaseStoragePoolUnusedCapacityByPercent _ n => 0 <=? n
  | AdvanceEpoch cm _ => committee_allowed cm
  | _ => true
  end.

Lemma allowed_sound call c : allowed call c = true -> call_allowed 10 call c.
Proof.
  unfold call_allowed. intros Ha. destruct call; cbn [allowed call_fresh call_unsigned call_committee] in *;
    try (by split_and!); try (apply bool_decide_eq_true in Ha; by split_and!); try (apply Z.leb_le in Ha; by split_and!).
  unfold committee_allowed in Ha. rewrite !andb_true_iff in Ha. destruct Ha as [[Hc Hnd] Hn].
  destruct (new_bls_committee _ _) as [cm| |] eqn:Hcm; [|done|done]. apply new_bls_committee_wf in Hcm as (Hwf & Hm & He).
  apply andb_true_iff in Hc as [H1%Z.eqb_eq H2%Z.eqb_eq]. apply bool_decide_eq_true in Hnd. apply Z.eqb_eq in Hn.
  assert (cm = new_committee) as -> by (destruct cm, new_committee; cbn in *; congruence). by split_and!.
Qed.

Fixpoint run_calls (calls : list Call) (c : Chain) : option (Chain * list SystemEvent * Z) :=
  match calls with
  | [] => Some (c, [], 0)
  | call :: calls =>
    if allowed call c then
      match execute call c with
      | Ok (c1, events, paid) =>
        match run_calls calls c1 with Some (c2, events', paid') => Some (c2, events ++ events', paid + paid') | None => None end
      | _ => None
      end
    else None
  end.

Lemma run_sound k calls c c' events paid total : run_calls calls c = Some (c', events, paid) -> chain_reachable 10 k c total ->
  chain_reachable 10 k c' (total + paid).
Proof.
  revert c events paid total. induction calls as [|call calls IH]; intros c events paid total Hr Hc; cbn in Hr.
  { injection Hr as <- <- <-. by rewrite Z.add_0_r. }
  destruct (allowed call c) eqn:Ha; [|done]. destruct (execute call c) as [[[c1 ev] p]| |] eqn:He; [|done|done].
  destruct (run_calls calls c1) as [[[c2 ev2] p2]|] eqn:Hrun; [|done]. injection Hr as <- <- <-. rewrite Z.add_assoc.
  eapply IH; [exact Hrun|]. eapply cr_step; [exact Hc|]. econstructor; [by apply allowed_sound|exact He].
Qed.

Lemma run_sound_calls k calls c c' events paid before : run_calls calls c = Some (c', events, paid) -> chain_run 10 k before c ->
  chain_run 10 k (before ++ calls) c'.
Proof.
  revert c events paid before. induction calls as [|call calls IH]; intros c events paid before Hr Hc; cbn in Hr.
  { injection Hr as <- <- <-. by rewrite app_nil_r. }
  destruct (allowed call c) eqn:Ha; [|done]. destruct (execute call c) as [[[c1 ev] p]| |] eqn:He; [|done|done].
  destruct (run_calls calls c1) as [[[c2 ev2] p2]|] eqn:Hrun; [|done]. injection Hr as <- <- <-.
  rewrite cons_middle, app_assoc. eapply IH; [exact Hrun|]. eapply run_call; [exact Hc|by apply allowed_sound|exact He].
Qed.

(** ** The states of the run *)

Definition toy_result (calls : list Call) : Chain * list SystemEvent * Z := default (toy_start, [], 0) (run_calls calls toy_start).

(** Before the second attestation to the event blob, and at the end of the run. *)
Definition toy_before : Chain := (toy_result (take 14 toy_calls)).1.1.
Definition toy_final : Chain := (toy_result toy_calls).1.1.

Lemma toy_init : chain_init 5 toy_start.
Proof. by split_and!. Qed.

Definition ran (calls : list Call) : bool := if run_calls calls toy_start then true else false.

Lemma toy_run_ok calls : ran calls = true -> run_calls calls toy_start = Some (toy_result calls).
Proof. unfold ran, toy_result. by destruct (run_calls calls toy_start). Qed.

Lemma toy_reachable calls : ran calls = true -> chain_reachable 10 5 (toy_result calls).1.1 (toy_result calls).2.
Proof.
  intros Hr. apply (run_sound 5 calls toy_start _ (toy_result calls).1.2 _ 0); [|by apply cr_init, toy_init].
  rewrite (toy_run_ok calls Hr). by destruct (toy_result calls) as [[? ?] ?].
Qed.

Lemma toy_chain_run calls : ran calls = true -> chain_run 10 5 calls (toy_result calls).1.1.
Proof.
  intros Hr. apply (run_sound_calls 5 calls toy_start _ (toy_result calls).1.2 (toy_result calls).2 []); [|by apply run_init, toy_init].
  rewrite (toy_run_ok calls Hr). by destruct (toy_result calls) as [[? ?] ?].
Qed.

Lemma toy_final_reachable : chain_reachable 10 5 toy_final (toy_result toy_calls).2.
Proof. apply toy_reachable. by vm_compute. Qed.

(** ** Witnesses *)

(** The certificate of members 1, 2 and 3, with nine of ten shards, is accepted. *)
Lemma certificate_accepted_witness :
  verify_certificate_and_weight (toy_committee 1) (toy_signature (blob_certificate 1 7)) toy_bitmap (blob_certificate 1 7) Quorum = Ok 9.
Proof.
  apply (proj1 (certificate_accepted 1 toy_members (toy_committee 1) eq_refl)). split_and!; [|done|done|].
  - split; [done|]. apply (clear_bits_spec toy_bitmap 4 1); [by cbn; lia|]. by vm_compute.
  - exists 36. split; [done|]. by vm_compute.
Defined.

(** 326 units are paid for 9 MB in the current epoch: the blob and the resource split from its
    storage, and the pool. *)
Lemma storage_is_accounted_witness : treasury (future_accounting (system toy_final)) = 326 /\ in_total (cover 1) toy_final = 9000000.
Proof. split; [rewrite (proj1 (storage_is_accounted 10 5 toy_final _ toy_final_reachable))|]; by vm_compute. Defined.

Definition toy_pool : StoragePool := default (pool_create 0 (mk_storage 0 0 0)) (pools toy_final !! 200).

Lemma pool_has_room_for_blobs_witness : blob_count toy_pool = 1 /\ used_encoded_bytes toy_pool = 7160 /\
  exists p blob, remove_blob toy_pool (toy_blob_id 8) 10 = Ok (blob, p).
Proof.
  assert (pools toy_final !! 200 = Some toy_pool) as Hp by by vm_compute.
  destruct (pool_has_room_for_blobs 10 5 toy_final _ 200 toy_pool toy_final_reachable Hp) as (_ & _ & _ & Hrem & _).
  split; [by vm_compute|]. split; [by vm_compute|].
  edestruct (Hrem (toy_blob_id 8)) as (p & Hr & _); [by vm_compute|]. by eexists p, _.
Defined.

Definition toy_attestation : Call := CertifyEventBlob 2 103 (toy_blob_id 9) 9 100 1 40 1.

Definition emits (call : Call) (c : Chain) : bool :=
  match execute call c with Ok (_, _ :: _, _) => true | _ => false end.

Lemma event_blob_needs_quorum_witness : exists signers, NoDup signers /\
  2 * n_shards (committee (system toy_before)) + 1 <= 3 * zsum (node_weight (committee (system toy_before)) <$> signers).
Proof.
  assert (emits toy_attestation toy_before = true) as He by (vm_compute; reflexivity). unfold emits in He.
  destruct (execute toy_attestation toy_before) as [[[c' [|ev events]] paid]| |] eqn:Hr; try discriminate He.
  destruct (event_blob_needs_quorum 10 5 (take 14 toy_calls) toy_before 2 103 (toy_blob_id 9) 9 100 1 40 1 c' (ev :: events) paid)
    as [(signers & Hnd & Hq & _) _].
  - apply (toy_chain_run (take 14 toy_calls)). by vm_compute.
  - exact Hr.
  - done.
  - exists signers. split; [exact Hnd|exact Hq].
Defined.

Definition toy_accounts : list FutureAccounting := window (future_accounting (system toy_final)).

Lemma rewards_are_distributed_witness :
  exists s', advance_epoch (system toy_final) (toy_committee 2) 100000000 = Ok (s', [(1, 38); (2, 28); (3, 19); (4, 9)]).
Proof.
  destruct (chain_reachable_inv 10 5 _ _ toy_final_reachable) as ([Hok [Hbls Hnd] _ _ _ _] & _ & _).
  edestruct (rewards_are_distributed (system toy_final) (mk_accounting 1 9007160 96) (drop 1 toy_accounts) (toy_committee 2) 100000000) as (s' & Hs & _);
    [exact Hok|exact Hbls|exact Hnd|by vm_compute|by vm_compute|by vm_compute| |by vm_compute|by vm_compute|by vm_compute|by vm_compute|].
  { by vm_compute; repeat constructor. }
  exists s'. rewrite Hs. by do 2 f_equal.
Defined.

(** ** The storage node that follows the contract *)

#[local] Existing Instance release_build.

(** A call of the contract, or an event processed by the node. *)
Inductive Action :=
| ACall (call : Call)
| AEvent.

Definition small (t : BlobInfoTable) : bool :=
  (Z.of_nat (size (per_object_blob_info t)) <? u32_MAX) && (Z.of_nat (size (per_object_pooled_blob_info t)) <? u32_MAX).

Definition act (a : Action) (w : World) : option World :=
  match a with
  | ACall call =>
    if allowed call (w_chain w) then
      match execute call (w_chain w) with
      | Ok (c, events, _) => Some (mk_world c (w_pending w ++ events) (w_index w) (w_epoch w) (w_table w))
      | _ => None
      end
    else None
  | AEvent =>
    match w_pending w with
    | event :: pending =>
      if small (w_table w) then
        match contract_event (w_index w) event with
        | Ok ce =>
          match process_event_impl (w_epoch w) (w_table w) (w_index w) ce with
          | Ok (e, t) => Some (mk_world (w_chain w) pending (w_index w + 1) e t)
          | _ => None
          end
        | _ => None
        end
      else None
    | [] => None
    end
  end.

Lemma small_room t : small t = true -> room t.
Proof. intros [H1%Z.ltb_lt H2%Z.ltb_lt]%andb_true_iff. by apply room_small. Qed.

Lemma act_sound a w w' : act a w = Some w' -> world_step 10 w w'.
Proof.
  destruct w as [c pending i e t]. destruct a as [call|]; cbn.
  - destruct (allowed call c) eqn:Ha; [|done]. destruct (execute call c) as [[[c' ev] paid]| |] eqn:He; [|done|done]. intros [= <-].
    eapply ws_call; [by apply allowed_sound|exact He].
  - destruct pending as [|event pending]; [done|]. destruct (small t) eqn:Hs; [|done]. destruct (contract_event i event) as [ce| |] eqn:Hce; [|done|done].
    destruct (process_event_impl e t i ce) as [[e' t']| |] eqn:Hp; [|done|done]. intros [= <-]. eapply ws_event; [by apply small_room|exact Hce|exact Hp].
Qed.

Definition actions (l : list Action) (w : World) : option World := foldl (fun w a => w ≫= act a) (Some w) l.

Definition world_start : World := mk_world toy_start [] 0 0 empty_table.

Lemma actions_sound l w w' : actions l w = Some w' -> rtc (world_step 10) w w'.
Proof.
  unfold actions. revert w. induction l as [|a l IH]; intros w Hr; cbn in Hr; [by injection Hr as <-|].
  destruct (act a w) as [w1|] eqn:Ha; [eapply rtc_l; [exact (act_sound _ _ _ Ha)|by apply IH]|].
  assert (foldl (fun w a => w ≫= act a) None l = None) as Hn by (clear; by induction l). by rewrite Hn in Hr.
Qed.

(** The node has processed the first two events, or all seven. *)
Definition world_after (events : nat) : World :=
  default world_start (actions ((ACall <$> toy_calls) ++ replicate events AEvent) world_start).

Definition world_ran (events : nat) : bool :=
  if actions ((ACall <$> toy_calls) ++ replicate events AEvent) world_start then true else false.

Lemma world_after_reachable events : world_ran events = true -> world_reachable 10 5 (world_after events).
Proof.
  unfold world_ran, world_after. intros Hr. exists toy_start. split; [exact toy_init|].
  destruct (actions _ world_start) as [w|] eqn:Ha; [|done]. by apply (actions_sound _ _ _ Ha).
Qed.

Lemma node_handles_contract_events_witness : exists event rest, w_pending (world_after 2) = event :: rest /\
  exists ce e' t', contract_event (w_index (world_after 2)) event = Ok ce /\
    process_event_impl (w_epoch (world_after 2)) (w_table (world_after 2)) (w_index (world_after 2)) ce = Ok (e', t').
Proof.
  do 2 eexists. split; [vm_compute; reflexivity|].
  eapply (node_handles_contract_events 10 5 (world_after 2)); [apply world_after_reachable; vm_compute; reflexivity|vm_compute; reflexivity| |reflexivity].
  apply small_room. vm_compute. reflexivity.
Defined.

Lemma live_blobs_are_kept_witness : exists info, aggregate_blob_info (w_table (world_after 7)) !! blob_id_of_u256 (toy_blob_id 7) = Some info /\
  (is_invalid info = true \/ (is_registered info (w_epoch (world_after 7)) = true /\ can_data_be_deleted info (w_epoch (world_after 7)) = false)).
Proof.
  destruct (live_blobs_are_kept 10 5 (world_after 7) (toy_blob_id 7) (Some 1)) as (info & Hinfo & Hk).
  - apply world_after_reachable. vm_compute. reflexivity.
  - vm_compute. reflexivity.
  - left. exists 100. eexists. split; [vm_compute; reflexivity|]. split_and!; vm_compute; reflexivity.
  - exists info. split; [exact Hinfo|]. destruct Hk as [Hi|(Hr & Hd & _)]; [left; exact Hi|right; split; [exact Hr|exact Hd]].
Defined.
